(* ===== verification/_CoqProject ===== *)
-Q . S2P
Prelude.v
Layout.v
ViewStride.v
Contiguity.v
Overlap.v
SafeNum.v
TensorMeta.v
Broadcast.v
MemoryOverlap.v
BitMath.v
DispatchKey.v
DispatchKeySet.v
ScalarType.v
FloatBits.v
FloatRounding.v
CachingAllocator.v
DeviceRuntime.v
ExpandableSegment.v
XPUBlocks.v
XPUAllocator.v
XPUHeap.v
XPUInvariant.v
XPUMerge.v
XPUFree.v
XPUEvents.v
XPURelease.v
XPUAlloc.v
XPUMalloc.v
XPUApi.v
XPUUse.v
XPUPools.v
XPUSteps.v
XPUContract.v
AutogradGraph.v
AutogradPlan.v
AutogradSearch.v
AutogradEngine.v
AutogradRun.v
AutogradPass.v
AutogradStart.v
AutogradOutcome.v
AutogradExecute.v
AutogradThread.v
AutogradContract.v
OperatorSchema.v
DispatchKeyExtractor.v
FallthroughKeys.v
BoxedKeys.v
OperatorEntry.v
OperatorTable.v
OperatorUpdate.v
OperatorConstruction.v
OperatorRegistration.v
Dispatcher.v
DispatcherInvariant.v
DispatcherRegister.v
DispatcherRelease.v
DispatcherRuns.v
DispatcherContract.v
DispatcherErrors.v
TensorIterator.v
TensorIteratorLoops.v
IterSpace.v
IterDims.v
IterLoops.v
IterSplit.v
IterReduce.v
TensorStore.v
StoreFacts.v
TensorCPU.v
TensorIteratorConfig.v
TensorIteratorBuild.v
IterOperands.v
IterTypes.v
IterPrepare.v
IterOutputs.v
IterLayout.v
IterBuild.v
IterContract.v
