(* ===== verification/Prelude.v ===== *)
(** * A verification development for the GoTorch / libtorch C++ core

    The repository is a Go binding (gotorch.go, csrc/go_binding) on top of the
    C++ library of PyTorch: c10 (tensors, dispatch keys, memory), aten (the
    operators), torch/csrc (autograd, distributed, TorchScript).  This
    development models the parts that decide what a tensor is - how its elements
    are laid out in memory, which kernel a call is dispatched to, which dtype its
    result has, how a number is stored in it, and where its memory comes from -
    and the engine that computes gradients.

    ** Parts and files

    Foundations.  Prelude (this file): errors, methods on an object
    ([method S A], with the weakest preconditions [wp] and [wpx]), automation,
    sorting.  Layout: the addresses of the elements of a strided tensor, the
    notion in which the shape theorems are stated; it models no code.

    Shapes and strides.
    - ViewStride: [computeStride] of aten/src/ATen/TensorUtils.cpp.
    - Contiguity: c10/core/Contiguity.h, MemoryFormat.h, c10/util/strides.h.
    - Overlap: [_compute_non_overlapping_and_dense], [infer_dense_strides].
    - SafeNum: c10/util/safe_numerics.h and the storage sizes of EmptyTensor.cpp.
    - TensorMeta: the shape fields of c10::TensorImpl, their caches and the
      methods that change them, as a state machine of calls.
    - Broadcast: ExpandUtils.cpp, InferSize.h, WrapDimMinimal.h.
    - MemoryOverlap: aten/src/ATen/MemoryOverlap.cpp.

    Iteration: the tensor iterator, by which every elementwise operator and
    reduction reaches the elements of its operands.
    - TensorIterator: the operands and dimensions of aten/src/ATen/TensorIterator.cpp,
      with reordering, coalescing, narrowing and splitting.
    - TensorIteratorLoops: [DimCounter], serial and parallel loops and reductions
      (TensorIteratorInternal.h, Parallel-inl.h, ParallelOpenMP.h,
      ParallelNative.cpp, native/TensorIteratorReduce.cpp), by the calls they make.
    - IterSpace: the elements an iterator visits, and that coalescing keeps them;
      IterDims: reordering; IterLoops: what the loops visit; IterSplit: parts and
      32-bit indexing; IterReduce: parallel reductions.
    - TensorStore: tensors and storages in an explicit store; the composite
      operators empty_like, to and resize_output (native/TensorFactories.cpp,
      TensorConversions.cpp, Resize.cpp); the operators of a back end as a class
      [TensorOperators], and what construction relies on as its laws,
      [LawfulOperators].  TensorCPU: the CPU implementation (EmptyTensor.cpp,
      native/Resize.{h,cpp}, TensorShape.cpp) and the proof of the laws.
      StoreFacts: lemmas on stores.
    - TensorIteratorConfig: the methods of the class of that name, and the
      configurations of the common operators.  TensorIteratorBuild:
      [TensorIteratorBase::build] and everything it calls, with its effects on the
      store: operands, overlap checks, common shape and dtype, temporaries,
      outputs, the fast and the normal set-up; and [cast_outputs].
    - IterOperands, IterTypes, IterPrepare: what holds of the operands when the
      dimensions are set up; IterOutputs: what happens to the outputs; IterLayout:
      strides after broadcasting, and the elements they reach; IterBuild: both
      set-ups; IterContract: the properties of a built iterator, proved
      against [LawfulOperators].

    Numbers.
    - BitMath: c10/util/llvmMathExtras.h on 64-bit integers.
    - FloatBits, FloatRounding: the half, bfloat16 and 8-bit formats of
      torch/headeronly/util on bit patterns, against SpecFloat.
    - ScalarType: dtypes, promotion, result types.

    Dispatch.
    - DispatchKey, DispatchKeySet: c10/core/DispatchKey.{h,cpp} and
      DispatchKeySet.{h,cpp}.
    - OperatorSchema: operator names, and what the dispatcher reads of schemas
      (aten/src/ATen/core/operator_name.h, function_schema.cpp,
      infer_schema.cpp); types are the class [OperatorTypes].
    - DispatchKeyExtractor: thread-local keys (LocalDispatchKeySet), bit sets
      (Bitset.h) and the keys of a call (DispatchKeyExtractor.{h,cpp});
      FallthroughKeys: the keys it skips; BoxedKeys: boxed against unboxed calls.
    - OperatorEntry: the kernels of an operator and its table (OperatorEntry.cpp);
      OperatorTable: the kernel the registrations choose; OperatorUpdate,
      OperatorConstruction, OperatorRegistration: what the methods do to it.
    - Dispatcher: the registry of operators, registrations and their handles,
      calls (Dispatcher.{h,cpp}); DispatcherInvariant, DispatcherRegister,
      DispatcherRelease: its invariant and a specification of each method;
      DispatcherRuns: registrations made, refused and released in any order;
      DispatcherContract, DispatcherErrors: the properties of all states reached.

    Memory: the caching allocator of c10/xpu/XPUCachingAllocator.cpp.
    - CachingAllocator: sizes, statistics, the trace buffer, [std::set].
    - DeviceRuntime: what the allocator uses of SYCL and of pluggable
      allocators, as a class of operations with laws, and a device that has
      them.  This is code outside the repository: the operations are
      parameters of the model.
    - ExpandableSegment: the class of that name, in full.
    - XPUBlocks: the data of [DeviceCachingAllocator] with an explicit store
      of blocks; XPUAllocator: its methods, one definition each.
    - XPUHeap: what the methods do to the blocks, as functions on heaps;
      XPUInvariant: the invariant; XPUMerge, XPUFree, XPUEvents, XPURelease,
      XPUAlloc, XPUMalloc, XPUUse, XPUPools: a specification of each
      method; XPUApi: [malloc]; XPUSteps: the calls of a program as steps;
      XPUContract: the properties of all reachable states.

    Autograd: torch/csrc/autograd.
    - AutogradGraph: [Edge] and [Node] of edge.h and node.h, the construction of
      graphs and the topological numbers.
    - AutogradPlan: [compute_dependencies] and [init_to_execute] of engine.cpp,
      with the counting of edges; AutogradSearch: what the search marks.
    - AutogradEngine: [GraphTask], the ready queue, [InputBuffer], the evaluation
      of functions and [execute]; the threads of all devices as a step relation
      on [Pass], in which the tasks of a pass are started, evaluated and counted
      in any order.
    - AutogradRun, AutogradPass: the invariant of a pass under all
      interleavings; AutogradStart: the plan starts it; AutogradOutcome: what
      the account of a finished pass comes to; AutogradExecute: [execute].
    - AutogradThread: [thread_main] on the calling thread, the priority of the
      ready queue, and [get_current_graph_task_execution_order].
    - AutogradContract: the properties of a backward pass, and an example.
    ** What the theorems show

    - Shapes: [computeStride] decides whether a view exists and returns the
      strides of the view; broadcasting is the least upper bound; expansion
      shows each element where it is; the contiguity, density and overlap tests
      agree with the addresses of the elements; the caches of a tensor are
      fresh after every sequence of calls; storage sizes are exact, and
      overflow is detected.
    - Iteration: coalescing keeps the elements and their order and leaves nothing
      to coalesce; reordering permutes the dimensions and, unless linear iteration is
      enforced, sorts them by the first operand that keeps its size; the calls
      of all threads touch every element once, for any number of threads; the
      division for 32-bit indexing ends and covers the iterator, with offsets below
      2^31 for the operands without negative strides, unless it is a reduction
      (a theorem shows one that fails); reductions in parallel by
      columns or by output element cover the iterator.
    - Construction: an iterator that is built visits each index of the broadcast
      shape once, at the addresses of the elements of the operands with that
      index, on the fast and on the normal path alike, so that a loop over it does
      exactly the elementwise operation; every address lies in the storage of its
      tensor; the operands have one dtype, the promoted one, when promotion
      and casting are asked for; tensors that cannot be broadcast are refused, with
      all tensors left as they were, and so are outputs that repeat elements along
      a dimension or overlap an input in part, both being dense; these are the
      only overlaps that are refused ([undetected_overlap] is another); [resize_] makes room for all elements and leaves other
      tensors alone.
    - Numbers: conversions round correctly and are exact on representable
      values (with the one exception found); promotion is a join.
    - Dispatch: the slot of a key set in the operator table, iteration over a
      set, the relations between backends, autograd keys and alias keys, and
      round trips of names; a call runs the kernel of the highest key of its
      arguments and its thread that is not fallthrough; the table of an operator
      holds what its registrations choose by precedence, at every key whose slot
      is refreshed when it should be (those that are not are listed); operators,
      their counts, schemas and kernels are what the outstanding registrations
      say, releasing a handle never throws, and a kernel that is registered and
      deregistered leaves the table as it was.
    - Memory: blocks in use never overlap and lie in live device memory; the
      cache is exactly the set of unused blocks, with no two adjacent; the best
      fit is found; the statistics are exact; memory that a stream may still
      use is not reused; the live memory of the device is what it held at first and
      the segments of the blocks, so that nothing leaks, and after [emptyCache] no
      segment is left without a block in use; no call that keeps the rules is undefined or fails an assertion.
    - Autograd: a path in a graph leads to smaller topological numbers; a pass
      ends, whatever the interleaving, with the exception of one of its calls or
      with a result; it evaluates exactly the functions that take part, once, with
      the sums of all gradients sent to them, and calls those of them that have
      gradients to propagate; [grad] returns the right ones; the
      result does not depend on the interleaving when the addition is
      commutative and associative; a single thread completes a pass, in the
      order that is predicted.
    ** Conventions, bounds and fuel

    Machine integers are Z with the wrap-around written out where the code can
    overflow.  [TORCH_CHECK] and the like throw values of [exn]; undefined
    behaviour of C++ is the exception [UndefinedBehaviour].  A method that
    throws leaves the state it had reached.  Loops over dimensions, blocks of a
    pool, queues and streams are structural.  Fuel is used for: iteration over
    a key set (64, one per functionality at most); Euclid's algorithm (B + 1);
    bisection (the width in bits); the walks along a chain of blocks of an
    expandable segment (the number of blocks allocated so far, as a chain
    visits a block once); the expansion of the autograd graph (a node is taken
    from the stack once) and the search in it (each turn sees a node for the
    first time or removes a frame); the loop of a thread (a function is called
    once); a serial loop over a range (an element at least is handled by each
    call); the division of an iterator (a part has an element at least).  The iteration order of a hash map or a hash set
    (event queues, stream sets, freeable pools) is the order of insertion: no
    property depends on it, since each is about all of the elements.

    The extents of the operands of an iterator are assumed to fit in 64 bits; of
    tensors, that 16 bytes (the size of the largest dtype) times the product of
    the sizes, a zero size taken for one, is at most 2^63 - 1 ([extent_fits]).
    The properties of construction are of configurations without a static shape,
    of CPU tensors, whose outputs are distinct, with an input or a single output
    that is not cast ([config_ok]).  The allocator and the copying of contents are
    parameters; the CPU operators have the laws whatever these do.
    The number of threads of a parallel region is any positive number; the
    division of work of OpenMP and of the native thread pool, and a build without
    threads, are all covered.

    The properties of runs of the XPU allocator assume that expandable segments
    are off ([plain_config]) and that the program passes only blocks it holds,
    does not release a pool more often than it used it, does not lower the
    limit of a history it keeps, and empties the cache of a single pool only
    when no other pool waits for events ([allowed_call]); the last two are
    flaws of the code, shown by theorems of their own.  Requests are at most
    2^64 - 2^21 bytes.

    The properties of a backward pass assume that edges lead to inputs that
    exist and that hooks keep the number of gradients ([graph_ok]).  The sum of
    two gradients and the check of a gradient against the metadata of an input
    are parameters, since they are tensor operations.

    Operations of the dispatcher hold its mutex and are run one after the other;
    the listeners they call are taken not to throw.
    Kernels are the identities of their functions, and are registered to runtime
    or alias keys ([request_ok]); the bit of each argument is one of 64.

    ** Not modelled

    Numerical kernels, generated code, device back ends and TorchScript, being
    outside what the shape and memory logic decides, or too large; symbolic
    sizes; of the autograd engine streams, re-entrant passes, the wake-up of
    sleeping threads, anomaly mode, final callbacks and compiled autograd; of the
    dispatcher the calling and boxing of kernels, profiling, Python modules and
    waiting for registrations; locks: a method of the allocator runs with its
    mutex held, so that it is a single step, and the callbacks it makes are left
    out; stack
    contexts, time stamps and trace trackers; [snapshot] and the wrapper
    [NativeCachingAllocator].  The CUDA allocator has the design of the XPU
    allocator with graph checkpoints and garbage collection added.  Of the
    tensor iterator the names of dimensions, the set_output of structured kernels,
    and the two-pass reduction; [cast_outputs] is modelled without a theorem, and
    so are static shapes and devices other than the CPU, which construction
    handles.  The contents of memory.  Named tensors and the random number
    engines, which no modelled part uses. *)

From stdpp Require Export prelude list strings gmap.
From Stdlib Require Export ZArith Lia Sorted.

#[global] Open Scope Z_scope.

(** ** Errors.  [TORCH_CHECK] throws [c10::Error], [TORCH_CHECK_INDEX]
    throws [c10::IndexError], [TORCH_INTERNAL_ASSERT] an internal error,
    [TORCH_CHECK_WITH (OutOfMemoryError, ...)] an out-of-memory error and
    [TORCH_CHECK_NOT_IMPLEMENTED] [c10::NotImplementedError].  The
    string is the literal the message of the source starts with.
    [UndefinedBehaviour] is what C++ leaves undefined: the use of a null
    pointer or of a deleted object, and an access out of range. *)
Inductive exn : Type :=
  | Error (msg : string)
  | IndexError (msg : string)
  | InternalAssert (msg : string)
  | OutOfMemoryError (msg : string)
  | NotImplementedError (msg : string)
  | UndefinedBehaviour (msg : string).

(** The result of code that may throw. *)
Inductive result (A : Type) : Type :=
  | Ok (a : A)
  | Throw (e : exn).
Arguments Ok {A} a.
Arguments Throw {A} e.

#[export] Instance exn_eq_dec : EqDecision exn.
Proof. solve_decision. Defined.
#[export] Instance result_eq_dec {A} `{EqDecision A} : EqDecision (result A).
Proof. solve_decision. Defined.

#[export] Instance result_ret : MRet result := fun A a => Ok a.
#[export] Instance result_bind : MBind result := fun A B k m =>
  match m with Ok a => k a | Throw e => Throw e end.
#[export] Instance result_fmap : FMap result := fun A B f m =>
  match m with Ok a => Ok (f a) | Throw e => Throw e end.

Definition TORCH_CHECK (b : bool) (msg : string) : result unit :=
  if b then Ok tt else Throw (Error msg).
Definition TORCH_CHECK_INDEX (b : bool) (msg : string) : result unit :=
  if b then Ok tt else Throw (IndexError msg).
Definition TORCH_INTERNAL_ASSERT (b : bool) (msg : string) : result unit :=
  if b then Ok tt else Throw (InternalAssert msg).

Definition is_ok {A} (m : result A) : bool :=
  match m with Ok _ => true | Throw _ => false end.

Lemma bind_Ok {A B} (m : result A) (k : A → result B) b :
  (m ≫= k) = Ok b ↔ ∃ a, m = Ok a ∧ k a = Ok b.
Proof.
  destruct m as [a|e]; unfold mbind; simpl; split; [eauto| |done|]; intros (x & ? & ?); congruence.
Qed.

Lemma TORCH_CHECK_Ok b msg u : TORCH_CHECK b msg = Ok u ↔ b = true.
Proof. destruct b, u; simpl; naive_solver. Qed.

(** ** Methods: code that reads and writes an object and may throw, leaving
    the object as it was when the exception was raised. *)
Definition method (S A : Type) : Type := S → S * result A.

#[export] Instance method_ret S : MRet (method S) := fun A a s => (s, Ok a).
#[export] Instance method_bind S : MBind (method S) := fun A B k m s =>
  match m s with
  | (s', Ok a) => k a s'
  | (s', Throw e) => (s', Throw e)
  end.

(** [lift] runs code that does not touch the object, [reads] evaluates an
    expression over its fields, [modify] assigns to them. *)
Definition lift {S A} (m : result A) : method S A := fun s => (s, m).
Definition reads {S A} (f : S → A) : method S A := fun s => (s, Ok (f s)).
Definition modify {S} (f : S → S) : method S unit := fun s => (f s, Ok tt).

Lemma method_bind_Ok {S A B} (m : method S A) (k : A → method S B) s s' b :
  (m ≫= k) s = (s', Ok b) ↔ ∃ s1 a, m s = (s1, Ok a) ∧ k a s1 = (s', Ok b).
Proof.
  unfold mbind, method_bind. destruct (m s) as [s1 [a|e]]; split; [eauto| |done|]; naive_solver.
Qed.

(** Runs the method call [H : m s = (s', Ok a)] statement by statement. *)
Ltac method_step H :=
  apply method_bind_Ok in H;
  let s := fresh "t" in let a := fresh "a" in let E := fresh "E" in
  destruct H as (s & a & E & H).

(** Total correctness of a method: it returns, and the new object and the
    value returned satisfy the postcondition. *)
Definition wp {S A} (m : method S A) (Q : A → S → Prop) (s : S) : Prop :=
  match m s with (s', Ok a) => Q a s' | (_, Throw _) => False end.

Section WeakestPre.
Context {S : Type}.

Lemma wp_run {A} (m : method S A) Q s : wp m Q s ↔ ∃ s' a, m s = (s', Ok a) ∧ Q a s'.
Proof. unfold wp. destruct (m s) as [s' [a|e]]; naive_solver. Qed.

Lemma wp_ret {A} (a : A) Q (s : S) : wp (mret a) Q s ↔ Q a s.
Proof. done. Qed.

Lemma wp_bind {A B} (m : method S A) (k : A → method S B) Q s :
  wp (m ≫= k) Q s ↔ wp m (λ a, wp (k a) Q) s.
Proof. unfold wp, mbind, method_bind. by destruct (m s) as [s' [a|e]]. Qed.

Lemma wp_mono {A} (m : method S A) (Q R : A → S → Prop) s :
  wp m Q s → (∀ a s', m s = (s', Ok a) → Q a s' → R a s') → wp m R s.
Proof. unfold wp. destruct (m s) as [s' [a|e]]; auto. Qed.

Lemma wp_modify (f : S → S) Q s : wp (modify f) Q s ↔ Q tt (f s).
Proof. done. Qed.

Lemma wp_reads {A} (f : S → A) Q s : wp (reads f) Q s ↔ Q (f s) s.
Proof. done. Qed.

Lemma wp_lift {A} (m : result A) Q (s : S) : wp (lift m) Q s ↔ ∃ a, m = Ok a ∧ Q a s.
Proof. unfold wp, lift. destruct m; naive_solver. Qed.

Lemma wp_assert b msg Q (s : S) : b = true → Q tt s → wp (lift (TORCH_INTERNAL_ASSERT b msg)) Q s.
Proof. by intros ->. Qed.
End WeakestPre.

(** The same with a postcondition for exceptions. *)
Definition wpx {S A} (m : method S A) (Q : A → S → Prop) (E : exn → S → Prop) (s : S) : Prop :=
  match m s with (s', Ok a) => Q a s' | (s', Throw e) => E e s' end.

Section WeakestPreExn.
Context {S : Type}.

Lemma wpx_wp {A} (m : method S A) Q E s : wp m Q s → wpx m Q E s.
Proof. unfold wp, wpx. by destruct (m s) as [s' [a|e]]. Qed.

Lemma wpx_bind {A B} (m : method S A) (k : A → method S B) Q E s :
  wpx m (λ a, wpx (k a) Q E) E s → wpx (m ≫= k) Q E s.
Proof. unfold wpx, mbind, method_bind. by destruct (m s) as [s' [a|e]]. Qed.

Lemma wpx_bind_wp {A B} (m : method S A) (k : A → method S B) Q E s :
  wp m (λ a, wpx (k a) Q E) s → wpx (m ≫= k) Q E s.
Proof. intros Hm. by apply wpx_bind, wpx_wp. Qed.

Lemma wpx_mono {A} (m : method S A) (Q Q' : A → S → Prop) (E E' : exn → S → Prop) s :
  wpx m Q E s → (∀ a s', Q a s' → Q' a s') → (∀ e s', E e s' → E' e s') → wpx m Q' E' s.
Proof. unfold wpx. destruct (m s) as [s' [a|e]]; auto. Qed.
End WeakestPreExn.

(** ** Boolean tests of the code and the propositions they decide. *)
Ltac bool_simpl :=
  repeat match goal with
  | H : (_ =? _)%Z = true |- _ => apply Z.eqb_eq in H
  | H : (_ =? _)%Z = false |- _ => apply Z.eqb_neq in H
  | H : (_ <? _)%Z = true |- _ => apply Z.ltb_lt in H
  | H : (_ <? _)%Z = false |- _ => apply Z.ltb_ge in H
  | H : (_ <=? _)%Z = true |- _ => apply Z.leb_le in H
  | H : (_ <=? _)%Z = false |- _ => apply Z.leb_gt in H
  | H : (_ >? _)%Z = true |- _ => rewrite Z.gtb_ltb in H; apply Z.ltb_lt in H
  | H : (_ >? _)%Z = false |- _ => rewrite Z.gtb_ltb in H; apply Z.ltb_ge in H
  | H : (_ && _)%bool = true |- _ => apply andb_true_iff in H; destruct H
  | H : (_ && _)%bool = false |- _ => apply andb_false_iff in H
  | H : (_ || _)%bool = true |- _ => apply orb_true_iff in H
  | H : (_ || _)%bool = false |- _ => apply orb_false_iff in H; destruct H
  | H : negb _ = true |- _ => apply negb_true_iff in H
  | H : negb _ = false |- _ => apply negb_false_iff in H
  end.

(** Case analysis on the first boolean test of the goal. *)
Ltac case_bool :=
  match goal with
  | |- context [if ?b then _ else _] =>
      lazymatch b with
      | context [if _ then _ else _] => fail
      | _ => destruct b eqn:?; bool_simpl
      end
  end.
Ltac case_bool_in H :=
  match type of H with
  | context [if ?b then _ else _] =>
      lazymatch b with
      | context [if _ then _ else _] => fail
      | _ => destruct b eqn:?; bool_simpl
      end
  end.

(** Closes [Forall P l] on a concrete list with arithmetic [P]. *)
Ltac forall_lia := repeat (apply List.Forall_cons; [lia|]); apply List.Forall_nil.

(** ** Products of lists of integers. *)

(** [c10::multiply_integers]. *)
Fixpoint multiply_integers (l : list Z) : Z :=
  match l with
  | [] => 1
  | x :: r => x * multiply_integers r
  end.

Lemma multiply_app l1 l2 :
  multiply_integers (l1 ++ l2) = multiply_integers l1 * multiply_integers l2.
Proof. induction l1 as [|x l1 IH]; simpl; [lia|]. rewrite IH. ring. Qed.

Lemma multiply_rev l : multiply_integers (rev l) = multiply_integers l.
Proof.
  induction l as [|x l IH]; [done|]. simpl. rewrite multiply_app, IH. simpl. ring.
Qed.

Lemma multiply_pos l : Forall (fun s => 0 < s) l → 0 < multiply_integers l.
Proof. induction 1; simpl; nia. Qed.

Lemma multiply_nonneg l : Forall (fun s => 0 <= s) l → 0 <= multiply_integers l.
Proof. induction 1; simpl; nia. Qed.

Lemma multiply_nonzero_pos l :
  Forall (fun s => 0 <= s) l → multiply_integers l ≠ 0 → Forall (fun s => 0 < s) l.
Proof.
  induction 1 as [|s l Hs _ IH]; simpl; [constructor|].
  intros Hp. constructor; [|apply IH; intros E; rewrite E in Hp; lia].
  destruct (decide (s = 0)) as [->|]; lia.
Qed.

Create HintDb shape.
Create Rewrite HintDb shape.
#[export] Hint Resolve multiply_pos multiply_nonneg multiply_nonzero_pos : shape.
#[export] Hint Rewrite multiply_app multiply_rev : shape.

(** Membership in a concatenation. *)
Lemma elem_of_concat {A} (x : A) (ls : list (list A)) : x ∈ concat ls ↔ ∃ l, x ∈ l ∧ l ∈ ls.
Proof.
  induction ls as [|l ls IH]; cbn.
  - split; [by intros ?%not_elem_of_nil|]. by intros (l & _ & ?%not_elem_of_nil).
  - rewrite elem_of_app, IH. setoid_rewrite elem_of_cons. naive_solver.
Qed.

(** ** Sorted lists. *)
Lemma StronglySorted_app_in {A} (R : A → A → Prop) l1 l2 :
  StronglySorted R l1 → StronglySorted R l2 →
  (∀ x y, In x l1 → In y l2 → R x y) → StronglySorted R (l1 ++ l2).
Proof.
  intros H1 H2 Hx. induction H1 as [|x l1 Hl IH Hall]; simpl; [done|]. constructor.
  - apply IH. intros a b Ha Hb. apply Hx; [by right|done].
  - apply List.Forall_forall. intros y [Hy|Hy]%in_app_iff.
    + rewrite List.Forall_forall in Hall. auto.
    + apply Hx; [by left|done].
Qed.

(** ** [std::sort] with a comparator, as an insertion sort: the element is
    placed before the first one it is less than.  The clients use only that
    the result is a permutation sorted by the comparator. *)
Section StdSort.
Context {A : Type} (lt : A → A → bool).

Fixpoint sort_insert (x : A) (l : list A) : list A :=
  match l with
  | [] => [x]
  | y :: r => if lt x y then x :: y :: r else y :: sort_insert x r
  end.

Definition std_sort (l : list A) : list A := foldr sort_insert [] (rev l).

Lemma sort_insert_perm x l : sort_insert x l ≡ₚ x :: l.
Proof.
  induction l as [|y r IH]; simpl; [done|]. destruct (lt x y); [done|].
  rewrite IH. apply Permutation_swap.
Qed.

Lemma std_sort_perm l : std_sort l ≡ₚ l.
Proof.
  unfold std_sort. transitivity (rev l); [|symmetry; apply Permutation_rev]. generalize (rev l).
  intros k. induction k as [|x k IH]; simpl; [done|]. by rewrite sort_insert_perm, IH.
Qed.

(** The comparator is a strict weak order, stated on its complement. *)
Context (Hasym : ∀ x y, lt x y = true → lt y x = false)
        (Htrans : ∀ x y z, lt y x = false → lt z y = false → lt z x = false).

Lemma sort_insert_sorted x l :
  StronglySorted (λ a b, lt b a = false) l →
  StronglySorted (λ a b, lt b a = false) (sort_insert x l).
Proof.
  induction 1 as [|y r Hr IH Hy]; simpl; [repeat constructor|].
  destruct (lt x y) eqn:E.
  - constructor; [by constructor|]. constructor; [by apply Hasym|].
    eapply Forall_impl; [exact Hy|]. intros z Hz. apply (Htrans _ y); [by apply Hasym|done].
  - constructor; [done|]. rewrite sort_insert_perm. by constructor.
Qed.

Lemma std_sort_sorted l : StronglySorted (λ a b, lt b a = false) (std_sort l).
Proof. unfold std_sort. induction (rev l); simpl; [constructor|by apply sort_insert_sorted]. Qed.
End StdSort.
