(* ===== verification/Layout.v ===== *)
(** * Strided layouts: the address model behind the shape components.

    A strided tensor is a list of sizes and a list of strides.  The element
    with multi-index [idx] sits at [offset idx strides] (in elements, relative
    to the storage offset), and the elements are enumerated in row-major order
    by [unravel].  Nothing here models a function of the program: these are
    the notions the theorems about shapes and strides are stated with. *)

From S2P Require Import Prelude.

(** The dot product of a multi-index and the strides. *)
Fixpoint offset (idx strides : list Z) : Z :=
  match idx, strides with
  | i :: idx', s :: strides' => i * s + offset idx' strides'
  | _, _ => 0
  end.

Definition in_bounds (sizes idx : list Z) : Prop :=
  Forall2 (fun s i => 0 <= i < s) sizes idx.

(** Row-major numbering of the multi-indices of a shape and its inverse. *)
Fixpoint ravel (sizes idx : list Z) : Z :=
  match sizes, idx with
  | _ :: ss, i :: js => i * multiply_integers ss + ravel ss js
  | _, _ => 0
  end.

Fixpoint unravel (sizes : list Z) (k : Z) : list Z :=
  match sizes with
  | [] => []
  | _ :: ss => k / multiply_integers ss :: unravel ss (k mod multiply_integers ss)
  end.

(** The address of the [k]-th element in row-major order. *)
Definition element_offset (sizes strides : list Z) (k : Z) : Z :=
  offset (unravel sizes k) strides.

(** The same address computed from the innermost dimension outwards. *)
Fixpoint laddr (dims : list (Z * Z)) (k : Z) : Z :=
  match dims with
  | [] => 0
  | (s, st) :: rest => (k mod s) * st + laddr rest (k / s)
  end.

Definition positive (sizes : list Z) : Prop := Forall (fun s => 0 < s) sizes.

Lemma positive_cons s l : positive (s :: l) ↔ 0 < s ∧ positive l.
Proof. apply Forall_cons. Qed.

Lemma positive_app l1 l2 : positive (l1 ++ l2) ↔ positive l1 ∧ positive l2.
Proof. apply Forall_app. Qed.

Lemma unravel_length sizes k : length (unravel sizes k) = length sizes.
Proof. revert k. induction sizes as [|s ss IH]; intros k; simpl; [done|]. by rewrite IH. Qed.

Lemma unravel_in_bounds sizes k :
  positive sizes → 0 <= k < multiply_integers sizes → in_bounds sizes (unravel sizes k).
Proof.
  intros Hpos. revert k. induction Hpos as [|s ss Hs Hss IH]; intros k Hk; simpl in *; [constructor|].
  assert (0 < multiply_integers ss) by auto with shape.
  constructor; [|apply IH; apply Z.mod_pos_bound; lia].
  split; [apply Z.div_pos; lia|]. apply Z.div_lt_upper_bound; lia.
Qed.

Lemma ravel_unravel sizes k :
  positive sizes → 0 <= k < multiply_integers sizes → ravel sizes (unravel sizes k) = k.
Proof.
  intros Hpos. revert k. induction Hpos as [|s ss Hs Hss IH]; intros k Hk; simpl in *; [lia|].
  assert (0 < multiply_integers ss) by auto with shape.
  rewrite IH by (apply Z.mod_pos_bound; lia).
  pose proof (Z.div_mod k (multiply_integers ss)). lia.
Qed.

Lemma ravel_bounds sizes idx :
  positive sizes → in_bounds sizes idx → 0 <= ravel sizes idx < multiply_integers sizes.
Proof.
  intros Hpos Hib. induction Hib as [|s i ss js Hi Hib IH]; simpl; [lia|].
  inversion Hpos as [|? ? Hs Hss]; subst. specialize (IH Hss).
  assert (0 < multiply_integers ss) by auto with shape. nia.
Qed.

Lemma unravel_ravel sizes idx :
  positive sizes → in_bounds sizes idx → unravel sizes (ravel sizes idx) = idx.
Proof.
  intros Hpos Hib. induction Hib as [|s i ss js Hi Hib IH]; simpl; [done|].
  inversion Hpos as [|? ? Hs Hss]; subst.
  pose proof (ravel_bounds ss js Hss Hib) as Hb.
  rewrite (Z.add_comm (i * _)), Z.div_add, Z.mod_add, Z.div_small, Z.mod_small by lia.
  rewrite IH by done. f_equal; lia.
Qed.

Lemma in_bounds_positive sizes idx : in_bounds sizes idx → positive sizes.
Proof. induction 1; constructor; [lia|done]. Qed.

Lemma in_bounds_length sizes idx : in_bounds sizes idx → length idx = length sizes.
Proof. induction 1; simpl; congruence. Qed.

(** ** The inside-out address. *)
Definition dims_sizes (dims : list (Z * Z)) : list Z := map fst dims.

Lemma laddr_app d1 d2 k :
  positive (dims_sizes d1) → 0 <= k →
  laddr (d1 ++ d2) k
  = laddr d1 (k mod multiply_integers (dims_sizes d1))
    + laddr d2 (k / multiply_integers (dims_sizes d1)).
Proof.
  revert k. induction d1 as [|[s st] d1 IH]; intros k Hpos Hk; simpl in *.
  - by rewrite Z.div_1_r.
  - inversion Hpos as [|? ? Hs Hp]; subst.
    assert (0 < multiply_integers (dims_sizes d1)) by (apply multiply_pos; exact Hp).
    set (P := multiply_integers (dims_sizes d1)) in *.
    rewrite IH by (done || (apply Z.div_pos; lia)).
    rewrite Z.div_div, Z.rem_mul_r by lia.
    rewrite (Z.mul_comm s (_ mod _)), Z.mod_add, Z.div_add, Z.mod_mod by lia.
    rewrite (Z.div_small (k mod s) s) by (apply Z.mod_pos_bound; lia).
    rewrite Z.add_0_l. lia.
Qed.

Lemma dims_sizes_app d1 d2 : dims_sizes (d1 ++ d2) = dims_sizes d1 ++ dims_sizes d2.
Proof. apply map_app. Qed.

Lemma laddr_0 dims : laddr dims 0 = 0.
Proof. induction dims as [|[s st] dims IH]; simpl; [done|]. by rewrite Zmod_0_l, Zdiv_0_l, IH. Qed.

Lemma dims_sizes_zip sizes strides :
  length sizes = length strides → dims_sizes (zip sizes strides) = sizes.
Proof.
  revert strides. induction sizes as [|s ss IH]; intros [|t ts] Hl; simpl in *; try done.
  f_equal. apply IH. lia.
Qed.

Lemma dims_sizes_rev dims : dims_sizes (rev dims) = rev (dims_sizes dims).
Proof. apply map_rev. Qed.

Lemma positive_rev sizes : positive sizes → positive (rev sizes).
Proof. intros H. apply Forall_rev. exact H. Qed.

Lemma element_offset_laddr sizes strides k :
  length sizes = length strides → positive sizes →
  0 <= k < multiply_integers sizes →
  element_offset sizes strides k = laddr (rev (zip sizes strides)) k.
Proof.
  unfold element_offset. intros Hl Hpos. revert strides k Hl.
  induction Hpos as [|s ss Hs Hss IH]; intros [|t ts] k Hl Hk; simpl in *; try done.
  assert (0 < multiply_integers ss) by auto with shape.
  assert (length ss = length ts) by lia.
  rewrite laddr_app; [|rewrite dims_sizes_rev, dims_sizes_zip; [by apply positive_rev|done] | lia].
  rewrite dims_sizes_rev, dims_sizes_zip, multiply_rev by done.
  rewrite IH by (done || (apply Z.mod_pos_bound; lia)).
  simpl. rewrite (Z.mod_small (k / _) s); [lia|].
  split; [apply Z.div_pos; lia|]. apply Z.div_lt_upper_bound; lia.
Qed.

#[export] Hint Resolve positive_rev ravel_bounds unravel_in_bounds : shape.

(** Closes [in_bounds] on a concrete shape. *)
Ltac in_bounds_lia :=
  unfold in_bounds; repeat (apply List.Forall2_cons; [lia|]); apply List.Forall2_nil.
