(* ===== verification/ViewStride.v ===== *)
(** * Views: when a strided tensor can be reinterpreted under another shape.

    [computeStride_impl] of aten/src/ATen/TensorUtils.cpp at [int64_t]
    (all guards concrete), with the default strides it is used next to. *)

From S2P Require Import Prelude Layout.

(** [defaultStrides]: the loop runs over the dimensions from the last to the
    first; [acc] holds the strides already written. *)
Fixpoint defaultStrides_loop (stride : Z) (rev_sizes acc : list Z) : list Z :=
  match rev_sizes with
  | [] => acc
  | s :: rest => defaultStrides_loop (stride * s) rest (stride :: acc)
  end.

Definition defaultStrides (sizes : list Z) : list Z :=
  defaultStrides_loop 1 (rev sizes) [].

(** The inner [while] of [computeStride_impl].  [new_rev] are the sizes
    [newshape[view_d], newshape[view_d - 1], ...] still to be consumed and
    [acc] the entries of [newstride] above [view_d].  Returns the remaining
    sizes, the extended [newstride] and [view_numel]. *)
Fixpoint view_while (chunk_base_stride tensor_numel view_numel : Z)
    (new_rev acc : list Z) : list Z * list Z * Z :=
  match new_rev with
  | [] => ([], acc, view_numel)
  | s :: rest =>
      if (view_numel <? tensor_numel) || (s =? 1)
      then view_while chunk_base_stride tensor_numel (view_numel * s) rest
             (view_numel * chunk_base_stride :: acc)
      else (new_rev, acc, view_numel)
  end.

(** The outer [for] over [tensor_d].  [old_rev] are the pairs
    [(oldshape[tensor_d], oldstride[tensor_d])], innermost first. *)
Fixpoint chunk_loop (chunk_base_stride tensor_numel view_numel : Z)
    (old_rev : list (Z * Z)) (new_rev acc : list Z) : option (list Z) :=
  match old_rev with
  | [] => match new_rev with [] => Some acc | _ :: _ => None end
  | (sz, _) :: rest =>
      let tensor_numel := tensor_numel * sz in
      let end_of_chunk :=
        match rest with
        | [] => true
        | (psz, pst) :: _ =>
            negb (psz =? 1) && negb (pst =? tensor_numel * chunk_base_stride)
        end in
      if end_of_chunk then
        let '(new_rev, acc, view_numel) :=
          view_while chunk_base_stride tensor_numel view_numel new_rev acc in
        if negb (view_numel =? tensor_numel) then None
        else
          match rest with
          | [] => chunk_loop chunk_base_stride tensor_numel view_numel rest new_rev acc
          | (_, pst) :: _ => chunk_loop pst 1 1 rest new_rev acc
          end
      else chunk_loop chunk_base_stride tensor_numel view_numel rest new_rev acc
  end.

(** The loop of the [numel == 0] case, as if computed via resize; [next] is
    [(newshape[view_d + 1], newstride[view_d + 1])], absent for the last
    dimension. *)
Fixpoint zero_numel_loop (next : option (Z * Z)) (new_rev acc : list Z) : list Z :=
  match new_rev with
  | [] => acc
  | s :: rest =>
      let st := match next with None => 1 | Some (s1, st1) => Z.max s1 1 * st1 end in
      zero_numel_loop (Some (s, st)) rest (st :: acc)
  end.

Definition computeStride_impl (oldshape oldstride newshape : list Z) : option (list Z) :=
  match oldshape with
  | [] => Some (replicate (length newshape) 1)
  | _ :: _ =>
      let numel := multiply_integers oldshape in
      let zero_numel := numel =? 0 in
      if zero_numel && bool_decide (oldshape = newshape) then Some oldstride
      else if zero_numel then Some (zero_numel_loop None (rev newshape) [])
      else chunk_loop (default 0 (last oldstride)) 1 1
             (rev (zip oldshape oldstride)) (rev newshape) []
  end.

(** ** Linear chunks. *)

(** The dimensions of a chunk address their elements with one stride. *)
Definition linear (dims : list (Z * Z)) (b : Z) : Prop :=
  ∀ k, 0 <= k < multiply_integers (dims_sizes dims) → laddr dims k = k * b.

Lemma linear_nil b : linear [] b.
Proof. intros k Hk. simpl in *. assert (k = 0) as -> by lia. lia. Qed.

Lemma linear_snoc c b s st :
  positive (dims_sizes c) → 0 < s →
  (s = 1 ∨ st = multiply_integers (dims_sizes c) * b) →
  linear c b → linear (c ++ [(s, st)]) b.
Proof.
  intros Hpos Hs Hst Hlin k Hk.
  rewrite dims_sizes_app, multiply_app in Hk. simpl in Hk.
  assert (0 < multiply_integers (dims_sizes c)) by (apply multiply_pos; exact Hpos).
  rewrite laddr_app by (done || lia). simpl. rewrite Z.add_0_r.
  set (P := multiply_integers (dims_sizes c)) in *.
  rewrite Hlin by (apply Z.mod_pos_bound; lia).
  assert (0 <= k / P < s) by (split; [apply Z.div_pos; lia | apply Z.div_lt_upper_bound; lia]).
  rewrite (Z.mod_small (k / P) s) by lia.
  pose proof (Z.div_mod k P ltac:(lia)).
  destruct Hst as [->| ->]; [|nia].
  assert (k / P = 0) by lia. nia.
Qed.

(** ** The inner loop. *)
Lemma view_while_spec b tn new_rev : ∀ vn acc rest acc' vn',
  view_while b tn vn new_rev acc = (rest, acc', vn') →
  ∃ taken ns, new_rev = taken ++ rest ∧ acc' = rev ns ++ acc ∧
    length ns = length taken ∧ vn' = vn * multiply_integers taken ∧
    (match rest with [] => True | s :: _ => tn <= vn' ∧ s ≠ 1 end) ∧
    ∀ v, positive (dims_sizes v) → positive taken →
      multiply_integers (dims_sizes v) = vn → linear v b →
      linear (v ++ zip taken ns) b.
Proof.
  induction new_rev as [|s new_rev IH]; intros vn acc rest acc' vn' Hw; simpl in Hw.
  - simplify_eq. exists [], []. split_and!; try done; [simpl; lia|].
    intros. by rewrite app_nil_r.
  - case_bool_in Hw.
    + apply IH in Hw as (taken & ns & -> & -> & Hl & -> & Hex & Hlin).
      exists (s :: taken), (vn * b :: ns). split_and!; try done.
      * simpl. by rewrite <- app_assoc.
      * simpl. lia.
      * simpl. lia.
      * intros v Hv Hpos Hprod Hvl. apply positive_cons in Hpos as [Hs Hpt].
        change (zip (s :: taken) (vn * b :: ns)) with ([(s, vn * b)] ++ zip taken ns).
        rewrite app_assoc. apply Hlin; [|done| |apply linear_snoc; auto; right; congruence].
        -- rewrite dims_sizes_app. apply positive_app; split; [done|]. by constructor.
        -- rewrite dims_sizes_app, multiply_app. simpl. lia.
    + simplify_eq. exists [], []. split_and!; try done; [simpl; lia|].
      intros. by rewrite app_nil_r.
Qed.

(** Strides that realise a linear address are forced on the dimensions the
    loop consumes. *)
Lemma view_while_forced b tn new_rev : ∀ vn acc rest acc' vn' ns v,
  view_while b tn vn new_rev acc = (rest, acc', vn') →
  length ns = length new_rev → positive new_rev → positive (dims_sizes v) →
  multiply_integers (dims_sizes v) = vn → linear v b →
  (∀ k, 0 <= k < tn → k < vn * multiply_integers new_rev →
     laddr (v ++ zip new_rev ns) k = k * b) →
  ∃ taken ns1 ns2, new_rev = taken ++ rest ∧ ns = ns1 ++ ns2 ∧
    length ns1 = length taken ∧ linear (v ++ zip taken ns1) b.
Proof.
  induction new_rev as [|s new_rev IH]; intros vn acc rest acc' vn' ns v Hw Hl Hpos Hv Hprod Hvl Haddr;
    simpl in Hw.
  - simplify_eq. exists [], [], ns. split_and!; try done. by rewrite app_nil_r.
  - case_bool_in Hw.
    2: { simplify_eq. exists [], [], ns. split_and!; try done. by rewrite app_nil_r. }
    destruct ns as [|n ns]; simpl in Hl; [done|].
    apply positive_cons in Hpos as [Hs Hpt].
    assert (0 < vn) by (subst vn; by apply multiply_pos).
    assert (linear (v ++ [(s, n)]) b) as Hvl'.
    { apply linear_snoc; auto.
      destruct (decide (s = 1)) as [|Hs1]; [by left|right].
      assert (vn < tn) by (match goal with H : _ ∨ _ |- _ => destruct H; bool_simpl end; lia).
      assert (0 < multiply_integers new_rev) by auto with shape.
      pose proof (Haddr vn ltac:(lia)) as Hk. simpl in Hk.
      assert (1 < s * multiply_integers new_rev) by nia.
      specialize (Hk ltac:(nia)).
      rewrite laddr_app, Hprod, Z.mod_same, laddr_0, Z.div_same in Hk by (done || lia).
      simpl in Hk. rewrite Z.mod_small, Z.div_small, laddr_0 in Hk by lia. lia. }
    eapply (IH _ _ _ _ _ ns (v ++ [(s, n)])) in Hw as (taken & ns1 & ns2 & -> & -> & Hl1 & Hlin);
      [| lia | done | | | done | ].
    + exists (s :: taken), (n :: ns1), ns2. split_and!; try done; [simpl; lia|].
      by rewrite <- app_assoc in Hlin.
    + rewrite dims_sizes_app. apply positive_app; split; [done|]. by constructor.
    + rewrite dims_sizes_app, multiply_app. simpl. lia.
    + intros k Hk1 Hk2. rewrite <- app_assoc. apply Haddr; [done|]. simpl. lia.
Qed.

Lemma zip_app_eq {A B} (l1 l2 : list A) (k1 k2 : list B) :
  length k1 = length l1 → zip (l1 ++ l2) (k1 ++ k2) = zip l1 k1 ++ zip l2 k2.
Proof. intros H. by rewrite zip_with_app. Qed.

(** Two layouts that start with linear chunks of the same size and stride agree
    as soon as the rests agree. *)
Lemma laddr_chunk c v r1 r2 b k :
  positive (dims_sizes c) → positive (dims_sizes v) →
  multiply_integers (dims_sizes v) = multiply_integers (dims_sizes c) →
  linear c b → linear v b → 0 <= k →
  laddr (c ++ r1) k = laddr (v ++ r2) k ↔
  laddr r1 (k / multiply_integers (dims_sizes c)) = laddr r2 (k / multiply_integers (dims_sizes c)).
Proof.
  intros Hc Hv Hp Hlc Hlv Hk.
  assert (0 < multiply_integers (dims_sizes c)) by (by apply multiply_pos).
  rewrite !laddr_app, Hp, Hlc, Hlv by (done || rewrite ?Hp; apply Z.mod_pos_bound; lia).
  lia.
Qed.

(** ** The outer loop. *)

(** The head of the remaining dimensions continues the current chunk. *)
Definition continues (c : list (Z * Z)) (b : Z) (old_rev : list (Z * Z)) : Prop :=
  match old_rev with
  | [] => True
  | (sz, st) :: _ => sz = 1 ∨ st = multiply_integers (dims_sizes c) * b
  end.

Lemma continues_nil sz st rest : continues [] st ((sz, st) :: rest).
Proof. right. simpl. lia. Qed.

Lemma chunk_extend b c sz st rest :
  positive (dims_sizes c) → 0 < sz → continues c b ((sz, st) :: rest) → linear c b →
  positive (dims_sizes (c ++ [(sz, st)])) ∧ linear (c ++ [(sz, st)]) b ∧
  multiply_integers (dims_sizes (c ++ [(sz, st)])) = multiply_integers (dims_sizes c) * sz.
Proof.
  intros Hc Hsz Hcont Hlin. split_and!.
  - rewrite dims_sizes_app. apply positive_app; split; [done|]. by constructor.
  - by apply linear_snoc.
  - rewrite dims_sizes_app, multiply_app. simpl. lia.
Qed.

Lemma chunk_loop_sound old_rev : ∀ b c new_rev acc out,
  chunk_loop b (multiply_integers (dims_sizes c)) 1 old_rev new_rev acc = Some out →
  old_rev ≠ [] → linear c b → continues c b old_rev →
  positive (dims_sizes c) → positive (dims_sizes old_rev) → positive new_rev →
  ∃ ns, out = rev ns ++ acc ∧ length ns = length new_rev ∧
    multiply_integers (dims_sizes (c ++ old_rev)) = multiply_integers new_rev ∧
    ∀ k, 0 <= k < multiply_integers new_rev →
      laddr (c ++ old_rev) k = laddr (zip new_rev ns) k.
Proof.
  induction old_rev as [|[sz st] rest IH]; intros b c new_rev acc out Hc Hne Hlin Hcont Hcp Hop Hnp; [done|].
  simpl in Hc. apply positive_cons in Hop as [Hsz Hrest]; simpl in Hsz.
  destruct (chunk_extend b c sz st rest Hcp Hsz Hcont Hlin) as (Hcp' & Hlin' & Hprod').
  rewrite <- Hprod' in Hc.
  replace (c ++ (sz, st) :: rest) with ((c ++ [(sz, st)]) ++ rest) by (by rewrite <- app_assoc).
  set (c' := c ++ [(sz, st)]) in *. clearbody c'.
  case_bool_in Hc.
  2: { destruct rest as [|[psz pst] rest]; [done|].
       apply (IH b c' new_rev acc out Hc); [done|done| |done|done|done].
       bool_simpl. destruct Heqb0; bool_simpl; [by left|by right]. }
  destruct (view_while _ _ _ _ _) as [[new_rest acc'] vn] eqn:Hw.
  destruct (view_while_spec _ _ _ _ _ _ _ _ Hw) as (taken & ns & -> & -> & Hl & -> & _ & Hv).
  apply positive_app in Hnp as [Htp Hnp].
  specialize (Hv [] ltac:(constructor) Htp eq_refl (linear_nil b)). simpl in Hv.
  case_bool_in Hc; [done|]. rewrite Z.mul_1_l in *.
  assert (positive (dims_sizes (zip taken ns))) as Hzp by (by rewrite dims_sizes_zip).
  assert (multiply_integers (dims_sizes (zip taken ns)) = multiply_integers (dims_sizes c')) as Hzprod
    by (by rewrite dims_sizes_zip).
  destruct rest as [|[psz pst] rest].
  - simpl in Hc. destruct new_rest; [|done]. simplify_eq.
    exists ns. rewrite !app_nil_r. split_and!; [done|done|congruence|].
    intros k Hk. rewrite Hlin', Hv by congruence || (rewrite ?Hzprod; lia). done.
  - apply (IH pst [] new_rest) in Hc as (ns2 & -> & Hl2 & Hp2 & Haddr);
      [|done|apply linear_nil|apply continues_nil|constructor|done|done].
    exists (ns ++ ns2). rewrite rev_app_distr, app_assoc, !length_app, Hl, Hl2.
    rewrite dims_sizes_app, !multiply_app. rewrite app_nil_l in Hp2.
    split_and!; [done|done|rewrite Hp2; congruence|].
    intros k Hk. rewrite zip_app_eq by done.
    rewrite (laddr_chunk c' (zip taken ns) _ _ b) by (done || lia).
    assert (0 < multiply_integers (dims_sizes c')) by (by apply multiply_pos).
    apply Haddr. split; [apply Z.div_pos; lia|]. apply Z.div_lt_upper_bound; lia.
Qed.

(** The element after a chunk lies off the line when the chunk ended. *)
Lemma chunk_break c psz pst rest :
  positive (dims_sizes c) → 1 < psz →
  laddr (c ++ (psz, pst) :: rest) (multiply_integers (dims_sizes c)) = pst.
Proof.
  intros Hc Hp. assert (0 < multiply_integers (dims_sizes c)) by (by apply multiply_pos).
  rewrite laddr_app, Z.mod_same, laddr_0, Z.div_same by (done || lia).
  simpl. rewrite Z.mod_small, Z.div_small, laddr_0 by lia. lia.
Qed.

(** Why the outer loop closes a chunk before the remaining dimensions. *)
Definition ends (c : list (Z * Z)) (b : Z) (rest : list (Z * Z)) : Prop :=
  match rest with
  | [] => True
  | (psz, pst) :: _ => psz ≠ 1 ∧ pst ≠ multiply_integers (dims_sizes c) * b
  end.

(** Dimensions of the view that realise the addresses of the tensor stop
    exactly at the end of the chunk. *)
Lemma chunk_boundary c b rest z r2 :
  positive (dims_sizes c) → positive (dims_sizes z) →
  positive (dims_sizes rest) → positive (dims_sizes r2) →
  linear c b → linear z b → ends c b rest →
  (multiply_integers (dims_sizes c) <= multiply_integers (dims_sizes z) ∨ r2 = []) →
  multiply_integers (dims_sizes c) * multiply_integers (dims_sizes rest)
    = multiply_integers (dims_sizes z) * multiply_integers (dims_sizes r2) →
  (∀ k, 0 <= k < multiply_integers (dims_sizes z) * multiply_integers (dims_sizes r2) →
     laddr (c ++ rest) k = laddr (z ++ r2) k) →
  multiply_integers (dims_sizes z) = multiply_integers (dims_sizes c).
Proof.
  intros Hc Hz Hrest Hr2 Hlc Hlz Hends Hex Hnumel Haddr.
  assert (0 < multiply_integers (dims_sizes c)) by (by apply multiply_pos).
  assert (0 < multiply_integers (dims_sizes rest)) by (by apply multiply_pos).
  assert (0 < multiply_integers (dims_sizes r2)) by (by apply multiply_pos).
  assert (multiply_integers (dims_sizes c) <= multiply_integers (dims_sizes z))
    by (destruct Hex as [| ->]; [done|]; simpl in Hnumel; nia).
  destruct (decide (multiply_integers (dims_sizes c) = multiply_integers (dims_sizes z))) as [|Hneq];
    [done|exfalso].
  destruct rest as [|[psz pst] rest]; simpl in Hends; [simpl in Hnumel; nia|].
  apply positive_cons in Hrest as [Hpsz _]; simpl in Hpsz. destruct Hends as [Hp1 Hp2].
  pose proof (Haddr (multiply_integers (dims_sizes c)) ltac:(nia)) as Hk.
  rewrite chunk_break in Hk by (done || lia).
  rewrite laddr_app, Z.mod_small, Z.div_small, laddr_0, Hlz in Hk by (done || lia). lia.
Qed.

Lemma chunk_loop_complete old_rev : ∀ b c new_rev acc ns,
  chunk_loop b (multiply_integers (dims_sizes c)) 1 old_rev new_rev acc = None →
  old_rev ≠ [] → linear c b → continues c b old_rev →
  positive (dims_sizes c) → positive (dims_sizes old_rev) → positive new_rev →
  length ns = length new_rev →
  multiply_integers (dims_sizes (c ++ old_rev)) = multiply_integers new_rev →
  ¬ ∀ k, 0 <= k < multiply_integers new_rev →
      laddr (c ++ old_rev) k = laddr (zip new_rev ns) k.
Proof.
  induction old_rev as [|[sz st] rest IH];
    intros b c new_rev acc ns Hc Hne Hlin Hcont Hcp Hop Hnp Hlen Hnumel Haddr; [done|].
  simpl in Hc. apply positive_cons in Hop as [Hsz Hrest]; simpl in Hsz.
  destruct (chunk_extend b c sz st rest Hcp Hsz Hcont Hlin) as (Hcp' & Hlin' & Hprod').
  rewrite <- Hprod' in Hc.
  replace (c ++ (sz, st) :: rest) with ((c ++ [(sz, st)]) ++ rest) in Hnumel, Haddr
    by (by rewrite <- app_assoc).
  set (c' := c ++ [(sz, st)]) in *. clearbody c'.
  case_bool_in Hc.
  2: { destruct rest as [|[psz pst] rest]; [done|].
       eapply (IH b c' new_rev acc ns Hc); eauto.
       bool_simpl. destruct Heqb0; bool_simpl; [by left|by right]. }
  assert (0 < multiply_integers (dims_sizes c')) as Hcpos by (by apply multiply_pos).
  rewrite dims_sizes_app, multiply_app in Hnumel.
  destruct (view_while _ _ _ _ _) as [[new_rest acc'] vn] eqn:Hw.
  destruct (view_while_forced _ _ _ _ _ _ _ _ ns [] Hw Hlen Hnp) as (taken & ns1 & ns2 & -> & -> & Hl1 & Hv);
    [constructor|done|apply linear_nil| |].
  { intros k Hk1 Hk2. rewrite app_nil_l, <- Haddr by lia.
    rewrite laddr_app, Z.mod_small, Z.div_small, laddr_0, Hlin' by (done || lia). lia. }
  destruct (view_while_spec _ _ _ _ _ _ _ _ Hw) as (taken' & ns' & Ht & -> & Hl & Hvn & Hexit & _).
  apply app_inv_tail in Ht as <-. rewrite Z.mul_1_l in Hvn. subst vn.
  apply positive_app in Hnp as [Htp Hnp]. rewrite app_nil_l in Hv.
  rewrite zip_app_eq, multiply_app in Haddr by done. rewrite multiply_app in Hnumel.
  assert (length ns2 = length new_rest) as Hl2 by (rewrite !length_app in Hlen; lia).
  assert (multiply_integers taken = multiply_integers (dims_sizes c')) as HVT.
  { pose proof (chunk_boundary c' b rest (zip taken ns1) (zip new_rest ns2)) as HB.
    rewrite !dims_sizes_zip in HB by done. apply HB; try done.
    - destruct rest as [|[psz pst] rest]; [done|]. bool_simpl. done.
    - destruct new_rest; [by right|]. left. tauto. }
  rewrite HVT, Z.eqb_refl in Hc. simpl in Hc.
  destruct rest as [|[psz pst] rest].
  - simpl in *. destruct new_rest as [|s new_rest]; [done|].
    apply positive_cons in Hnp as [Hs Hnp]. simpl in *.
    assert (0 < multiply_integers new_rest) by auto with shape.
    assert (1 < s * multiply_integers new_rest) by nia. rewrite HVT in Hnumel. nia.
  - eapply (IH pst [] new_rest _ ns2 Hc); try done;
      [apply linear_nil|apply continues_nil|constructor| |].
    { rewrite app_nil_l. rewrite HVT in Hnumel. apply Z.mul_reg_l in Hnumel; [done|lia]. }
    intros k Hk. rewrite app_nil_l.
    pose proof (Haddr (k * multiply_integers (dims_sizes c')) ltac:(nia)) as Ha.
    rewrite (laddr_chunk c' (zip taken ns1) _ _ b), Z.div_mul in Ha;
      rewrite ?dims_sizes_zip; try done; lia.
Qed.

(** ** What [computeStride] promises. *)

(** [newstride] shows the elements of [(oldshape, oldstride)] in row-major
    order under [newshape], in place. *)
Definition realises_view (oldshape oldstride newshape newstride : list Z) : Prop :=
  length newstride = length newshape ∧
  ∀ k, 0 <= k < multiply_integers newshape →
    element_offset newshape newstride k = element_offset oldshape oldstride k.

Lemma rev_zip {A B} (l : list A) (k : list B) :
  length l = length k → rev (zip l k) = zip (rev l) (rev k).
Proof.
  revert k. induction l as [|x l IH]; intros [|y k] H; simpl in *; try done.
  rewrite zip_app_eq by (rewrite !length_rev; lia). rewrite IH by lia. done.
Qed.

Lemma realises_view_laddr oldshape oldstride newshape newstride :
  length oldstride = length oldshape → positive oldshape → positive newshape →
  multiply_integers oldshape = multiply_integers newshape →
  realises_view oldshape oldstride newshape newstride ↔
  length (rev newstride) = length (rev newshape) ∧
  ∀ k, 0 <= k < multiply_integers (rev newshape) →
    laddr (rev (zip oldshape oldstride)) k = laddr (zip (rev newshape) (rev newstride)) k.
Proof.
  intros Hl Ho Hn Hp. unfold realises_view. rewrite !length_rev, multiply_rev.
  split; intros [Hlen H]; (split; [done|]); intros k Hk; specialize (H k Hk).
  - rewrite !element_offset_laddr in H by (done || lia). by rewrite <- rev_zip.
  - rewrite !element_offset_laddr by (done || lia). by rewrite rev_zip.
Qed.

Lemma all_ones_unravel newshape k :
  multiply_integers newshape = 1 → positive newshape → 0 <= k < 1 →
  offset (unravel newshape k) (replicate (length newshape) 1) = 0.
Proof.
  revert k. induction newshape as [|s ss IH]; intros k Hm Hpos Hk; simpl in *; [done|].
  apply positive_cons in Hpos as [Hs Hss].
  assert (0 < multiply_integers ss) by auto with shape.
  assert (multiply_integers ss = 1) as E by nia.
  rewrite E, IH, Z.div_1_r by (rewrite ?Z.mod_1_r; lia || done). lia.
Qed.

(** C24.  [computeStride] decides whether a strided tensor can be viewed under a
    new shape with the same non-zero number of elements: the strides it
    returns address every element, in row-major order, exactly where the
    original tensor stores it, and when it returns [nullopt] no strides at all
    do. *)
Theorem computeStride_decides_view oldshape oldstride newshape :
  length oldstride = length oldshape →
  Forall (fun s => 0 <= s) oldshape → Forall (fun s => 0 <= s) newshape →
  multiply_integers oldshape = multiply_integers newshape →
  multiply_integers newshape ≠ 0 →
  match computeStride_impl oldshape oldstride newshape with
  | Some newstride => realises_view oldshape oldstride newshape newstride
  | None => ∀ newstride, ¬ realises_view oldshape oldstride newshape newstride
  end.
Proof.
  intros Hl Ho Hn Hp Hnz.
  assert (positive oldshape) as Hop by (apply multiply_nonzero_pos; congruence).
  assert (positive newshape) as Hnp by (by apply multiply_nonzero_pos).
  unfold computeStride_impl. destruct oldshape as [|o1 os].
  { split; [by rewrite length_replicate|]. simpl in Hp. intros k Hk.
    unfold element_offset. rewrite all_ones_unravel by (done || lia). done. }
  destruct (_ =? 0) eqn:E; bool_simpl; [congruence|]. simpl (_ && _).
  assert (o1 :: os ≠ []) as Hne by done.
  set (old := o1 :: os) in *. clearbody old.
  assert (∃ sz st rest, rev (zip old oldstride) = (sz, st) :: rest ∧ last oldstride = Some st) as
    (sz & st & rest & Hrev & Hlast).
  { destruct old as [|o old] using rev_ind; [done|].
    destruct oldstride as [|t ts] using rev_ind; [rewrite length_app in Hl; simpl in *; lia|].
    rewrite !length_app in Hl; simpl in Hl.
    rewrite zip_app_eq, rev_app_distr, last_snoc by lia. simpl. eauto. }
  assert (positive (dims_sizes (rev (zip old oldstride)))) as Hrp.
  { rewrite dims_sizes_rev, dims_sizes_zip by done. by apply positive_rev. }
  rewrite Hlast. simpl (default _ _).
  destruct (chunk_loop _ _ _ _ _ _) as [out|] eqn:Hc.
  - apply (chunk_loop_sound _ st [] _ _ _) in Hc as (ns & -> & Hlen & _ & Haddr);
      [|rewrite Hrev; done|apply linear_nil|rewrite Hrev; apply continues_nil|constructor|done|by apply positive_rev].
    apply realises_view_laddr; try done. rewrite app_nil_r, rev_involutive.
    split; [done|]. intros k Hk. by apply Haddr.
  - intros newstride Hv. apply realises_view_laddr in Hv as [Hlen Haddr]; try done.
    apply (chunk_loop_complete _ st [] _ _ (rev newstride)) in Hc; try done;
      [rewrite Hrev; done|apply linear_nil|rewrite Hrev; apply continues_nil|constructor|by apply positive_rev|].
    rewrite app_nil_l, dims_sizes_rev, dims_sizes_zip, !multiply_rev by done. done.
Qed.

(** A transposed 2x3 matrix has no flat view; splitting its outer dimension does. *)
Lemma computeStride_decides_view_witness :
  computeStride_impl [3; 2] [1; 3] [6] = None ∧
  computeStride_impl [4; 2] [1; 4] [2; 2; 2] = Some [2; 1; 4] ∧
  (∀ newstride, ¬ realises_view [3; 2] [1; 3] [6] newstride) ∧
  realises_view [4; 2] [1; 4] [2; 2; 2] [2; 1; 4].
Proof.
  split; [reflexivity|]. split; [reflexivity|]. split.
  - exact (computeStride_decides_view [3; 2] [1; 3] [6] eq_refl ltac:(forall_lia) ltac:(forall_lia) eq_refl ltac:(by compute)).
  - exact (computeStride_decides_view [4; 2] [1; 4] [2; 2; 2] eq_refl ltac:(forall_lia) ltac:(forall_lia) eq_refl ltac:(by compute)).
Defined.
