(* ===== verification/Contiguity.v ===== *)
(** * Contiguity and memory formats.

    The predicates of c10/core/Contiguity.h and c10/core/MemoryFormat.h at
    [int64_t], the contiguous strides of c10/util/strides.h, and what they say
    about the addresses of the elements. *)

From S2P Require Import Prelude Layout ViewStride.

(** ** Row-major contiguity. *)

(** [contiguous_strides]: the loop runs from dimension [dims - 2] down to 0;
    [acc] holds the strides already written, its head [strides[i + 1]]. *)
Fixpoint contiguous_strides_loop (next_size : Z) (rev_sizes acc : list Z) : list Z :=
  match rev_sizes, acc with
  | s :: rest, st1 :: _ => contiguous_strides_loop s rest (st1 * Z.max next_size 1 :: acc)
  | _, _ => acc
  end.

Definition contiguous_strides (sizes : list Z) : list Z :=
  match rev sizes with
  | [] => []
  | s :: rest => contiguous_strides_loop s rest [1]
  end.

(** The loop of [_compute_contiguous], [d] from the last dimension to 0. *)
Fixpoint contiguous_loop (expected_stride : Z) (rev_dims : list (Z * Z)) : bool :=
  match rev_dims with
  | [] => true
  | (size_d, stride_d) :: rest =>
      if size_d =? 1 then contiguous_loop expected_stride rest
      else if negb (stride_d =? expected_stride) then false
      else contiguous_loop (expected_stride * size_d) rest
  end.

Definition _compute_contiguous (sizes strides : list Z) (numel : Z) : bool :=
  if numel =? 0 then true else contiguous_loop 1 (rev (zip sizes strides)).

(** ** Channels-last contiguity: the loops run over a fixed order of
    dimensions. *)
Fixpoint channels_last_loop (sizes strides : list Z) (expected : Z) (ds : list nat) : bool :=
  match ds with
  | [] => true
  | d :: ds' =>
      let size_d := sizes !!! d in
      if negb (size_d =? 1) then
        if negb (strides !!! d =? expected) then false
        else channels_last_loop sizes strides (expected * size_d) ds'
      else channels_last_loop sizes strides expected ds'
  end.

Definition _compute_channels_last_contiguous_2d (sizes strides : list Z) : bool :=
  match length sizes with
  | 4%nat => channels_last_loop sizes strides 1 [1; 3; 2; 0]%nat
  | 3%nat => false
  | _ => false
  end.

Definition _compute_channels_last_contiguous_3d (sizes strides : list Z) : bool :=
  match length sizes with
  | 5%nat => channels_last_loop sizes strides 1 [1; 4; 3; 2; 0]%nat
  | 4%nat => false
  | _ => false
  end.

(** [get_channels_last_strides_2d]: the ranks the function does not support
    raise an internal error. *)
Definition get_channels_last_strides_2d (sizes : list Z) : result (list Z) :=
  match sizes with
  | [s0; s1; s2; s3] =>
      let st1 := 1 in
      let st3 := s1 in
      let st2 := st3 * s3 in
      let st0 := st2 * s2 in
      Ok [st0; st1; st2; st3]
  | [s0; s1; s2] =>
      let st0 := 1 in
      let st2 := s0 in
      let st1 := st2 * s2 in
      Ok [st0; st1; st2]
  | _ => Throw (InternalAssert "ChannelsLast2d doesn't support size ")
  end.

Definition get_channels_last_strides_3d (sizes : list Z) : result (list Z) :=
  match sizes with
  | [s0; s1; s2; s3; s4] =>
      let st1 := 1 in
      let st4 := s1 in
      let st3 := st4 * s4 in
      let st2 := st3 * s3 in
      let st0 := st2 * s2 in
      Ok [st0; st1; st2; st3; st4]
  | [s0; s1; s2; s3] =>
      let st0 := 1 in
      let st3 := s0 in
      let st2 := st3 * s3 in
      let st1 := st2 * s2 in
      Ok [st0; st1; st2; st3]
  | _ => Throw (InternalAssert "ChannelsLast3d doesn't support size ")
  end.

(** The loop of [is_channels_last_strides_2d_s4] and [_3d_s5]. *)
Fixpoint is_channels_last_loop (sizes strides : list Z) (min : Z) (ds : list nat) : bool :=
  match ds with
  | [] => true
  | d :: ds' =>
      if sizes !!! d =? 0 then false
      else if strides !!! d <? min then false
      else if (d =? 0)%nat && (min =? strides !!! 1%nat) then false
      else
        let min := strides !!! d in
        let min := if sizes !!! d >? 1 then min * (sizes !!! d) else min in
        is_channels_last_loop sizes strides min ds'
  end.

Definition is_channels_last_strides_2d_s4 (sizes strides : list Z) : bool :=
  if strides !!! 1%nat =? 0 then false
  else is_channels_last_loop sizes strides 0 [1; 3; 2; 0]%nat.

Definition is_channels_last_strides_3d_s5 (sizes strides : list Z) : bool :=
  if strides !!! 1%nat =? 0 then false
  else is_channels_last_loop sizes strides 0 [1; 4; 3; 2; 0]%nat.

Definition is_channels_last_strides_2d (sizes strides : list Z) : bool :=
  match length sizes with
  | 4%nat => is_channels_last_strides_2d_s4 sizes strides
  | 3%nat => false
  | _ => false
  end.

Definition is_channels_last_strides_3d (sizes strides : list Z) : bool :=
  match length sizes with
  | 5%nat => is_channels_last_strides_3d_s5 sizes strides
  | 4%nat => false
  | _ => false
  end.

(** ** Lemmas on row-major contiguity. *)
Lemma contiguous_loop_linear rev_dims : ∀ c,
  positive (dims_sizes c) → positive (dims_sizes rev_dims) → linear c 1 →
  contiguous_loop (multiply_integers (dims_sizes c)) rev_dims = true ↔
  linear (c ++ rev_dims) 1.
Proof.
  induction rev_dims as [|[s st] rest IH]; intros c Hc Hp Hlin.
  { rewrite app_nil_r. by simpl. }
  apply positive_cons in Hp as [Hs Hp]; simpl in Hs.
  assert (0 < multiply_integers (dims_sizes c)) by (by apply multiply_pos).
  assert (0 < multiply_integers (dims_sizes rest)) by (by apply multiply_pos).
  replace (c ++ (s, st) :: rest) with ((c ++ [(s, st)]) ++ rest) by (by rewrite <- app_assoc).
  assert (continues c 1 ((s, st) :: rest) →
    contiguous_loop (multiply_integers (dims_sizes c) * s) rest = true ↔
    linear ((c ++ [(s, st)]) ++ rest) 1) as Hstep.
  { intros Hcont. destruct (chunk_extend 1 c s st rest Hc Hs Hcont Hlin) as (Hc' & Hlin' & <-).
    by apply IH. }
  simpl. case_bool; [|case_bool].
  - replace (multiply_integers (dims_sizes c)) with (multiply_integers (dims_sizes c) * s) by nia.
    apply Hstep. by left.
  - split; [done|]. intros Hall. exfalso.
    specialize (Hall (multiply_integers (dims_sizes c))).
    rewrite <- app_assoc in Hall. cbn [app] in Hall.
    rewrite chunk_break in Hall by (done || lia).
    rewrite dims_sizes_app, multiply_app in Hall. simpl in Hall. fold (dims_sizes rest) in Hall.
    assert (1 < s * multiply_integers (dims_sizes rest)) by nia. nia.
  - apply Hstep. right. lia.
Qed.

Lemma contiguous_addresses sizes strides :
  length strides = length sizes → positive sizes →
  _compute_contiguous sizes strides (multiply_integers sizes) = true ↔
  ∀ k, 0 <= k < multiply_integers sizes → element_offset sizes strides k = k.
Proof.
  intros Hl Hp. unfold _compute_contiguous.
  assert (0 < multiply_integers sizes) by (by apply multiply_pos).
  case_bool; [lia|].
  assert (dims_sizes (rev (zip sizes strides)) = rev sizes) as Hds
    by (by rewrite dims_sizes_rev, dims_sizes_zip).
  rewrite (contiguous_loop_linear _ []); [|constructor|rewrite Hds; by apply positive_rev|apply linear_nil].
  rewrite app_nil_l. unfold linear. rewrite Hds, multiply_rev.
  split; intros Hk k Hb; specialize (Hk k Hb); rewrite element_offset_laddr in * by done; lia.
Qed.

(** A shape with a zero size has no element. *)
Lemma positive_or_empty sizes :
  Forall (fun s => 0 <= s) sizes → positive sizes ∨ multiply_integers sizes = 0.
Proof.
  intros Hn. destruct (decide (multiply_integers sizes = 0)); [by right|left].
  by apply multiply_nonzero_pos.
Qed.

Lemma contiguous_nonneg sizes strides :
  length strides = length sizes → Forall (fun s => 0 <= s) sizes →
  _compute_contiguous sizes strides (multiply_integers sizes) = true ↔
  ∀ k, 0 <= k < multiply_integers sizes → element_offset sizes strides k = k.
Proof.
  intros Hl Hn. destruct (positive_or_empty sizes Hn) as [Hp|E].
  - by apply contiguous_addresses.
  - rewrite E. split; [|done]. intros _ k Hk. lia.
Qed.

(**  [_compute_contiguous] holds exactly when the [k]-th element in
    row-major order is stored at offset [k]; a tensor without elements is
    contiguous whatever its strides. *)
Theorem compute_contiguous_iff sizes strides :
  length strides = length sizes → Forall (fun s => 0 <= s) sizes →
  _compute_contiguous sizes strides (multiply_integers sizes) = true ↔
  ∀ k, 0 <= k < multiply_integers sizes → element_offset sizes strides k = k.
Proof. apply contiguous_nonneg. Qed.

Lemma compute_contiguous_iff_witness :
  _compute_contiguous [2; 1; 3] [3; 7; 1] 6 = true ∧
  ∀ k, 0 <= k < 6 → element_offset [2; 1; 3] [3; 7; 1] k = k.
Proof.
  split; [reflexivity|].
  apply (compute_contiguous_iff [2; 1; 3] [3; 7; 1]); [done|forall_lia|reflexivity].
Defined.

(** ** Row-major strides. *)

(** The stride of a dimension is the product of the sizes after it. *)
Fixpoint row_major_strides (sizes : list Z) : list Z :=
  match sizes with
  | [] => []
  | _ :: ss => multiply_integers ss :: row_major_strides ss
  end.

Lemma row_major_strides_length sizes : length (row_major_strides sizes) = length sizes.
Proof. induction sizes; simpl; congruence. Qed.

Lemma row_major_offset sizes idx :
  offset idx (row_major_strides sizes) = ravel sizes idx.
Proof. revert idx. induction sizes as [|s ss IH]; intros [|i idx]; simpl; try done. by rewrite IH. Qed.

Lemma row_major_element_offset sizes k :
  positive sizes → 0 <= k < multiply_integers sizes →
  element_offset sizes (row_major_strides sizes) k = k.
Proof. intros. unfold element_offset. rewrite row_major_offset. by apply ravel_unravel. Qed.

Lemma defaultStrides_loop_eq ss : ∀ tl stride,
  stride = multiply_integers tl →
  defaultStrides_loop stride (rev ss) (row_major_strides tl)
  = row_major_strides (ss ++ tl).
Proof.
  induction ss as [|s ss IH] using rev_ind; intros tl stride ->; [done|].
  rewrite rev_app_distr. simpl. rewrite <- app_assoc. simpl.
  by rewrite <- (IH (s :: tl) (multiply_integers tl * s)) by (simpl; lia).
Qed.

Lemma defaultStrides_row_major sizes : defaultStrides sizes = row_major_strides sizes.
Proof.
  pose proof (defaultStrides_loop_eq sizes [] 1 eq_refl) as H.
  by rewrite app_nil_r in H.
Qed.

Lemma contiguous_strides_loop_eq ss : ∀ s tl,
  contiguous_strides_loop s (rev ss) (row_major_strides (map (Z.max 1) (s :: tl)))
  = row_major_strides (map (Z.max 1) (ss ++ s :: tl)).
Proof.
  induction ss as [|s' ss IH] using rev_ind; intros s tl; [done|].
  rewrite rev_app_distr, <- app_assoc. cbn [app]. rewrite <- (IH s' (s :: tl)). simpl.
  by rewrite Z.mul_comm, (Z.max_comm s 1).
Qed.

(** The strides of [contiguous_strides] are the row-major ones of the sizes
    with 0 replaced by 1. *)
Lemma contiguous_strides_row_major sizes :
  contiguous_strides sizes = row_major_strides (map (Z.max 1) sizes).
Proof.
  unfold contiguous_strides. destruct sizes as [|s ss _] using rev_ind; [done|].
  rewrite rev_app_distr. exact (contiguous_strides_loop_eq ss s []).
Qed.

Lemma map_max1_positive sizes : positive sizes → map (Z.max 1) sizes = sizes.
Proof. induction 1; simpl; [done|]. f_equal; [lia|done]. Qed.

Lemma fresh_strides_accepted sizes :
  Forall (fun s => 0 <= s) sizes →
  _compute_contiguous sizes (contiguous_strides sizes) (multiply_integers sizes) = true.
Proof.
  intros Hn. rewrite contiguous_strides_row_major.
  destruct (positive_or_empty sizes Hn) as [Hp|E]; [|unfold _compute_contiguous; by rewrite E].
  rewrite map_max1_positive by done.
  apply contiguous_addresses; [apply row_major_strides_length|done|].
  intros k Hk. by apply row_major_element_offset.
Qed.

(**  The strides given to a fresh tensor, by [contiguous_strides] or by
    [defaultStrides], agree on shapes without a zero size and are accepted by
    [_compute_contiguous], whatever the shape. *)
Theorem fresh_strides_contiguous sizes :
  Forall (fun s => 0 <= s) sizes →
  _compute_contiguous sizes (contiguous_strides sizes) (multiply_integers sizes) = true ∧
  _compute_contiguous sizes (defaultStrides sizes) (multiply_integers sizes) = true ∧
  (multiply_integers sizes ≠ 0 → contiguous_strides sizes = defaultStrides sizes).
Proof.
  intros Hnn. rewrite contiguous_strides_row_major, defaultStrides_row_major.
  destruct (decide (multiply_integers sizes = 0)) as [E|E].
  { unfold _compute_contiguous. rewrite E. done. }
  assert (positive sizes) as Hp by (by apply multiply_nonzero_pos).
  rewrite map_max1_positive by done. split_and!; [| |done].
  all: apply contiguous_addresses; try done; [apply row_major_strides_length|].
  all: intros k Hk; by apply row_major_element_offset.
Qed.

Lemma fresh_strides_contiguous_witness :
  contiguous_strides [2; 3; 4] = [12; 4; 1] ∧
  _compute_contiguous [2; 3; 4] (contiguous_strides [2; 3; 4]) 24 = true.
Proof.
  split; [reflexivity|]. apply (fresh_strides_contiguous [2; 3; 4]). forall_lia.
Defined.

(** ** Channels last. *)
Lemma channels_last_loop_2d n c h w sn sc sh sw :
  _compute_channels_last_contiguous_2d [n; c; h; w] [sn; sc; sh; sw]
  = contiguous_loop 1 (rev (zip [n; h; w; c] [sn; sh; sw; sc])).
Proof.
  unfold _compute_channels_last_contiguous_2d. simpl.
  destruct (c =? 1), (w =? 1), (h =? 1), (n =? 1); simpl;
    repeat (case_match; simpl); congruence.
Qed.

(**  A 4-d tensor is channels-last contiguous exactly when the element
    [(n, c, h, w)] is stored at [((n H + h) W + w) C + c]. *)
Theorem channels_last_contiguous_2d_iff N C H W sn sc sh sw :
  positive [N; C; H; W] →
  _compute_channels_last_contiguous_2d [N; C; H; W] [sn; sc; sh; sw] = true ↔
  ∀ n c h w, in_bounds [N; C; H; W] [n; c; h; w] →
    offset [n; c; h; w] [sn; sc; sh; sw] = ((n * H + h) * W + w) * C + c.
Proof.
  intros Hp. rewrite channels_last_loop_2d.
  assert (positive [N; H; W; C]) as Hp'
    by (rewrite !positive_cons in *; tauto).
  pose proof (contiguous_addresses [N; H; W; C] [sn; sh; sw; sc] eq_refl Hp') as Hc.
  unfold _compute_contiguous in Hc.
  assert (0 < multiply_integers [N; H; W; C]) by (by apply multiply_pos).
  case_bool_in Hc; [lia|]. rewrite Hc. clear Hc. split; intros Hall.
  - intros n c h w Hib.
    assert (in_bounds [N; H; W; C] [n; h; w; c]) as Hib'.
    { unfold in_bounds in *. rewrite !Forall2_cons in *. tauto. }
    specialize (Hall (ravel [N; H; W; C] [n; h; w; c]) ltac:(by apply ravel_bounds)).
    unfold element_offset in Hall. rewrite unravel_ravel in Hall by done.
    simpl in *. lia.
  - intros k Hk. pose proof (unravel_in_bounds _ _ Hp' Hk) as Hib.
    pose proof (ravel_unravel _ _ Hp' Hk) as Hr. unfold element_offset.
    destruct (unravel [N; H; W; C] k) as [|n [|h [|w [|c [|]]]]] eqn:E; try done.
    assert (in_bounds [N; C; H; W] [n; c; h; w]) as Hib'
      by (unfold in_bounds in *; rewrite !Forall2_cons in *; tauto).
    specialize (Hall n c h w Hib'). simpl in *. lia.
Qed.

Lemma channels_last_contiguous_2d_iff_witness :
  _compute_channels_last_contiguous_2d [2; 3; 4; 5] [60; 1; 15; 3] = true ∧
  offset [1; 2; 3; 4] [60; 1; 15; 3] = ((1 * 4 + 3) * 5 + 4) * 3 + 2.
Proof.
  split; [reflexivity|].
  apply (channels_last_contiguous_2d_iff 2 3 4 5 60 1 15 3); [forall_lia|reflexivity|].
  in_bounds_lia.
Defined.

(**  A tensor is marked channels-last only by explicit request: fresh
    row-major strides are never recognised as channels-last, and the strides
    of [get_channels_last_strides_2d] always are, unless C = H = W = 1. *)
Theorem channels_last_strides_2d_opt_in N C H W :
  positive [N; C; H; W] →
  is_channels_last_strides_2d [N; C; H; W] (contiguous_strides [N; C; H; W]) = false ∧
  ∃ strides, get_channels_last_strides_2d [N; C; H; W] = Ok strides ∧
    is_channels_last_strides_2d [N; C; H; W] strides
      = negb ((C =? 1) && (H =? 1) && (W =? 1)) ∧
    _compute_channels_last_contiguous_2d [N; C; H; W] strides = true.
Proof.
  rewrite !positive_cons. intros (HN & HC & HH & HW & _).
  split; [|eexists; split_and!; [reflexivity| |]].
  - rewrite contiguous_strides_row_major, map_max1_positive by forall_lia.
    unfold is_channels_last_strides_2d, is_channels_last_strides_2d_s4. simpl.
    repeat (case_bool; try lia; try nia).
  - unfold is_channels_last_strides_2d, is_channels_last_strides_2d_s4. simpl.
    repeat (case_bool; try lia; try nia).
  - rewrite channels_last_loop_2d. simpl. repeat (case_bool; try lia; try nia).
Qed.

Lemma channels_last_strides_2d_opt_in_witness :
  is_channels_last_strides_2d [2; 3; 4; 5] (contiguous_strides [2; 3; 4; 5]) = false ∧
  is_channels_last_strides_2d [2; 3; 4; 5] [60; 1; 15; 3] = true.
Proof.
  split; [|reflexivity]. apply (channels_last_strides_2d_opt_in 2 3 4 5). forall_lia.
Defined.
