(* ===== verification/Overlap.v ===== *)
(** * Non-overlapping and dense layouts, dense strides, memory overlap.

    [_compute_non_overlapping_and_dense] of c10/core/Contiguity.h,
    [infer_dense_strides] of aten/src/ATen/ExpandUtils.cpp and the overlap
    tests of aten/src/ATen/MemoryOverlap.cpp. *)

From S2P Require Import Prelude Layout ViewStride Contiguity.

(** ** [_compute_non_overlapping_and_dense]. *)

(** The comparator of the sort: sizes 0 and 1 go to the end of the array. *)
Definition nod_less (sizes strides : list Z) (a b : nat) : bool :=
  if sizes !!! a <? 2 then false
  else if sizes !!! b <? 2 then true
  else strides !!! a <? strides !!! b.

Fixpoint nod_loop (sizes strides : list Z) (require_stride : Z) (perm : list nat) : bool :=
  match perm with
  | [] => true
  | p :: perm' =>
      let size_perm_i := sizes !!! p in
      if size_perm_i <? 2 then true
      else if negb (strides !!! p =? require_stride) then false
      else nod_loop sizes strides (require_stride * size_perm_i) perm'
  end.

Definition _compute_non_overlapping_and_dense (sizes strides : list Z) : bool :=
  let dim := length sizes in
  if (dim =? 1)%nat then (sizes !!! 0%nat <? 2) || (strides !!! 0%nat =? 1)
  else nod_loop sizes strides 1 (std_sort (nod_less sizes strides) (seq 0 dim)).

(** ** [infer_dense_strides]. *)

(** -1 if [dim0] should come before [dim1], 1 if after, 0 if ambiguous. *)
Definition should_swap (tensor_sizes tensor_strides : list Z) (dim0 dim1 : nat) : Z :=
  let stride0 := tensor_strides !!! dim0 in
  let stride1 := tensor_strides !!! dim1 in
  if (stride0 =? 0) || (stride1 =? 0) then 0
  else if stride0 <? stride1 then -1
  else if stride0 >? stride1 then 1
  else if tensor_sizes !!! dim0 >? tensor_sizes !!! dim1 then 1
  else 0.

(** [std::swap(perm[i], perm[j])]. *)
Definition swap_at (perm : list nat) (i j : nat) : list nat :=
  <[i := perm !!! j]> (<[j := perm !!! i]> perm).

(** The inner loop of the insertion sort, [j] over [js]; an ambiguous
    comparison skips the position without moving. *)
Fixpoint insertion_inner (cmp : nat → nat → Z) (i : nat) (js : list nat)
    (dim1 : nat) (perm : list nat) : list nat :=
  match js with
  | [] => perm
  | j :: js' =>
      let dim0 := (i - j)%nat in
      let comparison := cmp (perm !!! dim0) (perm !!! dim1) in
      if comparison >? 0 then insertion_inner cmp i js' dim0 (swap_at perm dim0 dim1)
      else if comparison <? 0 then perm
      else insertion_inner cmp i js' dim1 perm
  end.

(** The sort shared with TensorIterator: [i] from 1, [j] from 1 to [i]. *)
Definition insertion_sort (cmp : nat → nat → Z) (ndim : nat) (perm : list nat) : list nat :=
  foldl (fun perm i => insertion_inner cmp i (seq 1 i) i perm) perm (seq 1 (ndim - 1)).

(** The strides written along [perm]. *)
Fixpoint dense_loop (tensor_sizes : list Z) (curr_stride : Z) (perm : list nat)
    (out_strides : list Z) : list Z :=
  match perm with
  | [] => out_strides
  | idx :: perm' =>
      let out_strides := <[idx := curr_stride]> out_strides in
      let curr_stride :=
        if tensor_sizes !!! idx >? 1 then curr_stride * (tensor_sizes !!! idx)
        else curr_stride in
      dense_loop tensor_sizes curr_stride perm' out_strides
  end.

Definition infer_dense_strides (tensor_sizes tensor_strides : list Z) : result (list Z) :=
  _ ← TORCH_CHECK (length tensor_sizes =? length tensor_strides)%nat
        "Input sizes and strides should have same size but got ";
  let ndim := length tensor_sizes in
  match ndim with
  | 0%nat => Ok []
  | 1%nat => Ok [1]
  | _ =>
      let perm := insertion_sort (should_swap tensor_sizes tensor_strides) ndim
                    (rev (seq 0 ndim)) in
      Ok (dense_loop tensor_sizes 1 perm (replicate ndim 0))
  end.

(** ** Specification: the elements occupy [0, numel) exactly. *)
Definition dense_dims (dims : list (Z * Z)) : Prop :=
  let N := multiply_integers (map fst dims) in
  (∀ idx, in_bounds (map fst dims) idx → 0 <= offset idx (map snd dims) < N) ∧
  (∀ idx1 idx2, in_bounds (map fst dims) idx1 → in_bounds (map fst dims) idx2 →
     offset idx1 (map snd dims) = offset idx2 (map snd dims) → idx1 = idx2) ∧
  (∀ a, 0 <= a < N → ∃ idx, in_bounds (map fst dims) idx ∧ offset idx (map snd dims) = a).

Definition non_overlapping_and_dense (sizes strides : list Z) : Prop :=
  dense_dims (zip sizes strides).

(** ** Permuting dimensions. *)
Lemma perm_transport dims dims' :
  dims ≡ₚ dims' → ∃ f g : list Z → list Z,
    (∀ idx, in_bounds (map fst dims) idx →
       in_bounds (map fst dims') (f idx) ∧
       offset (f idx) (map snd dims') = offset idx (map snd dims) ∧ g (f idx) = idx) ∧
    (∀ idx, in_bounds (map fst dims') idx →
       in_bounds (map fst dims) (g idx) ∧
       offset (g idx) (map snd dims) = offset idx (map snd dims') ∧ f (g idx) = idx).
Proof.
  induction 1 as [|[s t] l l' _ (f & g & Hf & Hg)|[s t] [s' t'] l|l l' l'' _ (f & g & Hf & Hg) _ (f' & g' & Hf' & Hg')].
  - exists id, id. split; intros; auto.
  - exists (fun idx => match idx with i :: r => i :: f r | [] => [] end),
      (fun idx => match idx with i :: r => i :: g r | [] => [] end).
    split; intros idx Hidx; inversion Hidx as [|? i ? r Hi Hr]; subst; simpl;
      [destruct (Hf r Hr) as (? & ? & ?)|destruct (Hg r Hr) as (? & ? & ?)];
      (split_and!; [by constructor|lia|congruence]).
  - exists (fun idx => match idx with i :: j :: r => j :: i :: r | r => r end),
      (fun idx => match idx with i :: j :: r => j :: i :: r | r => r end).
    split; intros idx Hidx; inversion Hidx as [|? i ? r Hi Hr]; subst; simpl in *;
      inversion Hr as [|? j ? r' Hj Hr']; subst; simpl in *;
      (split_and!; [repeat (constructor; [done|]); done|lia|done]).
  - exists (f' ∘ f), (g ∘ g'). split; intros idx Hidx; unfold compose.
    + destruct (Hf idx Hidx) as (Hb & ? & ?). destruct (Hf' (f idx) Hb) as (? & ? & E).
      rewrite E. split_and!; [done|congruence|done].
    + destruct (Hg' idx Hidx) as (Hb & ? & ?). destruct (Hg (g' idx) Hb) as (? & ? & E).
      rewrite E. split_and!; [done|congruence|done].
Qed.

#[export] Instance multiply_integers_perm : Proper (Permutation ==> eq) multiply_integers.
Proof. intros l l'. induction 1; simpl; lia. Qed.

#[export] Instance dense_dims_perm : Proper (Permutation ==> iff) dense_dims.
Proof.
  assert (∀ dims dims', dims ≡ₚ dims' → dense_dims dims → dense_dims dims') as Himp.
  { intros dims dims' Hp (H1 & H2 & H3).
    destruct (perm_transport _ _ Hp) as (f & g & Hf & Hg).
    assert (multiply_integers (map fst dims') = multiply_integers (map fst dims)) as E by (by rewrite Hp).
    unfold dense_dims. rewrite E. split_and!.
    - intros idx Hidx. destruct (Hg idx Hidx) as (? & <- & _). auto.
    - intros idx1 idx2 Hi1 Hi2 He. destruct (Hg idx1 Hi1) as (? & ? & <-), (Hg idx2 Hi2) as (? & ? & <-).
      f_equal. apply H2; congruence.
    - intros a Ha. destruct (H3 a Ha) as (idx & Hidx & <-).
      destruct (Hf idx Hidx) as (? & ? & _). eauto. }
  intros dims dims' Hp. split; apply Himp; [done|by symmetry].
Qed.

(** ** Dense layouts and the inside-out address. *)

Definition dense_addr (f : Z → Z) (N : Z) : Prop :=
  (∀ k, 0 <= k < N → 0 <= f k < N) ∧
  (∀ k1 k2, 0 <= k1 < N → 0 <= k2 < N → f k1 = f k2 → k1 = k2) ∧
  (∀ a, 0 <= a < N → ∃ k, 0 <= k < N ∧ f k = a).

Lemma map_fst_snd_zip (dims : list (Z * Z)) : zip (map fst dims) (map snd dims) = dims.
Proof. induction dims as [|[s t] dims IH]; simpl; [done|]. by rewrite IH. Qed.

Lemma dense_dims_laddr dims :
  positive (map fst dims) →
  dense_dims (rev dims) ↔ dense_addr (laddr dims) (multiply_integers (map fst dims)).
Proof.
  intros Hp. set (rd := rev dims).
  assert (positive (map fst rd)) as Hrp by (unfold rd; rewrite map_rev; by apply positive_rev).
  assert (multiply_integers (map fst rd) = multiply_integers (map fst dims)) as HN
    by (unfold rd; by rewrite map_rev, multiply_rev).
  assert (∀ k, 0 <= k < multiply_integers (map fst dims) →
    laddr dims k = offset (unravel (map fst rd) k) (map snd rd)) as Haddr.
  { intros k Hk. pose proof (element_offset_laddr (map fst rd) (map snd rd) k) as He.
    rewrite !length_map, HN, map_fst_snd_zip in He.
    replace (rev rd) with dims in He by (unfold rd; by rewrite rev_involutive).
    unfold element_offset in He. symmetry. auto. }
  assert (∀ idx, in_bounds (map fst rd) idx →
    0 <= ravel (map fst rd) idx < multiply_integers (map fst dims) ∧
    laddr dims (ravel (map fst rd) idx) = offset idx (map snd rd)) as Hravel.
  { intros idx Hidx. pose proof (ravel_bounds _ _ Hrp Hidx) as Hb. rewrite HN in Hb.
    split; [done|]. by rewrite Haddr, unravel_ravel. }
  assert (∀ k, 0 <= k < multiply_integers (map fst dims) →
    in_bounds (map fst rd) (unravel (map fst rd) k)) as Hub
    by (intros; apply unravel_in_bounds; rewrite ?HN; done).
  unfold dense_dims, dense_addr. rewrite HN. split; intros (H1 & H2 & H3); split_and!.
  - intros k Hk. rewrite Haddr by done. auto.
  - intros k1 k2 Hk1 Hk2 He. rewrite !Haddr in He by done.
    apply H2 in He; auto. rewrite <- (ravel_unravel (map fst rd) k1), He by (rewrite ?HN; done).
    apply ravel_unravel; rewrite ?HN; done.
  - intros a Ha. destruct (H3 a Ha) as (idx & Hidx & <-).
    destruct (Hravel idx Hidx). eauto.
  - intros idx Hidx. destruct (Hravel idx Hidx) as [Hb <-]. auto.
  - intros idx1 idx2 Hi1 Hi2 He. destruct (Hravel idx1 Hi1) as [? E1], (Hravel idx2 Hi2) as [? E2].
    rewrite <- E1, <- E2 in He. apply H2 in He; [|done..].
    rewrite <- (unravel_ravel (map fst rd) idx1), He by done. by apply unravel_ravel.
  - intros a Ha. destruct (H3 a Ha) as (k & Hk & <-). rewrite Haddr by done. eauto.
Qed.

Lemma linear_1_dense dims :
  positive (map fst dims) → linear dims 1 →
  dense_addr (laddr dims) (multiply_integers (map fst dims)).
Proof.
  intros Hp Hlin. unfold linear, dims_sizes in Hlin. split_and!.
  - intros k Hk. rewrite Hlin by done. lia.
  - intros k1 k2 Hk1 Hk2. rewrite !Hlin by done. lia.
  - intros a Ha. exists a. rewrite Hlin by done. lia.
Qed.

(** ** Correctness of [_compute_non_overlapping_and_dense]. *)

Definition dims_of (sizes strides : list Z) (perm : list nat) : list (Z * Z) :=
  map (fun p => (sizes !!! p, strides !!! p)) perm.

#[export] Instance dims_of_perm sizes strides :
  Proper (Permutation ==> Permutation) (dims_of sizes strides).
Proof. intros p q Hpq. by apply Permutation_map. Qed.

Lemma dims_of_seq sizes strides :
  length strides = length sizes → dims_of sizes strides (seq 0 (length sizes)) = zip sizes strides.
Proof.
  intros Hl. apply list_eq. intros i. unfold dims_of.
  change (map ?f ?l) with (f <$> l).
  rewrite list_lookup_fmap, lookup_zip_with.
  destruct (decide (i < length sizes)%nat) as [Hi|Hi].
  - rewrite lookup_seq_lt by done. simpl.
    destruct (lookup_lt_is_Some_2 sizes i) as [s Hs]; [done|].
    destruct (lookup_lt_is_Some_2 strides i) as [t Ht]; [lia|].
    rewrite (list_lookup_total_correct _ _ _ Hs), (list_lookup_total_correct _ _ _ Ht), Hs, Ht. done.
  - rewrite lookup_seq_ge by lia. by rewrite (lookup_ge_None_2 sizes) by lia.
Qed.

Lemma laddr_lower dims t m :
  Forall (fun d => 0 < d.1 ∧ (d.1 = 1 ∨ t <= d.2)) dims → 0 <= t →
  0 < m < multiply_integers (map fst dims) → t <= laddr dims m.
Proof.
  intros Hd Ht. revert m. induction Hd as [|[s st] dims [Hs Hst] Hd IH]; intros m Hm; simpl in *; [lia|].
  assert (0 <= m mod s < s) by (apply Z.mod_pos_bound; lia).
  assert (0 <= (m mod s) * st) by (destruct Hst; [assert (m mod s = 0) as -> by lia; lia|nia]).
  destruct (decide (m / s = 0)) as [E|E].
  - rewrite E, laddr_0. pose proof (Z.div_mod m s ltac:(lia)). nia.
  - assert (0 <= m / s) by (apply Z.div_pos; lia).
    assert (m / s < multiply_integers (map fst dims)) by (apply Z.div_lt_upper_bound; lia).
    specialize (IH (m / s) ltac:(lia)). lia.
Qed.

(** A dimension that does not continue a dense prefix breaks density. *)
Lemma dense_forces_stride c s t rest :
  positive (map fst c) → 1 < s → positive (map fst rest) →
  Forall (fun d => 0 < d.1 ∧ (d.1 = 1 ∨ t <= d.2)) rest →
  linear c 1 →
  dense_addr (laddr (c ++ (s, t) :: rest)) (multiply_integers (map fst (c ++ (s, t) :: rest))) →
  t = multiply_integers (map fst c).
Proof.
  intros Hc Hs Hrest Hlow Hlin (H1 & H2 & H3).
  rewrite map_app, multiply_app in *. simpl in *.
  set (P := multiply_integers (map fst c)) in *.
  assert (0 < P) by (by apply multiply_pos).
  assert (0 < multiply_integers (map fst rest)) as HR by (by apply multiply_pos).
  assert (P < P * (s * multiply_integers (map fst rest))) by (assert (1 < s * multiply_integers (map fst rest)) by nia; nia).
  pose proof (chunk_break c s t rest Hc Hs) as Hbreak. fold (dims_sizes c) in *. fold P in Hbreak.
  pose proof (H1 P ltac:(lia)) as Ht. rewrite Hbreak in Ht.
  destruct (decide (t = P)) as [|Hne]; [done|exfalso].
  destruct (decide (t < P)) as [Hlt|Hge].
  - apply Hne, (H2 t P ltac:(lia) ltac:(lia)). rewrite Hbreak.
    rewrite laddr_app by (done || lia). fold P. rewrite Z.mod_small, Z.div_small, laddr_0, Hlin by (fold P; lia). lia.
  - destruct (H3 P ltac:(lia)) as (k & Hk & Hfk). rewrite laddr_app in Hfk by (done || lia).
    fold P in Hfk. rewrite Hlin in Hfk by (fold P; apply Z.mod_pos_bound; lia).
    assert (0 <= k mod P < P) by (apply Z.mod_pos_bound; lia).
    destruct (decide (k / P = 0)) as [E|E]; [rewrite E, laddr_0 in Hfk; lia|].
    assert (0 <= k / P) by (apply Z.div_pos; lia).
    assert (t <= laddr ((s, t) :: rest) (k / P)).
    { apply laddr_lower; [constructor; [simpl; lia|done]|lia|]. simpl.
      split; [lia|]. apply Z.div_lt_upper_bound; lia. }
    lia.
Qed.

Lemma nod_less_asym sizes strides x y :
  nod_less sizes strides x y = true → nod_less sizes strides y x = false.
Proof. unfold nod_less. repeat case_bool; try done; lia. Qed.

Lemma nod_less_trans sizes strides x y z :
  nod_less sizes strides y x = false → nod_less sizes strides z y = false →
  nod_less sizes strides z x = false.
Proof.
  unfold nod_less. intros H1 H2. repeat case_bool_in H1; repeat case_bool_in H2; try done;
    repeat case_bool; try done; bool_simpl; try lia. all: apply Z.ltb_ge; lia.
Qed.

Lemma nod_rest_small sizes strides p perm :
  positive (map fst (dims_of sizes strides perm)) → sizes !!! p < 2 →
  Forall (fun q => nod_less sizes strides q p = false) perm →
  Forall (fun q => sizes !!! q = 1) perm.
Proof.
  intros Hpos Hp Hs. induction Hs as [|q perm Hq Hs IH]; [constructor|].
  simpl in Hpos. apply positive_cons in Hpos as [Hq0 Hpos].
  constructor; [|by apply IH]. unfold nod_less in Hq. repeat case_bool_in Hq; try done; lia.
Qed.

Lemma nod_rest_large sizes strides p perm :
  positive (map fst (dims_of sizes strides perm)) → 2 <= sizes !!! p →
  Forall (fun q => nod_less sizes strides q p = false) perm →
  Forall (fun d => 0 < d.1 ∧ (d.1 = 1 ∨ strides !!! p <= d.2)) (dims_of sizes strides perm).
Proof.
  intros Hpos Hp Hs. induction Hs as [|q perm Hq Hs IH]; [constructor|].
  simpl in *. apply positive_cons in Hpos as [Hq0 Hpos].
  constructor; [simpl; split; [done|]|by apply IH].
  unfold nod_less in Hq. repeat case_bool_in Hq; try done; bool_simpl; lia.
Qed.

Lemma linear_ones c perm sizes strides :
  positive (map fst c) → linear c 1 → Forall (fun q => sizes !!! q = 1) perm →
  positive (map fst (c ++ dims_of sizes strides perm)) ∧
  linear (c ++ dims_of sizes strides perm) 1.
Proof.
  intros Hc Hlin Hs. revert c Hc Hlin. induction Hs as [|q perm Hq Hs IH]; intros c Hc Hlin; simpl.
  - by rewrite app_nil_r.
  - rewrite Hq. replace (c ++ (1, strides !!! q) :: dims_of sizes strides perm)
      with ((c ++ [(1, strides !!! q)]) ++ dims_of sizes strides perm) by (by rewrite <- app_assoc).
    destruct (chunk_extend 1 c 1 (strides !!! q) [] Hc ltac:(lia) ltac:(by left) Hlin) as (? & ? & _).
    by apply IH.
Qed.

Lemma nod_loop_iff sizes strides perm : ∀ c,
  positive (map fst c) → positive (map fst (dims_of sizes strides perm)) → linear c 1 →
  StronglySorted (λ a b, nod_less sizes strides b a = false) perm →
  nod_loop sizes strides (multiply_integers (map fst c)) perm = true ↔
  dense_addr (laddr (c ++ dims_of sizes strides perm))
    (multiply_integers (map fst (c ++ dims_of sizes strides perm))).
Proof.
  induction perm as [|p perm IH]; intros c Hc Hp Hlin Hsort.
  { simpl. rewrite app_nil_r. split; [|done]. intros _. by apply linear_1_dense. }
  apply StronglySorted_inv in Hsort as [Hsort Hall].
  simpl in Hp. apply positive_cons in Hp as [Hp0 Hp]. simpl nod_loop.
  case_bool.
  { split; [|done]. intros _.
    pose proof (nod_rest_small _ _ _ _ Hp Heqb Hall) as Hones.
    destruct (linear_ones c (p :: perm) sizes strides Hc Hlin) as [Hpos Hl1].
    { constructor; [lia|done]. }
    by apply linear_1_dense. }
  pose proof (nod_rest_large _ _ _ _ Hp Heqb Hall) as Hlow.
  simpl dims_of. case_bool.
  - split; [done|]. intros Hd. exfalso.
    apply dense_forces_stride in Hd; [done|done|lia|done|done|done].
  - replace (c ++ (sizes !!! p, strides !!! p) :: dims_of sizes strides perm)
      with ((c ++ [(sizes !!! p, strides !!! p)]) ++ dims_of sizes strides perm)
      by (by rewrite <- app_assoc).
    destruct (chunk_extend 1 c (sizes !!! p) (strides !!! p) [] Hc Hp0) as (? & ? & Hm);
      [right; unfold dims_sizes; lia|done|].
    unfold dims_sizes in Hm. rewrite <- Hm. by apply IH.
Qed.

Lemma nod_addresses sizes strides :
  length strides = length sizes → positive sizes →
  _compute_non_overlapping_and_dense sizes strides = true ↔
  non_overlapping_and_dense sizes strides.
Proof.
  intros Hl Hpos. unfold non_overlapping_and_dense.
  set (perm := std_sort (nod_less sizes strides) (seq 0 (length sizes))).
  assert (_compute_non_overlapping_and_dense sizes strides = nod_loop sizes strides 1 perm) as ->.
  { unfold _compute_non_overlapping_and_dense, perm. case_bool; [|done].
    apply Nat.eqb_eq in Heqb. rewrite Heqb. simpl.
    destruct (sizes !!! 0%nat <? 2); [done|]. by destruct (strides !!! 0%nat =? 1). }
  assert (dims_of sizes strides perm ≡ₚ zip sizes strides) as Hperm.
  { rewrite <- dims_of_seq by done. unfold dims_of. apply Permutation_map, std_sort_perm. }
  assert (positive (map fst (dims_of sizes strides perm))) as Hp.
  { unfold positive. rewrite Hperm.
    change (positive (dims_sizes (zip sizes strides))). by rewrite dims_sizes_zip. }
  rewrite <- Hperm, (Permutation_rev (dims_of _ _ _)), dense_dims_laddr by done.
  change 1 with (multiply_integers (map fst ([] : list (Z * Z)))).
  rewrite nod_loop_iff; [done|constructor|done|apply linear_nil|].
  apply std_sort_sorted; [apply nod_less_asym|].
  intros x y z Hxy Hyz. by apply (nod_less_trans _ _ _ y).
Qed.

(** C35.  A strided tensor without zero-sized dimensions is reported
    non-overlapping and dense exactly when its elements occupy the offsets
    [0, numel), one each. *)
Theorem compute_non_overlapping_and_dense_iff sizes strides :
  length strides = length sizes → positive sizes →
  _compute_non_overlapping_and_dense sizes strides = true ↔
  non_overlapping_and_dense sizes strides.
Proof. apply nod_addresses. Qed.

Lemma compute_non_overlapping_and_dense_iff_witness :
  _compute_non_overlapping_and_dense [2; 3; 4] [3; 1; 6] = true ∧
  non_overlapping_and_dense [2; 3; 4] [3; 1; 6].
Proof.
  split; [reflexivity|].
  apply (compute_non_overlapping_and_dense_iff [2; 3; 4] [3; 1; 6]);
    [reflexivity|forall_lia|reflexivity].
Defined.

(** ** Correctness of the dense strides. *)

Lemma list_lookup_total_lt (l : list nat) i :
  (i < length l)%nat → l !! i = Some (l !!! i).
Proof. intros H. by apply list_lookup_lookup_total_lt. Qed.

Lemma swap_at_perm perm i j :
  (i < length perm)%nat → (j < length perm)%nat → swap_at perm i j ≡ₚ perm.
Proof.
  intros Hi Hj. unfold swap_at. apply Permutation_insert_swap; by apply list_lookup_total_lt.
Qed.

Lemma insertion_inner_perm cmp i js : ∀ dim1 perm,
  (i < length perm)%nat → (dim1 < length perm)%nat → insertion_inner cmp i js dim1 perm ≡ₚ perm.
Proof.
  induction js as [|j js IH]; intros dim1 perm Hi Hd; simpl; [done|].
  case_bool; [|case_bool; [done|by apply IH]].
  assert (i - j < length perm)%nat by lia.
  assert (swap_at perm (i - j) dim1 ≡ₚ perm) as Hp by (by apply swap_at_perm).
  rewrite IH by (by rewrite (Permutation_length Hp)). done.
Qed.

Lemma insertion_sort_perm cmp ndim perm :
  length perm = ndim → insertion_sort cmp ndim perm ≡ₚ perm.
Proof.
  intros Hl. unfold insertion_sort.
  assert (Forall (fun i => (i < ndim)%nat) (seq 1 (ndim - 1))) as Hs.
  { apply Forall_forall. intros i Hi%elem_of_seq. lia. }
  revert Hs perm Hl. generalize (seq 1 (ndim - 1)). intros l Hs.
  induction Hs as [|i l Hi Hs IH]; intros perm Hl; simpl; [done|].
  assert (insertion_inner cmp i (seq 1 i) i perm ≡ₚ perm) as Hp
    by (apply insertion_inner_perm; lia).
  rewrite IH by (by rewrite (Permutation_length Hp)). done.
Qed.

Lemma dense_loop_spec sizes perm : ∀ curr out,
  NoDup perm → Forall (fun p => (p < length out)%nat) perm → Forall (fun p => 0 < sizes !!! p) perm →
  length (dense_loop sizes curr perm out) = length out ∧
  (∀ q, q ∉ perm → dense_loop sizes curr perm out !!! q = out !!! q) ∧
  ∀ c, positive (map fst c) → linear c 1 → multiply_integers (map fst c) = curr →
    linear (c ++ dims_of sizes (dense_loop sizes curr perm out) perm) 1.
Proof.
  induction perm as [|p perm IH]; intros curr out Hnd Hlt Hpos; simpl.
  { split_and!; [done|done|]. intros c _ Hc _. by rewrite app_nil_r. }
  apply NoDup_cons in Hnd as [Hp Hnd]. apply Forall_cons in Hlt as [Hpl Hlt].
  apply Forall_cons in Hpos as [Hp0 Hpos].
  set (curr' := if sizes !!! p >? 1 then curr * sizes !!! p else curr).
  assert (curr' = curr * sizes !!! p) as Hcurr by (unfold curr'; case_bool; [done|]; assert (sizes !!! p = 1) as -> by lia; lia).
  destruct (IH curr' (<[p := curr]> out) Hnd) as (Hlen & Hsame & Hlin);
    [by rewrite length_insert|done|].
  rewrite length_insert in Hlen. split_and!; [done| |].
  - intros q Hq. apply not_elem_of_cons in Hq as [Hqp Hq]. rewrite Hsame by done.
    by rewrite list_lookup_total_insert_ne.
  - intros c Hc Hcl Hcm.
    rewrite (Hsame p Hp), list_lookup_total_insert_eq by done.
    destruct (chunk_extend 1 c (sizes !!! p) curr [] Hc Hp0) as (? & ? & Hm);
      [right; unfold dims_sizes; lia|done|]. unfold dims_sizes in Hm.
    specialize (Hlin (c ++ [(sizes !!! p, curr)])). rewrite <- app_assoc in Hlin.
    apply Hlin; [done|done|lia].
Qed.

(**  [infer_dense_strides] always yields a non-overlapping and dense layout
    of the given sizes, whatever strides it starts from, and rejects sizes and
    strides of different lengths. *)
Theorem infer_dense_strides_dense tensor_sizes tensor_strides :
  positive tensor_sizes →
  match infer_dense_strides tensor_sizes tensor_strides with
  | Ok out_strides =>
      length tensor_sizes = length tensor_strides ∧
      length out_strides = length tensor_sizes ∧
      non_overlapping_and_dense tensor_sizes out_strides
  | Throw _ => length tensor_sizes ≠ length tensor_strides
  end.
Proof.
  intros Hpos. unfold infer_dense_strides, TORCH_CHECK.
  destruct (_ =? _)%nat eqn:Hl; simpl; [|by apply Nat.eqb_neq].
  apply Nat.eqb_eq in Hl. destruct (length tensor_sizes) as [|[|n]] eqn:Hn.
  - destruct tensor_sizes; [|done]. split_and!; [done|done|].
    apply (nod_addresses [] []); [done|constructor|done].
  - destruct tensor_sizes as [|s [|]]; [done| |done]. split_and!; [done|done|].
    apply (nod_addresses [s] [1]); [done|done|].
    unfold _compute_non_overlapping_and_dense. simpl. apply orb_true_r.
  - set (m := S (S n)) in *. set (perm := insertion_sort _ m _).
    assert (perm ≡ₚ seq 0 m) as Hperm.
    { unfold perm. rewrite insertion_sort_perm by (by rewrite length_rev, length_seq).
      symmetry. apply Permutation_rev. }
    assert (NoDup perm) as Hnd by (rewrite Hperm; apply NoDup_seq).
    assert (Forall (fun p => (p < m)%nat) perm) as Hlt.
    { rewrite Hperm. apply Forall_forall. intros p Hp%elem_of_seq. lia. }
    destruct (dense_loop_spec tensor_sizes perm 1 (replicate m 0)) as (Hlen & _ & Hlin); [done| | |].
    { by rewrite length_replicate. }
    { eapply Forall_impl; [exact Hlt|]. intros p Hp. apply (Forall_lookup_total_1 _ _ _ Hpos). by rewrite Hn. }
    set (out := dense_loop _ _ _ _) in *. rewrite length_replicate in Hlen.
    split_and!; [done|done|]. unfold non_overlapping_and_dense.
    assert (dims_of tensor_sizes out perm ≡ₚ zip tensor_sizes out) as Hz.
    { rewrite <- dims_of_seq by congruence. apply Permutation_map. by rewrite Hn. }
    assert (positive (map fst (dims_of tensor_sizes out perm))) as Hp.
    { unfold positive. rewrite Hz. change (positive (dims_sizes (zip tensor_sizes out))).
      rewrite dims_sizes_zip; congruence. }
    rewrite <- Hz, (Permutation_rev (dims_of _ _ _)), dense_dims_laddr by done.
    apply linear_1_dense; [done|]. apply (Hlin []); [constructor|apply linear_nil|done].
Qed.

Lemma infer_dense_strides_dense_witness :
  infer_dense_strides [6; 5; 4; 3; 2] [6; 0; 120; 0; 1] = Ok [6; 36; 180; 2; 1] ∧
  non_overlapping_and_dense [6; 5; 4; 3; 2] [6; 36; 180; 2; 1].
Proof.
  split; [reflexivity|].
  apply (infer_dense_strides_dense [6; 5; 4; 3; 2] [6; 0; 120; 0; 1]). forall_lia.
Defined.
