(* ===== verification/SafeNum.v ===== *)
(** * Overflow-checked arithmetic and storage sizes.

    c10/util/safe_numerics.h (the builtin branch) and the storage size
    computations of aten/src/ATen/EmptyTensor.cpp. *)

From S2P Require Import Prelude Layout.

(** ** Machine integers. *)
Definition u64_max : Z := 2 ^ 64 - 1.
Definition int64_max : Z := 2 ^ 63 - 1.
Definition int64_min : Z := - 2 ^ 63.

(** Conversion to [uint64_t] and to [int64_t]. *)
Definition to_u64 (x : Z) : Z := x mod 2 ^ 64.
Definition to_i64 (x : Z) : Z := (x + 2 ^ 63) mod 2 ^ 64 - 2 ^ 63.

(** [__builtin_add_overflow] and [__builtin_mul_overflow] on [uint64_t] and
    [int64_t]: whether the exact result is not representable, and the wrapped
    result stored through the pointer. *)
Definition add_overflows (a b : Z) : bool * Z :=
  (negb (to_u64 (a + b) =? a + b), to_u64 (a + b)).
Definition mul_overflows (a b : Z) : bool * Z :=
  (negb (to_u64 (a * b) =? a * b), to_u64 (a * b)).
Definition mul_overflows_i64 (a b : Z) : bool * Z :=
  (negb (to_i64 (a * b) =? a * b), to_i64 (a * b)).

(** [safe_multiplies_u64]: the elements are converted to [uint64_t]. *)
Fixpoint safe_multiplies_loop (prod : Z) (overflow : bool) (c : list Z) : bool * Z :=
  match c with
  | [] => (overflow, prod)
  | x :: c' =>
      let '(o, prod) := mul_overflows prod (to_u64 x) in
      safe_multiplies_loop prod (overflow || o) c'
  end.

Definition safe_multiplies_u64 (c : list Z) : bool * Z := safe_multiplies_loop 1 false c.

(** ** Storage sizes. *)
Definition storage_max : Z := Z.min int64_max u64_max.

Definition computeStorageNbytesContiguous
    (sizes : list Z) (itemsize_bytes storage_offset : Z) : result Z :=
  let '(overflowed, size) := safe_multiplies_u64 sizes in
  let '(o1, size) := add_overflows size storage_offset in
  let '(o2, size) := mul_overflows size itemsize_bytes in
  let overflowed := overflowed || o1 || o2 || (size >? storage_max) in
  _ ← TORCH_CHECK (negb overflowed) "Storage size calculation overflowed with sizes=";
  Ok size.

(** The loop of [computeStorageNbytes]; [None] is the early [return 0]. *)
Fixpoint storage_nbytes_loop (dims : list (Z * Z)) (size : Z) (overflowed : bool)
    : option (bool * Z) :=
  match dims with
  | [] => Some (overflowed, size)
  | (size_i, stride_i) :: dims' =>
      if size_i =? 0 then None
      else
        let '(o1, strided_size) := mul_overflows (to_u64 stride_i) (to_u64 (size_i - 1)) in
        let '(o2, size) := add_overflows size strided_size in
        storage_nbytes_loop dims' size (overflowed || o1 || o2)
  end.

Definition computeStorageNbytes
    (sizes strides : list Z) (itemsize_bytes storage_offset : Z) : result Z :=
  _ ← TORCH_CHECK (length sizes =? length strides)%nat "dimensionality of sizes (";
  match storage_nbytes_loop (zip sizes strides) (to_u64 (storage_offset + 1)) false with
  | None => Ok 0
  | Some (overflowed, size) =>
      let '(o, size) := mul_overflows size itemsize_bytes in
      let overflowed := overflowed || o || (size >? storage_max) in
      _ ← TORCH_CHECK (negb overflowed) "Storage size calculation overflowed with sizes=";
      Ok size
  end.

(** ** Lemmas. *)
Definition is_u64 (x : Z) : Prop := 0 <= x <= u64_max.
Definition nonneg_i64 (x : Z) : Prop := 0 <= x <= int64_max.

Lemma to_u64_small x : is_u64 x → to_u64 x = x.
Proof. unfold is_u64, u64_max, to_u64. intros. apply Z.mod_small. lia. Qed.

Lemma to_u64_range x : is_u64 (to_u64 x).
Proof. unfold is_u64, u64_max, to_u64. pose proof (Z.mod_pos_bound x (2 ^ 64)). lia. Qed.

Definition is_i64 (x : Z) : Prop := int64_min <= x <= int64_max.

Lemma to_i64_small x : is_i64 x → to_i64 x = x.
Proof.
  unfold is_i64, int64_min, int64_max, to_i64. intros. rewrite Z.mod_small by lia. lia.
Qed.

Lemma to_i64_range x : is_i64 (to_i64 x).
Proof.
  unfold is_i64, int64_min, int64_max, to_i64. pose proof (Z.mod_pos_bound (x + 2 ^ 63) (2 ^ 64)). lia.
Qed.

Lemma to_u64_i64 x : is_i64 x → to_u64 x = if x <? 0 then x + 2 ^ 64 else x.
Proof.
  unfold is_i64, int64_min, int64_max, to_u64. intros. case_bool; [|apply Z.mod_small; lia].
  rewrite <- (Z_mod_plus_full x 1 (2 ^ 64)), Z.mul_1_l. apply Z.mod_small. lia.
Qed.

(** Every prefix product is an [int64_t]. *)
Fixpoint i64_products (acc : Z) (l : list Z) : Prop :=
  match l with
  | [] => True
  | s :: r => is_i64 (acc * s) ∧ i64_products (acc * s) r
  end.

Lemma nonneg_i64_u64 x : nonneg_i64 x → is_u64 x.
Proof. unfold nonneg_i64, is_u64, u64_max, int64_max. lia. Qed.

(** An overflow flag on non-negative values says the exact result is too big. *)
Lemma overflow_flag x : 0 <= x → negb (to_u64 x =? x) = (x >? u64_max).
Proof.
  intros Hx. destruct (x >? u64_max) eqn:E; bool_simpl.
  - pose proof (to_u64_range x) as [_ Hr]. rewrite negb_true_iff, Z.eqb_neq. lia.
  - rewrite negb_false_iff, Z.eqb_eq. apply to_u64_small. by split.
Qed.

(** The flag of [safe_multiplies_u64] is set by the first prefix product that
    does not fit; until then the product is exact. *)
Fixpoint prefix_products_fit (acc : Z) (l : list Z) : Prop :=
  match l with
  | [] => True
  | x :: r => acc * x <= u64_max ∧ prefix_products_fit (acc * x) r
  end.

Lemma safe_multiplies_loop_sticky c : ∀ prod, (safe_multiplies_loop prod true c).1 = true.
Proof. induction c as [|x c IH]; intros prod; simpl; [done|]. apply IH. Qed.

Lemma safe_multiplies_loop_spec c : ∀ prod,
  Forall nonneg_i64 c → is_u64 prod →
  let '(o, p) := safe_multiplies_loop prod false c in
  (o = false ↔ prefix_products_fit prod c) ∧ (o = false → p = prod * multiply_integers c).
Proof.
  induction c as [|x c IH]; intros prod Hc Hp; simpl.
  { split; [done|]. intros _. lia. }
  apply Forall_cons in Hc as [Hx Hc].
  rewrite (to_u64_small x) by (by apply nonneg_i64_u64).
  assert (0 <= prod * x) by (unfold is_u64, nonneg_i64 in *; nia).
  rewrite overflow_flag by done. destruct (_ >? _) eqn:E; bool_simpl.
  - pose proof (safe_multiplies_loop_sticky c (to_u64 (prod * x))) as Hs.
    destruct (safe_multiplies_loop _ _ _) as [o p]. simpl in Hs. subst o.
    split; [|done]. split; [done|]. lia.
  - rewrite to_u64_small by (by split).
    specialize (IH (prod * x) Hc ltac:(by split)).
    destruct (safe_multiplies_loop _ _ _) as [o p]. destruct IH as [H1 H2].
    rewrite H1. split; [tauto|]. rewrite <- H1. intros Ho. rewrite H2 by done. lia.
Qed.

(** Without zeros the final product is the only one to check. *)
Lemma prefix_products_fit_pos l : ∀ acc,
  positive l → 0 < acc → prefix_products_fit acc l ↔ acc * multiply_integers l <= u64_max ∨ l = [].
Proof.
  induction l as [|x l IH]; intros acc Hl Ha; simpl; [split; [by right|done]|].
  apply positive_cons in Hl as [Hx Hl].
  assert (0 < multiply_integers l) by auto with shape.
  rewrite IH by (done || nia). rewrite Z.mul_assoc.
  split; [intros [? [?| ->]]|intros [?|?]]; simpl; [by left|left; lia| |done].
  split; [|by left]. nia.
Qed.

(** The offset of the last element of a shape without zeros. *)
Fixpoint max_offset (dims : list (Z * Z)) : Z :=
  match dims with
  | [] => 0
  | (s, st) :: dims' => st * (s - 1) + max_offset dims'
  end.

Definition dims_ok (dims : list (Z * Z)) : Prop :=
  Forall (fun d => nonneg_i64 d.1 ∧ nonneg_i64 d.2) dims.

Lemma max_offset_nonneg dims :
  dims_ok dims → positive (dims_sizes dims) → 0 <= max_offset dims.
Proof.
  induction 1 as [|[s st] dims [Hs Hst] _ IH]; simpl; [lia|].
  intros [Hp Hps]%positive_cons. unfold nonneg_i64 in *. simpl in *. specialize (IH Hps). nia.
Qed.

Lemma storage_nbytes_loop_sticky dims : ∀ size r,
  storage_nbytes_loop dims size true = Some r → r.1 = true.
Proof.
  induction dims as [|[s st] dims IH]; intros size r; simpl; [by intros [= <-]|].
  destruct (s =? 0); [done|]. apply IH.
Qed.

Lemma storage_nbytes_loop_none dims : ∀ size o,
  dims_ok dims →
  storage_nbytes_loop dims size o = None ↔ ¬ positive (dims_sizes dims).
Proof.
  induction dims as [|[s st] dims IH]; intros size o Hd; simpl.
  - split; [done|]. intros H. exfalso. apply H. constructor.
  - apply Forall_cons in Hd as [[Hs _] Hd]. unfold nonneg_i64 in Hs. simpl in Hs.
    fold (dims_sizes dims). rewrite positive_cons.
    case_bool; [split; [intros _ [? _]; lia|done]|]. rewrite IH by done.
    split; [tauto|]. intros H Hp. apply H. split; [lia|done].
Qed.

Lemma storage_nbytes_loop_some dims : ∀ size o s,
  dims_ok dims → is_u64 size → storage_nbytes_loop dims size false = Some (o, s) →
  (o = false ↔ size + max_offset dims <= u64_max) ∧ (o = false → s = size + max_offset dims).
Proof.
  induction dims as [|[sz st] dims IH]; intros size o s Hd Hsz Hloop; simpl in *.
  { simplify_eq. rewrite Z.add_0_r. unfold is_u64 in Hsz. split; [|done]. split; [lia|done]. }
  assert (positive (dims_sizes ((sz, st) :: dims))) as Hpos.
  { destruct (storage_nbytes_loop_none ((sz, st) :: dims) size false Hd) as [_ Hn]. simpl in Hn.
    apply dec_stable. intros H. specialize (Hn H). congruence. }
  apply Forall_cons in Hd as [[Hs Hst] Hd]. simpl in Hs, Hst.
  case_bool_in Hloop; [done|]. apply positive_cons in Hpos as [Hp1 Hp]; simpl in Hp1.
  pose proof (max_offset_nonneg dims Hd Hp) as Hm.
  assert (is_u64 (sz - 1) ∧ is_u64 st) as [Hsz1 Hst1]
    by (unfold nonneg_i64, is_u64, u64_max, int64_max in *; lia).
  rewrite (to_u64_small st), (to_u64_small (sz - 1)) in Hloop by done.
  assert (0 <= st * (sz - 1)) by (unfold is_u64 in *; nia).
  rewrite overflow_flag in Hloop by done.
  destruct (_ >? _) eqn:E1 in Hloop; bool_simpl.
  { apply storage_nbytes_loop_sticky in Hloop. simpl in Hloop. subst o.
    unfold is_u64 in *. split; [split; [done|lia]|done]. }
  rewrite (to_u64_small (st * (sz - 1))) in Hloop by (by split).
  rewrite overflow_flag in Hloop by (unfold is_u64 in *; lia).
  destruct (_ >? _) eqn:E2 in Hloop; bool_simpl.
  { apply storage_nbytes_loop_sticky in Hloop. simpl in Hloop. subst o.
    split; [split; [done|lia]|done]. }
  rewrite to_u64_small in Hloop by (unfold is_u64 in *; lia).
  apply IH in Hloop; [|done|unfold is_u64 in *; lia]. rewrite Z.add_assoc. done.
Qed.

Lemma offset_le_max sizes strides idx :
  length strides = length sizes → dims_ok (zip sizes strides) → in_bounds sizes idx →
  0 <= offset idx strides <= max_offset (zip sizes strides).
Proof.
  intros Hl Hd Hib. revert strides Hl Hd.
  induction Hib as [|s i ss js Hi Hib IH]; intros [|st sts] Hl Hd; simpl in *; try done.
  apply Forall_cons in Hd as [[_ Hst] Hd]. simpl in Hst. unfold nonneg_i64 in Hst.
  specialize (IH sts ltac:(lia) Hd). nia.
Qed.

Lemma max_offset_attained sizes strides :
  length strides = length sizes → positive sizes →
  in_bounds sizes (map Z.pred sizes) ∧
  offset (map Z.pred sizes) strides = max_offset (zip sizes strides).
Proof.
  intros Hl Hp. revert strides Hl.
  induction Hp as [|s ss Hs Hp IH]; intros [|st sts] Hl; simpl in *; try done; [by split; [constructor|]|].
  destruct (IH sts ltac:(lia)) as [H1 ->]. split; [constructor; [lia|done]|lia].
Qed.

Lemma dims_ok_zip sizes strides :
  Forall nonneg_i64 sizes → Forall nonneg_i64 strides → dims_ok (zip sizes strides).
Proof.
  intros Hs. revert strides. induction Hs as [|s ss Hs0 Hs IH]; intros [|st sts] Hst; simpl; try constructor.
  - inversion Hst; subst. by split.
  - apply IH. by inversion Hst.
Qed.

(** C29.  [computeStorageNbytes] returns exactly the bytes from the start of the
    storage to the end of the last element: every element of the tensor fits,
    some element ends at the returned size, a shape with a zero needs nothing,
    and the function throws only when some element really ends beyond
    [storage_max]. *)
Theorem computeStorageNbytes_tight sizes strides itemsize storage_offset :
  length strides = length sizes →
  Forall nonneg_i64 sizes → Forall nonneg_i64 strides →
  1 <= itemsize <= u64_max → 0 <= storage_offset < u64_max →
  match computeStorageNbytes sizes strides itemsize storage_offset with
  | Ok nbytes =>
      (∀ idx, in_bounds sizes idx → (storage_offset + offset idx strides + 1) * itemsize <= nbytes) ∧
      (positive sizes →
         ∃ idx, in_bounds sizes idx ∧ (storage_offset + offset idx strides + 1) * itemsize = nbytes) ∧
      (¬ positive sizes → nbytes = 0)
  | Throw _ =>
      ∃ idx, in_bounds sizes idx ∧
        storage_max < (storage_offset + offset idx strides + 1) * itemsize
  end.
Proof.
  intros Hl Hsz Hst Hit Hoff. unfold computeStorageNbytes, TORCH_CHECK.
  rewrite Hl, Nat.eqb_refl. simpl.
  pose proof (dims_ok_zip _ _ Hsz Hst) as Hd.
  rewrite to_u64_small by (unfold is_u64; lia).
  destruct (storage_nbytes_loop _ _ _) as [[o s]|] eqn:Hloop.
  2: { apply storage_nbytes_loop_none in Hloop; [|done]. rewrite dims_sizes_zip in Hloop by done.
       split_and!; [|done|done]. intros idx Hib. by apply in_bounds_positive in Hib. }
  assert (positive sizes) as Hp.
  { apply dec_stable. intros Hn. rewrite <- (dims_sizes_zip sizes strides) in Hn by done.
    apply (storage_nbytes_loop_none _ (storage_offset + 1) false Hd) in Hn. congruence. }
  destruct (max_offset_attained _ strides Hl Hp) as [Hib Hmax].
  pose proof (max_offset_nonneg _ Hd ltac:(by rewrite dims_sizes_zip)) as Hm0.
  apply storage_nbytes_loop_some in Hloop as [Ho Hs]; [|done|unfold is_u64; lia].
  set (M := max_offset (zip sizes strides)) in *.
  assert (storage_max < u64_max) by done.
  destruct o; simpl.
  { exists (map Z.pred sizes). split; [done|]. rewrite Hmax.
    assert (u64_max < storage_offset + 1 + M) by (apply Z.nle_gt; intros H1%Ho; done). nia. }
  specialize (Hs eq_refl). subst s. rewrite overflow_flag by nia.
  destruct (_ >? _) eqn:E1; simpl; bool_simpl.
  { exists (map Z.pred sizes). split; [done|]. rewrite Hmax. nia. }
  rewrite to_u64_small by (unfold is_u64; nia).
  destruct (_ >? storage_max) eqn:E2; simpl; bool_simpl.
  { exists (map Z.pred sizes). split; [done|]. rewrite Hmax. nia. }
  split_and!; [|intros _; exists (map Z.pred sizes); split; [done|rewrite Hmax; nia]|done].
  intros idx Hidx. pose proof (offset_le_max _ _ _ Hl Hd Hidx). fold M in H0. nia.
Qed.

Ltac i64_lia :=
  repeat (apply List.Forall_cons; [unfold is_i64, int64_min, int64_max; lia|]); apply List.Forall_nil.

Ltac nonneg_lia :=
  repeat (apply List.Forall_cons; [unfold nonneg_i64, int64_max; lia|]); apply List.Forall_nil.

Lemma computeStorageNbytes_tight_witness :
  computeStorageNbytes [2; 3] [10; 1] 4 5 = Ok 72 ∧
  (∀ idx, in_bounds [2; 3] idx → (5 + offset idx [10; 1] + 1) * 4 <= 72).
Proof.
  split; [reflexivity|].
  pose proof (computeStorageNbytes_tight [2; 3] [10; 1] 4 5 eq_refl
    ltac:(nonneg_lia) ltac:(nonneg_lia) ltac:(unfold u64_max; lia) ltac:(unfold u64_max; lia)) as H.
  change (computeStorageNbytes [2; 3] [10; 1] 4 5) with (Ok 72 : result Z) in H. apply H.
Defined.
