(* ===== verification/TensorMeta.v ===== *)
(** * The shape metadata of a tensor.

    The fields of c10::TensorImpl that describe its shape, the methods that
    change them and the caches they keep.  The tensors modelled have the
    default size and stride policy and concrete sizes. *)

From S2P Require Import Prelude Layout ViewStride Contiguity Overlap SafeNum.

Inductive MemoryFormat : Type :=
  | Contiguous | Preserve | ChannelsLast | ChannelsLast3d | NumOptions.

(** The shape part of [TensorImpl].  [is_sparse_] stands for [is_sparse()],
    which the key set of the tensor fixes. *)
Record TensorImpl : Type := mkTensorImpl {
  sizes_ : list Z;
  strides_ : list Z;
  storage_offset_ : Z;
  numel_ : Z;
  is_sparse_ : bool;
  allow_tensor_metadata_change_ : bool;
  is_contiguous_ : bool;
  is_channels_last_ : bool;
  is_channels_last_contiguous_ : bool;
  is_channels_last_3d_ : bool;
  is_channels_last_3d_contiguous_ : bool;
  is_non_overlapping_and_dense_ : bool }.

(** The assignments to the fields. *)
Definition set_sizes_strides_fields (sz st : list Z) (t : TensorImpl) : TensorImpl :=
  mkTensorImpl sz st (storage_offset_ t) (numel_ t) (is_sparse_ t) (allow_tensor_metadata_change_ t)
    (is_contiguous_ t) (is_channels_last_ t) (is_channels_last_contiguous_ t)
    (is_channels_last_3d_ t) (is_channels_last_3d_contiguous_ t) (is_non_overlapping_and_dense_ t).
Definition set_offset_field (off : Z) (t : TensorImpl) : TensorImpl :=
  mkTensorImpl (sizes_ t) (strides_ t) off (numel_ t) (is_sparse_ t) (allow_tensor_metadata_change_ t)
    (is_contiguous_ t) (is_channels_last_ t) (is_channels_last_contiguous_ t)
    (is_channels_last_3d_ t) (is_channels_last_3d_contiguous_ t) (is_non_overlapping_and_dense_ t).
Definition set_numel_field (n : Z) (t : TensorImpl) : TensorImpl :=
  mkTensorImpl (sizes_ t) (strides_ t) (storage_offset_ t) n (is_sparse_ t)
    (allow_tensor_metadata_change_ t)
    (is_contiguous_ t) (is_channels_last_ t) (is_channels_last_contiguous_ t)
    (is_channels_last_3d_ t) (is_channels_last_3d_contiguous_ t) (is_non_overlapping_and_dense_ t).
Definition set_flags (c cl clc cl3 cl3c nod : bool) (t : TensorImpl) : TensorImpl :=
  mkTensorImpl (sizes_ t) (strides_ t) (storage_offset_ t) (numel_ t) (is_sparse_ t)
    (allow_tensor_metadata_change_ t) c cl clc cl3 cl3c nod.

Definition _set_is_contiguous (b : bool) (t : TensorImpl) : TensorImpl :=
  set_flags b (is_channels_last_ t) (is_channels_last_contiguous_ t)
    (is_channels_last_3d_ t) (is_channels_last_3d_contiguous_ t) (is_non_overlapping_and_dense_ t) t.
Definition _set_is_channels_last_contiguous (b : bool) (t : TensorImpl) : TensorImpl :=
  set_flags (is_contiguous_ t) (is_channels_last_ t) b
    (is_channels_last_3d_ t) (is_channels_last_3d_contiguous_ t) (is_non_overlapping_and_dense_ t) t.
Definition _set_is_channels_last_3d_contiguous (b : bool) (t : TensorImpl) : TensorImpl :=
  set_flags (is_contiguous_ t) (is_channels_last_ t) (is_channels_last_contiguous_ t)
    (is_channels_last_3d_ t) b (is_non_overlapping_and_dense_ t) t.
Definition _set_is_channels_last (b : bool) (t : TensorImpl) : TensorImpl :=
  set_flags (is_contiguous_ t) b (is_channels_last_contiguous_ t)
    (is_channels_last_3d_ t) (is_channels_last_3d_contiguous_ t) (is_non_overlapping_and_dense_ t) t.
Definition _set_is_channels_last_3d (b : bool) (t : TensorImpl) : TensorImpl :=
  set_flags (is_contiguous_ t) (is_channels_last_ t) (is_channels_last_contiguous_ t)
    b (is_channels_last_3d_contiguous_ t) (is_non_overlapping_and_dense_ t) t.
Definition _set_is_non_overlapping_and_dense (b : bool) (t : TensorImpl) : TensorImpl :=
  set_flags (is_contiguous_ t) (is_channels_last_ t) (is_channels_last_contiguous_ t)
    (is_channels_last_3d_ t) (is_channels_last_3d_contiguous_ t) b t.

(** [SizesAndStrides::resize]: both arrays are cut, or extended with zeros. *)
Definition sas_resize (n : nat) (l : list Z) : list Z := resize n 0 l.

(** [SizesAndStrides::set_sizes]. *)
Definition sas_set_sizes (newSizes : list Z) (t : TensorImpl) : TensorImpl :=
  set_sizes_strides_fields newSizes (sas_resize (length newSizes) (strides_ t)) t.

(** ** The uncached predicates. *)
Definition compute_contiguous (t : TensorImpl) : bool :=
  if is_sparse_ t then false else _compute_contiguous (sizes_ t) (strides_ t) (numel_ t).
Definition compute_channels_last_contiguous_2d (t : TensorImpl) : bool :=
  if is_sparse_ t then false else _compute_channels_last_contiguous_2d (sizes_ t) (strides_ t).
Definition compute_channels_last_contiguous_3d (t : TensorImpl) : bool :=
  if is_sparse_ t then false else _compute_channels_last_contiguous_3d (sizes_ t) (strides_ t).
Definition compute_strides_like_channels_last_2d (t : TensorImpl) : bool :=
  if is_sparse_ t then false else is_channels_last_strides_2d (sizes_ t) (strides_ t).
Definition compute_strides_like_channels_last_3d (t : TensorImpl) : bool :=
  if is_sparse_ t then false else is_channels_last_strides_3d (sizes_ t) (strides_ t).
Definition compute_non_overlapping_and_dense (t : TensorImpl) : bool :=
  if is_sparse_ t then false else _compute_non_overlapping_and_dense (sizes_ t) (strides_ t).

(** ** [refresh_contiguous]: the wrappers that reuse the flags already set. *)
Definition compute_is_non_overlapping_and_dense_dim4 (t : TensorImpl) : bool :=
  is_contiguous_ t || is_channels_last_contiguous_ t || compute_non_overlapping_and_dense t.
Definition compute_channels_last_contiguous_3d_dim5 (t : TensorImpl) : bool :=
  negb (is_channels_last_contiguous_ t) && compute_channels_last_contiguous_3d t.
Definition compute_channels_last_2d_dim5 (t : TensorImpl) : bool :=
  negb (is_channels_last_3d_contiguous_ t) && compute_strides_like_channels_last_2d t.
Definition compute_channels_last_3d_dim5 (t : TensorImpl) : bool :=
  negb (is_channels_last_ t) && compute_strides_like_channels_last_3d t.
Definition compute_is_non_overlapping_and_dense_dim5 (t : TensorImpl) : bool :=
  is_contiguous_ t || is_channels_last_contiguous_ t || is_channels_last_3d_contiguous_ t
  || compute_non_overlapping_and_dense t.
Definition compute_is_non_overlapping_and_dense_anydim (t : TensorImpl) : bool :=
  is_contiguous_ t || compute_non_overlapping_and_dense t.

Definition _refresh_contiguous (t : TensorImpl) : TensorImpl :=
  match length (sizes_ t) with
  | 4%nat =>
      let t := _set_is_contiguous (compute_contiguous t) t in
      let t := _set_is_channels_last_contiguous (compute_channels_last_contiguous_2d t) t in
      let t := _set_is_channels_last_3d_contiguous false t in
      let t := _set_is_channels_last (compute_strides_like_channels_last_2d t) t in
      let t := _set_is_channels_last_3d false t in
      _set_is_non_overlapping_and_dense (compute_is_non_overlapping_and_dense_dim4 t) t
  | 5%nat =>
      let t := _set_is_contiguous (compute_contiguous t) t in
      let t := _set_is_channels_last_contiguous (compute_channels_last_contiguous_2d t) t in
      let t := _set_is_channels_last_3d_contiguous (compute_channels_last_contiguous_3d_dim5 t) t in
      let t := _set_is_channels_last (compute_channels_last_2d_dim5 t) t in
      let t := _set_is_channels_last_3d (compute_channels_last_3d_dim5 t) t in
      _set_is_non_overlapping_and_dense (compute_is_non_overlapping_and_dense_dim5 t) t
  | _ =>
      let t := _set_is_contiguous (compute_contiguous t) t in
      let t := _set_is_channels_last_contiguous false t in
      let t := _set_is_channels_last_3d_contiguous false t in
      let t := _set_is_channels_last false t in
      let t := _set_is_channels_last_3d false t in
      _set_is_non_overlapping_and_dense (compute_is_non_overlapping_and_dense_anydim t) t
  end.

Definition refresh_contiguous : method TensorImpl unit := modify _refresh_contiguous.

(** ** [numel]. *)
Definition numel_max : Z := Z.min int64_max u64_max.

Definition safe_compute_numel (sizes : list Z) : result Z :=
  let '(overflows, n) := safe_multiplies_u64 sizes in
  let overflows := overflows || (n >? numel_max) in
  _ ← TORCH_CHECK (negb overflows) "numel: integer multiplication overflow";
  Ok (to_i64 n).

(** [compute_numel], in the builds that have the overflow builtins. *)
Definition compute_numel (sizes : list Z) : result Z := safe_compute_numel sizes.

Definition refresh_numel : method TensorImpl unit :=
  sz ← reads sizes_;
  n ← lift (compute_numel sz);
  modify (set_numel_field n).

(** ** The operations. *)
Definition set_size (dim : nat) (new_size : Z) : method TensorImpl unit :=
  allow ← reads allow_tensor_metadata_change_;
  _ ← lift (TORCH_CHECK allow "set_size ");
  n ← reads (λ t, length (sizes_ t));
  _ ← lift (TORCH_INTERNAL_ASSERT (dim <? n)%nat "idx < size()");
  _ ← modify (λ t, set_sizes_strides_fields (<[dim := new_size]> (sizes_ t)) (strides_ t) t);
  _ ← refresh_numel;
  refresh_contiguous.

(** [stride_at_unchecked] does not check its index; an index that is not a
    dimension of the tensor leaves the strides of the dimensions alone. *)
Definition set_stride (dim : nat) (new_stride : Z) : method TensorImpl unit :=
  allow ← reads allow_tensor_metadata_change_;
  _ ← lift (TORCH_CHECK allow "set_stride ");
  _ ← modify (λ t, set_sizes_strides_fields (sizes_ t) (<[dim := new_stride]> (strides_ t)) t);
  refresh_contiguous.

Definition set_storage_offset (storage_offset : Z) : method TensorImpl unit :=
  allow ← reads allow_tensor_metadata_change_;
  _ ← lift (TORCH_CHECK allow "set_storage_offset ");
  modify (set_offset_field storage_offset).

(** The loop of [set_sizes_and_strides], from the last dimension down; [next]
    is the size and the stride of dimension [dim + 1]. *)
Fixpoint fill_strides_loop (next : option (Z * Z)) (rev_dims : list (Z * Z))
    (overflowed : bool) (acc : list Z) : bool * list Z :=
  match rev_dims with
  | [] => (overflowed, acc)
  | (size, new_stride) :: rest =>
      let '(o, stride) :=
        if new_stride >=? 0 then (false, new_stride)
        else match next with
             | None => (false, 1)
             | Some (size1, stride1) => mul_overflows_i64 stride1 (Z.max size1 1)
             end in
      fill_strides_loop (Some (size, stride)) rest (overflowed || o) (stride :: acc)
  end.

Definition set_sizes_and_strides (new_size new_stride : list Z) (storage_offset : option Z)
    : method TensorImpl unit :=
  allow ← reads allow_tensor_metadata_change_;
  _ ← lift (TORCH_CHECK allow "set_sizes_and_strides ");
  _ ← lift (TORCH_CHECK (length new_size =? length new_stride)%nat "dimensionality of sizes (");
  _ ← modify (sas_set_sizes new_size);
  let '(overflowed, strides) := fill_strides_loop None (rev (zip new_size new_stride)) false [] in
  _ ← modify (set_sizes_strides_fields new_size strides);
  _ ← lift (TORCH_CHECK (negb overflowed) "Stride calculation overflowed");
  _ ← refresh_numel;
  _ ← refresh_contiguous;
  match storage_offset with
  | Some off => modify (set_offset_field off)
  | None => mret tt
  end.

(** The loop of [empty_tensor_restride], below the last dimension. *)
Fixpoint restride_loop (size1 stride1 : Z) (rev_sizes : list Z)
    (overflowed : bool) (acc : list Z) : bool * list Z :=
  match rev_sizes with
  | [] => (overflowed, acc)
  | size :: rest =>
      let '(o, stride) := mul_overflows_i64 stride1 (Z.max size1 1) in
      restride_loop size stride rest (overflowed || o) (stride :: acc)
  end.

Definition restride (sizes : list Z) : bool * list Z :=
  match rev sizes with
  | [] => (false, [])
  | size :: rest => restride_loop size 1 rest false [1]
  end.

Definition empty_tensor_restride (memory_format : MemoryFormat) : method TensorImpl unit :=
  sizes ← reads sizes_;
  _ ← match memory_format with
      | Contiguous =>
          let '(overflowed, strides) := restride sizes in
          _ ← modify (set_sizes_strides_fields sizes strides);
          lift (TORCH_CHECK (negb overflowed) "Stride calculation overflowed")
      | ChannelsLast =>
          _ ← lift (TORCH_CHECK (length sizes =? 4)%nat
                      "required rank 4 tensor to use channels_last format");
          strides ← lift (get_channels_last_strides_2d sizes);
          set_sizes_and_strides sizes strides None
      | ChannelsLast3d =>
          _ ← lift (TORCH_CHECK (length sizes =? 5)%nat
                      "required rank 5 tensor to use channels_last_3d format");
          strides ← lift (get_channels_last_strides_3d sizes);
          set_sizes_and_strides sizes strides None
      | Preserve => lift (TORCH_CHECK false "unsupported memory format ")
      | NumOptions => lift (TORCH_INTERNAL_ASSERT false "invalid memory format ")
      end;
  refresh_contiguous.

Definition set_sizes_contiguous (new_size : list Z) : method TensorImpl unit :=
  allow ← reads allow_tensor_metadata_change_;
  _ ← lift (TORCH_CHECK allow "set_sizes_contiguous ");
  _ ← modify (sas_set_sizes new_size);
  _ ← refresh_numel;
  empty_tensor_restride Contiguous.

(** [SetDimsTemplate]: the product is taken in [int64_t], without a check; it
    returns whether the number of elements changed. *)
Definition SetDims (src : list Z) : method TensorImpl bool :=
  old_numel ← reads numel_;
  _ ← modify (sas_set_sizes src);
  let new_numel := foldl (λ n s, to_i64 (n * s)) 1 src in
  _ ← modify (set_numel_field new_numel);
  _ ← empty_tensor_restride Contiguous;
  numel ← reads numel_;
  mret (negb (numel =? old_numel)).

(** ** Queries. *)
Definition is_contiguous_default_impl (memory_format : MemoryFormat) (t : TensorImpl) : bool :=
  match memory_format with
  | ChannelsLast => is_channels_last_contiguous_ t
  | ChannelsLast3d => is_channels_last_3d_contiguous_ t
  | _ => is_contiguous_ t
  end.

Definition is_strides_like_default (memory_format : MemoryFormat) (t : TensorImpl) : bool :=
  match memory_format with
  | ChannelsLast => is_channels_last_ t
  | ChannelsLast3d => is_channels_last_3d_ t
  | _ => false
  end.

(** ** The invariant: the caches are those of the sizes and strides. *)
Definition flags_fresh (t : TensorImpl) : Prop :=
  is_contiguous_ t = compute_contiguous t ∧
  is_channels_last_contiguous_ t = compute_channels_last_contiguous_2d t ∧
  is_channels_last_3d_contiguous_ t = compute_channels_last_contiguous_3d t ∧
  is_channels_last_ t = compute_strides_like_channels_last_2d t ∧
  is_channels_last_3d_ t = compute_strides_like_channels_last_3d t ∧
  is_non_overlapping_and_dense_ t
  = (is_contiguous_ t || is_channels_last_contiguous_ t || is_channels_last_3d_contiguous_ t
     || compute_non_overlapping_and_dense t).

Record consistent (t : TensorImpl) : Prop := mkConsistent {
  consistent_sizes : Forall is_i64 (sizes_ t);
  consistent_length : length (strides_ t) = length (sizes_ t);
  consistent_numel : numel_ t = multiply_integers (sizes_ t);
  consistent_flags : flags_fresh t }.

(** Channels-last predicates of another rank. *)
Lemma channels_last_other_rank sz st :
  (length sz ≠ 4%nat → _compute_channels_last_contiguous_2d sz st = false ∧
                       is_channels_last_strides_2d sz st = false) ∧
  (length sz ≠ 5%nat → _compute_channels_last_contiguous_3d sz st = false ∧
                       is_channels_last_strides_3d sz st = false).
Proof.
  unfold _compute_channels_last_contiguous_2d, _compute_channels_last_contiguous_3d,
    is_channels_last_strides_2d, is_channels_last_strides_3d.
  split; intros; repeat case_match; done.
Qed.

(** Evaluates the flags of a tensor given by its fields. *)
Ltac flags_compute :=
  cbv -[orb andb negb _compute_contiguous _compute_non_overlapping_and_dense
    _compute_channels_last_contiguous_2d _compute_channels_last_contiguous_3d
    is_channels_last_strides_2d is_channels_last_strides_3d].

Lemma refresh_contiguous_fresh t : flags_fresh (_refresh_contiguous t).
Proof.
  destruct t as [sz st off n sp allow f1 f2 f3 f4 f5 f6].
  destruct (channels_last_other_rank sz st) as [H4 H5].
  unfold _refresh_contiguous. cbn [sizes_].
  destruct (decide (length sz = 4%nat)) as [E|E4].
  { rewrite E. destruct H5 as [H3 H3']; [lia|].
    split_and!; flags_compute; destruct sp; rewrite ?H3, ?H3', ?orb_false_r; done. }
  destruct H4 as [H2 H2']; [done|].
  destruct (decide (length sz = 5%nat)) as [E|E5].
  { rewrite E. split_and!; flags_compute; destruct sp; rewrite ?H2, ?H2', ?andb_false_r; done. }
  destruct H5 as [H3 H3']; [done|].
  assert (∀ A (a b c : A), match length sz with 4%nat => a | 5%nat => b | _ => c end = c) as Hd
    by (intros; by repeat case_match).
  rewrite Hd.
  split_and!; flags_compute; destruct sp;
    rewrite ?H2, ?H2', ?H3, ?H3', ?orb_false_r; done.
Qed.

Lemma refresh_contiguous_shape t :
  sizes_ (_refresh_contiguous t) = sizes_ t ∧ strides_ (_refresh_contiguous t) = strides_ t ∧
  numel_ (_refresh_contiguous t) = numel_ t ∧
  storage_offset_ (_refresh_contiguous t) = storage_offset_ t ∧
  is_sparse_ (_refresh_contiguous t) = is_sparse_ t ∧
  allow_tensor_metadata_change_ (_refresh_contiguous t) = allow_tensor_metadata_change_ t.
Proof. unfold _refresh_contiguous. by repeat case_match. Qed.

Lemma refresh_contiguous_consistent t :
  Forall is_i64 (sizes_ t) → length (strides_ t) = length (sizes_ t) →
  numel_ t = multiply_integers (sizes_ t) → consistent (_refresh_contiguous t).
Proof.
  intros Hi Hl Hn. destruct (refresh_contiguous_shape t) as (Es & Et & En & _).
  constructor; rewrite ?Es, ?Et, ?En; try done. apply refresh_contiguous_fresh.
Qed.

(** ** [numel]. *)
Lemma safe_multiplies_loop_exact c : ∀ prod n,
  safe_multiplies_loop prod false c = (false, n) →
  n = prod * multiply_integers (map to_u64 c).
Proof.
  induction c as [|x c IH]; intros prod n; simpl; [intros [= <-]; lia|].
  destruct (negb _) eqn:E.
  - intros Hl. pose proof (safe_multiplies_loop_sticky c (to_u64 (prod * to_u64 x))) as Hs.
    by rewrite Hl in Hs.
  - bool_simpl. rewrite E. intros Hl%IH. lia.
Qed.

Lemma u64_product c :
  Forall is_i64 c → multiply_integers (map to_u64 c) <= int64_max →
  multiply_integers (map to_u64 c) = multiply_integers c ∧
  (multiply_integers c ≠ 0 → positive c).
Proof.
  induction 1 as [|x c Hx Hc IH]; simpl; [split; [done|constructor]|]. intros Hle.
  pose proof (to_u64_range x) as [Hx0 _].
  assert (0 <= multiply_integers (map to_u64 c)) as Hm0.
  { apply multiply_nonneg. clear. induction c; constructor; [apply to_u64_range|done]. }
  destruct (decide (to_u64 x = 0)) as [E|E].
  - assert (x = 0) as -> by (rewrite to_u64_i64 in E by done; case_bool_in E; unfold is_i64, int64_min in *; lia).
    rewrite E. split; [done|]. by intros [].
  - destruct IH as [IH1 IH2]; [nia|]. rewrite IH1 in *.
    destruct (decide (multiply_integers c = 0)) as [E0|E0].
    { rewrite E0, !Z.mul_0_r. split; [done|]. by intros []. }
    assert (to_u64 x = x) as Ex.
    { assert (to_u64 x <= int64_max) by nia.
      rewrite to_u64_i64 in * by done. case_bool; [|done].
      unfold is_i64, int64_min, int64_max in *; lia. }
    rewrite Ex in *. split; [done|]. intros _. apply positive_cons. split; [lia|auto].
Qed.

Lemma safe_compute_numel_Ok sizes n :
  Forall is_i64 sizes → safe_compute_numel sizes = Ok n → n = multiply_integers sizes.
Proof.
  intros Hs. unfold safe_compute_numel, safe_multiplies_u64, numel_max.
  destruct (safe_multiplies_loop 1 false sizes) as [o p] eqn:El. simpl.
  destruct o; [done|]. apply safe_multiplies_loop_exact in El. simpl.
  destruct (p >? _) eqn:E; [done|]. bool_simpl. intros [= <-].
  destruct (u64_product sizes Hs) as [Hp _]; [lia|]. rewrite Hp in El.
  assert (0 <= p).
  { rewrite El, <- Hp, Z.mul_1_l. apply multiply_nonneg.
    clear. induction sizes; constructor; [apply to_u64_range|done]. }
  subst p. rewrite Z.mul_1_l in *. apply to_i64_small. unfold is_i64, int64_min, int64_max, u64_max in *. lia.
Qed.

(** The checks pass on non-negative sizes whose product is representable even
    with the zeros left out. *)
Lemma max1_le sizes : Forall (fun s => 0 <= s) sizes →
  0 < multiply_integers (map (Z.max 1) sizes) ∧
  0 <= multiply_integers sizes <= multiply_integers (map (Z.max 1) sizes).
Proof.
  induction 1 as [|s l Hs _ IH]; simpl in *; [lia|]. destruct IH as (Hp & H0 & H1).
  destruct (decide (s = 0)) as [->|]; [change (Z.max 1 0) with 1; lia|].
  rewrite Z.max_r by lia. nia.
Qed.

Lemma prefix_products_fit_max1 sizes : ∀ acc acc',
  Forall (fun s => 0 <= s) sizes → 0 <= acc <= acc' → 0 < acc' →
  acc' * multiply_integers (map (Z.max 1) sizes) <= u64_max → prefix_products_fit acc sizes.
Proof.
  induction sizes as [|s l IH]; intros acc acc' Hn Ha Ha' Hm; simpl in *; [done|].
  apply Forall_cons in Hn as [Hs Hn]. pose proof (max1_le l Hn) as [Hp _].
  rewrite Z.mul_assoc in Hm. assert (s <= Z.max 1 s ∧ 1 <= Z.max 1 s) as [Hle H1] by lia.
  assert (0 <= acc * s <= acc' * Z.max 1 s) by nia. assert (0 < acc' * Z.max 1 s) by nia.
  split; [nia|]. by apply (IH _ (acc' * Z.max 1 s)).
Qed.

Lemma safe_compute_numel_fits sizes :
  Forall nonneg_i64 sizes → multiply_integers (map (Z.max 1) sizes) <= int64_max →
  safe_compute_numel sizes = Ok (multiply_integers sizes).
Proof.
  intros Hs Hm. assert (Forall (fun s => 0 <= s) sizes) as Hn
    by (eapply Forall_impl; [done|]; unfold nonneg_i64; simpl; lia).
  pose proof (max1_le sizes Hn) as (Hp & H0 & H1).
  unfold safe_compute_numel, safe_multiplies_u64.
  pose proof (safe_multiplies_loop_spec sizes 1 Hs ltac:(done)) as Hl.
  destruct (safe_multiplies_loop 1 false sizes) as [o p]. destruct Hl as [Ho Hpr].
  assert (o = false) as ->.
  { apply Ho, (prefix_products_fit_max1 sizes 1 1); [done|lia|lia|]. unfold u64_max, int64_max in *. lia. }
  rewrite Hpr, Z.mul_1_l by done. change numel_max with int64_max. simpl.
  destruct (_ >? _) eqn:E; bool_simpl; [lia|]. simpl. unfold mbind; simpl. rewrite to_i64_small; [done|].
  unfold is_i64, int64_min, int64_max in *; lia.
Qed.

(** ** Strides. *)

(** What [set_sizes_and_strides] stores: a negative stride is replaced by the
    one that continues the next dimension. *)
Fixpoint filled (sizes new_stride out : list Z) : Prop :=
  match sizes, new_stride, out with
  | s :: ss, n :: ns, o :: os =>
      o = (if n >=? 0 then n
           else match ss, os with s1 :: _, o1 :: _ => o1 * Z.max s1 1 | _, _ => 1 end)
      ∧ filled ss ns os
  | [], [], [] => True
  | _, _, _ => False
  end.

Lemma fill_strides_loop_length rev_dims : ∀ next o acc,
  length (fill_strides_loop next rev_dims o acc).2 = (length rev_dims + length acc)%nat.
Proof.
  induction rev_dims as [|[s n] rest IH]; intros next o acc; simpl; [done|].
  case_match. rewrite IH. simpl. lia.
Qed.

Lemma fill_strides_loop_sticky rev_dims : ∀ next acc,
  (fill_strides_loop next rev_dims true acc).1 = true.
Proof. induction rev_dims as [|[s n] rest IH]; intros; simpl; [done|]. case_match. apply IH. Qed.

Definition next_dim (suf : list (Z * Z)) (acc : list Z) : option (Z * Z) :=
  match suf, acc with (s, _) :: _, a :: _ => Some (s, a) | _, _ => None end.

Lemma fill_strides_loop_filled pre : ∀ suf acc out,
  filled (map fst suf) (map snd suf) acc →
  fill_strides_loop (next_dim suf acc) (rev pre) false acc = (false, out) →
  filled (map fst (pre ++ suf)) (map snd (pre ++ suf)) out.
Proof.
  induction pre as [|[s n] pre IH] using rev_ind; intros suf acc out Hf; simpl; [by intros [= <-]|].
  rewrite rev_app_distr. simpl.
  set (step := if n >=? 0 then _ else _). destruct step as [o st] eqn:Estep. unfold step in Estep.
  destruct o; [intros Hl; pose proof (fill_strides_loop_sticky (rev pre) (Some (s, st)) (st :: acc)) as Hs;
    by rewrite Hl in Hs|]. simpl. intros Hl.
  rewrite <- app_assoc. apply (IH ((s, n) :: suf) (st :: acc)); [|done]. simpl. split; [|done].
  destruct (n >=? 0); [congruence|].
  destruct suf as [|[s1 n1] suf], acc as [|a acc]; simpl in *; try done; try congruence.
  unfold mul_overflows_i64 in Estep. injection Estep as Eo <-. bool_simpl. done.
Qed.

Lemma filled_nonneg sizes : ∀ new_stride out,
  Forall (fun s => 0 <= s) new_stride → filled sizes new_stride out → out = new_stride.
Proof.
  induction sizes as [|s ss IH]; intros [|n ns] [|o os] Hn; simpl; try done.
  apply Forall_cons in Hn as [Hn Hns]. intros [-> Hf]. f_equal; [|auto].
  case_bool; [done|]. rewrite Z.geb_leb in Heqb. bool_simpl. lia.
Qed.

(** ** Running the operations. *)
Lemma refresh_numel_eq t :
  refresh_numel t = match compute_numel (sizes_ t) with
                    | Ok n => (set_numel_field n t, Ok tt)
                    | Throw e => (t, Throw e)
                    end.
Proof. unfold refresh_numel, mbind, method_bind, reads, lift. by destruct (compute_numel _). Qed.

Lemma refresh_numel_consistent t t1 u :
  Forall is_i64 (sizes_ t) → length (strides_ t) = length (sizes_ t) →
  refresh_numel t = (t1, Ok u) →
  consistent (_refresh_contiguous t1) ∧
  sizes_ t1 = sizes_ t ∧ strides_ t1 = strides_ t ∧ storage_offset_ t1 = storage_offset_ t ∧
  is_sparse_ t1 = is_sparse_ t.
Proof.
  intros Hi Hl. rewrite refresh_numel_eq. destruct (compute_numel (sizes_ t)) as [n|] eqn:E; [|done].
  apply safe_compute_numel_Ok in E; [|done]. intros [= <- _].
  split_and!; try done. by apply refresh_contiguous_consistent.
Qed.

Lemma set_offset_consistent off t : consistent t → consistent (set_offset_field off t).
Proof. intros [Hi Hl Hn Hf]. by constructor. Qed.

(** The fields a failed call leaves alone. *)
Definition same_caches (t t' : TensorImpl) : Prop :=
  numel_ t' = numel_ t ∧ storage_offset_ t' = storage_offset_ t ∧
  is_contiguous_ t' = is_contiguous_ t ∧ is_channels_last_ t' = is_channels_last_ t ∧
  is_channels_last_contiguous_ t' = is_channels_last_contiguous_ t ∧
  is_channels_last_3d_ t' = is_channels_last_3d_ t ∧
  is_channels_last_3d_contiguous_ t' = is_channels_last_3d_contiguous_ t ∧
  is_non_overlapping_and_dense_ t' = is_non_overlapping_and_dense_ t.

Lemma set_sizes_and_strides_run t new_size new_stride off :
  Forall is_i64 new_size →
  match set_sizes_and_strides new_size new_stride off t with
  | (t', Ok _) =>
      length new_size = length new_stride ∧
      sizes_ t' = new_size ∧ filled new_size new_stride (strides_ t') ∧
      storage_offset_ t' = default (storage_offset_ t) off ∧
      is_sparse_ t' = is_sparse_ t ∧ consistent t'
  | (t', Throw _) => same_caches t t' ∧ (t' = t ∨ sizes_ t' = new_size)
  end.
Proof.
  intros Hi. unfold set_sizes_and_strides, mbind, method_bind, reads, lift, modify.
  destruct (allow_tensor_metadata_change_ t); simpl; [|by split_and!; [..|left]].
  destruct (Nat.eqb_spec (length new_size) (length new_stride)) as [Hl|]; simpl; [|by split_and!; [..|left]].
  pose proof (fill_strides_loop_length (rev (zip new_size new_stride)) None false []) as Hlen.
  destruct (fill_strides_loop _ _ _ _) as [overflowed strides] eqn:Efill. simpl in Hlen.
  rewrite length_rev, length_zip_with, Hl, Nat.min_id, Nat.add_0_r in Hlen.
  destruct overflowed; simpl; [by split_and!; [..|right]|].
  set (t1 := set_sizes_strides_fields new_size strides _).
  destruct (refresh_numel t1) as [t2 [u|e]] eqn:Er.
  2: { rewrite refresh_numel_eq in Er. destruct (compute_numel _); [done|].
       injection Er as <- _. by split_and!; [..|right]. }
  apply refresh_numel_consistent in Er as (Hc & Es & Et & Eo & Esp); [|done|simpl; congruence].
  destruct (refresh_contiguous_shape t2) as (Fs & Ft & _ & Fo & Fsp & _).
  apply (fill_strides_loop_filled (zip new_size new_stride) [] []) in Efill; [|done].
  rewrite app_nil_r in Efill.
  change (map ?f ?l) with (f <$> l) in Efill. rewrite fst_zip, snd_zip in Efill by lia.
  destruct off as [off|]; cbn;
    rewrite ?Fs, ?Ft, ?Fo, ?Fsp, ?Es, ?Et, ?Eo, ?Esp; split_and!; try done.
  by apply set_offset_consistent.
Qed.

(** [empty_tensor_restride] with the contiguous format. *)
Lemma restride_loop_length rev_sizes : ∀ s st o acc,
  length (restride_loop s st rev_sizes o acc).2 = (length rev_sizes + length acc)%nat.
Proof. induction rev_sizes as [|s1 rest IH]; intros; simpl; [done|]. rewrite IH. simpl. lia. Qed.

Lemma restride_loop_sticky rev_sizes : ∀ s st acc,
  (restride_loop s st rev_sizes true acc).1 = true.
Proof. induction rev_sizes as [|s1 rest IH]; intros; simpl; [done|]. apply IH. Qed.

Lemma restride_length sizes : length (restride sizes).2 = length sizes.
Proof.
  unfold restride. rewrite <- (length_rev sizes). destruct (rev sizes) as [|s rest]; [done|].
  rewrite restride_loop_length. simpl. lia.
Qed.

Lemma restride_loop_eq rev_sizes : ∀ s st acc out,
  restride_loop s st rev_sizes false (st :: acc) = (false, out) →
  out = contiguous_strides_loop s rev_sizes (st :: acc).
Proof.
  induction rev_sizes as [|s1 rest IH]; intros s st acc out; simpl; [by intros [= <-]|].
  destruct (negb _) eqn:E; intros Hl.
  - pose proof (restride_loop_sticky rest s1 (to_i64 (st * Z.max s 1)) (to_i64 (st * Z.max s 1) :: st :: acc)) as Hs.
    by rewrite Hl in Hs.
  - bool_simpl. rewrite E in Hl. by apply IH.
Qed.

Lemma restride_eq sizes out : restride sizes = (false, out) → out = contiguous_strides sizes.
Proof.
  unfold restride, contiguous_strides. destruct (rev sizes) as [|s rest]; [by intros [= <-]|].
  apply restride_loop_eq.
Qed.

Lemma restride_loop_fits rev_sizes : ∀ s st acc,
  0 <= s → Forall (fun s => 0 <= s) rev_sizes → 1 <= st →
  st * (Z.max s 1 * multiply_integers (map (Z.max 1) rev_sizes)) <= int64_max →
  (restride_loop s st rev_sizes false acc).1 = false.
Proof.
  induction rev_sizes as [|s1 rest IH]; intros s st acc Hs Hn Hst Hm; simpl in *; [done|].
  apply Forall_cons in Hn as [Hs1 Hn]. pose proof (max1_le rest Hn) as [Hp _].
  assert (1 <= Z.max s 1 ∧ 1 <= Z.max 1 s1) as [H1 H2] by lia.
  assert (1 <= st * Z.max s 1) by nia.
  assert (st * Z.max s 1 * (Z.max 1 s1 * multiply_integers (map (Z.max 1) rest)) <= int64_max) as Hm'
    by lia.
  assert (1 <= Z.max 1 s1 * multiply_integers (map (Z.max 1) rest)) by nia.
  assert (st * Z.max s 1 <= int64_max) by nia.
  rewrite to_i64_small by (unfold is_i64, int64_min in *; lia). rewrite Z.eqb_refl. simpl.
  apply IH; [done..|]. by rewrite (Z.max_comm s1 1).
Qed.

Lemma restride_fits sizes :
  Forall (fun s => 0 <= s) sizes → multiply_integers (map (Z.max 1) sizes) <= int64_max →
  (restride sizes).1 = false.
Proof.
  intros Hn Hm. apply Forall_rev in Hn. unfold restride.
  assert (multiply_integers (map (Z.max 1) (rev sizes)) <= int64_max) as Hm'
    by (by rewrite map_rev, multiply_rev).
  destruct (rev sizes) as [|s rest]; [done|]. apply Forall_cons in Hn as [Hs Hn].
  apply restride_loop_fits; [done..|]. simpl in Hm'. rewrite (Z.max_comm s 1). lia.
Qed.

Lemma restride_Ok t t' u :
  Forall is_i64 (sizes_ t) → numel_ t = multiply_integers (sizes_ t) →
  empty_tensor_restride Contiguous t = (t', Ok u) →
  consistent t' ∧ sizes_ t' = sizes_ t ∧ strides_ t' = contiguous_strides (sizes_ t) ∧
  storage_offset_ t' = storage_offset_ t ∧ is_sparse_ t' = is_sparse_ t.
Proof.
  intros Hi Hn. unfold empty_tensor_restride, mbind, method_bind, reads, lift, modify.
  pose proof (restride_length (sizes_ t)) as Hl. destruct (restride (sizes_ t)) as [o st] eqn:Er.
  destruct o; [done|]. simpl. intros [= <- _]. apply restride_eq in Er. subst st.
  set (t1 := set_sizes_strides_fields _ _ t).
  destruct (refresh_contiguous_shape t1) as (Es & Et & _ & Eo & Esp & _).
  rewrite Es, Et, Eo, Esp. split_and!; try done. by apply refresh_contiguous_consistent.
Qed.

(** ** Sequences of operations. *)
Inductive metadata_op : Type :=
  | SetSize (dim : nat) (new_size : Z)
  | SetStride (dim : nat) (new_stride : Z)
  | SetStorageOffset (storage_offset : Z)
  | SetSizesContiguous (new_size : list Z)
  | SetSizesAndStrides (new_size new_stride : list Z) (storage_offset : option Z)
  | EmptyTensorRestride (memory_format : MemoryFormat)
  | SetDimsOp (src : list Z).

Definition run_op (o : metadata_op) : method TensorImpl unit :=
  match o with
  | SetSize d s => set_size d s
  | SetStride d s => set_stride d s
  | SetStorageOffset off => set_storage_offset off
  | SetSizesContiguous sz => set_sizes_contiguous sz
  | SetSizesAndStrides sz st off => set_sizes_and_strides sz st off
  | EmptyTensorRestride mf => empty_tensor_restride mf
  | SetDimsOp src => _ ← SetDims src; mret tt
  end.

(** The arguments are [int64_t]; [SetDims] must not overflow, which its code
    does not check. *)
Definition op_args_ok (o : metadata_op) : Prop :=
  match o with
  | SetSize _ s => is_i64 s
  | SetSizesContiguous sz | SetSizesAndStrides sz _ _ => Forall is_i64 sz
  | SetDimsOp src => Forall is_i64 src ∧ i64_products 1 src
  | _ => True
  end.

Lemma foldl_product src : ∀ acc,
  i64_products acc src →
  foldl (λ n s, to_i64 (n * s)) acc src = acc * multiply_integers src.
Proof.
  induction src as [|s src IH]; intros acc; simpl; [lia|]. intros [Hs Hp].
  rewrite to_i64_small, IH by done. lia.
Qed.

Lemma sas_resize_length n l : length (sas_resize n l) = n.
Proof. apply length_resize. Qed.

Lemma set_size_Ok dim s t t' u :
  is_i64 s → consistent t → set_size dim s t = (t', Ok u) → consistent t'.
Proof.
  intros Hs [Hi Hl Hn Hf]. unfold set_size, mbind, method_bind, reads, lift, modify.
  destruct (allow_tensor_metadata_change_ t); simpl; [|done].
  destruct (dim <? length (sizes_ t))%nat; simpl; [|done].
  set (t1 := set_sizes_strides_fields _ _ t). destruct (refresh_numel t1) as [t2 [v|e]] eqn:Er; [|done].
  apply refresh_numel_consistent in Er as (Hc & _); [by intros [= <- _]| |].
  - by apply Forall_insert.
  - simpl. by rewrite length_insert.
Qed.

Lemma set_stride_Ok dim s t t' u :
  consistent t → set_stride dim s t = (t', Ok u) → consistent t'.
Proof.
  intros [Hi Hl Hn Hf]. unfold set_stride, mbind, method_bind, reads, lift, modify.
  destruct (allow_tensor_metadata_change_ t); simpl; [|done]. intros [= <- _].
  apply refresh_contiguous_consistent; [done| |done]. simpl. by rewrite length_insert.
Qed.

Lemma set_sizes_contiguous_Ok sz t t' u :
  Forall is_i64 sz → set_sizes_contiguous sz t = (t', Ok u) →
  consistent t' ∧ sizes_ t' = sz ∧ strides_ t' = contiguous_strides sz ∧
  storage_offset_ t' = storage_offset_ t ∧ is_sparse_ t' = is_sparse_ t.
Proof.
  intros Hs. unfold set_sizes_contiguous. intros H. method_step H. method_step H.
  method_step H. method_step H. injection E as <- _. injection E1 as <- _.
  unfold lift in E0. injection E0 as <- _.
  pose proof E2 as Er. apply refresh_numel_consistent in Er as (Hc & Es & Et & Eo & Esp);
    [|done|apply sas_resize_length].
  rewrite refresh_numel_eq in E2. destruct (compute_numel _) as [n|] eqn:En; [|done].
  apply safe_compute_numel_Ok in En; [|done]. injection E2 as <- _.
  apply restride_Ok in H as (? & ? & ? & ? & ?); [done|done|done].
Qed.

Lemma empty_tensor_restride_Ok mf t t' u :
  consistent t → empty_tensor_restride mf t = (t', Ok u) → consistent t'.
Proof.
  intros Hc. destruct mf; [|done| | |done].
  { intros H. destruct Hc. by apply restride_Ok in H as [? _]. }
  all: intros H; unfold empty_tensor_restride in H; method_step H; injection E as <- <-;
    method_step H; method_step E; method_step E; unfold lift in *; simplify_eq.
  all: pose proof (set_sizes_and_strides_run t2 (sizes_ t2) a1 None ltac:(by destruct Hc)) as Hr.
  all: rewrite E in Hr; destruct Hr as (_ & _ & _ & _ & _ & Hc1).
  all: injection H as <- _; destruct Hc1; by apply refresh_contiguous_consistent.
Qed.

Lemma SetDims_Ok src t t' b :
  Forall is_i64 src → i64_products 1 src → SetDims src t = (t', Ok b) →
  consistent t' ∧ sizes_ t' = src ∧ strides_ t' = contiguous_strides src ∧
  b = negb (multiply_integers src =? numel_ t).
Proof.
  intros Hs Hp. unfold SetDims. intros H. do 5 method_step H.
  unfold reads, modify in *. simplify_eq. injection H as <- <-.
  apply restride_Ok in E2 as (Hc & Es & Est & _); [|done|simpl; rewrite foldl_product by done; lia].
  simpl in *. split_and!; [done|done|done|]. by rewrite (consistent_numel _ Hc), Es.
Qed.

Lemma run_op_consistent o t t' u :
  op_args_ok o → consistent t → run_op o t = (t', Ok u) → consistent t'.
Proof.
  intros Ha Hc. destruct o as [d s|d s|off|sz|sz st off|mf|src]; simpl in *.
  - by apply set_size_Ok.
  - by apply set_stride_Ok.
  - unfold set_storage_offset. intros H. do 2 method_step H. unfold reads, lift, modify in *.
    simplify_eq. by apply set_offset_consistent.
  - intros H. by destruct (set_sizes_contiguous_Ok _ _ _ _ Ha H).
  - intros H. pose proof (set_sizes_and_strides_run t sz st off Ha) as Hr. rewrite H in Hr. tauto.
  - by apply empty_tensor_restride_Ok.
  - intros H. method_step H. injection H as <- _. destruct Ha as [H1 H2].
    by destruct (SetDims_Ok _ _ _ _ H1 H2 E).
Qed.

(** The operations run one after the other; the run stops at an exception. *)
Fixpoint run_ops (ops : list metadata_op) : method TensorImpl unit :=
  match ops with
  | [] => mret tt
  | o :: ops' => _ ← run_op o; run_ops ops'
  end.

(** C25.  However a tensor's metadata is changed by a sequence of calls that
    return, the cached number of elements and all six cached layout flags,
    which [refresh_contiguous] computes with rank-specific shortcuts, are those
    of the sizes and strides it ends with. *)
Theorem metadata_caches_fresh ops t t' :
  Forall op_args_ok ops → consistent t → run_ops ops t = (t', Ok tt) → consistent t'.
Proof.
  intros Ha. revert t. induction Ha as [|o ops Ho _ IH]; simpl; intros t Hc H; [unfold mret, method_ret in H; by simplify_eq|].
  method_step H. apply run_op_consistent in E; [|done..]. by apply (IH t0).
Qed.

(** The tensor a [TensorImpl] constructor makes: one dimension of size 0. *)
Definition fresh_tensor (is_sparse : bool) : TensorImpl :=
  _refresh_contiguous (mkTensorImpl [0] [1] 0 0 is_sparse true false false false false false false).

Lemma fresh_tensor_consistent sp : consistent (fresh_tensor sp).
Proof. apply refresh_contiguous_consistent; [|done|done]. simpl; i64_lia. Qed.

Lemma run_op_fresh o sp :
  op_args_ok o → is_ok (run_op o (fresh_tensor sp)).2 = true →
  consistent (run_op o (fresh_tensor sp)).1.
Proof.
  intros Ha Hok. destruct (run_op o (fresh_tensor sp)) as [t [u|e]] eqn:E; [|done].
  apply run_op_consistent in E; [done|done|apply fresh_tensor_consistent].
Qed.

Lemma metadata_caches_fresh_witness :
  ∃ t, run_ops [SetSizesContiguous [2; 3; 4; 5]; EmptyTensorRestride ChannelsLast; SetSize 0 7]
         (fresh_tensor false) = (t, Ok tt) ∧
    numel_ t = 420 ∧ is_channels_last_contiguous_ t = true ∧ consistent t.
Proof.
  eexists. split_and!; [vm_compute; reflexivity|reflexivity|reflexivity|].
  eapply (metadata_caches_fresh
    [SetSizesContiguous [2; 3; 4; 5]; EmptyTensorRestride ChannelsLast; SetSize 0 7] (fresh_tensor false));
    [|apply fresh_tensor_consistent|vm_compute; reflexivity].
  apply List.Forall_cons; [simpl; i64_lia|]. apply List.Forall_cons; [exact I|].
  apply List.Forall_cons; [simpl; unfold is_i64, int64_min, int64_max; lia|apply List.Forall_nil].
Defined.

(** The flags of a consistent tensor, read as statements on its elements. *)
Lemma channels_last_linear sizes strides ds : ∀ c,
  positive (map fst c) → linear c 1 →
  Forall (fun d => 0 < sizes !!! d) ds →
  channels_last_loop sizes strides (multiply_integers (map fst c)) ds = true →
  positive (map fst (c ++ dims_of sizes strides ds)) ∧ linear (c ++ dims_of sizes strides ds) 1.
Proof.
  induction ds as [|d ds IH]; intros c Hc Hl Hp; simpl; [by rewrite app_nil_r|].
  apply Forall_cons in Hp as [Hd Hp]. simpl in Hd.
  assert (∀ H : sizes !!! d = 1 ∨ strides !!! d = multiply_integers (map fst c),
    positive (map fst (c ++ [(sizes !!! d, strides !!! d)])) ∧
    linear (c ++ [(sizes !!! d, strides !!! d)]) 1) as Hext.
  { intros H. destruct (chunk_extend 1 c (sizes !!! d) (strides !!! d) [] Hc Hd) as (? & ? & _); [|done|done].
    destruct H as [H|H]; [by left|right]. rewrite H. unfold dims_sizes. lia. }
  replace (c ++ (sizes !!! d, strides !!! d) :: dims_of sizes strides ds)
    with ((c ++ [(sizes !!! d, strides !!! d)]) ++ dims_of sizes strides ds) by (by rewrite <- app_assoc).
  assert (multiply_integers (map fst (c ++ [(sizes !!! d, strides !!! d)]))
          = multiply_integers (map fst c) * (sizes !!! d)) as Hm.
  { rewrite map_app, multiply_app. simpl. lia. }
  case_bool; [case_bool; [done|]|]; bool_simpl; intros Hloop; destruct Hext as [H1 H2]; auto.
  - apply IH; [done..|]. by rewrite Hm.
  - apply IH; [done..|]. rewrite Hm, Heqb, Z.mul_1_r. done.
Qed.

Lemma channels_last_dense sizes strides ds :
  length strides = length sizes → positive sizes → ds ≡ₚ seq 0 (length sizes) →
  channels_last_loop sizes strides 1 ds = true → non_overlapping_and_dense sizes strides.
Proof.
  intros Hl Hp Hds H.
  destruct (channels_last_linear sizes strides ds []) as [Hp1 Hlin]; simpl in *;
    [constructor|apply linear_nil| |done|].
  - rewrite Hds. apply Forall_forall. intros d Hd%elem_of_seq.
    destruct (lookup_lt_is_Some_2 sizes d) as [s Es]; [lia|].
    rewrite (list_lookup_total_correct _ _ _ Es). by eapply Forall_lookup_1 in Hp.
  - unfold non_overlapping_and_dense. rewrite <- dims_of_seq, <- Hds by done.
    rewrite (Permutation_rev (dims_of _ _ _)), dense_dims_laddr by done. by apply linear_1_dense.
Qed.

Lemma row_major_dense sizes strides :
  length strides = length sizes → positive sizes →
  (∀ k, 0 <= k < multiply_integers sizes → element_offset sizes strides k = k) →
  non_overlapping_and_dense sizes strides.
Proof.
  intros Hl Hp Hk. unfold non_overlapping_and_dense. rewrite <- (rev_involutive (zip sizes strides)).
  assert (map fst (rev (zip sizes strides)) = rev sizes) as Hds
    by (fold (dims_sizes (rev (zip sizes strides))); by rewrite dims_sizes_rev, dims_sizes_zip).
  assert (positive (map fst (rev (zip sizes strides)))) by (rewrite Hds; by apply positive_rev).
  apply dense_dims_laddr; [done|]. apply linear_1_dense; [done|].
  intros k Hb. unfold dims_sizes in Hb. rewrite Hds, multiply_rev in Hb.
  rewrite <- element_offset_laddr by done. rewrite Hk by done. lia.
Qed.

Definition nonneg_sizes (t : TensorImpl) : Prop := Forall (fun s => 0 <= s) (sizes_ t).

Lemma flag_contiguous t :
  consistent t → is_sparse_ t = false → nonneg_sizes t →
  is_contiguous_ t = true ↔
  ∀ k, 0 <= k < numel_ t → element_offset (sizes_ t) (strides_ t) k = k.
Proof.
  intros [_ Hl Hn (Fc & _)] Hsp Hs. rewrite Fc. unfold compute_contiguous.
  rewrite Hsp, Hn. by apply contiguous_nonneg.
Qed.

Lemma numel_nonneg t : consistent t → nonneg_sizes t → 0 <= numel_ t.
Proof. intros Hc Hs. rewrite (consistent_numel _ Hc). by apply multiply_nonneg. Qed.

Lemma flag_dense t :
  consistent t → is_sparse_ t = false → nonneg_sizes t →
  is_non_overlapping_and_dense_ t = true ↔
  numel_ t = 0 ∨ non_overlapping_and_dense (sizes_ t) (strides_ t).
Proof.
  intros Hco Hsp Hs. pose proof (flag_contiguous t Hco Hsp Hs) as Hcont.
  destruct Hco as [_ Hl Hn (Fc & Fcl & Fcl3 & _ & _ & Fnod)].
  rewrite Fnod, Fcl, Fcl3. unfold compute_channels_last_contiguous_2d,
    compute_channels_last_contiguous_3d, compute_non_overlapping_and_dense. rewrite Hsp.
  destruct (positive_or_empty (sizes_ t) Hs) as [Hp|E0].
  2: { rewrite Hn, E0. split; [by left|intros _]. rewrite !orb_true_iff. left; left; left.
       apply Hcont. rewrite Hn, E0. lia. }
  assert (0 < numel_ t) by (rewrite Hn; by apply multiply_pos).
  rewrite !orb_true_iff, nod_addresses by done. split; [|by intros [?|?]; [lia|tauto]].
  intros [[[Hc|H2]|H3]|?]; right; [| | |done].
  - apply row_major_dense; [done..|]. rewrite <- Hn. by apply Hcont.
  - unfold _compute_channels_last_contiguous_2d in H2.
    assert (length (sizes_ t) = 4%nat) as E by (by repeat case_match). rewrite E in H2.
    apply (channels_last_dense _ _ [1; 3; 2; 0]%nat); [done..| |done]. rewrite E.
    apply (bool_decide_unpack _). reflexivity.
  - unfold _compute_channels_last_contiguous_3d in H3.
    assert (length (sizes_ t) = 5%nat) as E by (by repeat case_match). rewrite E in H3.
    apply (channels_last_dense _ _ [1; 4; 3; 2; 0]%nat); [done..| |done]. rewrite E.
    apply (bool_decide_unpack _). reflexivity.
Qed.

(**  On a consistent tensor [is_contiguous] tells whether the elements lie
    in row-major order, and [is_non_overlapping_and_dense], with the shortcuts
    through the contiguity flags, whether they fill [0, numel) one each (a
    tensor without elements is reported dense). *)
Theorem cached_flags_describe_layout t :
  consistent t → is_sparse_ t = false → nonneg_sizes t →
  (is_contiguous_default_impl Contiguous t = true ↔
     ∀ k, 0 <= k < numel_ t → element_offset (sizes_ t) (strides_ t) k = k) ∧
  (is_non_overlapping_and_dense_ t = true ↔
     numel_ t = 0 ∨ non_overlapping_and_dense (sizes_ t) (strides_ t)) ∧
  (is_strides_like_default ChannelsLast t = true → length (sizes_ t) = 4%nat) ∧
  (is_strides_like_default ChannelsLast3d t = true → length (sizes_ t) = 5%nat).
Proof.
  intros Hc Hsp Hs. split_and!; [by apply flag_contiguous|by apply flag_dense|..].
  all: destruct (consistent_flags _ Hc) as (_ & _ & _ & F2 & F3 & _); simpl; rewrite ?F2, ?F3.
  all: destruct (channels_last_other_rank (sizes_ t) (strides_ t)) as [H4 H5].
  - unfold compute_strides_like_channels_last_2d. rewrite Hsp. intros H.
    apply dec_stable. intros Hr. by rewrite (proj2 (H4 Hr)) in H.
  - unfold compute_strides_like_channels_last_3d. rewrite Hsp. intros H.
    apply dec_stable. intros Hr. by rewrite (proj2 (H5 Hr)) in H.
Qed.

Lemma cached_flags_describe_layout_witness :
  ∃ t, run_ops [SetSizesAndStrides [2; 3; 4; 5] [60; 1; 15; 3] None] (fresh_tensor false) = (t, Ok tt) ∧
    is_strides_like_default ChannelsLast t = true ∧
    non_overlapping_and_dense [2; 3; 4; 5] [60; 1; 15; 3].
Proof.
  eexists. split_and!; [vm_compute; reflexivity|reflexivity|].
  destruct (cached_flags_describe_layout
    (fst (run_ops [SetSizesAndStrides [2; 3; 4; 5] [60; 1; 15; 3] None] (fresh_tensor false))))
    as (_ & Hn & _).
  - apply (run_op_consistent (SetSizesAndStrides [2; 3; 4; 5] [60; 1; 15; 3] None)
      (fresh_tensor false) _ tt); [simpl; i64_lia|apply fresh_tensor_consistent|].
    vm_compute. reflexivity.
  - reflexivity.
  - unfold nonneg_sizes. forall_lia.
  - destruct Hn as [Hn _]. specialize (Hn eq_refl) as [Hn|Hn]; [discriminate|exact Hn].
Defined.

(**  [set_sizes_and_strides], called in any state: when it returns, the
    sizes are the new ones, a stride that was not negative is stored as given
    and a negative one is replaced by the stride that continues the next
    dimension, and the caches are fresh; when it throws, the caches are those
    from before the call although the sizes may already be the new ones. *)
Theorem set_sizes_and_strides_spec t new_size new_stride storage_offset :
  Forall is_i64 new_size →
  match set_sizes_and_strides new_size new_stride storage_offset t with
  | (t', Ok _) =>
      sizes_ t' = new_size ∧ filled new_size new_stride (strides_ t') ∧
      (Forall (fun s => 0 <= s) new_stride → strides_ t' = new_stride) ∧
      storage_offset_ t' = default (storage_offset_ t) storage_offset ∧ consistent t'
  | (t', Throw _) => same_caches t t' ∧ (t' = t ∨ sizes_ t' = new_size)
  end.
Proof.
  intros Hi. pose proof (set_sizes_and_strides_run t new_size new_stride storage_offset Hi) as H.
  destruct (set_sizes_and_strides _ _ _ t) as [t' [u|e]]; [|done].
  destruct H as (_ & Hs & Hf & Ho & _ & Hc). split_and!; try done.
  intros Hn. by apply (filled_nonneg new_size).
Qed.

Lemma set_sizes_and_strides_spec_witness :
  ∃ t, set_sizes_and_strides [2; 3] [-1; -1] None (fresh_tensor false) = (t, Ok tt) ∧
    strides_ t = [3; 1] ∧ consistent t.
Proof.
  pose proof (set_sizes_and_strides_spec (fresh_tensor false) [2; 3] [-1; -1] None
    ltac:(i64_lia)) as H.
  destruct (set_sizes_and_strides _ _ _ _) as [t r] eqn:E. vm_compute in E. injection E as <- <-.
  eexists. split_and!; [reflexivity|reflexivity|apply H].
Defined.

(**  [set_sizes_contiguous] in any state that allows a metadata change:
    when the product of the sizes, zeros left out, is an [int64_t], the call
    returns; the strides are [contiguous_strides], the number of elements is
    the product, and a strided tensor is contiguous and dense. *)
Theorem set_sizes_contiguous_spec t new_size :
  allow_tensor_metadata_change_ t = true → Forall nonneg_i64 new_size →
  multiply_integers (map (Z.max 1) new_size) <= int64_max →
  ∃ t', set_sizes_contiguous new_size t = (t', Ok tt) ∧ sizes_ t' = new_size ∧
    strides_ t' = contiguous_strides new_size ∧ numel_ t' = multiply_integers new_size ∧
    storage_offset_ t' = storage_offset_ t ∧ consistent t' ∧
    is_contiguous_ t' = negb (is_sparse_ t) ∧ is_non_overlapping_and_dense_ t' = negb (is_sparse_ t).
Proof.
  intros Ha Hs Hm.
  assert (Forall is_i64 new_size) as Hi
    by (eapply Forall_impl; [done|]; unfold nonneg_i64, is_i64, int64_min, int64_max; simpl; lia).
  assert (Forall (fun s => 0 <= s) new_size) as Hnn
    by (eapply Forall_impl; [exact Hs|]; unfold nonneg_i64; simpl; lia).
  destruct (set_sizes_contiguous new_size t) as [t' r] eqn:E.
  assert (r = Ok tt) as ->.
  { revert E. unfold set_sizes_contiguous, mbind, method_bind, reads, lift, modify.
    rewrite Ha. simpl. rewrite refresh_numel_eq. simpl.
    unfold compute_numel. rewrite safe_compute_numel_fits by done.
    unfold empty_tensor_restride, mbind, method_bind, reads, lift, modify. simpl.
    pose proof (restride_fits new_size Hnn Hm) as Hr. destruct (restride new_size) as [o st].
    simpl in Hr. subst o. simpl. by intros [= _ <-]. }
  destruct (set_sizes_contiguous_Ok _ _ _ _ Hi E) as (Hc & Es & Est & Eo & Esp).
  exists t'. pose proof (consistent_numel _ Hc) as Hn. rewrite Es in Hn.
  destruct (consistent_flags _ Hc) as (Fc & _ & _ & _ & _ & Fnod).
  assert (is_contiguous_ t' = negb (is_sparse_ t)) as Hcont.
  { rewrite Fc. unfold compute_contiguous. rewrite Esp, Es, Est, Hn.
    destruct (is_sparse_ t); [done|]. by apply fresh_strides_accepted. }
  split_and!; try done. rewrite Fnod, Hcont.
  destruct (is_sparse_ t) eqn:E0; [|done]. simpl.
  destruct (consistent_flags _ Hc) as (_ & -> & -> & _).
  unfold compute_channels_last_contiguous_2d, compute_channels_last_contiguous_3d,
    compute_non_overlapping_and_dense. by rewrite Esp.
Qed.

Lemma set_sizes_contiguous_spec_witness :
  ∃ t, set_sizes_contiguous [2; 0; 3] (fresh_tensor false) = (t, Ok tt) ∧
    strides_ t = [3; 3; 1] ∧ numel_ t = 0.
Proof.
  destruct (set_sizes_contiguous_spec (fresh_tensor false) [2; 0; 3] eq_refl
    ltac:(nonneg_lia) ltac:(by compute)) as (t & H1 & _ & H2 & H3 & _).
  exists t. split_and!; [exact H1|rewrite H2; reflexivity|rewrite H3; reflexivity].
Defined.
