(* ===== verification/Broadcast.v ===== *)
(** * Shapes of operands: broadcasting, expansion, inferred and wrapped
    dimensions.

    [infer_size] and [inferExpandGeometry] of aten/src/ATen/ExpandUtils.cpp,
    the [-1] dimension of aten/src/ATen/InferSize.h and the negative dimensions
    of c10/core/WrapDimMinimal and aten/src/ATen/WrapDimUtils.h. *)

From S2P Require Import Prelude Layout SafeNum.

(** ** Broadcasting two shapes. *)

(** The loop of [infer_size_impl], [i] from [ndim - 1] to 0: the shapes are
    reversed and a missing dimension reads as 1. *)
Fixpoint infer_size_loop (n : nat) (ra rb acc : list Z) : result (list Z) :=
  match n with
  | O => Ok acc
  | S n' =>
      let sizeA := hd 1 ra in
      let sizeB := hd 1 rb in
      _ ← (if negb (sizeA =? 1) && negb (sizeB =? 1)
           then TORCH_CHECK (sizeA =? sizeB) "The size of tensor a ("
           else Ok tt);
      infer_size_loop n' (tl ra) (tl rb) ((if sizeA =? 1 then sizeB else sizeA) :: acc)
  end.

Definition infer_size (a b : list Z) : result (list Z) :=
  let dimsA := length a in
  let dimsB := length b in
  let ndim := if (dimsB <? dimsA)%nat then dimsA else dimsB in
  infer_size_loop ndim (rev a) (rev b) [].

(** ** Expanding a tensor. *)

(** The loop of [inferExpandGeometryImpl]; the accumulators are
    [expandedSizes] and [expandedStrides] from index [i + 1] on. *)
Fixpoint expand_loop (rts rtst rsizes : list Z) (expandedSizes expandedStrides : list Z)
    : result (list Z * list Z) :=
  match rsizes with
  | [] => Ok (expandedSizes, expandedStrides)
  | targetSize :: rsizes' =>
      let dim_ok := match rts with [] => false | _ => true end in
      let size := hd 1 rts in
      let stride :=
        if dim_ok then hd 0 rtst else hd 0 expandedSizes * hd 0 expandedStrides in
      targetSize ← (if targetSize =? -1
                    then _ ← TORCH_CHECK dim_ok "The expanded size of the tensor (";
                         Ok size
                    else Ok targetSize);
      p ← (if negb (size =? targetSize)
           then _ ← TORCH_CHECK (size =? 1) "The expanded size of the tensor (";
                Ok (targetSize, 0)
           else Ok (size, stride));
      expand_loop (tl rts) (tl rtst) rsizes' (p.1 :: expandedSizes) (p.2 :: expandedStrides)
  end.

Definition inferExpandGeometry (tensor_sizes tensor_strides sizes : list Z)
    : result (list Z * list Z) :=
  let ndim := length sizes in
  if (length tensor_sizes =? 0)%nat then Ok (sizes, replicate ndim 0)
  else expand_loop (rev tensor_sizes) (rev tensor_strides) (rev sizes) [] [].

(** ** The inferred dimension of a reshape. *)
Fixpoint infer_dim_loop (dim : nat) (shape : list Z) (newsize : Z) (infer_dim : option nat)
    : result (Z * option nat) :=
  match shape with
  | [] => Ok (newsize, infer_dim)
  | s :: shape' =>
      if s =? -1 then
        _ ← TORCH_CHECK (match infer_dim with None => true | Some _ => false end)
              "only one dimension can be inferred";
        infer_dim_loop (S dim) shape' newsize (Some dim)
      else
        _ ← TORCH_CHECK (s >? -1) "invalid shape dimension ";
        infer_dim_loop (S dim) shape' (to_i64 (newsize * s)) infer_dim
  end.

Definition infer_size_dv (shape : list Z) (numel : Z) : result (list Z) :=
  p ← infer_dim_loop 0 shape 1 None;
  let '(newsize, infer_dim) := p in
  match infer_dim with
  | Some d =>
      _ ← TORCH_CHECK (((newsize >? 0) && (Z.rem numel newsize =? 0)) || (numel =? newsize))
            "shape '";
      _ ← TORCH_CHECK (negb (newsize =? 0)) "cannot reshape tensor of 0 elements into shape ";
      Ok (<[d := Z.quot numel newsize]> shape)
  | None =>
      _ ← TORCH_CHECK (numel =? newsize) "shape '";
      Ok shape
  end.

(** ** Wrapping a negative dimension. *)

(** [_maybe_wrap_dim] and [maybe_wrap_dim_slow] call each other, at most twice:
    the slow path restarts the fast one only on a scalar, with one dimension
    and without wrapping. *)
Fixpoint _maybe_wrap_dim (fuel : nat) (dim dim_post_expr : Z) (wrap_scalar : bool) : result Z :=
  if (dim_post_expr * -1 <=? dim) && (dim <? dim_post_expr) then
    if dim <? 0 then Ok (dim + dim_post_expr) else Ok dim
  else
    _ ← TORCH_CHECK_INDEX (dim_post_expr >=? 0) "Rank cannot be negative but got ";
    if dim_post_expr =? 0 then
      _ ← TORCH_CHECK_INDEX wrap_scalar "Dimension specified as ";
      match fuel with
      | O => Throw (InternalAssert "fuel")
      | S fuel' => _maybe_wrap_dim fuel' dim 1 false
      end
    else
      let min := dim_post_expr * -1 in
      let max := dim_post_expr - 1 in
      _ ← TORCH_CHECK_INDEX ((min <=? dim) && (dim <=? max)) "Dimension out of range (expected to be in range of [";
      Throw (InternalAssert "should never reach here as dim should be out-of-bounds").

Definition maybe_wrap_dim (dim dim_post_expr : Z) (wrap_scalar : bool) : result Z :=
  _maybe_wrap_dim 1 dim dim_post_expr wrap_scalar.

(** The loop of [maybe_wrap_dims_n]. *)
Fixpoint wrap_dims_loop (dim_post_expr : Z) (dims : list Z) : result (list Z) :=
  match dims with
  | [] => Ok []
  | dim :: dims' =>
      if (dim <? - dim_post_expr) || (dim >? dim_post_expr - 1) then
        Throw (IndexError "Dimension out of range (expected to be in range of [")
      else
        r ← wrap_dims_loop dim_post_expr dims';
        Ok ((if dim <? 0 then dim + dim_post_expr else dim) :: r)
  end.

Definition maybe_wrap_dims_n (dims : list Z) (dim_post_expr : Z) (wrap_scalars : bool)
    : result (list Z) :=
  if dim_post_expr <=? 0 then
    if wrap_scalars then wrap_dims_loop 1 dims
    else
      _ ← TORCH_CHECK_INDEX (length dims =? 0)%nat "Dimension specified as ";
      Ok dims
  else wrap_dims_loop dim_post_expr dims.

(** [legacy_cat_wrap_dim]: empty one-dimensional tensors are skipped. *)
Fixpoint legacy_cat_wrap_dim (dim : Z) (tensor_sizes : list (list Z)) : result Z :=
  match tensor_sizes with
  | [] => Ok dim
  | sizes :: rest =>
      if (length sizes =? 1)%nat && (hd 0 sizes =? 0) then legacy_cat_wrap_dim dim rest
      else maybe_wrap_dim dim (Z.of_nat (length sizes)) true
  end.

Definition wrap_all_dims (dims_to_wrap : list Z) (tensor_total_dims : Z) : result (list Z) :=
  foldr (fun d acc => r ← maybe_wrap_dim d tensor_total_dims true; rs ← acc; Ok (r :: rs))
    (Ok []) dims_to_wrap.

(** ** Specification of broadcasting. *)

(** [a] can be expanded to [c]: aligned from the right, each size is 1 or
    the size of [c].  On reversed shapes: *)
Fixpoint expandable_rev (ra rc : list Z) : Prop :=
  match ra, rc with
  | [], _ => True
  | s :: ra', t :: rc' => (s = 1 ∨ s = t) ∧ expandable_rev ra' rc'
  | _ :: _, [] => False
  end.
Definition expandable (a c : list Z) : Prop := expandable_rev (rev a) (rev c).

(** The reversed result of [infer_size_loop], without the accumulator. *)
Fixpoint join_rev (ra rb : list Z) : option (list Z) :=
  match ra, rb with
  | [], _ => Some rb
  | _, [] => Some ra
  | s :: ra', t :: rb' =>
      if negb (s =? 1) && negb (t =? 1) && negb (s =? t) then None
      else r ← join_rev ra' rb'; Some ((if s =? 1 then t else s) :: r)
  end.

Lemma infer_size_loop_nil_l n : ∀ rb acc,
  n = length rb → infer_size_loop n [] rb acc = Ok (rev rb ++ acc).
Proof.
  induction n as [|n IH]; intros [|t rb] acc Hn; simpl in *; try done.
  rewrite IH by lia. by rewrite <- app_assoc.
Qed.

Lemma infer_size_loop_nil_r n : ∀ ra acc,
  n = length ra → infer_size_loop n ra [] acc = Ok (rev ra ++ acc).
Proof.
  induction n as [|n IH]; intros [|s ra] acc Hn; simpl in *; try done.
  rewrite andb_false_r. simpl. unfold mbind; simpl. rewrite IH by lia. rewrite <- app_assoc.
  case_bool; [by subst|done].
Qed.

Lemma infer_size_loop_join ra : ∀ n rb acc,
  n = Nat.max (length ra) (length rb) →
  infer_size_loop n ra rb acc
  = match join_rev ra rb with
    | Some r => Ok (rev r ++ acc)
    | None => Throw (Error "The size of tensor a (")
    end.
Proof.
  induction ra as [|s ra IH]; intros n rb acc Hn.
  { simpl in *. by apply infer_size_loop_nil_l. }
  destruct rb as [|t rb].
  { simpl join_rev. apply infer_size_loop_nil_r. simpl in *. lia. }
  destruct n as [|n]; [done|]. simpl in Hn. simpl.
  destruct (s =? 1) eqn:Es, (t =? 1) eqn:Et, (s =? t) eqn:Est; simpl; unfold mbind; simpl;
    try done; rewrite IH by lia; destruct (join_rev ra rb); simpl; rewrite <- ?app_assoc; done.
Qed.

Lemma infer_size_join a b :
  infer_size a b = match join_rev (rev a) (rev b) with
                   | Some r => Ok (rev r)
                   | None => Throw (Error "The size of tensor a (")
                   end.
Proof.
  unfold infer_size. rewrite infer_size_loop_join.
  - destruct (join_rev _ _); [|done]. by rewrite app_nil_r.
  - rewrite !length_rev. destruct (Nat.ltb_spec (length b) (length a)); lia.
Qed.

Lemma Forall_cons_iff3 {A} (P : A → Prop) x y z :
  Forall P [x; y; z] ↔ P x ∧ P y ∧ P z ∧ True.
Proof. rewrite !Forall_cons, Forall_nil. done. Qed.

Lemma expandable_rev_refl ra : expandable_rev ra ra.
Proof. induction ra; simpl; auto. Qed.

Lemma join_rev_upper ra : ∀ rb r,
  join_rev ra rb = Some r → expandable_rev ra r ∧ expandable_rev rb r.
Proof.
  induction ra as [|s ra IH]; intros rb r; simpl; [intros [= ->]; auto using expandable_rev_refl|].
  destruct rb as [|t rb]; [intros [= <-]; simpl; auto using expandable_rev_refl|].
  destruct (s =? 1) eqn:Es, (t =? 1) eqn:Et, (s =? t) eqn:Est; simpl; try done;
    destruct (join_rev ra rb) as [r'|] eqn:E; try done; intros [= <-]; bool_simpl;
    destruct (IH _ _ E); simpl; auto.
Qed.

Lemma join_rev_least ra : ∀ rb rc,
  expandable_rev ra rc → expandable_rev rb rc →
  ∃ r, join_rev ra rb = Some r ∧ expandable_rev r rc.
Proof.
  induction ra as [|s ra IH]; intros rb rc Ha Hb; [by exists rb|].
  destruct rb as [|t rb]; [by exists (s :: ra)|].
  destruct rc as [|c rc]; [done|]. destruct Ha as [Hs Ha], Hb as [Ht Hb].
  destruct (IH rb rc Ha Hb) as (r & Hr & Hrc). simpl. rewrite Hr.
  assert (negb (s =? 1) && negb (t =? 1) && negb (s =? t) = false) as ->.
  { destruct (s =? 1) eqn:Es, (t =? 1) eqn:Et, (s =? t) eqn:Est; bool_simpl; simpl; try done. lia. }
  eexists. split; [reflexivity|]. simpl. split; [|done]. case_bool; [done|]. destruct Hs; [done|by right].
Qed.

(**  [infer_size] computes the least upper bound of two shapes for
    expansion: if it returns, both shapes can be expanded to the result, and
    the result to any shape both can be expanded to; it throws exactly when no
    such shape exists. *)
Theorem infer_size_lub a b :
  match infer_size a b with
  | Ok r => expandable a r ∧ expandable b r ∧
            ∀ c, expandable a c → expandable b c → expandable r c
  | Throw e => e = Error "The size of tensor a (" ∧ ∀ c, ¬ (expandable a c ∧ expandable b c)
  end.
Proof.
  rewrite infer_size_join. unfold expandable.
  destruct (join_rev (rev a) (rev b)) as [r|] eqn:E.
  - rewrite rev_involutive. destruct (join_rev_upper _ _ _ E) as [Ha Hb]. split_and!; [done..|].
    intros c Hac Hbc. destruct (join_rev_least _ _ _ Hac Hbc) as (r' & Hr' & Hc). congruence.
  - split; [done|]. intros c [Hac Hbc]. destruct (join_rev_least _ _ _ Hac Hbc) as (r' & Hr' & _).
    congruence.
Qed.

Lemma expandable_rev_trans ra : ∀ rb rc,
  expandable_rev ra rb → expandable_rev rb rc → expandable_rev ra rc.
Proof.
  induction ra as [|s ra IH]; intros [|t rb] [|u rc]; simpl; try done.
  intros [Hs Ha] [Ht Hb]. split; [|by apply (IH rb)]. destruct Hs as [?| ->]; auto.
Qed.

Lemma expandable_rev_antisym ra : ∀ rb,
  expandable_rev ra rb → expandable_rev rb ra → ra = rb.
Proof.
  induction ra as [|s ra IH]; intros [|t rb]; simpl; try done.
  intros [Hs Ha] [Ht Hb]. f_equal; [|auto]. destruct Hs, Ht; congruence.
Qed.

(** The least upper bound of several shapes, when it exists. *)
Definition is_join (l : list (list Z)) (o : option (list Z)) : Prop :=
  match o with
  | Some r => Forall (fun a => expandable_rev a r) l ∧
              ∀ c, Forall (fun a => expandable_rev a c) l → expandable_rev r c
  | None => ∀ c, ¬ Forall (fun a => expandable_rev a c) l
  end.

Lemma is_join_unique l o1 o2 : is_join l o1 → is_join l o2 → o1 = o2.
Proof.
  destruct o1 as [r1|], o2 as [r2|]; simpl; [|intros [? _] Hn|intros Hn [? _]|done]; [|by destruct (Hn r1)|by destruct (Hn r2)].
  intros [H1 L1] [H2 L2]. f_equal. apply expandable_rev_antisym; auto.
Qed.

Lemma is_join_perm l l' o : l ≡ₚ l' → is_join l o → is_join l' o.
Proof. intros Hp. destruct o as [r|]; simpl; setoid_rewrite Hp; done. Qed.

Lemma join_rev_is_join ra rb : is_join [ra; rb] (join_rev ra rb).
Proof.
  unfold is_join. destruct (join_rev ra rb) as [r|] eqn:E.
  - destruct (join_rev_upper _ _ _ E). split; [by repeat constructor|].
    intros c [Ha [Hb _]%Forall_cons]%Forall_cons.
    destruct (join_rev_least _ _ _ Ha Hb) as (r' & Hr' & Hc). congruence.
  - intros c [Ha [Hb _]%Forall_cons]%Forall_cons.
    destruct (join_rev_least _ _ _ Ha Hb) as (r' & Hr' & _). congruence.
Qed.

Lemma join_rev_is_join_3 ra rb rc :
  is_join [ra; rb; rc] (r ← join_rev ra rb; join_rev r rc).
Proof.
  pose proof (join_rev_is_join ra rb) as H1. destruct (join_rev ra rb) as [r|]; simpl.
  - destruct H1 as [[Ha [Hb _]%Forall_cons]%Forall_cons Hl].
    pose proof (join_rev_is_join r rc) as H2. destruct (join_rev r rc) as [r2|]; simpl.
    + destruct H2 as [[Hr [Hc _]%Forall_cons]%Forall_cons Hl2]. split.
      { repeat constructor; [by apply (expandable_rev_trans _ r)..|done]. }
      intros c (? & ? & ? & _)%Forall_cons_iff3. apply Hl2. repeat constructor; [|done].
      apply Hl. by repeat constructor.
    + intros c (? & ? & ? & _)%Forall_cons_iff3. apply (H2 c). repeat constructor; [|done].
      apply Hl. by repeat constructor.
  - intros c (? & ? & ? & _)%Forall_cons_iff3. apply (H1 c). by repeat constructor.
Qed.

(**  The order in which operands are broadcast does not matter:
    [infer_size] is commutative and associative, errors included. *)
Theorem infer_size_comm_assoc a b c :
  infer_size a b = infer_size b a ∧
  (r ← infer_size a b; infer_size r c) = (r ← infer_size b c; infer_size a r).
Proof.
  assert (∀ x y, join_rev x y = join_rev y x) as Hcomm.
  { intros x y. apply (is_join_unique [x; y]); [apply join_rev_is_join|].
    apply (is_join_perm [y; x]); [apply Permutation_swap|apply join_rev_is_join]. }
  rewrite !infer_size_join. split; [by rewrite Hcomm|].
  assert ((r ← join_rev (rev a) (rev b); join_rev r (rev c))
          = (r ← join_rev (rev b) (rev c); join_rev (rev a) r)) as Hassoc.
  { apply (is_join_unique [rev a; rev b; rev c]); [apply join_rev_is_join_3|].
    apply (is_join_perm [rev b; rev c; rev a]); [symmetry; apply (Permutation_cons_append [_; _])|].
    pose proof (join_rev_is_join_3 (rev b) (rev c) (rev a)) as H.
    destruct (join_rev (rev b) (rev c)) as [r|]; [|done]. simpl in *. by rewrite Hcomm. }
  destruct (join_rev (rev a) (rev b)), (join_rev (rev b) (rev c)); simpl in *;
    unfold mbind; simpl; rewrite ?infer_size_join, ?rev_involutive; by rewrite ?Hassoc, <- ?Hassoc.
Qed.

(** ** Expansion as a map on indices. *)

(** The element of the tensor an index of the expanded tensor shows: leading
    coordinates are dropped and those of singleton dimensions are 0. *)
Definition project_aligned (ts idx : list Z) : list Z :=
  zip_with (fun s i => if s =? 1 then 0 else i) ts idx.
Definition project (ts idx : list Z) : list Z :=
  project_aligned ts (drop (length idx - length ts) idx).

(** The target sizes with [-1] replaced by the size of the tensor; [None] in a
    leading dimension or when a size does not match. *)
Fixpoint expand_target_rev (rts rsizes : list Z) : option (list Z) :=
  match rsizes with
  | [] => Some []
  | t :: rsizes' =>
      match rts with
      | [] => if t =? -1 then None else r ← expand_target_rev [] rsizes'; Some (t :: r)
      | s :: rts' =>
          if (t =? -1) || (s =? t) || (s =? 1) then
            r ← expand_target_rev rts' rsizes'; Some ((if t =? -1 then s else t) :: r)
          else None
      end
  end.

Definition shows (ts tst es est : list Z) : Prop :=
  ∀ idx, in_bounds es idx →
    in_bounds ts (project ts idx) ∧ offset idx est = offset (project ts idx) tst.

Lemma project_cons_same s ts i idx :
  length idx = length ts →
  project (s :: ts) (i :: idx) = (if s =? 1 then 0 else i) :: project ts idx.
Proof. intros Hl. unfold project. simpl. rewrite Hl, Nat.sub_diag. done. Qed.

Lemma project_cons_lead ts i idx :
  (length ts <= length idx)%nat → project ts (i :: idx) = project ts idx.
Proof. intros Hl. unfold project. simpl length. by replace (S _ - _)%nat with (S (length idx - length ts)) by lia. Qed.

Lemma shows_dim s st ts tst t est_i es est :
  length es = length ts → length est = length es →
  0 < s → (t = s ∧ est_i = st ∨ s = 1 ∧ est_i = 0) →
  shows ts tst es est → shows (s :: ts) (st :: tst) (t :: es) (est_i :: est).
Proof.
  intros Hl Hle Hs Hc Hsh idx Hib. inversion Hib as [|? i ? idx' Hi Hib']; subst.
  rewrite project_cons_same by (apply in_bounds_length in Hib'; congruence).
  destruct (Hsh idx' Hib') as [H1 H2]. split.
  - constructor; [case_bool; lia|done].
  - simpl. rewrite H2. destruct Hc as [[-> ->]|[-> ->]]; case_bool; try lia.
    subst. assert (i = 0) as -> by lia. lia.
Qed.

Lemma shows_lead ts tst t est_i es est :
  (length ts <= length es)%nat → (t = 1 ∨ est_i = 0) →
  shows ts tst es est → shows ts tst (t :: es) (est_i :: est).
Proof.
  intros Hl Hc Hsh idx Hib. inversion Hib as [|? i ? idx' Hi Hib']; subst.
  pose proof (in_bounds_length _ _ Hib').
  rewrite project_cons_lead by lia. destruct (Hsh idx' Hib') as [H1 H2]. split; [done|].
  simpl. rewrite H2. destruct Hc as [->| ->]; [assert (i = 0) as -> by lia|]; lia.
Qed.

Lemma expand_loop_spec rsizes : ∀ rts rtst ts tst es est,
  length rtst = length rts → positive rts → (length rts <= length rsizes)%nat →
  length est = length es → (length ts <= length es)%nat → (rts = [] ∨ length es = length ts) →
  shows ts tst es est →
  match expand_target_rev rts rsizes with
  | Some r => ∃ T, expand_loop rts rtst rsizes es est = Ok (rev r ++ es, T) ∧
      shows (rev rts ++ ts) (rev rtst ++ tst) (rev r ++ es) T
  | None => expand_loop rts rtst rsizes es est = Throw (Error "The expanded size of the tensor (")
  end.
Proof.
  induction rsizes as [|t rsizes IH]; intros rts rtst ts tst es est Hl Hp Hlr Hle Hlt Hc Hsh.
  { destruct rts, rtst; simpl in *; try lia. by exists est. }
  destruct rts as [|s rts], rtst as [|st rtst]; simpl in Hl; try lia.
  - cbn [expand_loop expand_target_rev hd tl]. destruct (t =? -1) eqn:Et; [done|].
    unfold mbind, result_bind, option_bind.
    assert (∀ est_i, t = 1 ∨ est_i = 0 → shows ts tst (t :: es) (est_i :: est)) as Hlead
      by (intros; by apply shows_lead).
    specialize (IH [] [] ts tst (t :: es)).
    destruct (negb (1 =? t)) eqn:E1; bool_simpl; simpl.
    + specialize (IH (0 :: est)). simpl in IH. destruct (expand_target_rev [] rsizes) as [r|]; simpl;
        [destruct IH as (T & HT & HS)|apply IH]; auto; try lia.
      exists T. rewrite <- !app_assoc. by split.
    + subst t. specialize (IH (hd 0 es * hd 0 est :: est)). simpl in IH.
      destruct (expand_target_rev [] rsizes) as [r|]; simpl;
        [destruct IH as (T & HT & HS)|apply IH]; auto; try lia.
      exists T. rewrite <- !app_assoc. by split.
  - destruct Hc as [Hc|Hc]; [done|]. apply positive_cons in Hp as [Hs Hp]. simpl in Hlr.
    assert (∀ t' est_i, t' = s ∧ est_i = st ∨ s = 1 ∧ est_i = 0 →
      match (r ← expand_target_rev rts rsizes; Some (t' :: r)) with
      | Some r => ∃ T, expand_loop rts rtst rsizes (t' :: es) (est_i :: est) = Ok (rev r ++ es, T) ∧
          shows (rev (s :: rts) ++ ts) (rev (st :: rtst) ++ tst) (rev r ++ es) T
      | None => expand_loop rts rtst rsizes (t' :: es) (est_i :: est)
                = Throw (Error "The expanded size of the tensor (")
      end) as Hstep.
    { intros t' est_i Hd. specialize (IH rts rtst (s :: ts) (st :: tst) (t' :: es) (est_i :: est)).
      destruct (expand_target_rev rts rsizes) as [r|]; simpl;
        [destruct IH as (T & HT & HS)|apply IH]; simpl; auto; try lia; try (by apply shows_dim).
      exists T. rewrite <- !app_assoc. by split. }
    simpl. destruct (t =? -1) eqn:Et; simpl; unfold mbind; simpl.
    + rewrite Z.eqb_refl. simpl. apply Hstep. by left.
    + destruct (s =? t) eqn:Est; simpl; bool_simpl; [subst; apply Hstep; by left|].
      destruct (s =? 1) eqn:Es1; simpl; bool_simpl; [apply Hstep; by right|done].
Qed.

Definition expand_target (ts sizes : list Z) : option (list Z) :=
  @rev Z <$> expand_target_rev (rev ts) (rev sizes).

(**  [inferExpandGeometry] of a tensor with dimensions fails exactly when
    a target size is neither [-1], nor the size of the tensor, nor over a
    singleton dimension (or is [-1] in a new leading dimension); otherwise the
    expanded sizes are the targets with [-1] filled in, and the strides show at
    every index the element of the tensor broadcasting assigns to it. *)
Theorem inferExpandGeometry_shows ts tst sizes :
  ts ≠ [] → length tst = length ts → positive ts → (length ts <= length sizes)%nat →
  match expand_target ts sizes with
  | Some es => ∃ est, inferExpandGeometry ts tst sizes = Ok (es, est) ∧
      ∀ idx, in_bounds es idx →
        in_bounds ts (project ts idx) ∧ offset idx est = offset (project ts idx) tst
  | None => inferExpandGeometry ts tst sizes = Throw (Error "The expanded size of the tensor (")
  end.
Proof.
  intros Hne Hl Hp Hls. unfold inferExpandGeometry, expand_target.
  destruct (Nat.eqb_spec (length ts) 0) as [E|_]; [by destruct ts|].
  assert (shows [] [] [] []) as H0 by (intros idx Hib; inversion Hib; by split; [constructor|]).
  pose proof (expand_loop_spec (rev sizes) (rev ts) (rev tst) [] [] [] []) as H.
  rewrite !length_rev, !app_nil_r, !rev_involutive in H. simpl in H.
  destruct (expand_target_rev (rev ts) (rev sizes)) as [r|]; simpl;
    [|apply H; auto using positive_rev].
  destruct H as (T & HT & HS); auto using positive_rev. rewrite !app_nil_r in *.
  exists T. split; [done|]. exact HS.
Qed.

Lemma inferExpandGeometry_shows_witness :
  inferExpandGeometry [3; 1] [1; 7] [2; -1; 4] = Ok ([2; 3; 4], [0; 1; 0]) ∧
  offset [1; 2; 3] [0; 1; 0] = offset [2; 0] [1; 7].
Proof.
  split; [reflexivity|].
  destruct (inferExpandGeometry_shows [3; 1] [1; 7] [2; -1; 4] ltac:(done) eq_refl
    ltac:(forall_lia) ltac:(simpl; lia)) as (est & E & H).
  assert (est = [0; 1; 0]) as -> by (vm_compute in E; congruence).
  assert (in_bounds [2; 3; 4] [1; 2; 3]) as Hib by in_bounds_lia. apply (H [1; 2; 3] Hib).
Defined.

(** ** The inferred dimension. *)
Definition known (shape : list Z) : list Z := List.filter (fun s => negb (s =? -1)) shape.
Definition nonneg (l : list Z) : Prop := Forall (fun s => 0 <= s) l.

Lemma known_nonneg l : nonneg l → known l = l.
Proof.
  induction 1 as [|s l Hs _ IH]; simpl; [done|]. destruct (s =? -1) eqn:E; bool_simpl; [lia|].
  simpl. by rewrite IH.
Qed.

Lemma known_app l1 l2 : known (l1 ++ l2) = known l1 ++ known l2.
Proof. apply List.filter_app. Qed.

Lemma infer_dim_loop_app pre : ∀ dim rest ns od,
  nonneg pre → i64_products ns (known (pre ++ rest)) →
  infer_dim_loop dim (pre ++ rest) ns od
  = infer_dim_loop (dim + length pre)%nat rest (ns * multiply_integers pre) od ∧
  i64_products (ns * multiply_integers pre) (known rest).
Proof.
  induction pre as [|s pre IH]; intros dim rest ns od Hn Hp; simpl in *.
  { by rewrite Z.mul_1_r, Nat.add_0_r. }
  apply Forall_cons in Hn as [Hs Hn]. simpl in Hs.
  destruct (s =? -1) eqn:E; bool_simpl; [lia|]. simpl in Hp. destruct Hp as [Hs64 Hp].
  assert ((s >? -1) = true) as -> by (rewrite Z.gtb_ltb, Z.ltb_lt; lia). simpl. unfold mbind; simpl.
  rewrite to_i64_small by done. destruct (IH (S dim) rest (ns * s) od Hn Hp) as [-> Hr].
  rewrite <- Z.mul_assoc in *. split; [f_equal; lia|done].
Qed.

Lemma infer_dim_loop_sound shape : ∀ dim ns od n o,
  i64_products ns (known shape) → infer_dim_loop dim shape ns od = Ok (n, o) →
  (nonneg shape ∧ o = od ∧ n = ns * multiply_integers shape) ∨
  (od = None ∧ ∃ pre post, shape = pre ++ -1 :: post ∧ nonneg pre ∧ nonneg post ∧
     o = Some (dim + length pre)%nat ∧ n = ns * multiply_integers (pre ++ post)).
Proof.
  induction shape as [|s shape IH]; intros dim ns od n o Hp; simpl.
  { intros [= <- <-]. left. split_and!; [constructor|done|lia]. }
  simpl in Hp. destruct (s =? -1) eqn:E; bool_simpl; simpl in Hp.
  - subst s. destruct od as [d|]; [done|]. unfold mbind; simpl. intros Hl.
    apply IH in Hl as [(Hn & -> & ->)|[? _]]; [|done|done].
    right. split; [done|]. exists [], shape. simpl.
    split_and!; [done|constructor|done|f_equal; lia|done].
  - destruct Hp as [Hs Hp]. destruct (s >? -1) eqn:E1; [|done]. bool_simpl.
    unfold mbind; simpl. rewrite to_i64_small by done. intros Hl.
    apply IH in Hl as [(Hn & -> & ->)|(-> & pre & post & -> & Hpre & Hpost & -> & ->)]; [left|right|done].
    + split_and!; [constructor; [lia|done]|done|lia].
    + split; [done|]. exists (s :: pre), post. simpl.
      split_and!; [done|constructor; [lia|done]|done|f_equal; lia|lia].
Qed.

(** [res] is [shape] with every [-1] replaced by a size. *)
Definition completes (shape res : list Z) : Prop :=
  Forall2 (fun s r => 0 <= r ∧ (s = -1 ∨ s = r)) shape res.

Lemma completes_refl l : nonneg l → completes l l.
Proof. induction 1; constructor; auto. Qed.

Lemma completes_nonneg shape res : nonneg shape → completes shape res → res = shape.
Proof.
  intros Hn Hc. induction Hc as [|s r ss rs [Hr Hs] Hc IH]; [done|].
  apply Forall_cons in Hn as [Hs0 Hn]. simpl in Hs0. f_equal; [lia|auto].
Qed.

(** At most one size is to be inferred, and then not from zero elements. *)
Definition inferrable (shape : list Z) : Prop :=
  nonneg shape ∨
  ∃ pre post, shape = pre ++ -1 :: post ∧ nonneg pre ∧ nonneg post ∧
    multiply_integers (pre ++ post) ≠ 0.

Lemma completes_split pre post res :
  nonneg pre → nonneg post → completes (pre ++ -1 :: post) res →
  ∃ r, 0 <= r ∧ res = pre ++ r :: post.
Proof.
  intros Hpre Hpost Hc. apply Forall2_app_inv_l in Hc as (res1 & res2 & H1 & H2 & ->).
  apply Forall2_cons_inv_l in H2 as (r & res2' & [Hr _] & H2 & ->).
  exists r. rewrite (completes_nonneg pre res1), (completes_nonneg post res2') by done. done.
Qed.

(**  [infer_size] of a reshape returns a shape exactly when at most one
    size is [-1] (over a nonzero product of the others) and the result is the
    completion of the shape that holds [numel] elements. *)
Theorem infer_size_dv_iff shape numel res :
  i64_products 1 (known shape) → 0 <= numel →
  infer_size_dv shape numel = Ok res ↔
  inferrable shape ∧ completes shape res ∧ multiply_integers res = numel.
Proof.
  intros Hp Hnumel. unfold infer_size_dv. rewrite bind_Ok. split.
  - intros ([n o] & Hl & Hk). apply infer_dim_loop_sound in Hl; [|done].
    destruct Hl as [(Hn & -> & ->)|(_ & pre & post & -> & Hpre & Hpost & -> & ->)].
    + apply bind_Ok in Hk as (u & Hc & [= <-]). apply TORCH_CHECK_Ok in Hc. bool_simpl.
      split_and!; [by left|by apply completes_refl|lia].
    + rewrite Z.mul_1_l in Hk. set (m := multiply_integers (pre ++ post)) in *.
      apply bind_Ok in Hk as (u & Hc & Hk). apply bind_Ok in Hk as (u' & Hc' & [= <-]).
      apply TORCH_CHECK_Ok in Hc, Hc'. apply negb_true_iff, Z.eqb_neq in Hc'.
      assert (0 <= m) by (apply multiply_nonneg, Forall_app_2; done).
      assert (numel = m * (numel ÷ m)) as Hdiv.
      { apply orb_true_iff in Hc as [Hc|Hc].
        - apply andb_true_iff in Hc as [_ Hc%Z.eqb_eq]. pose proof (Z.quot_rem numel m Hc'). lia.
        - apply Z.eqb_eq in Hc. rewrite Hc, Z.quot_same by done. lia. }
      rewrite insert_app_r_alt, Nat.sub_diag by lia. simpl.
      assert (0 <= numel ÷ m) by (apply Z.quot_pos; lia).
      split_and!.
      * right. by exists pre, post.
      * apply Forall2_app; [by apply completes_refl|]. constructor; [auto|by apply completes_refl].
      * rewrite multiply_app. simpl. unfold m in *. rewrite multiply_app in *. lia.
  - intros (Hi & Hc & Hm). destruct Hi as [Hn|(pre & post & -> & Hpre & Hpost & Hnz)].
    + apply completes_nonneg in Hc; [|done]. subst res.
      destruct (infer_dim_loop_app shape 0 [] 1 None Hn) as [E _]; [by rewrite app_nil_r|].
      rewrite app_nil_r in E. exists (multiply_integers shape, None). split.
      { rewrite E. simpl. do 2 f_equal. lia. }
      rewrite Hm, Z.eqb_refl. done.
    + destruct (completes_split pre post res Hpre Hpost Hc) as (r & Hr & ->).
      destruct (infer_dim_loop_app pre 0 (-1 :: post) 1 None Hpre Hp) as [E Hp'].
      destruct (infer_dim_loop_app post (S (length pre)) [] (1 * multiply_integers pre) (Some (length pre)) Hpost)
        as [E' _]; [by rewrite app_nil_r|].
      rewrite app_nil_r in E'. set (m := multiply_integers (pre ++ post)) in *.
      exists (m, Some (length pre)). split.
      { rewrite E. simpl. unfold mbind; simpl. rewrite E'. simpl. do 2 f_equal.
        unfold m. rewrite multiply_app. lia. }
      assert (0 < m) as Hm0.
      { assert (0 <= m); [|lia]. apply multiply_nonneg, Forall_app_2; done. }
      assert (numel = r * m) as ->.
      { rewrite <- Hm. unfold m. rewrite !multiply_app. simpl. lia. }
      rewrite Z.rem_mul, Z.quot_mul by lia.
      assert ((m >? 0) = true) as -> by (rewrite Z.gtb_ltb, Z.ltb_lt; lia).
      assert ((m =? 0) = false) as -> by (apply Z.eqb_neq; lia). simpl. unfold mbind; simpl.
      rewrite insert_app_r_alt, Nat.sub_diag by lia. done.
Qed.

Lemma infer_size_dv_iff_witness :
  infer_size_dv [2; -1; 3] 24 = Ok [2; 4; 3] ∧ multiply_integers [2; 4; 3] = 24.
Proof.
  split; [reflexivity|].
  apply (infer_size_dv_iff [2; -1; 3] 24 [2; 4; 3]); [|lia|reflexivity].
  simpl. unfold is_i64, int64_min, int64_max. lia.
Defined.

(** ** Wrapping. *)

(**  A dimension in [-n, n) is wrapped to the one of [0, n) it denotes,
    where a scalar counts as having one dimension when that is allowed; every
    other argument raises an index error. *)
Theorem maybe_wrap_dim_spec dim n wrap_scalar :
  let m := if (n =? 0) && wrap_scalar then 1 else n in
  match maybe_wrap_dim dim n wrap_scalar with
  | Ok r => - m <= dim < m ∧ 0 <= r < m ∧ r = dim mod m
  | Throw e => ¬ (- m <= dim < m) ∧ ∃ msg, e = IndexError msg
  end.
Proof.
  assert (∀ k, - k <= dim < k →
    (if dim <? 0 then Ok (dim + k) else Ok dim) = Ok (dim mod k) ∧ 0 <= dim mod k < k) as Hmod.
  { intros k Hk. split; [|apply Z.mod_pos_bound; lia]. case_bool; f_equal.
    - rewrite <- (Z_mod_plus_full dim 1 k), Z.mul_1_l, Z.mod_small by lia. done.
    - rewrite Z.mod_small by lia. done. }
  intros m. unfold maybe_wrap_dim. cbn [_maybe_wrap_dim].
  destruct ((n * -1 <=? dim) && (dim <? n)) eqn:E.
  { bool_simpl. assert (m = n) as -> by (unfold m; destruct (Z.eqb_spec n 0); [lia|done]).
    destruct (Hmod n ltac:(lia)) as [Hr Hb]. rewrite Hr. split_and!; done || lia. }
  unfold m. unfold TORCH_CHECK_INDEX, mbind, result_bind. rewrite Z.geb_leb.
  assert (¬ (- n <= dim < n)) as Hn by (intros Hin; rewrite andb_false_iff, Z.leb_gt, Z.ltb_ge in E; lia).
  destruct (Z.leb_spec 0 n); cbn.
  2: { destruct (Z.eqb_spec n 0); [lia|]. simpl. split; [done|by eexists]. }
  destruct (Z.eqb_spec n 0) as [->|Hn0]; cbn.
  - destruct wrap_scalar; cbn [andb]; [|split; [lia|by eexists]].
    change (1 * -1) with (-1) in *. change (1 - 1) with 0.
    destruct ((-1 <=? dim) && (dim <? 1)) eqn:E1.
    + bool_simpl. destruct (Hmod 1 ltac:(lia)) as [Hr Hb]. rewrite Hr. split_and!; done || lia.
    + rewrite andb_false_iff, Z.leb_gt, Z.ltb_ge in E1.
      destruct ((-1 <=? dim) && (dim <=? 0)) eqn:E2; [bool_simpl; lia|].
      cbn. split; [lia|by eexists].
  - destruct ((n * -1 <=? dim) && (dim <=? n - 1)) eqn:E3; [bool_simpl; lia|]. cbn.
    split; [done|by eexists].
Qed.

Lemma wrap_dims_loop_spec n dims : 0 < n →
  match wrap_dims_loop n dims with
  | Ok r => Forall (fun d => - n <= d < n) dims ∧ r = map (fun d => d mod n) dims
  | Throw e => (∃ msg, e = IndexError msg) ∧ ¬ Forall (fun d => - n <= d < n) dims
  end.
Proof.
  intros Hn. induction dims as [|d dims IH]; simpl; [by split|].
  destruct ((d <? - n) || (d >? n - 1)) eqn:E.
  { split; [by eexists|]. rewrite Forall_cons. intros [Hd _]. bool_simpl. lia. }
  bool_simpl. destruct (wrap_dims_loop n dims) as [r|e]; unfold mbind; simpl.
  - destruct IH as [Hf ->]. split; [constructor; [lia|done]|]. f_equal. case_bool.
    + rewrite <- (Z_mod_plus_full d 1 n), Z.mul_1_l, Z.mod_small by lia. done.
    + rewrite Z.mod_small by lia. done.
  - destruct IH as [He Hf]. split; [done|]. by intros [_ ?]%Forall_cons.
Qed.

(**  [maybe_wrap_dims] wraps all dimensions or raises an index error and
    agrees with wrapping one at a time. *)
Theorem maybe_wrap_dims_spec dims n wrap_scalars :
  0 <= n →
  let m := if (n =? 0) && wrap_scalars then 1 else n in
  match maybe_wrap_dims_n dims n wrap_scalars with
  | Ok r => Forall (fun d => - m <= d < m) dims ∧ r = map (fun d => d mod m) dims
  | Throw e => (∃ msg, e = IndexError msg) ∧ ¬ Forall (fun d => - m <= d < m) dims
  end.
Proof.
  intros Hn m. unfold maybe_wrap_dims_n, m.
  destruct (Z.eqb_spec n 0) as [->|Hn0]; simpl.
  - destruct wrap_scalars; [by apply (wrap_dims_loop_spec 1)|].
    destruct dims as [|d dims]; cbn; [by split|]. split; [by eexists|].
    rewrite Forall_cons. lia.
  - destruct (Z.leb_spec n 0); [lia|]. by apply wrap_dims_loop_spec; lia.
Qed.

Lemma maybe_wrap_dims_spec_witness :
  maybe_wrap_dims_n [-1; 0] 3 true = Ok [2; 0] ∧ Forall (fun d => - (3) <= d < 3) [-1; 0].
Proof.
  split; [reflexivity|]. apply (maybe_wrap_dims_spec [-1; 0] 3 true). lia.
Defined.
