(* ===== verification/MemoryOverlap.v ===== *)
(** * Memory overlap tests.

    aten/src/ATen/MemoryOverlap.cpp on strided tensors with concrete sizes,
    with the storage aliasing test of c10/core/Storage.{h,cpp}.  The theorems
    read the answers on the bytes the elements occupy. *)

From S2P Require Import Prelude Layout Contiguity Overlap SafeNum TensorMeta.

Inductive MemOverlap : Type := MO_No | MO_Yes | MO_TooHard.
Inductive MemOverlapStatus : Type := Full | Partial | No | TooHard.

#[export] Instance MemOverlap_eq_dec : EqDecision MemOverlap.
Proof. solve_decision. Defined.
#[export] Instance MemOverlapStatus_eq_dec : EqDecision MemOverlapStatus.
Proof. solve_decision. Defined.

(** A [StorageImpl] seen through a [Storage]: the identity of the object, the
    deleter and context of its data pointer, and the address of its data. *)
Record Storage : Type := mkStorage {
  storage_impl_ : Z;
  deleter : Z;
  context : Z;
  storage_data : Z }.

(** The address of [c10::refcounted_deleter]. *)
Definition refcounted_deleter : Z := 1.

Definition isSharedStorageAlias (storage0 storage1 : Storage) : bool :=
  if negb (deleter storage0 =? refcounted_deleter) || negb (deleter storage1 =? refcounted_deleter)
  then false
  else context storage0 =? context storage1.

Definition is_alias_of (s other : Storage) : bool :=
  (storage_impl_ s =? storage_impl_ other) || isSharedStorageAlias s other.

(** A tensor in memory: the address of its [TensorImpl], its metadata, element
    size and storage. *)
Record Tensor : Type := mkTensor {
  impl : Z;
  tmeta : TensorImpl;
  itemsize : Z;
  storage_ : option Storage }.

(** [TensorImpl::data] of a tensor with a storage and a dtype. *)
Definition data (t : Tensor) (s : Storage) : Z :=
  if numel_ (tmeta t) =? 0 then 0
  else storage_data s + itemsize t * storage_offset_ (tmeta t).

(** The loop of [has_internal_overlap]. *)
Fixpoint zero_stride_loop (dims : list (Z * Z)) : MemOverlap :=
  match dims with
  | [] => MO_TooHard
  | (size, stride) :: dims' =>
      if (size >? 1) && (stride =? 0) then MO_Yes else zero_stride_loop dims'
  end.

Definition has_internal_overlap (t : TensorImpl) : MemOverlap :=
  if is_non_overlapping_and_dense_ t then MO_No
  else zero_stride_loop (zip (sizes_ t) (strides_ t)).

Definition assert_no_internal_overlap (t : TensorImpl) : result unit :=
  TORCH_CHECK (bool_decide (has_internal_overlap t ≠ MO_Yes))
    "unsupported operation: more than one element of the written-to tensor ".

Definition get_overlap_status (a b : Tensor) : MemOverlapStatus :=
  if impl a =? impl b then Full
  else if (numel_ (tmeta a) =? 0) || (numel_ (tmeta b) =? 0) then No
  else if negb (is_non_overlapping_and_dense_ (tmeta a))
          || negb (is_non_overlapping_and_dense_ (tmeta b)) then TooHard
  else
    match storage_ a, storage_ b with
    | Some a_storage, Some b_storage =>
        if is_alias_of a_storage b_storage then
          let a_begin := data a a_storage in
          let a_end := a_begin + numel_ (tmeta a) * itemsize a in
          let b_begin := data b b_storage in
          let b_end := b_begin + numel_ (tmeta b) * itemsize b in
          if (a_begin =? b_begin) && (a_end =? b_end) then
            if bool_decide (strides_ (tmeta a) = strides_ (tmeta b)) then Full else Partial
          else if (a_begin <? b_end) && (b_begin <? a_end) then Partial
          else No
        else No
    | _, _ => No
    end.

Definition assert_no_partial_overlap (a b : Tensor) : result unit :=
  TORCH_CHECK (bool_decide (get_overlap_status a b ≠ Partial))
    "unsupported operation: some elements of the input tensor and ".

Definition assert_no_overlap (a b : Tensor) : result unit :=
  let lap := get_overlap_status a b in
  TORCH_CHECK (bool_decide (lap ≠ Partial) && bool_decide (lap ≠ Full))
    "unsupported operation: some elements of the input tensor and ".

(** ** Specification: the bytes of a tensor. *)

(** The tensor's element at [idx] occupies the byte [x]. *)
Definition covers (t : Tensor) (s : Storage) (x : Z) : Prop :=
  ∃ idx, in_bounds (sizes_ (tmeta t)) idx ∧
    0 <= x - (storage_data s + itemsize t * (storage_offset_ (tmeta t) + offset idx (strides_ (tmeta t))))
      < itemsize t.

(** The dense layouts cover the byte range the code computes. *)
Lemma dense_covers t s x :
  consistent (tmeta t) → is_sparse_ (tmeta t) = false → nonneg_sizes (tmeta t) →
  is_non_overlapping_and_dense_ (tmeta t) = true → numel_ (tmeta t) ≠ 0 → 0 < itemsize t →
  covers t s x ↔ data t s <= x < data t s + numel_ (tmeta t) * itemsize t.
Proof.
  intros Hc Hsp Hn Hnod Hnz Hi. apply flag_dense in Hnod; [|done..].
  destruct Hnod as [?|(H1 & _ & H3)]; [done|].
  pose proof (consistent_length _ Hc) as Hl. pose proof (consistent_numel _ Hc) as Hm.
  change (map fst) with dims_sizes in *.
  rewrite (dims_sizes_zip (sizes_ (tmeta t)) (strides_ (tmeta t))) in H1, H3 by done.
  assert (map snd (zip (sizes_ (tmeta t)) (strides_ (tmeta t))) = strides_ (tmeta t)) as Hst
    by (change (map snd ?l) with (snd <$> l); apply snd_zip; lia).
  rewrite Hst in H1, H3. rewrite <- Hm in H1, H3.
  unfold covers, data. destruct (Z.eqb_spec (numel_ (tmeta t)) 0); [done|].
  set (base := storage_data s + itemsize t * storage_offset_ (tmeta t)). split.
  - intros (idx & Hib & Hx). specialize (H1 idx Hib). unfold base. nia.
  - intros Hx. destruct (H3 ((x - base) / itemsize t)) as (idx & Hib & Ho).
    { split; [apply Z.div_pos; lia|]. apply Z.div_lt_upper_bound; lia. }
    exists idx. split; [done|]. rewrite Ho.
    pose proof (Z.div_mod (x - base) (itemsize t)). pose proof (Z.mod_pos_bound (x - base) (itemsize t)).
    unfold base in *. lia.
Qed.

(** What the status claims about two tensors in one memory. *)
Definition status_sound (st : MemOverlapStatus) (A B : Z → Prop) : Prop :=
  match st with
  | No => ∀ x, ¬ (A x ∧ B x)
  | Full => ∀ x, A x ↔ B x
  | Partial => ∃ x, A x ∧ B x
  | TooHard => True
  end.

Record strided (t : Tensor) : Prop := mkStrided {
  strided_consistent : consistent (tmeta t);
  strided_layout : is_sparse_ (tmeta t) = false;
  strided_sizes : nonneg_sizes (tmeta t);
  strided_itemsize : 0 < itemsize t }.

Lemma dense_range t : strided t → numel_ (tmeta t) ≠ 0 → 0 < numel_ (tmeta t) * itemsize t.
Proof. intros [Hc _ Hn Hi] Hz. pose proof (numel_nonneg _ Hc Hn). nia. Qed.

(** Two dense tensors share a byte when their ranges meet. *)
Lemma covers_meet a b sa sb : strided a → strided b →
  is_non_overlapping_and_dense_ (tmeta a) = true → is_non_overlapping_and_dense_ (tmeta b) = true →
  numel_ (tmeta a) ≠ 0 → numel_ (tmeta b) ≠ 0 →
  (∃ x, covers a sa x ∧ covers b sb x) ↔
    data a sa < data b sb + numel_ (tmeta b) * itemsize b ∧ data b sb < data a sa + numel_ (tmeta a) * itemsize a.
Proof.
  intros Ha Hb Na Nb Za Zb. pose proof (dense_range a Ha Za). pose proof (dense_range b Hb Zb).
  destruct Ha, Hb. setoid_rewrite dense_covers; [|done..]. split; [intros (x & ?); lia|].
  intros. exists (Z.max (data a sa) (data b sb)). lia.
Qed.

(** C38.  [get_overlap_status] of two different tensors whose storages alias:
    [No] means that no byte belongs to an element of both, [Full] that their
    elements occupy the same bytes, [Partial] that they share a byte. *)
Theorem get_overlap_status_sound a b sa sb :
  strided a → strided b → impl a ≠ impl b →
  storage_ a = Some sa → storage_ b = Some sb → is_alias_of sa sb = true →
  status_sound (get_overlap_status a b) (covers a sa) (covers b sb).
Proof.
  intros [Hca Hla Hsa Hia] [Hcb Hlb Hsb Hib] Hne Ea Eb Hal. unfold get_overlap_status.
  rewrite Ea, Eb, Hal. destruct (Z.eqb_spec (impl a) (impl b)); [done|].
  destruct (_ || _) eqn:E0.
  { intros x [(ia & Ha & _) (ib & Hb & _)].
    apply in_bounds_positive, multiply_pos in Ha, Hb.
    rewrite <- (consistent_numel _ Hca) in Ha. rewrite <- (consistent_numel _ Hcb) in Hb.
    bool_simpl. destruct E0; bool_simpl; lia. }
  apply orb_false_iff in E0 as [Ea0%Z.eqb_neq Eb0%Z.eqb_neq].
  destruct (_ || _) eqn:En; [done|]. apply orb_false_iff in En as [Na%negb_false_iff Nb%negb_false_iff].
  pose proof (fun x => dense_covers a sa x Hca Hla Hsa Na Ea0 Hia) as HA.
  pose proof (fun x => dense_covers b sb x Hcb Hlb Hsb Nb Eb0 Hib) as HB.
  pose proof (covers_meet a b sa sb (mkStrided _ Hca Hla Hsa Hia) (mkStrided _ Hcb Hlb Hsb Hib) Na Nb Ea0 Eb0) as Hmeet.
  pose proof (dense_range a (mkStrided _ Hca Hla Hsa Hia) Ea0). pose proof (dense_range b (mkStrided _ Hcb Hlb Hsb Hib) Eb0).
  destruct ((data a sa =? data b sb) && _) eqn:Eq.
  { apply andb_true_iff in Eq as [Eq1%Z.eqb_eq Eq2%Z.eqb_eq].
    case_bool_decide; simpl; [|apply Hmeet; lia]. intros x. rewrite HA, HB. lia. }
  destruct ((data a sa <? _) && _) eqn:Ei.
  { apply andb_true_iff in Ei as [Ei1%Z.ltb_lt Ei2%Z.ltb_lt]. by apply Hmeet. }
  intros x Hx. assert (∃ x, covers a sa x ∧ covers b sb x) as Hex by eauto.
  apply Hmeet in Hex as [H3 H4]. apply Z.ltb_lt in H3, H4. rewrite H3, H4 in Ei. done.
Qed.

(** Two halves of a buffer of six 4-byte elements, and the whole of it. *)
Definition buffer : Storage := mkStorage 7 0 0 1000.
Definition half (id off : Z) : Tensor :=
  mkTensor id (run_op (SetSizesAndStrides [3] [1] (Some off)) (fresh_tensor false)).1 4 (Some buffer).

Lemma half_strided id off : strided (half id off).
Proof.
  constructor; [|done|unfold nonneg_sizes; simpl; forall_lia|done].
  apply (run_op_fresh (SetSizesAndStrides [3] [1] (Some off)) false); [simpl; i64_lia|reflexivity].
Qed.

Lemma get_overlap_status_sound_witness :
  get_overlap_status (half 1 0) (half 2 3) = No ∧
  ∀ x, ¬ (covers (half 1 0) buffer x ∧ covers (half 2 3) buffer x).
Proof.
  pose proof (get_overlap_status_sound (half 1 0) (half 2 3) buffer buffer
    (half_strided 1 0) (half_strided 2 3) ltac:(done) eq_refl eq_refl eq_refl) as H.
  assert (get_overlap_status (half 1 0) (half 2 3) = No) as E by (vm_compute; reflexivity).
  rewrite E in H. split; [exact E|exact H].
Defined.

Lemma zero_stride_loop_not_No dims : zero_stride_loop dims ≠ MO_No.
Proof. induction dims as [|[s st] dims IH]; simpl; [done|]. by case_bool. Qed.

(**  [has_internal_overlap]: [No] means that distinct elements have
    distinct offsets, [Yes] that two of them are stored at the same place. *)
Theorem has_internal_overlap_sound t :
  consistent t → is_sparse_ t = false → nonneg_sizes t →
  match has_internal_overlap t with
  | MO_No => ∀ i j, in_bounds (sizes_ t) i → in_bounds (sizes_ t) j →
               offset i (strides_ t) = offset j (strides_ t) → i = j
  | MO_Yes => ∃ i j, in_bounds (sizes_ t) i ∧ in_bounds (sizes_ t) j ∧ i ≠ j ∧
               offset i (strides_ t) = offset j (strides_ t)
  | MO_TooHard => True
  end.
Proof.
  intros Hc Hsp Hn. unfold has_internal_overlap.
  pose proof (consistent_length _ Hc) as Hl. pose proof (consistent_numel _ Hc) as Hm.
  pose proof (flag_dense t Hc Hsp Hn) as Hd.
  destruct (is_non_overlapping_and_dense_ t).
  - destruct Hd as [Hd _]. specialize (Hd eq_refl) as [H0|(_ & H2 & _)].
    + intros i j Hi. apply in_bounds_positive, multiply_pos in Hi. lia.
    + change (map fst) with dims_sizes in *. rewrite dims_sizes_zip in H2 by done.
      assert (map snd (zip (sizes_ t) (strides_ t)) = strides_ t) as Hst
        by (change (map snd ?l) with (snd <$> l); apply snd_zip; lia).
      rewrite Hst in H2. done.
  - assert (positive (sizes_ t)) as Hp.
    { destruct (positive_or_empty (sizes_ t) Hn) as [|E]; [done|].
      assert (false = true); [|done]. apply Hd. left. congruence. }
    clear Hd Hc Hm. generalize dependent (strides_ t). unfold nonneg_sizes in Hn.
    induction Hp as [|s ss Hs Hp IH]; intros [|st sts] Hl; try done.
    apply Forall_cons in Hn as [_ Hn]. simpl.
    destruct ((s >? 1) && (st =? 0)) eqn:E.
    + bool_simpl. exists (0 :: map (fun _ => 0) ss), (1 :: map (fun _ => 0) ss).
      assert (in_bounds ss (map (fun _ => 0) ss)) by (clear -Hp; induction Hp; constructor; [lia|done]).
      split_and!; [by constructor; [lia|]|by constructor; [lia|]|done|]. simpl. lia.
    + specialize (IH Hn sts ltac:(simpl in Hl; lia)).
      pose proof (zero_stride_loop_not_No (zip ss sts)) as HnoNo.
      destruct (zero_stride_loop _); try done.
      destruct IH as (i & j & Hi & Hj & Hij & Ho). exists (0 :: i), (0 :: j).
      split_and!; [by constructor; [lia|]|by constructor; [lia|]|congruence|]. simpl. lia.
Qed.

Lemma has_internal_overlap_sound_witness :
  has_internal_overlap (run_op (SetSizesAndStrides [2; 3] [0; 1] None) (fresh_tensor false)).1 = MO_Yes ∧
  ∃ i j, in_bounds [2; 3] i ∧ in_bounds [2; 3] j ∧ i ≠ j ∧ offset i [0; 1] = offset j [0; 1].
Proof.
  pose proof (has_internal_overlap_sound
    (run_op (SetSizesAndStrides [2; 3] [0; 1] None) (fresh_tensor false)).1
    (run_op_fresh (SetSizesAndStrides [2; 3] [0; 1] None) false ltac:(simpl; i64_lia) eq_refl)
    eq_refl ltac:(unfold nonneg_sizes; simpl; forall_lia)) as H.
  assert (has_internal_overlap (run_op (SetSizesAndStrides [2; 3] [0; 1] None) (fresh_tensor false)).1
          = MO_Yes) as E by (vm_compute; reflexivity).
  rewrite E in H. split; [exact E|exact H].
Defined.

(** ** Exactly what the tests detect. *)
(** Two elements whose indices differ in one dimension only are stored at the
    same place, as those of an expanded tensor are. *)
Definition repeats (sizes strides : list Z) : Prop :=
  ∃ idx d k, in_bounds sizes idx ∧ in_bounds sizes (<[d := k]> idx) ∧ <[d := k]> idx ≠ idx ∧
    offset (<[d := k]> idx) strides = offset idx strides.

Lemma offset_insert k : ∀ idx strides d i st, length idx = length strides → idx !! d = Some i →
  strides !! d = Some st → offset (<[d := k]> idx) strides = offset idx strides + (k - i) * st.
Proof.
  induction idx as [|j idx IH]; intros [|t strides] [|d] i st; try done; cbn; intros [= Hl] Hi Hst.
  - simplify_eq. lia.
  - change (j * t + offset (<[d := k]> idx) strides = j * t + offset idx strides + (k - i) * st).
    rewrite (IH strides d i st) by done. lia.
Qed.

Lemma zero_stride_loop_Yes dims : zero_stride_loop dims = MO_Yes ↔ ∃ d size, dims !! d = Some (size, 0) ∧ 1 < size.
Proof.
  induction dims as [|[size stride] dims IH]; cbn.
  { split; [done|]. by intros (d & ? & Hd & _). }
  destruct ((size >? 1) && (stride =? 0)) eqn:E.
  - split; [|done]. intros _. bool_simpl. exists 0%nat, size. split; [cbn; by repeat f_equal|lia].
  - rewrite IH. split; [intros (d & n & Hd & Hn); by exists (S d), n|]. intros ([|d] & n & Hd & Hn); [|by exists d, n].
    cbn in Hd. simplify_eq. assert ((n >? 1) = true) as Hn' by lia. by rewrite Hn' in E.
Qed.

Lemma in_bounds_insert sizes idx d size k : in_bounds sizes idx → sizes !! d = Some size → 0 <= k < size →
  in_bounds sizes (<[d := k]> idx).
Proof.
  intros Hib Hd Hk. unfold in_bounds in *. rewrite <- (list_insert_id sizes d size) by done.
  by apply Forall2_insert.
Qed.

Lemma zero_strides_repeat sizes strides : positive sizes → length strides = length sizes →
  repeats sizes strides ↔ ∃ d size, zip sizes strides !! d = Some (size, 0) ∧ 1 < size.
Proof.
  intros Hp Hl. split.
  - intros (idx & d & k & Hi & Hk & Hne & Ho). pose proof (in_bounds_length _ _ Hi) as Hli.
    destruct (decide (d < length idx)%nat) as [Hd|]; [|rewrite list_insert_ge in Hne by lia; done].
    destruct (lookup_lt_is_Some_2 idx d Hd) as [i Ei].
    destruct (lookup_lt_is_Some_2 sizes d ltac:(lia)) as [size Es].
    destruct (lookup_lt_is_Some_2 strides d ltac:(lia)) as [st Et].
    rewrite (offset_insert k idx strides d i st) in Ho by (done || lia).
    pose proof (Forall2_lookup_lr _ _ _ _ _ _ Hi Es Ei) as H1.
    pose proof (Forall2_lookup_lr _ _ _ d _ _ Hk Es (list_lookup_insert_eq _ _ k Hd)) as H2.
    cbn beta in H1, H2. assert (k ≠ i) by (intros ->; by rewrite list_insert_id in Hne).
    exists d, size. split; [|lia]. apply lookup_zip_Some. split; [done|]. rewrite Et. f_equal. nia.
  - intros (d & size & [Es Et]%lookup_zip_Some & Hn). set (idx := replicate (length sizes) 0).
    assert (in_bounds sizes idx) as Hi.
    { unfold idx, in_bounds. clear -Hp. induction Hp; cbn; constructor; [lia|done]. }
    pose proof (lookup_lt_Some _ _ _ Es) as Hd.
    assert (idx !! d = Some 0) as Ei by (by apply lookup_replicate_2).
    exists idx, d, 1. split; [done|]. split; [apply (in_bounds_insert _ _ _ size); [done..|lia]|]. split.
    + intros E. assert (<[d := 1]> idx !! d = Some 1) as E1
        by (apply list_lookup_insert_eq; unfold idx; by rewrite length_replicate).
      rewrite E, Ei in E1. done.
    + rewrite (offset_insert 1 idx strides d 0 0); [lia|unfold idx; by rewrite length_replicate|done..].
Qed.

(** The test answers [Yes] exactly for the tensors that repeat elements along a
    dimension; other overlaps are too hard for it. *)
Lemma has_internal_overlap_repeats t : consistent t → is_sparse_ t = false → nonneg_sizes t →
  has_internal_overlap t = MO_Yes ↔ repeats (sizes_ t) (strides_ t).
Proof.
  intros Hc Hsp Hn. pose proof (has_internal_overlap_sound t Hc Hsp Hn) as Hs.
  pose proof (consistent_length _ Hc) as Hl. split.
  - intros E. rewrite E in Hs. destruct Hs as (i & _ & Hi%in_bounds_positive & _).
    apply zero_strides_repeat; [done..|]. apply zero_stride_loop_Yes. unfold has_internal_overlap in E.
    by destruct (is_non_overlapping_and_dense_ t).
  - intros Hr. pose proof Hr as (i & d & k & Hi & Hk & Hne & Ho).
    apply zero_strides_repeat, zero_stride_loop_Yes in Hr; [|by eapply in_bounds_positive|done].
    unfold has_internal_overlap in *. destruct (is_non_overlapping_and_dense_ t); [|done].
    by destruct Hne; apply Hs.
Qed.

(** Two tensors overlap in part: the elements of each occupy a range without gaps
    and without overlaps, the ranges meet, and they or the strides differ. *)
Definition partly_overlapping (a b : Tensor) (sa sb : Storage) : Prop :=
  non_overlapping_and_dense (sizes_ (tmeta a)) (strides_ (tmeta a)) ∧
  non_overlapping_and_dense (sizes_ (tmeta b)) (strides_ (tmeta b)) ∧
  (∃ x, covers a sa x ∧ covers b sb x) ∧
  (strides_ (tmeta a) ≠ strides_ (tmeta b) ∨ ∃ x, ¬ (covers a sa x ↔ covers b sb x)).

Lemma covers_numel t s x : consistent (tmeta t) → covers t s x → numel_ (tmeta t) ≠ 0.
Proof.
  intros Hc (idx & Hi & _). apply in_bounds_positive, multiply_pos in Hi. rewrite (consistent_numel _ Hc). lia.
Qed.

Lemma ranges_differ a b sa sb : strided a → strided b →
  is_non_overlapping_and_dense_ (tmeta a) = true → is_non_overlapping_and_dense_ (tmeta b) = true →
  numel_ (tmeta a) ≠ 0 → numel_ (tmeta b) ≠ 0 →
  (∃ x, ¬ (covers a sa x ↔ covers b sb x)) ↔
    ¬ (data a sa = data b sb ∧
       data a sa + numel_ (tmeta a) * itemsize a = data b sb + numel_ (tmeta b) * itemsize b).
Proof.
  intros Ha Hb Na Nb Za Zb. pose proof (dense_range a Ha Za). pose proof (dense_range b Hb Zb).
  destruct Ha, Hb. setoid_rewrite dense_covers; [|done..].
  set (na := numel_ (tmeta a) * itemsize a) in *. set (nb := numel_ (tmeta b) * itemsize b) in *.
  split; [intros (x & Hx) [E1 E2]; apply Hx; lia|]. intros Hne.
  destruct (decide (data a sa < data b sb)); [exists (data a sa); lia|].
  destruct (decide (data b sb < data a sa)); [exists (data b sb); lia|].
  destruct (decide (data a sa + na < data b sb + nb)); [exists (data a sa + na); lia|].
  exists (data b sb + nb). lia.
Qed.

Lemma get_overlap_status_Partial a b sa sb : strided a → strided b → impl a ≠ impl b →
  storage_ a = Some sa → storage_ b = Some sb →
  get_overlap_status a b = Partial ↔ is_alias_of sa sb = true ∧ partly_overlapping a b sa sb.
Proof.
  intros Ha Hb Hne Ea Eb. pose proof Ha as [Hca Hla Hsa Hia]. pose proof Hb as [Hcb Hlb Hsb Hib].
  unfold get_overlap_status, partly_overlapping. rewrite Ea, Eb.
  destruct (Z.eqb_spec (impl a) (impl b)); [done|]. destruct ((numel_ (tmeta a) =? 0) || _) eqn:E0.
  { split; [done|]. intros (_ & _ & _ & (x & H1%covers_numel & H2%covers_numel) & _); [|done..]. bool_simpl. lia. }
  apply orb_false_iff in E0 as [Za%Z.eqb_neq Zb%Z.eqb_neq].
  pose proof (flag_dense _ Hca Hla Hsa) as Fa. pose proof (flag_dense _ Hcb Hlb Hsb) as Fb.
  destruct (is_non_overlapping_and_dense_ (tmeta a)) eqn:Na.
  2: { split; [done|]. intros (_ & Hd & _). assert (false = true); [|done]. apply Fa. by right. }
  destruct (is_non_overlapping_and_dense_ (tmeta b)) eqn:Nb.
  2: { split; [done|]. intros (_ & _ & Hd & _). assert (false = true); [|done]. apply Fb. by right. }
  cbn [negb orb]. destruct Fa as [[?|Da] _]; [done..|]. destruct Fb as [[?|Db] _]; [done..|].
  rewrite covers_meet, ranges_differ by done.
  destruct (is_alias_of sa sb); [|split; [done|by intros [? _]]].
  destruct ((data a sa =? data b sb) && _) eqn:Eq.
  - pose proof (dense_range a Ha Za). pose proof (dense_range b Hb Zb). bool_simpl. case_bool_decide.
    + split; [done|]. intros (_ & _ & _ & _ & [?|?]); [done|lia].
    + split; [|done]. intros _. split_and!; try done; [lia..|by left].
  - destruct ((data a sa <? _) && _) eqn:Ei; split; try done; bool_simpl.
    + intros _. split_and!; try done; [lia..|right]. lia.
    + lia.
Qed.
