(* ===== verification/BitMath.v ===== *)
(** * Bit and alignment arithmetic.

    The [uint64_t] instances of c10/util/llvmMathExtras.h.  Values are Z in
    [0, 2^64); the wrap-around of the unsigned operations is written out. *)

From S2P Require Import Prelude SafeNum.

Definition add64 (x y : Z) : Z := to_u64 (x + y).
Definition sub64 (x y : Z) : Z := to_u64 (x - y).
Definition mul64 (x y : Z) : Z := to_u64 (x * y).
Definition shl64 (x n : Z) : Z := to_u64 (Z.shiftl x n).
Definition not64 (x : Z) : Z := to_u64 (Z.lnot x).

(** ** Counting zeros. *)

(** The builtin the 64-bit specialisation calls on a nonzero value. *)
Fixpoint ctz_pos (p : positive) : Z :=
  match p with
  | xO p' => 1 + ctz_pos p'
  | _ => 0
  end.
Definition builtin_ctzll (x : Z) : Z := match x with Zpos p => ctz_pos p | _ => 64 end.
Definition builtin_clzll (x : Z) : Z := 63 - Z.log2 x.

Definition countTrailingZeros (Val : Z) : Z := if Val =? 0 then 64 else builtin_ctzll Val.
Definition countLeadingZeros (Val : Z) : Z := if Val =? 0 then 64 else builtin_clzll Val.

(** [TrailingZerosCounter::count] for a type of [digits] bits without a
    specialisation: the bisection.  The loop halves [Shift]; [fuel] bounds the
    number of halvings. *)
Fixpoint ctz_bisect (fuel : nat) (Val Shift Mask ZeroBits : Z) : Z :=
  match fuel with
  | O => ZeroBits
  | S fuel' =>
      if Shift =? 0 then ZeroBits
      else
        let '(Val, ZeroBits) :=
          if Z.land Val Mask =? 0 then (Z.shiftr Val Shift, Z.lor ZeroBits Shift)
          else (Val, ZeroBits) in
        let Shift := Z.shiftr Shift 1 in
        let Mask := Z.shiftr Mask Shift in
        ctz_bisect fuel' Val Shift Mask ZeroBits
  end.

Definition TrailingZerosCounter_count (digits Val : Z) : Z :=
  if Val =? 0 then digits
  else if Z.land Val 1 =? 1 then 0
  else
    let Shift := Z.shiftr digits 1 in
    let Mask := Z.shiftr (2 ^ digits - 1) Shift in
    ctz_bisect (Z.to_nat digits) Val Shift Mask 0.

(** [LeadingZerosCounter::count] for a type without a specialisation. *)
Fixpoint clz_bisect (fuel : nat) (Val Shift ZeroBits : Z) : Z :=
  match fuel with
  | O => ZeroBits
  | S fuel' =>
      if Shift =? 0 then ZeroBits
      else
        let Tmp := Z.shiftr Val Shift in
        let '(Val, ZeroBits) :=
          if negb (Tmp =? 0) then (Tmp, ZeroBits) else (Val, Z.lor ZeroBits Shift) in
        clz_bisect fuel' Val (Z.shiftr Shift 1) ZeroBits
  end.

Definition LeadingZerosCounter_count (digits Val : Z) : Z :=
  if Val =? 0 then digits
  else clz_bisect (Z.to_nat digits) Val (Z.shiftr digits 1) 0.

(** ** Positions and masks. *)
Definition findFirstSet (Val : Z) : Z := if Val =? 0 then u64_max else builtin_ctzll Val.
Definition findLastSet (Val : Z) : Z :=
  if Val =? 0 then u64_max else Z.lxor (builtin_clzll Val) 63.

Definition maskTrailingOnes (N : Z) : Z := if N =? 0 then 0 else Z.shiftr u64_max (64 - N).
Definition maskLeadingOnes (N : Z) : Z := not64 (maskTrailingOnes (64 - N)).
Definition maskTrailingZeros (N : Z) : Z := maskLeadingOnes (64 - N).
Definition maskLeadingZeros (N : Z) : Z := maskTrailingOnes (64 - N).

Definition isMask_64 (Value : Z) : bool :=
  negb (Value =? 0) && (Z.land (add64 Value 1) Value =? 0).
Definition isShiftedMask_64 (Value : Z) : bool :=
  negb (Value =? 0) && isMask_64 (Z.lor (sub64 Value 1) Value).
Definition isPowerOf2_64 (Value : Z) : bool :=
  negb (Value =? 0) && (Z.land Value (sub64 Value 1) =? 0).

Definition Log2_64 (Value : Z) : Z := 63 - countLeadingZeros Value.

(** ** Powers of two. *)
Definition NextPowerOf2 (A : Z) : Z :=
  let A := Z.lor A (Z.shiftr A 1) in
  let A := Z.lor A (Z.shiftr A 2) in
  let A := Z.lor A (Z.shiftr A 4) in
  let A := Z.lor A (Z.shiftr A 8) in
  let A := Z.lor A (Z.shiftr A 16) in
  let A := Z.lor A (Z.shiftr A 32) in
  add64 A 1.

Definition PowerOf2Floor (A : Z) : Z := if A =? 0 then 0 else shl64 1 (63 - builtin_clzll A).
Definition PowerOf2Ceil (A : Z) : Z := if A =? 0 then 0 else NextPowerOf2 (sub64 A 1).

(** ** Alignment. *)
Definition alignTo (Value Align Skew : Z) : Z :=
  let Skew := Skew mod Align in
  add64 (mul64 (sub64 (add64 Value (Align - 1)) Skew / Align) Align) Skew.

Definition alignDown (Value Align Skew : Z) : Z :=
  let Skew := Skew mod Align in
  add64 (mul64 (sub64 Value Skew / Align) Align) Skew.

Definition divideCeil (Numerator Denominator : Z) : Z :=
  alignTo Numerator Denominator 0 / Denominator.
Definition OffsetToAlignment (Value Align : Z) : Z := sub64 (alignTo Value Align 0) Value.

(** [alignAddr], after its asserts. *)
Definition alignAddr (Addr Alignment : Z) : Z :=
  Z.land (sub64 (add64 Addr Alignment) 1) (not64 (Alignment - 1)).
Definition alignmentAdjustment (Ptr Alignment : Z) : Z := sub64 (alignAddr Ptr Alignment) Ptr.

(** ** Saturating arithmetic: the value and the overflow flag. *)
Definition SaturatingAdd (X Y : Z) : Z * bool :=
  let Z := add64 X Y in
  let Overflowed := (Z <? X) || (Z <? Y) in
  if Overflowed then (u64_max, Overflowed) else (Z, Overflowed).

Definition SaturatingMultiply (X Y : Z) : Z * bool :=
  let Log2Z := Log2_64 X + Log2_64 Y in
  let Max := u64_max in
  let Log2Max := Log2_64 Max in
  if Log2Z <? Log2Max then (mul64 X Y, false)
  else if Log2Z >? Log2Max then (Max, true)
  else
    let Z := mul64 (Z.shiftr X 1) Y in
    if negb (Z.land Z (not64 (Z.shiftr Max 1)) =? 0) then (Max, true)
    else
      let Z := shl64 Z 1 in
      if Z.land X 1 =? 1 then SaturatingAdd Z Y else (Z, false).

Definition SaturatingMultiplyAdd (X Y A : Z) : Z * bool :=
  let '(Product, Overflowed) := SaturatingMultiply X Y in
  if Overflowed then (Product, Overflowed) else SaturatingAdd A Product.

(** ** Euclid's algorithm; [fuel] bounds the iterations of the loop. *)
Fixpoint gcd_loop (fuel : nat) (A B : Z) : option Z :=
  match fuel with
  | O => None
  | S fuel' => if B =? 0 then Some A else gcd_loop fuel' B (A mod B)
  end.
Definition GreatestCommonDivisor64 (A B : Z) : option Z := gcd_loop (Z.to_nat (B + 1)) A B.

(** ** Lemmas. *)
Lemma log2_bounds x : 0 < x → 2 ^ Z.log2 x <= x < 2 * 2 ^ Z.log2 x.
Proof.
  intros Hx. pose proof (Z.log2_spec x Hx) as Hs. rewrite Z.pow_succ_r in Hs by apply Z.log2_nonneg. lia.
Qed.

Lemma land_pow2 z n : 0 <= n → Z.land z (2 ^ n) = if Z.testbit z n then 2 ^ n else 0.
Proof.
  intros Hn. apply Z.bits_inj'. intros i Hi. rewrite Z.land_spec, Z.pow2_bits_eqb by done.
  destruct (Z.eqb_spec n i) as [->|Hne].
  - destruct (Z.testbit z i); [|by rewrite Z.bits_0]. by rewrite Z.pow2_bits_true.
  - rewrite andb_false_r. destruct (Z.testbit z n); [|by rewrite Z.bits_0].
    by rewrite Z.pow2_bits_false.
Qed.

Lemma top_bit z : is_u64 z →
  (Z.land z (not64 (Z.shiftr u64_max 1)) =? 0) = (z <? 2 ^ 63).
Proof.
  intros Hz. change (not64 (Z.shiftr u64_max 1)) with (2 ^ 63).
  rewrite land_pow2, Z.testbit_odd, Z.shiftr_div_pow2 by lia.
  unfold is_u64, u64_max in Hz.
  assert (z / 2 ^ 63 = if z <? 2 ^ 63 then 0 else 1) as ->; [|by case_bool].
  case_bool; [apply Z.div_small; lia|]. symmetry. apply (Z.div_unique _ _ _ (z - 2 ^ 63)); lia.
Qed.

Lemma Log2_64_eq x : Log2_64 x = if x =? 0 then -1 else Z.log2 x.
Proof. unfold Log2_64, countLeadingZeros, builtin_clzll. case_bool; lia. Qed.

Lemma SaturatingAdd_eq X Y : is_u64 X → is_u64 Y →
  SaturatingAdd X Y = (Z.min (X + Y) u64_max, X + Y >? u64_max).
Proof.
  intros HX HY. unfold SaturatingAdd, add64, is_u64, u64_max in *.
  destruct (X + Y >? 2 ^ 64 - 1) eqn:E; bool_simpl.
  - assert (to_u64 (X + Y) = X + Y - 2 ^ 64) as ->.
    { unfold to_u64. symmetry. apply (Z.mod_unique _ _ 1); lia. }
    assert ((X + Y - 2 ^ 64 <? X) = true) as -> by (apply Z.ltb_lt; lia). simpl. f_equal. lia.
  - rewrite to_u64_small by (unfold is_u64, u64_max; lia).
    assert ((X + Y <? X) = false) as -> by (apply Z.ltb_ge; lia).
    assert ((X + Y <? Y) = false) as -> by (apply Z.ltb_ge; lia). simpl. f_equal. lia.
Qed.

Lemma SaturatingMultiply_eq X Y : is_u64 X → is_u64 Y →
  SaturatingMultiply X Y = (Z.min (X * Y) u64_max, X * Y >? u64_max).
Proof.
  intros HX HY. unfold SaturatingMultiply. rewrite !Log2_64_eq. change (Z.log2 u64_max) with 63. simpl.
  assert (u64_max = 2 ^ 64 - 1) as Emax by done.
  assert (∀ p b, p = X * Y → X * Y <= u64_max → b = false →
    (p, b) = (Z.min (X * Y) u64_max, X * Y >? u64_max)) as Hfit.
  { intros p b -> Hp ->. f_equal; [lia|]. symmetry. rewrite Z.gtb_ltb. apply Z.ltb_ge. lia. }
  assert (u64_max < X * Y → (u64_max, true) = (Z.min (X * Y) u64_max, X * Y >? u64_max)) as Hover.
  { intros Hp. f_equal; [lia|]. symmetry. rewrite Z.gtb_ltb. apply Z.ltb_lt. lia. }
  unfold is_u64 in HX, HY.
  destruct (Z.eqb_spec X 0) as [->|HX0].
  { assert ((-1 + (if Y =? 0 then -1 else Z.log2 Y) <? 63) = true) as ->.
    { apply Z.ltb_lt. case_bool; [lia|]. assert (Z.log2 Y < 64); [|lia]. apply Z.log2_lt_pow2; lia. }
    apply Hfit; [done|lia|done]. }
  destruct (Z.eqb_spec Y 0) as [->|HY0].
  { assert ((Z.log2 X + -1 <? 63) = true) as ->.
    { apply Z.ltb_lt. assert (Z.log2 X < 64); [|lia]. apply Z.log2_lt_pow2; lia. }
    apply Hfit; [unfold mul64; by rewrite Z.mul_0_r|lia|done]. }
  pose proof (log2_bounds X ltac:(lia)) as HlX. pose proof (log2_bounds Y ltac:(lia)) as HlY.
  pose proof (Z.log2_nonneg X). pose proof (Z.log2_nonneg Y).
  set (lx := Z.log2 X) in *. set (ly := Z.log2 Y) in *.
  assert (2 ^ (lx + ly) <= X * Y < 4 * 2 ^ (lx + ly)) as Hp.
  { rewrite Z.pow_add_r by done. nia. }
  destruct (Z.ltb_spec (lx + ly) 63).
  { assert (2 ^ (lx + ly) <= 2 ^ 62) by (apply Z.pow_le_mono_r; lia).
    apply Hfit; [|lia|done]. apply to_u64_small. unfold is_u64. lia. }
  rewrite Z.gtb_ltb. destruct (Z.ltb_spec 63 (lx + ly)).
  { apply Hover. assert (2 ^ 64 <= 2 ^ (lx + ly)) by (apply Z.pow_le_mono_r; lia). lia. }
  assert (lx + ly = 63) as Es by lia. rewrite Es in Hp.
  rewrite Z.shiftr_div_pow2 by lia. change (2 ^ 1) with 2.
  pose proof (Z.div_mod X 2 ltac:(lia)) as Hdm. pose proof (Z.mod_pos_bound X 2 ltac:(lia)) as Hmb.
  assert (0 <= X / 2) by (apply Z.div_pos; lia).
  set (h := X / 2) in *. assert (X * Y = 2 * (h * Y) + X mod 2 * Y) as HXY by (rewrite Hdm at 1; ring).
  assert (0 <= h * Y) by nia.
  assert (0 <= X mod 2 * Y <= Y) by nia.
  assert (is_u64 (h * Y)) as Hu by (unfold is_u64; lia).
  unfold mul64. rewrite to_u64_small, top_bit by done. rewrite Z.land_ones with (n := 1) by lia.
  change (2 ^ 1) with 2. destruct (Z.ltb_spec (h * Y) (2 ^ 63)); simpl; [|apply Hover; lia].
  unfold shl64. rewrite Z.shiftl_mul_pow2, to_u64_small by (unfold is_u64; lia). change (2 ^ 1) with 2.
  destruct (Z.eqb_spec (X mod 2) 1) as [E1|E1].
  - rewrite SaturatingAdd_eq by (unfold is_u64; lia).
    replace (h * Y * 2 + Y) with (X * Y) by (rewrite HXY, E1; lia). done.
  - assert (X mod 2 = 0) as E0 by lia. rewrite E0 in HXY. apply Hfit; [lia|lia|done].
Qed.

(**  [SaturatingMultiplyAdd] is exact when the value is representable and
    otherwise clamps to the maximum and reports the overflow; the product is
    decided on the logarithms and the top bit, without a division. *)
Theorem SaturatingMultiplyAdd_spec X Y A :
  is_u64 X → is_u64 Y → is_u64 A →
  SaturatingMultiply X Y = (Z.min (X * Y) u64_max, X * Y >? u64_max) ∧
  SaturatingMultiplyAdd X Y A = (Z.min (X * Y + A) u64_max, X * Y + A >? u64_max).
Proof.
  intros HX HY HA. split; [by apply SaturatingMultiply_eq|].
  unfold SaturatingMultiplyAdd. rewrite SaturatingMultiply_eq by done. unfold is_u64 in *.
  destruct (X * Y >? u64_max) eqn:E; bool_simpl.
  - f_equal; [lia|]. symmetry. rewrite Z.gtb_ltb. apply Z.ltb_lt. lia.
  - assert (0 <= X * Y) by nia. rewrite (Z.min_l (X * Y)) by lia.
    rewrite SaturatingAdd_eq by (unfold is_u64; lia). by rewrite (Z.add_comm A).
Qed.

Lemma SaturatingMultiplyAdd_spec_witness :
  SaturatingMultiplyAdd (2 ^ 63 + 1) 2 5 = (u64_max, true) ∧
  SaturatingMultiplyAdd (2 ^ 32) (2 ^ 31) 7 = (2 ^ 63 + 7, false).
Proof.
  split; [vm_compute; reflexivity|].
  refine (eq_trans (proj2 (SaturatingMultiplyAdd_spec (2 ^ 32) (2 ^ 31) 7 _ _ _)) _);
    [unfold is_u64, u64_max; lia..|vm_compute; reflexivity].
Defined.

(** ** Alignment. *)
Lemma alignTo_eq Value Align Skew :
  0 <= Value → 0 < Align → Value + Align - 1 <= u64_max →
  alignTo Value Align Skew
  = (Value + Align - 1 - Skew mod Align) / Align * Align + Skew mod Align.
Proof.
  intros HV HA Hm. unfold alignTo, add64, sub64, mul64.
  pose proof (Z.mod_pos_bound Skew Align HA) as Hs. set (s := Skew mod Align) in *.
  pose proof (Z.mul_div_le (Value + Align - 1 - s) Align HA).
  assert (0 <= (Value + Align - 1 - s) / Align) by (apply Z.div_pos; lia).
  rewrite (to_u64_small (Value + (Align - 1))) by (unfold is_u64; lia).
  rewrite Z.add_sub_assoc.
  rewrite (to_u64_small (Value + Align - 1 - s)) by (unfold is_u64; lia).
  rewrite (to_u64_small (_ * Align)) by (unfold is_u64; nia).
  apply to_u64_small. unfold is_u64. nia.
Qed.

(**  [alignTo] rounds up: when [Value + Align - 1] is representable the
    result is the least integer not below [Value] that is [Skew] modulo
    [Align]; without skew it is the least multiple, and [divideCeil] the
    quotient rounded up. *)
Theorem alignTo_least Value Align Skew :
  0 <= Value → 0 < Align → Value + Align - 1 <= u64_max →
  let r := alignTo Value Align Skew in
  Value <= r ∧ r mod Align = Skew mod Align ∧
  (∀ n, Value <= n → n mod Align = Skew mod Align → r <= n) ∧
  divideCeil Value Align * Align = alignTo Value Align 0.
Proof.
  intros HV HA Hm r. unfold r, divideCeil. rewrite !alignTo_eq by done. rewrite Zmod_0_l.
  pose proof (Z.mod_pos_bound Skew Align HA) as Hs. set (s := Skew mod Align) in *.
  pose proof (Z.div_mod (Value + Align - 1 - s) Align ltac:(lia)) as Hd.
  pose proof (Z.mod_pos_bound (Value + Align - 1 - s) Align HA) as Hb.
  set (q := (Value + Align - 1 - s) / Align) in *.
  split_and!; [lia| | |].
  - rewrite Z.add_comm, Z.mod_add by lia. apply Z.mod_small. lia.
  - intros n Hn Hnm. pose proof (Z.div_mod n Align ltac:(lia)) as Hdn. rewrite Hnm in Hdn.
    assert (q <= n / Align); [|nia]. assert (q < n / Align + 1); [|lia].
    apply Z.mul_lt_mono_pos_l with (p := Align); [done|]. lia.
  - rewrite Z.add_0_r, Z.div_mul by lia. done.
Qed.

Lemma alignTo_least_witness :
  alignTo 321 255 42 = 552 ∧ (∀ n, 321 <= n → n mod 255 = 42 mod 255 → 552 <= n).
Proof.
  split; [reflexivity|].
  apply (alignTo_least 321 255 42); [lia|lia|unfold u64_max; lia].
Defined.

(** ** Trailing zeros. *)
Lemma ctz_pos_nonneg p : 0 <= ctz_pos p.
Proof. induction p; simpl; lia. Qed.

Lemma ctz_decomp p : ∃ m, 0 <= m ∧ Zpos p = 2 ^ ctz_pos p * (2 * m + 1).
Proof.
  induction p as [p _|p (m & Hm & IH)|]; simpl.
  - exists (Zpos p). lia.
  - exists m. split; [done|]. rewrite Z.pow_add_r by (lia || apply ctz_pos_nonneg).
    rewrite Pos2Z.inj_xO, IH. ring.
  - exists 0. lia.
Qed.

Lemma builtin_ctzll_decomp x : 0 < x →
  ∃ m, 0 <= m ∧ 0 <= builtin_ctzll x ∧ x = 2 ^ builtin_ctzll x * (2 * m + 1).
Proof.
  intros Hx. destruct x as [|p|p]; try lia. destruct (ctz_decomp p) as (m & Hm & E).
  exists m. split_and!; [done|apply ctz_pos_nonneg|exact E].
Qed.

Lemma builtin_ctzll_unique x c m :
  0 <= c → 0 <= m → x = 2 ^ c * (2 * m + 1) → builtin_ctzll x = c.
Proof.
  intros Hc Hm E. assert (0 < x) as Hx by (subst; pose proof (Z.pow_pos_nonneg 2 c); nia).
  destruct (builtin_ctzll_decomp x Hx) as (m' & Hm' & Hc' & E'). set (c' := builtin_ctzll x) in *.
  rewrite E in E'. destruct (Z.lt_trichotomy c' c) as [Hlt|[|Hlt]]; [exfalso|done|exfalso].
  - replace c with (c' + (1 + (c - c' - 1))) in E' by lia.
    rewrite !Z.pow_add_r in E' by lia. pose proof (Z.pow_pos_nonneg 2 c' ltac:(lia) Hc').
    change (2 ^ 1) with 2 in E'. set (w := 2 ^ (c - c' - 1)) in *.
    assert (2 * w * (2 * m + 1) = 2 * m' + 1) by nia. lia.
  - replace c' with (c + (1 + (c' - c - 1))) in E' by lia.
    rewrite !Z.pow_add_r in E' by lia. pose proof (Z.pow_pos_nonneg 2 c ltac:(lia) Hc).
    change (2 ^ 1) with 2 in E'. set (w := 2 ^ (c' - c - 1)) in *.
    assert (2 * m + 1 = 2 * w * (2 * m' + 1)) by nia. lia.
Qed.

Lemma low_bits_zero x s : 0 < x → 0 <= s →
  (Z.land x (2 ^ s - 1) =? 0) = (s <=? builtin_ctzll x).
Proof.
  intros Hx Hs. destruct (builtin_ctzll_decomp x Hx) as (m & Hm & Hc & E).
  set (c := builtin_ctzll x) in *. rewrite Z.sub_1_r, <- Z.ones_equiv, Z.land_ones by done.
  pose proof (Z.pow_pos_nonneg 2 c ltac:(lia) Hc). destruct (Z.leb_spec s c).
  - apply Z.eqb_eq. rewrite E. replace c with ((c - s) + s) by lia.
    rewrite Z.pow_add_r by lia. rewrite Z.mul_shuffle0, Z.mod_mul; [done|].
    pose proof (Z.pow_pos_nonneg 2 s). lia.
  - apply Z.eqb_neq. intros Hz. apply Z.mod_divide in Hz; [|pose proof (Z.pow_pos_nonneg 2 s); lia].
    destruct Hz as [k Hk]. rewrite E in Hk. replace s with (c + (1 + (s - c - 1))) in Hk by lia.
    rewrite !Z.pow_add_r in Hk by lia. change (2 ^ 1) with 2 in Hk. set (w := 2 ^ (s - c - 1)) in *.
    assert (2 * m + 1 = 2 * (k * w)) by nia. lia.
Qed.

Lemma shiftr_ctz x s : 0 < x → 0 <= s <= builtin_ctzll x →
  0 < Z.shiftr x s ∧ builtin_ctzll (Z.shiftr x s) = builtin_ctzll x - s.
Proof.
  intros Hx Hs. destruct (builtin_ctzll_decomp x Hx) as (m & Hm & Hc & E).
  set (c := builtin_ctzll x) in *.
  assert (Z.shiftr x s = 2 ^ (c - s) * (2 * m + 1)) as Es.
  { rewrite Z.shiftr_div_pow2 by lia. rewrite E. replace c with (s + (c - s)) at 1 by lia.
    rewrite Z.pow_add_r, <- Z.mul_assoc, Z.mul_comm by lia.
    apply Z.div_mul. pose proof (Z.pow_pos_nonneg 2 s). lia. }
  split; [|apply (builtin_ctzll_unique _ _ m); [lia|done|done]].
  rewrite Es. pose proof (Z.pow_pos_nonneg 2 (c - s)). nia.
Qed.

Lemma lor_add a k : 0 <= k → a mod 2 ^ (k + 1) = 0 → Z.lor a (2 ^ k) = a + 2 ^ k.
Proof.
  intros Hk Ha. rewrite <- Z.add_lor_land.
  assert (Z.land a (2 ^ k) = 0) as ->; [|lia].
  rewrite land_pow2 by done. destruct (Z.testbit a k) eqn:E; [|done].
  rewrite <- (Z.mod_pow2_bits_low a (k + 1)) in E by lia. by rewrite Ha, Z.bits_0 in E.
Qed.

(** The bisection with [Shift = 2^(k - 1)] on a value whose zeros are fewer
    than [2^k]. *)
Lemma ctz_bisect_spec k : ∀ fuel Val ZeroBits,
  (k <= fuel)%nat → 0 < Val → builtin_ctzll Val < 2 ^ Z.of_nat k →
  ZeroBits mod 2 ^ Z.of_nat k = 0 →
  let Shift := if (k =? 0)%nat then 0 else 2 ^ (Z.of_nat k - 1) in
  ∀ Mask, (k ≠ 0%nat → Mask = 2 ^ Shift - 1) →
  ctz_bisect fuel Val Shift Mask ZeroBits = ZeroBits + builtin_ctzll Val.
Proof.
  induction k as [|k IH]; intros fuel Val ZB Hf HV Hc Hz Shift Mask HM.
  { unfold Shift. simpl. destruct (builtin_ctzll_decomp Val HV) as (m & _ & H0 & _).
    change (2 ^ Z.of_nat 0) with 1 in Hc. destruct fuel; simpl; lia. }
  destruct fuel as [|fuel]; [lia|]. unfold Shift in *. clear Shift.
  replace (Z.of_nat (S k) - 1) with (Z.of_nat k) in * by lia. cbn [Nat.eqb] in *.
  rewrite HM by done. set (sh := 2 ^ Z.of_nat k) in *.
  assert (0 < sh) by (apply Z.pow_pos_nonneg; lia).
  assert (2 ^ Z.of_nat (S k) = 2 * sh) as E2.
  { unfold sh. rewrite Nat2Z.inj_succ, Z.pow_succ_r by lia. done. }
  cbn [ctz_bisect]. destruct (Z.eqb_spec sh 0); [lia|].
  rewrite low_bits_zero by lia.
  assert (∀ s, s = sh → Z.shiftr s 1 = if (k =? 0)%nat then 0 else 2 ^ (Z.of_nat k - 1)) as Hsh.
  { intros s ->. unfold sh. destruct k as [|k]; [done|]. cbn [Nat.eqb].
    rewrite Z.shiftr_div_pow2, <- Z.pow_sub_r by lia. done. }
  rewrite (Hsh sh eq_refl).
  assert (ZB mod sh = 0) as Hz'.
  { rewrite E2 in Hz. apply Z.mod_divide in Hz as [q Hq]; [|lia].
    apply Z.mod_divide; [lia|]. exists (q * 2). lia. }
  assert (∀ M, M = Z.shiftr (2 ^ sh - 1) (if (k =? 0)%nat then 0 else 2 ^ (Z.of_nat k - 1)) →
    k ≠ 0%nat → M = 2 ^ (if (k =? 0)%nat then 0 else 2 ^ (Z.of_nat k - 1)) - 1) as HMask.
  { intros M -> Hk. destruct k as [|k]; [done|]. cbn [Nat.eqb]. unfold sh.
    rewrite Nat2Z.inj_succ, Z.pow_succ_r, Z.sub_1_r, <- Z.ones_equiv by lia.
    replace (Z.succ (Z.of_nat k) - 1) with (Z.of_nat k) by lia.
    set (h := 2 ^ Z.of_nat k). assert (0 < h) by (apply Z.pow_pos_nonneg; lia).
    rewrite Z.shiftr_div_pow2, Z.ones_div_pow2, Z.ones_equiv by lia.
    rewrite Z.sub_1_r. do 2 f_equal. lia. }
  destruct (Z.leb_spec sh (builtin_ctzll Val)).
  - destruct (shiftr_ctz Val sh HV ltac:(lia)) as [Hp Hcs].
    rewrite (IH fuel (Z.shiftr Val sh)); [|lia|done|lia| |by apply HMask].
    + rewrite Hcs. unfold sh. rewrite lor_add; [lia|lia|].
      rewrite Z.add_1_r, <- Nat2Z.inj_succ. done.
    + unfold sh. rewrite lor_add; [|lia|by rewrite Z.add_1_r, <- Nat2Z.inj_succ].
      fold sh. rewrite Z.add_mod, Hz', Z.mod_same, Z.mod_0_l by lia. done.
  - rewrite (IH fuel Val); [done|lia|done|done|done|by apply HMask].
Qed.

(**  The bisection that counts trailing zeros of a type without a builtin
    returns the position of the lowest set bit at every width 2^k, and the
    width on zero. *)
Theorem TrailingZerosCounter_count_spec k Val :
  (1 <= k)%nat → 0 <= Val < 2 ^ (2 ^ Z.of_nat k) →
  TrailingZerosCounter_count (2 ^ Z.of_nat k) Val
  = if Val =? 0 then 2 ^ Z.of_nat k else builtin_ctzll Val.
Proof.
  intros Hk HV. unfold TrailingZerosCounter_count. destruct (Z.eqb_spec Val 0); [done|].
  destruct (builtin_ctzll_decomp Val ltac:(lia)) as (m & Hm & Hc & E).
  destruct (Z.eqb_spec (Z.land Val 1) 1) as [E1|E1].
  { symmetry. change (Z.land Val 1) with (Z.land Val (Z.ones 1)) in E1. rewrite Z.land_ones in E1 by lia. change (2 ^ 1) with 2 in E1.
    apply (builtin_ctzll_unique _ _ (Val / 2)); [lia|apply Z.div_pos; lia|].
    pose proof (Z.div_mod Val 2). lia. }
  set (w := 2 ^ Z.of_nat k) in *.
  assert (Z.of_nat k < w) by (apply Z.pow_gt_lin_r; lia).
  assert (builtin_ctzll Val < w) as Hcw.
  { apply (Z.pow_lt_mono_r_iff 2); [lia|lia|]. rewrite E in HV.
    pose proof (Z.pow_pos_nonneg 2 (builtin_ctzll Val)). nia. }
  assert (Z.shiftr w 1 = if (k =? 0)%nat then 0 else 2 ^ (Z.of_nat k - 1)) as Hsh.
  { destruct k as [|k]; [lia|]. cbn [Nat.eqb]. unfold w.
    rewrite Z.shiftr_div_pow2, <- Z.pow_sub_r by lia. done. }
  rewrite Hsh. rewrite (ctz_bisect_spec k); [lia|lia|lia|done|by rewrite Z.mod_0_l by lia|].
  intros _. rewrite <- Hsh. destruct k as [|k]; [lia|]. cbn [Nat.eqb] in Hsh.
  replace (Z.of_nat (S k) - 1) with (Z.of_nat k) in Hsh by lia.
  assert (w = 2 * 2 ^ Z.of_nat k) as Ew by (unfold w; rewrite Nat2Z.inj_succ, Z.pow_succ_r by lia; done).
  rewrite Hsh, Ew. set (h := 2 ^ Z.of_nat k) in *. assert (0 < h) by (apply Z.pow_pos_nonneg; lia).
  rewrite Z.sub_1_r, <- Z.ones_equiv, Z.shiftr_div_pow2, Z.ones_div_pow2, Z.ones_equiv by lia.
  rewrite Z.sub_1_r. do 2 f_equal. lia.
Qed.

Lemma TrailingZerosCounter_count_spec_witness :
  TrailingZerosCounter_count 16 40960 = 13.
Proof.
  refine (eq_trans (TrailingZerosCounter_count_spec 4 40960 _ _) _); [lia|lia|reflexivity].
Defined.

(** ** Powers of two. *)

(** After the shifts by 1, 2, ..., n / 2 a bit is set when one of the [n] bits
    from it upwards was. *)
Definition smeared (n A a : Z) : Prop :=
  ∀ i, 0 <= i → Z.testbit a i = true ↔ ∃ j, 0 <= j < n ∧ Z.testbit A (i + j) = true.

Lemma smeared_step n A a : 0 < n → smeared n A a → smeared (2 * n) A (Z.lor a (Z.shiftr a n)).
Proof.
  intros Hn Hs i Hi. rewrite Z.lor_spec, Z.shiftr_spec, orb_true_iff by lia.
  rewrite (Hs i Hi), (Hs (i + n) ltac:(lia)). split.
  - intros [(j & Hj & Hb)|(j & Hj & Hb)]; [exists j|exists (n + j)]; (split; [lia|]); [done|].
    by rewrite Z.add_assoc.
  - intros (j & Hj & Hb). destruct (Z.ltb_spec j n); [left; exists j; split; [lia|done]|right].
    exists (j - n). split; [lia|]. by replace (i + n + (j - n)) with (i + j) by lia.
Qed.

Lemma NextPowerOf2_eq A : 0 < A → is_u64 A → NextPowerOf2 A = to_u64 (2 ^ (Z.log2 A + 1)).
Proof.
  intros HA Hu. unfold NextPowerOf2, add64. cbv zeta.
  assert (smeared 1 A A) as H1.
  { intros i Hi. split; [intros; exists 0; rewrite Z.add_0_r; by split|].
    intros (j & Hj & Hb). by replace (i + j) with i in Hb by lia. }
  set (a1 := Z.lor A (Z.shiftr A 1)). apply smeared_step in H1; [|done]. fold a1 in H1.
  set (a2 := Z.lor a1 (Z.shiftr a1 2)). apply smeared_step in H1; [|done].
  set (a3 := Z.lor a2 (Z.shiftr a2 4)). apply smeared_step in H1; [|done].
  set (a4 := Z.lor a3 (Z.shiftr a3 8)). apply smeared_step in H1; [|done].
  set (a5 := Z.lor a4 (Z.shiftr a4 16)). apply smeared_step in H1; [|done].
  set (a := Z.lor a5 (Z.shiftr a5 32)). apply smeared_step in H1; [|done].
  change (smeared 64 A a) in H1. clearbody a.
  assert (a = Z.ones (Z.log2 A + 1)) as Ea; [|rewrite Ea, Z.ones_equiv; f_equal; lia].
  assert (Z.log2 A < 64) by (apply Z.log2_lt_pow2; unfold is_u64, u64_max in Hu; lia).
  pose proof (Z.log2_nonneg A). apply Z.bits_inj'. intros i Hi. apply eq_true_iff_eq.
  rewrite (H1 i Hi), Z.ones_spec_iff by lia. split.
  - intros (j & Hj & Hb). split; [done|]. destruct (Z.lt_ge_cases (Z.log2 A) (i + j)); [|lia].
    by rewrite Z.bits_above_log2 in Hb by lia.
  - intros Hlt. exists (Z.log2 A - i). split; [lia|].
    replace (i + (Z.log2 A - i)) with (Z.log2 A) by lia. by apply Z.bit_log2.
Qed.

Lemma land_pred_zero v : 0 < v → Z.land v (v - 1) = 0 ↔ v = 2 ^ Z.log2 v.
Proof.
  intros Hv. pose proof (log2_bounds v Hv) as Hb. pose proof (Z.log2_nonneg v) as Hl. split.
  - intros H0. destruct (Z.eq_dec v (2 ^ Z.log2 v)) as [|Hne]; [done|exfalso].
    assert (Z.testbit (Z.land v (v - 1)) (Z.log2 v) = true) as Hbit.
    { rewrite Z.land_spec, Z.bit_log2 by done. simpl.
      assert (Z.log2 (v - 1) = Z.log2 v) as E by (apply Z.log2_unique; rewrite ?Z.pow_succ_r; lia).
      rewrite <- E. apply Z.bit_log2. lia. }
    by rewrite H0, Z.bits_0 in Hbit.
  - intros E. set (k := Z.log2 v) in *. clearbody k. subst v.
    rewrite Z.sub_1_r, <- Z.ones_equiv, Z.land_ones by done. apply Z.mod_same. lia.
Qed.

(**  The power-of-two helpers: the test accepts exactly the powers of two,
    [NextPowerOf2] is the next one strictly above (0 when it does not fit), and
    the floor and ceil are the nearest powers of two. *)
Theorem power_of_two_helpers A :
  is_u64 A →
  (isPowerOf2_64 A = true ↔ ∃ k, 0 <= k < 64 ∧ A = 2 ^ k) ∧
  (0 < A → NextPowerOf2 A = to_u64 (2 ^ (Z.log2 A + 1)) ∧ A < 2 ^ (Z.log2 A + 1)) ∧
  (0 < A → PowerOf2Floor A <= A < 2 * PowerOf2Floor A ∧ isPowerOf2_64 (PowerOf2Floor A) = true) ∧
  (1 < A <= 2 ^ 63 → PowerOf2Ceil A < 2 * A ∧ A <= PowerOf2Ceil A ∧ isPowerOf2_64 (PowerOf2Ceil A) = true).
Proof.
  intros Hu.
  assert (∀ v, 0 < v → v <= u64_max → isPowerOf2_64 v = true ↔ v = 2 ^ Z.log2 v) as Hpow.
  { intros v Hv Hm. unfold isPowerOf2_64, sub64. rewrite to_u64_small by (unfold is_u64; lia).
    destruct (Z.eqb_spec v 0); [lia|]. simpl. rewrite Z.eqb_eq. by apply land_pred_zero. }
  assert (∀ k, 0 <= k < 64 → 0 < 2 ^ k <= u64_max) as Hr.
  { intros k Hk. pose proof (Z.pow_pos_nonneg 2 k).
    assert (2 ^ k <= 2 ^ 63) by (apply Z.pow_le_mono_r; lia). unfold u64_max. lia. }
  assert (∀ k, 0 <= k < 64 → isPowerOf2_64 (2 ^ k) = true) as Hpk.
  { intros k Hk. apply Hpow; [apply Hr; done..|]. by rewrite Z.log2_pow2 by lia. }
  assert (∀ v, 0 < v <= u64_max → 0 <= Z.log2 v < 64) as Hlog.
  { intros v Hv. split; [apply Z.log2_nonneg|]. apply Z.log2_lt_pow2; unfold u64_max in *; lia. }
  unfold is_u64 in Hu. split_and!.
  - split.
    + intros H. destruct (decide (A = 0)) as [->|]; [done|].
      exists (Z.log2 A). split; [apply Hlog; lia|]. apply Hpow; [lia..|done].
    + intros (k & Hk & ->). auto.
  - intros HA. split; [by apply NextPowerOf2_eq|]. pose proof (log2_bounds A HA).
    rewrite Z.pow_add_r by (lia || apply Z.log2_nonneg). lia.
  - intros HA. specialize (Hlog A ltac:(lia)). unfold PowerOf2Floor, builtin_clzll, shl64.
    destruct (Z.eqb_spec A 0); [lia|]. replace (63 - (63 - Z.log2 A)) with (Z.log2 A) by lia.
    specialize (Hr _ Hlog). rewrite Z.shiftl_1_l, to_u64_small by (unfold is_u64; lia).
    split; [|auto]. apply log2_bounds. lia.
  - intros HA. unfold PowerOf2Ceil, sub64. destruct (Z.eqb_spec A 0); [lia|].
    rewrite (to_u64_small (A - 1)) by (unfold is_u64; lia).
    rewrite NextPowerOf2_eq by (unfold is_u64; lia).
    pose proof (log2_bounds (A - 1) ltac:(lia)) as Hb.
    assert (Z.log2 (A - 1) < 63) by (apply Z.log2_lt_pow2; lia).
    pose proof (Z.log2_nonneg (A - 1)).
    destruct (Hr (Z.log2 (A - 1) + 1) ltac:(lia)).
    rewrite to_u64_small by (unfold is_u64; lia). split_and!; [| |apply Hpk; lia].
    all: rewrite Z.pow_add_r by lia; lia.
Qed.

Lemma power_of_two_helpers_witness :
  NextPowerOf2 (2 ^ 63) = 0 ∧ PowerOf2Ceil 1000 = 1024 ∧ 1000 <= PowerOf2Ceil 1000.
Proof.
  split_and!; [reflexivity|reflexivity|].
  apply (power_of_two_helpers 1000); [unfold is_u64, u64_max; lia|lia].
Defined.

Lemma gcd_loop_spec fuel : ∀ A B,
  0 <= A → 0 <= B → (Z.to_nat B < fuel)%nat → gcd_loop fuel A B = Some (Z.gcd A B).
Proof.
  induction fuel as [|fuel IH]; intros A B HA HB Hf; [lia|]. simpl.
  destruct (Z.eqb_spec B 0) as [->|Hne]; [by rewrite Z.gcd_0_r_nonneg|].
  pose proof (Z.mod_pos_bound A B ltac:(lia)).
  rewrite IH by lia. f_equal. rewrite Z.gcd_comm, Z.gcd_mod by lia. apply Z.gcd_comm.
Qed.

(** Euclid's loop ends: on operands of 64 bits [GreatestCommonDivisor64]
    returns within [B + 1] iterations, and what it returns is the greatest
    common divisor. *)
Theorem GreatestCommonDivisor64_terminates A B : is_u64 A → is_u64 B →
  GreatestCommonDivisor64 A B = Some (Z.gcd A B).
Proof. unfold is_u64. intros HA HB. apply gcd_loop_spec; lia. Qed.

Lemma GreatestCommonDivisor64_terminates_witness : GreatestCommonDivisor64 84 36 = Some 12.
Proof. rewrite (GreatestCommonDivisor64_terminates 84 36); [reflexivity|unfold is_u64, u64_max; lia..]. Defined.
