(* ===== verification/DispatchKey.v ===== *)
(** * Dispatch keys.

    The enumerations of c10/core/DispatchKey.h, with the per-backend keys its
    macros generate written out, the constexpr functions on them, and the
    conversions to and from strings of c10/core/DispatchKey.cpp. *)

From S2P Require Import Prelude SafeNum.

(** ** The enumerations. *)
Inductive BackendComponent : Type :=
  | InvalidBit
  | CPUBit | CUDABit | HIPBit | XLABit | MPSBit | IPUBit | XPUBit | HPUBit | VEBit | LazyBit
  | MTIABit | MAIABit | PrivateUse1Bit | PrivateUse2Bit | PrivateUse3Bit | MetaBit.

Inductive DispatchKey : Type :=
  | Undefined | Dense | FPGA | Vulkan | Metal | Quantized | CustomRNGKeyId | MkldnnCPU | Sparse
  | SparseCsr | NestedTensor | BackendSelect | Fake | Python | FuncTorchDynamicLayerBackMode
  | Functionalize | Named | Conjugate | Negative | ZeroTensor | ADInplaceOrView | AutogradOther
  | AutogradFunctionality | AutogradNestedTensor | Tracer | AutocastCPU | AutocastMTIA
  | AutocastMAIA | AutocastXPU | AutocastIPU | AutocastHPU | AutocastXLA | AutocastMPS
  | AutocastCUDA | AutocastPrivateUse1 | FuncTorchBatched | BatchedNestedTensor
  | FuncTorchVmapMode | Batched | VmapMode | FuncTorchGradWrapper | DeferredInit
  | PythonTLSSnapshot | FuncTorchDynamicLayerFrontMode | TESTING_ONLY_GenericWrapper
  | TESTING_ONLY_GenericMode | PreDispatch | PythonDispatcher | EndOfFunctionalityKeys
  | StartOfDenseBackends | CPU | CUDA | HIP | XLA | MPS | IPU | XPU | HPU | VE | Lazy | MTIA
  | MAIA | PrivateUse1 | PrivateUse2 | PrivateUse3 | Meta
  | StartOfQuantizedBackends | QuantizedCPU | QuantizedCUDA | QuantizedHIP | QuantizedXLA
  | QuantizedMPS | QuantizedIPU | QuantizedXPU | QuantizedHPU | QuantizedVE | QuantizedLazy
  | QuantizedMTIA | QuantizedMAIA | QuantizedPrivateUse1 | QuantizedPrivateUse2
  | QuantizedPrivateUse3 | QuantizedMeta
  | StartOfSparseBackends | SparseCPU | SparseCUDA | SparseHIP | SparseXLA | SparseMPS
  | SparseIPU | SparseXPU | SparseHPU | SparseVE | SparseLazy | SparseMTIA | SparseMAIA
  | SparsePrivateUse1 | SparsePrivateUse2 | SparsePrivateUse3 | SparseMeta
  | StartOfSparseCsrBackends | SparseCsrCPU | SparseCsrCUDA | SparseCsrHIP | SparseCsrXLA
  | SparseCsrMPS | SparseCsrIPU | SparseCsrXPU | SparseCsrHPU | SparseCsrVE | SparseCsrLazy
  | SparseCsrMTIA | SparseCsrMAIA | SparseCsrPrivateUse1 | SparseCsrPrivateUse2
  | SparseCsrPrivateUse3 | SparseCsrMeta
  | StartOfNestedTensorBackends | NestedTensorCPU | NestedTensorCUDA | NestedTensorHIP
  | NestedTensorXLA | NestedTensorMPS | NestedTensorIPU | NestedTensorXPU | NestedTensorHPU
  | NestedTensorVE | NestedTensorLazy | NestedTensorMTIA | NestedTensorMAIA
  | NestedTensorPrivateUse1 | NestedTensorPrivateUse2 | NestedTensorPrivateUse3
  | NestedTensorMeta
  | StartOfAutogradFunctionalityBackends | AutogradCPU | AutogradCUDA | AutogradHIP | AutogradXLA
  | AutogradMPS | AutogradIPU | AutogradXPU | AutogradHPU | AutogradVE | AutogradLazy
  | AutogradMTIA | AutogradMAIA | AutogradPrivateUse1 | AutogradPrivateUse2 | AutogradPrivateUse3
  | AutogradMeta
  | Autograd | CompositeImplicitAutograd | FuncTorchBatchedDecomposition
  | CompositeImplicitAutogradNestedTensor | CompositeExplicitAutograd
  | CompositeExplicitAutogradNonFunctional.

(** The enumerators in the order of their values. *)
Definition all_backend_components : list BackendComponent :=
  [InvalidBit; CPUBit; CUDABit; HIPBit; XLABit; MPSBit; IPUBit; XPUBit; HPUBit; VEBit; LazyBit; MTIABit;
   MAIABit; PrivateUse1Bit; PrivateUse2Bit; PrivateUse3Bit; MetaBit].

Definition all_dispatch_keys : list DispatchKey :=
  [Undefined; Dense; FPGA; Vulkan; Metal; Quantized; CustomRNGKeyId; MkldnnCPU; Sparse;
   SparseCsr; NestedTensor; BackendSelect; Fake; Python; FuncTorchDynamicLayerBackMode;
   Functionalize; Named; Conjugate; Negative; ZeroTensor; ADInplaceOrView; AutogradOther;
   AutogradFunctionality; AutogradNestedTensor; Tracer; AutocastCPU; AutocastMTIA; AutocastMAIA;
   AutocastXPU; AutocastIPU; AutocastHPU; AutocastXLA; AutocastMPS; AutocastCUDA;
   AutocastPrivateUse1; FuncTorchBatched; BatchedNestedTensor; FuncTorchVmapMode; Batched;
   VmapMode; FuncTorchGradWrapper; DeferredInit; PythonTLSSnapshot;
   FuncTorchDynamicLayerFrontMode; TESTING_ONLY_GenericWrapper; TESTING_ONLY_GenericMode;
   PreDispatch; PythonDispatcher; EndOfFunctionalityKeys; StartOfDenseBackends; CPU; CUDA; HIP;
   XLA; MPS; IPU; XPU; HPU; VE; Lazy; MTIA; MAIA; PrivateUse1; PrivateUse2; PrivateUse3; Meta;
   StartOfQuantizedBackends; QuantizedCPU; QuantizedCUDA; QuantizedHIP; QuantizedXLA;
   QuantizedMPS; QuantizedIPU; QuantizedXPU; QuantizedHPU; QuantizedVE; QuantizedLazy;
   QuantizedMTIA; QuantizedMAIA; QuantizedPrivateUse1; QuantizedPrivateUse2;
   QuantizedPrivateUse3; QuantizedMeta; StartOfSparseBackends; SparseCPU; SparseCUDA; SparseHIP;
   SparseXLA; SparseMPS; SparseIPU; SparseXPU; SparseHPU; SparseVE; SparseLazy; SparseMTIA;
   SparseMAIA; SparsePrivateUse1; SparsePrivateUse2; SparsePrivateUse3; SparseMeta;
   StartOfSparseCsrBackends; SparseCsrCPU; SparseCsrCUDA; SparseCsrHIP; SparseCsrXLA;
   SparseCsrMPS; SparseCsrIPU; SparseCsrXPU; SparseCsrHPU; SparseCsrVE; SparseCsrLazy;
   SparseCsrMTIA; SparseCsrMAIA; SparseCsrPrivateUse1; SparseCsrPrivateUse2;
   SparseCsrPrivateUse3; SparseCsrMeta; StartOfNestedTensorBackends; NestedTensorCPU;
   NestedTensorCUDA; NestedTensorHIP; NestedTensorXLA; NestedTensorMPS; NestedTensorIPU;
   NestedTensorXPU; NestedTensorHPU; NestedTensorVE; NestedTensorLazy; NestedTensorMTIA;
   NestedTensorMAIA; NestedTensorPrivateUse1; NestedTensorPrivateUse2; NestedTensorPrivateUse3;
   NestedTensorMeta; StartOfAutogradFunctionalityBackends; AutogradCPU; AutogradCUDA;
   AutogradHIP; AutogradXLA; AutogradMPS; AutogradIPU; AutogradXPU; AutogradHPU; AutogradVE;
   AutogradLazy; AutogradMTIA; AutogradMAIA; AutogradPrivateUse1; AutogradPrivateUse2;
   AutogradPrivateUse3; AutogradMeta; Autograd; CompositeImplicitAutograd;
   FuncTorchBatchedDecomposition; CompositeImplicitAutogradNestedTensor;
   CompositeExplicitAutograd; CompositeExplicitAutogradNonFunctional].

(** The value of an enumerator. *)
Definition bc_val (b : BackendComponent) : Z :=
  match b with
  | InvalidBit => 0 | CPUBit => 1 | CUDABit => 2 | HIPBit => 3 | XLABit => 4 | MPSBit => 5
  | IPUBit => 6 | XPUBit => 7 | HPUBit => 8 | VEBit => 9 | LazyBit => 10 | MTIABit => 11
  | MAIABit => 12 | PrivateUse1Bit => 13 | PrivateUse2Bit => 14 | PrivateUse3Bit => 15
  | MetaBit => 16
  end.

Definition dk_val (k : DispatchKey) : Z :=
  match k with
  | Undefined => 0 | Dense => 1 | FPGA => 2 | Vulkan => 3 | Metal => 4 | Quantized => 5
  | CustomRNGKeyId => 6 | MkldnnCPU => 7 | Sparse => 8 | SparseCsr => 9 | NestedTensor => 10
  | BackendSelect => 11 | Fake => 12 | Python => 13 | FuncTorchDynamicLayerBackMode => 14
  | Functionalize => 15 | Named => 16 | Conjugate => 17 | Negative => 18 | ZeroTensor => 19
  | ADInplaceOrView => 20 | AutogradOther => 21 | AutogradFunctionality => 22
  | AutogradNestedTensor => 23 | Tracer => 24 | AutocastCPU => 25 | AutocastMTIA => 26
  | AutocastMAIA => 27 | AutocastXPU => 28 | AutocastIPU => 29 | AutocastHPU => 30
  | AutocastXLA => 31 | AutocastMPS => 32 | AutocastCUDA => 33 | AutocastPrivateUse1 => 34
  | FuncTorchBatched => 35 | BatchedNestedTensor => 36 | FuncTorchVmapMode => 37 | Batched => 38
  | VmapMode => 39 | FuncTorchGradWrapper => 40 | DeferredInit => 41 | PythonTLSSnapshot => 42
  | FuncTorchDynamicLayerFrontMode => 43 | TESTING_ONLY_GenericWrapper => 44
  | TESTING_ONLY_GenericMode => 45 | PreDispatch => 46 | PythonDispatcher => 47
  | EndOfFunctionalityKeys => 48 | StartOfDenseBackends => 49 | CPU => 50 | CUDA => 51
  | HIP => 52 | XLA => 53 | MPS => 54 | IPU => 55 | XPU => 56 | HPU => 57 | VE => 58 | Lazy => 59
  | MTIA => 60 | MAIA => 61 | PrivateUse1 => 62 | PrivateUse2 => 63 | PrivateUse3 => 64
  | Meta => 65 | StartOfQuantizedBackends => 66 | QuantizedCPU => 67 | QuantizedCUDA => 68
  | QuantizedHIP => 69 | QuantizedXLA => 70 | QuantizedMPS => 71 | QuantizedIPU => 72
  | QuantizedXPU => 73 | QuantizedHPU => 74 | QuantizedVE => 75 | QuantizedLazy => 76
  | QuantizedMTIA => 77 | QuantizedMAIA => 78 | QuantizedPrivateUse1 => 79
  | QuantizedPrivateUse2 => 80 | QuantizedPrivateUse3 => 81 | QuantizedMeta => 82
  | StartOfSparseBackends => 83 | SparseCPU => 84 | SparseCUDA => 85 | SparseHIP => 86
  | SparseXLA => 87 | SparseMPS => 88 | SparseIPU => 89 | SparseXPU => 90 | SparseHPU => 91
  | SparseVE => 92 | SparseLazy => 93 | SparseMTIA => 94 | SparseMAIA => 95
  | SparsePrivateUse1 => 96 | SparsePrivateUse2 => 97 | SparsePrivateUse3 => 98
  | SparseMeta => 99 | StartOfSparseCsrBackends => 100 | SparseCsrCPU => 101
  | SparseCsrCUDA => 102 | SparseCsrHIP => 103 | SparseCsrXLA => 104 | SparseCsrMPS => 105
  | SparseCsrIPU => 106 | SparseCsrXPU => 107 | SparseCsrHPU => 108 | SparseCsrVE => 109
  | SparseCsrLazy => 110 | SparseCsrMTIA => 111 | SparseCsrMAIA => 112
  | SparseCsrPrivateUse1 => 113 | SparseCsrPrivateUse2 => 114 | SparseCsrPrivateUse3 => 115
  | SparseCsrMeta => 116 | StartOfNestedTensorBackends => 117 | NestedTensorCPU => 118
  | NestedTensorCUDA => 119 | NestedTensorHIP => 120 | NestedTensorXLA => 121
  | NestedTensorMPS => 122 | NestedTensorIPU => 123 | NestedTensorXPU => 124
  | NestedTensorHPU => 125 | NestedTensorVE => 126 | NestedTensorLazy => 127
  | NestedTensorMTIA => 128 | NestedTensorMAIA => 129 | NestedTensorPrivateUse1 => 130
  | NestedTensorPrivateUse2 => 131 | NestedTensorPrivateUse3 => 132 | NestedTensorMeta => 133
  | StartOfAutogradFunctionalityBackends => 134 | AutogradCPU => 135 | AutogradCUDA => 136
  | AutogradHIP => 137 | AutogradXLA => 138 | AutogradMPS => 139 | AutogradIPU => 140
  | AutogradXPU => 141 | AutogradHPU => 142 | AutogradVE => 143 | AutogradLazy => 144
  | AutogradMTIA => 145 | AutogradMAIA => 146 | AutogradPrivateUse1 => 147
  | AutogradPrivateUse2 => 148 | AutogradPrivateUse3 => 149 | AutogradMeta => 150
  | Autograd => 151 | CompositeImplicitAutograd => 152 | FuncTorchBatchedDecomposition => 153
  | CompositeImplicitAutogradNestedTensor => 154 | CompositeExplicitAutograd => 155
  | CompositeExplicitAutogradNonFunctional => 156
  end.

(** [static_cast] to an enumeration, from the value of an enumerator. *)
Definition to_bc (z : Z) : BackendComponent := nth (Z.to_nat z) all_backend_components InvalidBit.
Definition to_dk (z : Z) : DispatchKey := nth (Z.to_nat z) all_dispatch_keys Undefined.

(** [static_cast<uint8_t>]. *)
Definition to_u8 (z : Z) : Z := z mod 2 ^ 8.

Definition bc_eqb (a b : BackendComponent) : bool := bc_val a =? bc_val b.
Definition dk_eqb (a b : DispatchKey) : bool := dk_val a =? dk_val b.
Definition dk_leb (a b : DispatchKey) : bool := dk_val a <=? dk_val b.

(** The enumerators that are other names of a value. *)
Definition CatchAll := Undefined.
Definition EndOfDenseBackends := Meta.
Definition EndOfQuantizedBackends := QuantizedMeta.
Definition EndOfSparseBackends := SparseMeta.
Definition EndOfSparseCsrBackends := SparseCsrMeta.
Definition EndOfNestedTensorBackends := NestedTensorMeta.
Definition EndOfAutogradFunctionalityBackends := AutogradMeta.
Definition EndOfBackendKeys := MetaBit.
Definition EndOfRuntimeBackendKeys := EndOfAutogradFunctionalityBackends.
Definition StartOfAliasKeys := Autograd.
Definition EndOfAliasKeys := CompositeExplicitAutogradNonFunctional.

(** ** Functions on keys. *)
Definition isAliasDispatchKey (k : DispatchKey) : bool :=
  dk_leb StartOfAliasKeys k && dk_leb k EndOfAliasKeys.

Definition isPerBackendFunctionalityKey (k : DispatchKey) : bool :=
  dk_eqb k Dense || dk_eqb k Quantized || dk_eqb k Sparse || dk_eqb k SparseCsr
  || dk_eqb k AutogradFunctionality || dk_eqb k NestedTensor.

Definition num_functionality_keys : Z := dk_val EndOfFunctionalityKeys.
Definition num_backends : Z := bc_val EndOfBackendKeys.

Definition numPerBackendFunctionalityKeys : Z :=
  foldl (fun count k => if isPerBackendFunctionalityKey (to_dk (Z.of_nat k)) then count + 1 else count)
    0 (seq 0 (S (Z.to_nat num_functionality_keys))).

Definition num_runtime_entries : Z :=
  num_functionality_keys + numPerBackendFunctionalityKeys * (num_backends - 1).

Definition full_backend_mask : Z := (Z.shiftl 1 num_backends - 1) mod 2 ^ 16.

Definition toBackendComponent (k : DispatchKey) : BackendComponent :=
  if dk_leb StartOfDenseBackends k && dk_leb k EndOfDenseBackends then
    to_bc (to_u8 (dk_val k) - to_u8 (dk_val StartOfDenseBackends))
  else if dk_leb StartOfQuantizedBackends k && dk_leb k EndOfQuantizedBackends then
    to_bc (to_u8 (dk_val k) - to_u8 (dk_val StartOfQuantizedBackends))
  else if dk_leb StartOfSparseBackends k && dk_leb k EndOfSparseBackends then
    to_bc (to_u8 (dk_val k) - to_u8 (dk_val StartOfSparseBackends))
  else if dk_leb StartOfSparseCsrBackends k && dk_leb k EndOfSparseCsrBackends then
    to_bc (to_u8 (dk_val k) - to_u8 (dk_val StartOfSparseCsrBackends))
  else if dk_leb StartOfNestedTensorBackends k && dk_leb k EndOfNestedTensorBackends then
    to_bc (to_u8 (dk_val k) - to_u8 (dk_val StartOfNestedTensorBackends))
  else if dk_leb StartOfAutogradFunctionalityBackends k && dk_leb k EndOfAutogradFunctionalityBackends then
    to_bc (to_u8 (dk_val k) - to_u8 (dk_val StartOfAutogradFunctionalityBackends))
  else InvalidBit.

Definition toFunctionalityKey (k : DispatchKey) : DispatchKey :=
  if dk_leb k EndOfFunctionalityKeys then k
  else if dk_leb k EndOfDenseBackends then Dense
  else if dk_leb k EndOfQuantizedBackends then Quantized
  else if dk_leb k EndOfSparseBackends then Sparse
  else if dk_leb k EndOfSparseCsrBackends then SparseCsr
  else if dk_leb k EndOfNestedTensorBackends then NestedTensor
  else if dk_leb k EndOfAutogradFunctionalityBackends then AutogradFunctionality
  else Undefined.

Definition toRuntimePerBackendFunctionalityKey (functionality_k : DispatchKey)
    (backend_k : BackendComponent) : DispatchKey :=
  if dk_eqb functionality_k Dense then
    to_dk (to_u8 (dk_val StartOfDenseBackends) + to_u8 (bc_val backend_k))
  else if dk_eqb functionality_k Sparse then
    to_dk (to_u8 (dk_val StartOfSparseBackends) + to_u8 (bc_val backend_k))
  else if dk_eqb functionality_k SparseCsr then
    to_dk (to_u8 (dk_val StartOfSparseCsrBackends) + to_u8 (bc_val backend_k))
  else if dk_eqb functionality_k Quantized then
    to_dk (to_u8 (dk_val StartOfQuantizedBackends) + to_u8 (bc_val backend_k))
  else if dk_eqb functionality_k NestedTensor then
    to_dk (to_u8 (dk_val StartOfNestedTensorBackends) + to_u8 (bc_val backend_k))
  else if dk_eqb functionality_k AutogradFunctionality then
    to_dk (to_u8 (dk_val StartOfAutogradFunctionalityBackends) + to_u8 (bc_val backend_k))
  else Undefined.

(** ** Strings. *)
Definition toString_bc (t : BackendComponent) : string :=
  match t with
  | CPUBit => "CPUBit"
  | CUDABit => "CUDABit"
  | HIPBit => "HIPBit"
  | XLABit => "XLABit"
  | LazyBit => "LazyBit"
  | MetaBit => "MetaBit"
  | XPUBit => "XPUBit"
  | IPUBit => "IPUBit"
  | MPSBit => "MPSBit"
  | HPUBit => "HPUBit"
  | VEBit => "VEBit"
  | MTIABit => "MTIA"
  | MAIABit => "MAIA"
  | PrivateUse1Bit => "PrivateUse1Bit"
  | PrivateUse2Bit => "PrivateUse2Bit"
  | PrivateUse3Bit => "PrivateUse3Bit"
  | InvalidBit => "InvalidBit"
  end.

(** The names [ENTRY] makes from a backend component. *)
Definition backend_name (bc : BackendComponent) : option string :=
  match bc with
  | InvalidBit => None
  | CPUBit => Some "CPU" | CUDABit => Some "CUDA" | HIPBit => Some "HIP" | XLABit => Some "XLA"
  | MPSBit => Some "MPS" | IPUBit => Some "IPU" | XPUBit => Some "XPU" | HPUBit => Some "HPU"
  | VEBit => Some "VE" | LazyBit => Some "Lazy" | MTIABit => Some "MTIA" | MAIABit => Some "MAIA"
  | PrivateUse1Bit => Some "PrivateUse1" | PrivateUse2Bit => Some "PrivateUse2"
  | PrivateUse3Bit => Some "PrivateUse3" | MetaBit => Some "Meta"
  end.

(** The default branch of [toString]: the prefix of the functionality and the
    name of the backend. *)
Definition per_backend_name (prefix : string) (bc : BackendComponent) : string :=
  match backend_name bc with
  | Some n => prefix +:+ n
  | None => prefix +:+ "Undefined"
  end.

Definition toString_default (t : DispatchKey) : string :=
  let bc := toBackendComponent t in
  match toFunctionalityKey t with
  | Dense => per_backend_name "" bc
  | Quantized => per_backend_name "Quantized" bc
  | Sparse => per_backend_name "Sparse" bc
  | SparseCsr => per_backend_name "SparseCsr" bc
  | NestedTensor => per_backend_name "NestedTensor" bc
  | AutogradFunctionality => per_backend_name "Autograd" bc
  | _ => match backend_name bc with
         | Some n => "Unknown" +:+ n
         | None => "UnknownUnknown"
         end
  end.

Definition toString (t : DispatchKey) : string :=
  match t with
  | Undefined => "Undefined" | Dense => "Dense" | FPGA => "FPGA" | MAIA => "MAIA"
  | Vulkan => "Vulkan" | Metal => "Metal" | Lazy => "Lazy" | MPS => "MPS" | HPU => "HPU"
  | MTIA => "MTIA" | Quantized => "Quantized" | QuantizedPrivateUse1 => "QuantizedPrivateUse1"
  | CustomRNGKeyId => "CustomRNGKeyId" | MkldnnCPU => "MkldnnCPU" | Sparse => "Sparse"
  | SparseCsr => "SparseCsr" | NestedTensor => "NestedTensor" | BackendSelect => "BackendSelect"
  | Python => "Python" | Fake => "Fake"
  | FuncTorchDynamicLayerBackMode => "FuncTorchDynamicLayerBackMode"
  | Functionalize => "Functionalize" | Named => "Named" | Conjugate => "Conjugate"
  | Negative => "Negative" | ZeroTensor => "ZeroTensor" | ADInplaceOrView => "ADInplaceOrView"
  | AutogradOther => "AutogradOther" | AutogradFunctionality => "AutogradFunctionality"
  | AutogradNestedTensor => "AutogradNestedTensor" | Tracer => "Tracer"
  | AutocastCPU => "AutocastCPU" | AutocastMTIA => "AutocastMTIA"
  | AutocastMAIA => "AutocastMAIA" | AutocastXPU => "AutocastXPU" | AutocastIPU => "AutocastIPU"
  | AutocastHPU => "AutocastHPU" | AutocastCUDA => "AutocastCUDA" | AutocastXLA => "AutocastXLA"
  | AutocastPrivateUse1 => "AutocastPrivateUse1" | AutocastMPS => "AutocastMPS"
  | FuncTorchBatched => "FuncTorchBatched" | BatchedNestedTensor => "BatchedNestedTensor"
  | FuncTorchVmapMode => "FuncTorchVmapMode" | Batched => "Batched" | VmapMode => "VmapMode"
  | FuncTorchGradWrapper => "FuncTorchGradWrapper" | DeferredInit => "DeferredInit"
  | PythonTLSSnapshot => "PythonTLSSnapshot"
  | FuncTorchDynamicLayerFrontMode => "FuncTorchDynamicLayerFrontMode"
  | TESTING_ONLY_GenericWrapper => "TESTING_ONLY_GenericWrapper"
  | TESTING_ONLY_GenericMode => "TESTING_ONLY_GenericMode" | PreDispatch => "PreDispatch"
  | PythonDispatcher => "PythonDispatcher" | Autograd => "Autograd"
  | CompositeImplicitAutograd => "CompositeImplicitAutograd"
  | CompositeImplicitAutogradNestedTensor => "CompositeImplicitAutogradNestedTensor"
  | CompositeExplicitAutograd => "CompositeExplicitAutograd"
  | CompositeExplicitAutogradNonFunctional => "CompositeExplicitAutogradNonFunctional"
  | FuncTorchBatchedDecomposition => "FuncTorchBatchedDecomposition"
  | _ => toString_default t
  end.

(** The table of [parseDispatchKey]. *)
Definition key_map : list (string * DispatchKey) :=
  [("Undefined", Undefined); ("Dense", Dense); ("FPGA", FPGA); ("MAIA", MAIA);
   ("Vulkan", Vulkan); ("Metal", Metal); ("VE", VE); ("Meta", Meta); ("Quantized", Quantized);
   ("CustomRNGKeyId", CustomRNGKeyId); ("MkldnnCPU", MkldnnCPU); ("Sparse", Sparse);
   ("SparseCsr", SparseCsr); ("BackendSelect", BackendSelect); ("Python", Python);
   ("PythonTLSSnapshot", PythonTLSSnapshot); ("Fake", Fake); ("Named", Named);
   ("Conjugate", Conjugate); ("Negative", Negative); ("ZeroTensor", ZeroTensor);
   ("FuncTorchDynamicLayerBackMode", FuncTorchDynamicLayerBackMode);
   ("Functionalize", Functionalize); ("ADInplaceOrView", ADInplaceOrView);
   ("AutogradOther", AutogradOther); ("AutogradFunctionality", AutogradFunctionality);
   ("AutogradNestedTensor", AutogradNestedTensor); ("Tracer", Tracer);
   ("AutocastCPU", AutocastCPU); ("AutocastMTIA", AutocastMTIA); ("AutocastMAIA", AutocastMAIA);
   ("AutocastXPU", AutocastXPU); ("AutocastIPU", AutocastIPU); ("AutocastHPU", AutocastHPU);
   ("AutocastCUDA", AutocastCUDA); ("AutocastXLA", AutocastXLA);
   ("AutocastPrivateUse1", AutocastPrivateUse1); ("AutocastMPS", AutocastMPS);
   ("FuncTorchBatched", FuncTorchBatched); ("BatchedNestedTensor", BatchedNestedTensor);
   ("FuncTorchVmapMode", FuncTorchVmapMode); ("Batched", Batched); ("VmapMode", VmapMode);
   ("DeferredInit", DeferredInit); ("FuncTorchGradWrapper", FuncTorchGradWrapper);
   ("FuncTorchDynamicLayerFrontMode", FuncTorchDynamicLayerFrontMode);
   ("TESTING_ONLY_GenericWrapper", TESTING_ONLY_GenericWrapper);
   ("TESTING_ONLY_GenericMode", TESTING_ONLY_GenericMode);
   ("PythonDispatcher", PythonDispatcher); ("PreDispatch", PreDispatch); ("CPU", CPU);
   ("CUDA", CUDA); ("HIP", HIP); ("XLA", XLA); ("MPS", MPS); ("XPU", XPU); ("IPU", IPU);
   ("HPU", HPU); ("Lazy", Lazy); ("MTIA", MTIA); ("NestedTensor", NestedTensor);
   ("NestedTensorCPU", NestedTensorCPU); ("NestedTensorCUDA", NestedTensorCUDA);
   ("NestedTensorXPU", NestedTensorXPU); ("NestedTensorHPU", NestedTensorHPU);
   ("NestedTensorMeta", NestedTensorMeta); ("NestedTensorPrivateUse1", NestedTensorPrivateUse1);
   ("PrivateUse1", PrivateUse1); ("PrivateUse2", PrivateUse2); ("PrivateUse3", PrivateUse3);
   ("QuantizedCPU", QuantizedCPU); ("QuantizedCUDA", QuantizedCUDA);
   ("QuantizedXPU", QuantizedXPU); ("QuantizedPrivateUse1", QuantizedPrivateUse1);
   ("SparseCPU", SparseCPU); ("SparseCUDA", SparseCUDA); ("SparseMPS", SparseMPS);
   ("SparseCsrMPS", SparseCsrMPS); ("SparseHIP", SparseHIP); ("SparseXPU", SparseXPU);
   ("SparseVE", SparseVE); ("SparseMeta", SparseMeta); ("SparsePrivateUse1", SparsePrivateUse1);
   ("SparseCsrCPU", SparseCsrCPU); ("SparseCsrCUDA", SparseCsrCUDA);
   ("SparseCsrHIP", SparseCsrHIP); ("SparseCsrXPU", SparseCsrXPU); ("SparseCsrVE", SparseCsrVE);
   ("SparseCsrMeta", SparseCsrMeta); ("SparseCsrPrivateUse1", SparseCsrPrivateUse1);
   ("AutogradCPU", AutogradCPU); ("AutogradCUDA", AutogradCUDA); ("AutogradXLA", AutogradXLA);
   ("AutogradLazy", AutogradLazy); ("AutogradMeta", AutogradMeta); ("AutogradIPU", AutogradIPU);
   ("AutogradXPU", AutogradXPU); ("AutogradMPS", AutogradMPS); ("AutogradHPU", AutogradHPU);
   ("AutogradPrivateUse1", AutogradPrivateUse1); ("AutogradPrivateUse2", AutogradPrivateUse2);
   ("AutogradPrivateUse3", AutogradPrivateUse3); ("Autograd", Autograd);
   ("CompositeImplicitAutograd", CompositeImplicitAutograd);
   ("CompositeImplicitAutogradNestedTensor", CompositeImplicitAutogradNestedTensor);
   ("CompositeExplicitAutograd", CompositeExplicitAutograd);
   ("CompositeExplicitAutogradNonFunctional", CompositeExplicitAutogradNonFunctional);
   ("FuncTorchBatchedDecomposition", FuncTorchBatchedDecomposition)].

Definition key_map_find (k : string) : option DispatchKey :=
  snd <$> find (fun e => String.eqb (fst e) k) key_map.
(** [std::transform] with [::toupper]. *)
Definition toupper_ascii (c : Ascii.ascii) : Ascii.ascii :=
  let n := Ascii.nat_of_ascii c in
  if (97 <=? n)%nat && (n <=? 122)%nat then Ascii.ascii_of_nat (n - 32) else c.
Fixpoint toupper (s : string) : string :=
  match s with
  | EmptyString => EmptyString
  | String c s' => String (toupper_ascii c) (toupper s')
  end.

Section Parse.
(** [std::regex_replace], used with the name of the private backend as the
    expression, and the registered name [c10::get_privateuse1_backend()]. *)
Context (regex_replace : string → string → string → string)
        (get_privateuse1_backend : string).

Definition parseDispatchKey (k : string) : result DispatchKey :=
  let it :=
    match key_map_find k with
    | Some d => Some d
    | None =>
        if negb (String.eqb get_privateuse1_backend "PrivateUse1") then
          let pu1_backend_name := toupper get_privateuse1_backend in
          let processed_k := regex_replace k pu1_backend_name "PrivateUse1" in
          key_map_find processed_k
        else None
    end in
  _ ← TORCH_CHECK (match it with Some _ => true | None => false end)
        "could not parse dispatch key: ";
  match it with Some d => Ok d | None => Throw (InternalAssert "key_map") end.
End Parse.

(** ** Enumerations as finite types. *)
Lemma to_dk_val k : to_dk (dk_val k) = k.
Proof. by destruct k. Qed.

Lemma to_bc_val b : to_bc (bc_val b) = b.
Proof. by destruct b. Qed.

#[export] Instance DispatchKey_eq_dec : EqDecision DispatchKey.
Proof.
  intros a b. destruct (decide (dk_val a = dk_val b)) as [E|E]; [left|right; congruence].
  by rewrite <- (to_dk_val a), E, to_dk_val.
Defined.

#[export] Instance BackendComponent_eq_dec : EqDecision BackendComponent.
Proof.
  intros a b. destruct (decide (bc_val a = bc_val b)) as [E|E]; [left|right; congruence].
  by rewrite <- (to_bc_val a), E, to_bc_val.
Defined.

Lemma dk_eqb_eq a b : dk_eqb a b = true ↔ a = b.
Proof.
  unfold dk_eqb. rewrite Z.eqb_eq. split; [|congruence].
  intros E. by rewrite <- (to_dk_val a), E, to_dk_val.
Qed.

Lemma In_all_dispatch_keys k : In k all_dispatch_keys.
Proof. rewrite <- (to_dk_val k). apply nth_In, Nat.ltb_lt. by destruct k. Qed.

Lemma In_all_backend_components b : In b all_backend_components.
Proof. rewrite <- (to_bc_val b). apply nth_In, Nat.ltb_lt. by destruct b. Qed.

(** A property of all keys, checked by computation. *)
Lemma all_keys_check (P : DispatchKey → bool) :
  forallb P all_dispatch_keys = true → ∀ k, P k = true.
Proof.
  intros H k. rewrite forallb_forall in H. apply H, In_all_dispatch_keys.
Qed.

(** The keys that own a slot of the operator table: functionalities that are
    not per-backend, and the per-backend instances. *)
Definition isRuntimeKey (k : DispatchKey) : bool :=
  if dk_leb k EndOfFunctionalityKeys
  then negb (isPerBackendFunctionalityKey k) && negb (dk_eqb k EndOfFunctionalityKeys)
  else dk_leb k EndOfRuntimeBackendKeys && negb (dk_eqb (toRuntimePerBackendFunctionalityKey
         (toFunctionalityKey k) InvalidBit) k).

Lemma runtime_key_split k :
  isRuntimeKey k = true → dk_leb k EndOfFunctionalityKeys = false →
  isPerBackendFunctionalityKey (toFunctionalityKey k) = true ∧
  toBackendComponent k ≠ InvalidBit ∧
  toRuntimePerBackendFunctionalityKey (toFunctionalityKey k) (toBackendComponent k) = k.
Proof.
  assert (forallb (fun k =>
      negb (isRuntimeKey k) || dk_leb k EndOfFunctionalityKeys ||
      (isPerBackendFunctionalityKey (toFunctionalityKey k) &&
       bool_decide (toBackendComponent k ≠ InvalidBit) &&
       bool_decide (toRuntimePerBackendFunctionalityKey (toFunctionalityKey k) (toBackendComponent k) = k)))
      all_dispatch_keys = true) as H by (vm_compute; reflexivity).
  apply all_keys_check with (k := k) in H. intros H1 H2. rewrite H1, H2 in H. simpl in H.
  rewrite !andb_true_iff, !bool_decide_eq_true in H. tauto.
Qed.

Lemma runtime_key_join f b :
  isPerBackendFunctionalityKey f = true → b ≠ InvalidBit →
  let k := toRuntimePerBackendFunctionalityKey f b in
  isRuntimeKey k = true ∧ toFunctionalityKey k = f ∧ toBackendComponent k = b.
Proof.
  assert (forallb (fun f =>
      forallb (fun b => negb (isPerBackendFunctionalityKey f) || bool_decide (b = InvalidBit) ||
        (let k := toRuntimePerBackendFunctionalityKey f b in
         isRuntimeKey k && bool_decide (toFunctionalityKey k = f) && bool_decide (toBackendComponent k = b)))
      all_backend_components) all_dispatch_keys = true) as H by (vm_compute; reflexivity).
  apply all_keys_check with (k := f) in H. rewrite forallb_forall in H.
  specialize (H b (In_all_backend_components b)).
  intros H1 H2 k. rewrite H1, bool_decide_eq_false_2 in H by done. simpl in H. fold k in H.
  rewrite !andb_true_iff, !bool_decide_eq_true in H. tauto.
Qed.

(**  The functions on per-backend keys invert each other: a per-backend
    runtime key is the one its functionality and backend name, and building a
    key from a per-backend functionality and a backend gives both back. *)
Theorem runtime_key_components :
  (∀ k, isRuntimeKey k = true → dk_leb k EndOfFunctionalityKeys = false →
     isPerBackendFunctionalityKey (toFunctionalityKey k) = true ∧
     toBackendComponent k ≠ InvalidBit ∧
     toRuntimePerBackendFunctionalityKey (toFunctionalityKey k) (toBackendComponent k) = k) ∧
  (∀ f b, isPerBackendFunctionalityKey f = true → b ≠ InvalidBit →
     let k := toRuntimePerBackendFunctionalityKey f b in
     isRuntimeKey k = true ∧ toFunctionalityKey k = f ∧ toBackendComponent k = b).
Proof. split; [apply runtime_key_split|apply runtime_key_join]. Qed.

Lemma runtime_key_components_witness :
  toRuntimePerBackendFunctionalityKey Sparse CUDABit = SparseCUDA ∧
  toBackendComponent SparseCUDA = CUDABit.
Proof.
  split; [reflexivity|].
  apply (proj2 runtime_key_components Sparse CUDABit eq_refl). discriminate.
Defined.

(**  Strings: [toString] is injective on the keys that are runtime keys,
    aliases or functionalities, and [parseDispatchKey] inverts it on every key
    of its table, whatever private backend is registered. *)
Theorem parse_toString rr pu1 :
  (∀ name k, In (name, k) key_map →
     toString k = name ∧ parseDispatchKey rr pu1 (toString k) = Ok k) ∧
  (∀ k1 k2, (isRuntimeKey k1 || isAliasDispatchKey k1 || isPerBackendFunctionalityKey k1) = true →
     (isRuntimeKey k2 || isAliasDispatchKey k2 || isPerBackendFunctionalityKey k2) = true →
     toString k1 = toString k2 → k1 = k2).
Proof.
  split.
  - assert (forallb (fun e => bool_decide (toString e.2 = e.1) &&
      bool_decide (key_map_find e.1 = Some e.2)) key_map = true) as Hall by (vm_compute; reflexivity).
    intros name k Hin. rewrite forallb_forall in Hall. specialize (Hall _ Hin). simpl in Hall.
    apply andb_true_iff in Hall as [E1%bool_decide_eq_true E2%bool_decide_eq_true].
    split; [done|]. unfold parseDispatchKey. by rewrite E1, E2.
  - intros k1 k2 H1 H2 E.
    assert (forallb (fun k1 => forallb (fun k2 =>
      negb (isRuntimeKey k1 || isAliasDispatchKey k1 || isPerBackendFunctionalityKey k1) ||
      negb (isRuntimeKey k2 || isAliasDispatchKey k2 || isPerBackendFunctionalityKey k2) ||
      negb (String.eqb (toString k1) (toString k2)) || dk_eqb k1 k2) all_dispatch_keys)
      all_dispatch_keys = true) as H by (vm_compute; reflexivity).
    apply all_keys_check with (k := k1) in H.
    rewrite forallb_forall in H. specialize (H k2 (In_all_dispatch_keys k2)).
    rewrite H1, H2, E, String.eqb_refl in H. by apply dk_eqb_eq.
Qed.

Lemma parse_toString_witness :
  parseDispatchKey (fun s _ _ => s) "PrivateUse1" "AutogradCUDA" = Ok AutogradCUDA ∧
  toString AutogradCUDA = "AutogradCUDA".
Proof.
  assert (In ("AutogradCUDA"%string, AutogradCUDA) key_map) as H by (simpl; tauto).
  destruct (proj1 (parse_toString (fun s _ _ => s) "PrivateUse1") _ _ H) as [E1 E2].
  split; [exact E2|exact E1].
Defined.
