(* ===== verification/DispatchKeySet.v ===== *)
(** * Sets of dispatch keys.

    c10/core/DispatchKeySet.h and DispatchKeySet.cpp: the 64-bit
    representation, the operator table index, the iterator over the runtime
    keys of a set, and the resolution of alias keys. *)

From S2P Require Import Prelude SafeNum BitMath DispatchKey.

(** The representation [repr_], an [uint64_t]. *)
Definition DispatchKeySet : Type := Z.

(** ** Constructors. *)
Definition ks_FULL : DispatchKeySet := Z.shiftl 1 (num_backends + num_functionality_keys - 1) - 1.

Definition ks_backend (k : BackendComponent) : DispatchKeySet :=
  if bc_eqb k InvalidBit then 0 else Z.shiftl 1 (to_u8 (bc_val k) - 1).

Definition ks_key (k : DispatchKey) : DispatchKeySet :=
  if dk_eqb k Undefined then 0
  else if dk_leb k EndOfFunctionalityKeys then
    Z.shiftl 1 (num_backends + to_u8 (dk_val k) - 1)
  else if dk_leb k EndOfRuntimeBackendKeys then
    let functionality_k := toFunctionalityKey k in
    let functionality_val := Z.shiftl 1 (num_backends + to_u8 (dk_val functionality_k) - 1) in
    let backend_k := toBackendComponent k in
    let backend_val :=
      if bc_eqb backend_k InvalidBit then 0 else Z.shiftl 1 (to_u8 (bc_val backend_k) - 1) in
    functionality_val + backend_val
  else 0.

Definition ks_keys (ks : list DispatchKey) : DispatchKeySet :=
  foldl (fun repr k => Z.lor repr (ks_key k)) 0 ks.
Definition ks_backends (ks : list BackendComponent) : DispatchKeySet :=
  foldl (fun repr k => Z.lor repr (ks_backend k)) 0 ks.

(** ** Operations. *)
Definition has_all (s ks : DispatchKeySet) : bool := Z.land s ks =? ks.
Definition has (s : DispatchKeySet) (t : DispatchKey) : bool := has_all s (ks_key t).
Definition has_backend (s : DispatchKeySet) (t : BackendComponent) : bool := has_all s (ks_backend t).
Definition has_any (s ks : DispatchKeySet) : bool := negb (Z.land s ks =? 0).
Definition isSupersetOf (s ks : DispatchKeySet) : bool := Z.land s ks =? ks.
Definition ks_or (s other : DispatchKeySet) : DispatchKeySet := Z.lor s other.
Definition ks_and (s other : DispatchKeySet) : DispatchKeySet := Z.land s other.
Definition ks_minus (s other : DispatchKeySet) : DispatchKeySet :=
  Z.land s (Z.lor full_backend_mask (not64 other)).
Definition ks_xor (s other : DispatchKeySet) : DispatchKeySet := Z.lxor s other.
Definition add (s : DispatchKeySet) (t : DispatchKey) : DispatchKeySet := ks_or s (ks_key t).
Definition remove (s : DispatchKeySet) (t : DispatchKey) : DispatchKeySet :=
  Z.land s (not64 (Z.land (ks_key t) (not64 full_backend_mask))).
Definition remove_backend (s : DispatchKeySet) (b : BackendComponent) : DispatchKeySet :=
  Z.land s (not64 (ks_backend b)).
Definition ks_empty (s : DispatchKeySet) : bool := s =? 0.

Definition ks_FULL_AFTER (t : DispatchKey) : DispatchKeySet :=
  add (Z.shiftl 1 (num_backends + to_u8 (dk_val (toFunctionalityKey t)) - 1) - 1) PythonDispatcher.

(** ** Priorities and the operator table. *)
Definition indexOfHighestBit (s : DispatchKeySet) : Z := 64 - countLeadingZeros s.

Definition highestFunctionalityKey (s : DispatchKeySet) : DispatchKey :=
  let functionality_idx := indexOfHighestBit s in
  if functionality_idx <? num_backends then Undefined
  else to_dk (functionality_idx - num_backends).

Definition highestBackendKey (s : DispatchKeySet) : BackendComponent :=
  let backend_idx := indexOfHighestBit (Z.land s full_backend_mask) in
  if backend_idx =? 0 then InvalidBit else to_bc backend_idx.

Definition highestPriorityTypeId (s : DispatchKeySet) : DispatchKey :=
  let functionality_k := highestFunctionalityKey s in
  if isPerBackendFunctionalityKey functionality_k then
    toRuntimePerBackendFunctionalityKey functionality_k (highestBackendKey s)
  else functionality_k.

Record FunctionalityOffsetAndMask : Type := mkOffsetAndMask { offset : Z; mask : Z }.

(** The loop of [initializeFunctionalityOffsetsAndMasks]; [prev] is the entry
    before [functionality_idx]. *)
Fixpoint offsets_loop (prev : FunctionalityOffsetAndMask) (functionality_idx : Z) (count : nat)
    : list FunctionalityOffsetAndMask :=
  match count with
  | O => []
  | S count' =>
      let k := to_dk functionality_idx in
      let next_offset := offset prev + (if mask prev =? 0 then 1 else num_backends) in
      let next_mask := if isPerBackendFunctionalityKey k then full_backend_mask else 0 in
      let e := mkOffsetAndMask next_offset next_mask in
      e :: offsets_loop e (functionality_idx + 1) count'
  end.

Definition initializeFunctionalityOffsetsAndMasks : result (list FunctionalityOffsetAndMask) :=
  let first := mkOffsetAndMask 0 0 in
  let offsets_and_masks := first :: offsets_loop first 1 (Z.to_nat (num_functionality_keys - 1)) in
  _ ← TORCH_INTERNAL_ASSERT
        (offset (nth (Z.to_nat (num_functionality_keys - 1)) offsets_and_masks first)
         =? num_runtime_entries - 1) "num_runtime_entries: ";
  Ok offsets_and_masks.

Definition offsetsAndMasks : list FunctionalityOffsetAndMask :=
  match initializeFunctionalityOffsetsAndMasks with Ok l => l | Throw _ => [] end.

Definition getDispatchTableIndexForDispatchKeySet (s : DispatchKeySet) : Z :=
  let functionality_idx := indexOfHighestBit (Z.shiftr s num_backends) in
  let offset_and_mask := nth (Z.to_nat functionality_idx) offsetsAndMasks (mkOffsetAndMask 0 0) in
  let backend_idx := indexOfHighestBit (Z.shiftr (Z.land s (mask offset_and_mask)) 1) in
  offset offset_and_mask + backend_idx.

Definition getBackendIndex (s : DispatchKeySet) : Z :=
  indexOfHighestBit (Z.shiftr (Z.land s full_backend_mask) 1).

Definition getDispatchTableIndexForDispatchKey (k : DispatchKey) : Z :=
  getDispatchTableIndexForDispatchKeySet (ks_key k).

(** ** The iterator. *)
Record iterator : Type := mkIterator {
  next_functionality_ : Z;
  next_backend_ : Z;
  current_dispatchkey_idx_ : Z;
  current_backendcomponent_idx_ : Z }.

Definition end_iter_mask_val : Z := num_backends + num_functionality_keys.
Definition end_iter_key_val : Z := num_functionality_keys.

#[export] Instance iterator_eq_dec : EqDecision iterator.
Proof. solve_decision. Defined.

(** [operator++] on the set [data]; [fuel] bounds the functionalities skipped
    because the set has no backend. *)
Fixpoint increment (fuel : nat) (data : Z) (it : iterator) : result iterator :=
  match fuel with
  | O => Throw (InternalAssert "fuel")
  | S fuel' =>
      _ ← TORCH_INTERNAL_ASSERT (next_functionality_ it <=? end_iter_mask_val) "";
      _ ← TORCH_INTERNAL_ASSERT (next_backend_ it <=? num_backends) "";
      let masked_functionality_bits := Z.land (maskTrailingZeros (next_functionality_ it)) data in
      let masked_backend_bits :=
        Z.land (Z.land (maskTrailingZeros (next_backend_ it)) full_backend_mask) data in
      let first_functionality_idx := findFirstSet masked_functionality_bits in
      let first_backendcomponent_idx := findFirstSet masked_backend_bits in
      if (first_functionality_idx =? u64_max) || (next_functionality_ it =? end_iter_mask_val) then
        Ok (mkIterator end_iter_mask_val 0 end_iter_key_val end_iter_key_val)
      else
        let new_next_functionality := first_functionality_idx + 1 in
        let new_backendcomponent_idx := first_backendcomponent_idx + 1 in
        let next_dispatchkey_idx := new_next_functionality - num_backends in
        if isPerBackendFunctionalityKey (to_dk next_dispatchkey_idx) then
          if first_backendcomponent_idx =? u64_max then
            increment fuel' data
              (mkIterator new_next_functionality (next_backend_ it)
                 (current_dispatchkey_idx_ it) (current_backendcomponent_idx_ it))
          else
            let next_backendcomponent_bits :=
              Z.land (Z.land (maskTrailingZeros (first_backendcomponent_idx + 1)) full_backend_mask)
                data in
            let next_backendcomponent_idx := findFirstSet next_backendcomponent_bits in
            if next_backendcomponent_idx =? u64_max then
              Ok (mkIterator new_next_functionality 0 next_dispatchkey_idx new_backendcomponent_idx)
            else
              Ok (mkIterator (next_functionality_ it) (first_backendcomponent_idx + 1)
                    next_dispatchkey_idx new_backendcomponent_idx)
        else
          _ ← TORCH_INTERNAL_ASSERT (next_backend_ it =? 0) "";
          Ok (mkIterator new_next_functionality (next_backend_ it) next_dispatchkey_idx
                (current_backendcomponent_idx_ it))
  end.

Definition iterator_fuel : nat := 64.

(** The constructor of the iterator moves to the first key. *)
Definition make_iterator (data next_functionality next_backend : Z) : result iterator :=
  _ ← TORCH_INTERNAL_ASSERT (num_backends <=? next_functionality) "num_backends=";
  increment iterator_fuel data
    (mkIterator next_functionality next_backend end_iter_key_val end_iter_key_val).

Definition ks_begin (s : DispatchKeySet) : result iterator := make_iterator s num_backends 0.
Definition ks_end (s : DispatchKeySet) : result iterator := make_iterator s end_iter_mask_val 0.

(** [operator*]. *)
Definition deref (it : iterator) : result DispatchKey :=
  let functionality_key := to_dk (current_dispatchkey_idx_ it) in
  if isPerBackendFunctionalityKey functionality_key then
    let next_key :=
      toRuntimePerBackendFunctionalityKey functionality_key (to_bc (current_backendcomponent_idx_ it)) in
    _ ← TORCH_INTERNAL_ASSERT
          (bc_eqb (toBackendComponent next_key) (to_bc (current_backendcomponent_idx_ it)))
          "Tried to map functionality key ";
    Ok next_key
  else Ok functionality_key.

(** A range-based [for] over the set: the keys the body sees. *)
Fixpoint for_loop (fuel : nat) (data : Z) (it last : iterator) : result (list DispatchKey) :=
  if decide (it = last) then Ok []
  else
    match fuel with
    | O => Throw (InternalAssert "fuel")
    | S fuel' =>
        k ← deref it;
        it ← increment iterator_fuel data it;
        ks ← for_loop fuel' data it last;
        Ok (k :: ks)
    end.

Definition iterate (s : DispatchKeySet) : result (list DispatchKey) :=
  b ← ks_begin s;
  e ← ks_end s;
  for_loop 1024 s b e.

(** [operator<<] and [toString]. *)
Fixpoint print_keys (first : bool) (ks : list DispatchKey) : string :=
  match ks with
  | [] => ""
  | k :: ks' => (if first then "" else ", ") +:+ toString k +:+ print_keys false ks'
  end.
Definition toString_ks (ts : DispatchKeySet) : result string :=
  if ks_empty ts then Ok "DispatchKeySet()"
  else
    ks ← iterate ts;
    Ok ("DispatchKeySet(" +:+ print_keys true ks +:+ ")").

(** ** Named sets. *)
Definition autograd_dispatch_keyset : DispatchKeySet :=
  ks_keys [AutogradFunctionality; AutogradOther; AutogradNestedTensor].
Definition autocast_dispatch_keyset : DispatchKeySet :=
  ks_keys [AutocastCPU; AutocastMPS; AutocastCUDA; AutocastXPU; AutocastIPU; AutocastHPU;
           AutocastXLA; AutocastPrivateUse1; AutocastMTIA; AutocastMAIA].
Definition default_included_set : DispatchKeySet := ks_keys [BackendSelect; ADInplaceOrView].
Definition default_excluded_set : DispatchKeySet :=
  ks_keys [AutocastCPU; AutocastMPS; AutocastCUDA; AutocastXPU; AutocastIPU; AutocastHPU;
           AutocastXLA; AutocastPrivateUse1; AutocastMTIA; AutocastMAIA].
Definition autograd_dispatch_keyset_with_ADInplaceOrView : DispatchKeySet :=
  ks_or autograd_dispatch_keyset (ks_key ADInplaceOrView).
Definition autogradother_backends : DispatchKeySet :=
  ks_or (ks_keys [FPGA; Vulkan; Metal; CustomRNGKeyId; MkldnnCPU; Sparse; SparseCsr; Quantized])
        full_backend_mask.
Definition after_autograd_keyset : DispatchKeySet := ks_FULL_AFTER AutogradOther.
Definition after_ADInplaceOrView_keyset : DispatchKeySet := ks_FULL_AFTER ADInplaceOrView.
Definition after_func_keyset : DispatchKeySet :=
  remove (ks_FULL_AFTER Functionalize) ADInplaceOrView.
Definition functorch_batched_ks : DispatchKeySet := ks_keys [FuncTorchBatched].
Definition backend_functionality_keys : DispatchKeySet :=
  ks_or (ks_keys [Dense; Quantized; Sparse; SparseCsr]) full_backend_mask.

Definition backend_dispatch_keyset : DispatchKeySet := ks_or autogradother_backends (ks_key Dense).
Definition non_functional_backend_dispatch_keyset : DispatchKeySet :=
  remove_backend (remove_backend (remove backend_dispatch_keyset Sparse) XLABit) LazyBit.
Definition math_dispatch_keyset : DispatchKeySet :=
  ks_or (ks_or backend_dispatch_keyset autograd_dispatch_keyset) (ks_keys [NestedTensor]).
Definition nested_dispatch_keyset : DispatchKeySet :=
  ks_or (ks_keys [AutogradNestedTensor; NestedTensor]) full_backend_mask.
Definition functorch_batched_dispatch_keyset : DispatchKeySet := ks_key FuncTorchBatched.

(** ** Alias keys. *)
Definition isBackendDispatchKey (t : DispatchKey) : bool :=
  negb (dk_eqb t Undefined) && negb (isAliasDispatchKey t) && negb (dk_eqb t NestedTensor)
  && has backend_dispatch_keyset t.

Definition getRuntimeDispatchKeySet (t : DispatchKey) : result DispatchKeySet :=
  _ ← TORCH_INTERNAL_ASSERT (negb (dk_eqb t Undefined)) "";
  match t with
  | Autograd => Ok (ks_or autograd_dispatch_keyset full_backend_mask)
  | CompositeImplicitAutograd => Ok math_dispatch_keyset
  | CompositeImplicitAutogradNestedTensor => Ok nested_dispatch_keyset
  | CompositeExplicitAutograd => Ok backend_dispatch_keyset
  | CompositeExplicitAutogradNonFunctional => Ok non_functional_backend_dispatch_keyset
  | FuncTorchBatchedDecomposition => Ok functorch_batched_dispatch_keyset
  | _ => Ok (ks_key t)
  end.

Definition runtimeDispatchKeySetHas (t k : DispatchKey) : result bool :=
  _ ← TORCH_INTERNAL_ASSERT (negb (dk_eqb t Undefined)) "";
  match t with
  | Autograd => Ok (has autograd_dispatch_keyset (toFunctionalityKey k))
  | CompositeImplicitAutograd => Ok (has math_dispatch_keyset k)
  | CompositeImplicitAutogradNestedTensor => Ok (has nested_dispatch_keyset k)
  | CompositeExplicitAutograd =>
      Ok (negb (dk_eqb k NestedTensor) && has backend_dispatch_keyset k)
  | CompositeExplicitAutogradNonFunctional =>
      Ok (negb (dk_eqb k NestedTensor) && has non_functional_backend_dispatch_keyset k)
  | FuncTorchBatchedDecomposition => Ok (has functorch_batched_ks k)
  | _ => Ok (dk_eqb t k)
  end.

Definition isIncludedInAlias (k alias : DispatchKey) : result bool :=
  if dk_eqb k Undefined then Ok false else runtimeDispatchKeySetHas alias k.

Definition getBackendKeySetFromAutograd (t : DispatchKey) : DispatchKeySet :=
  match t with
  | AutogradCPU => ks_key CPU
  | AutogradCUDA => ks_key CUDA
  | AutogradXLA => ks_key XLA
  | AutogradLazy => ks_key Lazy
  | AutogradMeta => ks_key Meta
  | AutogradMPS => ks_key MPS
  | AutogradHPU => ks_key HPU
  | AutogradIPU => ks_key IPU
  | AutogradXPU => ks_key XPU
  | AutogradMAIA => ks_key MAIA
  | AutogradPrivateUse1 => ks_key PrivateUse1
  | AutogradPrivateUse2 => ks_key PrivateUse2
  | AutogradPrivateUse3 => ks_key PrivateUse3
  | AutogradNestedTensor => ks_or (ks_key NestedTensor) full_backend_mask
  | AutogradOther => autogradother_backends
  | _ => 0
  end.

(** [inplace_or_view_ks] joined with the autograd key of the backend. *)
Definition getAutogradRelatedKeySetFromBackend (t : BackendComponent) : DispatchKeySet :=
  let inplace_or_view_ks := ks_key ADInplaceOrView in
  match t with
  | CPUBit => ks_or inplace_or_view_ks (ks_key AutogradCPU)
  | IPUBit => ks_or inplace_or_view_ks (ks_key AutogradIPU)
  | MTIABit => ks_or inplace_or_view_ks (ks_key AutogradMTIA)
  | MAIABit => ks_or inplace_or_view_ks (ks_key AutogradMAIA)
  | XPUBit => ks_or inplace_or_view_ks (ks_key AutogradXPU)
  | CUDABit => ks_or inplace_or_view_ks (ks_key AutogradCUDA)
  | XLABit => ks_or inplace_or_view_ks (ks_key AutogradXLA)
  | LazyBit => ks_or inplace_or_view_ks (ks_key AutogradLazy)
  | MetaBit => ks_or inplace_or_view_ks (ks_key AutogradMeta)
  | MPSBit => ks_or inplace_or_view_ks (ks_key AutogradMPS)
  | HPUBit => ks_or inplace_or_view_ks (ks_key AutogradHPU)
  | PrivateUse1Bit => ks_or inplace_or_view_ks (ks_key AutogradPrivateUse1)
  | PrivateUse2Bit => ks_or inplace_or_view_ks (ks_key AutogradPrivateUse2)
  | PrivateUse3Bit => ks_or inplace_or_view_ks (ks_key AutogradPrivateUse3)
  | _ => ks_or inplace_or_view_ks (ks_key AutogradOther)
  end.

Definition getAutocastRelatedKeySetFromBackend (t : BackendComponent) : DispatchKeySet :=
  match t with
  | CPUBit => ks_key AutocastCPU
  | MTIABit => ks_key AutocastMTIA
  | MAIABit => ks_key AutocastMAIA
  | XPUBit => ks_key AutocastXPU
  | IPUBit => ks_key AutocastIPU
  | HPUBit => ks_key AutocastHPU
  | CUDABit => ks_key AutocastCUDA
  | XLABit => ks_key AutocastXLA
  | PrivateUse1Bit => ks_key AutocastPrivateUse1
  | MPSBit => ks_key AutocastMPS
  | _ => 0
  end.

Definition getAutogradKeyFromBackend (k : BackendComponent) : DispatchKey :=
  highestPriorityTypeId (getAutogradRelatedKeySetFromBackend k).

Definition highestPriorityBackendTypeId (ks : DispatchKeySet) : DispatchKey :=
  highestPriorityTypeId (ks_and ks backend_functionality_keys).

Definition legacyExtractDispatchKey (s : DispatchKeySet) : DispatchKey :=
  highestPriorityTypeId
    (ks_minus (ks_minus (ks_minus s autograd_dispatch_keyset_with_ADInplaceOrView)
                 autocast_dispatch_keyset)
       (ks_keys [Functionalize; PythonTLSSnapshot; FuncTorchGradWrapper; FuncTorchVmapMode;
                 FuncTorchBatched; Python])).

(** ** The operator table. *)

(** The number of bits of a value. *)
Definition bitlen (x : Z) : Z := if x =? 0 then 0 else Z.log2 x + 1.

Lemma indexOfHighestBit_eq s : indexOfHighestBit s = bitlen s.
Proof. unfold indexOfHighestBit, countLeadingZeros, builtin_clzll, bitlen. case_bool; lia. Qed.

Lemma bitlen_nonneg x : 0 <= bitlen x.
Proof. unfold bitlen. case_bool; [lia|]. pose proof (Z.log2_nonneg x). lia. Qed.

Lemma bitlen_lt x n : 0 <= n → 0 <= x < 2 ^ n → bitlen x <= n.
Proof.
  intros Hn Hx. unfold bitlen. case_bool; [lia|].
  assert (Z.log2 x < n) by (apply Z.log2_lt_pow2; lia). lia.
Qed.

Lemma bitlen_shiftr x n : 0 <= x → 0 <= n → bitlen (Z.shiftr x n) = Z.max 0 (bitlen x - n).
Proof.
  intros Hx Hn. unfold bitlen. destruct (Z.eqb_spec x 0) as [->|Hne].
  { rewrite Z.shiftr_0_l. simpl. lia. }
  pose proof (log2_bounds x ltac:(lia)) as Hb. pose proof (Z.log2_nonneg x).
  rewrite Z.shiftr_div_pow2 by done. pose proof (Z.pow_pos_nonneg 2 n ltac:(lia) Hn).
  destruct (Z.ltb_spec (Z.log2 x) n).
  - assert (2 * 2 ^ Z.log2 x <= 2 ^ n).
    { rewrite <- Z.pow_succ_r by done. apply Z.pow_le_mono_r; lia. }
    rewrite Z.div_small by lia. simpl. lia.
  - assert (2 ^ n <= 2 ^ Z.log2 x) by (apply Z.pow_le_mono_r; lia).
    assert (1 <= x / 2 ^ n) by (apply Z.div_le_lower_bound; lia).
    destruct (Z.eqb_spec (x / 2 ^ n) 0); [lia|].
    rewrite <- Z.shiftr_div_pow2, Z.log2_shiftr by lia. lia.
Qed.

Lemma full_mask_bounds s : 0 <= Z.land s full_backend_mask < 2 ^ 16.
Proof.
  change full_backend_mask with (Z.ones 16). rewrite Z.land_ones by lia.
  apply Z.mod_pos_bound. lia.
Qed.

(** The table index and the priority depend on the numbers [f] of the highest
    functionality and [b] of the highest backend only. *)
Definition index_of (f b : Z) : Z :=
  let e := nth (Z.to_nat f) offsetsAndMasks (mkOffsetAndMask 0 0) in
  offset e + (if mask e =? 0 then 0 else Z.max 0 (b - 1)).
Definition priority_of (f b : Z) : DispatchKey :=
  if isPerBackendFunctionalityKey (to_dk f)
  then toRuntimePerBackendFunctionalityKey (to_dk f) (to_bc b) else to_dk f.

Definition functionality_number (s : DispatchKeySet) : Z := Z.max 0 (bitlen s - 16).
Definition backend_number (s : DispatchKeySet) : Z := bitlen (Z.land s full_backend_mask).

Lemma numbers_bounds s : 0 <= s < 2 ^ 63 →
  0 <= functionality_number s <= 47 ∧ 0 <= backend_number s <= 16.
Proof.
  intros Hs. unfold functionality_number, backend_number.
  pose proof (bitlen_lt s 63 ltac:(lia) Hs).
  pose proof (bitlen_lt _ 16 ltac:(lia) (full_mask_bounds s)).
  pose proof (bitlen_nonneg (Z.land s full_backend_mask)). lia.
Qed.

Lemma mask_cases f : mask (nth f offsetsAndMasks (mkOffsetAndMask 0 0)) = 0 ∨
                     mask (nth f offsetsAndMasks (mkOffsetAndMask 0 0)) = full_backend_mask.
Proof.
  assert (forallb (fun e => (mask e =? 0) || (mask e =? full_backend_mask)) offsetsAndMasks = true) as H
    by (vm_compute; reflexivity).
  rewrite forallb_forall in H. destruct (Nat.ltb_spec f (length offsetsAndMasks)).
  - specialize (H _ (nth_In offsetsAndMasks (mkOffsetAndMask 0 0) H0)).
    apply orb_true_iff in H as [H%Z.eqb_eq|H%Z.eqb_eq]; auto.
  - left. by rewrite nth_overflow by lia.
Qed.

Lemma table_index_eq s : 0 <= s →
  getDispatchTableIndexForDispatchKeySet s = index_of (functionality_number s) (backend_number s).
Proof.
  intros Hs. unfold getDispatchTableIndexForDispatchKeySet, index_of. cbv zeta.
  rewrite !indexOfHighestBit_eq, bitlen_shiftr by done. change num_backends with 16.
  fold (functionality_number s). set (e := nth _ _ _).
  assert (mask e = 0 ∨ mask e = full_backend_mask) as Hm by apply mask_cases.
  f_equal. destruct Hm as [-> | ->].
  - rewrite Z.land_0_r. done.
  - rewrite bitlen_shiftr by (pose proof (full_mask_bounds s); lia). done.
Qed.

Lemma priority_eq s : 0 <= s →
  highestPriorityTypeId s = priority_of (functionality_number s) (backend_number s).
Proof.
  intros Hs. unfold highestPriorityTypeId, highestFunctionalityKey, highestBackendKey, priority_of.
  rewrite !indexOfHighestBit_eq. change num_backends with 16. fold (backend_number s).
  assert ((if bitlen s <? 16 then Undefined else to_dk (bitlen s - 16)) = to_dk (functionality_number s))
    as ->.
  { unfold functionality_number. case_bool; [by rewrite Z.max_l by lia|by rewrite Z.max_r by lia]. }
  case_bool; [|done]. f_equal. case_bool; [by rewrite Heqb0|done].
Qed.

Definition numbers (n : nat) : list Z := map Z.of_nat (seq 0 n).
Lemma In_numbers n z : 0 <= z < Z.of_nat n → In z (numbers n).
Proof. intros Hz. apply in_map_iff. exists (Z.to_nat z). split; [lia|]. apply in_seq. lia. Qed.

Lemma index_of_check f b : 0 <= f <= 47 → 0 <= b <= 16 →
  0 <= index_of f b < num_runtime_entries ∧
  index_of f b = getDispatchTableIndexForDispatchKey (priority_of f b).
Proof.
  intros Hf Hb.
  assert (forallb (fun f => forallb (fun b =>
    (0 <=? index_of f b) && (index_of f b <? num_runtime_entries) &&
    (index_of f b =? getDispatchTableIndexForDispatchKey (priority_of f b))) (numbers 17)) (numbers 48)
    = true) as H by (vm_compute; reflexivity).
  rewrite forallb_forall in H. specialize (H f (In_numbers 48 f ltac:(lia))).
  rewrite forallb_forall in H. specialize (H b (In_numbers 17 b ltac:(lia))).
  bool_simpl. lia.
Qed.

Lemma slot_inj k1 k2 : isRuntimeKey k1 = true → isRuntimeKey k2 = true →
  getDispatchTableIndexForDispatchKey k1 = getDispatchTableIndexForDispatchKey k2 → k1 = k2.
Proof.
  intros H1 H2 E.
  assert (forallb (fun k1 => forallb (fun k2 =>
    negb (isRuntimeKey k1) || negb (isRuntimeKey k2) || dk_eqb k1 k2 ||
    negb (getDispatchTableIndexForDispatchKey k1 =? getDispatchTableIndexForDispatchKey k2))
    all_dispatch_keys) all_dispatch_keys = true) as H by (vm_compute; reflexivity).
  apply all_keys_check with (k := k1) in H. rewrite forallb_forall in H.
  specialize (H k2 (In_all_dispatch_keys k2)). rewrite H1, H2, E, Z.eqb_refl in H. simpl in H.
  rewrite orb_false_r in H. by apply dk_eqb_eq.
Qed.

Lemma slot_range k : isRuntimeKey k = true →
  0 <= getDispatchTableIndexForDispatchKey k < num_runtime_entries.
Proof.
  intros Hk. assert (forallb (fun k => (0 <=? getDispatchTableIndexForDispatchKey k) &&
    (getDispatchTableIndexForDispatchKey k <? num_runtime_entries)) all_dispatch_keys = true) as H
    by (vm_compute; reflexivity).
  apply all_keys_check with (k := k) in H. bool_simpl. lia.
Qed.

(** The highest priority of a set is the runtime key of the numbers of its
    highest functionality and backend. *)
Lemma table_index_priority s : 0 <= s < 2 ^ 63 →
  0 <= getDispatchTableIndexForDispatchKeySet s < num_runtime_entries ∧
  getDispatchTableIndexForDispatchKeySet s = getDispatchTableIndexForDispatchKey (highestPriorityTypeId s).
Proof.
  intros Hs. destruct (numbers_bounds s Hs) as [Hf Hb].
  destruct (index_of_check _ _ Hf Hb) as [H1 H2].
  rewrite table_index_eq, priority_eq by lia. split; [done|]. exact H2.
Qed.

(**  The bit arithmetic that finds a slot of the operator table: for every
    set, the index is within the table and is that of the key of highest
    priority; different runtime keys have different slots, and a runtime key
    is the highest priority of its own set. *)
Theorem table_index_spec :
  (∀ s, 0 <= s < 2 ^ 63 →
     0 <= getDispatchTableIndexForDispatchKeySet s < num_runtime_entries ∧
     getDispatchTableIndexForDispatchKeySet s
     = getDispatchTableIndexForDispatchKey (highestPriorityTypeId s)) ∧
  (∀ k1 k2, isRuntimeKey k1 = true → isRuntimeKey k2 = true →
     getDispatchTableIndexForDispatchKey k1 = getDispatchTableIndexForDispatchKey k2 → k1 = k2) ∧
  (∀ k, isRuntimeKey k = true → highestPriorityTypeId (ks_key k) = k).
Proof.
  split_and!.
  - exact table_index_priority.
  - exact slot_inj.
  - intros k Hk.
    assert (forallb (fun k => negb (isRuntimeKey k) || dk_eqb (highestPriorityTypeId (ks_key k)) k)
      all_dispatch_keys = true) as H by (vm_compute; reflexivity).
    apply all_keys_check with (k := k) in H. rewrite Hk in H. by apply dk_eqb_eq.
Qed.

Lemma table_index_spec_witness :
  highestPriorityTypeId (ks_keys [CPU; CUDA; AutogradCPU]) = AutogradCUDA ∧
  getDispatchTableIndexForDispatchKeySet (ks_keys [CPU; CUDA; AutogradCPU])
  = getDispatchTableIndexForDispatchKey AutogradCUDA.
Proof.
  assert (highestPriorityTypeId (ks_keys [CPU; CUDA; AutogradCPU]) = AutogradCUDA) as E
    by (vm_compute; reflexivity).
  assert (0 <= ks_keys [CPU; CUDA; AutogradCPU] < 2 ^ 63) as Hb
    by (vm_compute; split; [discriminate|reflexivity]).
  destruct (proj1 table_index_spec _ Hb) as [_ H]. rewrite E in H. split; [exact E|exact H].
Defined.

(** ** The iterator. *)

(** The positions of the set bits of [R] among [n, n + count). *)
Fixpoint bits_from (R n : Z) (count : nat) : list Z :=
  match count with
  | O => []
  | S c => if Z.testbit R n then n :: bits_from R (n + 1) c else bits_from R (n + 1) c
  end.

Lemma bits_from_nil R c : ∀ n, bits_from R n c = [] →
  ∀ j, n <= j < n + Z.of_nat c → Z.testbit R j = false.
Proof.
  induction c as [|c IH]; intros n; cbn [bits_from]; [lia|].
  destruct (Z.testbit R n) eqn:E; [done|]. intros Hr j Hj.
  destruct (decide (j = n)) as [->|]; [done|]. apply (IH (n + 1) Hr). lia.
Qed.

Lemma bits_from_cons R c : ∀ n i rest, bits_from R n c = i :: rest →
  n <= i < n + Z.of_nat c ∧ Z.testbit R i = true ∧
  (∀ j, n <= j < i → Z.testbit R j = false) ∧
  rest = bits_from R (i + 1) (Z.to_nat (n + Z.of_nat c - (i + 1))).
Proof.
  induction c as [|c IH]; intros n i rest; cbn [bits_from]; [done|].
  destruct (Z.testbit R n) eqn:E.
  - intros [= <- <-]. split_and!; [lia|lia|done|lia|]. f_equal. lia.
  - intros Hr. destruct (IH _ _ _ Hr) as (H1 & H2 & H3 & ->). split_and!; [lia|lia|done| |].
    + intros j Hj. destruct (decide (j = n)) as [->|]; [done|]. apply H3. lia.
    + f_equal. lia.
Qed.

(** [findFirstSet] of the bits from [n] on. *)
Lemma maskTrailingZeros_bit n i : 0 <= n <= 64 → 0 <= i < 64 →
  Z.testbit (maskTrailingZeros n) i = (n <=? i).
Proof.
  intros Hn Hi. unfold maskTrailingZeros, maskLeadingOnes, maskTrailingOnes, not64, to_u64.
  rewrite Z.mod_pow2_bits_low, Z.lnot_spec by lia.
  replace (64 - (64 - n)) with n by lia.
  destruct (Z.eqb_spec n 0) as [->|].
  { rewrite Z.bits_0. symmetry. apply Z.leb_le. lia. }
  change u64_max with (Z.ones 64). rewrite Z.shiftr_spec, Z.testbit_ones_nonneg by lia.
  apply eq_true_iff_eq. rewrite negb_true_iff, Z.ltb_ge, Z.leb_le. lia.
Qed.

Lemma builtin_ctzll_low x : 0 < x →
  Z.testbit x (builtin_ctzll x) = true ∧ ∀ j, 0 <= j < builtin_ctzll x → Z.testbit x j = false.
Proof.
  intros Hx. destruct (builtin_ctzll_decomp x Hx) as (m & Hm & Hc & E).
  set (c := builtin_ctzll x) in *. rewrite E, Z.mul_comm, <- Z.shiftl_mul_pow2 by done. split.
  - rewrite Z.shiftl_spec, Z.sub_diag by done. apply Z.testbit_odd_0.
  - intros j Hj. apply Z.shiftl_spec_low. lia.
Qed.

Lemma findFirstSet_bits x R n c :
  is_u64 x → 0 <= n → n + Z.of_nat c <= 64 →
  (∀ i, 0 <= i < 64 → Z.testbit x i = (n <=? i) && (i <? n + Z.of_nat c) && Z.testbit R i) →
  findFirstSet x = match bits_from R n c with [] => u64_max | i :: _ => i end.
Proof.
  intros Hx Hn Hc Hbits. unfold findFirstSet.
  destruct (Z.eqb_spec x 0) as [->|Hne].
  - destruct (bits_from R n c) as [|i rest] eqn:E; [done|].
    destruct (bits_from_cons _ _ _ _ _ E) as (H1 & H2 & _). specialize (Hbits i ltac:(lia)).
    rewrite Z.bits_0, H2, (proj2 (Z.leb_le _ _)), (proj2 (Z.ltb_lt _ _)) in Hbits by lia. done.
  - unfold is_u64, u64_max in Hx. destruct (builtin_ctzll_low x ltac:(lia)) as [Ht Hlow].
    destruct (builtin_ctzll_decomp x ltac:(lia)) as (m & Hm & H0 & E).
    assert (builtin_ctzll x < 64) as H64.
    { apply (Z.pow_lt_mono_r_iff 2); [lia|lia|]. pose proof (Z.pow_pos_nonneg 2 (builtin_ctzll x)). nia. }
    set (i := builtin_ctzll x) in *. rewrite (Hbits i) in Ht by lia. bool_simpl.
    destruct (bits_from R n c) as [|i' rest] eqn:E'.
    + rewrite (bits_from_nil _ _ _ E' i) in H1 by lia. done.
    + destruct (bits_from_cons _ _ _ _ _ E') as (Hi' & Hb' & Hlow' & _).
      destruct (Z.lt_trichotomy i i') as [Hlt|[->|Hlt]]; [|done|].
      * rewrite (Hlow' i) in H1 by lia. done.
      * specialize (Hlow i' ltac:(lia)). rewrite (Hbits i') in Hlow by lia.
        rewrite Hb', (proj2 (Z.leb_le _ _)), (proj2 (Z.ltb_lt _ _)) in Hlow by lia. done.
Qed.

Lemma land_u64 x y : is_u64 y → is_u64 (Z.land x y).
Proof.
  unfold is_u64, u64_max. intros Hy. split; [apply Z.land_nonneg; lia|].
  assert (Z.land x y = Z.land x y mod 2 ^ 64) as ->; [|pose proof (Z.mod_pos_bound (Z.land x y) (2 ^ 64)); lia].
  rewrite <- !Z.land_ones, <- Z.land_assoc, (Z.land_ones y), (Z.mod_small y) by lia. done.
Qed.

Section Iterator.
(** A set without the bit of the placeholder key. *)
Context (R : Z) (HR : 0 <= R < 2 ^ 63).

Definition fbits (nf : Z) : list Z := bits_from R nf (Z.to_nat (63 - nf)).
Definition bbits (nb : Z) : list Z := bits_from R nb (Z.to_nat (16 - nb)).

Lemma first_functionality nf : 16 <= nf <= 64 →
  findFirstSet (Z.land (maskTrailingZeros nf) R)
  = match fbits nf with [] => u64_max | i :: _ => i end.
Proof.
  intros Hnf. assert (is_u64 R) by (unfold is_u64, u64_max; lia).
  apply findFirstSet_bits; [by apply land_u64|lia|lia|].
  intros i Hi. rewrite Z.land_spec, maskTrailingZeros_bit by lia.
  destruct (Z.leb_spec nf i); [|done]. simpl.
  destruct (Z.ltb_spec i (nf + Z.of_nat (Z.to_nat (63 - nf)))); [done|].
  assert (i = 63) as -> by lia. rewrite Z.testbit_odd, Z.shiftr_div_pow2, Z.div_small by lia. done.
Qed.

Lemma first_backend nb : 0 <= nb <= 16 →
  findFirstSet (Z.land (Z.land (maskTrailingZeros nb) full_backend_mask) R)
  = match bbits nb with [] => u64_max | i :: _ => i end.
Proof.
  intros Hnb. assert (is_u64 R) by (unfold is_u64, u64_max; lia).
  apply findFirstSet_bits; [by apply land_u64|lia|lia|].
  intros i Hi. rewrite !Z.land_spec, maskTrailingZeros_bit by lia.
  change full_backend_mask with (Z.ones 16). rewrite Z.testbit_ones_nonneg by lia.
  do 2 f_equal. apply eq_true_iff_eq. rewrite !Z.ltb_lt. lia.
Qed.

(** The keys of a functionality bit, for the backends from [nb] on. *)
Definition keys_at (i nb : Z) : list DispatchKey :=
  let f := to_dk (i - 15) in
  if isPerBackendFunctionalityKey f
  then map (fun b => toRuntimePerBackendFunctionalityKey f (to_bc (b + 1))) (bbits nb)
  else [f].

Definition keys_from (nf nb : Z) : list DispatchKey :=
  match fbits nf with
  | [] => []
  | i :: rest => keys_at i nb ++ flat_map (fun i => keys_at i 0) rest
  end.

Lemma keys_from_0 nf : keys_from nf 0 = flat_map (fun i => keys_at i 0) (fbits nf).
Proof. unfold keys_from. by destruct (fbits nf). Qed.

(** The states between two calls: a backend is pending only when the next
    functionality is a per-backend one with a backend left. *)
Definition ready (nf nb : Z) : Prop :=
  16 <= nf <= 63 ∧ 0 <= nb <= 16 ∧
  (nb = 0 ∨ ∃ i rest, fbits nf = i :: rest ∧
     isPerBackendFunctionalityKey (to_dk (i - 15)) = true ∧ bbits nb ≠ []).

Lemma fbits_cons nf i rest : 16 <= nf <= 63 → fbits nf = i :: rest →
  nf <= i <= 62 ∧ rest = fbits (i + 1).
Proof.
  intros Hnf E. destruct (bits_from_cons _ _ _ _ _ E) as (H1 & _ & _ & ->).
  split; [lia|]. unfold fbits. f_equal. lia.
Qed.

Lemma bbits_cons nb b rest : 0 <= nb <= 16 → bbits nb = b :: rest →
  nb <= b <= 15 ∧ rest = bbits (b + 1).
Proof.
  intros Hnb E. destruct (bits_from_cons _ _ _ _ _ E) as (H1 & _ & _ & ->).
  split; [lia|]. unfold bbits. f_equal. lia.
Qed.

Lemma deref_backend i b nf nb :
  16 <= i <= 62 → 0 <= b <= 15 → isPerBackendFunctionalityKey (to_dk (i - 15)) = true →
  deref (mkIterator nf nb (i - 15) (b + 1))
  = Ok (toRuntimePerBackendFunctionalityKey (to_dk (i - 15)) (to_bc (b + 1))).
Proof using.
  intros Hi Hb Hper. unfold deref. cbn [current_dispatchkey_idx_ current_backendcomponent_idx_].
  rewrite Hper.
  destruct (runtime_key_join (to_dk (i - 15)) (to_bc (b + 1)) Hper) as (_ & _ & ->).
  - assert (forallb (fun b => negb (bc_eqb (to_bc (b + 1)) InvalidBit)) (numbers 16) = true) as H
      by (vm_compute; reflexivity).
    rewrite forallb_forall in H. specialize (H b (In_numbers 16 b ltac:(lia))).
    intros E. rewrite E in H. done.
  - unfold bc_eqb. rewrite Z.eqb_refl. done.
Qed.

(** One call of [operator++]: it reports the head of the remaining keys, or
    the end state when none is left. *)
Lemma increment_spec fuel : ∀ nf nb cd cb,
  ready nf nb → (Z.to_nat (63 - nf) < fuel)%nat →
  match keys_from nf nb with
  | [] => increment fuel R (mkIterator nf nb cd cb) = Ok (mkIterator 64 0 48 48)
  | k :: ks => ∃ nf' nb' cd' cb',
      increment fuel R (mkIterator nf nb cd cb) = Ok (mkIterator nf' nb' cd' cb') ∧
      ready nf' nb' ∧ keys_from nf' nb' = ks ∧
      deref (mkIterator nf' nb' cd' cb') = Ok k
  end.
Proof.
  induction fuel as [|fuel IH]; intros nf nb cd cb (Hnf & Hnb & Hrdy) Hfuel; [lia|].
  cbn [increment next_functionality_ next_backend_ current_dispatchkey_idx_ current_backendcomponent_idx_].
  change end_iter_mask_val with 64. change num_backends with 16. change end_iter_key_val with 48.
  rewrite (proj2 (Z.leb_le nf 64)), (proj2 (Z.leb_le nb 16)) by lia.
  unfold TORCH_INTERNAL_ASSERT at 1 2. unfold mbind, result_bind.
  rewrite first_functionality, first_backend by lia.
  assert ((nf =? 64) = false) as -> by (apply Z.eqb_neq; lia). rewrite orb_false_r.
  unfold keys_from at 1. destruct (fbits nf) as [|i rest] eqn:Ef; [done|].
  destruct (fbits_cons nf i rest Hnf Ef) as [Hi ->].
  assert ((i =? u64_max) = false) as -> by (apply Z.eqb_neq; unfold u64_max; lia).
  replace (i + 1 - 16) with (i - 15) by lia. unfold keys_at at 1.
  assert (ready (i + 1) 0) as Hnext by (split_and!; [lia..|by left]).
  destruct (isPerBackendFunctionalityKey (to_dk (i - 15))) eqn:Eper.
  - destruct (bbits nb) as [|b brest] eqn:Eb.
    + assert (nb = 0) as -> by (destruct Hrdy as [|(? & ? & _ & _ & []%not_eq_sym)]; congruence).
      rewrite Z.eqb_refl. simpl map. rewrite app_nil_l, <- keys_from_0.
      apply IH; [done|lia].
    + destruct (bbits_cons nb b brest Hnb Eb) as [Hb ->].
      assert ((b =? u64_max) = false) as -> by (apply Z.eqb_neq; unfold u64_max; lia).
      rewrite first_backend by lia. cbn [map app].
      destruct (bbits (b + 1)) as [|b' brest'] eqn:Eb'.
      * rewrite Z.eqb_refl. do 4 eexists. split_and!; [done|done|by rewrite keys_from_0|].
        apply deref_backend; [lia|lia|done].
      * destruct (bbits_cons (b + 1) b' brest' ltac:(lia) Eb') as [Hb' _].
        assert ((b' =? u64_max) = false) as -> by (apply Z.eqb_neq; unfold u64_max; lia).
        do 4 eexists. split_and!; [done| | |apply deref_backend; [lia|lia|done]].
        { split_and!; [lia..|]. right. exists i, (fbits (i + 1)). by rewrite Eb'. }
        unfold keys_from. rewrite Ef. unfold keys_at at 1. rewrite Eper, Eb'. done.
  - assert (nb = 0) as -> by (destruct Hrdy as [|(? & ? & E & ? & _)]; [done|congruence]).
    cbn. do 4 eexists. split_and!; [done|done|by rewrite keys_from_0|].
    unfold deref. cbn [current_dispatchkey_idx_]. by rewrite Eper.
Qed.

Lemma for_loop_spec fuel : ∀ ks nf nb cd cb k,
  ready nf nb → keys_from nf nb = ks → deref (mkIterator nf nb cd cb) = Ok k →
  (length ks < fuel)%nat →
  for_loop fuel R (mkIterator nf nb cd cb) (mkIterator 64 0 48 48) = Ok (k :: ks).
Proof.
  induction fuel as [|fuel IH]; intros ks nf nb cd cb k Hr Hks Hd Hf; [lia|].
  cbn [for_loop]. rewrite decide_False by (destruct Hr; congruence || (intros [= ->]; lia)).
  rewrite Hd. unfold mbind, result_bind.
  pose proof (increment_spec iterator_fuel nf nb cd cb Hr ltac:(unfold iterator_fuel; destruct Hr; lia)) as Hi.
  rewrite Hks in Hi. destruct ks as [|k' ks].
  - rewrite Hi. destruct fuel; done.
  - destruct Hi as (nf' & nb' & cd' & cb' & -> & Hr' & Hks' & Hd').
    rewrite (IH ks nf' nb' cd' cb' k' Hr' Hks' Hd'); [done|simpl in Hf; lia].
Qed.

Lemma bits_from_length n c : (length (bits_from R n c) <= c)%nat.
Proof using.
  revert n. induction c as [|c IH]; intros n; cbn [bits_from]; [done|].
  case_match; simpl; specialize (IH (n + 1)); lia.
Qed.

Lemma keys_at_length i : (length (keys_at i 0) <= 16)%nat.
Proof using.
  unfold keys_at. case_match; [|simpl; lia]. rewrite length_map. apply bits_from_length.
Qed.

Lemma increment_end fuel :
  increment (S fuel) R (mkIterator 64 0 48 48) = Ok (mkIterator 64 0 48 48).
Proof using.
  cbn [increment next_functionality_ next_backend_]. change end_iter_mask_val with 64.
  change (64 <=? 64) with true. change (0 <=? num_backends) with true.
  unfold TORCH_INTERNAL_ASSERT, mbind, result_bind.
  change (64 =? 64) with true. by rewrite orb_true_r.
Qed.

Lemma iterate_eq : iterate R = Ok (flat_map (fun i => keys_at i 0) (fbits 16)).
Proof.
  assert (length (flat_map (fun i => keys_at i 0) (fbits 16)) <= 16 * length (fbits 16))%nat as Hlen.
  { induction (fbits 16) as [|i l IH]; simpl; [done|]. rewrite length_app.
    pose proof (keys_at_length i). lia. }
  assert (length (fbits 16) <= 47)%nat as Hf by apply bits_from_length.
  rewrite <- keys_from_0 in *. unfold iterate, ks_begin, ks_end.
  assert (make_iterator R end_iter_mask_val 0 = Ok (mkIterator 64 0 48 48)) as Hend.
  { apply (increment_end 63). }
  rewrite Hend. unfold make_iterator. change (num_backends <=? num_backends) with true.
  change num_backends with 16. change end_iter_key_val with 48.
  unfold TORCH_INTERNAL_ASSERT. unfold mbind at 1 2 3, result_bind.
  assert (ready 16 0) as Hr by (split_and!; [lia..|by left]).
  pose proof (increment_spec iterator_fuel 16 0 48 48 Hr ltac:(unfold iterator_fuel; lia)) as Hi.
  destruct (keys_from 16 0) as [|k ks] eqn:Ek.
  - rewrite Hi. done.
  - destruct Hi as (nf & nb & cd & cb & -> & Hr' & Hks & Hd).
    apply for_loop_spec; [done..|]. simpl in Hlen. lia.
Qed.
End Iterator.

(** ** Membership, bit by bit. *)
Lemma has_all_pow2 s n : 0 <= n → has_all s (2 ^ n) = Z.testbit s n.
Proof.
  intros Hn. unfold has_all. rewrite land_pow2 by done. pose proof (Z.pow_pos_nonneg 2 n).
  destruct (Z.testbit s n); [by rewrite Z.eqb_refl|]. apply Z.eqb_neq. lia.
Qed.

Lemma has_all_iff s x : has_all s x = true ↔ ∀ i, 0 <= i → Z.testbit x i = true → Z.testbit s i = true.
Proof.
  unfold has_all. rewrite Z.eqb_eq. split.
  - intros E i Hi Hx. rewrite <- E, Z.land_spec in Hx. by apply andb_true_iff in Hx as [? _].
  - intros H. apply Z.bits_inj'. intros i Hi. rewrite Z.land_spec.
    destruct (Z.testbit x i) eqn:E; [|by rewrite andb_false_r]. by rewrite H.
Qed.

Lemma has_all_lor s x y : has_all s (Z.lor x y) = has_all s x && has_all s y.
Proof.
  apply eq_true_iff_eq. rewrite andb_true_iff, !has_all_iff. setoid_rewrite Z.lor_spec.
  setoid_rewrite orb_true_iff. split; [intros H; split; auto|intros [H1 H2] i Hi [?|?]; auto].
Qed.

(** The bit of a functionality, and that of a backend. *)
Definition fbit (k : DispatchKey) : Z := 15 + dk_val (toFunctionalityKey k).
Definition bbit (k : DispatchKey) : Z := bc_val (toBackendComponent k) - 1.
Definition per_backend (k : DispatchKey) : bool := isPerBackendFunctionalityKey (toFunctionalityKey k).

Lemma ks_key_bits k : isRuntimeKey k = true → k ≠ Undefined →
  ks_key k = Z.lor (2 ^ fbit k) (if per_backend k then 2 ^ bbit k else 0) ∧
  16 <= fbit k <= 62 ∧ (per_backend k = true → 0 <= bbit k <= 15).
Proof.
  assert (forallb (fun k => negb (isRuntimeKey k) || dk_eqb k Undefined ||
    ((ks_key k =? Z.lor (2 ^ fbit k) (if per_backend k then 2 ^ bbit k else 0)) &&
     (16 <=? fbit k) && (fbit k <=? 62) &&
     (negb (per_backend k) || ((0 <=? bbit k) && (bbit k <=? 15))))) all_dispatch_keys = true) as H
    by (vm_compute; reflexivity).
  apply all_keys_check with (k := k) in H. intros Hk Hu. rewrite Hk in H.
  destruct (dk_eqb k Undefined) eqn:E; [by apply dk_eqb_eq in E|]. simpl in H. bool_simpl.
  split_and!; [done|lia|lia|..]; intros Hp; rewrite Hp in *; simpl in *; bool_simpl; lia.
Qed.

Lemma has_runtime s k : isRuntimeKey k = true → k ≠ Undefined →
  has s k = Z.testbit s (fbit k) && (negb (per_backend k) || Z.testbit s (bbit k)).
Proof.
  intros Hk Hu. destruct (ks_key_bits k Hk Hu) as (E & Hf & Hb). unfold has.
  rewrite E, has_all_lor, has_all_pow2 by lia. f_equal. destruct (per_backend k).
  - rewrite has_all_pow2 by (specialize (Hb eq_refl); lia). done.
  - apply has_all_iff. intros i _. by rewrite Z.bits_0.
Qed.

Lemma In_bits_from R c : ∀ n i,
  In i (bits_from R n c) ↔ n <= i < n + Z.of_nat c ∧ Z.testbit R i = true.
Proof.
  induction c as [|c IH]; intros n i; cbn [bits_from]; [split; [done|lia]|].
  destruct (Z.testbit R n) eqn:E; [cbn [In]|]; rewrite IH; split.
  - intros [<-|[Hi Hb]]; (split; [lia|done]).
  - intros [Hi Hb]. destruct (decide (n = i)); [by left|right; split; [lia|done]].
  - intros [Hi Hb]. split; [lia|done].
  - intros [Hi Hb]. split; [|done]. destruct (decide (n = i)) as [->|]; [congruence|lia].
Qed.

Lemma bits_from_sorted R c : ∀ n, StronglySorted Z.lt (bits_from R n c).
Proof.
  induction c as [|c IH]; intros n; cbn [bits_from]; [constructor|].
  case_match; [|done]. constructor; [done|]. apply List.Forall_forall.
  intros i Hi%In_bits_from. lia.
Qed.

Lemma dk_val_to_dk z : 0 <= z <= 156 → dk_val (to_dk z) = z.
Proof.
  intros Hz. assert (forallb (fun z => dk_val (to_dk z) =? z) (numbers 157) = true) as H
    by (vm_compute; reflexivity).
  rewrite forallb_forall in H. apply Z.eqb_eq, H, In_numbers. lia.
Qed.

Lemma bc_val_to_bc z : 0 <= z <= 16 → bc_val (to_bc z) = z.
Proof.
  intros Hz. assert (forallb (fun z => bc_val (to_bc z) =? z) (numbers 17) = true) as H
    by (vm_compute; reflexivity).
  rewrite forallb_forall in H. apply Z.eqb_eq, H, In_numbers. lia.
Qed.

Lemma functionality_cases k :
  (isPerBackendFunctionalityKey k = true → toFunctionalityKey k = k ∧ k ≠ Undefined) ∧
  (1 <= dk_val k <= 47 → isPerBackendFunctionalityKey k = false →
     isRuntimeKey k = true ∧ toFunctionalityKey k = k ∧ k ≠ Undefined) ∧
  (isRuntimeKey k = true → per_backend k = false → toFunctionalityKey k = k ∧ 0 <= dk_val k <= 47) ∧
  (isRuntimeKey k = true → per_backend k = true → dk_leb k EndOfFunctionalityKeys = false).
Proof.
  assert (forallb (fun k =>
    (negb (isPerBackendFunctionalityKey k) ||
     (dk_eqb (toFunctionalityKey k) k && negb (dk_eqb k Undefined))) &&
    (negb ((1 <=? dk_val k) && (dk_val k <=? 47)) || isPerBackendFunctionalityKey k ||
     (isRuntimeKey k && dk_eqb (toFunctionalityKey k) k && negb (dk_eqb k Undefined))) &&
    (negb (isRuntimeKey k) || per_backend k ||
     (dk_eqb (toFunctionalityKey k) k && (0 <=? dk_val k) && (dk_val k <=? 47))) &&
    (negb (isRuntimeKey k) || negb (per_backend k) || negb (dk_leb k EndOfFunctionalityKeys)))
    all_dispatch_keys = true) as H by (vm_compute; reflexivity).
  apply all_keys_check with (k := k) in H.
  assert (∀ j, negb (dk_eqb k j) = true → k ≠ j) as Hne.
  { intros j Hj ->. apply negb_true_iff in Hj. assert (dk_eqb j j = true) by (by apply dk_eqb_eq). congruence. }
  rewrite !andb_true_iff in H. destruct H as [[[H1 H2] H3] H4]. split_and!.
  - intros Hp. rewrite Hp in H1. apply andb_true_iff in H1 as [?%dk_eqb_eq ?%Hne]. done.
  - intros [Ha%Z.leb_le Hb%Z.leb_le] Hp. rewrite Ha, Hb, Hp in H2. simpl in H2.
    rewrite !andb_true_iff in H2. destruct H2 as [[? ?%dk_eqb_eq] ?%Hne]. done.
  - intros Hr Hp. rewrite Hr, Hp in H3. simpl in H3. rewrite !andb_true_iff in H3.
    destruct H3 as [[?%dk_eqb_eq ?%Z.leb_le] ?%Z.leb_le]. done.
  - intros Hr Hp. rewrite Hr, Hp in H4. by apply negb_true_iff.
Qed.

Lemma In_keys_at R i k : 16 <= i <= 62 → Z.testbit R i = true →
  In k (keys_at R i 0) ↔ isRuntimeKey k = true ∧ k ≠ Undefined ∧ fbit k = i ∧ has R k = true.
Proof.
  intros Hi Hb. unfold keys_at. assert (dk_val (to_dk (i - 15)) = i - 15) as Hv
    by (apply dk_val_to_dk; lia).
  destruct (isPerBackendFunctionalityKey (to_dk (i - 15))) eqn:Ep.
  - rewrite in_map_iff. split.
    + intros (b & <- & Hbb). apply In_bits_from in Hbb as [Hbr Hbt].
      assert (bc_val (to_bc (b + 1)) = b + 1) as Hbv by (apply bc_val_to_bc; lia).
      destruct (runtime_key_join (to_dk (i - 15)) (to_bc (b + 1)) Ep) as (H1 & H2 & H3).
      { intros E. rewrite E in Hbv. simpl in Hbv. lia. }
      set (k := toRuntimePerBackendFunctionalityKey _ _) in *.
      assert (k ≠ Undefined) as Hu.
      { intros E. rewrite E in H2. rewrite <- H2 in Ep. done. }
      assert (fbit k = i) as Hf by (unfold fbit; rewrite H2; lia).
      split_and!; [done..|]. rewrite has_runtime by done. unfold per_backend, bbit.
      rewrite Hf, H2, H3, Ep, Hbv, Hb. simpl. by replace (b + 1 - 1) with b by lia.
    + intros (Hr & Hu & Hf & Hh). rewrite has_runtime in Hh by done. apply andb_true_iff in Hh as [_ Hh].
      assert (toFunctionalityKey k = to_dk (i - 15)) as E.
      { rewrite <- (to_dk_val (toFunctionalityKey k)). f_equal. unfold fbit in Hf. lia. }
      assert (per_backend k = true) as Hp by (unfold per_backend; by rewrite E).
      rewrite Hp in Hh. simpl in Hh.
      destruct (functionality_cases k) as (_ & _ & _ & Hk). specialize (Hk Hr Hp).
      destruct (runtime_key_split k Hr Hk) as (_ & _ & Ej). exists (bbit k).
      destruct (ks_key_bits k Hr Hu) as (_ & _ & Hbb). specialize (Hbb Hp). split.
      * rewrite <- E. etransitivity; [|exact Ej]. f_equal. unfold bbit.
        replace (bc_val (toBackendComponent k) - 1 + 1) with (bc_val (toBackendComponent k)) by lia.
        apply to_bc_val.
      * apply In_bits_from. split; [lia|done].
  - destruct (functionality_cases (to_dk (i - 15))) as (_ & Hn & _).
    destruct (Hn ltac:(lia) Ep) as (H1 & H2 & H3). cbn [In]. split.
    + intros [<-|[]]. assert (fbit (to_dk (i - 15)) = i) as Hf by (unfold fbit; rewrite H2; lia).
      split_and!; [done..|]. rewrite has_runtime by done. unfold per_backend. by rewrite Hf, H2, Ep, Hb.
    + intros (Hr & Hu & Hf & Hh). left.
      assert (toFunctionalityKey k = to_dk (i - 15)) as E.
      { rewrite <- (to_dk_val (toFunctionalityKey k)). f_equal. unfold fbit in Hf. lia. }
      destruct (functionality_cases k) as (_ & _ & Hk & _).
      destruct (Hk Hr) as [Ek _]; [unfold per_backend; by rewrite E|]. congruence.
Qed.

(** The slots of a functionality lie together, in the order of the bits. *)
Lemma slot_bounds k : isRuntimeKey k = true → k ≠ Undefined →
  let f := dk_val (toFunctionalityKey k) in
  index_of f 0 <= getDispatchTableIndexForDispatchKey k < index_of (f + 1) 0 ∨ f = 47 ∧
  getDispatchTableIndexForDispatchKey k = index_of f 0.
Proof.
  assert (forallb (fun k => negb (isRuntimeKey k) || dk_eqb k Undefined ||
    (let f := dk_val (toFunctionalityKey k) in
     ((index_of f 0 <=? getDispatchTableIndexForDispatchKey k) &&
      (getDispatchTableIndexForDispatchKey k <? index_of (f + 1) 0)) ||
     ((f =? 47) && (getDispatchTableIndexForDispatchKey k =? index_of f 0)))) all_dispatch_keys = true)
    as H by (vm_compute; reflexivity).
  apply all_keys_check with (k := k) in H. intros Hr Hu f. rewrite Hr in H.
  destruct (dk_eqb k Undefined) eqn:E; [by apply dk_eqb_eq in E|]. cbn [negb orb] in H. fold f in H.
  rewrite orb_true_iff, !andb_true_iff, Z.leb_le, Z.ltb_lt, !Z.eqb_eq in H. tauto.
Qed.

Lemma index_of_mono f f' : 0 <= f → f < f' → f' <= 47 → index_of (f + 1) 0 <= index_of f' 0.
Proof.
  assert (forallb (fun f => forallb (fun f' => negb (f <? f') || (index_of (f + 1) 0 <=? index_of f' 0))
    (numbers 48)) (numbers 48) = true) as H by (vm_compute; reflexivity).
  intros H0 H1 H2. rewrite forallb_forall in H. specialize (H f (In_numbers 48 f ltac:(lia))).
  rewrite forallb_forall in H. specialize (H f' (In_numbers 48 f' ltac:(lia))).
  rewrite (proj2 (Z.ltb_lt f f')) in H by done. by apply Z.leb_le.
Qed.

Definition slot_lt (k1 k2 : DispatchKey) : Prop :=
  getDispatchTableIndexForDispatchKey k1 < getDispatchTableIndexForDispatchKey k2.

Lemma keys_at_sorted R i : 16 <= i <= 62 → StronglySorted slot_lt (keys_at R i 0).
Proof.
  intros Hi. unfold keys_at. destruct (isPerBackendFunctionalityKey (to_dk (i - 15))) eqn:Ep.
  2: { repeat constructor. }
  assert (forallb (fun f => forallb (fun b => forallb (fun b' =>
    negb (isPerBackendFunctionalityKey (to_dk f)) || negb (b <? b') ||
    (getDispatchTableIndexForDispatchKey (toRuntimePerBackendFunctionalityKey (to_dk f) (to_bc (b + 1))) <?
     getDispatchTableIndexForDispatchKey (toRuntimePerBackendFunctionalityKey (to_dk f) (to_bc (b' + 1)))))
    (numbers 16)) (numbers 16)) (numbers 48) = true) as H by (vm_compute; reflexivity).
  rewrite forallb_forall in H. specialize (H (i - 15) (In_numbers 48 (i - 15) ltac:(lia))).
  rewrite forallb_forall in H.
  assert (∀ b, In b (bbits R 0) → 0 <= b < 16) as Hb by (intros b Hb%In_bits_from; lia).
  pose proof (bits_from_sorted R (Z.to_nat (16 - 0)) 0) as Hs. fold (bbits R 0) in Hs.
  induction Hs as [|b l Hl IH Hall]; simpl; [constructor|]. constructor.
  - apply IH. intros b' Hb'. apply Hb. by right.
  - apply List.Forall_forall. intros k (b' & <- & Hb')%in_map_iff.
    rewrite List.Forall_forall in Hall. specialize (Hall b' Hb').
    specialize (H b (In_numbers 16 b ltac:(apply Hb; by left))). rewrite forallb_forall in H.
    specialize (H b' (In_numbers 16 b' ltac:(apply Hb; by right))).
    rewrite Ep, (proj2 (Z.ltb_lt b b')) in H by done. by apply Z.ltb_lt.
Qed.

(**  A range-based loop over a set visits exactly the runtime keys the set
    has, each once, in the order of their slots: building-block bits without a
    backend are skipped and per-backend functionalities are expanded over all
    backends of the set. *)
Theorem iterate_spec s :
  0 <= s < 2 ^ 63 →
  ∃ ks, iterate s = Ok ks ∧
    (∀ k, In k ks ↔ isRuntimeKey k = true ∧ k ≠ Undefined ∧ has s k = true) ∧
    StronglySorted slot_lt ks.
Proof.
  intros Hs. eexists. split; [by apply iterate_eq|].
  assert (∀ i, In i (fbits s 16) ↔ 16 <= i <= 62 ∧ Z.testbit s i = true) as Hfb.
  { intros i. unfold fbits. rewrite In_bits_from.
    change (16 + Z.of_nat (Z.to_nat (63 - 16))) with 63. split; intros [? ?]; (split; [lia|done]). }
  split.
  - intros k. rewrite in_flat_map. split.
    + intros (i & [Hi Hb]%Hfb & Hk). apply In_keys_at in Hk; [|done..]. tauto.
    + intros (Hr & Hu & Hh). destruct (ks_key_bits k Hr Hu) as (_ & Hf & _).
      pose proof Hh as Hh'. rewrite has_runtime in Hh' by done. apply andb_true_iff in Hh' as [Hb _].
      exists (fbit k). split; [by apply Hfb|]. by apply In_keys_at.
  - pose proof (bits_from_sorted s (Z.to_nat (63 - 16)) 16) as Hsort. fold (fbits s 16) in Hsort.
    assert (∀ i, In i (fbits s 16) → 16 <= i <= 62 ∧ Z.testbit s i = true) as Hin by (intros; by apply Hfb).
    clear Hfb. induction Hsort as [|i l Hl IH Hall]; simpl; [constructor|].
    apply StronglySorted_app_in.
    + apply keys_at_sorted. by apply Hin; left.
    + apply IH. intros j Hj. apply Hin. by right.
    + intros k1 k2 H1 (j & Hj & H2)%in_flat_map.
      destruct (Hin i ltac:(by left)) as [Hi Hbi], (Hin j ltac:(by right)) as [Hj' Hbj].
      rewrite List.Forall_forall in Hall. specialize (Hall j Hj).
      apply In_keys_at in H1 as (Hr1 & Hu1 & Hf1 & _); [|done..].
      apply In_keys_at in H2 as (Hr2 & Hu2 & Hf2 & _); [|done..].
      pose proof (slot_bounds k1 Hr1 Hu1) as Hs1. pose proof (slot_bounds k2 Hr2 Hu2) as Hs2.
      unfold fbit in Hf1, Hf2. cbv zeta in *. unfold slot_lt.
      replace (dk_val (toFunctionalityKey k1)) with (i - 15) in Hs1 by lia.
      replace (dk_val (toFunctionalityKey k2)) with (j - 15) in Hs2 by lia.
      pose proof (index_of_mono (i - 15) (j - 15) ltac:(lia) ltac:(lia) ltac:(lia)). lia.
Qed.

Lemma iterate_spec_witness :
  ∃ ks, iterate (ks_keys [CPU; Dense; CUDA; Python]) = Ok ks ∧ ks = [CPU; CUDA; Python] ∧
    (In CUDA ks ↔ isRuntimeKey CUDA = true ∧ CUDA ≠ Undefined ∧
       has (ks_keys [CPU; Dense; CUDA; Python]) CUDA = true).
Proof.
  assert (0 <= ks_keys [CPU; Dense; CUDA; Python] < 2 ^ 63) as Hb
    by (vm_compute; split; [discriminate|reflexivity]).
  destruct (iterate_spec _ Hb) as (ks & E & Hin & _). exists ks. split; [exact E|split; [|apply Hin]].
  assert (iterate (ks_keys [CPU; Dense; CUDA; Python]) = Ok [CPU; CUDA; Python]) as E'
    by (vm_compute; reflexivity).
  rewrite E' in E. injection E as <-. reflexivity.
Defined.

(**  Resolving an alias key: for every alias and runtime key, the direct
    membership test agrees with membership in the resolved set, and
    [isBackendDispatchKey] is inclusion in [CompositeExplicitAutograd]. *)
Theorem alias_membership t k :
  isAliasDispatchKey t = true → isRuntimeKey k = true → k ≠ Undefined →
  ∃ s, getRuntimeDispatchKeySet t = Ok s ∧
    runtimeDispatchKeySetHas t k = Ok (has s k) ∧ isIncludedInAlias k t = Ok (has s k) ∧
    isBackendDispatchKey k = has backend_dispatch_keyset k.
Proof.
  intros Ht Hk Hu.
  assert (forallb (fun t => negb (isAliasDispatchKey t) || forallb (fun k =>
    negb (isRuntimeKey k) || dk_eqb k Undefined ||
    match getRuntimeDispatchKeySet t with
    | Ok s => bool_decide (runtimeDispatchKeySetHas t k = Ok (has s k)) &&
              bool_decide (isIncludedInAlias k t = Ok (has s k)) &&
              Bool.eqb (isBackendDispatchKey k) (has backend_dispatch_keyset k)
    | Throw _ => false
    end) all_dispatch_keys) all_dispatch_keys = true) as H by (vm_compute; reflexivity).
  apply all_keys_check with (k := t) in H. rewrite Ht in H. cbn [negb orb] in H.
  apply all_keys_check with (k := k) in H. rewrite Hk in H.
  destruct (dk_eqb k Undefined) eqn:E; [by apply dk_eqb_eq in E|]. cbn [negb orb] in H.
  destruct (getRuntimeDispatchKeySet t) as [s|e]; [|done]. exists s. split; [done|].
  rewrite !andb_true_iff, !bool_decide_eq_true in H. destruct H as [[? ?] ?%Bool.eqb_prop]. done.
Qed.

Lemma alias_membership_witness :
  runtimeDispatchKeySetHas CompositeExplicitAutogradNonFunctional SparseCPU = Ok false ∧
  ∃ s, getRuntimeDispatchKeySet CompositeExplicitAutogradNonFunctional = Ok s ∧ has s SparseCPU = false.
Proof.
  destruct (alias_membership CompositeExplicitAutogradNonFunctional SparseCPU eq_refl eq_refl
    ltac:(discriminate)) as (s & E1 & E2 & _).
  assert (runtimeDispatchKeySetHas CompositeExplicitAutogradNonFunctional SparseCPU = Ok false) as E3
    by (vm_compute; reflexivity).
  split; [exact E3|]. exists s. split; [exact E1|]. congruence.
Defined.

(** ** The bits of the operations. *)
Lemma not64_bits x i : is_u64 x → 0 <= i < 64 → Z.testbit (not64 x) i = negb (Z.testbit x i).
Proof. intros Hx Hi. unfold not64, to_u64. by rewrite Z.mod_pow2_bits_low, Z.lnot_spec by lia. Qed.

Lemma full_mask_bits i : 0 <= i → Z.testbit full_backend_mask i = (i <? 16).
Proof. intros Hi. change full_backend_mask with (Z.ones 16). by apply Z.testbit_ones_nonneg; lia. Qed.

Lemma minus_bits s o i : is_u64 o → 0 <= i < 64 →
  Z.testbit (ks_minus s o) i = Z.testbit s i && ((i <? 16) || negb (Z.testbit o i)).
Proof.
  intros Ho Hi. unfold ks_minus. by rewrite Z.land_spec, Z.lor_spec, full_mask_bits, not64_bits by (done || lia).
Qed.

Lemma ks_key_u64 k : is_u64 (ks_key k).
Proof. unfold is_u64, u64_max. destruct k; vm_compute; split; discriminate || reflexivity. Qed.

Lemma ks_key_testbit k i : isRuntimeKey k = true → k ≠ Undefined → 0 <= i →
  Z.testbit (ks_key k) i = (i =? fbit k) || (per_backend k && (i =? bbit k)).
Proof.
  intros Hk Hu Hi. destruct (ks_key_bits k Hk Hu) as (E & Hf & Hb).
  rewrite E, Z.lor_spec, Z.pow2_bits_eqb, (Z.eqb_sym i) by lia. f_equal.
  destruct (per_backend k); [|apply Z.bits_0]. specialize (Hb eq_refl).
  by rewrite Z.pow2_bits_eqb, Z.eqb_sym by lia.
Qed.

Lemma remove_bits s t i : isRuntimeKey t = true → t ≠ Undefined → 0 <= i < 64 →
  Z.testbit (remove s t) i = Z.testbit s i && negb (i =? fbit t).
Proof.
  intros Ht Hu Hi. destruct (ks_key_bits t Ht Hu) as (_ & Hf & Hb). unfold remove.
  assert (is_u64 (not64 full_backend_mask)) by apply to_u64_range.
  rewrite Z.land_spec, not64_bits, Z.land_spec, not64_bits, full_mask_bits
    by (by apply land_u64 || done || lia).
  f_equal. rewrite ks_key_testbit by (done || lia).
  destruct (Z.ltb_spec i 16); simpl.
  - rewrite andb_false_r. simpl. symmetry. apply negb_true_iff, Z.eqb_neq. lia.
  - destruct (per_backend t); simpl; rewrite ?orb_false_r, andb_true_r; [|done].
    specialize (Hb eq_refl). assert ((i =? bbit t) = false) as -> by (apply Z.eqb_neq; lia).
    by rewrite orb_false_r.
Qed.

(**  Adding and removing keys: [add] makes the key a member, [remove] and
    the difference take functionalities away and nothing else, for every
    backend at once, and no backend bit is ever lost. *)
Theorem keyset_algebra s o t u :
  is_u64 s → is_u64 o →
  isRuntimeKey t = true → t ≠ Undefined → isRuntimeKey u = true → u ≠ Undefined →
  has (add s t) t = true ∧
  has (remove s t) u = has s u && negb (dk_eqb (toFunctionalityKey u) (toFunctionalityKey t)) ∧
  has (ks_minus s o) u = has s u && negb (Z.testbit o (fbit u)) ∧
  (∀ b, has_backend (remove s t) b = has_backend s b ∧
        has_backend (ks_minus s o) b = has_backend s b).
Proof.
  intros Hs Ho Ht Htu Hu Huu.
  destruct (ks_key_bits t Ht Htu) as (Et & Hft & Hbt).
  destruct (ks_key_bits u Hu Huu) as (_ & Hfu & Hbu).
  pose proof (λ i, minus_bits s o i Ho) as Hminus. pose proof (λ i, remove_bits s t i Ht Htu) as Hrem.
  split_and!.
  - unfold has, add, ks_or. apply has_all_iff. intros i Hi Hb. rewrite Z.lor_spec, Hb. apply orb_true_r.
  - rewrite !has_runtime by done. rewrite Hrem by lia.
    assert ((fbit u =? fbit t) = dk_eqb (toFunctionalityKey u) (toFunctionalityKey t)) as ->.
    { unfold fbit, dk_eqb. apply eq_true_iff_eq. rewrite !Z.eqb_eq. lia. }
    destruct (per_backend u); simpl.
    + specialize (Hbu eq_refl). rewrite Hrem by lia.
      assert ((bbit u =? fbit t) = false) as -> by (apply Z.eqb_neq; lia).
      rewrite andb_true_r, <- !andb_assoc. f_equal. apply andb_comm.
    + by rewrite !andb_true_r.
  - rewrite !has_runtime by done. rewrite Hminus by lia.
    assert ((fbit u <? 16) = false) as -> by (apply Z.ltb_ge; lia). simpl.
    destruct (per_backend u); simpl.
    + specialize (Hbu eq_refl). rewrite Hminus by lia.
      assert ((bbit u <? 16) = true) as -> by (apply Z.ltb_lt; lia). simpl.
      rewrite andb_true_r, <- !andb_assoc. f_equal. apply andb_comm.
    + by rewrite !andb_true_r.
  - intros b.
    assert (∀ x, has_backend x b = if bc_eqb b InvalidBit then true else Z.testbit x (bc_val b - 1)) as Hbk.
    { intros x. unfold has_backend. assert (ks_backend b = if bc_eqb b InvalidBit then 0 else 2 ^ (bc_val b - 1)) as ->
        by (destruct b; reflexivity).
      case_bool; [apply has_all_iff; intros i _; by rewrite Z.bits_0|].
      apply has_all_pow2. destruct b; simpl; done || lia. }
    rewrite !Hbk. destruct (bc_eqb b InvalidBit) eqn:Eb; [done|].
    assert (0 <= bc_val b - 1 <= 15) by (destruct b; simpl in *; done || lia).
    rewrite Hrem, Hminus by lia.
    assert ((bc_val b - 1 =? fbit t) = false) as -> by (apply Z.eqb_neq; lia).
    assert ((bc_val b - 1 <? 16) = true) as -> by (apply Z.ltb_lt; lia).
    by rewrite !andb_true_r.
Qed.

Lemma keyset_algebra_witness :
  has (remove (ks_keys [CPU; CUDA; AutogradCUDA]) AutogradCPU) AutogradCUDA = false ∧
  has_backend (remove (ks_keys [CPU; CUDA; AutogradCUDA]) AutogradCPU) CUDABit
  = has_backend (ks_keys [CPU; CUDA; AutogradCUDA]) CUDABit.
Proof.
  assert (is_u64 (ks_keys [CPU; CUDA; AutogradCUDA])) as Hs
    by (vm_compute; split; discriminate).
  split; [vm_compute; reflexivity|].
  exact (proj1 (proj2 (proj2 (proj2 (keyset_algebra (ks_keys [CPU; CUDA; AutogradCUDA]) 0 AutogradCPU
    AutogradCUDA Hs ltac:(vm_compute; split; discriminate) eq_refl ltac:(discriminate) eq_refl
    ltac:(discriminate)))) CUDABit)).
Defined.

(**  Autograd keys and backends: the autograd key of a backend is an
    autograd key and contains [ADInplaceOrView] with it; reading the backends
    back from the autograd key gives a set with the backend's dense key for
    every backend but HIP and VE, which share [AutogradOther] although they
    have their own backend bits, and MTIA, whose set is empty. *)
Theorem autograd_backend_duality b :
  b ≠ InvalidBit →
  let k := getAutogradKeyFromBackend b in
  has (getAutogradRelatedKeySetFromBackend b) k = true ∧
  has (getAutogradRelatedKeySetFromBackend b) ADInplaceOrView = true ∧
  runtimeDispatchKeySetHas Autograd k = Ok true ∧
  (getBackendKeySetFromAutograd k = 0 ↔ b = MTIABit) ∧
  (k = AutogradOther ↔ b = HIPBit ∨ b = VEBit) ∧
  (b ≠ HIPBit → b ≠ VEBit → b ≠ MTIABit →
     getBackendKeySetFromAutograd k = ks_key (toRuntimePerBackendFunctionalityKey Dense b)).
Proof.
  assert (forallb (fun b =>
    bc_eqb b InvalidBit ||
    (let k := getAutogradKeyFromBackend b in
     has (getAutogradRelatedKeySetFromBackend b) k &&
     has (getAutogradRelatedKeySetFromBackend b) ADInplaceOrView &&
     bool_decide (runtimeDispatchKeySetHas Autograd k = Ok true) &&
     bool_decide (getBackendKeySetFromAutograd k = 0 ↔ b = MTIABit) &&
     bool_decide (k = AutogradOther ↔ b = HIPBit ∨ b = VEBit) &&
     bool_decide (b ≠ HIPBit → b ≠ VEBit → b ≠ MTIABit →
       getBackendKeySetFromAutograd k = ks_key (toRuntimePerBackendFunctionalityKey Dense b))))
    all_backend_components = true) as H by (vm_compute; reflexivity).
  rewrite forallb_forall in H. specialize (H b (In_all_backend_components b)).
  intros Hb. apply orb_true_iff in H as [H|H].
  { exfalso. apply Hb. rewrite <- (to_bc_val b). unfold bc_eqb in H. apply Z.eqb_eq in H.
    rewrite H. done. }
  rewrite !andb_true_iff, !bool_decide_eq_true in H. intros k. fold k in H. tauto.
Qed.

Lemma autograd_backend_duality_witness :
  getAutogradKeyFromBackend HIPBit = AutogradOther ∧
  getBackendKeySetFromAutograd AutogradMTIA = 0.
Proof.
  split.
  - apply (autograd_backend_duality HIPBit); [discriminate|]. left. reflexivity.
  - apply (autograd_backend_duality MTIABit); [discriminate|]. reflexivity.
Defined.
