(* ===== verification/ScalarType.v ===== *)
(** * Scalar types and type promotion.

    The enumeration of torch/headeronly/core/ScalarType.h, with the macro list
    that generates it written out, the predicates and conversions of
    c10/core/ScalarType.h, [promoteTypes], the names of the dtypes and the map
    from names to dtypes of c10/core/ScalarType.cpp, the default dtypes of
    c10/core/DefaultDtype.cpp and the result type of an operation of
    aten/src/ATen/native/TypeProperties.cpp.  The property of [promoteTypes] is
    stated against a reference order: ranges for the integer types, precision
    and exponent range for the floating-point ones. *)

From S2P Require Import Prelude.

Inductive ScalarType : Type :=
  | Byte | Char | Short | Int | Long | Half | Float | Double | ComplexHalf | ComplexFloat |
  ComplexDouble | Bool | QInt8 | QUInt8 | QInt32 | BFloat16 | QUInt4x2 | QUInt2x4 | Bits1x8 |
  Bits2x4 | Bits4x2 | Bits8 | Bits16 | Float8_e5m2 | Float8_e4m3fn | Float8_e5m2fnuz |
  Float8_e4m3fnuz | UInt16 | UInt32 | UInt64 | UInt1 | UInt2 | UInt3 | UInt4 | UInt5 | UInt6 |
  UInt7 | Int1 | Int2 | Int3 | Int4 | Int5 | Int6 | Int7 | Float8_e8m0fnu | Float4_e2m1fn_x2 |
  Undefined | NumOptions.

(** The expansion of AT_FORALL_SCALAR_TYPES_WITH_COMPLEX_AND_QINTS, in its
    order: all enumerators but [Undefined] and [NumOptions]. *)
Definition forall_scalar_types : list ScalarType :=
  [Byte; Char; Short; Int; Long; Half; Float; Double; ComplexHalf; ComplexFloat; ComplexDouble;
  Bool; QInt8; QUInt8; QInt32; BFloat16; QUInt4x2; QUInt2x4; Bits1x8; Bits2x4; Bits4x2; Bits8;
  Bits16; Float8_e5m2; Float8_e4m3fn; Float8_e5m2fnuz; Float8_e4m3fnuz; UInt16; UInt32; UInt64;
  UInt1; UInt2; UInt3; UInt4; UInt5; UInt6; UInt7; Int1; Int2; Int3; Int4; Int5; Int6; Int7;
  Float8_e8m0fnu; Float4_e2m1fn_x2].

(** The value of an enumerator. *)
Definition st_val (t : ScalarType) : Z :=
  match t with
  | Byte => 0 | Char => 1 | Short => 2 | Int => 3 | Long => 4 | Half => 5 | Float => 6 | Double
  => 7 | ComplexHalf => 8 | ComplexFloat => 9 | ComplexDouble => 10 | Bool => 11 | QInt8 => 12 |
  QUInt8 => 13 | QInt32 => 14 | BFloat16 => 15 | QUInt4x2 => 16 | QUInt2x4 => 17 | Bits1x8 => 18
  | Bits2x4 => 19 | Bits4x2 => 20 | Bits8 => 21 | Bits16 => 22 | Float8_e5m2 => 23 |
  Float8_e4m3fn => 24 | Float8_e5m2fnuz => 25 | Float8_e4m3fnuz => 26 | UInt16 => 27 | UInt32 =>
  28 | UInt64 => 29 | UInt1 => 30 | UInt2 => 31 | UInt3 => 32 | UInt4 => 33 | UInt5 => 34 |
  UInt6 => 35 | UInt7 => 36 | Int1 => 37 | Int2 => 38 | Int3 => 39 | Int4 => 40 | Int5 => 41 |
  Int6 => 42 | Int7 => 43 | Float8_e8m0fnu => 44 | Float4_e2m1fn_x2 => 45 | Undefined => 46 |
  NumOptions => 47
  end.

Definition all_scalar_types : list ScalarType := forall_scalar_types ++ [Undefined; NumOptions].

Definition to_st (v : Z) : ScalarType := nth (Z.to_nat v) all_scalar_types NumOptions.

Lemma to_st_val t : to_st (st_val t) = t.
Proof. by destruct t. Qed.

(** [operator==] of the enumeration. *)
Definition st_eqb (a b : ScalarType) : bool := st_val a =? st_val b.

Lemma st_eqb_eq a b : st_eqb a b = true ↔ a = b.
Proof.
  unfold st_eqb. rewrite Z.eqb_eq. split; [|by intros ->].
  intros E. by rewrite <- (to_st_val a), E, to_st_val.
Qed.

#[export] Instance st_eq_dec : EqDecision ScalarType.
Proof.
  intros a b. destruct (st_eqb a b) eqn:E.
  - left. by apply st_eqb_eq.
  - right. intros H. apply st_eqb_eq in H. congruence.
Defined.

#[export] Instance scalar_type_inhabited : Inhabited ScalarType := populate Undefined.

(** ** Strings and sizes. *)
Definition toString (t : ScalarType) : string :=
  match t with
  | Byte => "Byte" | Char => "Char" | Short => "Short" | Int => "Int" | Long => "Long" | Half =>
  "Half" | Float => "Float" | Double => "Double" | ComplexHalf => "ComplexHalf" | ComplexFloat
  => "ComplexFloat" | ComplexDouble => "ComplexDouble" | Bool => "Bool" | QInt8 => "QInt8" |
  QUInt8 => "QUInt8" | QInt32 => "QInt32" | BFloat16 => "BFloat16" | QUInt4x2 => "QUInt4x2" |
  QUInt2x4 => "QUInt2x4" | Bits1x8 => "Bits1x8" | Bits2x4 => "Bits2x4" | Bits4x2 => "Bits4x2" |
  Bits8 => "Bits8" | Bits16 => "Bits16" | Float8_e5m2 => "Float8_e5m2" | Float8_e4m3fn =>
  "Float8_e4m3fn" | Float8_e5m2fnuz => "Float8_e5m2fnuz" | Float8_e4m3fnuz => "Float8_e4m3fnuz"
  | UInt16 => "UInt16" | UInt32 => "UInt32" | UInt64 => "UInt64" | UInt1 => "UInt1" | UInt2 =>
  "UInt2" | UInt3 => "UInt3" | UInt4 => "UInt4" | UInt5 => "UInt5" | UInt6 => "UInt6" | UInt7 =>
  "UInt7" | Int1 => "Int1" | Int2 => "Int2" | Int3 => "Int3" | Int4 => "Int4" | Int5 => "Int5" |
  Int6 => "Int6" | Int7 => "Int7" | Float8_e8m0fnu => "Float8_e8m0fnu" | Float4_e2m1fn_x2 =>
  "Float4_e2m1fn_x2" | Undefined | NumOptions => "UNKNOWN_SCALAR"
  end.

(** [sizeof] of the C++ type of a scalar type (a complex number is two
    values, the packed quantized types and the dummy types one byte). *)
Definition sizeof_ctype (t : ScalarType) : option Z :=
  match t with
  | Byte => Some 1 | Char => Some 1 | Short => Some 2 | Int => Some 4 | Long => Some 8 | Half =>
  Some 2 | Float => Some 4 | Double => Some 8 | ComplexHalf => Some 4 | ComplexFloat => Some 8 |
  ComplexDouble => Some 16 | Bool => Some 1 | QInt8 => Some 1 | QUInt8 => Some 1 | QInt32 =>
  Some 4 | BFloat16 => Some 2 | QUInt4x2 => Some 1 | QUInt2x4 => Some 1 | Bits1x8 => Some 1 |
  Bits2x4 => Some 1 | Bits4x2 => Some 1 | Bits8 => Some 1 | Bits16 => Some 2 | Float8_e5m2 =>
  Some 1 | Float8_e4m3fn => Some 1 | Float8_e5m2fnuz => Some 1 | Float8_e4m3fnuz => Some 1 |
  UInt16 => Some 2 | UInt32 => Some 4 | UInt64 => Some 8 | UInt1 => Some 1 | UInt2 => Some 1 |
  UInt3 => Some 1 | UInt4 => Some 1 | UInt5 => Some 1 | UInt6 => Some 1 | UInt7 => Some 1 | Int1
  => Some 1 | Int2 => Some 1 | Int3 => Some 1 | Int4 => Some 1 | Int5 => Some 1 | Int6 => Some 1
  | Int7 => Some 1 | Float8_e8m0fnu => Some 1 | Float4_e2m1fn_x2 => Some 1 | Undefined |
  NumOptions => None
  end.

Definition elementSize (t : ScalarType) : result Z :=
  match sizeof_ctype t with
  | Some n => Ok n
  | None => Throw (Error "Unknown ScalarType")
  end.

Definition opaqueScalarType (t : ScalarType) : result ScalarType :=
  esize ← elementSize t;
  match esize with
  | 1 => Ok Byte
  | 2 => Ok UInt16
  | 4 => Ok UInt32
  | 8 => Ok UInt64
  | 16 => Ok ComplexDouble
  | _ => Throw (Error "Unknown ScalarType")
  end.

Definition getDtypeNames (scalarType : ScalarType) : result (string * string) :=
  match scalarType with
  | UInt1 => Ok ("uint1", "bit") | UInt2 => Ok ("uint2", EmptyString) | UInt3 =>
  Ok ("uint3", EmptyString) | UInt4 => Ok ("uint4", EmptyString) | UInt5 =>
  Ok ("uint5", EmptyString) | UInt6 => Ok ("uint6", EmptyString) | UInt7 =>
  Ok ("uint7", EmptyString) | Byte => Ok ("uint8", EmptyString) | UInt16 =>
  Ok ("uint16", EmptyString) | UInt32 => Ok ("uint32", EmptyString) | UInt64 =>
  Ok ("uint64", EmptyString) | Int1 => Ok ("int1", EmptyString) | Int2 =>
  Ok ("int2", EmptyString) | Int3 => Ok ("int3", EmptyString) | Int4 => Ok ("int4", EmptyString)
  | Int5 => Ok ("int5", EmptyString) | Int6 => Ok ("int6", EmptyString) | Int7 =>
  Ok ("int7", EmptyString) | Char => Ok ("int8", EmptyString) | Double =>
  Ok ("float64", "double") | Float => Ok ("float32", "float") | Int => Ok ("int32", "int") |
  Long => Ok ("int64", "long") | Short => Ok ("int16", "short") | Half => Ok ("float16", "half")
  | ComplexHalf => Ok ("complex32", "chalf") | ComplexFloat => Ok ("complex64", "cfloat") |
  ComplexDouble => Ok ("complex128", "cdouble") | Bool => Ok ("bool", EmptyString) | QInt8 =>
  Ok ("qint8", EmptyString) | QUInt8 => Ok ("quint8", EmptyString) | QInt32 =>
  Ok ("qint32", EmptyString) | BFloat16 => Ok ("bfloat16", EmptyString) | QUInt4x2 =>
  Ok ("quint4x2", EmptyString) | QUInt2x4 => Ok ("quint2x4", EmptyString) | Bits1x8 =>
  Ok ("bits1x8", EmptyString) | Bits2x4 => Ok ("bits2x4", EmptyString) | Bits4x2 =>
  Ok ("bits4x2", EmptyString) | Bits8 => Ok ("bits8", EmptyString) | Bits16 =>
  Ok ("bits16", EmptyString) | Float8_e5m2 => Ok ("float8_e5m2", EmptyString) | Float8_e4m3fn =>
  Ok ("float8_e4m3fn", EmptyString) | Float8_e5m2fnuz => Ok ("float8_e5m2fnuz", EmptyString) |
  Float8_e4m3fnuz => Ok ("float8_e4m3fnuz", EmptyString) | Float8_e8m0fnu =>
  Ok ("float8_e8m0fnu", EmptyString) | Float4_e2m1fn_x2 => Ok ("float4_e2m1fn_x2", EmptyString)
  | Undefined | NumOptions => Throw (Error "Unimplemented scalar type")
  end.

Definition getScalarTypeAbbr (scalarType : ScalarType) : result string :=
  match scalarType with
  | Double => Ok "f64" | Float => Ok "f32" | Half => Ok "f16" | BFloat16 => Ok "bf16" |
  Float8_e4m3fn => Ok "f8e4m3fn" | Float8_e5m2 => Ok "f8e5m2" | Float8_e4m3fnuz =>
  Ok "f8e4m3fnuz" | Float8_e5m2fnuz => Ok "f8e5m2fnuz" | Float8_e8m0fnu => Ok "f8e8m0fnu" |
  Float4_e2m1fn_x2 => Ok "f4e2m1fnx2" | ComplexHalf => Ok "c32" | ComplexFloat => Ok "c64" |
  ComplexDouble => Ok "c128" | Char => Ok "i8" | Short => Ok "i16" | Int => Ok "i32" | Long =>
  Ok "i64" | Bool => Ok "b8" | Byte => Ok "u8" | UInt16 => Ok "u16" | UInt32 => Ok "u32" |
  UInt64 => Ok "u64" | Bits16 => Ok "b16x1" | Bits1x8 => Ok "b1x8" | Bits2x4 => Ok "b2x4" |
  Bits4x2 => Ok "b4x2" | Bits8 => Ok "b8x1"
  | _ => names ← getDtypeNames scalarType; Ok names.1
  end.

(** ** Predicates. *)
Definition one_of (ts : list ScalarType) (t : ScalarType) : bool := existsb (st_eqb t) ts.

Definition isIntegralType (t : ScalarType) (includeBool : bool) : bool :=
  let isIntegral := one_of [Byte; Char; Int; Long; Short; UInt16; UInt32; UInt64] t in
  isIntegral || (includeBool && st_eqb t Bool).

Definition isFloat8Type (t : ScalarType) : bool :=
  one_of [Float8_e5m2; Float8_e5m2fnuz; Float8_e4m3fn; Float8_e4m3fnuz; Float8_e8m0fnu] t.

Definition isReducedFloatingType (t : ScalarType) : bool :=
  st_eqb t Half || st_eqb t BFloat16 || isFloat8Type t || st_eqb t Float4_e2m1fn_x2.

Definition isFloatingType (t : ScalarType) : bool :=
  st_eqb t Double || st_eqb t Float || isReducedFloatingType t.

Definition isComplexType (t : ScalarType) : bool := one_of [ComplexHalf; ComplexFloat; ComplexDouble] t.

Definition isBitsType (t : ScalarType) : bool := one_of [Bits1x8; Bits2x4; Bits4x2; Bits8; Bits16] t.

Definition isBarebonesUnsignedType (t : ScalarType) : bool :=
  one_of [UInt1; UInt2; UInt3; UInt4; UInt5; UInt6; UInt7; UInt16; UInt32; UInt64] t.

Definition isQIntType (t : ScalarType) : bool := one_of [QInt8; QUInt8; QInt32; QUInt4x2; QUInt2x4] t.

Definition toQIntType (t : ScalarType) : ScalarType :=
  match t with
  | Byte => QUInt8
  | Char => QInt8
  | Int => QInt32
  | _ => t
  end.

Definition toUnderlying (t : ScalarType) : ScalarType :=
  match t with
  | QUInt8 | QUInt4x2 | QUInt2x4 => Byte
  | QInt8 => Char
  | QInt32 => Int
  | _ => t
  end.

Definition isUnderlying (type qtype : ScalarType) : bool := st_eqb type (toUnderlying qtype).

(** [std::numeric_limits<T>::is_signed] of the C++ types the macro of
    [isSignedType] lists; a complex type has that of its component. *)
Definition numeric_is_signed (t : ScalarType) : bool :=
  negb (one_of [UInt16; UInt32; UInt64; Byte; Bool; Float8_e8m0fnu] t).

Definition isSignedType (t : ScalarType) : result bool :=
  match t with
  | QInt8 | QUInt8 | QInt32 | QUInt4x2 | QUInt2x4 =>
      Throw (Error "isSignedType not supported for quantized types")
  | Bits1x8 | Bits2x4 | Bits4x2 | Bits8 | Bits16 => Throw (Error "Bits types are undefined")
  | UInt16 | UInt32 | UInt64 | BFloat16 | Float8_e5m2 | Float8_e5m2fnuz | Float8_e4m3fn
  | Float8_e4m3fnuz | Float8_e8m0fnu | Byte | Char | Short | Int | Long | Half | Float | Double
  | ComplexHalf | ComplexFloat | ComplexDouble | Bool => Ok (numeric_is_signed t)
  | Int1 | Int2 | Int3 | Int4 | Int5 | Int6 | Int7 | Float4_e2m1fn_x2 => Ok true
  | UInt1 | UInt2 | UInt3 | UInt4 | UInt5 | UInt6 | UInt7 => Ok false
  | Undefined | NumOptions => Throw (Error "Unknown ScalarType ")
  end.

Definition toRealValueType (t : ScalarType) : ScalarType :=
  match t with
  | ComplexHalf => Half
  | ComplexFloat => Float
  | ComplexDouble => Double
  | _ => t
  end.

Definition toComplexType (t : ScalarType) : result ScalarType :=
  match t with
  | BFloat16 => Ok ComplexFloat
  | Half => Ok ComplexHalf
  | Float => Ok ComplexFloat
  | Double => Ok ComplexDouble
  | ComplexHalf => Ok ComplexHalf
  | ComplexFloat => Ok ComplexFloat
  | ComplexDouble => Ok ComplexDouble
  | _ => Throw (Error "Unknown Complex ScalarType for ")
  end.

Definition canCast (from to : ScalarType) : bool :=
  if isComplexType from && negb (isComplexType to) then false
  else if isFloatingType from && isIntegralType to false then false
  else if negb (st_eqb from Bool) && st_eqb to Bool then false
  else true.

(** ** [promoteTypes]. *)
Definition index2dtype : list ScalarType :=
  [Byte; Char; Short; Int; Long; Half; Float; Double; ComplexHalf; ComplexFloat; ComplexDouble;
   Bool; BFloat16].

(** [calculate_dtype2index]: an array of [NumOptions] entries, first filled
    with -1, then inverted from [index2dtype]. *)
Fixpoint dtype2index_loop (i : Z) (dtypes : list ScalarType) (inverse : list Z) : list Z :=
  match dtypes with
  | [] => inverse
  | d :: dtypes => dtype2index_loop (i + 1) dtypes (<[Z.to_nat (st_val d) := i]> inverse)
  end.

Definition calculate_dtype2index : list Z :=
  dtype2index_loop 0 index2dtype (replicate (Z.to_nat (st_val NumOptions)) (-1)).

Definition dtype2index (t : ScalarType) : Z := nth (Z.to_nat (st_val t)) calculate_dtype2index (-1).

Definition promoteTypesLookup : list (list ScalarType) :=
  let u1 := Byte in let i1 := Char in let i2 := Short in let i4 := Int in let i8 := Long in
  let f2 := Half in let f4 := Float in let f8 := Double in
  let c2 := ComplexHalf in let c4 := ComplexFloat in let c8 := ComplexDouble in
  let b1 := Bool in let bf := BFloat16 in
  (*  u1  i1  i2  i4  i8  f2  f4  f8  c2  c4  c8  b1  bf *)
  [ [u1; i2; i2; i4; i8; f2; f4; f8; c2; c4; c8; u1; bf];
     [i2; i1; i2; i4; i8; f2; f4; f8; c2; c4; c8; i1; bf];
     [i2; i2; i2; i4; i8; f2; f4; f8; c2; c4; c8; i2; bf];
     [i4; i4; i4; i4; i8; f2; f4; f8; c2; c4; c8; i4; bf];
     [i8; i8; i8; i8; i8; f2; f4; f8; c2; c4; c8; i8; bf];
     [f2; f2; f2; f2; f2; f2; f4; f8; c2; c4; c8; f2; f4];
     [f4; f4; f4; f4; f4; f4; f4; f8; c4; c4; c8; f4; f4];
     [f8; f8; f8; f8; f8; f8; f8; f8; c8; c8; c8; f8; f8];
     [c2; c2; c2; c2; c2; c2; c4; c8; c2; c4; c8; c2; c4];
     [c4; c4; c4; c4; c4; c4; c4; c8; c4; c4; c8; c4; c4];
     [c8; c8; c8; c8; c8; c8; c8; c8; c8; c8; c8; c8; c8];
     [u1; i1; i2; i4; i8; f2; f4; f8; c2; c4; c8; b1; bf];
     [bf; bf; bf; bf; bf; f4; f4; f8; c4; c4; c8; bf; bf] ].

Definition promoteTypes (a b : ScalarType) : result ScalarType :=
  if st_eqb a Undefined || st_eqb b Undefined then Ok Undefined
  else if st_eqb a b then Ok a
  else if isQIntType a || isQIntType b then
    Throw (Error "promoteTypes with quantized numbers is not handled yet")
  else if isBitsType a || isBitsType b then Ok Undefined
  else if isFloat8Type a || isFloat8Type b then
    Throw (Error "Promotion for Float8 Types is not supported, attempted to promote ")
  else if isBarebonesUnsignedType a || isBarebonesUnsignedType b then
    if isFloatingType a then Ok a
    else if isFloatingType b then Ok b
    else Throw (Error "Promotion for uint16, uint32, uint64 types is not supported, attempted to promote ")
  else
    let ix_a := dtype2index a in
    _ ← TORCH_INTERNAL_ASSERT (negb (ix_a =? -1)) "ix_a != -1";
    let ix_b := dtype2index b in
    _ ← TORCH_INTERNAL_ASSERT (negb (ix_b =? -1)) "ix_b != -1";
    Ok (nth (Z.to_nat ix_b) (nth (Z.to_nat ix_a) promoteTypesLookup []) Undefined).

(** [getStringToDtypeMap]: [m] is the static map, filled by the first call.
    The loop assigns every primary name and every non-empty legacy name. *)
Fixpoint string_map_loop (ts : list ScalarType) (m : gmap string ScalarType)
    : result (gmap string ScalarType) :=
  match ts with
  | [] => Ok m
  | scalar_type :: ts =>
      names ← getDtypeNames scalar_type;
      let m := <[names.1 := scalar_type]> m in
      let m := if String.eqb names.2 EmptyString then m else <[names.2 := scalar_type]> m in
      string_map_loop ts m
  end.

Definition getStringToDtypeMap (m : gmap string ScalarType) : result (gmap string ScalarType) :=
  if bool_decide (m = ∅) then string_map_loop forall_scalar_types ∅ else Ok m.

(** ** The default dtypes: the mutable globals of DefaultDtype.cpp. *)
Record default_dtypes := {
  default_dtype : ScalarType;
  default_complex_dtype : ScalarType
}.

Definition initial_defaults : default_dtypes :=
  {| default_dtype := Float; default_complex_dtype := ComplexFloat |}.

Definition set_default_dtype (dtype : ScalarType) : default_dtypes :=
  {| default_dtype := dtype;
     default_complex_dtype :=
       match dtype with
       | Half => ComplexHalf
       | Double => ComplexDouble
       | _ => ComplexFloat
       end |}.

(** ** The result type of an operation on several operands. *)

(** What [update_result_type_state] reads of a tensor. *)
Record operand := {
  defined : bool;
  dim : Z;
  is_wrapped_number : bool;
  scalar_type : ScalarType
}.

(** The [Scalar] tags, as far as [Scalar::type] distinguishes them. *)
Inductive scalar_tag := HAS_d | HAS_i | HAS_u | HAS_z | HAS_b.

Definition Scalar_type (tag : scalar_tag) : ScalarType :=
  match tag with
  | HAS_z => ComplexDouble
  | HAS_d => Double
  | HAS_u => UInt64
  | HAS_i => Long
  | HAS_b => Bool
  end.

Record ResultTypeState := {
  dimResult : ScalarType;
  wrappedResult : ScalarType;
  zeroResult : ScalarType
}.

Definition initial_state : ResultTypeState :=
  {| dimResult := Undefined; wrappedResult := Undefined; zeroResult := Undefined |}.

Definition promote_skip_undefined (a b : ScalarType) : result ScalarType :=
  if st_eqb a Undefined then Ok b
  else if st_eqb b Undefined then Ok a
  else promoteTypes a b.

Definition combine_categories (higher lower : ScalarType) : result ScalarType :=
  if isComplexType higher then Ok higher
  else if isComplexType lower then
    if isFloatingType higher then toComplexType higher else Ok lower
  else if isFloatingType higher then Ok higher
  else if st_eqb higher Bool || isFloatingType lower then promote_skip_undefined higher lower
  else if negb (st_eqb higher Undefined) then Ok higher
  else Ok lower.

Section ResultType.
Context (dflt : default_dtypes).

(** A number takes the default dtype of its category. *)
Definition number_dtype (current : ScalarType) : ScalarType :=
  if isComplexType current then default_complex_dtype dflt
  else if isFloatingType current then default_dtype dflt
  else current.

Definition update_result_type_state (tensor : operand) (in_state : ResultTypeState)
    : result ResultTypeState :=
  if negb (defined tensor) then Ok in_state
  else
    let current := if is_wrapped_number tensor then number_dtype (scalar_type tensor)
                   else scalar_type tensor in
    if dim tensor >? 0 then
      d ← promote_skip_undefined (dimResult in_state) current;
      Ok {| dimResult := d; wrappedResult := wrappedResult in_state; zeroResult := zeroResult in_state |}
    else if is_wrapped_number tensor then
      w ← promote_skip_undefined (wrappedResult in_state) current;
      Ok {| dimResult := dimResult in_state; wrappedResult := w; zeroResult := zeroResult in_state |}
    else
      z ← promote_skip_undefined (zeroResult in_state) current;
      Ok {| dimResult := dimResult in_state; wrappedResult := wrappedResult in_state; zeroResult := z |}.

Definition update_result_type_state_scalar (scalar : scalar_tag) (in_state : ResultTypeState)
    : result ResultTypeState :=
  w ← promote_skip_undefined (wrappedResult in_state) (number_dtype (Scalar_type scalar));
  Ok {| dimResult := dimResult in_state; wrappedResult := w; zeroResult := zeroResult in_state |}.

Definition result_type_state (in_state : ResultTypeState) : result ScalarType :=
  lower ← combine_categories (zeroResult in_state) (wrappedResult in_state);
  combine_categories (dimResult in_state) lower.

Fixpoint result_type_loop (tensors : list operand) (state : ResultTypeState)
    : result ResultTypeState :=
  match tensors with
  | [] => Ok state
  | tensor :: tensors =>
      state ← update_result_type_state tensor state;
      result_type_loop tensors state
  end.

Definition result_type (tensors : list operand) : result ScalarType :=
  state ← result_type_loop tensors initial_state;
  result_type_state state.

Definition result_type_tensor_scalar (tensor : operand) (other : scalar_tag) : result ScalarType :=
  state ← update_result_type_state tensor initial_state;
  state ← update_result_type_state_scalar other state;
  result_type_state state.

Definition result_type_scalars (scalar1 scalar2 : scalar_tag) : result ScalarType :=
  state ← update_result_type_state_scalar scalar1 initial_state;
  state ← update_result_type_state_scalar scalar2 state;
  result_type_state state.
End ResultType.

Definition promote_types (type1 type2 : ScalarType) : result ScalarType :=
  ret ← promoteTypes type1 type2;
  _ ← TORCH_CHECK (negb (st_eqb ret Undefined)) "Promotion from ";
  Ok ret.

(** ** Checking all dtypes by computation. *)
Lemma In_all_scalar_types t : In t all_scalar_types.
Proof. rewrite <- (to_st_val t). apply nth_In, Nat.ltb_lt. by destruct t. Qed.

Lemma all_types_check (P : ScalarType → bool) :
  forallb P all_scalar_types = true → ∀ t, P t = true.
Proof. intros H t. rewrite forallb_forall in H. apply H, In_all_scalar_types. Qed.

Lemma all_types_check2 (P : ScalarType → ScalarType → bool) :
  forallb (fun a => forallb (P a) all_scalar_types) all_scalar_types = true → ∀ a b, P a b = true.
Proof. intros H a. apply all_types_check. by apply all_types_check with (t := a) in H. Qed.

Lemma one_of_In ts t : one_of ts t = true ↔ In t ts.
Proof.
  unfold one_of. rewrite existsb_exists. split.
  - intros (x & H & E). apply st_eqb_eq in E. by subst.
  - intros H. exists t. by rewrite st_eqb_eq.
Qed.

Lemma forallb_one_of ts (P : ScalarType → bool) t :
  forallb P ts = true → one_of ts t = true → P t = true.
Proof. rewrite forallb_forall, one_of_In. auto. Qed.

(** ** The reference order on the dtypes of the promotion table. *)
Definition tabulated (t : ScalarType) : bool := one_of index2dtype t.

(** Boolean, integer, floating-point and complex dtypes. *)
Definition category (t : ScalarType) : Z :=
  if isComplexType t then 3
  else if isFloatingType t then 2
  else if isIntegralType t false then 1
  else 0.

(** The least and the greatest value of an integer dtype. *)
Definition int_range (t : ScalarType) : Z * Z :=
  match t with
  | Byte => (0, 2 ^ 8 - 1)
  | Char => (- 2 ^ 7, 2 ^ 7 - 1)
  | Short => (- 2 ^ 15, 2 ^ 15 - 1)
  | Int => (- 2 ^ 31, 2 ^ 31 - 1)
  | _ => (- 2 ^ 63, 2 ^ 63 - 1)
  end.

(** Precision, least and greatest exponent of a floating-point dtype. *)
Definition float_format (t : ScalarType) : Z * Z * Z :=
  match t with
  | Half => (11, -14, 15)
  | BFloat16 => (8, -126, 127)
  | Float => (24, -126, 127)
  | _ => (53, -1022, 1023)
  end.

(** [a] promotes to [b]: every dtype to those of a higher category, where a
    complex dtype must have room for the components, and within a category
    when all values are representable. *)
Definition dtype_le (a b : ScalarType) : bool :=
  let '(p1, l1, h1) := float_format (toRealValueType a) in
  let '(p2, l2, h2) := float_format (toRealValueType b) in
  if category a <? 2 then
    if (category a =? 1) && (category b =? 1)
    then ((int_range b).1 <=? (int_range a).1) && ((int_range a).2 <=? (int_range b).2)
    else category a <=? category b
  else (category a <=? category b) && (p1 <=? p2) && (l2 <=? l1) && (h1 <=? h2).

(** On the dtypes of its table [promoteTypes] returns the least upper bound
    of the two: the smallest dtype both promote to, in the order given by
    categories and by the value sets within a category. *)
Theorem promoteTypes_join a b :
  tabulated a = true → tabulated b = true →
  ∃ j, promoteTypes a b = Ok j ∧ tabulated j = true ∧ dtype_le a j = true ∧ dtype_le b j = true ∧
    ∀ c, tabulated c = true → dtype_le a c = true → dtype_le b c = true → dtype_le j c = true.
Proof.
  set (P a b := match promoteTypes a b with
    | Ok j => tabulated j && dtype_le a j && dtype_le b j &&
        forallb (fun c => negb (dtype_le a c) || negb (dtype_le b c) || dtype_le j c) index2dtype
    | Throw _ => false
    end).
  assert (forallb (fun a => forallb (P a) index2dtype) index2dtype = true) as H
    by (vm_compute; reflexivity).
  intros Ha Hb. pose proof (forallb_one_of _ _ a H Ha) as H'. cbv beta in H'.
  pose proof (forallb_one_of _ _ b H' Hb) as Hab. unfold P in Hab. clear H H'. rename Hab into H.
  destruct (promoteTypes a b) as [j|]; [|done]. rewrite !andb_true_iff in H.
  destruct H as [[[H1 H2] H3] H4]. exists j. repeat split; [done..|]. intros c Hc Hac Hbc.
  pose proof (forallb_one_of _ _ c H4 Hc) as Hc'. cbv beta in Hc'. by rewrite Hac, Hbc in Hc'.
Qed.

Lemma promoteTypes_join_witness :
  promoteTypes BFloat16 ComplexHalf = Ok ComplexFloat ∧ dtype_le BFloat16 ComplexFloat = true.
Proof.
  destruct (promoteTypes_join BFloat16 ComplexHalf eq_refl eq_refl) as (j & E & _ & H & _).
  assert (E' : promoteTypes BFloat16 ComplexHalf = Ok ComplexFloat) by (vm_compute; reflexivity).
  rewrite E in E'. injection E' as ->. split; assumption.
Defined.

(** Two calls have the same outcome: the same result, or an exception of the
    same kind. *)
Definition same_outcome {A} (m n : result A) : Prop :=
  match m, n with
  | Ok a, Ok b => a = b
  | Throw (InternalAssert _), Throw (InternalAssert _) => True
  | Throw e, Throw e' => e = e'
  | _, _ => False
  end.

(** On all pairs of dtypes, errors included, [promoteTypes] does not depend on
    the order of its arguments; it returns a dtype promoted with itself, has
    [Undefined] as absorbing element, and both arguments can be cast to what it
    returns, unless that is [Undefined]. *)
Theorem promoteTypes_total a b :
  same_outcome (promoteTypes a b) (promoteTypes b a) ∧
  promoteTypes a a = Ok a ∧
  promoteTypes Undefined a = Ok Undefined ∧
  match promoteTypes a b with
  | Ok c => c ≠ Undefined → canCast a c = true ∧ canCast b c = true
  | Throw _ => a ≠ b ∧ a ≠ Undefined ∧ b ≠ Undefined
  end.
Proof.
  set (P a b := match promoteTypes a b, promoteTypes b a with
      | Ok c, Ok d => st_eqb c d
      | Throw (InternalAssert _), Throw (InternalAssert _) => true
      | Throw e, Throw e' => bool_decide (e = e')
      | _, _ => false
      end && bool_decide (promoteTypes a a = Ok a) &&
    bool_decide (promoteTypes Undefined a = Ok Undefined) &&
    match promoteTypes a b with
    | Ok c => st_eqb c Undefined || (canCast a c && canCast b c)
    | Throw _ => negb (st_eqb a b) && negb (st_eqb a Undefined) && negb (st_eqb b Undefined)
    end).
  assert (P a b = true) as H by (apply all_types_check2; vm_compute; reflexivity).
  unfold P in H. rewrite !andb_true_iff, !bool_decide_eq_true in H.
  destruct H as [[[H1 H2] H3] H4]. split; [|split; [done|split; [done|]]].
  - unfold same_outcome. destruct (promoteTypes a b) as [|[]], (promoteTypes b a) as [|[]]; try done;
      first [by apply st_eqb_eq | by apply bool_decide_eq_true in H1].
  - destruct (promoteTypes a b) as [c|e].
    + intros Hc. apply orb_true_iff in H4 as [H4|H4]; [by apply st_eqb_eq in H4|by apply andb_true_iff].
    + rewrite !andb_true_iff, !negb_true_iff in H4. destruct H4 as [[H4 H5] H6].
      repeat split; intros ->; by rewrite (proj2 (st_eqb_eq _ _) eq_refl) in *.
Qed.

(** ** Names. *)

(** [n] is the primary or the legacy name of [t]. *)
Definition is_name (t : ScalarType) (n : string) : Prop :=
  ∃ names, getDtypeNames t = Ok names ∧ (n = names.1 ∨ n = names.2 ∧ names.2 ≠ EmptyString).

Lemma string_map_loop_names ts m m' n t :
  string_map_loop ts m = Ok m' → m' !! n = Some t → m !! n = Some t ∨ is_name t n.
Proof.
  revert m. induction ts as [|t' ts IH]; intros m; simpl; [intros [= ->]; by left|].
  unfold mbind, result_bind. destruct (getDtypeNames t') as [names|] eqn:E; [|done].
  intros H Hn. destruct (IH _ H Hn) as [H'|]; [|by right].
  destruct (String.eqb names.2 EmptyString) eqn:El.
  - apply lookup_insert_Some in H' as [[<- <-]|[_ ?]]; [right; exists names; tauto|by left].
  - apply String.eqb_neq in El. apply lookup_insert_Some in H' as [[<- <-]|[_ H']].
    + right. exists names. tauto.
    + apply lookup_insert_Some in H' as [[<- <-]|[_ ?]]; [right; exists names; tauto|by left].
Qed.

(** The map of the first call, checked entry by entry. *)
Lemma string_map_entries (r : result (gmap string ScalarType)) :
  match r with
  | Ok m => negb (bool_decide (m = ∅)) && forallb (fun t => match getDtypeNames t with
      | Ok names => bool_decide (m !! names.1 = Some t) &&
          (String.eqb names.2 EmptyString || bool_decide (m !! names.2 = Some t))
      | Throw _ => true
      end) all_scalar_types
  | Throw _ => false
  end = true →
  ∃ m, r = Ok m ∧ m ≠ ∅ ∧ ∀ n t, is_name t n → m !! n = Some t.
Proof.
  destruct r as [m|]; [|done]. intros H. apply andb_true_iff in H as [H1 H2].
  apply negb_true_iff, bool_decide_eq_false in H1. exists m. repeat split; [done|].
  intros n t (names & En & Hn). pose proof (all_types_check _ H2 t) as Ht. cbv beta in Ht.
  rewrite En in Ht. apply andb_true_iff in Ht as [Ht1 Ht2]. apply bool_decide_eq_true in Ht1.
  destruct Hn as [->|[-> Hl]]; [done|]. apply orb_true_iff in Ht2 as [Ht2|Ht2].
  - by apply String.eqb_eq in Ht2.
  - by apply bool_decide_eq_true in Ht2.
Qed.

Lemma first_string_map :
  ∃ m, string_map_loop forall_scalar_types ∅ = Ok m ∧ m ≠ ∅ ∧ ∀ n t, is_name t n → m !! n = Some t.
Proof. apply string_map_entries. vm_compute. reflexivity. Qed.

(** The map from names to dtypes inverts [getDtypeNames]: it is total, a
    second call returns the same map, and it sends a name to a dtype exactly
    when the name is the primary name or the non-empty legacy name of that
    dtype; the abbreviations of the dtypes are different. *)
Theorem getStringToDtypeMap_inverts :
  (∃ m, getStringToDtypeMap ∅ = Ok m ∧ getStringToDtypeMap m = Ok m ∧
     ∀ n t, m !! n = Some t ↔ is_name t n) ∧
  ∀ a b s, getScalarTypeAbbr a = Ok s → getScalarTypeAbbr b = Ok s → a = b.
Proof.
  split.
  - destruct first_string_map as (m & E & Hm & Hin). exists m.
    unfold getStringToDtypeMap. rewrite bool_decide_eq_true_2, bool_decide_eq_false_2 by done.
    split; [exact E|]. split; [done|]. intros n t. split; [|apply Hin].
    intros Hn. by destruct (string_map_loop_names _ _ _ _ _ E Hn).
  - intros a b s Ha Hb.
    assert (∀ a b, match getScalarTypeAbbr a, getScalarTypeAbbr b with
      | Ok s, Ok s' => negb (String.eqb s s') || st_eqb a b
      | _, _ => true
      end = true) as H by (apply all_types_check2; vm_compute; reflexivity).
    specialize (H a b). rewrite Ha, Hb, String.eqb_refl in H. by apply st_eqb_eq.
Qed.

(** ** The result type. *)

(** Promotion as a total operation, for dtypes of the table and [Undefined]. *)
Definition join (a b : ScalarType) : ScalarType :=
  match promote_skip_undefined a b with Ok c => c | Throw _ => Undefined end.

Definition slot_ok (t : ScalarType) : bool := one_of (Undefined :: index2dtype) t.

Definition rank (t : ScalarType) : Z := if st_eqb t Undefined then -1 else category t.

Lemma slot_check (P : ScalarType → bool) :
  forallb P (Undefined :: index2dtype) = true → ∀ t, slot_ok t = true → P t = true.
Proof. intros H t. by apply forallb_one_of. Qed.

Lemma slot_check2 (P : ScalarType → ScalarType → bool) :
  forallb (fun a => forallb (P a) (Undefined :: index2dtype)) (Undefined :: index2dtype) = true →
  ∀ a b, slot_ok a = true → slot_ok b = true → P a b = true.
Proof. intros H a b Ha Hb. exact (slot_check _ (slot_check _ H a Ha) b Hb). Qed.

Lemma join_facts a b :
  slot_ok a = true → slot_ok b = true →
  promote_skip_undefined a b = Ok (join a b) ∧ slot_ok (join a b) = true ∧ join a b = join b a ∧
  rank (join a b) = Z.max (rank a) (rank b) ∧
  (a ≠ Undefined → dtype_le a (join a b) = true) ∧ (b ≠ Undefined → dtype_le b (join a b) = true) ∧
  (a ≠ Undefined ∨ b ≠ Undefined → join a b ≠ Undefined).
Proof.
  intros Ha Hb.
  assert (is_ok (promote_skip_undefined a b) && slot_ok (join a b) && st_eqb (join a b) (join b a) &&
    (rank (join a b) =? Z.max (rank a) (rank b)) &&
    (st_eqb a Undefined || dtype_le a (join a b)) && (st_eqb b Undefined || dtype_le b (join a b)) &&
    (st_eqb a Undefined && st_eqb b Undefined || negb (st_eqb (join a b) Undefined)) = true) as H.
  { revert a b Ha Hb. apply slot_check2. vm_compute. reflexivity. }
  rewrite !andb_true_iff, !orb_true_iff, andb_true_iff, negb_true_iff, !st_eqb_eq, Z.eqb_eq in H.
  destruct H as [[[[[[H1 H2] H3] H4] H5] H6] H7]. repeat split; try tauto.
  - unfold join. by destruct (promote_skip_undefined a b).
  - intros HU E. destruct H7 as [[-> ->]|H7]; [by destruct HU|].
    rewrite E in H7. by rewrite (proj2 (st_eqb_eq _ _) eq_refl) in H7.
Qed.

Lemma join_assoc a b c :
  slot_ok a = true → slot_ok b = true → slot_ok c = true → join (join a b) c = join a (join b c).
Proof.
  intros Ha Hb Hc. apply st_eqb_eq. revert c Hc. apply slot_check. revert a b Ha Hb. apply slot_check2.
  vm_compute. reflexivity.
Qed.

Lemma join_least a b c :
  slot_ok a = true → slot_ok b = true → slot_ok c = true → (a ≠ Undefined → dtype_le a c = true) →
  (b ≠ Undefined → dtype_le b c = true) → join a b ≠ Undefined → dtype_le (join a b) c = true.
Proof.
  intros Ha Hb Hc.
  assert ((negb (st_eqb a Undefined) && negb (dtype_le a c)) ||
    (negb (st_eqb b Undefined) && negb (dtype_le b c)) || st_eqb (join a b) Undefined ||
    dtype_le (join a b) c = true) as H.
  { revert c Hc. apply slot_check. revert a b Ha Hb. apply slot_check2. vm_compute. reflexivity. }
  rewrite !orb_true_iff, !andb_true_iff, !negb_true_iff in H.
  intros H1 H2 H3. rewrite st_eqb_eq in H. destruct H as [[[[E H]|[E H]]|H]|H]; [| |done|done].
  - rewrite H1 in H; [done|]. intros ->. by rewrite (proj2 (st_eqb_eq _ _) eq_refl) in E.
  - rewrite H2 in H; [done|]. intros ->. by rewrite (proj2 (st_eqb_eq _ _) eq_refl) in E.
Qed.

Lemma combine_facts a b :
  slot_ok a = true → slot_ok b = true →
  ∃ c, combine_categories a b = Ok c ∧ slot_ok c = true ∧ rank c = Z.max (rank a) (rank b) ∧
    (rank b ≤ rank a → c = a).
Proof.
  intros Ha Hb.
  assert (match combine_categories a b with
    | Ok c => slot_ok c && (rank c =? Z.max (rank a) (rank b)) && ((rank a <? rank b) || st_eqb c a)
    | Throw _ => false
    end = true) as H by (revert a b Ha Hb; apply slot_check2; vm_compute; reflexivity).
  destruct (combine_categories a b) as [c|]; [|done]. exists c.
  rewrite !andb_true_iff, orb_true_iff, Z.eqb_eq, st_eqb_eq, Z.ltb_lt in H.
  destruct H as [[H1 H2] H3]. repeat split; [done..|]. intros Hr. destruct H3; [lia|done].
Qed.

Lemma rank_canCast a b :
  slot_ok a = true → slot_ok b = true → a ≠ Undefined → b ≠ Undefined → rank a ≤ rank b →
  canCast a b = true.
Proof.
  intros Ha Hb.
  assert (st_eqb a Undefined || st_eqb b Undefined || (rank b <? rank a) || canCast a b = true) as H
    by (revert a b Ha Hb; apply slot_check2; vm_compute; reflexivity).
  rewrite !orb_true_iff, !st_eqb_eq, Z.ltb_lt in H. intros ?? Hr.
  destruct H as [[[?|?]|?]|?]; [done|done|lia|done].
Qed.

Lemma dtype_le_trans a b c :
  slot_ok a = true → slot_ok b = true → slot_ok c = true → a ≠ Undefined → b ≠ Undefined →
  dtype_le a b = true → dtype_le b c = true → dtype_le a c = true.
Proof.
  intros Ha Hb Hc.
  assert (st_eqb a Undefined || st_eqb b Undefined || negb (dtype_le a b) || negb (dtype_le b c) ||
    dtype_le a c = true) as H.
  { revert c Hc. apply slot_check. revert a b Ha Hb. apply slot_check2. vm_compute. reflexivity. }
  rewrite !orb_true_iff, !negb_true_iff, !st_eqb_eq in H. intros. destruct H as [[[[?|?]|?]|?]|?]; congruence.
Qed.

(** The dtypes [ts] folded with [join] from [Undefined]. *)
Definition joins (ts : list ScalarType) : ScalarType := foldl join Undefined ts.

Lemma joins_step ts a :
  slot_ok a = true → Forall (fun t => slot_ok t = true) ts → slot_ok (foldl join a ts) = true.
Proof.
  revert a. induction ts as [|t ts IH]; intros a Ha H; simpl; [done|].
  apply Forall_cons in H as [Ht H]. apply IH; [|done]. by apply join_facts.
Qed.

Lemma joins_Permutation ts ts' a :
  slot_ok a = true → Forall (fun t => slot_ok t = true) ts → ts ≡ₚ ts' → foldl join a ts = foldl join a ts'.
Proof.
  intros Ha H P. revert a Ha. induction P as [|t ts ts' P IH|t u ts|ts us vs P IH P' IH']; intros a Ha;
    simpl; [done| | |].
  - apply Forall_cons in H as [Ht H]. apply IH; [done|]. by apply join_facts.
  - apply Forall_cons in H as [Hu H]. apply Forall_cons in H as [Ht H].
    rewrite !join_assoc by done. by rewrite (proj1 (proj2 (proj2 (join_facts u t Hu Ht)))).
  - rewrite IH by done. apply IH'; [|done]. by rewrite <- P.
Qed.

Lemma joins_spec ts a :
  slot_ok a = true → Forall (fun t => slot_ok t = true) ts →
  rank a ≤ rank (foldl join a ts) ∧ (∀ t, t ∈ ts → rank t ≤ rank (foldl join a ts)) ∧
  (a ≠ Undefined → foldl join a ts ≠ Undefined ∧ dtype_le a (foldl join a ts) = true) ∧
  (∀ t, t ∈ ts → t ≠ Undefined → dtype_le t (foldl join a ts) = true) ∧
  ∀ c, slot_ok c = true → (a ≠ Undefined → dtype_le a c = true) →
    (∀ t, t ∈ ts → t ≠ Undefined → dtype_le t c = true) →
    foldl join a ts ≠ Undefined → dtype_le (foldl join a ts) c = true.
Proof.
  revert a. induction ts as [|t ts IH]; intros a Ha H; simpl.
  - split; [lia|]. split; [intros t Ht; inversion Ht|]. split; [|split; [|auto]].
    + intros HU. split; [done|]. destruct (join_facts a a Ha Ha) as (_ & _ & _ & _ & H1 & _).
      assert (st_eqb a Undefined || dtype_le a a = true) as Hr
        by (revert a Ha HU H1; intros a Ha _ _; revert a Ha; apply slot_check; vm_compute; reflexivity).
      apply orb_true_iff in Hr as [Hr|Hr]; [by apply st_eqb_eq in Hr|done].
    + intros t Ht. inversion Ht.
  - apply Forall_cons in H as [Ht H].
    destruct (join_facts a t Ha Ht) as (_ & Hj & _ & Hr & Hja & Hjt & Hu).
    destruct (IH _ Hj H) as (I1 & I2 & I3 & I4 & I5).
    pose proof (joins_step _ _ Hj H) as Hs. split; [lia|].
    split; [intros u [->|Hu']%elem_of_cons; [lia|auto]|].
    split; [|split].
    + intros HU. destruct I3 as [I3 I3']; [tauto|]. split; [done|].
      apply (dtype_le_trans _ (join a t)); auto.
    + intros u [->|Hu']%elem_of_cons HU; [|auto]. destruct I3 as [I3 I3']; [tauto|].
      apply (dtype_le_trans _ (join a t)); auto.
    + intros c Hc Hac Htc HU. apply I5; [done| | |done].
      * intros. apply join_least; [done..| |done]. apply Htc. by left.
      * intros u Hu'. apply Htc. by right.
Qed.

Section ResultTypeSpec.
Context (dflt : default_dtypes).
Hypothesis dflt_ok :
  tabulated (default_dtype dflt) = true ∧ tabulated (default_complex_dtype dflt) = true.

(** The dtype an operand takes part with. *)
Definition operand_dtype (t : operand) : ScalarType :=
  if is_wrapped_number t then number_dtype dflt (scalar_type t) else scalar_type t.

(** What an operand contributes to the field of the state it updates. *)
Definition is_dimensioned (t : operand) : bool := defined t && (dim t >? 0).
Definition is_wrapped_scalar (t : operand) : bool := defined t && negb (dim t >? 0) && is_wrapped_number t.
Definition is_zero_dim (t : operand) : bool := defined t && negb (dim t >? 0) && negb (is_wrapped_number t).
Definition contributes (p : operand → bool) (t : operand) : ScalarType :=
  if p t then operand_dtype t else Undefined.

Lemma tabulated_slot t : tabulated t = true → slot_ok t = true ∧ t ≠ Undefined.
Proof.
  intros H. split; [|by intros ->]. change (st_eqb t Undefined || tabulated t = true).
  by rewrite H, orb_true_r.
Qed.

Lemma operand_dtype_ok t : tabulated (scalar_type t) = true → tabulated (operand_dtype t) = true.
Proof.
  intros H. unfold operand_dtype, number_dtype. destruct dflt_ok.
  repeat case_match; done.
Qed.

Lemma contributes_ok p t : tabulated (scalar_type t) = true → slot_ok (contributes p t) = true.
Proof.
  intros H. unfold contributes. destruct (p t); [|done]. by apply tabulated_slot, operand_dtype_ok.
Qed.

Lemma result_type_loop_spec ts s :
  Forall (fun t => tabulated (scalar_type t) = true) ts →
  slot_ok (dimResult s) = true → slot_ok (wrappedResult s) = true → slot_ok (zeroResult s) = true →
  result_type_loop dflt ts s = Ok {|
    dimResult := foldl join (dimResult s) (map (contributes is_dimensioned) ts);
    wrappedResult := foldl join (wrappedResult s) (map (contributes is_wrapped_scalar) ts);
    zeroResult := foldl join (zeroResult s) (map (contributes is_zero_dim) ts) |}.
Proof.
  revert s. induction ts as [|t ts IH]; intros s H Hd Hw Hz; simpl; [by destruct s|].
  apply Forall_cons in H as [Ht H]. pose proof (operand_dtype_ok t Ht) as Ho.
  apply tabulated_slot in Ho as [Ho HU].
  assert (∀ a, slot_ok a = true → join a Undefined = a) as HjU.
  { intros a Ha. apply st_eqb_eq. revert a Ha. apply slot_check. vm_compute. reflexivity. }
  assert (update_result_type_state dflt t s = Ok {|
    dimResult := join (dimResult s) (contributes is_dimensioned t);
    wrappedResult := join (wrappedResult s) (contributes is_wrapped_scalar t);
    zeroResult := join (zeroResult s) (contributes is_zero_dim t) |}) as ->.
  { unfold update_result_type_state, contributes, is_dimensioned, is_wrapped_scalar, is_zero_dim.
    fold (operand_dtype t). destruct (defined t); simpl; [|by destruct s; rewrite !HjU].
    destruct (dim t >? 0); simpl; [|destruct (is_wrapped_number t) eqn:Ew; simpl];
      first [rewrite (proj1 (join_facts _ _ Hd Ho)) | rewrite (proj1 (join_facts _ _ Hw Ho))
            | rewrite (proj1 (join_facts _ _ Hz Ho))]; unfold mbind, result_bind; simpl; by rewrite !HjU. }
  apply IH; simpl; [done|..]; by apply join_facts; [done|apply contributes_ok].
Qed.

(** A dimensioned operand whose category no operand exceeds. *)
Definition dominated (ts : list operand) : Prop :=
  ∃ d, d ∈ ts ∧ is_dimensioned d = true ∧
    ∀ t, t ∈ ts → defined t = true → category (operand_dtype t) ≤ category (operand_dtype d).

Lemma rank_tabulated t : tabulated t = true → rank t = category t.
Proof. intros H. apply tabulated_slot in H as [_ H]. unfold rank. case_bool; [by apply st_eqb_eq in Heqb|done]. Qed.

Section Operands.
Context (ts : list operand).
Hypothesis operands_ok : Forall (fun t => tabulated (scalar_type t) = true) ts.

Lemma contributions_ok p : Forall (fun t => slot_ok t = true) (map (contributes p) ts).
Proof.
  apply Forall_map. eapply Forall_impl; [exact operands_ok|]. intros t. apply contributes_ok.
Qed.

Lemma contribution_In p t : t ∈ ts → p t = true →
  operand_dtype t ∈ map (contributes p) ts ∧ tabulated (operand_dtype t) = true.
Proof.
  intros Ht Hp. split.
  - apply list_elem_of_fmap. exists t. split; [by unfold contributes; rewrite Hp|done].
  - apply operand_dtype_ok. rewrite Forall_forall in operands_ok. auto.
Qed.

Lemma contribution_inv p u : u ∈ map (contributes p) ts → u ≠ Undefined →
  ∃ t, t ∈ ts ∧ p t = true ∧ u = operand_dtype t.
Proof.
  intros Hu HU. apply list_elem_of_fmap in Hu as (t & -> & Ht). exists t.
  unfold contributes in *. by destruct (p t).
Qed.

Lemma result_type_Ok :
  let J p := joins (map (contributes p) ts) in
  ∃ r, result_type dflt ts = Ok r ∧ slot_ok r = true ∧
    rank r = Z.max (rank (J is_dimensioned)) (Z.max (rank (J is_zero_dim)) (rank (J is_wrapped_scalar))) ∧
    (Z.max (rank (J is_zero_dim)) (rank (J is_wrapped_scalar)) ≤ rank (J is_dimensioned) →
     r = J is_dimensioned).
Proof.
  intros J. assert (∀ p, slot_ok (J p) = true) as HJ by (intros p; by apply joins_step, contributions_ok).
  unfold result_type. rewrite result_type_loop_spec by done. unfold mbind, result_bind.
  change (∃ r, (lower ← combine_categories (J is_zero_dim) (J is_wrapped_scalar);
    combine_categories (J is_dimensioned) lower) = Ok r ∧ slot_ok r = true ∧
    rank r = Z.max (rank (J is_dimensioned)) (Z.max (rank (J is_zero_dim)) (rank (J is_wrapped_scalar))) ∧
    (Z.max (rank (J is_zero_dim)) (rank (J is_wrapped_scalar)) ≤ rank (J is_dimensioned) →
     r = J is_dimensioned)).
  destruct (combine_facts _ _ (HJ is_zero_dim) (HJ is_wrapped_scalar)) as (l & El & Hl & Hrl & _).
  destruct (combine_facts _ _ (HJ is_dimensioned) Hl) as (r & Er & Hr & Hrr & Hd).
  exists r. unfold mbind, result_bind. rewrite El, Er. repeat split; [done|lia|]. intros. apply Hd. lia.
Qed.

Lemma rank_contribution p t : t ∈ ts → p t = true →
  category (operand_dtype t) ≤ rank (joins (map (contributes p) ts)).
Proof.
  intros Ht Hp. destruct (contribution_In p t Ht Hp) as [H1 H2]. rewrite <- rank_tabulated by done.
  by apply (joins_spec _ Undefined eq_refl (contributions_ok p)).
Qed.

Lemma joins_rank_le p n :
  -1 ≤ n → (∀ t, t ∈ ts → p t = true → category (operand_dtype t) ≤ n) →
  rank (joins (map (contributes p) ts)) ≤ n.
Proof.
  intros Hn H. unfold joins. pose proof (contributions_ok p) as Hs.
  assert (∀ u, u ∈ map (contributes p) ts → rank u ≤ n) as Hm.
  { intros u Hu. destruct (decide (u = Undefined)) as [->|HU]; [done|].
    destruct (contribution_inv p u Hu HU) as (t & Ht & Hp & ->).
    rewrite rank_tabulated by (by apply contribution_In with (p := p)). auto. }
  assert (∀ a, slot_ok a = true → rank a ≤ n → rank (foldl join a (map (contributes p) ts)) ≤ n) as Hf;
    [|by apply Hf].
  revert Hs Hm. generalize (map (contributes p) ts) as us.
  induction us as [|u us IH]; intros Hs Hm a Ha Hr; simpl; [done|]. apply Forall_cons in Hs as [Hu Hs].
  destruct (join_facts a u Ha Hu) as (_ & Hj & _ & Hrj & _).
  apply IH; [done| |done|].
  - intros. apply Hm. by right.
  - rewrite Hrj. apply Z.max_lub; [done|]. apply Hm. by left.
Qed.

Lemma operand_cases t : defined t = true →
  is_dimensioned t = true ∨ is_wrapped_scalar t = true ∨ is_zero_dim t = true.
Proof.
  unfold is_dimensioned, is_wrapped_scalar, is_zero_dim. intros ->.
  destruct (dim t >? 0), (is_wrapped_number t); auto.
Qed.

Lemma result_type_casts r t :
  result_type dflt ts = Ok r → t ∈ ts → defined t = true → canCast (operand_dtype t) r = true.
Proof.
  intros Er Ht Hd. destruct result_type_Ok as (r' & Er' & Hs & Hr & _). rewrite Er in Er'.
  injection Er' as <-.
  assert (category (operand_dtype t) ≤ rank r) as Hc.
  { rewrite Hr. destruct (operand_cases t Hd) as [H|[H|H]]; pose proof (rank_contribution _ t Ht H); lia. }
  assert (tabulated (operand_dtype t) = true) as Htab.
  { apply operand_dtype_ok. rewrite Forall_forall in operands_ok. auto. }
  destruct (tabulated_slot _ Htab) as [H1 H2]. apply rank_canCast; [done..| |].
  - intros ->. rewrite <- rank_tabulated in Hc by done.
    assert (st_eqb (operand_dtype t) Undefined || (0 <=? rank (operand_dtype t)) = true) as H0
      by (revert H1; generalize (operand_dtype t); intros u Hu; revert u Hu; apply slot_check; vm_compute; reflexivity).
    apply orb_true_iff in H0 as [H0|H0]; [by apply st_eqb_eq in H0|]. apply Z.leb_le in H0.
    change (rank Undefined) with (-1) in Hc. lia.
  - by rewrite rank_tabulated.
Qed.

Lemma result_type_dominated r :
  result_type dflt ts = Ok r → dominated ts →
  (∀ t, t ∈ ts → is_dimensioned t = true → dtype_le (operand_dtype t) r = true) ∧
  ∀ c, tabulated c = true →
    (∀ t, t ∈ ts → is_dimensioned t = true → dtype_le (operand_dtype t) c = true) → dtype_le r c = true.
Proof.
  intros Er (d & Hd & Hdim & Hdom). destruct result_type_Ok as (r' & Er' & Hs & _ & Hr). rewrite Er in Er'.
  injection Er' as <-. pose proof (rank_contribution _ d Hd Hdim) as Hrd.
  assert (∀ p, (∀ t, p t = true → defined t = true) →
    rank (joins (map (contributes p) ts)) ≤ category (operand_dtype d)) as Hle.
  { intros p Hp. apply joins_rank_le; [|auto]. unfold category. repeat case_match; lia. }
  rewrite Hr.
  2: { etrans; [apply Z.max_lub|exact Hrd]; apply Hle; intros t; unfold is_zero_dim, is_wrapped_scalar;
       by destruct (defined t). }
  destruct (joins_spec _ Undefined eq_refl (contributions_ok is_dimensioned)) as (_ & _ & _ & H4 & H5).
  split.
  - intros t Ht Hp. destruct (contribution_In _ t Ht Hp) as [Hin Htab]. apply H4; [done|].
    by apply tabulated_slot.
  - intros c Hc Hall. apply H5; [by apply tabulated_slot|done| |].
    + intros u Hu HU. destruct (contribution_inv _ u Hu HU) as (t & Ht & Hp & ->). auto.
    + intros E. unfold joins in Hrd. rewrite E in Hrd. change (rank Undefined) with (-1) in Hrd.
      revert Hrd. unfold category. repeat case_match; lia.
Qed.
End Operands.

Lemma result_type_Permutation ts ts' :
  Forall (fun t => tabulated (scalar_type t) = true) ts → ts ≡ₚ ts' →
  result_type dflt ts' = result_type dflt ts.
Proof.
  intros H P. assert (Forall (fun t => tabulated (scalar_type t) = true) ts') as H' by by rewrite <- P.
  unfold result_type. rewrite !result_type_loop_spec by done. unfold mbind, result_bind. f_equal.
  simpl. f_equal; (apply joins_Permutation; [done|by apply contributions_ok|by rewrite P]).
Qed.

(** C39. The result type of an operation on operands with promotable dtypes
    always exists and does not depend on the order of the operands; every
    operand can be cast to it; and when the operands with dimensions have
    the highest category, zero-dimensional operands and numbers do not
    matter: the result is the least dtype the dimensioned operands promote
    to. *)
Theorem result_type_spec ts :
  Forall (fun t => tabulated (scalar_type t) = true) ts →
  ∃ r, result_type dflt ts = Ok r ∧
    (∀ ts', ts ≡ₚ ts' → result_type dflt ts' = Ok r) ∧
    (∀ t, t ∈ ts → defined t = true → canCast (operand_dtype t) r = true) ∧
    (dominated ts →
      (∀ t, t ∈ ts → is_dimensioned t = true → dtype_le (operand_dtype t) r = true) ∧
      ∀ c, tabulated c = true →
        (∀ t, t ∈ ts → is_dimensioned t = true → dtype_le (operand_dtype t) c = true) →
        dtype_le r c = true).
Proof.
  intros H. destruct (result_type_Ok ts H) as (r & Er & _). exists r. split; [done|]. split.
  - intros ts' P. by rewrite (result_type_Permutation ts ts').
  - split; [intros t; by apply result_type_casts|by apply result_type_dominated].
Qed.
End ResultTypeSpec.

(** An int32 vector, a float16 scalar tensor and a number: the vector decides
    within its category, the number brings a higher one. *)
Lemma result_type_spec_witness :
  let v := {| defined := true; dim := 1; is_wrapped_number := false; scalar_type := Int |} in
  let n := {| defined := true; dim := 0; is_wrapped_number := true; scalar_type := Long |} in
  let x := {| defined := true; dim := 0; is_wrapped_number := true; scalar_type := Double |} in
  result_type initial_defaults [v; n] = Ok Int ∧ result_type initial_defaults [x; v] = Ok Float.
Proof.
  intros v n x. split.
  - destruct (result_type_spec initial_defaults (conj eq_refl eq_refl) [v; n]) as (r & E & _).
    { repeat constructor. }
    assert (E' : result_type initial_defaults [v; n] = Ok Int) by (vm_compute; reflexivity).
    exact E'.
  - destruct (result_type_spec initial_defaults (conj eq_refl eq_refl) [v; x]) as (r & E & HP & _).
    { repeat constructor. }
    assert (E' : result_type initial_defaults [v; x] = Ok Float) by (vm_compute; reflexivity).
    rewrite E in E'. injection E' as ->. apply HP. apply perm_swap.
Defined.
