(* ===== verification/FloatBits.v ===== *)
(** * Reduced-precision floating-point formats.

    The conversions between single precision and the 16-bit and 8-bit formats
    of torch/headeronly/util: Half.h, BFloat16.h, Float8_e5m2.h,
    Float8_e4m3fn.h, Float8_e5m2fnuz.h, Float8_e4m3fnuz.h, Float8_e8m0fnu.h and
    Float8_fnuz_cvt.h, in their portable versions.  A [float] is represented by
    its 32-bit pattern, so that [fp32_from_bits] and [fp32_to_bits] are the
    identity; its arithmetic is that of SpecFloat at precision 24. *)

From Stdlib Require Import SpecFloat.
From S2P Require Import Prelude.

(** ** Single precision. *)
Definition u32 (x : Z) : Z := x mod 2 ^ 32.
Definition u16 (x : Z) : Z := x mod 2 ^ 16.
Definition u8 (x : Z) : Z := x mod 2 ^ 8.

(** The conversion of a [uint32_t] to [int32_t]. *)
Definition i32 (x : Z) : Z := if x <? 2 ^ 31 then x else x - 2 ^ 32.

(** [__builtin_clz] of a nonzero value. *)
Definition builtin_clz (x : Z) : Z := 31 - Z.log2 x.

(** The number a bit pattern stands for, and back (with one NaN). *)
Definition decode (w : Z) : spec_float :=
  let s := Z.testbit w 31 in
  let e := Z.land (Z.shiftr w 23) 255 in
  let m := Z.land w (2 ^ 23 - 1) in
  if e =? 255 then if m =? 0 then S754_infinity s else S754_nan
  else if e =? 0 then match m with Zpos p => S754_finite s p (-149) | _ => S754_zero s end
  else match m + 2 ^ 23 with Zpos p => S754_finite s p (e - 150) | _ => S754_nan end.

Definition sign_bit (s : bool) : Z := if s then 2 ^ 31 else 0.

Definition encode (f : spec_float) : Z :=
  match f with
  | S754_zero s => sign_bit s
  | S754_infinity s => sign_bit s + Z.shiftl 255 23
  | S754_nan => 0x7FC00000
  | S754_finite s m e =>
      sign_bit s + (if Zpos m <? 2 ^ 23 then Zpos m else Z.shiftl (e + 150) 23 + (Zpos m - 2 ^ 23))
  end.

Definition fp32_add (x y : Z) : Z := encode (SFadd 24 128 (decode x) (decode y)).
Definition fp32_sub (x y : Z) : Z := encode (SFsub 24 128 (decode x) (decode y)).
Definition fp32_mul (x y : Z) : Z := encode (SFmul 24 128 (decode x) (decode y)).
Definition fabsf (x : Z) : Z := Z.land x 0x7FFFFFFF.
Definition isnan32 (x : Z) : bool := 0x7F800000 <? Z.land x 0x7FFFFFFF.

(** ** BFloat16. *)
Definition f32_from_bits (src : Z) : Z := u32 (Z.shiftl src 16).

Definition bits_from_f32 (src : Z) : Z := u16 (Z.shiftr src 16).

Definition round_to_nearest_even (src : Z) : Z :=
  if isnan32 src then 0x7FC0
  else
    let U32 := src in
    let rounding_bias := Z.land (Z.shiftr U32 16) 1 + 0x7FFF in
    u16 (Z.shiftr (u32 (U32 + rounding_bias)) 16).

(** ** Half. *)
Definition fp16_ieee_to_fp32_value (h : Z) : Z :=
  let w := u32 (Z.shiftl h 16) in
  let sign := Z.land w 0x80000000 in
  let two_w := u32 (w + w) in
  let exp_offset := Z.shiftl 0xE0 23 in
  let exp_scale := Z.shiftl 15 23 in
  let normalized_value := fp32_mul (u32 (Z.shiftr two_w 4 + exp_offset)) exp_scale in
  let magic_mask := Z.shiftl 126 23 in
  let magic_bias := 0x3F000000 in
  let denormalized_value := fp32_sub (Z.lor (Z.shiftr two_w 17) magic_mask) magic_bias in
  let denormalized_cutoff := Z.shiftl 1 27 in
  Z.lor sign (if two_w <? denormalized_cutoff then denormalized_value else normalized_value).

Definition fp16_ieee_from_fp32_value (f : Z) : Z :=
  let scale_to_inf := Z.shiftl 239 23 in
  let scale_to_zero := Z.shiftl 17 23 in
  let base := fp32_mul (fp32_mul (fabsf f) scale_to_inf) scale_to_zero in
  let w := f in
  let shl1_w := u32 (w + w) in
  let sign := Z.land w 0x80000000 in
  let bias := Z.land shl1_w 0xFF000000 in
  let bias := if bias <? 0x71000000 then 0x71000000 else bias in
  let base := fp32_add (u32 (Z.shiftr bias 1 + 0x07800000)) base in
  let bits := base in
  let exp_bits := Z.land (Z.shiftr bits 13) 0x00007C00 in
  let mantissa_bits := Z.land bits 0x00000FFF in
  let nonsign := u32 (exp_bits + mantissa_bits) in
  u16 (Z.lor (Z.shiftr sign 16) (if 0xFF000000 <? shl1_w then 0x7E00 else nonsign)).

(** [clz0] is what [__builtin_clz] happens to return for zero. *)
Definition fp16_ieee_to_fp32_bits (clz0 h : Z) : Z :=
  let w := u32 (Z.shiftl h 16) in
  let sign := Z.land w 0x80000000 in
  let nonsign := Z.land w 0x7FFFFFFF in
  let renorm_shift := if nonsign =? 0 then clz0 else builtin_clz nonsign in
  let renorm_shift := if 5 <? renorm_shift then renorm_shift - 5 else 0 in
  let inf_nan_mask := Z.land (Z.shiftr (i32 (u32 (nonsign + 0x04000000))) 8) 0x7F800000 in
  let zero_mask := Z.shiftr (i32 (u32 (nonsign - 1))) 31 in
  Z.lor sign
    (Z.land
       (Z.lor (u32 (Z.shiftr (u32 (Z.shiftl nonsign renorm_shift)) 3 +
                    u32 (Z.shiftl (u32 (0x70 - renorm_shift)) 23))) inf_nan_mask)
       (u32 (Z.lnot zero_mask))).

(** ** Float8_e5m2. *)
Definition fp8e5m2_to_fp32_value (input : Z) : Z :=
  let half_representation := u16 (Z.shiftl input 8) in
  fp16_ieee_to_fp32_value half_representation.

Definition fp8e5m2_from_fp32_value (f : Z) : Z :=
  let fp32_inf := Z.shiftl 255 23 in
  let fp8_max := Z.shiftl 143 23 in
  let denorm_mask := Z.shiftl 134 23 in
  let f_bits := f in
  let sign := Z.land f_bits 0x80000000 in
  let f_bits := Z.lxor f_bits sign in
  let result :=
    if fp8_max <=? f_bits then if fp32_inf <? f_bits then 0x7F else 0x7C
    else if f_bits <? Z.shiftl 113 23 then
      let f_bits := fp32_add f_bits denorm_mask in
      u8 (f_bits - denorm_mask)
    else
      let mant_odd := Z.land (Z.shiftr f_bits 21) 1 in
      let f_bits := u32 (f_bits + (u32 (Z.shiftl (u32 (15 - 127)) 23) + 0xFFFFF)) in
      let f_bits := u32 (f_bits + mant_odd) in
      u8 (Z.shiftr f_bits 21) in
  Z.lor result (u8 (Z.shiftr sign 24)).

Definition e5m2_isnan (x : Z) : bool := 0x7C <? Z.land x 0x7F.
Definition e5m2_isinf (x : Z) : bool := Z.land x 0x7F =? 0x7C.

(** ** Float8_e4m3fn. *)
Definition fp8e4m3fn_to_fp32_value (input : Z) : Z :=
  let w := u32 (Z.shiftl input 24) in
  let sign := Z.land w 0x80000000 in
  let nonsign := Z.land w 0x7FFFFFFF in
  let renorm_shift := if negb (nonsign =? 0) then builtin_clz nonsign else 32 in
  let renorm_shift := if 4 <? renorm_shift then renorm_shift - 4 else 0 in
  let inf_nan_mask := Z.land (Z.shiftr (i32 (u32 (nonsign + 0x01000000))) 8) 0x7F800000 in
  let zero_mask := Z.shiftr (i32 (u32 (nonsign - 1))) 31 in
  Z.lor sign
    (Z.land
       (Z.lor (u32 (Z.shiftr (u32 (Z.shiftl nonsign renorm_shift)) 4 +
                    u32 (Z.shiftl (u32 (0x78 - renorm_shift)) 23))) inf_nan_mask)
       (u32 (Z.lnot zero_mask))).

Definition fp8e4m3fn_from_fp32_value (f : Z) : Z :=
  let fp8_max := Z.shiftl 1087 20 in
  let denorm_mask := Z.shiftl 141 23 in
  let f_bits := f in
  let sign := Z.land f_bits 0x80000000 in
  let f_bits := Z.lxor f_bits sign in
  let result :=
    if fp8_max <=? f_bits then if 0x7F800000 <? f_bits then 0x7F else 0x7E
    else if f_bits <? Z.shiftl 121 23 then
      let f_bits := fp32_add f_bits denorm_mask in
      u8 (f_bits - denorm_mask)
    else
      let mant_odd := Z.land (Z.shiftr f_bits 20) 1 in
      let f_bits := u32 (f_bits + (u32 (Z.shiftl (u32 (7 - 127)) 23) + 0x7FFFF)) in
      let f_bits := u32 (f_bits + mant_odd) in
      let result := u8 (Z.shiftr f_bits 20) in
      if result =? 0x7F then 0x7E else result in
  Z.lor result (u8 (Z.shiftr sign 24)).

Definition e4m3fn_isnan (x : Z) : bool := Z.land x 0x7F =? 0x7F.

(** ** The fnuz formats: no infinity, no negative zero, one NaN. *)
Definition fp8_fnuz_to_fp32_value (we wm x : Z) : Z :=
  let weo := 8 in
  let wmo := 23 in
  if x =? 0 then 0
  else if x =? 0x80 then 0x7F800001
  else
    let mantissa := Z.land x (Z.shiftl 1 wm - 1) in
    let exponent := Z.shiftr (Z.land x 0x7F) wm in
    let '(mantissa, exponent) :=
      if exponent =? 0 then
        let renorm_shift := builtin_clz mantissa in
        let sh := u32 (1 + renorm_shift - (32 - wm)) in
        let mantissa := u32 (Z.shiftl mantissa sh) in
        let exponent := u32 (exponent + u32 (1 - sh)) in
        (Z.land mantissa (Z.shiftl 1 wm - 1), exponent)
      else (mantissa, exponent) in
    let exp_low_cutoff := Z.shiftl 1 (weo - 1) - Z.shiftl 1 (we - 1) in
    let exponent := u32 (exponent + (exp_low_cutoff - 1)) in
    let mantissa := u32 (Z.shiftl mantissa (wmo - wm)) in
    let sign := Z.shiftr x 7 in
    Z.lor (Z.lor (u32 (Z.shiftl sign 31)) (u32 (Z.shiftl exponent 23))) mantissa.

Definition fp8e4m3fnuz_from_fp32_value (f : Z) : Z :=
  let fnuz_max := Z.shiftl 0x87 23 in
  let denorm_mask := Z.shiftl 0x8C 23 in
  let f_bits := f in
  let sign := Z.land f_bits 0x80000000 in
  let f_bits := Z.lxor f_bits sign in
  if fnuz_max <=? f_bits then 0x80
  else if f_bits <? Z.shiftl 0x78 23 then
    let f_bits := fp32_add f_bits denorm_mask in
    let result := u8 (f_bits - denorm_mask) in
    if result =? 0 then 0 else u8 (Z.lor result (Z.shiftr sign 24))
  else
    let mant_odd := Z.land (Z.shiftr f_bits 20) 1 in
    let f_bits := u32 (f_bits + (u32 (Z.shiftl (u32 (8 - 127)) 23) + 0x7FFFF)) in
    let f_bits := u32 (f_bits + mant_odd) in
    let result := u8 (Z.shiftr f_bits 20) in
    u8 (Z.lor result (Z.shiftr sign 24)).

Definition fp8e5m2fnuz_from_fp32_value (f : Z) : Z :=
  let fnuz_max := Z.shiftl 0x8F 23 in
  let denorm_mask := Z.shiftl 0x85 23 in
  let f_bits := f in
  let sign := Z.land f_bits 0x80000000 in
  let f_bits := Z.lxor f_bits sign in
  if fnuz_max <=? f_bits then 0x80
  else if f_bits <? Z.shiftl 0x70 23 then
    let f_bits := fp32_add f_bits denorm_mask in
    let result := u8 (f_bits - denorm_mask) in
    if result =? 0 then 0 else u8 (Z.lor result (Z.shiftr sign 24))
  else
    let mant_odd := Z.land (Z.shiftr f_bits 21) 1 in
    let f_bits := u32 (f_bits + (u32 (Z.shiftl (u32 (16 - 127)) 23) + 0xFFFFF)) in
    let f_bits := u32 (f_bits + mant_odd) in
    let result := u8 (Z.shiftr f_bits 21) in
    u8 (Z.lor result (Z.shiftr sign 24)).

Definition fnuz_isnan (x : Z) : bool := x =? 0x80.

(** ** Float8_e8m0fnu: an exponent without sign and mantissa. *)
Definition fp8e8m0fnu_from_fp32_value (f : Z) : Z :=
  let f_bits := f in
  let exponent := Z.land (Z.shiftr f_bits 23) 255 in
  if exponent =? 255 then u8 exponent
  else
    let g := 0 <? Z.land f_bits 0x400000 in
    let r := 0 <? Z.land f_bits 0x200000 in
    let s := 0 <? Z.land f_bits 0x1FFFFF in
    let lsb := 0 <? exponent in
    let round_up :=
      if g then if r || s then true else if lsb then true else false
      else false in
    let exponent := if round_up then exponent + 1 else exponent in
    u8 exponent.

Definition e8m0fnu_isnan (x : Z) : bool := x =? 255.

Definition fp8e8m0fnu_to_fp32_value (x : Z) : Z :=
  if x =? 0 then 0x00400000
  else if e8m0fnu_isnan x then 0x7F800001
  else u32 (Z.shiftl x 23).

(** ** Rounding to nearest, ties to even. *)

(** [x / 2^n] rounded. *)
Definition rne (n x : Z) : Z :=
  let lo := x / 2 ^ n in
  let d := x mod 2 ^ n in
  if 2 * d <? 2 ^ n then lo
  else if 2 * d =? 2 ^ n then if Z.even lo then lo else lo + 1
  else lo + 1.

(** [p] is the pattern whose value is nearest to [x]; of two at the same
    distance it is the even one. *)
Definition nearest_even (V : Z → Z) (x p : Z) : Prop :=
  0 ≤ p ∧ ∀ q, 0 ≤ q → q ≠ p →
    Z.abs (V p - x) < Z.abs (V q - x) ∨ Z.abs (V p - x) = Z.abs (V q - x) ∧ Z.even p = true.

Lemma pow2_pos n : 0 ≤ n → 0 < 2 ^ n.
Proof. intros. by apply Z.pow_pos_nonneg. Qed.

(** A value is split at a power of two. *)
Lemma split_pow2 n x : 0 ≤ n → x = x / 2 ^ n * 2 ^ n + x mod 2 ^ n ∧ 0 ≤ x mod 2 ^ n < 2 ^ n.
Proof.
  intros H. pose proof (pow2_pos n H).
  split; [rewrite Z.mul_comm; by apply Z.div_mod; lia|apply Z.mod_pos_bound; lia].
Qed.

Lemma div_unique_pow2 n q r : 0 ≤ n → 0 ≤ r < 2 ^ n → (q * 2 ^ n + r) / 2 ^ n = q ∧ (q * 2 ^ n + r) mod 2 ^ n = r.
Proof.
  intros H Hr. split.
  - symmetry. apply (Z.div_unique _ _ _ r); lia.
  - symmetry. apply (Z.mod_unique _ _ q); lia.
Qed.

Lemma rne_split n lo d : 0 ≤ n → 0 ≤ d < 2 ^ n →
  rne n (lo * 2 ^ n + d) =
    if 2 * d <? 2 ^ n then lo else if 2 * d =? 2 ^ n then if Z.even lo then lo else lo + 1 else lo + 1.
Proof. intros H Hd. unfold rne. by destruct (div_unique_pow2 n lo d H Hd) as [-> ->]. Qed.

(** The rounding bias of the code. *)
Lemma rne_bias n x : 1 ≤ n →
  Z.shiftr (x + (2 ^ (n - 1) - 1) + Z.land (Z.shiftr x n) 1) n = rne n x.
Proof.
  intros H. change 1 with (Z.ones 1) at 3. rewrite Z.land_ones, !Z.shiftr_div_pow2 by lia.
  destruct (split_pow2 n x ltac:(lia)) as [E Hd]. set (lo := x / 2 ^ n) in *. set (d := x mod 2 ^ n) in *.
  rewrite E, rne_split by lia.
  assert (2 ^ n = 2 * 2 ^ (n - 1)) as Ep by (rewrite <- Z.pow_succ_r by lia; f_equal; lia).
  pose proof (pow2_pos (n - 1) ltac:(lia)) as Hp.
  assert (lo mod 2 = if Z.even lo then 0 else 1) as Ho.
  { rewrite Zmod_even. reflexivity. }
  replace (2 ^ 1) with 2 by done. rewrite Ho.
  assert (∀ r, 0 ≤ r < 2 ^ n → (lo * 2 ^ n + r) / 2 ^ n = lo) as H0 by (intros; by apply div_unique_pow2; lia).
  assert (∀ r, 2 ^ n ≤ r < 2 * 2 ^ n → (lo * 2 ^ n + r) / 2 ^ n = lo + 1) as H1.
  { intros r Hr. replace (lo * 2 ^ n + r) with ((lo + 1) * 2 ^ n + (r - 2 ^ n)) by lia.
    apply div_unique_pow2; lia. }
  replace (lo * 2 ^ n + d + (2 ^ (n - 1) - 1) + (if Z.even lo then 0 else 1)) with
    (lo * 2 ^ n + (d + 2 ^ (n - 1) - 1 + (if Z.even lo then 0 else 1))) by lia.
  repeat case_bool; first [apply H0 | apply H1]; lia.
Qed.

Lemma rne_scale n j x : 0 ≤ n → 0 ≤ j → rne (n + j) (x * 2 ^ j) = rne n x.
Proof.
  intros Hn Hj. destruct (split_pow2 n x Hn) as [E Hd]. rewrite E at 1.
  set (lo := x / 2 ^ n) in *. set (d := x mod 2 ^ n) in *. pose proof (pow2_pos j Hj).
  rewrite Z.mul_add_distr_r, <- Z.mul_assoc, <- Z.pow_add_r by lia.
  rewrite rne_split, E, rne_split by (rewrite ?Z.pow_add_r by lia; nia).
  rewrite Z.pow_add_r by lia.
  assert ((2 * (d * 2 ^ j) <? 2 ^ n * 2 ^ j) = (2 * d <? 2 ^ n)) as ->.
  { apply eq_true_iff_eq. rewrite !Z.ltb_lt. nia. }
  assert ((2 * (d * 2 ^ j) =? 2 ^ n * 2 ^ j) = (2 * d =? 2 ^ n)) as ->; [|done].
  apply eq_true_iff_eq. rewrite !Z.eqb_eq. nia.
Qed.

Lemma rne_shift n x a : 0 ≤ n → rne n (x + 2 * a * 2 ^ n) = rne n x + 2 * a.
Proof.
  intros Hn. destruct (split_pow2 n x Hn) as [E Hd]. rewrite E at 1.
  set (lo := x / 2 ^ n) in *. set (d := x mod 2 ^ n) in *.
  replace (lo * 2 ^ n + d + 2 * a * 2 ^ n) with ((lo + 2 * a) * 2 ^ n + d) by lia.
  rewrite E, !rne_split by lia.
  rewrite Z.even_add_mul_2. repeat case_match; lia.
Qed.

Lemma rne_bounds n x : 0 ≤ n → 0 ≤ x → x / 2 ^ n ≤ rne n x ≤ x / 2 ^ n + 1.
Proof. intros. unfold rne. repeat case_match; lia. Qed.

(** On a grid that is locally linear, rounding the position rounds the value. *)
Lemma rne_nearest V n x y slope :
  0 ≤ n → 0 ≤ x → (∀ p q, 0 ≤ p → p < q → V p < V q) → 0 < slope →
  (∀ d, 0 ≤ d ≤ 2 ^ n → x / 2 ^ n * 2 ^ n + d = x → y = V (x / 2 ^ n) + d * slope) →
  V (x / 2 ^ n + 1) = V (x / 2 ^ n) + 2 ^ n * slope →
  nearest_even V y (rne n x).
Proof.
  intros Hn Hx Hmono Hs Hy HV. destruct (split_pow2 n x Hn) as [E Hd].
  specialize (Hy (x mod 2 ^ n) ltac:(lia) ltac:(lia)). unfold rne.
  set (lo := x / 2 ^ n) in *. set (d := x mod 2 ^ n) in *.
  assert (0 ≤ lo) as Hlo by (apply Z.div_pos; [lia|by apply pow2_pos]).
  assert (∀ q, 0 ≤ q → q < lo → V q < V lo) as Hl by (intros; apply Hmono; lia).
  assert (∀ q, lo + 1 < q → V (lo + 1) < V q) as Hg by (intros; apply Hmono; lia).
  assert (0 ≤ d * slope < 2 ^ n * slope) as HA by nia.
  assert (2 * d < 2 ^ n → 2 * (d * slope) < 2 ^ n * slope) as HB by nia.
  assert (2 * d = 2 ^ n → 2 * (d * slope) = 2 ^ n * slope) as HC by nia.
  assert (2 ^ n < 2 * d → 2 ^ n * slope < 2 * (d * slope)) as HD by nia.
  revert HA HB HC HD HV Hy. generalize (d * slope) (2 ^ n * slope). intros A B HA HB HC HD HV Hy.
  repeat case_bool; (split; [lia|]); intros q Hq Hne;
    (destruct (Z.lt_trichotomy q lo) as [Hq'|[->|Hq']];
      [specialize (Hl q Hq Hq')|
       |destruct (Z.eq_dec q (lo + 1)) as [->|Hne']; [|specialize (Hg q ltac:(lia))]]);
    try lia.
  - right. split; [lia|done].
  - right. split; [lia|]. rewrite Z.even_add. by rewrite Heqb1.
Qed.

(** ** Values. *)

(** The value of the bit pattern [p] without its sign, for [mb] bits of
    mantissa: subnormal patterns count units, the others have the leading bit;
    the unit is [2 ^ sh].  All values are in units of [2 ^ -149], the least
    positive single-precision number, so that they are integers.  The pattern
    after the last finite one counts as the next power of two. *)
Definition mag (mb sh p : Z) : Z :=
  let e := Z.shiftr p mb in
  let m := p mod 2 ^ mb in
  (if e =? 0 then m else (2 ^ mb + m) * 2 ^ (e - 1)) * 2 ^ sh.

Definition fp32_mag (w : Z) : Z := mag 23 0 w.

Lemma mag_window mb sh e m :
  0 ≤ mb → 0 ≤ sh → 0 ≤ e → 0 ≤ m ≤ 2 ^ mb →
  mag mb sh (e * 2 ^ mb + m) = (if e =? 0 then m else (2 ^ mb + m) * 2 ^ (e - 1)) * 2 ^ sh.
Proof.
  intros Hmb Hsh He Hm. pose proof (pow2_pos mb Hmb) as Hp. unfold mag.
  rewrite Z.shiftr_div_pow2 by lia. destruct (Z.eq_dec m (2 ^ mb)) as [->|Hne].
  - replace (e * 2 ^ mb + 2 ^ mb) with ((e + 1) * 2 ^ mb + 0) by lia.
    destruct (div_unique_pow2 mb (e + 1) 0 Hmb ltac:(lia)) as [-> ->].
    destruct (e + 1 =? 0) eqn:E1; bool_simpl; [lia|]. f_equal. replace (e + 1 - 1) with e by lia.
    destruct (e =? 0) eqn:E2; bool_simpl; [subst; lia|].
    replace e with (Z.succ (e - 1)) at 1 by lia. rewrite Z.pow_succ_r by lia. lia.
  - by destruct (div_unique_pow2 mb e m Hmb ltac:(lia)) as [-> ->].
Qed.

Lemma mag_split mb p : 0 ≤ mb → 0 ≤ p → ∃ e m, p = e * 2 ^ mb + m ∧ 0 ≤ e ∧ 0 ≤ m < 2 ^ mb.
Proof.
  intros Hmb Hp. destruct (split_pow2 mb p Hmb) as [E Hm]. pose proof (pow2_pos mb Hmb).
  exists (p / 2 ^ mb), (p mod 2 ^ mb). split; [done|]. split; [apply Z.div_pos; lia|done].
Qed.

(** Values grow with the pattern. *)
Lemma mag_succ mb sh p : 0 ≤ mb → 0 ≤ sh → 0 ≤ p → mag mb sh p < mag mb sh (p + 1).
Proof.
  intros Hmb Hsh Hp. destruct (mag_split mb p Hmb Hp) as (e & m & -> & He & Hm).
  rewrite <- Z.add_assoc, !mag_window by lia. pose proof (pow2_pos sh Hsh). pose proof (pow2_pos (Z.max 0 (e - 1))).
  case_bool; [nia|]. rewrite Z.max_r in * by lia. nia.
Qed.

Lemma mag_mono mb sh p q : 0 ≤ mb → 0 ≤ sh → 0 ≤ p → p < q → mag mb sh p < mag mb sh q.
Proof.
  intros Hmb Hsh Hp Hq. replace q with (p + Z.of_nat (S (Z.to_nat (q - p - 1)))) by lia.
  generalize (Z.to_nat (q - p - 1)). intros n. induction n as [|n IH]; [by apply mag_succ|].
  etrans; [exact IH|]. replace (p + Z.of_nat (S (S n))) with (p + Z.of_nat (S n) + 1) by lia.
  apply mag_succ; lia.
Qed.

(** A coarse pattern is a fine one followed by zeros. *)
Lemma mag_coarse mb sh k p : 0 ≤ mb → 0 ≤ sh → 0 ≤ k → 0 ≤ p →
  mag mb (sh + k) p = mag (mb + k) sh (p * 2 ^ k).
Proof.
  intros Hmb Hsh Hk Hp. destruct (mag_split mb p Hmb Hp) as (e & m & -> & He & Hm).
  pose proof (pow2_pos k Hk).
  replace ((e * 2 ^ mb + m) * 2 ^ k) with (e * 2 ^ (mb + k) + m * 2 ^ k) by (rewrite Z.pow_add_r; lia).
  rewrite !mag_window by (rewrite ?Z.pow_add_r; nia). rewrite !Z.pow_add_r by lia. case_bool; lia.
Qed.

(** Between two neighbours of the coarse grid values are linear. *)
Lemma mag_linear mb sh k q d : 0 ≤ mb → 0 ≤ sh → 0 ≤ k → 0 ≤ q → 0 ≤ d ≤ 2 ^ k →
  mag (mb + k) sh (q * 2 ^ k + d) =
    mag mb (sh + k) q + d * 2 ^ (Z.max (q / 2 ^ mb) 1 - 1 + sh).
Proof.
  intros Hmb Hsh Hk Hq Hd. rewrite mag_coarse by lia.
  destruct (mag_split mb q Hmb Hq) as (e & m & -> & He & Hm).
  destruct (div_unique_pow2 mb e m Hmb Hm) as [-> _]. pose proof (pow2_pos k Hk).
  replace ((e * 2 ^ mb + m) * 2 ^ k) with (e * 2 ^ (mb + k) + m * 2 ^ k) by (rewrite Z.pow_add_r; lia).
  rewrite <- Z.add_assoc, !mag_window by (rewrite ?Z.pow_add_r; nia).
  rewrite (Z.pow_add_r 2 _ sh) by lia. case_bool.
  - rewrite Z.max_r by lia. change (2 ^ (1 - 1)) with 1. lia.
  - rewrite Z.max_l by lia. lia.
Qed.

(** Rounding away [k] bits of a pattern rounds its value. *)
Lemma mag_rne mb sh k x :
  0 ≤ mb → 0 ≤ sh → 0 ≤ k → 0 ≤ x → nearest_even (mag mb (sh + k)) (mag (mb + k) sh x) (rne k x).
Proof.
  intros Hmb Hsh Hk Hx.
  assert (0 ≤ x / 2 ^ k) as Hlo by (apply Z.div_pos; [lia|by apply pow2_pos]).
  apply (rne_nearest _ k x _ (2 ^ (Z.max (x / 2 ^ k / 2 ^ mb) 1 - 1 + sh))); [done..| | | |].
  - intros. by apply mag_mono; lia.
  - apply pow2_pos. lia.
  - intros d Hd E. rewrite <- E at 1. by apply mag_linear.
  - pose proof (mag_linear mb sh k (x / 2 ^ k) (2 ^ k) Hmb Hsh Hk Hlo) as E.
    pose proof (pow2_pos k Hk). rewrite <- E by lia.
    replace (x / 2 ^ k * 2 ^ k + 2 ^ k) with ((x / 2 ^ k + 1) * 2 ^ k) by lia. apply mag_coarse; lia.
Qed.

(** Rounding a small value to the unit of a format rounds it to a subnormal
    pattern, or to the first normal one. *)
Lemma mag_rne_subnormal mb sh x :
  0 ≤ mb → 0 ≤ sh → 0 ≤ x < 2 ^ mb * 2 ^ sh → nearest_even (mag mb sh) x (rne sh x).
Proof.
  intros Hmb Hsh Hx. pose proof (pow2_pos sh Hsh) as Hp.
  assert (0 ≤ x / 2 ^ sh < 2 ^ mb) as Hlo.
  { split; [apply Z.div_pos; lia|apply Z.div_lt_upper_bound; lia]. }
  assert (∀ q, 0 ≤ q ≤ 2 ^ mb → mag mb sh q = q * 2 ^ sh) as Hq.
  { intros q Hq. pose proof (mag_window mb sh 0 q Hmb Hsh ltac:(lia) Hq) as E. by rewrite Z.mul_0_l in E. }
  apply (rne_nearest _ sh x _ 1); [done|lia| |lia| |].
  - intros. by apply mag_mono; lia.
  - intros d Hd E. rewrite Hq by lia. lia.
  - rewrite !Hq by lia. lia.
Qed.

(** ** Adding a power of two.  The conversions round a value to the unit of
    a subnormal format by adding the power of two whose last mantissa bit has
    that weight. *)

(** [shr_1] applied [n] times keeps the quotient, the last bit shifted out and
    whether a bit below it was set. *)
Definition shifted (n S : Z) : shr_record :=
  {| shr_m := S / 2 ^ n;
     shr_r := if n =? 0 then false else Z.odd (S / 2 ^ (n - 1));
     shr_s := if n =? 0 then false else negb (S mod 2 ^ (n - 1) =? 0) |}.

Lemma shr_1_spec m r s : 0 ≤ m →
  shr_1 {| shr_m := m; shr_r := r; shr_s := s |} = {| shr_m := m / 2; shr_r := Z.odd m; shr_s := r || s |}.
Proof.
  intros Hm. rewrite <- Z.div2_div. destruct m as [|[p|p|]|p]; simpl; try done; lia.
Qed.

Lemma iter_pos_iter {A} (f : A → A) n x : SpecFloat.iter_pos f n x = Pos.iter f x n.
Proof.
  revert x. induction n as [n IH|n IH|]; intros x; simpl; rewrite ?IH; [|done..].
  by rewrite Pos.iter_swap, Pos.iter_swap.
Qed.

Lemma shr_iter S p : 0 ≤ S →
  Pos.iter shr_1 {| shr_m := S; shr_r := false; shr_s := false |} p = shifted (Zpos p) S.
Proof.
  intros HS. induction p as [|p IH] using Pos.peano_ind.
  - change (shr_1 {| shr_m := S; shr_r := false; shr_s := false |} = shifted 1 S).
    rewrite shr_1_spec by done. unfold shifted. simpl. f_equal; [by rewrite Z.div_1_r|].
    by rewrite Z.mod_1_r.
  - rewrite Pos.iter_succ, IH. unfold shifted. rewrite shr_1_spec by (apply Z.div_pos; [lia|by apply pow2_pos]).
    rewrite Pos2Z.inj_succ. set (n := Zpos p). assert (0 < n) as Hn by lia.
    destruct (n =? 0) eqn:E0; bool_simpl; [lia|]. destruct (Z.succ n =? 0) eqn:E1; bool_simpl; [lia|].
    replace (Z.succ n - 1) with n by lia. f_equal.
    + rewrite Z.div_div by (try lia; by apply pow2_pos; lia). rewrite Z.pow_succ_r by lia. f_equal. lia.
    + destruct (split_pow2 (n - 1) S ltac:(lia)) as [E Hd].
      set (a := S / 2 ^ (n - 1)) in *. set (d := S mod 2 ^ (n - 1)) in *.
      assert (2 ^ n = 2 * 2 ^ (n - 1)) as Ep by (rewrite <- Z.pow_succ_r by lia; f_equal; lia).
      assert (S mod 2 ^ n = a mod 2 * 2 ^ (n - 1) + d) as Em.
      { pose proof (Z.div_mod a 2 ltac:(lia)). pose proof (Z.mod_pos_bound a 2 ltac:(lia)).
        symmetry. apply (Z.mod_unique _ _ (a / 2)); [left; nia|]. rewrite E, Ep. nia. }
      rewrite Em. rewrite Zmod_odd. apply eq_true_iff_eq.
      rewrite orb_true_iff, !negb_true_iff, !Z.eqb_neq.
      destruct (Z.odd a); [split; [lia|by left]|]. rewrite Z.mul_0_l, Z.add_0_l. split; [by intros [?|?]|by right].
Qed.

Lemma shifted_round n S : 0 ≤ n → 0 ≤ S →
  SpecFloat.round_nearest_even (shr_m (shifted n S)) (loc_of_shr_record (shifted n S)) = rne n S.
Proof.
  intros Hn HS. unfold shifted, rne. destruct (n =? 0) eqn:E0; bool_simpl.
  { subst n. simpl. by rewrite Z.div_1_r, Z.mod_1_r. }
  destruct (split_pow2 (n - 1) S ltac:(lia)) as [E Hd].
  set (a := S / 2 ^ (n - 1)) in *. set (d := S mod 2 ^ (n - 1)) in *.
  assert (2 ^ n = 2 * 2 ^ (n - 1)) as Ep by (rewrite <- Z.pow_succ_r by lia; f_equal; lia).
  pose proof (Z.div_mod a 2 ltac:(lia)) as Ea. pose proof (Z.mod_pos_bound a 2 ltac:(lia)) as Ha.
  assert (S mod 2 ^ n = a mod 2 * 2 ^ (n - 1) + d) as ->.
  { symmetry. apply (Z.mod_unique _ _ (a / 2)); [left; nia|]. rewrite E, Ep. nia. }
  rewrite Zmod_odd in *. unfold loc_of_shr_record. simpl.
  destruct (Z.odd a); destruct (d =? 0) eqn:Ed; bool_simpl; simpl; rewrite ?Ed;
    repeat case_bool; try done; try lia.
Qed.

Lemma pos_iter_xO p n : Zpos (Pos.iter xO p n) = Zpos p * 2 ^ Zpos n.
Proof.
  induction n as [|n IH] using Pos.peano_ind; [simpl; lia|].
  rewrite Pos.iter_succ, Pos2Z.inj_xO, IH, Pos2Z.inj_succ, Z.pow_succ_r by lia. lia.
Qed.

Lemma shl_align_spec m e e' : e' ≤ e → shl_align m e e' = (fst (shl_align m e e'), e') ∧
  Zpos (fst (shl_align m e e')) = Zpos m * 2 ^ (e - e').
Proof.
  intros H. unfold shl_align. destruct (e' - e) as [|p|p] eqn:E; simpl.
  - replace e' with e by lia. split; [done|]. rewrite Z.sub_diag. lia.
  - lia.
  - split; [done|]. rewrite pos_iter_xO. f_equal. f_equal. lia.
Qed.

Lemma digits_spec p d : 0 < d → 2 ^ (d - 1) ≤ Zpos p < 2 ^ d → Zpos (digits2_pos p) = d.
Proof.
  intros Hd H. assert (∀ p, Zpos (digits2_pos p) = Z.log2 (Zpos p) + 1) as Hl.
  { clear. induction p as [p IH|p IH|]; [| |done]; simpl digits2_pos; rewrite Pos2Z.inj_succ, IH.
    - rewrite Pos2Z.inj_xI, Z.log2_succ_double by lia. lia.
    - rewrite Pos2Z.inj_xO, Z.log2_double by lia. lia. }
  rewrite Hl. rewrite (Z.log2_unique (Zpos p) (d - 1)); [lia|lia|].
  split; [lia|]. replace (Z.succ (d - 1)) with d by lia. lia.
Qed.

Lemma decode_fields e m : 0 ≤ e < 255 → 0 ≤ m < 2 ^ 23 →
  decode (e * 2 ^ 23 + m) =
    if e =? 0 then match m with Zpos p => S754_finite false p (-149) | _ => S754_zero false end
    else match m + 2 ^ 23 with Zpos p => S754_finite false p (e - 150) | _ => S754_nan end.
Proof.
  intros He Hm. destruct (div_unique_pow2 23 e m ltac:(lia) Hm) as [Hq Hr].
  assert (e * 2 ^ 23 + m < 2 ^ 31) as Hb by (change (2 ^ 31) with (256 * 2 ^ 23); lia).
  unfold decode. rewrite Z.shiftr_div_pow2 by lia. rewrite Hq.
  assert (Z.land e 255 = e) as ->.
  { change 255 with (Z.ones 8). rewrite Z.land_ones by lia. apply Z.mod_small. change (2 ^ 8) with 256. lia. }
  change (2 ^ 23 - 1) with (Z.ones 23). rewrite Z.land_ones, Hr by lia.
  assert (Z.testbit (e * 2 ^ 23 + m) 31 = false) as ->.
  { rewrite Z.testbit_false by lia. rewrite Z.div_small by lia. done. }
  destruct (e =? 255) eqn:E; bool_simpl; [lia|done].
Qed.

(** The nonzero values have a mantissa and an exponent. *)
Lemma decode_finite U d :
  0 ≤ U < d * 2 ^ 23 → 0 ≤ d ≤ 255 → 0 < fp32_mag U →
  ∃ p e, decode U = S754_finite false p e ∧ -149 ≤ e ≤ Z.max (d - 151) (-149) ∧
    fp32_mag U = Zpos p * 2 ^ (e + 149).
Proof.
  intros HU Hd Hpos. destruct (mag_split 23 U ltac:(lia) ltac:(lia)) as (e & m & -> & He & Hm).
  assert (e < d) as Hed by nia. unfold fp32_mag in *. rewrite decode_fields by lia.
  rewrite mag_window in * by lia. rewrite !Z.mul_1_r in *. destruct (e =? 0) eqn:E; bool_simpl.
  - destruct m as [|p|p]; [lia| |lia]. exists p, (-149). split; [done|]. split; [lia|]. simpl. lia.
  - destruct (m + 2 ^ 23) as [|p|p] eqn:Ep; [lia| |lia]. exists p, (e - 150). split; [done|].
    split; [lia|]. rewrite <- Ep. replace (e - 150 + 149) with (e - 1) by lia. lia.
Qed.

Lemma binary_round_aux_fits S n e :
  0 ≤ n → 0 ≤ S → 2 ^ 23 ≤ rne n S < 2 ^ 24 → -149 ≤ e + n ≤ 104 →
  Zdigits2 S = 24 + n →
  ∃ p, rne n S = Zpos p ∧ binary_round_aux 24 128 false S e loc_Exact = S754_finite false p (e + n).
Proof.
  intros Hn HS HR He Hd. destruct (rne n S) as [|p|p] eqn:Ep; [lia| |lia]. exists p. split; [done|].
  unfold binary_round_aux, shr_fexp. rewrite Hd.
  assert (fexp 24 128 (24 + n + e) - e = n) as -> by (unfold fexp, emin; lia).
  assert (shr (shr_record_of_loc S loc_Exact) e n = (shifted n S, e + n)) as ->.
  { unfold shr. destruct n as [|q|q]; [|by rewrite iter_pos_iter, <- shr_iter|lia].
    unfold shifted. simpl. rewrite Z.div_1_r. f_equal. lia. }
  rewrite shifted_round, Ep by done. simpl Zdigits2.
  rewrite (digits_spec p 24) by (simpl (24 - 1); lia).
  assert (fexp 24 128 (24 + (e + n)) - (e + n) = 0) as -> by (unfold fexp, emin; lia). simpl.
  change (128 - 24) with 104. destruct (e + n <=? 104) eqn:E; bool_simpl; [done|lia].
Qed.

Lemma decode_pow2 d : 1 ≤ d ≤ 253 → decode (d * 2 ^ 23) = S754_finite false (2 ^ 23)%positive (d - 150).
Proof.
  intros Hd. rewrite <- (Z.add_0_r (d * 2 ^ 23)), decode_fields by lia.
  destruct (d =? 0) eqn:E; bool_simpl; [lia|done].
Qed.

(** The sum with a power of two, for a mantissa and an exponent. *)
Lemma SFadd_pow2 p e d :
  1 ≤ d ≤ 253 → -149 ≤ e ≤ d - 150 → Zpos p < 2 ^ 22 * 2 ^ (d - 150 - e) →
  encode (SFadd 24 128 (S754_finite false p e) (S754_finite false (2 ^ 23)%positive (d - 150))) =
    d * 2 ^ 23 + rne (d - 150 - e) (Zpos p).
Proof.
  intros Hd He Hp22. set (n := d - 150 - e) in *. assert (0 ≤ n) as Hn by lia.
  unfold SFadd. rewrite (Z.min_l e (d - 150)) by lia.
  destruct (shl_align_spec p e e ltac:(lia)) as [_ Ep]. rewrite Z.sub_diag, Z.mul_1_r in Ep.
  destruct (shl_align_spec (2 ^ 23)%positive (d - 150) e ltac:(lia)) as [_ Eq].
  fold n in Eq. cbn [cond_Zopp]. rewrite Ep, Eq. change (Zpos (2 ^ 23)%positive) with (2 ^ 23).
  pose proof (pow2_pos n Hn) as Hpn.
  assert (rne n (Z.pos p + 2 ^ 23 * 2 ^ n) = rne n (Zpos p) + 2 ^ 23) as Er
    by (change (2 ^ 23) with (2 * 2 ^ 22); by rewrite rne_shift).
  assert (0 ≤ rne n (Zpos p) ≤ 2 ^ 22) as Hr.
  { pose proof (rne_bounds n (Zpos p) Hn ltac:(lia)).
    assert (0 ≤ Zpos p / 2 ^ n < 2 ^ 22); [|lia].
    split; [apply Z.div_pos; lia|apply Z.div_lt_upper_bound; lia]. }
  destruct (Z.pos p + 2 ^ 23 * 2 ^ n) as [|S|S] eqn:ES; [lia| |lia].
  assert (Zpos (digits2_pos S) = 24 + n) as Hdig.
  { apply digits_spec; [lia|]. rewrite <- ES. replace (24 + n - 1) with (23 + n) by lia.
    rewrite !Z.pow_add_r by lia. change (2 ^ 24) with (2 * 2 ^ 23). nia. }
  unfold binary_normalize, binary_round. rewrite Hdig.
  assert (fexp 24 128 (24 + n + e) = e + n) as -> by (unfold fexp, emin; lia).
  assert (shl_align S e (e + n) = (S, e)) as ->.
  { unfold shl_align. replace (e + n - e) with n by lia. by destruct n. }
  destruct (binary_round_aux_fits (Zpos S) n e) as (q & Eq' & ->);
    [done|lia|rewrite Er; lia|lia|done|].
  unfold encode, sign_bit. rewrite <- Eq', Er, Z.shiftl_mul_pow2 by lia.
  destruct (rne n (Z.pos p) + 2 ^ 23 <? 2 ^ 23) eqn:E; bool_simpl; [lia|].
  replace (e + n + 150) with d by lia. lia.
Qed.

Lemma fp32_mag_0 U : 0 ≤ U → fp32_mag U ≤ 0 → U = 0.
Proof.
  intros HU H. destruct (Z.eq_dec U 0); [done|].
  pose proof (mag_mono 23 0 0 U ltac:(lia) ltac:(lia) ltac:(lia) ltac:(lia)).
  change (mag 23 0 0) with 0 in *. unfold fp32_mag in *. lia.
Qed.

Lemma fp32_add_pow2 U d :
  1 ≤ d ≤ 253 → 0 ≤ U < d * 2 ^ 23 → fp32_mag U < 2 ^ 22 * 2 ^ (d - 1) →
  fp32_add U (Z.shiftl d 23) = Z.shiftl d 23 + rne (d - 1) (fp32_mag U).
Proof.
  intros Hd HU Hx. rewrite Z.shiftl_mul_pow2 by lia. unfold fp32_add. rewrite decode_pow2 by done.
  pose proof (pow2_pos (d - 1) ltac:(lia)) as Hp.
  destruct (Z_le_gt_dec (fp32_mag U) 0) as [H0|Hne].
  - rewrite (fp32_mag_0 U) by lia. change (decode 0) with (S754_zero false). unfold SFadd, encode, sign_bit.
    change (fp32_mag 0) with 0. rewrite Z.shiftl_mul_pow2 by lia. unfold rne.
    rewrite Z.div_0_l, Z.mod_0_l by lia. change (Z.pos (2 ^ 23) <? 2 ^ 23) with false.
    destruct (2 * 0 <? 2 ^ (d - 1)) eqn:E; bool_simpl; lia.
  - destruct (decode_finite U d HU ltac:(lia) ltac:(lia)) as (p & e & -> & He & Ex).
    rewrite Ex in *. assert (d - 1 = (d - 150 - e) + (e + 149)) as Edn by lia.
    rewrite Edn, rne_scale by lia. apply SFadd_pow2; [done|lia|].
    rewrite Edn, (Z.pow_add_r 2 (d - 150 - e) (e + 149)) in Hx by lia.
    pose proof (pow2_pos (e + 149) ltac:(lia)). nia.
Qed.

(** ** Fields of a pattern. *)
Lemma land_shifted U k q : 0 ≤ k → 0 ≤ U < 2 ^ k → Z.land U (q * 2 ^ k) = 0.
Proof.
  intros Hk HU. apply Z.bits_inj'. intros n Hn. rewrite Z.land_spec, Z.bits_0, <- Z.shiftl_mul_pow2 by lia.
  destruct (Z.lt_ge_cases n k); [by rewrite Z.shiftl_spec_low, andb_false_r|].
  rewrite (proj2 (Z.testbit_false U n Hn)); [done|].
  assert (2 ^ k ≤ 2 ^ n) by (by apply Z.pow_le_mono_r). rewrite Z.div_small by lia. done.
Qed.

Lemma land_high U k : 0 ≤ k → 0 ≤ U < 2 ^ k → Z.land U (2 ^ k) = 0.
Proof. intros. rewrite <- (Z.mul_1_l (2 ^ k)). by apply land_shifted. Qed.

Lemma lor_shifted U k q : 0 ≤ k → 0 ≤ U < 2 ^ k → Z.lor U (q * 2 ^ k) = q * 2 ^ k + U.
Proof. intros Hk HU. rewrite <- Z.lxor_lor, <- Z.add_nocarry_lxor by (by apply land_shifted). lia. Qed.

Lemma lor_high U k s : 0 ≤ k → 0 ≤ U < 2 ^ k → s = 0 ∨ s = 1 → Z.lor U (s * 2 ^ k) = s * 2 ^ k + U.
Proof. intros Hk HU _. by apply lor_shifted. Qed.

(** The sign and the other bits of a single-precision number. *)
Lemma sign_split w : 0 ≤ w < 2 ^ 32 →
  ∃ s U, (s = 0 ∨ s = 1) ∧ w = s * 2 ^ 31 + U ∧ 0 ≤ U < 2 ^ 31 ∧
    Z.land w 0x80000000 = s * 2 ^ 31 ∧ Z.lxor w (s * 2 ^ 31) = U ∧ Z.land w 0x7FFFFFFF = U.
Proof.
  intros Hw. destruct (split_pow2 31 w ltac:(lia)) as [E HU].
  set (s := w / 2 ^ 31) in *. set (U := w mod 2 ^ 31) in *. exists s, U.
  assert (s = 0 ∨ s = 1) as Hs by (change (2 ^ 32) with (2 * 2 ^ 31) in Hw; nia).
  change 0x80000000 with (2 ^ 31). change 0x7FFFFFFF with (Z.ones 31).
  rewrite Z.land_ones by lia. fold U. repeat split; try tauto; try lia.
  - rewrite E. destruct Hs as [->| ->].
    + rewrite Z.mul_0_l, Z.add_0_l. by apply land_high.
    + rewrite Z.mul_1_l, Z.add_comm, Z.add_nocarry_lxor, Z.lxor_lor by (by apply land_high).
      by rewrite Z.land_lor_distr_l, land_high, Z.land_diag by done.
  - rewrite E at 1. destruct Hs as [->| ->].
    + by rewrite Z.mul_0_l, Z.lxor_0_r, Z.add_0_l.
    + rewrite !Z.mul_1_l, (Z.add_comm (2 ^ 31)), Z.add_nocarry_lxor by (by apply land_high).
      by rewrite Z.lxor_assoc, Z.lxor_nilpotent, Z.lxor_0_r.
Qed.

(** ** Rounding to a format with [mb] bits of mantissa and exponent bias
    [bias], as the two branches of the code compute it. *)
Definition round_to (mb bias U : Z) : Z :=
  if U <? (128 - bias) * 2 ^ 23 then rne (150 - bias - mb) (fp32_mag U)
  else rne (23 - mb) (U - (127 - bias) * 2 ^ 23).

Lemma mag_bias b W : 0 ≤ b → 2 ^ 23 ≤ W → mag 23 b W = fp32_mag (W + b * 2 ^ 23).
Proof.
  intros Hb HW. destruct (mag_split 23 W ltac:(lia) ltac:(lia)) as (e & m & -> & He & Hm).
  assert (1 ≤ e) as He1 by nia. unfold fp32_mag.
  replace (e * 2 ^ 23 + m + b * 2 ^ 23) with ((e + b) * 2 ^ 23 + m) by lia.
  rewrite !mag_window by lia. destruct (e =? 0) eqn:E1; bool_simpl; [lia|].
  destruct (e + b =? 0) eqn:E2; bool_simpl; [lia|]. rewrite <- Z.mul_assoc, <- Z.pow_add_r by lia.
  rewrite Z.mul_1_r. do 2 f_equal. lia.
Qed.

Lemma fp32_mag_pos U : 0 ≤ U → 0 ≤ fp32_mag U.
Proof.
  intros HU. destruct (Z.eq_dec U 0) as [->|]; [done|].
  pose proof (mag_mono 23 0 0 U ltac:(lia) ltac:(lia) ltac:(lia) ltac:(lia)).
  change (mag 23 0 0) with 0 in *. unfold fp32_mag. lia.
Qed.

Lemma fp32_mag_small mb bias U : 0 ≤ mb ≤ 23 → bias ≤ 127 → 0 ≤ U < (128 - bias) * 2 ^ 23 →
  fp32_mag U < 2 ^ mb * 2 ^ (150 - bias - mb).
Proof.
  intros Hmb Hb HU. rewrite <- Z.pow_add_r by lia.
  pose proof (mag_mono 23 0 U ((128 - bias) * 2 ^ 23) ltac:(lia) ltac:(lia) ltac:(lia) ltac:(lia)) as H.
  unfold fp32_mag. rewrite <- (Z.add_0_r ((128 - bias) * 2 ^ 23)), mag_window in H by lia.
  destruct (128 - bias =? 0) eqn:E; bool_simpl; [lia|]. rewrite Z.add_0_r, <- !Z.pow_add_r in H by lia.
  replace (mb + (150 - bias - mb)) with (23 + (128 - bias - 1) + 0) by lia. done.
Qed.

Lemma round_to_nearest mb bias U :
  0 ≤ mb ≤ 23 → 0 ≤ bias ≤ 127 → 0 ≤ U →
  nearest_even (mag mb (150 - bias - mb)) (fp32_mag U) (round_to mb bias U).
Proof.
  intros Hmb Hb HU. unfold round_to. case_bool.
  - apply mag_rne_subnormal; [lia..|]. split; [by apply fp32_mag_pos|apply fp32_mag_small; lia].
  - replace (fp32_mag U) with (mag 23 (127 - bias) (U - (127 - bias) * 2 ^ 23)).
    2: { rewrite mag_bias by lia. f_equal. lia. }
    pose proof (mag_rne mb (127 - bias) (23 - mb) (U - (127 - bias) * 2 ^ 23)) as H.
    replace (127 - bias + (23 - mb)) with (150 - bias - mb) in H by lia.
    replace (mb + (23 - mb)) with 23 in H by lia. apply H; lia.
Qed.

(** The two branches of the code. *)
Lemma subnormal_branch mb bias U :
  0 ≤ mb ≤ 7 → 7 ≤ bias ≤ 16 → 0 ≤ U < (128 - bias) * 2 ^ 23 →
  u8 (fp32_add U (Z.shiftl (151 - bias - mb) 23) - Z.shiftl (151 - bias - mb) 23) = round_to mb bias U ∧
  0 ≤ round_to mb bias U ≤ 2 ^ mb.
Proof.
  intros Hmb Hb HU. pose proof (fp32_mag_small mb bias U ltac:(lia) ltac:(lia) HU) as Hx.
  pose proof (fp32_mag_pos U ltac:(lia)) as Hx0.
  assert (2 ^ mb ≤ 2 ^ 7) as Hmb7 by (apply Z.pow_le_mono_r; lia).
  pose proof (pow2_pos (150 - bias - mb) ltac:(lia)) as Hp.
  rewrite fp32_add_pow2; [|lia|nia| ].
  2: { replace (151 - bias - mb - 1) with (150 - bias - mb) by lia. nia. }
  replace (151 - bias - mb - 1) with (150 - bias - mb) by lia. unfold round_to.
  destruct (U <? (128 - bias) * 2 ^ 23) eqn:E; bool_simpl; [|lia].
  pose proof (rne_bounds (150 - bias - mb) (fp32_mag U) ltac:(lia) Hx0).
  assert (0 ≤ fp32_mag U / 2 ^ (150 - bias - mb) < 2 ^ mb) as Hq.
  { split; [apply Z.div_pos; lia|apply Z.div_lt_upper_bound; lia]. }
  split; [|lia]. unfold u8. rewrite Z.mod_small by (change (2 ^ 8) with (2 * 2 ^ 7); lia). lia.
Qed.

Lemma normal_branch mb bias U :
  1 ≤ mb ≤ 7 → 0 ≤ bias < 127 → (128 - bias) * 2 ^ 23 ≤ U < 2 ^ 31 →
  let k := 23 - mb in
  Z.shiftr (u32 (u32 (U + (u32 (Z.shiftl (u32 (bias - 127)) 23) + (2 ^ (k - 1) - 1))) +
    Z.land (Z.shiftr U k) 1)) k = round_to mb bias U ∧
  0 ≤ round_to mb bias U ≤ (U - (127 - bias) * 2 ^ 23) / 2 ^ k + 1.
Proof.
  intros Hmb Hb HU k. unfold round_to. destruct (U <? (128 - bias) * 2 ^ 23) eqn:E; bool_simpl; [lia|].
  set (W := U - (127 - bias) * 2 ^ 23). assert (2 ^ 23 ≤ W ≤ U) as HW by lia.
  assert (0 < 2 ^ (k - 1) ≤ 2 ^ 22) as Hk by (split; [apply pow2_pos|apply Z.pow_le_mono_r]; lia).
  assert (u32 (Z.shiftl (u32 (bias - 127)) 23) = 2 ^ 32 - (127 - bias) * 2 ^ 23) as ->.
  { unfold u32. rewrite Z.shiftl_mul_pow2 by lia.
    rewrite <- (Z.mod_unique (bias - 127) (2 ^ 32) (-1) (bias - 127 + 2 ^ 32)) by lia.
    symmetry. apply (Z.mod_unique _ _ (2 ^ 23 - 1)); lia. }
  assert (u32 (U + (2 ^ 32 - (127 - bias) * 2 ^ 23 + (2 ^ (k - 1) - 1))) = W + (2 ^ (k - 1) - 1)) as ->.
  { unfold u32. symmetry. apply (Z.mod_unique _ _ 1); lia. }
  assert (Z.land (Z.shiftr U k) 1 = Z.land (Z.shiftr W k) 1) as ->.
  { change 1 with (Z.ones 1). rewrite !Z.land_ones, !Z.shiftr_div_pow2 by lia.
    replace U with (W + (127 - bias) * 2 ^ mb * 2 ^ k) by
      (rewrite <- Z.mul_assoc, <- Z.pow_add_r by lia; replace (mb + k) with 23 by lia; lia).
    rewrite Z.div_add by (pose proof (pow2_pos k); lia).
    replace mb with (1 + (mb - 1)) by lia. rewrite Z.pow_add_r by lia.
    replace ((127 - bias) * (2 ^ 1 * 2 ^ (mb - 1))) with ((127 - bias) * 2 ^ (mb - 1) * 2 ^ 1) by lia.
    by rewrite Z.mod_add by lia. }
  assert (0 ≤ Z.land (Z.shiftr W k) 1 ≤ 1) as Hodd.
  { replace (Z.land (Z.shiftr W k) 1) with (Z.shiftr W k mod 2 ^ 1) by (by rewrite <- Z.land_ones by lia).
    pose proof (Z.mod_pos_bound (Z.shiftr W k) (2 ^ 1)). lia. }
  assert (u32 (W + (2 ^ (k - 1) - 1) + Z.land (Z.shiftr W k) 1) =
    W + (2 ^ (k - 1) - 1) + Z.land (Z.shiftr W k) 1) as -> by (apply Z.mod_small; lia).
  rewrite rne_bias by lia. split; [done|].
  fold k. pose proof (rne_bounds k W ltac:(lia) ltac:(lia)). split; [|lia].
  assert (0 ≤ W / 2 ^ k) by (apply Z.div_pos; [lia|apply pow2_pos; lia]). lia.
Qed.

(** The pattern of a conversion result: sign bit and magnitude. *)
Definition signed8 (s p : Z) : Z := s * 2 ^ 7 + p.

Lemma u8_sign s : s = 0 ∨ s = 1 → u8 (Z.shiftr (s * 2 ^ 31) 24) = s * 2 ^ 7 ∧ Z.shiftr (s * 2 ^ 31) 24 = s * 2 ^ 7.
Proof. by intros [->| ->]. Qed.

Lemma signed8_lor s p : s = 0 ∨ s = 1 → 0 ≤ p < 2 ^ 7 → Z.lor p (s * 2 ^ 7) = signed8 s p.
Proof. intros Hs Hp. by apply lor_high. Qed.

Lemma u8_small x : 0 ≤ x < 2 ^ 8 → u8 x = x.
Proof. intros. by apply Z.mod_small. Qed.

Lemma div_mono_le x y k n : 0 < k → x ≤ y → y / k ≤ n → x / k ≤ n.
Proof. intros Hk Hxy H. etrans; [by apply Z.div_le_mono|done]. Qed.

Lemma e5m2_from w s U :
  s = 0 ∨ s = 1 → w = s * 2 ^ 31 + U → 0 ≤ U < 2 ^ 31 →
  Z.land w 0x80000000 = s * 2 ^ 31 → Z.lxor w (s * 2 ^ 31) = U →
  fp8e5m2_from_fp32_value w = signed8 s
    (if 143 * 2 ^ 23 <=? U then if 0x7F800000 <? U then 0x7F else 0x7C else round_to 2 15 U) ∧
  (U < 143 * 2 ^ 23 → 0 ≤ round_to 2 15 U ≤ 0x7C).
Proof.
  intros Hs Ew HU Hland Hlxor. unfold fp8e5m2_from_fp32_value. rewrite Hland, Hlxor.
  destruct (u8_sign s Hs) as [-> _]. change (Z.shiftl 143 23) with (143 * 2 ^ 23).
  change (Z.shiftl 255 23) with 0x7F800000. change (Z.shiftl 113 23) with ((128 - 15) * 2 ^ 23).
  destruct (143 * 2 ^ 23 <=? U) eqn:E1; bool_simpl.
  { split; [|lia]. case_bool; by apply signed8_lor. }
  destruct (U <? (128 - 15) * 2 ^ 23) eqn:E2; bool_simpl.
  - destruct (subnormal_branch 2 15 U) as [H1 H2]; [lia..|]. change (151 - 15 - 2) with 134 in H1.
    rewrite H1. split; [apply signed8_lor; [done|]|]; change (2 ^ 2) with 4 in H2; lia.
  - destruct (normal_branch 2 15 U) as [H1 H2]; [lia..|].
    change (23 - 2) with 21 in *. change (2 ^ (21 - 1) - 1) with 0xFFFFF in H1. rewrite H1.
    assert ((U - (127 - 15) * 2 ^ 23) / 2 ^ 21 ≤ 123) as H3.
    { apply (div_mono_le _ (31 * 2 ^ 23 - 1)); [done|lia|by vm_compute]. }
    rewrite u8_small by lia. split; [apply signed8_lor; [done|]|]; lia.
Qed.

Lemma e4m3fn_from w s U :
  s = 0 ∨ s = 1 → w = s * 2 ^ 31 + U → 0 ≤ U < 2 ^ 31 →
  Z.land w 0x80000000 = s * 2 ^ 31 → Z.lxor w (s * 2 ^ 31) = U →
  fp8e4m3fn_from_fp32_value w = signed8 s
    (if 1087 * 2 ^ 20 <=? U then if 0x7F800000 <? U then 0x7F else 0x7E
     else Z.min (round_to 3 7 U) 0x7E) ∧
  (U < 1087 * 2 ^ 20 → 0 ≤ round_to 3 7 U ≤ 0x7F).
Proof.
  intros Hs Ew HU Hland Hlxor. unfold fp8e4m3fn_from_fp32_value. rewrite Hland, Hlxor.
  destruct (u8_sign s Hs) as [-> _]. change (Z.shiftl 1087 20) with (1087 * 2 ^ 20).
  change (Z.shiftl 121 23) with ((128 - 7) * 2 ^ 23).
  destruct (1087 * 2 ^ 20 <=? U) eqn:E1; bool_simpl.
  { split; [|lia]. case_bool; by apply signed8_lor. }
  destruct (U <? (128 - 7) * 2 ^ 23) eqn:E2; bool_simpl.
  - destruct (subnormal_branch 3 7 U) as [H1 H2]; [lia..|]. change (151 - 7 - 3) with 141 in H1.
    rewrite H1. change (2 ^ 3) with 8 in H2.
    rewrite Z.min_l by lia. split; [apply signed8_lor; [done|]|]; lia.
  - destruct (normal_branch 3 7 U) as [H1 H2]; [lia..|].
    change (23 - 3) with 20 in *. change (2 ^ (20 - 1) - 1) with 0x7FFFF in H1. rewrite H1.
    assert ((U - (127 - 7) * 2 ^ 23) / 2 ^ 20 ≤ 126) as H3.
    { apply (div_mono_le _ (127 * 2 ^ 20 - 1)); [done|lia|by vm_compute]. }
    rewrite u8_small by lia. split; [|lia]. rewrite signed8_lor; [|done|case_bool; lia].
    f_equal. case_bool; lia.
Qed.

(** What the two fnuz conversions share: a magnitude rounded up to 0x80 is
    the NaN pattern, and there is no negative zero. *)
Definition fnuz_result (s p : Z) : Z :=
  if p =? 0 then 0 else if p =? 0x80 then 0x80 else signed8 s p.

Lemma fnuz_lor s p : s = 0 ∨ s = 1 → 0 < p ≤ 0x80 → u8 (Z.lor p (s * 2 ^ 7)) = fnuz_result s p.
Proof.
  intros Hs Hp. unfold fnuz_result. destruct (p =? 0) eqn:E0; bool_simpl; [lia|].
  destruct (p =? 128) eqn:E; bool_simpl.
  - subst. by destruct Hs as [->| ->].
  - rewrite signed8_lor by lia. apply u8_small. unfold signed8. destruct Hs as [->| ->]; lia.
Qed.

Lemma round_to_normal_pos mb bias U :
  1 ≤ mb ≤ 7 → 0 ≤ bias < 127 → (128 - bias) * 2 ^ 23 ≤ U → 0 < round_to mb bias U.
Proof.
  intros Hmb Hb HU. unfold round_to. destruct (U <? (128 - bias) * 2 ^ 23) eqn:E; bool_simpl; [lia|].
  pose proof (rne_bounds (23 - mb) (U - (127 - bias) * 2 ^ 23) ltac:(lia) ltac:(lia)).
  assert (1 ≤ (U - (127 - bias) * 2 ^ 23) / 2 ^ (23 - mb)); [|lia].
  apply Z.div_le_lower_bound; [apply pow2_pos; lia|].
  assert (2 ^ (23 - mb) ≤ 2 ^ 23) by (apply Z.pow_le_mono_r; lia). lia.
Qed.

Lemma e4m3fnuz_from w s U :
  s = 0 ∨ s = 1 → w = s * 2 ^ 31 + U → 0 ≤ U < 2 ^ 31 →
  Z.land w 0x80000000 = s * 2 ^ 31 → Z.lxor w (s * 2 ^ 31) = U →
  fp8e4m3fnuz_from_fp32_value w =
    (if 0x87 * 2 ^ 23 <=? U then 0x80 else fnuz_result s (round_to 3 8 U)) ∧
  (U < 0x87 * 2 ^ 23 → 0 ≤ round_to 3 8 U ≤ 0x80).
Proof.
  intros Hs Ew HU Hland Hlxor. unfold fp8e4m3fnuz_from_fp32_value. rewrite Hland, Hlxor.
  destruct (u8_sign s Hs) as [_ ->]. change (Z.shiftl 0x87 23) with (0x87 * 2 ^ 23).
  change (Z.shiftl 0x78 23) with ((128 - 8) * 2 ^ 23).
  destruct (0x87 * 2 ^ 23 <=? U) eqn:E1; bool_simpl; [split; [done|lia]|].
  destruct (U <? (128 - 8) * 2 ^ 23) eqn:E2; bool_simpl.
  - destruct (subnormal_branch 3 8 U) as [H1 H2]; [lia..|]. change (151 - 8 - 3) with 0x8C in H1.
    rewrite H1. change (2 ^ 3) with 8 in H2. split; [|lia].
    destruct (round_to 3 8 U =? 0) eqn:E0; [by unfold fnuz_result; rewrite E0|]. bool_simpl.
    apply fnuz_lor; [done|lia].
  - destruct (normal_branch 3 8 U) as [H1 H2]; [lia..|].
    change (23 - 3) with 20 in *. change (2 ^ (20 - 1) - 1) with 0x7FFFF in H1. rewrite H1.
    assert ((U - (127 - 8) * 2 ^ 23) / 2 ^ 20 ≤ 127) as H3.
    { apply (div_mono_le _ (16 * 2 ^ 23 - 1)); [done|lia|by vm_compute]. }
    pose proof (round_to_normal_pos 3 8 U ltac:(lia) ltac:(lia) E2).
    rewrite (u8_small (round_to 3 8 U)) by lia. split; [apply fnuz_lor; [done|lia]|lia].
Qed.

Lemma e5m2fnuz_from w s U :
  s = 0 ∨ s = 1 → w = s * 2 ^ 31 + U → 0 ≤ U < 2 ^ 31 →
  Z.land w 0x80000000 = s * 2 ^ 31 → Z.lxor w (s * 2 ^ 31) = U →
  fp8e5m2fnuz_from_fp32_value w =
    (if 0x8F * 2 ^ 23 <=? U then 0x80 else fnuz_result s (round_to 2 16 U)) ∧
  (U < 0x8F * 2 ^ 23 → 0 ≤ round_to 2 16 U ≤ 0x80).
Proof.
  intros Hs Ew HU Hland Hlxor. unfold fp8e5m2fnuz_from_fp32_value. rewrite Hland, Hlxor.
  destruct (u8_sign s Hs) as [_ ->]. change (Z.shiftl 0x8F 23) with (0x8F * 2 ^ 23).
  change (Z.shiftl 0x70 23) with ((128 - 16) * 2 ^ 23).
  destruct (0x8F * 2 ^ 23 <=? U) eqn:E1; bool_simpl; [split; [done|lia]|].
  destruct (U <? (128 - 16) * 2 ^ 23) eqn:E2; bool_simpl.
  - destruct (subnormal_branch 2 16 U) as [H1 H2]; [lia..|]. change (151 - 16 - 2) with 0x85 in H1.
    rewrite H1. change (2 ^ 2) with 4 in H2. split; [|lia].
    destruct (round_to 2 16 U =? 0) eqn:E0; [by unfold fnuz_result; rewrite E0|]. bool_simpl.
    apply fnuz_lor; [done|lia].
  - destruct (normal_branch 2 16 U) as [H1 H2]; [lia..|].
    change (23 - 2) with 21 in *. change (2 ^ (21 - 1) - 1) with 0xFFFFF in H1. rewrite H1.
    assert ((U - (127 - 16) * 2 ^ 23) / 2 ^ 21 ≤ 127) as H3.
    { apply (div_mono_le _ (32 * 2 ^ 23 - 1)); [done|lia|by vm_compute]. }
    pose proof (round_to_normal_pos 2 16 U ltac:(lia) ltac:(lia) E2).
    rewrite (u8_small (round_to 2 16 U)) by lia. split; [apply fnuz_lor; [done|lia]|lia].
Qed.

(** The largest bfloat16 magnitude a number can round to is the infinity. *)
Lemma bf16_from w s U :
  s = 0 ∨ s = 1 → w = s * 2 ^ 31 + U → 0 ≤ U ≤ 0x7F800000 →
  Z.land w 0x7FFFFFFF = U →
  round_to_nearest_even w = s * 2 ^ 15 + rne 16 U ∧ 0 ≤ rne 16 U ≤ 0x7F80.
Proof.
  intros Hs Ew HU Hland. unfold round_to_nearest_even, isnan32. rewrite Hland.
  destruct (0x7F800000 <? U) eqn:E; bool_simpl; [lia|].
  pose proof (rne_bounds 16 U ltac:(lia) ltac:(lia)) as Hb.
  assert (0 ≤ U / 2 ^ 16) by (apply Z.div_pos; lia).
  assert (0 ≤ rne 16 U ≤ 0x7F80) as Hr.
  { split; [lia|]. destruct (Z.eq_dec U 0x7F800000) as [->|]; [by vm_compute|].
    assert (U / 2 ^ 16 ≤ 0x7F7F); [|lia]. by apply (div_mono_le _ (0x7F800000 - 1)); [|lia|]. }
  split; [|done].
  assert (Z.land (Z.shiftr w 16) 1 = Z.land (Z.shiftr U 16) 1) as ->.
  { change 1 with (Z.ones 1). rewrite !Z.land_ones, !Z.shiftr_div_pow2 by lia. rewrite Ew.
    replace (s * 2 ^ 31 + U) with (U + s * 2 ^ 15 * 2 ^ 16) by lia. rewrite Z.div_add by lia.
    replace (s * 2 ^ 15) with (s * 2 ^ 14 * 2 ^ 1) by lia. by rewrite Z.mod_add by lia. }
  assert (0 ≤ Z.land (Z.shiftr U 16) 1 ≤ 1) as Hodd.
  { replace (Z.land (Z.shiftr U 16) 1) with (Z.shiftr U 16 mod 2 ^ 1) by (by rewrite <- Z.land_ones by lia).
    pose proof (Z.mod_pos_bound (Z.shiftr U 16) (2 ^ 1)). lia. }
  rewrite <- (rne_bias 16 U) in * by lia. change (2 ^ (16 - 1) - 1) with 0x7FFF in *.
  unfold u32. rewrite Z.mod_small by (destruct Hs; lia).
  replace (w + (Z.land (Z.shiftr U 16) 1 + 0x7FFF)) with
    (U + 0x7FFF + Z.land (Z.shiftr U 16) 1 + s * 2 ^ 15 * 2 ^ 16) by lia.
  rewrite !Z.shiftr_div_pow2 in * by lia. rewrite Z.div_add by lia.
  unfold u16. rewrite Z.mod_small; [lia|]. change (2 ^ 16) with 65536 in *. destruct Hs; lia.
Qed.

(** ** All patterns of a format. *)

(** [P] on all numbers of [n] bits, the lowest bit first. *)
Fixpoint all_bits (n : nat) (P : Z → bool) : bool :=
  match n with
  | O => P 0
  | S n' => all_bits n' (λ x, P (2 * x)) && all_bits n' (λ x, P (2 * x + 1))
  end.

Lemma all_bits_spec n P : all_bits n P = true → ∀ x, 0 ≤ x < 2 ^ Z.of_nat n → P x = true.
Proof.
  revert P. induction n as [|n IH]; intros P H x Hx; simpl in H.
  - change (2 ^ Z.of_nat 0) with 1 in Hx. by replace x with 0 by lia.
  - apply andb_true_iff in H as [H0 H1]. rewrite Nat2Z.inj_succ, Z.pow_succ_r in Hx by lia.
    pose proof (Z.div_mod x 2 ltac:(lia)) as E. pose proof (Z.mod_pos_bound x 2 ltac:(lia)).
    destruct (Z.eq_dec (x mod 2) 0).
    + rewrite E, e, Z.add_0_r. apply (IH _ H0). lia.
    + replace x with (2 * (x / 2) + 1) by lia. apply (IH _ H1). lia.
Qed.

(** A format of [n] bits: its mantissa, the exponent of its unit, and the
    patterns that are NaN and infinite. *)
Record format := {
  bits : nat;
  mantissa : Z;
  unit_exponent : Z;
  is_nan : Z → bool;
  is_inf : Z → bool
}.

Definition half_format : format :=
  {| bits := 16; mantissa := 10; unit_exponent := 125;
     is_nan p := 0x7C00 <? Z.land p 0x7FFF; is_inf p := Z.land p 0x7FFF =? 0x7C00 |}.
Definition bfloat16_format : format :=
  {| bits := 16; mantissa := 7; unit_exponent := 16;
     is_nan p := 0x7F80 <? Z.land p 0x7FFF; is_inf p := Z.land p 0x7FFF =? 0x7F80 |}.
Definition e5m2_format : format :=
  {| bits := 8; mantissa := 2; unit_exponent := 133; is_nan := e5m2_isnan; is_inf := e5m2_isinf |}.
Definition e4m3fn_format : format :=
  {| bits := 8; mantissa := 3; unit_exponent := 140; is_nan := e4m3fn_isnan; is_inf _ := false |}.
Definition e5m2fnuz_format : format :=
  {| bits := 8; mantissa := 2; unit_exponent := 132; is_nan := fnuz_isnan; is_inf _ := false |}.
Definition e4m3fnuz_format : format :=
  {| bits := 8; mantissa := 3; unit_exponent := 139; is_nan := fnuz_isnan; is_inf _ := false |}.

(** [dec] gives the single-precision number of the same value, and the
    infinity and NaN of the same sign resp. a NaN. *)
Definition decodes (f : format) (dec : Z → Z) (p : Z) : bool :=
  let w := dec p in
  if is_nan f p then isnan32 w
  else Bool.eqb (Z.testbit w 31) (Z.testbit p (Z.of_nat (bits f) - 1)) && (0 <=? w) && (w <? 2 ^ 32) &&
    (if is_inf f p then Z.land w 0x7FFFFFFF =? 0x7F800000
     else (Z.land w 0x7FFFFFFF <? 0x7F800000) &&
          (fp32_mag (Z.land w 0x7FFFFFFF) =?
           mag (mantissa f) (unit_exponent f) (p mod 2 ^ (Z.of_nat (bits f) - 1)))).

(** The conversion back recovers every pattern that is not NaN, and a NaN. *)
Definition recovers (f : format) (dec enc : Z → Z) (p : Z) : bool :=
  if is_nan f p then is_nan f (enc (dec p)) else enc (dec p) =? p.

Definition all_patterns (f : format) (P : Z → bool) : bool := all_bits (bits f) P.
