(* ===== verification/FloatRounding.v ===== *)
(** * Correct rounding of the reduced-precision formats.

    The half-precision conversions of Half.h, which round by scaling and adding
    in single precision, and the theorems about all the formats of FloatBits:
    correct rounding of the conversions from single precision and exactness of
    the conversions to it. *)

From Stdlib Require Import SpecFloat.
From S2P Require Import Prelude FloatBits.

(** ** Half: scaling by powers of two and adding one. *)
Lemma digits_log2 p : Zpos (digits2_pos p) = Z.log2 (Zpos p) + 1.
Proof.
  pose proof (Z.log2_spec (Zpos p) ltac:(lia)) as [H1 H2]. pose proof (Z.log2_nonneg (Zpos p)).
  apply digits_spec; [lia|]. replace (Z.log2 (Zpos p) + 1 - 1) with (Z.log2 (Zpos p)) by lia.
  replace (Z.log2 (Zpos p) + 1) with (Z.succ (Z.log2 (Zpos p))) by lia. lia.
Qed.

Lemma rne_exact n x : 0 ≤ n → rne n (x * 2 ^ n) = x.
Proof.
  intros Hn. rewrite <- (Z.add_0_r (x * 2 ^ n)), rne_split by (pose proof (pow2_pos n); lia).
  pose proof (pow2_pos n Hn). destruct (2 * 0 <? 2 ^ n) eqn:E; bool_simpl; lia.
Qed.

(** Rounding an exact multiple of the final unit. *)
Lemma binary_round_aux_exact S a n e :
  0 ≤ n → Zpos S = Zpos a * 2 ^ n → fexp 24 128 (Z.log2 (Zpos a) + 1 + n + e) = e + n →
  binary_round_aux 24 128 false (Zpos S) e loc_Exact =
    if e + n <=? 104 then S754_finite false a (e + n) else S754_infinity false.
Proof.
  intros Hn ES Hf. assert (Z.log2 (Zpos S) = Z.log2 (Zpos a) + n) as Hl.
  { rewrite ES, Z.log2_mul_pow2 by lia. lia. }
  unfold binary_round_aux, shr_fexp. unfold Zdigits2 at 1. rewrite digits_log2, Hl.
  replace (Z.log2 (Zpos a) + n + 1 + e) with (Z.log2 (Zpos a) + 1 + n + e) by lia. rewrite Hf.
  replace (e + n - e) with n by lia.
  assert (shr (shr_record_of_loc (Zpos S) loc_Exact) e n = (shifted n (Zpos S), e + n)) as ->.
  { unfold shr. destruct n as [|q|q]; [|by rewrite iter_pos_iter, <- shr_iter|lia].
    unfold shifted. simpl. rewrite Z.div_1_r. f_equal. lia. }
  rewrite shifted_round, ES, rne_exact by lia. unfold Zdigits2. rewrite digits_log2.
  replace (Z.log2 (Zpos a) + 1 + (e + n)) with (Z.log2 (Zpos a) + 1 + n + e) by lia. rewrite Hf.
  replace (e + n - (e + n)) with 0 by lia. done.
Qed.

(** Patterns of canonical numbers. *)
Lemma decode_encode m e :
  Zpos m < 2 ^ 24 → -149 ≤ e ≤ 104 → 2 ^ 23 ≤ Zpos m ∨ e = -149 →
  decode (encode (S754_finite false m e)) = S754_finite false m e.
Proof.
  intros Hm He Hc. unfold encode, sign_bit. destruct (Zpos m <? 2 ^ 23) eqn:E; bool_simpl.
  - assert (e = -149) as -> by lia. rewrite Z.add_0_l. rewrite <- (Z.add_0_l (Zpos m)).
    rewrite <- (Z.mul_0_l (2 ^ 23)), decode_fields by lia. done.
  - rewrite Z.add_0_l, Z.shiftl_mul_pow2, decode_fields by (try lia; change (2 ^ 24) with (2 * 2 ^ 23) in *; lia).
    destruct (e + 150 =? 0) eqn:E0; bool_simpl; [lia|].
    replace (Zpos m - 2 ^ 23 + 2 ^ 23) with (Zpos m) by lia. f_equal. lia.
Qed.

(** [(|f| * 2^112) * 2^-110] is four times [|f|], or infinite from 2^16 on. *)
Lemma scale_by_four p e :
  Z.log2 (Zpos p) < 24 → -149 ≤ e ≤ 104 →
  let base := encode (SFmul 24 128 (decode (encode (SFmul 24 128 (S754_finite false p e)
    (decode (Z.shiftl 239 23))))) (decode (Z.shiftl 17 23))) in
  if e + Z.log2 (Zpos p) + 1 <=? 16 then
    ∃ a g, decode base = S754_finite false a g ∧ Zpos a * 2 ^ (g + 149) = Zpos p * 2 ^ (e + 149) * 2 ^ 2 ∧
      -149 ≤ g ≤ Z.max (e + Z.log2 (Zpos p) - 21) (-149)
  else base = 0x7F800000.
Proof.
  intros HD He. set (D := Z.log2 (Zpos p) + 1). pose proof (Z.log2_nonneg (Zpos p)).
  pose proof (Z.log2_spec (Zpos p) ltac:(lia)) as Hp. change (Z.succ (Z.log2 (Zpos p))) with D in Hp.
  replace (Z.log2 (Zpos p)) with (D - 1) in Hp by lia.
  rewrite !Z.shiftl_mul_pow2, !decode_pow2 by lia. cbn [SFmul xorb].
  change (239 - 150) with 89. change (17 - 150) with (-133).
  (* the mantissa filled up to 24 bits *)
  assert (∃ q, Zpos q = Zpos p * 2 ^ (24 - D)) as [q Eq].
  { pose proof (pow2_pos (24 - D) ltac:(lia)). exists (Z.to_pos (Zpos p * 2 ^ (24 - D))).
    apply Z2Pos.id. nia. }
  assert (Z.log2 (Zpos q) = 23) as Hq by (rewrite Eq, Z.log2_mul_pow2 by lia; lia).
  assert (2 ^ 23 ≤ Zpos q < 2 ^ 24) as Hqb by (pose proof (Z.log2_spec (Zpos q) ltac:(lia)); rewrite Hq in *; done).
  rewrite (binary_round_aux_exact _ q (D - 1) (e + 89)).
  2: lia.
  2: { rewrite Pos2Z.inj_mul, Eq. change (Zpos (2 ^ 23)) with (2 ^ 23). rewrite <- Z.mul_assoc, <- Z.pow_add_r by lia.
       do 2 f_equal. lia. }
  2: { rewrite Hq. unfold fexp, emin. lia. }
  replace (e + Z.log2 (Z.pos p) + 1) with (e + D) by lia.
  replace (e + 89 + (D - 1) <=? 104) with (e + D <=? 16)
    by (apply eq_true_iff_eq; rewrite !Z.leb_le; lia).
  destruct (e + D <=? 16) eqn:E; bool_simpl; [|done].
  rewrite decode_encode by lia. cbn [SFmul xorb].
  set (e0 := e + 89 + (D - 1) + -133). set (n := Z.max 23 (-149 - e0)).
  assert (∃ a, Zpos a = Zpos p * 2 ^ (47 - D - n)) as [a Ea].
  { pose proof (pow2_pos (47 - D - n) ltac:(lia)). exists (Z.to_pos (Zpos p * 2 ^ (47 - D - n))).
    apply Z2Pos.id. nia. }
  assert (Z.log2 (Zpos a) = 46 - n) as Ha by (rewrite Ea, Z.log2_mul_pow2 by lia; lia).
  pose proof (Z.log2_spec (Zpos a) ltac:(lia)) as Hab. rewrite Ha in Hab.
  rewrite (binary_round_aux_exact _ a n e0).
  2: lia.
  2: { rewrite Pos2Z.inj_mul, Eq, Ea. change (Zpos (2 ^ 23)) with (2 ^ 23).
       rewrite <- !Z.mul_assoc, <- !Z.pow_add_r by lia. do 2 f_equal. lia. }
  2: { rewrite Ha. unfold fexp, emin. lia. }
  destruct (e0 + n <=? 104) eqn:E1; bool_simpl; [|lia].
  assert (2 ^ Z.succ (46 - n) ≤ 2 ^ 24) as Hpow by (apply Z.pow_le_mono_r; lia).
  exists a, (e0 + n). split; [apply decode_encode; [lia|lia|]|].
  - destruct (Z.eq_dec n 23) as [En|]; [left|right; lia]. rewrite En in Hab. change (46 - 23) with 23 in Hab. lia.
  - split; [|lia]. rewrite Ea, <- !Z.mul_assoc, <- !Z.pow_add_r by lia. do 2 f_equal. lia.
Qed.

(** A field of a word: [j] bits from bit [k] on. *)
Lemma land_field x k j : 0 ≤ k → 0 ≤ j → Z.land x (Z.shiftl (Z.ones j) k) = (x / 2 ^ k) mod 2 ^ j * 2 ^ k.
Proof.
  intros Hk Hj. rewrite <- Z.shiftr_div_pow2, <- Z.land_ones, <- Z.shiftl_mul_pow2 by done.
  apply Z.bits_inj'. intros n Hn. rewrite Z.land_spec. destruct (Z.lt_ge_cases n k).
  - rewrite !(Z.shiftl_spec_low _ k n) by done. by rewrite andb_false_r.
  - rewrite !(Z.shiftl_spec_high _ k n), Z.land_spec, Z.shiftr_spec by lia. by rewrite Z.sub_add.
Qed.

Lemma SFadd_comm_finite p e q g :
  SFadd 24 128 (S754_finite false p e) (S754_finite false q g) =
  SFadd 24 128 (S754_finite false q g) (S754_finite false p e).
Proof. cbn [SFadd cond_Zopp]. by rewrite Z.min_comm, Z.add_comm. Qed.

(** Adding infinity to any power of two the code may form. *)
Lemma add_inf_base E : 0 ≤ E ≤ 255 → fp32_add (Z.shiftl (E + 15) 23) 0x7F800000 = 0x7F800000.
Proof.
  intros HE. assert (forallb (λ E, fp32_add (Z.shiftl (E + 15) 23) 0x7F800000 =? 0x7F800000)
    (map Z.of_nat (seq 0 256)) = true) as H by (vm_compute; reflexivity).
  rewrite forallb_forall in H. apply Z.eqb_eq, H, in_map_iff. exists (Z.to_nat E).
  split; [lia|apply in_seq; lia].
Qed.

(** The magnitude of the half-precision result, for a finite input: from 2^16
    on, infinity. *)
Lemma half_sum U :
  0 ≤ U < 0x7F800000 →
  let d := Z.max (U / 2 ^ 23) 113 + 15 in
  let base := fp32_mul (fp32_mul U (Z.shiftl 239 23)) (Z.shiftl 17 23) in
  if U <? 143 * 2 ^ 23 then
    fp32_add (Z.shiftl d 23) base = d * 2 ^ 23 + rne (d - 3) (fp32_mag U) ∧ d ≤ 157
  else base = 0x7F800000.
Proof.
  intros HU d base. destruct (mag_split 23 U ltac:(lia) ltac:(lia)) as (E & m & EU & HE & Hm).
  assert (U / 2 ^ 23 = E) as EE by (rewrite EU; by apply div_unique_pow2).
  assert (E < 255) as HE255 by lia.
  destruct (Z.eq_dec U 0) as [->|HU0].
  { subst d base. vm_compute. done. }
  assert (0 < fp32_mag U) as Hpos.
  { destruct (Z_le_gt_dec (fp32_mag U) 0); [|lia]. by rewrite (fp32_mag_0 U) in HU0 by lia. }
  destruct (decode_finite U 255 ltac:(lia) ltac:(lia) Hpos) as (p & e & Ed & He & Ex).
  (* the exponent field bounds the number *)
  assert (Z.log2 (Zpos p) < 24 ∧ -149 ≤ e ≤ 104 ∧ e + Z.log2 (Zpos p) + 1 ≤ Z.max E 1 - 126 ∧
    (0 < E → e + Z.log2 (Zpos p) + 1 = E - 126)) as (HD & He' & HDe & HDe').
  { rewrite EU, decode_fields in Ed by lia. destruct (E =? 0) eqn:E0; bool_simpl.
    - destruct m as [|q|q]; try discriminate. injection Ed as -> <-.
      assert (Z.log2 (Zpos p) < 23) by (apply Z.log2_lt_pow2; lia). lia.
    - destruct (m + 2 ^ 23) as [|q|q] eqn:Eq; try discriminate. injection Ed as -> <-.
      assert (Z.log2 (Zpos p) = 23) by (apply Z.log2_unique; lia). lia. }
  pose proof (scale_by_four p e HD He') as Hs. cbv zeta in Hs. rewrite <- Ed in Hs.
  change (encode (SFmul 24 128 (decode (encode (SFmul 24 128 (decode U)
    (decode (Z.shiftl 239 23))))) (decode (Z.shiftl 17 23)))) with base in Hs.
  destruct (U <? 143 * 2 ^ 23) eqn:Elim; bool_simpl.
  - assert (E < 143) by lia. destruct (e + Z.log2 (Zpos p) + 1 <=? 16) eqn:E16; bool_simpl; [|lia].
    destruct Hs as (a & g & Ea & Eval & Hg). split; [|lia].
    unfold fp32_add. rewrite Ea, Z.shiftl_mul_pow2, decode_pow2, SFadd_comm_finite by lia.
    pose proof (pow2_pos (g + 149) ltac:(lia)) as Hpg.
    rewrite SFadd_pow2; [|lia|lia|].
    + f_equal. rewrite Ex. replace (d - 3) with (d - 1 - 2) by lia.
      rewrite <- (rne_scale (d - 1 - 2) 2) by lia. replace (d - 1 - 2 + 2) with (d - 150 - g + (g + 149)) by lia.
      rewrite <- Eval. symmetry. apply rne_scale; lia.
    + (* four times the number is far below the power of two *)
      pose proof (Z.log2_spec (Zpos p) ltac:(lia)) as [_ Hp]. set (l := Z.log2 (Zpos p)) in *.
      assert (Zpos p * 2 ^ (e + 149) * 2 ^ 2 < 2 ^ (d + 21)) as Hlt.
      { apply Z.lt_le_trans with (2 ^ (Z.succ l) * 2 ^ (e + 149) * 2 ^ 2).
        - pose proof (pow2_pos (e + 149) ltac:(lia)). nia.
        - pose proof (Z.log2_nonneg (Zpos p)).
          rewrite <- !Z.pow_add_r by lia. apply Z.pow_le_mono_r; lia. }
      rewrite <- Eval in Hlt. replace (d + 21) with (22 + (d - 150 - g) + (g + 149)) in Hlt by lia.
      rewrite (Z.pow_add_r 2 (22 + (d - 150 - g)) (g + 149)), (Z.pow_add_r 2 22 (d - 150 - g)) in Hlt by lia.
      nia.
  - assert (143 ≤ E) by lia. destruct (e + Z.log2 (Zpos p) + 1 <=? 16) eqn:E16; bool_simpl; [lia|done].
Qed.

(** The exponent and mantissa fields of the sum are the half-precision pattern. *)
Lemma half_fields U :
  0 ≤ U < 143 * 2 ^ 23 →
  let d := Z.max (U / 2 ^ 23) 113 + 15 in
  let R := rne (d - 3) (fp32_mag U) in
  0 ≤ R ≤ 2 ^ 11 ∧ d mod 2 ^ 5 * 2 ^ 10 + R = round_to 10 15 U.
Proof.
  intros HU d R. destruct (mag_split 23 U ltac:(lia) ltac:(lia)) as (E & m & EU & HE & Hm).
  assert (U / 2 ^ 23 = E) as EE by (rewrite EU; by apply div_unique_pow2).
  assert (E < 143) by lia. unfold round_to.
  destruct (U <? (128 - 15) * 2 ^ 23) eqn:E1; bool_simpl.
  - assert (d = 128) as Hd by lia. subst R. rewrite Hd in *. change (128 - 3) with (150 - 15 - 10) in *.
    pose proof (fp32_mag_small 10 15 U ltac:(lia) ltac:(lia) ltac:(lia)) as Hx.
    pose proof (fp32_mag_pos U ltac:(lia)). pose proof (rne_bounds (150 - 15 - 10) (fp32_mag U) ltac:(lia) ltac:(lia)).
    assert (0 ≤ fp32_mag U / 2 ^ (150 - 15 - 10) < 2 ^ 10) as Hq.
    { split; [apply Z.div_pos; lia|apply Z.div_lt_upper_bound; lia]. }
    split; [lia|]. change (128 mod 2 ^ 5 * 2 ^ 10) with 0. lia.
  - assert (113 ≤ E) by lia. assert (d = E + 15) as Hd by lia.
    assert (R = rne 13 (2 ^ 23 + m)) as ER.
    { subst R. unfold fp32_mag. rewrite Hd, EU, mag_window by lia. destruct (E =? 0) eqn:E0; bool_simpl; [lia|].
      rewrite Z.mul_1_r. replace (E + 15 - 3) with (13 + (E - 1)) by lia. apply rne_scale; lia. }
    pose proof (rne_bounds 13 (2 ^ 23 + m) ltac:(lia) ltac:(lia)) as Hb.
    assert (2 ^ 10 ≤ (2 ^ 23 + m) / 2 ^ 13 < 2 ^ 11) as Hq.
    { split; [apply Z.div_le_lower_bound; lia|apply Z.div_lt_upper_bound; lia]. }
    split; [lia|]. assert (d mod 2 ^ 5 = E - 113) as ->.
    { symmetry. apply (Z.mod_unique _ _ 4); lia. }
    rewrite ER. change (23 - 10) with 13.
    replace (U - (127 - 15) * 2 ^ 23) with (2 ^ 23 + m + 2 * ((E - 113) * 2 ^ 9) * 2 ^ 13) by lia.
    rewrite rne_shift by lia. lia.
Qed.

Lemma half_from w s U :
  s = 0 ∨ s = 1 → w = s * 2 ^ 31 + U → 0 ≤ U ≤ 0x7F800000 →
  Z.land w 0x80000000 = s * 2 ^ 31 → Z.land w 0x7FFFFFFF = U →
  fp16_ieee_from_fp32_value w = s * 2 ^ 15 + (if U <? 143 * 2 ^ 23 then round_to 10 15 U else 0x7C00) ∧
  (U < 143 * 2 ^ 23 → 0 ≤ round_to 10 15 U ≤ 0x7C00).
Proof.
  intros Hs Ew HU Hland Hlow. unfold fp16_ieee_from_fp32_value, fabsf. rewrite Hland, Hlow.
  assert (u32 (w + w) = 2 * U) as ->.
  { unfold u32. symmetry. apply (Z.mod_unique _ _ s); [destruct Hs; lia|rewrite Ew; lia]. }
  destruct (0xFF000000 <? 2 * U) eqn:En; bool_simpl; [lia|].
  assert (Z.land (2 * U) 0xFF000000 = U / 2 ^ 23 * 2 ^ 24) as ->.
  { change 0xFF000000 with (Z.shiftl (Z.ones 8) 24). rewrite land_field by lia.
    replace (2 ^ 24) with (2 * 2 ^ 23) at 1 by done. rewrite Z.div_mul_cancel_l by lia.
    rewrite Z.mod_small; [done|]. split; [apply Z.div_pos; lia|apply Z.div_lt_upper_bound; lia]. }
  assert (0 ≤ U / 2 ^ 23 ≤ 255) as HE.
  { split; [apply Z.div_pos; lia|]. apply (div_mono_le _ 0x7F800000); [done|lia|by vm_compute]. }
  assert ((if U / 2 ^ 23 * 2 ^ 24 <? 0x71000000 then 0x71000000 else U / 2 ^ 23 * 2 ^ 24) =
    Z.max (U / 2 ^ 23) 113 * 2 ^ 24) as -> by (case_bool; lia).
  assert (u32 (Z.shiftr (Z.max (U / 2 ^ 23) 113 * 2 ^ 24) 1 + 0x07800000) =
    Z.shiftl (Z.max (U / 2 ^ 23) 113 + 15) 23) as ->.
  { rewrite Z.shiftr_div_pow2, Z.shiftl_mul_pow2 by lia.
    replace (Z.max (U / 2 ^ 23) 113 * 2 ^ 24) with (Z.max (U / 2 ^ 23) 113 * 2 ^ 23 * 2 ^ 1) by lia.
    rewrite Z.div_mul by lia. unfold u32. rewrite Z.mod_small; lia. }
  assert (Z.shiftr (s * 2 ^ 31) 16 = s * 2 ^ 15) as Es by (by destruct Hs as [->| ->]).
  rewrite Es. change 0x7C00 with (Z.shiftl (Z.ones 5) 10). change 0xFFF with (Z.shiftl (Z.ones 12) 0).
  assert (∀ p, 0 ≤ p ≤ 0x7C00 → u16 (Z.lor (s * 2 ^ 15) (u32 p)) = s * 2 ^ 15 + p) as Hfin.
  { intros p Hp. unfold u32. rewrite (Z.mod_small p) by lia. rewrite Z.lor_comm, lor_high by lia.
    apply Z.mod_small. destruct Hs; lia. }
  destruct (U <? 143 * 2 ^ 23) eqn:El; bool_simpl.
  - destruct (half_fields U ltac:(lia)) as [HR Efin].
    pose proof (half_sum U ltac:(lia)) as Hsum. cbv zeta in Hsum.
    rewrite (proj2 (Z.ltb_lt _ _) El) in Hsum. destruct Hsum as [-> Hd].
    set (d := Z.max (U / 2 ^ 23) 113 + 15) in *. set (R := rne (d - 3) (fp32_mag U)) in *.
    assert (0 ≤ round_to 10 15 U ≤ 0x7C00) as Hb.
    { split; [rewrite <- Efin; pose proof (Z.mod_pos_bound d (2 ^ 5)); lia|].
      unfold round_to in *. destruct (U <? (128 - 15) * 2 ^ 23) eqn:E1; bool_simpl.
      - rewrite <- Efin. assert (d = 128) as -> by (assert (U / 2 ^ 23 < 113) by (apply Z.div_lt_upper_bound; lia); lia).
        change (128 mod 2 ^ 5 * 2 ^ 10) with 0. lia.
      - pose proof (rne_bounds (23 - 10) (U - (127 - 15) * 2 ^ 23) ltac:(lia) ltac:(lia)).
        assert ((U - (127 - 15) * 2 ^ 23) / 2 ^ (23 - 10) ≤ 0x7BFF); [|lia].
        apply (div_mono_le _ (31 * 2 ^ 23 - 1)); [done|lia|by vm_compute]. }
    split; [|done]. rewrite !land_field, Z.shiftr_div_pow2, Z.div_div by lia.
    change (2 ^ 13 * 2 ^ 10) with (2 ^ 23). change (2 ^ 0) with 1. rewrite Z.div_1_r, Z.mul_1_r.
    destruct (div_unique_pow2 23 d R ltac:(lia) ltac:(lia)) as [-> _].
    assert ((d * 2 ^ 23 + R) mod 2 ^ 12 = R) as ->.
    { symmetry. apply (Z.mod_unique _ _ (d * 2 ^ 11)); lia. }
    rewrite Efin. by apply Hfin.
  - split; [|lia]. destruct (Z.eq_dec U 0x7F800000) as [->|Hne].
    + change (fp32_mul (fp32_mul 0x7F800000 (Z.shiftl 239 23)) (Z.shiftl 17 23)) with 0x7F800000.
      rewrite Z.max_l by done. rewrite add_inf_base by done.
      by destruct Hs as [->| ->].
    + pose proof (half_sum U ltac:(lia)) as Hsum. cbv zeta in Hsum.
      destruct (U <? 143 * 2 ^ 23) eqn:El'; bool_simpl; [lia|]. rewrite Hsum.
      assert (143 ≤ U / 2 ^ 23) by (apply Z.div_le_lower_bound; lia).
      rewrite add_inf_base by lia. by destruct Hs as [->| ->].
Qed.

(** ** From half to single precision. *)

(** The part of [fp16_ieee_to_fp32_bits] after the sign has been split off. *)
Definition half_magnitude (clz0 nonsign : Z) : Z :=
  let renorm_shift := if nonsign =? 0 then clz0 else builtin_clz nonsign in
  let renorm_shift := if 5 <? renorm_shift then renorm_shift - 5 else 0 in
  let inf_nan_mask := Z.land (Z.shiftr (i32 (u32 (nonsign + 0x04000000))) 8) 0x7F800000 in
  let zero_mask := Z.shiftr (i32 (u32 (nonsign - 1))) 31 in
  Z.land
    (Z.lor (u32 (Z.shiftr (u32 (Z.shiftl nonsign renorm_shift)) 3 +
                 u32 (Z.shiftl (u32 (0x70 - renorm_shift)) 23))) inf_nan_mask)
    (u32 (Z.lnot zero_mask)).

Lemma half_magnitude_normal clz0 e m :
  1 ≤ e ≤ 31 → 0 ≤ m < 2 ^ 10 →
  half_magnitude clz0 (e * 2 ^ 26 + m * 2 ^ 16) = (if e =? 31 then 255 else e + 112) * 2 ^ 23 + m * 2 ^ 13.
Proof.
  intros He Hm. set (N := e * 2 ^ 26 + m * 2 ^ 16). assert (2 ^ 26 ≤ N < 2 ^ 31) as HN by lia.
  unfold half_magnitude.
  assert (∀ x, 0 ≤ x < 2 ^ 32 → u32 x = x) as Hu by (intros; by apply Z.mod_small).
  destruct (N =? 0) eqn:E0; bool_simpl; [lia|].
  assert (26 ≤ Z.log2 N) as Hl by (apply Z.log2_le_pow2; lia). unfold builtin_clz.
  destruct (5 <? 31 - Z.log2 N) eqn:E5; bool_simpl; [lia|]. rewrite Z.shiftl_0_r, Z.sub_0_r.
  assert (u32 (Z.lnot (Z.shiftr (i32 (u32 (N - 1))) 31)) = Z.ones 32) as ->.
  { rewrite (Hu (N - 1)) by lia. unfold i32. destruct (N - 1 <? 2 ^ 31) eqn:E1; bool_simpl; [|lia].
    rewrite Z.shiftr_div_pow2, Z.div_small by lia. done. }
  assert (u32 (Z.shiftr (u32 N) 3 + u32 (Z.shiftl (u32 112) 23)) = (e + 112) * 2 ^ 23 + m * 2 ^ 13) as ->.
  { rewrite (Hu N) by lia. change (u32 (Z.shiftl (u32 112) 23)) with (112 * 2 ^ 23).
    rewrite Z.shiftr_div_pow2 by lia. replace N with ((e * 2 ^ 23 + m * 2 ^ 13) * 2 ^ 3) by (unfold N; lia).
    rewrite Z.div_mul, Hu by lia. lia. }
  assert (Z.land (Z.shiftr (i32 (u32 (N + 0x04000000))) 8) 0x7F800000 = if e =? 31 then 255 * 2 ^ 23 else 0) as ->.
  { change 0x7F800000 with (Z.shiftl (Z.ones 8) 23). rewrite land_field, Z.shiftr_div_pow2, Z.div_div by lia.
    change (2 ^ 8 * 2 ^ 23) with (2 ^ 31). rewrite Hu by lia. unfold i32.
    destruct (N + 0x04000000 <? 2 ^ 31) eqn:E1; destruct (e =? 31) eqn:E2; bool_simpl; [lia| | |lia].
    - rewrite Z.div_small by lia. done.
    - replace ((N + 67108864 - 2 ^ 32) / 2 ^ 31) with (-1); [done|].
      apply (Z.div_unique _ _ _ (m * 2 ^ 16)); lia. }
  rewrite Z.land_ones by lia. destruct (e =? 31) eqn:E2; bool_simpl.
  - subst e. change (31 + 112) with 143. rewrite Z.lor_comm.
    (* 143 has no bit that 255 has not *)
    assert (Z.lor (255 * 2 ^ 23) (143 * 2 ^ 23 + m * 2 ^ 13) = 255 * 2 ^ 23 + m * 2 ^ 13) as ->; [|apply Z.mod_small; lia].
    rewrite (Z.add_comm (143 * 2 ^ 23)), (Z.add_comm (255 * 2 ^ 23)).
    rewrite (Z.add_comm _ (143 * 2 ^ 23)), (Z.add_comm _ (255 * 2 ^ 23)), <- !lor_shifted by lia.
    by rewrite Z.lor_comm, <- Z.lor_assoc.
  - rewrite Z.lor_0_r. apply Z.mod_small. lia.
Qed.

Lemma half_magnitude_subnormal clz0 m :
  0 < m < 2 ^ 10 →
  let U := half_magnitude clz0 (m * 2 ^ 16) in
  0 ≤ U < 0x7F800000 ∧ fp32_mag U = m * 2 ^ 125.
Proof.
  intros Hm. assert (half_magnitude clz0 (m * 2 ^ 16) = half_magnitude 0 (m * 2 ^ 16)) as ->.
  { unfold half_magnitude. destruct (m * 2 ^ 16 =? 0) eqn:E; bool_simpl; [lia|done]. }
  assert (all_bits 10 (λ m, (m =? 0) || (let U := half_magnitude 0 (m * 2 ^ 16) in
    (0 <=? U) && (U <? 0x7F800000) && (fp32_mag U =? m * 2 ^ 125))) = true) as H by (vm_compute; reflexivity).
  pose proof (all_bits_spec _ _ H m ltac:(change (2 ^ Z.of_nat 10) with (2 ^ 10); lia)) as Hc. cbv beta zeta in Hc.
  destruct (m =? 0) eqn:E0; bool_simpl; [lia|]. cbv zeta. destruct Hc as [Hc|Hc]; bool_simpl; lia.
Qed.

(** Below the subnormal limit the magnitude is or-ed to 0.5, which is then
    subtracted; above it the number is scaled by 2^-112. *)
Lemma half_subnormal_value m :
  0 ≤ m < 2 ^ 10 → fp32_sub (Z.lor m (Z.shiftl 126 23)) 0x3F000000 = half_magnitude 31 (m * 2 ^ 16).
Proof.
  intros Hm. assert (all_bits 10 (λ m,
    fp32_sub (Z.lor m (Z.shiftl 126 23)) 0x3F000000 =? half_magnitude 31 (m * 2 ^ 16)) = true) as H
    by (vm_compute; reflexivity).
  pose proof (all_bits_spec _ _ H m ltac:(change (2 ^ Z.of_nat 10) with (2 ^ 10); lia)) as Hc.
  cbv beta in Hc. by apply Z.eqb_eq.
Qed.

Lemma half_normal_value e m :
  1 ≤ e ≤ 30 → 0 ≤ m < 2 ^ 10 →
  fp32_mul (e * 2 ^ 23 + m * 2 ^ 13 + Z.shiftl 0xE0 23) (Z.shiftl 15 23) = (e + 112) * 2 ^ 23 + m * 2 ^ 13.
Proof.
  intros He Hm. rewrite !Z.shiftl_mul_pow2 by lia. unfold fp32_mul.
  replace (e * 2 ^ 23 + m * 2 ^ 13 + 0xE0 * 2 ^ 23) with ((e + 224) * 2 ^ 23 + m * 2 ^ 13) by lia.
  rewrite decode_fields, decode_pow2 by lia. destruct (e + 224 =? 0) eqn:E; bool_simpl; [lia|].
  destruct (m * 2 ^ 13 + 2 ^ 23) as [|p|p] eqn:Ep; [lia| |lia]. unfold SFmul, xorb.
  assert (Z.log2 (Zpos p) = 23) as Hl by (apply Z.log2_unique; lia).
  rewrite (binary_round_aux_exact _ p 23) by (rewrite ?Hl; unfold fexp, emin; lia).
  destruct (e + 224 - 150 + (15 - 150) + 23 <=? 104) eqn:E2; bool_simpl; [|lia].
  unfold encode, sign_bit. destruct (Zpos p <? 2 ^ 23) eqn:E3; bool_simpl; [lia|].
  rewrite Z.shiftl_mul_pow2 by lia. lia.
Qed.

Lemma half_nan_value m :
  0 < m < 2 ^ 10 → fp32_mul (31 * 2 ^ 23 + m * 2 ^ 13 + Z.shiftl 0xE0 23) (Z.shiftl 15 23) = 0x7FC00000.
Proof.
  intros Hm. replace (31 * 2 ^ 23 + m * 2 ^ 13 + Z.shiftl 0xE0 23) with (255 * 2 ^ 23 + m * 2 ^ 13).
  2: { rewrite Z.shiftl_mul_pow2 by lia. lia. }
  unfold fp32_mul, decode at 1.
  rewrite Z.shiftr_div_pow2 by lia. destruct (div_unique_pow2 23 255 (m * 2 ^ 13) ltac:(lia) ltac:(lia)) as [-> Hr].
  change (Z.land 255 255 =? 255) with true. change (2 ^ 23 - 1) with (Z.ones 23). rewrite Z.land_ones, Hr by lia.
  destruct (m * 2 ^ 13 =? 0) eqn:E; bool_simpl; [lia|done].
Qed.

(** What the fields give: the value, and the infinity and NaNs. *)
Lemma half_magnitude_value clz0 e m :
  0 ≤ e ≤ 31 → 0 ≤ m < 2 ^ 10 →
  let U := half_magnitude clz0 (e * 2 ^ 26 + m * 2 ^ 16) in
  0 ≤ U < 2 ^ 31 ∧
  if e =? 31 then U = 255 * 2 ^ 23 + m * 2 ^ 13
  else U < 0x7F800000 ∧ fp32_mag U = mag 10 125 (e * 2 ^ 10 + m).
Proof.
  intros He Hm. cbv zeta.
  rewrite mag_window by lia. destruct (Z.eq_dec e 0) as [->|Hne].
  - rewrite Z.mul_0_l, Z.add_0_l. change (0 =? 31) with false. change (0 =? 0) with true. cbv iota.
    destruct (Z.eq_dec m 0) as [->|Hm0].
    + rewrite Z.mul_0_l. unfold half_magnitude.
      change (u32 (Z.lnot (Z.shiftr (i32 (u32 (0 - 1))) 31))) with 0. rewrite Z.land_0_r. done.
    + pose proof (half_magnitude_subnormal clz0 m ltac:(lia)) as [HU Hv]. cbv zeta in *. lia.
  - rewrite half_magnitude_normal by lia. destruct (e =? 0) eqn:E0; bool_simpl; [lia|].
    destruct (e =? 31) eqn:E31; bool_simpl; [lia|]. split; [lia|]. split; [lia|].
    unfold fp32_mag. rewrite mag_window by lia. destruct (e + 112 =? 0) eqn:E1; bool_simpl; [lia|].
    rewrite Z.mul_1_r. replace (e + 112 - 1) with (e - 1 + 112) by lia. rewrite Z.pow_add_r by lia.
    change (2 ^ 125) with (2 ^ 13 * 2 ^ 112). lia.
Qed.

Lemma half_value clz0 h s e m :
  s = 0 ∨ s = 1 → 0 ≤ e ≤ 31 → 0 ≤ m < 2 ^ 10 →
  u32 (Z.shiftl h 16) = s * 2 ^ 31 + (e * 2 ^ 26 + m * 2 ^ 16) →
  Z.land (u32 (Z.shiftl h 16)) 0x80000000 = s * 2 ^ 31 →
  0 ≤ half_magnitude clz0 (e * 2 ^ 26 + m * 2 ^ 16) < 2 ^ 31 →
  fp16_ieee_to_fp32_value h = s * 2 ^ 31 +
    (if (e =? 31) && negb (m =? 0) then 0x7FC00000 else half_magnitude clz0 (e * 2 ^ 26 + m * 2 ^ 16)).
Proof.
  intros Hs He' Hm Ew H1 HU. unfold fp16_ieee_to_fp32_value. rewrite H1.
  assert (u32 (u32 (Z.shiftl h 16) + u32 (Z.shiftl h 16)) = 2 * (e * 2 ^ 26 + m * 2 ^ 16)) as ->.
  { unfold u32 at 1. symmetry. apply (Z.mod_unique _ _ s); [destruct Hs; lia|rewrite Ew; lia]. }
  assert (Z.shiftr (2 * (e * 2 ^ 26 + m * 2 ^ 16)) 4 = e * 2 ^ 23 + m * 2 ^ 13) as ->.
  { rewrite Z.shiftr_div_pow2 by lia. symmetry. apply (Z.div_unique_exact); lia. }
  rewrite Z.lor_comm. destruct (2 * (e * 2 ^ 26 + m * 2 ^ 16) <? Z.shiftl 1 27) eqn:E27;
    rewrite Z.shiftl_mul_pow2 in E27 by lia; bool_simpl.
  - assert (e = 0) as -> by lia. assert (Z.shiftr (2 * (0 * 2 ^ 26 + m * 2 ^ 16)) 17 = m) as ->.
    { rewrite Z.shiftr_div_pow2 by lia. symmetry. apply (Z.div_unique_exact); lia. }
    rewrite half_subnormal_value by lia. change (0 =? 31) with false. simpl andb. cbv iota.
    assert (half_magnitude 31 (m * 2 ^ 16) = half_magnitude clz0 (0 * 2 ^ 26 + m * 2 ^ 16)) as ->; [|by apply lor_high].
    rewrite Z.mul_0_l, Z.add_0_l. destruct (Z.eq_dec m 0) as [->|Hm0].
    + unfold half_magnitude. change (0 * 2 ^ 16) with 0.
      change (u32 (Z.lnot (Z.shiftr (i32 (u32 (0 - 1))) 31))) with 0. by rewrite !Z.land_0_r.
    + unfold half_magnitude. destruct (m * 2 ^ 16 =? 0) eqn:E; bool_simpl; [lia|done].
  - assert (1 ≤ e) as He1 by lia. rewrite (half_magnitude_normal clz0 e m) in * by lia.
    assert (u32 (e * 2 ^ 23 + m * 2 ^ 13 + Z.shiftl 0xE0 23) = e * 2 ^ 23 + m * 2 ^ 13 + Z.shiftl 0xE0 23) as ->.
    { apply Z.mod_small. rewrite Z.shiftl_mul_pow2 by lia. lia. }
    destruct (e =? 31) eqn:E31; bool_simpl; [subst e; destruct (m =? 0) eqn:E0; bool_simpl|].
    + subst m. simpl andb. cbv iota. by destruct Hs as [->| ->].
    + rewrite half_nan_value by lia. simpl andb. cbv iota. by apply lor_high.
    + rewrite half_normal_value by lia. simpl andb. cbv iota. apply lor_high; [done|lia|done].
Qed.

(** The fields of a half, and the two conversions in terms of them. *)
Lemma half_to_fp32 clz0 h :
  0 ≤ h < 2 ^ 16 →
  ∃ s e m, (s = 0 ∨ s = 1) ∧ h = s * 2 ^ 15 + (e * 2 ^ 10 + m) ∧ 0 ≤ e ≤ 31 ∧ 0 ≤ m < 2 ^ 10 ∧
    ∃ U, fp16_ieee_to_fp32_bits clz0 h = s * 2 ^ 31 + U ∧ 0 ≤ U < 2 ^ 31 ∧
      fp16_ieee_to_fp32_value h = s * 2 ^ 31 + (if (e =? 31) && negb (m =? 0) then 0x7FC00000 else U) ∧
      if e =? 31 then U = 255 * 2 ^ 23 + m * 2 ^ 13
      else U < 0x7F800000 ∧ fp32_mag U = mag 10 125 (e * 2 ^ 10 + m).
Proof.
  intros Hh. destruct (split_pow2 15 h ltac:(lia)) as [Eh HN]. set (s := h / 2 ^ 15) in *.
  destruct (mag_split 10 (h mod 2 ^ 15) ltac:(lia) ltac:(lia)) as (e & m & EN & He & Hm).
  assert (s = 0 ∨ s = 1) as Hs by lia. assert (e ≤ 31) as He' by lia.
  exists s, e, m. split; [done|]. split; [lia|]. split; [lia|]. split; [done|].
  assert (u32 (Z.shiftl h 16) = s * 2 ^ 31 + (e * 2 ^ 26 + m * 2 ^ 16)) as Ew.
  { unfold u32. rewrite Z.shiftl_mul_pow2, Z.mod_small by lia. lia. }
  destruct (sign_split (u32 (Z.shiftl h 16)) ltac:(rewrite Ew; destruct Hs; lia)) as (s' & U' & Hs' & Ew' & HU' & H1 & _ & H3).
  assert (s' = s) as -> by (destruct Hs, Hs'; lia). assert (U' = e * 2 ^ 26 + m * 2 ^ 16) as -> by lia.
  assert (fp16_ieee_to_fp32_bits clz0 h = Z.lor (s * 2 ^ 31) (half_magnitude clz0 (e * 2 ^ 26 + m * 2 ^ 16))) as ->.
  { unfold fp16_ieee_to_fp32_bits. rewrite H1, H3. done. }
  destruct (half_magnitude_value clz0 e m) as [HU Hval]; [lia..|].
  exists (half_magnitude clz0 (e * 2 ^ 26 + m * 2 ^ 16)).
  split; [rewrite Z.lor_comm; by apply lor_high|]. split; [lia|]. split; [|exact Hval].
  by apply (half_value clz0 h s e m).
Qed.

(** C40. The conversions from single precision round to nearest, ties to even,
    for every input that is not NaN: below the limit of the format the
    magnitude of the result is the pattern whose value is nearest to that of
    the input, the sign is kept, and the subnormal results obtained through a
    floating-point addition are rounded in the same way.  Above the limit
    half, bfloat16 and e5m2 give infinity, e4m3fn its largest value and the
    fnuz formats, which also have no negative zero, NaN. *)
Theorem from_fp32_correctly_rounded w :
  0 ≤ w < 2 ^ 32 → isnan32 w = false →
  ∃ s U, (s = 0 ∨ s = 1) ∧ w = s * 2 ^ 31 + U ∧ 0 ≤ U ≤ 0x7F800000 ∧
  (∃ p, fp16_ieee_from_fp32_value w = s * 2 ^ 15 + (if U <? 143 * 2 ^ 23 then p else 0x7C00) ∧
     (U < 143 * 2 ^ 23 → p ≤ 0x7C00) ∧ nearest_even (mag 10 125) (fp32_mag U) p) ∧
  (∃ p, round_to_nearest_even w = s * 2 ^ 15 + p ∧ p ≤ 0x7F80 ∧ nearest_even (mag 7 16) (fp32_mag U) p) ∧
  (∃ p, nearest_even (mag 2 133) (fp32_mag U) p ∧
     fp8e5m2_from_fp32_value w = signed8 s (if 143 * 2 ^ 23 <=? U then 0x7C else p) ∧
     (U < 143 * 2 ^ 23 → p ≤ 0x7C)) ∧
  (∃ p, nearest_even (mag 3 140) (fp32_mag U) p ∧
     fp8e4m3fn_from_fp32_value w = signed8 s (if 1087 * 2 ^ 20 <=? U then 0x7E else Z.min p 0x7E)) ∧
  (∃ p, nearest_even (mag 2 132) (fp32_mag U) p ∧
     fp8e5m2fnuz_from_fp32_value w = if 0x8F * 2 ^ 23 <=? U then 0x80 else fnuz_result s p) ∧
  (∃ p, nearest_even (mag 3 139) (fp32_mag U) p ∧
     fp8e4m3fnuz_from_fp32_value w = if 0x87 * 2 ^ 23 <=? U then 0x80 else fnuz_result s p).
Proof.
  intros Hw Hn. destruct (sign_split w Hw) as (s & U & Hs & Ew & HU & H1 & H2 & H3).
  unfold isnan32 in Hn. rewrite H3 in Hn. apply Z.ltb_ge in Hn.
  assert ((0x7F800000 <? U) = false) as HnU by (by apply Z.ltb_ge).
  exists s, U. split; [done|]. split; [done|]. split; [lia|]. repeat split.
  - destruct (half_from w s U) as [E Hr]; [done|done|lia|done|done|]. exists (round_to 10 15 U).
    split; [exact E|]. split; [intros; by apply Hr|]. apply (round_to_nearest 10 15 U); lia.
  - destruct (bf16_from w s U) as [E Hr]; [done|done|lia|done|]. exists (rne 16 U).
    split; [done|]. split; [lia|]. apply (mag_rne 7 0 16 U); lia.
  - exists (round_to 2 15 U). split; [apply (round_to_nearest 2 15 U); lia|].
    destruct (e5m2_from w s U) as [E Hr]; [done..|]. rewrite HnU in E. split; [done|]. intros. by apply Hr.
  - exists (round_to 3 7 U). split; [apply (round_to_nearest 3 7 U); lia|].
    destruct (e4m3fn_from w s U) as [E _]; [done..|]. by rewrite HnU in E.
  - exists (round_to 2 16 U). split; [apply (round_to_nearest 2 16 U); lia|].
    by destruct (e5m2fnuz_from w s U) as [E _].
  - exists (round_to 3 8 U). split; [apply (round_to_nearest 3 8 U); lia|].
    by destruct (e4m3fnuz_from w s U) as [E _].
Qed.

(** 0.1 in single precision. *)
Lemma from_fp32_correctly_rounded_witness :
  ∃ p, nearest_even (mag 3 140) (fp32_mag 0x3DCCCCCD) p ∧ fp8e4m3fn_from_fp32_value 0x3DCCCCCD = p ∧ p = 0x1D.
Proof.
  destruct (from_fp32_correctly_rounded 0x3DCCCCCD) as (s & U & Hs & Ew & HU & _ & _ & _ & (p & Hp & E) & _);
    [lia|reflexivity|].
  assert (s = 0) as -> by (destruct Hs; lia). assert (U = 0x3DCCCCCD) as -> by lia.
  assert (E' : fp8e4m3fn_from_fp32_value 0x3DCCCCCD = 0x1D) by (vm_compute; reflexivity).
  exists p. split; [exact Hp|]. rewrite E' in *.
  change (1087 * 2 ^ 20 <=? 0x3DCCCCCD) with false in E. unfold signed8 in E.
  assert (p = 0x1D) as -> by (simpl in E; lia). split; reflexivity.
Defined.

(** ** Exactness of the conversions to single precision. *)

(** [decodes] and [recovers] for a pattern given by its sign and the rest. *)
Lemma testbit_sign k s q : 0 ≤ k → 0 ≤ q < 2 ^ k → s = 0 ∨ s = 1 → Z.testbit (s * 2 ^ k + q) k = (s =? 1).
Proof.
  intros Hk Hq Hs. rewrite Z.testbit_odd, Z.shiftr_div_pow2 by done.
  destruct (div_unique_pow2 k s q Hk Hq) as [-> _]. by destruct Hs as [->| ->].
Qed.

Lemma land_magnitude k s q : 0 ≤ k → 0 ≤ q < 2 ^ k → Z.land (s * 2 ^ k + q) (Z.ones k) = q.
Proof. intros Hk Hq. rewrite Z.land_ones by done. by destruct (div_unique_pow2 k s q Hk Hq). Qed.

(** A 16-bit format whose infinity is [inf] and whose conversion gives the
    sign [s] and the magnitude [U]. *)
Lemma decodes_16 f inf dec s q U :
  bits f = 16%nat →
  (∀ p, is_nan f p = (inf <? Z.land p 0x7FFF)) → (∀ p, is_inf f p = (Z.land p 0x7FFF =? inf)) →
  (s = 0 ∨ s = 1) → 0 ≤ q < 2 ^ 15 → 0 ≤ U < 2 ^ 31 → dec (s * 2 ^ 15 + q) = s * 2 ^ 31 + U →
  (if inf <? q then 0x7F800000 < U else if q =? inf then U = 0x7F800000
   else U < 0x7F800000 ∧ fp32_mag U = mag (mantissa f) (unit_exponent f) q) →
  decodes f dec (s * 2 ^ 15 + q) = true.
Proof.
  intros Hb Hnan Hinf Hs Hq HU Hdec HV. unfold decodes. rewrite Hb, Hnan, Hinf, Hdec.
  change (Z.of_nat 16 - 1) with 15. change 0x7FFF with (Z.ones 15). change 0x7FFFFFFF with (Z.ones 31).
  unfold isnan32. change 0x7FFFFFFF with (Z.ones 31).
  rewrite !land_magnitude, !testbit_sign by (done || lia).
  destruct (div_unique_pow2 15 s q ltac:(lia) Hq) as [_ ->].
  assert ((0 <=? s * 2 ^ 31 + U) && (s * 2 ^ 31 + U <? 2 ^ 32) = true) as Hr.
  { apply andb_true_iff. split; [apply Z.leb_le|apply Z.ltb_lt]; destruct Hs; lia. }
  destruct (inf <? q) eqn:E1; [by apply Z.ltb_lt|]. rewrite eqb_reflx, andb_true_l, Hr, andb_true_l.
  destruct (q =? inf) eqn:E2; [by apply Z.eqb_eq|]. destruct HV as [H1 H2]. rewrite H2, Z.eqb_refl, andb_true_r.
  by apply Z.ltb_lt.
Qed.

Lemma nearest_exact mb sh p r :
  0 ≤ mb → 0 ≤ sh → 0 ≤ p → nearest_even (mag mb sh) (mag mb sh p) r → r = p.
Proof.
  intros Hmb Hsh Hp [Hr H]. destruct (Z.eq_dec p r) as [|Hne]; [done|exfalso].
  specialize (H p Hp Hne). assert (mag mb sh r ≠ mag mb sh p); [|lia].
  destruct (Z.lt_total p r) as [Hlt|[->|Hlt]]; [|done|].
  - pose proof (mag_mono mb sh p r Hmb Hsh Hp Hlt). lia.
  - pose proof (mag_mono mb sh r p Hmb Hsh Hr Hlt). lia.
Qed.

Lemma bf16_exact p :
  0 ≤ p < 2 ^ 16 → decodes bfloat16_format f32_from_bits p = true ∧
    recovers bfloat16_format f32_from_bits round_to_nearest_even p = true ∧ bits_from_f32 (f32_from_bits p) = p.
Proof.
  intros Hp. destruct (split_pow2 15 p ltac:(lia)) as [Ep Hq].
  set (s := p / 2 ^ 15) in *. set (q := p mod 2 ^ 15) in *. assert (s = 0 ∨ s = 1) as Hs by lia.
  assert (f32_from_bits p = s * 2 ^ 31 + q * 2 ^ 16) as Ew.
  { unfold f32_from_bits, u32. rewrite Z.shiftl_mul_pow2, Z.mod_small by lia. lia. }
  assert (Z.land (f32_from_bits p) 0x7FFFFFFF = q * 2 ^ 16) as Hl.
  { rewrite Ew. change 0x7FFFFFFF with (Z.ones 31). apply land_magnitude; lia. }
  repeat split.
  - rewrite Ep. apply (decodes_16 _ 0x7F80 _ _ _ (q * 2 ^ 16)); try done; [lia|by rewrite <- Ep|].
    case_bool; [lia|]. case_bool; [lia|]. split; [lia|].
    symmetry. apply (mag_coarse 7 0 16); lia.
  - unfold recovers. change (is_nan bfloat16_format p) with (0x7F80 <? Z.land p (Z.ones 15)).
    replace (Z.land p (Z.ones 15)) with q by (rewrite Ep; symmetry; apply land_magnitude; lia).
    unfold round_to_nearest_even, isnan32. rewrite Hl.
    destruct (0x7F80 <? q) eqn:E; bool_simpl.
    + destruct (0x7F800000 <? q * 2 ^ 16) eqn:E2; bool_simpl; [done|lia].
    + destruct (bf16_from (f32_from_bits p) s (q * 2 ^ 16) Hs Ew ltac:(lia) Hl) as [H _].
      rewrite rne_exact in H by lia. unfold round_to_nearest_even, isnan32 in H. rewrite Hl in H.
      rewrite H, <- Ep. by apply Z.eqb_eq.
  - unfold bits_from_f32, u16. rewrite Ew, Z.shiftr_div_pow2 by lia.
    replace (s * 2 ^ 31 + q * 2 ^ 16) with (p * 2 ^ 16) by lia. rewrite Z.div_mul by lia. by apply Z.mod_small.
Qed.

(** The conversion to half of an exactly represented number, and of a NaN. *)
Lemma half_from_exact s U q :
  s = 0 ∨ s = 1 → 0 ≤ q < 0x7C00 → 0 ≤ U < 0x7F800000 → fp32_mag U = mag 10 125 q →
  fp16_ieee_from_fp32_value (s * 2 ^ 31 + U) = s * 2 ^ 15 + q.
Proof.
  intros Hs Hq HU HV. set (w := s * 2 ^ 31 + U).
  destruct (sign_split w ltac:(unfold w; destruct Hs; lia)) as (s' & U' & Hs' & Ew & HU' & H1 & _ & H3).
  assert (s' = s) as -> by (unfold w in *; destruct Hs, Hs'; lia). assert (U' = U) as -> by (unfold w in *; lia).
  destruct (half_from w s U) as [-> _]; [done|done|lia|done|done|]. f_equal.
  destruct (U <? 143 * 2 ^ 23) eqn:E; bool_simpl.
  - apply (nearest_exact 10 125); [lia..|]. rewrite <- HV. apply (round_to_nearest 10 15); lia.
  - pose proof (mag_mono 10 125 q 0x7C00 ltac:(lia) ltac:(lia) ltac:(lia) ltac:(lia)) as Hlt.
    change (mag 10 125 0x7C00) with (mag 23 0 (143 * 2 ^ 23)) in Hlt.
    destruct (Z.eq_dec U (143 * 2 ^ 23)) as [->|Hne]; [unfold fp32_mag in HV; lia|].
    pose proof (mag_mono 23 0 (143 * 2 ^ 23) U ltac:(lia) ltac:(lia) ltac:(lia) ltac:(lia)).
    unfold fp32_mag in HV. lia.
Qed.

Lemma half_from_nan s U :
  s = 0 ∨ s = 1 → 0x7F800000 < U < 2 ^ 31 → fp16_ieee_from_fp32_value (s * 2 ^ 31 + U) = s * 2 ^ 15 + 0x7E00.
Proof.
  intros Hs HU. set (w := s * 2 ^ 31 + U).
  destruct (sign_split w ltac:(unfold w; destruct Hs; lia)) as (s' & U' & Hs' & Ew & HU' & H1 & _ & H3).
  assert (s' = s) as -> by (unfold w in *; destruct Hs, Hs'; lia).
  unfold fp16_ieee_from_fp32_value. rewrite H1.
  assert (u32 (w + w) = 2 * U) as ->.
  { unfold u32. symmetry. apply (Z.mod_unique _ _ s); [destruct Hs; lia|unfold w; lia]. }
  destruct (0xFF000000 <? 2 * U) eqn:E; bool_simpl; [|lia]. by destruct Hs as [->| ->].
Qed.

Lemma half_exact clz0 p :
  0 ≤ p < 2 ^ 16 →
  decodes half_format fp16_ieee_to_fp32_value p = true ∧ decodes half_format (fp16_ieee_to_fp32_bits clz0) p = true ∧
  recovers half_format fp16_ieee_to_fp32_value fp16_ieee_from_fp32_value p = true ∧
  recovers half_format (fp16_ieee_to_fp32_bits clz0) fp16_ieee_from_fp32_value p = true.
Proof.
  intros Hp. destruct (half_to_fp32 clz0 p Hp) as (s & e & m & Hs & Ep & He & Hm & U & E1 & HU & E2 & HV).
  assert (∀ dec V, dec p = s * 2 ^ 31 + V → 0 ≤ V < 2 ^ 31 →
    (if (e =? 31) && negb (m =? 0) then 0x7F800000 < V else V = U) →
    decodes half_format dec p = true ∧ recovers half_format dec fp16_ieee_from_fp32_value p = true) as H.
  { intros dec V Hdec HV' Hcase. split.
    - rewrite Ep. apply (decodes_16 _ 0x7C00 _ _ _ V); try done; [lia|by rewrite <- Ep|].
      destruct (0x7C00 <? e * 2 ^ 10 + m) eqn:F1; destruct (e =? 31) eqn:F2; destruct (m =? 0) eqn:F3;
        bool_simpl; try lia; simpl andb in Hcase; cbv iota in Hcase; try done; subst V;
        destruct (e * 2 ^ 10 + m =? 0x7C00) eqn:F4; bool_simpl; lia || done.
    - unfold recovers. change (is_nan half_format p) with (0x7C00 <? Z.land p (Z.ones 15)).
      replace (Z.land p (Z.ones 15)) with (e * 2 ^ 10 + m) by (rewrite Ep; symmetry; apply land_magnitude; lia).
      rewrite Hdec. destruct (0x7C00 <? e * 2 ^ 10 + m) eqn:F1; bool_simpl.
      + rewrite half_from_nan; [by destruct Hs as [->| ->]|done|].
        destruct (e =? 31) eqn:F2; destruct (m =? 0) eqn:F3; bool_simpl; simpl andb in Hcase; cbv iota in Hcase; lia.
      + apply Z.eqb_eq. destruct (e =? 31) eqn:F2; bool_simpl.
        * assert (m = 0) as -> by lia. simpl andb in Hcase. cbv iota in Hcase. rewrite Ep, Hcase, HV. subst e.
          by destruct Hs as [->| ->].
        * simpl andb in Hcase. cbv iota in Hcase. subst V. rewrite Ep. apply half_from_exact; [done|lia|lia|]. apply HV. }
  destruct (H fp16_ieee_to_fp32_value _ E2) as [-> ->].
  { case_match; lia. }
  { destruct ((e =? 31) && negb (m =? 0)); done. }
  destruct (H (fp16_ieee_to_fp32_bits clz0) U E1 HU) as [-> ->]; [|done].
  destruct (e =? 31) eqn:F2; destruct (m =? 0) eqn:F3; bool_simpl; simpl; try done. lia.
Qed.

(** The conversions to single precision are exact on every pattern of
    every format, the pattern of the subnormal numbers included: value, sign,
    infinities and NaN are kept, and the conversion back recovers the pattern,
    or a NaN for a NaN.  The two conversions of Half.h, one by floating-point
    arithmetic and one by integer arithmetic, whatever [__builtin_clz] gives
    for zero, are both exact, and the truncation of BFloat16.h undoes its
    extension on NaNs too. *)
Theorem to_fp32_exact :
  (∀ clz0 p, 0 ≤ p < 2 ^ 16 →
     decodes half_format fp16_ieee_to_fp32_value p = true ∧ decodes half_format (fp16_ieee_to_fp32_bits clz0) p = true ∧
     recovers half_format fp16_ieee_to_fp32_value fp16_ieee_from_fp32_value p = true ∧
     recovers half_format (fp16_ieee_to_fp32_bits clz0) fp16_ieee_from_fp32_value p = true) ∧
  (∀ p, 0 ≤ p < 2 ^ 16 →
     decodes bfloat16_format f32_from_bits p = true ∧
     recovers bfloat16_format f32_from_bits round_to_nearest_even p = true ∧ bits_from_f32 (f32_from_bits p) = p) ∧
  (∀ p, 0 ≤ p < 2 ^ 8 →
     (decodes e5m2_format fp8e5m2_to_fp32_value p = true ∧
      recovers e5m2_format fp8e5m2_to_fp32_value fp8e5m2_from_fp32_value p = true) ∧
     (decodes e4m3fn_format fp8e4m3fn_to_fp32_value p = true ∧
      recovers e4m3fn_format fp8e4m3fn_to_fp32_value fp8e4m3fn_from_fp32_value p = true) ∧
     (decodes e5m2fnuz_format (fp8_fnuz_to_fp32_value 5 2) p = true ∧
      recovers e5m2fnuz_format (fp8_fnuz_to_fp32_value 5 2) fp8e5m2fnuz_from_fp32_value p = true) ∧
     decodes e4m3fnuz_format (fp8_fnuz_to_fp32_value 4 3) p = true ∧
     recovers e4m3fnuz_format (fp8_fnuz_to_fp32_value 4 3) fp8e4m3fnuz_from_fp32_value p = true).
Proof.
  split; [exact half_exact|]. split; [exact bf16_exact|]. intros p Hp.
  assert (all_bits 8 (λ p,
    (decodes e5m2_format fp8e5m2_to_fp32_value p &&
     recovers e5m2_format fp8e5m2_to_fp32_value fp8e5m2_from_fp32_value p) &&
    (decodes e4m3fn_format fp8e4m3fn_to_fp32_value p &&
     recovers e4m3fn_format fp8e4m3fn_to_fp32_value fp8e4m3fn_from_fp32_value p) &&
    (decodes e5m2fnuz_format (fp8_fnuz_to_fp32_value 5 2) p &&
     recovers e5m2fnuz_format (fp8_fnuz_to_fp32_value 5 2) fp8e5m2fnuz_from_fp32_value p) &&
    (decodes e4m3fnuz_format (fp8_fnuz_to_fp32_value 4 3) p &&
     recovers e4m3fnuz_format (fp8_fnuz_to_fp32_value 4 3) fp8e4m3fnuz_from_fp32_value p)) = true) as H
    by (vm_compute; reflexivity).
  pose proof (all_bits_spec _ _ H p Hp) as Hc. cbv beta in Hc. clear H.
  rewrite !andb_true_iff in Hc. tauto.
Qed.

(** The pattern 0x0001 of half is 2^-24. *)
Lemma to_fp32_exact_witness :
  decodes half_format fp16_ieee_to_fp32_value 1 = true ∧ fp16_ieee_to_fp32_value 1 = 0x33800000.
Proof.
  destruct to_fp32_exact as (H & _). destruct (H 31 1 ltac:(lia)) as (H1 & _). split; [exact H1|].
  vm_compute. reflexivity.
Defined.

(** ** Float8_e8m0fnu. *)

(** The magnitude of a single-precision number by its fields. *)
Lemma fp32_fields w :
  0 ≤ w < 2 ^ 32 →
  ∃ e m, 0 ≤ e ≤ 255 ∧ 0 ≤ m < 2 ^ 23 ∧ Z.land w 0x7FFFFFFF = e * 2 ^ 23 + m ∧
    Z.land (Z.shiftr w 23) 255 = e ∧
    (0 <? Z.land w 0x400000) = (2 ^ 22 <=? m) ∧
    ((0 <? Z.land w 0x200000) || (0 <? Z.land w 0x1FFFFF)) = negb (m mod 2 ^ 22 =? 0).
Proof.
  intros Hw. destruct (split_pow2 23 w ltac:(lia)) as [Ew Hm]. set (m := w mod 2 ^ 23) in *.
  destruct (split_pow2 8 (w / 2 ^ 23) ltac:(lia)) as [Eq He]. set (e := (w / 2 ^ 23) mod 2 ^ 8) in *.
  exists e, m. split; [lia|]. split; [done|]. repeat split.
  - change 0x7FFFFFFF with (Z.ones 31).
    replace w with (w / 2 ^ 23 / 2 ^ 8 * 2 ^ 31 + (e * 2 ^ 23 + m)) by lia. apply land_magnitude; lia.
  - change 255 with (Z.ones 8). rewrite Z.land_ones, Z.shiftr_div_pow2 by lia. done.
  - change 0x400000 with (Z.shiftl (Z.ones 1) 22). rewrite land_field by lia.
    destruct (2 ^ 22 <=? m) eqn:E; bool_simpl.
    + replace ((w / 2 ^ 22) mod 2 ^ 1) with 1; [done|].
      apply (Z.mod_unique _ _ (w / 2 ^ 23)); [lia|].
      symmetry. apply (Z.div_unique _ _ _ (m - 2 ^ 22)); lia.
    + replace ((w / 2 ^ 22) mod 2 ^ 1) with 0; [done|].
      apply (Z.mod_unique _ _ (w / 2 ^ 23)); [lia|]. symmetry. apply (Z.div_unique _ _ _ m); lia.
  - assert (m mod 2 ^ 22 = w mod 2 ^ 22) as ->.
    { rewrite Ew. replace (w / 2 ^ 23 * 2 ^ 23 + m) with (m + w / 2 ^ 23 * 2 * 2 ^ 22) by lia. by rewrite Z.mod_add by lia. }
    change 0x200000 with (Z.shiftl (Z.ones 1) 21). change 0x1FFFFF with (Z.ones 21).
    rewrite land_field, Z.land_ones by lia. clearbody e m.
    pose proof (split_pow2 21 w ltac:(lia)) as [E1 H1]. pose proof (split_pow2 1 (w / 2 ^ 21) ltac:(lia)) as [E2 H2].
    assert (w mod 2 ^ 22 = (w / 2 ^ 21) mod 2 ^ 1 * 2 ^ 21 + w mod 2 ^ 21) as ->.
    { symmetry. apply (Z.mod_unique _ _ (w / 2 ^ 21 / 2 ^ 1)); lia. }
    destruct (_ * 2 ^ 21 + _ =? 0) eqn:E; bool_simpl; simpl negb.
    + apply orb_false_iff. split; apply Z.ltb_ge; lia.
    + apply orb_true_iff. rewrite !Z.ltb_lt. lia.
Qed.

Lemma e8m0fnu_cases w :
  0 ≤ w < 2 ^ 32 →
  ∃ e m, 0 ≤ e ≤ 255 ∧ 0 ≤ m < 2 ^ 23 ∧ Z.land w 0x7FFFFFFF = e * 2 ^ 23 + m ∧
    fp8e8m0fnu_from_fp32_value w =
      if e =? 255 then 255
      else if (if e =? 0 then 2 ^ 22 <? m else 2 ^ 22 <=? m) then e + 1 else e.
Proof.
  intros Hw. destruct (fp32_fields w Hw) as (e & m & He & Hm & El & E1 & E2 & E3). exists e, m.
  split; [done|]. split; [done|]. split; [done|]. unfold fp8e8m0fnu_from_fp32_value. rewrite E1, E2, E3.
  destruct (e =? 255) eqn:F1; bool_simpl; [by rewrite F1|].
  assert (∀ x, 0 ≤ x ≤ 255 → u8 x = x) as Hu by (intros; apply u8_small; lia).
  destruct (2 ^ 22 <=? m) eqn:F2; bool_simpl.
  - assert ((m mod 2 ^ 22 =? 0) = (m =? 2 ^ 22)) as ->.
    { replace m with (m - 2 ^ 22 + 1 * 2 ^ 22) at 1 by lia. rewrite Z.mod_add, Z.mod_small by lia.
      destruct (m - 2 ^ 22 =? 0) eqn:G1; destruct (m =? 2 ^ 22) eqn:G2; bool_simpl; (done || lia). }
    destruct (m =? 2 ^ 22) eqn:F3; bool_simpl; simpl negb; cbv iota.
    + destruct (0 <? e) eqn:F4; destruct (e =? 0) eqn:F5; bool_simpl; try lia.
      * rewrite Hu by lia. done.
      * destruct (2 ^ 22 <? m) eqn:F6; bool_simpl; [lia|]. rewrite Hu by lia. done.
    + rewrite Hu by lia. destruct (e =? 0); [|done]. destruct (2 ^ 22 <? m) eqn:F6; bool_simpl; [done|lia].
  - rewrite Hu by lia. destruct (e =? 0); [|done]. destruct (2 ^ 22 <? m) eqn:F6; bool_simpl; [lia|done].
Qed.

(** The value of a pattern that is not NaN, in units of 2^-149. *)
Lemma e8m0fnu_value q : 0 ≤ q ≤ 254 →
  fp32_mag (fp8e8m0fnu_to_fp32_value q) = 2 ^ (q + 22) ∧ isnan32 (fp8e8m0fnu_to_fp32_value q) = false.
Proof.
  intros Hq. assert (all_bits 8 (λ q, (254 <? q) || (fp32_mag (fp8e8m0fnu_to_fp32_value q) =? 2 ^ (q + 22)) &&
    negb (isnan32 (fp8e8m0fnu_to_fp32_value q))) = true) as H by (vm_compute; reflexivity).
  pose proof (all_bits_spec _ _ H q ltac:(change (2 ^ Z.of_nat 8) with 256; lia)) as Hc. cbv beta in Hc.
  destruct (254 <? q) eqn:E; bool_simpl; [lia|]. destruct Hc as [Hc|Hc]; [done|]. bool_simpl.
  split; [exact H0|exact H1].
Qed.

(** The choice between the two powers of two around a number. *)
Lemma e8m0fnu_nearest e m r q :
  0 ≤ e → 0 ≤ m < 2 ^ 23 → (e = 0 → m ≤ 2 ^ 22 ∨ 2 ^ 22 + 2 ^ 21 ≤ m) →
  r = (if (if e =? 0 then 2 ^ 22 <? m else 2 ^ 22 <=? m) then e + 1 else e) → 0 ≤ q → q ≠ r →
  let x := if e =? 0 then m else (2 ^ 23 + m) * 2 ^ (e - 1) in
  Z.abs (2 ^ (r + 22) - x) < Z.abs (2 ^ (q + 22) - x) ∨
  Z.abs (2 ^ (r + 22) - x) = Z.abs (2 ^ (q + 22) - x) ∧ q < r.
Proof.
  intros He Hm Hex Er Hq Hne x. unfold x. clear x.
  (* the two powers of two around the number, which lies between them *)
  assert (∀ a b, 0 ≤ a → a < b → 2 ^ (a + 22) * 2 ≤ 2 ^ (b + 22)) as Hpow.
  { intros a b Ha Hab. rewrite Z.mul_comm, <- Z.pow_succ_r by lia. apply Z.pow_le_mono_r; lia. }
  pose proof (Hpow q r) as P1. pose proof (Hpow r q) as P2. pose proof (pow2_pos (q + 22) ltac:(lia)).
  rewrite Er in *. clear Er r. destruct (e =? 0) eqn:F2; bool_simpl.
  + subst e. destruct (2 ^ 22 <? m) eqn:F3; bool_simpl.
    * change (2 ^ (0 + 1 + 22)) with (2 ^ 23) in *. destruct (Z.eq_dec q 0) as [->|]; [simpl in *; lia|].
      specialize (P2 ltac:(lia) ltac:(lia)). lia.
    * specialize (P2 ltac:(lia) ltac:(lia)). change (2 ^ (0 + 22)) with (2 ^ 22) in *. lia.
  + assert (2 ^ (e + 22) = 2 ^ 23 * 2 ^ (e - 1)) as Ee by (rewrite <- Z.pow_add_r by lia; f_equal; lia).
    assert (2 ^ (e + 1 + 22) = 2 ^ 24 * 2 ^ (e - 1)) as Ee1 by (rewrite <- Z.pow_add_r by lia; f_equal; lia).
    pose proof (pow2_pos (e - 1) ltac:(lia)). set (u := 2 ^ (e - 1)) in *. clearbody u.
    destruct (2 ^ 22 <=? m) eqn:F3; bool_simpl.
    * destruct (Z.lt_total q (e + 1)) as [Hq1|[|Hq1]]; [|lia|specialize (P2 ltac:(lia) Hq1); nia].
      destruct (Z.eq_dec q e) as [->|]; [nia|]. pose proof (Hpow q e ltac:(lia) ltac:(lia)). nia.
    * destruct (Z.lt_total q e) as [Hq1|[|Hq1]]; [specialize (P1 ltac:(lia) Hq1); nia|lia|].
      specialize (P2 ltac:(lia) Hq1). nia.
Qed.

(** The conversion to e8m0fnu drops the sign and gives a power of two
    nearest to the magnitude, the larger one of two at the same distance, and
    NaN for NaN, for the infinities and for what rounds above 2^127.  The one
    exception are the subnormal numbers strictly between 2^-127 and
    3 * 2^-128, which are rounded up to 2^-126 although 2^-127 is nearer.  The
    conversion back to single precision is exact and recovers every pattern. *)
Theorem fp8e8m0fnu_round_up w :
  0 ≤ w < 2 ^ 32 →
  let U := Z.land w 0x7FFFFFFF in
  let r := fp8e8m0fnu_from_fp32_value w in
  let V q := fp32_mag (fp8e8m0fnu_to_fp32_value q) in
  (r = 255 ↔ 0x7F400000 ≤ U) ∧
  (U < 0x7F400000 → U ≤ 0x00400000 ∨ 0x00600000 ≤ U →
     0 ≤ r ≤ 254 ∧ ∀ q, 0 ≤ q ≤ 254 → q ≠ r →
       Z.abs (V r - fp32_mag U) < Z.abs (V q - fp32_mag U) ∨
       Z.abs (V r - fp32_mag U) = Z.abs (V q - fp32_mag U) ∧ q < r) ∧
  (0x00400000 < U < 0x00600000 → r = 1 ∧ Z.abs (V 0 - fp32_mag U) < Z.abs (V 1 - fp32_mag U)) ∧
  ∀ q, 0 ≤ q ≤ 255 → fp8e8m0fnu_from_fp32_value (fp8e8m0fnu_to_fp32_value q) = q ∧
    e8m0fnu_isnan q = isnan32 (fp8e8m0fnu_to_fp32_value q).
Proof.
  intros Hw U r V. destruct (e8m0fnu_cases w Hw) as (e & m & He & Hm & EU & Er). fold U in EU. fold r in Er.
  assert (fp32_mag U = if e =? 0 then m else (2 ^ 23 + m) * 2 ^ (e - 1)) as EV.
  { unfold fp32_mag. rewrite EU, mag_window by lia. change (2 ^ 0) with 1. rewrite !Z.mul_1_r. done. }
  assert (∀ q, 0 ≤ q ≤ 254 → V q = 2 ^ (q + 22)) as HV by (intros; by apply e8m0fnu_value).
  split.
  { rewrite EU, Er. destruct (e =? 255) eqn:F1; bool_simpl; [lia|].
    destruct (e =? 0) eqn:F2; [destruct (2 ^ 22 <? m) eqn:F3|destruct (2 ^ 22 <=? m) eqn:F3]; bool_simpl; lia. }
  split; [|split].
  - intros Hlt Hex. destruct (e =? 255) eqn:F1; bool_simpl; [lia|].
    assert (0 ≤ r ≤ 254) as Hr.
    { rewrite Er. destruct (e =? 0) eqn:F2; [destruct (2 ^ 22 <? m) eqn:F3|destruct (2 ^ 22 <=? m) eqn:F3]; bool_simpl; lia. }
    split; [done|]. intros q Hq Hne. rewrite !HV by done.
    rewrite EV. apply (e8m0fnu_nearest e m); [lia|done|lia|done|lia|done].
  - intros Hex. assert (e = 0) as -> by lia. rewrite Er, EV, !HV by lia.
    change (0 =? 255) with false. change (0 =? 0) with true. cbv iota.
    destruct (2 ^ 22 <? m) eqn:F3; bool_simpl; [|lia]. split; [done|]. change (2 ^ (1 + 22)) with (2 ^ 23).
    change (2 ^ (0 + 22)) with (2 ^ 22). lia.
  - intros q Hq.
    assert (all_bits 8 (λ q, (fp8e8m0fnu_from_fp32_value (fp8e8m0fnu_to_fp32_value q) =? q) &&
      Bool.eqb (e8m0fnu_isnan q) (isnan32 (fp8e8m0fnu_to_fp32_value q))) = true) as H by (vm_compute; reflexivity).
    pose proof (all_bits_spec _ _ H q ltac:(change (2 ^ Z.of_nat 8) with 256; lia)) as Hc. cbv beta in Hc.
    bool_simpl. split; [done|]. by apply eqb_prop.
Qed.

(** 3.0, half way between 2 and 4, is rounded up, and so is 2^-127 + 2^-149. *)
Lemma fp8e8m0fnu_round_up_witness :
  (∀ q, 0 ≤ q ≤ 254 → q ≠ 129 →
     Z.abs (2 ^ 151 - fp32_mag 0x40400000) < Z.abs (fp32_mag (fp8e8m0fnu_to_fp32_value q) - fp32_mag 0x40400000) ∨
     Z.abs (2 ^ 151 - fp32_mag 0x40400000) = Z.abs (fp32_mag (fp8e8m0fnu_to_fp32_value q) - fp32_mag 0x40400000) ∧ q < 129) ∧
  fp8e8m0fnu_from_fp32_value 0x00400001 = 1.
Proof.
  split.
  - destruct (fp8e8m0fnu_round_up 0x40400000 ltac:(lia)) as (_ & H & _).
    change (Z.land 0x40400000 0x7FFFFFFF) with 0x40400000 in H.
    assert (E : fp8e8m0fnu_from_fp32_value 0x40400000 = 129) by (vm_compute; reflexivity). rewrite E in H.
    destruct (H ltac:(lia) ltac:(lia)) as [_ H']. intros q Hq Hne.
    assert (EV : fp32_mag (fp8e8m0fnu_to_fp32_value 129) = 2 ^ 151) by (vm_compute; reflexivity).
    rewrite EV in H'. exact (H' q Hq Hne).
  - destruct (fp8e8m0fnu_round_up 0x00400001 ltac:(lia)) as (_ & _ & H & _). apply H. vm_compute. split; reflexivity.
Defined.
