(* ===== verification/CachingAllocator.v ===== *)
(** * Building blocks of the caching device allocators.

    The statistics of c10/core/Allocator.h and CachingDeviceAllocator.h, the
    size constants of c10/core/AllocatorConfig.h, the rounding of sizes and the
    trace ring buffer of c10/xpu/XPUCachingAllocator.cpp, [std::set] with a
    comparator, and sums over the blocks of a heap. *)

From S2P Require Import Prelude.

Definition size_max : Z := 2 ^ 64 - 1.

(** Arithmetic on [size_t]. *)
Definition size_t (x : Z) : Z := x mod 2 ^ 64.

(** ** Sizes. *)
Definition kSmallBuffer : Z := 2097152.
Definition kMinBlockSize : Z := 512.
Definition kSmallSize : Z := 1048576.
Definition kMinLargeAlloc : Z := 10485760.
Definition kRoundLarge : Z := 2097152.
Definition kMB : Z := 1024 * 1024.
(** The default of [large_segment_size_]. *)
Definition default_large_segment_size : Z := 20971520.

Definition round_size (size : Z) : Z :=
  if size <? kMinBlockSize then kMinBlockSize
  else size_t (kMinBlockSize * (size_t (size + kMinBlockSize - 1) / kMinBlockSize)).

Definition get_allocation_size (large_segment_size size : Z) : Z :=
  if size <=? kSmallSize then kSmallBuffer
  else if size <? kMinLargeAlloc then large_segment_size
  else size_t (kRoundLarge * (size_t (size + kRoundLarge - 1) / kRoundLarge)).

(** The option large_segment_size_mb. *)
Definition parseLargeSegmentSize (val_env : Z) : result Z :=
  let min_allowed_segment_size_mb := kMinLargeAlloc / kMB in
  let max_allowed_segment_size_mb := size_max / kMB in
  TORCH_CHECK (min_allowed_segment_size_mb <? val_env)
    "CachingAllocator option large_segment_size_mb must be > ";;
  mret (Z.min val_env max_allowed_segment_size_mb * kMB).

(** ** Statistics. *)
Record Stat := mkStat { current : Z; peak : Z; allocated_total : Z; freed : Z }.

Definition stat_0 : Stat := mkStat 0 0 0 0.

Definition increase (amount : Z) (s : Stat) : Stat :=
  let c := current s + amount in
  mkStat c (Z.max c (peak s)) (allocated_total s + amount) (freed s).

Definition decrease (amount : Z) (s : Stat) : Stat :=
  mkStat (current s - amount) (peak s) (allocated_total s) (freed s + amount).

Definition reset_accumulated (s : Stat) : Stat := mkStat (current s) (peak s) 0 0.

Definition reset_peak (s : Stat) : Stat :=
  mkStat (current s) (current s) (allocated_total s) (freed s).

Inductive StatType := AGGREGATE | SMALL_POOL | LARGE_POOL.

#[export] Instance StatType_eq_dec : EqDecision StatType.
Proof. solve_decision. Defined.

Definition StatTypes : Type := StatType → bool.
Definition StatArray : Type := StatType → Stat.

(** The arrays of [DeviceStats], named as its members. *)
Inductive StatName :=
  | allocation | segment | active | inactive_split
  | allocated_bytes | reserved_bytes | active_bytes | inactive_split_bytes | requested_bytes.

#[export] Instance StatName_eq_dec : EqDecision StatName.
Proof. solve_decision. Defined.

Record DeviceStats := mkStats { arrays : StatName → StatArray; num_alloc_retries : Z }.

Definition stats_0 : DeviceStats := mkStats (λ _ _, stat_0) 0.

(** [stats.name[stat_type]] changed by [f]. *)
Definition update_stat (n : StatName) (t : StatType) (f : Stat → Stat) (s : DeviceStats) : DeviceStats :=
  mkStats (λ n' t', if decide (n' = n ∧ t' = t) then f (arrays s n' t') else arrays s n' t') (num_alloc_retries s).

Definition for_each_selected_stat_type (stat_types : StatTypes)
    (f : StatType → DeviceStats → DeviceStats) (s : DeviceStats) : DeviceStats :=
  foldl (λ s t, if stat_types t then f t s else s) s [AGGREGATE; SMALL_POOL; LARGE_POOL].

Definition resetAccumulatedStats (s : DeviceStats) : DeviceStats :=
  mkStats (λ n t, reset_accumulated (arrays s n t)) 0.

Definition resetPeakStats (s : DeviceStats) : DeviceStats :=
  mkStats (λ n t, reset_peak (arrays s n t)) (num_alloc_retries s).

(** ** The trace ring buffer. *)
Section RingBuffer.
Context {T : Type}.

Record RingBuffer := mkRing {
  alloc_trace_max_entries_ : nat;
  alloc_trace_next : nat;
  alloc_trace : list T
}.

Definition ring_0 : RingBuffer := mkRing 1 0 [].

Definition setMaxEntries (size : nat) : method RingBuffer unit :=
  modify (λ r, mkRing (max 1 size) (alloc_trace_next r) (alloc_trace r)).

Definition insertEntries (entry : T) : method RingBuffer unit := λ r,
  if decide (length (alloc_trace r) < alloc_trace_max_entries_ r)%nat
  then (mkRing (alloc_trace_max_entries_ r) (alloc_trace_next r) (alloc_trace r ++ [entry]), Ok tt)
  else if decide (alloc_trace_next r < length (alloc_trace r))%nat then
    let next := S (alloc_trace_next r) in
    (mkRing (alloc_trace_max_entries_ r) (if decide (next = alloc_trace_max_entries_ r) then 0%nat else next)
       (<[alloc_trace_next r := entry]> (alloc_trace r)), Ok tt)
  else (r, Throw (UndefinedBehaviour "alloc_trace index out of range")).

Definition getEntries (res : list T) : method RingBuffer (list T) := λ r,
  if decide (alloc_trace_next r ≤ length (alloc_trace r))%nat
  then (r, Ok (res ++ drop (alloc_trace_next r) (alloc_trace r) ++ take (alloc_trace_next r) (alloc_trace r)))
  else (r, Throw (UndefinedBehaviour "alloc_trace iterator out of range")).

Definition clear : method RingBuffer unit :=
  modify (λ r, mkRing (alloc_trace_max_entries_ r) 0 []).
End RingBuffer.
Arguments RingBuffer T : clear implicits.

(** ** [std::set] with a comparator: the elements in its order.  The search
    goes by the comparator only, as in the library. *)
Section OrderedSet.
Context {A : Type} (lt : A → A → bool).

(** The elements from the first one that is not less than the key, whose
    comparison with an element is [less]. *)
Fixpoint lower_bound (less : A → bool) (l : list A) : list A :=
  match l with
  | [] => []
  | y :: r => if less y then lower_bound less r else l
  end.

Fixpoint set_insert (x : A) (l : list A) : list A :=
  match l with
  | [] => [x]
  | y :: r => if lt y x then y :: set_insert x r else if lt x y then x :: l else l
  end.

Fixpoint set_erase (x : A) (l : list A) : list A :=
  match l with
  | [] => []
  | y :: r => if lt y x then y :: set_erase x r else if lt x y then l else r
  end.
End OrderedSet.

(** ** Lemmas: ordered sets. *)
Section OrderedSetLemmas.
Context {A : Type} (lt : A → A → bool).
Implicit Types (l : list A) (x y : A).

(** The comparator is a strict order on the elements considered, and tells
    different ones apart. *)
Definition strict_on (P : A → Prop) : Prop :=
  (∀ x, P x → lt x x = false) ∧
  (∀ x y z, P x → P y → P z → lt x y = true → lt y z = true → lt x z = true) ∧
  (∀ x y, P x → P y → x ≠ y → lt x y = true ∨ lt y x = true).

Definition ordered l : Prop := StronglySorted (λ x y, lt x y = true) l.

Lemma strict_asym P x y : strict_on P → P x → P y → lt x y = true → lt y x = false.
Proof.
  intros (Hi & Ht & _) Hx Hy H. destruct (lt y x) eqn:E; [|done].
  rewrite <- (Hi x Hx). symmetry. by apply (Ht x y x).
Qed.

Lemma ordered_NoDup P l : strict_on P → Forall P l → ordered l → NoDup l.
Proof.
  intros Hs Hl Ho. induction Ho as [|x l Ho IH Hx]; [constructor|]. apply Forall_cons in Hl as [Px Hl].
  constructor; [|by apply IH]. intros Hin. rewrite Forall_forall in Hx. specialize (Hx x Hin).
  destruct Hs as (Hi & _). by rewrite Hi in Hx.
Qed.

Lemma set_insert_spec P x l :
  strict_on P → P x → Forall P l → x ∉ l → ordered l →
  ordered (set_insert lt x l) ∧ ∀ y, y ∈ set_insert lt x l ↔ y = x ∨ y ∈ l.
Proof.
  intros Hs Px Hl Hx Ho. pose proof Hs as (Hi & Ht & Htot).
  induction Ho as [|y l Ho IH Hy]; simpl.
  - split; [repeat constructor|]. intros z. by rewrite elem_of_cons.
  - apply Forall_cons in Hl as [Py Hl]. apply not_elem_of_cons in Hx as [Hne Hx].
    destruct (IH Hl Hx) as [IH1 IH2]. destruct (lt y x) eqn:E1; [|destruct (lt x y) eqn:E2].
    + split; [|intros z; rewrite !elem_of_cons, IH2; tauto]. constructor; [done|].
      rewrite Forall_forall in *. intros z [->|Hz]%IH2; [done|by apply Hy].
    + split; [|intros z; rewrite !elem_of_cons; tauto]. constructor; [by constructor|].
      apply Forall_cons. split; [done|]. rewrite Forall_forall in *. intros z Hz.
      apply (Ht x y z); auto.
    + destruct (Htot x y Px Py Hne); congruence.
Qed.

Lemma set_erase_spec P x l :
  strict_on P → Forall P l → ordered l → x ∈ l →
  ordered (set_erase lt x l) ∧ ∀ y, y ∈ set_erase lt x l ↔ y ∈ l ∧ y ≠ x.
Proof.
  intros Hs Hl Ho Hx. pose proof Hs as (Hi & Ht & Htot).
  pose proof (ordered_NoDup P l Hs Hl Ho) as Hnd. revert Hl Hnd Hx.
  induction Ho as [|y l Ho IH Hy]; intros Hl Hnd Hx; simpl; [by apply not_elem_of_nil in Hx|].
  apply Forall_cons in Hl as [Py Hl]. apply NoDup_cons in Hnd as [Hyl Hnd].
  rewrite Forall_forall in Hy, Hl. apply elem_of_cons in Hx as [->|Hx].
  - rewrite Hi by done. split; [done|]. intros z. rewrite elem_of_cons. split; [|naive_solver].
    intros Hz. split; [by right|]. by intros ->.
  - rewrite (Hy x Hx). destruct (IH ltac:(by apply Forall_forall) Hnd Hx) as [IH1 IH2]. split.
    + constructor; [done|]. apply Forall_forall. intros z [Hz _]%IH2. by apply Hy.
    + intros z. rewrite !elem_of_cons, IH2. split; [|tauto]. intros [->|Hz]; [|tauto].
      split; [by left|]. by intros ->.
Qed.

Lemma ordered_filter l (Q : A → Prop) `{∀ x, Decision (Q x)} : ordered l → ordered (filter Q l).
Proof.
  induction 1 as [|x l Ho IH Hx]; [constructor|]. rewrite filter_cons. case_decide; [|done].
  constructor; [done|]. rewrite Forall_forall in *. intros z [_ Hz]%list_elem_of_filter. by apply Hx.
Qed.

Lemma lower_bound_spec (less : A → bool) l :
  ∃ l1, l = l1 ++ lower_bound less l ∧ Forall (λ x, less x = true) l1 ∧
    match lower_bound less l with [] => True | y :: _ => less y = false end.
Proof.
  induction l as [|x l (l1 & E & H1 & H2)]; simpl; [by exists []|]. destruct (less x) eqn:Ex.
  - exists (x :: l1). simpl. rewrite <- E. split; [done|]. split; [by constructor|done].
  - exists []. done.
Qed.

Lemma ordered_ext (lt' : A → A → bool) l :
  (∀ x y, x ∈ l → y ∈ l → lt' x y = lt x y) → ordered l → StronglySorted (λ x y, lt' x y = true) l.
Proof.
  intros Hext Ho. induction Ho as [|x l Ho IH Hx]; [constructor|]. constructor.
  - apply IH. intros y z Hy Hz. apply Hext; by right.
  - rewrite Forall_forall in *. intros y Hy. rewrite Hext; [by apply Hx|by left|by right].
Qed.
End OrderedSetLemmas.

(** ** Theorems: sizes. *)
Lemma round_up_spec k x : 0 < k → 0 ≤ x →
  let y := k * ((x + k - 1) / k) in (k | y) ∧ x ≤ y < x + k.
Proof.
  intros Hk Hx y. split; [by exists ((x + k - 1) / k); unfold y; lia|].
  pose proof (Z.div_mod (x + k - 1) k ltac:(lia)). pose proof (Z.mod_pos_bound (x + k - 1) k Hk).
  unfold y. lia.
Qed.

Lemma round_size_eq size : 0 ≤ size ≤ 2 ^ 64 - 512 →
  (512 | round_size size) ∧ Z.max size 1 ≤ round_size size < Z.max size 1 + 512.
Proof.
  intros Hs. unfold round_size, kMinBlockSize. case_bool.
  - split; [by exists 1|lia].
  - unfold size_t. rewrite (Z.mod_small (size + 512 - 1)) by lia.
    destruct (round_up_spec 512 size ltac:(lia) ltac:(lia)) as [Hd Hb].
    rewrite Z.mod_small; [split; [done|lia]|]. split; [lia|].
    destruct Hd as [q Hq]. rewrite Hq in *. lia.
Qed.

Lemma get_allocation_size_ge lss size :
  kMinLargeAlloc ≤ lss → 0 ≤ size ≤ 2 ^ 64 - 2 ^ 21 → size ≤ get_allocation_size lss size.
Proof.
  intros Hl Hs. unfold get_allocation_size, kSmallSize, kSmallBuffer, kMinLargeAlloc, kRoundLarge in *.
  case_bool; [lia|]. case_bool; [lia|]. unfold size_t. rewrite (Z.mod_small (size + 2097152 - 1)) by lia.
  destruct (round_up_spec 2097152 size ltac:(lia) ltac:(lia)) as [[q Hq] Hb]. rewrite Hq in *.
  rewrite Z.mod_small by lia. lia.
Qed.

(** Sizes are rounded up to a multiple of 512, by less than 512 bytes, and
    never to zero; the segment requested for a rounded size is large enough for
    it: 2 MiB for a small one, the configured segment size, which the parser
    of the option keeps above 10 MiB, for a middle one, and a multiple of 2 MiB,
    less than 2 MiB larger, for a large one.  The sums wrap at the top of the
    address range: a request within 511 bytes of 2^64 is rounded to zero, and
    the segment for a rounded size within 2 MiB of it has size zero. *)
Theorem allocation_sizes size val_env lss :
  0 ≤ size < 2 ^ 64 → 0 ≤ val_env < 2 ^ 64 →
  lss = default_large_segment_size ∨ parseLargeSegmentSize val_env = Ok lss →
  let r := round_size size in
  let a := get_allocation_size lss r in
  (size ≤ 2 ^ 64 - 512 → (512 | r) ∧ 0 < r ∧ size ≤ r < size + 512 + (if size =? 0 then 1 else 0)) ∧
  (2 ^ 64 - 512 < size → r = 0) ∧
  (size ≤ 2 ^ 64 - 2 ^ 21 → r ≤ a ∧ (r ≤ kSmallSize → a = kSmallBuffer) ∧
     (kSmallSize < r < kMinLargeAlloc → a = lss) ∧
     (kMinLargeAlloc ≤ r → (2 ^ 21 | a) ∧ a < r + 2 ^ 21)) ∧
  (2 ^ 64 - 2 ^ 21 < r → a = 0).
Proof.
  intros Hs Hv Hlss r a.
  assert (kMinLargeAlloc < lss) as Hl.
  { destruct Hlss as [->|H]; [done|]. unfold parseLargeSegmentSize in H. apply bind_Ok in H as (u & H & E).
    apply TORCH_CHECK_Ok in H. injection E as <-. bool_simpl.
    change (kMinLargeAlloc / kMB) with 10 in H. change (size_max / kMB) with (2 ^ 44 - 1).
    unfold kMinLargeAlloc, kMB. lia. }
  split; [|split; [|split]].
  - intros Hb. destruct (round_size_eq size ltac:(lia)) as [Hd Hr]. fold r in Hd, Hr.
    split; [done|]. case_bool; lia.
  - intros Hb. unfold r, round_size, kMinBlockSize, size_t. case_bool; [lia|].
    replace ((size + 512 - 1) mod 2 ^ 64) with (size + 512 - 1 - 2 ^ 64).
    2: { apply (Z.mod_unique _ _ 1); lia. }
    rewrite (Z.div_small (size + 512 - 1 - 2 ^ 64)) by lia. done.
  - intros Hb. destruct (round_size_eq size ltac:(lia)) as [[q Hq] Hr]. fold r in Hq, Hr.
    assert (r ≤ 2 ^ 64 - 2 ^ 21) as Hr2 by lia. split; [apply get_allocation_size_ge; lia|].
    unfold a, get_allocation_size. repeat split; intros.
    + case_bool; [done|lia].
    + case_bool; [lia|]. case_bool; [done|lia].
    + unfold kMinLargeAlloc, kSmallSize in *. case_bool; [lia|]. case_bool; [lia|].
      unfold size_t, kRoundLarge. rewrite (Z.mod_small (r + 2097152 - 1)) by lia.
      destruct (round_up_spec 2097152 r ltac:(lia) ltac:(lia)) as [[c Hc] Hb2]. rewrite Hc in *.
      rewrite Z.mod_small by lia. by exists c.
    + unfold kMinLargeAlloc, kSmallSize in *. case_bool; [lia|]. case_bool; [lia|].
      unfold size_t, kRoundLarge. rewrite (Z.mod_small (r + 2097152 - 1)) by lia.
      destruct (round_up_spec 2097152 r ltac:(lia) ltac:(lia)) as [[c Hc] Hb2]. rewrite Hc in *.
      rewrite Z.mod_small by lia. lia.
  - intros Hb. assert (r < 2 ^ 64) as Hr64.
    { unfold r, round_size, size_t. case_bool; [done|]. apply Z.mod_pos_bound. lia. }
    unfold a, get_allocation_size, kSmallSize, kMinLargeAlloc, kRoundLarge, size_t.
    case_bool; [lia|]. case_bool; [lia|].
    replace ((r + 2097152 - 1) mod 2 ^ 64) with (r + 2097152 - 1 - 2 ^ 64).
    2: { apply (Z.mod_unique _ _ 1); lia. }
    rewrite (Z.div_small (r + 2097152 - 1 - 2 ^ 64)) by lia. done.
Qed.

(** 11 MiB and one byte with the default segment size. *)
Lemma allocation_sizes_witness :
  (512 | round_size 11534337) ∧ get_allocation_size default_large_segment_size (round_size 11534337) = 12582912 ∧
  round_size (2 ^ 64 - 1) = 0.
Proof.
  destruct (allocation_sizes 11534337 20 default_large_segment_size) as (H1 & _); [lia|lia|by left|].
  destruct H1 as [Hd _]; [lia|]. split; [exact Hd|]. split; [vm_compute; reflexivity|].
  destruct (allocation_sizes (2 ^ 64 - 1) 20 default_large_segment_size) as (_ & H2 & _); [lia|lia|by left|].
  apply H2. lia.
Defined.

(** ** Theorems: the ring buffer. *)
Section RingTheorems.
Context {T : Type}.

Fixpoint insert_all (l : list T) : method (RingBuffer T) unit :=
  match l with
  | [] => mret tt
  | x :: r => insertEntries x;; insert_all r
  end.

Definition last_n {A} (n : nat) (l : list A) : list A := drop (length l - n) l.

(** The state of a buffer of [m] entries into which [l] was inserted since it
    was cleared. *)
Definition holds (m : nat) (l : list T) (r : RingBuffer T) : Prop :=
  alloc_trace_max_entries_ r = m ∧
  if decide (length l < m)%nat then alloc_trace r = l ∧ alloc_trace_next r = 0%nat
  else length (alloc_trace r) = m ∧ (alloc_trace_next r < m)%nat ∧
    drop (alloc_trace_next r) (alloc_trace r) ++ take (alloc_trace_next r) (alloc_trace r) = last_n m l.

Lemma last_n_snoc {A} (m : nat) (l : list A) x :
  (0 < m)%nat → (m ≤ length l)%nat → last_n m (l ++ [x]) = drop 1 (last_n m l) ++ [x].
Proof.
  intros Hm Hl. unfold last_n. rewrite drop_drop, length_app, drop_app_le by (simpl; lia).
  do 2 f_equal. simpl. lia.
Qed.

(** Overwriting the oldest entry. *)
Lemma rotate_insert {A} (next : nat) (t : list A) x :
  (next < length t)%nat →
  drop (S next) (<[next:=x]> t) ++ take (S next) (<[next:=x]> t) = drop 1 (drop next t ++ take next t) ++ [x].
Proof.
  intros H. rewrite drop_insert_lt by lia.
  destruct (lookup_lt_is_Some_2 t next H) as [y Hy].
  assert (take (S next) (<[next:=x]> t) = take next t ++ [x]) as ->.
  { rewrite (take_S_r _ _ x) by (by apply list_lookup_insert_eq). by rewrite take_insert_ge. }
  rewrite (drop_S t y next Hy). simpl. by rewrite app_assoc.
Qed.

Lemma holds_insert m l r x :
  (0 < m)%nat → holds m l r → wp (insertEntries x) (λ _, holds m (l ++ [x])) r.
Proof.
  intros Hm [Emax H]. unfold wp, insertEntries. rewrite Emax.
  destruct (decide (length l < m)%nat) as [Hlt|Hge].
  - destruct H as [-> ->]. rewrite decide_True by done. split; [done|]. simpl. rewrite length_app; simpl.
    destruct (decide (length l + 1 < m)%nat); [done|]. rewrite drop_0, take_0, app_nil_r.
    split; [lia|]. split; [done|]. unfold last_n. rewrite length_app. simpl.
    by replace (length l + 1 - m)%nat with 0%nat by lia.
  - destruct H as (Hlen & Hnext & Hrot). rewrite decide_False, decide_True by lia.
    split; [done|]. simpl. rewrite length_app, decide_False, length_insert by (simpl; lia).
    split; [done|]. rewrite last_n_snoc, <- Hrot by lia.
    destruct (decide (S (alloc_trace_next r) = m)) as [E|E].
    + split; [lia|]. rewrite <- rotate_insert by lia. rewrite drop_0, take_0, app_nil_r.
      rewrite drop_ge, take_ge by (rewrite length_insert; lia). done.
    + split; [lia|]. apply rotate_insert. lia.
Qed.

Lemma holds_insert_all m k l r :
  (0 < m)%nat → holds m k r → wp (insert_all l) (λ _, holds m (k ++ l)) r.
Proof.
  intros Hm. revert k r. induction l as [|x l IH]; intros k r H; simpl.
  - by rewrite wp_ret, app_nil_r.
  - apply wp_bind. eapply wp_mono; [by apply (holds_insert m k)|]. intros [] r' _ H'.
    replace (k ++ x :: l) with ((k ++ [x]) ++ l) by (by rewrite <- app_assoc). by apply IH.
Qed.

(** After the buffer was given a limit and cleared, any sequence of
    insertions succeeds, and reading it returns the entries in the order of
    their insertion: all of them, or the last ones when there are more than the
    limit. *)
Theorem ring_buffer_keeps_last n l res (r : RingBuffer T) :
  wp (setMaxEntries n;; clear;; insert_all l;; getEntries res)
    (λ out _, out = res ++ last_n (Nat.max 1 n) l) r.
Proof.
  apply wp_bind, wp_modify, wp_bind, wp_modify, wp_bind. eapply wp_mono.
  { apply (holds_insert_all (Nat.max 1 n) [] l); [lia|]. split; [done|]. rewrite decide_True by (simpl; lia). done. }
  intros [] s _ [_ H]. simpl in H. unfold wp, getEntries. destruct (decide (length l < Nat.max 1 n)%nat).
  - destruct H as [-> ->]. rewrite decide_True, drop_0, take_0, app_nil_r by lia.
    unfold last_n. by replace (length l - Nat.max 1 n)%nat with 0%nat by lia.
  - destruct H as (Hlen & Hnext & ->). by rewrite decide_True by lia.
Qed.

(** A buffer whose write position is at or beyond its limit never wraps. *)
Lemma insert_beyond l r :
  (alloc_trace_max_entries_ r ≤ alloc_trace_next r ≤ length (alloc_trace r))%nat →
  (length (alloc_trace r) - alloc_trace_next r < length l)%nat →
  snd (insert_all l r) = Throw (UndefinedBehaviour "alloc_trace index out of range").
Proof.
  revert r. induction l as [|x l IH]; intros r Hr Hl; simpl in *; [lia|].
  unfold mbind, method_bind, insertEntries. rewrite decide_False by lia.
  destruct (decide (alloc_trace_next r < length (alloc_trace r))%nat); [|done].
  apply IH; cbn; rewrite length_insert; destruct (decide (S (alloc_trace_next r) = alloc_trace_max_entries_ r)); lia.
Qed.

(** Lowering the limit of a full buffer without clearing it, to at most
    its write position, makes the write position run past the end: after the
    entries up to the end are overwritten, the next insertion writes outside
    the vector.  (recordHistory lowers the limit and clears the buffer only
    when it is told to, or when recording is turned off.) *)
Theorem ring_buffer_shrink_overruns n l r :
  length (alloc_trace r) = alloc_trace_max_entries_ r →
  (1 ≤ alloc_trace_next r < alloc_trace_max_entries_ r)%nat → (n ≤ alloc_trace_next r)%nat →
  (length (alloc_trace r) - alloc_trace_next r < length l)%nat →
  snd ((setMaxEntries n;; insert_all l) r) = Throw (UndefinedBehaviour "alloc_trace index out of range").
Proof.
  intros Hlen Hnext Hn Hl. unfold mbind, method_bind, setMaxEntries, modify.
  apply insert_beyond; cbn [alloc_trace_max_entries_ alloc_trace_next alloc_trace]; lia.
Qed.
End RingTheorems.

(** Six entries in a buffer of four, whose limit is then lowered to two. *)
Lemma ring_buffer_shrink_overruns_witness :
  snd ((setMaxEntries 4;; clear;; insert_all [1; 2; 3; 4; 5; 6];; setMaxEntries 2;; insert_all [7; 8; 9]) ring_0) =
  Throw (UndefinedBehaviour "alloc_trace index out of range").
Proof.
  pose proof (ring_buffer_shrink_overruns 2 [7; 8; 9] (mkRing 4 2 [5; 6; 3; 4])) as H.
  assert (E : (setMaxEntries 4;; clear;; insert_all [1; 2; 3; 4; 5; 6]) ring_0 = (mkRing 4 2 [5; 6; 3; 4], Ok tt))
    by (vm_compute; reflexivity).
  change (snd ((setMaxEntries 2;; insert_all [7; 8; 9]) (fst ((setMaxEntries 4;; clear;; insert_all [1; 2; 3; 4; 5; 6]) ring_0))) =
    Throw (UndefinedBehaviour "alloc_trace index out of range")).
  rewrite E. apply H; simpl; lia.
Defined.
