(* ===== verification/DeviceRuntime.v ===== *)
(** * The device runtime.

    What the XPU caching allocator uses of SYCL and of pluggable allocators:
    an interface of operations on an abstract device state, the laws the
    allocator relies on, and a device that satisfies them. *)

From S2P Require Import Prelude.

(** ** Operations.  [aligned_alloc_device] and [raw_alloc] return no pointer
    when they fail; [new_physical_mem] and [map_physical_mem] throw, which is
    no handle resp. [false]. *)
Class DeviceRuntime (D : Type) := {
  aligned_alloc_device : Z → D → D * option Z;
  sycl_free : Z → D → D;
  raw_alloc : Z → Z → D → D * option Z;
  raw_delete : Z → Z → D → D;
  syncStreamsOnDevice : D → D;
  reserve_virtual_mem : Z → D → D * Z;
  free_virtual_mem : Z → Z → D → D;
  new_physical_mem : Z → D → D * option Z;
  destroy_physical_mem : Z → D → D;
  map_physical_mem : Z → Z → Z → D → D * bool;
  unmap_virtual_mem : Z → Z → D → D;
}.

(** ** Laws.  [live] maps the start of every allocation of device memory to
    its size; an allocation returns memory that overlaps no other, and a
    failure changes nothing.  [mapped_mem] maps the start of every virtual
    address range with physical memory to its size. *)
Definition separate (p n q m : Z) : Prop := p + n ≤ q ∨ q + m ≤ p.

Class DeviceLaws (D : Type) `{DeviceRuntime D} := {
  live : D → gmap Z Z;
  mapped_mem : D → gmap Z Z;
  alloc_some size d d' p : 0 < size → aligned_alloc_device size d = (d', Some p) →
    0 < p ∧ live d !! p = None ∧ live d' = <[p := size]> (live d) ∧
    (∀ q n, live d !! q = Some n → separate p size q n);
  alloc_none size d d' : aligned_alloc_device size d = (d', None) → live d' = live d;
  raw_alloc_some a size d d' p : 0 < size → raw_alloc a size d = (d', Some p) →
    0 < p ∧ live d !! p = None ∧ live d' = <[p := size]> (live d) ∧
    (∀ q n, live d !! q = Some n → separate p size q n);
  raw_alloc_none a size d d' : raw_alloc a size d = (d', None) → live d' = live d;
  free_live p d : is_Some (live d !! p) → live (sycl_free p d) = delete p (live d);
  raw_delete_live a p d : is_Some (live d !! p) → live (raw_delete a p d) = delete p (live d);
  sync_live d : live (syncStreamsOnDevice d) = live d;
  new_physical_mapped size d d' h : new_physical_mem size d = (d', h) → mapped_mem d' = mapped_mem d;
  destroy_physical_mapped h d : mapped_mem (destroy_physical_mem h d) = mapped_mem d;
  map_physical_true h p n d d' : map_physical_mem h p n d = (d', true) →
    mapped_mem d' = <[p := n]> (mapped_mem d);
  map_physical_false h p n d d' : map_physical_mem h p n d = (d', false) → mapped_mem d' = mapped_mem d;
  unmap_mapped p n d : mapped_mem d !! p = Some n →
    mapped_mem (unmap_virtual_mem p n d) = delete p (mapped_mem d);
  free_virtual_mapped p n d : mapped_mem (free_virtual_mem p n d) = mapped_mem d;
}.

(** ** A device of [capacity] bytes that never reuses an address. *)
Module Simple.
Record device := mkDevice {
  capacity : Z;
  next_address : Z;
  allocations : gmap Z Z;
  mappings : gmap Z Z;
  pages : Z
}.

Definition in_use (d : device) : Z := map_fold (λ _ n acc, n + acc) 0 (allocations d).

Definition fits (size : Z) (d : device) : bool :=
  (in_use d + size <=? capacity d) && (0 <? size) && (0 <? next_address d) &&
  bool_decide (map_Forall (λ p n, p + n ≤ next_address d ∧ 0 < n) (allocations d)).

Definition alloc (size : Z) (d : device) : device * option Z :=
  if fits size d then
    (mkDevice (capacity d) (next_address d + 512 * ((size + 511) / 512)) (<[next_address d := size]> (allocations d))
       (mappings d) (pages d), Some (next_address d))
  else (d, None).

Definition release (p : Z) (d : device) : device :=
  mkDevice (capacity d) (next_address d) (delete p (allocations d)) (mappings d) (pages d).

#[global] Instance runtime : DeviceRuntime device := {|
  aligned_alloc_device := alloc;
  sycl_free := release;
  raw_alloc _ := alloc;
  raw_delete _ := release;
  syncStreamsOnDevice d := d;
  reserve_virtual_mem size d :=
    (mkDevice (capacity d) (next_address d + size) (allocations d) (mappings d) (pages d), next_address d);
  free_virtual_mem _ _ d := d;
  new_physical_mem size d :=
    if pages d <? capacity d
    then (mkDevice (capacity d) (next_address d) (allocations d) (mappings d) (pages d + 1), Some (pages d))
    else (d, None);
  destroy_physical_mem _ d := d;
  map_physical_mem _ p n d :=
    (mkDevice (capacity d) (next_address d) (allocations d) (<[p := n]> (mappings d)) (pages d), true);
  unmap_virtual_mem p _ d :=
    mkDevice (capacity d) (next_address d) (allocations d) (delete p (mappings d)) (pages d)
|}.

Lemma alloc_Some size d d' p : alloc size d = (d', Some p) →
  0 < p ∧ allocations d !! p = None ∧ allocations d' = <[p := size]> (allocations d) ∧
  (∀ q n, allocations d !! q = Some n → separate p size q n).
Proof.
  unfold alloc. destruct (fits size d) eqn:E; [|done]. intros [= <- <-].
  unfold fits in E. bool_simpl. apply bool_decide_eq_true in H0.
  split; [done|]. split; [|split; [done|]].
  - destruct (allocations d !! next_address d) as [n|] eqn:E; [|done]. destruct (H0 _ _ E). lia.
  - intros q n Hq. destruct (H0 _ _ Hq). right. lia.
Qed.

Lemma alloc_None size d d' : alloc size d = (d', None) → d' = d.
Proof. unfold alloc. destruct (fits size d); congruence. Qed.

#[global, refine] Instance laws : DeviceLaws device := {|
  live := allocations; mapped_mem := mappings
|}.
Proof.
  - intros size d d' p _. apply alloc_Some.
  - intros size d d' H. by rewrite (alloc_None size d d' H).
  - intros a size d d' p _. apply alloc_Some.
  - intros a size d d' H. by rewrite (alloc_None size d d' H).
  - done.
  - done.
  - done.
  - intros size d d' h. simpl. case_match; by intros [= <- _].
  - done.
  - intros h p n d d'. simpl. by intros [= <-].
  - intros h p n d d'. simpl. done.
  - done.
  - done.
Defined.
End Simple.
