(* ===== verification/ExpandableSegment.v ===== *)
(** * Expandable segments.

    [ExpandableSegment] of c10/xpu/XPUCachingAllocator.cpp: a reserved range of
    virtual addresses whose equal parts are backed by physical memory on
    demand.  A method runs on the segment and the device. *)

From S2P Require Import Prelude CachingAllocator DeviceRuntime.

(** ** Data. *)
Record SegmentRange := mkRange { range_ptr : Z; range_size : Z }.

(** [handles_] holds the physical memory of the first parts of the segment. *)
Record ExpandableSegment := mkES {
  es_device : Z;
  es_queue : option Z;
  ptr_ : Z;
  segment_size_ : Z;
  max_handles_ : Z;
  handles_ : list (option Z)
}.

Definition set_handles (h : list (option Z)) (es : ExpandableSegment) : ExpandableSegment :=
  mkES (es_device es) (es_queue es) (ptr_ es) (segment_size_ es) (max_handles_ es) h.

(** The handle at an index, if there is one. *)
Definition handle_at (h : list (option Z)) (i : nat) : option Z := mjoin (h !! i).

Section Operations.
Context {D : Type} `{DeviceRuntime D}.

Local Abbreviation op := (method (ExpandableSegment * D)).

Definition device_op {A} (f : D → D * A) : op A := λ '(es, d), let '(d', a) := f d in ((es, d'), Ok a).
Definition device_do (f : D → D) : op unit := λ '(es, d), ((es, f d), Ok tt).
Definition get_es {A} (f : ExpandableSegment → A) : op A := reads (λ s, f s.1).
Definition modify_handles (f : list (option Z) → list (option Z)) : op unit :=
  modify (λ s, (set_handles (f (handles_ s.1)) s.1, s.2)).

(** ** Indices. *)
Definition numSegments (es : ExpandableSegment) (size : Z) : Z := (size + segment_size_ es - 1) / segment_size_ es.
Definition segmentLeft (es : ExpandableSegment) (p : Z) : Z := (p - ptr_ es) / segment_size_ es.
Definition segmentRight (es : ExpandableSegment) (p : Z) : Z := numSegments es (p - ptr_ es).
Definition rangeFromHandles (es : ExpandableSegment) (begin_ end_ : Z) : SegmentRange :=
  mkRange (ptr_ es + segment_size_ es * begin_) (segment_size_ es * (end_ - begin_)).
Definition es_size (es : ExpandableSegment) : Z := max_handles_ es * segment_size_ es.

(** The constructor; [virtual_size] is the memory of the device and an eighth,
    which the source computes in floating point. *)
Definition newExpandableSegment (device : Z) (queue : option Z) (segment_size virtual_size : Z) (d : D)
  : D * ExpandableSegment :=
  let max_handles := (virtual_size + segment_size - 1) / segment_size in
  let '(d', p) := reserve_virtual_mem (segment_size * max_handles) d in
  (d', mkES device queue p segment_size max_handles []).

(** [handles_.at(i)] *)
Definition handles_at (i : nat) : op (option Z) := λ s,
  match handles_ s.1 !! i with
  | Some h => (s, Ok h)
  | None => (s, Throw (Error "vector::at out of range"))
  end.

(** Remove trailing unused handles. *)
Definition trim (l : list (option Z)) : list (option Z) :=
  foldr (λ h r, match h, r with None, [] => [] | _, _ => h :: r end) [] l.
Definition trimHandles : op unit := modify_handles trim.

(** [handle.reset()] *)
Definition reset_handle (i : nat) : op unit :=
  h ← handles_at i;
  match h with Some m => device_do (destroy_physical_mem m) | None => mret tt end;;
  modify_handles (λ l, <[i := None]> l).

(** ** Mapping. *)

(** Unmaps [n] parts from [i]: the loop of [unmapHandles], and that of the
    rollback in [map]. *)
Fixpoint unmap_loop (i n : nat) : op unit :=
  match n with
  | O => mret tt
  | S n' =>
      es ← get_es (λ es, es);
      device_do (unmap_virtual_mem (ptr_ es + segment_size_ es * Z.of_nat i) (segment_size_ es));;
      reset_handle i;;
      unmap_loop (S i) n'
  end.

(** The loop from [i], over [n] parts; [false] is the failure, after which
    everything mapped since [begin_] is undone. *)
Fixpoint map_loop (begin_ i n : nat) : op bool :=
  match n with
  | O => mret true
  | S n' =>
      h ← handles_at i;
      lift (TORCH_INTERNAL_ASSERT (bool_decide (h = None)) "!handles_.at(i)");;
      es ← get_es (λ es, es);
      mem ← device_op (new_physical_mem (segment_size_ es));
      ok ← match mem with
           | None => mret false
           | Some m =>
               modify_handles (λ l, <[i := Some m]> l);;
               device_op (map_physical_mem m (ptr_ es + Z.of_nat i * segment_size_ es) (segment_size_ es))
           end;
      if (ok : bool) then map_loop begin_ (S i) n'
      else
        reset_handle i;;
        unmap_loop begin_ (i - begin_);;
        trimHandles;;
        mret false
  end.

Definition es_map (range : SegmentRange) : op SegmentRange :=
  es ← get_es (λ es, es);
  let begin_ := segmentLeft es (range_ptr range) in
  let end_ := segmentRight es (range_ptr range + range_size range) in
  lift (TORCH_INTERNAL_ASSERT (ptr_ es + begin_ * segment_size_ es =? range_ptr range)
    "ptr() + begin * segment_size_ == range.ptr");;
  if begin_ =? end_ then mret (rangeFromHandles es begin_ end_)
  else
    modify_handles (λ l, if decide (length l < Z.to_nat end_)%nat then resize (Z.to_nat end_) None l else l);;
    ok ← map_loop (Z.to_nat begin_) (Z.to_nat begin_) (Z.to_nat end_ - Z.to_nat begin_);
    if (ok : bool) then mret (rangeFromHandles es begin_ end_) else mret (rangeFromHandles es begin_ begin_).

(** ** Unmapping. *)
Definition unmapHandles (begin_ end_ : Z) : op unit :=
  es ← get_es (λ es, es);
  lift (TORCH_INTERNAL_ASSERT (bool_decide (is_Some (es_queue es))) "queue_");;
  unmap_loop (Z.to_nat begin_) (Z.to_nat end_ - Z.to_nat begin_);;
  trimHandles.

Definition es_unmap (range : SegmentRange) : op SegmentRange :=
  es ← get_es (λ es, es);
  let begin_ := segmentRight es (range_ptr range) in
  let end_ := segmentLeft es (range_ptr range + range_size range) in
  if end_ <=? begin_ then mret (mkRange (range_ptr range) 0)
  else
    unmapHandles begin_ end_;;
    mret (rangeFromHandles es begin_ end_).

(** ** The allocated ranges and the destructor. *)

(** Calls [fn] with every maximal range of indices that have handles. *)
Fixpoint each_range_loop (fn : nat → nat → op unit) (start i n : nat) : op unit :=
  match n with
  | O => mret tt
  | S n' =>
      h ← handles_at i;
      begins ← (if decide (h = None) then mret false
                else if decide (i = 0%nat) then mret true
                else p ← handles_at (i - 1); mret (bool_decide (p = None)));
      let start := if (begins : bool) then i else start in
      h ← handles_at i;
      size ← get_es (λ es, length (handles_ es));
      ends ← (if decide (h = None) then mret false
              else if decide (i + 1 = size)%nat then mret true
              else q ← handles_at (i + 1); mret (bool_decide (q = None)));
      (if (ends : bool) then fn start (i + 1)%nat else mret tt);;
      each_range_loop fn start (S i) n'
  end.

Definition forEachAllocatedRange (fn : nat → nat → op unit) : op unit :=
  size ← get_es (λ es, length (handles_ es));
  each_range_loop fn 0 0 size.

(** The destructor. *)
Definition deleteExpandableSegment : op unit :=
  forEachAllocatedRange (λ b e, unmapHandles (Z.of_nat b) (Z.of_nat e));;
  es ← get_es (λ es, es);
  device_do (free_virtual_mem (ptr_ es) (segment_size_ es * max_handles_ es)).

End Operations.

(** ** Theorems. *)
Section Theorems.
Context {D : Type} `{DeviceLaws D}.
Implicit Types (es : ExpandableSegment) (d : D) (h : list (option Z)).

Definition part es (i : nat) : Z := ptr_ es + segment_size_ es * Z.of_nat i.

(** The addresses of [n] parts from [b]. *)
Definition in_parts es (b n : nat) (p : Z) : Prop := ∃ i, (b ≤ i < b + n)%nat ∧ p = part es i.

Lemma in_parts_Exists es b n p : in_parts es b n p ↔ Exists (λ i, p = part es i) (seq b n).
Proof. rewrite Exists_exists. unfold in_parts. by setoid_rewrite elem_of_seq. Qed.

#[local] Instance in_parts_dec es b n p : Decision (in_parts es b n p).
Proof. refine (cast_if (decide (Exists (λ i, p = part es i) (seq b n)))); by rewrite in_parts_Exists. Defined.

Lemma part_inj es i j : 0 < segment_size_ es → part es i = part es j → i = j.
Proof. unfold part. intros. nia. Qed.

(** What the loops change: the handles and mappings of some parts. *)
Definition unmapped es (b n : nat) h h' d d' : Prop :=
  length h' = length h ∧
  (∀ i, handle_at h' i = if decide (b ≤ i < b + n)%nat then None else handle_at h i) ∧
  (∀ p, in_parts es b n p → mapped_mem d' !! p = None) ∧
  (∀ p, ¬ in_parts es b n p → mapped_mem d' !! p = mapped_mem d !! p).

Lemma handle_at_insert h i j x : (i < length h)%nat → handle_at (<[i := x]> h) j = if decide (j = i) then x else handle_at h j.
Proof.
  intros Hi. unfold handle_at. destruct (decide (j = i)) as [->|Hne]; [by rewrite list_lookup_insert_eq|].
  by rewrite list_lookup_insert_ne.
Qed.

Lemma handle_at_length h i : is_Some (handle_at h i) → (i < length h)%nat.
Proof. unfold handle_at. intros [x Hx]. destruct (h !! i) eqn:E; [|done]. by eapply lookup_lt_Some. Qed.

Lemma reset_handle_spec es d i : (i < length (handles_ es))%nat →
  wp (reset_handle i) (λ _ s, ∃ d', s = (set_handles (<[i := None]> (handles_ es)) es, d') ∧
    mapped_mem d' = mapped_mem d) (es, d).
Proof.
  intros Hi. unfold reset_handle. apply wp_bind. unfold handles_at, wp at 1. simpl.
  destruct (lookup_lt_is_Some_2 _ _ Hi) as [m Hm]. rewrite Hm. apply wp_bind.
  destruct m as [m|]; unfold wp; simpl.
  - eexists. split; [reflexivity|]. apply destroy_physical_mapped.
  - by exists d.
Qed.

Lemma unmap_loop_spec es d b n :
  0 < segment_size_ es → (b + n ≤ length (handles_ es))%nat →
  (∀ i, (b ≤ i < b + n)%nat → mapped_mem d !! part es i = Some (segment_size_ es)) →
  wp (unmap_loop b n) (λ _ s, ∃ h' d', s = (set_handles h' es, d') ∧ unmapped es b n (handles_ es) h' d d') (es, d).
Proof.
  intros Hss. revert es d b Hss. induction n as [|n IH]; intros es d b Hss Hlen Hmap; cbn [unmap_loop].
  - apply wp_ret. exists (handles_ es), d. split; [by destruct es|]. repeat split.
    + intros i. by rewrite decide_False by lia.
    + intros p (i & Hi & _). lia.
  - apply wp_bind, wp_reads, wp_bind. cbn [fst]. unfold device_do, wp at 1. apply wp_bind.
    set (d1 := unmap_virtual_mem _ _ d).
    assert (mapped_mem d1 = delete (part es b) (mapped_mem d)) as E1.
    { apply unmap_mapped. apply Hmap. lia. }
    eapply wp_mono; [apply (reset_handle_spec es d1 b); lia|]. intros [] s _ (d2 & -> & E2).
    eapply wp_mono; [apply IH|].
    + done.
    + cbn. rewrite length_insert. lia.
    + intros i Hi. change (part _ i) with (part es i). rewrite E2, E1, lookup_delete_ne.
      * apply Hmap. lia.
      * intros E%part_inj; [lia|done].
    + intros [] s _ (h' & d' & -> & Hlen' & Hh & Hin & Hout). exists h', d'. split; [done|].
      cbn in Hlen', Hh. rewrite length_insert in Hlen'. split; [done|]. split; [|split].
      * intros i. rewrite Hh, handle_at_insert by lia. repeat case_decide; try done; lia.
      * intros p (i & Hi & ->). destruct (decide (i = b)) as [->|Hne].
        { rewrite Hout, E2, E1; [apply lookup_delete_eq|]. intros (j & Hj & E). pose proof (part_inj es b j Hss E). lia. }
        apply Hin. exists i. split; [lia|done].
      * intros p Hp. rewrite Hout, E2, E1, lookup_delete_ne; [done| |].
        { intros <-. apply Hp. exists b. split; [lia|done]. }
        { intros (i & Hi & ->). apply Hp. exists i. split; [lia|done]. }
Qed.

Lemma trim_at h i : handle_at (trim h) i = handle_at h i.
Proof.
  revert i. induction h as [|x h IH]; intros i; [done|].
  assert (trim (x :: h) = match x, trim h with None, [] => [] | _, _ => x :: trim h end) as -> by done.
  destruct x as [x|]; [|destruct (trim h) as [|y t] eqn:E].
  - destruct i as [|i]; [done|]. apply IH.
  - destruct i as [|i]; [done|]. apply (IH i).
  - destruct i as [|i]; [done|]. apply IH.
Qed.

(** No trailing part without handle. *)
Definition trimmed h : Prop := trim h = h.

Lemma trim_trimmed h : trimmed (trim h).
Proof.
  unfold trimmed. induction h as [|x h IH]; [done|].
  assert (∀ x k, trim (x :: k) = match x, trim k with None, [] => [] | _, _ => x :: trim k end) as E by done.
  rewrite E. destruct x as [x|]; [by rewrite E, IH|]. destruct (trim h) as [|y t] eqn:Et; [done|].
  by rewrite E, IH.
Qed.

Lemma trim_length h n : (∀ i, (n ≤ i)%nat → handle_at h i = None) → (length (trim h) ≤ n)%nat.
Proof.
  revert n. induction h as [|x h IH]; intros n Hn; [simpl; lia|].
  assert (trim (x :: h) = match x, trim h with None, [] => [] | _, _ => x :: trim h end) as -> by done.
  destruct n as [|n].
  - assert (x = None) as -> by (by apply (Hn 0%nat)).
    specialize (IH 0%nat (λ i _, Hn (S i) ltac:(lia))). destruct (trim h); simpl in *; lia.
  - specialize (IH n (λ i Hi, Hn (S i) ltac:(lia))). destruct x; [simpl; lia|].
    destruct (trim h) eqn:E; simpl in *; lia.
Qed.

(** The invariant of a segment: the device maps exactly the parts that have a
    handle, and the last handle is used. *)
Record es_ok es d : Prop := {
  es_part_size : 0 < segment_size_ es;
  es_start : 0 ≤ ptr_ es;
  es_fits : Z.of_nat (length (handles_ es)) ≤ max_handles_ es;
  es_trimmed : trimmed (handles_ es);
  es_backed i : Z.of_nat i < max_handles_ es →
    mapped_mem d !! part es i = match handle_at (handles_ es) i with Some _ => Some (segment_size_ es) | None => None end
}.

(** The handles and mappings of a state in which the parts from [b] to [i] are
    mapped in addition to those of the state [h], [d]. *)
Definition extended es (b i : nat) h h' d d' : Prop :=
  length h' = length h ∧
  (∀ j, (b ≤ j < i)%nat → is_Some (handle_at h' j)) ∧
  (∀ j, ¬ (b ≤ j < i)%nat → handle_at h' j = handle_at h j) ∧
  (∀ p, in_parts es b (i - b) p → mapped_mem d' !! p = Some (segment_size_ es)) ∧
  (∀ p, ¬ in_parts es b (i - b) p → mapped_mem d' !! p = mapped_mem d !! p).

Lemma extended_unmapped es b n h h1 h2 d d1 d2 :
  0 < segment_size_ es →
  (∀ j, (b ≤ j < b + n)%nat → handle_at h j = None ∧ mapped_mem d !! part es j = None) →
  extended es b (b + n) h h1 d d1 → unmapped es b n h1 h2 d1 d2 →
  (∀ j, handle_at h2 j = handle_at h j) ∧ mapped_mem d2 = mapped_mem d.
Proof.
  intros Hss Hfree (_ & _ & E3 & _ & E5) (_ & U2 & U3 & U4). replace (b + n - b)%nat with n in * by lia. split.
  - intros j. rewrite U2. case_decide as Hj; [by destruct (Hfree j Hj) as [-> _]|]. by apply E3.
  - apply map_eq. intros p. destruct (decide (in_parts es b n p)) as [Hin|Hout].
    + rewrite U3 by done. destruct Hin as (i & Hi & ->). by destruct (Hfree i Hi) as [_ ->].
    + by rewrite U4, E5.
Qed.

(** One more part. *)
Lemma extended_step es b i h h1 d d1 d2 m :
  0 < segment_size_ es → (b ≤ i)%nat → (i < length h1)%nat →
  extended es b i h h1 d d1 → mapped_mem d2 = <[part es i := segment_size_ es]> (mapped_mem d1) →
  extended es b (S i) h (<[i := Some m]> h1) d d2.
Proof.
  intros Hss Hb Hi (X1 & X2 & X3 & X4 & X5) E. split; [by rewrite length_insert|].
  split; [|split; [|split]].
  - intros j Hj. rewrite handle_at_insert by done. case_decide; [done|]. apply X2. lia.
  - intros j Hj. rewrite handle_at_insert by done. case_decide; [lia|]. apply X3. lia.
  - intros p (j & Hj & ->). rewrite E. destruct (decide (j = i)) as [->|Hne]; [apply lookup_insert_eq|].
    rewrite lookup_insert_ne; [apply X4; exists j; split; [lia|done]|]. intros F%part_inj; [lia|done].
  - intros p Hp. rewrite E, lookup_insert_ne.
    + apply X5. intros (j & Hj & ->). apply Hp. exists j. split; [lia|done].
    + intros <-. apply Hp. exists i. split; [lia|done].
Qed.

Definition map_post es b e h0 d0 (ok : bool) (s : ExpandableSegment * D) : Prop :=
  ∃ h' d', s = (set_handles h' es, d') ∧
  if ok then extended es b e h0 h' d0 d'
  else (∀ j, handle_at h' j = handle_at h0 j) ∧ trimmed h' ∧ mapped_mem d' = mapped_mem d0.

(** The failure of the part [i] undoes the parts before it. *)
Lemma map_failure es b i e h h1 h0 d d1 d0 :
  0 < segment_size_ es → (b ≤ i < length h)%nat →
  (∀ j, (b ≤ j ≤ i)%nat → handle_at h0 j = None ∧ mapped_mem d0 !! part es j = None) →
  extended es b i h0 h d0 d →
  length h1 = length h → (∀ j, j ≠ i → handle_at h1 j = handle_at h j) → mapped_mem d1 = mapped_mem d →
  wp (reset_handle i;; unmap_loop b (i - b);; trimHandles;; mret false)
    (map_post es b e h0 d0) (set_handles h1 es, d1).
Proof.
  intros Hss Hi Hfree Hext Hlen1 Hne Ed. pose proof Hext as (X1 & X2 & X3 & X4 & X5).
  apply wp_bind. eapply wp_mono; [apply reset_handle_spec; cbn; lia|].
  intros [] s _ (d3 & -> & Ed3). cbn [handles_ set_handles]. set (h2 := <[i := None]> h1).
  assert (∀ j, handle_at h2 j = handle_at h j) as Hh2.
  { intros j. unfold h2. rewrite handle_at_insert by lia.
    case_decide as Hj; [subst j; rewrite X3 by lia; symmetry; apply Hfree; lia|by apply Hne]. }
  apply wp_bind. eapply wp_mono; [apply unmap_loop_spec; cbn|].
  { done. } { unfold h2. rewrite length_insert. lia. }
  { intros j Hj. rewrite Ed3, Ed. apply X4. exists j. split; [lia|done]. }
  intros [] s _ (h3 & d4 & -> & Hun). cbn [handles_ set_handles] in Hun.
  apply wp_bind, wp_modify, wp_ret. exists (trim h3), d4. split; [done|].
  destruct (extended_unmapped es b (i - b) h0 h2 h3 d0 d3 d4) as [F1 F2].
  - done.
  - intros j Hj. apply Hfree. lia.
  - replace (b + (i - b))%nat with i by lia. unfold extended. setoid_rewrite Hh2. rewrite Ed3, Ed.
    split; [unfold h2; rewrite length_insert; lia|done].
  - exact Hun.
  - split; [|split; [apply trim_trimmed|done]]. intros j. by rewrite trim_at.
Qed.

Lemma map_loop_spec es d b n i h0 d0 :
  0 < segment_size_ es → (b ≤ i)%nat → (i + n ≤ length (handles_ es))%nat →
  (∀ j, (b ≤ j < i + n)%nat → handle_at h0 j = None ∧ mapped_mem d0 !! part es j = None) →
  extended es b i h0 (handles_ es) d0 d →
  wp (map_loop b i n) (map_post es b (i + n) h0 d0) (es, d).
Proof.
  intros Hss. revert es d i Hss. induction n as [|n IH]; intros es d i Hss Hbi Hlen Hfree Hext; cbn [map_loop].
  - apply wp_ret. exists (handles_ es), d. split; [by destruct es|]. by rewrite Nat.add_0_r.
  - assert (handle_at (handles_ es) i = None) as Hi.
    { destruct Hext as (_ & _ & E & _). rewrite E by lia. apply Hfree. lia. }
    assert (handles_ es !! i = Some None) as Hi'.
    { destruct (lookup_lt_is_Some_2 (handles_ es) i ltac:(lia)) as [x Hx]. unfold handle_at in Hi.
      rewrite Hx in *. simpl in Hi. by subst. }
    assert (∀ h1 d2, length h1 = length (handles_ es) →
      (∀ j, j ≠ i → handle_at h1 j = handle_at (handles_ es) j) → mapped_mem d2 = mapped_mem d →
      wp (reset_handle i;; unmap_loop b (i - b);; trimHandles;; mret false)
        (map_post es b (i + S n) h0 d0) (set_handles h1 es, d2)) as Hfail.
    { intros h1 d2 ? ? ?. apply (map_failure es b i _ (handles_ es) h1 h0 d d2); try done; [lia|].
      intros j Hj. apply Hfree. lia. }
    apply wp_bind. unfold handles_at, wp at 1. cbn [fst]. rewrite Hi'.
    apply wp_bind, wp_assert; [done|]. apply wp_bind, wp_reads, wp_bind. cbn [fst].
    unfold device_op, wp at 1. destruct (new_physical_mem (segment_size_ es) d) as [d1 mem] eqn:E1.
    apply new_physical_mapped in E1. apply wp_bind. destruct mem as [m|].
    + apply wp_bind, wp_modify. unfold device_op, wp at 1. cbn [fst snd].
      destruct (map_physical_mem m (ptr_ es + Z.of_nat i * segment_size_ es) (segment_size_ es) d1)
        as [d2 ok] eqn:E2. destruct ok.
      * apply map_physical_true in E2. replace (i + S n)%nat with (S i + n)%nat by lia.
        apply (IH (set_handles (<[i := Some m]> (handles_ es)) es) d2 (S i)); cbn.
        { done. } { lia. } { rewrite length_insert. lia. } { intros j Hj. apply Hfree. lia. }
        apply (extended_step es b i h0 (handles_ es) d0 d1); try done; [lia| |].
        { unfold extended. by rewrite E1. }
        { rewrite E2. unfold part. do 2 f_equal. lia. }
      * apply map_physical_false in E2. apply Hfail; [by rewrite length_insert| |congruence].
        intros j Hj. rewrite handle_at_insert by lia. by rewrite decide_False.
    + destruct es. by apply Hfail.
Qed.

(** A trimmed list is determined by its handles. *)
Lemma trimmed_last h : trimmed h ↔ h = [] ∨ is_Some (handle_at h (length h - 1)).
Proof.
  split.
  - intros E. destruct (decide (h = [])) as [|Hne]; [by left|right].
    destruct (handle_at h (length h - 1)) as [x|] eqn:Ex; [done|exfalso].
    assert (length (trim h) ≤ length h - 1)%nat as Hl.
    { apply trim_length. intros i Hi. destruct (decide (i = length h - 1)%nat) as [->|]; [done|].
      unfold handle_at. by rewrite lookup_ge_None_2 by lia. }
    rewrite E in Hl. destruct h; [done|simpl in *; lia].
  - unfold trimmed. induction h as [|x h IH]; [done|]. intros [|Hl]; [done|].
    assert (trim (x :: h) = match x, trim h with None, [] => [] | _, _ => x :: trim h end) as -> by done.
    destruct h as [|y k].
    + destruct x; [done|by destruct Hl].
    + rewrite IH; [by destruct x|]. right. replace (length (x :: y :: k) - 1)%nat with (S (length (y :: k) - 1)) in Hl by (simpl; lia).
      exact Hl.
Qed.

Lemma trimmed_eq h1 h2 : trimmed h1 → trimmed h2 → (∀ j, handle_at h1 j = handle_at h2 j) → h1 = h2.
Proof.
  intros H1 H2 Heq.
  assert (∀ k1 k2, trimmed k2 → (∀ j, handle_at k1 j = handle_at k2 j) → length k2 ≤ length k1)%nat as Hlen.
  { intros k1 k2 Hk E. apply trimmed_last in Hk as [->|Hk]; [simpl; lia|]. rewrite <- E in Hk.
    apply handle_at_length in Hk. lia. }
  apply (list_eq_same_length _ _ (length h1)); [|done|].
  { pose proof (Hlen h1 h2 H2 Heq). pose proof (Hlen h2 h1 H1 (λ j, eq_sym (Heq j))). lia. }
  intros i x y _ Ex Ey. specialize (Heq i). unfold handle_at in Heq. rewrite Ex, Ey in Heq. done.
Qed.

Lemma segmentRight_spec es q x :
  0 < segment_size_ es → 0 < x ≤ segment_size_ es → segmentRight es (ptr_ es + segment_size_ es * q + x) = q + 1.
Proof.
  intros Hss Hx. unfold segmentRight, numSegments.
  replace (ptr_ es + segment_size_ es * q + x - ptr_ es + segment_size_ es - 1) with
    ((q + 1) * segment_size_ es + (x - 1)) by lia.
  rewrite Z.div_add_l, Z.div_small by lia. lia.
Qed.

Lemma segmentLeft_spec es q x :
  0 < segment_size_ es → 0 ≤ x < segment_size_ es → segmentLeft es (ptr_ es + segment_size_ es * q + x) = q.
Proof.
  intros Hss Hx. unfold segmentLeft.
  replace (ptr_ es + segment_size_ es * q + x - ptr_ es) with (q * segment_size_ es + x) by lia.
  rewrite Z.div_add_l, Z.div_small by lia. lia.
Qed.

(** The invariant after parts were added. *)
Lemma extended_ok es d h h' d' b e :
  es_ok es d → (length (handles_ es) ≤ length h)%nat → (e ≤ length h)%nat → (length h = length (handles_ es) ∨ length h = e) →
  (∀ j, handle_at h j = handle_at (handles_ es) j) → Z.of_nat e ≤ max_handles_ es → (b < e)%nat →
  extended es b e h h' d d' → es_ok (set_handles h' es) d'.
Proof.
  intros [Hss Hp Hfit Htrim Hback] Hl1 Hl2 Hl3 Hh He Hbe (X1 & X2 & X3 & X4 & X5).
  split; cbn; [done|done|rewrite X1; lia| |].
  - apply trimmed_last. right. rewrite X1. destruct (decide (b ≤ length h - 1 < e)%nat); [by apply X2|].
    rewrite X3, Hh by done. destruct Hl3 as [El|El]; [|lia]. rewrite El.
    apply trimmed_last in Htrim as [E|]; [|done]. rewrite E in *. simpl in *. lia.
  - intros i Hi. change (part _ i) with (part es i). destruct (decide (b ≤ i < e)%nat) as [Hin|Hout].
    + destruct (X2 i Hin) as [x ->]. apply X4. exists i. split; [lia|done].
    + rewrite X3, Hh, X5 by (done || (intros (j & Hj & E%part_inj); [lia|done])). by apply Hback.
Qed.

(** Mapping a range of an expandable segment that starts at a part without
    memory is all or nothing.  Either every part the range touches gets memory,
    no other part and no other address of the device changes, and the range
    returned is the one asked for, rounded up to whole parts; or the range
    returned is empty and the segment and the mappings of the device are
    exactly what they were, whatever number of parts had been mapped when the
    device ran out of memory.  No assertion fails and no index is out of
    range. *)
Theorem es_map_all_or_nothing es d b size :
  es_ok es d → 0 < size →
  let range := mkRange (part es b) size in
  let e := Z.to_nat (Z.of_nat b + (size + segment_size_ es - 1) / segment_size_ es) in
  Z.of_nat e ≤ max_handles_ es → (∀ j, (b ≤ j < e)%nat → handle_at (handles_ es) j = None) →
  wp (es_map range) (λ r s, ∃ h' d', s = (set_handles h' es, d') ∧ es_ok (set_handles h' es) d' ∧
    ((r = mkRange (part es b) (segment_size_ es * (Z.of_nat e - Z.of_nat b)) ∧
      size ≤ range_size r < size + segment_size_ es ∧
      (∀ j, is_Some (handle_at h' j) ↔ (b ≤ j < e)%nat ∨ is_Some (handle_at (handles_ es) j)) ∧
      (∀ p, ¬ in_parts es b (e - b) p → mapped_mem d' !! p = mapped_mem d !! p)) ∨
     (r = mkRange (part es b) 0 ∧ h' = handles_ es ∧ mapped_mem d' = mapped_mem d))) (es, d).
Proof.
  intros Hok Hsize range e He Hfree. pose proof Hok as [Hss Hp Hfit Htrim Hback].
  set (ss := segment_size_ es) in *. set (k := (size + ss - 1) / ss) in *.
  destruct (round_up_spec ss size Hss ltac:(lia)) as [_ Hk]. fold k in Hk.
  assert (Z.of_nat e = Z.of_nat b + k) as Ee by (unfold e; nia).
  assert (0 < k) as Hk0 by nia.
  unfold es_map. apply wp_bind, wp_reads. cbn [fst].
  assert (segmentLeft es (range_ptr range) = Z.of_nat b) as ->.
  { cbn. unfold part. rewrite <- (Z.add_0_r (_ + _)). apply segmentLeft_spec; fold ss; lia. }
  assert (segmentRight es (range_ptr range + range_size range) = Z.of_nat e) as ->.
  { cbn. unfold part. replace (ptr_ es + segment_size_ es * Z.of_nat b + size) with
      (ptr_ es + segment_size_ es * (Z.of_nat b + k - 1) + (size - ss * (k - 1))) by (unfold ss; lia).
    rewrite segmentRight_spec by (fold ss; lia). lia. }
  apply wp_bind, wp_assert; [apply Z.eqb_eq; cbn; unfold part; lia|].
  destruct (Z.of_nat b =? Z.of_nat e) eqn:Ebe; bool_simpl; [lia|].
  apply wp_bind, wp_modify. rewrite !Nat2Z.id. cbn [fst snd handles_ set_handles].
  set (h := if decide (length (handles_ es) < e)%nat then resize e None (handles_ es) else handles_ es).
  assert (∀ j, handle_at h j = handle_at (handles_ es) j) as Hh.
  { intros j. unfold h, handle_at. case_decide; [|done].
    destruct (decide (j < length (handles_ es))%nat); [by rewrite lookup_resize by lia|].
    rewrite (lookup_ge_None_2 (handles_ es)) by lia. destruct (decide (j < e)%nat).
    - by rewrite lookup_resize_new by lia.
    - by rewrite lookup_resize_old by lia. }
  assert ((length (handles_ es) ≤ length h)%nat ∧ (e ≤ length h)%nat ∧ (length h = length (handles_ es) ∨ length h = e)) as (L1 & L2 & L3).
  { unfold h. case_decide; rewrite ?length_resize; lia. }
  assert (∀ j, (b ≤ j < e)%nat → handle_at h j = None ∧ mapped_mem d !! part es j = None) as Hnone.
  { intros j Hj. rewrite Hh, Hfree by done. split; [done|]. rewrite Hback by lia. by rewrite Hfree. }
  apply wp_bind. eapply wp_mono.
  { apply (map_loop_spec (set_handles h es) d b (e - b) b h d); cbn; [done|lia|lia| |].
    - intros j Hj. apply Hnone. lia.
    - split; [done|]. split; [lia|]. split; [done|]. split; [|done]. intros p (j & Hj & _). lia. }
  intros ok s _ (h' & d' & -> & Hpost). replace (b + (e - b))%nat with e in Hpost by lia.
  change (set_handles h' (set_handles h es)) with (set_handles h' es).
  destruct ok; apply wp_ret; exists h', d'; split; try done.
  - pose proof (extended_ok es d h h' d' b e Hok L1 L2 L3 Hh He ltac:(lia) Hpost) as Hok'. split; [done|left].
    destruct Hpost as (X1 & X2 & X3 & X4 & X5). split; [done|]. split; [cbn; fold ss; nia|]. split; [|done].
    intros j. destruct (decide (b ≤ j < e)%nat) as [Hin|Hout].
    + split; [by left|]. intros _. by apply X2.
    + rewrite X3, Hh by done. split; [by right|]. by intros [|].
  - destruct Hpost as (E1 & E2 & E3).
    assert (h' = handles_ es) as -> by (apply trimmed_eq; [done|done|]; intros j; by rewrite E1).
    assert (set_handles (handles_ es) es = es) as -> by (by destruct es).
    split; [|right; split; [|done]].
    + split; try done. intros i Hi. rewrite E3. by apply Hback.
    + unfold rangeFromHandles, part. f_equal. lia.
Qed.

(** [unmapHandles] on parts that have memory. *)
Lemma unmapHandles_spec es d b e :
  es_ok es d → is_Some (es_queue es) → (b ≤ e)%nat → Z.of_nat e ≤ max_handles_ es →
  (∀ j, (b ≤ j < e)%nat → is_Some (handle_at (handles_ es) j)) →
  wp (unmapHandles (Z.of_nat b) (Z.of_nat e)) (λ _ s, ∃ h' d', s = (set_handles h' es, d') ∧
    es_ok (set_handles h' es) d' ∧ (length h' ≤ length (handles_ es))%nat ∧
    (∀ j, handle_at h' j = if decide (b ≤ j < e)%nat then None else handle_at (handles_ es) j) ∧
    (∀ p, in_parts es b (e - b) p → mapped_mem d' !! p = None) ∧
    (∀ p, ¬ in_parts es b (e - b) p → mapped_mem d' !! p = mapped_mem d !! p)) (es, d).
Proof.
  intros [Hss Hp Hfit Htrim Hback] Hq Hbe He Hall. unfold unmapHandles.
  apply wp_bind, wp_reads, wp_bind, wp_assert; [by apply bool_decide_eq_true|]. rewrite !Nat2Z.id.
  assert (b = e ∨ (e ≤ length (handles_ es))%nat) as Hlen.
  { destruct (decide (b = e)); [by left|right]. pose proof (handle_at_length _ _ (Hall (e - 1)%nat ltac:(lia))). lia. }
  assert (wp (unmap_loop b (e - b)) (λ _ s, ∃ h' d', s = (set_handles h' es, d') ∧
    unmapped es b (e - b) (handles_ es) h' d d') (es, d)) as Hloop.
  { destruct Hlen as [->|Hlen].
    - rewrite Nat.sub_diag. cbn [unmap_loop]. apply wp_ret. exists (handles_ es), d. split; [by destruct es|].
      repeat split; [intros i; by rewrite decide_False by lia|intros p (i & Hi & _); lia].
    - apply unmap_loop_spec; [done|lia|]. intros i Hi. rewrite Hback by lia.
      by destruct (Hall i ltac:(lia)) as [x ->]. }
  apply wp_bind. eapply wp_mono; [exact Hloop|].
  intros [] s _ (h' & d' & -> & Hl & Hh & Hin & Hout). replace (b + (e - b))%nat with e in Hh by lia.
  apply wp_modify. exists (trim h'), d'. split; [done|].
  assert (∀ j, handle_at (trim h') j = if decide (b ≤ j < e)%nat then None else handle_at (handles_ es) j) as Ht
    by (intros j; by rewrite trim_at).
  assert (length (trim h') ≤ length (handles_ es))%nat as Hlt.
  { apply trim_length. intros i Hi. rewrite Hh. case_decide; [done|]. unfold handle_at.
    by rewrite lookup_ge_None_2. }
  split; [|done]. split; cbn; [done|done|lia|apply trim_trimmed|].
  intros i Hi. change (part _ i) with (part es i). rewrite Ht. case_decide as Hd.
  - apply Hin. exists i. split; [lia|done].
  - rewrite Hout; [by apply Hback|]. intros (j & Hj & E%part_inj); [lia|done].
Qed.

Lemma round_down_spec es p : 0 < segment_size_ es →
  part es 0 ≤ p → ptr_ es + segment_size_ es * segmentLeft es p ≤ p < ptr_ es + segment_size_ es * (segmentLeft es p + 1) ∧
  0 ≤ segmentLeft es p.
Proof.
  unfold part, segmentLeft. intros Hss Hp. pose proof (Z.div_mod (p - ptr_ es) (segment_size_ es) ltac:(lia)).
  pose proof (Z.mod_pos_bound (p - ptr_ es) (segment_size_ es) Hss).
  split; [lia|]. apply Z.div_pos; lia.
Qed.

Lemma segmentRight_bounds es p : 0 < segment_size_ es → part es 0 ≤ p →
  p ≤ ptr_ es + segment_size_ es * segmentRight es p < p + segment_size_ es ∧ 0 ≤ segmentRight es p.
Proof.
  unfold part, segmentRight, numSegments. intros Hss Hp.
  destruct (round_up_spec (segment_size_ es) (p - ptr_ es) Hss ltac:(lia)) as [_ Hb].
  split; [lia|]. apply Z.div_pos; lia.
Qed.

(** Unmapping a range releases exactly the parts that lie in it entirely:
    the range returned is inside the one asked for and leaves less than a part
    of it on either side, its parts lose their memory, and nothing else changes;
    when no part lies in the range nothing changes and the range returned is
    empty. *)
Theorem es_unmap_whole_parts es d p size :
  es_ok es d → is_Some (es_queue es) → part es 0 ≤ p → 0 ≤ size →
  let b := Z.to_nat (segmentRight es p) in
  let e := Z.to_nat (segmentLeft es (p + size)) in
  Z.of_nat e ≤ max_handles_ es → (∀ j, (b ≤ j < e)%nat → is_Some (handle_at (handles_ es) j)) →
  wp (es_unmap (mkRange p size)) (λ r s, ∃ h' d', s = (set_handles h' es, d') ∧ es_ok (set_handles h' es) d' ∧
    if decide (b < e)%nat then
      p ≤ range_ptr r < p + segment_size_ es ∧
      range_ptr r + range_size r ≤ p + size < range_ptr r + range_size r + segment_size_ es ∧ 0 < range_size r ∧
      (∀ j, is_Some (handle_at h' j) ↔ is_Some (handle_at (handles_ es) j) ∧ ¬ (b ≤ j < e)%nat) ∧
      (∀ j, (b ≤ j < e)%nat → mapped_mem d' !! part es j = None) ∧
      (∀ q, ¬ in_parts es b (e - b) q → mapped_mem d' !! q = mapped_mem d !! q)
    else r = mkRange p 0 ∧ h' = handles_ es ∧ d' = d) (es, d).
Proof.
  intros Hok Hq Hp Hsize b e He Hall. pose proof Hok as [Hss _ _ _ _].
  destruct (segmentRight_bounds es p Hss Hp) as [Hb Hb0].
  destruct (round_down_spec es (p + size) Hss ltac:(lia)) as [Hle Hle0].
  unfold es_unmap. apply wp_bind, wp_reads. cbn [fst range_ptr range_size].
  replace (segmentRight es p) with (Z.of_nat b) in * by lia.
  replace (segmentLeft es (p + size)) with (Z.of_nat e) in * by lia.
  destruct (Z.of_nat e <=? Z.of_nat b) eqn:Ebe; bool_simpl.
  - apply wp_ret. exists (handles_ es), d. assert (set_handles (handles_ es) es = es) as -> by (by destruct es).
    split; [done|]. split; [done|]. by rewrite decide_False by lia.
  - apply wp_bind. eapply wp_mono; [apply (unmapHandles_spec es d b e); done || lia|].
    intros [] s _ (h' & d' & -> & Hok' & _ & Hh & Hin & Hout). apply wp_ret. exists h', d'.
    split; [done|]. split; [done|]. rewrite decide_True by lia. cbn.
    split; [lia|]. split; [lia|]. split; [nia|]. split; [|split; [|done]].
    + intros j. rewrite Hh. case_decide; [|tauto]. split; [by intros []|tauto].
    + intros j Hj. apply Hin. exists j. split; [lia|done].
Qed.

(** ** The destructor. *)

(** Between two iterations of [forEachAllocatedRange (unmapHandles)]: the parts
    before [i] are released, but for a run of parts from [start] that goes on. *)
Definition released es (h0 : list (option Z)) d0 (start i : nat) (s : ExpandableSegment * D) : Prop :=
  ∃ h d, s = (set_handles h es, d) ∧ es_ok (set_handles h es) d ∧ (length h ≤ length h0)%nat ∧
  ((i < length h0)%nat → length h = length h0) ∧
  (∀ j, (i ≤ j)%nat → handle_at h j = handle_at h0 j) ∧
  (∀ q, ¬ in_parts es 0 (length h0) q → mapped_mem d !! q = mapped_mem d0 !! q) ∧
  ((∀ j, (j < i)%nat → handle_at h j = None) ∨
   ((start < i)%nat ∧ (∀ j, (start ≤ j ≤ i)%nat → is_Some (handle_at h j)) ∧ (∀ j, (j < start)%nat → handle_at h j = None))).

Lemma handles_at_spec es d i Q :
  (i < length (handles_ es))%nat → Q (handle_at (handles_ es) i) (es, d) → wp (handles_at i) Q (es, d).
Proof.
  intros Hi HQ. unfold wp, handles_at. cbn. destruct (lookup_lt_is_Some_2 _ _ Hi) as [x Hx].
  unfold handle_at in HQ. by rewrite Hx in *.
Qed.

(** The test whether a run begins at [i], and the run up to [i]. *)
Lemma run_begins es d start i Q :
  let h := handles_ es in
  (i < length h)%nat → is_Some (handle_at h i) →
  (∀ j, (j < i)%nat → handle_at h j = None) ∨
    ((start < i)%nat ∧ (∀ j, (start ≤ j ≤ i)%nat → is_Some (handle_at h j)) ∧ (∀ j, (j < start)%nat → handle_at h j = None)) →
  (∀ begins : bool, let st := if begins then i else start in (st ≤ i)%nat →
     (∀ j, (st ≤ j ≤ i)%nat → is_Some (handle_at h j)) → (∀ j, (j < st)%nat → handle_at h j = None) → Q begins (es, d)) →
  wp (if decide (i = 0%nat) then mret true
      else p ← handles_at (i - 1); mret (bool_decide (p = None))) Q (es, d).
Proof.
  intros h Hi Hsome Hrun HQ. destruct (decide (i = 0%nat)) as [->|Hne].
  - apply wp_ret. apply (HQ true); [lia| |intros; lia]. intros j Hj. by replace j with 0%nat by lia.
  - apply wp_bind, handles_at_spec; [fold h; lia|]. apply wp_ret. fold h. destruct Hrun as [Hnone|(Hst & H1 & H2)].
    + rewrite Hnone by lia. apply (HQ true); [lia| |done]. intros j Hj. by replace j with i by lia.
    + destruct (H1 (i - 1)%nat ltac:(lia)) as [x ->]. apply (HQ false); [lia|done|done].
Qed.

Lemma each_range_spec es h0 d0 n start i s :
  trimmed h0 → Z.of_nat (length h0) ≤ max_handles_ es → is_Some (es_queue es) → (i + n)%nat = length h0 →
  released es h0 d0 start i s →
  wp (each_range_loop (λ b e, unmapHandles (Z.of_nat b) (Z.of_nat e)) start i n)
    (λ _ s', ∃ start', released es h0 d0 start' (length h0) s') s.
Proof.
  intros Htr Hmax Hq. revert start i s. induction n as [|n IH]; intros start i s Hin Hrel; cbn [each_range_loop].
  { apply wp_ret. exists start. by replace (length h0) with i by lia. }
  destruct Hrel as (h & d & -> & Hok & Hle & Hlen & Hrest & Hout & Hrun). specialize (Hlen ltac:(lia)).
  apply wp_bind, handles_at_spec; [cbn; lia|]. cbn [handles_ set_handles].
  destruct (handle_at h i) as [m|] eqn:Ei.
  - apply wp_bind. rewrite decide_False by done.
    apply (run_begins (set_handles h es) d start i); [cbn; lia|cbn; by rewrite Ei|done|].
    intros begins st Hst H1 H2. cbn in H1, H2. fold st.
    apply wp_bind, handles_at_spec; [cbn; lia|]. cbn [handles_ set_handles]. rewrite Ei.
    apply wp_bind, wp_reads. cbn [fst handles_ set_handles]. rewrite decide_False by done.
    (* the run ends here, or it goes on *)
    assert ((i + 1 = length h)%nat ∨ handle_at h (i + 1) = None →
      wp (unmapHandles (Z.of_nat st) (Z.of_nat (i + 1))) (λ _, released es h0 d0 st (S i)) (set_handles h es, d)) as Hend.
    { intros Hcase. eapply wp_mono; [apply (unmapHandles_spec (set_handles h es) d st (i + 1)); try done|].
      { lia. } { cbn. lia. } { intros j Hj. apply H1. lia. }
      intros [] s _ (h' & d' & -> & Hok' & Hl' & Hh' & Hi' & Ho'). cbn in Hl', Hh'. exists h', d'.
      split; [done|]. split; [done|]. split; [lia|]. split; [|split; [|split; [|left]]].
      - intros Hlt. assert (is_Some (handle_at h' (length h0 - 1))) as Hs.
        { rewrite Hh', decide_False, Hrest by lia. apply trimmed_last in Htr as [->|]; [simpl in *; lia|done]. }
        apply handle_at_length in Hs. lia.
      - intros j Hj. rewrite Hh', decide_False by lia. apply Hrest. lia.
      - intros q Hqo. rewrite Ho'; [by apply Hout|]. intros (j & Hj & ->). apply Hqo. exists j. split; [lia|done].
      - intros j Hj. rewrite Hh'. case_decide; [done|]. apply H2. lia. }
    destruct (decide (i + 1 = length h)%nat) as [El|El].
    + apply wp_bind, wp_ret, wp_bind. eapply wp_mono; [by apply Hend; left|]. intros [] s _ Hrel.
      apply (IH st (S i) s); [lia|done].
    + apply wp_bind, wp_bind, handles_at_spec; [cbn; lia|]. apply wp_ret. cbn [handles_ set_handles].
      destruct (handle_at h (i + 1)) as [m'|] eqn:Ei1; apply wp_bind.
      * apply wp_ret. apply (IH st (S i)); [lia|]. exists h, d. split; [done|]. split; [done|]. split; [done|].
        split; [done|]. split; [intros; apply Hrest; lia|]. split; [done|right]. split; [lia|]. split; [|done].
        intros j Hj. destruct (decide (j = S i)) as [->|]; [|apply H1; lia].
        rewrite Nat.add_1_r in Ei1. by rewrite Ei1.
      * rewrite bool_decide_eq_true_2 by done. eapply wp_mono; [by apply Hend; right|]. intros [] s _ Hrel.
        apply (IH st (S i) s); [lia|done].
  - apply wp_bind. rewrite decide_True by done. apply wp_ret. apply wp_bind, handles_at_spec; [cbn; lia|].
    cbn [handles_ set_handles]. rewrite Ei. apply wp_bind, wp_reads. rewrite decide_True by done.
    apply wp_bind, wp_ret, wp_bind, wp_ret. apply (IH start (S i)); [lia|]. exists h, d.
    split; [done|]. split; [done|]. split; [done|]. split; [done|]. split; [intros; apply Hrest; lia|]. split; [done|].
    left. intros j Hj. destruct (decide (j = i)) as [->|]; [done|].
    destruct Hrun as [Hn|(Hs & H1 & _)]; [apply Hn; lia|]. destruct (H1 i ltac:(lia)). congruence.
Qed.

(** Destroying an expandable segment releases all of its physical memory,
    although the loop over the mapped ranges reads the vector of handles while
    [unmapHandles] clears and shortens it: no part of the segment is mapped
    afterwards, no other address is affected, and no assertion or bounds check
    fails. *)
Theorem es_destructor_unmaps_all es d :
  es_ok es d → is_Some (es_queue es) →
  wp deleteExpandableSegment (λ _ s, ∃ d', s = (set_handles [] es, d') ∧
    (∀ i, Z.of_nat i < max_handles_ es → mapped_mem d' !! part es i = None) ∧
    (∀ p, ¬ in_parts es 0 (length (handles_ es)) p → mapped_mem d' !! p = mapped_mem d !! p)) (es, d).
Proof.
  intros Hok Hq. pose proof Hok as [Hss Hp Hfit Htrim Hback].
  unfold deleteExpandableSegment, forEachAllocatedRange.
  apply wp_bind, wp_bind, wp_reads. cbn [fst]. eapply wp_mono.
  { apply (each_range_spec es (handles_ es) d _ 0 0); try done.
    exists (handles_ es), d. assert (set_handles (handles_ es) es = es) as -> by (by destruct es).
    do 6 (split; [done|]). left. intros; lia. }
  intros [] s _ (start & h & d' & -> & Hok' & Hle & _ & Hrest & Hout & Hrun).
  assert (∀ j, handle_at h j = None) as Hnone.
  { intros j. destruct (decide (length (handles_ es) ≤ j)%nat) as [Hj|Hj].
    - rewrite Hrest by done. unfold handle_at. by rewrite lookup_ge_None_2.
    - destruct Hrun as [Hn|(Hs & H1 & _)]; [apply Hn; lia|].
      pose proof (handle_at_length _ _ (H1 (length (handles_ es)) ltac:(lia))). lia. }
  assert (h = []) as ->.
  { apply trimmed_eq; [apply Hok'|done|]. intros j. by rewrite Hnone. }
  apply wp_bind, wp_reads. cbn [fst]. unfold wp, device_do. exists (free_virtual_mem (ptr_ es) (segment_size_ es * max_handles_ es) d').
  split; [done|]. split.
  - intros i Hi. rewrite free_virtual_mapped. exact (es_backed _ _ Hok' i Hi).
  - intros p Hp'. rewrite free_virtual_mapped. by apply Hout.
Qed.
End Theorems.

(** ** A segment of eight parts of 256 bytes, on a device with two pages. *)
Definition small_device : Simple.device := Simple.mkDevice 2 4096 ∅ ∅ 0.
Definition small_segment : ExpandableSegment := mkES 0 (Some 7) 1024 256 8 [].

Lemma small_segment_ok : es_ok small_segment small_device.
Proof. split; [done..|]. intros i _. apply lookup_empty. Qed.

(** The same segment with memory in parts 0 and 2. *)
Definition used_device : Simple.device := Simple.mkDevice 2 4096 ∅ {[1024 := 256; 1536 := 256]} 2.
Definition used_segment : ExpandableSegment := mkES 0 (Some 7) 1024 256 8 [Some 0; None; Some 1].

Lemma used_segment_ok : es_ok used_segment used_device.
Proof.
  split; [done..|]. intros i Hi. cbn in Hi.
  do 8 (destruct i as [|i]; [by vm_compute|]). lia.
Qed.

(** Three parts do not fit into two pages; one part does. *)
Lemma es_map_all_or_nothing_witness :
  wp (es_map (mkRange 1280 600)) (λ r s, range_size r = 768 ∨ range_size r = 0 ∧ s.1 = small_segment)
    (small_segment, small_device) ∧
  fst (es_map (mkRange 1280 600) (small_segment, small_device)) = (small_segment, Simple.mkDevice 2 4096 ∅ ∅ 2).
Proof.
  split; [|vm_compute; reflexivity].
  pose proof (es_map_all_or_nothing small_segment small_device 1 600 small_segment_ok ltac:(lia)) as H.
  cbv zeta in H. specialize (H ltac:(vm_compute; discriminate) ltac:(intros; reflexivity)).
  eapply wp_mono; [exact H|]. intros r s _ (h' & d' & E & _ & [(E1 & _)|(E1 & Eh & _)]); subst r.
  - left. vm_compute. reflexivity.
  - right. split; [reflexivity|]. rewrite E, Eh. reflexivity.
Defined.

Lemma es_unmap_whole_parts_witness :
  wp (es_unmap (mkRange 1500 400)) (λ r _, 1500 ≤ range_ptr r < 1756) (used_segment, used_device).
Proof.
  pose proof (es_unmap_whole_parts used_segment used_device 1500 400 used_segment_ok ltac:(by eexists)
    ltac:(vm_compute; discriminate) ltac:(lia)) as H.
  cbv zeta in H. specialize (H ltac:(vm_compute; discriminate)).
  assert (Hall : ∀ j : nat,
    (Z.to_nat (segmentRight used_segment 1500) ≤ j < Z.to_nat (segmentLeft used_segment (1500 + 400)))%nat →
    is_Some (handle_at (handles_ used_segment) j)).
  { change (Z.to_nat (segmentRight used_segment 1500)) with 2%nat.
    change (Z.to_nat (segmentLeft used_segment (1500 + 400))) with 3%nat.
    intros j Hj. assert (j = 2%nat) as -> by lia. by eexists. }
  specialize (H Hall). eapply wp_mono; [exact H|]. intros r s _ (h' & d' & _ & _ & H1).
  rewrite decide_True in H1; [|vm_compute; lia]. change (segment_size_ used_segment) with 256 in H1. lia.
Defined.

Lemma es_destructor_unmaps_all_witness :
  wp deleteExpandableSegment (λ _ s, handles_ s.1 = []) (used_segment, used_device).
Proof.
  pose proof (es_destructor_unmaps_all used_segment used_device used_segment_ok ltac:(by eexists)) as H.
  eapply wp_mono; [exact H|]. intros u s _ (d' & E & _). rewrite E. reflexivity.
Defined.
