(* ===== verification/XPUBlocks.v ===== *)
(** * The XPU caching allocator: data, store and pools.

    The data of [DeviceCachingAllocator] in c10/xpu/XPUCachingAllocator.cpp:
    blocks, block pools, private pools and the allocator itself.  Blocks and
    expandable segments live in a store and are referred to by an identifier,
    which stands for the pointer of the source: [new] takes the next
    identifier, [delete] removes the object, and the use of a pointer to a
    deleted object is undefined behaviour.  What is only recorded for
    diagnosis, the stack contexts, time stamps and trace callbacks, is left
    out; the trace itself is kept. *)

From S2P Require Import Prelude CachingAllocator DeviceRuntime ExpandableSegment.

(** ** Blocks. *)
Definition loc : Type := positive.
Definition MempoolId_t : Type := Z * Z.

(** A stream and the address of its queue. *)
Record XPUStream := mkStream { stream_id : Z; stream_queue : Z }.

#[export] Instance XPUStream_eq_dec : EqDecision XPUStream.
Proof. solve_decision. Defined.

(** A block pool, by its constant members [is_small] and
    [owner_PrivatePool]. *)
Record PoolRef := mkPool { owner_PrivatePool : option MempoolId_t; is_small : bool }.

#[export] Instance PoolRef_eq_dec : EqDecision PoolRef.
Proof. solve_decision. Defined.

Record Block := mkBlock {
  bdevice : Z;
  bqueue : Z;
  stream_uses : list XPUStream;
  bsize : Z;
  requested_size : Z;
  bpool : PoolRef;
  bptr : Z;
  allocated : bool;
  mapped : bool;
  prev : option loc;
  next : option loc;
  event_count : Z;
  expandable_segment : option loc
}.

Definition set_stream_uses (x : list XPUStream) (b : Block) : Block :=
  mkBlock (bdevice b) (bqueue b) x (bsize b) (requested_size b) (bpool b) (bptr b) (allocated b)
    (mapped b) (prev b) (next b) (event_count b) (expandable_segment b).
Definition set_bsize (x : Z) (b : Block) : Block :=
  mkBlock (bdevice b) (bqueue b) (stream_uses b) x (requested_size b) (bpool b) (bptr b) (allocated
    b) (mapped b) (prev b) (next b) (event_count b) (expandable_segment b).
Definition set_requested_size (x : Z) (b : Block) : Block :=
  mkBlock (bdevice b) (bqueue b) (stream_uses b) (bsize b) x (bpool b) (bptr b) (allocated b)
    (mapped b) (prev b) (next b) (event_count b) (expandable_segment b).
Definition set_bptr (x : Z) (b : Block) : Block :=
  mkBlock (bdevice b) (bqueue b) (stream_uses b) (bsize b) (requested_size b) (bpool b) x (allocated
    b) (mapped b) (prev b) (next b) (event_count b) (expandable_segment b).
Definition set_allocated (x : bool) (b : Block) : Block :=
  mkBlock (bdevice b) (bqueue b) (stream_uses b) (bsize b) (requested_size b) (bpool b) (bptr b) x
    (mapped b) (prev b) (next b) (event_count b) (expandable_segment b).
Definition set_mapped (x : bool) (b : Block) : Block :=
  mkBlock (bdevice b) (bqueue b) (stream_uses b) (bsize b) (requested_size b) (bpool b) (bptr b)
    (allocated b) x (prev b) (next b) (event_count b) (expandable_segment b).
Definition set_prev (x : option loc) (b : Block) : Block :=
  mkBlock (bdevice b) (bqueue b) (stream_uses b) (bsize b) (requested_size b) (bpool b) (bptr b)
    (allocated b) (mapped b) x (next b) (event_count b) (expandable_segment b).
Definition set_next (x : option loc) (b : Block) : Block :=
  mkBlock (bdevice b) (bqueue b) (stream_uses b) (bsize b) (requested_size b) (bpool b) (bptr b)
    (allocated b) (mapped b) (prev b) x (event_count b) (expandable_segment b).
Definition set_event_count (x : Z) (b : Block) : Block :=
  mkBlock (bdevice b) (bqueue b) (stream_uses b) (bsize b) (requested_size b) (bpool b) (bptr b)
    (allocated b) (mapped b) (prev b) (next b) x (expandable_segment b).
Definition set_expandable_segment (x : option loc) (b : Block) : Block :=
  mkBlock (bdevice b) (bqueue b) (stream_uses b) (bsize b) (requested_size b) (bpool b) (bptr b)
    (allocated b) (mapped b) (prev b) (next b) (event_count b) x.


(** The constructor; the search key of [AllocParams] is such a block too. *)
Definition new_Block (device queue size : Z) (pool : PoolRef) (ptr : Z) : Block :=
  mkBlock device queue [] size 0 pool ptr false true None None 0 None.

Definition is_split (b : Block) : bool := bool_decide (is_Some (prev b)) || bool_decide (is_Some (next b)).

Definition BlockComparatorSize (a b : Block) : bool :=
  if negb (bqueue a =? bqueue b) then bqueue a <? bqueue b
  else if negb (bsize a =? bsize b) then bsize a <? bsize b
  else bptr a <? bptr b.

Definition BlockComparatorAddress (a b : Block) : bool :=
  if negb (bqueue a =? bqueue b) then bqueue a <? bqueue b
  else bptr a <? bptr b.

(** ** Pools. *)
Record BlockPool := mkBlockPool { blocks : list loc; unmapped : list loc }.

Definition empty_pool : BlockPool := mkBlockPool [] [].

(** [allocator_] is the pluggable allocator of the pool, if it has one. *)
Record PrivatePool := mkPrivatePool {
  use_count : Z;
  allocation_count : Z;
  allocator_ : option Z;
  pp_large_blocks : BlockPool;
  pp_small_blocks : BlockPool
}.

Definition new_PrivatePool (allocator : option Z) : PrivatePool := mkPrivatePool 1 0 allocator empty_pool empty_pool.

Definition owner_MempoolId (r : PoolRef) : MempoolId_t :=
  match owner_PrivatePool r with Some i => i | None => (0, 0) end.

Definition get_stat_types_for_pool (r : PoolRef) : StatTypes := λ t,
  match t with AGGREGATE => true | SMALL_POOL => is_small r | LARGE_POOL => negb (is_small r) end.

(** ** Traces. *)
Inductive Action :=
  | ALLOC | FREE_REQUESTED | FREE_COMPLETED | SEGMENT_ALLOC | SEGMENT_FREE
  | SEGMENT_MAP | SEGMENT_UNMAP | SNAPSHOT | OOM.

#[export] Instance Action_eq_dec : EqDecision Action.
Proof. solve_decision. Defined.

Record TraceEntry := mkTrace {
  te_action : Action;
  te_device : Z;
  te_addr : Z;
  te_size : Z;
  te_queue : Z;
  te_mempool : MempoolId_t
}.

(** ** The allocator of a device. *)
Section State.
Context {D : Type}.

Record DeviceCachingAllocator := mkDCA {
  stats : DeviceStats;
  large_blocks : BlockPool;
  small_blocks : BlockPool;
  active_blocks : gset loc;
  xpu_events : list (XPUStream * list (Z * loc));
  device_index : Z;
  allowed_memory_maximum : Z;
  set_fraction : bool;
  expandable_segments : list loc;
  record_history : bool;
  alloc_buffer : RingBuffer TraceEntry;
  skip_actions_list : list Action;
  captures_underway : list (MempoolId_t * (Z → bool));
  graph_pools : gmap MempoolId_t PrivatePool;
  graph_pools_freeable : list MempoolId_t;
  heap : gmap loc Block;
  next_block : loc;
  segments : gmap loc ExpandableSegment;
  next_segment : loc;
  next_event : Z;
  dev : D
}.

Definition set_stats (x : DeviceStats) (s : DeviceCachingAllocator) : DeviceCachingAllocator :=
  mkDCA x (large_blocks s) (small_blocks s) (active_blocks s) (xpu_events s) (device_index s)
    (allowed_memory_maximum s) (set_fraction s) (expandable_segments s) (record_history s)
    (alloc_buffer s) (skip_actions_list s) (captures_underway s) (graph_pools s)
    (graph_pools_freeable s) (heap s) (next_block s) (segments s) (next_segment s) (next_event s)
    (dev s).
Definition set_large_blocks (x : BlockPool) (s : DeviceCachingAllocator) : DeviceCachingAllocator :=
  mkDCA (stats s) x (small_blocks s) (active_blocks s) (xpu_events s) (device_index s)
    (allowed_memory_maximum s) (set_fraction s) (expandable_segments s) (record_history s)
    (alloc_buffer s) (skip_actions_list s) (captures_underway s) (graph_pools s)
    (graph_pools_freeable s) (heap s) (next_block s) (segments s) (next_segment s) (next_event s)
    (dev s).
Definition set_small_blocks (x : BlockPool) (s : DeviceCachingAllocator) : DeviceCachingAllocator :=
  mkDCA (stats s) (large_blocks s) x (active_blocks s) (xpu_events s) (device_index s)
    (allowed_memory_maximum s) (set_fraction s) (expandable_segments s) (record_history s)
    (alloc_buffer s) (skip_actions_list s) (captures_underway s) (graph_pools s)
    (graph_pools_freeable s) (heap s) (next_block s) (segments s) (next_segment s) (next_event s)
    (dev s).
Definition set_active_blocks (x : gset loc) (s : DeviceCachingAllocator) : DeviceCachingAllocator :=
  mkDCA (stats s) (large_blocks s) (small_blocks s) x (xpu_events s) (device_index s)
    (allowed_memory_maximum s) (set_fraction s) (expandable_segments s) (record_history s)
    (alloc_buffer s) (skip_actions_list s) (captures_underway s) (graph_pools s)
    (graph_pools_freeable s) (heap s) (next_block s) (segments s) (next_segment s) (next_event s)
    (dev s).
Definition set_xpu_events (x : list (XPUStream * list (Z * loc))) (s : DeviceCachingAllocator) : DeviceCachingAllocator :=
  mkDCA (stats s) (large_blocks s) (small_blocks s) (active_blocks s) x (device_index s)
    (allowed_memory_maximum s) (set_fraction s) (expandable_segments s) (record_history s)
    (alloc_buffer s) (skip_actions_list s) (captures_underway s) (graph_pools s)
    (graph_pools_freeable s) (heap s) (next_block s) (segments s) (next_segment s) (next_event s)
    (dev s).
Definition set_allowed_memory_maximum (x : Z) (s : DeviceCachingAllocator) : DeviceCachingAllocator :=
  mkDCA (stats s) (large_blocks s) (small_blocks s) (active_blocks s) (xpu_events s) (device_index
    s) x (set_fraction s) (expandable_segments s) (record_history s) (alloc_buffer s)
    (skip_actions_list s) (captures_underway s) (graph_pools s) (graph_pools_freeable s) (heap s)
    (next_block s) (segments s) (next_segment s) (next_event s) (dev s).
Definition assign_set_fraction (x : bool) (s : DeviceCachingAllocator) : DeviceCachingAllocator :=
  mkDCA (stats s) (large_blocks s) (small_blocks s) (active_blocks s) (xpu_events s) (device_index
    s) (allowed_memory_maximum s) x (expandable_segments s) (record_history s) (alloc_buffer s)
    (skip_actions_list s) (captures_underway s) (graph_pools s) (graph_pools_freeable s) (heap s)
    (next_block s) (segments s) (next_segment s) (next_event s) (dev s).
Definition set_expandable_segments (x : list loc) (s : DeviceCachingAllocator) : DeviceCachingAllocator :=
  mkDCA (stats s) (large_blocks s) (small_blocks s) (active_blocks s) (xpu_events s) (device_index
    s) (allowed_memory_maximum s) (set_fraction s) x (record_history s) (alloc_buffer s)
    (skip_actions_list s) (captures_underway s) (graph_pools s) (graph_pools_freeable s) (heap s)
    (next_block s) (segments s) (next_segment s) (next_event s) (dev s).
Definition set_record_history (x : bool) (s : DeviceCachingAllocator) : DeviceCachingAllocator :=
  mkDCA (stats s) (large_blocks s) (small_blocks s) (active_blocks s) (xpu_events s) (device_index
    s) (allowed_memory_maximum s) (set_fraction s) (expandable_segments s) x (alloc_buffer s)
    (skip_actions_list s) (captures_underway s) (graph_pools s) (graph_pools_freeable s) (heap s)
    (next_block s) (segments s) (next_segment s) (next_event s) (dev s).
Definition set_alloc_buffer (x : RingBuffer TraceEntry) (s : DeviceCachingAllocator) : DeviceCachingAllocator :=
  mkDCA (stats s) (large_blocks s) (small_blocks s) (active_blocks s) (xpu_events s) (device_index
    s) (allowed_memory_maximum s) (set_fraction s) (expandable_segments s) (record_history s) x
    (skip_actions_list s) (captures_underway s) (graph_pools s) (graph_pools_freeable s) (heap s)
    (next_block s) (segments s) (next_segment s) (next_event s) (dev s).
Definition set_skip_actions_list (x : list Action) (s : DeviceCachingAllocator) : DeviceCachingAllocator :=
  mkDCA (stats s) (large_blocks s) (small_blocks s) (active_blocks s) (xpu_events s) (device_index
    s) (allowed_memory_maximum s) (set_fraction s) (expandable_segments s) (record_history s)
    (alloc_buffer s) x (captures_underway s) (graph_pools s) (graph_pools_freeable s) (heap s)
    (next_block s) (segments s) (next_segment s) (next_event s) (dev s).
Definition set_captures_underway (x : list (MempoolId_t * (Z → bool))) (s : DeviceCachingAllocator) : DeviceCachingAllocator :=
  mkDCA (stats s) (large_blocks s) (small_blocks s) (active_blocks s) (xpu_events s) (device_index
    s) (allowed_memory_maximum s) (set_fraction s) (expandable_segments s) (record_history s)
    (alloc_buffer s) (skip_actions_list s) x (graph_pools s) (graph_pools_freeable s) (heap s)
    (next_block s) (segments s) (next_segment s) (next_event s) (dev s).
Definition set_graph_pools (x : gmap MempoolId_t PrivatePool) (s : DeviceCachingAllocator) : DeviceCachingAllocator :=
  mkDCA (stats s) (large_blocks s) (small_blocks s) (active_blocks s) (xpu_events s) (device_index
    s) (allowed_memory_maximum s) (set_fraction s) (expandable_segments s) (record_history s)
    (alloc_buffer s) (skip_actions_list s) (captures_underway s) x (graph_pools_freeable s) (heap s)
    (next_block s) (segments s) (next_segment s) (next_event s) (dev s).
Definition set_graph_pools_freeable (x : list MempoolId_t) (s : DeviceCachingAllocator) : DeviceCachingAllocator :=
  mkDCA (stats s) (large_blocks s) (small_blocks s) (active_blocks s) (xpu_events s) (device_index
    s) (allowed_memory_maximum s) (set_fraction s) (expandable_segments s) (record_history s)
    (alloc_buffer s) (skip_actions_list s) (captures_underway s) (graph_pools s) x (heap s)
    (next_block s) (segments s) (next_segment s) (next_event s) (dev s).
Definition set_heap (x : gmap loc Block) (s : DeviceCachingAllocator) : DeviceCachingAllocator :=
  mkDCA (stats s) (large_blocks s) (small_blocks s) (active_blocks s) (xpu_events s) (device_index
    s) (allowed_memory_maximum s) (set_fraction s) (expandable_segments s) (record_history s)
    (alloc_buffer s) (skip_actions_list s) (captures_underway s) (graph_pools s)
    (graph_pools_freeable s) x (next_block s) (segments s) (next_segment s) (next_event s) (dev s).
Definition set_next_block (x : loc) (s : DeviceCachingAllocator) : DeviceCachingAllocator :=
  mkDCA (stats s) (large_blocks s) (small_blocks s) (active_blocks s) (xpu_events s) (device_index
    s) (allowed_memory_maximum s) (set_fraction s) (expandable_segments s) (record_history s)
    (alloc_buffer s) (skip_actions_list s) (captures_underway s) (graph_pools s)
    (graph_pools_freeable s) (heap s) x (segments s) (next_segment s) (next_event s) (dev s).
Definition set_segments (x : gmap loc ExpandableSegment) (s : DeviceCachingAllocator) : DeviceCachingAllocator :=
  mkDCA (stats s) (large_blocks s) (small_blocks s) (active_blocks s) (xpu_events s) (device_index
    s) (allowed_memory_maximum s) (set_fraction s) (expandable_segments s) (record_history s)
    (alloc_buffer s) (skip_actions_list s) (captures_underway s) (graph_pools s)
    (graph_pools_freeable s) (heap s) (next_block s) x (next_segment s) (next_event s) (dev s).
Definition set_next_segment (x : loc) (s : DeviceCachingAllocator) : DeviceCachingAllocator :=
  mkDCA (stats s) (large_blocks s) (small_blocks s) (active_blocks s) (xpu_events s) (device_index
    s) (allowed_memory_maximum s) (set_fraction s) (expandable_segments s) (record_history s)
    (alloc_buffer s) (skip_actions_list s) (captures_underway s) (graph_pools s)
    (graph_pools_freeable s) (heap s) (next_block s) (segments s) x (next_event s) (dev s).
Definition set_next_event (x : Z) (s : DeviceCachingAllocator) : DeviceCachingAllocator :=
  mkDCA (stats s) (large_blocks s) (small_blocks s) (active_blocks s) (xpu_events s) (device_index
    s) (allowed_memory_maximum s) (set_fraction s) (expandable_segments s) (record_history s)
    (alloc_buffer s) (skip_actions_list s) (captures_underway s) (graph_pools s)
    (graph_pools_freeable s) (heap s) (next_block s) (segments s) (next_segment s) x (dev s).
Definition set_dev (x : D) (s : DeviceCachingAllocator) : DeviceCachingAllocator :=
  mkDCA (stats s) (large_blocks s) (small_blocks s) (active_blocks s) (xpu_events s) (device_index
    s) (allowed_memory_maximum s) (set_fraction s) (expandable_segments s) (record_history s)
    (alloc_buffer s) (skip_actions_list s) (captures_underway s) (graph_pools s)
    (graph_pools_freeable s) (heap s) (next_block s) (segments s) (next_segment s) (next_event s) x.


(** The constructor. *)
Definition new_DeviceCachingAllocator (index : Z) (d : D) : DeviceCachingAllocator :=
  mkDCA stats_0 empty_pool empty_pool ∅ [] index 0 false [] false ring_0 [] [] ∅ [] ∅ 1%positive ∅ 1%positive 0 d.

Local Abbreviation op := (method DeviceCachingAllocator).

(** ** The store of blocks. *)
Definition deref (i : loc) : op Block := λ s,
  match heap s !! i with
  | Some b => (s, Ok b)
  | None => (s, Throw (UndefinedBehaviour "use of a deleted block"))
  end.

(** The block behind a pointer that may be null. *)
Definition deref_ptr (p : option loc) : op Block :=
  match p with
  | Some i => deref i
  | None => lift (Throw (UndefinedBehaviour "use of a null pointer"))
  end.

Definition assign (i : loc) (f : Block → Block) : op unit :=
  b ← deref i;
  modify (λ s, set_heap (<[i := f b]> (heap s)) s).

(** Assignment through a pointer guarded by a test for null. *)
Definition assign_if (p : option loc) (f : Block → Block) : op unit :=
  match p with Some i => assign i f | None => mret tt end.

Definition new_block (b : Block) : op loc := λ s,
  let i := next_block s in
  (set_next_block (Pos.succ i) (set_heap (<[i := b]> (heap s)) s), Ok i).

Definition delete_block (i : loc) : op unit :=
  deref i;;
  modify (λ s, set_heap (delete i (heap s)) s).

(** ** The store of pools. *)
Definition lookup_pool (s : DeviceCachingAllocator) (r : PoolRef) : option BlockPool :=
  match owner_PrivatePool r with
  | None => Some (if is_small r then small_blocks s else large_blocks s)
  | Some i => (λ pp, if is_small r then pp_small_blocks pp else pp_large_blocks pp) <$> graph_pools s !! i
  end.

Definition update_private (f : BlockPool → BlockPool) (small : bool) (pp : PrivatePool) : PrivatePool :=
  if small
  then mkPrivatePool (use_count pp) (allocation_count pp) (allocator_ pp) (pp_large_blocks pp) (f (pp_small_blocks pp))
  else mkPrivatePool (use_count pp) (allocation_count pp) (allocator_ pp) (f (pp_large_blocks pp)) (pp_small_blocks pp).

Definition update_pool (r : PoolRef) (f : BlockPool → BlockPool) (s : DeviceCachingAllocator) : DeviceCachingAllocator :=
  match owner_PrivatePool r with
  | None => if is_small r then set_small_blocks (f (small_blocks s)) s else set_large_blocks (f (large_blocks s)) s
  | Some i => set_graph_pools (alter (update_private f (is_small r)) i (graph_pools s)) s
  end.

Definition deref_pool (r : PoolRef) : op BlockPool := λ s,
  match lookup_pool s r with
  | Some bp => (s, Ok bp)
  | None => (s, Throw (UndefinedBehaviour "use of a deleted pool"))
  end.

(** [owner_PrivatePool], dereferenced. *)
Definition deref_private (i : MempoolId_t) : op PrivatePool := λ s,
  match graph_pools s !! i with
  | Some pp => (s, Ok pp)
  | None => (s, Throw (UndefinedBehaviour "use of a deleted private pool"))
  end.

Definition set_counts (uses allocations : Z) (pp : PrivatePool) : PrivatePool :=
  mkPrivatePool uses allocations (allocator_ pp) (pp_large_blocks pp) (pp_small_blocks pp).

(** The order of the elements of a pool. *)
Definition id_less (cmp : Block → Block → bool) (h : gmap loc Block) (i j : loc) : bool :=
  match h !! i, h !! j with Some a, Some b => cmp a b | _, _ => false end.

Definition key_less (cmp : Block → Block → bool) (h : gmap loc Block) (key : Block) (i : loc) : bool :=
  match h !! i with Some a => cmp a key | None => false end.

Definition set_blocks (f : list loc → list loc) (bp : BlockPool) : BlockPool := mkBlockPool (f (blocks bp)) (unmapped bp).
Definition set_unmapped (f : list loc → list loc) (bp : BlockPool) : BlockPool := mkBlockPool (blocks bp) (f (unmapped bp)).

(** [pool.blocks.insert], [pool.unmapped.insert] and [erase]. *)
Definition insert_free (r : PoolRef) (i : loc) : op unit :=
  deref_pool r;;
  modify (λ s, update_pool r (set_blocks (set_insert (id_less BlockComparatorSize (heap s)) i)) s).
Definition insert_unmapped (r : PoolRef) (i : loc) : op unit :=
  deref_pool r;;
  modify (λ s, update_pool r (set_unmapped (set_insert (id_less BlockComparatorAddress (heap s)) i)) s).
Definition erase_free (r : PoolRef) (i : loc) : op unit :=
  deref_pool r;;
  modify (λ s, update_pool r (set_blocks (set_erase (id_less BlockComparatorSize (heap s)) i)) s).
Definition erase_unmapped (r : PoolRef) (i : loc) : op unit :=
  deref_pool r;;
  modify (λ s, update_pool r (set_unmapped (set_erase (id_less BlockComparatorAddress (heap s)) i)) s).

(** [pool.blocks.erase(it)], by the iterator. *)
Definition erase_at (r : PoolRef) (i : loc) : op unit :=
  deref_pool r;;
  modify (λ s, update_pool r (set_blocks (filter (λ j, j ≠ i))) s).

(** Inserts the block between two existing blocks. *)
Definition splice (this : loc) (before after : option loc) : op unit :=
  match before with
  | Some i =>
      b ← deref i;
      lift (TORCH_INTERNAL_ASSERT (bool_decide (next b = after)) "before->next == after");;
      assign i (set_next (Some this))
  | None => mret tt
  end;;
  assign this (set_prev before);;
  match after with
  | Some i =>
      b ← deref i;
      lift (TORCH_INTERNAL_ASSERT (bool_decide (prev b = before)) "after->prev == before");;
      assign i (set_prev (Some this))
  | None => mret tt
  end;;
  assign this (set_next after).

(** ** Statistics and traces. *)
Definition for_stats (r : PoolRef) (f : StatType → DeviceStats → DeviceStats) : op unit :=
  modify (λ s, set_stats (for_each_selected_stat_type (get_stat_types_for_pool r) f (stats s)) s).

Definition record_trace (action : Action) (addr size queue device : Z) (mempool_id : MempoolId_t) : op unit := λ s,
  if negb (record_history s) then (s, Ok tt)
  else if decide (action ∈ skip_actions_list s) then (s, Ok tt)
  else let '(ring, r) := insertEntries (mkTrace action device addr size queue mempool_id) (alloc_buffer s) in
       (set_alloc_buffer ring s, r).
End State.
Arguments DeviceCachingAllocator D : clear implicits.
