(* ===== verification/XPUAllocator.v ===== *)
(** * The XPU caching allocator: operations.

    The methods of [DeviceCachingAllocator] in c10/xpu/XPUCachingAllocator.cpp,
    on the state of XPUBlocks.  The configuration of the allocator and the
    device runtime are parameters. *)

From S2P Require Import Prelude CachingAllocator DeviceRuntime ExpandableSegment XPUBlocks.

(** What the methods read of [AcceleratorAllocatorConfig], and the size of the
    virtual memory an expandable segment reserves. *)
Record AllocatorConfig := mkConfig {
  large_segment_size : Z;
  use_expandable_segments : bool;
  virtual_memory_size : Z
}.

Record AllocParams := mkParams {
  p_device : Z;
  p_queue : Z;
  p_size : Z;
  p_pool : PoolRef;
  p_alloc_size : Z
}.

Definition search_key (p : AllocParams) : Block := new_Block (p_device p) (p_queue p) (p_size p) (p_pool p) 0.

Section Operations.
Context {D : Type} `{DeviceRuntime D} (cfg : AllocatorConfig).

Local Abbreviation state := (DeviceCachingAllocator D).
Local Abbreviation op := (method (DeviceCachingAllocator D)).

Definition run_device {A} (f : D → D * A) : op A := λ s, let '(d, a) := f (dev s) in (set_dev d s, Ok a).
Definition do_device (f : D → D) : op unit := modify (λ s, set_dev (f (dev s)) s).

(** ** Device memory. *)
Definition allocPrimitive (size : Z) (p : AllocParams) : op (option Z) :=
  allocator ← match owner_PrivatePool (p_pool p) with
              | Some i => pp ← deref_private i; mret (allocator_ pp)
              | None => mret None
              end;
  match allocator with
  | Some a => run_device (raw_alloc a size)
  | None => run_device (aligned_alloc_device size)
  end.

Definition deletePrimitive (ptr : Z) (pool : PoolRef) : op unit :=
  allocator ← match owner_PrivatePool pool with
              | Some i => pp ← deref_private i; mret (allocator_ pp)
              | None => mret None
              end;
  match allocator with
  | Some a => do_device (raw_delete a ptr)
  | None => do_device (sycl_free ptr)
  end.

(** [allocation_count] of the private pool that owns the pool, if one does. *)
Definition count_allocation (r : PoolRef) : op unit :=
  match owner_PrivatePool r with
  | Some i =>
      pp ← deref_private i;
      modify (λ s, set_graph_pools (<[i := set_counts (use_count pp) (allocation_count pp + 1) pp]> (graph_pools s)) s)
  | None => mret tt
  end.
Definition uncount_allocation (r : PoolRef) : op unit :=
  match owner_PrivatePool r with
  | Some i =>
      pp ← deref_private i;
      lift (TORCH_INTERNAL_ASSERT (0 <? allocation_count pp) "allocation_count > 0");;
      modify (λ s, set_graph_pools (<[i := set_counts (use_count pp) (allocation_count pp - 1) pp]> (graph_pools s)) s)
  | None => mret tt
  end.

(** ** Merging and freeing blocks. *)
Definition is_nil {A} (l : list A) : bool := match l with [] => true | _ => false end.

Definition try_merge_blocks (dst : loc) (src : option loc) (pool : PoolRef) : op Z :=
  match src with
  | None => mret 0
  | Some src =>
      s ← deref src;
      d ← deref dst;
      if allocated s || (0 <? event_count s) || negb (is_nil (stream_uses s)) || negb (Bool.eqb (mapped d) (mapped s))
      then mret 0
      else
        lift (TORCH_INTERNAL_ASSERT (is_split d && is_split s) "dst->is_split() && src->is_split()");;
        (if decide (prev d = Some src) then
           assign dst (set_bptr (bptr s));;
           assign dst (set_prev (prev s));;
           assign_if (prev s) (set_next (Some dst))
         else
           assign dst (set_next (next s));;
           assign_if (next s) (set_prev (Some dst)));;
        let subsumed_size := bsize s in
        assign dst (λ b, set_bsize (bsize b + subsumed_size) b);;
        (if mapped s then erase_free pool src else erase_unmapped pool src);;
        delete_block src;;
        mret subsumed_size
  end.

Definition free_block (block : loc) : op unit :=
  b ← deref block;
  lift (TORCH_INTERNAL_ASSERT (negb (allocated b) && (event_count b =? 0) && is_nil (stream_uses b))
    "!block->allocated && block->event_count == 0 && block->stream_uses.empty()");;
  record_trace FREE_COMPLETED (bptr b) (requested_size b) (bqueue b) (bdevice b) (owner_MempoolId (bpool b));;
  let original_block_size := bsize b in
  let requested := requested_size b in
  let pool := bpool b in
  subsumed_prev ← try_merge_blocks block (prev b) pool;
  subsumed_next ← try_merge_blocks block (next b) pool;
  let merged x := if 0 <? x then 1 else 0 in
  let net_blocks := - merged subsumed_prev - merged subsumed_next in
  let net_size := - subsumed_prev - subsumed_next in
  modify (λ s, set_active_blocks (active_blocks s ∖ {[block]}) s);;
  insert_free pool block;;
  b ← deref block;
  let net_blocks := if is_split b then net_blocks + 1 else net_blocks in
  let net_size := if is_split b then net_size + bsize b else net_size in
  for_stats pool (λ t s,
    let s :=
      if decide (expandable_segment b = None) then
        let s := if 0 <? net_blocks then update_stat inactive_split t (increase net_blocks) s
                 else if net_blocks <? 0 then update_stat inactive_split t (decrease (- net_blocks)) s else s in
        if 0 <? net_size then update_stat inactive_split_bytes t (increase net_size) s
        else if net_size <? 0 then update_stat inactive_split_bytes t (decrease (- net_size)) s else s
      else s in
    update_stat requested_bytes t (decrease requested)
      (update_stat active_bytes t (decrease original_block_size) (update_stat active t (decrease 1) s))).

(** ** Events. *)
Definition decrement_event (block : loc) : op unit :=
  assign block (λ b, set_event_count (event_count b - 1) b);;
  b ← deref block;
  if event_count b =? 0 then free_block block else mret tt.

(** The events at the front of a queue that are complete, according to
    [complete]; [done] and [rest] are the other queues.  Returns the queue that
    is left. *)
Fixpoint process_queue (complete : Z → bool) (before : list (XPUStream * list (Z * loc))) (stream : XPUStream)
    (q : list (Z * loc)) (rest : list (XPUStream * list (Z * loc))) : op (list (Z * loc)) :=
  match q with
  | [] => mret []
  | (event, block) :: r =>
      if negb (complete event) then mret q
      else
        decrement_event block;;
        modify (set_xpu_events (before ++ (stream, r) :: rest));;
        process_queue complete before stream r rest
  end.

Fixpoint process_queues (complete : Z → bool) (before rest : list (XPUStream * list (Z * loc))) : op unit :=
  match rest with
  | [] => mret tt
  | (stream, q) :: rest =>
      q' ← process_queue complete before stream q rest;
      if is_nil q' then
        modify (set_xpu_events (before ++ rest));;
        process_queues complete before rest
      else process_queues complete (before ++ [(stream, q')]) rest
  end.

Definition process_events (complete : Z → bool) : op unit :=
  events ← reads xpu_events;
  process_queues complete [] events.

Fixpoint synchronize_all (pool : option MempoolId_t) (events : list (Z * loc)) : op unit :=
  match events with
  | [] => mret tt
  | (event, block) :: r =>
      b ← deref block;
      (if bool_decide (is_Some pool) && bool_decide (owner_PrivatePool (bpool b) ≠ pool) then mret tt
       else decrement_event block);;
      synchronize_all pool r
  end.

Definition synchronize_and_free_events (pool : option MempoolId_t) : op unit :=
  events ← reads xpu_events;
  synchronize_all pool (concat (snd <$> events));;
  modify (set_xpu_events []).

Fixpoint add_event (stream : XPUStream) (e : Z * loc) (l : list (XPUStream * list (Z * loc)))
  : list (XPUStream * list (Z * loc)) :=
  match l with
  | [] => [(stream, [e])]
  | (s, q) :: r => if decide (s = stream) then (s, q ++ [e]) :: r else (s, q) :: add_event stream e r
  end.

(** One barrier per stream; the event it returns is the next one. *)
Fixpoint submit_barriers (block : loc) (streams : list XPUStream) : op unit :=
  match streams with
  | [] => mret tt
  | stream :: r =>
      assign block (λ b, set_event_count (event_count b + 1) b);;
      modify (λ s, set_next_event (next_event s + 1)
        (set_xpu_events (add_event stream (next_event s, block) (xpu_events s)) s));;
      submit_barriers block r
  end.

Definition insert_events (block : loc) : op unit :=
  b ← deref block;
  assign block (set_stream_uses []);;
  submit_barriers block (stream_uses b).

(** ** Pools and the search for a block. *)
Definition get_pool (size queue : Z) : op PoolRef := λ s,
  match List.find (λ entry : MempoolId_t * (Z → bool), snd entry queue) (captures_underway s) with
  | Some (i, _) =>
      if decide (is_Some (graph_pools s !! i)) then (s, Ok (mkPool (Some i) (size <=? kSmallSize)))
      else (s, Throw (InternalAssert "it1 != graph_pools.end()"))
  | None => (s, Ok (mkPool None (size <=? kSmallSize)))
  end.

(** A method of an expandable segment. *)
Definition on_segment {A} (e : option loc) (m : method (ExpandableSegment * D) A) : op A := λ s,
  match e with
  | None => (s, Throw (UndefinedBehaviour "use of a null segment"))
  | Some e =>
      match segments s !! e with
      | None => (s, Throw (UndefinedBehaviour "use of a deleted segment"))
      | Some es => let '(es', d, r) := m (es, dev s) in (set_dev d (set_segments (<[e := es']> (segments s)) s), r)
      end
  end.

Definition allocatable (p : option loc) : op bool :=
  match p with
  | None => mret false
  | Some i => b ← deref i; mret (negb (allocated b) && (event_count b =? 0) && is_nil (stream_uses b))
  end.

(** The blocks of a chain are different, so that the number of blocks is fuel
    enough. *)
Fixpoint has_available_address_space (fuel : nat) (size bytes : Z) (p : option loc) : op bool :=
  match fuel with
  | O => mret (size <=? bytes)
  | S fuel =>
      if size <=? bytes then mret true
      else
        ok ← allocatable p;
        if (ok : bool) then b ← deref_ptr p; has_available_address_space fuel size (bytes + bsize b) (next b)
        else mret false
  end.

Fixpoint find_in_unmapped (queue size : Z) (it : list loc) : op (option loc) :=
  match it with
  | [] => mret None
  | c :: it =>
      b ← deref c;
      if negb (bqueue b =? queue) then mret None
      else
        before ← allocatable (prev b);
        let c := match prev b with Some p => if (before : bool) then p else c | None => c end in
        n ← reads (λ s, Pos.to_nat (next_block s));
        found ← has_available_address_space n size 0 (Some c);
        if (found : bool) then mret (Some c) else find_in_unmapped queue size it
  end.

Definition find_expandable_block (device queue : Z) (pool : PoolRef) (size : Z) : op loc :=
  let key := new_Block device queue 0 pool 0 in
  bp ← deref_pool pool;
  h ← reads heap;
  found ← find_in_unmapped queue size (lower_bound (key_less BlockComparatorAddress h key) (unmapped bp));
  match found with
  | Some c => mret c
  | None =>
      let segment_size := if is_small pool then kSmallBuffer else large_segment_size cfg in
      es ← run_device (newExpandableSegment device (Some queue) segment_size (virtual_memory_size cfg));
      e ← reads next_segment;
      modify (λ s, set_next_segment (Pos.succ e) (set_segments (<[e := es]> (segments s))
        (set_expandable_segments (expandable_segments s ++ [e]) s)));;
      candidate ← new_block (set_expandable_segment (Some e) (set_mapped false
        (new_Block device queue (es_size es) pool (ptr_ es))));
      insert_unmapped pool candidate;;
      mret candidate
  end.

Definition map_block (to_map : loc) (size : Z) : op bool :=
  b ← deref to_map;
  lift (TORCH_INTERNAL_ASSERT (negb (mapped b) && (size <=? bsize b)) "!to_map->mapped && size <= to_map->size");;
  mapped_range ← on_segment (expandable_segment b) (es_map (mkRange (bptr b) size));
  if range_size mapped_range =? 0 then mret false
  else
    lift (TORCH_INTERNAL_ASSERT ((range_ptr mapped_range =? bptr b) && (size <=? range_size mapped_range))
      "mapped_range.ptr == to_map->ptr && mapped_range.size >= size");;
    let pool := bpool b in
    erase_unmapped pool to_map;;
    assign to_map (set_mapped true);;
    (if range_size mapped_range <? bsize b then
       remaining ← new_block (set_expandable_segment (expandable_segment b) (set_mapped false
         (new_Block (bdevice b) (bqueue b) (bsize b - range_size mapped_range) pool (bptr b + range_size mapped_range))));
       splice remaining (Some to_map) (next b);;
       insert_unmapped pool remaining;;
       assign to_map (set_bsize (range_size mapped_range))
     else mret tt);;
    b ← deref to_map;
    try_merge_blocks to_map (prev b) pool;;
    b ← deref to_map;
    try_merge_blocks to_map (next b) pool;;
    insert_free pool to_map;;
    for_stats pool (λ t, update_stat reserved_bytes t (increase (range_size mapped_range)));;
    record_trace SEGMENT_MAP (range_ptr mapped_range) (range_size mapped_range) (bqueue b) (bdevice b)
      (owner_MempoolId pool);;
    mret true.

(** Every iteration but the last moves to the next block, so that the number
    of blocks is fuel enough. *)
Fixpoint map_more (fuel : nat) (candidate : loc) (size : Z) : op (option loc) :=
  match fuel with
  | O => mret None
  | S fuel =>
      c ← deref candidate;
      if bsize c <? size then
        n ← deref_ptr (next c);
        match next c with
        | None => mret None
        | Some new_candidate =>
            ok ← map_block new_candidate (Z.min (size - bsize c) (bsize n));
            if (ok : bool) then map_more fuel new_candidate size else mret None
        end
      else mret (Some candidate)
  end.

Definition try_allocate_expandable_block (device queue : Z) (pool : PoolRef) (size : Z) : op (option loc) :=
  candidate ← find_expandable_block device queue pool size;
  b ← deref candidate;
  ok ← (if mapped b then mret true else map_block candidate (Z.min (bsize b) size));
  if negb ok then mret None
  else
    b ← deref candidate;
    lift (TORCH_INTERNAL_ASSERT (mapped b) "candidate->mapped");;
    n ← reads (λ s, Pos.to_nat (next_block s));
    found ← map_more (S n) candidate size;
    match found with
    | None => mret None
    | Some c => erase_free pool c;; mret (Some c)
    end.

(** The block and an unmapped block after it. *)
Definition expandable_size (i : loc) : op Z :=
  b ← deref i;
  match next b with
  | None => mret (bsize b)
  | Some n => nb ← deref n; mret (bsize b + (if mapped nb then 0 else bsize nb))
  end.

Fixpoint best_expandable (queue : Z) (it : loc) (after : list loc) : op loc :=
  match after with
  | [] => mret it
  | n :: after =>
      b ← deref it;
      nb ← deref n;
      s ← expandable_size n;
      t ← expandable_size it;
      if bool_decide (is_Some (expandable_segment b)) && (bqueue nb =? queue) && (s <? t)
      then best_expandable queue n after else mret it
  end.

(** The first block after an expandable one that is not expandable or of
    another queue. *)
Fixpoint skip_expandable (queue : Z) (after : list loc) : op (option loc) :=
  match after with
  | [] => mret None
  | n :: after =>
      b ← deref n;
      if bool_decide (is_Some (expandable_segment b)) && (bqueue b =? queue) then skip_expandable queue after
      else if bqueue b =? queue then mret (Some n) else mret None
  end.

Definition get_free_block (p : AllocParams) : op (option loc) :=
  bp ← deref_pool (p_pool p);
  h ← reads heap;
  match lower_bound (key_less BlockComparatorSize h (search_key p)) (blocks bp) with
  | [] => mret None
  | it :: after =>
      b ← deref it;
      if negb (bqueue b =? p_queue p) then mret None
      else
        found ← (if decide (expandable_segment b = None) then mret (Some it)
                 else if use_expandable_segments cfg then i ← best_expandable (p_queue p) it after; mret (Some i)
                 else skip_expandable (p_queue p) after);
        match found with
        | None => mret None
        | Some i => erase_at (p_pool p) i;; mret (Some i)
        end
  end.

Definition alloc_block (p : AllocParams) (isRetry : bool) : op (option loc) :=
  let size := p_alloc_size p in
  (if isRetry then modify (λ s, set_stats (mkStats (arrays (stats s)) (num_alloc_retries (stats s) + 1)) s)
   else mret tt);;
  pp ← match owner_PrivatePool (p_pool p) with Some i => pp ← deref_private i; mret (Some pp) | None => mret None end;
  let active_pool := match pp with Some pp => bool_decide (is_Some (allocator_ pp)) | None => false end in
  s ← reads (λ s, s);
  if set_fraction s && (allowed_memory_maximum s <? size_t (current (arrays (stats s) reserved_bytes AGGREGATE) + size))
  then mret None
  else if use_expandable_segments cfg then
    lift (TORCH_CHECK (negb active_pool) "torch.xpu.MemPool doesn't currently support expandable_segments.");;
    block ← try_allocate_expandable_block (p_device p) (p_queue p) (p_pool p) (p_size p);
    (if bool_decide (is_Some block) then count_allocation (p_pool p) else mret tt);;
    mret block
  else
    ptr ← allocPrimitive size p;
    match ptr with
    | None => mret None
    | Some ptr =>
        count_allocation (p_pool p);;
        block ← new_block (new_Block (p_device p) (p_queue p) size (p_pool p) ptr);
        for_stats (p_pool p) (λ t s,
          update_stat reserved_bytes t (increase size) (update_stat segment t (increase 1) s));;
        lift (TORCH_INTERNAL_ASSERT (negb (ptr =? 0)) "p.block != nullptr && p.block->ptr != nullptr");;
        record_trace SEGMENT_ALLOC ptr size (p_queue p) (p_device p) (owner_MempoolId (p_pool p));;
        mret (Some block)
    end.

(** ** Releasing cached blocks. *)
Fixpoint remove_first (e : loc) (l : list loc) : list loc :=
  match l with [] => [] | x :: r => if decide (x = e) then r else x :: remove_first e r end.

Definition release_expandable_segment (block : loc) : op unit :=
  b ← deref block;
  size ← on_segment (expandable_segment b) (get_es es_size);
  lift (TORCH_INTERNAL_ASSERT (bsize b =? size) "block disagrees with segment");;
  lift (TORCH_INTERNAL_ASSERT (negb (mapped b)) "!block->mapped");;
  match expandable_segment b with
  | None => lift (Throw (UndefinedBehaviour "use of a null segment"))
  | Some e =>
      l ← reads expandable_segments;
      lift (TORCH_INTERNAL_ASSERT (bool_decide (e ∈ l)) "it != expandable_segments.end()");;
      modify (λ s, set_expandable_segments (remove_first e l) s);;
      erase_unmapped (bpool b) block;;
      on_segment (Some e) deleteExpandableSegment;;
      modify (λ s, set_segments (delete e (segments s)) s);;
      delete_block block
  end.

Definition release_block (block : loc) : op unit :=
  b ← deref block;
  lift (TORCH_INTERNAL_ASSERT (bool_decide (expandable_segment b = None)) "!block->expandable_segment");;
  record_trace SEGMENT_FREE (bptr b) (bsize b) (bqueue b) (bdevice b) (owner_MempoolId (bpool b));;
  let pool := bpool b in
  deletePrimitive (bptr b) pool;;
  uncount_allocation pool;;
  erase_free pool block;;
  for_stats pool (λ t s,
    update_stat reserved_bytes t (decrease (bsize b)) (update_stat segment t (decrease 1) s));;
  delete_block block.

Definition unmap_block (block : loc) : op unit :=
  b ← deref block;
  unmapped ← on_segment (expandable_segment b) (es_unmap (mkRange (bptr b) (bsize b)));
  if range_size unmapped =? 0 then mret tt
  else
    let pool := bpool b in
    erase_free pool block;;
    let before_size := range_ptr unmapped - bptr b in
    (if 0 <? before_size then
       before_free ← new_block (set_expandable_segment (expandable_segment b)
         (new_Block (bdevice b) (bqueue b) before_size pool (bptr b)));
       splice before_free (prev b) (Some block);;
       insert_free pool before_free
     else mret tt);;
    let after_size := bsize b - (before_size + range_size unmapped) in
    (if 0 <? after_size then
       after_free ← new_block (set_expandable_segment (expandable_segment b)
         (new_Block (bdevice b) (bqueue b) after_size pool (range_ptr unmapped + range_size unmapped)));
       splice after_free (Some block) (next b);;
       insert_free pool after_free
     else mret tt);;
    assign block (set_bptr (range_ptr unmapped));;
    assign block (set_bsize (range_size unmapped));;
    assign block (set_mapped false);;
    b ← deref block;
    try_merge_blocks block (prev b) pool;;
    b ← deref block;
    try_merge_blocks block (next b) pool;;
    insert_unmapped pool block;;
    for_stats pool (λ t, update_stat reserved_bytes t (decrease (range_size unmapped)));;
    uncount_allocation pool;;
    record_trace SEGMENT_UNMAP (range_ptr unmapped) (range_size unmapped) (bqueue b) (bdevice b) (owner_MempoolId pool).

(** The loop over the pool; [it] has moved on before a block is released, so
    that the elements seen are those there were at the start.  Returns
    [to_unmap]. *)
Fixpoint release_unsplit (it : list loc) : op (list loc) :=
  match it with
  | [] => mret []
  | block :: it =>
      b ← deref block;
      if decide (expandable_segment b = None) then
        (if decide (prev b = None ∧ next b = None) then release_block block else mret tt);;
        release_unsplit it
      else
        to_unmap ← release_unsplit it;
        mret (block :: to_unmap)
  end.

Fixpoint unmap_blocks (to_unmap : list loc) : op unit :=
  match to_unmap with
  | [] => mret tt
  | block :: r =>
      unmap_block block;;
      b ← deref block;
      (if decide (prev b = None ∧ next b = None) then release_expandable_segment block else mret tt);;
      unmap_blocks r
  end.

Definition release_blocks (pool : PoolRef) : op unit :=
  bp ← deref_pool pool;
  to_unmap ← release_unsplit (blocks bp);
  unmap_blocks to_unmap.

(** One turn of the loop over [graph_pools_freeable], in two parts: waiting for
    the device, and releasing the pool. *)
Definition release_sync (mempool_id : MempoolId_t) (streams_synced : bool) (i : MempoolId_t) : op unit :=
  (if negb (bool_decide (mempool_id = (0, 0))) then synchronize_and_free_events (Some i) else mret tt);;
  if streams_synced then mret tt else do_device syncStreamsOnDevice.

Definition release_private (i : MempoolId_t) : op unit :=
  pp ← deref_private i;
  lift (TORCH_INTERNAL_ASSERT (use_count pp =? 0) "it->second->use_count == 0");;
  release_blocks (mkPool (Some i) true);;
  release_blocks (mkPool (Some i) false);;
  pp ← deref_private i;
  if allocation_count pp =? 0 then
    modify (λ s, set_graph_pools_freeable (filter (λ j, j ≠ i) (graph_pools_freeable s))
      (set_graph_pools (delete i (graph_pools s)) s))
  else mret tt.

Fixpoint release_freeable (mempool_id : MempoolId_t) (streams_synced : bool) (it : list MempoolId_t) : op unit :=
  match it with
  | [] => mret tt
  | i :: it =>
      if negb (bool_decide (mempool_id = (0, 0))) && negb (bool_decide (i = mempool_id))
      then release_freeable mempool_id streams_synced it
      else
        release_sync mempool_id streams_synced i;;
        release_private i;;
        release_freeable mempool_id true it
  end.

Definition release_cached_blocks (mempool_id : MempoolId_t) : op unit :=
  captures ← reads captures_underway;
  let whole := bool_decide (mempool_id = (0, 0)) && is_nil captures in
  (if whole then
     synchronize_and_free_events None;;
     do_device syncStreamsOnDevice;;
     release_blocks (mkPool None false);;
     release_blocks (mkPool None true)
   else mret tt);;
  freeable ← reads graph_pools_freeable;
  release_freeable mempool_id whole freeable.

(** ** Allocation. *)
Definition should_split (block : loc) (size : Z) : op bool :=
  b ← deref block;
  let remaining := size_t (bsize b - size) in
  mret (if is_small (bpool b) || use_expandable_segments cfg then kMinBlockSize <=? remaining else kSmallSize <? remaining).

(** The part of [alloc_found_block] that splits the block [found], whose
    contents are [f]: the first part of it becomes a block of its own. *)
Definition split_found (p : AllocParams) (found : loc) (f : Block) (already_split : bool) : op loc :=
  let size := p_size p in
  let pool := p_pool p in
  let remaining := found in
  block ← new_block (set_expandable_segment (expandable_segment f)
    (new_Block (p_device p) (p_queue p) size pool (bptr f)));
  assign block (set_prev (prev f));;
  assign_if (prev f) (set_next (Some block));;
  assign block (set_next (Some remaining));;
  assign remaining (set_prev (Some block));;
  assign remaining (λ b, set_bptr (bptr b + size) b);;
  assign remaining (λ b, set_bsize (size_t (bsize b - size)) b);;
  insert_free pool remaining;;
  r ← deref remaining;
  (if already_split && bool_decide (expandable_segment f = None) then
     for_stats pool (λ t, update_stat inactive_split_bytes t (decrease size))
   else if bool_decide (expandable_segment f = None) then
     for_stats pool (λ t s,
       update_stat inactive_split_bytes t (increase (bsize r)) (update_stat inactive_split t (increase 1) s))
   else mret tt);;
  mret block.

Definition alloc_found_block (p : AllocParams) (found : loc) (orig_size : Z) (split_remainder : bool) : op loc :=
  let pool := p_pool p in
  f ← deref found;
  lift (TORCH_INTERNAL_ASSERT (negb (bptr f =? 0)) "params.block != nullptr && params.block->ptr != nullptr");;
  let already_split := is_split f in
  block ←
    (if (split_remainder : bool) then split_found p found f already_split
     else
       (if already_split && bool_decide (expandable_segment f = None) then
          for_stats pool (λ t s,
            update_stat inactive_split_bytes t (decrease (bsize f)) (update_stat inactive_split t (decrease 1) s))
        else mret tt);;
       mret found);
  assign block (set_allocated true);;
  assign block (set_requested_size orig_size);;
  b ← deref block;
  record_trace ALLOC (bptr b) orig_size (bqueue b) (bdevice b) (owner_MempoolId (bpool b));;
  modify (λ s, set_active_blocks ({[block]} ∪ active_blocks s) s);;
  for_stats pool (λ t s,
    update_stat requested_bytes t (increase (requested_size b))
      (update_stat active_bytes t (increase (bsize b))
        (update_stat allocated_bytes t (increase (bsize b))
          (update_stat active t (increase 1) (update_stat allocation t (increase 1) s)))));;
  mret block.

(** The search of [malloc] for a block. *)
Definition find_block (params : AllocParams) : op (option loc) :=
  found ← get_free_block params;
  match found with
  | Some i => mret (Some i)
  | None =>
      first ← alloc_block params false;
      match first with
      | Some i => mret (Some i)
      | None => release_cached_blocks (0, 0);; alloc_block params true
      end
  end.

(** [malloc]; [complete] says which events are complete when it runs, and
    [free_memory] is what the device reports when memory runs out. *)
Definition malloc (complete : Z → bool) (free_memory device orig_size queue : Z) : op loc :=
  captures ← reads captures_underway;
  (if is_nil captures then process_events complete else mret tt);;
  let size := round_size orig_size in
  pool ← get_pool size queue;
  let alloc_size := get_allocation_size (large_segment_size cfg) size in
  let params := mkParams device queue size pool alloc_size in
  found ← find_block params;
  match found with
  | None =>
      record_trace OOM free_memory size queue device (owner_MempoolId pool);;
      lift (Throw (OutOfMemoryError "XPU out of memory. Tried to allocate "))
  | Some block =>
      split_remainder ← should_split block size;
      alloc_found_block params block orig_size split_remainder
  end.

Definition free (block : loc) : op unit :=
  assign block (set_allocated false);;
  b ← deref block;
  for_stats (bpool b) (λ t s,
    update_stat allocated_bytes t (decrease (bsize b)) (update_stat allocation t (decrease 1) s));;
  record_trace FREE_REQUESTED (bptr b) (requested_size b) (bqueue b) (bdevice b) (owner_MempoolId (bpool b));;
  if negb (is_nil (stream_uses b)) then insert_events block else free_block block.

Definition recordStream (block : loc) (stream : XPUStream) : op unit :=
  b ← deref block;
  if stream_queue stream =? bqueue b then mret tt
  else assign block (λ b, set_stream_uses
    (if decide (stream ∈ stream_uses b) then stream_uses b else stream_uses b ++ [stream]) b).

Definition emptyCache (mempool_id : MempoolId_t) : op unit := release_cached_blocks mempool_id.

(** ** Private pools. *)
Definition create_or_incref_pool (mempool_id : MempoolId_t) (allocator : option Z) : op unit :=
  pools ← reads graph_pools;
  match pools !! mempool_id with
  | None => modify (set_graph_pools (<[mempool_id := new_PrivatePool allocator]> pools))
  | Some pp =>
      lift (TORCH_INTERNAL_ASSERT (0 <? use_count pp) "it->second->use_count > 0");;
      lift (TORCH_INTERNAL_ASSERT (bool_decide (allocator = None)) "allocator == nullptr");;
      modify (set_graph_pools (<[mempool_id := set_counts (use_count pp + 1) (allocation_count pp) pp]> pools))
  end.

Definition beginAllocateToPool (mempool_id : MempoolId_t) (filter : Z → bool) : op unit :=
  create_or_incref_pool mempool_id None;;
  captures ← reads captures_underway;
  lift (TORCH_CHECK (forallb (λ entry : MempoolId_t * (Z → bool), bool_decide (entry.1 ≠ mempool_id)) captures)
    "beginAllocateToPool: already recording to mempool_id");;
  modify (set_captures_underway (captures ++ [(mempool_id, filter)])).

Fixpoint remove_capture (mempool_id : MempoolId_t) (l : list (MempoolId_t * (Z → bool)))
  : option (list (MempoolId_t * (Z → bool))) :=
  match l with
  | [] => None
  | entry :: r => if decide (entry.1 = mempool_id) then Some r else cons entry <$> remove_capture mempool_id r
  end.

Definition endAllocateToPool (mempool_id : MempoolId_t) : op unit :=
  captures ← reads captures_underway;
  match remove_capture mempool_id captures with
  | None => lift (Throw (InternalAssert "endAllocatePool: not currently recording to mempool_id"))
  | Some l => modify (set_captures_underway l)
  end.

Definition releasePool (mempool_id : MempoolId_t) : op unit :=
  pools ← reads graph_pools;
  match pools !! mempool_id with
  | None => lift (Throw (InternalAssert "it != graph_pools.end()"))
  | Some pp =>
      let uc := use_count pp - 1 in
      modify (set_graph_pools (<[mempool_id := set_counts uc (allocation_count pp) pp]> pools));;
      lift (TORCH_INTERNAL_ASSERT (0 <=? uc) "uc >= 0");;
      if uc =? 0 then
        freeable ← reads graph_pools_freeable;
        lift (TORCH_INTERNAL_ASSERT (bool_decide (mempool_id ∉ freeable)) "inserted");;
        modify (set_graph_pools_freeable (freeable ++ [mempool_id]))
      else mret tt
  end.

Definition getPoolUseCount (mempool_id : MempoolId_t) : op Z :=
  pools ← reads graph_pools;
  mret match pools !! mempool_id with None => 0 | Some pp => use_count pp end.

(** ** Statistics and history. *)
Definition getStats : op DeviceStats := reads stats.

Definition reset_accumulated_stats : op unit := modify (λ s, set_stats (resetAccumulatedStats (stats s)) s).

Definition reset_peak_stats : op unit := modify (λ s, set_stats (resetPeakStats (stats s)) s).

Definition parseTraceEntryAction (action : string) : result Action :=
  match List.find (λ e : string * Action, bool_decide (action = e.1))
    [("alloc", ALLOC); ("free_requested", FREE_REQUESTED); ("free_completed", FREE_COMPLETED);
     ("segment_alloc", SEGMENT_ALLOC); ("segment_free", SEGMENT_FREE); ("segment_map", SEGMENT_MAP);
     ("segment_unmap", SEGMENT_UNMAP); ("snapshot", SNAPSHOT); ("oom", OOM)]%string with
  | Some e => Ok e.2
  | None => Throw (Error "Unknown TraceEntry action: ")
  end.

Fixpoint insert_skip_actions (skip_actions : list string) : op unit :=
  match skip_actions with
  | [] => mret tt
  | a :: r =>
      action ← lift (parseTraceEntryAction a);
      modify (λ s, set_skip_actions_list (action :: skip_actions_list s) s);;
      insert_skip_actions r
  end.

Definition on_ring {A} (m : method (RingBuffer TraceEntry) A) : op A := λ s,
  let '(ring, r) := m (alloc_buffer s) in (set_alloc_buffer ring s, r).

(** [recorder] says whether a context recorder is given, [never] whether the
    level is [RecordContext::NEVER]. *)
Definition recordHistory (enabled recorder never : bool) (max_entries : nat) (clearHistory : bool)
    (skip_actions : list string) : op unit :=
  lift (TORCH_CHECK (never || recorder) "");;
  modify (set_record_history enabled);;
  modify (set_skip_actions_list []);;
  insert_skip_actions skip_actions;;
  on_ring (setMaxEntries max_entries);;
  if negb enabled || clearHistory then on_ring clear else mret tt.

Definition trace : op (list TraceEntry) := on_ring (getEntries []).

(** [allowed] is the fraction of the memory of the device, a product of
    doubles converted to [size_t]. *)
Definition setMemoryFraction (allowed : Z) : op unit :=
  modify (λ s, assign_set_fraction true (set_allowed_memory_maximum allowed s)).
End Operations.
