(* ===== verification/XPUHeap.v ===== *)
(** * The XPU caching allocator: the heap of blocks.

    Sums over the blocks of a heap, the well-formedness of a heap, and the
    changes the allocator makes to it, as functions on heaps: merging two
    adjacent blocks, splitting a block, adding and removing a segment, and
    changing the use of a block. *)

From S2P Require Import Prelude CachingAllocator DeviceRuntime ExpandableSegment XPUBlocks.

(** ** Sums over a heap. *)
Definition total (f : Block → Z) (h : gmap loc Block) : Z := map_fold (λ _ b acc, f b + acc) 0 h.

Lemma total_empty f : total f ∅ = 0.
Proof. apply map_fold_empty. Qed.

Lemma total_insert f h i b : h !! i = None → total f (<[i := b]> h) = f b + total f h.
Proof. intros Hi. unfold total. rewrite map_fold_insert_L; [done| |done]. intros. lia. Qed.

Lemma total_delete f h i b : h !! i = Some b → total f (delete i h) = total f h - f b.
Proof.
  intros Hi. rewrite <- (insert_delete_id h i b Hi) at 2. rewrite total_insert by apply lookup_delete_eq. lia.
Qed.

Lemma total_update f h i b b' : h !! i = Some b → total f (<[i := b']> h) = total f h - f b + f b'.
Proof.
  intros Hi. rewrite <- insert_delete_eq, total_insert by apply lookup_delete_eq.
  rewrite (total_delete f h i b Hi). lia.
Qed.

Lemma total_fmap f g h : (∀ b, f (g b) = f b) → total f (g <$> h) = total f h.
Proof.
  intros Hg. induction h as [|i b h Hi IH] using map_ind; [by rewrite fmap_empty|].
  rewrite fmap_insert, !total_insert; [by rewrite Hg, IH|by rewrite ?lookup_fmap, Hi..].
Qed.

Lemma total_ext f g h : (∀ i b, h !! i = Some b → f b = g b) → total f h = total g h.
Proof.
  induction h as [|i b h Hi IH] using map_ind; intros H; [done|]. rewrite !total_insert by done.
  rewrite (H i b) by apply lookup_insert_eq. f_equal. apply IH. intros j c Hj. apply (H j).
  rewrite lookup_insert_ne; [done|]. congruence.
Qed.

Lemma total_nonneg f h : (∀ i b, h !! i = Some b → 0 ≤ f b) → 0 ≤ total f h.
Proof.
  induction h as [|i b h Hi IH] using map_ind; intros H; [by rewrite total_empty|]. rewrite total_insert by done.
  assert (0 ≤ f b) by (apply (H i); apply lookup_insert_eq).
  assert (0 ≤ total f h); [|lia]. apply IH. intros j c Hj. apply (H j). rewrite lookup_insert_ne; [done|congruence].
Qed.

Lemma total_elem f h i b : (∀ i b, h !! i = Some b → 0 ≤ f b) → h !! i = Some b → f b ≤ total f h.
Proof.
  intros Hf Hi. pose proof (total_delete f h i b Hi) as E.
  assert (0 ≤ total f (delete i h)); [|lia]. apply total_nonneg. intros j c [_ Hj]%lookup_delete_Some. by apply (Hf j c).
Qed.

(** ** Well-formed heaps. *)

(** A block that is not in use, neither by the program nor by a stream. *)
Definition unused (b : Block) : bool :=
  negb (allocated b) && (event_count b =? 0) && (match stream_uses b with [] => true | _ => false end).

(** The place of a block in its segment, and what never changes of it. *)
Definition same_place (b c : Block) : Prop :=
  bqueue b = bqueue c ∧ bsize b = bsize c ∧ bpool b = bpool c ∧ bptr b = bptr c ∧ mapped b = mapped c ∧
  prev b = prev c ∧ next b = next c ∧ expandable_segment b = expandable_segment c.

(** The neighbour [q] of [b] begins where [b] ends. *)
Definition follows (b c : Block) : Prop :=
  bptr c = bptr b + bsize b ∧ bqueue c = bqueue b ∧ bpool c = bpool b.

Record block_ok (segs : gmap Z Z) (b : Block) : Prop := {
  ok_size : 0 < bsize b;
  ok_ptr : 0 < bptr b;
  ok_plain : mapped b = true ∧ expandable_segment b = None;
  ok_events : 0 ≤ event_count b;
  ok_allocated : allocated b = true → event_count b = 0;
  ok_streams : allocated b = false → stream_uses b = [];
  ok_segment : ∃ base n, segs !! base = Some n ∧ n < 2 ^ 64 ∧ base ≤ bptr b ∧ bptr b + bsize b ≤ base + n ∧
    (prev b = None ↔ bptr b = base) ∧ (next b = None ↔ bptr b + bsize b = base + n)
}.

(** [segs] are the segments obtained from the device.  No two adjacent blocks
    are unused, unless one of them is [ex]. *)
Record heap_ok (segs : gmap Z Z) (ex : option loc) (h : gmap loc Block) : Prop := {
  heap_blocks i b : h !! i = Some b → block_ok segs b;
  heap_next i b j : h !! i = Some b → next b = Some j → ∃ c, h !! j = Some c ∧ prev c = Some i ∧ follows b c;
  heap_prev i b j : h !! i = Some b → prev b = Some j → ∃ c, h !! j = Some c ∧ next c = Some i;
  heap_disjoint i b j c : i ≠ j → h !! i = Some b → h !! j = Some c → separate (bptr b) (bsize b) (bptr c) (bsize c);
  heap_segment_size p n : segs !! p = Some n → 0 < n;
  heap_segments p n q m : segs !! p = Some n → segs !! q = Some m → p ≠ q → separate p n q m;
  heap_heads base n : segs !! base = Some n → ∃ i b, h !! i = Some b ∧ bptr b = base;
  heap_coalesced i b j c : h !! i = Some b → next b = Some j → h !! j = Some c → unused b = true → unused c = true →
    ex = Some i ∨ ex = Some j
}.

Lemma heap_ptr_inj segs ex h i b j c :
  heap_ok segs ex h → h !! i = Some b → h !! j = Some c → bptr b = bptr c → i = j.
Proof.
  intros Hok Hi Hj E. destruct (decide (i = j)) as [|Hne]; [done|exfalso].
  pose proof (heap_disjoint _ _ _ Hok i b j c Hne Hi Hj). pose proof (ok_size _ _ (heap_blocks _ _ _ Hok i b Hi)).
  pose proof (ok_size _ _ (heap_blocks _ _ _ Hok j c Hj)). unfold separate in *. lia.
Qed.

(** A block whose left neighbour is [i] is the right neighbour of [i]. *)
Lemma heap_prev_next segs ex h i b j c :
  heap_ok segs ex h → h !! i = Some b → h !! j = Some c → prev c = Some i → next b = Some j.
Proof.
  intros Hok Hi Hj Hp. destruct (heap_prev _ _ _ Hok j c i Hj Hp) as (b' & Hb' & Hn). congruence.
Qed.

Lemma heap_next_inj segs ex h i b j c k :
  heap_ok segs ex h → h !! i = Some b → h !! j = Some c → next b = Some k → next c = Some k → i = j.
Proof.
  intros Hok Hi Hj Hb Hc. destruct (heap_next _ _ _ Hok i b k Hi Hb) as (d & Hd & Hp & _).
  destruct (heap_next _ _ _ Hok j c k Hj Hc) as (d' & Hd' & Hp' & _). congruence.
Qed.

Lemma heap_ok_ex segs ex h : heap_ok segs None h → heap_ok segs ex h.
Proof.
  intros [H1 H2 H3 H4 H8 H7 H5 H6]. split; try done. intros i b j c Hi Hn Hj Ui Uj.
  by destruct (H6 i b j c Hi Hn Hj Ui Uj).
Qed.

(** ** Changing the use of a block. *)
Lemma update_use segs ex ex' h i b b' :
  heap_ok segs ex h → h !! i = Some b → same_place b b' → block_ok segs b' →
  (∀ j, ex = Some j → ex' = Some j ∨ j = i ∧ unused b' = false) →
  (unused b' = true → unused b = true ∨ ex' = Some i) →
  heap_ok segs ex' (<[i := b']> h).
Proof.
  intros [H1 H2 H3 H4 H8 H7 H5 H6] Hi (Eq & Es & Ep & Et & _ & Epr & Enx & _) Hb' Hex Hun. split.
  - intros j c. rewrite lookup_insert_Some. intros [[<- <-]|[_ Hj]]; [done|by apply (H1 j)].
  - intros j c k. rewrite lookup_insert_Some. intros [[<- <-]|[Hne Hj]] Hn.
    + rewrite <- Enx in Hn. destruct (H2 i b k Hi Hn) as (d & Hd & Hp & Hf).
      destruct (decide (k = i)) as [->|Hki].
      * exists b'. rewrite lookup_insert_eq. split; [done|]. assert (d = b) as -> by congruence.
        split; [congruence|]. unfold follows in *. lia || (rewrite <- Eq, <- Es, <- Ep, <- Et; done).
      * exists d. rewrite lookup_insert_ne by done. split; [done|]. split; [done|].
        unfold follows in *. by rewrite <- Eq, <- Es, <- Ep, <- Et.
    + destruct (H2 j c k Hj Hn) as (d & Hd & Hp & Hf). destruct (decide (k = i)) as [->|Hki].
      * exists b'. rewrite lookup_insert_eq. split; [done|]. assert (d = b) as -> by congruence.
        split; [congruence|]. unfold follows in *. by rewrite <- Eq, <- Ep, <- Et.
      * exists d. by rewrite lookup_insert_ne by done.
  - intros j c k. rewrite lookup_insert_Some. intros [[<- <-]|[Hne Hj]] Hp.
    + rewrite <- Epr in Hp. destruct (H3 i b k Hi Hp) as (d & Hd & Hn). destruct (decide (k = i)) as [->|Hki].
      * exists b'. rewrite lookup_insert_eq. split; [done|]. congruence.
      * exists d. by rewrite lookup_insert_ne by done.
    + destruct (H3 j c k Hj Hp) as (d & Hd & Hn). destruct (decide (k = i)) as [->|Hki].
      * exists b'. rewrite lookup_insert_eq. split; [done|]. congruence.
      * exists d. by rewrite lookup_insert_ne by done.
  - intros j c k d Hjk. rewrite !lookup_insert_Some. intros [[<- <-]|[_ Hj]] [[<- <-]|[_ Hk]]; [done| | |by apply (H4 j _ k)].
    + rewrite <- Et, <- Es. by apply (H4 i _ k).
    + rewrite <- Et, <- Es. by apply (H4 j _ i).
  - done.
  - done.
  - intros base n Hs. destruct (H5 base n Hs) as (j & c & Hj & Hc). destruct (decide (j = i)) as [->|Hne].
    + exists i, b'. rewrite lookup_insert_eq. split; [done|]. congruence.
    + exists j, c. by rewrite lookup_insert_ne.
  - assert (∀ j c, <[i := b']> h !! j = Some c → ∃ c0, h !! j = Some c0 ∧ next c0 = next c ∧
      (unused c = true → unused c0 = true ∨ ex' = Some j) ∧ (ex = Some j → unused c = true → ex' = Some j)) as Hold.
    { intros j c. rewrite lookup_insert_Some. intros [[<- <-]|[Hne Hj]].
      - exists b. split; [done|]. split; [done|]. split; [done|]. intros Ej Uj. destruct (Hex i Ej) as [|[_ ?]]; congruence.
      - exists c. split; [done|]. split; [done|]. split; [by left|]. intros Ej Uj. destruct (Hex j Ej) as [|[? _]]; congruence. }
    intros j c k d Hj Hn Hk Uj Uk. destruct (Hold j c Hj) as (c0 & Hc0 & En & U1 & X1).
    destruct (Hold k d Hk) as (d0 & Hd0 & _ & U2 & X2). destruct (U1 Uj) as [V1|]; [|by left].
    destruct (U2 Uk) as [V2|]; [|by right]. rewrite <- En in Hn.
    destruct (H6 j c0 k d0 Hc0 Hn Hd0 V1 V2) as [E|E]; [left|right]; auto.
Qed.

(** ** Merging. *)

(** Pointers to [j] become pointers to [i]. *)
Definition redirect_ptr (j i : loc) (p : option loc) : option loc := if decide (p = Some j) then Some i else p.
Definition redirect (j i : loc) (b : Block) : Block :=
  set_next (redirect_ptr j i (next b)) (set_prev (redirect_ptr j i (prev b)) b).

(** [i], now [b'], takes the place of [j] as well. *)
Definition merge_heap (i j : loc) (b' : Block) (h : gmap loc Block) : gmap loc Block :=
  <[i := b']> (delete j (redirect j i <$> h)).

Lemma merge_heap_other i j b' h k : k ≠ i → k ≠ j → merge_heap i j b' h !! k = redirect j i <$> h !! k.
Proof. intros. unfold merge_heap. by rewrite lookup_insert_ne, lookup_delete_ne, lookup_fmap by done. Qed.

Lemma merge_heap_Some i j b' h k c : i ≠ j → merge_heap i j b' h !! k = Some c →
  k = i ∧ c = b' ∨ k ≠ i ∧ k ≠ j ∧ ∃ c0, h !! k = Some c0 ∧ c = redirect j i c0.
Proof.
  intros Hij. unfold merge_heap. rewrite lookup_insert_Some. intros [[<- <-]|[Hne Hk]]; [by left|right].
  apply lookup_delete_Some in Hk as [Hj Hk]. rewrite lookup_fmap in Hk. apply fmap_Some in Hk as (c0 & Hk & ->).
  split; [done|]. split; [done|]. by exists c0.
Qed.

(** What merging makes of the two blocks [l] and [r]; the rest is of [b]. *)
Definition joined (b l r b' : Block) : Prop :=
  bqueue b' = bqueue b ∧ bpool b' = bpool b ∧ mapped b' = mapped b ∧ expandable_segment b' = expandable_segment b ∧
  stream_uses b' = stream_uses b ∧ allocated b' = allocated b ∧ event_count b' = event_count b ∧
  bptr b' = bptr l ∧ bsize b' = bsize l + bsize r ∧ prev b' = prev l ∧ next b' = next r.

Section Merge.
Context (segs : gmap Z Z) (h : gmap loc Block) (i j : loc) (b c b' : Block) (il ir : loc) (l r : Block).
Context (Hok : heap_ok segs (Some i) h) (Hi : h !! i = Some b) (Hj : h !! j = Some c) (Hij : i ≠ j).
(** [il] and [ir] are [i] and [j], in the order of their addresses. *)
Context (Hside : il = i ∧ l = b ∧ ir = j ∧ r = c ∨ il = j ∧ l = c ∧ ir = i ∧ r = b).
Context (Hnext : next l = Some ir) (Hb' : joined b l r b').

Local Lemma merge_l : h !! il = Some l.
Proof. by destruct Hside as [(-> & -> & _)|(-> & -> & _)]. Qed.
Local Lemma merge_r : h !! ir = Some r ∧ prev r = Some il ∧ follows l r.
Proof.
  destruct (heap_next _ _ _ Hok il l ir merge_l Hnext) as (d & Hd & Hp & Hf).
  assert (d = r) as -> by (destruct Hside as [(-> & -> & -> & ->)|(-> & -> & -> & ->)]; congruence). done.
Qed.

(** Both lie in one segment. *)
Local Lemma merge_segment :
  ∃ base n, segs !! base = Some n ∧ n < 2 ^ 64 ∧ base ≤ bptr l ∧ bptr r + bsize r ≤ base + n ∧
    (prev l = None ↔ bptr l = base) ∧ (next r = None ↔ bptr r + bsize r = base + n) ∧ base < bptr r < base + n.
Proof.
  destruct merge_r as (Hr & Hp & Hf & _).
  destruct (heap_blocks _ _ _ Hok _ _ merge_l) as [Sl _ _ _ _ _ (p & n & E1 & Hn & B1 & B2 & P1 & N1)].
  destruct (heap_blocks _ _ _ Hok _ _ Hr) as [Sr _ _ _ _ _ (q & m & E2 & Hm & C1 & C2 & P2 & N2)].
  assert (bptr r ≠ q) by (intros E; apply P2 in E; congruence).
  assert (bptr l + bsize l ≠ p + n) by (intros E; apply N1 in E; congruence).
  destruct (decide (p = q)) as [->|Hne].
  - assert (n = m) as -> by congruence. exists q, m. split; [done|]. split; [done|]. repeat split; try tauto; lia.
  - pose proof (heap_segments _ _ _ Hok p n q m E1 E2 Hne) as Hsep. unfold separate in Hsep. lia.
Qed.

Local Lemma merge_block : block_ok segs b'.
Proof.
  destruct Hb' as (_ & _ & E3 & E4 & E5 & E6 & E7 & E8 & E9 & E10 & E11). destruct merge_r as (Hr & Hp & Hf & _).
  destruct (heap_blocks _ _ _ Hok _ _ merge_l) as [Sl Pl _ _ _ _ _].
  destruct (heap_blocks _ _ _ Hok _ _ Hr) as [Sr _ _ _ _ _ _].
  destruct (heap_blocks _ _ _ Hok _ _ Hi) as [_ _ K1 K2 K3 K4 _].
  destruct merge_segment as (p & n & M1 & M2 & M3 & M4 & M5 & M6 & _).
  split; rewrite ?E3, ?E4, ?E5, ?E6, ?E7, ?E8, ?E9; [lia|lia|done|done|done|done|].
  exists p, n. rewrite E10, E11. repeat split; try tauto; try lia; intros ?; try (apply M6); try lia.
  assert (next r = None) by done. apply M6 in H0. lia.
Qed.

Local Lemma merge_neighbours k d : h !! k = Some d → k ≠ i → k ≠ j →
  (redirect_ptr j i (next d) = Some i ↔ prev l = Some k) ∧ (redirect_ptr j i (prev d) = Some i ↔ next r = Some k) ∧
  next d ≠ Some ir ∧ prev d ≠ Some il.
Proof.
  intros Hk Hki Hkj. destruct merge_r as (Hr & Hp & Hf). pose proof merge_l as Hl.
  assert (k ≠ il ∧ k ≠ ir) as [Hkl Hkr] by (destruct Hside as [(-> & _ & -> & _)|(-> & _ & -> & _)]; done).
  assert (∀ m, m = i ∨ m = j ↔ m = il ∨ m = ir) as Hm
    by (intros m; destruct Hside as [(-> & _ & -> & _)|(-> & _ & -> & _)]; tauto).
  assert (∀ p, redirect_ptr j i p = Some i ↔ p = Some il ∨ p = Some ir) as Hred.
  { intros [m|]; unfold redirect_ptr; [|case_decide; naive_solver]. specialize (Hm m).
    case_decide as E; [injection E as ->|]; split; intros; naive_solver. }
  assert (next d ≠ Some ir) as N1.
  { intros E. apply Hkl. by apply (heap_next_inj _ _ _ k d il l ir Hok). }
  assert (prev d ≠ Some il) as N2.
  { intros E. pose proof (heap_prev_next _ _ _ il l k d Hok Hl Hk E). congruence. }
  rewrite !Hred. split; [|split; [|done]].
  - split.
    + intros [E|E]; [|done]. destruct (heap_next _ _ _ Hok k d il Hk E) as (x & Hx & Px & _). congruence.
    + intros E. left. destruct (heap_prev _ _ _ Hok il l k Hl E) as (x & Hx & Nx). congruence.
  - split.
    + intros [E|E]; [done|]. by apply (heap_prev_next _ _ _ ir r k d Hok).
    + intros E. right. destruct (heap_next _ _ _ Hok ir r k Hr E) as (x & Hx & Px & _). congruence.
Qed.

Local Lemma merge_ends k : (prev l = Some k ∨ next r = Some k) → k ≠ i ∧ k ≠ j ∧ ∃ d, h !! k = Some d.
Proof.
  destruct merge_r as (Hr & Hp & Hf & _). pose proof merge_l as Hl.
  pose proof (ok_size _ _ (heap_blocks _ _ _ Hok _ _ Hl)). pose proof (ok_size _ _ (heap_blocks _ _ _ Hok _ _ Hr)).
  assert (∀ m, m ≠ il → m ≠ ir → m ≠ i ∧ m ≠ j) as Hm
    by (intros m; destruct Hside as [(-> & _ & -> & _)|(-> & _ & -> & _)]; tauto).
  intros [E|E].
  - destruct (heap_prev _ _ _ Hok il l k Hl E) as (d & Hd & Hn).
    destruct (heap_next _ _ _ Hok k d il Hd Hn) as (x & Hx & _ & F & _). assert (x = l) as -> by congruence.
    pose proof (ok_size _ _ (heap_blocks _ _ _ Hok _ _ Hd)).
    destruct (Hm k) as [M1 M2].
    + intros ->. assert (d = l) as -> by congruence. lia.
    + intros ->. assert (d = r) as -> by congruence. lia.
    + split; [done|]. split; [done|]. by exists d.
  - destruct (heap_next _ _ _ Hok ir r k Hr E) as (d & Hd & _ & F & _).
    destruct (Hm k) as [M1 M2].
    + intros ->. assert (d = l) as -> by congruence. lia.
    + intros ->. assert (d = r) as -> by congruence. lia.
    + split; [done|]. split; [done|]. by exists d.
Qed.

Lemma merge_ok : heap_ok segs (Some i) (merge_heap i j b' h).
Proof.
  pose proof Hb' as (E1 & E2 & _ & _ & _ & _ & _ & E8 & E9 & E10 & E11).
  destruct merge_r as (Hr & Hpr & Hf & Hq & Hpo). pose proof merge_l as Hl.
  assert (bqueue b = bqueue l ∧ bpool b = bpool l) as [Q1 Q2]
    by (destruct Hside as [(_ & -> & _)|(_ & _ & _ & <-)]; split; congruence).
  assert (merge_heap i j b' h !! i = Some b') as Hi' by apply lookup_insert_eq.
  split.
  - intros k d Hk. destruct (merge_heap_Some _ _ _ _ _ _ Hij Hk) as [[-> ->]|(Hki & Hkj & d0 & Hd0 & ->)].
    + apply merge_block.
    + destruct (heap_blocks _ _ _ Hok k d0 Hd0) as [K1 K2 K3 K4 K5 K6 (p & n & S1 & S2 & S3 & S4 & S5 & S6)].
      split; try done. exists p, n. split; [done|]. split; [done|]. split; [done|]. split; [done|]. cbn.
      rewrite <- S5, <- S6. unfold redirect_ptr. split; case_decide as X; try done; rewrite X; done.
  - intros k d m Hk Hn. destruct (merge_heap_Some _ _ _ _ _ _ Hij Hk) as [[-> ->]|(Hki & Hkj & d0 & Hd0 & ->)].
    + rewrite E11 in Hn. destruct (merge_ends m (or_intror Hn)) as (Hmi & Hmj & x & Hx).
      destruct (merge_neighbours m x Hx Hmi Hmj) as (_ & [_ R] & _).
      exists (redirect j i x). rewrite merge_heap_other, Hx by done. split; [done|]. split; [by apply R|].
      destruct (heap_next _ _ _ Hok ir r m Hr Hn) as (y & Hy & _ & F & Fq & Fp). assert (y = x) as -> by congruence.
      unfold follows; cbn. rewrite F, Fq, Fp, E8, E9, E1, E2. split; [lia|]. split; congruence.
    + destruct (merge_neighbours k d0 Hd0 Hki Hkj) as ([R1 R1'] & _ & R3 & _). cbn in Hn.
      destruct (decide (m = i)) as [->|Hmi].
      * exists b'. split; [done|]. rewrite E10. apply R1 in Hn as Hp. split; [done|].
        destruct (heap_prev _ _ _ Hok il l k Hl Hp) as (y & Hy & Hyn). assert (y = d0) as -> by congruence.
        destruct (heap_next _ _ _ Hok k d0 il Hd0 Hyn) as (z & Hz & _ & F & Fq & Fp). assert (z = l) as -> by congruence.
        unfold follows; cbn. rewrite E8, E1, E2. split; [lia|]. split; congruence.
      * unfold redirect_ptr in Hn. case_decide as X; [congruence|].
        destruct (heap_next _ _ _ Hok k d0 m Hd0 Hn) as (y & Hy & Hyp & F). assert (m ≠ j) as Hmj by congruence.
        exists (redirect j i y). rewrite merge_heap_other, Hy by done. split; [done|]. split; [|done].
        cbn. unfold redirect_ptr. rewrite decide_False by congruence. done.
  - intros k d m Hk Hp. destruct (merge_heap_Some _ _ _ _ _ _ Hij Hk) as [[-> ->]|(Hki & Hkj & d0 & Hd0 & ->)].
    + rewrite E10 in Hp. destruct (merge_ends m (or_introl Hp)) as (Hmi & Hmj & x & Hx).
      destruct (merge_neighbours m x Hx Hmi Hmj) as ([_ R] & _).
      exists (redirect j i x). rewrite merge_heap_other, Hx by done. split; [done|]. by apply R.
    + destruct (merge_neighbours k d0 Hd0 Hki Hkj) as (_ & [R1 R1'] & _ & R3). cbn in Hp.
      destruct (decide (m = i)) as [->|Hmi].
      * exists b'. split; [done|]. rewrite E11. by apply R1.
      * unfold redirect_ptr in Hp. case_decide as X; [congruence|].
        destruct (heap_prev _ _ _ Hok k d0 m Hd0 Hp) as (y & Hy & Hyn). assert (m ≠ j) as Hmj by congruence.
        exists (redirect j i y). rewrite merge_heap_other, Hy by done. split; [done|].
        cbn. unfold redirect_ptr. rewrite decide_False by congruence. done.
  - assert (∀ k d, k ≠ i → k ≠ j → h !! k = Some d → separate (bptr b') (bsize b') (bptr d) (bsize d)) as Hsep.
    { intros k d Hki Hkj Hd. assert (k ≠ il ∧ k ≠ ir) as [Hkl Hkr]
        by (destruct Hside as [(-> & _ & -> & _)|(-> & _ & -> & _)]; done).
      pose proof (heap_disjoint _ _ _ Hok k d il l Hkl Hd Hl). pose proof (heap_disjoint _ _ _ Hok k d ir r Hkr Hd Hr).
      pose proof (ok_size _ _ (heap_blocks _ _ _ Hok _ _ Hd)). unfold separate in *. lia. }
    intros k d m e Hkm Hk Hm.
    destruct (merge_heap_Some _ _ _ _ _ _ Hij Hk) as [[-> ->]|(Hki & Hkj & d0 & Hd0 & ->)];
      destruct (merge_heap_Some _ _ _ _ _ _ Hij Hm) as [[-> ->]|(Hmi & Hmj & e0 & He0 & ->)]; [done| | |].
    + by apply (Hsep m e0).
    + pose proof (Hsep k d0 Hki Hkj Hd0). unfold separate in *. cbn. lia.
    + by apply (heap_disjoint _ _ _ Hok k d0 m e0).
  - apply Hok.
  - apply Hok.
  - intros base n Hs. pose proof (heap_segment_size _ _ _ Hok _ _ Hs). destruct (heap_heads _ _ _ Hok base n Hs) as (k & d & Hd & Hbase).
    destruct merge_segment as (p & n' & M1 & M2 & M3 & M4 & M5 & M6 & M7).
    destruct (decide (k = il)) as [->|Hkl].
    { exists i, b'. split; [done|]. rewrite E8. congruence. }
    assert (k ≠ ir) as Hkr.
    { intros ->. assert (d = r) as -> by congruence. pose proof (ok_size _ _ (heap_blocks _ _ _ Hok _ _ Hr)).
      destruct (decide (p = base)) as [->|Hne]; [lia|].
      pose proof (heap_segments _ _ _ Hok p n' base n M1 Hs Hne) as X. unfold separate in X.
lia. }
    assert (k ≠ i ∧ k ≠ j) as [Hki Hkj] by (destruct Hside as [(-> & _ & -> & _)|(-> & _ & -> & _)]; done).
    exists k, (redirect j i d). by rewrite merge_heap_other, Hd by done.
  - intros k d m e Hk Hn Hm Uk Um.
    destruct (merge_heap_Some _ _ _ _ _ _ Hij Hk) as [[-> ->]|(Hki & Hkj & d0 & Hd0 & ->)]; [by left|].
    destruct (merge_heap_Some _ _ _ _ _ _ Hij Hm) as [[-> ->]|(Hmi & Hmj & e0 & He0 & ->)]; [by right|].
    cbn in Hn. unfold redirect_ptr in Hn. case_decide as X; [congruence|].
    by apply (heap_coalesced _ _ _ Hok k d0 m e0).
Qed.
End Merge.

(** A sum over the blocks that does not look at the pointers, but for whether
    they are null. *)
Definition shape_only (f : Block → Z) : Prop := ∀ i j b, f (redirect j i b) = f b.

Lemma total_merge f i j b b' c h :
  shape_only f → h !! i = Some b → h !! j = Some c → i ≠ j →
  total f (merge_heap i j b' h) = total f h - f b - f c + f b'.
Proof.
  intros Hf Hi Hj Hij. unfold merge_heap.
  rewrite (total_update f _ i (redirect j i b)) by (by rewrite lookup_delete_ne, lookup_fmap, Hi).
  rewrite (total_delete f _ j (redirect j i c)) by (by rewrite lookup_fmap, Hj).
  rewrite total_fmap by (intros; apply Hf). rewrite !Hf. lia.
Qed.

(** ** Splitting. *)
Definition redirect_next (i k : loc) (b : Block) : Block := set_next (redirect_ptr i k (next b)) b.

(** [k] takes the first part of [i]; [bk] and [bi] are the two blocks. *)
Definition split_heap (i k : loc) (bk bi : Block) (h : gmap loc Block) : gmap loc Block :=
  <[k := bk]> (<[i := bi]> (redirect_next i k <$> h)).

Definition parts (b bk bi : Block) (i k : loc) (size : Z) : Prop :=
  bqueue bk = bqueue b ∧ bpool bk = bpool b ∧ mapped bk = true ∧ expandable_segment bk = None ∧
  stream_uses bk = [] ∧ allocated bk = false ∧ event_count bk = 0 ∧
  bptr bk = bptr b ∧ bsize bk = size ∧ prev bk = prev b ∧ next bk = Some i ∧
  bi = set_bsize (bsize b - size) (set_bptr (bptr b + size) (set_prev (Some k) b)).

Section Split.
Context (segs : gmap Z Z) (h : gmap loc Block) (i k : loc) (b bk bi : Block) (size : Z).
Context (Hok : heap_ok segs None h) (Hi : h !! i = Some b) (Hk : h !! k = None) (Hsize : 0 < size < bsize b).
Context (Hparts : parts b bk bi i k size).

Local Lemma split_Some m d : split_heap i k bk bi h !! m = Some d →
  m = k ∧ d = bk ∨ m = i ∧ d = bi ∨ m ≠ k ∧ m ≠ i ∧ ∃ d0, h !! m = Some d0 ∧ d = redirect_next i k d0.
Proof.
  unfold split_heap. rewrite lookup_insert_Some. intros [[<- <-]|[Hmk Hm]]; [by left|right].
  apply lookup_insert_Some in Hm as [[<- <-]|[Hmi Hm]]; [by left|right].
  rewrite lookup_fmap in Hm. apply fmap_Some in Hm as (d0 & Hd0 & ->). split; [done|]. split; [done|]. by exists d0.
Qed.

Local Lemma split_k : split_heap i k bk bi h !! k = Some bk.
Proof. apply lookup_insert_eq. Qed.
Local Lemma split_i : split_heap i k bk bi h !! i = Some bi.
Proof. unfold split_heap. rewrite lookup_insert_ne by congruence. apply lookup_insert_eq. Qed.
Local Lemma split_other m d : m ≠ i → h !! m = Some d → split_heap i k bk bi h !! m = Some (redirect_next i k d).
Proof.
  intros Hmi Hm. unfold split_heap. rewrite !lookup_insert_ne by congruence. by rewrite lookup_fmap, Hm.
Qed.

Local Lemma split_blocks : block_ok segs bk ∧ block_ok segs bi.
Proof.
  destruct Hparts as (Q1 & Q2 & Q3 & Q4 & Q5 & Q6 & Q7 & Q8 & Q9 & Q10 & Q11 & ->).
  destruct (heap_blocks _ _ _ Hok _ _ Hi) as [K1 K2 K3 K4 K5 K6 (p & n & S1 & S2 & S3 & S4 & S5 & S6)]. split.
  - split; rewrite ?Q3, ?Q4, ?Q5, ?Q6, ?Q7, ?Q8, ?Q9; try done; try lia. exists p, n. rewrite Q10, Q11.
    split; [done|]. split; [done|]. split; [lia|]. split; [lia|]. split; [done|]. split; intros E; [done|lia].
  - split; cbn; try done; try lia. exists p, n. split; [done|]. split; [done|]. split; [lia|]. split; [lia|].
    split; [split; intros E; [done|lia]|]. rewrite S6. split; intros; lia.
Qed.

Lemma split_ok : heap_ok segs (Some k) (split_heap i k bk bi h).
Proof.
  pose proof Hparts as (Q1 & Q2 & Q3 & Q4 & Q5 & Q6 & Q7 & Q8 & Q9 & Q10 & Q11 & Ebi).
  assert (bptr bi = bptr b + size ∧ bsize bi = bsize b - size ∧ prev bi = Some k ∧ next bi = next b ∧
    bqueue bi = bqueue b ∧ bpool bi = bpool b ∧ unused bi = unused b) as (B1 & B2 & B3 & B4 & B5 & B6 & B7) by (by rewrite Ebi).
  split.
  - intros m d Hm. destruct (split_Some m d Hm) as [[-> ->]|[[-> ->]|(Hmk & Hmi & d0 & Hd0 & ->)]].
    + apply split_blocks.
    + apply split_blocks.
    + destruct (heap_blocks _ _ _ Hok m d0 Hd0) as [K1 K2 K3 K4 K5 K6 (p & n & S1 & S2 & S3 & S4 & S5 & S6)].
      split; try done. exists p, n. do 5 (split; [done|]). cbn. rewrite <- S6.
      unfold redirect_ptr. case_decide as X; [by rewrite X|done].
  - intros m d j Hm Hn. destruct (split_Some m d Hm) as [[-> ->]|[[-> ->]|(Hmk & Hmi & d0 & Hd0 & ->)]].
    + assert (j = i) as -> by congruence. exists bi. rewrite split_i. split; [done|]. split; [done|].
      unfold follows. rewrite B1, B5, B6, Q1, Q2, Q8, Q9. done.
    + rewrite B4 in Hn. destruct (heap_next _ _ _ Hok i b j Hi Hn) as (e & He & Hp & F & Fq & Fp).
      assert (j ≠ i) as Hji.
      { intros ->. assert (e = b) as -> by congruence. pose proof (ok_size _ _ (heap_blocks _ _ _ Hok _ _ Hi)). lia. }
      exists (redirect_next i k e). rewrite (split_other j e) by done. split; [done|]. split; [done|].
      unfold follows. cbn. rewrite B1, B2, B5, B6. split; [lia|done].
    + cbn in Hn. unfold redirect_ptr in Hn. case_decide as X.
      * assert (j = k) as -> by congruence. destruct (heap_next _ _ _ Hok m d0 i Hd0 X) as (e & He & Hp & F & Fq & Fp).
        assert (e = b) as -> by congruence. exists bk. rewrite split_k. split; [done|]. split; [congruence|].
        unfold follows. cbn. by rewrite Q1, Q2, Q8.
      * destruct (heap_next _ _ _ Hok m d0 j Hd0 Hn) as (e & He & Hp & F). assert (j ≠ i) as Hji by congruence.
        exists (redirect_next i k e). by rewrite (split_other j e) by done.
  - intros m d j Hm Hp. destruct (split_Some m d Hm) as [[-> ->]|[[-> ->]|(Hmk & Hmi & d0 & Hd0 & ->)]].
    + rewrite Q10 in Hp. destruct (heap_prev _ _ _ Hok i b j Hi Hp) as (e & He & Hn). assert (j ≠ i) as Hji.
      { intros ->. assert (e = b) as -> by congruence. destruct (heap_next _ _ _ Hok i b i Hi Hn) as (x & Hx & _ & F & _).
        assert (x = b) as -> by congruence. lia. }
      exists (redirect_next i k e). rewrite (split_other j e) by done. split; [done|]. cbn.
      unfold redirect_ptr. by rewrite decide_True.
    + assert (j = k) as -> by congruence. exists bk. by rewrite split_k.
    + cbn in Hp. destruct (heap_prev _ _ _ Hok m d0 j Hd0 Hp) as (e & He & Hn). destruct (decide (j = i)) as [->|Hji].
      * exists bi. rewrite split_i, B4. split; [done|]. congruence.
      * exists (redirect_next i k e). rewrite (split_other j e) by done. split; [done|]. cbn.
        unfold redirect_ptr. by rewrite decide_False by congruence.
  - assert (∀ m d, m ≠ i → h !! m = Some d → separate (bptr bk) (bsize bk) (bptr d) (bsize d) ∧
      separate (bptr bi) (bsize bi) (bptr d) (bsize d)) as Hsep.
    { intros m d Hmi Hd. pose proof (heap_disjoint _ _ _ Hok m d i b Hmi Hd Hi). rewrite B1, B2, Q8, Q9.
      unfold separate in *. lia. }
    intros m d j e Hmj Hm Hj. unfold separate.
    destruct (split_Some m d Hm) as [[-> ->]|[[-> ->]|(Hmk & Hmi & d0 & Hd0 & ->)]];
      destruct (split_Some j e Hj) as [[-> ->]|[[-> ->]|(Hjk & Hji & e0 & He0 & ->)]]; try done; cbn.
    + lia.
    + apply (Hsep j e0 Hji He0).
    + lia.
    + apply (Hsep j e0 Hji He0).
    + pose proof (Hsep m d0 Hmi Hd0). unfold separate in *. lia.
    + pose proof (Hsep m d0 Hmi Hd0). unfold separate in *. lia.
    + by apply (heap_disjoint _ _ _ Hok m d0 j e0).
  - apply Hok.
  - apply Hok.
  - intros base n Hs. destruct (heap_heads _ _ _ Hok base n Hs) as (m & d & Hd & Hb).
    destruct (decide (m = i)) as [->|Hmi].
    + exists k, bk. rewrite split_k. split; [done|]. congruence.
    + exists m, (redirect_next i k d). by rewrite (split_other m d).
  - intros m d j e Hm Hn Hj Um Uj. destruct (split_Some m d Hm) as [[-> ->]|[[-> ->]|(Hmk & Hmi & d0 & Hd0 & ->)]]; [by left| |].
    + rewrite B4 in Hn. rewrite B7 in Um. destruct (heap_next _ _ _ Hok i b j Hi Hn) as (x & Hx & Hp & F & _).
      destruct (split_Some j e Hj) as [[-> ->]|[[-> ->]|(Hjk & Hji & e0 & He0 & ->)]]; [by right| |].
      * assert (x = b) as -> by congruence. pose proof (ok_size _ _ (heap_blocks _ _ _ Hok _ _ Hi)). lia.
      * destruct (heap_coalesced _ _ _ Hok i b j e0 Hi Hn He0 Um Uj); done.
    + cbn in Hn. unfold redirect_ptr in Hn. case_decide as X; [right; congruence|].
      destruct (split_Some j e Hj) as [[-> ->]|[[-> ->]|(Hjk & Hji & e0 & He0 & ->)]]; [by right|congruence|].
      destruct (heap_coalesced _ _ _ Hok m d0 j e0 Hd0 Hn He0 Um Uj); done.
Qed.
End Split.

Lemma total_split f i k bk bi b h :
  (∀ b, f (redirect_next i k b) = f b) → h !! i = Some b → h !! k = None →
  total f (split_heap i k bk bi h) = total f h - f b + f bi + f bk.
Proof.
  intros Hf Hi Hk. assert (i ≠ k) as Hik by congruence. unfold split_heap.
  rewrite total_insert by (by rewrite lookup_insert_ne, lookup_fmap, Hk).
  rewrite (total_update f _ i (redirect_next i k b)) by (by rewrite lookup_fmap, Hi).
  rewrite total_fmap by done. rewrite Hf. lia.
Qed.

(** ** Segments. *)
Lemma add_segment segs ex h k b :
  heap_ok segs ex h → h !! k = None → block_ok (<[bptr b := bsize b]> segs) b → bsize b < 2 ^ 64 →
  segs !! bptr b = None → (∀ p n, segs !! p = Some n → separate (bptr b) (bsize b) p n) →
  prev b = None → next b = None → heap_ok (<[bptr b := bsize b]> segs) ex (<[k := b]> h).
Proof.
  intros [H1 H2 H3 H4 H5 H6 H7 H8] Hk Hb Hlt Hnone Hsep Hp Hn.
  assert (∀ m d, h !! m = Some d → separate (bptr b) (bsize b) (bptr d) (bsize d)) as Hall.
  { intros m d Hd. destruct (ok_segment _ _ (H1 m d Hd)) as (p & n & S1 & _ & S2 & S3 & _).
    pose proof (Hsep p n S1). unfold separate in *. lia. }
  split.
  - intros m d. rewrite lookup_insert_Some. intros [[<- <-]|[_ Hm]]; [done|].
    destruct (H1 m d Hm) as [K1 K2 K3 K4 K5 K6 (p & n & S1 & S2)]. split; try done.
    exists p, n. rewrite lookup_insert_ne by congruence. done.
  - intros m d j. rewrite lookup_insert_Some. intros [[<- <-]|[_ Hm]] E; [congruence|].
    destruct (H2 m d j Hm E) as (e & He & R). exists e. rewrite lookup_insert_ne by congruence. done.
  - intros m d j. rewrite lookup_insert_Some. intros [[<- <-]|[_ Hm]] E; [congruence|].
    destruct (H3 m d j Hm E) as (e & He & R). exists e. rewrite lookup_insert_ne by congruence. done.
  - intros m d j e Hmj. rewrite !lookup_insert_Some. intros [[<- <-]|[_ Hm]] [[<- <-]|[_ Hj]]; [done| | |by apply (H4 m _ j)].
    + by apply (Hall j).
    + pose proof (Hall m d Hm). unfold separate in *. lia.
  - intros p n. rewrite lookup_insert_Some. intros [[<- <-]|[_ Hs]]; [apply Hb|by apply (H5 p)].
  - intros p n q m. rewrite !lookup_insert_Some. intros [[<- <-]|[Hp' Hs]] [[<- <-]|[Hq' Hs']] Hpq; [done| | |by apply H6].
    + by apply Hsep.
    + pose proof (Hsep p n Hs). unfold separate in *. lia.
  - intros base n. rewrite lookup_insert_Some. intros [[<- <-]|[_ Hs]].
    + exists k, b. by rewrite lookup_insert_eq.
    + destruct (H7 base n Hs) as (m & d & Hm & E). exists m, d. by rewrite lookup_insert_ne by congruence.
  - intros m d j e. rewrite !lookup_insert_Some. intros [[<- <-]|[_ Hm]] E; [congruence|].
    intros [[<- <-]|[_ Hj]]; [|by apply (H8 m d j)]. destruct (H2 m d k Hm E) as (x & Hx & _). congruence.
Qed.

Lemma remove_segment segs ex h k b n :
  heap_ok segs ex h → h !! k = Some b → prev b = None → next b = None → segs !! bptr b = Some n →
  n = bsize b ∧ heap_ok (delete (bptr b) segs) ex (delete k h).
Proof.
  intros [H1 H2 H3 H4 H5 H6 H7 H8] Hk Hp Hn Hs.
  destruct (H1 k b Hk) as [K1 K2 _ _ _ _ (p & n' & S1 & S2 & S3 & S4 & S5 & S6)].
  apply S5 in Hp as E1. apply S6 in Hn as E2. subst p. assert (n' = n) as -> by congruence. assert (n = bsize b) as -> by lia.
  split; [done|]. split.
  - intros m d [Hne Hm]%lookup_delete_Some. destruct (H1 m d Hm) as [L1 L2 L3 L4 L5 L6 (q & l & T1 & T2 & T3 & T4 & T5)].
    split; try done. exists q, l. rewrite lookup_delete_ne; [done|]. intros <-.
    assert (l = bsize b) as -> by congruence. pose proof (H4 m d k b (not_eq_sym Hne) Hm Hk). unfold separate in *. lia.
  - intros m d j [Hne Hm]%lookup_delete_Some E. destruct (H2 m d j Hm E) as (e & He & Hpe & F). exists e.
    rewrite lookup_delete_ne; [done|]. intros <-. congruence.
  - intros m d j [Hne Hm]%lookup_delete_Some E. destruct (H3 m d j Hm E) as (e & He & Hne'). exists e.
    rewrite lookup_delete_ne; [done|]. intros <-. congruence.
  - intros m d j e Hmj [_ Hm]%lookup_delete_Some [_ Hj]%lookup_delete_Some. by apply (H4 m d j e).
  - intros p m [_ E]%lookup_delete_Some. by apply (H5 p).
  - intros p m q l [_ E]%lookup_delete_Some [_ E']%lookup_delete_Some. by apply H6.
  - intros base m [Hne E]%lookup_delete_Some. destruct (H7 base m E) as (j & d & Hd & Eb). exists j, d.
    rewrite lookup_delete_ne; [done|]. intros <-. congruence.
  - intros m d j e [_ Hm]%lookup_delete_Some E [_ Hj]%lookup_delete_Some. by apply (H8 m d j e).
Qed.
