(* ===== verification/XPUInvariant.v ===== *)
(** * The XPU caching allocator: the invariant.

    The invariant of [DeviceCachingAllocator] when expandable segments are
    off, and that the operations on single blocks preserve it: the pools hold
    exactly the unused blocks, in the order of their comparator; the pending
    events of a block are counted; the statistics are sums over the blocks. *)

From S2P Require Import Prelude CachingAllocator DeviceRuntime ExpandableSegment XPUBlocks XPUAllocator XPUHeap.

(** ** What the statistics count. *)

(** The contribution of a block to a statistic, by whether it is allocated and
    whether it is in use. *)
Definition stat_val (alloc used : bool) (b : Block) (n : StatName) : Z :=
  match n with
  | allocation => if alloc then 1 else 0
  | segment => if decide (prev b = None) then 1 else 0
  | active => if used then 1 else 0
  | inactive_split => if used then 0 else if is_split b then 1 else 0
  | allocated_bytes => if alloc then bsize b else 0
  | reserved_bytes => bsize b
  | active_bytes => if used then bsize b else 0
  | inactive_split_bytes => if used then 0 else if is_split b then bsize b else 0
  | requested_bytes => if used then requested_size b else 0
  end.

Definition stat_of (n : StatName) (b : Block) : Z := stat_val (allocated b) (negb (unused b)) b n.

Definition in_stat (t : StatType) (r : PoolRef) (x : Z) : Z := if get_stat_types_for_pool r t then x else 0.

(** The value of a statistic of the blocks of a heap. *)
Definition tot (n : StatName) (t : StatType) (h : gmap loc Block) : Z := total (λ b, in_stat t (bpool b) (stat_of n b)) h.

Definition stats_ok (h : gmap loc Block) (st : DeviceStats) : Prop :=
  ∀ n t, current (arrays st n t) = tot n t h.

(** ** The use of a block: all that the program and the streams see of it. *)
Record Use := mkUse {
  u_queue : Z; u_ptr : Z; u_size : Z; u_requested : Z; u_pool : PoolRef;
  u_allocated : bool; u_streams : list XPUStream; u_events : Z
}.

Definition use_of (b : Block) : Use :=
  mkUse (bqueue b) (bptr b) (bsize b) (requested_size b) (bpool b) (allocated b) (stream_uses b) (event_count b).

(** The blocks in use. *)
Definition used (h : gmap loc Block) (k : loc) : option Use :=
  match h !! k with
  | Some c => if unused c then None else Some (use_of c)
  | None => None
  end.

(** ** The invariant. *)

(** The number of occurrences of a block in a list of pending events. *)
Definition pending (i : loc) (ev : list loc) : Z := Z.of_nat (length (filter (λ j, j = i) ev)).

(** 1 for the first block of a segment of the private pool. *)
Definition head_of (m : MempoolId_t) (b : Block) : Z :=
  if decide (owner_PrivatePool (bpool b) = Some m ∧ prev b = None) then 1 else 0.

Record pool_ok (h : gmap loc Block) (hand : option loc) (r : PoolRef) (bp : BlockPool) : Prop := {
  pool_unmapped : unmapped bp = [];
  pool_ordered : ordered (id_less BlockComparatorSize h) (blocks bp);
  pool_elem i : i ∈ blocks bp ↔ ∃ b, h !! i = Some b ∧ bpool b = r ∧ unused b = true ∧ hand ≠ Some i
}.

(** Use counts, freeable pools and captures. *)
Record admin_ok (uses : gmap MempoolId_t Z) (freeable : list MempoolId_t)
    (captures : list (MempoolId_t * (Z → bool))) : Prop := {
  admin_uses i n : uses !! i = Some n → 0 ≤ n ∧ (i ∈ freeable ↔ n = 0);
  admin_freeable i : i ∈ freeable → is_Some (uses !! i);
  admin_NoDup : NoDup freeable;
  admin_captures e : e ∈ captures → ∃ n, uses !! e.1 = Some n ∧ 0 < n
}.

Definition ring_ok (r : RingBuffer TraceEntry) : Prop :=
  (alloc_trace_next r < alloc_trace_max_entries_ r)%nat ∧ (length (alloc_trace r) ≤ alloc_trace_max_entries_ r)%nat ∧
  (alloc_trace_next r ≤ length (alloc_trace r))%nat.

Section Invariant.
Context {D : Type} `{DeviceLaws D}.
Implicit Types (s : DeviceCachingAllocator D) (h : gmap loc Block).

Definition uses s : gmap MempoolId_t Z := use_count <$> graph_pools s.
Definition allocs s : gmap MempoolId_t Z := allocation_count <$> graph_pools s.

(** The blocks with pending events. *)
Definition events_of s : list loc := snd <$> concat (snd <$> xpu_events s).

(** All of the invariant but for the set of active blocks and the statistics.
    [hand] is a block that was taken out of its pool, [ex] one that may have
    unused neighbours, and [ev] the pending events. *)
Record core (segs : gmap Z Z) (ex hand : option loc) (ev : list loc) s : Prop := {
  core_heap : heap_ok segs ex (heap s);
  core_live : segs ⊆ live (dev s);
  core_pools r bp : lookup_pool s r = Some bp → pool_ok (heap s) hand r bp;
  core_owner i b : heap s !! i = Some b → is_Some (lookup_pool s (bpool b));
  core_events i : pending i ev = match heap s !! i with Some b => event_count b | None => 0 end;
  core_counts m n : allocs s !! m = Some n → n = total (head_of m) (heap s);
  core_admin : admin_ok (uses s) (graph_pools_freeable s) (captures_underway s);
  core_fresh (i : loc) b : heap s !! i = Some b → (i < next_block s)%positive;
  core_ring : ring_ok (alloc_buffer s)
}.

Definition active_ok s : Prop := ∀ i, i ∈ active_blocks s ↔ is_Some (used (heap s) i).

Definition inv s : Prop :=
  (∃ segs, core segs None None (events_of s) s) ∧ active_ok s ∧ stats_ok (heap s) (stats s).

(** ** The parts of the state a method leaves alone. *)
Definition same_admin s s' : Prop :=
  captures_underway s' = captures_underway s ∧ graph_pools_freeable s' = graph_pools_freeable s ∧
  uses s' = uses s ∧ (∀ r, is_Some (lookup_pool s' r) ↔ is_Some (lookup_pool s r)) ∧
  set_fraction s' = set_fraction s ∧ allowed_memory_maximum s' = allowed_memory_maximum s.

Lemma same_admin_refl s : same_admin s s.
Proof. done. Qed.

Lemma same_admin_trans s1 s2 s3 : same_admin s1 s2 → same_admin s2 s3 → same_admin s1 s3.
Proof.
  intros (A1 & A2 & A3 & A4 & A5 & A6) (B1 & B2 & B3 & B4 & B5 & B6).
  split; [congruence|]. split; [congruence|]. split; [congruence|]. split; [|split; congruence].
  intros r. by rewrite B4.
Qed.

(** ** Projections of an update of a pool. *)
Lemma update_pool_fields r f s :
  heap (update_pool r f s) = heap s ∧ stats (update_pool r f s) = stats s ∧
  active_blocks (update_pool r f s) = active_blocks s ∧ xpu_events (update_pool r f s) = xpu_events s ∧
  dev (update_pool r f s) = dev s ∧ captures_underway (update_pool r f s) = captures_underway s ∧
  graph_pools_freeable (update_pool r f s) = graph_pools_freeable s ∧ next_block (update_pool r f s) = next_block s ∧
  alloc_buffer (update_pool r f s) = alloc_buffer s ∧ set_fraction (update_pool r f s) = set_fraction s ∧
  allowed_memory_maximum (update_pool r f s) = allowed_memory_maximum s ∧ record_history (update_pool r f s) = record_history s ∧
  skip_actions_list (update_pool r f s) = skip_actions_list s.
Proof. unfold update_pool. destruct (owner_PrivatePool r); [done|]. by destruct (is_small r). Qed.

Lemma alter_fmap_same {A B} (g : A → B) (f : A → A) (m : gmap MempoolId_t A) i :
  (∀ x, g (f x) = g x) → g <$> alter f i m = g <$> m.
Proof.
  intros Hg. apply map_eq. intros j. rewrite !lookup_fmap. destruct (decide (j = i)) as [->|Hne].
  - rewrite lookup_alter_eq. destruct (m !! i); simpl; [by rewrite Hg|done].
  - by rewrite lookup_alter_ne.
Qed.

Lemma update_pool_counts r f s : uses (update_pool r f s) = uses s ∧ allocs (update_pool r f s) = allocs s.
Proof.
  unfold update_pool, uses, allocs. destruct (owner_PrivatePool r) as [i|]; [|by destruct (is_small r)]. cbn.
  split; apply alter_fmap_same; intros pp; unfold update_private; by destruct (is_small r).
Qed.

Lemma lookup_update_pool r f s r' :
  lookup_pool (update_pool r f s) r' = if decide (r' = r) then f <$> lookup_pool s r else lookup_pool s r'.
Proof.
  unfold update_pool, lookup_pool. destruct r as [[i|] sm], r' as [[i'|] sm']; cbn.
  - destruct (decide (i' = i)) as [->|Hne].
    + rewrite lookup_alter_eq. destruct (graph_pools s !! i) as [pp|]; cbn; [|by case_decide].
      unfold update_private. destruct sm, sm'; cbn; by case_decide.
    + rewrite lookup_alter_ne by done. rewrite decide_False by congruence. done.
  - by rewrite decide_False.
  - rewrite decide_False by congruence. by destruct sm.
  - destruct sm, sm'; cbn; by case_decide.
Qed.

(** ** Rules for the store. *)
Lemma wp_deref i b Q s : heap s !! i = Some b → Q b s → wp (deref i) Q s.
Proof. intros Hi. unfold wp, deref. by rewrite Hi. Qed.

Lemma wp_assign i f b Q s : heap s !! i = Some b → Q tt (set_heap (<[i := f b]> (heap s)) s) → wp (assign i f) Q s.
Proof. intros Hi HQ. apply wp_bind, (wp_deref i b); [done|]. by apply wp_modify. Qed.

Lemma wp_new_block b Q s :
  Q (next_block s) (set_next_block (Pos.succ (next_block s)) (set_heap (<[next_block s := b]> (heap s)) s)) →
  wp (new_block b) Q s.
Proof. done. Qed.

Lemma wp_delete_block i b Q s : heap s !! i = Some b → Q tt (set_heap (delete i (heap s)) s) → wp (delete_block i) Q s.
Proof. intros Hi HQ. apply wp_bind, (wp_deref i b); [done|]. by apply wp_modify. Qed.

Lemma wp_deref_pool r bp Q s : lookup_pool s r = Some bp → Q bp s → wp (deref_pool r) Q s.
Proof. intros Hr. unfold wp, deref_pool. by rewrite Hr. Qed.

Lemma wp_insert_free r i bp Q s : lookup_pool s r = Some bp →
  Q tt (update_pool r (set_blocks (set_insert (id_less BlockComparatorSize (heap s)) i)) s) → wp (insert_free r i) Q s.
Proof. intros Hr HQ. apply wp_bind, (wp_deref_pool r bp); [done|]. by apply wp_modify. Qed.

Lemma wp_erase_free r i bp Q s : lookup_pool s r = Some bp →
  Q tt (update_pool r (set_blocks (set_erase (id_less BlockComparatorSize (heap s)) i)) s) → wp (erase_free r i) Q s.
Proof. intros Hr HQ. apply wp_bind, (wp_deref_pool r bp); [done|]. by apply wp_modify. Qed.

Lemma wp_erase_at r i bp Q s : lookup_pool s r = Some bp →
  Q tt (update_pool r (set_blocks (filter (λ j, j ≠ i))) s) → wp (erase_at r i) Q s.
Proof. intros Hr HQ. apply wp_bind, (wp_deref_pool r bp); [done|]. by apply wp_modify. Qed.

Lemma insert_ring_ok e (r : RingBuffer TraceEntry) : ring_ok r → wp (insertEntries e) (λ _ r', ring_ok r') r.
Proof.
  intros (H1 & H2 & H3). unfold wp, insertEntries. destruct (decide (length (alloc_trace r) < alloc_trace_max_entries_ r)%nat).
  - unfold ring_ok. cbn. rewrite length_app. cbn. lia.
  - rewrite decide_True by lia. unfold ring_ok. cbn. rewrite length_insert. case_decide; lia.
Qed.

Lemma wp_record_trace a addr size queue device m Q s :
  ring_ok (alloc_buffer s) → (∀ ring, ring_ok ring → Q tt (set_alloc_buffer ring s)) →
  wp (record_trace a addr size queue device m) Q s.
Proof.
  intros Hr HQ. assert (set_alloc_buffer (alloc_buffer s) s = s) as Es by (by destruct s).
  unfold wp, record_trace. destruct (record_history s); cbn; [|rewrite <- Es; by apply HQ].
  case_decide; [rewrite <- Es; by apply HQ|].
  pose proof (insert_ring_ok (mkTrace a device addr size queue m) _ Hr) as Hi. unfold wp in Hi.
  destruct (insertEntries _ (alloc_buffer s)) as [ring [u|e]]; [|done]. destruct u. by apply HQ.
Qed.

(** ** Changing parts of the state. *)
Lemma core_transport segs ex hand ev s s' :
  core segs ex hand ev s → heap s' = heap s → live (dev s') = live (dev s) →
  (∀ r, lookup_pool s' r = lookup_pool s r) → uses s' = uses s → allocs s' = allocs s →
  graph_pools_freeable s' = graph_pools_freeable s → captures_underway s' = captures_underway s →
  next_block s' = next_block s → ring_ok (alloc_buffer s') → core segs ex hand ev s'.
Proof.
  intros [C1 C2 C3 C4 C5 C6 C7 C8 C9] E1 E2 E3 E4 E5 E6 E7 E8 Hr. split; rewrite ?E1, ?E2, ?E4, ?E5, ?E6, ?E7, ?E8; try done.
  - intros r bp. rewrite E3. apply C3.
  - intros i b. rewrite E3. apply C4.
Qed.

(** ** Pools as ordered sets. *)
Definition key h (i : loc) : option (Z * Z * Z) := (λ b, (bqueue b, bsize b, bptr b)) <$> h !! i.

Lemma id_less_key h h' x y : key h x = key h' x → key h y = key h' y →
  id_less BlockComparatorSize h x y = id_less BlockComparatorSize h' x y.
Proof.
  unfold key, id_less. intros Ex Ey.
  destruct (h !! x) as [a|], (h' !! x) as [a'|], (h !! y) as [b|], (h' !! y) as [b'|]; simpl in *; try congruence.
  injection Ex as E1 E2 E3. injection Ey as F1 F2 F3. unfold BlockComparatorSize. by rewrite E1, E2, E3, F1, F2, F3.
Qed.

Lemma comparator_strict a b c :
  BlockComparatorSize a a = false ∧
  (BlockComparatorSize a b = true → BlockComparatorSize b c = true → BlockComparatorSize a c = true) ∧
  (bptr a ≠ bptr b → BlockComparatorSize a b = true ∨ BlockComparatorSize b a = true).
Proof.
  unfold BlockComparatorSize. repeat split.
  - rewrite !Z.eqb_refl. cbn. apply Z.ltb_irrefl.
  - destruct (Z.lt_total (bqueue a) (bqueue b)) as [|[|]]; destruct (Z.lt_total (bqueue b) (bqueue c)) as [|[|]];
      repeat case_match; bool_simpl; intros; bool_simpl; try done; try lia; apply Z.ltb_lt; lia.
  - intros Hne. repeat case_match; bool_simpl; try lia; rewrite !Z.ltb_lt; lia.
Qed.

Lemma id_less_strict segs ex h : heap_ok segs ex h → strict_on (id_less BlockComparatorSize h) (λ k, is_Some (h !! k)).
Proof.
  intros Hok. unfold id_less. repeat split.
  - intros x [a Ha]. rewrite Ha. apply (comparator_strict a a a).
  - intros x y z [a Ha] [b Hb] [c Hc]. rewrite Ha, Hb, Hc. apply (comparator_strict a b c).
  - intros x y [a Ha] [b Hb] Hne. rewrite Ha, Hb. apply (comparator_strict a b a).
    intros E. apply Hne. by apply (heap_ptr_inj _ _ _ x a y b Hok).
Qed.

Lemma pool_elem_heap h hand r bp : pool_ok h hand r bp → Forall (λ k, is_Some (h !! k)) (blocks bp).
Proof. intros Hp. apply Forall_forall. intros k (b & Hb & _)%(pool_elem _ _ _ _ Hp). by exists b. Qed.

Lemma ordered_key h h' l : (∀ k, k ∈ l → key h' k = key h k) → ordered (id_less BlockComparatorSize h) l →
  ordered (id_less BlockComparatorSize h') l.
Proof. intros Hk Ho. apply (ordered_ext (id_less BlockComparatorSize h)); [|done]. intros. apply id_less_key; auto. Qed.

Lemma set_erase_ext {A} (lt lt' : A → A → bool) x l :
  (∀ y, y ∈ l → lt y x = lt' y x ∧ lt x y = lt' x y) → set_erase lt x l = set_erase lt' x l.
Proof.
  induction l as [|y l IH]; intros Hext; [done|]. simpl. destruct (Hext y ltac:(by left)) as [-> ->].
  rewrite IH; [done|]. intros z Hz. apply Hext. by right.
Qed.

Lemma set_insert_ext {A} (lt lt' : A → A → bool) x l :
  (∀ y, y ∈ l → lt y x = lt' y x ∧ lt x y = lt' x y) → set_insert lt x l = set_insert lt' x l.
Proof.
  induction l as [|y l IH]; intros Hext; [done|]. simpl. destruct (Hext y ltac:(by left)) as [-> ->].
  rewrite IH; [done|]. intros z Hz. apply Hext. by right.
Qed.

(** Erasing an element, with a heap that may differ in other places. *)
Lemma pool_erase segs ex h hh hand r bp j :
  heap_ok segs ex h → pool_ok h hand r bp → j ∈ blocks bp → (∀ k, k ∈ blocks bp → key hh k = key h k) →
  let l := set_erase (id_less BlockComparatorSize hh) j (blocks bp) in
  ordered (id_less BlockComparatorSize h) l ∧ ∀ k, k ∈ l ↔ k ∈ blocks bp ∧ k ≠ j.
Proof.
  intros Hok Hp Hj Hk l. unfold l. rewrite (set_erase_ext _ (id_less BlockComparatorSize h)).
  - apply (set_erase_spec _ (λ k, is_Some (h !! k))); [by eapply id_less_strict|by eapply pool_elem_heap|apply Hp|done].
  - intros y Hy. split; apply id_less_key; auto.
Qed.
End Invariant.
