(* ===== verification/XPUMerge.v ===== *)
(** * The XPU caching allocator: merging and freeing blocks.

    [try_merge_blocks] and [free_block] preserve the invariant, and what they
    do to the block, the statistics and the rest of the state. *)

From S2P Require Import Prelude CachingAllocator DeviceRuntime ExpandableSegment XPUBlocks XPUAllocator XPUHeap XPUInvariant.

Section Merging.
Context {D : Type} `{DeviceLaws D}.
Implicit Types (s : DeviceCachingAllocator D) (h : gmap loc Block).


(** ** [try_merge_blocks]. *)
Lemma redirect_id j i c : next c ≠ Some j → prev c ≠ Some j → redirect j i c = c.
Proof. intros Hn Hp. unfold redirect, redirect_ptr. rewrite !decide_False by done. by destruct c. Qed.

(** The assignments of [try_merge_blocks] when [j] is on the left of [i]. *)
Lemma merge_left_heap segs ex h i j b c b' :
  heap_ok segs ex h → h !! i = Some b → h !! j = Some c → i ≠ j → next c = Some i →
  (∀ h', h' = merge_heap i j b' h →
   delete j (<[i := b']> (match prev c with
     | Some p => match h !! p with Some d => <[p := set_next (Some i) d]> h | None => h end
     | None => h end)) = h').
Proof.
  intros Hok Hi Hj Hij Hn h' ->. apply map_eq. intros k.
  destruct (decide (k = j)) as [->|Hkj].
  { rewrite lookup_delete_eq. unfold merge_heap. by rewrite lookup_insert_ne, lookup_delete_eq by done. }
  rewrite lookup_delete_ne by done. destruct (decide (k = i)) as [->|Hki].
  { rewrite lookup_insert_eq. symmetry. apply lookup_insert_eq. }
  rewrite lookup_insert_ne, merge_heap_other by done.
  assert (∀ d, h !! k = Some d → prev d ≠ Some j) as Hpk.
  { intros d Hd E. pose proof (heap_prev_next _ _ _ j c k d Hok Hj Hd E). congruence. }
  destruct (prev c) as [p|] eqn:Ep.
  - destruct (heap_prev _ _ _ Hok j c p Hj Ep) as (d & Hd & Hdn). rewrite Hd. destruct (decide (k = p)) as [->|Hkp].
    + rewrite lookup_insert_eq, Hd. cbn. f_equal. unfold redirect, redirect_ptr. rewrite Hdn, decide_True by done.
      rewrite decide_False by (by apply Hpk). by destruct d.
    + rewrite lookup_insert_ne by done. destruct (h !! k) as [d'|] eqn:Hk; [|done]. cbn. rewrite redirect_id; [done| |by apply Hpk].
      intros E. apply Hkp. by apply (heap_next_inj _ _ _ k d' p d j Hok).
  - destruct (h !! k) as [d'|] eqn:Hk; [|done]. cbn. rewrite redirect_id; [done| |by apply Hpk].
    intros E. destruct (heap_next _ _ _ Hok k d' j Hk E) as (x & Hx & Px & _). congruence.
Qed.

(** The same when [j] is on the right. *)
Lemma merge_right_heap segs ex h i j b c b' :
  heap_ok segs ex h → h !! i = Some b → h !! j = Some c → i ≠ j → next b = Some j →
  (∀ h', h' = merge_heap i j b' h →
   delete j (<[i := b']> (match next c with
     | Some p => match h !! p with Some d => <[p := set_prev (Some i) d]> h | None => h end
     | None => h end)) = h').
Proof.
  intros Hok Hi Hj Hij Hn h' ->. apply map_eq. intros k.
  destruct (decide (k = j)) as [->|Hkj].
  { rewrite lookup_delete_eq. unfold merge_heap. by rewrite lookup_insert_ne, lookup_delete_eq by done. }
  rewrite lookup_delete_ne by done. destruct (decide (k = i)) as [->|Hki].
  { rewrite lookup_insert_eq. symmetry. apply lookup_insert_eq. }
  rewrite lookup_insert_ne, merge_heap_other by done.
  assert (∀ d, h !! k = Some d → next d ≠ Some j) as Hnk.
  { intros d Hd E. apply Hki. by apply (heap_next_inj _ _ _ k d i b j Hok). }
  destruct (next c) as [p|] eqn:Ep.
  - destruct (heap_next _ _ _ Hok j c p Hj Ep) as (d & Hd & Hdp & _). rewrite Hd. destruct (decide (k = p)) as [->|Hkp].
    + rewrite lookup_insert_eq, Hd. cbn. f_equal. unfold redirect, redirect_ptr. rewrite Hdp, (decide_True (P := Some j = Some j)) by done.
      rewrite decide_False by (by apply Hnk). by destruct d.
    + rewrite lookup_insert_ne by done. destruct (h !! k) as [d'|] eqn:Hk; [|done]. cbn. rewrite redirect_id; [done|by apply Hnk|].
      intros E. pose proof (heap_prev_next _ _ _ j c k d' Hok Hj Hk E). congruence.
  - destruct (h !! k) as [d'|] eqn:Hk; [|done]. cbn. rewrite redirect_id; [done|by apply Hnk|].
    intros E. pose proof (heap_prev_next _ _ _ j c k d' Hok Hj Hk E). congruence.
Qed.

(** What merging subtracts from the statistics of the other blocks. *)
Definition merge_sub (x : Z) (b b' : Block) (n : StatName) : Z :=
  match n with
  | segment => stat_of segment b' - stat_of segment b
  | reserved_bytes | inactive_split_bytes => x
  | inactive_split => if 0 <? x then 1 else 0
  | _ => 0
  end.

Record merged segs ev (r : PoolRef) (i : loc) (b : Block) s (left_side : bool) (x : Z) (b' : Block) s' : Prop := {
  m_core : core segs (Some i) (Some i) ev s';
  m_lookup : heap s' !! i = Some b';
  m_block : bpool b' = bpool b ∧ unused b' = true ∧ bqueue b' = bqueue b ∧ requested_size b' = requested_size b ∧
    expandable_segment b' = None;
  m_size : bsize b' = bsize b + x ∧ 0 ≤ x;
  m_frame : stats s' = stats s ∧ active_blocks s' = active_blocks s ∧ xpu_events s' = xpu_events s ∧
    same_admin s s' ∧ next_block s' = next_block s ∧ dev s' = dev s;
  m_used k : used (heap s') k = used (heap s) k;
  m_tot n t : tot n t (heap s') - in_stat t r (stat_of n b') =
    tot n t (heap s) - in_stat t r (stat_of n b) - in_stat t r (merge_sub x b b' n);
  m_side : if left_side then next b' = next b ∧ (∀ j, prev b' = Some j → is_Some (used (heap s') j))
    else prev b' = prev b ∧ (∀ j, next b' = Some j → is_Some (used (heap s') j));
  m_pointers : next b ≠ Some i ∧ prev b ≠ Some i
}.

Lemma no_self segs ex h i b : heap_ok segs ex h → h !! i = Some b → next b ≠ Some i ∧ prev b ≠ Some i.
Proof.
  intros Hok Hi. assert (next b ≠ Some i) as Hn.
  { intros E. destruct (heap_next _ _ _ Hok i b i Hi E) as (x & Hx & _ & F & _).
    pose proof (ok_size _ _ (heap_blocks _ _ _ Hok i b Hi)). assert (x = b) as -> by congruence. lia. }
  split; [done|]. intros E. destruct (heap_prev _ _ _ Hok i b i Hi E) as (x & Hx & Hxn). congruence.
Qed.

(** Nothing to merge with. *)
Lemma merged_none segs ev r i b s (left_side : bool) :
  core segs (Some i) (Some i) ev s → heap s !! i = Some b → unused b = true →
  (∀ j, (if left_side then prev b else next b) = Some j → is_Some (used (heap s) j)) →
  merged segs ev r i b s left_side 0 b s.
Proof.
  intros Hc Hi Hu Hside. split; try done.
  - pose proof (ok_plain _ _ (heap_blocks _ _ _ (core_heap _ _ _ _ _ Hc) i b Hi)). tauto.
  - split; [lia|done].
  - intros n t. assert (merge_sub 0 b b n = 0) as -> by (destruct n; cbn; lia). unfold in_stat. destruct (get_stat_types_for_pool r t); lia.
  - by destruct left_side.
  - by apply (no_self segs (Some i) (heap s) i b (core_heap _ _ _ _ _ Hc)).
Qed.

Lemma redirect_null j i p : redirect_ptr j i p = None ↔ p = None.
Proof. unfold redirect_ptr. case_decide as E; [by rewrite E|done]. Qed.

Lemma is_split_null b c : (prev b = None ↔ prev c = None) → (next b = None ↔ next c = None) → is_split b = is_split c.
Proof.
  unfold is_split. intros Hp Hn.
  destruct (prev b), (prev c), (next b), (next c); cbn; naive_solver.
Qed.

Lemma stat_shape n t : shape_only (λ b, in_stat t (bpool b) (stat_of n b)).
Proof.
  intros i j b. cbn. f_equal. unfold stat_of. change (unused (redirect j i b)) with (unused b).
  assert (is_split (redirect j i b) = is_split b) as Es by (apply is_split_null; apply redirect_null).
  destruct n; cbn [stat_val]; rewrite ?Es; try done. cbn. pose proof (redirect_null j i (prev b)).
  repeat case_decide; tauto || lia.
Qed.

Lemma head_shape m : shape_only (head_of m).
Proof.
  intros i j b. unfold head_of. cbn. pose proof (redirect_null j i (prev b)). repeat case_decide; tauto || lia.
Qed.

Lemma unused_spec b : unused b = true ↔ allocated b = false ∧ event_count b = 0 ∧ stream_uses b = [].
Proof.
  unfold unused. rewrite !andb_true_iff, negb_true_iff, Z.eqb_eq. destruct (stream_uses b); naive_solver.
Qed.

Lemma unused_block segs b : block_ok segs b → unused b = true ↔ allocated b = false ∧ event_count b = 0.
Proof.
  intros Hb. rewrite unused_spec. split; [tauto|]. intros [Ha He]. by rewrite (ok_streams _ _ Hb Ha).
Qed.

Lemma used_None h k c : h !! k = Some c → unused c = true → used h k = None.
Proof. intros Hk Hc. unfold used. by rewrite Hk, Hc. Qed.

Section MergeState.
Context (segs : gmap Z Z) (ev : list loc) (i j : loc) (b c b' : Block) (s s' : DeviceCachingAllocator D)
  (hh : gmap loc Block) (left_side : bool).
Context (Hc : core segs (Some i) (Some i) ev s) (Hi : heap s !! i = Some b) (Hj : heap s !! j = Some c)
  (Ub : unused b = true) (Uc : unused c = true)
  (Hadj : (if left_side then prev b else next b) = Some j)
  (Hjoin : joined b (if left_side then c else b) (if left_side then b else c) b')
  (Hreq : requested_size b' = requested_size b)
  (Eh : heap s' = merge_heap i j b' (heap s))
  (Ep : ∀ r, lookup_pool s' r = if decide (r = bpool b)
     then set_blocks (set_erase (id_less BlockComparatorSize hh) j) <$> lookup_pool s r else lookup_pool s r)
  (Hkey : ∀ k, k ≠ i → key hh k = key (heap s) k).

Local Lemma ms_ij : i ≠ j.
Proof.
  intros <-. destruct (no_self _ _ _ i b (core_heap _ _ _ _ _ Hc) Hi). by destruct left_side.
Qed.

Local Lemma ms_next : next (if left_side then c else b) = Some (if left_side then i else j).
Proof.
  destruct left_side; [|done]. apply (heap_prev_next segs (Some i) (heap s) j c i b); [apply Hc|done|done|done].
Qed.

Local Lemma ms_side : let il := if left_side then j else i in let ir := if left_side then i else j in
  let l := if left_side then c else b in let r := if left_side then b else c in
  il = i ∧ l = b ∧ ir = j ∧ r = c ∨ il = j ∧ l = c ∧ ir = i ∧ r = b.
Proof. destruct left_side; [right|left]; done. Qed.

Local Lemma ms_heap : heap_ok segs (Some i) (heap s').
Proof.
  rewrite Eh. eapply (merge_ok segs (heap s) i j b c b'); [apply Hc|done|done|apply ms_ij|exact ms_side|exact ms_next|done].
Qed.

Local Lemma ms_pool : bpool c = bpool b ∧ bpool b' = bpool b ∧ unused b' = true ∧ prev c ≠ Some j ∧
  (if left_side then next c = Some i else prev c = Some i).
Proof.
  pose proof Hjoin as (_ & P & _ & _ & J5 & J6 & J7 & _). pose proof ms_next as Hnx.
  destruct (heap_next _ _ _ (core_heap _ _ _ _ _ Hc) (if left_side then j else i) (if left_side then c else b)
    (if left_side then i else j)) as (d & Hd & Hp & _ & _ & F); [by destruct left_side|done|].
  assert (d = if left_side then b else c) as -> by (destruct left_side; congruence).
  split; [by destruct left_side|]. split; [done|]. split.
  { apply unused_spec. apply unused_spec in Ub. by rewrite J5, J6, J7. }
  destruct (no_self _ _ _ j c (core_heap _ _ _ _ _ Hc) Hj). split; [done|].
  by destruct left_side.
Qed.

Local Lemma ms_other k : k ≠ i → k ≠ j → heap s' !! k = redirect j i <$> heap s !! k.
Proof. rewrite Eh. apply merge_heap_other. Qed.

Local Lemma ms_i : heap s' !! i = Some b'.
Proof. rewrite Eh. apply lookup_insert_eq. Qed.
Local Lemma ms_j : heap s' !! j = None.
Proof. rewrite Eh. unfold merge_heap. rewrite lookup_insert_ne by apply ms_ij. apply lookup_delete_eq. Qed.

Local Lemma ms_key k : k ≠ i → k ≠ j → key (heap s') k = key (heap s) k.
Proof. intros Hki Hkj. unfold key. rewrite ms_other by done. by destruct (heap s !! k). Qed.

Local Lemma ms_pools r bp : lookup_pool s' r = Some bp → pool_ok (heap s') (Some i) r bp.
Proof.
  rewrite Ep. intros Hr. destruct ms_pool as (Pc & Pb & Ub' & _). pose proof ms_ij as Hij.
  assert (∀ bp0, lookup_pool s r = Some bp0 → ∀ k, k ∈ blocks bp0 → k ≠ i) as Hhand.
  { intros bp0 E k (x & _ & _ & _ & Hx)%(pool_elem _ _ _ _ (core_pools _ _ _ _ _ Hc r bp0 E)). congruence. }
  (* the elements, given those of the list *)
  assert (∀ bp0 l, lookup_pool s r = Some bp0 → (∀ k, k ∈ l ↔ k ∈ blocks bp0 ∧ k ≠ j) →
    ordered (id_less BlockComparatorSize (heap s)) l → pool_ok (heap s') (Some i) r (mkBlockPool l (unmapped bp0))) as Hgen.
  { intros bp0 l E Hl Ho. pose proof (core_pools _ _ _ _ _ Hc r bp0 E) as [P1 P2 P3]. split; [done| |].
    - apply (ordered_key (heap s)); [|done]. intros k [Hk Hkj]%Hl. apply ms_key; [by apply (Hhand bp0)|done].
    - intros k. cbn. rewrite Hl, P3. destruct (decide (k = i)) as [->|Hki].
      { split; [|intros (x & _ & _ & _ & Hx); done]. intros [(x & _ & _ & _ & Hx) _]. done. }
      destruct (decide (k = j)) as [->|Hkj].
      { rewrite ms_j. split; [tauto|]. by intros (x & Hx & _). }
      rewrite ms_other by done. split.
      + intros [(x & Hx & R) _]. exists (redirect j i x). by rewrite Hx.
      + intros (x & Hx & R1 & R2 & R3). split; [|done]. destruct (heap s !! k) as [y|]; [|done].
        injection Hx as <-. by exists y. }
  case_decide as Er.
  - destruct (lookup_pool s r) as [bp0|] eqn:E; [|done]. injection Hr as <-.
    destruct (pool_erase segs (Some i) (heap s) hh (Some i) r bp0 j) as [X1 X2].
    + apply Hc.
    + by apply Hc.
    + apply (pool_elem _ _ _ _ (core_pools _ _ _ _ _ Hc r bp0 E)). exists c. split; [done|]. split; [congruence|].
      split; [done|]. congruence.
    + intros k Hk. by apply Hkey, (Hhand bp0).
    + by apply (Hgen bp0).
  - destruct bp as [l u]. apply (Hgen (mkBlockPool l u)); [done| |apply (core_pools _ _ _ _ _ Hc r _ Hr)].
    intros k. split; [|tauto]. intros Hk. split; [done|]. intros ->.
    apply (pool_elem _ _ _ _ (core_pools _ _ _ _ _ Hc r _ Hr)) in Hk as (x & Hx & Px & _). congruence.
Qed.

Local Lemma ms_total (f : Block → Z) : shape_only f → total f (heap s') = total f (heap s) - f b - f c + f b'.
Proof. intros Hf. rewrite Eh. apply total_merge; [done|done|done|apply ms_ij]. Qed.

Local Lemma ms_stat n : stat_of n c = merge_sub (bsize c) b b' n.
Proof.
  pose proof Hjoin as (_ & _ & _ & _ & _ & _ & _ & _ & _ & Jp & _).
  destruct ms_pool as (_ & _ & _ & _ & Hside). pose proof (ok_size _ _ (heap_blocks _ _ _ (core_heap _ _ _ _ _ Hc) j c Hj)).
  assert (allocated c = false) as Ea by (by apply unused_spec in Uc as (-> & _)).
  assert (is_split c = true) as Es.
  { unfold is_split. destruct left_side; rewrite Hside; cbn; [apply orb_true_r|done]. }
  unfold stat_of, merge_sub. rewrite Uc, Ea. destruct n; cbn [stat_val negb]; rewrite ?Es; try done.
  - unfold stat_of, stat_val. rewrite Jp. destruct left_side; rewrite ?Hadj, ?Hside; cbn; repeat case_decide; done || lia.
  - destruct (0 <? bsize c) eqn:E; bool_simpl; [done|lia].
Qed.

Local Lemma ms_used k : used (heap s') k = used (heap s) k.
Proof.
  destruct (decide (k = i)) as [->|Hki].
  { rewrite (used_None _ i b'), (used_None _ i b); try done; [apply ms_i|apply ms_pool]. }
  destruct (decide (k = j)) as [->|Hkj].
  { rewrite (used_None (heap s) j c) by done. unfold used. by rewrite ms_j. }
  unfold used. rewrite ms_other by done. by destruct (heap s !! k).
Qed.

(** The neighbour beyond the merged block is in use. *)
Local Lemma ms_beyond k : (if left_side then prev c else next c) = Some k → is_Some (used (heap s') k).
Proof.
  intros E. pose proof (core_heap _ _ _ _ _ Hc) as Hok. destruct ms_pool as (_ & _ & _ & _ & Hside). rewrite ms_used. pose proof ms_ij as Hij.
  assert (∃ d, heap s !! k = Some d ∧ k ≠ i ∧ unused d = false) as (d & Hd & _ & Ud).
  { destruct left_side.
    - destruct (heap_prev _ _ _ Hok j c k Hj E) as (d & Hd & Hn). exists d. split; [done|].
      assert (k ≠ i) as Hki.
      { intros ->. assert (d = b) as -> by congruence. destruct (heap_next _ _ _ Hok i b j Hi Hn) as (x & Hx & Px & F & _).
        destruct (heap_next _ _ _ Hok j c i Hj Hside) as (y & Hy & _ & G & _). assert (x = c) as -> by congruence.
        assert (y = b) as -> by congruence. pose proof (ok_size _ _ (heap_blocks _ _ _ Hok i b Hi)).
        pose proof (ok_size _ _ (heap_blocks _ _ _ Hok j c Hj)). lia. }
      split; [done|]. destruct (unused d) eqn:U; [|done].
      destruct (heap_coalesced _ _ _ Hok k d j c Hd Hn Hj U Uc) as [X|X]; congruence.
    - destruct (heap_next _ _ _ Hok j c k Hj E) as (d & Hd & Hp & G & _). exists d. split; [done|].
      assert (k ≠ i) as Hki.
      { intros ->. assert (d = b) as -> by congruence. destruct (heap_next _ _ _ Hok i b j Hi Hadj) as (x & Hx & _ & F & _).
        assert (x = c) as -> by congruence. pose proof (ok_size _ _ (heap_blocks _ _ _ Hok i b Hi)).
        pose proof (ok_size _ _ (heap_blocks _ _ _ Hok j c Hj)). lia. }
      split; [done|]. destruct (unused d) eqn:U; [|done].
      destruct (heap_coalesced _ _ _ Hok j c k d Hj E Hd Uc U) as [X|X]; congruence. }
  unfold used. by rewrite Hd, Ud.
Qed.

Lemma merge_state :
  stats s' = stats s → active_blocks s' = active_blocks s → xpu_events s' = xpu_events s → same_admin s s' →
  allocs s' = allocs s → next_block s' = next_block s → dev s' = dev s → alloc_buffer s' = alloc_buffer s →
  merged segs ev (bpool b) i b s left_side (bsize c) b' s'.
Proof.
  intros F1 F2 F3 F4 F5 F6 F7 F8. pose proof Hjoin as (J1 & J2 & J3 & J4 & J5 & J6 & J7 & J8 & J9 & J10 & J11).
  destruct ms_pool as (Pc & Pb & Ub' & _ & Hside). pose proof ms_ij as Hij.
  pose proof (core_heap _ _ _ _ _ Hc) as Hok. pose proof F4 as (A1 & A2 & A3 & A4 & _).
  split; try done.
  - split.
    + apply ms_heap.
    + rewrite F7. apply Hc.
    + apply ms_pools.
    + intros k x Hk. rewrite A4. destruct (decide (k = i)) as [->|Hki].
      { rewrite ms_i in Hk. injection Hk as <-. rewrite Pb. by apply (core_owner _ _ _ _ _ Hc i b). }
      destruct (decide (k = j)) as [->|Hkj]; [by rewrite ms_j in Hk|]. rewrite ms_other in Hk by done.
      destruct (heap s !! k) as [y|] eqn:Ey; [|done]. injection Hk as <-. by apply (core_owner _ _ _ _ _ Hc k y).
    + intros k. rewrite (core_events _ _ _ _ _ Hc k). apply unused_spec in Ub as (_ & Eb & _).
      apply unused_spec in Uc as (_ & Ec & _). destruct (decide (k = i)) as [->|Hki]; [by rewrite Hi, ms_i, J7|].
      destruct (decide (k = j)) as [->|Hkj]; [by rewrite Hj, ms_j|]. rewrite ms_other by done. by destruct (heap s !! k).
    + intros m n. rewrite F5. intros Hm. rewrite ms_total by apply head_shape.
      rewrite (core_counts _ _ _ _ _ Hc m n Hm). unfold head_of. rewrite Pc, Pb, J10.
      destruct left_side; rewrite ?Hadj, ?Hside; repeat case_decide; try lia; naive_solver.
    + rewrite A1, A2, A3. apply Hc.
    + intros k x Hk. rewrite F6. destruct (decide (k = i)) as [->|Hki]; [by apply (core_fresh _ _ _ _ _ Hc i b)|].
      destruct (decide (k = j)) as [->|Hkj]; [by rewrite ms_j in Hk|]. rewrite ms_other in Hk by done.
      destruct (heap s !! k) as [y|] eqn:Ey; [|done]. by apply (core_fresh _ _ _ _ _ Hc k y).
    + rewrite F8. apply Hc.
  - apply ms_i.
  - split; [done|]. split; [done|]. split; [done|]. split; [done|]. rewrite J4.
    apply (ok_plain _ _ (heap_blocks _ _ _ Hok i b Hi)).
  - pose proof (ok_size _ _ (heap_blocks _ _ _ Hok j c Hj)). rewrite J9. destruct left_side; lia.
  - intros k. apply ms_used.
  - intros n t. unfold tot. rewrite (ms_total _ (stat_shape n t)). cbn. rewrite Pc, Pb, ms_stat.
    unfold in_stat. destruct (get_stat_types_for_pool (bpool b) t); lia.
  - pose proof ms_beyond as Hbey. destruct left_side; (split; [done|]); intros k Hk; apply Hbey; congruence.
  - apply (no_self _ _ _ i b Hok Hi).
Qed.
End MergeState.
Lemma set_heap_fields h s :
  heap (set_heap h s) = h ∧ lookup_pool (set_heap h s) = lookup_pool s ∧ uses (set_heap h s) = uses s ∧
  allocs (set_heap h s) = allocs s.
Proof. done. Qed.

(** The state after the assignments, the erasure and the deletion. *)
Lemma merge_run segs ev i j b c b' s (left_side : bool) h2 :
  core segs (Some i) (Some i) ev s → heap s !! i = Some b → heap s !! j = Some c → unused b = true → unused c = true →
  (if left_side then prev b else next b) = Some j →
  joined b (if left_side then c else b) (if left_side then b else c) b' → requested_size b' = requested_size b →
  delete j h2 = merge_heap i j b' (heap s) → h2 !! j = Some c → (∀ k, k ≠ i → key h2 k = key (heap s) k) →
  wp (erase_free (bpool b) j;; delete_block j;; mret (bsize c))
    (λ x s', merged segs ev (bpool b) i b s left_side x b' s') (set_heap h2 s).
Proof.
  intros Hc Hi Hj Ub Uc Hadj Hjoin Hreq Eh Hj2 Hkey.
  destruct (core_owner _ _ _ _ _ Hc i b Hi) as [bp Hbp].
  apply wp_bind, (wp_erase_free _ _ bp); [done|]. change (heap (set_heap h2 s)) with h2. set (s2 := update_pool _ _ _).
  pose proof (update_pool_fields (bpool b) (set_blocks (set_erase (id_less BlockComparatorSize h2) j)) (set_heap h2 s)) as U.
  pose proof (update_pool_counts (bpool b) (set_blocks (set_erase (id_less BlockComparatorSize h2) j)) (set_heap h2 s)) as V.
  assert (∀ r, lookup_pool s2 r = if decide (r = bpool b)
    then set_blocks (set_erase (id_less BlockComparatorSize h2) j) <$> lookup_pool s r else lookup_pool s r) as Hl.
  { intros r. unfold s2. rewrite lookup_update_pool. case_decide as E; [by rewrite E|done]. }
  fold s2 in U, V. clearbody s2. destruct U as (U1 & U2 & U3 & U4 & U5 & U6 & U7 & U8 & U9 & U10 & U11 & _), V as [V1 V2].
  change (heap s2 = h2) in U1.
  apply wp_bind, (wp_delete_block j c); [by rewrite U1|]. apply wp_ret.
  apply (merge_state segs ev i j b c b' s (set_heap (delete j (heap s2)) s2) h2); try done.
  - cbn. by rewrite U1.
  - split; [done|]. split; [done|]. split; [done|]. split; [|done]. intros r. change (is_Some (lookup_pool s2 r) ↔ is_Some (lookup_pool s r)).
    rewrite Hl. case_decide as E; [rewrite E; by rewrite fmap_is_Some|done].
Qed.

(** The assignment of the size and what follows it. *)
Lemma merge_tail segs ev i j b c b2 s (left_side : bool) h2 :
  core segs (Some i) (Some i) ev s → heap s !! i = Some b → heap s !! j = Some c → unused b = true → unused c = true →
  (if left_side then prev b else next b) = Some j → i ≠ j → let b' := set_bsize (bsize b2 + bsize c) b2 in
  joined b (if left_side then c else b) (if left_side then b else c) b' → requested_size b2 = requested_size b →
  delete j (<[i := b']> h2) = merge_heap i j b' (heap s) → (∀ k, k ≠ i → key h2 k = key (heap s) k) →
  h2 !! i = Some b2 → h2 !! j = Some c →
  wp (assign i (λ b, set_bsize (bsize b + bsize c) b);; erase_free (bpool b) j;; delete_block j;; mret (bsize c))
    (λ x s', ∃ b', merged segs ev (bpool b) i b s left_side x b' s') (set_heap h2 s).
Proof.
  intros Hc Hi Hj Ub Uc Hadj Hij b' Hjoin Hreq Hdel Hkey H2i H2j.
  apply wp_bind, (wp_assign i _ b2); [done|].
  eapply wp_mono; [apply (merge_run segs ev i j b c b' s left_side (<[i := b']> h2)); try done|].
  - by rewrite lookup_insert_ne.
  - intros k Hk. unfold key. rewrite lookup_insert_ne by done. by apply Hkey.
  - intros x s' _ Hm. by exists b'.
Qed.

(** The two neighbours of a block that has both are different. *)
Lemma ends_differ segs ex h i b j c :
  heap_ok segs ex h → h !! i = Some b → h !! j = Some c → next b = Some j → next c ≠ Some i.
Proof.
  intros Hok Hi Hj Hb Hc. destruct (heap_next _ _ _ Hok i b j Hi Hb) as (x & Hx & _ & F & _).
  destruct (heap_next _ _ _ Hok j c i Hj Hc) as (y & Hy & _ & G & _). assert (x = c) as -> by congruence.
  assert (y = b) as -> by congruence. pose proof (ok_size _ _ (heap_blocks _ _ _ Hok i b Hi)).
  pose proof (ok_size _ _ (heap_blocks _ _ _ Hok j c Hj)). lia.
Qed.

Lemma try_merge_left segs ev i j b c s :
  core segs (Some i) (Some i) ev s → heap s !! i = Some b → heap s !! j = Some c → unused b = true → unused c = true →
  prev b = Some j →
  wp ((assign i (set_bptr (bptr c));; assign i (set_prev (prev c));; assign_if (prev c) (set_next (Some i)));;
      assign i (λ b, set_bsize (bsize b + bsize c) b);; erase_free (bpool b) j;; delete_block j;; mret (bsize c))
    (λ x s', ∃ b', merged segs ev (bpool b) i b s true x b' s') s.
Proof.
  intros Hc Hi Hj Ub Uc Hadj. pose proof (core_heap _ _ _ _ _ Hc) as Hok.
  destruct (heap_prev _ _ _ Hok i b j Hi Hadj) as (c0 & E & Hback). assert (c0 = c) as -> by congruence. clear E.
  assert (i ≠ j) as Hij by (intros <-; destruct (no_self _ _ _ i b Hok Hi); congruence).
  set (b2 := set_prev (prev c) (set_bptr (bptr c) b)). set (b' := set_bsize (bsize b2 + bsize c) b2).
  pose proof (merge_left_heap segs (Some i) (heap s) i j b c b' Hok Hi Hj Hij Hback _ eq_refl) as Eh.
  assert (joined b c b b') as Hjoin by (repeat split; cbn; lia).
  apply wp_bind, wp_bind, (wp_assign i _ b); [done|]. cbn [heap set_heap].
  apply wp_bind, (wp_assign i _ (set_bptr (bptr c) b)); [apply lookup_insert_eq|]. cbn [heap set_heap].
  destruct (prev c) as [p|] eqn:Ep; cbn [assign_if].
  - destruct (heap_prev _ _ _ Hok j c p Hj Ep) as (d & Hd & Hdn). rewrite Hd in Eh.
    assert (p ≠ i) as Hpi by (intros ->; pose proof (ends_differ _ _ _ i d j c Hok Hd Hj Hdn); congruence).
    assert (p ≠ j) as Hpj by (intros ->; destruct (no_self _ _ _ j c Hok Hj); congruence).
    apply (wp_assign p _ d); [cbn; by rewrite !lookup_insert_ne|]. cbn [heap set_heap]. rewrite insert_insert_eq.
    apply (merge_tail segs ev i j b c b2 s true); try done.
    + change (set_bsize (bsize b2 + bsize c) b2) with b'. rewrite <- Eh. f_equal.
      rewrite !(insert_insert_ne _ i p) by done. by rewrite insert_insert_eq.
    + intros k Hk. unfold key. destruct (decide (k = p)) as [->|Hkp]; [by rewrite lookup_insert_eq, Hd|].
      by rewrite !lookup_insert_ne.
    + by rewrite lookup_insert_ne, lookup_insert_eq by done.
    + by rewrite !lookup_insert_ne by done.
  - apply wp_ret. rewrite insert_insert_eq. apply (merge_tail segs ev i j b c b2 s true); try done.
    + by rewrite insert_insert_eq.
    + intros k Hk. unfold key. by rewrite lookup_insert_ne.
    + apply lookup_insert_eq.
    + by rewrite lookup_insert_ne.
Qed.

Lemma try_merge_right segs ev i j b c s :
  core segs (Some i) (Some i) ev s → heap s !! i = Some b → heap s !! j = Some c → unused b = true → unused c = true →
  next b = Some j →
  wp ((assign i (set_next (next c));; assign_if (next c) (set_prev (Some i)));;
      assign i (λ b, set_bsize (bsize b + bsize c) b);; erase_free (bpool b) j;; delete_block j;; mret (bsize c))
    (λ x s', ∃ b', merged segs ev (bpool b) i b s false x b' s') s.
Proof.
  intros Hc Hi Hj Ub Uc Hadj. pose proof (core_heap _ _ _ _ _ Hc) as Hok.
  assert (i ≠ j) as Hij by (intros <-; destruct (no_self _ _ _ i b Hok Hi); congruence).
  set (b2 := set_next (next c) b). set (b' := set_bsize (bsize b2 + bsize c) b2).
  pose proof (merge_right_heap segs (Some i) (heap s) i j b c b' Hok Hi Hj Hij Hadj _ eq_refl) as Eh.
  assert (joined b b c b') as Hjoin by (repeat split; cbn; lia).
  apply wp_bind, wp_bind, (wp_assign i _ b); [done|]. cbn [heap set_heap].
  destruct (next c) as [p|] eqn:Ep; cbn [assign_if].
  - destruct (heap_next _ _ _ Hok j c p Hj Ep) as (d & Hd & Hdp & _). rewrite Hd in Eh.
    assert (p ≠ i) as Hpi by (intros ->; pose proof (ends_differ _ _ _ i b j c Hok Hi Hj Hadj); congruence).
    assert (p ≠ j) as Hpj by (intros ->; destruct (no_self _ _ _ j c Hok Hj); congruence).
    apply (wp_assign p _ d); [cbn; by rewrite !lookup_insert_ne|]. cbn [heap set_heap].
    apply (merge_tail segs ev i j b c b2 s false); try done.
    + change (set_bsize (bsize b2 + bsize c) b2) with b'. rewrite <- Eh. f_equal.
      rewrite !(insert_insert_ne _ i p) by done. by rewrite insert_insert_eq.
    + intros k Hk. unfold key. destruct (decide (k = p)) as [->|Hkp]; [by rewrite lookup_insert_eq, Hd|].
      by rewrite !lookup_insert_ne.
    + by rewrite lookup_insert_ne, lookup_insert_eq by done.
    + by rewrite !lookup_insert_ne by done.
  - apply wp_ret. apply (merge_tail segs ev i j b c b2 s false); try done.
    + by rewrite insert_insert_eq.
    + intros k Hk. unfold key. by rewrite lookup_insert_ne.
    + apply lookup_insert_eq.
    + by rewrite lookup_insert_ne.
Qed.

Lemma try_merge_spec segs ev i b s (left_side : bool) :
  core segs (Some i) (Some i) ev s → heap s !! i = Some b → unused b = true →
  wp (try_merge_blocks i (if left_side then prev b else next b) (bpool b))
    (λ x s', ∃ b', merged segs ev (bpool b) i b s left_side x b' s') s.
Proof.
  intros Hc Hi Ub. pose proof (core_heap _ _ _ _ _ Hc) as Hok.
  destruct (if left_side then prev b else next b) as [j|] eqn:Hadj; cbn [try_merge_blocks].
  2: { apply wp_ret. exists b. by apply merged_none; try done; rewrite Hadj. }
  assert (∃ c, heap s !! j = Some c ∧ (if left_side then next c = Some i else prev c = Some i)) as (c & Hj & Hback).
  { destruct left_side; [by apply (heap_prev _ _ _ Hok i b j Hi)|].
    destruct (heap_next _ _ _ Hok i b j Hi Hadj) as (c & Hj & Hp & _). by exists c. }
  pose proof (heap_blocks _ _ _ Hok j c Hj) as Bc. pose proof (heap_blocks _ _ _ Hok i b Hi) as Bb.
  apply wp_bind, (wp_deref j c); [done|]. apply wp_bind, (wp_deref i b); [done|].
  destruct (ok_plain _ _ Bc) as [-> _]. destruct (ok_plain _ _ Bb) as [-> _]. cbn [Bool.eqb negb]. rewrite orb_false_r.
  assert (allocated c || (0 <? event_count c) || negb (is_nil (stream_uses c)) = negb (unused c)) as ->.
  { unfold unused, is_nil. pose proof (ok_events _ _ Bc). rewrite !negb_andb, negb_involutive.
    destruct (event_count c =? 0) eqn:E1; destruct (0 <? event_count c) eqn:E2; bool_simpl; try lia; done. }
  destruct (unused c) eqn:Uc; cbn [negb].
  2: { apply wp_ret. exists b. apply merged_none; try done. rewrite Hadj. intros k [= <-]. unfold used. by rewrite Hj, Uc. }
  assert (is_split b = true ∧ is_split c = true) as [-> ->].
  { unfold is_split. destruct left_side; rewrite Hadj, Hback; cbn; rewrite ?orb_true_r; done. }
  apply wp_bind, wp_assert; [done|]. destruct left_side.
  - rewrite decide_True by done. by apply try_merge_left.
  - rewrite decide_False; [by apply try_merge_right|]. intros E.
    destruct (heap_prev _ _ _ Hok i b j Hi E) as (d & Hd & Hn). assert (d = c) as -> by congruence.
    by apply (ends_differ _ _ _ i b j c Hok Hi Hj Hadj).
Qed.
End Merging.
