(* ===== verification/XPUFree.v ===== *)
(** * The XPU caching allocator: freeing blocks and completing events.

    [free_block] puts a block back into its pool and makes the statistics and
    the set of active blocks agree with the heap again; the events of a block
    end in it. *)

From S2P Require Import Prelude CachingAllocator DeviceRuntime ExpandableSegment XPUBlocks XPUAllocator XPUHeap XPUInvariant XPUMerge.

(** ** Updates of the statistics. *)

(** [f] adds [δ] to the current values of the column it is given. *)
Definition adds (f : StatType → DeviceStats → DeviceStats) (δ : StatName → Z) : Prop :=
  ∀ t st n t', current (arrays (f t st) n t') = current (arrays st n t') + if decide (t' = t) then δ n else 0.

Lemma adds_0 : adds (λ _ st, st) (λ _, 0).
Proof. intros t st n t'. case_decide; lia. Qed.

Lemma adds_update f δ n g x : adds f δ → (∀ y, current (g y) = current y + x) →
  adds (λ t st, update_stat n t g (f t st)) (λ m, δ m + if decide (m = n) then x else 0).
Proof.
  intros Hf Hg t st m t'. unfold update_stat. cbn. rewrite <- (Z.add_0_r (current (arrays st m t'))), <- Z.add_assoc.
  destruct (decide (m = n)) as [->|Hm], (decide (t' = t)) as [->|Ht];
    [rewrite decide_True by done|rewrite decide_False by tauto..];
    rewrite ?Hg, Hf; first [rewrite decide_True by done|rewrite decide_False by done]; lia.
Qed.

Lemma adds_increase f δ n x : adds f δ → adds (λ t st, update_stat n t (increase x) (f t st)) (λ m, δ m + if decide (m = n) then x else 0).
Proof. intros Hf. by apply adds_update. Qed.

Lemma adds_decrease f δ n x : adds f δ → adds (λ t st, update_stat n t (decrease x) (f t st)) (λ m, δ m + if decide (m = n) then - x else 0).
Proof. intros Hf. apply adds_update; [done|]. intros y. cbn. lia. Qed.

(** A change of either sign. *)
Definition signed_update (n : StatName) (x : Z) (t : StatType) (st : DeviceStats) : DeviceStats :=
  if 0 <? x then update_stat n t (increase x) st else if x <? 0 then update_stat n t (decrease (- x)) st else st.

Lemma adds_signed f δ n x : adds f δ → adds (λ t st, signed_update n x t (f t st)) (λ m, δ m + if decide (m = n) then x else 0).
Proof.
  intros Hf. unfold signed_update. destruct (0 <? x) eqn:E1; [by apply adds_increase|]. destruct (x <? 0) eqn:E2.
  - apply adds_update; [done|]. intros y. cbn. lia.
  - bool_simpl. assert (x = 0) as -> by lia. intros t st m t'. rewrite Hf. repeat case_decide; lia.
Qed.

Lemma for_each_adds r f δ st n t : adds f δ →
  current (arrays (for_each_selected_stat_type (get_stat_types_for_pool r) f st) n t) =
  current (arrays st n t) + in_stat t r (δ n).
Proof.
  intros Hf. unfold for_each_selected_stat_type, in_stat, get_stat_types_for_pool. cbn [foldl].
  destruct (is_small r), t; cbn [negb]; rewrite ?Hf; repeat first [rewrite decide_True by done|rewrite decide_False by done]; lia.
Qed.

(** The statistics differ from those of the heap by [δ], in the pool [r]. *)
Definition stats_off (h : gmap loc Block) (st : DeviceStats) (r : PoolRef) (δ : StatName → Z) : Prop :=
  ∀ n t, current (arrays st n t) = tot n t h + in_stat t r (δ n).

Lemma in_stat_add t r x y : in_stat t r (x + y) = in_stat t r x + in_stat t r y.
Proof. unfold in_stat. destruct (get_stat_types_for_pool r t); lia. Qed.

Lemma in_stat_0 t r : in_stat t r 0 = 0.
Proof. unfold in_stat. by destruct (get_stat_types_for_pool r t). Qed.

Lemma stats_off_0 h st r : stats_off h st r (λ _, 0) ↔ stats_ok h st.
Proof. unfold stats_off, stats_ok. split; intros Hs n t; rewrite Hs, ?in_stat_0; lia. Qed.

Lemma stats_off_update h h' st st' r r' δ i b b' :
  stats_off h st r δ → h !! i = Some b → h' = <[i := b']> h → bpool b = r → bpool b' = r → r' = r →
  (∀ n t, current (arrays st' n t) = current (arrays st n t)) →
  stats_off h' st' r' (λ n, δ n + stat_of n b - stat_of n b').
Proof.
  intros Hs Hi -> <- Hr -> E n t. rewrite E, (Hs n t). unfold tot. rewrite (total_update _ h i b b' Hi).
  rewrite Hr. unfold in_stat. destruct (get_stat_types_for_pool (bpool b) t); lia.
Qed.

Section Freeing.
Context {D : Type} `{DeviceLaws D}.
Implicit Types (s : DeviceCachingAllocator D) (h : gmap loc Block).

Lemma wp_for_stats r f δ Q s : adds f δ →
  (∀ st, (∀ n t, current (arrays st n t) = current (arrays (stats s) n t) + in_stat t r (δ n)) → Q tt (set_stats st s)) →
  wp (for_stats r f) Q s.
Proof. intros Hf HQ. apply wp_modify, HQ. intros n t. by apply for_each_adds. Qed.
(** ** [free_block]. *)

(** The block [i] is unused but not yet in its pool, and still counted as
    active. *)
Record releasing segs ev (i : loc) (b : Block) s : Prop := {
  r_core : core segs (Some i) (Some i) ev s;
  r_lookup : heap s !! i = Some b;
  r_unused : unused b = true;
  r_active k : k ∈ active_blocks s ↔ k = i ∨ is_Some (used (heap s) k);
  r_stats : stats_off (heap s) (stats s) (bpool b) (λ n, stat_val false true b n - stat_of n b)
}.

(** The invariant, for given segments and pending events. *)
Definition good segs ev s : Prop := core segs None None ev s ∧ active_ok s ∧ stats_ok (heap s) (stats s).

(** What the operations on blocks that are not in use leave alone. *)
Definition same_use s s' : Prop :=
  same_admin s s' ∧ xpu_events s' = xpu_events s ∧ dev s' = dev s ∧ ∀ k, used (heap s') k = used (heap s) k.

Lemma same_use_trans s1 s2 s3 : same_use s1 s2 → same_use s2 s3 → same_use s1 s3.
Proof.
  intros (A1 & A2 & A3 & A4) (B1 & B2 & B3 & B4). split; [by apply (same_admin_trans _ s2)|].
  split; [congruence|]. split; [congruence|]. intros k. by rewrite B4.
Qed.

Lemma unused_neighbour h j c : h !! j = Some c → is_Some (used h j) → unused c = false.
Proof. intros Hj [u Hu]. unfold used in Hu. rewrite Hj in Hu. by destruct (unused c). Qed.

(** No neighbour of [i] is unused. *)
Lemma heap_ok_settled segs i h b :
  heap_ok segs (Some i) h → h !! i = Some b → (∀ j, prev b = Some j → is_Some (used h j)) →
  (∀ j, next b = Some j → is_Some (used h j)) → heap_ok segs None h.
Proof.
  intros Hok Hi Hp Hn. pose proof Hok as [H1 H2 H3 H4 H8 H7 H5 H6]. split; try done.
  intros k x j y Hk E Hj Ux Uy. destruct (H6 k x j y Hk E Hj Ux Uy) as [[= <-]|[= <-]]; exfalso.
  - assert (x = b) as -> by congruence. pose proof (unused_neighbour _ _ _ Hj (Hn j E)). congruence.
  - assert (y = b) as -> by congruence. destruct (H2 k x i Hk E) as (z & Hz & Pz & _).
    assert (z = b) as -> by congruence. pose proof (unused_neighbour _ _ _ Hk (Hp k Pz)). congruence.
Qed.

(** Putting a block into its pool. *)
Lemma core_insert_free segs ev i b s :
  core segs None (Some i) ev s → heap s !! i = Some b → unused b = true →
  core segs None None ev (update_pool (bpool b) (set_blocks (set_insert (id_less BlockComparatorSize (heap s)) i)) s).
Proof.
  intros Hc Hi Ub. pose proof (core_heap _ _ _ _ _ Hc) as Hok. set (f := set_blocks _).
  destruct (update_pool_fields (bpool b) f s) as (E1 & _ & _ & _ & E2 & E3 & E4 & E5 & E6 & _).
  destruct (update_pool_counts (bpool b) f s) as [E7 E8]. destruct Hc as [_ C2 C3 C4 C5 C6 C7 C8 C9].
  split; rewrite ?E1, ?E2, ?E3, ?E4, ?E5, ?E6, ?E7, ?E8; try done.
  - intros r bp. rewrite lookup_update_pool. case_decide as Er.
    + subst r. destruct (lookup_pool s (bpool b)) as [bp0|] eqn:E; [|done]. intros [= <-].
      pose proof (C3 _ _ E) as Hp. destruct (set_insert_spec (id_less BlockComparatorSize (heap s)) (λ k, is_Some (heap s !! k)) i (blocks bp0))
        as [X1 X2]; [by apply (id_less_strict segs None)|by exists b|by apply (pool_elem_heap _ _ _ _ Hp)| |apply Hp|].
      { intros (x & _ & _ & _ & Hx)%(pool_elem _ _ _ _ Hp). done. }
      destruct Hp as [P1 P2 P3]. split; [done|done|]. intros k. cbn. rewrite X2, P3. split.
      * intros [->|(x & Hx & R1 & R2 & _)]; [by exists b|by exists x].
      * intros (x & Hx & R1 & R2 & _). destruct (decide (k = i)) as [->|]; [by left|right]. exists x.
        repeat split; try done. congruence.
    + intros E. destruct (C3 r bp E) as [P1 P2 P3]. split; [done|done|]. intros k. rewrite P3. split.
      * intros (x & Hx & R1 & R2 & _). by exists x.
      * intros (x & Hx & R1 & R2 & _). exists x. repeat split; try done. intros [= <-]. apply Er. congruence.
  - intros k x Hx. rewrite lookup_update_pool. case_decide as Er; [|by apply (C4 k x)].
    rewrite fmap_is_Some. by apply (C4 i b).
Qed.
Lemma core_settle segs i hand ev b s :
  core segs (Some i) hand ev s → heap s !! i = Some b → (∀ j, prev b = Some j → is_Some (used (heap s) j)) →
  (∀ j, next b = Some j → is_Some (used (heap s) j)) → core segs None hand ev s.
Proof. intros [C1 C2 C3 C4 C5 C6 C7 C8 C9] Hi Hp Hn. split; try done. by apply (heap_ok_settled segs i _ b). Qed.

(** The change of the statistics in [free_block]. *)
Definition free_delta (b b2 : Block) (x1 x2 : Z) (n : StatName) : Z :=
  match n with
  | active => -1
  | active_bytes => - bsize b
  | requested_bytes => - requested_size b
  | inactive_split => (if is_split b2 then 1 else 0) - (if 0 <? x1 then 1 else 0) - (if 0 <? x2 then 1 else 0)
  | inactive_split_bytes => (if is_split b2 then bsize b2 else 0) - x1 - x2
  | _ => 0
  end.

Lemma free_adds b b2 x1 x2 : expandable_segment b2 = None →
  let merged x := if 0 <? x then 1 else 0 in
  let net_blocks := - merged x1 - merged x2 in
  let net_size := - x1 - x2 in
  let net_blocks := if is_split b2 then net_blocks + 1 else net_blocks in
  let net_size := if is_split b2 then net_size + bsize b2 else net_size in
  adds (λ t st,
    let st :=
      if decide (expandable_segment b2 = None) then
        let st := if 0 <? net_blocks then update_stat inactive_split t (increase net_blocks) st
                 else if net_blocks <? 0 then update_stat inactive_split t (decrease (- net_blocks)) st else st in
        if 0 <? net_size then update_stat inactive_split_bytes t (increase net_size) st
        else if net_size <? 0 then update_stat inactive_split_bytes t (decrease (- net_size)) st else st
      else st in
    update_stat requested_bytes t (decrease (requested_size b))
      (update_stat active_bytes t (decrease (bsize b)) (update_stat active t (decrease 1) st))) (free_delta b b2 x1 x2).
Proof.
  intros He merged nb ns nb' ns'. destruct (decide (expandable_segment b2 = None)); [|done].
  assert (adds (λ t st, update_stat requested_bytes t (decrease (requested_size b))
      (update_stat active_bytes t (decrease (bsize b)) (update_stat active t (decrease 1)
        (signed_update inactive_split_bytes ns' t (signed_update inactive_split nb' t st)))))
    (λ m, 0 + (if decide (m = inactive_split) then nb' else 0) + (if decide (m = inactive_split_bytes) then ns' else 0) +
      (if decide (m = active) then - (1) else 0) + (if decide (m = active_bytes) then - bsize b else 0) +
      (if decide (m = requested_bytes) then - requested_size b else 0))) as Ha.
  { apply adds_decrease, adds_decrease, adds_decrease, adds_signed, adds_signed, adds_0. }
  intros t st n t'. specialize (Ha t st n t'). cbv beta in Ha. etransitivity; [exact Ha|]. f_equal.
  case_decide; [|done]. unfold free_delta, nb', ns', nb, ns, merged.
  destruct n; repeat first [rewrite decide_True by done|rewrite decide_False by done]; destruct (is_split b2); lia.
Qed.

Lemma free_block_spec segs ev i b s :
  releasing segs ev i b s → wp (free_block i) (λ _ s', good segs ev s' ∧ same_use s s') s.
Proof.
  intros [R1 R2 R3 R4 R5]. apply unused_spec in R3 as Hu. destruct Hu as (U1 & U2 & U3).
  apply wp_bind, (wp_deref i b); [done|]. apply wp_bind, wp_assert; [by rewrite U1, U2, U3|].
  apply wp_bind, wp_record_trace; [apply R1|]. intros ring Hring. set (s0 := set_alloc_buffer ring s).
  assert (core segs (Some i) (Some i) ev s0) as C0 by (by apply (core_transport _ _ _ _ s)).
  apply wp_bind. eapply wp_mono; [exact (try_merge_spec segs ev i b s0 true C0 R2 R3)|]. cbv beta.
  intros x1 s1 _ (b1 & [M1 M2 (P1 & P2 & P3 & P4 & P5) (S1 & S2) (F1 & F2 & F3 & F4 & F5 & F6) Mu Mt [N1 N2] _]).
  apply wp_bind. rewrite <- N1, <- P1. eapply wp_mono; [exact (try_merge_spec segs ev i b1 s1 false M1 M2 P2)|]. cbv beta.
  intros x2 s2 _ (b2 & [K1 K2 (Q1 & Q2 & Q3 & Q4 & Q5) (T1 & T2) (G1 & G2 & G3 & G4 & G5 & G6) Ku Kt [L1 L2] _]).
  assert (∀ k, used (heap s2) k = used (heap s) k) as Hused by (intros k; by rewrite Ku, Mu).
  apply wp_bind, wp_modify. set (s3 := set_active_blocks _ _).
  assert (core segs None (Some i) ev s3) as C3.
  { apply (core_transport _ _ _ _ s2); try done; [|apply K1]. apply (core_settle _ i _ _ b2); try done.
    intros j Hj. rewrite Ku. apply N2. congruence. }
  destruct (core_owner _ _ _ _ _ C3 i b2 K2) as [bp Hbp]. rewrite Q1, P1 in Hbp.
  apply wp_bind, (wp_insert_free _ _ bp); [by rewrite P1|].
  pose proof (core_insert_free segs ev i b2 s3 C3 K2 Q2) as C4. rewrite Q1 in C4.
  set (s4 := update_pool _ _ _) in *.
  pose proof (update_pool_fields (bpool b1) (set_blocks (set_insert (id_less BlockComparatorSize (heap s3)) i)) s3) as U.
  pose proof (update_pool_counts (bpool b1) (set_blocks (set_insert (id_less BlockComparatorSize (heap s3)) i)) s3) as V.
  assert (∀ r, is_Some (lookup_pool s4 r) ↔ is_Some (lookup_pool s3 r)) as Hl.
  { intros r. unfold s4. rewrite lookup_update_pool. case_decide as E; [by rewrite E, fmap_is_Some|done]. }
  fold s4 in U, V. clearbody s4. destruct U as (V1 & V2 & V3 & V4 & V5 & V6 & V7 & V8 & V9 & V10 & V11 & _), V as [V12 V13].
  apply wp_bind, (wp_deref i b2); [by rewrite V1|].
  rewrite P1. eapply wp_for_stats; [by apply free_adds|]. intros st Hst.
  split.
  - split; [by apply (core_transport _ _ _ _ s4); try apply C4|]. split.
    + intros k. cbn [active_blocks set_stats heap]. rewrite V3, V1. cbn [active_blocks set_active_blocks s3 heap].
      rewrite G2, F2, Hused. change (active_blocks s0) with (active_blocks s). rewrite elem_of_difference, R4, elem_of_singleton.
      unfold used. destruct (decide (k = i)) as [->|]; [|tauto]. rewrite R2, R3. split; [tauto|]. by intros [? ?].
    + intros n t. cbn [stats set_stats heap]. rewrite Hst, V1, V2. change (stats s3) with (stats s2). change (heap s3) with (heap s2).
      rewrite G1, F1. change (stats s0) with (stats s). rewrite (R5 n t). specialize (Kt n t). specialize (Mt n t).
      change (heap s0) with (heap s) in Mt. rewrite P1 in *. unfold in_stat in *.
      destruct (get_stat_types_for_pool (bpool b) t); [|lia]. clear Hst.
      assert (stat_val false true b n + free_delta b b2 x1 x2 n = stat_of n b2 - merge_sub x1 b b1 n - merge_sub x2 b1 b2 n); [|lia].
      assert (allocated b2 = false) as A2 by (by apply unused_spec in Q2 as (-> & _)).
      unfold stat_of at 1. rewrite Q2, A2. destruct n; cbn [stat_val negb free_delta merge_sub]; try lia.
      * unfold stat_of. cbn. lia.
  - unfold s3 in V4, V5, V6, V7, V10, V11. cbn in V4, V5, V6, V7, V10, V11. change (uses s4 = uses s2) in V12.
    destruct F4 as (A1 & A2 & A3 & A4 & A5 & A6), G4 as (B1 & B2 & B3 & B4 & B5 & B6).
    unfold s0 in A1, A2, A5, A6, F3, F6. cbn in A1, A2, A5, A6, F3, F6. change (uses s1 = uses s) in A3.
    split; [|split; [|split]].
    + split; [cbn; congruence|]. split; [cbn; congruence|]. split; [change (uses s4 = uses s); congruence|].
      split; [|split; cbn; congruence]. intros r. change (is_Some (lookup_pool s4 r) ↔ is_Some (lookup_pool s r)).
      rewrite Hl. change (lookup_pool s3 r) with (lookup_pool s2 r). by rewrite B4, A4.
    + cbn. congruence.
    + cbn. congruence.
    + intros k. cbn. rewrite V1. apply Hused.
Qed.
End Freeing.
