(* ===== verification/XPUEvents.v ===== *)
(** * The XPU caching allocator: completing events.

    [decrement_event], [process_events] and [synchronize_and_free_events]
    preserve the invariant, and the uses they end are those whose last event
    they complete. *)

From S2P Require Import Prelude CachingAllocator DeviceRuntime ExpandableSegment XPUBlocks XPUAllocator XPUHeap XPUInvariant XPUMerge XPUFree.

(** ** Pending events. *)
Lemma pending_nil i : pending i [] = 0.
Proof. done. Qed.

Lemma pending_app i l1 l2 : pending i (l1 ++ l2) = pending i l1 + pending i l2.
Proof. unfold pending. rewrite filter_app, length_app. lia. Qed.

Lemma pending_cons i j l : pending i (j :: l) = (if decide (j = i) then 1 else 0) + pending i l.
Proof. unfold pending. rewrite filter_cons. case_decide; cbn; lia. Qed.

Lemma pending_nonneg i l : 0 ≤ pending i l.
Proof. unfold pending. lia. Qed.

Lemma pending_elem i l : i ∈ l ↔ 0 < pending i l.
Proof.
  induction l as [|j l IH]; [rewrite pending_nil; split; [by intros ?%not_elem_of_nil|lia]|].
  pose proof (pending_nonneg i l). rewrite pending_cons, elem_of_cons, IH.
  case_decide as E; [subst; split; [lia|by left]|]. split; [intros [->|?]; [done|lia]|right; lia].
Qed.

(** What is left of a use when the events [ev] are left. *)
Definition settle (ev : list loc) (k : loc) (u : Use) : option Use :=
  if u_events u =? 0 then Some u
  else if pending k ev =? 0 then None
  else Some (mkUse (u_queue u) (u_ptr u) (u_size u) (u_requested u) (u_pool u) (u_allocated u) (u_streams u) (pending k ev)).

Lemma settle_same ev k u : u_events u = pending k ev → settle ev k u = Some u.
Proof. intros E. unfold settle. destruct (u_events u =? 0) eqn:E0; [done|]. rewrite <- E, E0. by destruct u. Qed.

Lemma settle_settle ev ev' k u : pending k ev' ≤ pending k ev → settle ev k u ≫= settle ev' k = settle ev' k u.
Proof.
  intros Hle. pose proof (pending_nonneg k ev'). unfold settle. destruct (u_events u =? 0) eqn:E0; cbn; [by rewrite E0|].
  destruct (pending k ev =? 0) eqn:E1; cbn; [|by rewrite E1].
  bool_simpl. by replace (pending k ev') with 0 by lia.
Qed.

Section Events.
Context {D : Type} `{DeviceLaws D}.
Implicit Types (s : DeviceCachingAllocator D) (h : gmap loc Block).

(** ** Changing the use of a block. *)
Lemma used_insert h i b k :
  used (<[i := b]> h) k = if decide (k = i) then (if unused b then None else Some (use_of b)) else used h k.
Proof.
  unfold used. case_decide as E; [subst; by rewrite lookup_insert_eq|by rewrite lookup_insert_ne].
Qed.

Lemma pool_ok_use segs ex h hand hand' r bp i b b' :
  heap_ok segs ex h → pool_ok h hand r bp → h !! i = Some b → same_place b b' →
  (unused b = true ∧ hand ≠ Some i ↔ unused b' = true ∧ hand' ≠ Some i) →
  (∀ k, k ≠ i → hand = Some k ↔ hand' = Some k) → pool_ok (<[i := b']> h) hand' r bp.
Proof.
  intros Hok [P1 P2 P3] Hi (Eq & Es & Ep & Et & _) Hu Hh. split; [done| |].
  - apply (ordered_key h); [|done]. intros k _. unfold key. destruct (decide (k = i)) as [->|Hki].
    + rewrite lookup_insert_eq, Hi. cbn. by rewrite Eq, Es, Et.
    + by rewrite lookup_insert_ne.
  - intros k. rewrite P3. destruct (decide (k = i)) as [->|Hki].
    + rewrite lookup_insert_eq, Hi. split; intros (x & [= <-] & R1 & R2 & R3).
      * exists b'. split; [done|]. split; [congruence|]. by apply Hu.
      * exists b. split; [done|]. split; [congruence|]. by apply Hu.
    + rewrite lookup_insert_ne by done. pose proof (Hh k Hki). naive_solver.
Qed.

Lemma core_use segs ex ex' hand hand' ev ev' i b b' s :
  core segs ex hand ev s → heap s !! i = Some b → same_place b b' → block_ok segs b' →
  (∀ j, ex = Some j → ex' = Some j ∨ j = i ∧ unused b' = false) →
  (unused b' = true → unused b = true ∨ ex' = Some i) →
  (unused b = true ∧ hand ≠ Some i ↔ unused b' = true ∧ hand' ≠ Some i) →
  (∀ k, k ≠ i → hand = Some k ↔ hand' = Some k) →
  (∀ k, k ≠ i → pending k ev' = pending k ev) → pending i ev' = event_count b' →
  core segs ex' hand' ev' (set_heap (<[i := b']> (heap s)) s).
Proof.
  intros Hc Hi Hsp Hb' X1 X2 X3 X4 X5 X6. pose proof Hsp as (Eq & Es & Ep & Et & _ & Epr & _).
  destruct Hc as [C1 C2 C3 C4 C5 C6 C7 C8 C9]. split; try done.
  - by apply (update_use segs ex ex' (heap s) i b b').
  - intros r bp Hr. by apply (pool_ok_use segs ex (heap s) hand hand' r bp i b b'); [|apply C3|..].
  - intros k x. cbn. rewrite lookup_insert_Some. intros [[<- <-]|[_ Hk]]; [|by apply (C4 k x)]. rewrite <- Ep. by apply (C4 i b).
  - intros k. cbn. destruct (decide (k = i)) as [->|Hki]; [by rewrite lookup_insert_eq|].
    rewrite lookup_insert_ne, X5 by done. apply C5.
  - intros m n Hm. cbn. rewrite (total_update _ _ i b b' Hi), (C6 m n Hm). unfold head_of. rewrite Ep, Epr. lia.
  - intros k x. cbn. rewrite lookup_insert_Some. intros [[<- <-]|[_ Hk]]; [by apply (C8 i b)|by apply (C8 k x)].
Qed.

(** ** Completing an event. *)

(** What changes when events complete. *)
Definition progress ev' s s' : Prop :=
  same_admin s s' ∧ dev s' = dev s ∧ ∀ k, used (heap s') k = used (heap s) k ≫= settle ev' k.

Lemma good_events segs ev s k u : good segs ev s → used (heap s) k = Some u → u_events u = pending k ev.
Proof.
  intros [Hc _] Hu. rewrite (core_events _ _ _ _ _ Hc k). unfold used in Hu. destruct (heap s !! k) as [c|]; [|done].
  destruct (unused c); [done|]. by injection Hu as <-.
Qed.

Lemma progress_refl segs ev s : good segs ev s → progress ev s s.
Proof.
  intros Hg. split; [apply same_admin_refl|]. split; [done|]. intros k. destruct (used (heap s) k) as [u|] eqn:E; [|done].
  cbn. by rewrite (settle_same ev k u) by (by apply (good_events segs ev s)).
Qed.

Lemma progress_trans ev1 ev2 s1 s2 s3 : (∀ k, pending k ev2 ≤ pending k ev1) →
  progress ev1 s1 s2 → progress ev2 s2 s3 → progress ev2 s1 s3.
Proof.
  intros Hle (A1 & A2 & A3) (B1 & B2 & B3). split; [by apply (same_admin_trans _ s2)|]. split; [congruence|].
  intros k. rewrite B3, A3. destruct (used (heap s1) k) as [u|]; [|done]. by apply settle_settle.
Qed.

Lemma good_set_events segs ev q s : good segs ev s → good segs ev (set_xpu_events q s).
Proof. intros (A & B & C). split; [|done]. by apply (core_transport _ _ _ _ s); try apply A. Qed.

Lemma good_pending segs ev ev' s : (∀ k, pending k ev' = pending k ev) → good segs ev s → good segs ev' s.
Proof.
  intros He ([C1 C2 C3 C4 C5 C6 C7 C8 C9] & B & C). split; [|done]. split; try done. intros k. by rewrite He.
Qed.

(** One event of [i] completes: the others are [ev']. *)
Lemma decrement_event_spec segs ev ev' i s :
  good segs ev s → (∀ k, pending k ev = (if decide (k = i) then 1 else 0) + pending k ev') →
  wp (decrement_event i) (λ _ s', good segs ev' s' ∧ progress ev' s s' ∧ xpu_events s' = xpu_events s) s.
Proof.
  intros (Hc & Ha & Hs) He. pose proof (core_events _ _ _ _ _ Hc i) as Hp. rewrite He in Hp.
  rewrite decide_True in Hp by done. pose proof (pending_nonneg i ev') as Hn.
  destruct (heap s !! i) as [b|] eqn:Hi; [|lia]. set (b' := set_event_count (event_count b - 1) b).
  pose proof (heap_blocks _ _ _ (core_heap _ _ _ _ _ Hc) i b Hi) as Bb.
  assert (allocated b = false) as Al by (destruct (allocated b) eqn:E; [pose proof (ok_allocated _ _ Bb E); lia|done]).
  pose proof (ok_streams _ _ Bb Al) as St. assert (unused b = false) as Ub.
  { unfold unused. rewrite Al, St. cbn. destruct (event_count b =? 0) eqn:E; [bool_simpl; lia|done]. }
  assert (unused b' = (event_count b - 1 =? 0)) as Ub'.
  { unfold unused, b'. cbn. rewrite Al, St. cbn. by rewrite andb_true_r. }
  assert (block_ok segs b') as Bb'.
  { destruct Bb as [K1 K2 K3 K4 K5 K6 K7]. split; try done; cbn; [lia|congruence]. }
  assert (same_place b b') as Sp by done. assert (event_count b' = pending i ev') as Eb' by (cbn; lia).
  assert (∀ k, k ≠ i → pending k ev' = pending k ev) as Hev by (intros k Hk; rewrite He, decide_False by done; lia).
  set (s1 := set_heap (<[i := b']> (heap s)) s).
  assert (∀ k, used (heap s1) k = used (heap s) k ≫= settle ev' k) as Hu.
  { intros k. cbn. rewrite used_insert. case_decide as E.
    - subst k. unfold used. rewrite Hi, Ub, Ub'. cbn. unfold settle. cbn. rewrite <- Eb'. cbn.
      rewrite (proj2 (Z.eqb_neq (event_count b) 0)) by lia. by destruct (event_count b - 1 =? 0).
    - destruct (used (heap s) k) as [u|] eqn:E2; [|done]. cbn. symmetry. apply settle_same.
      rewrite Hev by done. by apply (good_events segs ev s). }
  apply wp_bind, (wp_assign i _ b); [done|]. apply wp_bind, (wp_deref i b'); [apply lookup_insert_eq|].
  change (event_count b' =? 0) with (event_count b - 1 =? 0). fold s1. rewrite <- Ub'. destruct (unused b') eqn:Z0.
  - eapply wp_mono; [apply (free_block_spec segs ev' i b')|].
    + split; [|apply lookup_insert_eq|done| |].
      * apply (core_use segs None (Some i) None (Some i) ev ev' i b b'); try done; [by right| |].
        -- rewrite Ub. naive_solver.
        -- naive_solver.
      * intros k. cbn [active_blocks set_heap s1]. rewrite (Ha k). rewrite Hu. destruct (decide (k = i)) as [->|Hki].
        -- split; [by left|]. intros _. unfold used. rewrite Hi, Ub. by eexists.
        -- rewrite <- Hu. cbn. rewrite used_insert, decide_False by done. naive_solver.
      * intros n t. cbn [stats set_heap s1 heap]. rewrite (Hs n t). unfold tot. rewrite (total_update _ _ i b b' Hi).
        change (bpool b') with (bpool b). assert (stat_of n b = stat_val false true b' n) as ->.
        { unfold stat_of. rewrite Ub, Al. by destruct n. }
        unfold in_stat. destruct (get_stat_types_for_pool (bpool b) t); lia.
    + cbn beta. intros _ s' _ [G (S1 & S2 & S3 & S4)]. split; [done|]. split; [|done].
      split; [done|]. split; [done|]. intros k. by rewrite S4.
  - apply wp_ret. split; [|done]. split; [|split].
    + apply (core_use segs None None None None ev ev' i b b'); try done; rewrite ?Ub, ?Z0; naive_solver.
    + intros k. cbn [active_blocks set_heap heap]. fold b'. rewrite (Ha k), used_insert, Z0. case_decide; [|done].
      subst. unfold used. rewrite Hi, Ub. split; by eexists.
    + intros n t. cbn [stats set_heap heap]. fold b'. rewrite (Hs n t). unfold tot. rewrite (total_update _ _ i b b' Hi).
      change (bpool b') with (bpool b). assert (stat_of n b = stat_of n b') as ->; [|lia].
      unfold stat_of. rewrite Ub, Z0. by destruct n.
Qed.
(** ** [process_events]. *)
Definition evs (l : list (XPUStream * list (Z * loc))) : list loc := snd <$> concat (snd <$> l).

(** What is left of a queue, and of all queues. *)
Fixpoint drop_complete (complete : Z → bool) (q : list (Z * loc)) : list (Z * loc) :=
  match q with
  | [] => []
  | e :: r => if complete e.1 then drop_complete complete r else q
  end.

Definition remaining (complete : Z → bool) (l : list (XPUStream * list (Z * loc))) : list (XPUStream * list (Z * loc)) :=
  filter (λ x, x.2 ≠ []) ((λ x, (x.1, drop_complete complete x.2)) <$> l).

Lemma remaining_cons complete st q l : remaining complete ((st, q) :: l) =
  (if is_nil (drop_complete complete q) then [] else [(st, drop_complete complete q)]) ++ remaining complete l.
Proof.
  unfold remaining. rewrite fmap_cons, filter_cons. destruct (drop_complete complete q) eqn:E; cbn [fst snd]; rewrite E.
  - by rewrite decide_False by naive_solver.
  - by rewrite decide_True.
Qed.

Lemma evs_app l1 l2 : evs (l1 ++ l2) = evs l1 ++ evs l2.
Proof. unfold evs. by rewrite fmap_app, concat_app, fmap_app. Qed.

Lemma evs_cons st q l : evs ((st, q) :: l) = (snd <$> q) ++ evs l.
Proof. unfold evs. cbn. by rewrite fmap_app. Qed.

Lemma pending_drop complete k q : pending k (snd <$> drop_complete complete q) ≤ pending k (snd <$> q).
Proof. induction q as [|[e j] q IH]; [done|]. cbn. case_match; [|done]. rewrite pending_cons. case_decide; lia. Qed.

Lemma process_queue_spec segs complete before stream rest q s :
  good segs (evs (before ++ (stream, q) :: rest)) s → xpu_events s = before ++ (stream, q) :: rest →
  wp (process_queue complete before stream q rest) (λ q' s', q' = drop_complete complete q ∧
    good segs (evs (before ++ (stream, q') :: rest)) s' ∧ xpu_events s' = before ++ (stream, q') :: rest ∧
    progress (evs (before ++ (stream, q') :: rest)) s s') s.
Proof.
  revert s. induction q as [|[e j] q IH]; intros s Hg Hx; cbn.
  { apply wp_ret. split; [done|]. split; [done|]. split; [done|]. by apply (progress_refl segs). }
  destruct (complete e) eqn:Ec; cbn [negb].
  2: { apply wp_ret. split; [done|]. split; [done|]. split; [done|]. by apply (progress_refl segs). }
  assert (∀ k, pending k (evs (before ++ (stream, (e, j) :: q) :: rest)) =
    (if decide (k = j) then 1 else 0) + pending k (evs (before ++ (stream, q) :: rest))) as Hev.
  { intros k. rewrite !evs_app, !evs_cons, !pending_app. cbn. rewrite pending_cons. repeat case_decide; congruence || lia. }
  apply wp_bind. eapply wp_mono; [exact (decrement_event_spec _ _ _ j s Hg Hev)|]. cbv beta. intros _ s1 _ (G1 & P1 & X1).
  apply wp_bind, wp_modify. eapply wp_mono; [apply IH; [by apply good_set_events|done]|]. cbv beta.
  intros q' s' _ (-> & G2 & X2 & P2). split; [done|]. split; [done|]. split; [done|].
  apply (progress_trans (evs (before ++ (stream, q) :: rest)) _ s (set_xpu_events (before ++ (stream, q) :: rest) s1)); [|done|done].
  intros k. rewrite !evs_app, !evs_cons, !pending_app. pose proof (pending_drop complete k q). lia.
Qed.

Lemma pending_remaining complete k l : pending k (evs (remaining complete l)) ≤ pending k (evs l).
Proof.
  induction l as [|[st q] l IH]; [done|]. rewrite remaining_cons, evs_app, evs_cons, !pending_app.
  pose proof (pending_drop complete k q). pose proof (pending_nonneg k (snd <$> drop_complete complete q)).
  destruct (is_nil (drop_complete complete q)); [cbn; rewrite pending_nil; lia|].
  rewrite evs_cons, pending_app. cbn. rewrite pending_nil. lia.
Qed.

Lemma process_queues_spec segs complete before rest s :
  good segs (evs (before ++ rest)) s → xpu_events s = before ++ rest →
  wp (process_queues complete before rest) (λ _ s',
    good segs (evs (before ++ remaining complete rest)) s' ∧ xpu_events s' = before ++ remaining complete rest ∧
    progress (evs (before ++ remaining complete rest)) s s') s.
Proof.
  revert before s. induction rest as [|[stream q] rest IH]; intros before s Hg Hx; cbn [process_queues].
  { apply wp_ret. split; [done|]. split; [done|]. by apply (progress_refl segs). }
  apply wp_bind. eapply wp_mono; [by apply process_queue_spec|]. cbv beta. intros q' s1 _ (-> & G1 & X1 & P1).
  pose proof (pending_remaining complete) as Hrem. rewrite remaining_cons.
  destruct (drop_complete complete q) as [|e r] eqn:Ed; cbn [is_nil app].
  - apply wp_bind, wp_modify.
    assert (∀ k, pending k (evs (before ++ rest)) = pending k (evs (before ++ (stream, []) :: rest))) as Hk.
    { intros k. by rewrite !evs_app, evs_cons, !pending_app. }
    eapply wp_mono; [apply IH; [|done]|].
    + apply good_set_events. by eapply good_pending.
    + cbv beta. intros _ s' _ (G2 & X2 & P2). split; [done|]. split; [done|].
      apply (progress_trans (evs (before ++ (stream, []) :: rest)) _ s (set_xpu_events (before ++ rest) s1)); [|done|done].
      intros k. specialize (Hrem k rest). rewrite !evs_app, evs_cons, !pending_app. cbn. rewrite pending_nil. lia.
  - replace (before ++ (stream, e :: r) :: rest) with ((before ++ [(stream, e :: r)]) ++ rest) in *
      by (by rewrite <- app_assoc). replace (before ++ (stream, e :: r) :: remaining complete rest)
      with ((before ++ [(stream, e :: r)]) ++ remaining complete rest) by (by rewrite <- app_assoc).
    eapply wp_mono; [by apply IH|]. cbv beta. intros _ s' _ (G2 & X2 & P2). split; [done|]. split; [done|].
    apply (progress_trans (evs ((before ++ [(stream, e :: r)]) ++ rest)) _ s s1); [|done|done].
    intros k. specialize (Hrem k rest). rewrite !(evs_app (before ++ _)), !pending_app. lia.
Qed.

Lemma process_events_spec segs complete s :
  good segs (events_of s) s →
  wp (process_events complete) (λ _ s', good segs (events_of s') s' ∧
    xpu_events s' = remaining complete (xpu_events s) ∧ progress (events_of s') s s') s.
Proof.
  intros Hg. apply wp_bind, wp_reads. eapply wp_mono; [by apply (process_queues_spec segs complete [])|].
  cbv beta. intros _ s' _ (G & X & P). unfold events_of. by rewrite X.
Qed.

(** ** [synchronize_and_free_events]. *)

(** A block in use that does not belong to the pool given. *)
Definition other_pool (pool : option MempoolId_t) s (k : loc) : bool :=
  match used (heap s) k with
  | Some u => bool_decide (is_Some pool) && bool_decide (owner_PrivatePool (u_pool u) ≠ pool)
  | None => false
  end.

Lemma settle_pool ev k u u' : settle ev k u = Some u' → u_pool u' = u_pool u.
Proof. unfold settle. repeat case_match; congruence || by intros [= <-]. Qed.

Lemma synchronize_all_spec segs pool events skipped s :
  good segs ((snd <$> events) ++ skipped) s →
  wp (synchronize_all pool events) (λ _ s', let ev' := filter (λ k, other_pool pool s k = true) (snd <$> events) ++ skipped in
    good segs ev' s' ∧ progress ev' s s' ∧ xpu_events s' = xpu_events s) s.
Proof.
  revert skipped s. induction events as [|[e j] events IH]; intros skipped s Hg; cbn [synchronize_all].
  { apply wp_ret. split; [done|]. split; [by apply (progress_refl segs)|done]. }
  pose proof Hg as (Hc & _). pose proof (core_events _ _ _ _ _ Hc j) as Hp. cbn [fmap list_fmap snd app] in Hp.
  rewrite pending_cons, decide_True in Hp by done. pose proof (pending_nonneg j ((snd <$> events) ++ skipped)).
  destruct (heap s !! j) as [b|] eqn:Hj; [|cbn in Hp; lia].
  assert (used (heap s) j = Some (use_of b)) as Hu.
  { unfold used. rewrite Hj. destruct (unused b) eqn:U; [|done]. apply unused_spec in U as (_ & E & _). cbn in Hp. lia. }
  apply wp_bind, (wp_deref j b); [done|]. apply wp_bind. cbn [fmap list_fmap snd]. rewrite filter_cons.
  assert (other_pool pool s j = bool_decide (is_Some pool) && bool_decide (owner_PrivatePool (bpool b) ≠ pool)) as <-
    by (unfold other_pool; by rewrite Hu).
  destruct (other_pool pool s j) eqn:Eo.
  - rewrite decide_True by done. apply wp_ret. eapply wp_mono; [apply (IH (j :: skipped)); eapply good_pending; [|exact Hg]|].
    + intros k. cbn. rewrite pending_cons, !pending_app, pending_cons. lia.
    + cbv beta zeta. intros _ s' _ (G & P & X).
      assert (∀ k, pending k (filter (λ k, other_pool pool s k = true) (snd <$> events) ++ j :: skipped) =
        pending k ((j :: filter (λ k, other_pool pool s k = true) (snd <$> events)) ++ skipped)) as Hk.
      { intros k. cbn. rewrite pending_cons, !pending_app, pending_cons. lia. }
      split; [eapply good_pending; [intros k; symmetry; apply Hk|done]|]. split; [|done]. destruct P as (P1 & P2 & P3). split; [done|]. split; [done|].
      intros k. rewrite P3. destruct (used (heap s) k) as [u|]; [|done]. cbn. unfold settle. by rewrite Hk.
  - rewrite decide_False by done. eapply wp_mono; [apply (decrement_event_spec segs _ ((snd <$> events) ++ skipped) j s Hg)|].
    { intros k. cbn. rewrite pending_cons. repeat case_decide; congruence || lia. }
    cbv beta. intros _ s1 _ (G1 & P1 & X1). eapply wp_mono; [by apply (IH skipped)|]. cbv beta zeta.
    intros _ s' _ (G2 & P2 & X2).
    assert (∀ k, k ∈ events.*2 → other_pool pool s1 k = other_pool pool s k) as Ho.
    { intros k Hk. unfold other_pool. destruct P1 as (_ & _ & P1). rewrite P1.
      destruct (used (heap s) k) as [u|] eqn:Eu; [|done]. cbn. destruct (settle _ k u) as [u'|] eqn:Es.
      - by rewrite (settle_pool _ _ _ _ Es).
      - unfold settle in Es. apply pending_elem in Hk. pose proof (pending_nonneg k skipped).
        pose proof (pending_app k events.*2 skipped) as Ea.
        destruct (u_events u =? 0); [done|]. destruct (pending k (events.*2 ++ skipped) =? 0) eqn:E0; [|done]. bool_simpl. lia. }
    assert (filter (λ k, other_pool pool s1 k = true) events.*2 = filter (λ k, other_pool pool s k = true) events.*2) as <-.
    { clear -Ho. induction events.*2 as [|k l IH]; [done|]. rewrite !filter_cons, Ho by (by left).
      rewrite IH; [done|]. intros m Hm. apply Ho. by right. }
    split; [done|]. split; [|congruence]. apply (progress_trans (events.*2 ++ skipped) _ s s1); [|done|done].
    intros k. rewrite !pending_app. assert (pending k (filter (λ k, other_pool pool s1 k = true) events.*2) ≤ pending k events.*2); [|lia].
    clear. induction events.*2 as [|m l IH]; [done|]. rewrite filter_cons, pending_cons. case_decide; [rewrite pending_cons|]; case_decide; lia.
Qed.

(** All events complete, if those of other pools than the one given do not
    exist. *)
Lemma synchronize_spec segs pool s :
  good segs (events_of s) s → (∀ k, k ∈ events_of s → other_pool pool s k = false) →
  wp (synchronize_and_free_events pool) (λ _ s', good segs [] s' ∧ xpu_events s' = [] ∧ progress [] s s') s.
Proof.
  intros Hg Ho. apply wp_bind, wp_reads. unfold events_of in *. apply wp_bind.
  eapply wp_mono; [apply (synchronize_all_spec segs pool _ []); by rewrite app_nil_r|]. cbv beta zeta. intros _ s1 _ (G & P & X).
  assert (filter (λ k, other_pool pool s k = true) (concat (xpu_events s).*2).*2 = []) as E.
  { revert Ho. generalize ((concat (xpu_events s).*2).*2). intros l Hl. induction l as [|k l IH]; [done|].
    rewrite filter_cons, Hl by (by left). rewrite decide_False by done. apply IH. intros m Hm. apply Hl. by right. }
  rewrite E in G, P. apply wp_modify. split; [by apply good_set_events|]. split; [done|]. done.
Qed.

Lemma other_pool_None s k : other_pool None s k = false.
Proof. unfold other_pool. by destruct (used (heap s) k). Qed.
End Events.
