(* ===== verification/XPURelease.v ===== *)
(** * The XPU caching allocator: releasing cached memory.

    [release_block], [release_blocks] and [release_cached_blocks] preserve the
    invariant when expandable segments are off; they return whole segments to
    the device and touch no block in use.  The blocks of a well-formed heap fill
    the segments, and a segment of a drained pool holds a block in use. *)

From S2P Require Import Prelude CachingAllocator DeviceRuntime ExpandableSegment XPUBlocks XPUAllocator XPUHeap XPUInvariant XPUMerge XPUFree XPUEvents.

Section Releasing.
Context {D : Type} `{DeviceLaws D}.
Implicit Types (s : DeviceCachingAllocator D) (h : gmap loc Block).

(** ** Rules. *)
Lemma wp_deref_private i pp (Q : PrivatePool → DeviceCachingAllocator D → Prop) s :
  graph_pools s !! i = Some pp → Q pp s → wp (deref_private i) Q s.
Proof. intros Hi. unfold wp, deref_private. by rewrite Hi. Qed.

Lemma lookup_pool_private s r m : owner_PrivatePool r = Some m → is_Some (lookup_pool s r) ↔ is_Some (graph_pools s !! m).
Proof. intros E. unfold lookup_pool. rewrite E. apply fmap_is_Some. Qed.

Lemma wp_deletePrimitive ptr r Q s :
  is_Some (live (dev s) !! ptr) → is_Some (lookup_pool s r) →
  (∀ d, live d = delete ptr (live (dev s)) → Q tt (set_dev d s)) → wp (deletePrimitive ptr r) Q s.
Proof.
  intros Hl Hr HQ. unfold deletePrimitive. apply wp_bind. destruct (owner_PrivatePool r) as [m|] eqn:Eo.
  - apply (lookup_pool_private _ _ m) in Hr as [pp Hpp]; [|done]. apply wp_bind, (wp_deref_private m pp); [done|]. apply wp_ret.
    destruct (allocator_ pp) as [a|]; apply wp_modify, HQ; [by apply raw_delete_live|by apply free_live].
  - apply wp_ret, wp_modify, HQ. by apply free_live.
Qed.

(** [x] more allocations of the private pool that owns [r]. *)
Definition count_update (r : PoolRef) (x : Z) s : DeviceCachingAllocator D :=
  match owner_PrivatePool r with
  | Some m => set_graph_pools (alter (λ pp, set_counts (use_count pp) (allocation_count pp + x) pp) m (graph_pools s)) s
  | None => s
  end.

Lemma alter_insert_eq {A} (f : A → A) (m : gmap MempoolId_t A) i x : m !! i = Some x → alter f i m = <[i := f x]> m.
Proof.
  intros Hi. apply map_eq. intros j. destruct (decide (j = i)) as [->|Hne].
  - by rewrite lookup_alter_eq, lookup_insert_eq, Hi.
  - by rewrite lookup_alter_ne, lookup_insert_ne.
Qed.

Lemma wp_count_allocation r Q s : is_Some (lookup_pool s r) → Q tt (count_update r 1 s) → wp (count_allocation r) Q s.
Proof.
  intros Hr. unfold count_allocation, count_update. destruct (owner_PrivatePool r) as [m|] eqn:Eo; [|done]. intros HQ.
  destruct (proj1 (lookup_pool_private _ _ m Eo) Hr) as [pp Hpp]. apply wp_bind, (wp_deref_private m pp); [done|].
  apply wp_modify. by rewrite (alter_insert_eq _ _ _ pp Hpp) in HQ.
Qed.

Lemma wp_uncount_allocation r Q s : is_Some (lookup_pool s r) →
  (∀ m n, owner_PrivatePool r = Some m → allocs s !! m = Some n → 0 < n) →
  Q tt (count_update r (-1) s) → wp (uncount_allocation r) Q s.
Proof.
  intros Hr Hn. unfold uncount_allocation, count_update. destruct (owner_PrivatePool r) as [m|] eqn:Eo; [|done]. intros HQ.
  destruct (proj1 (lookup_pool_private _ _ m Eo) Hr) as [pp Hpp]. apply wp_bind, (wp_deref_private m pp); [done|].
  apply wp_bind, wp_assert; [|apply wp_modify; by rewrite (alter_insert_eq _ _ _ pp Hpp) in HQ].
  apply Z.ltb_lt. apply (Hn m); [done|]. unfold allocs. by rewrite lookup_fmap, Hpp.
Qed.

Lemma count_update_fields r x s :
  heap (count_update r x s) = heap s ∧ stats (count_update r x s) = stats s ∧
  active_blocks (count_update r x s) = active_blocks s ∧ xpu_events (count_update r x s) = xpu_events s ∧
  dev (count_update r x s) = dev s ∧ captures_underway (count_update r x s) = captures_underway s ∧
  graph_pools_freeable (count_update r x s) = graph_pools_freeable s ∧ next_block (count_update r x s) = next_block s ∧
  alloc_buffer (count_update r x s) = alloc_buffer s ∧ set_fraction (count_update r x s) = set_fraction s ∧
  allowed_memory_maximum (count_update r x s) = allowed_memory_maximum s.
Proof. unfold count_update. by destruct (owner_PrivatePool r). Qed.

Lemma count_update_pools r x s r' : lookup_pool (count_update r x s) r' = lookup_pool s r'.
Proof.
  unfold count_update, lookup_pool. destruct (owner_PrivatePool r) as [m|]; [|done].
  destruct (owner_PrivatePool r') as [m'|]; [|done]. cbn. destruct (decide (m' = m)) as [->|Hne].
  - rewrite lookup_alter_eq. by destruct (graph_pools s !! m).
  - by rewrite lookup_alter_ne.
Qed.

Lemma count_update_counts r x s : uses (count_update r x s) = uses s ∧
  ∀ m, allocs (count_update r x s) !! m = (λ n, if decide (owner_PrivatePool r = Some m) then n + x else n) <$> allocs s !! m.
Proof.
  unfold count_update, uses, allocs. destruct (owner_PrivatePool r) as [m|]; cbn.
  - split; [by apply alter_fmap_same|]. intros m'. rewrite !lookup_fmap. destruct (decide (m' = m)) as [->|Hne].
    + rewrite lookup_alter_eq. destruct (graph_pools s !! m); cbn; [by rewrite decide_True|done].
    + rewrite lookup_alter_ne by done. destruct (graph_pools s !! m'); cbn; [by rewrite decide_False by congruence|done].
  - split; [done|]. intros m'. rewrite !lookup_fmap. by destruct (graph_pools s !! m').
Qed.

(** ** [release_block]. *)

(** The segments of other users of the device. *)
Definition foreign (segs : gmap Z Z) s : gmap Z Z := live (dev s) ∖ segs.

Lemma foreign_delete segs s s' p : is_Some (segs !! p) → live (dev s') = delete p (live (dev s)) →
  foreign (delete p segs) s' = foreign segs s.
Proof.
  intros [n Hn] E. unfold foreign. rewrite E. apply map_eq. intros q. apply option_eq. intros x.
  rewrite !lookup_difference_Some, lookup_delete_Some, lookup_delete_None. destruct (decide (p = q)) as [->|]; [|tauto].
  split; [tauto|]. intros [_ E2]. congruence.
Qed.

(** What releasing cached memory leaves alone. *)
Definition kept segs segs' s s' : Prop :=
  same_admin s s' ∧ xpu_events s' = xpu_events s ∧ foreign segs' s' = foreign segs s ∧
  (∀ k, used (heap s') k = used (heap s) k) ∧ heap s' ⊆ heap s.

Lemma kept_refl segs s : kept segs segs s s.
Proof. split; [apply same_admin_refl|]. done. Qed.

Lemma kept_trans segs1 segs2 segs3 s1 s2 s3 : kept segs1 segs2 s1 s2 → kept segs2 segs3 s2 s3 → kept segs1 segs3 s1 s3.
Proof.
  intros (A1 & A2 & A3 & A4 & A5) (B1 & B2 & B3 & B4 & B5). split; [by apply (same_admin_trans _ s2)|].
  split; [congruence|]. split; [congruence|]. split; [intros k; by rewrite B4|]. by etransitivity.
Qed.

Lemma release_adds x : adds (λ t st, update_stat reserved_bytes t (decrease x) (update_stat segment t (decrease 1) st))
  (λ n, match n with segment => -1 | reserved_bytes => - x | _ => 0 end).
Proof.
  intros t st n t'. etransitivity; [refine (adds_decrease _ _ _ _ (adds_decrease _ _ _ _ adds_0) t st n t')|]. cbv beta.
  f_equal. case_decide; [|done]. destruct n; repeat first [rewrite decide_True by done|rewrite decide_False by done]; lia.
Qed.

(** Removing an unsplit block that is not in use. *)
Lemma core_release segs ev i b s s' l :
  core segs None None ev s → heap s !! i = Some b → unused b = true → prev b = None → next b = None →
  heap s' = delete i (heap s) → live (dev s') = delete (bptr b) (live (dev s)) →
  (∀ r, lookup_pool s' r = if decide (r = bpool b) then set_blocks (λ _, l) <$> lookup_pool s r else lookup_pool s r) →
  (∀ bp, lookup_pool s (bpool b) = Some bp → l = set_erase (id_less BlockComparatorSize (heap s)) i (blocks bp)) →
  uses s' = uses s →
  (∀ m, allocs s' !! m = (λ n, if decide (owner_PrivatePool (bpool b) = Some m) then n - 1 else n) <$> allocs s !! m) →
  graph_pools_freeable s' = graph_pools_freeable s → captures_underway s' = captures_underway s →
  next_block s' = next_block s → ring_ok (alloc_buffer s') → core (delete (bptr b) segs) None None ev s'.
Proof.
  intros Hc Hi Ub Hp Hn E1 E2 E3 El E4 E5 E6 E7 E8 Hr. pose proof (core_heap _ _ _ _ _ Hc) as Hok.
  destruct (ok_segment _ _ (heap_blocks _ _ _ Hok i b Hi)) as (base & n & Hs & _ & _ & _ & Hb & _). pose proof (proj1 Hb Hp) as <-.
  destruct (remove_segment segs None (heap s) i b n Hok Hi) as [_ Hok']; try done.
  destruct Hc as [_ C2 C3 C4 C5 C6 C7 C8 C9]. split; rewrite ?E1, ?E2, ?E4, ?E6, ?E7, ?E8; try done.
  - by apply delete_mono.
  - intros r bp. rewrite E3. case_decide as Er.
    + subst r. destruct (lookup_pool s (bpool b)) as [bp0|] eqn:E; [|done]. intros [= <-]. pose proof (C3 _ _ E) as Hpo.
      destruct (pool_erase segs None (heap s) (heap s) None (bpool b) bp0 i Hok Hpo) as [X1 X2]; [|done|].
      { apply Hpo. by exists b. }
      rewrite <- (El bp0 eq_refl) in X1, X2. destruct Hpo as [P1 P2 P3]. split; [done| |].
      * apply (ordered_key (heap s)); [|done]. intros k [_ Hk]%X2. unfold key. by rewrite lookup_delete_ne.
      * intros k. cbn. rewrite X2, P3. setoid_rewrite lookup_delete_Some. naive_solver.
    + intros E. destruct (C3 r bp E) as [P1 P2 P3]. split; [done| |].
      * apply (ordered_key (heap s)); [|done]. intros k (x & Hx & Rx & _)%P3. unfold key. rewrite lookup_delete_ne; [done|].
        intros <-. apply Er. congruence.
      * intros k. rewrite P3. setoid_rewrite lookup_delete_Some. split; [|naive_solver].
        intros (x & Hx & R1 & R2 & R3). exists x. repeat split; try done. intros <-. apply Er. congruence.
  - intros k x [_ Hx]%lookup_delete_Some. rewrite E3. case_decide as Er; [|by apply (C4 k x)].
    rewrite fmap_is_Some. by apply (C4 k x).
  - intros k. rewrite (C5 k). destruct (decide (k = i)) as [->|Hki].
    + rewrite lookup_delete_eq, Hi. by apply unused_spec in Ub as (_ & -> & _).
    + by rewrite lookup_delete_ne.
  - intros m x. rewrite E5. destruct (allocs s !! m) as [y|] eqn:E; [|done]. intros [= <-].
    rewrite (total_delete _ _ i b Hi), (C6 m y E). unfold head_of. repeat case_decide; try lia; exfalso; tauto.
  - intros k x [_ Hx]%lookup_delete_Some. by apply (C8 k x).
Qed.
(** The number of allocations of the pool of a block at the head of a
    segment. *)
Lemma head_counted segs ex hand ev s i b m n :
  core segs ex hand ev s → heap s !! i = Some b → prev b = None → owner_PrivatePool (bpool b) = Some m →
  allocs s !! m = Some n → 0 < n.
Proof.
  intros Hc Hi Hp Ho Hm. rewrite (core_counts _ _ _ _ _ Hc m n Hm).
  assert (1 ≤ total (head_of m) (heap s)); [|lia]. replace 1 with (head_of m b) by (unfold head_of; by rewrite decide_True).
  apply (total_elem _ _ i); [|done]. intros j c _. unfold head_of. case_decide; lia.
Qed.

Lemma release_block_spec segs ev i b s :
  good segs ev s → heap s !! i = Some b → unused b = true → prev b = None → next b = None →
  wp (release_block i) (λ _ s', good (delete (bptr b) segs) ev s' ∧ kept segs (delete (bptr b) segs) s s' ∧
    heap s' = delete i (heap s)) s.
Proof.
  intros (Hc & Ha & Hs) Hi Ub Hp Hn. pose proof (core_heap _ _ _ _ _ Hc) as Hok.
  pose proof (heap_blocks _ _ _ Hok i b Hi) as Bb. destruct (ok_plain _ _ Bb) as [_ Be].
  destruct (ok_segment _ _ Bb) as (base & n & Hseg & _ & _ & _ & Hbase & _). pose proof (proj1 Hbase Hp) as <-.
  destruct (core_owner _ _ _ _ _ Hc i b Hi) as [bp Hbp].
  apply wp_bind, (wp_deref i b); [done|]. apply wp_bind, wp_assert; [by apply bool_decide_eq_true|].
  apply wp_bind, wp_record_trace; [apply Hc|]. intros ring Hring.
  apply wp_bind, wp_deletePrimitive.
  { exists n. cbn. apply (lookup_weaken segs); [done|]. apply Hc. }
  { by exists bp. }
  intros d Hd. cbn in Hd. set (s1 := set_dev d _). apply wp_bind, wp_uncount_allocation.
  { by exists bp. }
  { intros m x Ho Hm. by apply (head_counted segs None None ev s i b m x). }
  pose proof (count_update_fields (bpool b) (-1) s1) as U. pose proof (count_update_pools (bpool b) (-1) s1) as V.
  pose proof (count_update_counts (bpool b) (-1) s1) as W. set (s2 := count_update _ _ s1) in *. clearbody s2.
  destruct U as (U1 & U2 & U3 & U4 & U5 & U6 & U7 & U8 & U9 & U10 & U11), W as [W1 W2].
  unfold s1 in U1, U2, U3, U4, U5, U6, U7, U8, U9, U10, U11. cbn in U1, U2, U3, U4, U5, U6, U7, U8, U9, U10, U11.
  change (uses s2 = uses s) in W1. change (allocs s1) with (allocs s) in W2. change (lookup_pool s1) with (lookup_pool s) in V.
  apply wp_bind, (wp_erase_free _ _ bp); [by rewrite V|]. rewrite U1. set (f := set_blocks _).
  pose proof (update_pool_fields (bpool b) f s2) as X. pose proof (lookup_update_pool (bpool b) f s2) as Y.
  pose proof (update_pool_counts (bpool b) f s2) as Z. set (s3 := update_pool _ _ s2) in *. clearbody s3.
  destruct X as (X1 & X2 & X3 & X4 & X5 & X6 & X7 & X8 & X9 & X10 & X11 & _), Z as [Z1 Z2].
  apply wp_bind. eapply wp_for_stats; [apply release_adds|]. intros st Hst.
  apply (wp_delete_block i b); [cbn; congruence|]. cbn [heap set_stats]. rewrite X1, U1.
  split; [split; [|split]|split; [|done]].
  - eapply (core_release segs ev i b s _ (set_erase (id_less BlockComparatorSize (heap s)) i (blocks bp))); try done.
    + cbn. congruence.
    + intros r. change (lookup_pool s3 r = if decide (r = bpool b)
        then set_blocks (λ _, set_erase (id_less BlockComparatorSize (heap s)) i (blocks bp)) <$> lookup_pool s r else lookup_pool s r).
      rewrite Y, !V. case_decide as E; [|done]. subst r. by rewrite Hbp.
    + intros bp0 E. by replace bp0 with bp by congruence.
    + change (uses s3 = uses s). congruence.
    + intros m. change (allocs s3 !! m = (λ n, if decide (owner_PrivatePool (bpool b) = Some m) then n - 1 else n) <$> allocs s !! m).
      by rewrite Z2, W2.
    + cbn. congruence.
    + cbn. congruence.
    + cbn. congruence.
    + cbn. by rewrite X9, U9.
  - intros k. cbn [active_blocks set_heap set_stats heap]. rewrite X3, U3, (Ha k). unfold used. destruct (decide (k = i)) as [->|Hki].
    + rewrite lookup_delete_eq, Hi, Ub. done.
    + by rewrite lookup_delete_ne.
  - intros m t. cbn [stats set_heap set_stats heap]. rewrite Hst, X2, U2, (Hs m t). unfold tot. rewrite (total_delete _ _ i b Hi).
    unfold in_stat. destruct (get_stat_types_for_pool (bpool b) t); [|lia].
    assert (is_split b = false) as Eb by (unfold is_split; by rewrite Hp, Hn).
    assert (allocated b = false) as Al by (by apply unused_spec in Ub as (-> & _)).
    unfold stat_of. rewrite Ub, Al. destruct m; cbn [stat_val negb]; rewrite ?Eb, ?Hp; rewrite ?decide_True by done; lia.
  - split; [|split; [|split; [|split]]].
    + split; [cbn; congruence|]. split; [cbn; congruence|]. split; [change (uses s3 = uses s); congruence|].
      split; [|split; cbn; congruence]. intros r. change (is_Some (lookup_pool s3 r) ↔ is_Some (lookup_pool s r)).
      rewrite Y, !V. case_decide as E; [|done]. by rewrite E, fmap_is_Some.
    + cbn. congruence.
    + apply foreign_delete; [by exists n|]. cbn. congruence.
    + intros k. cbn. unfold used. destruct (decide (k = i)) as [->|Hki].
      * by rewrite lookup_delete_eq, Hi, Ub.
      * by rewrite lookup_delete_ne.
    + cbn. apply delete_subseteq.
Qed.

(** ** [release_blocks]. *)

(** Every block of the list is unused, and still unused if it is kept. *)
Lemma release_unsplit_spec segs ev (r : PoolRef) it s :
  good segs ev s → NoDup it → (∀ i, i ∈ it → ∃ b, heap s !! i = Some b ∧ unused b = true) →
  wp (release_unsplit it) (λ l s', l = [] ∧ ∃ segs', good segs' ev s' ∧ kept segs segs' s s' ∧
    ∀ i b, i ∈ it → heap s' !! i = Some b → is_split b = true) s.
Proof.
  revert segs s. induction it as [|i it IH]; intros segs s Hg Hnd Hit; cbn [release_unsplit].
  { apply wp_ret. split; [done|]. exists segs. split; [done|]. split; [apply kept_refl|]. by intros i b ?%not_elem_of_nil. }
  destruct (Hit i ltac:(by left)) as (b & Hi & Ub). apply NoDup_cons in Hnd as [Hni Hnd].
  pose proof Hg as (Hc & _). destruct (ok_plain _ _ (heap_blocks _ _ _ (core_heap _ _ _ _ _ Hc) i b Hi)) as [_ Be].
  apply wp_bind, (wp_deref i b); [done|]. rewrite decide_True by done. apply wp_bind.
  case_decide as E.
  - destruct E as [Hp Hn]. eapply wp_mono; [by apply (release_block_spec segs ev i b)|]. cbv beta. intros _ s1 _ (G1 & K1 & E1).
    eapply wp_mono; [apply (IH _ s1 G1 Hnd)|].
    { intros j Hj. rewrite E1, lookup_delete_ne by (by intros <-). apply Hit. by right. }
    cbv beta. intros l s' _ (-> & segs' & G2 & K2 & S2). split; [done|]. exists segs'. split; [done|].
    split; [by eapply kept_trans|]. intros j c [->|Hj]%elem_of_cons Hc'; [|by apply (S2 j)].
    destruct K2 as (_ & _ & _ & _ & K2). apply (lookup_weaken _ _ _ _ Hc') in K2. by rewrite E1, lookup_delete_eq in K2.
  - apply wp_ret. eapply wp_mono; [apply (IH _ s Hg Hnd)|].
    { intros j Hj. apply Hit. by right. }
    cbv beta. intros l s' _ (-> & segs' & G2 & K2 & S2). split; [done|]. exists segs'. split; [done|].
    split; [done|]. intros j c [->|Hj]%elem_of_cons Hc'; [|by apply (S2 j)].
    destruct K2 as (_ & _ & _ & _ & K2). apply (lookup_weaken _ _ _ _ Hc') in K2. assert (c = b) as -> by congruence.
    unfold is_split. destruct (prev b), (next b); cbn; done || by exfalso; apply E.
Qed.

(** No unused block of the pool is a whole segment. *)
Definition drained (r : PoolRef) h : Prop := ∀ i b, h !! i = Some b → bpool b = r → unused b = true → is_split b = true.

Lemma drained_sub r h h' : h' ⊆ h → drained r h → drained r h'.
Proof. intros Hs Hd i b Hi. apply (Hd i). by apply (lookup_weaken _ _ _ _ Hi). Qed.

Lemma release_blocks_spec segs ev (r : PoolRef) s :
  good segs ev s → is_Some (lookup_pool s r) →
  wp (release_blocks r) (λ _ s', ∃ segs', good segs' ev s' ∧ kept segs segs' s s' ∧ drained r (heap s')) s.
Proof.
  intros Hg [bp Hbp]. pose proof Hg as (Hc & _). pose proof (core_pools _ _ _ _ _ Hc r bp Hbp) as Hp.
  apply wp_bind, (wp_deref_pool _ bp); [done|]. apply wp_bind. eapply wp_mono; [apply (release_unsplit_spec segs ev r _ s Hg)|].
  - apply (ordered_NoDup (id_less BlockComparatorSize (heap s)) (λ k, is_Some (heap s !! k))); [|by apply (pool_elem_heap _ _ _ _ Hp)|apply Hp].
    apply (id_less_strict segs None). apply Hc.
  - intros i (b & Hb & _ & Ub & _)%(pool_elem _ _ _ _ Hp). by exists b.
  - cbv beta. intros l s' _ (-> & segs' & G & K & S). cbn [unmap_blocks]. apply wp_ret. exists segs'. split; [done|]. split; [done|].
    intros i b Hi Er Ub. apply (S i b); [|done]. apply Hp. destruct K as (_ & _ & _ & _ & K).
    exists b. split; [by apply (lookup_weaken _ _ _ _ Hi)|done].
Qed.
(** ** [release_cached_blocks]. *)

(** Every block follows one at the head of a segment, in the same pool. *)
Lemma head_of_block segs ex h i b : heap_ok segs ex h → h !! i = Some b →
  ∃ j c, h !! j = Some c ∧ prev c = None ∧ bpool c = bpool b.
Proof.
  intros Hok. remember (Z.to_nat (bptr b)) as n eqn:En. revert i b En.
  induction n as [n IH] using lt_wf_ind. intros i b -> Hi. destruct (prev b) as [k|] eqn:Hp; [|by exists i, b].
  destruct (heap_prev _ _ _ Hok i b k Hi Hp) as (c & Hk & Hn).
  destruct (heap_next _ _ _ Hok k c i Hk Hn) as (b0 & Hb0 & _ & F1 & _ & F2). assert (b0 = b) as -> by congruence.
  pose proof (ok_size _ _ (heap_blocks _ _ _ Hok k c Hk)). pose proof (ok_ptr _ _ (heap_blocks _ _ _ Hok k c Hk)).
  destruct (IH (Z.to_nat (bptr c)) ltac:(lia) k c eq_refl Hk) as (j & d & Hj & Hd & Ed). exists j, d. split; [done|].
  split; [done|]. congruence.
Qed.

Definition remove_pool (m : MempoolId_t) s : DeviceCachingAllocator D :=
  set_graph_pools_freeable (filter (λ j, j ≠ m) (graph_pools_freeable s)) (set_graph_pools (delete m (graph_pools s)) s).

Lemma core_remove_pool segs ev m pp s :
  core segs None None ev s → graph_pools s !! m = Some pp → use_count pp = 0 → allocation_count pp = 0 →
  core segs None None ev (remove_pool m s).
Proof.
  intros [C1 C2 C3 C4 C5 C6 [A1 A2 A3 A4] C8 C9] Hm Hu Ha.
  assert (uses s !! m = Some 0) as Hum by (unfold uses; by rewrite lookup_fmap, Hm, <- Hu).
  assert (∀ i b, heap s !! i = Some b → owner_PrivatePool (bpool b) ≠ Some m) as Hno.
  { intros i b Hi Ho. destruct (head_of_block segs None (heap s) i b C1 Hi) as (j & c & Hj & Hp & Ec).
    assert (0 < allocation_count pp); [|lia]. apply (head_counted segs None None ev s j c m); [done|done|done|congruence|].
    unfold allocs. by rewrite lookup_fmap, Hm. }
  assert (∀ r, owner_PrivatePool r ≠ Some m → lookup_pool (remove_pool m s) r = lookup_pool s r) as Hl.
  { intros r Hr. unfold lookup_pool. destruct (owner_PrivatePool r) as [i|]; [|done]. cbn.
    by rewrite lookup_delete_ne by congruence. }
  split; try done.
  - intros r bp Hr. apply C3. destruct (decide (owner_PrivatePool r = Some m)) as [E|E]; [|by rewrite <- Hl].
    unfold lookup_pool in Hr. rewrite E in Hr. cbn in Hr. by rewrite lookup_delete_eq in Hr.
  - intros i b Hi. rewrite Hl by (by apply (Hno i)). by apply (C4 i).
  - intros k n Hk. apply C6. unfold allocs in *. cbn in Hk. rewrite fmap_delete in Hk. by apply lookup_delete_Some in Hk as [_ ?].
  - assert (uses (remove_pool m s) = delete m (uses s)) as -> by apply fmap_delete. split.
    + intros i n [Hne Hi]%lookup_delete_Some. destruct (A1 i n Hi) as [B1 B2]. split; [done|].
      cbn. rewrite list_elem_of_filter, B2. naive_solver.
    + intros i [Hne Hi]%list_elem_of_filter. rewrite lookup_delete_ne by done. by apply A2.
    + by apply NoDup_filter.
    + intros e He. destruct (A4 e He) as (n & Hn & Hpos). exists n. rewrite lookup_delete_ne; [done|]. intros E. rewrite <- E in Hn.
      assert (n = 0) by congruence. lia.
Qed.

(** What releasing cached memory changes. *)
Record cleaned segs segs' s s' : Prop := {
  cl_fields : captures_underway s' = captures_underway s ∧ set_fraction s' = set_fraction s ∧
    allowed_memory_maximum s' = allowed_memory_maximum s;
  cl_uses m n : 0 < n → uses s' !! m = Some n ↔ uses s !! m = Some n;
  cl_foreign : foreign segs' s' = foreign segs s;
  cl_pending k : pending k (events_of s') ≤ pending k (events_of s);
  cl_used k : used (heap s') k = used (heap s) k ≫= settle (events_of s') k
}.

Lemma cleaned_trans segs1 segs2 segs3 s1 s2 s3 : cleaned segs1 segs2 s1 s2 → cleaned segs2 segs3 s2 s3 → cleaned segs1 segs3 s1 s3.
Proof.
  intros [(A1 & A2 & A3) A4 A5 A6 A7] [(B1 & B2 & B3) B4 B5 B6 B7]. split.
  - split; [congruence|]. split; congruence.
  - intros m n Hn. by rewrite B4, A4.
  - congruence.
  - intros k. specialize (A6 k). specialize (B6 k). lia.
  - intros k. rewrite B7, A7. destruct (used (heap s1) k) as [u|]; [|done]. apply settle_settle, B6.
Qed.

Lemma kept_cleaned segs segs' s s' : good segs' (events_of s') s' → kept segs segs' s s' → cleaned segs segs' s s'.
Proof.
  intros Hg ((A1 & A2 & A3 & A4 & A5 & A6) & K2 & K3 & K4 & K5). split; try done.
  - intros m n _. by rewrite A3.
  - intros k. unfold events_of. by rewrite K2.
  - intros k. rewrite <- K4. destruct (used (heap s') k) as [u|] eqn:E; [|done]. cbn. symmetry.
    by apply settle_same, (good_events segs' _ s').
Qed.

Lemma progress_cleaned segs s s' : progress (events_of s') s s' → (∀ k, pending k (events_of s') ≤ pending k (events_of s)) →
  cleaned segs segs s s'.
Proof.
  intros ((A1 & A2 & A3 & A4 & A5 & A6) & P2 & P3) Hp. split; try done.
  - intros m n _. by rewrite A3.
  - unfold foreign. by rewrite P2.
Qed.

Lemma remove_pool_cleaned segs ev m pp s :
  good segs ev s → ev = events_of s → graph_pools s !! m = Some pp → use_count pp = 0 → cleaned segs segs s (remove_pool m s).
Proof.
  intros Hg -> Hm Hu. split; try done.
  - intros i n Hn. assert (uses (remove_pool m s) = delete m (uses s)) as -> by apply fmap_delete.
    rewrite lookup_delete_Some. split; [tauto|]. intros Hi. split; [|done]. intros <-.
    unfold uses in Hi. rewrite lookup_fmap, Hm in Hi. cbn in Hi. injection Hi. lia.
  - intros k. change (heap (remove_pool m s)) with (heap s). change (events_of (remove_pool m s)) with (events_of s).
    destruct (used (heap s) k) as [u|] eqn:E; [|done]. cbn. symmetry. by apply settle_same, (good_events segs _ s).
Qed.

Lemma good_set_dev segs ev d s : live d = live (dev s) → good segs ev s → good segs ev (set_dev d s).
Proof. intros Hd (A & B & C). split; [|done]. by apply (core_transport _ _ _ _ s); try apply A. Qed.

Lemma set_dev_cleaned segs d s : live d = live (dev s) → good segs (events_of s) s → cleaned segs segs s (set_dev d s).
Proof.
  intros Hd Hg. split; try done.
  - unfold foreign. cbn. by rewrite Hd.
  - intros k. cbn. change (events_of (set_dev d s)) with (events_of s).
    destruct (used (heap s) k) as [u|] eqn:E; [|done]. cbn. symmetry. by apply settle_same, (good_events segs _ s).
Qed.

(** The pool of [mempool_id] or, if that is (0, 0), any pool. *)
Definition selected (mempool_id i : MempoolId_t) : Prop := mempool_id = (0, 0) ∨ i = mempool_id.

Definition pool_drained (i : MempoolId_t) h : Prop := ∀ small, drained (mkPool (Some i) small) h.

(** The synchronisation of [release_freeable]. *)
Lemma release_sync_spec segs mempool_id streams_synced i s :
  good segs (events_of s) s → (mempool_id ≠ (0, 0) → ∀ k, k ∈ events_of s → other_pool (Some i) s k = false) →
  wp (release_sync mempool_id streams_synced i)
    (λ _ s', good segs (events_of s') s' ∧ cleaned segs segs s s' ∧ graph_pools_freeable s' = graph_pools_freeable s ∧
      (∀ m, is_Some (uses s' !! m) ↔ is_Some (uses s !! m)) ∧ (mempool_id = (0, 0) → heap s' = heap s)) s.
Proof.
  intros Hg Ho.
  set (Q1 := λ (_ : unit) s1, good segs (events_of s1) s1 ∧ cleaned segs segs s s1 ∧ graph_pools_freeable s1 = graph_pools_freeable s ∧
    uses s1 = uses s ∧ (mempool_id = (0, 0) → heap s1 = heap s)).
  apply wp_bind, (wp_mono _ Q1).
  - case_bool_decide as E; cbn [negb].
    + apply wp_ret. split; [done|]. split; [|done]. apply kept_cleaned; [done|]. apply kept_refl.
    + eapply wp_mono; [apply (synchronize_spec segs); [done|by apply Ho]|]. cbv beta. intros [] s1 _ (G & X & P).
      assert (events_of s1 = []) as E1 by (unfold events_of; by rewrite X). rewrite <- E1 in G, P.
      split; [done|]. split.
      * apply progress_cleaned; [done|]. intros k. rewrite E1. apply pending_nonneg.
      * destruct P as ((A1 & A2 & A3 & _) & _). done.
  - intros _ s1 _ (G & Cl & F & U & Hh). destruct streams_synced.
    + apply wp_ret. rewrite U. done.
    + apply wp_modify. assert (live (syncStreamsOnDevice (dev s1)) = live (dev s1)) as El by apply sync_live.
      split; [by apply good_set_dev|]. split; [|split; [done|split; [|done]]].
      * apply (cleaned_trans _ segs _ _ s1); [done|]. by apply set_dev_cleaned.
      * intros m. change (uses (set_dev (syncStreamsOnDevice (dev s1)) s1)) with (uses s1). by rewrite U.
Qed.
(** Releasing the two pools of a private pool that is not used any more, and
    the pool itself when nothing is left of it. *)
Lemma release_private_spec segs i s :
  good segs (events_of s) s → i ∈ graph_pools_freeable s →
  wp (release_private i)
    (λ _ s', ∃ segs', good segs' (events_of s') s' ∧ cleaned segs segs' s s' ∧ pool_drained i (heap s') ∧ heap s' ⊆ heap s ∧
      ∀ j, j ≠ i → j ∈ graph_pools_freeable s' ↔ j ∈ graph_pools_freeable s) s.
Proof.
  intros Hg Hi. pose proof Hg as (Hc & _). pose proof (core_admin _ _ _ _ _ Hc) as [A1 A2 A3 A4].
  destruct (A2 i Hi) as [n Hn]. pose proof (proj1 (proj2 (A1 i n Hn)) Hi) as ->.
  assert (∀ s', uses s' = uses s → ∃ pp, graph_pools s' !! i = Some pp ∧ use_count pp = 0) as Hpp.
  { intros s' E. unfold uses in *. rewrite <- E in Hn. rewrite lookup_fmap in Hn. apply fmap_Some in Hn as (pp & Hp & Ez). by exists pp. }
  assert (∀ s' small, uses s' = uses s → is_Some (lookup_pool s' (mkPool (Some i) small))) as Hpool.
  { intros s' small E. destruct (Hpp s' E) as (pp & Hp & _). unfold lookup_pool. cbn. rewrite Hp. by eexists. }
  destruct (Hpp s eq_refl) as (pp & Hp & Hu). apply wp_bind, (wp_deref_private i pp); [done|].
  apply wp_bind, wp_assert; [by rewrite Hu|].
  apply wp_bind. eapply wp_mono; [apply (release_blocks_spec segs _ _ s Hg); by apply Hpool|]. cbv beta.
  intros _ s1 _ (segs1 & G1 & K1 & D1). pose proof K1 as ((_ & F1 & U1 & _) & X1 & _ & _ & S1).
  apply wp_bind. eapply wp_mono; [apply (release_blocks_spec segs1 _ _ s1 G1); by apply Hpool|]. cbv beta.
  intros _ s2 _ (segs2 & G2 & K2 & D2). pose proof K2 as ((_ & F2 & U2 & _) & X2 & _ & _ & S2).
  assert (events_of s2 = events_of s) as E2 by (unfold events_of; congruence).
  assert (good segs2 (events_of s2) s2) as G2' by (by rewrite E2).
  assert (cleaned segs segs2 s s2) as Cl2 by (apply kept_cleaned; [done|by eapply kept_trans]).
  assert (pool_drained i (heap s2)) as Dr.
  { intros [|]; [by apply (drained_sub _ (heap s1))|done]. }
  assert (heap s2 ⊆ heap s) as Sub by (by etransitivity).
  destruct (Hpp s2 ltac:(congruence)) as (pp2 & Hp2 & Hu2). apply wp_bind, (wp_deref_private i pp2); [done|].
  destruct (allocation_count pp2 =? 0) eqn:Ea; bool_simpl.
  - apply wp_modify. exists segs2. fold (remove_pool i s2). split; [|split; [|split; [|split]]]; try done.
    + destruct G2' as (C & B1 & B2). split; [|done]. by apply (core_remove_pool _ _ i pp2).
    + apply (cleaned_trans _ segs2 _ _ s2); [done|]. by apply (remove_pool_cleaned segs2 (events_of s2) i pp2).
    + intros j Hj. cbn. rewrite list_elem_of_filter, F2, F1. tauto.
  - apply wp_ret. exists segs2. split; [done|]. split; [done|]. split; [done|]. split; [done|]. intros j _. by rewrite F2, F1.
Qed.

Lemma release_freeable_spec (mempool_id : MempoolId_t) it segs streams_synced s :
  good segs (events_of s) s → NoDup it → (∀ i, i ∈ it → i ∈ graph_pools_freeable s) →
  (mempool_id ≠ (0, 0) → mempool_id ∈ it → ∀ k, k ∈ events_of s → other_pool (Some mempool_id) s k = false) →
  wp (release_freeable mempool_id streams_synced it) (λ _ s', ∃ segs', good segs' (events_of s') s' ∧ cleaned segs segs' s s' ∧
    (∀ i, i ∈ it → selected mempool_id i → pool_drained i (heap s')) ∧
    (mempool_id = (0, 0) ∨ mempool_id ∉ it → heap s' ⊆ heap s)) s.
Proof.
  revert segs streams_synced s. induction it as [|i it IH]; intros segs streams_synced s Hg Hnd Hin Hev; cbn [release_freeable].
  { apply wp_ret. exists segs. split; [done|]. split; [apply kept_cleaned; [done|apply kept_refl]|]. split; [|done].
    by intros i ?%not_elem_of_nil. }
  apply NoDup_cons in Hnd as [Hi Hnd].
  destruct (_ && _) eqn:Esel.
  - bool_simpl. apply bool_decide_eq_false in H1, H2. eapply wp_mono; [apply (IH segs streams_synced s Hg Hnd)|].
    + intros j Hj. apply Hin. by right.
    + intros Hm Hmi. apply Hev; [done|by right].
    + cbv beta. intros _ s' _ (segs' & G & Cl & Dr & Sub). exists segs'. split; [done|]. split; [done|]. split.
      * intros j [->|Hj]%elem_of_cons Hs; [by destruct Hs|by apply Dr].
      * intros [?|Hm]; [by apply Sub; left|]. apply Sub. right. intros ?. apply Hm. by right.
  - assert (selected mempool_id i) as Hsel.
    { unfold selected. destruct (decide (mempool_id = (0, 0))); [by left|right]. apply andb_false_iff in Esel.
      destruct Esel as [E|E]; apply negb_false_iff, bool_decide_eq_true in E; done. }
    assert (mempool_id = (0, 0) ∨ mempool_id ∉ it) as Hrest by (destruct Hsel as [|<-]; [by left|by right]).
    apply wp_bind. eapply wp_mono; [apply (release_sync_spec segs mempool_id streams_synced i s Hg)|].
    { intros Hm. destruct Hsel as [?| ->]; [done|]. apply Hev; [done|by left]. }
    cbv beta. intros [] s1 _ (G1 & Cl1 & F1 & _ & Hh1).
    apply wp_bind. eapply wp_mono; [apply (release_private_spec segs i s1 G1)|].
    { rewrite F1. apply Hin. by left. }
    cbv beta. intros [] s2 _ (segs2 & G2 & Cl2 & D2 & Sub2 & F2).
    eapply wp_mono; [apply (IH segs2 true s2 G2 Hnd)|].
    { intros j Hj. rewrite F2 by (by intros ->). rewrite F1. apply Hin. by right. }
    { intros Hm Hmi. by destruct Hrest. }
    cbv beta. intros [] s' _ (segs' & G & Cl & Dr & Sub). exists segs'. split; [done|].
    split; [by eapply cleaned_trans; [|exact Cl]; eapply cleaned_trans|]. specialize (Sub Hrest). split.
    + intros j [->|Hj]%elem_of_cons Hs; [|by apply Dr]. intros small. by apply (drained_sub _ (heap s2)).
    + intros Hm. assert (mempool_id = (0, 0)) as E.
      { destruct Hm as [|Hm]; [done|]. destruct Hsel as [|<-]; [done|]. exfalso. apply Hm. by left. }
      rewrite <- (Hh1 E). by etransitivity.
Qed.
(** [emptyCache] is this method. *)
Lemma release_cached_blocks_spec segs (mempool_id : MempoolId_t) s :
  good segs (events_of s) s →
  (mempool_id ≠ (0, 0) → mempool_id ∈ graph_pools_freeable s → ∀ k, k ∈ events_of s → other_pool (Some mempool_id) s k = false) →
  wp (release_cached_blocks mempool_id) (λ _ s', ∃ segs', good segs' (events_of s') s' ∧ cleaned segs segs' s s' ∧
    (∀ i, i ∈ graph_pools_freeable s → selected mempool_id i → pool_drained i (heap s')) ∧
    (mempool_id = (0, 0) → captures_underway s = [] → events_of s' = [] ∧
       ∀ small, drained (mkPool None small) (heap s'))) s.
Proof.
  intros Hg Hev. pose proof Hg as (Hc & _). apply wp_bind, wp_reads. cbv zeta.
  set (whole := bool_decide (mempool_id = (0, 0)) && is_nil (captures_underway s)).
  apply wp_bind, (wp_mono _ (λ _ s1, ∃ segs1, good segs1 (events_of s1) s1 ∧ cleaned segs segs1 s s1 ∧
    graph_pools_freeable s1 = graph_pools_freeable s ∧ (mempool_id ≠ (0, 0) → s1 = s) ∧
    (whole = true → events_of s1 = [] ∧ ∀ small, drained (mkPool None small) (heap s1)))).
  - destruct whole eqn:Ew.
    + unfold whole in Ew. apply andb_true_iff in Ew as [E1 E2]. apply bool_decide_eq_true in E1.
      apply wp_bind. eapply wp_mono; [apply (synchronize_spec segs); [done|intros; apply other_pool_None]|]. cbv beta.
      intros [] s1 _ (G1 & X1 & P1). assert (events_of s1 = []) as Ev1 by (unfold events_of; by rewrite X1).
      apply wp_bind, wp_modify. set (s2 := set_dev _ s1).
      assert (live (dev s2) = live (dev s1)) as El by apply sync_live.
      assert (good segs [] s2) as G2 by (by apply good_set_dev).
      apply wp_bind. eapply wp_mono; [apply (release_blocks_spec segs [] _ s2 G2); by eexists|]. cbv beta.
      intros [] s3 _ (segs3 & G3 & K3 & D3).
      eapply wp_mono; [apply (release_blocks_spec segs3 [] _ s3 G3); by eexists|]. cbv beta.
      intros [] s4 _ (segs4 & G4 & K4 & D4). pose proof K3 as ((_ & F3 & _) & X3 & _). pose proof K4 as ((_ & F4 & _) & X4 & _ & _ & Sub4).
      assert (events_of s4 = []) as Ev4 by (unfold events_of; rewrite X4, X3; exact Ev1).
      assert (good segs4 (events_of s4) s4) as G4' by (by rewrite Ev4).
      exists segs4. split; [done|]. split; [|split; [|split]].
      * rewrite <- Ev1 in G1, P1. apply (cleaned_trans _ segs _ _ s1).
        { apply progress_cleaned; [done|]. intros k. rewrite Ev1. apply pending_nonneg. }
        apply (cleaned_trans _ segs _ _ s2); [by apply set_dev_cleaned|]. apply kept_cleaned; [done|by eapply kept_trans].
      * rewrite F4, F3. destruct P1 as ((_ & F1 & _) & _). done.
      * done.
      * intros _. split; [done|]. intros [|]; [done|by apply (drained_sub _ (heap s3))].
    + apply wp_ret. exists segs. split; [done|]. split; [apply kept_cleaned; [done|apply kept_refl]|]. done.
  - cbv beta. intros [] s1 _ (segs1 & G1 & Cl1 & F1 & Same & Dr1). apply wp_bind, wp_reads.
    pose proof (core_admin _ _ _ _ _ (proj1 G1)) as Ad.
    eapply wp_mono; [apply (release_freeable_spec mempool_id _ segs1 whole s1 G1); [apply Ad|done|]|].
    + intros Hm. rewrite F1, (Same Hm). by apply Hev.
    + cbv beta. intros [] s' _ (segs' & G & Cl & Dr & Sub). exists segs'. split; [done|]. split; [by eapply cleaned_trans|].
      split; [by rewrite <- F1|]. intros Hm Hcap. assert (whole = true) as Ew by (unfold whole; by rewrite Hm, Hcap).
      destruct (Dr1 Ew) as [E D1]. split.
      * pose proof (cl_pending _ _ _ _ Cl) as Hp. rewrite E in Hp. destruct (events_of s') as [|k l]; [done|].
        specialize (Hp k). rewrite pending_nil, pending_cons, decide_True in Hp by done. pose proof (pending_nonneg k l). lia.
      * intros small. apply (drained_sub _ (heap s1)); [|done]. apply Sub. by left.
Qed.
End Releasing.

(** ** The blocks fill the segments. *)

(** The memory of the device in a set of segments. *)
Definition held (segs : gmap Z Z) : Z := map_fold (λ _ n acc, n + acc) 0 segs.

Lemma held_insert segs p n : segs !! p = None → held (<[p := n]> segs) = n + held segs.
Proof. intros Hp. unfold held. rewrite map_fold_insert_L; [done| |done]. intros. lia. Qed.

Lemma total_plus f g h : total (λ b, f b + g b) h = total f h + total g h.
Proof.
  induction h as [|i b h Hi IH] using map_ind; [done|]. rewrite !total_insert by done. lia.
Qed.

Lemma total_single f g h i b : h !! i = Some b → (∀ j c, h !! j = Some c → j ≠ i → f c = g c) →
  total f h = total g h - g b + f b.
Proof.
  intros Hi Hfg. pose proof (total_delete f h i b Hi). pose proof (total_delete g h i b Hi).
  assert (total f (delete i h) = total g (delete i h)); [|lia].
  apply total_ext. intros j c [Hne Hj]%lookup_delete_Some. by apply (Hfg j).
Qed.

Lemma total_zero h : total (λ _, 0) h = 0.
Proof. induction h as [|i b h Hi IH] using map_ind; [done|]. by rewrite total_insert, IH. Qed.

(** The size of a block that begins in a range. *)
Definition in_part (p q : Z) (b : Block) : Z := if decide (p ≤ bptr b ∧ bptr b < q) then bsize b else 0.

Lemma block_segment segs ex h i b base n : heap_ok segs ex h → h !! i = Some b → segs !! base = Some n →
  base ≤ bptr b < base + n → bptr b + bsize b ≤ base + n ∧ (next b = None ↔ bptr b + bsize b = base + n).
Proof.
  intros Hok Hi Hs Hb. destruct (ok_segment _ _ (heap_blocks _ _ _ Hok i b Hi)) as (base' & n' & Hs' & _ & B1 & B2 & _ & B3).
  pose proof (ok_size _ _ (heap_blocks _ _ _ Hok i b Hi)). destruct (decide (base' = base)) as [->|Hne].
  - by assert (n' = n) as -> by congruence.
  - destruct (heap_segments _ _ _ Hok base n base' n' Hs Hs' ltac:(congruence)); lia.
Qed.

(** The blocks from [b] to the end of its segment. *)
Lemma total_tail segs ex h base n i b : heap_ok segs ex h → segs !! base = Some n → h !! i = Some b →
  base ≤ bptr b < base + n → total (in_part (bptr b) (base + n)) h = base + n - bptr b.
Proof.
  intros Hok Hs. remember (Z.to_nat (base + n - bptr b)) as k eqn:Ek. revert i b Ek.
  induction k as [k IH] using lt_wf_ind. intros i b -> Hi Hb.
  destruct (block_segment _ _ _ _ _ _ _ Hok Hi Hs Hb) as [Hend Hnext]. pose proof (ok_size _ _ (heap_blocks _ _ _ Hok i b Hi)) as Hpos.
  assert (total (in_part (bptr b) (base + n)) h = bsize b + total (in_part (bptr b + bsize b) (base + n)) h) as ->.
  { rewrite (total_single _ (in_part (bptr b + bsize b) (base + n)) h i b Hi).
    - unfold in_part. rewrite (decide_True (P := bptr b ≤ bptr b ∧ _)), decide_False by lia. lia.
    - intros j c Hj Hne. pose proof (ok_size _ _ (heap_blocks _ _ _ Hok j c Hj)). unfold in_part.
      destruct (heap_disjoint _ _ _ Hok i b j c ltac:(congruence) Hi Hj); repeat case_decide; lia. }
  destruct (next b) as [j|] eqn:En.
  - destruct (heap_next _ _ _ Hok i b j Hi En) as (c & Hj & _ & Fc & _). rewrite <- Fc.
    assert (bptr b + bsize b ≠ base + n) by (intros E; by apply Hnext in E).
    rewrite (IH (Z.to_nat (base + n - bptr c)) ltac:(lia) j c eq_refl Hj); lia.
  - destruct Hnext as [Hn _]. pose proof (Hn eq_refl) as E. rewrite E. rewrite (total_ext _ (λ _, 0)), total_zero; [lia|].
    intros j c _. unfold in_part. rewrite decide_False by lia. done.
Qed.

(** The size of a block that begins in one of the segments. *)
Definition covered (m : gmap Z Z) (b : Block) : Z := map_fold (λ p n acc, in_part p (p + n) b + acc) 0 m.

Lemma covered_insert m p n b : m !! p = None → covered (<[p := n]> m) b = in_part p (p + n) b + covered m b.
Proof. intros Hp. unfold covered. rewrite map_fold_insert_L; [done| |done]. intros. lia. Qed.

Lemma covered_zero m b : (∀ p n, m !! p = Some n → in_part p (p + n) b = 0) → covered m b = 0.
Proof.
  induction m as [|p n m Hp IH] using map_ind; intros Hz; [done|]. rewrite covered_insert by done.
  rewrite (Hz p n) by apply lookup_insert_eq. rewrite IH; [done|]. intros q k Hq. apply Hz.
  rewrite lookup_insert_ne; [done|]. congruence.
Qed.

Lemma covered_block segs ex h i b : heap_ok segs ex h → h !! i = Some b → covered segs b = bsize b.
Proof.
  intros Hok Hi. destruct (ok_segment _ _ (heap_blocks _ _ _ Hok i b Hi)) as (base & n & Hs & _ & B1 & B2 & _).
  pose proof (ok_size _ _ (heap_blocks _ _ _ Hok i b Hi)). rewrite <- (insert_delete_id segs base n Hs).
  rewrite covered_insert by apply lookup_delete_eq. rewrite covered_zero.
  - unfold in_part. rewrite decide_True by lia. lia.
  - intros q k [Hne Hq]%lookup_delete_Some. unfold in_part. rewrite decide_False; [done|]. intros Hc.
    destruct (heap_segments _ _ _ Hok base n q k Hs Hq Hne); lia.
Qed.

Lemma total_held segs ex h : heap_ok segs ex h → total bsize h = held segs.
Proof.
  intros Hok. rewrite (total_ext _ (covered segs)) by (intros i b Hi; symmetry; by apply (covered_block segs ex h i)).
  assert (∀ m, m ⊆ segs → total (covered m) h = held m) as Hall; [|by apply Hall].
  intros m. induction m as [|p n m Hp IH] using map_ind; intros Hm.
  { rewrite (total_ext _ (λ _, 0)); [apply total_zero|done]. }
  assert (segs !! p = Some n) as Hs by (apply (lookup_weaken _ _ _ _ (lookup_insert_eq m p n) Hm)).
  rewrite (total_ext _ (λ b, in_part p (p + n) b + covered m b)) by (intros; by apply covered_insert).
  rewrite total_plus, held_insert by done. rewrite IH by (etransitivity; [by apply insert_subseteq|done]).
  destruct (heap_heads _ _ _ Hok p n Hs) as (i & b & Hi & <-). pose proof (heap_segment_size _ _ _ Hok _ _ Hs).
  rewrite (total_tail segs ex h (bptr b) n i b); [lia|done|done|done|lia].
Qed.

(** ** Segments of a drained pool. *)

(** Every segment of a drained pool holds a block in use. *)
Lemma drained_used segs h r base n i b : heap_ok segs None h → drained r h → h !! i = Some b → bpool b = r → bptr b = base →
  segs !! base = Some n → ∃ k u, used h k = Some u ∧ u_pool u = r ∧ base ≤ u_ptr u ∧ u_ptr u + u_size u ≤ base + n.
Proof.
  intros Hok Hd Hi Er Ep Hs. pose proof (heap_segment_size _ _ _ Hok _ _ Hs) as Hn.
  destruct (block_segment _ _ _ _ _ _ _ Hok Hi Hs ltac:(lia)) as [Hend Hnext].
  destruct (unused b) eqn:Ub.
  2: { exists i, (use_of b). unfold used. rewrite Hi, Ub. split; [done|]. cbn. split; [done|]. lia. }
  pose proof (Hd i b Hi Er Ub) as Hsplit. unfold is_split in Hsplit.
  destruct (ok_segment _ _ (heap_blocks _ _ _ Hok i b Hi)) as (base' & n' & Hs' & _ & B1 & B2 & Bp & _).
  assert (base' = base) as ->. { destruct (decide (base' = base)) as [|Hne]; [done|exfalso].
    pose proof (ok_size _ _ (heap_blocks _ _ _ Hok i b Hi)). destruct (heap_segments _ _ _ Hok base n base' n' Hs Hs' ltac:(congruence)); lia. }
  assert (prev b = None) as Hp by (by apply Bp). destruct (next b) as [j|] eqn:En; [|by rewrite Hp in Hsplit].
  destruct (heap_next _ _ _ Hok i b j Hi En) as (c & Hj & _ & Fc & _ & Fp).
  assert (bptr b + bsize b ≠ base + n) by (intros E; by apply Hnext in E).
  pose proof (ok_size _ _ (heap_blocks _ _ _ Hok i b Hi)).
  destruct (block_segment _ _ _ j c base n Hok Hj Hs ltac:(lia)) as [Hendc _].
  assert (unused c = false) as Uc. { destruct (unused c) eqn:Uc; [|done]. by destruct (heap_coalesced _ _ _ Hok i b j c Hi En Hj Ub Uc). }
  exists j, (use_of c). unfold used. rewrite Hj, Uc. split; [done|]. cbn. split; [congruence|]. lia.
Qed.
