(* ===== verification/XPUAlloc.v ===== *)
(** * The XPU caching allocator: allocation.

    The search for the best fitting block, the allocation of a segment, the
    splitting of a block, and [malloc], when expandable segments are off. *)

From stdpp Require Import sorting.
From S2P Require Import Prelude CachingAllocator DeviceRuntime ExpandableSegment XPUBlocks XPUAllocator XPUHeap XPUInvariant XPUMerge XPUFree XPUEvents XPURelease.

Section Allocation.
Context {D : Type} `{DeviceLaws D} (cfg : AllocatorConfig).
Context (Hplain : use_expandable_segments cfg = false).
Implicit Types (s : DeviceCachingAllocator D) (h : gmap loc Block).

(** ** [get_pool]. *)

(** The pool for a queue: that of the first capture that takes the queue. *)
Definition pool_of s (size queue : Z) : PoolRef :=
  mkPool (fst <$> List.find (λ entry : MempoolId_t * (Z → bool), entry.2 queue) (captures_underway s)) (size <=? kSmallSize).

Lemma get_pool_spec segs ex hand ev size queue (Q : PoolRef → DeviceCachingAllocator D → Prop) s :
  core segs ex hand ev s → (is_Some (lookup_pool s (pool_of s size queue)) → Q (pool_of s size queue) s) →
  wp (get_pool size queue) Q s.
Proof.
  intros Hc HQ. unfold wp, get_pool, pool_of in *. destruct (List.find _ _) as [[i f]|] eqn:E; cbn in *; [|apply HQ; by eexists].
  apply List.find_some in E as [E _]. apply list_elem_of_In in E.
  destruct (admin_captures _ _ _ (core_admin _ _ _ _ _ Hc) _ E) as (n & Hn & _). unfold uses in Hn. rewrite lookup_fmap in Hn.
  apply fmap_Some in Hn as (pp & Hpp & _). cbn in Hpp. rewrite decide_True by (by exists pp). apply HQ.
  unfold lookup_pool. cbn. rewrite Hpp. by eexists.
Qed.

(** ** [get_free_block]. *)

(** A block of the pool that could serve the request. *)
Definition candidate h (r : PoolRef) (queue size : Z) (i : loc) (b : Block) : Prop :=
  h !! i = Some b ∧ unused b = true ∧ bpool b = r ∧ bqueue b = queue ∧ size ≤ bsize b.

Definition best_fit h r queue size i b : Prop :=
  candidate h r queue size i b ∧
  ∀ j c, candidate h r queue size j c → bsize b < bsize c ∨ bsize b = bsize c ∧ bptr b ≤ bptr c.

Lemma key_less_spec h key i a : h !! i = Some a → key_less BlockComparatorSize h key i = BlockComparatorSize a key.
Proof. intros Hi. unfold key_less. by rewrite Hi. Qed.

(** What compares less than the key of a request is not a candidate. *)
Lemma less_not_candidate h r queue size i b dev :
  candidate h r queue size i b → 0 < bptr b → BlockComparatorSize b (new_Block dev queue size r 0) = false.
Proof.
  intros (_ & _ & _ & Eq & Hs) Hp. unfold BlockComparatorSize. cbn. rewrite Eq, Z.eqb_refl. cbn.
  destruct (bsize b =? size) eqn:E; cbn; [apply Z.ltb_ge; lia|]. bool_simpl. apply Z.ltb_ge. lia.
Qed.

(** The first element that is not less is a candidate, or there is none. *)
Lemma first_not_less r (queue size : Z) b dev : BlockComparatorSize b (new_Block dev queue size r 0) = false →
  bqueue b = queue ∧ size ≤ bsize b ∨ queue < bqueue b.
Proof.
  unfold BlockComparatorSize. cbn. destruct (bqueue b =? queue) eqn:E1; cbn.
  - destruct (bsize b =? size) eqn:E2; cbn; intros; bool_simpl; left; lia.
  - intros. bool_simpl. right. lia.
Qed.

Lemma comparator_order b c : BlockComparatorSize b c = true → bqueue b < bqueue c ∨
  bqueue b = bqueue c ∧ (bsize b < bsize c ∨ bsize b = bsize c ∧ bptr b < bptr c).
Proof. unfold BlockComparatorSize. repeat case_match; bool_simpl; intros; bool_simpl; lia. Qed.

(** Taking a block out of its pool. *)
Lemma core_take segs ev i b s :
  core segs None None ev s → heap s !! i = Some b → unused b = true →
  core segs None (Some i) ev (update_pool (bpool b) (set_blocks (filter (λ j, j ≠ i))) s).
Proof.
  intros Hc Hi Ub. set (f := set_blocks _).
  destruct (update_pool_fields (bpool b) f s) as (E1 & _ & _ & _ & E2 & E3 & E4 & E5 & E6 & _).
  destruct (update_pool_counts (bpool b) f s) as [E7 E8]. destruct Hc as [C1 C2 C3 C4 C5 C6 C7 C8 C9].
  split; rewrite ?E1, ?E2, ?E3, ?E4, ?E5, ?E6, ?E7, ?E8; try done.
  - intros r bp. rewrite lookup_update_pool. case_decide as Er.
    + subst r. destruct (lookup_pool s (bpool b)) as [bp0|] eqn:E; [|done]. intros [= <-].
      destruct (C3 _ _ E) as [P1 P2 P3]. split; [done| |].
      * cbn. by apply ordered_filter.
      * intros k. cbn. rewrite list_elem_of_filter, P3. naive_solver.
    + intros E. destruct (C3 r bp E) as [P1 P2 P3]. split; [done|done|]. intros k. rewrite P3. split.
      * intros (x & Hx & R1 & R2 & _). exists x. repeat split; try done. intros [= <-]. apply Er. congruence.
      * intros (x & Hx & R1 & R2 & _). by exists x.
  - intros k x Hx. rewrite lookup_update_pool. case_decide as Er; [|by apply (C4 k x)].
    rewrite fmap_is_Some. by apply (C4 i b).
Qed.

(** A block was taken out of its pool to be handed out. *)
Record taken segs ev (i : loc) (b : Block) (p : AllocParams) s : Prop := {
  tk_core : core segs None (Some i) ev s;
  tk_active : active_ok s;
  tk_stats : stats_ok (heap s) (stats s);
  tk_block : candidate (heap s) (p_pool p) (p_queue p) (p_size p) i b
}.

Lemma get_free_block_spec segs ev p s :
  good segs ev s → is_Some (lookup_pool s (p_pool p)) →
  wp (get_free_block cfg p) (λ r s',
    match r with
    | Some i => ∃ b, best_fit (heap s) (p_pool p) (p_queue p) (p_size p) i b ∧ taken segs ev i b p s' ∧
        heap s' = heap s ∧ same_admin s s' ∧ xpu_events s' = xpu_events s ∧ dev s' = dev s
    | None => s' = s ∧ ∀ i b, ¬ candidate (heap s) (p_pool p) (p_queue p) (p_size p) i b
    end) s.
Proof.
  intros (Hc & Ha & Hs) [bp Hbp]. pose proof (core_pools _ _ _ _ _ Hc _ _ Hbp) as Hp. pose proof (core_heap _ _ _ _ _ Hc) as Hok.
  apply wp_bind, (wp_deref_pool _ bp); [done|]. apply wp_bind, wp_reads.
  set (less := key_less BlockComparatorSize (heap s) (search_key p)).
  destruct (lower_bound_spec less (blocks bp)) as (l1 & El & Hl1 & Hhd).
  assert (∀ i b, candidate (heap s) (p_pool p) (p_queue p) (p_size p) i b → i ∈ lower_bound less (blocks bp)) as Hin.
  { intros i b Hcand. pose proof Hcand as (Hi & Ub & Er & _). assert (i ∈ blocks bp) as Hib by (apply Hp; by exists b).
    rewrite El in Hib. apply elem_of_app in Hib as [Hib|]; [|done]. rewrite Forall_forall in Hl1. apply Hl1 in Hib.
    unfold less in Hib. rewrite (key_less_spec _ _ _ b Hi) in Hib.
    unfold search_key in Hib. rewrite (less_not_candidate _ _ _ _ _ _ _ Hcand) in Hib; [done|].
    apply (ok_ptr _ _ (heap_blocks _ _ _ Hok i b Hi)). }
  destruct (lower_bound less (blocks bp)) as [|i after] eqn:Elb.
  { apply wp_ret. split; [done|]. intros i b Hcand. by apply Hin, not_elem_of_nil in Hcand. }
  assert (i ∈ blocks bp) as Hib by (rewrite El; set_solver).
  pose proof Hib as (b & Hi & Er & Ub & _)%(pool_elem _ _ _ _ Hp). unfold less in Hhd. rewrite (key_less_spec _ _ _ b Hi) in Hhd.
  apply first_not_less in Hhd.
  assert (∀ j c, candidate (heap s) (p_pool p) (p_queue p) (p_size p) j c → j = i ∨ BlockComparatorSize b c = true) as Hmin.
  { intros j c Hcand. pose proof (Hin j c Hcand) as [->|Hj]%elem_of_cons; [by left|right].
    pose proof (pool_ordered _ _ _ _ Hp) as Ho. rewrite El in Ho. unfold ordered in Ho. apply StronglySorted_app_1_r in Ho.
    apply StronglySorted_cons in Ho as [Ho _]. rewrite Forall_forall in Ho. specialize (Ho j Hj). destruct Hcand as (Hcj & _).
    unfold id_less in Ho. by rewrite Hi, Hcj in Ho. }
  apply wp_bind, (wp_deref i b); [done|]. destruct (bqueue b =? p_queue p) eqn:Eq; cbn [negb]; bool_simpl.
  2: { apply wp_ret. split; [done|]. intros j c Hcand. destruct (Hmin j c Hcand) as [->|Hlt].
    - destruct Hcand as (Hj & _ & _ & Hq & _). congruence.
    - apply comparator_order in Hlt. destruct Hcand as (_ & _ & _ & Hq & _). destruct Hhd; lia. }
  assert (p_size p ≤ bsize b) as Hsz by (destruct Hhd; lia).
  destruct (ok_plain _ _ (heap_blocks _ _ _ Hok i b Hi)) as [_ Be].
  apply wp_bind. rewrite decide_True by done. apply wp_ret.
  apply wp_bind, (wp_erase_at _ _ bp); [done|]. apply wp_ret. exists b.
  assert (candidate (heap s) (p_pool p) (p_queue p) (p_size p) i b) as Hcand by done.
  destruct (update_pool_fields (p_pool p) (set_blocks (filter (λ j, j ≠ i))) s) as (E1 & E2 & E3 & E4 & E5 & E6 & E7 & E8 & E9 & E10 & E11 & _).
  destruct (update_pool_counts (p_pool p) (set_blocks (filter (λ j, j ≠ i))) s) as [E12 E13].
  split; [|split; [|split; [done|split; [|done]]]].
  - split; [done|]. intros j c Hj. destruct (Hmin j c Hj) as [->|Hlt].
    + right. destruct Hj as (Hj & _). assert (c = b) as -> by congruence. lia.
    + apply comparator_order in Hlt. destruct Hj as (_ & _ & _ & Hq & _). lia.
  - split; [rewrite <- Er; by apply core_take| | |by rewrite E1].
    + intros k. by rewrite E3, E1.
    + by rewrite E1, E2.
  - split; [done|]. split; [done|]. split; [done|]. split; [|done]. intros r. rewrite lookup_update_pool.
    case_decide as Er'; [by rewrite Er', fmap_is_Some|done].
Qed.
(** ** [alloc_block]. *)
Lemma wp_allocPrimitive size p (Q : option Z → DeviceCachingAllocator D → Prop) s :
  0 < size → is_Some (lookup_pool s (p_pool p)) →
  (∀ d ptr, 0 < ptr → live (dev s) !! ptr = None → live d = <[ptr := size]> (live (dev s)) →
     (∀ q n, live (dev s) !! q = Some n → separate ptr size q n) → Q (Some ptr) (set_dev d s)) →
  (∀ d, live d = live (dev s) → Q None (set_dev d s)) → wp (allocPrimitive size p) Q s.
Proof.
  intros Hsz Hr H1 H2. unfold allocPrimitive. apply wp_bind.
  assert (∀ f : D → D * option Z, (∀ d r, f (dev s) = (d, r) → match r with
      | Some ptr => 0 < ptr ∧ live (dev s) !! ptr = None ∧ live d = <[ptr := size]> (live (dev s)) ∧
          (∀ q n, live (dev s) !! q = Some n → separate ptr size q n)
      | None => live d = live (dev s) end) → wp (run_device f) Q s) as Hrun.
  { intros f Hf. unfold wp, run_device. destruct (f (dev s)) as [d [ptr|]] eqn:E; pose proof (Hf _ _ eq_refl) as Hr'; [|by apply H2].
    destruct Hr' as (? & ? & ? & ?). by apply H1. }
  assert (∀ a, wp (match a with Some a => run_device (raw_alloc a size) | None => run_device (aligned_alloc_device size) end) Q s) as Ha.
  { intros [a|]; apply Hrun; intros d [ptr|] E.
    - by apply (raw_alloc_some a).
    - by apply (raw_alloc_none a size).
    - by apply alloc_some.
    - by apply (alloc_none size). }
  destruct (owner_PrivatePool (p_pool p)) as [m|] eqn:Eo; [|exact (Ha None)].
  destruct (proj1 (lookup_pool_private _ _ m Eo) Hr) as [pp Hpp]. apply wp_bind, (wp_deref_private m pp); [done|]. exact (Ha (allocator_ pp)).
Qed.

(** A new segment, of one block that is not in a pool yet. *)
Lemma core_new_segment segs ev k b n s s' :
  core segs None None ev s → k = next_block s → unused b = true → prev b = None → next b = None →
  bptr b ≠ 0 → mapped b = true ∧ expandable_segment b = None → bsize b = n → 0 < n < 2 ^ 64 → 0 < bptr b →
  live (dev s) !! bptr b = None → (∀ q m, live (dev s) !! q = Some m → separate (bptr b) n q m) →
  is_Some (lookup_pool s (bpool b)) →
  heap s' = <[k := b]> (heap s) → live (dev s') = <[bptr b := n]> (live (dev s)) →
  (∀ r, lookup_pool s' r = lookup_pool s r) → uses s' = uses s →
  (∀ m, allocs s' !! m = (λ x, if decide (owner_PrivatePool (bpool b) = Some m) then x + 1 else x) <$> allocs s !! m) →
  graph_pools_freeable s' = graph_pools_freeable s → captures_underway s' = captures_underway s →
  next_block s' = Pos.succ k → ring_ok (alloc_buffer s') →
  core (<[bptr b := n]> segs) None (Some k) ev s'.
Proof.
  intros Hc -> Ub Hp Hn Hz Hplain' Esz Hsz Hpos Hnone Hsep Hpool E1 E2 E3 E4 E5 E6 E7 E8 Hr.
  destruct Hc as [C1 C2 C3 C4 C5 C6 C7 C8 C9]. apply unused_spec in Ub as Hu. destruct Hu as (U1 & U2 & U3).
  assert (heap s !! next_block s = None) as Hfresh.
  { destruct (heap s !! next_block s) as [c|] eqn:E; [|done]. specialize (C8 _ _ E). lia. }
  assert (segs !! bptr b = None) as Hsn.
  { destruct (segs !! bptr b) eqn:E; [|done]. apply (lookup_weaken _ _ _ _ E) in C2. congruence. }
  assert (block_ok (<[bptr b := bsize b]> segs) b) as Bb.
  { split; try done; rewrite ?U1, ?U2, ?U3; try done; try lia. exists (bptr b), (bsize b). rewrite lookup_insert_eq.
    split; [done|]. split; [lia|]. split; [lia|]. split; [lia|]. rewrite Hp, Hn. done. }
  split; rewrite ?E1, ?E2, ?E4, ?E6, ?E7; try done.
  - rewrite <- Esz. apply add_segment; try done; [lia|]. intros p m Hpm. rewrite Esz. apply Hsep. by apply (lookup_weaken _ _ _ _ Hpm).
  - by apply insert_mono.
  - intros r bp. rewrite E3. intros Hbp. destruct (C3 r bp Hbp) as [P1 P2 P3]. split; [done| |].
    + apply (ordered_key (heap s)); [|done]. intros k (c & Hk & _)%P3. unfold key. rewrite lookup_insert_ne; [done|]. intros <-. congruence.
    + intros k. rewrite P3. destruct (decide (k = next_block s)) as [->|Hk].
      * split; [intros (c & Hc' & _); congruence|]. by intros (c & _ & _ & _ & Hc').
      * rewrite lookup_insert_ne by done. split; intros (c & Hc1 & Hc2 & Hc3 & Hc4); exists c; repeat split; try done; congruence.
  - intros k c. rewrite lookup_insert_Some, E3. intros [[<- <-]|[_ Hk]]; [done|by apply (C4 k)].
  - intros k. rewrite (C5 k). destruct (decide (k = next_block s)) as [->|Hk].
    + by rewrite lookup_insert_eq, Hfresh.
    + by rewrite lookup_insert_ne.
  - intros m x. rewrite E5. destruct (allocs s !! m) as [y|] eqn:E; [|done]. intros [= <-].
    rewrite (total_insert _ _ _ _ Hfresh), (C6 m y E). unfold head_of. repeat case_decide; try lia; exfalso; tauto.
  - intros k c. rewrite E8, lookup_insert_Some. intros [[<- <-]|[_ Hk]]; [lia|]. specialize (C8 k c Hk). lia.
Qed.

Lemma alloc_adds x : adds (λ t st, update_stat reserved_bytes t (increase x) (update_stat segment t (increase 1) st))
  (λ n, match n with segment => 1 | reserved_bytes => x | _ => 0 end).
Proof.
  intros t st n t'. etransitivity; [refine (adds_increase _ _ _ _ (adds_increase _ _ _ _ adds_0) t st n t')|]. cbv beta.
  f_equal. case_decide; [|done]. destruct n; repeat first [rewrite decide_True by done|rewrite decide_False by done]; lia.
Qed.

Lemma good_set_stats segs ev s x : good segs ev s → good segs ev (set_stats (mkStats (arrays (stats s)) x) s).
Proof. intros (A & B & C). split; [|done]. by apply (core_transport _ _ _ _ s); try apply A. Qed.

(** What allocating a segment leaves alone. *)
Definition extends segs segs' s s' : Prop :=
  same_admin s s' ∧ xpu_events s' = xpu_events s ∧ foreign segs' s' = foreign segs s ∧
  ∀ k, used (heap s') k = used (heap s) k.

Lemma alloc_block_spec segs ev p isRetry s :
  good segs ev s → is_Some (lookup_pool s (p_pool p)) → p_size p ≤ p_alloc_size p → 0 < p_alloc_size p < 2 ^ 64 →
  wp (alloc_block cfg p isRetry) (λ r s',
    match r with
    | Some i => ∃ segs' b, taken segs' ev i b p s' ∧ extends segs segs' s s' ∧ bsize b = p_alloc_size p ∧ is_split b = false ∧
        live (dev s') = <[bptr b := bsize b]> (live (dev s))
    | None => good segs ev s' ∧ extends segs segs s s' ∧ live (dev s') = live (dev s)
    end) s.
Proof.
  intros Hg Hpool Hle Hsz. unfold alloc_block. apply wp_bind.
  apply (wp_mono _ (λ _ s0, ∃ x, s0 = set_stats (mkStats (arrays (stats s)) x) s)).
  { destruct isRetry; [apply wp_modify; by eexists|apply wp_ret; exists (num_alloc_retries (stats s)); by destruct s as [[]]]. }
  cbv beta. intros [] s0 _ [x ->]. set (s0 := set_stats _ s). pose proof (good_set_stats segs ev s x Hg) as Hg0. fold s0 in Hg0.
  change (is_Some (lookup_pool s0 (p_pool p))) in Hpool.
  apply wp_bind, (wp_mono _ (λ _ s', s' = s0)).
  { destruct (owner_PrivatePool (p_pool p)) as [m|] eqn:Eo; [|by apply wp_ret].
    destruct (proj1 (lookup_pool_private _ _ m Eo) Hpool) as [pp Hpp]. apply wp_bind, (wp_deref_private m pp); [done|]. by apply wp_ret. }
  cbv beta. intros pp s0' _ ->. apply wp_bind, wp_reads.
  destruct (_ && _).
  { apply wp_ret. split; [done|]. split; [|done]. split; [done|]. done. }
  rewrite Hplain. apply wp_bind, wp_allocPrimitive; [lia|done| |].
  2: { intros d Hd. apply wp_ret. split; [by apply good_set_dev|]. split; [|done]. split; [done|].
    split; [done|]. split; [|done]. unfold foreign. cbn. by rewrite Hd. }
  intros d ptr Hptr Hnone Hd Hsep. set (s1 := set_dev d s0).
  apply wp_bind, wp_count_allocation; [done|]. pose proof (count_update_fields (p_pool p) 1 s1) as U.
  pose proof (count_update_pools (p_pool p) 1 s1) as V. pose proof (count_update_counts (p_pool p) 1 s1) as W.
  set (s2 := count_update _ _ s1) in *. clearbody s2. destruct U as (U1 & U2 & U3 & U4 & U5 & U6 & U7 & U8 & U9 & U10 & U11), W as [W1 W2].
  cbn in U1, U2, U3, U4, U5, U6, U7, U8, U9, U10, U11. change (uses s2 = uses s) in W1. change (allocs s1) with (allocs s) in W2.
  change (lookup_pool s1) with (lookup_pool s) in V. cbn in Hnone, Hsep.
  apply wp_bind, wp_new_block. set (b := new_Block _ _ _ _ ptr). set (s3 := set_next_block _ _).
  apply wp_bind. eapply wp_for_stats; [apply alloc_adds|]. intros st Hst.
  apply wp_bind, wp_assert; [by apply negb_true_iff, Z.eqb_neq; lia|].
  assert (ring_ok (alloc_buffer s2)) as Hring2 by (rewrite U9; apply Hg).
  apply wp_bind, wp_record_trace; [done|]. intros ring Hring. apply wp_ret. set (s4 := set_alloc_buffer _ _).
  assert (heap s !! next_block s = None) as Hfresh.
  { destruct (heap s !! next_block s) as [c|] eqn:E; [|done]. pose proof (core_fresh _ _ _ _ _ (proj1 Hg) _ _ E). lia. }
  assert (heap s4 = <[next_block s := b]> (heap s)) as Eh by (cbn; congruence).
  exists (<[ptr := p_alloc_size p]> segs), b. rewrite U8.
  assert (∀ k, used (heap s4) k = used (heap s) k) as Hused.
  { intros k. rewrite Eh, used_insert. case_decide as E; [|done]. subst k. unfold used. by rewrite Hfresh. }
  assert (is_split b = false) as Esp by done.
  split; [split|split; [|split; [done|split; [done|]]]].
  - apply (core_new_segment segs ev (next_block s) b (p_alloc_size p) s); try done; try (cbn; congruence); try (cbn; lia).
    + apply Hg.
    + cbn. by rewrite U5, Hd.
  - intros k. rewrite Hused. cbn. rewrite U3. apply Hg.
  - intros n t. cbn [stats set_alloc_buffer s4 set_stats]. rewrite Hst. cbn [stats s3 set_next_block set_heap]. rewrite U2.
    change (current (arrays (stats s) n t) + in_stat t (p_pool p) (match n with segment => 1 | reserved_bytes => p_alloc_size p | _ => 0 end) =
      tot n t (heap s4)). rewrite Eh. unfold tot. rewrite (total_insert _ _ _ _ Hfresh). destruct Hg as (_ & _ & Hs). rewrite (Hs n t).
    change (bpool b) with (p_pool p). unfold tot, stat_of, stat_val. rewrite Esp.
    destruct n; cbn; rewrite ?decide_True by done; lia.
  - rewrite Eh. split; [apply lookup_insert_eq|]. done.
  - split; [|split; [cbn; congruence|split; [|done]]].
    + split; [cbn; congruence|]. split; [cbn; congruence|]. split; [change (uses s2 = uses s); congruence|].
      split; [|split; cbn; congruence]. intros r. change (is_Some (lookup_pool s2 r) ↔ is_Some (lookup_pool s r)). by rewrite V.
    + unfold foreign. cbn. rewrite U5, Hd. apply map_eq. intros q. apply option_eq. intros y.
      rewrite !lookup_difference_Some, lookup_insert_Some, lookup_insert_None.
      destruct (decide (ptr = q)) as [<-|]; [|tauto]. cbn. rewrite Hnone. naive_solver.
  - cbn. by rewrite U5, Hd.
Qed.
End Allocation.
