(* ===== verification/XPUMalloc.v ===== *)
(** * The XPU caching allocator: splitting a block, and [malloc].

    [alloc_found_block] hands out a block or the first part of it; [malloc]
    composes the parts. *)

From S2P Require Import Prelude CachingAllocator DeviceRuntime ExpandableSegment XPUBlocks XPUAllocator XPUHeap XPUInvariant XPUMerge XPUFree XPUEvents XPURelease XPUAlloc.

(** ** Splitting. *)

(** The contribution of a block in hand to a statistic. *)
Definition hand_val (b : Block) (n : StatName) : Z :=
  match n with segment => if decide (prev b = None) then 1 else 0 | reserved_bytes => bsize b | _ => 0 end.

Lemma split_heap_eq segs ex h i k b bk bi :
  heap_ok segs ex h → h !! i = Some b → i ≠ k →
  <[i := bi]> (<[k := bk]> (match prev b with
    | Some p => match h !! p with Some d => <[p := set_next (Some k) d]> h | None => h end
    | None => h end)) = split_heap i k bk bi h.
Proof.
  intros Hok Hi Hik. unfold split_heap. rewrite insert_insert_ne by done. f_equal. f_equal. apply map_eq. intros m.
  rewrite lookup_fmap.
  assert (∀ d, h !! m = Some d → prev b ≠ Some m → redirect_next i k d = d) as Hid.
  { intros d Hd Hp. unfold redirect_next, redirect_ptr. rewrite decide_False; [by destruct d|]. intros Hn.
    destruct (heap_next _ _ _ Hok m d i Hd Hn) as (x & Hx & Hpx & _). congruence. }
  destruct (prev b) as [p|] eqn:Ep.
  - destruct (heap_prev _ _ _ Hok i b p Hi Ep) as (d & Hd & Hn). rewrite Hd. destruct (decide (m = p)) as [->|Hmp].
    + rewrite lookup_insert_eq, Hd. cbn. unfold redirect_next, redirect_ptr. by rewrite decide_True.
    + rewrite lookup_insert_ne by done. destruct (h !! m) as [x|] eqn:Hm; [|done]. cbn. by rewrite Hid by congruence.
  - destruct (h !! m) as [x|] eqn:Hm; [|done]. cbn. by rewrite Hid.
Qed.

Section Malloc.
Context {D : Type} `{DeviceLaws D} (cfg : AllocatorConfig).
Context (Hplain : use_expandable_segments cfg = false).
Implicit Types (s : DeviceCachingAllocator D) (h : gmap loc Block).

(** The state after the split. *)
Lemma core_split segs ev i b k bk bi size s s' :
  core segs None (Some i) ev s → heap s !! i = Some b → unused b = true → k = next_block s → 0 < size < bsize b →
  parts b bk bi i k size → heap s' = split_heap i k bk bi (heap s) → dev s' = dev s →
  (∀ r, lookup_pool s' r = if decide (r = bpool b)
     then set_blocks (set_insert (id_less BlockComparatorSize (heap s')) i) <$> lookup_pool s r else lookup_pool s r) →
  uses s' = uses s → allocs s' = allocs s → graph_pools_freeable s' = graph_pools_freeable s →
  captures_underway s' = captures_underway s → next_block s' = Pos.succ k → alloc_buffer s' = alloc_buffer s →
  core segs (Some k) (Some k) ev s'.
Proof.
  intros Hc Hi Ub -> Hsz Hpt Eh E2 E3 E4 E5 E6 E7 E8 E9. destruct Hc as [C1 C2 C3 C4 C5 C6 C7 C8 C9].
  assert (heap s !! next_block s = None) as Hk.
  { destruct (heap s !! next_block s) as [c|] eqn:E; [|done]. specialize (C8 _ _ E). lia. }
  pose proof (split_ok segs (heap s) i (next_block s) b bk bi size C1 Hi Hk Hsz Hpt) as Hok'. rewrite <- Eh in Hok'.
  set (k := next_block s) in *. assert (i ≠ k) as Hik by congruence.
  pose proof Hpt as (Q1 & Q2 & Q3 & Q4 & Q5 & Q6 & Q7 & Q8 & Q9 & Q10 & Q11 & Ebi).
  assert (heap s' !! k = Some bk) as Hk' by (rewrite Eh; apply lookup_insert_eq).
  assert (heap s' !! i = Some bi) as Hi' by (rewrite Eh; unfold split_heap; by rewrite lookup_insert_ne, lookup_insert_eq by done).
  assert (∀ m, m ≠ i → m ≠ k → heap s' !! m = redirect_next i k <$> heap s !! m) as Ho.
  { intros m Hmi Hmk. rewrite Eh. unfold split_heap. rewrite !lookup_insert_ne by done. apply lookup_fmap. }
  assert (unused bi = true ∧ bpool bi = bpool b) as [Ui Pi] by (by rewrite Ebi).
  assert (∀ r bp, lookup_pool s r = Some bp → ordered (id_less BlockComparatorSize (heap s')) (blocks bp) ∧
    Forall (λ m, is_Some (heap s' !! m)) (blocks bp) ∧ i ∉ blocks bp ∧
    ∀ m, m ∈ blocks bp ↔ m ≠ i ∧ ∃ c, heap s' !! m = Some c ∧ bpool c = r ∧ unused c = true ∧ Some k ≠ Some m) as Hpool.
  { intros r bp Hbp. destruct (C3 r bp Hbp) as [P1 P2 P3].
    assert (∀ m, m ∈ blocks bp → m ≠ i ∧ m ≠ k) as Hne.
    { intros m (c & Hm & _ & _ & Hh)%P3. split; [congruence|]. intros ->. congruence. }
    split; [|split; [|split]].
    - apply (ordered_key (heap s)); [|done]. intros m Hm. destruct (Hne m Hm). unfold key. rewrite Ho by done. by destruct (heap s !! m).
    - apply Forall_forall. intros m Hm. destruct (Hne m Hm). apply P3 in Hm as (c & Hm & _). rewrite Ho, Hm by done. by eexists.
    - intros Hin. by destruct (Hne i Hin).
    - intros m. split.
      + intros Hm. destruct (Hne m Hm). split; [done|]. apply P3 in Hm as (c & Hm & R1 & R2 & _). exists (redirect_next i k c).
        rewrite Ho, Hm by done. repeat split; try done. congruence.
      + intros (Hmi & c & Hm & R1 & R2 & R3). assert (m ≠ k) as Hmk by congruence. rewrite Ho in Hm by done. apply P3.
        destruct (heap s !! m) as [c0|]; [|done]. injection Hm as <-. exists c0. repeat split; try done. congruence. }
  split; rewrite ?E2, ?E4, ?E5, ?E6, ?E7, ?E9; try done.
  - intros r bp. rewrite E3. case_decide as Er.
    + subst r. destruct (lookup_pool s (bpool b)) as [bp0|] eqn:E; [|done]. intros [= <-].
      destruct (Hpool _ _ E) as (H1 & H2 & H3 & H4).
      destruct (set_insert_spec (id_less BlockComparatorSize (heap s')) (λ m, is_Some (heap s' !! m)) i (blocks bp0)) as [X1 X2]; try done.
      { by eapply id_less_strict. }
      split; [apply (C3 _ _ E)|done|]. intros m. cbn. rewrite X2, H4. split.
      * intros [->|(_ & c & Hc)]; [|by exists c]. exists bi. repeat split; try done. congruence.
      * intros Hc. destruct (decide (m = i)) as [->|]; [by left|by right].
    + intros Hbp. destruct (Hpool _ _ Hbp) as (H1 & H2 & H3 & H4). split; [apply (C3 _ _ Hbp)|done|]. intros m. rewrite H4. split.
      * intros (_ & c & Hc). by exists c.
      * intros (c & Hc & Ec & Hr). split; [|by exists c]. intros ->. apply Er. congruence.
  - intros m c Hm. rewrite E3. assert (is_Some (lookup_pool s (bpool c))) as Hc.
    { destruct (decide (m = k)) as [->|Hmk].
      - assert (c = bk) as -> by congruence. rewrite Q2. by apply (C4 i).
      - destruct (decide (m = i)) as [->|Hmi].
        + assert (c = bi) as -> by congruence. rewrite Pi. by apply (C4 i).
        + rewrite Ho in Hm by done. destruct (heap s !! m) as [c0|] eqn:E; [|done]. injection Hm as <-. exact (C4 m c0 E). }
    case_decide as Er; [by rewrite fmap_is_Some|done].
  - intros m. rewrite (C5 m). destruct (decide (m = k)) as [->|Hmk]; [by rewrite Hk, Hk'|].
    destruct (decide (m = i)) as [->|Hmi]; [by rewrite Hi, Hi', Ebi|]. rewrite Ho by done. by destruct (heap s !! m).
  - intros m n Hm. rewrite Eh, (total_split _ i k bk bi b) by done. rewrite (C6 m n Hm). unfold head_of.
    rewrite Q2, Q10, Pi, Ebi. cbn. repeat case_decide; try lia; exfalso; naive_solver.
  - intros m c Hm. rewrite E8. destruct (decide (m = k)) as [->|Hmk]; [lia|]. destruct (decide (m = i)) as [->|Hmi].
    + specialize (C8 i b Hi). fold k in C8. lia.
    + rewrite Ho in Hm by done. destruct (heap s !! m) as [c0|] eqn:E; [|done]. specialize (C8 m c0 E). fold k in C8. lia.
Qed.
Lemma wp_assign_heap i f b (Q : unit → DeviceCachingAllocator D → Prop) h s :
  h !! i = Some b → Q tt (set_heap (<[i := f b]> h) s) → wp (assign i f) Q (set_heap h s).
Proof. intros Hi HQ. by apply (wp_assign i f b). Qed.

(** The assignments of [split_found]. *)
Lemma split_assigns {A} segs ex i k b b0 size (rest : method (DeviceCachingAllocator D) A) (Q : A → DeviceCachingAllocator D → Prop) s :
  heap_ok segs ex (heap s) → heap s !! i = Some b → heap s !! k = None → 0 < size < bsize b →
  (∀ bk bi, bk = set_next (Some i) (set_prev (prev b) b0) →
     bi = set_bsize (bsize b - size) (set_bptr (bptr b + size) (set_prev (Some k) b)) →
     wp rest Q (set_heap (split_heap i k bk bi (heap s)) s)) →
  wp (assign k (set_prev (prev b));; assign_if (prev b) (set_next (Some k));; assign k (set_next (Some i));;
      assign i (set_prev (Some k));; assign i (λ b, set_bptr (bptr b + size) b);;
      assign i (λ b, set_bsize (size_t (bsize b - size)) b);; rest) Q (set_heap (<[k := b0]> (heap s)) s).
Proof.
  intros Hok Hi Hk Hsz HQ. assert (i ≠ k) as Hik by congruence.
  set (bk := set_next (Some i) (set_prev (prev b) b0)).
  set (bi := set_bsize (bsize b - size) (set_bptr (bptr b + size) (set_prev (Some k) b))).
  pose proof (split_heap_eq segs ex (heap s) i k b bk bi Hok Hi Hik) as Eh.
  assert (size_t (bsize b - size) = bsize b - size) as Esz.
  { destruct (ok_segment _ _ (heap_blocks _ _ _ Hok i b Hi)) as (base & n & _ & Hn & B1 & B2 & _). apply Z.mod_small. lia. }
  assert (∀ h, h !! k = Some (set_prev (prev b) b0) → h !! i = Some b →
    <[i := bi]> (<[k := bk]> h) = split_heap i k bk bi (heap s) →
    wp (assign k (set_next (Some i));; assign i (set_prev (Some k));; assign i (λ b, set_bptr (bptr b + size) b);;
      assign i (λ b, set_bsize (size_t (bsize b - size)) b);; rest) Q (set_heap h s)) as Hrest.
  { intros h Hhk Hhi E. apply wp_bind, (wp_assign_heap k _ _ _ _ _ Hhk).
    apply wp_bind, (wp_assign_heap i _ b); [by rewrite lookup_insert_ne|].
    apply wp_bind, (wp_assign_heap i _ (set_prev (Some k) b)); [by rewrite lookup_insert_eq|]. cbn [bptr set_prev].
    apply wp_bind, (wp_assign_heap i _ (set_bptr (bptr b + size) (set_prev (Some k) b))); [by rewrite lookup_insert_eq|].
    cbn [bsize set_bptr set_prev]. rewrite Esz, !insert_insert_eq. fold bk bi. rewrite E. by apply HQ. }
  apply wp_bind, (wp_assign_heap k _ b0); [by rewrite lookup_insert_eq|]. rewrite insert_insert_eq. apply wp_bind.
  destruct (prev b) as [p|] eqn:Ep; cbn [assign_if].
  - destruct (heap_prev _ _ _ Hok i b p Hi Ep) as (d & Hd & _). rewrite Hd in Eh.
    assert (p ≠ k) as Hpk by congruence.
    assert (p ≠ i) as Hpi by (intros ->; destruct (no_self _ _ _ i b Hok Hi); congruence).
    apply (wp_assign_heap p _ d); [by rewrite lookup_insert_ne|]. apply Hrest.
    + by rewrite lookup_insert_ne, lookup_insert_eq by done.
    + by rewrite !lookup_insert_ne by done.
    + rewrite <- Eh. f_equal. rewrite !(insert_insert_ne _ k p) by done. by rewrite insert_insert_eq.
  - apply wp_ret, Hrest; [by rewrite lookup_insert_eq|by rewrite lookup_insert_ne|]. by rewrite insert_insert_eq.
Qed.
Lemma split_adds size (x : Z) : adds (λ t st, update_stat inactive_split_bytes t (decrease size) st)
    (λ n, match n with inactive_split_bytes => - size | _ => 0 end) ∧
  adds (λ t st, update_stat inactive_split_bytes t (increase x) (update_stat inactive_split t (increase 1) st))
    (λ n, match n with inactive_split => 1 | inactive_split_bytes => x | _ => 0 end) ∧
  adds (λ t st, update_stat inactive_split_bytes t (decrease x) (update_stat inactive_split t (decrease 1) st))
    (λ n, match n with inactive_split => -1 | inactive_split_bytes => - x | _ => 0 end).
Proof.
  split; [|split]; intros t st n t'.
  - etransitivity; [refine (adds_decrease _ _ _ _ adds_0 t st n t')|]. cbv beta.
    f_equal. case_decide; [|done]. destruct n; repeat first [rewrite decide_True by done|rewrite decide_False by done]; lia.
  - etransitivity; [refine (adds_increase _ _ _ _ (adds_increase _ _ _ _ adds_0) t st n t')|]. cbv beta.
    f_equal. case_decide; [|done]. destruct n; repeat first [rewrite decide_True by done|rewrite decide_False by done]; lia.
  - etransitivity; [refine (adds_decrease _ _ _ _ (adds_decrease _ _ _ _ adds_0) t st n t')|]. cbv beta.
    f_equal. case_decide; [|done]. destruct n; repeat first [rewrite decide_True by done|rewrite decide_False by done]; lia.
Qed.

(** The block [k] with the contents [bk] is in hand, out of its pool and
    counted neither as active nor as inactive. *)
Record in_hand segs ex ev (k : loc) (bk : Block) (p : AllocParams) (ptr : Z) s s' : Prop := {
  ih_core : core segs ex (Some k) ev s';
  ih_ex : ex = None ∨ ex = Some k;
  ih_lookup : heap s' !! k = Some bk;
  ih_unused : unused bk = true;
  ih_block : bqueue bk = p_queue p ∧ bpool bk = p_pool p ∧ bptr bk = ptr;
  ih_stats : stats_off (heap s') (stats s') (p_pool p) (λ n, hand_val bk n - stat_of n bk);
  ih_same : same_use s s' ∧ active_blocks s' = active_blocks s
}.

Lemma split_found_spec segs ev i b p s :
  taken segs ev i b p s → 0 < p_size p < bsize b →
  wp (split_found p i b (is_split b)) (λ k s', ∃ bk, in_hand segs (Some k) ev k bk p (bptr b) s s' ∧ bsize bk = p_size p) s.
Proof.
  intros [Hc Ha Hs (Hi & Ub & Er & Eq & _)] Hsz. pose proof (core_heap _ _ _ _ _ Hc) as Hok. set (k := next_block s).
  assert (heap s !! k = None) as Hk.
  { destruct (heap s !! k) as [c|] eqn:E; [|done]. pose proof (core_fresh _ _ _ _ _ Hc _ _ E). lia. }
  assert (i ≠ k) as Hik by congruence. destruct (ok_plain _ _ (heap_blocks _ _ _ Hok i b Hi)) as [Hm He].
  apply wp_bind, wp_new_block. fold k. set (b0 := set_expandable_segment _ _). set (s1 := set_next_block (Pos.succ k) s).
  change (set_next_block (Pos.succ k) (set_heap (<[k := b0]> (heap s)) s)) with (set_heap (<[k := b0]> (heap s1)) s1).
  apply (split_assigns segs None i k b b0 (p_size p)); try done. intros bk bi Ebk Ebi. change (heap s1) with (heap s).
  assert (parts b bk bi i k (p_size p)) as Hpt.
  { rewrite Ebk, Ebi. unfold parts, b0. cbn. rewrite Eq, Er, He. tauto. }
  pose proof Hpt as (Q1 & Q2 & Q3 & Q4 & Q5 & Q6 & Q7 & Q8 & Q9 & Q10 & Q11 & _).
  assert (unused bk = true) as Ubk by (by apply unused_spec).
  set (h2 := split_heap i k bk bi (heap s)). assert (h2 !! k = Some bk) as Hk2 by apply lookup_insert_eq.
  assert (h2 !! i = Some bi) as Hi2 by (unfold h2, split_heap; by rewrite lookup_insert_ne, lookup_insert_eq by done).
  destruct (core_owner _ _ _ _ _ Hc i b Hi) as [bp Hbp]. rewrite Er in Hbp.
  apply wp_bind, (wp_insert_free _ _ bp); [done|]. change (heap (set_heap h2 s1)) with h2.
  set (f := set_blocks (set_insert (id_less BlockComparatorSize h2) i)).
  pose proof (update_pool_fields (p_pool p) f (set_heap h2 s1)) as U. pose proof (lookup_update_pool (p_pool p) f (set_heap h2 s1)) as V.
  pose proof (update_pool_counts (p_pool p) f (set_heap h2 s1)) as W. set (s3 := update_pool _ _ _) in *. clearbody s3.
  destruct U as (U1 & U2 & U3 & U4 & U5 & U6 & U7 & U8 & U9 & U10 & U11 & _), W as [W1 W2].
  change (heap s3 = h2) in U1. change (stats s3 = stats s) in U2. change (active_blocks s3 = active_blocks s) in U3.
  change (xpu_events s3 = xpu_events s) in U4. change (dev s3 = dev s) in U5. change (uses s3 = uses s) in W1.
  change (lookup_pool (set_heap h2 s1)) with (lookup_pool s) in V.
  assert (same_use s s3) as Hsame.
  { split; [split; [done|split; [done|split; [done|split; [|done]]]]|split; [done|split; [done|]]].
    - intros r. rewrite V. case_decide as E; [by rewrite E, fmap_is_Some|done].
    - intros m. rewrite U1. unfold h2, split_heap. rewrite !used_insert, Ubk. assert (unused bi = true) as -> by (by rewrite Ebi).
      repeat case_decide; subst.
      + symmetry. unfold used. by rewrite Hk.
      + symmetry. by apply (used_None _ _ b).
      + unfold used. rewrite lookup_fmap. by destruct (heap s !! m). }
  assert (core segs (Some k) (Some k) ev s3) as C3.
  { apply (core_split segs ev i b k bk bi (p_size p) s); try done. intros r. rewrite V, Er, U1. case_decide as E; [by rewrite E|done]. }
  assert (∀ m t, tot m t h2 = tot m t (heap s) - in_stat t (p_pool p) (stat_of m b) + in_stat t (p_pool p) (stat_of m bi) +
    in_stat t (p_pool p) (stat_of m bk)) as Htot.
  { intros m t. unfold tot, h2. rewrite (total_split _ i k bk bi b); [|intros c|done|done].
    - rewrite Q2, Er. assert (bpool bi = p_pool p) as -> by (by rewrite Ebi). done.
    - change (bpool (redirect_next i k c)) with (bpool c). f_equal. unfold stat_of.
      change (unused (redirect_next i k c)) with (unused c). change (allocated (redirect_next i k c)) with (allocated c).
      assert (is_split (redirect_next i k c) = is_split c) as Esp by (apply is_split_null; [done|apply redirect_null]).
      destruct m; cbn [stat_val]; rewrite ?Esp; done. }
  assert (∀ m, stat_of m b + (match m with inactive_split => if is_split b then 0 else 1
      | inactive_split_bytes => if is_split b then - p_size p else bsize bi | _ => 0 end) = stat_of m bi + hand_val bk m) as Hst.
  { assert (allocated b = false) as Al by (by apply unused_spec in Ub as (-> & _)).
    assert (is_split bi = true) as Si by (by rewrite Ebi). assert (bsize bi = bsize b - p_size p) as Bsi by (by rewrite Ebi).
    assert (unused bi = true ∧ allocated bi = false) as [Ui Ai] by (by rewrite Ebi).
    assert (prev bi = Some k) as Pbi by (by rewrite Ebi).
    intros m. unfold stat_of. rewrite Ub, Al, Ui, Ai. destruct m; cbn [stat_val negb hand_val]; rewrite ?Si, ?Q10, ?Q9, ?Pbi, ?Bsi; try lia.
    - rewrite (decide_False (P := Some k = None)) by done. lia.
    - destruct (is_split b); lia.
    - destruct (is_split b); lia. }
  apply wp_bind, (wp_deref i bi); [by rewrite U1|]. rewrite He, bool_decide_true by done. rewrite !andb_true_r.
  assert (∀ st δ, (∀ n t, current (arrays st n t) = current (arrays (stats s3) n t) + in_stat t (p_pool p) (δ n)) →
    (∀ m, stat_of m b + δ m = stat_of m bi + hand_val bk m) →
    ∃ bk0, in_hand segs (Some k) ev k bk0 p (bptr b) s (set_stats st s3) ∧ bsize bk0 = p_size p) as Hfin.
  { intros st δ E1 E2. exists bk. split; [|done]. split; try done.
    - by apply (core_transport _ _ _ _ s3); try apply C3.
    - by right.
    - cbn. by rewrite U1.
    - rewrite Q1, Q2. done.
    - intros m t. cbn [stats set_stats heap]. rewrite E1, U1, U2, (Hs m t), Htot. specialize (E2 m).
      unfold in_stat. destruct (get_stat_types_for_pool (p_pool p) t); lia. }
  destruct (split_adds (p_size p) (bsize bi)) as (A1 & A2 & _). apply wp_bind. destruct (is_split b).
  - eapply wp_for_stats; [exact A1|]. intros st E. apply wp_ret, (Hfin st _ E). intros m. specialize (Hst m). destruct m; exact Hst.
  - eapply wp_for_stats; [exact A2|]. intros st E. apply wp_ret, (Hfin st _ E). intros m. specialize (Hst m). destruct m; exact Hst.
Qed.
Lemma whole_found_spec segs ev i b p s :
  taken segs ev i b p s →
  wp ((if is_split b && bool_decide (expandable_segment b = None) then
         for_stats (p_pool p) (λ t st,
           update_stat inactive_split_bytes t (decrease (bsize b)) (update_stat inactive_split t (decrease 1) st))
       else mret tt);;
      mret i) (λ k s', ∃ bk, in_hand segs None ev k bk p (bptr b) s s' ∧ bsize bk = bsize b) s.
Proof.
  intros [Hc Ha Hs (Hi & Ub & Er & Eq & _)]. pose proof (core_heap _ _ _ _ _ Hc) as Hok.
  destruct (ok_plain _ _ (heap_blocks _ _ _ Hok i b Hi)) as [_ He]. rewrite He, bool_decide_true, andb_true_r by done.
  assert (∀ st δ, (∀ n t, current (arrays st n t) = current (arrays (stats s) n t) + in_stat t (p_pool p) (δ n)) →
    (∀ m, stat_of m b + δ m = hand_val b m) →
    ∃ bk, in_hand segs None ev i bk p (bptr b) s (set_stats st s) ∧ bsize bk = bsize b) as Hfin.
  { intros st δ E1 E2. exists b. split; [|done]. split; try done.
    - by apply (core_transport _ _ _ _ s); try apply Hc.
    - by left.
    - intros m t. cbn [stats set_stats heap]. rewrite E1, (Hs m t). specialize (E2 m).
      unfold in_stat. destruct (get_stat_types_for_pool (p_pool p) t); lia. }
  assert (∀ m, stat_of m b = hand_val b m + (match m with inactive_split => if is_split b then 1 else 0
      | inactive_split_bytes => if is_split b then bsize b else 0 | _ => 0 end)) as Hst.
  { assert (allocated b = false) as Al by (by apply unused_spec in Ub as (-> & _)).
    intros m. unfold stat_of. rewrite Ub, Al. destruct m; cbn [stat_val negb hand_val]; lia. }
  apply wp_bind. destruct (is_split b).
  - destruct (split_adds 0 (bsize b)) as (_ & _ & A). eapply wp_for_stats; [exact A|]. intros st E. apply wp_ret, (Hfin st _ E).
    intros m. rewrite Hst. destruct m; lia.
  - apply wp_ret, wp_ret. pose proof (Hfin (stats s) (λ _, 0)) as R.
    assert (set_stats (stats s) s = s) as E by (by destruct s). rewrite E in R. apply R.
    + intros n t. rewrite in_stat_0. lia.
    + intros m. rewrite Hst. destruct m; lia.
Qed.

Lemma found_adds b : adds (λ t st, update_stat requested_bytes t (increase (requested_size b))
      (update_stat active_bytes t (increase (bsize b))
        (update_stat allocated_bytes t (increase (bsize b))
          (update_stat active t (increase 1) (update_stat allocation t (increase 1) st)))))
  (λ n, stat_val true true b n - hand_val b n).
Proof.
  intros t st n t'. etransitivity; [refine (adds_increase _ _ _ _ (adds_increase _ _ _ _ (adds_increase _ _ _ _
    (adds_increase _ _ _ _ (adds_increase _ _ _ _ adds_0)))) t st n t')|]. cbv beta. f_equal. case_decide; [|done].
  destruct n; repeat first [rewrite decide_True by done|rewrite decide_False by done]; cbn; lia.
Qed.

(** The use of a block that was just handed out. *)
Definition new_use (p : AllocParams) (ptr size orig_size : Z) : Use :=
  mkUse (p_queue p) ptr size orig_size (p_pool p) true [] 0.

(** What [malloc] changes once it has found a block: [k] is in use now. *)
Definition hands_out (k : loc) (u : Use) s s' : Prop :=
  same_admin s s' ∧ xpu_events s' = xpu_events s ∧ dev s' = dev s ∧ used (heap s) k = None ∧
  ∀ m, used (heap s') m = if decide (m = k) then Some u else used (heap s) m.

Lemma alloc_found_block_spec segs ev i b p orig_size (split_remainder : bool) s :
  taken segs ev i b p s → 0 < p_size p → (split_remainder = true → p_size p < bsize b) →
  wp (alloc_found_block p i orig_size split_remainder) (λ k s', good segs ev s' ∧
    hands_out k (new_use p (bptr b) (if split_remainder then p_size p else bsize b) orig_size) s s') s.
Proof.
  intros Ht Hsz Hspl. pose proof Ht as [Hc Ha Hs (Hi & Ub & Er & Eq & _)].
  pose proof (ok_ptr _ _ (heap_blocks _ _ _ (core_heap _ _ _ _ _ Hc) i b Hi)) as Hptr.
  apply wp_bind, (wp_deref i b); [done|]. apply wp_bind, wp_assert; [by apply negb_true_iff, Z.eqb_neq; lia|].
  cbv zeta. apply wp_bind, (wp_mono _ (λ k s', ∃ ex bk, in_hand segs ex ev k bk p (bptr b) s s' ∧
    bsize bk = if split_remainder then p_size p else bsize b)).
  { destruct split_remainder.
    - eapply wp_mono; [apply (split_found_spec segs ev i b p s Ht); by auto with lia|]. cbv beta. intros k s' _ (bk & R). by exists (Some k), bk.
    - eapply wp_mono; [by apply (whole_found_spec segs ev)|]. cbv beta. intros k s' _ (bk & R). by exists None, bk. }
  cbv beta. intros k s2 _ (ex & bk & [C2 Hex Hk Uk (B1 & B2 & B3) S2 [(A1 & A2 & A3 & A4) A5]] & B4).
  apply unused_spec in Uk as Hu. destruct Hu as (U1 & U2 & U3).
  set (b' := set_requested_size orig_size (set_allocated true bk)).
  apply wp_bind, (wp_assign k _ bk); [done|]. apply wp_bind, (wp_assign k _ (set_allocated true bk)); [apply lookup_insert_eq|].
  cbn [heap set_heap]. rewrite insert_insert_eq. fold b'. set (s3 := set_heap (<[k := b']> (heap s2)) s2).
  change (set_heap (<[k := b']> (heap s2)) (set_heap (<[k := set_allocated true bk]> (heap s2)) s2)) with s3.
  apply wp_bind, (wp_deref k b'); [apply lookup_insert_eq|].
  assert (core segs None None ev s3) as C3.
  { apply (core_use segs ex None (Some k) None ev ev k bk b'); try done.
    - destruct (heap_blocks _ _ _ (core_heap _ _ _ _ _ C2) k bk Hk). split; try done.
    - intros j Ej. right. destruct Hex; [congruence|]. split; [congruence|done].
    - naive_solver.
    - naive_solver.
    - rewrite (core_events _ _ _ _ _ C2 k), Hk. done. }
  apply wp_bind, wp_record_trace; [apply C3|]. intros ring Hring. apply wp_bind, wp_modify.
  apply wp_bind. eapply wp_for_stats; [apply (found_adds b')|]. intros st Hst. apply wp_ret.
  set (s5 := set_stats st _).
  assert (∀ m, used (heap s5) m = if decide (m = k) then Some (new_use p (bptr b) (if split_remainder then p_size p else bsize b) orig_size)
    else used (heap s) m) as Hused.
  { intros m. cbn. rewrite used_insert, A4. case_decide; [|done]. unfold unused, use_of, new_use, b'. cbn. rewrite B1, B2, B3, B4, U2, U3. done. }
  split; [split; [|split]|].
  - by apply (core_transport _ _ _ _ s3); try apply C3.
  - intros m. rewrite Hused. cbn. rewrite A5, elem_of_union, elem_of_singleton, (Ha m). case_decide; [split; [by eexists|by left]|tauto].
  - intros n t. cbn [stats s5 set_stats heap]. rewrite Hst. cbn [stats set_active_blocks set_alloc_buffer s3 set_heap].
    rewrite (S2 n t). change (heap s5) with (<[k := b']> (heap s2)). unfold tot. rewrite (total_update _ _ k bk b' Hk).
    change (bpool b') with (bpool bk). rewrite B2. assert (stat_of n b' = stat_val true true b' n) as -> by done.
    assert (hand_val b' n = hand_val bk n) as -> by done. unfold in_stat. destruct (get_stat_types_for_pool (p_pool p) t); lia.
  - split; [done|]. split; [done|]. split; [done|]. split; [|done]. rewrite <- A4. by apply (used_None _ _ bk).
Qed.
End Malloc.
