(* ===== verification/XPUApi.v ===== *)
(** * The XPU caching allocator: the interface.

    The invariant of the allocator and the contract of each method of its
    interface, when expandable segments are off: what the callers and the
    streams see of the blocks in use. *)

From S2P Require Import Prelude CachingAllocator DeviceRuntime ExpandableSegment XPUBlocks XPUAllocator XPUHeap XPUInvariant XPUMerge XPUFree XPUEvents XPURelease XPUAlloc XPUMalloc.

Section Interface.
Context {D : Type} `{DeviceLaws D} (cfg : AllocatorConfig).
Implicit Types (s : DeviceCachingAllocator D) (h : gmap loc Block).

(** Expandable segments are off, and the size of large segments is one the
    parser of the configuration accepts. *)
Definition plain_config : Prop :=
  use_expandable_segments cfg = false ∧ kMinLargeAlloc ≤ large_segment_size cfg < 2 ^ 64.

(** ** [malloc]. *)
Lemma core_use_events segs ex hand ev s k u :
  core segs ex hand ev s → used (heap s) k = Some u → u_events u = pending k ev.
Proof.
  intros Hc Hu. rewrite (core_events _ _ _ _ _ Hc k). unfold used in Hu. destruct (heap s !! k) as [c|]; [|done].
  destruct (unused c); [done|]. by injection Hu as <-.
Qed.

Lemma frame_cleaned segs segs' ex hand s s' :
  core segs' ex hand (events_of s') s' → same_admin s s' → xpu_events s' = xpu_events s → foreign segs' s' = foreign segs s →
  (∀ k, used (heap s') k = used (heap s) k) → cleaned segs segs' s s'.
Proof.
  intros Hc (A1 & A2 & A3 & A4 & A5 & A6) K2 K3 K4. split; try done.
  - intros m n _. by rewrite A3.
  - intros k. unfold events_of. by rewrite K2.
  - intros k. rewrite <- K4. destruct (used (heap s') k) as [u|] eqn:E; [|done]. cbn. symmetry.
    by eapply settle_same, core_use_events.
Qed.

(** Where the block comes from: the cache, or a new segment. *)
Definition fits_best (p : AllocParams) s (i : loc) (b : Block) : Prop :=
  best_fit (heap s) (p_pool p) (p_queue p) (p_size p) i b ∨
  (∀ j c, ¬ candidate (heap s) (p_pool p) (p_queue p) (p_size p) j c) ∧ bsize b = p_alloc_size p ∧ is_split b = false.

Lemma find_block_spec segs p s :
  use_expandable_segments cfg = false → good segs (events_of s) s → is_Some (lookup_pool s (p_pool p)) →
  (∀ m, owner_PrivatePool (p_pool p) = Some m → ∃ n, uses s !! m = Some n ∧ 0 < n) →
  p_size p ≤ p_alloc_size p → 0 < p_alloc_size p < 2 ^ 64 →
  wp (find_block cfg p) (λ r s', ∃ segs', cleaned segs segs' s s' ∧
    match r with
    | Some i => ∃ b, taken segs' (events_of s') i b p s' ∧ fits_best p s i b
    | None => good segs' (events_of s') s' ∧ ∀ j c, ¬ candidate (heap s) (p_pool p) (p_queue p) (p_size p) j c
    end) s.
Proof.
  intros Hplain Hg Hpool Huse Hle Hsz. apply wp_bind.
  eapply wp_mono; [by apply (get_free_block_spec cfg Hplain segs (events_of s))|]. cbv beta. intros [i|] s1 _.
  { intros (b & Hbest & Ht & Eh & A & X & Ed). assert (events_of s1 = events_of s) as E by (unfold events_of; by rewrite X).
    rewrite <- E in Ht. apply wp_ret. exists segs. split; [|exists b; split; [done|by left]].
    eapply (frame_cleaned segs segs); [apply Ht|done|done| |intros k; by rewrite Eh]. unfold foreign. by rewrite Ed. }
  intros [-> Hno]. apply wp_bind.
  eapply wp_mono; [by apply (alloc_block_spec cfg Hplain segs (events_of s))|]. cbv beta. intros [i|] s1 _.
  { intros (segs1 & b & Ht & (A & X & F & U) & Es & Esp & _). assert (events_of s1 = events_of s) as E by (unfold events_of; by rewrite X).
    rewrite <- E in Ht. apply wp_ret. exists segs1. split; [|exists b; split; [done|by right]].
    eapply (frame_cleaned segs segs1); [apply Ht|done..]. }
  intros (G1 & (A & X & F & U) & El). assert (events_of s1 = events_of s) as E by (unfold events_of; by rewrite X).
  rewrite <- E in G1. assert (cleaned segs segs s s1) as Cl1 by (eapply frame_cleaned; [apply G1|done..]).
  apply wp_bind. eapply wp_mono; [by apply (release_cached_blocks_spec segs (0, 0))|]. cbv beta.
  intros [] s2 _ (segs2 & G2 & Cl2 & _).
  assert (is_Some (lookup_pool s2 (p_pool p))) as Hpool2.
  { unfold lookup_pool. destruct (owner_PrivatePool (p_pool p)) as [m|] eqn:Eo; [|by eexists].
    destruct (Huse m eq_refl) as (n & Hn & Hpos). destruct A as (_ & _ & A & _). rewrite <- A in Hn.
    apply (cl_uses _ _ _ _ Cl2 m n Hpos) in Hn. unfold uses in Hn. rewrite lookup_fmap in Hn. rewrite fmap_is_Some.
    destruct (graph_pools s2 !! m); [by eexists|done]. }
  eapply wp_mono; [by apply (alloc_block_spec cfg Hplain segs2 (events_of s2))|]. cbv beta. intros [i|] s3 _.
  - intros (segs3 & b & Ht & (A3 & X3 & F3 & U3) & Es & Esp & _). assert (events_of s3 = events_of s2) as E3 by (unfold events_of; by rewrite X3).
    rewrite <- E3 in Ht. exists segs3. split; [|exists b; split; [done|by right]].
    eapply cleaned_trans; [exact Cl1|]. eapply cleaned_trans; [exact Cl2|]. eapply (frame_cleaned segs2 segs3); [apply Ht|done..].
  - intros (G3 & (A3 & X3 & F3 & U3) & _). assert (events_of s3 = events_of s2) as E3 by (unfold events_of; by rewrite X3).
    rewrite <- E3 in G3. exists segs2. split; [|done].
    eapply cleaned_trans; [exact Cl1|]. eapply cleaned_trans; [exact Cl2|]. eapply frame_cleaned; [apply G3|done..].
Qed.
(** A block of the use [u] was handed out as [k]; the uses whose last event has
    completed have ended. *)
Definition hands_out_after segs segs' (k : loc) (u : Use) s s' : Prop :=
  captures_underway s' = captures_underway s ∧ foreign segs' s' = foreign segs s ∧
  used (heap s) k ≫= settle (events_of s') k = None ∧
  ∀ m, used (heap s') m = if decide (m = k) then Some u else used (heap s) m ≫= settle (events_of s') m.

(** Different blocks in use do not overlap, and lie in memory of the device. *)
Lemma used_separate segs ev s k u m v : good segs ev s → m ≠ k → used (heap s) k = Some u → used (heap s) m = Some v →
  separate (u_ptr u) (u_size u) (u_ptr v) (u_size v).
Proof.
  intros (Hc & _) Hne Hu Hv. unfold used in Hu, Hv. destruct (heap s !! k) as [b|] eqn:Hb; [|done].
  destruct (heap s !! m) as [c|] eqn:Hm; [|done]. destruct (unused b), (unused c); try done.
  injection Hu as <-. injection Hv as <-. by apply (heap_disjoint _ _ _ (core_heap _ _ _ _ _ Hc) k b m c).
Qed.

Lemma used_live segs ev s k u : good segs ev s → used (heap s) k = Some u →
  ∃ base n, live (dev s) !! base = Some n ∧ base ≤ u_ptr u ∧ u_ptr u + u_size u ≤ base + n.
Proof.
  intros (Hc & _) Hu. unfold used in Hu. destruct (heap s !! k) as [b|] eqn:Hb; [|done]. destruct (unused b); [done|].
  injection Hu as <-. destruct (ok_segment _ _ (heap_blocks _ _ _ (core_heap _ _ _ _ _ Hc) k b Hb)) as (base & n & Hs & _ & B1 & B2 & _).
  exists base, n. split; [|done]. apply (lookup_weaken segs); [done|apply Hc].
Qed.

(** What [malloc] promises of the block it returns. *)
Record served (orig_size queue : Z) (r : PoolRef) (u : Use) : Prop := {
  sv_queue : u_queue u = queue;
  sv_size : orig_size ≤ round_size orig_size ≤ u_size u;
  sv_waste : u_size u - round_size orig_size ≤ kSmallSize ∧ (is_small r = true → u_size u - round_size orig_size < kMinBlockSize);
  sv_fresh : u_requested u = orig_size ∧ u_pool u = r ∧ u_allocated u = true ∧ u_streams u = [] ∧ u_events u = 0
}.

Lemma malloc_spec segs complete free_memory device orig_size queue s :
  plain_config → 0 ≤ orig_size ≤ 2 ^ 64 - 2 ^ 21 → good segs (events_of s) s →
  wpx (malloc cfg complete free_memory device orig_size queue)
    (λ k s', ∃ segs' u, good segs' (events_of s') s' ∧ hands_out_after segs segs' k u s s' ∧
       served orig_size queue (pool_of s (round_size orig_size) queue) u)
    (λ e s', e = OutOfMemoryError "XPU out of memory. Tried to allocate " ∧
       ∃ segs', good segs' (events_of s') s' ∧ cleaned segs segs' s s') s.
Proof.
  intros [Hplain Hlss] Hsz Hg. destruct (round_size_eq orig_size) as [[q Hq] Hr]; [lia|].
  apply wpx_bind_wp, wp_reads, wpx_bind_wp.
  apply (wp_mono _ (λ _ s1, good segs (events_of s1) s1 ∧ cleaned segs segs s s1)).
  { destruct (is_nil (captures_underway s)).
    - eapply wp_mono; [by apply (process_events_spec segs complete s)|]. cbv beta. intros [] s1 _ (G1 & X1 & P1).
      split; [done|]. apply progress_cleaned; [done|]. intros k. pose proof (pending_remaining complete k (xpu_events s)) as Hp.
      rewrite <- X1 in Hp. done.
    - apply wp_ret. split; [done|]. eapply frame_cleaned; [apply Hg|apply same_admin_refl|done..]. }
  cbv beta. intros [] s1 _ (G1 & Cl1). cbv zeta.
  apply wpx_bind_wp. eapply (get_pool_spec segs None None (events_of s1)); [apply G1|]. intros Hpool.
  assert (pool_of s1 (round_size orig_size) queue = pool_of s (round_size orig_size) queue) as Er.
  { unfold pool_of. by rewrite (proj1 (cl_fields _ _ _ _ Cl1)). }
  rewrite Er in *. set (r := pool_of s (round_size orig_size) queue) in *.
  set (alloc_size := get_allocation_size (large_segment_size cfg) (round_size orig_size)).
  set (params := mkParams device queue (round_size orig_size) r alloc_size).
  assert (round_size orig_size ≤ alloc_size < 2 ^ 64) as Has.
  { split; [apply get_allocation_size_ge; [apply Hlss|lia]|]. unfold alloc_size, get_allocation_size, size_t.
    repeat case_bool; [done|lia|]. apply Z.mod_pos_bound. lia. }
  assert (∀ m, owner_PrivatePool (p_pool params) = Some m → ∃ n, uses s1 !! m = Some n ∧ 0 < n) as Huse.
  { intros m Hm. pose proof (core_admin _ _ _ _ _ (proj1 G1)) as [_ _ _ A4]. cbn in Hm. unfold r, pool_of in Hm. rewrite <- (proj1 (cl_fields _ _ _ _ Cl1)) in Hm. cbn in Hm.
    destruct (List.find _ _) as [[i f]|] eqn:E; [|done]. injection Hm as <-. apply List.find_some in E as [E _].
    apply list_elem_of_In in E. by apply (A4 _ E). }
  apply wpx_bind_wp. eapply wp_mono; [apply (find_block_spec segs params s1); try done; cbn; lia|]. cbv beta.
  intros [i|] s2 _ (segs2 & Cl2 & Hfound).
  2: { destruct Hfound as (G2 & _). apply wpx_bind_wp, wp_record_trace; [apply G2|]. intros ring Hring. cbn. split; [done|].
    exists segs2. split; [|by eapply cleaned_trans; [exact Cl1|]; destruct Cl2].
    destruct G2 as (B1 & B2 & B3). split; [|done]. by apply (core_transport _ _ _ _ s2). }
  destruct Hfound as (b & Ht & Hfit). pose proof Ht as [Hc2 _ _ (Hi & Ub & Eb & Eq & Hb)]. cbn in Eb, Eq, Hb.
  set (remaining := bsize b - round_size orig_size).
  assert (size_t remaining = remaining) as Erem.
  { destruct (ok_segment _ _ (heap_blocks _ _ _ (core_heap _ _ _ _ _ Hc2) i b Hi)) as (base & n & _ & Hn & B1 & B2 & _).
    apply Z.mod_small. unfold remaining. lia. }
  set (split_it := if is_small r then kMinBlockSize <=? remaining else kSmallSize <? remaining).
  apply wpx_bind_wp, (wp_mono _ (λ x s', x = split_it ∧ s' = s2)).
  { apply wp_bind, (wp_deref i b); [done|]. cbv zeta. fold remaining. rewrite Erem, Hplain, Eb, orb_false_r. by apply wp_ret. }
  cbv beta. intros x s2' _ [-> ->].
  apply wpx_wp. eapply wp_mono; [apply (alloc_found_block_spec segs2 (events_of s2) i b params orig_size split_it s2 Ht)|].
  { cbn. lia. }
  { cbn. unfold split_it, remaining, kMinBlockSize, kSmallSize. destruct (is_small r); intros; bool_simpl; lia. }
  cbv beta. intros k s3 _ (G3 & A3 & X3 & E3 & K3 & U3). assert (events_of s3 = events_of s2) as Ev3 by (unfold events_of; by rewrite X3).
  rewrite <- Ev3 in G3. exists segs2, (new_use params (bptr b) (if split_it then round_size orig_size else bsize b) orig_size).
  pose proof (cleaned_trans _ _ _ _ _ _ Cl1 Cl2) as Cl. split; [done|]. split.
  - split; [destruct A3 as (-> & _); apply Cl|]. split; [unfold foreign; rewrite E3; apply Cl|]. rewrite Ev3. split.
    + rewrite <- (cl_used _ _ _ _ Cl). done.
    + intros m. rewrite U3. cbn. case_decide; [done|]. apply Cl.
  - split; cbn; [done|split; [lia|destruct split_it; lia]| |done]. unfold split_it, remaining, kMinBlockSize, kSmallSize in *.
    destruct (is_small r) eqn:Esm; [destruct (512 <=? _) eqn:E|destruct (1048576 <? _) eqn:E]; bool_simpl; split; try done. all: try lia. all: intros Hsm; first [change (is_small r = true) in Hsm; congruence|lia].
Qed.
End Interface.
