(* ===== verification/XPUUse.v ===== *)
(** * The XPU caching allocator: the use of a block.

    [free] and [recordStream] on a block the program holds, when expandable
    segments are off. *)

From S2P Require Import Prelude CachingAllocator DeviceRuntime ExpandableSegment XPUBlocks XPUAllocator XPUHeap XPUInvariant XPUMerge XPUFree XPUEvents XPURelease XPUAlloc XPUMalloc.

Section Uses.
Context {D : Type} `{DeviceLaws D}.
Implicit Types (s : DeviceCachingAllocator D) (h : gmap loc Block).

Lemma used_block h k u : used h k = Some u → ∃ b, h !! k = Some b ∧ unused b = false ∧ u = use_of b.
Proof.
  unfold used. intros Hu. destruct (h !! k) as [b|] eqn:E; [|done]. exists b. destruct (unused b) eqn:U; [done|].
  by injection Hu as <-.
Qed.

(** ** [insert_events]. *)
Lemma pending_add_event i stream e j l :
  pending i (evs (add_event stream (e, j) l)) = pending i (evs l) + if decide (j = i) then 1 else 0.
Proof.
  induction l as [|[st q] l IH]; cbn [add_event].
  - rewrite evs_cons, pending_app. cbn. rewrite pending_cons, pending_nil. lia.
  - destruct (decide (st = stream)); rewrite !evs_cons, !pending_app; [rewrite fmap_app, pending_app; cbn; rewrite pending_cons, pending_nil|]; lia.
Qed.

Lemma submit_barriers_spec k b streams (Q : unit → DeviceCachingAllocator D → Prop) h s :
  h !! k = Some b →
  (∀ q, (∀ i, pending i (evs q) = pending i (evs (xpu_events s)) + if decide (k = i) then Z.of_nat (length streams) else 0) →
     Q tt (set_next_event (next_event s + Z.of_nat (length streams)) (set_xpu_events q
       (set_heap (<[k := set_event_count (event_count b + Z.of_nat (length streams)) b]> h) s)))) →
  wp (submit_barriers k streams) Q (set_heap h s).
Proof.
  revert b h s. induction streams as [|st streams IH]; intros b h s Hk HQ; cbn [submit_barriers].
  - apply wp_ret. specialize (HQ (xpu_events s)). cbn in HQ. rewrite !Z.add_0_r in HQ.
    assert (<[k := set_event_count (event_count b) b]> h = h) as E by (rewrite insert_id; [done|]; by destruct b).
    rewrite E in HQ. assert (set_next_event (next_event s) (set_xpu_events (xpu_events s) (set_heap h s)) = set_heap h s) as E2 by (by destruct s).
    rewrite E2 in HQ. apply HQ. intros i. case_decide; lia.
  - apply wp_bind, (wp_assign k _ b); [done|]. apply wp_bind, wp_modify. cbn [heap set_heap].
    set (b1 := set_event_count (event_count b + 1) b). set (q1 := add_event st (next_event s, k) (xpu_events s)).
    set (s1 := set_next_event (next_event s + 1) (set_xpu_events q1 s)).
    change (wp (submit_barriers k streams) Q (set_heap (<[k := b1]> h) s1)).
    apply (IH b1); [by apply lookup_insert_eq|]. intros q Hq. rewrite insert_insert_eq.
    change (xpu_events s1) with q1 in Hq. specialize (HQ q). cbn [length] in HQ.
    assert (event_count b1 + Z.of_nat (length streams) = event_count b + Z.of_nat (S (length streams))) as ->
      by (change (event_count b1) with (event_count b + 1); lia).
    assert (next_event s1 + Z.of_nat (length streams) = next_event s + Z.of_nat (S (length streams))) as ->
      by (change (next_event s1) with (next_event s + 1); lia).
    apply HQ. intros i. rewrite Hq. unfold q1. rewrite pending_add_event. case_decide; lia.
Qed.

(** ** [free]. *)
Lemma free_stats_adds x : adds (λ t st, update_stat allocated_bytes t (decrease x) (update_stat allocation t (decrease 1) st))
  (λ n, match n with allocation => -1 | allocated_bytes => - x | _ => 0 end).
Proof.
  intros t st n t'. etransitivity; [refine (adds_decrease _ _ _ _ (adds_decrease _ _ _ _ adds_0) t st n t')|]. cbv beta.
  f_equal. case_decide; [|done]. destruct n; repeat first [rewrite decide_True by done|rewrite decide_False by done]; lia.
Qed.

(** What is left of a use when the program gives the block up: nothing, or the
    uses by other streams until their events complete. *)
Definition given_up (u : Use) : option Use :=
  match u_streams u with
  | [] => None
  | l => Some (mkUse (u_queue u) (u_ptr u) (u_size u) (u_requested u) (u_pool u) false [] (Z.of_nat (length l)))
  end.

Lemma free_spec segs s k u :
  good segs (events_of s) s → used (heap s) k = Some u → u_allocated u = true →
  wp (free k) (λ _ s', good segs (events_of s') s' ∧ same_admin s s' ∧ dev s' = dev s ∧
    (∀ i, pending i (events_of s') = pending i (events_of s) + if decide (k = i) then Z.of_nat (length (u_streams u)) else 0) ∧
    ∀ m, used (heap s') m = if decide (m = k) then given_up u else used (heap s) m) s.
Proof.
  intros (Hc & Ha & Hs) Hu Al. destruct (used_block _ _ _ Hu) as (b & Hk & Ub & ->). cbn in Al |- *.
  pose proof (heap_blocks _ _ _ (core_heap _ _ _ _ _ Hc) k b Hk) as Bb. pose proof (ok_allocated _ _ Bb Al) as Ev0.
  set (b1 := set_allocated false b). apply wp_bind, (wp_assign k _ b); [done|]. apply wp_bind, (wp_deref k b1); [apply lookup_insert_eq|].
  apply wp_bind. eapply wp_for_stats; [apply free_stats_adds|]. intros st Hst. cbn in Hst.
  apply wp_bind, wp_record_trace; [apply Hc|]. intros ring Hring. change (stream_uses b1) with (stream_uses b).
  destruct (stream_uses b) as [|st0 l] eqn:Est; cbn [is_nil negb].
  - (* no other stream: the block is free *)
    assert (unused b1 = true) as Ub1 by (by apply unused_spec).
    eapply wp_mono; [apply (free_block_spec segs (events_of s) k b1)|].
    + split; [|apply lookup_insert_eq|done| |].
      * apply (core_transport _ _ _ _ (set_heap (<[k := b1]> (heap s)) s)); try done.
        apply (core_use segs None (Some k) None (Some k) (events_of s) (events_of s) k b b1); try done.
        -- destruct Bb. by split.
        -- by right.
        -- rewrite Ub; split; [by intros [? _]|by intros [_ ?]].
        -- intros m Hm; split; [done|congruence].
        -- by rewrite (core_events _ _ _ _ _ Hc k), Hk.
      * intros m. cbn. rewrite (Ha m), used_insert. fold b1. rewrite Ub1. case_decide as E; [|tauto]. subst m. rewrite Hu.
        split; [by left|by eexists].
      * intros n t. cbn [stats set_alloc_buffer set_stats heap set_heap]. rewrite Hst, (Hs n t).
        unfold tot. rewrite (total_update _ _ k b b1 Hk). change (bpool b1) with (bpool b).
        assert (stat_val false true b1 n = stat_of n b + match n with allocation => -1 | allocated_bytes => - bsize b | _ => 0 end) as E.
        { unfold stat_of. rewrite Ub, Al. destruct n; cbn; try lia. }
        unfold in_stat. destruct (get_stat_types_for_pool (bpool b) t); lia.
    + cbv beta. intros [] s' _ [G (A & X & E & U)]. assert (events_of s' = events_of s) as Ee by (unfold events_of; by rewrite X).
      rewrite Ee. split; [done|]. split; [done|]. split; [done|]. split; [intros i; case_decide; cbn; lia|].
      intros m. rewrite U. cbn. rewrite used_insert. fold b1. rewrite Ub1. unfold given_up. cbn. by rewrite Est.
  - (* one event for each stream *)
    set (n0 := Z.of_nat (length (st0 :: l))). set (b2 := set_stream_uses [] b1).
    apply wp_bind, (wp_deref k b1); [apply lookup_insert_eq|].
    apply wp_bind, (wp_assign k _ b1); [apply lookup_insert_eq|]. cbn [heap set_alloc_buffer set_stats set_heap]. rewrite insert_insert_eq.
    change (stream_uses b1) with (stream_uses b). rewrite Est. fold b2. set (sx := set_alloc_buffer ring (set_stats st s)).
    change (wp (submit_barriers k (st0 :: l)) (λ _ s', good segs (events_of s') s' ∧ same_admin s s' ∧ dev s' = dev s ∧
      (∀ i, pending i (events_of s') = pending i (events_of s) + if decide (k = i) then n0 else 0) ∧
      ∀ m, used (heap s') m = if decide (m = k) then given_up (use_of b) else used (heap s) m) (set_heap (<[k := b2]> (heap s)) sx)).
    apply (submit_barriers_spec k b2); [apply lookup_insert_eq|]. fold n0. rewrite insert_insert_eq.
    set (b' := set_event_count (event_count b2 + n0) b2). intros q Hq. set (s' := set_next_event _ _).
    assert (∀ i, pending i (events_of s') = pending i (events_of s) + if decide (k = i) then n0 else 0) as Hev by exact Hq.
    assert (0 < n0) as Hn0 by (unfold n0; cbn; lia). assert (event_count b' = n0) as Eb' by (unfold b'; cbn; lia).
    assert (unused b' = false) as Ub'.
    { destruct (unused b') eqn:E; [|done]. apply unused_spec in E as (_ & E & _). lia. }
    assert (core segs None None (events_of s') s') as C'.
    { apply (core_transport _ _ _ _ (set_heap (<[k := b']> (heap s)) s)); try done.
      apply (core_use segs None None None None (events_of s) (events_of s') k b b'); try done.
      - destruct Bb as [K1 K2 K3 K4 K5 K6 K7]. split; try done. lia.
      - congruence.
      - rewrite Ub, Ub'. naive_solver.
      - intros i Hi. rewrite Hev, decide_False by done. lia.
      - rewrite Hev, decide_True, (core_events _ _ _ _ _ Hc k), Hk by done. lia. }
    split; [split; [done|split]|split; [done|split; [done|split; [done|]]]].
    + intros m. cbn. rewrite (Ha m), used_insert. fold b'. rewrite Ub'. case_decide as E; [|done]. subst m. rewrite Hu. split; by eexists.
    + intros n t. cbn [stats s' set_next_event set_xpu_events sx set_alloc_buffer set_stats heap set_heap]. rewrite Hst, (Hs n t).
      unfold tot. rewrite (total_update _ _ k b b' Hk). change (bpool b') with (bpool b).
      assert (stat_of n b' = stat_of n b + match n with allocation => -1 | allocated_bytes => - bsize b | _ => 0 end) as E.
      { unfold stat_of. rewrite Ub, Al, Ub'. destruct n; cbn; lia. }
      unfold in_stat. destruct (get_stat_types_for_pool (bpool b) t); lia.
    + intros m. cbn. rewrite used_insert. fold b'. rewrite Ub'. case_decide; [|done]. unfold given_up. cbn. rewrite Est.
      unfold use_of, b'. cbn. rewrite Ev0. done.
Qed.

(** ** [recordStream]. *)
Definition with_stream (stream : XPUStream) (u : Use) : Use :=
  if (stream_queue stream =? u_queue u) || bool_decide (stream ∈ u_streams u) then u
  else mkUse (u_queue u) (u_ptr u) (u_size u) (u_requested u) (u_pool u) (u_allocated u) (u_streams u ++ [stream]) (u_events u).

Lemma recordStream_spec segs s k u stream :
  good segs (events_of s) s → used (heap s) k = Some u → u_allocated u = true →
  wp (recordStream k stream) (λ _ s', good segs (events_of s') s' ∧ same_admin s s' ∧ dev s' = dev s ∧ xpu_events s' = xpu_events s ∧
    ∀ m, used (heap s') m = if decide (m = k) then Some (with_stream stream u) else used (heap s) m) s.
Proof.
  intros (Hc & Ha & Hs) Hu Al. destruct (used_block _ _ _ Hu) as (b & Hk & Ub & ->). cbn in Al.
  apply wp_bind, (wp_deref k b); [done|]. unfold with_stream. cbn [u_queue use_of u_streams].
  destruct (stream_queue stream =? bqueue b); cbn [orb].
  { apply wp_ret. split; [done|]. split; [apply same_admin_refl|]. split; [done|]. split; [done|]. intros m. case_decide; [by subst|done]. }
  apply (wp_assign k _ b); [done|]. set (b' := set_stream_uses _ b).
  assert (unused b' = false) as Ub' by (unfold unused; cbn; by rewrite Al).
  split; [split; [|split]|split; [done|split; [done|split; [done|]]]].
  - apply (core_use segs None None None None (events_of s) (events_of s) k b b'); try done.
    + destruct (heap_blocks _ _ _ (core_heap _ _ _ _ _ Hc) k b Hk). split; try done. cbn. congruence.
    + congruence.
    + rewrite Ub, Ub'. naive_solver.
    + rewrite (core_events _ _ _ _ _ Hc k), Hk. done.
  - intros m. cbn [active_blocks set_heap heap]. rewrite (Ha m), used_insert. rewrite Ub'. case_decide as E; [|done]. subst m. rewrite Hu. split; by eexists.
  - intros n t. cbn [stats heap set_heap]. rewrite (Hs n t). unfold tot. rewrite (total_update _ _ k b b' Hk). change (bpool b') with (bpool b).
    assert (stat_of n b' = stat_of n b) as ->; [|lia]. unfold stat_of. rewrite Ub, Ub'. by destruct n.
  - intros m. cbn [heap set_heap]. rewrite used_insert, Ub'. case_decide; [|done]. f_equal. unfold b', use_of. cbn.
    case_bool_decide; [rewrite decide_True by done|rewrite decide_False by done]; done.
Qed.
End Uses.
