(* ===== verification/XPUPools.v ===== *)
(** * The XPU caching allocator: private pools, history and statistics.

    The methods that change the use counts of private pools, the captures
    under way, the trace and the counters. *)

From S2P Require Import Prelude CachingAllocator DeviceRuntime ExpandableSegment XPUBlocks XPUAllocator XPUHeap XPUInvariant XPUMerge XPUFree XPUEvents XPURelease.

Section Pools.
Context {D : Type} `{DeviceLaws D}.
Implicit Types (s : DeviceCachingAllocator D) (h : gmap loc Block).

(** What these methods leave alone. *)
Definition same_blocks s s' : Prop :=
  heap s' = heap s ∧ dev s' = dev s ∧ xpu_events s' = xpu_events s ∧ active_blocks s' = active_blocks s.

(** The blocks and the contents of the pools stay as they are. *)
Lemma good_admin segs ev s s' :
  good segs ev s → same_blocks s s' → stats s' = stats s → next_block s' = next_block s →
  ring_ok (alloc_buffer s') → (∀ r, lookup_pool s' r = lookup_pool s r) → allocs s' = allocs s →
  admin_ok (uses s') (graph_pools_freeable s') (captures_underway s') → good segs ev s'.
Proof.
  intros ([C1 C2 C3 C4 C5 C6 C7 C8 C9] & B & C) (E1 & E2 & E3 & E4) E5 E6 Hr E7 E8 Had. split; [|split].
  - split; rewrite ?E1, ?E2, ?E6, ?E8; try done.
    + intros r bp. rewrite E7. apply C3.
    + intros i b. rewrite E7. apply C4.
  - intros k. by rewrite E4, E1.
  - by rewrite E1, E5.
Qed.

Lemma lookup_pool_counts m pp n s r : graph_pools s !! m = Some pp →
  lookup_pool (set_graph_pools (<[m := set_counts n (allocation_count pp) pp]> (graph_pools s)) s) r = lookup_pool s r.
Proof.
  intros Hm. unfold lookup_pool. destruct (owner_PrivatePool r) as [i|]; [|done]. cbn. destruct (decide (i = m)) as [-> |Hne].
  - by rewrite lookup_insert_eq, Hm.
  - by rewrite lookup_insert_ne.
Qed.

Lemma allocs_counts m pp n s : graph_pools s !! m = Some pp →
  allocs (set_graph_pools (<[m := set_counts n (allocation_count pp) pp]> (graph_pools s)) s) = allocs s ∧
  uses (set_graph_pools (<[m := set_counts n (allocation_count pp) pp]> (graph_pools s)) s) = <[m := n]> (uses s).
Proof.
  intros Hm. unfold allocs, uses. cbn. rewrite !fmap_insert. cbn. split; [|done]. apply insert_id. by rewrite lookup_fmap, Hm.
Qed.

Lemma uses_lookup s m n : uses s !! m = Some n ↔ ∃ pp, graph_pools s !! m = Some pp ∧ use_count pp = n.
Proof. unfold uses. rewrite lookup_fmap, fmap_Some. naive_solver. Qed.

Lemma admin_positive u f c m n n' : admin_ok u f c → u !! m = Some n → 0 < n → 0 < n' → admin_ok (<[m := n']> u) f c.
Proof.
  intros [A1 A2 A3 A4] Hm Hn Hn'. split; [| |done|].
  - intros i x. rewrite lookup_insert_Some. intros [[<- <-]|[_ Hi]]; [|by apply A1]. split; [lia|].
    rewrite (proj2 (A1 m n Hm)). lia.
  - intros i Hi. apply lookup_insert_is_Some. destruct (decide (m = i)); [by left|right]. auto.
  - intros e He. destruct (A4 e He) as (x & Hx & Hpos). destruct (decide (m = e.1)) as [E|E].
    + exists n'. by rewrite <- E, lookup_insert_eq.
    + exists x. by rewrite lookup_insert_ne.
Qed.

(** ** [create_or_incref_pool] and [beginAllocateToPool]. *)
Definition incref s s' (m : MempoolId_t) : Prop :=
  uses s' = <[m := default 0 (uses s !! m) + 1]> (uses s) ∧ same_blocks s s' ∧ captures_underway s' = captures_underway s ∧
  graph_pools_freeable s' = graph_pools_freeable s.

Lemma create_or_incref_spec segs m a s :
  good segs (events_of s) s →
  wpx (create_or_incref_pool m a) (λ _ s', good segs (events_of s') s' ∧ incref s s' m)
    (λ e s', s' = s ∧ ∃ msg, e = InternalAssert msg) s.
Proof.
  intros Hg. pose proof Hg as (Hc & Ha & Hs). pose proof (core_admin _ _ _ _ _ Hc) as Had. apply wpx_bind_wp, wp_reads.
  destruct (graph_pools s !! m) as [pp|] eqn:Hm.
  - assert (uses s !! m = Some (use_count pp)) as Hu by (apply uses_lookup; by exists pp).
    unfold TORCH_INTERNAL_ASSERT. destruct (0 <? use_count pp) eqn:E1; [|by split; [done|eexists]]. case_bool_decide; [|by split; [done|eexists]].
    cbn. bool_simpl. destruct (allocs_counts m pp (use_count pp + 1) s Hm) as [Ea Eu]. split.
    + apply (good_admin segs _ s); try done; [apply Hc|intros r; by apply lookup_pool_counts|].
      rewrite Eu. apply (admin_positive _ _ _ _ (use_count pp)); [done|done|done|lia].
    + split; [|done]. by rewrite Eu, Hu.
  - cbn. set (s' := set_graph_pools _ s). assert (uses s !! m = None) as Hu by (unfold uses; by rewrite lookup_fmap, Hm).
    assert (uses s' = <[m := 1]> (uses s)) as Eu by (unfold uses, s'; cbn; by rewrite fmap_insert).
    assert (∀ r, owner_PrivatePool r ≠ Some m → lookup_pool s' r = lookup_pool s r) as Hl.
    { intros r Hr. unfold lookup_pool. destruct (owner_PrivatePool r) as [i|]; [|done]. cbn. by rewrite lookup_insert_ne by congruence. }
    assert (∀ i b, heap s !! i = Some b → owner_PrivatePool (bpool b) ≠ Some m) as Hno.
    { intros i b Hi Ho. destruct (core_owner _ _ _ _ _ Hc i b Hi) as [bp Hbp]. unfold lookup_pool in Hbp. by rewrite Ho, Hm in Hbp. }
    split; [|split; [by rewrite Eu, Hu|done]]. split; [|done]. destruct Hc as [C1 C2 C3 C4 C5 C6 [A1 A2 A3 A4] C8 C9]. split; try done.
    + intros r bp Hr. destruct (decide (owner_PrivatePool r = Some m)) as [E|E]; [|apply C3; by rewrite <- Hl].
      unfold lookup_pool in Hr. rewrite E in Hr. cbn in Hr. rewrite lookup_insert_eq in Hr. cbn in Hr.
      assert (bp = empty_pool) as -> by (destruct (is_small r); congruence). split; [done|constructor|].
      intros i. split; [by intros ?%not_elem_of_nil|]. intros (b & Hb & Er & _). destruct (Hno i b Hb). congruence.
    + intros i b Hi. rewrite Hl by (by apply (Hno i)). by apply (C4 i).
    + intros k n. assert (allocs s' = <[m := 0]> (allocs s)) as -> by (unfold allocs, s'; cbn; by rewrite fmap_insert).
      rewrite lookup_insert_Some. intros [[<- <-]|[_ Hk]]; [|by apply C6]. symmetry.
      rewrite (total_ext _ (λ _, 0)); [|intros i b Hi; unfold head_of; rewrite decide_False; [done|by intros [? _]; apply (Hno i b Hi)]].
      change (heap s') with (heap s). clear. induction (heap s) as [|i b h' Hi IH] using map_ind; [done|]. by rewrite total_insert, IH.
    + rewrite Eu. split; [| |done|].
      * intros i n. rewrite lookup_insert_Some. intros [[<- <-]|[_ Hi]]; [|by apply A1]. split; [done|]. split; [|done].
        intros Hf. destruct (A2 m Hf). congruence.
      * intros i Hi. apply lookup_insert_is_Some. destruct (decide (m = i)); [by left|right]. auto.
      * intros e He. destruct (A4 e He) as (x & Hx & Hpos). exists x. rewrite lookup_insert_ne; [done|]. intros E. congruence.
Qed.

(** If a capture of the pool is under way already, the method throws, and the
    pool has one use more. *)
Lemma beginAllocateToPool_spec segs m f s :
  good segs (events_of s) s →
  wpx (beginAllocateToPool m f) (λ _ s', good segs (events_of s') s' ∧ same_blocks s s' ∧
      captures_underway s' = captures_underway s ++ [(m, f)] ∧ (∀ e, e ∈ captures_underway s → e.1 ≠ m))
    (λ e s', good segs (events_of s') s' ∧ same_blocks s s' ∧ captures_underway s' = captures_underway s ∧
      ∃ msg, e = InternalAssert msg ∨ e = Error msg) s.
Proof.
  intros Hg. apply wpx_bind. eapply wpx_mono; [by apply (create_or_incref_spec segs m None)| |].
  2: { cbv beta. intros e s' (-> & msg & ->). split; [done|]. split; [done|]. split; [done|]. exists msg. by left. }
  cbv beta. intros [] s1 (G1 & Eu & B1 & Ec & Ef). apply wpx_bind_wp, wp_reads. apply wpx_bind.
  unfold wpx at 1, lift, TORCH_CHECK. destruct (forallb _ _) eqn:E; cbn.
  2: { split; [done|]. split; [done|]. split; [done|]. by eexists; right. }
  assert (∀ e, e ∈ captures_underway s1 → e.1 ≠ m) as Hnew.
  { intros e He. rewrite forallb_forall in E. apply list_elem_of_In in He. specialize (E e He). by apply bool_decide_eq_true in E. }
  split; [|split; [done|split; [by rewrite Ec|by rewrite <- Ec]]].
  apply (good_admin segs _ s1); try done; [apply G1|]. cbn. pose proof (core_admin _ _ _ _ _ (proj1 G1)) as [A1 A2 A3 A4].
  split; [done|done|done|]. intros e. rewrite elem_of_app, list_elem_of_singleton. intros [He| ->]; [by apply A4|]. cbn.
  exists (default 0 (uses s !! m) + 1). change (uses (set_captures_underway (captures_underway s1 ++ [(m, f)]) s1)) with (uses s1).
  assert (uses s1 !! m = Some (default 0 (uses s !! m) + 1)) as Hm by (rewrite Eu; apply lookup_insert_eq). split; [done|].
  destruct (A1 m _ Hm) as [Hge Hf]. destruct (uses s !! m) as [n|] eqn:En; cbn in *; [|lia].
  pose proof (core_admin _ _ _ _ _ (proj1 Hg)) as [B _ _ _]. destruct (B m n En). lia.
Qed.

(** ** [endAllocateToPool] and [releasePool]. *)
Lemma remove_capture_sub m l l' : remove_capture m l = Some l' → ∀ e, e ∈ l' → e ∈ l.
Proof.
  revert l'. induction l as [|x l IH]; intros l'; cbn; [done|]. case_decide.
  - intros [= <-] e He. by right.
  - destruct (remove_capture m l) as [l2|]; cbn; [|done]. intros [= <-] e [-> |He]%elem_of_cons; [by left|right]. by apply (IH l2).
Qed.

Lemma endAllocateToPool_spec segs m s :
  good segs (events_of s) s →
  wpx (endAllocateToPool m) (λ _ s', good segs (events_of s') s' ∧ same_blocks s s' ∧
      remove_capture m (captures_underway s) = Some (captures_underway s'))
    (λ e s', s' = s ∧ remove_capture m (captures_underway s) = None ∧ ∃ msg, e = InternalAssert msg) s.
Proof.
  intros Hg. apply wpx_bind_wp, wp_reads. destruct (remove_capture m (captures_underway s)) as [l|] eqn:E.
  2: { split; [done|]. split; [done|]. by eexists. }
  split; [|done]. apply (good_admin segs _ s); try done; [apply Hg|].
  pose proof (core_admin _ _ _ _ _ (proj1 Hg)) as [A1 A2 A3 A4]. split; [done|done|done|].
  intros e He. apply A4. by apply (remove_capture_sub m _ l).
Qed.

(** The last use of a pool can be given up when no capture of it is under
    way. *)
Lemma releasePool_spec segs m n s :
  good segs (events_of s) s → uses s !! m = Some n → 0 < n →
  (n = 1 → ∀ e, e ∈ captures_underway s → e.1 ≠ m) →
  wp (releasePool m) (λ _ s', good segs (events_of s') s' ∧ same_blocks s s' ∧ captures_underway s' = captures_underway s ∧
    uses s' = <[m := n - 1]> (uses s) ∧
    graph_pools_freeable s' = if decide (n = 1) then graph_pools_freeable s ++ [m] else graph_pools_freeable s) s.
Proof.
  intros Hg Hu Hn Hcap. apply uses_lookup in Hu as Hpp. destruct Hpp as (pp & Hm & Eu). apply wp_bind, wp_reads. rewrite Hm. cbv zeta.
  rewrite Eu. apply wp_bind, wp_modify. set (s1 := set_graph_pools _ s). apply wp_bind, wp_assert; [apply Z.leb_le; lia|].
  destruct (allocs_counts m pp (n - 1) s Hm) as [Ea Es]. fold s1 in Ea, Es.
  pose proof (core_admin _ _ _ _ _ (proj1 Hg)) as [A1 A2 A3 A4].
  assert (m ∉ graph_pools_freeable s) as Hnf by (intros Hf; apply (A1 m n Hu) in Hf; lia).
  destruct (n - 1 =? 0) eqn:E; bool_simpl.
  - apply wp_bind, wp_reads. apply wp_bind, wp_assert; [by apply bool_decide_eq_true|]. apply wp_modify.
    rewrite decide_True by lia. split; [|done]. apply (good_admin segs _ s); try done; [apply Hg|intros r; by apply lookup_pool_counts|].
    change (admin_ok (uses s1) (graph_pools_freeable s ++ [m]) (captures_underway s)). rewrite Es. split.
    + intros i x. rewrite lookup_insert_Some, elem_of_app, list_elem_of_singleton. intros [[<- <-]|[Hne Hi]].
      * split; [lia|]. split; [lia|by right].
      * rewrite <- (proj2 (A1 i x Hi)). split; [by apply (A1 i)|]. split; [by intros [?| ->]|by left].
    + intros i. rewrite elem_of_app, list_elem_of_singleton, lookup_insert_is_Some. intros [Hi| ->]; [|by left].
      destruct (decide (m = i)); [by left|right]. auto.
    + apply NoDup_app. split; [done|]. split; [|apply NoDup_singleton]. intros i Hi ->%list_elem_of_singleton. done.
    + intros e He. destruct (A4 e He) as (x & Hx & Hpos). exists x. rewrite lookup_insert_ne; [done|].
      intros Ee. apply (Hcap ltac:(lia) e He). done.
  - apply wp_ret. rewrite decide_False by lia. split; [|done].
    apply (good_admin segs _ s); try done; [apply Hg|intros r; by apply lookup_pool_counts|].
    rewrite Es. apply (admin_positive _ _ _ _ n); [done|done|done|]. destruct (A1 m n Hu). lia.
Qed.
End Pools.

(** ** Statistics, history and the memory limit. *)
Section History.
Context {D : Type} `{DeviceLaws D}.
Implicit Types (s : DeviceCachingAllocator D) (h : gmap loc Block).

Lemma good_stats segs ev x s : good segs ev s → (∀ n t, current (arrays x n t) = current (arrays (stats s) n t)) →
  good segs ev (set_stats x s).
Proof.
  intros (A & B & C) E. split; [by apply (core_transport _ _ _ _ s); try apply A|]. split; [done|].
  intros n t. cbn. by rewrite E.
Qed.

(** What is left alone: all but the statistics, the history and the limit. *)
Definition same_memory s s' : Prop := same_blocks s s' ∧ captures_underway s' = captures_underway s ∧
  graph_pools s' = graph_pools s ∧ graph_pools_freeable s' = graph_pools_freeable s.

Lemma same_memory_refl s : same_memory s s.
Proof. done. Qed.

Lemma same_memory_trans s1 s2 s3 : same_memory s1 s2 → same_memory s2 s3 → same_memory s1 s3.
Proof.
  intros ((A1 & A2 & A3 & A4) & A5 & A6 & A7) ((B1 & B2 & B3 & B4) & B5 & B6 & B7).
  split; [split; [congruence|split; [congruence|split; congruence]]|split; [congruence|split; congruence]].
Qed.

Lemma good_same_memory segs s s' :
  good segs (events_of s) s → same_memory s s' → stats s' = stats s → next_block s' = next_block s → ring_ok (alloc_buffer s') →
  (∀ r, lookup_pool s' r = lookup_pool s r) → good segs (events_of s') s'.
Proof.
  intros Hg (B & E1 & E2 & E3) E4 E5 Hr Hl. assert (events_of s' = events_of s) as -> by (unfold events_of; by destruct B as (_ & _ & -> & _)).
  assert (uses s' = uses s ∧ allocs s' = allocs s) as [E6 E7] by (unfold uses, allocs; by rewrite E2).
  apply (good_admin segs _ s); try done. rewrite E6, E3, E1. apply Hg.
Qed.

Lemma insert_skip_actions_spec skip s :
  wpx (insert_skip_actions skip) (λ _ s', ∃ l, s' = set_skip_actions_list l s)
    (λ e s', (∃ l, s' = set_skip_actions_list l s) ∧ e = Error "Unknown TraceEntry action: ") s.
Proof.
  assert (∀ l, wpx (insert_skip_actions skip) (λ _ s', ∃ l, s' = set_skip_actions_list l s)
    (λ e s', (∃ l, s' = set_skip_actions_list l s) ∧ e = Error "Unknown TraceEntry action: ") (set_skip_actions_list l s)) as Hall.
  { induction skip as [|a r IH]; intros l; cbn [insert_skip_actions]; [by exists l|]. apply wpx_bind. unfold wpx at 1, lift, parseTraceEntryAction.
    destruct (List.find _ _) as [e|]; [|split; [by exists l|done]]. apply wpx_bind_wp, wp_modify. apply (IH (e.2 :: l)). }
  specialize (Hall (skip_actions_list s)). by destruct s.
Qed.

(** The history is cleared, or its limit is not lowered. *)
Definition keeps_ring (enabled clearHistory : bool) (max_entries : nat) s : Prop :=
  enabled = false ∨ clearHistory = true ∨ (alloc_trace_max_entries_ (alloc_buffer s) ≤ max 1 max_entries)%nat.

Lemma recordHistory_spec segs enabled recorder never max_entries clearHistory skip s :
  good segs (events_of s) s → keeps_ring enabled clearHistory max_entries s →
  wpx (recordHistory enabled recorder never max_entries clearHistory skip)
    (λ _ s', good segs (events_of s') s' ∧ same_memory s s' ∧ record_history s' = enabled ∧
       alloc_trace_max_entries_ (alloc_buffer s') = max 1 max_entries)
    (λ e s', good segs (events_of s') s' ∧ same_memory s s' ∧ alloc_buffer s' = alloc_buffer s ∧ ∃ msg, e = Error msg) s.
Proof.
  intros Hg Hk. pose proof (core_ring _ _ _ _ _ (proj1 Hg)) as Hr. apply wpx_bind. unfold wpx at 1, lift, TORCH_CHECK.
  destruct (never || recorder); cbn -[insert_skip_actions]. 2: { split; [done|]. split; [apply same_memory_refl|]. split; [done|by eexists]. }
  apply wpx_bind_wp, wp_modify, wpx_bind_wp, wp_modify, wpx_bind.
  eapply wpx_mono; [apply insert_skip_actions_spec| |].
  2: { cbv beta. intros e s' [[l ->] ->]. split; [by apply (good_same_memory _ s)|]. split; [done|]. split; [done|by eexists]. }
  cbv beta. intros [] s' [l ->]. apply wpx_bind_wp. unfold wp, on_ring. cbn -[events_of]. set (ring := mkRing _ _ _).
  destruct Hr as (R1 & R2 & R3). destruct (negb enabled || clearHistory) eqn:E; cbn -[events_of].
  - split; [apply (good_same_memory _ s); try done; cbn; unfold ring_ok; cbn; lia|done].
  - apply orb_false_iff in E as [E1 E2]. apply negb_false_iff in E1. split; [|done].
    apply (good_same_memory _ s); try done. cbn. unfold ring_ok, ring. cbn. destruct Hk as [?|[?|Hk]]; [congruence|congruence|lia].
Qed.

Lemma resets_good segs s :
  good segs (events_of s) s →
  wp reset_accumulated_stats (λ _ s', good segs (events_of s') s' ∧ same_memory s s') s ∧
  wp reset_peak_stats (λ _ s', good segs (events_of s') s' ∧ same_memory s s') s.
Proof. intros Hg. split; (split; [by apply good_stats|done]). Qed.

Lemma setMemoryFraction_spec segs allowed s :
  good segs (events_of s) s →
  wp (setMemoryFraction allowed) (λ _ s', good segs (events_of s') s' ∧ same_memory s s') s.
Proof. intros Hg. split; [|done]. apply (good_same_memory _ s); try done. apply Hg. Qed.

(** [trace] returns every entry of the buffer. *)
Lemma trace_spec segs s : good segs (events_of s) s → wp trace (λ l s', s' = s ∧ l ≡ₚ alloc_trace (alloc_buffer s)) s.
Proof.
  intros Hg. destruct (core_ring _ _ _ _ _ (proj1 Hg)) as (_ & _ & R3). unfold wp, trace, on_ring, getEntries.
  rewrite decide_True by done. split; [by destruct s|]. cbn. by rewrite Permutation_app_comm, take_drop.
Qed.
End History.
