(* ===== verification/XPUSteps.v ===== *)
(** * The XPU caching allocator: runs of the program.

    The calls a program makes as steps of a state machine, and that every
    state it can reach is good.  A call may throw; the program goes on in the
    state that is left. *)

From S2P Require Import Prelude CachingAllocator DeviceRuntime ExpandableSegment XPUBlocks XPUAllocator XPUHeap XPUInvariant XPUMerge XPUFree XPUEvents XPURelease XPUAlloc XPUMalloc XPUApi XPUUse XPUPools.

Inductive call : Type :=
  | Malloc (complete : Z → bool) (free_memory device orig_size queue : Z)
  | Free (block : loc)
  | RecordStream (block : loc) (stream : XPUStream)
  | EmptyCache (mempool_id : MempoolId_t)
  | CreateOrIncrefPool (mempool_id : MempoolId_t) (allocator : option Z)
  | BeginAllocateToPool (mempool_id : MempoolId_t) (filter : Z → bool)
  | EndAllocateToPool (mempool_id : MempoolId_t)
  | ReleasePool (mempool_id : MempoolId_t)
  | ResetAccumulatedStats
  | ResetPeakStats
  | SetMemoryFraction (allowed : Z)
  | RecordHistory (enabled recorder never : bool) (max_entries : nat) (clearHistory : bool) (skip_actions : list string)
  | Trace.

(** The exceptions a call may throw. *)
Definition declared (c : call) (e : exn) : Prop :=
  match c with
  | Malloc _ _ _ _ _ => e = OutOfMemoryError "XPU out of memory. Tried to allocate "
  | CreateOrIncrefPool _ _ | EndAllocateToPool _ => ∃ msg, e = InternalAssert msg
  | BeginAllocateToPool _ _ => ∃ msg, e = InternalAssert msg ∨ e = Error msg
  | RecordHistory _ _ _ _ _ _ => ∃ msg, e = Error msg
  | _ => False
  end.

Section Steps.
Context {D : Type} `{DeviceLaws D} (cfg : AllocatorConfig).
Implicit Types (s : DeviceCachingAllocator D) (h : gmap loc Block).

(** The call [c]; the block [malloc] returns is what the program refers to
    later. *)
Definition run (c : call) : method (DeviceCachingAllocator D) (option loc) :=
  match c with
  | Malloc complete free_memory device orig_size queue => 
      block ← malloc cfg complete free_memory device orig_size queue; mret (Some block)
  | Free block => free block;; mret None
  | RecordStream block stream => recordStream block stream;; mret None
  | EmptyCache mempool_id => emptyCache mempool_id;; mret None
  | CreateOrIncrefPool mempool_id allocator => create_or_incref_pool mempool_id allocator;; mret None
  | BeginAllocateToPool mempool_id filter => beginAllocateToPool mempool_id filter;; mret None
  | EndAllocateToPool mempool_id => endAllocateToPool mempool_id;; mret None
  | ReleasePool mempool_id => releasePool mempool_id;; mret None
  | ResetAccumulatedStats => reset_accumulated_stats;; mret None
  | ResetPeakStats => reset_peak_stats;; mret None
  | SetMemoryFraction allowed => setMemoryFraction allowed;; mret None
  | RecordHistory enabled recorder never max_entries clearHistory skip_actions =>
      recordHistory enabled recorder never max_entries clearHistory skip_actions;; mret None
  | Trace => trace;; mret None
  end.

(** The block is one that [malloc] returned and that was not freed since. *)
Definition owned s (block : loc) : Prop := ∃ u, used (heap s) block = Some u ∧ u_allocated u = true.

(** What the program has to ensure. *)
Definition allowed_call s (c : call) : Prop :=
  match c with
  | Malloc _ _ _ orig_size _ => 0 ≤ orig_size ≤ 2 ^ 64 - 2 ^ 21
  | Free block | RecordStream block _ => owned s block
  | EmptyCache mempool_id => mempool_id ≠ (0, 0) → mempool_id ∈ graph_pools_freeable s →
      ∀ k, k ∈ events_of s → other_pool (Some mempool_id) s k = false
  | ReleasePool mempool_id => ∃ n, uses s !! mempool_id = Some n ∧ 0 < n ∧
      (n = 1 → ∀ e, e ∈ captures_underway s → e.1 ≠ mempool_id)
  | RecordHistory enabled _ _ max_entries clearHistory _ => keeps_ring enabled clearHistory max_entries s
  | _ => True
  end.

(** The states reached from a new allocator on the device [d]. *)
Inductive reachable_from (d : D) : DeviceCachingAllocator D → Prop :=
  | reachable_new index : reachable_from d (new_DeviceCachingAllocator index d)
  | reachable_call c s : reachable_from d s → allowed_call s c → reachable_from d (fst (run c s)).
Definition reachable s : Prop := ∃ d, reachable_from d s.

(** [segs] is the memory of the device that the allocator holds; the rest is
    what the device held when the allocator was created. *)
Definition good_state (d : D) s : Prop := ∃ segs, good segs (events_of s) s ∧ foreign segs s = live d.

Lemma good_new index (d : D) : good_state d (new_DeviceCachingAllocator index d).
Proof.
  exists ∅. split; [|apply map_difference_empty]. split; [split; try done|split].
  - apply map_empty_subseteq.
  - intros r bp Hr. assert (bp = empty_pool) as -> by (unfold lookup_pool in Hr; destruct (owner_PrivatePool r); [done|destruct (is_small r); by injection Hr]).
    split; [done|constructor|]. intros i. cbn. split; [by intros ?%not_elem_of_nil|by intros (b & ? & _)].
  - split; try done; cbn; [by intros i Hi%not_elem_of_nil|constructor|by intros e He%not_elem_of_nil].
  - unfold ring_ok. cbn. lia.
  - intros i. cbn. unfold used. rewrite lookup_empty. split; [set_solver|by intros [? ?]].
  - intros n t. cbn. by destruct n, t.
Qed.

Lemma wpx_then {A B} (m : method (DeviceCachingAllocator D) A) (b : B) (Q : DeviceCachingAllocator D → Prop) E s :
  wpx m (λ _ s', Q s') E s → wpx (m;; mret b) (λ _ s', Q s') E s.
Proof. intros Hm. apply wpx_bind. eapply wpx_mono; [exact Hm| |done]. done. Qed.

(** A call leads to a good state, also when it throws. *)
Lemma run_good d c s : plain_config cfg → good_state d s → allowed_call s c →
  wpx (run c) (λ _ s', good_state d s') (λ e s', declared c e ∧ good_state d s') s.
Proof.
  intros Hcfg (segs & Hg & Hd) Ha.
  assert (∀ segs' s', good segs' (events_of s') s' → foreign segs' s' = foreign segs s → good_state d s') as Hgood.
  { intros segs' s' G E. exists segs'. split; [done|]. congruence. }
  assert (∀ s', good segs (events_of s') s' → dev s' = dev s → good_state d s') as Hsame.
  { intros s' G E. apply (Hgood segs); [done|]. unfold foreign. by rewrite E. }
  destruct c; cbn [run declared allowed_call] in *.
  - apply wpx_bind. eapply wpx_mono; [by apply (malloc_spec cfg segs)| |].
    + intros k s' (segs' & u & G & (_ & F & _) & _). by apply (Hgood segs').
    + intros e s' (-> & segs' & G & Cl). split; [done|]. by apply (Hgood segs'); [|apply Cl].
  - destruct Ha as (u & Hu & Al). apply wpx_then, wpx_wp. eapply wp_mono; [by apply (free_spec segs s _ u)|].
    intros [] s' _ (G & _ & E & _). by apply Hsame.
  - destruct Ha as (u & Hu & Al). apply wpx_then, wpx_wp. eapply wp_mono; [by apply (recordStream_spec segs s _ u)|].
    intros [] s' _ (G & _ & E & _). by apply Hsame.
  - apply wpx_then, wpx_wp. eapply wp_mono; [by apply (release_cached_blocks_spec segs)|]. intros [] s' _ (segs' & G & Cl & _).
    by apply (Hgood segs'); [|apply Cl].
  - apply wpx_then. eapply wpx_mono; [by apply (create_or_incref_spec segs)| |].
    + intros [] s' [G E]. apply Hsame; [done|apply E].
    + intros e s' [-> He]. split; [done|]. by exists segs.
  - apply wpx_then. eapply wpx_mono; [by apply (beginAllocateToPool_spec segs)| |].
    + intros [] s' [G E]. apply Hsame; [done|apply E].
    + intros e s' (G & E & _ & He). split; [done|]. apply Hsame; [done|apply E].
  - apply wpx_then. eapply wpx_mono; [by apply (endAllocateToPool_spec segs)| |].
    + intros [] s' [G E]. apply Hsame; [done|apply E].
    + intros e s' (-> & _ & He). split; [done|]. by exists segs.
  - destruct Ha as (n & Hn & Hpos & Hc). apply wpx_then, wpx_wp. eapply wp_mono; [by apply (releasePool_spec segs _ n)|].
    intros [] s' _ [G E]. apply Hsame; [done|apply E].
  - apply wpx_then, wpx_wp. eapply wp_mono; [apply (resets_good segs s Hg)|]. intros [] s' _ [G E]. apply Hsame; [done|apply E].
  - apply wpx_then, wpx_wp. eapply wp_mono; [apply (resets_good segs s Hg)|]. intros [] s' _ [G E]. apply Hsame; [done|apply E].
  - apply wpx_then, wpx_wp. eapply wp_mono; [by apply (setMemoryFraction_spec segs)|]. intros [] s' _ [G E]. apply Hsame; [done|apply E].
  - apply wpx_then. eapply wpx_mono; [by apply (recordHistory_spec segs)| |].
    + intros [] s' [G E]. apply Hsame; [done|apply E].
    + intros e s' (G & E & _ & He). split; [done|]. apply Hsame; [done|apply E].
  - apply wpx_then, wpx_wp. eapply wp_mono; [by apply (trace_spec segs)|]. intros l s' _ [-> _]. by exists segs.
Qed.

Lemma reachable_from_good d s : plain_config cfg → reachable_from d s → good_state d s.
Proof.
  intros Hcfg. induction 1 as [index|c s Hr IH Ha]; [apply good_new|]. pose proof (run_good d c s Hcfg IH Ha) as Hw.
  unfold wpx in Hw. destruct (run c s) as [s' [a|e]]; [done|]. by destruct Hw.
Qed.

Lemma reachable_good s : plain_config cfg → reachable s → ∃ segs, good segs (events_of s) s.
Proof. intros Hcfg [d (segs & Hg & _)%reachable_from_good]; [|done]. by exists segs. Qed.

(** The memory of the device is what it held at the start and the segments. *)
Lemma foreign_live segs ev d s : good segs ev s → foreign segs s = live d → live (dev s) = live d ∪ segs ∧ live d ##ₘ segs.
Proof.
  intros (Hc & _) <-. pose proof (core_live _ _ _ _ _ Hc) as Hs. unfold foreign. split.
  - rewrite map_union_comm by (by apply map_disjoint_difference_l1). by rewrite map_difference_union.
  - by apply map_disjoint_difference_l1.
Qed.
End Steps.
