(* ===== verification/XPUContract.v ===== *)
(** * The XPU caching allocator: what it promises.

    The properties of every state a program can reach, and what the calls do
    in such a state; each with a run on a small device. *)

From S2P Require Import Prelude CachingAllocator DeviceRuntime ExpandableSegment XPUBlocks XPUAllocator XPUHeap XPUInvariant XPUMerge XPUFree XPUEvents XPURelease XPUAlloc XPUMalloc XPUApi XPUUse XPUPools XPUSteps.

Section Contract.
Context {D : Type} `{DeviceLaws D} (cfg : AllocatorConfig).
Implicit Types (s : DeviceCachingAllocator D) (h : gmap loc Block).

Lemma allocated_stays segs s s' k u : good segs (events_of s) s → used (heap s') k = used (heap s) k ≫= settle (events_of s') k →
  used (heap s) k = Some u → u_allocated u = true → used (heap s') k = Some u.
Proof.
  intros (Hc & _) E Hu Al. rewrite E, Hu. cbn. destruct (used_block _ _ _ Hu) as (b & Hk & _ & ->).
  unfold settle. cbn. rewrite (ok_allocated _ _ (heap_blocks _ _ _ (core_heap _ _ _ _ _ Hc) k b Hk) Al). done.
Qed.

(** Blocks that are allocated are those the program owns. *)
Definition owners_kept s s' : Prop := ∀ k u, used (heap s) k = Some u → u_allocated u = true → used (heap s') k = Some u.

Lemma total_aggregate s st : stats_ok (heap s) st → current (arrays st reserved_bytes AGGREGATE) = total bsize (heap s).
Proof. intros Hs. rewrite (Hs reserved_bytes AGGREGATE). apply total_ext. intros i b _. unfold in_stat. by destruct (bpool b) as [? []]. Qed.

Lemma pending_filter_other s pool k l u : used (heap s) k = Some u → is_Some pool → owner_PrivatePool (u_pool u) ≠ pool →
  pending k (filter (λ j, other_pool pool s j = true) l) = pending k l.
Proof.
  intros Hu Hp Hne. assert (other_pool pool s k = true) as Ho by (unfold other_pool; rewrite Hu; by rewrite !bool_decide_true).
  induction l as [|j l IH]; [done|]. rewrite filter_cons. destruct (decide (j = k)) as [->|Hj].
  - rewrite decide_True by done. by rewrite !pending_cons, IH.
  - case_decide; rewrite ?pending_cons, ?decide_False, IH by done; lia.
Qed.

(** C2. In every reachable state the blocks fill the segments that the
    allocator has obtained from the device and not given back: the neighbours
    of a block are linked in both directions and adjacent in memory, different
    blocks do not overlap, a segment begins with a block without a left
    neighbour and ends with one without a right one, no two adjacent blocks are
    unused, and the sizes of the blocks add up to the memory of the segments.
    Nothing leaks: the live memory of the device is what it held when the
    allocator was created and these segments. *)
Theorem reachable_blocks_fill_segments d s : plain_config cfg → reachable_from cfg d s →
  ∃ segs, live (dev s) = live d ∪ segs ∧ live d ##ₘ segs ∧ heap_ok segs None (heap s) ∧ total bsize (heap s) = held segs.
Proof.
  intros Hcfg Hr. destruct (reachable_from_good cfg d s Hcfg Hr) as (segs & Hg & Hd). exists segs.
  destruct (foreign_live segs _ d s Hg Hd) as [El Hdis]. pose proof Hg as [Hc _].
  split; [done|]. split; [done|]. split; [apply Hc|]. apply (total_held segs None). apply Hc.
Qed.

(** C28. In every reachable state each pool holds exactly the blocks of the
    pool that neither the program nor a stream uses, in the order of
    [BlockComparatorSize]; every block belongs to a pool that exists; the
    active blocks are the others; and the event count of a block is the number
    of its pending events. *)
Theorem reachable_pools_exact s : plain_config cfg → reachable cfg s →
  (∀ r bp, lookup_pool s r = Some bp → unmapped bp = [] ∧ ordered (id_less BlockComparatorSize (heap s)) (blocks bp) ∧
     ∀ i, i ∈ blocks bp ↔ ∃ b, heap s !! i = Some b ∧ bpool b = r ∧ unused b = true) ∧
  (∀ i b, heap s !! i = Some b → is_Some (lookup_pool s (bpool b)) ∧ event_count b = pending i (events_of s)) ∧
  (∀ i, i ∈ active_blocks s ↔ ∃ b, heap s !! i = Some b ∧ unused b = false).
Proof.
  intros Hcfg Hr. destruct (reachable_good cfg s Hcfg Hr) as [segs (Hc & Ha & _)]. split; [|split].
  - intros r bp Hl. destruct (core_pools _ _ _ _ _ Hc r bp Hl) as [P1 P2 P3]. split; [done|]. split; [done|].
    intros i. rewrite P3. naive_solver.
  - intros i b Hi. split; [by apply (core_owner _ _ _ _ _ Hc i)|]. by rewrite (core_events _ _ _ _ _ Hc i), Hi.
  - intros i. rewrite (Ha i). unfold used. destruct (heap s !! i) as [b|]; [destruct (unused b) eqn:Ub|].
    + split; [by intros [? ?]|]. intros (? & [= <-] & ?). congruence.
    + split; [|by eexists]. intros _. by exists b.
    + split; [by intros [? ?]|]. by intros (? & ? & _).
Qed.

(** C30. [getStats] is exact: the current value of each statistic, in the
    aggregate and for each kind of pool, is the sum of what the blocks
    contribute to it, and the reserved bytes are the memory the allocator holds
    on the device: all that is live beside what the device held when the
    allocator was created. *)
Theorem getStats_exact d s : plain_config cfg → reachable_from cfg d s →
  wp getStats (λ st s', s' = s ∧ (∀ n t, current (arrays st n t) = tot n t (heap s)) ∧
    ∃ segs, live (dev s) = live d ∪ segs ∧ live d ##ₘ segs ∧ heap_ok segs None (heap s) ∧
      current (arrays st reserved_bytes AGGREGATE) = held segs) s.
Proof.
  intros Hcfg Hr. destruct (reachable_from_good cfg d s Hcfg Hr) as (segs & Hg & Hd). pose proof Hg as (Hc & _ & Hs).
  destruct (foreign_live segs _ d s Hg Hd) as [El Hdis]. apply wp_reads. split; [done|]. split; [done|].
  exists segs. split; [done|]. split; [done|]. split; [apply Hc|]. rewrite (total_aggregate s) by done. apply (total_held segs None). apply Hc.
Qed.

(** No call of a program that keeps the rules fails in any way but the
    documented ones: there is no use of a deleted block, no access outside the
    history buffer and no failed assertion in [malloc], [free],
    [recordStream], [emptyCache] and [releasePool]; only [malloc] throws when
    memory has run out, and the methods on pools and the history when their
    argument is not valid. *)
Theorem calls_throw_as_declared c s e : plain_config cfg → reachable cfg s → allowed_call s c →
  snd (run cfg c s) = Throw e → declared c e.
Proof.
  intros Hcfg [d Hr] Ha He. pose proof (run_good cfg d c s Hcfg (reachable_from_good cfg d s Hcfg Hr) Ha) as Hw. unfold wpx in Hw.
  destruct (run cfg c s) as [s' r]. cbn in He. subst r. by destruct Hw.
Qed.

(** C1. [malloc] returns a block for the use of the program: of the queue
    asked for, as large as the rounded request and larger by at most what is
    too little to split off, in the pool of the capture that is under way; in
    live device memory, and separate from every block in use by the program or
    by a stream.  The blocks the program owns stay as they are, also when
    [malloc] runs out of memory and throws. *)
Theorem malloc_serves complete free_memory device orig_size queue s :
  plain_config cfg → reachable cfg s → 0 ≤ orig_size ≤ 2 ^ 64 - 2 ^ 21 →
  wpx (malloc cfg complete free_memory device orig_size queue)
    (λ k s', (∀ v, used (heap s) k = Some v → u_allocated v = false) ∧ owners_kept s s' ∧
       ∃ u, used (heap s') k = Some u ∧ served orig_size queue (pool_of s (round_size orig_size) queue) u ∧
         (∃ base n, live (dev s') !! base = Some n ∧ base ≤ u_ptr u ∧ u_ptr u + u_size u ≤ base + n) ∧
         ∀ m v, m ≠ k → used (heap s') m = Some v → separate (u_ptr u) (u_size u) (u_ptr v) (u_size v))
    (λ e s', e = OutOfMemoryError "XPU out of memory. Tried to allocate " ∧ owners_kept s s') s.
Proof.
  intros Hcfg Hr Hsz. destruct (reachable_good cfg s Hcfg Hr) as [segs Hg].
  eapply wpx_mono; [by apply (malloc_spec cfg segs)| |]; cbv beta.
  - intros k s' (segs' & u & G & (_ & _ & Hk & Hu) & Hsv).
    assert (∀ v, used (heap s) k = Some v → u_allocated v = false) as Hfree.
    { intros v Hv. destruct (u_allocated v) eqn:Al; [|done]. rewrite Hv in Hk. cbn in Hk. unfold settle in Hk.
      destruct (used_block _ _ _ Hv) as (b & Hb & _ & ->). cbn in Al, Hk.
      by rewrite (ok_allocated _ _ (heap_blocks _ _ _ (core_heap _ _ _ _ _ (proj1 Hg)) k b Hb) Al) in Hk. }
    assert (used (heap s') k = Some u) as Huk by (by rewrite Hu, decide_True).
    split; [done|]. split.
    + intros m v Hm Al. apply (allocated_stays segs s s' m v Hg); [|done|done]. rewrite Hu, decide_False; [done|].
      intros ->. rewrite (Hfree v Hm) in Al. done.
    + exists u. split; [done|]. split; [done|]. split; [by apply (used_live segs' _ s' k u G)|].
      intros m v Hne Hm. by apply (used_separate segs' (events_of s') s' k u m v).
  - intros e s' (-> & segs' & G & Cl). split; [done|]. intros m v Hm Al. by apply (allocated_stays segs s s' m v Hg); [apply Cl| |].
Qed.

(** The search for a cached block is a best fit: [get_free_block] returns
    a block of the pool and the queue that is large enough, the smallest such
    block and of those the one with the lowest address; and it returns none
    only if the pool has no block of the queue that is large enough. *)
Theorem get_free_block_best_fit p s : plain_config cfg → reachable cfg s → is_Some (lookup_pool s (p_pool p)) →
  wp (get_free_block cfg p) (λ r s', heap s' = heap s ∧
    match r with
    | Some i => ∃ b, best_fit (heap s) (p_pool p) (p_queue p) (p_size p) i b
    | None => ∀ i b, ¬ candidate (heap s) (p_pool p) (p_queue p) (p_size p) i b
    end) s.
Proof.
  intros Hcfg Hr Hp. destruct (reachable_good cfg s Hcfg Hr) as [segs Hg].
  eapply wp_mono; [by apply (get_free_block_spec cfg (proj1 Hcfg) segs (events_of s))|]. cbv beta.
  intros [i|] s' _; [intros (b & Hb & _ & E & _)|intros [-> Hno]]; (split; [done|]); [by exists b|done].
Qed.

(** [free] ends the use of the block by the program, and only that: a block
    no other stream has used is unused from then on; otherwise one event is
    recorded for every stream that has, and the block stays in use until they
    complete.  Other blocks and the memory of the device are as before. *)
Theorem free_ends_use k u s : plain_config cfg → reachable cfg s → used (heap s) k = Some u → u_allocated u = true →
  wp (free k) (λ _ s', dev s' = dev s ∧ (∀ m, used (heap s') m = if decide (m = k) then given_up u else used (heap s) m) ∧
    ∀ m, pending m (events_of s') = pending m (events_of s) + if decide (k = m) then Z.of_nat (length (u_streams u)) else 0) s.
Proof.
  intros Hcfg Hr Hu Al. destruct (reachable_good cfg s Hcfg Hr) as [segs Hg].
  eapply wp_mono; [by apply (free_spec segs s k u)|]. cbv beta. intros [] s' _ (_ & _ & E & Hp & Hk). done.
Qed.

(** C23. Memory that a stream may still use is not reused: [process_events]
    removes from each queue the events at its front that are complete, and
    ends the use of a freed block exactly when none of its events is left.
    All other blocks, and the device, stay as they are. *)
Theorem process_events_ends_uses complete s : plain_config cfg → reachable cfg s →
  wp (process_events complete) (λ _ s', xpu_events s' = remaining complete (xpu_events s) ∧ dev s' = dev s ∧
    ∀ k u, used (heap s) k = Some u →
      if u_events u =? 0 then used (heap s') k = Some u
      else used (heap s') k = None ↔ k ∉ events_of s') s.
Proof.
  intros Hcfg Hr. destruct (reachable_good cfg s Hcfg Hr) as [segs Hg].
  eapply wp_mono; [by apply (process_events_spec segs)|]. cbv beta. intros [] s' _ (_ & X & _ & E & Hu).
  split; [done|]. split; [done|]. intros k u Hk. rewrite Hu, Hk. cbn. unfold settle. destruct (u_events u =? 0) eqn:E0; [done|].
  pose proof (pending_nonneg k (events_of s')). rewrite pending_elem. destruct (pending k (events_of s') =? 0) eqn:E1; bool_simpl; split; try done; lia.
Qed.

(** C27. [emptyCache] gives all the memory back that it can: when no capture is
    under way, it waits for the pending events, and then the live memory of the
    device is what it held when the allocator was created and the segments of
    the blocks that are left; of these, each segment of the default pools, and of a
    private pool that was freeable, contains a block the program has allocated.
    The blocks the program owns stay as they are. *)
Theorem emptyCache_returns_idle_segments d s : plain_config cfg → reachable_from cfg d s → captures_underway s = [] →
  wp (emptyCache (0, 0)) (λ _ s', events_of s' = [] ∧ owners_kept s s' ∧
    ∃ segs, live (dev s') = live d ∪ segs ∧ live d ##ₘ segs ∧ heap_ok segs None (heap s') ∧
      ∀ base n, segs !! base = Some n → ∃ i b, heap s' !! i = Some b ∧ bptr b = base ∧
        ((∀ m, owner_PrivatePool (bpool b) = Some m → m ∈ graph_pools_freeable s) →
         ∃ k u, used (heap s') k = Some u ∧ u_allocated u = true ∧ u_pool u = bpool b ∧ base ≤ u_ptr u ∧ u_ptr u + u_size u ≤ base + n)) s.
Proof.
  intros Hcfg Hr Hcap. destruct (reachable_from_good cfg d s Hcfg Hr) as (segs & Hg & Hd0).
  eapply wp_mono; [by apply (release_cached_blocks_spec segs (0, 0))|]. cbv beta. intros [] s' _ (segs' & G & Cl & Hf & Hd).
  destruct (Hd eq_refl Hcap) as [Hev Hdef]. split; [done|]. split.
  { intros m v Hm Al. by apply (allocated_stays segs s s' m v Hg); [apply Cl| |]. }
  destruct (foreign_live segs' _ d s' G) as [El Hdis]; [by rewrite (cl_foreign _ _ _ _ Cl)|]. pose proof G as [Hc _].
  exists segs'. split; [done|]. split; [done|]. split; [apply Hc|]. intros base n Hs.
  destruct (heap_heads _ _ _ (core_heap _ _ _ _ _ Hc) base n Hs) as (i & b & Hi & Ep). exists i, b. split; [done|]. split; [done|]. intros Hpool.
  assert (drained (bpool b) (heap s')) as Hdr.
  { destruct (bpool b) as [[m|] small]; [|apply Hdef]. apply (Hf m); [by apply Hpool|by left]. }
  destruct (drained_used segs' (heap s') (bpool b) base n i b (core_heap _ _ _ _ _ Hc) Hdr Hi eq_refl Ep Hs) as (k & u & Hu & Er & B1 & B2).
  exists k, u. split; [done|]. split; [|done]. pose proof (core_use_events _ _ _ _ _ k u Hc Hu) as Ev. rewrite Hev in Ev.
  destruct (used_block _ _ _ Hu) as (c & Hk & Uc & ->). cbn in *. destruct (allocated c) eqn:Al; [done|].
  pose proof (ok_streams _ _ (heap_blocks _ _ _ (core_heap _ _ _ _ _ Hc) k c Hk) Al) as Es.
  assert (unused c = true) as Ut by (apply unused_spec; by rewrite Al, Es, Ev). congruence.
Qed.

(** [synchronize_and_free_events] with a pool forgets the events of
    other pools: it skips their blocks, and then clears all of the queues.
    The freed blocks they belong to wait for events that are in no queue any
    more: no later [process_events] ends their use. *)
Theorem synchronize_strands_other_pools complete m k u s : plain_config cfg → reachable cfg s →
  used (heap s) k = Some u → 0 < u_events u → owner_PrivatePool (u_pool u) ≠ Some m →
  wp (synchronize_and_free_events (Some m);; process_events complete) (λ _ s', xpu_events s' = [] ∧ used (heap s') k = Some u) s.
Proof.
  intros Hcfg Hr Hu Hpos Hne. destruct (reachable_good cfg s Hcfg Hr) as [segs Hg].
  apply wp_bind, wp_bind, wp_reads, wp_bind. set (l := concat (snd <$> xpu_events s)).
  assert (good segs ((snd <$> l) ++ []) s) as Hg' by (by rewrite app_nil_r).
  eapply wp_mono; [apply (synchronize_all_spec segs (Some m) l [] s Hg')|]. cbv beta zeta. intros [] s' _ (_ & (_ & _ & Hk) & _).
  apply wp_modify. cbn. apply wp_bind, wp_reads. cbn. split; [done|]. rewrite Hk, Hu. cbn. apply settle_same. rewrite app_nil_r.
  rewrite (pending_filter_other s (Some m) k _ u) by done. apply (good_events segs (events_of s) s k u Hg Hu).
Qed.
End Contract.

(** ** Runs on a small device. *)
Module Demo.
Definition cfg : AllocatorConfig := mkConfig 20971520 false 0.
Definition device : Simple.device := Simple.mkDevice 4194304 4096 ∅ ∅ 0.
Definition start : DeviceCachingAllocator Simple.device := new_DeviceCachingAllocator 0 device.

Definition runs (l : list call) : DeviceCachingAllocator Simple.device := foldl (λ s c, fst (run cfg c s)) start l.

Definition malloc_call (orig_size : Z) : call := Malloc (λ _, false) 0 0 orig_size 7.

(** Two blocks of one segment, 2 and 3. *)
Definition two : DeviceCachingAllocator Simple.device := runs [malloc_call 1000; malloc_call 3000].

(** Block 2 was used by another stream and is freed; block 3 is allocated. *)
Definition calls : list call := [malloc_call 1000; malloc_call 3000; RecordStream 2%positive (mkStream 1 9); Free 2%positive].
Definition waiting : DeviceCachingAllocator Simple.device := runs calls.

Lemma plain : plain_config cfg.
Proof. split; [done|]. unfold kMinLargeAlloc. cbn. lia. Qed.

Lemma reachable_snoc l c : reachable_from cfg device (runs l) → allowed_call (runs l) c → reachable_from cfg device (runs (l ++ [c])).
Proof. intros Hr Ha. unfold runs. rewrite foldl_app. by apply reachable_call. Qed.

Lemma malloc_allowed (s : DeviceCachingAllocator Simple.device) n : 0 ≤ n ≤ 2 ^ 64 - 2 ^ 21 → allowed_call s (malloc_call n).
Proof. done. Qed.

(** The block is owned, by computation. *)
Definition owned_now (s : DeviceCachingAllocator Simple.device) (k : loc) : bool :=
  match used (heap s) k with Some u => u_allocated u | None => false end.

Lemma owned_spec s k : owned_now s k = true → owned s k.
Proof. unfold owned_now, owned. destruct (used (heap s) k) as [u|]; [|done]. intros Hu. by exists u. Qed.

Lemma from_two : reachable_from cfg device two.
Proof.
  apply (reachable_snoc [malloc_call 1000]); [|apply malloc_allowed; lia].
  apply (reachable_snoc []); [apply (reachable_new cfg)|apply malloc_allowed; lia].
Qed.
Lemma reachable_two : reachable cfg two.
Proof. exists device. exact from_two. Qed.

Lemma from_waiting : reachable_from cfg device waiting.
Proof.
  apply (reachable_snoc [malloc_call 1000; malloc_call 3000; RecordStream 2%positive (mkStream 1 9)]).
  - apply (reachable_snoc [malloc_call 1000; malloc_call 3000]); [exact from_two|].
    change (owned two 2%positive). apply owned_spec. vm_compute. reflexivity.
  - change (owned (runs [malloc_call 1000; malloc_call 3000; RecordStream 2%positive (mkStream 1 9)]) 2%positive).
    apply owned_spec. vm_compute. reflexivity.
Qed.
Lemma reachable_waiting : reachable cfg waiting.
Proof. exists device. exact from_waiting. Qed.

(** The use of block 2 when it is allocated, and when it waits for an
    event. *)
Definition use_2 : Use := mkUse 7 4096 1024 1000 (mkPool None true) true [] 0.
Definition waiting_2 : Use := mkUse 7 4096 1024 1000 (mkPool None true) false [] 1.

Lemma used_2 : used (heap two) 2%positive = Some use_2.
Proof. vm_compute. reflexivity. Qed.

Lemma used_waiting_2 : used (heap waiting) 2%positive = Some waiting_2.
Proof. vm_compute. reflexivity. Qed.

End Demo.
Import Demo.

Lemma reachable_blocks_fill_segments_witness :
  ∃ segs, live (dev two) = live device ∪ segs ∧ live device ##ₘ segs ∧ heap_ok segs None (heap two) ∧ total bsize (heap two) = held segs.
Proof. exact (reachable_blocks_fill_segments cfg device two plain from_two). Defined.

Lemma reachable_pools_exact_witness :
  (∀ r bp, lookup_pool waiting r = Some bp → unmapped bp = [] ∧ ordered (id_less BlockComparatorSize (heap waiting)) (blocks bp) ∧
     ∀ i, i ∈ blocks bp ↔ ∃ b, heap waiting !! i = Some b ∧ bpool b = r ∧ unused b = true) ∧
  (∀ i b, heap waiting !! i = Some b → is_Some (lookup_pool waiting (bpool b)) ∧ event_count b = pending i (events_of waiting)) ∧
  (∀ i, i ∈ active_blocks waiting ↔ ∃ b, heap waiting !! i = Some b ∧ unused b = false).
Proof. exact (reachable_pools_exact cfg waiting plain reachable_waiting). Defined.

Lemma getStats_exact_witness :
  wp getStats (λ st s', s' = waiting ∧ (∀ n t, current (arrays st n t) = tot n t (heap waiting)) ∧
    ∃ segs, live (dev waiting) = live device ∪ segs ∧ live device ##ₘ segs ∧ heap_ok segs None (heap waiting) ∧
      current (arrays st reserved_bytes AGGREGATE) = held segs) waiting.
Proof. exact (getStats_exact cfg device waiting plain from_waiting). Defined.

(** The request is too large for the device. *)
Lemma calls_throw_as_declared_witness :
  declared (malloc_call 5000000) (OutOfMemoryError "XPU out of memory. Tried to allocate ").
Proof.
  apply (calls_throw_as_declared cfg (malloc_call 5000000) two); [exact plain|exact reachable_two|apply malloc_allowed; lia|vm_compute; reflexivity].
Defined.

Lemma malloc_serves_witness :
  wpx (malloc cfg (λ _, true) 0 0 700 7)
    (λ k s', (∀ v, used (heap waiting) k = Some v → u_allocated v = false) ∧ owners_kept waiting s' ∧
       ∃ u, used (heap s') k = Some u ∧ served 700 7 (pool_of waiting (round_size 700) 7) u ∧
         (∃ base n, live (dev s') !! base = Some n ∧ base ≤ u_ptr u ∧ u_ptr u + u_size u ≤ base + n) ∧
         ∀ m v, m ≠ k → used (heap s') m = Some v → separate (u_ptr u) (u_size u) (u_ptr v) (u_size v))
    (λ e s', e = OutOfMemoryError "XPU out of memory. Tried to allocate " ∧ owners_kept waiting s') waiting.
Proof. apply (malloc_serves cfg (λ _, true) 0 0 700 7 waiting plain reachable_waiting). lia. Defined.

Lemma get_free_block_best_fit_witness :
  let p := mkParams 0 7 1024 (mkPool None true) 2097152 in
  wp (get_free_block cfg p) (λ r s', heap s' = heap two ∧
    match r with
    | Some i => ∃ b, best_fit (heap two) (p_pool p) (p_queue p) (p_size p) i b
    | None => ∀ i b, ¬ candidate (heap two) (p_pool p) (p_queue p) (p_size p) i b
    end) two.
Proof.
  apply (get_free_block_best_fit cfg (mkParams 0 7 1024 (mkPool None true) 2097152) two plain reachable_two). by eexists.
Defined.

Lemma free_ends_use_witness :
  wp (free 2%positive) (λ _ s', dev s' = dev two ∧ (∀ m, used (heap s') m = if decide (m = 2%positive) then given_up use_2 else used (heap two) m) ∧
    ∀ m, pending m (events_of s') = pending m (events_of two) + if decide (2%positive = m) then Z.of_nat (length (u_streams use_2)) else 0) two.
Proof. exact (free_ends_use cfg 2%positive use_2 two plain reachable_two used_2 eq_refl). Defined.

Lemma process_events_ends_uses_witness :
  wp (process_events (λ _, true)) (λ _ s', xpu_events s' = remaining (λ _, true) (xpu_events waiting) ∧ dev s' = dev waiting ∧
    ∀ k u, used (heap waiting) k = Some u →
      if u_events u =? 0 then used (heap s') k = Some u
      else used (heap s') k = None ↔ k ∉ events_of s') waiting.
Proof. exact (process_events_ends_uses cfg (λ _, true) waiting plain reachable_waiting). Defined.

Lemma emptyCache_returns_idle_segments_witness :
  wp (emptyCache (0, 0)) (λ _ s', events_of s' = [] ∧ owners_kept waiting s' ∧
    ∃ segs, live (dev s') = live device ∪ segs ∧ live device ##ₘ segs ∧ heap_ok segs None (heap s') ∧
      ∀ base n, segs !! base = Some n → ∃ i b, heap s' !! i = Some b ∧ bptr b = base ∧
        ((∀ m, owner_PrivatePool (bpool b) = Some m → m ∈ graph_pools_freeable waiting) →
         ∃ k u, used (heap s') k = Some u ∧ u_allocated u = true ∧ u_pool u = bpool b ∧ base ≤ u_ptr u ∧ u_ptr u + u_size u ≤ base + n)) waiting.
Proof. exact (emptyCache_returns_idle_segments cfg device waiting plain from_waiting eq_refl). Defined.

Lemma synchronize_strands_other_pools_witness :
  wp (synchronize_and_free_events (Some (0, 1));; process_events (λ _, true))
    (λ _ s', xpu_events s' = [] ∧ used (heap s') 2%positive = Some waiting_2) waiting.
Proof.
  apply (synchronize_strands_other_pools cfg (λ _, true) (0, 1) 2%positive waiting_2 waiting); [exact plain|exact reachable_waiting|exact used_waiting_2|done|done].
Defined.
