(* ===== verification/AutogradGraph.v ===== *)
(** * The autograd graph.

    The nodes and edges of torch/csrc/autograd/node.h and edge.h, and the
    construction of a graph with its topological numbers.  A node is referred
    to by an identifier, which stands for its address.  What a node computes
    and the hooks registered with it are fields of the node, as in the code;
    a tensor is an element of [V], and [None] is the undefined tensor. *)

From S2P Require Import Prelude SafeNum.

Definition node_id : Type := positive.

Record Edge := mkEdge { function : option node_id; input_nr : nat }.

#[export] Instance Edge_eq_dec : EqDecision Edge.
Proof. solve_decision. Defined.

Definition is_valid (e : Edge) : bool := bool_decide (is_Some (function e)).

Section Graph.
Context {V : Type}.

Local Abbreviation variable_list := (list (option V)).

Record Node := mkNode {
  sequence_nr : Z;
  topological_nr_ : Z;
  has_parent_ : bool;
  num_inputs : nat;
  next_edges : list Edge;
  tensor_pre_hooks : list (variable_list → result variable_list);
  retains_grad_hooks : list (variable_list → result variable_list);
  pre_hooks : list (variable_list → result variable_list);
  post_hooks : list (variable_list → variable_list → result variable_list);
  apply : variable_list → result variable_list
}.

Local Abbreviation Graph := (gmap node_id Node).

Definition set_topological_nr (x : Z) (n : Node) : Node :=
  mkNode (sequence_nr n) x (has_parent_ n) (num_inputs n) (next_edges n) (tensor_pre_hooks n) (retains_grad_hooks n)
    (pre_hooks n) (post_hooks n) (apply n).
Definition set_has_parent (n : Node) : Node :=
  mkNode (sequence_nr n) (topological_nr_ n) true (num_inputs n) (next_edges n) (tensor_pre_hooks n) (retains_grad_hooks n)
    (pre_hooks n) (post_hooks n) (apply n).
Definition assign_next_edges (l : list Edge) (n : Node) : Node :=
  mkNode (sequence_nr n) (topological_nr_ n) (has_parent_ n) (num_inputs n) l (tensor_pre_hooks n) (retains_grad_hooks n)
    (pre_hooks n) (post_hooks n) (apply n).

(** ** Methods of a node, on the graph it is part of. *)
Definition node_at (i : node_id) : method Graph Node := λ g,
  match g !! i with
  | Some n => (g, Ok n)
  | None => (g, Throw (UndefinedBehaviour "use of a deleted node"))
  end.

Definition update_node (i : node_id) (f : Node → Node) : method Graph unit :=
  n ← node_at i; modify (<[i := f n]>).

(** [topological_nr()]: the number is not allowed to change once it was asked
    for. *)
Definition topological_nr (i : node_id) : method Graph Z :=
  update_node i set_has_parent;; n ← node_at i; mret (topological_nr_ n).

Definition update_topological_nr (i : node_id) (edge : Edge) : method Graph unit :=
  n ← node_at i;
  lift (TORCH_INTERNAL_ASSERT (negb (has_parent_ n)) "Cannot update a node's topological_nr after it already has a parent.");;
  match function edge with
  | None => mret tt
  | Some node =>
      topo_nr ← topological_nr node;
      n ← node_at i;
      if topological_nr_ n <=? topo_nr then update_node i (set_topological_nr (to_u64 (topo_nr + 1))) else mret tt
  end.

Fixpoint update_each (i : node_id) (l : list Edge) : method Graph unit :=
  match l with
  | [] => mret tt
  | e :: r => update_topological_nr i e;; update_each i r
  end.

(** The constructor of a node at the address [i]. *)
Definition new_Node (i : node_id) (seq : Z) (edges : list Edge) (n_inputs : nat) (f : variable_list → result variable_list)
    : method Graph unit :=
  modify (<[i := mkNode seq 0 false n_inputs edges [] [] [] [] f]>);;
  update_each i edges.

Definition set_next_edge (i : node_id) (index : nat) (edge : Edge) : method Graph unit :=
  update_topological_nr i edge;;
  n ← node_at i;
  if decide (index < length (next_edges n))%nat
  then update_node i (assign_next_edges (<[index := edge]> (next_edges n)))
  else lift (Throw (UndefinedBehaviour "next_edges index out of range")).

Definition add_next_edge (i : node_id) (edge : Edge) : method Graph unit :=
  update_topological_nr i edge;;
  update_node i (λ n, assign_next_edges (next_edges n ++ [edge]) n).

Definition set_next_edges (i : node_id) (edges : list Edge) : method Graph unit :=
  update_node i (assign_next_edges edges);;
  update_each i edges.

(** ** Graphs that can be built. *)

(** The functions of the edges exist, and are not the node itself. *)
Definition targets_ok (g : Graph) (i : node_id) (l : list Edge) : Prop :=
  ∀ e c, e ∈ l → function e = Some c → c ≠ i ∧ is_Some (g !! c).

(** The graphs that calls build that return; a method on the edges of a node
    is called with edges to other nodes, and there are less nodes than there
    are addresses. *)
Inductive built : Graph → Prop :=
  | built_empty : built ∅
  | built_new g g' i seq edges n f : built g → g !! i = None → Z.of_nat (S (size g)) < 2 ^ 64 → targets_ok g i edges →
      new_Node i seq edges n f g = (g', Ok tt) → built g'
  | built_set g g' i index e : built g → targets_ok g i [e] → set_next_edge i index e g = (g', Ok tt) → built g'
  | built_add g g' i e : built g → targets_ok g i [e] → add_next_edge i e g = (g', Ok tt) → built g'
  | built_set_all g g' i edges : built g → targets_ok g i edges → set_next_edges i edges g = (g', Ok tt) → built g'.

(** [c] is the function of an edge of [p]. *)
Definition edge (g : Graph) (p c : node_id) : Prop :=
  ∃ n e, g !! p = Some n ∧ e ∈ next_edges n ∧ function e = Some c.

Definition topo (g : Graph) (i : node_id) : Z := match g !! i with Some n => topological_nr_ n | None => 0 end.

(** The graph is acyclic, as the topological numbers show. *)
Record topological (g : Graph) : Prop := {
  topo_nonneg i : 0 ≤ topo g i;
  topo_edge p c : edge g p c → is_Some (g !! c) ∧ topo g c < topo g p
}.

(** Node [c] is used by another and its number is final. *)
Definition final (g : Graph) (c : node_id) : Prop := ∃ n, g !! c = Some n ∧ has_parent_ n = true.

(** [i] may have edges that its topological number does not take account of
    yet: [todo]. *)
Record building (todo : option (node_id * list Edge)) (g : Graph) : Prop := {
  bd_nonneg i : 0 ≤ topo g i;
  bd_edge p c n e : g !! p = Some n → e ∈ next_edges n → function e = Some c →
    (final g c ∧ topo g c < topo g p) ∨ (∃ l, todo = Some (p, l) ∧ e ∈ l);
  bd_chain i : 0 < topo g i → ∃ c, final g c ∧ topo g i = topo g c + 1
}.
End Graph.
Arguments Node : clear implicits.
Abbreviation Graph V := (gmap node_id (Node V)).
Abbreviation variable_list V := (list (option V)).

Section Construction.
Context {V : Type}.
Implicit Types (g : Graph V) (i c p : node_id) (e : Edge).

Lemma topo_insert g i n j : topo (<[i := n]> g) j = if decide (j = i) then topological_nr_ n else topo g j.
Proof. unfold topo. case_decide as E; [by rewrite E, lookup_insert_eq|by rewrite lookup_insert_ne]. Qed.

Lemma chain_length todo g k : building todo g → ∀ i, is_Some (g !! i) → topo g i = Z.of_nat k →
  ∃ l, NoDup l ∧ length l = S k ∧ ∀ j, j ∈ l → is_Some (g !! j) ∧ topo g j ≤ Z.of_nat k.
Proof.
  intros Hb. induction k as [|k IH]; intros i Hi Ek.
  - exists [i]. split; [apply NoDup_singleton|]. split; [done|]. intros j ->%list_elem_of_singleton. split; [done|lia].
  - destruct (bd_chain _ _ Hb i ltac:(lia)) as (c & (n & Hn & _) & Ec).
    destruct (IH c ltac:(by eexists) ltac:(lia)) as (l & H1 & H2 & H3). exists (i :: l). split; [|split; [cbn; lia|]].
    + apply NoDup_cons. split; [|done]. intros Hin. apply H3 in Hin. lia.
    + intros j [-> |Hj]%elem_of_cons; [split; [done|lia]|]. destruct (H3 j Hj). split; [done|lia].
Qed.

(** A topological number is less than the number of nodes. *)
Lemma topo_size todo g i : building todo g → is_Some (g !! i) → topo g i < Z.of_nat (size g).
Proof.
  intros Hb Hi. destruct (chain_length todo g (Z.to_nat (topo g i)) Hb i Hi) as (l & H1 & H2 & H3).
  { pose proof (bd_nonneg _ _ Hb i). lia. }
  assert (list_to_set (C := gset node_id) l ⊆ dom g) as Hsub.
  { intros j Hj%elem_of_list_to_set. apply elem_of_dom. by apply H3. }
  apply subseteq_size in Hsub. rewrite size_list_to_set in Hsub by done. rewrite size_dom in Hsub. lia.
Qed.

Lemma wpx_node_at i (Q : Node V → Graph V → Prop) (E : exn → Graph V → Prop) g : (∀ n, g !! i = Some n → Q n g) → (∀ x, E x g) → wpx (node_at i) Q E g.
Proof. intros HQ HE. unfold wpx, node_at. destruct (g !! i) as [n|] eqn:Hi; auto. Qed.

Lemma wpx_update_node i f (Q : unit → Graph V → Prop) g :
  (∀ n, g !! i = Some n → Q tt (<[i := f n]> g)) → wpx (update_node i f) Q (λ _ _, True) g.
Proof. intros HQ. apply wpx_bind, wpx_node_at; [|done]. intros n Hn. by apply HQ. Qed.

(** What an update of a number does not change. *)
Definition erase (n : Node V) : Node V :=
  mkNode (sequence_nr n) 0 false (num_inputs n) (next_edges n) (tensor_pre_hooks n) (retains_grad_hooks n) (pre_hooks n)
    (post_hooks n) (apply n).

Definition same_edges g g' : Prop := dom g' = dom g ∧ ∀ j, erase <$> g' !! j = erase <$> g !! j.

Lemma same_edges_insert g i n n' : g !! i = Some n → erase n' = erase n → same_edges g (<[i := n']> g).
Proof.
  intros Hi E. split; [apply dom_insert_lookup_L; by eexists|]. intros j. destruct (decide (j = i)) as [->|Hne].
  - rewrite lookup_insert_eq, Hi. cbn. by rewrite E.
  - by rewrite lookup_insert_ne.
Qed.

Lemma same_edges_trans g1 g2 g3 : same_edges g1 g2 → same_edges g2 g3 → same_edges g1 g3.
Proof. intros [A1 A2] [B1 B2]. split; [congruence|]. intros j. by rewrite B2. Qed.

Lemma building_parent todo g c n : building todo g → g !! c = Some n → building todo (<[c := set_has_parent n]> g).
Proof.
  intros [B1 B2 B3] Hc. assert (∀ j, topo (<[c := set_has_parent n]> g) j = topo g j) as Et.
  { intros j. rewrite topo_insert. case_decide as E; [|done]. rewrite E. unfold topo. by rewrite Hc. }
  assert (∀ j, final g j → final (<[c := set_has_parent n]> g) j) as Hf.
  { intros j (m & Hm & Hp). destruct (decide (j = c)) as [->|Hne].
    - exists (set_has_parent n). by rewrite lookup_insert_eq.
    - exists m. by rewrite lookup_insert_ne. }
  split.
  - intros j. by rewrite Et.
  - intros p d m e Hp He Hd. rewrite !Et. assert (∃ m', g !! p = Some m' ∧ next_edges m' = next_edges m) as (m' & Hp' & Em).
    { destruct (decide (p = c)) as [->|Hne]; [rewrite lookup_insert_eq in Hp; injection Hp as <-; by exists n|].
      rewrite lookup_insert_ne in Hp by done. by exists m. }
    rewrite <- Em in He. destruct (B2 p d m' e Hp' He Hd) as [[? ?]|?]; [left; auto|by right].
  - intros j. rewrite Et. intros Hpos. destruct (B3 j Hpos) as (d & Hd & E). exists d. rewrite Et. auto.
Qed.

Lemma building_topo todo g i n x c : building todo g → g !! i = Some n → has_parent_ n = false → final g c →
  topological_nr_ n ≤ topo g c → x = topo g c + 1 → building todo (<[i := set_topological_nr x n]> g).
Proof.
  intros [B1 B2 B3] Hi Hp Hc Hle Hx. assert (topo g i = topological_nr_ n) as Eti by (unfold topo; by rewrite Hi).
  assert (∀ j, final g j → j ≠ i) as Hni by (intros j (m & Hm & Hpm) ->; congruence).
  assert (∀ j, j ≠ i → topo (<[i := set_topological_nr x n]> g) j = topo g j) as Et.
  { intros j Hj. by rewrite topo_insert, decide_False. }
  assert (topo (<[i := set_topological_nr x n]> g) i = x) as Ex by (by rewrite topo_insert, decide_True).
  assert (∀ j, final g j → final (<[i := set_topological_nr x n]> g) j) as Hf.
  { intros j Hj. pose proof (Hni j Hj). destruct Hj as (m & Hm & ?). exists m. by rewrite lookup_insert_ne. }
  pose proof (B1 c) as Bc. split.
  - intros j. destruct (decide (j = i)) as [->|Hne]; [rewrite Ex; lia|by rewrite Et].
  - intros p d m e Hpm He Hd. destruct (decide (p = i)) as [->|Hne].
    + rewrite lookup_insert_eq in Hpm. injection Hpm as <-. destruct (B2 i d n e Hi He Hd) as [[F L]|?]; [left|by right].
      split; [by apply Hf|]. rewrite Ex, Et by (by apply Hni). lia.
    + rewrite lookup_insert_ne in Hpm by done. destruct (B2 p d m e Hpm He Hd) as [[F L]|?]; [left|by right].
      split; [by apply Hf|]. rewrite !Et; [done|done|by apply Hni].
  - intros j Hj. destruct (decide (j = i)) as [->|Hne].
    + exists c. rewrite Ex, (Et c) by (by apply Hni). by split; [apply Hf|].
    + rewrite (Et j Hne) in *. destruct (B3 j Hj) as (d & Hd & E). exists d. rewrite (Et d) by (by apply Hni). by split; [apply Hf|].
Qed.

(** ** [update_topological_nr]. *)
Lemma update_topological_nr_spec todo i e g :
  building todo g → targets_ok g i [e] → Z.of_nat (size g) < 2 ^ 64 →
  wpx (update_topological_nr i e) (λ _ g', building todo g' ∧ same_edges g g' ∧ is_Some (g !! i) ∧
    ∀ c, function e = Some c → final g' c ∧ topo g' c < topo g' i) (λ _ _, True) g.
Proof.
  intros Hb Ht Hsz. apply wpx_bind, wpx_node_at; [|done]. intros n Hi. apply wpx_bind. unfold wpx at 1, lift, TORCH_INTERNAL_ASSERT.
  destruct (negb (has_parent_ n)) eqn:Hp; [|done]. apply negb_true_iff in Hp. destruct (function e) as [c|] eqn:Ee; [|by split].
  destruct (Ht e c ltac:(by left) Ee) as [Hci _]. apply wpx_bind, wpx_bind, wpx_update_node. intros m Hc.
  assert (building todo (<[c := set_has_parent m]> g)) as Hb1 by (by apply building_parent). set (g1 := <[c := set_has_parent m]> g) in *.
  assert (g1 !! c = Some (set_has_parent m)) as Hc1 by apply lookup_insert_eq. assert (g1 !! i = Some n) as Hi1 by (by apply lookup_insert_Some; right).
  assert (same_edges g g1) as Hs1 by (by apply (same_edges_insert g c m)).
  assert (final g1 c) as Hf by (by exists (set_has_parent m)). assert (topo g1 c = topological_nr_ m) as Etc by (unfold topo; by rewrite Hc1).
  apply wpx_bind, wpx_node_at; [|done]. intros m' Hm'. assert (m' = set_has_parent m) as -> by congruence. apply wpx_bind, wpx_node_at; [|done].
  intros n' Hn'. assert (n' = n) as -> by congruence. cbn [topological_nr_ set_has_parent]. destruct (topological_nr_ n <=? topological_nr_ m) eqn:Ele; bool_simpl.
  - assert (to_u64 (topological_nr_ m + 1) = topological_nr_ m + 1) as ->.
    { unfold to_u64. apply Z.mod_small. rewrite <- Etc. pose proof (bd_nonneg _ _ Hb1 c).
      pose proof (topo_size todo g1 c Hb1 ltac:(by eexists)) as Hlt. destruct Hs1 as [Hd _]. rewrite <- size_dom, Hd, size_dom in Hlt. lia. }
    apply wpx_update_node. intros n' Hn2. assert (n' = n) as -> by congruence.
    assert (building todo (<[i := set_topological_nr (topological_nr_ m + 1) n]> g1)) as Hb2.
    { apply (building_topo todo g1 i n _ c); try done; [by rewrite Etc|by rewrite Etc]. }
    split; [done|]. split; [by eapply same_edges_trans; [exact Hs1|apply (same_edges_insert g1 i n)]|]. split; [by eexists|].
    intros c' [= <-]. split; [destruct Hf as (x & Hx & ?); exists x; by rewrite lookup_insert_ne|].
    rewrite !topo_insert, decide_False, decide_True by done. cbn. lia.
  - split; [done|]. split; [done|]. split; [by eexists|]. intros c' [= <-]. split; [done|]. unfold topo at 2. rewrite Hi1. lia.
Qed.

Lemma building_next g i e r : building (Some (i, e :: r)) g → (∀ c, function e = Some c → final g c ∧ topo g c < topo g i) →
  building (Some (i, r)) g.
Proof.
  intros [B1 B2 B3] He. split; [done| |done]. intros p c n e' Hp Hin Hc.
  destruct (B2 p c n e' Hp Hin Hc) as [?|(l & [= <- <-] & [-> |Hr]%elem_of_cons)]; [by left|left; by apply He|].
  right. by exists r.
Qed.

Lemma update_each_spec i l g : building (Some (i, l)) g → targets_ok g i l → Z.of_nat (size g) < 2 ^ 64 →
  wpx (update_each i l) (λ _ g', building None g' ∧ same_edges g g') (λ _ _, True) g.
Proof.
  revert g. induction l as [|e r IH]; intros g Hb Ht Hsz; cbn [update_each].
  - split; [|done]. destruct Hb as [B1 B2 B3]. split; [done| |done]. intros p c n e Hp Hin Hc.
    destruct (B2 p c n e Hp Hin Hc) as [?|(l & [= <- <-] & Hl)]; [by left|]. by apply not_elem_of_nil in Hl.
  - apply wpx_bind. eapply wpx_mono; [apply (update_topological_nr_spec _ i e g Hb); [|done]| |done].
    { intros e' c ->%list_elem_of_singleton. apply Ht. by left. }
    cbv beta. intros [] g1 (Hb1 & Hs1 & _ & He). eapply wpx_mono; [apply IH| |done].
    + by apply (building_next g1 i e).
    + intros e' c Hin Hc. destruct (Ht e' c ltac:(by right) Hc) as [? Hex]. split; [done|].
      apply elem_of_dom. destruct Hs1 as [-> _]. by apply elem_of_dom.
    + destruct Hs1 as [Hd _]. by rewrite <- size_dom, Hd, size_dom.
    + cbv beta. intros [] g2 [Hb2 Hs2]. split; [done|]. by eapply same_edges_trans.
Qed.

(** Replacing the edges of a node leaves the new ones to be taken account
    of. *)
Lemma building_assign g i n l : building None g → g !! i = Some n → building (Some (i, l)) (<[i := assign_next_edges l n]> g).
Proof.
  intros [B1 B2 B3] Hi. assert (∀ j, topo (<[i := assign_next_edges l n]> g) j = topo g j) as Et.
  { intros j. rewrite topo_insert. case_decide as E; [|done]. rewrite E. unfold topo. by rewrite Hi. }
  assert (∀ j, final g j → final (<[i := assign_next_edges l n]> g) j) as Hf.
  { intros j (m & Hm & Hp). destruct (decide (j = i)) as [->|Hne].
    - exists (assign_next_edges l n). rewrite lookup_insert_eq. assert (m = n) as -> by congruence. done.
    - exists m. by rewrite lookup_insert_ne. }
  split.
  - intros j. by rewrite Et.
  - intros p c m e Hp He Hc. rewrite !Et. destruct (decide (p = i)) as [->|Hne].
    + rewrite lookup_insert_eq in Hp. injection Hp as <-. right. by exists l.
    + rewrite lookup_insert_ne in Hp by done. destruct (B2 p c m e Hp He Hc) as [[? ?]|(? & ? & _)]; [left; auto|done].
  - intros j. rewrite Et. intros Hpos. destruct (B3 j Hpos) as (d & Hd & E). exists d. rewrite Et. auto.
Qed.

(** Replacing the edges of a node by old ones and one that its number takes
    account of. *)
Lemma building_single g i n l e : building None g → g !! i = Some n → (∀ e', e' ∈ l → e' = e ∨ e' ∈ next_edges n) →
  (∀ c, function e = Some c → final g c ∧ topo g c < topo g i) → building None (<[i := assign_next_edges l n]> g).
Proof.
  intros Hb Hi Hl He. pose proof (building_assign g i n l Hb Hi) as [A1 A2 A3]. split; [done| |done].
  assert (∀ j, topo (<[i := assign_next_edges l n]> g) j = topo g j) as Et.
  { intros j. rewrite topo_insert. case_decide as E; [|done]. rewrite E. unfold topo. by rewrite Hi. }
  assert (∀ j, final g j → final (<[i := assign_next_edges l n]> g) j) as Hf.
  { intros j (m & Hm & Hp). destruct (decide (j = i)) as [->|Hne].
    - exists (assign_next_edges l n). rewrite lookup_insert_eq. assert (m = n) as -> by congruence. done.
    - exists m. by rewrite lookup_insert_ne. }
  intros p c m e' Hp Hin Hc. destruct (A2 p c m e' Hp Hin Hc) as [?|(l' & [= <- <-] & Hl')]; [by left|left].
  rewrite !Et. destruct (Hl e' Hl') as [-> |Hold].
  - destruct (He c Hc). split; [by apply Hf|done].
  - destruct (bd_edge _ _ Hb i c n e' Hi Hold Hc) as [[? ?]|(? & ? & _)]; [split; [by apply Hf|done]|done].
Qed.

Lemma building_new g i n l : building None g → g !! i = None → topological_nr_ n = 0 → next_edges n = l →
  building (Some (i, l)) (<[i := n]> g).
Proof.
  intros [B1 B2 B3] Hi Hn El. assert (∀ j, topo (<[i := n]> g) j = topo g j) as Et.
  { intros j. rewrite topo_insert. case_decide as E; [|done]. rewrite E, Hn. unfold topo. by rewrite Hi. }
  assert (∀ j, final g j → final (<[i := n]> g) j) as Hf.
  { intros j (m & Hm & Hp). exists m. rewrite lookup_insert_ne by congruence. done. }
  split.
  - intros j. by rewrite Et.
  - intros p c m e Hp He Hc. rewrite !Et. destruct (decide (p = i)) as [->|Hne].
    + rewrite lookup_insert_eq in Hp. injection Hp as <-. right. exists l. by rewrite El in He.
    + rewrite lookup_insert_ne in Hp by done. destruct (B2 p c m e Hp He Hc) as [[? ?]|(? & ? & _)]; [left; auto|done].
  - intros j. rewrite Et. intros Hpos. destruct (B3 j Hpos) as (d & Hd & E). exists d. rewrite Et. auto.
Qed.

Lemma built_building g : built g → building None g ∧ Z.of_nat (size g) < 2 ^ 64.
Proof.
  induction 1 as [|g g' i seq edges n f _ [IHb IHs] Hi Hsz Ht E|g g' i index e _ [IHb IHs] Ht E|g g' i e _ [IHb IHs] Ht E|g g' i edges _ [IHb IHs] Ht E].
  - split; [|done]. split; [done|done|]. intros i. by unfold topo.
  - assert (targets_ok (<[i := mkNode seq 0 false n edges [] [] [] [] f]> g) i edges) as Ht'.
    { intros e c He Hc. destruct (Ht e c He Hc). split; [done|]. by rewrite lookup_insert_ne. }
    pose proof (update_each_spec i edges _ (building_new g i (mkNode seq 0 false n edges [] [] [] [] f) edges IHb Hi eq_refl eq_refl) Ht') as Hw.
    rewrite map_size_insert_None in Hw by done. specialize (Hw Hsz). unfold wpx in Hw. change (update_each i edges (<[i := mkNode seq 0 false n edges [] [] [] [] f]> g) = (g', Ok tt)) in E. rewrite E in Hw.
    destruct Hw as [Hb [Hd _]]. split; [done|]. by rewrite <- size_dom, Hd, size_dom, map_size_insert_None.
  - pose proof (update_topological_nr_spec None i e g IHb Ht IHs) as Hw. unfold set_next_edge in E.
    apply method_bind_Ok in E as (g1 & [] & E1 & E2). unfold wpx in Hw. rewrite E1 in Hw. destruct Hw as (Hb1 & [Hd _] & _ & He).
    unfold mbind, method_bind, node_at in E2. destruct (g1 !! i) as [n|] eqn:Hi; [|done]. case_decide; [|done].
    unfold update_node, mbind, method_bind, node_at in E2. rewrite Hi in E2. injection E2 as <-. split.
    + apply (building_single g1 i n _ e); try done. intros e' [k Hk]%list_elem_of_lookup.
      apply list_lookup_insert_Some in Hk as [(_ & <- & _)|[_ Hk]]; [by left|right; by eapply list_elem_of_lookup_2].
    + rewrite map_size_insert_Some by (by eexists). by rewrite <- size_dom, Hd, size_dom.
  - pose proof (update_topological_nr_spec None i e g IHb Ht IHs) as Hw. unfold add_next_edge in E.
    apply method_bind_Ok in E as (g1 & [] & E1 & E2). unfold wpx in Hw. rewrite E1 in Hw. destruct Hw as (Hb1 & [Hd _] & _ & He).
    unfold update_node, mbind, method_bind, node_at in E2. destruct (g1 !! i) as [n|] eqn:Hi; [|done]. injection E2 as <-. split.
    + apply (building_single g1 i n _ e); try done. intros e' [?|He'%list_elem_of_singleton]%elem_of_app; auto.
    + rewrite map_size_insert_Some by (by eexists). by rewrite <- size_dom, Hd, size_dom.
  - unfold set_next_edges in E. apply method_bind_Ok in E as (g1 & [] & E1 & E2). unfold update_node, mbind, method_bind, node_at in E1.
    destruct (g !! i) as [n|] eqn:Hi; [|done]. injection E1 as <-.
    assert (targets_ok (<[i := assign_next_edges edges n]> g) i edges) as Ht'.
    { intros e c He Hc. destruct (Ht e c He Hc). split; [done|]. by rewrite lookup_insert_ne. }
    pose proof (update_each_spec i edges _ (building_assign g i n edges IHb Hi) Ht') as Hw.
    rewrite map_size_insert_Some in Hw by (by eexists). specialize (Hw IHs). unfold wpx in Hw. rewrite E2 in Hw. destruct Hw as [Hb [Hd _]].
    split; [done|]. by rewrite <- size_dom, Hd, size_dom, map_size_insert_Some by (by eexists).
Qed.

Lemma built_topological_graph g : built g → topological g.
Proof.
  intros [[B1 B2 B3] _]%built_building. split; [done|]. intros p c (n & e & Hp & He & Hc).
  destruct (B2 p c n e Hp He Hc) as [[(m & Hm & _) ?]|(? & ? & _)]; [|done]. split; [by eexists|done].
Qed.

Lemma topological_path g x y : topological g → tc (edge g) x y → topo g y < topo g x.
Proof.
  intros Hg. induction 1 as [x y Hxy|x y z Hxy _ IH]; [by apply Hg|]. pose proof (proj2 (topo_edge _ Hg x y Hxy)). lia.
Qed.

(** The topological numbers are right: in every graph that the
    constructor of [Node] and the methods on its edges build, a path from a
    node to another leads to a smaller number, so that the graph has no cycle.
    The number does not wrap around. *)
Theorem built_paths_decrease g x y : built g → tc (edge g) x y → 0 ≤ topo g y < topo g x ∧ topo g x < 2 ^ 64.
Proof.
  intros Hb Hp. pose proof (built_topological_graph g Hb) as Ht. destruct (built_building g Hb) as [Hbd Hs].
  pose proof (topological_path g x y Ht Hp). pose proof (topo_nonneg _ Ht y). split; [lia|].
  assert (is_Some (g !! x)) as Hx by (unfold topo in *; destruct (g !! x); [by eexists|lia]).
  pose proof (topo_size None g x Hbd Hx). lia.
Qed.
End Construction.
