(* ===== verification/AutogradPlan.v ===== *)
(** * The plan of a backward pass.

    What torch/csrc/autograd/engine.cpp computes before it runs a graph: the
    number of dependencies of each function ([compute_dependencies]) and which
    functions have to run ([init_to_execute]). *)

From S2P Require Import Prelude SafeNum AutogradGraph.

(** [GraphTask::ExecInfo]; a capture is a pair of an input index and an output
    index. *)
Record ExecInfo := mkExecInfo { needed_ : bool; captures_ : option (list (nat * nat)) }.

Definition should_execute (i : ExecInfo) : bool := needed_ i || bool_decide (is_Some (captures_ i)).
Definition new_ExecInfo : ExecInfo := mkExecInfo false None.

Definition nodeShouldExecute (exec_info_ : gmap node_id ExecInfo) (fn : node_id) : bool :=
  match exec_info_ !! fn with Some i => should_execute i | None => false end.

(** [exec_info_[fn]], which is created if it is not there. *)
Definition info_at (exec_info_ : gmap node_id ExecInfo) (fn : node_id) : ExecInfo :=
  default new_ExecInfo (exec_info_ !! fn).

(** [exec_info_[fn].needed_ = true]. *)
Definition set_needed (fn : node_id) (exec_info_ : gmap node_id ExecInfo) : gmap node_id ExecInfo :=
  <[fn := mkExecInfo true (captures_ (info_at exec_info_ fn))]> exec_info_.

Section Plan.
Context {V : Type} (g : Graph V).

Definition node (i : node_id) : result (Node V) :=
  match g !! i with Some n => Ok n | None => Throw (UndefinedBehaviour "use of a deleted node") end.

(** The function of an edge that is used without a test. *)
Definition edge_node (e : Edge) : result node_id :=
  match function e with Some f => Ok f | None => Throw (UndefinedBehaviour "use of a null node") end.

Fixpoint min_topological_nr (min_topo_nr : Z) (outputs : list Edge) : result Z :=
  match outputs with
  | [] => Ok min_topo_nr
  | output_edge :: r =>
      f ← edge_node output_edge;
      n ← node f;
      min_topological_nr (if min_topo_nr <? topological_nr_ n then min_topo_nr else topological_nr_ n) r
  end.

Definition compute_min_topological_nr (outputs : list Edge) : result Z :=
  match outputs with [] => Ok 0 | _ => min_topological_nr (2 ^ 64 - 1) outputs end.

(** ** [compute_dependencies].  The stack [queue] has its top at the front. *)
Definition Dependencies : Type := gmap node_id Z * gset node_id * list node_id.

Fixpoint count_edges (edges : list Edge) (st : Dependencies) : Dependencies :=
  match edges with
  | [] => st
  | e :: r =>
      let '(dependencies, nodes_in_graph_, queue) := st in
      match function e with
      | None => count_edges r st
      | Some next_ptr =>
          let dependencies := <[next_ptr := default 0 (dependencies !! next_ptr) + 1]> dependencies in
          let queue := if decide (next_ptr ∈ nodes_in_graph_) then queue else next_ptr :: queue in
          count_edges r (dependencies, {[next_ptr]} ∪ nodes_in_graph_, queue)
      end
  end.

(** [fuel] bounds the number of nodes taken from the stack. *)
Fixpoint dependencies_loop (fuel : nat) (min_topo_nr : Z) (st : Dependencies) : result (gmap node_id Z * gset node_id) :=
  let '(dependencies, nodes_in_graph_, queue) := st in
  match queue with
  | [] => Ok (dependencies, nodes_in_graph_)
  | fn :: queue =>
      match fuel with
      | O => Throw (InternalAssert "fuel")
      | S fuel =>
          n ← node fn;
          if topological_nr_ n <? min_topo_nr then dependencies_loop fuel min_topo_nr (dependencies, nodes_in_graph_, queue)
          else dependencies_loop fuel min_topo_nr (count_edges (next_edges n) (dependencies, nodes_in_graph_, queue))
      end
  end.

Definition compute_dependencies (root : node_id) (min_topo_nr : Z) : result (gmap node_id Z * gset node_id) :=
  dependencies_loop (S (size g)) min_topo_nr (∅, ∅, [root]).

(** ** [init_to_execute]. *)
Fixpoint init_outputs (accumulate_grad : bool) (outputs : list Edge) (output_idx : nat) (exec_info_ : gmap node_id ExecInfo)
    : result (gmap node_id ExecInfo * nat) :=
  match outputs with
  | [] => Ok (exec_info_, output_idx)
  | output_edge :: r =>
      output ← edge_node output_edge;
      if (accumulate_grad : bool) then init_outputs accumulate_grad r output_idx (set_needed output exec_info_)
      else
        let info := info_at exec_info_ output in
        let captures := default [] (captures_ info) ++ [(input_nr output_edge, output_idx)] in
        init_outputs accumulate_grad r (S output_idx) (<[output := mkExecInfo (needed_ info) (Some captures)]> exec_info_)
  end.

(** The inner loop of the search on the frame of [fn]: skips the children that
    were seen, and returns the first that was not, and the edges after it. *)
Fixpoint next_unseen (fn : node_id) (rest : list Edge) (seen : gset node_id) (exec_info_ : gmap node_id ExecInfo)
    : option node_id * list Edge * gset node_id * gmap node_id ExecInfo :=
  match rest with
  | [] => (None, [], seen, exec_info_)
  | e :: rest =>
      match function e with
      | None => next_unseen fn rest seen exec_info_
      | Some child =>
          if decide (child ∈ seen) then
            next_unseen fn rest seen (if nodeShouldExecute exec_info_ child then set_needed fn exec_info_ else exec_info_)
          else (Some child, rest, {[child]} ∪ seen, exec_info_)
      end
  end.

(** A frame is a node and the edges not yet looked at.  [fuel] bounds the
    iterations of the outer loop: each sees a child for the first time or
    removes a frame. *)
Fixpoint search (fuel : nat) (min_topo_nr : Z) (stack : list (node_id * list Edge)) (seen : gset node_id)
    (exec_info_ : gmap node_id ExecInfo) : result (gmap node_id ExecInfo) :=
  match stack with
  | [] => Ok exec_info_
  | (fn, rest) :: below =>
      match fuel with
      | O => Throw (InternalAssert "fuel")
      | S fuel =>
          match next_unseen fn rest seen exec_info_ with
          | (Some child_fn, rest, seen, exec_info_) =>
              n ← node child_fn;
              if topological_nr_ n <? min_topo_nr then search fuel min_topo_nr ((fn, rest) :: below) seen exec_info_
              else search fuel min_topo_nr ((child_fn, next_edges n) :: (fn, rest) :: below) seen exec_info_
          | (None, _, seen, exec_info_) =>
              let exec_info_ :=
                match below with
                | (parent, _) :: _ => if nodeShouldExecute exec_info_ fn then set_needed parent exec_info_ else exec_info_
                | [] => exec_info_
                end in
              search fuel min_topo_nr below seen exec_info_
          end
      end
  end.

(** [exec_info_] and the size of [captured_vars_]. *)
Definition init_to_execute (graph_root : node_id) (outputs : list Edge) (accumulate_grad : bool) (min_topo_nr : Z)
    : result (gmap node_id ExecInfo * nat) :=
  '(exec_info_, output_idx) ← init_outputs accumulate_grad outputs 0 ∅;
  n ← node graph_root;
  let exec_info_ := if decide (is_Some (exec_info_ !! graph_root)) then exec_info_ else <[graph_root := new_ExecInfo]> exec_info_ in
  exec_info_ ← search (2 * size g + 2) min_topo_nr [(graph_root, next_edges n)] ∅ exec_info_;
  Ok (exec_info_, output_idx).
End Plan.

(** ** The edges of a graph. *)
Section Counting.
Context {V : Type} (g : Graph V) (Hg : topological g).
Implicit Types (c p x root : node_id) (l : list Edge).

Definition out_edges p : list Edge := match g !! p with Some n => next_edges n | None => [] end.

(** The number of edges to [c]. *)
Definition cnt c l : Z := Z.of_nat (length (filter (λ e, function e = Some c) l)).

Lemma cnt_app c l1 l2 : cnt c (l1 ++ l2) = cnt c l1 + cnt c l2.
Proof. unfold cnt. rewrite filter_app, length_app. lia. Qed.

Lemma cnt_cons c e l : cnt c (e :: l) = (if decide (function e = Some c) then 1 else 0) + cnt c l.
Proof. unfold cnt. rewrite filter_cons. case_decide; cbn; lia. Qed.

Lemma cnt_nonneg c l : 0 ≤ cnt c l.
Proof. unfold cnt. lia. Qed.

Lemma cnt_pos c l : 0 < cnt c l ↔ ∃ e, e ∈ l ∧ function e = Some c.
Proof.
  unfold cnt. split.
  - intros Hp. destruct (filter (λ e, function e = Some c) l) as [|e r] eqn:E; [cbn in Hp; lia|].
    exists e. rewrite <- (and_comm _ (e ∈ l)). apply (list_elem_of_filter (λ e, function e = Some c)). rewrite E. by left.
  - intros (e & He & Hc). assert (e ∈ filter (λ e, function e = Some c) l) as Hin by (by apply list_elem_of_filter).
    destruct (filter _ l); [by apply not_elem_of_nil in Hin|cbn; lia].
Qed.

Lemma cnt_perm c l1 l2 : l1 ≡ₚ l2 → cnt c l1 = cnt c l2.
Proof. intros Hp. unfold cnt. by rewrite Hp. Qed.

Lemma edge_out p c : edge g p c ↔ ∃ e, e ∈ out_edges p ∧ function e = Some c.
Proof.
  unfold edge, out_edges. destruct (g !! p) as [n|]; [naive_solver|]. split; [by intros (? & ? & ? & _)|].
  by intros (e & He%not_elem_of_nil & _).
Qed.

(** All edges of the nodes [ps]. *)
Definition edges_from (ps : list node_id) : list Edge := concat (out_edges <$> ps).

Lemma edges_from_app ps qs : edges_from (ps ++ qs) = edges_from ps ++ edges_from qs.
Proof. unfold edges_from. by rewrite fmap_app, concat_app. Qed.

Lemma edges_from_pos c ps : 0 < cnt c (edges_from ps) ↔ ∃ p, p ∈ ps ∧ edge g p c.
Proof.
  rewrite cnt_pos. unfold edges_from. setoid_rewrite edge_out. split.
  - intros (e & He & Hc). apply elem_of_concat in He as (l & He & Hl). apply list_elem_of_fmap in Hl as (p & -> & Hp). eauto.
  - intros (p & Hp & e & He & Hc). exists e. split; [|done]. apply elem_of_concat. exists (out_edges p). split; [done|].
    apply list_elem_of_fmap. eauto.
Qed.

(** The dependencies that the edges [l] give. *)
Definition deps_of l (d : gmap node_id Z) : Prop := ∀ c, d !! c = if cnt c l =? 0 then None else Some (cnt c l).

Lemma deps_of_insert l d e c : deps_of l d → function e = Some c → deps_of (l ++ [e]) (<[c := default 0 (d !! c) + 1]> d).
Proof.
  intros Hd Hc x. rewrite cnt_app, cnt_cons. change (cnt x []) with 0. pose proof (cnt_nonneg x l).
  destruct (decide (x = c)) as [->|Hne].
  - rewrite lookup_insert_eq, decide_True by done. rewrite (Hd c). destruct (cnt c l =? 0) eqn:E; bool_simpl; cbn.
    + by rewrite E.
    + destruct (cnt c l + (1 + 0) =? 0) eqn:E2; bool_simpl; [lia|]. f_equal; lia.
  - rewrite lookup_insert_ne by done. rewrite decide_False by congruence. rewrite (Hd x). by rewrite Z.add_0_r.
Qed.

Lemma count_edges_spec edges l d N q : deps_of l d →
  let '(d', N', q') := count_edges edges (d, N, q) in
  deps_of (l ++ edges) d' ∧ (∀ c, c ∈ N' ↔ c ∈ N ∨ ∃ e, e ∈ edges ∧ function e = Some c) ∧
  ∃ new, q' = new ++ q ∧ NoDup new ∧ ∀ c, c ∈ new ↔ c ∈ N' ∧ c ∉ N.
Proof.
  revert l d N q. induction edges as [|e r IH]; intros l d N q Hd; cbn [count_edges].
  - rewrite app_nil_r. split; [done|]. split.
    + intros c. split; [by left|]. intros [?|(e & He%not_elem_of_nil & _)]; done.
    + exists []. split; [done|]. split; [constructor|]. intros c. split; [by intros ?%not_elem_of_nil|tauto].
  - destruct (function e) as [c|] eqn:Ec.
    + specialize (IH (l ++ [e]) _ ({[c]} ∪ N) (if decide (c ∈ N) then q else c :: q) (deps_of_insert l d e c Hd Ec)).
      destruct (count_edges r _) as [[d' N'] q']. destruct IH as (I1 & I2 & new & -> & I3 & I4). rewrite <- app_assoc in I1. split; [done|].
      assert (∀ x, x ∈ N' ↔ x ∈ N ∨ ∃ e', e' ∈ e :: r ∧ function e' = Some x) as I2'.
      { intros x. rewrite I2, elem_of_union, elem_of_singleton. split.
        - intros [[-> |?]|(e' & He & Hx)]; [right; exists e; split; [by left|done]|by left|right; exists e'; split; [by right|done]].
        - intros [?|(e' & [-> |He]%elem_of_cons & Hx)]; [tauto|left; left; congruence|right; eauto]. }
      split; [done|]. case_decide as Hin.
      * exists new. split; [done|]. split; [done|]. intros x. rewrite I4, not_elem_of_union, not_elem_of_singleton. split; [tauto|].
        intros [? Hx]. split; [done|]. split; [by intros -> |done].
      * exists (new ++ [c]). rewrite <- app_assoc. split; [done|]. split.
        -- apply NoDup_app. split; [done|]. split; [|apply NoDup_singleton]. intros x Hx%I4 ->%list_elem_of_singleton. set_solver.
        -- intros x. rewrite elem_of_app, list_elem_of_singleton, I4, I2', not_elem_of_union, not_elem_of_singleton. split.
           ++ intros [(? & ? & ?)| ->]; [tauto|]. split; [|done]. right. exists e. split; [by left|done].
           ++ intros [? ?]. destruct (decide (x = c)) as [->|]; [by right|by left].
    + specialize (IH l d N q Hd). destruct (count_edges r (d, N, q)) as [[d' N'] q']. destruct IH as (I1 & I2 & I3). split; [|split; [|done]].
      * intros c. rewrite (I1 c). by rewrite !cnt_app, cnt_cons, Ec, decide_False by done.
      * intros c. rewrite I2. split; (intros [?|(e' & He & Hc)]; [by left|right; exists e'; split; [|done]]).
        -- by right.
        -- apply elem_of_cons in He as [->|?]; [congruence|done].
Qed.

(** ** [compute_dependencies]. *)
Lemma NoDup_size (l : list node_id) : NoDup l → (∀ x, x ∈ l → is_Some (g !! x)) → (length l ≤ size g)%nat.
Proof.
  intros Hn Hl. rewrite <- size_dom, <- (size_list_to_set (C := gset node_id) l Hn). apply subseteq_size.
  intros x Hx%elem_of_list_to_set. apply elem_of_dom. auto.
Qed.

(** [ps] are the nodes from which gradients flow: they are reached from the
    root, and those that are not in [ps] have too small a number. *)
Record planned root (min : Z) (ps : list node_id) (d : gmap node_id Z) (N : gset node_id) : Prop := {
  pl_NoDup : NoDup ps;
  pl_nodes p : p ∈ ps ↔ (p = root ∨ p ∈ N) ∧ min ≤ topo g p;
  pl_deps : deps_of (edges_from ps) d;
  pl_graph c : c ∈ N ↔ ∃ p, p ∈ ps ∧ edge g p c;
  pl_below c : c ∈ N → topo g c < topo g root
}.

(** The nodes in the stack, those expanded and those pruned. *)
Record exploring root (min : Z) (ps zs q : list node_id) (d : gmap node_id Z) (N : gset node_id) : Prop := {
  ex_NoDup : NoDup (q ++ zs ++ ps);
  ex_nodes p : p ∈ q ++ zs ++ ps ↔ p = root ∨ p ∈ N;
  ex_kept p : p ∈ ps → min ≤ topo g p;
  ex_pruned p : p ∈ zs → topo g p < min;
  ex_deps : deps_of (edges_from ps) d;
  ex_graph c : c ∈ N ↔ ∃ p, p ∈ ps ∧ edge g p c;
  ex_below c : c ∈ N → topo g c < topo g root
}.

Lemma exploring_exists root min ps zs q d N x : exploring root min ps zs q d N → is_Some (g !! root) →
  x ∈ q ++ zs ++ ps → is_Some (g !! x).
Proof.
  intros He Hr Hx. apply (ex_nodes _ _ _ _ _ _ _ He) in Hx as [-> |Hx]; [done|].
  apply (ex_graph _ _ _ _ _ _ _ He) in Hx as (p & _ & Hp). by apply (topo_edge _ Hg) in Hp as [? _].
Qed.

Lemma dependencies_loop_spec fuel root min ps zs q d N :
  exploring root min ps zs q d N → is_Some (g !! root) → (size g < fuel + length (zs ++ ps))%nat →
  ∃ ps' d' N', dependencies_loop g fuel min (d, N, q) = Ok (d', N') ∧ planned root min ps' d' N'.
Proof.
  intros He Hr. revert ps zs q d N He. induction fuel as [|fuel IH]; intros ps zs q d N He Hf.
  all: pose proof (NoDup_size _ (ex_NoDup _ _ _ _ _ _ _ He) (λ x, exploring_exists _ _ _ _ _ _ _ x He Hr)) as Hlen.
  all: destruct q as [|fn q]; cbn [dependencies_loop].
  1,3: exists ps, d, N; split; [done|]; destruct He as [E1 E2 E3 E4 E5 E6 E7]; cbn in E1; split; try done;
    [by apply NoDup_app in E1 as (_ & _ & ?)|intros p; rewrite <- E2; cbn; rewrite elem_of_app; split; [intros Hp; split; [by right|by apply E3]|
     intros [[Hz|?] Hle]; [apply E4 in Hz; lia|done]]].
  { rewrite length_app in Hlen. cbn in Hlen. lia. }
  destruct (exploring_exists _ _ _ _ _ _ _ fn He Hr ltac:(by left)) as [n Hn]. unfold node. rewrite Hn. cbn [mbind result_bind].
  assert (topo g fn = topological_nr_ n) as Et by (unfold topo; by rewrite Hn). rewrite <- Et.
  destruct He as [E1 E2 E3 E4 E5 E6 E7]. destruct (topo g fn <? min) eqn:Hlt; bool_simpl.
  - apply (IH ps (fn :: zs)); [|rewrite length_app in *; cbn in *; lia]. split; try done.
    + change (NoDup (q ++ fn :: (zs ++ ps))). rewrite <- Permutation_middle. exact E1.
    + intros p. rewrite <- E2. set_solver.
    + intros p [-> |Hp]%elem_of_cons; [done|auto].
  - pose proof (count_edges_spec (next_edges n) (edges_from ps) d N q E5) as Hcount.
    destruct (count_edges (next_edges n) (d, N, q)) as [[d' N'] q']. destruct Hcount as (I1 & I2 & new & -> & I3 & I4).
    assert (out_edges fn = next_edges n) as Eo by (unfold out_edges; by rewrite Hn).
    assert (∀ c, c ∈ N' ↔ c ∈ N ∨ edge g fn c) as I2' by (intros c; by rewrite I2, edge_out, Eo).
    assert (∀ c, c ∈ N' → topo g c < topo g root) as E7'.
    { intros c [?|Hc]%I2'; [by apply E7|]. apply (topo_edge _ Hg) in Hc as [_ Hc].
      destruct (proj1 (E2 fn) ltac:(by left)) as [-> |Hfn]; [done|]. apply E7 in Hfn. lia. }
    assert (∀ c, c ∈ new → c ∉ fn :: q ++ zs ++ ps) as Hnew.
    { intros c Hc%I4 Hin. destruct Hc as [Hc1 Hc2]. destruct (proj1 (E2 c) Hin) as [-> |?]; [|done]. apply E7' in Hc1. lia. }
    apply (IH (ps ++ [fn]) zs); [|rewrite !length_app in *; cbn in *; lia]. split; try done.
    + assert ((new ++ q) ++ zs ++ ps ++ [fn] ≡ₚ new ++ (fn :: q) ++ zs ++ ps) as -> by solve_Permutation.
      apply NoDup_app. split; [done|]. split; [|done]. intros x Hx. by apply Hnew.
    + intros p. assert (p ∈ (new ++ q) ++ zs ++ ps ++ [fn] ↔ p ∈ new ∨ p ∈ (fn :: q) ++ zs ++ ps) as -> by set_solver.
      rewrite E2, I4. destruct (decide (p ∈ N)) as [Hp|Hp]; [|tauto]. assert (p ∈ N') by (apply I2'; by left). tauto.
    + intros p [?| ->%list_elem_of_singleton]%elem_of_app; [auto|lia].
    + rewrite edges_from_app. unfold edges_from at 2. cbn. by rewrite app_nil_r, Eo.
    + intros c. rewrite I2', E6. split.
      * intros [(p & Hp & Hc)|Hc]; [exists p|exists fn]; split; try done; apply elem_of_app; [by left|right; by left].
      * intros (p & [Hp| ->%list_elem_of_singleton]%elem_of_app & Hc); [left; eauto|by right].
Qed.

Lemma compute_dependencies_spec root min : is_Some (g !! root) →
  ∃ ps d N, compute_dependencies g root min = Ok (d, N) ∧ planned root min ps d N.
Proof.
  intros Hr. apply (dependencies_loop_spec (S (size g)) root min [] [] [root] ∅ ∅); [|done|cbn; lia]. split; cbn.
  - apply NoDup_singleton.
  - intros p. rewrite list_elem_of_singleton. set_solver.
  - by intros p ?%not_elem_of_nil.
  - by intros p ?%not_elem_of_nil.
  - intros c. by rewrite lookup_empty.
  - intros c. split; [set_solver|]. by intros (p & ?%not_elem_of_nil & _).
  - set_solver.
Qed.
End Counting.
