(* ===== verification/AutogradSearch.v ===== *)
(** * The plan of a backward pass: which functions run.

    The search of [init_to_execute] marks exactly the functions that have a
    path to an output. *)

From S2P Require Import Prelude SafeNum AutogradGraph AutogradPlan.

(** ** [exec_info_]. *)
Section ExecInfo.
Implicit Types (info : gmap node_id ExecInfo) (x fn : node_id).

Definition needed info x : bool := needed_ (info_at info x).

(** The second has all that the first has, but for marks. *)
Record marks info info' : Prop := {
  mk_captures x : captures_ (info_at info' x) = captures_ (info_at info x);
  mk_needed x : needed info x = true → needed info' x = true;
  mk_entries x : is_Some (info !! x) → is_Some (info' !! x)
}.

Lemma marks_refl info : marks info info.
Proof. by split. Qed.

Lemma marks_trans i1 i2 i3 : marks i1 i2 → marks i2 i3 → marks i1 i3.
Proof. intros [A1 A2 A3] [B1 B2 B3]. split; [intros x; by rewrite B1|auto|auto]. Qed.

Lemma info_set_needed info fn x :
  info_at (set_needed fn info) x = if decide (x = fn) then mkExecInfo true (captures_ (info_at info fn)) else info_at info x.
Proof.
  unfold info_at at 1, set_needed. case_decide as E; [by rewrite E, lookup_insert_eq|]. by rewrite lookup_insert_ne.
Qed.

Lemma needed_set_needed info fn x : needed (set_needed fn info) x = bool_decide (x = fn) || needed info x.
Proof. unfold needed. rewrite info_set_needed. case_decide; [by rewrite bool_decide_true|by rewrite bool_decide_false]. Qed.

Lemma marks_set_needed info fn : marks info (set_needed fn info).
Proof.
  split.
  - intros x. rewrite info_set_needed. case_decide as E; [by rewrite E|done].
  - intros x Hx. rewrite needed_set_needed, Hx. apply orb_true_r.
  - intros x Hx. unfold set_needed. apply lookup_insert_is_Some'. by right.
Qed.

Lemma should_info info x : nodeShouldExecute info x = should_execute (info_at info x).
Proof. unfold nodeShouldExecute, info_at. by destruct (info !! x). Qed.

Lemma should_needed info x : nodeShouldExecute info x = needed info x || bool_decide (is_Some (captures_ (info_at info x))).
Proof. by rewrite should_info. Qed.

Lemma marks_should info info' x : marks info info' → nodeShouldExecute info x = true → nodeShouldExecute info' x = true.
Proof.
  intros [M1 M2 _]. rewrite !should_needed, M1, !orb_true_iff. intros [?|?]; [left; auto|by right].
Qed.
End ExecInfo.

(** ** The search. *)
Section Search.
Context {V : Type} (g : Graph V) (Hg : topological g).
Context (root : node_id) (min : Z) (outs : list node_id) (base : gmap node_id ExecInfo).
Context (Hmin : ∀ o, o ∈ outs → min ≤ topo g o) (Hroot : is_Some (g !! root)).
Context (Hbase : ∀ x, nodeShouldExecute base x = true ↔ x ∈ outs).
Implicit Types (info : gmap node_id ExecInfo) (seen : gset node_id) (x c fn p : node_id) (stack : list (node_id * list Edge)).

(** There is a path from [x] to an output. *)
Definition leads x : Prop := ∃ o, o ∈ outs ∧ rtc (edge g) x o.

Lemma leads_edge p c : edge g p c → leads c → leads p.
Proof. intros He (o & Ho & Hp). exists o. split; [done|]. by eapply rtc_l. Qed.

Lemma leads_inv x : leads x → x ∈ outs ∨ ∃ c, edge g x c ∧ leads c.
Proof. intros (o & Ho & Hp). inversion Hp as [|? c ? H1 H2]; subst; [by left|right]. exists c. split; [done|]. by exists o. Qed.

Lemma topo_rtc x y : rtc (edge g) x y → topo g y ≤ topo g x.
Proof. induction 1 as [|x y z Hxy _ IH]; [done|]. pose proof (proj2 (topo_edge _ Hg x y Hxy)). lia. Qed.

Lemma leads_min x : leads x → min ≤ topo g x.
Proof. intros (o & Ho & Hp). pose proof (Hmin o Ho). pose proof (topo_rtc x o Hp). lia. Qed.

(** The nodes the search has entered. *)
Definition visited seen x : Prop := x = root ∨ x ∈ seen ∧ min ≤ topo g x.

(** The children of [fn] among the edges [l] are accounted for, but for the one
    whose frame is above. *)
Definition accounted seen info (pend : option node_id) fn (l : list Edge) : Prop :=
  ∀ e c, e ∈ l → function e = Some c → c ∈ seen ∧ (Some c ≠ pend → leads c → needed info fn = true).

Fixpoint frames seen info (pend : option node_id) stack : Prop :=
  match stack with
  | [] => True
  | (fn, rest) :: below =>
      is_Some (g !! fn) ∧ visited seen fn ∧ (∀ c, pend = Some c → edge g fn c) ∧
      (∃ l, out_edges g fn = l ++ rest ∧ accounted seen info pend fn l) ∧
      frames seen info (Some fn) below
  end.

Record searching stack seen info : Prop := {
  se_sound x : nodeShouldExecute info x = true → leads x;
  se_tight x : needed info x = true → needed base x = true ∨ ∃ c, edge g x c ∧ leads c;
  se_marks : marks base info;
  se_closed x c : visited seen x → x ∉ stack.*1 → edge g x c → c ∈ seen ∧ (leads c → needed info x = true);
  se_frames : frames seen info None stack;
  se_seen x : x ∈ seen → is_Some (g !! x)
}.

Lemma frames_mono seen seen' info info' pend stack : seen ⊆ seen' → marks info info' → frames seen info pend stack →
  frames seen' info' pend stack.
Proof.
  intros Hs Hm. revert pend. induction stack as [|[fn rest] below IH]; intros pend; [done|]. cbn.
  intros (F1 & F2 & F3 & (l & El & F4) & F5). split; [done|]. split; [destruct F2 as [?|[? ?]]; [by left|right; set_solver]|].
  split; [done|]. split; [|by apply IH]. exists l. split; [done|]. intros e c He Hc. destruct (F4 e c He Hc) as [A1 A2].
  split; [set_solver|]. intros H1 H2. apply (mk_needed _ _ Hm). auto.
Qed.

(** The nodes further down have larger numbers. *)
Lemma frames_topo seen info pend stack c : frames seen info pend stack → pend = Some c → ∀ p, p ∈ stack.*1 → topo g c < topo g p.
Proof.
  revert pend c. induction stack as [|[fn rest] below IH]; intros pend c; cbn; [by intros _ _ p ?%not_elem_of_nil|].
  intros (_ & _ & F3 & _ & F5) Hp p [-> |Hin]%elem_of_cons.
  - by apply (topo_edge _ Hg), F3.
  - pose proof (proj2 (topo_edge _ Hg fn c (F3 c Hp))). pose proof (IH (Some fn) fn F5 eq_refl p Hin). lia.
Qed.

(** Marking the node on top because of a child. *)
Lemma searching_mark stack seen info fn c : searching stack seen info → edge g fn c → leads c → searching stack seen (set_needed fn info).
Proof.
  intros [S1 S2 S3 S4 S5 S6] He Hl. pose proof (marks_set_needed info fn) as Hm. split.
  - intros x. rewrite should_needed, needed_set_needed, info_set_needed. case_bool_decide as E.
    + intros _. rewrite E. by apply (leads_edge fn c).
    + rewrite decide_False by done. cbn. rewrite <- should_needed. apply S1.
  - intros x. rewrite needed_set_needed. case_bool_decide as E; [intros _; right; rewrite E; eauto|]. apply S2.
  - by eapply marks_trans.
  - intros x d Hx Hst Hd. destruct (S4 x d Hx Hst Hd) as [A1 A2]. split; [done|]. intros Hl'. by apply (mk_needed _ _ Hm), A2.
  - by apply (frames_mono seen seen info).
  - done.
Qed.

(** A node that was entered and is not on the stack is marked if it leads to
    an output. *)
Lemma searching_finished stack seen info x : searching stack seen info → visited seen x → x ∉ stack.*1 → leads x →
  nodeShouldExecute info x = true.
Proof.
  intros [S1 S2 S3 S4 S5 S6] Hx Hst [Ho|(c & He & Hc)]%leads_inv.
  - apply (marks_should base); [done|]. by apply Hbase.
  - rewrite should_needed. destruct (S4 x c Hx Hst He) as [_ ->]; [done|]. done.
Qed.

(** Looking at the next edge of the node on top. *)
Lemma searching_skip fn e rest below seen info :
  searching ((fn, e :: rest) :: below) seen info →
  (∀ c, function e = Some c → c ∈ seen ∧ (leads c → needed info fn = true)) → searching ((fn, rest) :: below) seen info.
Proof.
  intros [S1 S2 S3 S4 S5 S6] He. split; try done. destruct S5 as (F1 & F2 & F3 & (l & El & F4) & F5).
  split; [done|]. split; [done|]. split; [done|]. split; [|done]. exists (l ++ [e]). rewrite <- app_assoc. split; [done|].
  intros e' c [Hin| ->%list_elem_of_singleton]%elem_of_app Hc; [by apply (F4 e')|]. destruct (He c Hc). by split.
Qed.

Lemma searching_edge fn e rest below seen info c :
  searching ((fn, e :: rest) :: below) seen info → function e = Some c → edge g fn c.
Proof.
  intros Hs Hc. destruct (se_frames _ _ _ Hs) as (_ & _ & _ & (l & El & _) & _). apply edge_out. exists e.
  split; [|done]. rewrite El. apply elem_of_app. right. by left.
Qed.

Lemma next_unseen_spec fn rest below seen info : searching ((fn, rest) :: below) seen info →
  match next_unseen fn rest seen info with
  | (Some c, rest', seen', info') =>
      c ∉ seen ∧ seen' = {[c]} ∪ seen ∧ ∃ e, function e = Some c ∧ searching ((fn, e :: rest') :: below) seen info'
  | (None, _, seen', info') => seen' = seen ∧ searching ((fn, []) :: below) seen info'
  end.
Proof.
  revert info. induction rest as [|e rest IH]; intros info Hs; cbn [next_unseen]; [done|].
  destruct (function e) as [c|] eqn:Ec; [|apply IH, (searching_skip fn e); [done|intros c; congruence]].
  pose proof (searching_edge _ _ _ _ _ _ c Hs Ec) as Hedge. case_decide as Hin.
  - apply IH. destruct (nodeShouldExecute info c) eqn:E.
    + apply (searching_skip fn e); [apply (searching_mark _ _ _ fn c Hs Hedge), (se_sound _ _ _ Hs), E|].
      intros c' Hc'. assert (c' = c) as -> by congruence. split; [done|]. intros _. rewrite needed_set_needed, bool_decide_true by done. done.
    + apply (searching_skip fn e); [done|]. intros c' Hc'. assert (c' = c) as -> by congruence. split; [done|]. intros Hl.
      rewrite (searching_finished _ _ _ c Hs) in E; [done|right; split; [done|by apply leads_min]| |done].
      intros [-> |Hst]%elem_of_cons; [pose proof (proj2 (topo_edge _ Hg _ _ Hedge)) as Hlt; cbn in Hlt; lia|].
      destruct (se_frames _ _ _ Hs) as (_ & _ & _ & _ & F5). pose proof (frames_topo _ _ _ _ fn F5 eq_refl c Hst).
      pose proof (proj2 (topo_edge _ Hg _ _ Hedge)). lia.
  - split; [done|]. split; [done|]. by exists e.
Qed.

(** A child seen for the first time: it is pruned, or its frame is pushed. *)
Lemma searching_seen c stack seen info : searching stack seen info → is_Some (g !! c) → topo g c < min → searching stack ({[c]} ∪ seen) info.
Proof.
  intros [S1 S2 S3 S4 S5 S6] Hc Hlt. split; try done.
  - intros x d [Hx|[Hx Hle]] Hst Hd; [destruct (S4 x d (or_introl Hx) Hst Hd)|destruct (decide (x = c)) as [->|]; [lia|destruct (S4 x d) as [A1 A2]; [right; set_solver|done|done|]]].
    all: split; [set_solver|done].
  - apply (frames_mono seen _ info); [set_solver|apply marks_refl|done].
  - intros x [ ->%elem_of_singleton|?]%elem_of_union; auto.
Qed.

Lemma searching_push fn e rest below seen info c n :
  searching ((fn, e :: rest) :: below) seen info → function e = Some c → c ∉ seen → g !! c = Some n → min ≤ topo g c →
  searching ((c, next_edges n) :: (fn, rest) :: below) ({[c]} ∪ seen) info.
Proof.
  intros Hs Ec Hnew Hn Hle. pose proof (searching_edge _ _ _ _ _ _ c Hs Ec) as Hedge.
  destruct Hs as [S1 S2 S3 S4 S5 S6]. split; try done.
  - intros x d Hx Hst Hd. destruct (decide (x = c)) as [->|Hxc]; [by destruct Hst; left|].
    destruct (S4 x d) as [A1 A2]; [|by intros ?; apply Hst; right|done|split; [apply elem_of_union; by right|done]].
    destruct Hx as [?|[[?%elem_of_singleton|?]%elem_of_union ?]]; [by left|done|by right].
  - assert (out_edges g c = next_edges n) as Eo by (unfold out_edges; by rewrite Hn).
    destruct S5 as (F1 & F2 & F3 & (l & El & F4) & F5). cbn. split; [by eexists|]. split; [right; set_solver|]. split; [done|]. split.
    + exists []. split; [by rewrite Eo|]. by intros ? ? ?%not_elem_of_nil.
    + split; [done|]. split; [destruct F2 as [?|[? ?]]; [by left|right; set_solver]|]. split; [by intros ? [= <-]|]. split.
      * exists (l ++ [e]). rewrite <- app_assoc. split; [done|].
        intros e' c' [Hin| ->%list_elem_of_singleton]%elem_of_app Hc'; [|split; [set_solver|congruence]].
        destruct (F4 e' c' Hin Hc') as [A1 A2]. split; [set_solver|]. intros _. by apply A2.
      * apply (frames_mono seen _ info); [set_solver|apply marks_refl|done].
  - intros x [ ->%elem_of_singleton|?]%elem_of_union; [by eexists|auto].
Qed.

(** The node on top is done. *)
Lemma searching_pop fn below seen info : searching ((fn, []) :: below) seen info →
  searching below seen (match below with
    | (parent, _) :: _ => if nodeShouldExecute info fn then set_needed parent info else info
    | [] => info end).
Proof.
  intros Hs. assert (∀ c, edge g fn c → c ∈ seen ∧ (leads c → needed info fn = true)) as Hfn.
  { intros c (e & He & Hc)%edge_out. destruct (se_frames _ _ _ Hs) as (_ & _ & _ & (l & El & F4) & _).
    rewrite app_nil_r in El. rewrite El in He. destruct (F4 e c He Hc). by split; [|auto]. }
  assert (leads fn → nodeShouldExecute info fn = true) as Hshould.
  { intros [Ho|(c & He & Hc)]%leads_inv; [apply (marks_should base); [apply Hs|by apply Hbase]|].
    rewrite should_needed. destruct (Hfn c He) as [_ ->]; done. }
  assert (∀ x c, visited seen x → x ∉ below.*1 → edge g x c → c ∈ seen ∧ (leads c → needed info x = true)) as Hclosed.
  { intros x c Hx Hst Hd. destruct (decide (x = fn)) as [->|Hne]; [by apply Hfn|]. apply (se_closed _ _ _ Hs); [done| |done]. set_solver. }
  destruct (se_frames _ _ _ Hs) as (_ & _ & _ & _ & F5). destruct below as [|[parent rest] below].
  { destruct Hs. by split. }
  destruct F5 as (F1 & F2 & F3 & (l & El & F4) & F5). pose proof (F3 fn eq_refl) as Hedge.
  assert (∀ info', marks info info' → (leads fn → needed info' parent = true) → frames seen info' None ((parent, rest) :: below)) as Hfr.
  { intros info' Hm Hp. split; [done|]. split; [done|]. split; [done|]. split; [|by apply (frames_mono seen seen info)].
    exists l. split; [done|]. intros e c He Hc. destruct (F4 e c He Hc) as [A1 A2]. split; [done|]. intros _ Hl.
    destruct (decide (c = fn)) as [->|Hne]; [by apply Hp|]. apply (mk_needed _ _ Hm), A2; [congruence|done]. }
  destruct (nodeShouldExecute info fn) eqn:E.
  - pose proof (se_sound _ _ _ Hs fn E) as Hl. pose proof (searching_mark _ _ _ parent fn Hs Hedge Hl) as [S1 S2 S3 S4 S5 S6].
    pose proof (marks_set_needed info parent) as Hm. split; try done.
    + intros x c Hx Hst Hd. destruct (Hclosed x c Hx Hst Hd) as [A1 A2]. split; [done|]. intros ?. apply (mk_needed _ _ Hm). auto.
    + apply Hfr; [done|]. intros _. rewrite needed_set_needed, bool_decide_true by done. done.
  - destruct Hs as [S1 S2 S3 S4 S5 S6]. split; try done. apply Hfr; [apply marks_refl|]. intros Hl. specialize (Hshould Hl). congruence.
Qed.

(** When the search is over, a node is marked for execution exactly if it is
    reached and leads to an output. *)
Record searched info : Prop := {
  sd_should x : rtc (edge g) root x → nodeShouldExecute info x = true ↔ leads x;
  sd_needed x : rtc (edge g) root x → needed info x = true ↔ needed base x = true ∨ ∃ c, edge g x c ∧ leads c;
  sd_sound x : nodeShouldExecute info x = true → leads x;
  sd_marks : marks base info
}.

Lemma searching_done seen info : searching [] seen info → searched info.
Proof.
  intros Hs. assert (∀ x, rtc (edge g) root x → visited seen x ∨ topo g x < min) as Hv.
  { apply (rtc_ind_r (λ x, visited seen x ∨ topo g x < min) root); [by left; left|]. intros y x Hy Hyx IH. pose proof (proj2 (topo_edge _ Hg _ _ Hyx)).
    destruct IH as [IH|?]; [|right; lia]. destruct (se_closed _ _ _ Hs y x IH ltac:(set_solver) Hyx) as [Hin _].
    destruct (decide (min ≤ topo g x)); [left; by right|right; lia]. }
  split; [| |apply Hs|apply Hs].
  - intros x Hx. split; [apply Hs|]. intros Hl. destruct (Hv x Hx) as [Hvx|?]; [|pose proof (leads_min x Hl); lia].
    apply (searching_finished _ _ _ x Hs Hvx); [set_solver|done].
  - intros x Hx. split; [apply Hs|]. intros [Hn|(c & Hc & Hl)]; [by apply (mk_needed _ _ (se_marks _ _ _ Hs))|].
    destruct (Hv x Hx) as [Hvx|?]; [|pose proof (leads_min x (leads_edge _ _ Hc Hl)); lia].
    destruct (se_closed _ _ _ Hs x c Hvx ltac:(set_solver) Hc) as [_ Hn]. auto.
Qed.

Lemma search_spec fuel stack seen info : searching stack seen info → (2 * (size g - size seen) + length stack ≤ fuel)%nat →
  ∃ info', search g fuel min stack seen info = Ok info' ∧ searched info'.
Proof.
  revert stack seen info. induction fuel as [|fuel IH]; intros stack seen info Hs Hf.
  - destruct stack; [|cbn in Hf; lia]. exists info. split; [done|]. by apply (searching_done seen).
  - destruct stack as [|[fn rest] below]; [exists info; split; [done|]; by apply (searching_done seen)|]. cbn [search].
    pose proof (next_unseen_spec fn rest below seen info Hs) as Hn.
    destruct (next_unseen fn rest seen info) as [[[[c|] rest'] seen'] info'].
    + destruct Hn as (Hnew & -> & e & Ec & Hs'). pose proof (searching_edge _ _ _ _ _ _ c Hs' Ec) as Hedge.
      destruct (proj1 (topo_edge _ Hg _ _ Hedge)) as [n Hc]. unfold node. rewrite Hc. cbn [mbind result_bind].
      assert (topo g c = topological_nr_ n) as Et by (unfold topo; by rewrite Hc). rewrite <- Et.
      assert (size ({[c]} ∪ seen) = S (size seen)) as Esz by (rewrite size_union, size_singleton; [done|set_solver]).
      assert (size seen < size g)%nat as Hlt.
      { rewrite <- size_dom. apply (Nat.lt_le_trans _ (size ({[c]} ∪ seen))); [lia|]. apply subseteq_size.
        intros x [ ->%elem_of_singleton|Hx]%elem_of_union; apply elem_of_dom; [by eexists|by apply (se_seen _ _ _ Hs')]. }
      destruct (topo g c <? min) eqn:E; bool_simpl.
      * apply IH; [|cbn in *; lia]. apply (searching_skip fn e); [by apply searching_seen; [|eexists|]|]. intros c' Hc'.
        assert (c' = c) as -> by congruence. split; [set_solver|]. intros Hl. pose proof (leads_min c Hl). lia.
      * apply IH; [|cbn in *; lia]. by apply (searching_push fn e).
    + destruct Hn as [-> Hs']. apply IH; [by apply (searching_pop fn)|cbn in Hf; lia].
Qed.
End Search.

(** ** [init_to_execute]. *)
Section InitToExecute.
Context {V : Type} (g : Graph V) (Hg : topological g).
Implicit Types (info : gmap node_id ExecInfo) (x root : node_id) (outputs : list Edge).

Definition outs_of outputs : list node_id := omap function outputs.

(** The captures of [x] that a list of outputs asks for. *)
Fixpoint captures_for (x : node_id) outputs (output_idx : nat) : list (nat * nat) :=
  match outputs with
  | [] => []
  | e :: r => (if decide (function e = Some x) then [(input_nr e, output_idx)] else []) ++ captures_for x r (S output_idx)
  end.

Lemma captured_should info info' x fn c : info' = <[fn := mkExecInfo (needed_ (info_at info fn)) (Some c)]> info →
  nodeShouldExecute info' x = true ↔ nodeShouldExecute info x = true ∨ x = fn.
Proof.
  intros ->. unfold nodeShouldExecute. destruct (decide (x = fn)) as [->|Hne].
  - rewrite lookup_insert_eq. unfold should_execute. cbn. rewrite orb_true_r. tauto.
  - rewrite lookup_insert_ne by done. tauto.
Qed.

Lemma init_outputs_spec acc outputs k info : Forall (λ e, is_valid e = true) outputs →
  ∃ info', init_outputs acc outputs k info = Ok (info', if acc then k else (k + length outputs)%nat) ∧
    (∀ x, nodeShouldExecute info' x = true ↔ nodeShouldExecute info x = true ∨ x ∈ outs_of outputs) ∧
    (∀ x, needed info' x = true ↔ needed info x = true ∨ (acc = true ∧ x ∈ outs_of outputs)) ∧
    (∀ x, default [] (captures_ (info_at info' x)) =
       default [] (captures_ (info_at info x)) ++ if acc then [] else captures_for x outputs k).
Proof.
  intros Hv. revert k info. induction Hv as [|e r He _ IH]; intros k info; cbn [init_outputs].
  - exists info. split; [by destruct acc; rewrite ?Nat.add_0_r|]. cbn.
    split; [|split]; intros x; rewrite ?elem_of_nil; [tauto|tauto|by destruct acc; rewrite app_nil_r].
  - unfold is_valid in He. apply bool_decide_eq_true in He as [fn Hfn]. unfold edge_node. rewrite Hfn. cbn [mbind result_bind].
    assert (∀ x, x ∈ outs_of (e :: r) ↔ x = fn ∨ x ∈ outs_of r) as Hout.
    { intros x. unfold outs_of. cbn. rewrite Hfn. cbn. by rewrite elem_of_cons. }
    destruct acc.
    + destruct (IH k (set_needed fn info)) as (info' & -> & I1 & I2 & I3). exists info'. split; [done|]. split; [|split].
      * intros x. rewrite I1, Hout, should_needed, needed_set_needed, info_set_needed, should_needed.
        destruct (decide (x = fn)) as [->|Hne]; [rewrite bool_decide_true by done; cbn; tauto|]. rewrite bool_decide_false by done. cbn. tauto.
      * intros x. rewrite I2, Hout, needed_set_needed, orb_true_iff, bool_decide_eq_true. tauto.
      * intros x. rewrite I3, info_set_needed. case_decide as E; [by rewrite E|done].
    + set (info1 := <[fn := _]> info). destruct (IH (S k) info1) as (info' & E' & I1 & I2 & I3). rewrite E'. exists info'.
      split; [cbn; by rewrite Nat.add_succ_r|].
      assert (∀ x, info_at info1 x = if decide (x = fn) then mkExecInfo (needed_ (info_at info fn)) (Some (default [] (captures_ (info_at info fn)) ++ [(input_nr e, k)])) else info_at info x) as Ei.
      { intros x. unfold info_at at 1, info1. case_decide as E; [by rewrite E, lookup_insert_eq|by rewrite lookup_insert_ne]. }
      split; [|split].
      * intros x. rewrite I1, Hout, (captured_should info info1 x fn _ eq_refl). tauto.
      * intros x. rewrite I2. unfold needed. rewrite Ei. case_decide as E; [rewrite E; cbn|]; split; intros [?|[? ?]]; by auto.
      * intros x. rewrite I3, Ei. cbn [captures_for]. rewrite Hfn. destruct (decide (x = fn)) as [->|Hne].
        -- rewrite (decide_True (P := Some fn = Some fn)) by done. cbn. by rewrite <- app_assoc.
        -- rewrite (decide_False (P := Some fn = Some x)) by congruence. done.
Qed.

Record executing root acc outputs info : Prop := {
  xi_should x : rtc (edge g) root x → nodeShouldExecute info x = true ↔ leads g (outs_of outputs) x;
  xi_needed x : rtc (edge g) root x →
    needed info x = true ↔ (acc = true ∧ x ∈ outs_of outputs) ∨ ∃ c, edge g x c ∧ leads g (outs_of outputs) c;
  xi_sound x : nodeShouldExecute info x = true → leads g (outs_of outputs) x;
  xi_captures x : default [] (captures_ (info_at info x)) = if acc then [] else captures_for x outputs 0;
  xi_root : is_Some (info !! root)
}.

Lemma init_to_execute_spec root acc outputs min : is_Some (g !! root) → Forall (λ e, is_valid e = true) outputs →
  (∀ o, o ∈ outs_of outputs → min ≤ topo g o) →
  ∃ info, init_to_execute g root outputs acc min = Ok (info, if acc then 0%nat else length outputs) ∧ executing root acc outputs info.
Proof.
  intros [n Hn] Hv Hmin. destruct (init_outputs_spec acc outputs 0 ∅ Hv) as (info1 & E1 & I1 & I2 & I3).
  unfold init_to_execute. rewrite E1. unfold node. rewrite Hn. cbn [mbind result_bind].
  set (base := if decide (is_Some (info1 !! root)) then info1 else <[root := new_ExecInfo]> info1).
  assert (∀ x, info_at base x = info_at info1 x) as Eb.
  { intros x. unfold base. case_decide as Hd; [done|]. unfold info_at. destruct (decide (x = root)) as [->|Hne]; [|by rewrite lookup_insert_ne].
    rewrite lookup_insert_eq. destruct (info1 !! root); [by destruct Hd|done]. }
  assert (is_Some (base !! root)) as Hr.
  { unfold base. case_decide; [done|]. rewrite lookup_insert_eq. by eexists. }
  assert (∀ x, nodeShouldExecute base x = true ↔ x ∈ outs_of outputs) as Hb.
  { intros x. rewrite should_info, Eb, <- should_info, I1. unfold nodeShouldExecute. rewrite lookup_empty. naive_solver. }
  assert (searching g root min (outs_of outputs) base [(root, next_edges n)] ∅ base) as Hs.
  { split.
    - intros x Hx%Hb. exists x. by split.
    - intros x Hx. by left.
    - apply marks_refl.
    - intros x c [-> |[Hx _]] Hst; [destruct Hst; by left|set_solver].
    - split; [by eexists|]. split; [by left|]. split; [done|]. split; [|done]. exists []. split; [unfold out_edges; by rewrite Hn|].
      by intros ? ? ?%not_elem_of_nil.
    - set_solver. }
  destruct (search_spec g Hg root min (outs_of outputs) base Hmin (ex_intro _ n Hn) Hb (2 * size g + 2) _ _ _ Hs) as (info & E & [D1 D2 D3 D4]).
  { cbn. rewrite size_empty. lia. }
  fold base. rewrite E. cbn. exists info. split; [by destruct acc|]. split; try done.
  - intros x Hx. rewrite D2 by done. unfold needed at 1. rewrite Eb. fold (needed info1 x). rewrite I2.
    unfold needed at 1, info_at. rewrite lookup_empty. cbn. naive_solver.
  - intros x. rewrite (mk_captures _ _ D4), Eb, I3. unfold info_at. by rewrite lookup_empty.
  - by apply (mk_entries _ _ D4).
Qed.
End InitToExecute.
