(* ===== verification/AutogradEngine.v ===== *)
(** * The execution of a backward pass.

    [GraphTask], the ready queues and the evaluation of functions of
    torch/csrc/autograd/engine.cpp.  The sum of two gradients and what the
    validation of a gradient against the metadata of its input does are
    parameters: they are tensor operations.  Streams, thread-local state,
    anomaly mode, the release of saved variables and final callbacks are left
    out, and so are the tasks without a function that wake up the thread that
    owns a pass. *)

From S2P Require Import Prelude SafeNum AutogradGraph AutogradPlan.

Section Engine.
Context {V : Type} (g : Graph V).
Context (accumulate : V → V → V) (validate_grad : Edge → V → result V).

Local Abbreviation variable_list := (variable_list V).

Record NodeTask := mkNodeTask { fn_ : node_id; inputs_ : variable_list }.

(** The members of [GraphTask], the tasks of it that are in the ready queues of
    all devices, and the calls of functions that were made so far, with their
    inputs: [calls_] is not a member, but what the functions see of the engine. *)
Record GraphTask := mkGraphTask {
  outstanding_tasks_ : Z;
  has_error_ : bool;
  future_completed_ : bool;
  not_ready_ : gmap node_id variable_list;
  dependencies_ : gmap node_id Z;
  exec_info_ : gmap node_id ExecInfo;
  captured_vars_ : variable_list;
  exit_on_error_ : bool;
  future_result_ : option (result variable_list);
  ready : list NodeTask;
  calls_ : list (node_id * variable_list)
}.

Definition set_outstanding (x : Z) (s : GraphTask) : GraphTask :=
  mkGraphTask x (has_error_ s) (future_completed_ s) (not_ready_ s) (dependencies_ s) (exec_info_ s) (captured_vars_ s)
    (exit_on_error_ s) (future_result_ s) (ready s) (calls_ s).
Definition set_error (s : GraphTask) : GraphTask :=
  mkGraphTask (outstanding_tasks_ s) true (future_completed_ s) (not_ready_ s) (dependencies_ s) (exec_info_ s) (captured_vars_ s)
    (exit_on_error_ s) (future_result_ s) (ready s) (calls_ s).
Definition set_future (r : result variable_list) (s : GraphTask) : GraphTask :=
  mkGraphTask (outstanding_tasks_ s) (has_error_ s) true (not_ready_ s) (dependencies_ s) (exec_info_ s) (captured_vars_ s)
    (exit_on_error_ s) (Some r) (ready s) (calls_ s).
Definition set_not_ready (x : gmap node_id variable_list) (s : GraphTask) : GraphTask :=
  mkGraphTask (outstanding_tasks_ s) (has_error_ s) (future_completed_ s) x (dependencies_ s) (exec_info_ s) (captured_vars_ s)
    (exit_on_error_ s) (future_result_ s) (ready s) (calls_ s).
Definition set_dependencies (x : gmap node_id Z) (s : GraphTask) : GraphTask :=
  mkGraphTask (outstanding_tasks_ s) (has_error_ s) (future_completed_ s) (not_ready_ s) x (exec_info_ s) (captured_vars_ s)
    (exit_on_error_ s) (future_result_ s) (ready s) (calls_ s).
Definition set_captured (x : variable_list) (s : GraphTask) : GraphTask :=
  mkGraphTask (outstanding_tasks_ s) (has_error_ s) (future_completed_ s) (not_ready_ s) (dependencies_ s) (exec_info_ s) x
    (exit_on_error_ s) (future_result_ s) (ready s) (calls_ s).
Definition set_ready (x : list NodeTask) (s : GraphTask) : GraphTask :=
  mkGraphTask (outstanding_tasks_ s) (has_error_ s) (future_completed_ s) (not_ready_ s) (dependencies_ s) (exec_info_ s)
    (captured_vars_ s) (exit_on_error_ s) (future_result_ s) x (calls_ s).

Definition set_calls (x : list (node_id * variable_list)) (s : GraphTask) : GraphTask :=
  mkGraphTask (outstanding_tasks_ s) (has_error_ s) (future_completed_ s) (not_ready_ s) (dependencies_ s) (exec_info_ s)
    (captured_vars_ s) (exit_on_error_ s) (future_result_ s) (ready s) x.

(** [ReadyQueue::push]. *)
Definition push (t : NodeTask) : method GraphTask unit :=
  modify (λ s, set_ready (ready s ++ [t]) (set_outstanding (outstanding_tasks_ s + 1) s)).

(** ** [InputBuffer]. *)
Definition InputBuffer_add (pos : nat) (var : option V) (buffer : variable_list) : result variable_list :=
  match buffer !! pos with
  | None => Throw (InternalAssert "pos < buffer.size()")
  | Some old_var =>
      match var, old_var with
      | None, _ => Ok buffer
      | Some v, None => Ok (<[pos := Some v]> buffer)
      | Some v, Some old => Ok (<[pos := Some (accumulate old v)]> buffer)
      end
  end.

(** ** Calling a function. *)
Fixpoint call_hooks (hooks : list (variable_list → result variable_list)) (inputs : variable_list) : result variable_list :=
  match hooks with [] => Ok inputs | hook :: r => inputs ← hook inputs; call_hooks r inputs end.

Definition call_tensor_pre_hooks (fn : Node V) (inputs : variable_list) : result variable_list :=
  inputs ← call_hooks (tensor_pre_hooks fn) inputs; call_hooks (retains_grad_hooks fn) inputs.

Definition call_pre_hooks (fn : Node V) (inputs : variable_list) : result variable_list := call_hooks (pre_hooks fn) inputs.

Fixpoint call_post_hooks (hooks : list (variable_list → variable_list → result variable_list)) (outputs inputs : variable_list)
    : result variable_list :=
  match hooks with [] => Ok outputs | hook :: r => outputs ← hook outputs inputs; call_post_hooks r outputs inputs end.

Fixpoint validate_each (edges : list Edge) (grads : variable_list) : result variable_list :=
  match edges, grads with
  | e :: edges, grad :: grads =>
      grad ← match grad with
             | Some v => if is_valid e then v ← validate_grad e v; Ok (Some v) else Ok grad
             | None => Ok grad
             end;
      grads ← validate_each edges grads;
      Ok (grad :: grads)
  | _, _ => Ok grads
  end.

Definition validate_outputs (edges : list Edge) (grads : variable_list) : result variable_list :=
  _ ← TORCH_CHECK (bool_decide (length grads = length edges)) "invalid number of gradients - expected ";
  validate_each edges grads.

Definition call_function (fn : Node V) (inputBuffer : variable_list) : result variable_list :=
  inputs ← call_tensor_pre_hooks fn inputBuffer;
  inputs ← call_pre_hooks fn inputs;
  outputs ← apply fn inputs;
  outputs ← validate_outputs (next_edges fn) outputs;
  call_post_hooks (post_hooks fn) outputs inputs.

(** ** [evaluate_function]. *)
Fixpoint capture (captures : list (nat * nat)) (new_inputs : variable_list) : method GraphTask unit :=
  match captures with
  | [] => mret tt
  | (input_idx, output_idx) :: r =>
      captured ← reads captured_vars_;
      match new_inputs !! input_idx with
      | Some v =>
          if decide (output_idx < length captured)%nat then
            modify (set_captured (<[output_idx := v]> captured));;
            capture r new_inputs
          else lift (Throw (UndefinedBehaviour "captured_vars_ index out of range"))
      | None => lift (Throw (UndefinedBehaviour "new_inputs index out of range"))
      end
  end.

(** The turn of the loop for one output. *)
Definition deliver (next : Edge) (output : option V) : method GraphTask unit :=
  match function next with
  | None => mret tt
  | Some c =>
      dependencies ← reads dependencies_;
      match dependencies !! c with
      | None => lift (Throw (Error "dependency not found for "))
      | Some k =>
          let is_ready := k - 1 =? 0 in
          modify (set_dependencies (if is_ready then delete c dependencies else <[c := k - 1]> dependencies));;
          not_ready ← reads not_ready_;
          match not_ready !! c with
          | None =>
              exec_info ← reads exec_info_;
              if negb (bool_decide (exec_info = ∅)) && negb (nodeShouldExecute exec_info c) then mret tt
              else
                n ← lift (node g c);
                input_buffer ← lift (InputBuffer_add (input_nr next) output (replicate (num_inputs n) None));
                if is_ready then push (mkNodeTask c input_buffer)
                else modify (set_not_ready (<[c := input_buffer]> not_ready))
          | Some input_buffer =>
              input_buffer ← lift (InputBuffer_add (input_nr next) output input_buffer);
              if is_ready then
                push (mkNodeTask c input_buffer);;
                modify (set_not_ready (delete c not_ready))
              else modify (set_not_ready (<[c := input_buffer]> not_ready))
          end
      end
  end.

Fixpoint deliver_all (edges : list Edge) (outputs : variable_list) : method GraphTask unit :=
  match outputs with
  | [] => mret tt
  | output :: outputs =>
      match edges with
      | [] => lift (Throw (UndefinedBehaviour "next_edges index out of range"))
      | next :: edges => deliver next output;; deliver_all edges outputs
      end
  end.

Definition evaluate_function (func : node_id) (inputs : variable_list) : method GraphTask unit :=
  fn ← lift (node g func);
  exec_info ← reads exec_info_;
  execute ←
    (if bool_decide (exec_info = ∅) then mret true
     else
       match exec_info !! func with
       | None => lift (Throw (IndexError "unordered_map::at"))
       | Some fn_info =>
           new_inputs ← (if needed_ fn_info then mret inputs else lift (call_tensor_pre_hooks fn inputs));
           capture (default [] (captures_ fn_info)) new_inputs;;
           mret (needed_ fn_info)
       end);
  if (execute : bool) then
    modify (λ s, set_calls (calls_ s ++ [(func, inputs)]) s);;
    outputs ← lift (call_function fn inputs);
    deliver_all (next_edges fn) outputs
  else mret tt.

(** ** The work of a thread on a task: [thread_main]. *)
Definition set_exception (e : exn) : method GraphTask unit :=
  modify (λ s, let s := set_error s in if future_completed_ s then s else set_future (Throw e) s).

(** Runs the function, and records an exception; the result tells whether the
    task is done. *)
Definition run_task (func : node_id) (inputs : variable_list) (s : GraphTask) : GraphTask :=
  match evaluate_function func inputs s with
  | (s, Ok _) => s
  | (s, Throw e) => fst (set_exception e s)
  end.

Definition completed (s : GraphTask) : bool := (outstanding_tasks_ s =? 0) || (exit_on_error_ s && has_error_ s).

Definition mark_as_completed_and_run_post_processing (s : GraphTask) : GraphTask :=
  if future_completed_ s then s
  else if negb (bool_decide (not_ready_ s = ∅)) then set_future (Throw (Error "could not compute gradients for some functions")) s
  else set_captured [] (set_future (Ok (captured_vars_ s)) s).

(** The threads of all devices work on the tasks of a pass at the same time.
    [running] are the tasks whose function is being evaluated; [evaluated] is the
    number of threads that have not yet counted their task as done, and
    [finishing] of those that have, but have not looked yet whether the pass is
    complete. *)
Record Pass := mkPass { task : GraphTask; running : list NodeTask; evaluated : nat; finishing : nat }.

(** What an observer sees of a step: the function that was evaluated, and with
    which inputs.  An evaluated function was called if it propagates gradients;
    the calls are those in [calls_]. *)
Definition label : Type := option (node_id * variable_list).

Inductive step : Pass → label → Pass → Prop :=
  | step_skip s r1 r2 t running ev fi :
      ready s = r1 ++ t :: r2 → has_error_ s = true →
      step (mkPass s running ev fi) None (mkPass (set_ready (r1 ++ r2) s) running (S ev) fi)
  | step_start s r1 r2 t running ev fi :
      ready s = r1 ++ t :: r2 → has_error_ s = false →
      step (mkPass s running ev fi) None (mkPass (set_ready (r1 ++ r2) s) (running ++ [t]) ev fi)
  | step_evaluate s r1 r2 fn inputs ev fi :
      step (mkPass s (r1 ++ mkNodeTask fn inputs :: r2) ev fi) (Some (fn, inputs))
        (mkPass (run_task fn inputs s) (r1 ++ r2) (S ev) fi)
  | step_decrement s running ev fi :
      step (mkPass s running (S ev) fi) None (mkPass (set_outstanding (outstanding_tasks_ s - 1) s) running ev (S fi))
  | step_continue s running ev fi :
      completed s = false → step (mkPass s running ev (S fi)) None (mkPass s running ev fi)
  | step_complete s running ev fi :
      completed s = true →
      step (mkPass s running ev (S fi)) None (mkPass (mark_as_completed_and_run_post_processing s) running ev fi).

(** A run of [k] steps, and the functions evaluated in it. *)
Inductive steps : nat → Pass → list (node_id * variable_list) → Pass → Prop :=
  | steps_refl P : steps 0 P [] P
  | steps_step k P1 o P2 l P3 :
      steps k P1 l P2 → step P2 o P3 → steps (S k) P1 (l ++ match o with Some x => [x] | None => [] end) P3.

(** ** [Engine::execute].

    What it computes for the graph task before the root is queued. *)
Definition prepare (graph_root : node_id) (outputs : list Edge) (accumulate_grad : bool) : result GraphTask :=
  min_topo_nr ← compute_min_topological_nr g outputs;
  '(dependencies, _) ← compute_dependencies g graph_root min_topo_nr;
  '(exec_info, output_idx) ← match outputs with
                              | [] => Ok (∅, 0%nat)
                              | _ => init_to_execute g graph_root outputs accumulate_grad min_topo_nr
                              end;
  Ok (mkGraphTask 0 false false ∅ dependencies exec_info (replicate output_idx None) false None [] []).

(** [execute_with_graph_task], up to the work of the threads. *)
Definition queue_root (graph_root : node_id) (input_buffer : variable_list) (graph_task : GraphTask) : Pass :=
  mkPass (fst (push (mkNodeTask graph_root input_buffer) graph_task)) [] 0 0.

Definition start (graph_root : node_id) (outputs : list Edge) (accumulate_grad : bool) (input_buffer : variable_list) : result Pass :=
  graph_task ← prepare graph_root outputs accumulate_grad;
  Ok (queue_root graph_root input_buffer graph_task).
End Engine.

(** [Engine::execute]: a single root edge gives the root of the pass, and
    several ones a new node at the address [fresh], a [GraphRoot]. *)
Definition execute {V : Type} (accumulate : V → V → V) (validate_grad : Edge → V → result V) (fresh : node_id) (seq : Z)
    (root_edges : list Edge) (inputs : variable_list V) (accumulate_grad : bool) (outputs : list Edge) : method (Graph V) (Pass (V := V)) :=
  inputs ← lift (validate_outputs validate_grad root_edges inputs);
  lift (TORCH_INTERNAL_ASSERT (accumulate_grad || negb (bool_decide (outputs = []))) "grad requires non-empty inputs.");;
  match root_edges, inputs with
  | [root_edge], input :: _ =>
      g ← reads (λ g, g);
      graph_root ← lift (edge_node root_edge);
      graph_task ← lift (prepare g graph_root outputs accumulate_grad);
      n ← lift (node g graph_root);
      input_buffer ← lift (InputBuffer_add accumulate (input_nr root_edge) input (replicate (num_inputs n) None));
      mret (queue_root graph_root input_buffer graph_task)
  | [_], [] => lift (Throw (IndexError "vector::at"))
  | _, _ =>
      new_Node fresh seq root_edges (length inputs) (λ _, Ok inputs);;
      g ← reads (λ g, g);
      graph_task ← lift (prepare g fresh outputs accumulate_grad);
      mret (queue_root fresh [] graph_task)
  end.
