(* ===== verification/AutogradRun.v ===== *)
(** * The autograd engine: what a run does.

    The invariant of a backward pass, for any interleaving of the threads: which
    functions are queued, how far their dependencies are counted down, and what
    has been added up in their input buffers. *)

From S2P Require Import Prelude SafeNum AutogradGraph AutogradPlan AutogradSearch AutogradEngine.

(** ** Methods on a graph task. *)
Section Buffers.
Context {V : Type} (g : Graph V) (accumulate : V → V → V).

(** What is added to the buffers: the outputs of functions with their
    edges. *)
Local Abbreviation delivery := (Edge * option V)%type.

Definition buffer_add (b : variable_list V) (x : delivery) : variable_list V :=
  match InputBuffer_add accumulate (input_nr x.1) x.2 b with Ok b' => b' | Throw _ => b end.

(** The buffer of [c] after the deliveries [dl], in this order. *)
Definition buffer (c : node_id) (dl : list delivery) : variable_list V :=
  foldl buffer_add (replicate (match g !! c with Some n => num_inputs n | None => 0 end) None)
    (filter (λ x, function x.1 = Some c) dl).

Lemma InputBuffer_add_length pos v b b' : InputBuffer_add accumulate pos v b = Ok b' → length b' = length b.
Proof.
  unfold InputBuffer_add. destruct (b !! pos) as [[old|]|]; [| |done]; destruct v; intros [= <-]; by rewrite ?length_insert.
Qed.

Lemma buffer_length c dl n : g !! c = Some n → length (buffer c dl) = num_inputs n.
Proof.
  intros Hc. unfold buffer. rewrite Hc. assert (∀ l b, length (foldl buffer_add b l) = length b) as Hl.
  { induction l as [|x l IH]; intros b; cbn; [done|]. rewrite IH. unfold buffer_add. destruct (InputBuffer_add _ _ _ b) eqn:E; [|done].
    by apply InputBuffer_add_length in E. }
  by rewrite Hl, length_replicate.
Qed.

Lemma buffer_other c dl x : function x.1 ≠ Some c → buffer c (dl ++ [x]) = buffer c dl.
Proof. intros Hx. unfold buffer. by rewrite filter_app, filter_cons_False, filter_nil, app_nil_r. Qed.

Lemma buffer_snoc c dl e v n : function e = Some c → g !! c = Some n → (input_nr e < num_inputs n)%nat →
  InputBuffer_add accumulate (input_nr e) v (buffer c dl) = Ok (buffer c (dl ++ [(e, v)])).
Proof.
  intros He Hc Hlt. assert (buffer c (dl ++ [(e, v)]) = buffer_add (buffer c dl) (e, v)) as ->.
  { unfold buffer. by rewrite filter_app, filter_cons_True, filter_nil, foldl_app by done. }
  destruct (lookup_lt_is_Some_2 (buffer c dl) (input_nr e)) as [o Ho]; [by rewrite (buffer_length c dl n)|].
  generalize dependent (buffer c dl). intros b Ho. unfold buffer_add, InputBuffer_add. cbn [fst snd]. rewrite Ho. by destruct v, o.
Qed.

Lemma buffer_empty c dl n : g !! c = Some n → cnt c dl.*1 = 0 → buffer c dl = replicate (num_inputs n) None.
Proof.
  intros Hc Hz. unfold buffer. rewrite Hc. assert (filter (λ x : delivery, function x.1 = Some c) dl = []) as ->; [|done].
  destruct (filter _ dl) as [|x l] eqn:E; [done|]. assert (x ∈ filter (λ x : delivery, function x.1 = Some c) dl) as Hx by (rewrite E; by left).
  apply list_elem_of_filter in Hx as [Hx Hin]. assert (0 < cnt c dl.*1); [|lia]. apply cnt_pos. exists x.1. split; [|done].
  by apply list_elem_of_fmap_2.
Qed.
End Buffers.

Section Run.
Context {V : Type} (g : Graph V) (accumulate : V → V → V) (validate_grad : Edge → V → result V).
Context (root : node_id) (ps : list node_id) (exec : gmap node_id ExecInfo).
Implicit Types (c p : node_id) (dl : list (Edge * option V)) (s : GraphTask (V := V)).

Local Abbreviation buffer := (buffer g accumulate).

(** The function is not executed. *)
Definition skip c : bool := negb (bool_decide (exec = ∅)) && negb (nodeShouldExecute exec c).
(** Its gradients are propagated. *)
Definition flows c : bool := bool_decide (exec = ∅) || needed exec c.

(** The edges into [c] from which nothing was delivered. *)
Definition rem c dl : Z := cnt c (edges_from g ps) - cnt c dl.*1.

(** The state of a graph task after the deliveries [dl], when the functions
    [sched] have been queued. *)
Record scheduled s dl (sched : list node_id) : Prop := {
  sc_exec : exec_info_ s = exec;
  sc_bound c : 0 ≤ rem c dl;
  sc_deps c : dependencies_ s !! c = if rem c dl =? 0 then None else Some (rem c dl);
  sc_not_ready c : not_ready_ s !! c =
    if (0 <? cnt c dl.*1) && negb (rem c dl =? 0) && negb (skip c) then Some (buffer c dl) else None;
  sc_NoDup : NoDup sched;
  sc_sched c : c ∈ sched ↔ c = root ∨ (0 < cnt c (edges_from g ps) ∧ rem c dl = 0 ∧ skip c = false)
}.

Lemma scheduled_perm s dl l l' : l ≡ₚ l' → scheduled s dl l → scheduled s dl l'.
Proof.
  intros Hp [S1 S2 S3 S4 S5 S6]. split; try done; [by rewrite <- Hp|]. intros c. by rewrite <- Hp.
Qed.

Lemma rem_snoc c dl e v : rem c (dl ++ [(e, v)]) = rem c dl - if decide (function e = Some c) then 1 else 0.
Proof. unfold rem. rewrite fmap_app, cnt_app. cbn. rewrite cnt_cons. unfold cnt at 3. cbn. lia. Qed.

Lemma cnt_snoc c dl e v : cnt c (dl ++ [(e, v)]).*1 = cnt c dl.*1 + if decide (function e = Some c) then 1 else 0.
Proof. rewrite fmap_app, cnt_app. cbn. rewrite cnt_cons. unfold cnt at 2. cbn. lia. Qed.

(** What delivering changes of a graph task. *)
Record delivered s s' (new : list (NodeTask (V := V))) : Prop := {
  dv_ready : ready s' = ready s ++ new;
  dv_outstanding : outstanding_tasks_ s' = outstanding_tasks_ s + Z.of_nat (length new);
  dv_captured : captured_vars_ s' = captured_vars_ s;
  dv_error : has_error_ s' = has_error_ s;
  dv_calls : calls_ s' = calls_ s;
  dv_future : future_completed_ s' = future_completed_ s ∧ future_result_ s' = future_result_ s ∧ exit_on_error_ s' = exit_on_error_ s
}.

Lemma delivered_refl s : delivered s s [].
Proof. split; try done; [by rewrite app_nil_r|cbn; lia]. Qed.

Lemma delivered_trans s1 s2 s3 l1 l2 : delivered s1 s2 l1 → delivered s2 s3 l2 → delivered s1 s3 (l1 ++ l2).
Proof.
  intros [A1 A2 A3 A4 A8 (A5 & A6 & A7)] [B1 B2 B3 B4 B8 (B5 & B6 & B7)].
  split; [by rewrite B1, A1, app_assoc|rewrite length_app; lia|congruence|congruence|congruence|].
  split; [congruence|split; congruence].
Qed.

Lemma deliver_spec s dl sched e v :
  scheduled s dl sched →
  (∀ c, function e = Some c → 0 < rem c dl ∧ c ≠ root ∧ ∃ n, g !! c = Some n ∧ (input_nr e < num_inputs n)%nat) →
  ∃ s' new, deliver g accumulate e v s = (s', Ok tt) ∧ delivered s s' new ∧ scheduled s' (dl ++ [(e, v)]) (sched ++ (fn_ <$> new)) ∧
    ∀ t, t ∈ new → inputs_ t = buffer (fn_ t) (dl ++ [(e, v)]) ∧ fn_ t ≠ root.
Proof.
  intros Hs He. unfold deliver. destruct (function e) as [c|] eqn:Ec.
  2: { exists s, []. split; [done|]. split; [apply delivered_refl|]. split; [|by intros t ?%not_elem_of_nil].
    rewrite app_nil_r. destruct Hs as [S1 S2 S3 S4 S5 S6].
    assert (∀ x, rem x (dl ++ [(e, v)]) = rem x dl) as Er by (intros x; rewrite rem_snoc, decide_False by congruence; lia).
    assert (∀ x, cnt x (dl ++ [(e, v)]).*1 = cnt x dl.*1) as En by (intros x; rewrite cnt_snoc, decide_False by congruence; lia).
    split; try done; [intros x; rewrite Er; apply S2|intros x; rewrite Er; apply S3| |intros x; rewrite Er; apply S6].
    intros x. rewrite Er, En, buffer_other by (cbn; congruence). apply S4. }
  destruct (He c eq_refl) as (Hrem & Hcr & n & Hn & Hlt). destruct Hs as [S1 S2 S3 S4 S5 S6].
  assert (∀ x, rem x (dl ++ [(e, v)]) = if decide (x = c) then rem c dl - 1 else rem x dl) as Er.
  { intros x. rewrite rem_snoc, Ec. case_decide as E; [rewrite decide_True by congruence; congruence|rewrite decide_False by congruence; lia]. }
  assert (∀ x, cnt x (dl ++ [(e, v)]).*1 = if decide (x = c) then cnt c dl.*1 + 1 else cnt x dl.*1) as En.
  { intros x. rewrite cnt_snoc, Ec. case_decide as E; [rewrite decide_True by congruence; congruence|rewrite decide_False by congruence; lia]. }
  assert (∀ x, x ≠ c → buffer x (dl ++ [(e, v)]) = buffer x dl) as Eb by (intros x Hx; apply buffer_other; cbn; congruence).
  pose proof (buffer_snoc g accumulate c dl e v n Ec Hn Hlt) as Eadd. pose proof (cnt_nonneg c dl.*1) as Hnn.
  assert (dependencies_ s !! c = Some (rem c dl)) as Hdep by (rewrite S3; by destruct (rem c dl =? 0) eqn:E; bool_simpl; [lia|]).
  assert (0 < cnt c (edges_from g ps)) as Hin by (unfold rem in Hrem; lia).
  assert (c ∉ sched) as Hnsched by (rewrite S6; intros [?|(_ & ? & _)]; [done|lia]).
  set (s1 := set_dependencies (if rem c dl - 1 =? 0 then delete c (dependencies_ s) else <[c := rem c dl - 1]> (dependencies_ s)) s).
  assert (∀ s' new, delivered s1 s' new → exec_info_ s' = exec → dependencies_ s' = dependencies_ s1 →
    (∀ x, not_ready_ s' !! x = if decide (x = c) then if negb (rem c dl - 1 =? 0) && negb (skip c) then Some (buffer c (dl ++ [(e, v)])) else None else not_ready_ s !! x) →
    new = (if (rem c dl - 1 =? 0) && negb (skip c) then [mkNodeTask c (buffer c (dl ++ [(e, v)]))] else []) →
    delivered s s' new ∧ scheduled s' (dl ++ [(e, v)]) (sched ++ (fn_ <$> new)) ∧ ∀ t, t ∈ new → inputs_ t = buffer (fn_ t) (dl ++ [(e, v)]) ∧ fn_ t ≠ root) as Hdone.
  { intros s' new Hd E1 E2 E3 ->. split; [by destruct Hd|]. split; [split; try done|].
    - intros x. rewrite Er. case_decide; [lia|done].
    - intros x. rewrite E2, Er. unfold s1. cbn. destruct (decide (x = c)) as [->|Hne].
      + destruct (rem c dl - 1 =? 0); [apply lookup_delete_eq|apply lookup_insert_eq].
      + rewrite <- S3. destruct (rem c dl - 1 =? 0); [by apply lookup_delete_ne|by apply lookup_insert_ne].
    - intros x. rewrite E3, Er, En. destruct (decide (x = c)) as [->|Hne].
      + assert (0 <? cnt c dl.*1 + 1 = true) as -> by (apply Z.ltb_lt; lia). done.
      + rewrite Eb by done. apply S4.
    - destruct ((rem c dl - 1 =? 0) && negb (skip c)); [|by rewrite app_nil_r]. apply NoDup_app. split; [done|]. split; [|apply NoDup_singleton].
      cbn. by intros x Hx ->%list_elem_of_singleton.
    - intros x. rewrite Er. rewrite elem_of_app, S6. destruct (decide (x = c)) as [->|Hne].
      + destruct (rem c dl - 1 =? 0) eqn:E0, (skip c) eqn:E4; bool_simpl; cbn; rewrite ?list_elem_of_singleton, ?elem_of_nil; split; try tauto; try lia.
        all: intros [?|(_ & ? & ?)]; [done|congruence || lia].
      + destruct ((rem c dl - 1 =? 0) && negb (skip c)); cbn; rewrite ?list_elem_of_singleton, ?elem_of_nil; tauto.
    - intros t. destruct ((rem c dl - 1 =? 0) && negb (skip c)); [intros ->%list_elem_of_singleton; done|by intros ?%not_elem_of_nil]. }
  pose proof (S4 c) as Hnr. unfold mbind at 1, method_bind at 1, reads at 1. rewrite Hdep. unfold mbind at 1, method_bind at 1, modify at 1.
  fold s1. unfold mbind at 1, method_bind at 1, reads at 1. change (not_ready_ s1) with (not_ready_ s). rewrite Hnr.
  destruct (negb (rem c dl =? 0)) eqn:E0; [|bool_simpl; lia]. rewrite andb_true_r. destruct (0 <? cnt c dl.*1) eqn:E1, (skip c) eqn:E2; cbn [andb negb].
  - (* a function that is not executed *)
    unfold mbind at 1, method_bind at 1, reads at 1. change (exec_info_ s1) with (exec_info_ s). rewrite S1. fold (skip c). rewrite E2.
    exists s1, []. split; [done|]. apply Hdone; try done; [apply delivered_refl|..].
    + intros x. change (not_ready_ s1) with (not_ready_ s). rewrite andb_false_r. case_decide as E; [|done]. rewrite E, Hnr, ?E1. done.
    + by rewrite andb_false_r.
  - (* it has a buffer *)
    unfold mbind at 1, method_bind at 1, lift at 1. rewrite Eadd. destruct (rem c dl - 1 =? 0) eqn:E3.
    + eexists _, [_]. split; [reflexivity|]. apply Hdone; try done.
      intros x. cbn. case_decide as E; [rewrite E; apply lookup_delete_eq|by apply lookup_delete_ne].
    + eexists _, []. split; [reflexivity|]. apply Hdone; try done; [split; cbn; rewrite ?app_nil_r; try done; lia|].
      intros x. cbn. case_decide as E; [rewrite E; apply lookup_insert_eq|by apply lookup_insert_ne].
  - unfold mbind at 1, method_bind at 1, reads at 1. change (exec_info_ s1) with (exec_info_ s). rewrite S1. fold (skip c). rewrite E2.
    exists s1, []. split; [done|]. apply Hdone; try done; [apply delivered_refl|..].
    + intros x. change (not_ready_ s1) with (not_ready_ s). rewrite andb_false_r. case_decide as E; [|done]. rewrite E, Hnr, ?E1. done.
    + by rewrite andb_false_r.
  - (* it gets one *)
    unfold mbind at 1, method_bind at 1, reads at 1. change (exec_info_ s1) with (exec_info_ s). rewrite S1. fold (skip c). rewrite E2.
    unfold node, lift. rewrite Hn. unfold mbind, method_bind. bool_simpl. rewrite <- (buffer_empty g accumulate c dl n Hn) by lia. rewrite Eadd.
    destruct (rem c dl - 1 =? 0) eqn:E3.
    + eexists _, [_]. split; [reflexivity|]. apply Hdone; try done.
      intros x. change (not_ready_ _) with (not_ready_ s). case_decide as E; [|done]. rewrite E, Hnr. by destruct (0 <? cnt c dl.*1) eqn:E9; bool_simpl; [lia|].
    + eexists _, []. split; [reflexivity|]. apply Hdone; try done; [split; cbn; rewrite ?app_nil_r; try done; lia|].
      intros x. cbn. case_decide as E; [rewrite E; apply lookup_insert_eq|by apply lookup_insert_ne].
Qed.

(** ** All outputs of a function. *)
Lemma buffer_untouched c dl dl' : cnt c dl'.*1 = 0 → buffer c (dl ++ dl') = buffer c dl.
Proof.
  induction dl' as [|x dl' IH] using rev_ind; intros Hz; [by rewrite app_nil_r|].
  rewrite fmap_app, cnt_app in Hz. cbn in Hz. rewrite cnt_cons in Hz. pose proof (cnt_nonneg c dl'.*1). pose proof (cnt_nonneg c []).
  rewrite app_assoc, buffer_other by (intros E; rewrite decide_True in Hz by done; lia). apply IH. case_decide; lia.
Qed.

(** The edges of a function lead to functions that exist and are not the root,
    and to inputs they have. *)
Definition edges_fit (es : list Edge) : Prop :=
  ∀ e c, e ∈ es → function e = Some c → c ≠ root ∧ ∃ n, g !! c = Some n ∧ (input_nr e < num_inputs n)%nat.

Lemma deliver_all_spec s dl sched es outs :
  scheduled s dl sched → length outs = length es → (∀ c, cnt c es ≤ rem c dl) → edges_fit es →
  ∃ s' new, deliver_all g accumulate es outs s = (s', Ok tt) ∧ delivered s s' new ∧ scheduled s' (dl ++ zip es outs) (sched ++ (fn_ <$> new)) ∧
    ∀ t, t ∈ new → inputs_ t = buffer (fn_ t) (dl ++ zip es outs) ∧ fn_ t ≠ root.
Proof.
  revert s dl sched es. induction outs as [|v outs IH]; intros s dl sched es Hs Hlen Hrem Hfit; destruct es as [|e es]; try done; cbn [deliver_all].
  - exists s, []. rewrite !app_nil_r. split; [done|]. split; [apply delivered_refl|]. split; [done|]. by intros t ?%not_elem_of_nil.
  - destruct (deliver_spec s dl sched e v Hs) as (s1 & new1 & E1 & D1 & S1 & I1).
    { intros c Hc. destruct (Hfit e c ltac:(by left) Hc) as [? ?]. split; [|done]. specialize (Hrem c). rewrite cnt_cons, decide_True in Hrem by done.
      pose proof (cnt_nonneg c es). lia. }
    assert (∀ c, cnt c es ≤ rem c (dl ++ [(e, v)])) as Hrem1.
    { intros c. rewrite rem_snoc. specialize (Hrem c). rewrite cnt_cons in Hrem. case_decide; lia. }
    destruct (IH s1 (dl ++ [(e, v)]) _ es S1) as (s2 & new2 & E2 & D2 & S2 & I2); [cbn in Hlen; lia|done|by intros e' c Hin; apply Hfit; right|].
    rewrite <- app_assoc in S2. cbn in S2. exists s2, (new1 ++ new2). unfold mbind, method_bind. rewrite E1. split; [done|].
    split; [by eapply delivered_trans|]. rewrite fmap_app, (app_assoc sched). split; [done|].
    intros t [Ht|Ht]%elem_of_app; [|destruct (I2 t Ht) as [-> ?]; by rewrite <- app_assoc].
    destruct (I1 t Ht) as [-> Hnr]. split; [|done]. cbn. rewrite (app_assoc dl [(e, v)] (zip es outs) : dl ++ (e, v) :: zip es outs = _).
    symmetry. apply buffer_untouched. cbn in Hlen. rewrite fst_zip by lia.
    assert (fn_ t ∈ sched ++ (fn_ <$> new1)) as Hin by (apply elem_of_app; right; by apply list_elem_of_fmap_2).
    apply (sc_sched _ _ _ S1) in Hin as [?|(_ & Hz & _)]; [done|]. pose proof (Hrem1 (fn_ t)). pose proof (cnt_nonneg (fn_ t) es). lia.
Qed.

(** ** [evaluate_function]. *)
Definition capture_list (captures : list (nat * nat)) (new_inputs cap : variable_list V) : variable_list V :=
  foldl (λ cap io, match new_inputs !! io.1 with Some v => <[io.2 := v]> cap | None => cap end) cap captures.

(** The inputs that are captured when [c] is called with [inputs]. *)
Definition new_inputs c (inputs : variable_list V) : option (variable_list V) :=
  match exec !! c, g !! c with
  | Some i, Some n =>
      if needed_ i then Some inputs
      else match call_tensor_pre_hooks n inputs with Ok l => Some l | Throw _ => None end
  | _, _ => None
  end.

Definition captures_of c : list (nat * nat) := default [] (captures_ (info_at exec c)).

Definition captured_by c (inputs cap : variable_list V) : variable_list V :=
  match new_inputs c inputs with Some l => capture_list (captures_of c) l cap | None => cap end.

Lemma set_captured_same s : set_captured (captured_vars_ s) s = s.
Proof. by destruct s. Qed.

Lemma capture_spec captures l s k : (∀ i o, (i, o) ∈ captures → (i < length l)%nat ∧ (o < k)%nat) → length (captured_vars_ s) = k →
  capture captures l s = (set_captured (capture_list captures l (captured_vars_ s)) s, Ok tt).
Proof.
  revert s. induction captures as [|[i o] r IH]; intros s Hc Hk; cbn [capture].
  - unfold capture_list. cbn. by rewrite set_captured_same.
  - destruct (Hc i o ltac:(by left)) as [Hi Ho]. destruct (lookup_lt_is_Some_2 l i Hi) as [v Hv].
    unfold mbind at 1, method_bind at 1, reads at 1. rewrite Hv, decide_True by lia. unfold mbind, method_bind, modify.
    rewrite IH; [|by intros i' o' ?; apply Hc; right|cbn; by rewrite length_insert]. cbn. unfold capture_list. cbn. by rewrite Hv.
Qed.

(** The call of the function and the delivery of its outputs. *)
Definition call_and_deliver c (n : Node V) (inputs : variable_list V) : method (GraphTask (V := V)) unit :=
  modify (λ s, set_calls (calls_ s ++ [(c, inputs)]) s);;
  outputs ← lift (call_function validate_grad n inputs); deliver_all g accumulate (next_edges n) outputs.

Local Abbreviation evaluate_function := (evaluate_function g accumulate validate_grad).

Lemma evaluate_default c n inputs s : g !! c = Some n → exec_info_ s = ∅ → evaluate_function c inputs s = call_and_deliver c n inputs s.
Proof.
  intros Hn He. unfold AutogradEngine.evaluate_function, node. rewrite Hn. unfold mbind at 1, method_bind at 1, lift at 1.
  unfold mbind at 1, method_bind at 1, reads at 1. rewrite He, bool_decide_true by done. done.
Qed.

Lemma evaluate_info c n i inputs s : g !! c = Some n → exec_info_ s !! c = Some i →
  evaluate_function c inputs s =
    match (if needed_ i then Ok inputs else call_tensor_pre_hooks n inputs) with
    | Ok l =>
        match capture (default [] (captures_ i)) l s with
        | (s', Ok _) => if needed_ i then call_and_deliver c n inputs s' else (s', Ok tt)
        | (s', Throw e) => (s', Throw e)
        end
    | Throw e => (s, Throw e)
    end.
Proof.
  intros Hn Hi. unfold AutogradEngine.evaluate_function, node. rewrite Hn. unfold mbind at 1, method_bind at 1, lift at 1.
  unfold mbind at 1, method_bind at 1, reads at 1. rewrite bool_decide_false by (intros E; by rewrite E, lookup_empty in Hi). rewrite Hi.
  unfold mbind at 1, method_bind at 1. unfold mbind at 1, method_bind at 1. destruct (needed_ i); cbn.
  - unfold mbind at 1, method_bind at 1. by destruct (capture _ _ _) as [s' [[]|e]].
  - unfold lift. destruct (call_tensor_pre_hooks n inputs) as [l|e]; [|done]. unfold mbind at 1, method_bind at 1.
    by destruct (capture _ _ _) as [s' [[]|e]].
Qed.

Lemma captured_by_length c inputs cap : length (captured_by c inputs cap) = length cap.
Proof.
  unfold captured_by. destruct (new_inputs c inputs) as [l|]; [|done]. unfold capture_list. revert cap.
  induction (captures_of c) as [|io r IH]; intros cap; cbn; [done|]. rewrite IH. by destruct (l !! io.1); rewrite ?length_insert.
Qed.

(** A call of the function, or of its tensor pre-hooks, throws [e]. *)
Definition throws c (inputs : variable_list V) (e : exn) : Prop :=
  ∃ n, g !! c = Some n ∧ (call_function validate_grad n inputs = Throw e ∨ call_tensor_pre_hooks n inputs = Throw e).

(** What [evaluate_function] comes to: the function, or a hook, throws; or the
    inputs are captured and the outputs, if they are needed, delivered. *)
Inductive evaluates c (n : Node V) inputs s : GraphTask (V := V) * result unit → Prop :=
  | evaluates_throw e cap calls : throws c inputs e → length cap = length (captured_vars_ s) →
      evaluates c n inputs s (set_calls calls (set_captured cap s), Throw e)
  | evaluates_capture : flows c = false → exec = ∅ ∨ is_Some (new_inputs c inputs) → evaluates c n inputs s (set_captured (captured_by c inputs (captured_vars_ s)) s, Ok tt)
  | evaluates_deliver outs : flows c = true → exec = ∅ ∨ is_Some (new_inputs c inputs) → call_function validate_grad n inputs = Ok outs →
      evaluates c n inputs s (deliver_all g accumulate (next_edges n) outs
        (set_calls (calls_ s ++ [(c, inputs)]) (set_captured (captured_by c inputs (captured_vars_ s)) s))).

Lemma call_evaluates c n inputs s : g !! c = Some n → flows c = true → exec = ∅ ∨ is_Some (new_inputs c inputs) →
  evaluates c n inputs s (call_and_deliver c n inputs (set_captured (captured_by c inputs (captured_vars_ s)) s)).
Proof.
  intros Hn Hf Hi. unfold call_and_deliver, mbind, method_bind, modify, lift. destruct (call_function validate_grad n inputs) as [outs|e] eqn:E.
  - by apply (evaluates_deliver c n inputs s outs).
  - apply (evaluates_throw c n inputs s e _ (calls_ s ++ [(c, inputs)])); [exists n; auto|apply captured_by_length].
Qed.

Lemma evaluate_function_spec c n inputs s :
  g !! c = Some n → exec_info_ s = exec → exec = ∅ ∨ is_Some (exec !! c) →
  (∀ l i o, new_inputs c inputs = Some l → (i, o) ∈ captures_of c → (i < length l)%nat ∧ (o < length (captured_vars_ s))%nat) →
  evaluates c n inputs s (evaluate_function c inputs s).
Proof.
  intros Hn He Hx Hcap. pose proof (call_evaluates c n inputs s Hn) as Hcall. destruct (decide (exec = ∅)) as [E0|E0].
  - rewrite (evaluate_default c n) by congruence. replace s with (set_captured (captured_by c inputs (captured_vars_ s)) s) at 2.
    + apply Hcall; [unfold flows; by rewrite bool_decide_true|by left].
    + unfold captured_by, new_inputs. rewrite E0, lookup_empty. apply set_captured_same.
  - destruct Hx as [?|[i Hi]]; [done|]. rewrite (evaluate_info c n i) by congruence.
    assert (captures_of c = default [] (captures_ i)) as Ecs by (unfold captures_of, info_at; by rewrite Hi).
    assert (flows c = needed_ i) as Ef by (unfold flows, needed, info_at; by rewrite Hi, bool_decide_false by done).
    assert (∀ l, new_inputs c inputs = Some l →
      capture (default [] (captures_ i)) l s = (set_captured (captured_by c inputs (captured_vars_ s)) s, Ok tt)) as Hdo.
    { intros l Hl. unfold captured_by. rewrite Hl, Ecs. apply (capture_spec _ _ _ (length (captured_vars_ s))); [|done].
      rewrite <- Ecs. intros i' o'. by apply Hcap. }
    unfold new_inputs in Hdo. rewrite Hi, Hn in Hdo. destruct (needed_ i) eqn:En.
    + rewrite (Hdo inputs eq_refl). apply Hcall; [done|]. right. unfold new_inputs. rewrite Hi, Hn, En. by eexists.
    + destruct (call_tensor_pre_hooks n inputs) as [l|e] eqn:Eh.
      * rewrite (Hdo l eq_refl). apply evaluates_capture; [done|]. right. unfold new_inputs. rewrite Hi, Hn, En, Eh. by eexists.
      * assert (s = set_calls (calls_ s) (set_captured (captured_vars_ s) s)) as E by (by destruct s). rewrite E at 2.
        apply evaluates_throw; [exists n; auto|done].
Qed.
End Run.
