(* ===== verification/AutogradPass.v ===== *)
(** * The autograd engine: the invariant of a pass.

    Every interleaving of the threads keeps the same account: which functions
    were called, with which inputs, and which are still to be called. *)

From S2P Require Import Prelude SafeNum AutogradGraph AutogradPlan AutogradSearch AutogradEngine AutogradRun.

Section Pass.
Context {V : Type} (g : Graph V) (accumulate : V → V → V) (validate_grad : Edge → V → result V).

(** What the engine relies on: the edges of a function lead to inputs that
    exist, and hooks do not change the number of gradients. *)
Record graph_ok : Prop := {
  gk_topological : topological g;
  gk_edges p n e c : g !! p = Some n → e ∈ next_edges n → function e = Some c → ∃ m, g !! c = Some m ∧ (input_nr e < num_inputs m)%nat;
  gk_outputs p n inputs outs : g !! p = Some n → call_function validate_grad n inputs = Ok outs → length outs = length (next_edges n);
  gk_hooks p n l l' : g !! p = Some n → call_tensor_pre_hooks n l = Ok l' → length l' = length l
}.

Context (root : node_id) (root_inputs : variable_list V) (ps : list node_id) (exec : gmap node_id ExecInfo) (ncap : nat).
Implicit Types (c p : node_id) (dl : list (Edge * option V)) (s : GraphTask (V := V)).

Local Abbreviation buffer := (buffer g accumulate).
Local Abbreviation skip := (skip exec).
Local Abbreviation flows := (flows exec).
Local Abbreviation rem := (rem g ps).
Local Abbreviation scheduled := (scheduled g accumulate root ps exec).

(** A function that gets gradients, and is executed. *)
Definition live c : Prop := c = root ∨ (0 < cnt c (edges_from g ps) ∧ skip c = false).

(** What the plan says: the functions [ps], whose edges are the dependencies,
    are those that propagate gradients, and all functions with an edge to one
    that is executed are among them. *)
Record plan_ok : Prop := {
  pk_root : is_Some (g !! root);
  pk_NoDup : NoDup ps;
  pk_noroot : cnt root (edges_from g ps) = 0;
  pk_below c : 0 < cnt c (edges_from g ps) → topo g c < topo g root;
  pk_flow p : live p → flows p = true → p ∈ ps;
  pk_pred p c : p ∈ ps → edge g p c → skip c = false → flows p = true ∧ live p;
  pk_exec : exec = ∅ ∨ is_Some (exec !! root);
  pk_captures c n i o : g !! c = Some n → (i, o) ∈ captures_of exec c →
    (i < if decide (c = root) then length root_inputs else num_inputs n)%nat ∧ (o < ncap)%nat
}.

Context (Hg : graph_ok) (Hplan : plan_ok).

Lemma live_exists c : live c → ∃ n, g !! c = Some n.
Proof.
  intros [-> |[Hc _]]; [apply Hplan|]. apply edges_from_pos in Hc as (p & _ & Hp). by apply (topo_edge _ (gk_topological Hg)) in Hp as [? _].
Qed.

Lemma live_exec c : live c → exec = ∅ ∨ is_Some (exec !! c).
Proof.
  intros [-> |[_ Hs]]; [apply Hplan|]. unfold AutogradRun.skip in Hs. destruct (decide (exec = ∅)) as [|Hne]; [by left|right].
  rewrite bool_decide_false in Hs by done. cbn in Hs. apply negb_false_iff in Hs. unfold nodeShouldExecute in Hs. destruct (exec !! c); [by eexists|done].
Qed.

Lemma live_edges c n : live c → g !! c = Some n → flows c = true → edges_fit g root (next_edges n).
Proof.
  intros Hl Hn Hf e d He Hd. destruct (gk_edges Hg c n e d Hn He Hd) as (m & Hm & Hlt). split; [|by exists m].
  intros ->. pose proof (pk_noroot Hplan) as Hz. assert (0 < cnt root (edges_from g ps)); [|lia]. apply edges_from_pos. exists c.
  split; [by apply (pk_flow Hplan)|]. exists n, e. done.
Qed.

(** ** The account of a pass: the calls, with inputs and delivered outputs. *)
Definition entry : Type := node_id * variable_list V * variable_list V.
Implicit Types (log : list entry) (lost : list node_id).

Definition called log : list node_id := (λ x : entry, x.1.1) <$> log.
Definition deliveries log : list (Edge * option V) := concat ((λ x : entry, zip (out_edges g x.1.1) x.2) <$> log).

Lemma deliveries_snoc log x : deliveries (log ++ [x]) = deliveries log ++ zip (out_edges g x.1.1) x.2.
Proof. unfold deliveries. rewrite fmap_app, concat_app. cbn. by rewrite app_nil_r. Qed.

Definition inputs_of c dl : variable_list V := if decide (c = root) then root_inputs else buffer c dl.

Lemma inputs_of_length c n dl : g !! c = Some n → length (inputs_of c dl) = if decide (c = root) then length root_inputs else num_inputs n.
Proof. intros Hn. unfold inputs_of. case_decide; [done|]. by apply buffer_length. Qed.

(** An entry of the account is right: the inputs are all that was delivered,
    and the outputs what the function returned, if they are needed; the inputs
    could be captured. *)
Definition entry_ok dl (x : entry) : Prop :=
  x.1.2 = inputs_of x.1.1 dl ∧ (exec = ∅ ∨ is_Some (new_inputs g exec x.1.1 x.1.2)) ∧ ∃ n, g !! x.1.1 = Some n ∧
    if flows x.1.1 then call_function validate_grad n x.1.2 = Ok x.2 ∧ length x.2 = length (out_edges g x.1.1) else x.2 = [].

Definition flowing log : list node_id := called (filter (λ x : entry, flows x.1.1 = true) log).

Lemma deliveries_edges dl log : Forall (entry_ok dl) log → (deliveries log).*1 = edges_from g (flowing log).
Proof.
  induction 1 as [|x log (_ & _ & n & Hn & Hx) _ IH]; [done|]. unfold flowing. rewrite filter_cons. unfold deliveries in *. cbn [fmap list_fmap concat].
  rewrite fmap_app, IH. destruct (flows x.1.1) eqn:Ef.
  - rewrite decide_True by done. destruct Hx as [_ Hlen]. by rewrite fst_zip by lia.
  - rewrite decide_False by done. rewrite Hx. by rewrite zip_with_nil_r.
Qed.

Lemma edges_from_perm c l l' : l ≡ₚ l' → cnt c (edges_from g l) = cnt c (edges_from g l').
Proof. intros Hp. apply cnt_perm. unfold edges_from. induction Hp; cbn; [done|by f_equiv|solve_Permutation|by etransitivity]. Qed.

Lemma edges_from_sub c l l' : l ⊆+ l' → cnt c (edges_from g l) ≤ cnt c (edges_from g l').
Proof.
  intros [k Hk]%submseteq_Permutation. rewrite (edges_from_perm c l' (l ++ k) Hk), edges_from_app, cnt_app.
  pose proof (cnt_nonneg c (edges_from g k)). lia.
Qed.

Definition captured log : variable_list V :=
  foldl (λ cap (x : entry), captured_by g exec x.1.1 x.1.2 cap) (replicate ncap None) log.

(** The calls of functions in an account: those that propagate gradients. *)
Definition calls_in log : list (node_id * variable_list V) := (λ x : entry, x.1) <$> filter (λ x : entry, flows x.1.1 = true) log.

Lemma calls_in_snoc log x : calls_in (log ++ [x]) = calls_in log ++ if flows x.1.1 then [x.1] else [].
Proof.
  unfold calls_in. rewrite filter_app, fmap_app. f_equal. destruct (flows x.1.1) eqn:E; [by rewrite filter_cons_True|rewrite filter_cons_False; [done|congruence]].
Qed.

(** The state of the future. *)
Definition future_ok s log : Prop :=
  match future_result_ s with
  | None => future_completed_ s = false ∧ has_error_ s = false
  | Some (Throw _) => future_completed_ s = true ∧ has_error_ s = true
  | Some (Ok r) => future_completed_ s = true ∧ has_error_ s = false ∧ outstanding_tasks_ s = 0 ∧ r = captured log
  end.

Record going (P : Pass (V := V)) log lost : Prop := {
  go_sched : scheduled (task P) (deliveries log) ((fn_ <$> ready (task P) ++ running P) ++ called log ++ lost);
  go_queue t : t ∈ ready (task P) ++ running P → inputs_ t = inputs_of (fn_ t) (deliveries log);
  go_log : Forall (entry_ok (deliveries log)) log;
  go_out : outstanding_tasks_ (task P) = Z.of_nat (length (ready (task P) ++ running P) + evaluated P);
  go_exit : exit_on_error_ (task P) = false;
  go_lost : lost ≠ [] → has_error_ (task P) = true;
  go_future : future_ok (task P) log;
  go_captured : (∀ r, future_result_ (task P) ≠ Some (Ok r)) → length (captured_vars_ (task P)) = ncap ∧
    (has_error_ (task P) = false → captured_vars_ (task P) = captured log);
  go_done : outstanding_tasks_ (task P) = 0 → (0 < finishing P)%nat ∨ future_completed_ (task P) = true;
  go_calls : has_error_ (task P) = false → calls_ (task P) = calls_in log
}.

(** ** Facts about an account. *)
Lemma scheduled_live s dl sched c : scheduled s dl sched → c ∈ sched → live c ∧ (c ≠ root → rem c dl = 0).
Proof. intros Hs Hc. apply (sc_sched _ _ _ _ _ _ _ _ Hs) in Hc as [?|(? & ? & ?)]; [by split; [left|]|]. by split; [right|]. Qed.

Lemma inputs_of_more c dl dl' : c = root ∨ cnt c dl'.*1 = 0 → inputs_of c (dl ++ dl') = inputs_of c dl.
Proof. intros Hc. unfold inputs_of. case_decide as E; [done|]. destruct Hc as [?|Hc]; [done|]. by apply buffer_untouched. Qed.

Lemma entry_ok_more dl dl' x : x.1.1 = root ∨ cnt x.1.1 dl'.*1 = 0 → entry_ok dl x → entry_ok (dl ++ dl') x.
Proof. intros Hc [Hi Hx]. split; [|done]. by rewrite inputs_of_more. Qed.

(** The scheduled account depends on three fields of the task only. *)
Lemma scheduled_same s s' dl sched sched' : scheduled s dl sched → sched ≡ₚ sched' → exec_info_ s' = exec_info_ s →
  dependencies_ s' = dependencies_ s → not_ready_ s' = not_ready_ s → scheduled s' dl sched'.
Proof.
  intros Hs Hp E1 E2 E3. apply (scheduled_perm _ _ _ _ _ _ _ sched sched' Hp). destruct Hs as [S1 S2 S3 S4 S5 S6].
  split; try done; [congruence|intros c; by rewrite E2|intros c; by rewrite E3].
Qed.

Lemma captured_length log : length (captured log) = ncap.
Proof.
  unfold captured. assert (∀ cap, length (foldl (λ cap (x : entry), captured_by g exec x.1.1 x.1.2 cap) cap log) = length cap) as ->; [|apply length_replicate].
  induction log as [|x log IH]; intros cap; cbn; [done|]. rewrite IH. apply captured_by_length.
Qed.

(** The edges of a function that is running have not been counted yet. *)
Lemma edges_pending P log lost c n : going P log lost → live c → flows c = true → g !! c = Some n → c ∉ called log →
  ∀ d, cnt d (next_edges n) ≤ rem d (deliveries log).
Proof.
  intros Hgo Hl Hf Hn Hc d. unfold AutogradRun.rem. rewrite (deliveries_edges _ log (go_log _ _ _ Hgo)).
  assert (c :: flowing log ⊆+ ps) as Hsub.
  { apply NoDup_submseteq.
    - apply NoDup_cons. split.
      + intros Hin. apply Hc. unfold flowing, called in *. apply list_elem_of_fmap in Hin as (x & -> & Hx).
        apply list_elem_of_filter in Hx as [_ Hx]. by apply (list_elem_of_fmap_2 (λ x : entry, x.1.1)).
      + pose proof (sc_NoDup _ _ _ _ _ _ _ _ (go_sched _ _ _ Hgo)) as Hnd. apply NoDup_app in Hnd as (_ & _ & Hnd). apply NoDup_app in Hnd as (Hnd & _ & _).
        unfold flowing, called in *. eapply sublist_NoDup; [exact Hnd|]. apply fmap_sublist, sublist_filter.
    - intros x [-> |Hx]%elem_of_cons; [by apply (pk_flow Hplan)|]. unfold flowing, called in Hx. apply list_elem_of_fmap in Hx as (y & -> & Hy).
      apply list_elem_of_filter in Hy as [Hy1 Hy2]. apply (pk_flow Hplan); [|done]. apply (scheduled_live _ _ _ _ (go_sched _ _ _ Hgo)).
      apply elem_of_app. right. apply elem_of_app. left. unfold called. by apply (list_elem_of_fmap_2 (λ x : entry, x.1.1)). }
  pose proof (edges_from_sub d _ _ Hsub) as Hle. change (c :: flowing log) with ([c] ++ flowing log) in Hle. rewrite edges_from_app, cnt_app in Hle.
  unfold edges_from at 1 in Hle. cbn in Hle. unfold out_edges in Hle. rewrite Hn, app_nil_r in Hle. lia.
Qed.

(** When nothing is queued and nothing was lost, every function that is live
    was called. *)
Lemma all_called P log : going P log [] → ready (task P) = [] → running P = [] →
  (∀ c, live c → c ∈ called log) ∧ not_ready_ (task P) = ∅.
Proof.
  intros Hgo Hr1 Hr2. pose proof (go_sched _ _ _ Hgo) as Hs. rewrite Hr1, Hr2, !app_nil_r in Hs. cbn in Hs.
  assert (∀ k c, topo g root - topo g c ≤ Z.of_nat k → 0 < cnt c (edges_from g ps) → skip c = false → rem c (deliveries log) = 0) as Hall.
  { induction k as [|k IH]; intros c Hk Hc Hsk; [pose proof (pk_below Hplan c Hc); lia|].
    assert (∀ p, p ∈ ps → edge g p c → p ∈ flowing log) as Hpred.
    { intros p Hp He. destruct (pk_pred Hplan p c Hp He Hsk) as [Hf Hl]. pose proof (proj2 (topo_edge _ (gk_topological Hg) p c He)) as Hlt.
      assert (p ∈ called log) as Hin.
      { apply (sc_sched _ _ _ _ _ _ _ _ Hs). destruct Hl as [?|[Hin Hsp]]; [by left|right]. split; [done|]. split; [|done]. apply IH; [lia|done|done]. }
      unfold called in Hin. apply list_elem_of_fmap in Hin as (x & -> & Hx). unfold flowing, called.
      apply (list_elem_of_fmap_2 (λ x : entry, x.1.1)), list_elem_of_filter. done. }
    pose proof (sc_bound _ _ _ _ _ _ _ _ Hs c) as Hb. unfold AutogradRun.rem in *. rewrite (deliveries_edges _ log (go_log _ _ _ Hgo)) in *.
    assert (cnt c (edges_from g ps) ≤ cnt c (edges_from g (flowing log))); [|lia].
    transitivity (cnt c (edges_from g (filter (λ p, 0 < cnt c (out_edges g p)) ps))).
    - apply Z.eq_le_incl. clear. induction ps as [|p l IH]; [done|]. rewrite filter_cons. unfold edges_from in *. cbn. rewrite cnt_app, IH.
      case_decide as E; cbn; [by rewrite cnt_app|]. pose proof (cnt_nonneg c (out_edges g p)). lia.
    - apply edges_from_sub, NoDup_submseteq; [apply NoDup_filter, Hplan|]. intros p [Hp1 Hp2]%list_elem_of_filter. apply Hpred; [done|].
      apply edge_out. by apply cnt_pos. }
  assert (∀ c, 0 < cnt c (edges_from g ps) → skip c = false → rem c (deliveries log) = 0) as Hrem.
  { intros c. apply (Hall (Z.to_nat (topo g root - topo g c))). lia. }
  split.
  - intros c [-> |[Hc Hsk]]; apply (sc_sched _ _ _ _ _ _ _ _ Hs); [by left|right]. split; [done|]. split; [by apply Hrem|done].
  - apply map_empty. intros c. rewrite (sc_not_ready _ _ _ _ _ _ _ _ Hs).
    destruct (0 <? cnt c (deliveries log).*1) eqn:E1, (skip c) eqn:E2; cbn; rewrite ?andb_false_r; try done. bool_simpl.
    rewrite (Hrem c); [done| |done]. pose proof (sc_bound _ _ _ _ _ _ _ _ Hs c) as Hb. unfold AutogradRun.rem in Hb. lia.
Qed.

(** ** Steps. *)
Definition scheduled_in (P : Pass (V := V)) log lost : list node_id := (fn_ <$> ready (task P) ++ running P) ++ called log ++ lost.

(** What is left to do: a function that was not queued yet takes four steps. *)
Definition work (P : Pass (V := V)) log lost : Z :=
  4 * (Z.of_nat (size g) - Z.of_nat (length (scheduled_in P log lost))) + 4 * Z.of_nat (length (ready (task P))) +
  3 * Z.of_nat (length (running P)) + 2 * Z.of_nat (evaluated P) + Z.of_nat (finishing P).

Lemma going_size P log lost : going P log lost → (length (scheduled_in P log lost) ≤ size g)%nat.
Proof.
  intros Hgo. apply NoDup_size; [apply (go_sched _ _ _ Hgo)|]. intros c Hc.
  destruct (live_exists c) as [n Hn]; [|by eexists]. by apply (scheduled_live _ _ _ c (go_sched _ _ _ Hgo)).
Qed.

Lemma scheduled_in_length P log lost : length (scheduled_in P log lost) = (length (ready (task P)) + length (running P) + length log + length lost)%nat.
Proof. unfold scheduled_in, called. rewrite !length_app, !length_fmap, length_app. lia. Qed.

(** The exceptions in the future of [P'] that are not in that of [P] come from
    the call [o]. *)
Definition exceptions (P : Pass (V := V)) (o : label (V := V)) (P' : Pass (V := V)) : Prop :=
  ∀ e, future_result_ (task P') = Some (Throw e) →
    future_result_ (task P) = Some (Throw e) ∨ ∃ c inputs, o = Some (c, inputs) ∧ throws g validate_grad c inputs e.

(** What a step does to the account. *)
Definition accounts (o : label (V := V)) (P' : Pass (V := V)) log log' : Prop :=
  match o with
  | None => log' = log
  | Some (c, inputs) => (∃ outs, log' = log ++ [(c, inputs, outs)]) ∨ (log' = log ∧ has_error_ (task P') = true)
  end.

Lemma going_skip s r1 r2 t run ev fi log lost :
  ready s = r1 ++ t :: r2 → has_error_ s = true → going (mkPass s run ev fi) log lost →
  going (mkPass (set_ready (r1 ++ r2) s) run (S ev) fi) log (lost ++ [fn_ t]).
Proof.
  intros Er He [G1 G2 G3 G4 G5 G6 G7 G8 G9 G10]. cbn in *. rewrite Er in *. split; cbn; try done.
  - eapply scheduled_same; [exact G1| |done..]. rewrite !fmap_app, fmap_cons. solve_Permutation.
  - intros u Hu. apply G2. set_solver.
  - rewrite G4, !length_app. cbn. lia.
Qed.

Lemma going_start s r1 r2 t run ev fi log lost :
  ready s = r1 ++ t :: r2 → going (mkPass s run ev fi) log lost → going (mkPass (set_ready (r1 ++ r2) s) (run ++ [t]) ev fi) log lost.
Proof.
  intros Er [G1 G2 G3 G4 G5 G6 G7 G8 G9 G10]. cbn in *. rewrite Er in *. split; cbn; try done.
  - eapply scheduled_same; [exact G1| |done..]. rewrite !fmap_app, fmap_cons. solve_Permutation.
  - intros u Hu. apply G2. set_solver.
  - rewrite G4, !length_app. cbn. lia.
Qed.

(** A function throws. *)
Lemma going_throw s r1 r2 t cap calls e ev fi log lost :
  going (mkPass s (r1 ++ t :: r2) ev fi) log lost → length cap = length (captured_vars_ s) →
  going (mkPass (fst (set_exception e (set_calls calls (set_captured cap s)))) (r1 ++ r2) (S ev) fi) log (lost ++ [fn_ t]).
Proof.
  intros [G1 G2 G3 G4 G5 G6 G7 G8 G9 G10] Hcap. cbn in *. unfold future_ok in G7. cbn in G7.
  assert (∀ s', exec_info_ s' = exec_info_ s → dependencies_ s' = dependencies_ s → not_ready_ s' = not_ready_ s → ready s' = ready s →
    outstanding_tasks_ s' = outstanding_tasks_ s → exit_on_error_ s' = exit_on_error_ s → has_error_ s' = true → future_completed_ s' = true →
    captured_vars_ s' = cap → (∃ x, future_result_ s' = Some (Throw x)) → going (mkPass s' (r1 ++ r2) (S ev) fi) log (lost ++ [fn_ t])) as Hgo.
  { intros s' E1 E2 E3 E4 E5 E6 E7 E8 E9 [x E10]. split; cbn; rewrite ?E4, ?E5, ?E6; try done.
    - eapply scheduled_same; [exact G1| |done..]. rewrite !fmap_app, fmap_cons. solve_Permutation.
    - intros u Hu. apply G2. set_solver.
    - rewrite G4, !length_app. cbn. lia.
    - unfold future_ok. by rewrite E10.
    - intros Hno. rewrite E9, Hcap, E7. split; [|done]. apply G8. intros r Hr. rewrite Hr in G7. destruct G7 as (_ & _ & Hz & _).
      rewrite G4 in Hz. rewrite !length_app in Hz. cbn in Hz. lia.
    - intros Hz. right. done.
    - congruence. }
  unfold set_exception, modify. cbn [fst]. change (future_completed_ (set_error (set_calls calls (set_captured cap s)))) with (future_completed_ s).
  destruct (future_completed_ s) eqn:Ef; [|apply Hgo; try done; by exists e].
  apply Hgo; try done. cbn. destruct (future_result_ s) as [[r|x]|]; [|by exists x|by destruct G7].
  destruct G7 as (_ & _ & Hz & _). rewrite G4, !length_app in Hz. cbn in Hz. lia.
Qed.

(** A function returns, and its outputs were delivered: [new] functions are
    ready. *)
Lemma going_return s s1 s' r1 r2 t ev fi log lost outs new n :
  going (mkPass s (r1 ++ t :: r2) ev fi) log lost → g !! fn_ t = Some n →
  s1 = set_calls (if flows (fn_ t) then calls_ s ++ [(fn_ t, inputs_ t)] else calls_ s)
         (set_captured (captured_by g exec (fn_ t) (inputs_ t) (captured_vars_ s)) s) → delivered s1 s' new →
  (∀ d, cnt d (zip (out_edges g (fn_ t)) outs).*1 ≤ rem d (deliveries log)) →
  scheduled s' (deliveries log ++ zip (out_edges g (fn_ t)) outs) (((fn_ <$> ready s ++ r1 ++ t :: r2) ++ called log ++ lost) ++ (fn_ <$> new)) →
  (∀ u, u ∈ new → inputs_ u = buffer (fn_ u) (deliveries log ++ zip (out_edges g (fn_ t)) outs) ∧ fn_ u ≠ root) →
  exec = ∅ ∨ is_Some (new_inputs g exec (fn_ t) (inputs_ t)) →
  (if flows (fn_ t) then call_function validate_grad n (inputs_ t) = Ok outs ∧ length outs = length (out_edges g (fn_ t)) else outs = []) →
  going (mkPass s' (r1 ++ r2) (S ev) fi) (log ++ [(fn_ t, inputs_ t, outs)]) lost.
Proof.
  intros [G1 G2 G3 G4 G5 G6 G7 G8 G9 G10] Hn Es1 [D1 D2 D3 D4 D8 (D5 & D6 & D7)] Hrem Hs Hnew Hnin Hout. subst s1. cbn in *.
  set (more := zip (out_edges g (fn_ t)) outs) in *.
  assert (deliveries (log ++ [(fn_ t, inputs_ t, outs)]) = deliveries log ++ more) as Ed by apply deliveries_snoc.
  assert (∀ c, c ∈ (fn_ <$> ready s ++ r1 ++ t :: r2) ++ called log ++ lost → c = root ∨ cnt c more.*1 = 0) as Hold.
  { intros c Hc. destruct (decide (c = root)) as [|Hne]; [by left|right]. destruct (scheduled_live _ _ _ c G1 Hc) as [_ Hz].
    specialize (Hz Hne). pose proof (Hrem c). pose proof (cnt_nonneg c more.*1). lia. }
  assert (∀ u, u ∈ ready s ++ r1 ++ t :: r2 → inputs_ u = inputs_of (fn_ u) (deliveries log ++ more)) as Hq.
  { intros u Hu. rewrite inputs_of_more; [by apply G2|]. apply Hold, elem_of_app. left. by apply list_elem_of_fmap_2. }
  assert (future_result_ s' = future_result_ s ∧ ∀ r, future_result_ s ≠ Some (Ok r)) as [Ef Hno].
  { split; [done|]. intros r Hr. unfold future_ok in G7. rewrite Hr in G7. destruct G7 as (_ & _ & Hz & _). rewrite G4, !length_app in Hz. cbn in Hz. lia. }
  split; cbn; rewrite ?Ed; try congruence.
  - eapply scheduled_same; [exact Hs| |done..]. unfold called. rewrite D1, !fmap_app, fmap_cons. cbn. solve_Permutation.
  - intros u. rewrite D1. intros Hu. assert (u ∈ ready s ++ r1 ++ t :: r2 ∨ u ∈ new) as [Hu'|Hu'] by set_solver; [by apply Hq|].
    destruct (Hnew u Hu') as [-> Hr]. unfold inputs_of. by rewrite decide_False.
  - apply Forall_app. split.
    + apply Forall_forall. intros x Hx. apply entry_ok_more; [|by eapply (proj1 (Forall_forall _ _) G3)].
      apply Hold, elem_of_app. right. apply elem_of_app. left. by apply (list_elem_of_fmap_2 (λ x : entry, x.1.1)).
    + apply Forall_singleton. split; [apply Hq; set_solver|]. split; [done|]. by exists n.
  - rewrite D2, D1, G4, !length_app. cbn. lia.
  - rewrite D4. done.
  - unfold future_ok in *. rewrite D6, D5, D4. destruct (future_result_ s) as [[r|x]|]; [by destruct (Hno r)|done..].
  - intros _. rewrite D3, D4, captured_by_length. destruct (G8 Hno) as [Hlen Hc]. split; [done|]. intros He. rewrite (Hc He).
    unfold captured. by rewrite foldl_app.
  - rewrite D2, G4, !length_app. cbn. lia.
  - rewrite D4, D8, calls_in_snoc. intros He. cbn. rewrite (G10 He). by destruct (flows (fn_ t)); rewrite ?app_nil_r.
Qed.

Lemma going_evaluate s r1 r2 c inputs ev fi log lost :
  going (mkPass s (r1 ++ mkNodeTask c inputs :: r2) ev fi) log lost →
  ∃ log' lost', let P' := mkPass (run_task g accumulate validate_grad c inputs s) (r1 ++ r2) (S ev) fi in
    going P' log' lost' ∧ accounts (Some (c, inputs)) P' log log' ∧ (has_error_ s = true → has_error_ (task P') = true) ∧
    exceptions (mkPass s (r1 ++ mkNodeTask c inputs :: r2) ev fi) (Some (c, inputs)) P' ∧ work P' log' lost' = work (mkPass s (r1 ++ mkNodeTask c inputs :: r2) ev fi) log lost - 1.
Proof.
  intros Hgo. set (t := mkNodeTask c inputs) in *. pose proof (go_sched _ _ _ Hgo) as Hs. cbn [task running] in Hs.
  assert (c ∈ (fn_ <$> ready s ++ r1 ++ t :: r2) ++ called log ++ lost) as Hin.
  { apply elem_of_app. left. apply list_elem_of_fmap. exists t. split; [done|set_solver]. }
  destruct (scheduled_live _ _ _ c Hs Hin) as [Hlive _]. destruct (live_exists c Hlive) as [n Hn].
  assert (inputs = inputs_of c (deliveries log)) as Hinp by (apply (go_queue _ _ _ Hgo t); cbn; set_solver).
  assert (∀ r, future_result_ s ≠ Some (Ok r)) as Hno.
  { intros r Hr. pose proof (go_future _ _ _ Hgo) as Hf. unfold future_ok in Hf. cbn in Hf. rewrite Hr in Hf. destruct Hf as (_ & _ & Hz & _).
    pose proof (go_out _ _ _ Hgo) as Ho. cbn in Ho. rewrite Ho, !length_app in Hz. cbn in Hz. lia. }
  destruct (go_captured _ _ _ Hgo Hno) as [Hclen _]. cbn [task] in Hclen.
  assert (∀ l i o, new_inputs g exec c inputs = Some l → (i, o) ∈ captures_of exec c → (i < length l)%nat ∧ (o < length (captured_vars_ s))%nat) as Hcap.
  { intros l i o Hl Hio. destruct (pk_captures Hplan c n i o Hn Hio) as [Hi Ho]. rewrite Hclen. split; [|done].
    rewrite <- (inputs_of_length c n (deliveries log) Hn), <- Hinp in Hi. unfold new_inputs in Hl. destruct (exec !! c) as [x|]; [|done].
    rewrite Hn in Hl. destruct (needed_ x); [by injection Hl as <-|]. destruct (call_tensor_pre_hooks n inputs) as [l0|] eqn:E; [|done].
    injection Hl as <-. by rewrite (gk_hooks Hg c n inputs l0 Hn E). }
  pose proof (evaluate_function_spec g accumulate validate_grad exec c n inputs s Hn (sc_exec _ _ _ _ _ _ _ _ Hs) (live_exec c Hlive) Hcap) as Hev.
  unfold run_task. inversion Hev as [e cap calls Hthrow Hcap2 Heq|Hf Hnin Heq|outs Hf Hnin Hcall Heq]; clear Hev.
  - exists log, (lost ++ [c]). split; [by apply (going_throw s r1 r2 t)|]. split; [right; split; [done|]|split].
    + cbn. unfold set_exception, modify. cbn. by destruct (future_completed_ s).
    + intros _. cbn. unfold set_exception, modify. cbn. by destruct (future_completed_ s).
    + split. { intros x. unfold set_exception, modify. cbn. destruct (future_completed_ s); cbn; [by left|]. intros [= <-]. right. by exists c, inputs. }
      unfold work. rewrite !scheduled_in_length. unfold set_exception, modify. cbn. destruct (future_completed_ s); cbn; rewrite !length_app; cbn; lia.
  - exists (log ++ [(c, inputs, [])]), lost. split; [|split; [left; by exists []|split; [done|split; [by left|]]]].
    + set (s1 := set_captured _ s). apply (going_return s s1 s1 r1 r2 t ev fi log lost [] [] n Hgo Hn); rewrite ?zip_with_nil_r; try done.
      * cbn [fn_ t]. by rewrite Hf.
      * apply delivered_refl.
      * intros d. cbn. apply (sc_bound _ _ _ _ _ _ _ _ Hs).
      * rewrite !app_nil_r. by eapply scheduled_same.
      * by intros u ?%not_elem_of_nil.
      * cbn. by rewrite Hf.
    + unfold work. rewrite !scheduled_in_length. cbn. rewrite !length_app. cbn. lia.
  - pose proof (gk_outputs Hg c n inputs outs Hn Hcall) as Hlen. assert (out_edges g c = next_edges n) as Eo by (unfold out_edges; by rewrite Hn).
    assert (c ∉ called log) as Hncalled.
    { intros Hc. pose proof (sc_NoDup _ _ _ _ _ _ _ _ Hs) as Hnd. apply NoDup_app in Hnd as (_ & Hnd & _). apply (Hnd c); [|set_solver].
      apply list_elem_of_fmap. exists t. split; [done|set_solver]. }
    pose proof (edges_pending _ _ _ c n Hgo Hlive Hf Hn Hncalled) as Hpend.
    set (s1 := set_calls (calls_ s ++ [(c, inputs)]) (set_captured (captured_by g exec c inputs (captured_vars_ s)) s)).
    destruct (deliver_all_spec g accumulate validate_grad root ps exec s1 (deliveries log) ((fn_ <$> ready s ++ r1 ++ t :: r2) ++ called log ++ lost) (next_edges n) outs)
      as (s' & new & E & Hd & Hs' & Hnew); [by eapply scheduled_same|done|done|by apply (live_edges c)|].
    fold s1. rewrite E. exists (log ++ [(c, inputs, outs)]), lost. split; [|split; [left; by exists outs|split; [cbn; by rewrite (dv_error _ _ _ Hd)|split]]].
    + apply (going_return s s1 s' r1 r2 t ev fi log lost outs new n Hgo Hn); cbn [fn_ inputs_ t]; rewrite ?Eo; try done.
      * by rewrite Hf.
      * intros d. rewrite fst_zip by lia. apply Hpend.
      * by rewrite Hf.
    + intros x. cbn. destruct (dv_future _ _ _ Hd) as (_ & -> & _). by left.
    + unfold work. rewrite !scheduled_in_length. cbn. rewrite (dv_ready _ _ _ Hd). cbn. rewrite !length_app. cbn. lia.
Qed.

Lemma going_complete s run ev fi log lost : completed s = true → going (mkPass s run ev (S fi)) log lost →
  let s' := mark_as_completed_and_run_post_processing s in
  going (mkPass s' run ev fi) log lost ∧ has_error_ s' = has_error_ s ∧ ready s' = ready s ∧
  ∀ e, future_result_ s' = Some (Throw e) → future_result_ s = Some (Throw e).
Proof.
  intros Hc Hgo. pose proof Hgo as [G1 G2 G3 G4 G5 G6 G7 G8 G9 G10]. cbn in *. unfold mark_as_completed_and_run_post_processing.
  destruct (future_completed_ s) eqn:Ef; [split; [split; cbn; try done; intros _; by right|done]|].
  assert (outstanding_tasks_ s = 0) as Hz by (unfold completed in Hc; rewrite G5, orb_false_r in Hc; by apply Z.eqb_eq in Hc).
  assert (has_error_ s = false ∧ future_result_ s = None) as [Ee Er].
  { unfold future_ok in G7. rewrite Ef in G7. destruct (future_result_ s) as [[r|x]|]; [by destruct G7|by destruct G7|by destruct G7]. }
  assert (lost = []) as -> by (destruct lost; [done|]; by rewrite G6 in Ee).
  assert (ready s = [] ∧ run = [] ∧ ev = 0%nat) as (Er1 & Er2 & ->).
  { rewrite G4, length_app in Hz. destruct (ready s), run; cbn in Hz; try lia. split; [done|]. split; [done|]. lia. }
  destruct (all_called _ _ Hgo Er1 Er2) as [_ Hnr]. cbn in Hnr. rewrite Hnr, bool_decide_true by done. cbn. split; [|done].
  destruct (G8 ltac:(by rewrite Er)) as [Hlen Hcap]. split; cbn; try done.
  - by eapply scheduled_same.
  - unfold future_ok. cbn. split; [done|]. split; [done|]. split; [done|]. by rewrite Hcap.
  - intros Hno. by destruct (Hno (captured_vars_ s)).
  - by right.
Qed.

Lemma going_step P o P' log lost : step g accumulate validate_grad P o P' → going P log lost →
  ∃ log' lost', going P' log' lost' ∧ accounts o P' log log' ∧ (has_error_ (task P) = true → has_error_ (task P') = true) ∧
    exceptions P o P' ∧ work P' log' lost' ≤ work P log lost - 1.
Proof.
  intros Hstep Hgo. destruct Hstep as [s r1 r2 t run ev fi Er He|s r1 r2 t run ev fi Er He|s r1 r2 c inputs ev fi|s run ev fi|s run ev fi Hc|s run ev fi Hc].
  - exists log, (lost ++ [fn_ t]). split; [by apply going_skip|]. split; [done|]. split; [done|]. split; [by left|].
    unfold work. rewrite !scheduled_in_length. cbn. rewrite Er, !length_app. cbn. lia.
  - exists log, lost. split; [by apply going_start|]. split; [done|]. split; [done|]. split; [by left|].
    unfold work. rewrite !scheduled_in_length. cbn. rewrite Er, !length_app. cbn. lia.
  - destruct (going_evaluate s r1 r2 c inputs ev fi log lost Hgo) as (log' & lost' & H1 & H2 & H3 & H5 & H4). exists log', lost'.
    split; [done|]. split; [done|]. split; [done|]. split; [done|]. cbv zeta in H4. lia.
  - exists log, lost. destruct Hgo as [G1 G2 G3 G4 G5 G6 G7 G8 G9 G10]. cbn in *. split; [|split; [done|split; [done|split; [by left|unfold work; rewrite !scheduled_in_length; cbn; lia]]]].
    split; cbn; try done; [by eapply scheduled_same|lia| |intros _; left; lia].
    unfold future_ok in *. cbn in *. destruct (future_result_ s) as [[r|x]|]; [|done..]. destruct G7 as (_ & _ & Hz & _). lia.
  - exists log, lost. split; [|split; [done|split; [done|split; [by left|unfold work; rewrite !scheduled_in_length; cbn; lia]]]].
    destruct Hgo as [G1 G2 G3 G4 G5 G6 G7 G8 G9 G10]. cbn in *. split; cbn; try done. intros Hz. unfold completed in Hc. by rewrite Hz in Hc.
  - destruct (going_complete s run ev fi log lost Hc Hgo) as (H1 & H2 & H3 & H4). exists log, lost. split; [done|]. split; [done|].
    cbn. rewrite H2. split; [done|]. split; [intros e He; left; by apply H4|]. unfold work. rewrite !scheduled_in_length. cbn. rewrite H3. lia.
Qed.

Definition thrown (calls : list (node_id * variable_list V)) (e : exn) : Prop :=
  ∃ c inputs, (c, inputs) ∈ calls ∧ throws g validate_grad c inputs e.

Lemma going_steps k P calls P' log lost : steps g accumulate validate_grad k P calls P' → going P log lost →
  ∃ more lost', going P' (log ++ more) lost' ∧ work P' (log ++ more) lost' ≤ work P log lost - Z.of_nat k ∧
    (has_error_ (task P') = false → calls = (λ x : entry, x.1) <$> more) ∧
    ∀ e, future_result_ (task P') = Some (Throw e) → future_result_ (task P) = Some (Throw e) ∨ thrown calls e.
Proof.
  induction 1 as [P|k P1 o P2 l P3 _ IH Hstep]; intros Hgo.
  - exists [], lost. rewrite app_nil_r. split; [done|]. split; [lia|]. split; [done|]. by left.
  - destruct (IH Hgo) as (more & lost2 & Hgo2 & Hw2 & Hl & Hx2).
    destruct (going_step _ _ _ _ _ Hstep Hgo2) as (log3 & lost3 & Hgo3 & Ha & He & Hx3 & Hw3).
    assert (∃ more', log3 = (log ++ more) ++ more' ∧ (has_error_ (task P3) = false → match o with Some x => [x] | None => [] end = (λ x : entry, x.1) <$> more')) as (more' & -> & Hm).
    { destruct o as [[c inputs]|]; cbn in Ha.
      - destruct Ha as [[outs ->]|[-> Her]]; [exists [(c, inputs, outs)]; done|]. exists []. rewrite app_nil_r. split; [done|]. intros. congruence.
      - exists []. rewrite app_nil_r. done. }
    exists (more ++ more'), lost3. rewrite app_assoc. split; [done|]. split; [lia|]. split.
    + intros Hno. rewrite fmap_app, <- Hm, <- Hl by (done || (destruct (has_error_ (task P2)) eqn:E2; [rewrite He in Hno; done|done])). done.
    + intros e He3. destruct (Hx3 e He3) as [He2|(c & inputs & -> & Ht)].
      * destruct (Hx2 e He2) as [?|(c & inputs & Hin & Ht)]; [by left|right]. exists c, inputs. split; [set_solver|done].
      * right. exists c, inputs. split; [set_solver|done].
Qed.

(** Of the functions that were evaluated, those that propagate gradients were
    called. *)
Lemma pass_calls k P0 calls P vars : going P0 [] [] → steps g accumulate validate_grad k P0 calls P →
  future_result_ (task P) = Some (Ok vars) → calls_ (task P) = filter (λ x, flows x.1 = true) calls.
Proof.
  intros H0 Hst Hr. destruct (going_steps _ _ _ _ _ _ Hst H0) as (log & lost & Hgo & _ & Hcalls & _). cbn in *.
  pose proof (go_future _ _ _ Hgo) as Hf. unfold future_ok in Hf. rewrite Hr in Hf. destruct Hf as (_ & He & _).
  rewrite (Hcalls He), (go_calls _ _ _ Hgo He). unfold calls_in. clear.
  induction log as [|x log IH]; [done|]. rewrite fmap_cons, !filter_cons. case_decide; [rewrite fmap_cons|]; by rewrite IH.
Qed.

(** Nothing is left to do. *)
Definition stuck (P : Pass (V := V)) : Prop := ∀ o P', ¬ step g accumulate validate_grad P o P'.

Lemma stuck_empty P : stuck P → ready (task P) = [] ∧ running P = [] ∧ evaluated P = 0%nat ∧ finishing P = 0%nat.
Proof.
  intros Hst. destruct P as [s run ev fi]. cbn. split; [|split; [|split]].
  - destruct (ready s) as [|t r] eqn:E; [done|]. destruct (has_error_ s) eqn:Ee; exfalso.
    + by eapply Hst, (step_skip _ _ _ s []).
    + by eapply Hst, (step_start _ _ _ s []).
  - destruct run as [|[c inputs] r]; [done|]. exfalso. eapply Hst, (step_evaluate _ _ _ s []).
  - destruct ev; [done|]. exfalso. eapply Hst, step_decrement.
  - destruct fi; [done|]. exfalso. destruct (completed s) eqn:E; [by eapply Hst, step_complete|by eapply Hst, step_continue].
Qed.

(** The account at the end of a pass. *)
Record finished_with (calls : list (node_id * variable_list V)) (r : result (variable_list V)) log : Prop := {
  fw_calls : calls = (λ x : entry, x.1) <$> log;
  fw_once : NoDup (called log);
  fw_live c : c ∈ called log ↔ live c;
  fw_log : Forall (entry_ok (deliveries log)) log;
  fw_result : r = Ok (captured log)
}.

Lemma pass_finishes k P0 calls P : going P0 [] [] → future_result_ (task P0) = None → steps g accumulate validate_grad k P0 calls P →
  Z.of_nat k ≤ work P0 [] [] ∧
  (stuck P → ∃ r, future_result_ (task P) = Some r ∧ ((∃ e, r = Throw e ∧ thrown calls e) ∨ ∃ log, finished_with calls r log)).
Proof.
  intros H0 Hn0 Hst. destruct (going_steps _ _ _ _ _ _ Hst H0) as (log & lost & Hgo & Hw & Hcalls & Hx). cbn in *.
  pose proof (going_size _ _ _ Hgo) as Hsz. split; [unfold work in Hw at 1; lia|].
  intros Hstuck. destruct (stuck_empty P Hstuck) as (Er1 & Er2 & Eev & Efi).
  assert (outstanding_tasks_ (task P) = 0) as Hz by (rewrite (go_out _ _ _ Hgo), Er1, Er2, Eev; done).
  destruct (go_done _ _ _ Hgo Hz) as [?|Hf]; [lia|]. pose proof (go_future _ _ _ Hgo) as Hfut. unfold future_ok in Hfut. rewrite Hf in Hfut.
  destruct (future_result_ (task P)) as [[r|e]|] eqn:Er; [|exists (Throw e); split; [done|]; left; exists e; split; [done|]; destruct (Hx e eq_refl); [congruence|done]|by destruct Hfut].
  destruct Hfut as (_ & Hne & _ & ->). exists (Ok (captured log)). split; [done|]. right. exists log.
  assert (lost = []) as -> by (destruct lost; [done|]; by rewrite (go_lost _ _ _ Hgo) in Hne).
  pose proof (go_sched _ _ _ Hgo) as Hs. rewrite Er1, Er2, !app_nil_r in Hs. cbn in Hs.
  split; [by apply Hcalls|apply Hs| |apply Hgo|done]. intros c. split; [by apply (scheduled_live _ _ _ c Hs)|]. by apply (all_called P log Hgo).
Qed.
End Pass.
