(* ===== verification/AutogradStart.v ===== *)
(** * The autograd engine: the start of a pass.

    The plan that [prepare] computes is one that the account of a pass can start
    from, and what it means for a function to take part. *)

From S2P Require Import Prelude SafeNum AutogradGraph AutogradPlan AutogradSearch AutogradEngine AutogradRun AutogradPass.

Section Start.
Context {V : Type} (g : Graph V) (accumulate : V → V → V) (validate_grad : Edge → V → result V) (Hg : graph_ok g validate_grad).
Implicit Types (c p root : node_id) (outputs : list Edge).

Local Abbreviation Ht := (gk_topological _ _ Hg).

Lemma min_topological_nr_spec m outputs : 0 ≤ m → (∀ e, e ∈ outputs → ∃ c, function e = Some c ∧ is_Some (g !! c)) →
  ∃ m', min_topological_nr g m outputs = Ok m' ∧ 0 ≤ m' ≤ m ∧ ∀ o, o ∈ outs_of outputs → m' ≤ topo g o.
Proof.
  revert m. induction outputs as [|e r IH]; intros m Hm Hv; cbn [min_topological_nr].
  - exists m. split; [done|]. split; [lia|]. by intros o ?%not_elem_of_nil.
  - destruct (Hv e ltac:(by left)) as (c & Ec & n & Hn). unfold edge_node, node. rewrite Ec. cbn [mbind result_bind]. rewrite Hn. cbn [mbind result_bind].
    assert (topo g c = topological_nr_ n) as Et by (unfold topo; by rewrite Hn). pose proof (topo_nonneg _ Ht c).
    destruct (IH (if m <? topological_nr_ n then m else topological_nr_ n)) as (m' & -> & Hle & Hmin); [case_bool; lia|by intros e' ?; apply Hv; right|].
    exists m'. split; [done|]. split; [destruct (m <? topological_nr_ n) eqn:E; bool_simpl; lia|]. intros o. unfold outs_of. cbn. rewrite Ec. cbn.
    intros [-> |Ho]%elem_of_cons; [destruct (m <? topological_nr_ n) eqn:E; bool_simpl; lia|by apply Hmin].
Qed.

Lemma compute_min_spec outputs : (∀ e, e ∈ outputs → ∃ c, function e = Some c ∧ is_Some (g !! c)) →
  ∃ m, compute_min_topological_nr g outputs = Ok m ∧ (outputs = [] → m = 0) ∧ ∀ o, o ∈ outs_of outputs → m ≤ topo g o.
Proof.
  intros Hv. unfold compute_min_topological_nr. destruct outputs as [|e r]; [exists 0; split; [done|]; split; [done|]; by intros o ?%not_elem_of_nil|].
  destruct (min_topological_nr_spec (2 ^ 64 - 1) (e :: r) ltac:(lia) Hv) as (m & -> & _ & Hm). exists m. done.
Qed.

(** The nodes of a plan are reached from the root. *)
Lemma planned_reached root min ps d N c : planned g root min ps d N → c = root ∨ c ∈ N → rtc (edge g) root c.
Proof.
  intros Hp. assert (∀ k c, topo g root - topo g c ≤ Z.of_nat k → c = root ∨ c ∈ N → rtc (edge g) root c) as Hall.
  { induction k as [|k IH]; intros x Hk [-> |Hx]; try done.
    - pose proof (pl_below _ _ _ _ _ _ Hp x Hx). lia.
    - apply (pl_graph _ _ _ _ _ _ Hp) in Hx as (p & Hps & He). apply (pl_nodes _ _ _ _ _ _ Hp) in Hps as [Hpr _].
      eapply rtc_r; [|exact He]. apply IH; [|done]. pose proof (proj2 (topo_edge _ Ht p x He)). lia. }
  apply (Hall (Z.to_nat (topo g root - topo g c))). lia.
Qed.

Lemma planned_in root min ps d N c : planned g root min ps d N → 0 < cnt c (edges_from g ps) ↔ c ∈ N.
Proof. intros Hp. by rewrite edges_from_pos, (pl_graph _ _ _ _ _ _ Hp). Qed.

Lemma captures_for_spec c outputs k i o : (i, o) ∈ captures_for c outputs k →
  ∃ e, outputs !! (o - k)%nat = Some e ∧ (k ≤ o)%nat ∧ function e = Some c ∧ i = input_nr e.
Proof.
  revert k. induction outputs as [|e r IH]; intros k; cbn; [by intros ?%not_elem_of_nil|]. rewrite elem_of_app. intros [Hin|Hin].
  - case_decide as Ec; [|by apply not_elem_of_nil in Hin]. apply list_elem_of_singleton in Hin as [= -> ->]. exists e. by rewrite Nat.sub_diag.
  - destruct (IH (S k) Hin) as (e' & He & Hle & Hc & Hi). exists e'. replace (o - k)%nat with (S (o - S k)) by lia. split; [done|]. split; [lia|done].
Qed.

Lemma captures_for_in c outputs k j e : outputs !! j = Some e → function e = Some c → (input_nr e, (k + j)%nat) ∈ captures_for c outputs k.
Proof.
  revert k j. induction outputs as [|x r IH]; intros k j; [done|]. destruct j as [|j]; cbn; intros He Hc; apply elem_of_app.
  - injection He as ->. left. rewrite decide_True by done. rewrite Nat.add_0_r. by left.
  - right. rewrite Nat.add_succ_r. by apply (IH (S k)).
Qed.

(** The outputs are inputs of functions that exist. *)
Definition outputs_fit root (root_inputs : variable_list V) outputs : Prop :=
  ∀ e, e ∈ outputs → ∃ c n, function e = Some c ∧ g !! c = Some n ∧ (input_nr e < if decide (c = root) then length root_inputs else num_inputs n)%nat.

Lemma flows_all p : flows ∅ p = true.
Proof. unfold flows. by rewrite bool_decide_true. Qed.

Lemma skip_none p : skip ∅ p = false.
Proof. unfold skip. by rewrite bool_decide_true. Qed.

Lemma flows_needed exec p : exec ≠ ∅ → flows exec p = needed exec p.
Proof. intros Hne. unfold flows. by rewrite bool_decide_false. Qed.

Lemma skip_should exec p : exec ≠ ∅ → skip exec p = negb (nodeShouldExecute exec p).
Proof. intros Hne. unfold skip. by rewrite bool_decide_false. Qed.

Lemma plan_default root root_inputs ps d N : is_Some (g !! root) → planned g root 0 ps d N → plan_ok g root root_inputs ps ∅ 0.
Proof.
  intros Hr Hp. split; try done.
  - apply Hp.
  - destruct (decide (0 < cnt root (edges_from g ps))) as [Hlt|]; [|pose proof (cnt_nonneg root (edges_from g ps)); lia].
    apply (planned_in _ _ _ _ _ _ Hp) in Hlt. pose proof (pl_below _ _ _ _ _ _ Hp root Hlt). lia.
  - intros c Hc%(planned_in _ _ _ _ _ _ Hp). by apply (pl_below _ _ _ _ _ _ Hp).
  - intros p Hl _. apply (pl_nodes _ _ _ _ _ _ Hp). split; [|apply (topo_nonneg _ Ht)].
    destruct Hl as [?|[Hc _]]; [by left|right]. by apply (planned_in _ _ _ _ _ _ Hp).
  - intros p c Hps _ _. split; [apply flows_all|]. apply (pl_nodes _ _ _ _ _ _ Hp) in Hps as [[?|Hin] _]; [by left|right].
    split; [by apply (planned_in _ _ _ _ _ _ Hp)|apply skip_none].
  - by left.
  - intros c n i o _. unfold captures_of, info_at. rewrite lookup_empty. cbn. by intros ?%not_elem_of_nil.
Qed.

Lemma plan_outputs root root_inputs acc outputs min ps d N exec : is_Some (g !! root) → planned g root min ps d N →
  (∀ o, o ∈ outs_of outputs → min ≤ topo g o) → executing g root acc outputs exec → outputs_fit root root_inputs outputs →
  plan_ok g root root_inputs ps exec (if (acc : bool) then 0 else length outputs).
Proof.
  intros Hr Hp Hmin [X1 X2 X3 X4 X5] Hfit. assert (exec ≠ ∅) as Hne by (intros ->; rewrite lookup_empty in X5; by destruct X5).
  assert (∀ p, live g root ps exec p → rtc (edge g) root p) as Hreach.
  { intros p [-> |[Hc _]]; [done|]. apply (planned_reached root min ps d N p Hp). right. by apply (planned_in _ _ _ _ _ _ Hp). }
  split; try done.
  - apply Hp.
  - destruct (decide (0 < cnt root (edges_from g ps))) as [Hlt|]; [|pose proof (cnt_nonneg root (edges_from g ps)); lia].
    apply (planned_in _ _ _ _ _ _ Hp) in Hlt. pose proof (pl_below _ _ _ _ _ _ Hp root Hlt). lia.
  - intros c Hc%(planned_in _ _ _ _ _ _ Hp). by apply (pl_below _ _ _ _ _ _ Hp).
  - intros p Hl Hf. rewrite flows_needed in Hf by done. apply (pl_nodes _ _ _ _ _ _ Hp). split.
    + destruct Hl as [?|[Hc _]]; [by left|right]. by apply (planned_in _ _ _ _ _ _ Hp).
    + apply (leads_min g Ht min (outs_of outputs) Hmin). apply X2 in Hf as [[_ Ho]|(c & Hc & Hl')]; [|by apply (leads_edge g _ p c)|by apply Hreach]. by exists p.
  - intros p c Hps He Hsk. rewrite skip_should in Hsk by done. apply negb_false_iff, X3 in Hsk.
    pose proof (proj1 (proj1 (pl_nodes _ _ _ _ _ _ Hp p) Hps)) as Hpr. pose proof (planned_reached root min ps d N p Hp Hpr) as Hrp. split.
    + rewrite flows_needed by done. apply (X2 p Hrp). right. by exists c.
    + destruct Hpr as [?|Hin]; [by left|right]. split; [by apply (planned_in _ _ _ _ _ _ Hp)|]. rewrite skip_should by done. apply negb_false_iff.
      apply (X1 p Hrp). by apply (leads_edge g _ p c).
  - by right.
  - intros c n i o Hn. unfold captures_of. rewrite X4. destruct acc; [by intros ?%not_elem_of_nil|].
    intros (e & He & _ & Hc & ->)%captures_for_spec. rewrite Nat.sub_0_r in He. split; [|by apply lookup_lt_Some in He].
    destruct (Hfit e ltac:(by eapply list_elem_of_lookup_2)) as (c' & n' & Hc' & Hn' & Hlt). assert (c' = c) as -> by congruence. by assert (n' = n) as -> by congruence.
Qed.

(** ** The functions that take part in a pass, and those that propagate
    gradients. *)
Definition participates root outputs c : Prop := c = root ∨ (rtc (edge g) root c ∧ (outputs = [] ∨ leads g (outs_of outputs) c)).
Definition propagates (acc : bool) outputs c : Prop :=
  outputs = [] ∨ (acc = true ∧ c ∈ outs_of outputs) ∨ ∃ d, edge g c d ∧ leads g (outs_of outputs) d.

Lemma reached_planned root min ps d N c outs : planned g root min ps d N → (∀ o, o ∈ outs → min ≤ topo g o) →
  rtc (edge g) root c → leads g outs c → c = root ∨ c ∈ N.
Proof.
  intros Hp Hmin Hr. revert c Hr. apply (rtc_ind_r (λ c, leads g outs c → c = root ∨ c ∈ N) root); [by left|].
  intros p c _ He IH Hl. right. assert (leads g outs p) as Hlp by (by apply (leads_edge g _ p c)).
  apply (pl_graph _ _ _ _ _ _ Hp). exists p. split; [|done]. apply (pl_nodes _ _ _ _ _ _ Hp). split; [by apply IH|].
  by apply (leads_min g Ht min outs Hmin).
Qed.

Lemma reached_all root ps d N c : planned g root 0 ps d N → rtc (edge g) root c → c = root ∨ c ∈ N.
Proof.
  intros Hp. revert c. apply (rtc_ind_r (λ c, c = root ∨ c ∈ N) root); [by left|]. intros p c _ He IH. right.
  apply (pl_graph _ _ _ _ _ _ Hp). exists p. split; [|done]. apply (pl_nodes _ _ _ _ _ _ Hp). split; [done|apply (topo_nonneg _ Ht)].
Qed.

Record started root (root_inputs : variable_list V) acc outputs (P0 : Pass (V := V)) (ps : list node_id) (exec : gmap node_id ExecInfo) (ncap : nat) : Prop := {
  st_plan : plan_ok g root root_inputs ps exec ncap;
  st_going : going g accumulate validate_grad root root_inputs ps exec ncap P0 [] [];
  st_future : future_result_ (task P0) = None;
  st_work : work g P0 [] [] = 4 * Z.of_nat (size g);
  st_live c : live g root ps exec c ↔ participates root outputs c;
  st_flows c : participates root outputs c → flows exec c = true ↔ propagates acc outputs c;
  st_pred p c : live g root ps exec p → edge g p c → skip exec c = false → flows exec p = true;
  st_captures c : captures_of exec c = if acc then [] else captures_for c outputs 0;
  st_ncap : ncap = if acc then 0%nat else length outputs
}.

Lemma start_going root root_inputs ps exec ncap d : is_Some (g !! root) → deps_of (edges_from g ps) d → cnt root (edges_from g ps) = 0 →
  let P0 := queue_root root root_inputs (mkGraphTask 0 false false ∅ d exec (replicate ncap None) false None [] []) in
  going g accumulate validate_grad root root_inputs ps exec ncap P0 [] [] ∧ work g P0 [] [] = 4 * Z.of_nat (size g).
Proof.
  intros Hr Hd Hz. cbn. assert (0 < size g)%nat as Hsz.
  { destruct (size g) eqn:E; [|lia]. apply map_size_empty_inv in E. subst. by destruct Hr. }
  split; [|unfold work, scheduled_in; cbn; lia]. split; cbn; try done.
  - assert (∀ c, AutogradRun.rem g ps c [] = cnt c (edges_from g ps)) as Er by (intros c; unfold AutogradRun.rem, cnt; cbn; lia).
    split; cbn; try done.
    + intros c. rewrite Er. apply cnt_nonneg.
    + intros c. by rewrite Er, Hd.
    + apply NoDup_singleton.
    + intros c. rewrite Er, list_elem_of_singleton. split; [by left|]. intros [?|(? & ? & _)]; [done|lia].
  - intros t ->%list_elem_of_singleton. cbn. unfold inputs_of. by rewrite decide_True.
  - intros _. by rewrite length_replicate.
Qed.

Lemma executing_live root min ps d N exec acc outputs c : planned g root min ps d N → (∀ o, o ∈ outs_of outputs → min ≤ topo g o) →
  executing g root acc outputs exec → exec ≠ ∅ → outputs ≠ [] → live g root ps exec c ↔ participates root outputs c.
Proof.
  intros Hp Hmin [X1 X2 X3 X4 X5] Hne Ho. unfold live, participates. rewrite skip_should, negb_false_iff by done. split.
  - intros [?|[Hc Hs]]; [by left|]. apply (planned_in _ _ _ _ _ _ Hp) in Hc. right. split; [by eapply planned_reached; [|right]|].
    right. by apply X3.
  - intros [?|[Hr [?|Hl]]]; [by left|done|]. destruct (reached_planned _ _ _ _ _ c _ Hp Hmin Hr Hl) as [?|Hin]; [by left|right].
    split; [by apply (planned_in _ _ _ _ _ _ Hp)|by apply X1].
Qed.

Lemma default_live root ps d N c : planned g root 0 ps d N → live g root ps ∅ c ↔ participates root [] c.
Proof.
  intros Hp. unfold live, participates. split.
  - intros [?|[Hc _]]; [by left|right]. split; [|by left]. apply (planned_in _ _ _ _ _ _ Hp) in Hc. by eapply planned_reached; [|right].
  - intros [?|[Hr _]]; [by left|]. destruct (reached_all _ _ _ _ c Hp Hr) as [?|Hin]; [by left|right].
    split; [by apply (planned_in _ _ _ _ _ _ Hp)|apply skip_none].
Qed.

Lemma participates_reached root outputs c : participates root outputs c → rtc (edge g) root c.
Proof. by intros [-> |[? _]]. Qed.

Lemma start_spec root root_inputs acc outputs : is_Some (g !! root) → outputs_fit root root_inputs outputs →
  ∃ P0 ps exec ncap, start g root outputs acc root_inputs = Ok P0 ∧ started root root_inputs acc outputs P0 ps exec ncap.
Proof.
  intros Hr Hfit. destruct (compute_min_spec outputs) as (min & Emin & H0 & Hmin).
  { intros e He. destruct (Hfit e He) as (c & n & Hc & Hn & _). exists c. split; [done|by eexists]. }
  destruct (compute_dependencies_spec g Ht root min Hr) as (ps & d & N & Edep & Hp). unfold start, prepare. rewrite Emin. cbn [mbind result_bind]. rewrite Edep. cbn [mbind result_bind].
  destruct outputs as [|e outputs].
  - rewrite (H0 eq_refl) in *. clear H0 Emin Hmin. pose proof (plan_default root root_inputs ps d N Hr Hp) as Hplan. cbn.
    destruct (start_going root root_inputs ps ∅ 0 d Hr (pl_deps _ _ _ _ _ _ Hp) (pk_noroot _ _ _ _ _ _ Hplan)) as [Hgo Hw].
    exists (queue_root root root_inputs (mkGraphTask 0 false false ∅ d ∅ (replicate 0 None) false None [] [])), ps, ∅, 0%nat. split; [done|]. split; try done.
    + intros c. by apply (default_live _ _ d N).
    + intros c _. rewrite flows_all. split; [by left|done].
    + intros c. unfold captures_of, info_at. rewrite lookup_empty. by destruct acc.
    + by destruct acc.
  - set (outs := e :: outputs) in *. destruct (init_to_execute_spec g Ht root acc outs min Hr) as (exec & Einit & Hx); [|done|].
    { apply Forall_forall. intros x Hx. destruct (Hfit x Hx) as (c & n & Hc & _). unfold is_valid. apply bool_decide_eq_true. by eexists. }
    rewrite Einit. cbn [mbind result_bind]. pose proof (plan_outputs root root_inputs acc outs min ps d N exec Hr Hp Hmin Hx Hfit) as Hplan.
    set (ncap := if acc then 0%nat else length outs) in *. assert (exec ≠ ∅) as Hne by (intros ->; destruct (xi_root _ _ _ _ _ Hx) as [? H]; by rewrite lookup_empty in H).
    destruct (start_going root root_inputs ps exec ncap d Hr (pl_deps _ _ _ _ _ _ Hp) (pk_noroot _ _ _ _ _ _ Hplan)) as [Hgo Hw].
    exists (queue_root root root_inputs (mkGraphTask 0 false false ∅ d exec (replicate ncap None) false None [] [])), ps, exec, ncap. split; [done|]. split; try done.
    + intros c. by apply (executing_live root min ps d N exec acc).
    + intros c Hc. rewrite flows_needed by done. rewrite (xi_needed _ _ _ _ _ Hx c) by (by eapply participates_reached).
      unfold propagates. split; [tauto|]. by intros [?|?].
    + intros p c Hl He Hsk. rewrite flows_needed by done. rewrite skip_should in Hsk by done. apply negb_false_iff, (xi_sound _ _ _ _ _ Hx) in Hsk.
      apply (executing_live root min ps d N exec acc outs p Hp Hmin Hx Hne) in Hl; [|done].
      apply (xi_needed _ _ _ _ _ Hx p (participates_reached _ _ _ Hl)). right. by exists c.
    + intros c. apply (xi_captures _ _ _ _ _ Hx).
Qed.
End Start.
