(* ===== verification/AutogradOutcome.v ===== *)
(** * The autograd engine: the outcome of a pass.

    What the account of a pass that has finished comes to: the inputs of each
    function are sums of gradients, the captured variables are inputs of the
    functions asked for, and both do not depend on the interleaving. *)

From S2P Require Import Prelude SafeNum AutogradGraph AutogradPlan AutogradSearch AutogradEngine AutogradRun AutogradPass AutogradStart.

(** ** Sums of gradients. *)
Section Sums.
Context {V : Type} (g : Graph V) (accumulate : V → V → V).
Implicit Types (dl : list (Edge * option V)) (c p : node_id) (l : list V).

Local Abbreviation buffer := (buffer g accumulate).

(** The sum, from the left; nothing is added to the first. *)
Definition sum_of l : option V := match l with [] => None | v :: r => Some (foldl accumulate v r) end.

(** The gradients among the deliveries [dl] that are for the input [i] of
    [c]. *)
Definition gradients_for c (i : nat) dl : list V :=
  omap (λ x : Edge * option V, if decide (function x.1 = Some c ∧ input_nr x.1 = i) then x.2 else None) dl.

Lemma sum_of_snoc l v : sum_of (l ++ [v]) = Some (match sum_of l with Some old => accumulate old v | None => v end).
Proof. destruct l; cbn; [done|]. by rewrite foldl_app. Qed.

Lemma gradients_for_snoc c i dl x : gradients_for c i (dl ++ [x]) =
  gradients_for c i dl ++ if decide (function x.1 = Some c ∧ input_nr x.1 = i) then match x.2 with Some v => [v] | None => [] end else [].
Proof. unfold gradients_for. rewrite omap_app. cbn. case_decide; [|done]. by destruct x.2. Qed.

Lemma buffer_sum c n i dl : g !! c = Some n → (i < num_inputs n)%nat → buffer c dl !! i = Some (sum_of (gradients_for c i dl)).
Proof.
  intros Hn Hi. induction dl as [|x dl IH] using rev_ind.
  - unfold AutogradRun.buffer. rewrite Hn. cbn. by apply lookup_replicate_2.
  - rewrite gradients_for_snoc. destruct (decide (function x.1 = Some c)) as [Hc|Hc].
    + assert (buffer c (dl ++ [x]) = buffer_add accumulate (buffer c dl) x) as ->.
      { unfold AutogradRun.buffer. by rewrite filter_app, filter_cons_True, filter_nil, foldl_app by done. }
      revert IH. generalize (gradients_for c i dl) (buffer c dl). intros l b Hb. unfold buffer_add, InputBuffer_add. destruct (decide (input_nr x.1 = i)) as [->|Hne].
      * rewrite decide_True, Hb by done. pose proof (lookup_lt_Some _ _ _ Hb) as Hlt. destruct x.2 as [v|].
        -- rewrite sum_of_snoc. destruct (sum_of l) as [old|]; by apply list_lookup_insert_eq.
        -- rewrite app_nil_r. by destruct (sum_of l).
      * rewrite decide_False by tauto. rewrite app_nil_r. destruct (b !! input_nr x.1) as [o|]; [|done].
        destruct x.2, o; try done; by rewrite list_lookup_insert_ne.
    + rewrite buffer_other, decide_False, app_nil_r by tauto. done.
Qed.

(** With an addition that is associative and commutative the order of the
    deliveries is not important. *)
Context (Hcomm : ∀ x y, accumulate x y = accumulate y x) (Hassoc : ∀ x y z, accumulate x (accumulate y z) = accumulate (accumulate x y) z).

Lemma foldl_perm l l' x : l ≡ₚ l' → foldl accumulate x l = foldl accumulate x l'.
Proof.
  intros Hp. revert x. induction Hp as [|y l l' _ IH|y z l|l1 l2 l3 _ IH1 _ IH2]; intros x; cbn; [done|by apply IH| |by rewrite IH1].
  f_equal. by rewrite <- !Hassoc, (Hcomm y z).
Qed.

Lemma sum_of_perm l l' : l ≡ₚ l' → sum_of l = sum_of l'.
Proof.
  induction 1 as [|y l l' Hp _|y z l|l1 l2 l3 _ IH1 _ IH2]; cbn; [done|by rewrite (foldl_perm l l')|by rewrite (Hcomm y z)|congruence].
Qed.

Lemma buffer_perm c n dl dl' : g !! c = Some n →
  filter (λ x, function x.1 = Some c) dl ≡ₚ filter (λ x, function x.1 = Some c) dl' → buffer c dl = buffer c dl'.
Proof.
  intros Hn Hp. apply list_eq_same_length with (num_inputs n); [by apply buffer_length|by apply buffer_length|].
  intros i x y Hi. rewrite !(buffer_sum c n) by done. intros [= <-] [= <-]. apply sum_of_perm.
  assert (∀ k, gradients_for c i k = gradients_for c i (filter (λ x, function x.1 = Some c) k)) as Hf.
  { induction k as [|z k IH]; [done|]. rewrite filter_cons. unfold gradients_for in *. cbn. case_decide as E.
    - rewrite decide_True by tauto. cbn. rewrite decide_True by done. by rewrite IH.
    - rewrite IH. case_decide; [|done]. cbn. by rewrite decide_False by tauto. }
  rewrite (Hf dl), (Hf dl'). unfold gradients_for. by rewrite Hp.
Qed.
End Sums.

Lemma concat_perm {A} (l l' : list (list A)) : l ≡ₚ l' → concat l ≡ₚ concat l'.
Proof. induction 1; cbn; [done|by f_equiv|solve_Permutation|by etransitivity]. Qed.

(** ** Accounts of passes that have finished. *)
Section Outcome.
Context {V : Type} (g : Graph V) (accumulate : V → V → V) (validate_grad : Edge → V → result V) (Hg : graph_ok g validate_grad).
Context (root : node_id) (root_inputs : variable_list V) (ps : list node_id) (exec : gmap node_id ExecInfo) (ncap : nat).
Context (Hplan : plan_ok g root root_inputs ps exec ncap).
Implicit Types (c p : node_id) (log : list (entry (V := V))) (calls : list (node_id * variable_list V)).

Local Abbreviation finished := (finished_with g accumulate validate_grad root root_inputs ps exec ncap).
Local Abbreviation captured := (captured g exec ncap).
Local Abbreviation live := (live g root ps exec).

(** What each function returned. *)
Definition outs_in log c : variable_list V := default [] ((list_to_map ((λ x : entry, (x.1.1, x.2)) <$> log) : gmap node_id _) !! c).

Lemma outs_in_spec log x : NoDup (called log) → x ∈ log → outs_in log x.1.1 = x.2.
Proof.
  intros Hnd Hx. unfold outs_in. erewrite elem_of_list_to_map_1; [done| |].
  - rewrite <- list_fmap_compose. exact Hnd.
  - apply list_elem_of_fmap. by exists x.
Qed.

Lemma deliveries_outs log : NoDup (called log) → deliveries g log = concat ((λ p, zip (out_edges g p) (outs_in log p)) <$> called log).
Proof.
  intros Hnd. unfold deliveries, called. rewrite <- list_fmap_compose. f_equal. apply list_fmap_ext. intros i x Hx. cbn.
  by rewrite (outs_in_spec log x Hnd) by (by eapply list_elem_of_lookup_2).
Qed.

Lemma called_in log c : c ∈ called log ↔ ∃ x, x ∈ log ∧ x.1.1 = c.
Proof.
  unfold called. rewrite list_elem_of_fmap. split; intros (x & H1 & H2); exists x; by split.
Qed.

Lemma entries_once log x y : NoDup (called log) → x ∈ log → y ∈ log → x.1.1 = y.1.1 → x = y.
Proof.
  intros Hnd [i Hi]%list_elem_of_lookup [j Hj]%list_elem_of_lookup E. assert (i = j) as ->; [|congruence].
  apply (NoDup_lookup (called log) i j x.1.1 Hnd); unfold called; rewrite list_lookup_fmap; apply fmap_Some; [by exists x|by exists y].
Qed.

(** The deliveries to [c] come from the functions with an edge to it. *)
Lemma deliveries_to c log : filter (λ y, function y.1 = Some c) (deliveries g log) =
  concat ((λ x : entry, filter (λ y, function y.1 = Some c) (zip (out_edges g x.1.1) x.2)) <$> filter (λ x : entry, 0 < cnt c (out_edges g x.1.1)) log).
Proof.
  unfold deliveries. induction log as [|x log IH]; [done|]. cbn [fmap list_fmap concat]. rewrite filter_app, IH, filter_cons.
  case_decide as E; [done|]. assert (filter (λ y : Edge * option V, function y.1 = Some c) (zip (out_edges g x.1.1) x.2) = []) as ->; [|done].
  apply elem_of_nil_inv. intros [e v] [Hy Hin]%list_elem_of_filter. apply E, cnt_pos. exists e. split; [by apply elem_of_zip_l in Hin|done].
Qed.

Lemma finished_entry calls r log x : finished calls r log → x ∈ log → entry_ok g accumulate validate_grad root root_inputs exec (deliveries g log) x ∧ live x.1.1.
Proof.
  intros Hf Hx. split; [by apply (proj1 (Forall_forall _ _) (fw_log _ _ _ _ _ _ _ _ _ _ _ Hf))|].
  apply (fw_live _ _ _ _ _ _ _ _ _ _ _ Hf), called_in. by exists x.
Qed.

Lemma finished_NoDup calls r log : finished calls r log → NoDup log.
Proof. intros Hf. apply (NoDup_fmap_1 (λ x : entry, x.1.1)). apply (fw_once _ _ _ _ _ _ _ _ _ _ _ Hf). Qed.

(** ** The order of the calls does not matter. *)
Section Agree.
Context (Hcomm : ∀ x y, accumulate x y = accumulate y x) (Hassoc : ∀ x y z, accumulate x (accumulate y z) = accumulate (accumulate x y) z).

Lemma finished_agree k calls1 calls2 r1 r2 log1 log2 x y : finished calls1 r1 log1 → finished calls2 r2 log2 →
  topo g root - topo g x.1.1 ≤ Z.of_nat k → x ∈ log1 → y ∈ log2 → x.1.1 = y.1.1 → x = y.
Proof.
  revert calls1 calls2 r1 r2 log1 log2 x y. induction k as [|k IH]; intros calls1 calls2 r1 r2 log1 log2 x y F1 F2 Hk Hx Hy Exy.
  all: destruct (finished_entry _ _ _ x F1 Hx) as [(Ex & _ & n & Hn & Ox) Hlx], (finished_entry _ _ _ y F2 Hy) as [(Ey & _ & n' & Hn' & Oy) Hly].
  all: destruct x as [[c i1] o1], y as [[c' i2] o2]; cbn in *; subst c'; assert (n' = n) as -> by congruence.
  all: assert (i1 = i2) as ->; [|f_equal; destruct (flows exec c); [destruct Ox, Oy; congruence|congruence]].
  all: rewrite Ex, Ey; unfold inputs_of; case_decide as Hr; [done|].
  - exfalso. destruct Hlx as [?|[Hc _]]; [done|]. pose proof (pk_below _ _ _ _ _ _ Hplan c Hc). lia.
  - apply (buffer_perm g accumulate Hcomm Hassoc c n _ _ Hn). rewrite !deliveries_to. apply concat_perm, fmap_Permutation.
    assert (∀ calls1 calls2 r1 r2 log1 log2, finished calls1 r1 log1 → finished calls2 r2 log2 → ∀ z,
      z ∈ filter (λ x : entry, 0 < cnt c (out_edges g x.1.1)) log1 → z ∈ log2) as Hsub.
    { clear - IH Hk Hg. intros calls1 calls2 r1 r2 log1 log2 F1 F2 z [Hz1 Hz2]%list_elem_of_filter.
      assert (z.1.1 ∈ called log2) as (z' & Hz' & E)%called_in.
      { apply (fw_live _ _ _ _ _ _ _ _ _ _ _ F2), (fw_live _ _ _ _ _ _ _ _ _ _ _ F1), called_in. by exists z. }
      replace z with z'; [done|]. symmetry. apply (IH _ _ _ _ _ _ z z' F1 F2); try done.
      assert (edge g z.1.1 c) as He by (apply edge_out; by apply cnt_pos).
      pose proof (proj2 (topo_edge _ (gk_topological _ _ Hg) _ _ He)). lia. }
    apply NoDup_Permutation; [by eapply NoDup_filter, finished_NoDup|by eapply NoDup_filter, finished_NoDup|].
    intros z. split; intros Hz; apply list_elem_of_filter; (split; [by apply list_elem_of_filter in Hz as [? _]|]).
    + by apply (Hsub _ _ _ _ _ _ F1 F2).
    + by apply (Hsub _ _ _ _ _ _ F2 F1).
Qed.

Lemma finished_perm calls1 calls2 r1 r2 log1 log2 : finished calls1 r1 log1 → finished calls2 r2 log2 → log1 ≡ₚ log2.
Proof.
  intros F1 F2. assert (∀ calls1 calls2 r1 r2 log1 log2, finished calls1 r1 log1 → finished calls2 r2 log2 → ∀ z, z ∈ log1 → z ∈ log2) as Hsub.
  { clear calls1 calls2 r1 r2 log1 log2 F1 F2. intros calls1 calls2 r1 r2 log1 log2 F1 F2 z Hz. assert (z.1.1 ∈ called log2) as (z' & Hz' & E)%called_in.
    { apply (fw_live _ _ _ _ _ _ _ _ _ _ _ F2), (fw_live _ _ _ _ _ _ _ _ _ _ _ F1), called_in. by exists z. }
    replace z with z'; [done|]. symmetry. apply (finished_agree (Z.to_nat (topo g root - topo g z.1.1)) _ _ _ _ _ _ z z' F1 F2); try done. lia. }
  apply NoDup_Permutation; [by eapply finished_NoDup|by eapply finished_NoDup|]. intros z. split; by eapply Hsub.
Qed.
End Agree.

(** ** The captured variables. *)
Section Captured.
Context (outputs : list Edge) (Hcap : ∀ c, captures_of exec c = captures_for c outputs 0).

Lemma capture_list_other caps (l cap : variable_list V) k : (∀ i, (i, k) ∉ caps) → capture_list caps l cap !! k = cap !! k.
Proof.
  revert cap. induction caps as [|[i o] r IH]; intros cap Hk; [done|]. unfold capture_list in *. cbn. rewrite IH by (intros j Hj; apply (Hk j); by right).
  destruct (l !! i); [|done]. apply list_lookup_insert_ne. intros ->. apply (Hk i). by left.
Qed.

Lemma capture_list_at caps (l cap : variable_list V) k i v : (i, k) ∈ caps → (∀ j, (j, k) ∈ caps → j = i) → l !! i = Some v → (k < length cap)%nat →
  capture_list caps l cap !! k = Some v.
Proof.
  revert cap. induction caps as [|[j o] r IH]; intros cap Hin Hu Hv Hk; [by apply not_elem_of_nil in Hin|].
  change (capture_list ((j, o) :: r) l cap) with (capture_list r l (match l !! j with Some v => <[o := v]> cap | None => cap end)).
  destruct (decide ((i, k) ∈ r)) as [Hr|Hr].
  - apply IH; [done|intros; apply Hu; by right|done|]. by destruct (l !! j); rewrite ?length_insert.
  - apply elem_of_cons in Hin as [[= <- <-]|?]; [|done]. rewrite Hv, capture_list_other.
    + by apply list_lookup_insert_eq.
    + intros j Hj. rewrite (Hu j) in Hj; [done|by right].
Qed.

Lemma captured_by_other c e k inputs cap : outputs !! k = Some e → function e ≠ Some c → captured_by g exec c inputs cap !! k = cap !! k.
Proof.
  intros He Hc. unfold captured_by. destruct (new_inputs g exec c inputs) as [l|]; [|done]. apply capture_list_other.
  intros i. rewrite Hcap. intros (e' & He' & _ & Hc' & _)%captures_for_spec. rewrite Nat.sub_0_r in He'. congruence.
Qed.

Lemma fold_captured_other c e k log cap : outputs !! k = Some e → function e = Some c → c ∉ called log →
  foldl (λ cap (x : entry), captured_by g exec x.1.1 x.1.2 cap) cap log !! k = cap !! k.
Proof.
  intros He Hc. revert cap. induction log as [|x log IH]; intros cap Hn; [done|]. cbn in *. apply not_elem_of_cons in Hn as [Hx Hn].
  rewrite IH by done. apply (captured_by_other _ e); [done|congruence].
Qed.

Lemma captured_none c e k log : (ncap = length outputs)%nat → outputs !! k = Some e → function e = Some c → c ∉ called log → captured log !! k = Some None.
Proof.
  intros Hncap He Hc Hn. unfold AutogradPass.captured. rewrite (fold_captured_other c e) by done. apply lookup_replicate_2.
  rewrite Hncap. by eapply lookup_lt_Some.
Qed.

Lemma captured_some c e k log x l v : (ncap = length outputs)%nat → outputs !! k = Some e → function e = Some c → NoDup (called log) →
  x ∈ log → x.1.1 = c → new_inputs g exec c x.1.2 = Some l → l !! input_nr e = Some v → captured log !! k = Some v.
Proof.
  intros Hncap He Hc Hnd Hx Exc Hl Hv. apply list_elem_of_split in Hx as (l1 & l2 & ->). unfold AutogradPass.captured, called in *.
  rewrite fmap_app, fmap_cons, Exc in Hnd. apply NoDup_app in Hnd as (_ & Hd & Hnd). apply NoDup_cons in Hnd as [Hn2 _].
  rewrite foldl_app. cbn [foldl]. rewrite (fold_captured_other c e) by done. rewrite Exc. unfold captured_by. rewrite Hl, Hcap.
  apply (capture_list_at _ _ _ _ (input_nr e)); [by apply (captures_for_in c outputs 0)| |done|].
  - intros j (e' & He' & _ & _ & ->)%captures_for_spec. rewrite Nat.sub_0_r in He'. congruence.
  - change (k < length (captured l1))%nat. rewrite captured_length, Hncap. by eapply lookup_lt_Some.
Qed.

(** A captured variable depends on one call only. *)
Lemma captured_by_local c inputs (cap cap' : variable_list V) k : length cap = length cap' → cap !! k = cap' !! k →
  captured_by g exec c inputs cap !! k = captured_by g exec c inputs cap' !! k.
Proof.
  unfold captured_by. destruct (new_inputs g exec c inputs) as [l|]; [|done]. unfold capture_list. revert cap cap'.
  induction (captures_of exec c) as [|[i o] r IH]; intros cap cap' Hlen Hk; [done|]. cbn. apply IH; destruct (l !! i) as [v|]; try done.
  - by rewrite !length_insert.
  - destruct (decide (o = k)) as [->|Hne]; [|by rewrite !list_lookup_insert_ne]. destruct (decide (k < length cap)%nat).
    + rewrite !list_lookup_insert_eq by lia. done.
    + rewrite !list_insert_ge by lia. done.
Qed.

Lemma captured_one c e k log x : outputs !! k = Some e → function e = Some c → NoDup (called log) → x ∈ log → x.1.1 = c →
  captured log !! k = captured_by g exec c x.1.2 (replicate ncap None) !! k.
Proof.
  intros He Hc Hnd Hx Exc. apply list_elem_of_split in Hx as (l1 & l2 & ->). unfold called in Hnd. rewrite fmap_app, fmap_cons, Exc in Hnd.
  apply NoDup_app in Hnd as (_ & Hd & Hnd). apply NoDup_cons in Hnd as [Hn2 _]. unfold AutogradPass.captured. rewrite foldl_app. cbn [foldl].
  rewrite (fold_captured_other c e) by done. rewrite Exc. change (foldl _ _ l1) with (captured l1). apply captured_by_local.
  - by rewrite captured_length, length_replicate.
  - apply (fold_captured_other c e); [done|done|]. intros Hin. apply (Hd c Hin). by left.
Qed.

Lemma fold_captured_none e k log cap : outputs !! k = Some e → function e = None →
  foldl (λ cap (x : entry), captured_by g exec x.1.1 x.1.2 cap) cap log !! k = cap !! k.
Proof.
  intros He Hc. revert cap. induction log as [|x log IH]; intros cap; [done|]. cbn in *. rewrite IH. apply (captured_by_other _ e); [done|congruence].
Qed.

Lemma captured_perm log1 log2 : ncap = length outputs → log1 ≡ₚ log2 → NoDup (called log1) → captured log1 = captured log2.
Proof.
  intros Hncap Hp Hnd. apply list_eq_same_length with ncap; [apply captured_length..|]. intros k x y Hk Hx Hy.
  assert (called log1 ≡ₚ called log2) as Hpc by (by apply fmap_Permutation). assert (NoDup (called log2)) as Hnd2 by (by rewrite <- Hpc).
  destruct (lookup_lt_is_Some_2 outputs k ltac:(lia)) as [e He]. destruct (function e) as [c|] eqn:Hc.
  - destruct (decide (c ∈ called log1)) as [Hin|Hin].
    + apply called_in in Hin as (z & Hz & Ez). rewrite (captured_one c e k log1 z) in Hx by done.
      rewrite (captured_one c e k log2 z) in Hy by (done || by rewrite <- Hp). congruence.
    + assert (c ∉ called log2) as Hin2 by (by rewrite <- Hpc).
      rewrite (captured_none c e) in Hx by done. rewrite (captured_none c e) in Hy by done. congruence.
  - unfold AutogradPass.captured in Hx, Hy. rewrite (fold_captured_none e) in Hx by done. rewrite (fold_captured_none e) in Hy by done. congruence.
Qed.
End Captured.
End Outcome.
