(* ===== verification/AutogradExecute.v ===== *)
(** * The autograd engine: [execute].

    The call of [Engine::execute] sets up a pass: the root is the function of
    the only root edge, or a new node whose edges are the root edges. *)

From S2P Require Import Prelude SafeNum AutogradGraph AutogradPlan AutogradSearch AutogradEngine AutogradRun AutogradPass AutogradStart.

(** ** Constructing a node. *)
Section New.
Context {V : Type}.
Implicit Types (g : Graph V) (i : node_id) (e : Edge).

(** [i] exists and nothing uses it. *)
Definition unused i g : Prop := ∃ n, g !! i = Some n ∧ has_parent_ n = false.

Lemma update_topological_nr_returns i e g : unused i g → targets_ok g i [e] →
  ∃ g', update_topological_nr i e g = (g', Ok tt) ∧ unused i g'.
Proof.
  intros (n & Hi & Hp) Ht. unfold update_topological_nr, mbind, method_bind, node_at, lift, TORCH_INTERNAL_ASSERT. rewrite Hi, Hp. cbn [negb].
  destruct (function e) as [c|] eqn:Ec; [|exists g; split; [done|by exists n]]. destruct (Ht e c ltac:(by left) Ec) as [Hne [m Hm]].
  unfold topological_nr, update_node, mbind, method_bind, node_at, modify, mret, method_ret. rewrite Hm, lookup_insert_eq, lookup_insert_ne, Hi by done.
  destruct (topological_nr_ n <=? _).
  - rewrite lookup_insert_ne, Hi by done. eexists. split; [done|]. eexists. split; [apply lookup_insert_eq|done].
  - eexists. split; [done|]. exists n. by rewrite lookup_insert_ne.
Qed.

Lemma update_each_returns i l g : building (Some (i, l)) g → Z.of_nat (size g) < 2 ^ 64 → unused i g → targets_ok g i l →
  ∃ g', update_each i l g = (g', Ok tt).
Proof.
  revert g. induction l as [|e r IH]; intros g Hb Hs Hu Ht; cbn [update_each]; [by eexists|].
  assert (targets_ok g i [e]) as Hte by (intros e' c ->%list_elem_of_singleton; apply Ht; by left).
  destruct (update_topological_nr_returns i e g Hu Hte) as (g1 & E1 & Hu1). pose proof (update_topological_nr_spec _ i e g Hb Hte Hs) as Hw.
  unfold wpx in Hw. rewrite E1 in Hw. destruct Hw as (Hb1 & [Hd _] & _ & He). unfold mbind, method_bind. rewrite E1. apply IH; [|by rewrite <- size_dom, Hd, size_dom|done|].
  - by apply (building_next g1 i e).
  - intros e' c Hin Hc. destruct (Ht e' c ltac:(by right) Hc) as [? Hex]. split; [done|]. apply elem_of_dom. rewrite Hd. by apply elem_of_dom.
Qed.

Lemma new_Node_returns g i seq edges k f : built g → g !! i = None → Z.of_nat (S (size g)) < 2 ^ 64 → targets_ok g i edges →
  ∃ g', new_Node i seq edges k f g = (g', Ok tt) ∧ built g' ∧ same_edges (<[i := mkNode seq 0 false k edges [] [] [] [] f]> g) g'.
Proof.
  intros Hb Hi Hs Ht. destruct (built_building g Hb) as [Hbd _]. set (n := mkNode seq 0 false k edges [] [] [] [] f).
  pose proof (building_new g i n edges Hbd Hi eq_refl eq_refl) as Hb0.
  assert (targets_ok (<[i := n]> g) i edges) as Ht0.
  { intros e c He Hc. destruct (Ht e c He Hc). split; [done|]. by rewrite lookup_insert_ne. }
  assert (Z.of_nat (size (<[i := n]> g)) < 2 ^ 64) as Hs0 by (by rewrite map_size_insert_None).
  destruct (update_each_returns i edges _ Hb0 Hs0) as (g' & E); [exists n; split; [apply lookup_insert_eq|done]|done|].
  exists g'. split; [done|]. split; [by apply (built_new g g' i seq edges k f)|].
  pose proof (update_each_spec i edges _ Hb0 Ht0 Hs0) as Hw. unfold wpx in Hw. rewrite E in Hw. by destruct Hw.
Qed.

(** What a function does does not depend on the topological numbers. *)
Lemma erase_call (validate_grad : Edge → V → result V) (n n' : Node V) : erase n' = erase n →
  next_edges n' = next_edges n ∧ num_inputs n' = num_inputs n ∧ call_function validate_grad n' = call_function validate_grad n ∧
  call_tensor_pre_hooks n' = call_tensor_pre_hooks n.
Proof. destruct n, n'. unfold erase. cbn. intros [= -> -> -> -> -> -> -> ->]. done. Qed.

Lemma validate_each_length (validate_grad : Edge → V → result V) edges grads grads' :
  validate_each validate_grad edges grads = Ok grads' → length grads' = length grads.
Proof.
  revert grads grads'. induction edges as [|e edges IH]; intros [|v grads] grads'; cbn [validate_each]; try (by intros [= <-]).
  destruct (match v with Some _ => _ | None => _ end) as [v'|]; [|done]. cbn [mbind result_bind].
  destruct (validate_each validate_grad edges grads) as [l|] eqn:E; [|done]. intros [= <-]. cbn. by rewrite (IH _ _ E).
Qed.

Lemma validate_outputs_length (validate_grad : Edge → V → result V) edges grads grads' :
  validate_outputs validate_grad edges grads = Ok grads' → length grads' = length edges.
Proof.
  unfold validate_outputs, TORCH_CHECK. destruct (bool_decide _) eqn:E; [|done]. apply bool_decide_eq_true in E. cbn.
  intros H%validate_each_length. congruence.
Qed.
End New.

(** ** [execute]. *)
Section Execute.
Context {V : Type} (accumulate : V → V → V) (validate_grad : Edge → V → result V).
Implicit Types (g : Graph V) (root_edges outputs : list Edge) (inputs : variable_list V).

(** The edges lead to inputs that exist. *)
Definition edges_valid g (l : list Edge) : Prop :=
  ∀ e, e ∈ l → ∃ c n, function e = Some c ∧ g !! c = Some n ∧ (input_nr e < num_inputs n)%nat.

(** [root] stands for the root edges: it is their function, and its inputs the
    gradient; or a new node that returns the gradients. *)
Definition stands_for g g' root_edges inputs root (root_inputs : variable_list V) : Prop :=
  match root_edges with
  | [e] => g' = g ∧ function e = Some root ∧ ∃ n, g !! root = Some n ∧
      root_inputs = <[input_nr e := default None (head inputs)]> (replicate (num_inputs n) None)
  | _ => g !! root = None ∧ root_inputs = [] ∧ (∃ n, g' !! root = Some n ∧ next_edges n = root_edges ∧
      call_function validate_grad n [] = validate_outputs validate_grad root_edges inputs) ∧
      ∀ p, p ≠ root → erase <$> g' !! p = erase <$> g !! p
  end.

Lemma edges_valid_targets g i l : g !! i = None → edges_valid g l → targets_ok g i l.
Proof.
  intros Hi Hv e c He Hc. destruct (Hv e He) as (c' & n & Hc' & Hn & _). assert (c' = c) as -> by congruence.
  split; [congruence|by eexists].
Qed.

Lemma erased_lookup g g' p n' : same_edges g g' → g' !! p = Some n' → ∃ n, g !! p = Some n ∧ erase n' = erase n.
Proof.
  intros [_ He] Hp. specialize (He p). rewrite Hp in He. destruct (g !! p) as [n|] eqn:E; cbn in He; [|done]. exists n. split; [done|congruence].
Qed.

Lemma erased_lookup_back g g' p n : same_edges g g' → g !! p = Some n → ∃ n', g' !! p = Some n' ∧ erase n' = erase n.
Proof.
  intros [_ He] Hp. specialize (He p). rewrite Hp in He. destruct (g' !! p) as [n'|] eqn:E; cbn in He; [|done]. exists n'. split; [done|congruence].
Qed.

Lemma call_GraphRoot seq k root_edges inputs :
  call_function validate_grad (mkNode seq 0 false k root_edges [] [] [] [] (λ _, Ok inputs)) [] = validate_outputs validate_grad root_edges inputs.
Proof. unfold call_function, call_tensor_pre_hooks, call_pre_hooks. cbn. by destruct (validate_outputs _ _ _). Qed.

Lemma graph_ok_root g g' fresh seq k root_edges inputs : graph_ok g validate_grad → g !! fresh = None → edges_valid g root_edges → built g' →
  same_edges (<[fresh := mkNode seq 0 false k root_edges [] [] [] [] (λ _, Ok inputs)]> g) g' → graph_ok g' validate_grad.
Proof.
  intros [G1 G2 G3 G4] Hf Hv Hb Hs. set (n0 := mkNode seq 0 false k root_edges [] [] [] [] (λ _, Ok inputs)) in *.
  assert (∀ p n', g' !! p = Some n' → (p = fresh ∧ erase n' = erase n0) ∨ ∃ n, g !! p = Some n ∧ erase n' = erase n) as Hcase.
  { intros p n' Hp. destruct (erased_lookup _ _ p n' Hs Hp) as (n & Hn & E).
    apply lookup_insert_Some in Hn as [[-> <-]|[_ Hn]]; [by left|right; by exists n]. }
  split; [by apply built_topological_graph| | |].
  - intros p n' e c Hp He Hc. assert (∃ m, g !! c = Some m ∧ (input_nr e < num_inputs m)%nat) as (m & Hm & Hlt).
    { destruct (Hcase p n' Hp) as [[_ E]|(n & Hn & E)]; destruct (erase_call validate_grad _ _ E) as (Eedges & _); rewrite Eedges in He.
      - destruct (Hv e He) as (c' & m & Hc' & Hm & Hlt). exists m. split; [congruence|done].
      - by apply (G2 p n e c). }
    destruct (erased_lookup_back _ _ c m Hs) as (m' & Hm' & E); [rewrite lookup_insert_ne; [done|congruence]|].
    destruct (erase_call validate_grad _ _ E) as (_ & Enum & _). exists m'. split; [done|lia].
  - intros p n' i o Hp. destruct (Hcase p n' Hp) as [[_ E]|(n & Hn & E)]; destruct (erase_call validate_grad _ _ E) as (-> & _ & -> & _).
    + cbn. unfold call_function, call_tensor_pre_hooks, call_pre_hooks. cbn. destruct (validate_outputs _ _ _) eqn:Ev; [|done]. intros [= <-].
      by eapply validate_outputs_length.
    + by apply (G3 p).
  - intros p n' l l' Hp. destruct (Hcase p n' Hp) as [[_ E]|(n & Hn & E)]; destruct (erase_call validate_grad _ _ E) as (_ & _ & _ & ->).
    + unfold call_tensor_pre_hooks. cbn. by intros [= <-].
    + by apply (G4 p n).
Qed.

Lemma outputs_fit_other g root root_inputs outputs : edges_valid g outputs → (∀ e, e ∈ outputs → function e ≠ Some root) → outputs_fit g root root_inputs outputs.
Proof.
  intros Hv Hr e He. destruct (Hv e He) as (c & n & Hc & Hn & Hlt). exists c, n. split; [done|]. split; [done|].
  rewrite decide_False; [done|]. intros ->. by apply (Hr e He).
Qed.

Lemma outputs_fit_same g root root_inputs outputs n : edges_valid g outputs → g !! root = Some n → length root_inputs = num_inputs n → outputs_fit g root root_inputs outputs.
Proof.
  intros Hv Hr Hlen e He. destruct (Hv e He) as (c & m & Hc & Hm & Hlt). exists c, m. split; [done|]. split; [done|].
  case_decide as E; [|done]. rewrite E in Hm. assert (m = n) as -> by congruence. lia.
Qed.

(** The test of [execute] that there is something to do. *)
Definition something (acc : bool) outputs : bool := acc || negb (bool_decide (outputs = [])).

Lemma prepare_start g root outputs acc root_inputs P0 : start g root outputs acc root_inputs = Ok P0 →
  ∃ s, prepare g root outputs acc = Ok s ∧ P0 = queue_root root root_inputs s.
Proof. unfold start. destruct (prepare g root outputs acc) as [s|]; [|done]. intros [= <-]. by exists s. Qed.

Lemma execute_spec g fresh seq root_edges inputs inputs' acc outputs :
  built g → graph_ok g validate_grad → g !! fresh = None → Z.of_nat (S (size g)) < 2 ^ 64 →
  edges_valid g root_edges → edges_valid g outputs → something acc outputs = true →
  validate_outputs validate_grad root_edges inputs = Ok inputs' →
  ∃ g' P0 root root_inputs, execute accumulate validate_grad fresh seq root_edges inputs acc outputs g = (g', Ok P0) ∧
    graph_ok g' validate_grad ∧ is_Some (g' !! root) ∧ outputs_fit g' root root_inputs outputs ∧
    stands_for g g' root_edges inputs' root root_inputs ∧ start g' root outputs acc root_inputs = Ok P0.
Proof.
  intros Hb Hok Hf Hs Hv Ho Hsome Hval. unfold execute, mbind, method_bind, lift. rewrite Hval. unfold TORCH_INTERNAL_ASSERT. fold (something acc outputs). rewrite Hsome.
  pose proof (validate_outputs_length _ _ _ _ Hval) as Hlen.
  assert (∀ l, (∀ e, l ≠ [e]) → l = root_edges → ∃ g' P0 root root_inputs,
    (new_Node fresh seq root_edges (length inputs') (λ _, Ok inputs') ≫= λ _, reads (λ g, g) ≫= λ g, lift (prepare g fresh outputs acc) ≫= λ t, mret (queue_root fresh [] t)) g = (g', Ok P0) ∧
    graph_ok g' validate_grad ∧ is_Some (g' !! root) ∧ outputs_fit g' root root_inputs outputs ∧ (g !! root = None ∧ root_inputs = [] ∧
    (∃ n, g' !! root = Some n ∧ next_edges n = root_edges ∧ call_function validate_grad n [] = validate_outputs validate_grad root_edges inputs') ∧
    (∀ p, p ≠ root → erase <$> g' !! p = erase <$> g !! p)) ∧ start g' root outputs acc root_inputs = Ok P0) as Hnew.
  { intros l _ _. destruct (new_Node_returns g fresh seq root_edges (length inputs') (λ _, Ok inputs') Hb Hf Hs) as (g' & E & Hb' & Hse).
    { by apply edges_valid_targets. }
    pose proof (graph_ok_root g g' fresh seq _ root_edges inputs' Hok Hf Hv Hb' Hse) as Hok'.
    destruct (erased_lookup_back _ _ fresh _ Hse (lookup_insert_eq _ _ _)) as (n & Hn & En).
    destruct (erase_call validate_grad _ _ En) as (E1 & _ & E2 & _).
    assert (∀ p, p ≠ fresh → erase <$> g' !! p = erase <$> g !! p) as Hothers by (intros p Hp; destruct Hse as [_ ->]; by rewrite lookup_insert_ne).
    assert (outputs_fit g' fresh [] outputs) as Hfit.
    { apply outputs_fit_other.
      - intros e He. destruct (Ho e He) as (c & m & Hc & Hm & Hlt). destruct (erased_lookup_back _ _ c m Hse) as (m' & Hm' & Em); [rewrite lookup_insert_ne; [done|congruence]|].
        destruct (erase_call validate_grad _ _ Em) as (_ & Enum & _). exists c, m'. split; [done|]. split; [done|lia].
      - intros e He Hc. destruct (Ho e He) as (c & m & Hc' & Hm & _). congruence. }
    destruct (start_spec g' accumulate validate_grad Hok' fresh [] acc outputs (ex_intro _ n Hn) Hfit) as (P0 & ps & exec & ncap & Est & _).
    destruct (prepare_start _ _ _ _ _ _ Est) as (s & Ep & ->).
    exists g', (queue_root fresh [] s), fresh, []. unfold mbind, method_bind, reads, lift. rewrite E, Ep. repeat (split; [done|]).
    split; [|done]. split; [done|]. split; [done|]. split; [|done]. exists n. split; [done|]. split; [done|]. rewrite E2. apply call_GraphRoot. }
  destruct root_edges as [|e [|e2 r]].
  - by apply (Hnew []).
  - destruct inputs' as [|v [|]]; try done. destruct (Hv e ltac:(by left)) as (c & n & Hc & Hn & Hlt). cbn. unfold edge_node. rewrite Hc.
    set (ri := <[input_nr e := v]> (replicate (num_inputs n) None)).
    assert (length ri = num_inputs n) as Hri by (unfold ri; by rewrite length_insert, length_replicate).
    destruct (start_spec g accumulate validate_grad Hok c ri acc outputs (ex_intro _ n Hn)) as (P0 & ps & exec & ncap & Est & _).
    { by apply (outputs_fit_same _ _ _ _ n). }
    destruct (prepare_start _ _ _ _ _ _ Est) as (s & Ep & ->).
    exists g, (queue_root c ri s), c, ri. rewrite Ep. unfold node. rewrite Hn. unfold InputBuffer_add. rewrite lookup_replicate_2 by done.
    split; [|split; [done|split; [by eexists|split; [by apply (outputs_fit_same _ _ _ _ n)|split; [|done]]]]].
    + unfold ri. destruct v as [v|]; [done|]. by rewrite list_insert_id by (by apply lookup_replicate_2).
    + split; [done|]. split; [done|]. by exists n.
  - apply (Hnew (e :: e2 :: r)); [|done]. intros x. discriminate.
Qed.
End Execute.
