(* ===== verification/AutogradThread.v ===== *)
(** * The autograd engine: the thread that drives a pass.

    [Engine::thread_main] for a pass whose tasks all run on the calling thread,
    and [get_current_graph_task_execution_order], which predicts what it
    does. *)

From S2P Require Import Prelude SafeNum AutogradGraph AutogradPlan AutogradSearch AutogradEngine AutogradRun AutogradPass AutogradStart.

(** The ready queue is a [std::priority_queue]: [top] is the position of its top
    in the order of insertion, given the sequence numbers.  Which of several
    greatest elements is the top is not specified. *)
Class TopPolicy (top : list Z → nat) : Prop :=
  top_greatest l : l ≠ [] → ∃ x, l !! top l = Some x ∧ ∀ y, y ∈ l → y ≤ x.

(** The first of the greatest. *)
Fixpoint first_top (l : list Z) : nat :=
  match l with
  | [] => 0%nat
  | x :: r => if bool_decide (Forall (λ y, y ≤ x) r) then 0%nat else S (first_top r)
  end.

#[export] Instance first_top_policy : TopPolicy first_top.
Proof.
  intros l. induction l as [|x r IH]; intros Hne; [done|]. cbn. case_bool_decide as Hx.
  - exists x. split; [done|]. intros y [-> |Hy]%elem_of_cons; [lia|]. by apply (proj1 (Forall_forall _ _) Hx).
  - destruct IH as (z & Hz & Hmax); [intros ->; by destruct Hx|]. exists z. split; [done|]. intros y [-> |Hy]%elem_of_cons; [|auto].
    destruct (decide (x ≤ z)); [done|]. destruct Hx. apply Forall_forall. intros y Hy%Hmax. lia.
Qed.

Section Thread.
Context {V : Type} (g : Graph V) (accumulate : V → V → V) (validate_grad : Edge → V → result V) (top : list Z → nat).

Definition node_sequence_nr (c : node_id) : Z := match g !! c with Some n => sequence_nr n | None => 0 end.

(** [ReadyQueue::pop], on the tasks in the order in which they were pushed. *)
Definition pop (l : list (NodeTask (V := V))) : option (NodeTask (V := V) * list (NodeTask (V := V))) :=
  let i := top ((λ t, node_sequence_nr (fn_ t)) <$> l) in
  match l !! i with Some t => Some (t, delete i l) | None => None end.

(** The loop of [thread_main].  [calls] records the functions that were called;
    [fuel] bounds the turns.  A thread that takes a task from an empty queue
    waits, and there is nobody to push one. *)
Fixpoint thread_main (fuel : nat) (calls : list (node_id * variable_list V)) (s : GraphTask (V := V))
    : result (list (node_id * variable_list V) * GraphTask (V := V)) :=
  if future_completed_ s then Ok (calls, s)
  else
    match fuel with
    | O => Throw (InternalAssert "fuel")
    | S fuel =>
        match pop (ready s) with
        | None => Throw (InternalAssert "the thread waits for ever")
        | Some (task, rest) =>
            let s := set_ready rest s in
            let '(calls, s) :=
              if has_error_ s then (calls, s)
              else (calls ++ [(fn_ task, inputs_ task)], run_task g accumulate validate_grad (fn_ task) (inputs_ task) s) in
            let s := set_outstanding (outstanding_tasks_ s - 1) s in
            let s := if completed s then mark_as_completed_and_run_post_processing s else s in
            thread_main fuel calls s
        end
    end.

(** ** [get_current_graph_task_execution_order].

    The loop over the edges of [fn]: the functions that get ready are pushed. *)
Fixpoint order_edges (exec_info_ : gmap node_id ExecInfo) (edges : list Edge) (dependencies : gmap node_id Z) (heap : list node_id)
    : result (gmap node_id Z * list node_id) :=
  match edges with
  | [] => Ok (dependencies, heap)
  | e :: r =>
      match function e with
      | None => order_edges exec_info_ r dependencies heap
      | Some next_ptr =>
          if negb (bool_decide (exec_info_ = ∅)) && negb (nodeShouldExecute exec_info_ next_ptr) then order_edges exec_info_ r dependencies heap
          else
            match dependencies !! next_ptr with
            | None => Throw (InternalAssert "it != dependencies.end()")
            | Some k =>
                if k - 1 =? 0 then order_edges exec_info_ r (delete next_ptr dependencies) (heap ++ [next_ptr])
                else order_edges exec_info_ r (<[next_ptr := k - 1]> dependencies) heap
            end
      end
  end.

Fixpoint order_loop (fuel : nat) (exec_info_ : gmap node_id ExecInfo) (dependencies : gmap node_id Z) (heap out : list node_id) : result (list node_id) :=
  let i := top (node_sequence_nr <$> heap) in
  match heap !! i with
  | None => Ok out
  | Some fn =>
      match fuel with
      | O => Throw (InternalAssert "fuel")
      | S fuel =>
          n ← node g fn;
          '(dependencies, heap) ← order_edges exec_info_ (next_edges n) dependencies (delete i heap);
          order_loop fuel exec_info_ dependencies heap (out ++ [fn])
      end
  end.

(** The roots and the task of the pass that the thread runs, if any.  A node is
    taken from the heap for each root and for each entry of [dependencies_] at
    most, which gives the fuel. *)
Definition get_current_graph_task_execution_order (multithreading_enabled : bool)
    (current_graph_task : option (list node_id * GraphTask (V := V))) : result (list node_id) :=
  match current_graph_task with
  | None => Ok []
  | Some (graph_roots_, task) =>
      _ ← TORCH_CHECK (negb multithreading_enabled) "get_current_graph_task_execution_order expects the current backward to be ";
      order_loop (length graph_roots_ + size (dependencies_ task)) (exec_info_ task) (dependencies_ task) graph_roots_ []
  end.
End Thread.

(** ** The thread refines the steps of a pass. *)
Section Refine.
Context {V : Type} (g : Graph V) (accumulate : V → V → V) (validate_grad : Edge → V → result V) (top : list Z → nat) {Htop : TopPolicy top}.
Implicit Types (s : GraphTask (V := V)) (l : list (NodeTask (V := V))).

Local Abbreviation steps := (steps g accumulate validate_grad).
Local Abbreviation seq := (node_sequence_nr g).

Lemma pop_spec l : match pop g top l with
  | None => l = []
  | Some (t, rest) => (∃ r1 r2, l = r1 ++ t :: r2 ∧ rest = r1 ++ r2) ∧ ∀ u, u ∈ l → seq (fn_ u) ≤ seq (fn_ t)
  end.
Proof.
  unfold pop. destruct (decide (l = [])) as [->|Hne]; [done|].
  destruct (top_greatest ((λ t, seq (fn_ t)) <$> l)) as (x & Hx & Hmax); [by destruct l|].
  set (i := top _) in *. rewrite list_lookup_fmap in Hx. destruct (l !! i) as [t|] eqn:E; [|done]. injection Hx as <-. split.
  - exists (take i l), (drop (S i) l). split; [by rewrite take_drop_middle|apply delete_take_drop].
  - intros u Hu. apply Hmax. by apply (list_elem_of_fmap_2 (λ t, seq (fn_ t))).
Qed.

Lemma steps_trans k1 k2 P1 P2 P3 c1 c2 : steps k1 P1 c1 P2 → steps k2 P2 c2 P3 → steps (k1 + k2) P1 (c1 ++ c2) P3.
Proof.
  intros H1. induction 1 as [|k P o P' c P'' H2 IH Hs]; [by rewrite Nat.add_0_r, app_nil_r|]. rewrite Nat.add_succ_r, app_assoc.
  econstructor; [by apply IH|done].
Qed.

Lemma steps_one P o P' : step g accumulate validate_grad P o P' → steps 1 P (match o with Some x => [x] | None => [] end) P'.
Proof. intros Hs. apply (steps_step g accumulate validate_grad 0 P o P [] P'); [constructor|done]. Qed.

(** The state of a pass between two turns of the only thread. *)
Definition alone s : Pass (V := V) := mkPass s [] 0 0.

(** A turn: the state after it, and the call in it. *)
Definition turn (t : NodeTask (V := V)) (rest : list (NodeTask (V := V))) s : GraphTask (V := V) :=
  let s := run_task g accumulate validate_grad (fn_ t) (inputs_ t) (set_ready rest s) in
  let s := set_outstanding (outstanding_tasks_ s - 1) s in
  if completed s then mark_as_completed_and_run_post_processing s else s.

Lemma turn_steps t rest s : (∃ r1 r2, ready s = r1 ++ t :: r2 ∧ rest = r1 ++ r2) → has_error_ s = false →
  steps 4 (alone s) [(fn_ t, inputs_ t)] (alone (turn t rest s)).
Proof.
  intros (r1 & r2 & Er & ->) He. destruct t as [c inputs]. unfold turn, alone. cbn [fn_ inputs_].
  set (s1 := run_task _ _ _ c inputs _). pose proof (steps_one _ _ _ (step_start g accumulate validate_grad s r1 r2 _ [] 0 0 Er He)) as H1.
  pose proof (steps_one _ _ _ (step_evaluate g accumulate validate_grad (set_ready (r1 ++ r2) s) [] [] c inputs 0 0)) as H2. fold s1 in H2.
  pose proof (steps_one _ _ _ (step_decrement g accumulate validate_grad s1 [] 0 0)) as H3. cbn in *.
  set (s2 := set_outstanding (outstanding_tasks_ s1 - 1) s1) in *.
  assert (steps 1 (mkPass s2 [] 0 1) [] (mkPass (if completed s2 then mark_as_completed_and_run_post_processing s2 else s2) [] 0 0)) as H4.
  { destruct (completed s2) eqn:E; [exact (steps_one _ None _ (step_complete g accumulate validate_grad s2 [] 0 0 E))|
      exact (steps_one _ None _ (step_continue g accumulate validate_grad s2 [] 0 0 E))]. }
  pose proof (steps_trans _ _ _ _ _ _ _ H1 (steps_trans _ _ _ _ _ _ _ H2 (steps_trans _ _ _ _ _ _ _ H3 H4))) as H. exact H.
Qed.

Lemma alone_stuck s : ready s = [] → stuck g accumulate validate_grad (alone s).
Proof.
  intros Hr o P' Hs. unfold alone in Hs. inversion Hs; subst; try congruence; try (by destruct (ready s)); try (by destruct r1).
  all: rewrite Hr in *; by destruct r1.
Qed.

(** *** The loop. *)
Context (Hg : graph_ok g validate_grad) (root : node_id) (root_inputs : variable_list V) (ps : list node_id) (exec : gmap node_id ExecInfo) (ncap : nat).
Context (Hplan : plan_ok g root root_inputs ps exec ncap).

Local Abbreviation going := (going g accumulate validate_grad root root_inputs ps exec ncap).

Lemma alone_empty s log lost : going (alone s) log lost → ready s = [] → future_completed_ s = true.
Proof.
  intros Hgo Hr. pose proof (go_out _ _ _ _ _ _ _ _ _ _ _ Hgo) as Ho. cbn in Ho. rewrite Hr in Ho. cbn in Ho.
  destruct (go_done _ _ _ _ _ _ _ _ _ _ _ Hgo Ho) as [?|?]; [cbn in *; lia|done].
Qed.

Lemma alone_no_error s log lost : going (alone s) log lost → future_completed_ s = false → has_error_ s = false.
Proof.
  intros Hgo Hf. pose proof (go_future _ _ _ _ _ _ _ _ _ _ _ Hgo) as H. unfold future_ok in H. cbn in H. rewrite Hf in H.
  destruct (future_result_ s) as [[|]|]; by destruct H.
Qed.

Lemma alone_work s log lost fuel : going (alone s) log lost → work g (alone s) log lost ≤ 4 * Z.of_nat fuel → (length (ready s) ≤ fuel)%nat.
Proof. intros Hgo Hw. pose proof (going_size _ _ _ _ _ _ _ _ Hg Hplan _ _ _ Hgo) as Hs. unfold work in Hw. cbn in *. lia. Qed.

(** A turn of the thread as a turn of [thread_main]. *)
Lemma thread_main_turn fuel calls s t rest : future_completed_ s = false → has_error_ s = false → pop g top (ready s) = Some (t, rest) →
  thread_main g accumulate validate_grad top (S fuel) calls s =
  thread_main g accumulate validate_grad top fuel (calls ++ [(fn_ t, inputs_ t)]) (turn t rest s).
Proof. intros Hf He Hp. cbn [thread_main]. rewrite Hf, Hp. change (has_error_ (set_ready rest s)) with (has_error_ s). by rewrite He. Qed.

(** What a run of turns leads to; each turn is in [R] with the calls so far. *)
Lemma thread_main_spec fuel s log lost calls : going (alone s) log lost → work g (alone s) log lost ≤ 4 * Z.of_nat fuel →
  ∃ more s' k, thread_main g accumulate validate_grad top fuel calls s = Ok (calls ++ more, s') ∧ steps k (alone s) more (alone s') ∧ future_completed_ s' = true.
Proof.
  revert s log lost calls. induction fuel as [|fuel IH]; intros s log lost calls Hgo Hw.
  - exists [], s, 0%nat. pose proof (alone_work s log lost 0 Hgo Hw). assert (future_completed_ s = true) as Hf.
    { apply (alone_empty s log lost Hgo). destruct (ready s); [done|cbn in *; lia]. }
    cbn. rewrite Hf, app_nil_r. split; [done|]. split; [constructor|done].
  - destruct (future_completed_ s) eqn:Hf.
    { exists [], s, 0%nat. cbn. rewrite Hf, app_nil_r. split; [done|]. split; [constructor|done]. }
    pose proof (alone_no_error s log lost Hgo Hf) as He. pose proof (pop_spec (ready s)) as Hpop.
    destruct (pop g top (ready s)) as [[t rest]|] eqn:Ep; [|rewrite (alone_empty s log lost Hgo Hpop) in Hf; done].
    rewrite (thread_main_turn fuel calls s t rest Hf He Ep). destruct Hpop as [Hrest _].
    pose proof (turn_steps t rest s Hrest He) as Hturn.
    destruct (going_steps _ _ _ _ _ _ _ _ Hg Hplan _ _ _ _ _ _ Hturn Hgo) as (more & lost' & Hgo' & Hw' & _ & _).
    destruct (IH _ _ _ (calls ++ [(fn_ t, inputs_ t)]) Hgo') as (more2 & s' & k & E & Hst & Hdone); [lia|].
    exists ([(fn_ t, inputs_ t)] ++ more2), s', (4 + k)%nat. rewrite E, app_assoc. split; [done|]. split; [|done]. by eapply steps_trans.
Qed.
End Refine.

(** ** The execution order is the order of the calls. *)
Section Order.
Context {V : Type} (g : Graph V) (accumulate : V → V → V) (validate_grad : Edge → V → result V) (top : list Z → nat) (exec : gmap node_id ExecInfo).
Implicit Types (s : GraphTask (V := V)) (c : node_id) (d : gmap node_id Z) (heap : list node_id).

Local Abbreviation skip := (skip exec).

(** The state of the prediction agrees with that of the pass. *)
Record predicts s d heap : Prop := {
  pd_heap : heap = fn_ <$> ready s;
  pd_exec : exec_info_ s = exec;
  pd_deps c : skip c = false → d !! c = dependencies_ s !! c;
  pd_skip c : skip c = true → not_ready_ s !! c = None
}.

Lemma predicts_same s s' d heap : predicts s d heap → ready s' = ready s → exec_info_ s' = exec_info_ s → dependencies_ s' = dependencies_ s →
  not_ready_ s' = not_ready_ s → predicts s' d heap.
Proof. intros [P1 P2 P3 P4] E1 E2 E3 E4. split; [by rewrite E1|by rewrite E2|intros c; rewrite E3; apply P3|intros c; rewrite E4; apply P4]. Qed.

Lemma deliver_predicts s s' e v d heap : predicts s d heap → deliver g accumulate e v s = (s', Ok tt) →
  ∃ d' heap', (∀ r, order_edges exec (e :: r) d heap = order_edges exec r d' heap') ∧ predicts s' d' heap'.
Proof.
  intros [P1 P2 P3 P4] E. unfold deliver in E. destruct (function e) as [c|] eqn:Ec.
  2: { injection E as <-. exists d, heap. split; [|done]. intros r. cbn. by rewrite Ec. }
  unfold mbind at 1, method_bind at 1, reads at 1 in E. destruct (dependencies_ s !! c) as [k|] eqn:Ek; [|done].
  unfold mbind at 1, method_bind at 1, modify at 1 in E. set (s1 := set_dependencies _ s) in *.
  assert (∀ x, x ≠ c → dependencies_ s1 !! x = dependencies_ s !! x) as Hother.
  { intros x Hx. unfold s1. cbn. destruct (k - 1 =? 0); [by apply lookup_delete_ne|by apply lookup_insert_ne]. }
  unfold mbind at 1, method_bind at 1, reads at 1 in E. change (not_ready_ s1) with (not_ready_ s) in E.
  (* a function that is not executed *)
  destruct (skip c) eqn:Hsk.
  { rewrite (P4 c Hsk) in E. unfold mbind at 1, method_bind at 1, reads at 1 in E. change (exec_info_ s1) with (exec_info_ s) in E.
    rewrite P2 in E. fold (skip c) in E. rewrite Hsk in E. injection E as <-. exists d, heap. split.
    - intros r. cbn. rewrite Ec. fold (skip c). by rewrite Hsk.
    - split; [done|done| |done]. intros x Hx. rewrite Hother by congruence. by apply P3. }
  (* the order of the calls after the delivery *)
  assert (∀ s2, ready s2 = ready s ++ (if k - 1 =? 0 then [mkNodeTask c (default [] (inputs_ <$> last (ready s2)))] else []) → exec_info_ s2 = exec →
    dependencies_ s2 = dependencies_ s1 → (∀ x, x ≠ c → not_ready_ s2 !! x = not_ready_ s !! x) → s2 = s' →
    ∃ d' heap', (∀ r, order_edges exec (e :: r) d heap = order_edges exec r d' heap') ∧ predicts s' d' heap') as Hdone.
  { intros s2 E1 E2 E3 E4 <-. exists (if k - 1 =? 0 then delete c d else <[c := k - 1]> d), (heap ++ if k - 1 =? 0 then [c] else []). split.
    - intros r. cbn. rewrite Ec. fold (skip c). rewrite Hsk, (P3 c Hsk), Ek. destruct (k - 1 =? 0); [done|by rewrite app_nil_r].
    - split; [|done| |].
      + rewrite E1, fmap_app, P1. by destruct (k - 1 =? 0).
      + intros x Hx. rewrite E3. unfold s1. cbn. destruct (decide (x = c)) as [->|Hne].
        * destruct (k - 1 =? 0); [by rewrite !lookup_delete_eq|by rewrite !lookup_insert_eq].
        * destruct (k - 1 =? 0); [rewrite !lookup_delete_ne by done|rewrite !lookup_insert_ne by done]; by apply P3.
      + intros x Hx. rewrite E4 by congruence. by apply P4. }
  destruct (not_ready_ s !! c) as [b|] eqn:Eb.
  - unfold mbind at 1, method_bind at 1, lift at 1 in E. destruct (InputBuffer_add accumulate (input_nr e) v b) as [b'|] eqn:Eadd; [|done].
    destruct (k - 1 =? 0) eqn:E0; injection E as E; eapply Hdone; try exact E; cbn; try done.
    + by rewrite last_snoc.
    + intros x Hx. by apply lookup_delete_ne.
    + by rewrite app_nil_r.
    + intros x Hx. by apply lookup_insert_ne.
  - unfold mbind at 1, method_bind at 1, reads at 1 in E. change (exec_info_ s1) with (exec_info_ s) in E.
    rewrite P2 in E. fold (skip c) in E. rewrite Hsk in E. unfold mbind at 1, method_bind at 1, lift at 1 in E.
    destruct (node g c) as [n|]; [|done]. unfold mbind at 1, method_bind at 1, lift at 1 in E.
    destruct (InputBuffer_add accumulate (input_nr e) v _) as [b'|] eqn:Eadd; [|done].
    destruct (k - 1 =? 0) eqn:E0; injection E as E; eapply Hdone; try exact E; cbn; try done.
    + by rewrite last_snoc.
    + by rewrite app_nil_r.
    + intros x Hx. by apply lookup_insert_ne.
Qed.

Lemma deliver_all_predicts es outs s s' d heap : length outs = length es → predicts s d heap → deliver_all g accumulate es outs s = (s', Ok tt) →
  ∃ d' heap', order_edges exec es d heap = Ok (d', heap') ∧ predicts s' d' heap'.
Proof.
  revert es s d heap. induction outs as [|v outs IH]; intros [|e es] s d heap Hlen Hp E; try done.
  - injection E as <-. by exists d, heap.
  - cbn [deliver_all] in E. apply method_bind_Ok in E as (s1 & [] & E1 & E2). destruct (deliver_predicts s s1 e v d heap Hp E1) as (d1 & h1 & Eq & Hp1).
    rewrite Eq. apply (IH es s1); [by injection Hlen|done|done].
Qed.

(** The edges of a function that only captures lead to functions that are not
    executed. *)
Lemma order_edges_skip es d heap : (∀ e c, e ∈ es → function e = Some c → skip c = true) → order_edges exec es d heap = Ok (d, heap).
Proof.
  induction es as [|e es IH]; intros Hs; [done|]. cbn. destruct (function e) as [c|] eqn:Ec; [|apply IH; intros; eapply Hs; [by right|done]].
  fold (skip c). rewrite (Hs e c ltac:(by left) Ec). apply IH. intros e' c' He'. apply Hs. by right.
Qed.

Lemma capture_fields caps l s s' r : capture caps l s = (s', r) → ∃ cap, s' = set_captured cap s.
Proof.
  revert s. induction caps as [|[i o] caps IH]; intros s; cbn [capture].
  - intros [= <- _]. exists (captured_vars_ s). by rewrite set_captured_same.
  - unfold mbind at 1, method_bind at 1, reads at 1. destruct (l !! i) as [v|]; [|intros [= <- _]; exists (captured_vars_ s); by rewrite set_captured_same].
    destruct (decide _); [|intros [= <- _]; exists (captured_vars_ s); by rewrite set_captured_same].
    unfold mbind, method_bind, modify. intros [cap ->]%IH. by exists cap.
Qed.

Context (Hg : graph_ok g validate_grad).

Lemma evaluate_predicts c n inputs s s' d heap : g !! c = Some n →
  (flows exec c = false → ∀ x, edge g c x → skip x = true) → predicts s d heap →
  evaluate_function g accumulate validate_grad c inputs s = (s', Ok tt) →
  ∃ d' heap', order_edges exec (next_edges n) d heap = Ok (d', heap') ∧ predicts s' d' heap'.
Proof.
  intros Hn Hsk Hp E.
  assert (∀ cap, call_and_deliver g accumulate validate_grad c n inputs (set_captured cap s) = (s', Ok tt) →
    ∃ d' heap', order_edges exec (next_edges n) d heap = Ok (d', heap') ∧ predicts s' d' heap') as Hcall.
  { intros cap Ec. unfold call_and_deliver, modify in Ec. unfold mbind at 1, method_bind at 1 in Ec. apply method_bind_Ok in Ec as (s1 & outs & E1 & E2).
    unfold lift in E1. destruct (call_function validate_grad n inputs) as [outs'|] eqn:Eo; [|done]. injection E1 as <- <-.
    eapply (deliver_all_predicts _ outs'); [by eapply (gk_outputs _ _ Hg)| |done]. by apply (predicts_same s). }
  pose proof (pd_exec _ _ _ Hp) as He. destruct (decide (exec = ∅)) as [E0|E0].
  - rewrite (evaluate_default g accumulate validate_grad c n) in E by congruence. apply (Hcall (captured_vars_ s)). by rewrite set_captured_same.
  - destruct (exec !! c) as [i|] eqn:Hi.
    + rewrite (evaluate_info g accumulate validate_grad c n i) in E by congruence. destruct (if needed_ i then Ok inputs else _) as [l|] eqn:El; [|done].
      destruct (capture _ l s) as [s1 [[]|]] eqn:Ec; [|done]. apply capture_fields in Ec as [cap ->]. destruct (needed_ i) eqn:En; [by apply (Hcall cap)|].
      injection E as <-. exists d, heap. split; [|by apply (predicts_same s)]. apply order_edges_skip. intros e x Hin Hx. apply Hsk; [|by exists n, e].
      unfold flows, needed, info_at. by rewrite bool_decide_false, Hi.
    + exfalso. unfold evaluate_function, node in E. rewrite Hn in E. unfold mbind at 1, method_bind at 1, lift at 1 in E.
      unfold mbind at 1, method_bind at 1, reads at 1 in E. rewrite He, bool_decide_false, Hi in E by done. done.
Qed.

(** ** Fuel. *)
Lemma order_edges_size es d heap d' heap' : order_edges exec es d heap = Ok (d', heap') → (length heap' + size d' = length heap + size d)%nat.
Proof.
  revert d heap. induction es as [|e es IH]; intros d heap; cbn; [by intros [= <- <-]|]. destruct (function e) as [c|]; [|by apply IH].
  destruct (negb _ && _); [by apply IH|]. destruct (d !! c) as [k|] eqn:Hk; [|done]. destruct (k - 1 =? 0); intros ->%IH.
  - rewrite length_app, map_size_delete_Some by (by eexists). assert (size d ≠ 0)%nat by (intros ->%map_size_empty_inv; done). cbn. lia.
  - by rewrite map_size_insert_Some.
Qed.

Lemma order_fuel f1 f2 d heap out : (length heap + size d ≤ f1)%nat → (length heap + size d ≤ f2)%nat →
  order_loop g top f1 exec d heap out = order_loop g top f2 exec d heap out.
Proof.
  revert f2 d heap out. induction f1 as [|f1 IH]; intros f2 d heap out H1 H2.
  - destruct heap; [by destruct f2|cbn in H1; lia].
  - destruct (heap !! top (node_sequence_nr g <$> heap)) as [fn|] eqn:E; [|destruct f2; cbn; by rewrite E].
    assert (0 < length heap)%nat as Hlen by (apply lookup_lt_Some in E; lia). destruct f2 as [|f2]; [lia|]. cbn. rewrite E.
    destruct (node g fn) as [n|]; [|done]. cbn. destruct (order_edges exec (next_edges n) d (delete _ heap)) as [[d' h']|] eqn:Eo; [|done]. cbn.
    apply order_edges_size in Eo. rewrite length_delete in Eo by (by eexists). apply IH; lia.
Qed.

Lemma order_mono f1 f2 d heap out r : (f1 ≤ f2)%nat → order_loop g top f1 exec d heap out = Ok r → order_loop g top f2 exec d heap out = Ok r.
Proof.
  revert f2 d heap out. induction f1 as [|f1 IH]; intros f2 d heap out Hle; cbn.
  - destruct (heap !! top _) as [fn|] eqn:E; [done|]. destruct f2; cbn; by rewrite E.
  - destruct f2 as [|f2]; [lia|]. cbn. destruct (heap !! top _) as [fn|]; [|done]. destruct (node g fn) as [n|]; [|done]. cbn.
    destruct (order_edges exec (next_edges n) d _) as [[d' h']|]; [|done]. cbn. apply IH. lia.
Qed.

Lemma order_fuel_enough f d heap out r : order_loop g top f exec d heap out = Ok r → order_loop g top (length heap + size d) exec d heap out = Ok r.
Proof.
  intros Ho. rewrite (order_fuel (length heap + size d) (f + (length heap + size d))) by lia. by apply (order_mono f); [lia|].
Qed.
End Order.

Section Lockstep.
Context {V : Type} (g : Graph V) (accumulate : V → V → V) (validate_grad : Edge → V → result V) (top : list Z → nat) {Htop : TopPolicy top}.
Context (Hg : graph_ok g validate_grad) (root : node_id) (root_inputs : variable_list V) (ps : list node_id) (exec : gmap node_id ExecInfo) (ncap : nat).
Context (Hplan : plan_ok g root root_inputs ps exec ncap).
Context (Hpred : ∀ p x, live g root ps exec p → edge g p x → skip exec x = false → flows exec p = true).
Implicit Types (s : GraphTask (V := V)).

Local Abbreviation going := (going g accumulate validate_grad root root_inputs ps exec ncap).
Local Abbreviation thread_main := (thread_main g accumulate validate_grad top).
Local Abbreviation turn := (turn g accumulate validate_grad).

Lemma going_result s log lost vars : going (alone s) log lost → future_result_ s = Some (Ok vars) → ready s = [].
Proof.
  intros Hgo Hr. pose proof (go_future _ _ _ _ _ _ _ _ _ _ _ Hgo) as Hf. unfold future_ok in Hf. cbn in Hf. rewrite Hr in Hf. destruct Hf as (_ & _ & Hz & _).
  pose proof (go_out _ _ _ _ _ _ _ _ _ _ _ Hgo) as Ho. cbn in Ho. rewrite Hz, length_app in Ho. destruct (ready s); [done|cbn in Ho; lia].
Qed.

Lemma going_error s log lost : going (alone s) log lost → has_error_ s = true → future_completed_ s = true ∧ ∀ vars, future_result_ s ≠ Some (Ok vars).
Proof.
  intros Hgo He. pose proof (go_future _ _ _ _ _ _ _ _ _ _ _ Hgo) as Hf. unfold future_ok in Hf. cbn in Hf. rewrite He in Hf.
  destruct (future_result_ s) as [[r|e]|]; [by destruct Hf as (_ & ? & _)|by destruct Hf|by destruct Hf].
Qed.

Lemma mark_fields s : let s' := mark_as_completed_and_run_post_processing s in
  ready s' = ready s ∧ exec_info_ s' = exec_info_ s ∧ dependencies_ s' = dependencies_ s ∧ not_ready_ s' = not_ready_ s ∧ has_error_ s' = has_error_ s.
Proof. unfold mark_as_completed_and_run_post_processing. destruct (future_completed_ s); [done|]. by destruct (negb _). Qed.

(** A turn in which nothing is thrown is a turn of the prediction. *)
Lemma turn_predicts s log lost t rest d : going (alone s) log lost → future_completed_ s = false → pop g top (ready s) = Some (t, rest) →
  predicts exec s d (fn_ <$> ready s) → has_error_ (turn t rest s) = false →
  ∃ d', predicts exec (turn t rest s) d' (fn_ <$> ready (turn t rest s)) ∧
    ∀ f out, order_loop g top (S f) exec d (fn_ <$> ready s) out = order_loop g top f exec d' (fn_ <$> ready (turn t rest s)) (out ++ [fn_ t]).
Proof.
  intros Hgo Hf Hpop Hp He. unfold pop in Hpop. set (i := top _) in *. destruct (ready s !! i) as [t'|] eqn:Hi; [|done]. injection Hpop as -> <-.
  assert (top (node_sequence_nr g <$> (fn_ <$> ready s)) = i) as Ei by (unfold i; by rewrite <- list_fmap_compose).
  pose proof (go_sched _ _ _ _ _ _ _ _ _ _ _ Hgo) as Hs. cbn in Hs.
  assert (live g root ps exec (fn_ t)) as Hl.
  { apply (scheduled_live _ _ _ _ _ _ _ _ (fn_ t) Hs). apply elem_of_app. left. rewrite app_nil_r. apply list_elem_of_fmap_2. by eapply list_elem_of_lookup_2. }
  destruct (live_exists g validate_grad root root_inputs ps exec ncap Hg Hplan _ Hl) as [n Hn].
  unfold AutogradThread.turn, run_task in *. set (s0 := set_ready (delete i (ready s)) s) in *.
  destruct (evaluate_function g accumulate validate_grad (fn_ t) (inputs_ t) s0) as [s1 [[]|e]] eqn:Ev.
  - assert (predicts exec s0 d (fn_ <$> ready s0)) as Hp0.
    { destruct Hp as [P1 P2 P3 P4]. by split. }
    destruct (evaluate_predicts g accumulate validate_grad exec Hg (fn_ t) n (inputs_ t) s0 s1 d (fn_ <$> ready s0) Hn) as (d' & heap' & Eo & Hp1); [|exact Hp0|exact Ev|].
    { intros Hfl x Hx. destruct (skip exec x) eqn:Hx2; [done|]. by rewrite (Hpred (fn_ t) x Hl Hx Hx2) in Hfl. }
    set (s2 := set_outstanding (outstanding_tasks_ s1 - 1) s1) in *.
    assert (predicts exec (if completed s2 then mark_as_completed_and_run_post_processing s2 else s2) d' heap') as Hp2.
    { destruct (mark_fields s2) as (M1 & M2 & M3 & M4 & _). destruct (completed s2); by apply (predicts_same exec s1). }
    exists d'. rewrite <- (pd_heap _ _ _ _ Hp2). split; [done|]. intros f out. cbn [order_loop]. rewrite Ei, list_lookup_fmap, Hi. cbn.
    unfold node. rewrite Hn. cbn. rewrite <- list_fmap_delete. change (delete i (ready s)) with (ready s0). by rewrite Eo.
  - exfalso. assert (has_error_ (fst (set_exception e s1)) = true) as Herr.
    { unfold set_exception, modify. cbn. by destruct (future_completed_ s1). }
    set (s2 := set_outstanding (outstanding_tasks_ (fst (set_exception e s1)) - 1) (fst (set_exception e s1))) in *.
    destruct (mark_fields s2) as (_ & _ & _ & _ & Em). destruct (completed s2); [rewrite Em in He|]; unfold s2 in He; cbn in *; congruence.
Qed.

Lemma lockstep fuel s log lost calls r s' vars d out : going (alone s) log lost → predicts exec s d (fn_ <$> ready s) →
  thread_main fuel calls s = Ok (r, s') → future_result_ s' = Some (Ok vars) →
  ∃ more, r = calls ++ more ∧ order_loop g top (length more) exec d (fn_ <$> ready s) out = Ok (out ++ more.*1).
Proof.
  revert s log lost calls d out. induction fuel as [|fuel IH]; intros s log lost calls d out Hgo Hp Hr Hres.
  all: destruct (future_completed_ s) eqn:Hf; [cbn in Hr; rewrite Hf in Hr; injection Hr as <- <-; exists []; rewrite !app_nil_r;
    split; [done|]; rewrite (going_result s log lost vars Hgo Hres); done|].
  - cbn in Hr. by rewrite Hf in Hr.
  - destruct (pop g top (ready s)) as [[t rest]|] eqn:Ep; [|cbn in Hr; by rewrite Hf, Ep in Hr].
    assert (has_error_ s = false) as He by (by eapply (alone_no_error g accumulate validate_grad root root_inputs ps exec ncap)).
    rewrite (thread_main_turn g accumulate validate_grad top fuel calls s t rest Hf He Ep) in Hr.
    pose proof (pop_spec g top (ready s)) as Hps. rewrite Ep in Hps. destruct Hps as [Hrest _].
    pose proof (turn_steps g accumulate validate_grad t rest s Hrest He) as Hturn.
    destruct (going_steps _ _ _ _ _ _ _ _ Hg Hplan _ _ _ _ _ _ Hturn Hgo) as (more0 & lost' & Hgo' & _).
    destruct (has_error_ (turn t rest s)) eqn:Het.
    + exfalso. destruct (going_error _ _ _ Hgo' Het) as [Hc Hno]. destruct fuel; cbn in Hr; rewrite Hc in Hr; injection Hr as <- <-; by destruct (Hno vars).
    + destruct (turn_predicts s log lost t rest d Hgo Hf Ep Hp Het) as (d' & Hp' & Ho).
      destruct (IH _ _ _ _ d' (out ++ [fn_ t]) Hgo' Hp' Hr Hres) as (more & -> & Hmore). exists ((fn_ t, inputs_ t) :: more). rewrite <- app_assoc. split; [done|].
      cbn [length]. rewrite Ho, Hmore, <- app_assoc. done.
Qed.
End Lockstep.

(** ** The order of the calls. *)
Section Sequence.
Context {V : Type} (g : Graph V) (accumulate : V → V → V) (validate_grad : Edge → V → result V) (top : list Z → nat) {Htop : TopPolicy top}.
Implicit Types (s : GraphTask (V := V)) (c p : node_id).

Local Abbreviation seq := (node_sequence_nr g).
Local Abbreviation thread_main := (thread_main g accumulate validate_grad top).

(** [s'] has the tasks of [s] and new ones for functions in [Q]. *)
Definition pushes (Q : node_id → Prop) s s' : Prop := ∃ new, ready s' = ready s ++ new ∧ ∀ u, u ∈ new → Q (fn_ u).

Lemma pushes_none (Q : node_id → Prop) s s' : ready s' = ready s → pushes Q s s'.
Proof. intros E. exists []. rewrite app_nil_r. split; [done|]. by intros u ?%not_elem_of_nil. Qed.

Lemma pushes_one (Q : node_id → Prop) s s' t : ready s' = ready s ++ [t] → Q (fn_ t) → pushes Q s s'.
Proof. intros E Ht. exists [t]. split; [done|]. by intros u ->%list_elem_of_singleton. Qed.

Lemma pushes_trans (Q : node_id → Prop) s1 s2 s3 : pushes Q s1 s2 → pushes Q s2 s3 → pushes Q s1 s3.
Proof.
  intros (l1 & E1 & H1) (l2 & E2 & H2). exists (l1 ++ l2). rewrite app_assoc, <- E1. split; [done|]. intros u [?|?]%elem_of_app; auto.
Qed.

Lemma deliver_pushes e v s : pushes (λ c, function e = Some c) s (deliver g accumulate e v s).1.
Proof.
  unfold deliver. destruct (function e) as [c|]; [|by apply pushes_none]. unfold mbind at 1, method_bind at 1, reads at 1.
  destruct (dependencies_ s !! c) as [k|]; [|by apply pushes_none]. unfold mbind at 1, method_bind at 1, modify at 1. set (s1 := set_dependencies _ s).
  unfold mbind at 1, method_bind at 1, reads at 1. destruct (not_ready_ s1 !! c) as [b|].
  - unfold mbind at 1, method_bind at 1, lift at 1. destruct (InputBuffer_add _ _ _ _) as [b'|]; [|by apply pushes_none].
    destruct (k - 1 =? 0); [by apply (pushes_one _ _ _ (mkNodeTask c b'))|by apply pushes_none].
  - unfold mbind at 1, method_bind at 1, reads at 1. destruct (negb _ && _); [by apply pushes_none|].
    unfold mbind at 1, method_bind at 1, lift at 1. destruct (node g c) as [n|]; [|by apply pushes_none].
    unfold mbind at 1, method_bind at 1, lift at 1. destruct (InputBuffer_add _ _ _ _) as [b'|]; [|by apply pushes_none].
    destruct (k - 1 =? 0); [by apply (pushes_one _ _ _ (mkNodeTask c b'))|by apply pushes_none].
Qed.

Lemma deliver_all_pushes es outs s (Q : node_id → Prop) : (∀ e c, e ∈ es → function e = Some c → Q c) → pushes Q s (deliver_all g accumulate es outs s).1.
Proof.
  revert es s. induction outs as [|v outs IH]; intros [|e es] s Hq; try by apply pushes_none. cbn [deliver_all]. unfold mbind, method_bind.
  pose proof (deliver_pushes e v s) as Hd. assert (pushes Q s (deliver g accumulate e v s).1) as Hd'.
  { destruct Hd as (new & E & Hn). exists new. split; [done|]. intros u Hu. apply (Hq e); [by left|auto]. }
  destruct (deliver g accumulate e v s) as [s1 [[]|x]]; [|done]. eapply pushes_trans; [exact Hd'|]. apply IH. intros e' c He'. apply Hq. by right.
Qed.

Lemma evaluate_pushes c inputs s : pushes (edge g c) s (evaluate_function g accumulate validate_grad c inputs s).1.
Proof.
  unfold evaluate_function, node. destruct (g !! c) as [n|] eqn:Hn; [|by apply pushes_none].
  unfold mbind at 1, method_bind at 1, lift at 1. unfold mbind at 1, method_bind at 1, reads at 1.
  assert (∀ s1, ready s1 = ready s → pushes (edge g c) s (call_and_deliver g accumulate validate_grad c n inputs s1).1) as Hcall.
  { intros s1 E. unfold call_and_deliver, mbind, method_bind, modify, lift. destruct (call_function validate_grad n inputs) as [outs|]; [|by apply pushes_none].
    eapply pushes_trans; [by apply (pushes_none _ s (set_calls (calls_ s1 ++ [(c, inputs)]) s1))|]. apply deliver_all_pushes. intros e x He Hx. by exists n, e. }
  unfold mbind at 1, method_bind at 1. destruct (bool_decide (exec_info_ s = ∅)); [by apply Hcall|].
  destruct (exec_info_ s !! c) as [i|]; [|by apply pushes_none]. unfold mbind at 1, method_bind at 1.
  assert (∀ l, pushes (edge g c) s (match (capture (default [] (captures_ i)) l;; mret (needed_ i)) s with
    | (s1, Ok a) => (if (a : bool) then call_and_deliver g accumulate validate_grad c n inputs else mret tt) s1
    | (s1, Throw e) => (s1, Throw e) end).1) as Hcap.
  { intros l. unfold mbind at 1, method_bind at 1. destruct (capture _ l s) as [s1 [[]|x]] eqn:Ec; apply capture_fields in Ec as [cap ->]; [|by apply pushes_none].
    cbn. destruct (needed_ i); [by apply Hcall|by apply pushes_none]. }
  destruct (needed_ i); cbn.
  - apply Hcap.
  - unfold lift. destruct (call_tensor_pre_hooks n inputs) as [l|]; [apply Hcap|by apply pushes_none].
Qed.

Lemma run_task_pushes c inputs s : pushes (edge g c) s (run_task g accumulate validate_grad c inputs s).
Proof.
  unfold run_task. pose proof (evaluate_pushes c inputs s) as (new & E & Hn). destruct (evaluate_function _ _ _ c inputs s) as [s1 [[]|e]]; cbn in *.
  - by exists new.
  - exists new. split; [|done]. unfold set_exception, modify. cbn. by destruct (future_completed_ s1).
Qed.

(** A function that has edges. *)
Definition inner c : Prop := out_edges g c ≠ [].
#[local] Instance inner_dec c : Decision (inner c).
Proof. unfold inner. apply _. Defined.

Context (Hseq : ∀ p c, edge g p c → inner c → seq c < seq p).

Lemma thread_main_sorted fuel calls s r s' : thread_main fuel calls s = Ok (r, s') →
  ∃ more, r = calls ++ more ∧ StronglySorted (λ p c, seq c ≤ seq p) (filter inner more.*1) ∧
    ∀ b, (∀ u, u ∈ ready s → inner (fn_ u) → seq (fn_ u) ≤ b) → ∀ c, c ∈ more.*1 → inner c → seq c ≤ b.
Proof.
  revert calls s. induction fuel as [|fuel IH]; intros calls s; cbn.
  all: destruct (future_completed_ s); [intros [= <- <-]; exists []; rewrite app_nil_r; split; [done|]; split; [apply SSorted_nil|]; by intros ? _ ? ?%not_elem_of_nil|]; try done.
  pose proof (pop_spec g top (ready s)) as Hpop. destruct (pop g top (ready s)) as [[t rest]|]; [|done]. destruct Hpop as [(r1 & r2 & Er & ->) Hmax].
  assert (∀ u, u ∈ r1 ++ r2 → u ∈ ready s) as Hsub by (intros u; rewrite Er, !elem_of_app, elem_of_cons; tauto).
  assert (∀ s2, ready (if completed s2 then mark_as_completed_and_run_post_processing s2 else s2) = ready s2) as Em.
  { intros s2. destruct (completed s2); [apply mark_fields|done]. }
  destruct (has_error_ s).
  - intros (more & -> & Hs & Hb)%IH. exists more. split; [done|]. split; [done|]. intros b Hall. apply Hb. intros u. rewrite Em. cbn. intros Hu. by apply Hall, Hsub.
  - intros (more & -> & Hs & Hb)%IH. exists ((fn_ t, inputs_ t) :: more). rewrite <- app_assoc. split; [done|]. cbn [fmap list_fmap fst].
    destruct (run_task_pushes (fn_ t) (inputs_ t) (set_ready (r1 ++ r2) s)) as (new & En & Hnew). cbn in En.
    assert (∀ b, (∀ u, u ∈ ready s → inner (fn_ u) → seq (fn_ u) ≤ b) → (inner (fn_ t) → seq (fn_ t) ≤ b) → ∀ c, c ∈ more.*1 → inner c → seq c ≤ b) as Hb'.
    { intros b Hall Ht. apply Hb. intros u. rewrite Em. cbn. rewrite En, elem_of_app. intros [Hu|Hu] Hi; [by apply Hall; [apply Hsub|]|].
      pose proof (Hseq _ _ (Hnew u Hu) Hi). assert (inner (fn_ t)) as Hit.
      { apply Hnew, edge_out in Hu as (e & He & _). unfold inner. intros E. rewrite E in He. by apply not_elem_of_nil in He. }
      specialize (Ht Hit). lia. }
    assert (t ∈ ready s) as Hin by (rewrite Er; apply elem_of_app; right; by left). split.
    + rewrite filter_cons. case_decide as Hi; [|done]. constructor; [done|]. apply Forall_forall. intros c [Hc1 Hc2]%list_elem_of_filter.
      apply (Hb' (seq (fn_ t))); [|done|done|done]. intros u Hu _. by apply Hmax.
    + intros b Hall c [-> |Hc]%elem_of_cons Hi; [by apply Hall|]. apply (Hb' b Hall); [|done|done]. by apply Hall.
Qed.
End Sequence.
