(* ===== verification/AutogradContract.v ===== *)
(** * The autograd engine: what it promises.

    The properties of a backward pass, from the call of [execute] to the end of
    every run of the threads. *)

From S2P Require Import Prelude SafeNum AutogradGraph AutogradPlan AutogradSearch AutogradEngine AutogradRun AutogradPass AutogradStart AutogradOutcome AutogradExecute AutogradThread.

(** ** The plan. *)
Section Plan.
Context {V : Type} (g : Graph V) (Hg : topological g).

(** [compute_dependencies] returns, and counts for each function the edges
    to it from the functions that propagate gradients: those reached from the
    root by functions whose topological number is large enough.  No function
    that is not reached has an entry. *)
Theorem compute_dependencies_counts root min : is_Some (g !! root) →
  ∃ ps d N, compute_dependencies g root min = Ok (d, N) ∧ NoDup ps ∧
    (∀ p, p ∈ ps ↔ (p = root ∨ ∃ q, q ∈ ps ∧ edge g q p) ∧ min ≤ topo g p) ∧
    (∀ c, c ∈ N ↔ ∃ p, p ∈ ps ∧ edge g p c) ∧
    ∀ c, d !! c = if decide (c ∈ N) then Some (cnt c (edges_from g ps)) else None.
Proof.
  intros Hr. destruct (compute_dependencies_spec g Hg root min Hr) as (ps & d & N & E & Hp). exists ps, d, N. split; [done|].
  pose proof (λ c, planned_in g root min ps d N c Hp) as Hin. destruct Hp as [P1 P2 P3 P4 P5]. split; [done|]. split; [|split; [done|]].
  - intros p. by rewrite P2, P4.
  - intros c. rewrite P3. specialize (Hin c). pose proof (cnt_nonneg c (edges_from g ps)). case_decide as Hc.
    + apply Hin in Hc. by destruct (cnt c (edges_from g ps) =? 0) eqn:E0; bool_simpl; [lia|].
    + destruct (cnt c (edges_from g ps) =? 0) eqn:E0; bool_simpl; [done|]. exfalso. apply Hc, Hin. lia.
Qed.

(** [init_to_execute] marks the right functions: of those that the root
    reaches, exactly the ones from which a path leads to an output have to be
    executed; those with a path through an edge, and for [backward] the outputs
    themselves, have to propagate gradients.  For [grad] each output is captured
    at its position, by its function. *)
Theorem init_to_execute_marks root acc outputs min : is_Some (g !! root) → Forall (λ e, is_valid e = true) outputs →
  (∀ o, o ∈ outs_of outputs → min ≤ topo g o) →
  ∃ exec, init_to_execute g root outputs acc min = Ok (exec, if acc then 0%nat else length outputs) ∧
    (∀ x, rtc (edge g) root x →
      (nodeShouldExecute exec x = true ↔ ∃ o, o ∈ outs_of outputs ∧ rtc (edge g) x o) ∧
      (needed exec x = true ↔ (acc = true ∧ x ∈ outs_of outputs) ∨ ∃ o, o ∈ outs_of outputs ∧ tc (edge g) x o)) ∧
    ∀ x i k, (i, k) ∈ captures_of exec x ↔ acc = false ∧ ∃ e, outputs !! k = Some e ∧ function e = Some x ∧ i = input_nr e.
Proof.
  intros Hr Hv Hmin. destruct (init_to_execute_spec g Hg root acc outputs min Hr Hv Hmin) as (exec & E & [X1 X2 X3 X4 X5]).
  exists exec. split; [done|]. split.
  - intros x Hx. split; [by apply X1|]. rewrite (X2 x Hx). split; (intros [?|H]; [by left|right]).
    + destruct H as (c & Hc & o & Ho & Hp). exists o. split; [done|]. by eapply tc_rtc_r; [apply tc_once|].
    + destruct H as (o & Ho & Hp). inversion Hp as [? ? He|? c ? He Ht]; subst; [exists o|exists c]; (split; [done|]); exists o; split; try done. by apply tc_rtc.
  - intros x i k. unfold captures_of. rewrite X4. destruct acc; [split; [by intros ?%not_elem_of_nil|by intros [? _]]|]. split.
    + intros (e & He & _ & Hc & Hi)%captures_for_spec. rewrite Nat.sub_0_r in He. split; [done|]. by exists e.
    + intros [_ (e & He & Hc & ->)]. by apply (captures_for_in x outputs 0).
Qed.
End Plan.

(** ** A run of a pass. *)
Section Run.
Context {V : Type} (g : Graph V) (accumulate : V → V → V) (validate_grad : Edge → V → result V) (Hg : graph_ok g validate_grad).
Context (root : node_id) (root_inputs : variable_list V) (acc : bool) (outputs : list Edge).
Context (Hr : is_Some (g !! root)) (Hfit : outputs_fit g root root_inputs outputs).
Implicit Types (c p : node_id) (P : Pass (V := V)) (vars : variable_list V).

Local Abbreviation start := (start g root outputs acc root_inputs).
Local Abbreviation steps := (steps g accumulate validate_grad).
Local Abbreviation stuck := (stuck g accumulate validate_grad).

Lemma started_exists : ∃ P0 ps exec ncap, start = Ok P0 ∧ started g accumulate validate_grad root root_inputs acc outputs P0 ps exec ncap.
Proof. by apply start_spec. Qed.

(** A function propagates gradients if a path leads from it to an output. *)
Lemma propagates_path c : propagates g acc outputs c ↔
  outputs = [] ∨ (acc = true ∧ c ∈ outs_of outputs) ∨ ∃ o, o ∈ outs_of outputs ∧ tc (edge g) c o.
Proof.
  unfold propagates, leads. split; (intros [?|[?|H]]; [by left|right; by left|right; right]).
  - destruct H as (d & Hd & o & Ho & Hp). exists o. split; [done|]. by eapply tc_rtc_r; [apply tc_once|].
  - destruct H as (o & Ho & Hp). inversion Hp as [? ? He|? d ? He Ht]; subst; [exists o|exists d]; (split; [done|]); exists o; split; try done. by apply tc_rtc.
Qed.

(** The account of a run that has ended with a result. *)
Lemma run_outcome P0 : start = Ok P0 → ∃ ps exec ncap, started g accumulate validate_grad root root_inputs acc outputs P0 ps exec ncap ∧
  ∀ k calls P vars, steps k P0 calls P → stuck P → future_result_ (task P) = Some (Ok vars) →
  ∃ log, finished_with g accumulate validate_grad root root_inputs ps exec ncap calls (Ok vars) log ∧ calls.*1 = called log ∧
    ∀ c inputs, (c, inputs) ∈ calls ↔ ∃ outs, (c, inputs, outs) ∈ log.
Proof.
  intros HP. destruct started_exists as (P0' & ps & exec & ncap & E & Hs). assert (P0' = P0) as -> by congruence.
  exists ps, exec, ncap. split; [done|]. intros k calls P vars Hst Hstuck Hres.
  destruct (pass_finishes g accumulate validate_grad root root_inputs ps exec ncap Hg (st_plan _ _ _ _ _ _ _ _ _ _ _ Hs) k P0 calls P
    (st_going _ _ _ _ _ _ _ _ _ _ _ Hs) (st_future _ _ _ _ _ _ _ _ _ _ _ Hs) Hst) as [_ Hend].
  destruct (Hend Hstuck) as (r & Hr' & [(e & -> & _)|(log & Hf)]); [congruence|]. assert (r = Ok vars) as -> by congruence.
  exists log. split; [done|]. pose proof (fw_calls _ _ _ _ _ _ _ _ _ _ _ Hf) as ->. split; [by unfold called; rewrite <- list_fmap_compose|].
  intros c inputs. rewrite list_elem_of_fmap. split.
  - intros ([[c' i'] o] & [= <- <-] & Hx). by exists o.
  - intros (o & Hx). by exists (c, inputs, o).
Qed.

(** C4. A backward pass comes to an end: the call of the engine starts it, and
    every run of the threads, whatever their interleaving, has at most four steps
    for each function of the graph; when no thread can go on, the future of the
    pass is completed. *)
Theorem backward_terminates : ∃ P0, start = Ok P0 ∧ ∀ k calls P, steps k P0 calls P →
  Z.of_nat k ≤ 4 * Z.of_nat (size g) ∧ (stuck P → is_Some (future_result_ (task P))).
Proof.
  destruct started_exists as (P0 & ps & exec & ncap & E & Hs). exists P0. split; [done|]. intros k calls P Hst.
  destruct (pass_finishes g accumulate validate_grad root root_inputs ps exec ncap Hg (st_plan _ _ _ _ _ _ _ _ _ _ _ Hs) k P0 calls P
    (st_going _ _ _ _ _ _ _ _ _ _ _ Hs) (st_future _ _ _ _ _ _ _ _ _ _ _ Hs) Hst) as [Hk Hend].
  rewrite (st_work _ _ _ _ _ _ _ _ _ _ _ Hs) in Hk. split; [done|]. intros (r & -> & _)%Hend. by eexists.
Qed.

(** C33. The only exceptions of a pass are those of its functions and hooks: when
    the future holds an exception, the call of an evaluated function (which
    includes the check of what it returned against the metadata of its edges) or a
    pre-hook of it threw it; when none of these throws, the future holds the
    captured variables, one for each output of [grad] and none for [backward]. *)
Theorem backward_exceptions P0 k calls P r : start = Ok P0 → steps k P0 calls P → stuck P → future_result_ (task P) = Some r →
  match r with
  | Throw e => ∃ c inputs n, (c, inputs) ∈ calls ∧ g !! c = Some n ∧ (call_function validate_grad n inputs = Throw e ∨ call_tensor_pre_hooks n inputs = Throw e)
  | Ok vars => length vars = if acc then 0%nat else length outputs
  end.
Proof.
  intros HP Hst Hstuck Hres. destruct started_exists as (P0' & ps & exec & ncap & E & Hs). assert (P0' = P0) as -> by congruence.
  destruct (pass_finishes g accumulate validate_grad root root_inputs ps exec ncap Hg (st_plan _ _ _ _ _ _ _ _ _ _ _ Hs) k P0 calls P
    (st_going _ _ _ _ _ _ _ _ _ _ _ Hs) (st_future _ _ _ _ _ _ _ _ _ _ _ Hs) Hst) as [_ Hend].
  destruct (Hend Hstuck) as (r' & Hr' & Hcase). assert (r' = r) as -> by congruence.
  destruct Hcase as [(e & -> & c & inputs & Hin & n & Hn & Ht)|(log & Hf)]; [by exists c, inputs, n|].
  rewrite (fw_result _ _ _ _ _ _ _ _ _ _ _ Hf). by rewrite captured_length, (st_ncap _ _ _ _ _ _ _ _ _ _ _ Hs).
Qed.

(** C5. A pass that ends with a result has evaluated each function that takes
    part exactly once, and no other: the root, and the functions on a path from
    the root to an output, or all that the root reaches when no outputs are
    given.  Of these it has called, once, with the inputs they were evaluated
    with, the functions that propagate gradients, and no other: all when no
    outputs are given, otherwise those with an edge towards an output and, for
    [backward], the functions of the outputs; a function whose inputs [grad] only
    captures is not called. *)
Theorem backward_calls_participants P0 k evaluated P vars :
  start = Ok P0 → steps k P0 evaluated P → stuck P → future_result_ (task P) = Some (Ok vars) →
  NoDup evaluated.*1 ∧ NoDup (calls_ (task P)).*1 ∧
  (∀ c, c ∈ evaluated.*1 ↔ c = root ∨ (rtc (edge g) root c ∧ (outputs = [] ∨ ∃ o, o ∈ outs_of outputs ∧ rtc (edge g) c o))) ∧
  ∀ c inputs, (c, inputs) ∈ calls_ (task P) ↔ (c, inputs) ∈ evaluated ∧
    (outputs = [] ∨ (acc = true ∧ c ∈ outs_of outputs) ∨ ∃ o, o ∈ outs_of outputs ∧ tc (edge g) c o).
Proof.
  intros HP Hst Hstuck Hres. destruct (run_outcome P0 HP) as (ps & exec & ncap & Hs & Hrun).
  destruct (Hrun k evaluated P vars Hst Hstuck Hres) as (log & Hf & E & _). pose proof (fw_once _ _ _ _ _ _ _ _ _ _ _ Hf) as Hnd.
  pose proof (pass_calls g accumulate validate_grad root root_inputs ps exec ncap Hg (st_plan _ _ _ _ _ _ _ _ _ _ _ Hs) k P0 evaluated P vars
    (st_going _ _ _ _ _ _ _ _ _ _ _ Hs) Hst Hres) as Ec.
  assert (∀ c, c ∈ evaluated.*1 ↔ participates g root outputs c) as Hpart.
  { intros c. rewrite E, (fw_live _ _ _ _ _ _ _ _ _ _ _ Hf c). apply (st_live _ _ _ _ _ _ _ _ _ _ _ Hs). }
  rewrite <- E in Hnd. split; [done|]. split; [|split; [done|]].
  - rewrite Ec. eapply sublist_NoDup; [exact Hnd|]. apply fmap_sublist, sublist_filter.
  - intros c inputs. rewrite Ec, list_elem_of_filter, <- propagates_path. cbn. assert ((c, inputs) ∈ evaluated → participates g root outputs c) as Hc.
    { intros Hin. apply Hpart. by apply (list_elem_of_fmap_2 fst _ (c, inputs)). }
    pose proof (st_flows _ _ _ _ _ _ _ _ _ _ _ Hs c). tauto.
Qed.

(** What [c] returned, in an account. *)
Lemma entry_outs ps exec ncap P0 calls r log c inputs outs :
  started g accumulate validate_grad root root_inputs acc outputs P0 ps exec ncap →
  finished_with g accumulate validate_grad root root_inputs ps exec ncap calls r log → (c, inputs, outs) ∈ log →
  participates g root outputs c ∧ inputs = inputs_of g accumulate root root_inputs c (deliveries g log) ∧
  (propagates g acc outputs c → ∃ n, g !! c = Some n ∧ call_function validate_grad n inputs = Ok outs) ∧
  (¬ propagates g acc outputs c → outs = []) ∧ (exec = ∅ ∨ is_Some (new_inputs g exec c inputs)).
Proof.
  intros Hs Hf Hx. destruct (finished_entry _ _ _ _ _ _ _ _ _ _ _ _ Hf Hx) as [(Hi & Hn & n & Hgc & Hcall) Hl]. cbn in *.
  apply (st_live _ _ _ _ _ _ _ _ _ _ _ Hs) in Hl. split; [done|]. split; [done|]. pose proof (st_flows _ _ _ _ _ _ _ _ _ _ _ Hs c Hl) as Hfl.
  split; [|split; [|done]].
  - intros Hp%Hfl. rewrite Hp in Hcall. exists n. by destruct Hcall.
  - intros Hp. destruct (flows exec c); [|done]. destruct Hp. by apply Hfl.
Qed.

(** C3. In a pass that ends with a result, the inputs of the root are the given
    gradients, and each input of another function is the sum of what the
    functions with an edge to this input returned on it, in the order of the
    calls, undefined if nothing came; a function that propagates gradients
    returned its outputs, and the others delivered nothing. *)
Theorem backward_inputs_are_sums P0 k calls P vars :
  start = Ok P0 → steps k P0 calls P → stuck P → future_result_ (task P) = Some (Ok vars) →
  ∃ outs : node_id → variable_list V, ∀ c inputs, (c, inputs) ∈ calls →
    (c = root → inputs = root_inputs) ∧
    (c ≠ root → ∃ n, g !! c = Some n ∧ length inputs = num_inputs n ∧ ∀ i, (i < num_inputs n)%nat →
      inputs !! i = Some (sum_of accumulate (gradients_for c i (concat ((λ p, zip (out_edges g p) (outs p)) <$> calls.*1))))) ∧
    (propagates g acc outputs c → ∃ n, g !! c = Some n ∧ call_function validate_grad n inputs = Ok (outs c)) ∧
    (¬ propagates g acc outputs c → outs c = []).
Proof.
  intros HP Hst Hstuck Hres. destruct (run_outcome P0 HP) as (ps & exec & ncap & Hs & Hrun).
  destruct (Hrun k calls P vars Hst Hstuck Hres) as (log & Hf & Ecalls & Hcalls). exists (outs_in log). intros c inputs (o & Hx)%Hcalls.
  pose proof (fw_once _ _ _ _ _ _ _ _ _ _ _ Hf) as Hnd. rewrite Ecalls, <- (deliveries_outs g log Hnd).
  rewrite (outs_in_spec log (c, inputs, o) Hnd Hx : outs_in log c = o). destruct (entry_outs _ _ _ _ _ _ _ _ _ _ Hs Hf Hx) as (Hp & -> & H1 & H2 & _).
  split; [intros ->; unfold inputs_of; by rewrite decide_True|]. split; [|done]. intros Hne.
  destruct (live_exists g validate_grad root root_inputs ps exec ncap Hg (st_plan _ _ _ _ _ _ _ _ _ _ _ Hs) c) as [n Hn].
  { by apply (st_live _ _ _ _ _ _ _ _ _ _ _ Hs). }
  unfold inputs_of. rewrite decide_False by done. exists n. split; [done|]. split; [by apply buffer_length|]. intros i Hi. by apply (buffer_sum g accumulate c n).
Qed.

(** The result of [grad] at the position of an output is the input of the
    function of this output: as the function got it if it propagates gradients,
    and as its tensor pre-hooks returned it otherwise; it is undefined if the
    function was not called. *)
Theorem grad_returns_inputs P0 k calls P vars j e c : acc = false → outputs !! j = Some e → function e = Some c →
  start = Ok P0 → steps k P0 calls P → stuck P → future_result_ (task P) = Some (Ok vars) →
  (∀ inputs, (c, inputs) ∈ calls → ∃ n l v, g !! c = Some n ∧ (propagates g acc outputs c → l = inputs) ∧
    (¬ propagates g acc outputs c → call_tensor_pre_hooks n inputs = Ok l) ∧ l !! input_nr e = Some v ∧ vars !! j = Some v) ∧
  (c ∉ calls.*1 → vars !! j = Some None).
Proof.
  intros Hacc He Hc HP Hst Hstuck Hres. destruct (run_outcome P0 HP) as (ps & exec & ncap & Hs & Hrun).
  destruct (Hrun k calls P vars Hst Hstuck Hres) as (log & Hf & Ecalls & Hcalls). pose proof (fw_once _ _ _ _ _ _ _ _ _ _ _ Hf) as Hnd.
  pose proof (fw_result _ _ _ _ _ _ _ _ _ _ _ Hf) as [= ->]. pose proof (st_ncap _ _ _ _ _ _ _ _ _ _ _ Hs) as Hncap. rewrite Hacc in Hncap.
  assert (∀ x, captures_of exec x = captures_for x outputs 0) as Hcap by (intros x; rewrite (st_captures _ _ _ _ _ _ _ _ _ _ _ Hs); by rewrite Hacc).
  split; [|intros Hn; rewrite Ecalls in Hn; by apply (captured_none g exec ncap outputs Hcap c e)].
  intros inputs (o & Hx)%Hcalls. destruct (entry_outs _ _ _ _ _ _ _ _ _ _ Hs Hf Hx) as (Hp & Hi & _ & _ & Hnew).
  assert (exec ≠ ∅) as Hne.
  { intros ->. assert ((input_nr e, j) ∈ captures_of ∅ c) as Hin by (rewrite Hcap; by apply (captures_for_in c outputs 0)).
    unfold captures_of, info_at in Hin. rewrite lookup_empty in Hin. by apply not_elem_of_nil in Hin. }
  destruct Hnew as [?|[l Hl]]; [done|]. destruct (Hfit e ltac:(by eapply list_elem_of_lookup_2)) as (c' & n & Hc' & Hn & Hlt). assert (c' = c) as -> by congruence.
  assert (length inputs = if decide (c = root) then length root_inputs else num_inputs n) as Hlen by (rewrite Hi; by apply inputs_of_length).
  assert (length l = length inputs ∧ (flows exec c = true → l = inputs) ∧ (flows exec c = false → call_tensor_pre_hooks n inputs = Ok l)) as (Hll & H1 & H2).
  { unfold new_inputs in Hl. destruct (exec !! c) as [x|] eqn:Ex; [|done]. rewrite Hn in Hl. rewrite flows_needed by done. unfold needed, info_at. rewrite Ex. cbn.
    destruct (needed_ x); [injection Hl as ->; done|]. destruct (call_tensor_pre_hooks n inputs) as [l0|] eqn:Eh; [|done]. injection Hl as ->.
    split; [by eapply (gk_hooks _ _ Hg)|done]. }
  destruct (lookup_lt_is_Some_2 l (input_nr e)) as [v Hv]; [lia|]. pose proof (st_flows _ _ _ _ _ _ _ _ _ _ _ Hs c Hp) as Hfl.
  exists n, l, v. split; [done|]. split; [by intros Hpr%Hfl; apply H1|]. split; [intros Hpr; apply H2; apply not_true_is_false; by intros ?%Hfl|].
  split; [done|]. by apply (captured_some g exec ncap outputs Hcap c e j log (c, inputs, o) l v).
Qed.

(** C26. With an addition that is associative and commutative the result of a
    pass does not depend on the interleaving of the threads: two runs that end
    with results end with the same result, after the same calls with the same
    inputs. *)
Theorem backward_deterministic P0 k1 k2 calls1 calls2 P1 P2 vars1 vars2 :
  (∀ x y, accumulate x y = accumulate y x) → (∀ x y z, accumulate x (accumulate y z) = accumulate (accumulate x y) z) → start = Ok P0 →
  steps k1 P0 calls1 P1 → stuck P1 → future_result_ (task P1) = Some (Ok vars1) →
  steps k2 P0 calls2 P2 → stuck P2 → future_result_ (task P2) = Some (Ok vars2) →
  vars1 = vars2 ∧ calls1 ≡ₚ calls2.
Proof.
  intros Hcomm Hassoc HP Hst1 Hk1 Hr1 Hst2 Hk2 Hr2. destruct (run_outcome P0 HP) as (ps & exec & ncap & Hs & Hrun).
  destruct (Hrun _ _ _ _ Hst1 Hk1 Hr1) as (log1 & F1 & _), (Hrun _ _ _ _ Hst2 Hk2 Hr2) as (log2 & F2 & _).
  pose proof (st_plan _ _ _ _ _ _ _ _ _ _ _ Hs) as Hplan.
  pose proof (finished_perm g accumulate validate_grad Hg root root_inputs ps exec ncap Hplan Hcomm Hassoc _ _ _ _ _ _ F1 F2) as Hperm.
  split; [|rewrite (fw_calls _ _ _ _ _ _ _ _ _ _ _ F1), (fw_calls _ _ _ _ _ _ _ _ _ _ _ F2); by apply fmap_Permutation].
  pose proof (fw_result _ _ _ _ _ _ _ _ _ _ _ F1) as [= ->]. pose proof (fw_result _ _ _ _ _ _ _ _ _ _ _ F2) as [= ->].
  pose proof (st_captures _ _ _ _ _ _ _ _ _ _ _ Hs) as Hcap. pose proof (st_ncap _ _ _ _ _ _ _ _ _ _ _ Hs) as Hncap. destruct acc.
  - by rewrite !(nil_length_inv (captured _ _ _ _)) by (by rewrite captured_length).
  - apply (captured_perm g exec ncap outputs Hcap _ _ Hncap Hperm). apply (fw_once _ _ _ _ _ _ _ _ _ _ _ F1).
Qed.

(** ** The thread that drives a pass. *)
Section Thread.
Context (top : list Z → nat) {Htop : TopPolicy top}.

Local Abbreviation thread_main := (thread_main g accumulate validate_grad top).

Lemma thread_runs P0 : start = Ok P0 → ∃ calls s k, thread_main (size g) [] (task P0) = Ok (calls, s) ∧ steps k P0 calls (alone s) ∧
  future_completed_ s = true ∧ ∀ vars, future_result_ s = Some (Ok vars) → stuck (alone s).
Proof.
  intros HP. destruct started_exists as (P0' & ps & exec & ncap & E & Hs). assert (P0' = P0) as -> by congruence.
  pose proof (st_going _ _ _ _ _ _ _ _ _ _ _ Hs) as Hgo. pose proof (st_plan _ _ _ _ _ _ _ _ _ _ _ Hs) as Hplan.
  assert (P0 = alone (task P0)) as Ea.
  { unfold AutogradEngine.start in HP. destruct (prepare g root outputs acc); [|done]. by injection HP as <-. }
  rewrite Ea in Hgo. pose proof (st_work _ _ _ _ _ _ _ _ _ _ _ Hs) as Hw. rewrite Ea in Hw.
  destruct (thread_main_spec g accumulate validate_grad top Hg root root_inputs ps exec ncap Hplan (size g) (task P0) [] [] [] Hgo) as (more & s & k & E1 & Hst & Hdone); [by rewrite Hw|].
  exists more, s, k. split; [done|]. split; [by rewrite Ea|]. split; [done|]. intros vars Hv.
  destruct (going_steps _ _ _ _ _ _ _ _ Hg Hplan _ _ _ _ _ _ Hst Hgo) as (log & lost & Hgo' & _).
  apply alone_stuck. by apply (going_result g accumulate validate_grad root root_inputs ps exec ncap s _ _ vars Hgo').
Qed.

(** The thread that calls the engine completes the pass by itself when all
    tasks are in its queue, whatever task the queue prefers among those with equal
    sequence numbers: [thread_main] returns after at most one turn for each
    function of the graph, it never waits on an empty queue, the future is
    completed, and what it has done is one of the runs of the pass. *)
Theorem thread_main_completes P0 : start = Ok P0 →
  ∃ calls s k, thread_main (size g) [] (task P0) = Ok (calls, s) ∧ future_completed_ s = true ∧ steps k P0 calls (alone s).
Proof. intros HP. destruct (thread_runs P0 HP) as (calls & s & k & H1 & H2 & H3 & _). by exists calls, s, k. Qed.

(** The thread calls functions in the reverse order of their creation: if
    a function that has edges itself has a smaller sequence number than the
    functions with an edge to it, as when the graph was recorded by a forward
    pass, the functions with edges are called in the order of decreasing
    sequence numbers. *)
Theorem thread_main_reverses fuel s calls s' : (∀ p c, edge g p c → out_edges g c ≠ [] → node_sequence_nr g c < node_sequence_nr g p) →
  thread_main fuel [] s = Ok (calls, s') →
  ∀ i j p c, (i < j)%nat → calls.*1 !! i = Some p → calls.*1 !! j = Some c → out_edges g p ≠ [] → out_edges g c ≠ [] →
    node_sequence_nr g c ≤ node_sequence_nr g p.
Proof.
  intros Hseq Hrun. destruct (thread_main_sorted g accumulate validate_grad top Hseq fuel [] s calls s' Hrun) as (more & -> & Hs & _).
  clear Hrun. cbn. induction (more.*1) as [|x l IH]; intros i j p c Hij Hi Hj Hp Hc; [done|]. rewrite filter_cons in Hs. destruct j as [|j]; [lia|].
  destruct i as [|i].
  - injection Hi as ->. rewrite decide_True in Hs by done. apply StronglySorted_inv in Hs as [_ Hs].
    apply (proj1 (Forall_forall _ _) Hs), list_elem_of_filter. split; [done|]. by eapply list_elem_of_lookup_2.
  - apply (IH ltac:(case_decide; [by apply StronglySorted_inv in Hs as [? _]|done]) i j); [lia|done..].
Qed.

(** [get_current_graph_task_execution_order] is right for a pass with a
    single root edge that has not called a function yet: it returns the functions
    in the order in which the thread then calls them, if none throws. *)
Theorem execution_order_predicts P0 calls s vars : start = Ok P0 → thread_main (size g) [] (task P0) = Ok (calls, s) →
  future_result_ s = Some (Ok vars) →
  get_current_graph_task_execution_order g top false (Some ([root], task P0)) = Ok calls.*1.
Proof.
  intros HP Hrun Hres. destruct started_exists as (P0' & ps & exec & ncap & E & Hs). assert (P0' = P0) as -> by congruence.
  pose proof (st_going _ _ _ _ _ _ _ _ _ _ _ Hs) as Hgo. pose proof (st_plan _ _ _ _ _ _ _ _ _ _ _ Hs) as Hplan.
  assert (P0 = alone (task P0) ∧ fn_ <$> ready (task P0) = [root] ∧ not_ready_ (task P0) = ∅) as (Ea & Er & En).
  { unfold AutogradEngine.start, prepare in HP. destruct (compute_min_topological_nr g outputs) as [m|]; [|done]. cbn [mbind result_bind] in HP.
    destruct (compute_dependencies g root m) as [[d N]|]; [|done]. cbn [mbind result_bind] in HP.
    destruct (match outputs with [] => _ | _ => _ end) as [[x k]|]; [|done]. by injection HP as <-. }
  rewrite Ea in Hgo. pose proof (sc_exec _ _ _ _ _ _ _ _ (go_sched _ _ _ _ _ _ _ _ _ _ _ Hgo)) as Hexec.
  assert (predicts exec (task P0) (dependencies_ (task P0)) (fn_ <$> ready (task P0))) as Hp.
  { split; [done|done|done|]. intros c _. by rewrite En, lookup_empty. }
  destruct (lockstep g accumulate validate_grad top Hg root root_inputs ps exec ncap Hplan (st_pred _ _ _ _ _ _ _ _ _ _ _ Hs) (size g) (task P0) [] [] [] calls s vars
    (dependencies_ (task P0)) [] Hgo Hp Hrun Hres) as (more & -> & Ho).
  unfold get_current_graph_task_execution_order, TORCH_CHECK. cbn -[order_loop]. cbn in Hexec. rewrite Hexec. rewrite Er in Ho.
  exact (order_fuel_enough g top exec (length more) _ [root] [] _ Ho).
Qed.
End Thread.
End Run.

(** A call of [execute] with valid edges sets up a pass.  With a single root
    edge the root is its function, and the gradient is in its input; otherwise
    the root is a new node that returns the gradients to the root edges, and the
    other functions are as before.  The new graph is one that the engine can
    run. *)
Theorem execute_starts_pass {V : Type} (accumulate : V → V → V) (validate_grad : Edge → V → result V) (g : Graph V) fresh seq root_edges
    (inputs inputs' : variable_list V) acc outputs :
  built g → graph_ok g validate_grad → g !! fresh = None → Z.of_nat (S (size g)) < 2 ^ 64 →
  edges_valid g root_edges → edges_valid g outputs → acc = true ∨ outputs ≠ [] →
  validate_outputs validate_grad root_edges inputs = Ok inputs' →
  ∃ g' P0 root root_inputs, execute accumulate validate_grad fresh seq root_edges inputs acc outputs g = (g', Ok P0) ∧
    graph_ok g' validate_grad ∧ is_Some (g' !! root) ∧ outputs_fit g' root root_inputs outputs ∧
    stands_for validate_grad g g' root_edges inputs' root root_inputs ∧ start g' root outputs acc root_inputs = Ok P0.
Proof.
  intros Hb Hok Hf Hs Hv Ho Hsome Hval. apply execute_spec; try done. unfold something. destruct Hsome as [-> |Hne]; [done|].
  rewrite bool_decide_false by done. apply orb_true_r.
Qed.

(** ** An example: a function that is used by two others. *)

(** A check that a graph without hooks meets what the engine relies on. *)
Definition plain_node {V} (g : Graph V) (n : Node V) : bool :=
  match tensor_pre_hooks n, retains_grad_hooks n, post_hooks n with
  | [], [], [] => forallb (λ e, match function e with
                                | None => true
                                | Some c => match g !! c with Some m => (input_nr e <? num_inputs m)%nat | None => false end
                                end) (next_edges n)
  | _, _, _ => false
  end.
Definition plain {V} (g : Graph V) : bool := forallb (λ x, plain_node g x.2) (map_to_list g).

Lemma plain_ok {V} (g : Graph V) validate_grad : built g → plain g = true → graph_ok g validate_grad.
Proof.
  intros Hb Hp. assert (∀ p n, g !! p = Some n → tensor_pre_hooks n = [] ∧ retains_grad_hooks n = [] ∧ post_hooks n = [] ∧
    ∀ e c, e ∈ next_edges n → function e = Some c → ∃ m, g !! c = Some m ∧ (input_nr e < num_inputs m)%nat) as Hn.
  { intros p n Hp'. unfold plain in Hp. rewrite forallb_forall in Hp. specialize (Hp (p, n)). cbn in Hp.
    assert (plain_node g n = true) as Hpn by (apply Hp, list_elem_of_In; by apply elem_of_map_to_list).
    unfold plain_node in Hpn. destruct (tensor_pre_hooks n), (retains_grad_hooks n), (post_hooks n); try done. repeat (split; [done|]).
    intros e c He Hc. rewrite forallb_forall in Hpn. specialize (Hpn e ltac:(by apply list_elem_of_In)). rewrite Hc in Hpn.
    destruct (g !! c) as [m|]; [|done]. exists m. split; [done|]. by apply Nat.ltb_lt. }
  split.
  - by apply built_topological_graph.
  - intros p n e c Hp'. by apply (Hn p n Hp').
  - intros p n inputs outs Hp'. destruct (Hn p n Hp') as (E1 & E2 & E3 & _). unfold call_function, call_tensor_pre_hooks. rewrite E1, E2, E3. cbn [call_hooks mbind result_bind].
    destruct (call_pre_hooks n inputs); [|done]. cbn. destruct (apply n a); [|done]. cbn. destruct (validate_outputs _ _ _) eqn:Ev; [|done]. cbn. intros [= <-].
    by eapply validate_outputs_length.
  - intros p n l l' Hp'. destruct (Hn p n Hp') as (E1 & E2 & _). unfold call_tensor_pre_hooks. rewrite E1, E2. by intros [= <-].
Qed.

Module Demo.
Definition validate (e : Edge) (v : Z) : result Z := Ok v.
Definition scale (k : Z) (l : variable_list Z) : result (variable_list Z) := Ok [option_map (Z.mul k) (default None (head l))].
Definition both (l : variable_list Z) : result (variable_list Z) := Ok [default None (head l); default None (head l)].

(** The leaf 1 is used by 2 and 3, which the root 4 uses. *)
Definition to (c : node_id) : Edge := mkEdge (Some c) 0.
Definition g1 : Graph Z := fst (new_Node 1%positive 0 [] 1 (λ _, Ok []) ∅).
Definition g2 : Graph Z := fst (new_Node 2%positive 1 [to 1%positive] 1 (scale 2) g1).
Definition g3 : Graph Z := fst (new_Node 3%positive 2 [to 1%positive] 1 (scale 3) g2).
Definition g4 : Graph Z := fst (new_Node 4%positive 3 [to 2%positive; to 3%positive] 2 both g3).

Lemma targets_here (g : Graph Z) i l : forallb (λ e, match function e with Some c => negb (bool_decide (c = i)) && bool_decide (is_Some (g !! c)) | None => true end) l = true →
  targets_ok g i l.
Proof.
  intros Hl e c He Hc. rewrite forallb_forall in Hl. specialize (Hl e ltac:(by apply list_elem_of_In)). rewrite Hc in Hl.
  apply andb_true_iff in Hl as [H1 H2]. apply negb_true_iff, bool_decide_eq_false in H1. by apply bool_decide_eq_true in H2.
Qed.

Lemma g4_built : built g4.
Proof.
  apply (built_new g3 g4 4%positive 3 [to 2%positive; to 3%positive] 2 both); [|reflexivity|reflexivity|by apply targets_here|reflexivity].
  apply (built_new g2 g3 3%positive 2 [to 1%positive] 1 (scale 3)); [|reflexivity|reflexivity|by apply targets_here|reflexivity].
  apply (built_new g1 g2 2%positive 1 [to 1%positive] 1 (scale 2)); [|reflexivity|reflexivity|by apply targets_here|reflexivity].
  apply (built_new ∅ g1 1%positive 0 [] 1 (λ _, Ok [])); [constructor|reflexivity|reflexivity|by apply targets_here|reflexivity].
Qed.

Lemma g4_ok : graph_ok g4 validate.
Proof. apply plain_ok; [apply g4_built|reflexivity]. Qed.

(** [grad] of the root with respect to the leaf and to 3. *)
Definition outputs : list Edge := [to 1%positive; to 3%positive].
Definition grads : variable_list Z := [Some 1; None].
Definition calls : list (node_id * variable_list Z) :=
  [(4%positive, [Some 1; None]); (3%positive, [Some 1]); (2%positive, [Some 1]); (1%positive, [Some 5])].

Lemma root_exists : is_Some (g4 !! 4%positive).
Proof. eexists. reflexivity. Qed.

Lemma outputs_here : outputs_fit g4 4%positive grads outputs.
Proof.
  assert (∀ c, bool_decide (is_Some (g4 !! c)) = true → c ≠ 4%positive → num_inputs <$> g4 !! c = Some 1%nat → ∃ c' n,
    function (to c) = Some c' ∧ g4 !! c' = Some n ∧ (input_nr (to c) < if decide (c' = 4%positive) then length grads else num_inputs n)%nat) as Hto.
  { intros c [n Hn]%bool_decide_eq_true Hne Hk. exists c, n. rewrite Hn in Hk. injection Hk as Hk. rewrite decide_False, Hk by done. cbn. split; [done|]. split; [done|lia]. }
  intros e [-> |[-> |?%not_elem_of_nil]%elem_of_cons]%elem_of_cons; [by apply Hto|by apply Hto|done].
Qed.

Definition P0 : Pass (V := Z) :=
  match start g4 4%positive outputs false grads with Ok P => P | Throw _ => mkPass (mkGraphTask 0 false false ∅ ∅ ∅ [] false None [] []) [] 0 0 end.
Definition s : GraphTask (V := Z) :=
  match thread_main g4 Z.add validate first_top (size g4) [] (task P0) with Ok (_, s) => s | Throw _ => task P0 end.
Definition vars : variable_list Z := [Some 5; Some 1].

Lemma starts : start g4 4%positive outputs false grads = Ok P0.
Proof. reflexivity. Qed.

Lemma runs_to : thread_main g4 Z.add validate first_top (size g4) [] (task P0) = Ok (calls, s) ∧ future_result_ s = Some (Ok vars).
Proof. split; vm_compute; reflexivity. Qed.

Lemma run : ∃ k, steps g4 Z.add validate k P0 calls (alone s) ∧ stuck g4 Z.add validate (alone s).
Proof.
  destruct (thread_runs g4 Z.add validate g4_ok 4%positive grads false outputs root_exists outputs_here first_top P0 starts) as (calls' & s' & k & H1 & H2 & _ & H3).
  destruct runs_to as [H4 H5]. assert (calls' = calls ∧ s' = s) as [-> ->] by (split; congruence). exists k. split; [done|]. by apply (H3 vars).
Qed.
End Demo.

(** C34. The prediction of the order fails when two root edges have the same
    function: with two gradients for two inputs of the root of the example, the
    pass that [execute] sets up is at the root after one turn, and then
    [get_current_graph_task_execution_order] fails an assertion, since the
    function is listed for each of its edges and its own edges are counted
    down twice. *)
Theorem execution_order_repeated_root :
  let root_edges := [mkEdge (Some 4%positive) 0; mkEdge (Some 4%positive) 1] in
  ∃ g' P0 t rest, execute Z.add Demo.validate 5%positive 4 root_edges [Some 1; Some 1] true [] Demo.g4 = (g', Ok P0) ∧
    pop g' first_top (ready (task P0)) = Some (t, rest) ∧ fn_ <$> ready (turn g' Z.add Demo.validate t rest (task P0)) = [4%positive] ∧
    get_current_graph_task_execution_order g' first_top false (Some (omap function root_edges, turn g' Z.add Demo.validate t rest (task P0))) =
      Throw (InternalAssert "it != dependencies.end()").
Proof. cbv zeta. eexists _, _, _, _. split; [reflexivity|]. split; [reflexivity|]. split; vm_compute; reflexivity. Qed.

Import Demo.

Lemma built_paths_decrease_witness : 0 ≤ topo g4 1%positive < topo g4 4%positive ∧ topo g4 4%positive < 2 ^ 64.
Proof.
  apply (built_paths_decrease g4 4%positive 1%positive g4_built). apply (tc_l _ _ 2%positive); [|apply tc_once].
  - eexists _, (to 2%positive). split; [reflexivity|]. split; [by left|done].
  - eexists _, (to 1%positive). split; [reflexivity|]. split; [by left|done].
Defined.

Lemma compute_dependencies_counts_witness : ∃ ps d N, compute_dependencies g4 4%positive 0 = Ok (d, N) ∧ NoDup ps ∧
  (∀ p, p ∈ ps ↔ (p = 4%positive ∨ ∃ q, q ∈ ps ∧ edge g4 q p) ∧ 0 ≤ topo g4 p) ∧ (∀ c, c ∈ N ↔ ∃ p, p ∈ ps ∧ edge g4 p c) ∧
  ∀ c, d !! c = if decide (c ∈ N) then Some (cnt c (edges_from g4 ps)) else None.
Proof. apply (compute_dependencies_counts g4 (built_topological_graph _ g4_built) 4%positive 0 root_exists). Defined.

Lemma init_to_execute_marks_witness : ∃ exec, init_to_execute g4 4%positive outputs false 0 = Ok (exec, 2%nat) ∧
  (∀ x, rtc (edge g4) 4%positive x →
    (nodeShouldExecute exec x = true ↔ ∃ o, o ∈ outs_of outputs ∧ rtc (edge g4) x o) ∧
    (needed exec x = true ↔ (false = true ∧ x ∈ outs_of outputs) ∨ ∃ o, o ∈ outs_of outputs ∧ tc (edge g4) x o)) ∧
  ∀ x i k, (i, k) ∈ captures_of exec x ↔ false = false ∧ ∃ e, outputs !! k = Some e ∧ function e = Some x ∧ i = input_nr e.
Proof.
  apply (init_to_execute_marks g4 (built_topological_graph _ g4_built) 4%positive false outputs 0 root_exists).
  - by repeat constructor.
  - intros o _. apply (topo_nonneg _ (built_topological_graph _ g4_built)).
Defined.

Lemma backward_terminates_witness : ∃ P0, start g4 4%positive outputs false grads = Ok P0 ∧ ∀ k calls P, steps g4 Z.add validate k P0 calls P →
  Z.of_nat k ≤ 4 * Z.of_nat (size g4) ∧ (stuck g4 Z.add validate P → is_Some (future_result_ (task P))).
Proof. apply (backward_terminates g4 Z.add validate g4_ok 4%positive grads false outputs root_exists outputs_here). Defined.

Lemma backward_exceptions_witness : length vars = length outputs.
Proof.
  destruct run as (k & Hs & Hk). destruct runs_to as [_ Hv].
  apply (backward_exceptions g4 Z.add validate g4_ok 4%positive grads false outputs root_exists outputs_here P0 k calls (alone s) (Ok vars) starts Hs Hk Hv).
Defined.

Lemma backward_calls_participants_witness : calls_ s = take 3 calls ∧ NoDup calls.*1 ∧ NoDup (calls_ s).*1 ∧
  (∀ c, c ∈ calls.*1 ↔ c = 4%positive ∨ (rtc (edge g4) 4%positive c ∧ (outputs = [] ∨ ∃ o, o ∈ outs_of outputs ∧ rtc (edge g4) c o))) ∧
  ∀ c inputs, (c, inputs) ∈ calls_ s ↔ (c, inputs) ∈ calls ∧
    (outputs = [] ∨ (false = true ∧ c ∈ outs_of outputs) ∨ ∃ o, o ∈ outs_of outputs ∧ tc (edge g4) c o).
Proof.
  destruct run as (k & Hs & Hk). destruct runs_to as [_ Hv].
  split; [vm_compute; reflexivity|].
  apply (backward_calls_participants g4 Z.add validate g4_ok 4%positive grads false outputs root_exists outputs_here P0 k calls (alone s) vars starts Hs Hk Hv).
Defined.

Lemma backward_inputs_are_sums_witness : ∃ outs : node_id → variable_list Z, ∀ c inputs, (c, inputs) ∈ calls →
  (c = 4%positive → inputs = grads) ∧
  (c ≠ 4%positive → ∃ n, g4 !! c = Some n ∧ length inputs = num_inputs n ∧ ∀ i, (i < num_inputs n)%nat →
    inputs !! i = Some (sum_of Z.add (gradients_for c i (concat ((λ p, zip (out_edges g4 p) (outs p)) <$> calls.*1))))) ∧
  (propagates g4 false outputs c → ∃ n, g4 !! c = Some n ∧ call_function validate n inputs = Ok (outs c)) ∧
  (¬ propagates g4 false outputs c → outs c = []).
Proof.
  destruct run as (k & Hs & Hk). destruct runs_to as [_ Hv].
  apply (backward_inputs_are_sums g4 Z.add validate g4_ok 4%positive grads false outputs root_exists outputs_here P0 k calls (alone s) vars starts Hs Hk Hv).
Defined.

Lemma grad_returns_inputs_witness :
  (∀ inputs, (3%positive, inputs) ∈ calls → ∃ n l v, g4 !! 3%positive = Some n ∧ (propagates g4 false outputs 3%positive → l = inputs) ∧
    (¬ propagates g4 false outputs 3%positive → call_tensor_pre_hooks n inputs = Ok l) ∧ l !! 0%nat = Some v ∧ vars !! 1%nat = Some v) ∧
  (3%positive ∉ calls.*1 → vars !! 1%nat = Some None).
Proof.
  destruct run as (k & Hs & Hk). destruct runs_to as [_ Hv].
  apply (grad_returns_inputs g4 Z.add validate g4_ok 4%positive grads false outputs root_exists outputs_here P0 k calls (alone s) vars 1 (to 3%positive) 3%positive
    eq_refl eq_refl eq_refl starts Hs Hk Hv).
Defined.

Lemma backward_deterministic_witness : vars = vars ∧ calls ≡ₚ calls.
Proof.
  destruct run as (k & Hs & Hk). destruct runs_to as [_ Hv].
  apply (backward_deterministic g4 Z.add validate g4_ok 4%positive grads false outputs root_exists outputs_here P0 k k calls calls (alone s) (alone s) vars vars
    Z.add_comm Z.add_assoc starts Hs Hk Hv Hs Hk Hv).
Defined.

Lemma thread_main_completes_witness : ∃ calls s k, thread_main g4 Z.add validate first_top (size g4) [] (task P0) = Ok (calls, s) ∧
  future_completed_ s = true ∧ steps g4 Z.add validate k P0 calls (alone s).
Proof. apply (thread_main_completes g4 Z.add validate g4_ok 4%positive grads false outputs root_exists outputs_here first_top P0 starts). Defined.

Lemma thread_main_reverses_witness : node_sequence_nr g4 2%positive ≤ node_sequence_nr g4 3%positive.
Proof.
  apply (thread_main_reverses g4 Z.add validate first_top (size g4) (task P0) calls s) with (i := 1%nat) (j := 2%nat); [|apply runs_to|lia|reflexivity|reflexivity|discriminate|discriminate].
  intros p c Hpc Hin. assert (∀ p : node_id, p ≠ 4%positive → p ≠ 3%positive → p ≠ 2%positive → out_edges g4 p = []) as Hno.
  { intros q H4 H3 H2. destruct (decide (q = 1%positive)) as [->|H1]; [reflexivity|]. assert (g4 !! q = None) as Hq.
    { apply not_elem_of_dom. assert (dom g4 = list_to_set [1%positive; 2%positive; 3%positive; 4%positive]) as -> by (vm_compute; reflexivity). set_solver. }
    unfold out_edges. by rewrite Hq. }
  apply edge_out in Hpc as (e & He & Hc). destruct (decide (p = 4%positive)) as [->|H4].
  { change (e ∈ [to 2%positive; to 3%positive]) in He. apply elem_of_cons in He as [->|He%list_elem_of_singleton]; [|subst e]; injection Hc as <-; reflexivity. }
  destruct (decide (p = 3%positive)) as [->|H3].
  { change (e ∈ [to 1%positive]) in He. apply list_elem_of_singleton in He as ->. injection Hc as <-. by destruct Hin. }
  destruct (decide (p = 2%positive)) as [->|H2].
  { change (e ∈ [to 1%positive]) in He. apply list_elem_of_singleton in He as ->. injection Hc as <-. by destruct Hin. }
  rewrite (Hno p H4 H3 H2) in He. by apply not_elem_of_nil in He.
Defined.

Lemma execution_order_predicts_witness :
  get_current_graph_task_execution_order g4 first_top false (Some ([4%positive], task P0)) = Ok [4%positive; 3%positive; 2%positive; 1%positive].
Proof.
  destruct runs_to as [Hr Hv].
  apply (execution_order_predicts g4 Z.add validate g4_ok 4%positive grads false outputs root_exists outputs_here first_top P0 calls s vars starts Hr Hv).
Defined.

Lemma execute_starts_pass_witness : ∃ g' P0 root root_inputs,
  execute Z.add validate 5%positive 4 [to 4%positive; to 2%positive] [Some 1; Some 1] true [] g4 = (g', Ok P0) ∧
  graph_ok g' validate ∧ is_Some (g' !! root) ∧ outputs_fit g' root root_inputs [] ∧
  stands_for validate g4 g' [to 4%positive; to 2%positive] [Some 1; Some 1] root root_inputs ∧ start g' root [] true root_inputs = Ok P0.
Proof.
  apply (execute_starts_pass Z.add validate g4 5%positive 4 [to 4%positive; to 2%positive] [Some 1; Some 1]); try reflexivity; [apply g4_built|apply g4_ok| | |by left].
  - intros e [-> | ->%list_elem_of_singleton]%elem_of_cons; eexists _, _; (split; [reflexivity|split; [reflexivity|cbn; lia]]).
  - by intros e ?%not_elem_of_nil.
Defined.
