(* ===== verification/OperatorSchema.v ===== *)
(** * Names, schemas and signatures of operators.

    aten/src/ATen/core/operator_name.{h,cpp}, the parts of function_schema.{h,cpp}
    and op_registration/infer_schema.cpp that operator registration uses, and
    the signature of CppSignature.h.  The types of the JIT and the tags (an
    enumeration the build generates) are an interface, [OperatorTypes]. *)

From stdpp Require Import gmap strings.
From S2P Require Import Prelude.

(** ** Operator names. *)
Record OperatorName : Type := mkOperatorName { op_name : string; overload_name : string }.

#[export] Instance OperatorName_eq_dec : EqDecision OperatorName.
Proof. solve_decision. Defined.
#[export] Instance OperatorName_countable : Countable OperatorName.
Proof.
  apply (inj_countable' (λ n, (op_name n, overload_name n)) (λ p, mkOperatorName p.1 p.2)).
  by intros [].
Defined.

(** [name.find("::")] and what is before it. *)
Definition getNamespace (n : OperatorName) : option string :=
  match String.index 0 "::" (op_name n) with
  | None => None
  | Some pos => Some (String.substring 0 pos (op_name n))
  end.

(** [true] when the namespace was set. *)
Definition setNamespaceIfNotSet (ns : string) (n : OperatorName) : bool * OperatorName :=
  match getNamespace n with
  | None => (true, mkOperatorName (ns +:+ "::" +:+ op_name n) (overload_name n))
  | Some _ => (false, n)
  end.

(** [OperatorNameView::parse]: "foo.overload" and also "foo". *)
Definition parse (full_name : string) : OperatorName :=
  match String.index 0 "." full_name with
  | None => mkOperatorName full_name ""
  | Some i => mkOperatorName (String.substring 0 i full_name)
                (String.substring (i + 1) (String.length full_name - (i + 1)) full_name)
  end.

Definition toString (n : OperatorName) : string :=
  op_name n +:+ (if decide (overload_name n = "") then "" else "." +:+ overload_name n).

Definition not_observed_ops : list string :=
  ["aten::size"; "aten::is_leaf"; "aten::output_nr"; "aten::_version"; "aten::is_complex";
   "profiler::_record_function_enter"; "profiler::_record_function_enter_new";
   "profiler::_record_function_exit"].

Definition isObserved (n : OperatorName) : bool :=
  negb (bool_decide (op_name n ∈ not_observed_ops)).

(** Two signatures are equal when they are those of one type, and then, as
    across libraries, when the names of the types are. *)
Record CppSignature : Type := mkCppSignature { signature_name : string }.
#[export] Instance CppSignature_eq_dec : EqDecision CppSignature.
Proof. solve_decision. Defined.

(** ** What registration asks of the type system of the JIT. *)
Class OperatorTypes := {
  TypePtr : Type;
  TypePtr_eq_dec :: EqDecision TypePtr;
  isSubtypeOf : TypePtr → TypePtr → bool;
  TensorType : TypePtr;
  ListOfTensors : TypePtr;
  ListOfOptionalTensors : TypePtr;
  OptionalOfTensor : TypePtr;
  SymIntType : TypePtr;
  OptionalSymIntType : TypePtr;
  SymIntArrayRefType : TypePtr;
  OptionalSymIntArrayRefType : TypePtr;
  Tag : Type }.

Section Schema.
Context `{OperatorTypes}.

(** The name, the type the schema shows and the type of the C++ argument.
    The size of a fixed-size list, the default value and the alias annotation
    are not read by registration. *)
Record Argument : Type := mkArgument {
  arg_name : string;
  type_ : TypePtr;
  real_type_ : TypePtr }.

Record FunctionSchema : Type := mkFunctionSchema {
  schema_name : OperatorName;
  arguments_ : list Argument;
  returns_ : list Argument;
  is_vararg_ : bool;
  is_varret_ : bool }.

Definition cloneWithType (new_type : TypePtr) (a : Argument) : Argument :=
  mkArgument (arg_name a) new_type new_type.

(** The lambda [cloneWithRealTypes]: without symbolic integers, an argument
    whose real type is one of theirs keeps the type it shows. *)
Definition cloneArgument (with_symint : bool) (a : Argument) : Argument :=
  if with_symint then cloneWithType (real_type_ a) a
  else if decide (real_type_ a = SymIntType ∨ real_type_ a = OptionalSymIntType ∨
                  real_type_ a = SymIntArrayRefType ∨ real_type_ a = OptionalSymIntArrayRefType)
  then cloneWithType (type_ a) a
  else cloneWithType (real_type_ a) a.

Definition cloneWithRealTypes (with_symint : bool) (s : FunctionSchema) : FunctionSchema :=
  mkFunctionSchema (schema_name s) (map (cloneArgument with_symint) (arguments_ s))
    (map (λ a, cloneWithType (real_type_ a) a) (returns_ s)) (is_vararg_ s) (is_varret_ s).

(** The reasons [findSchemaDifferences] gives. *)
Inductive SchemaDifference : Type :=
  | NumberOfArguments (l r : nat)
  | NumberOfReturns (l r : nat)
  | TypeOfArgument (i : nat) (l r : TypePtr)
  | TypeOfReturn (i : nat) (l r : TypePtr).

(** One of the two loops over positions; [i] is the position of the heads. *)
Fixpoint type_mismatch (mk : nat → TypePtr → TypePtr → SchemaDifference) (i : nat)
    (lhs rhs : list Argument) : option SchemaDifference :=
  match lhs, rhs with
  | l :: lhs', r :: rhs' =>
      if decide (type_ l = type_ r) then type_mismatch mk (S i) lhs' rhs'
      else Some (mk (i + 1)%nat (type_ l) (type_ r))
  | _, _ => None
  end.

Definition findSchemaDifferences (lhs rhs : FunctionSchema) : option SchemaDifference :=
  if negb (bool_decide (length (arguments_ lhs) = length (arguments_ rhs)))
  then Some (NumberOfArguments (length (arguments_ lhs)) (length (arguments_ rhs)))
  else if negb (bool_decide (length (returns_ lhs) = length (returns_ rhs)))
  then Some (NumberOfReturns (length (returns_ lhs)) (length (returns_ rhs)))
  else match type_mismatch TypeOfArgument 0 (arguments_ lhs) (arguments_ rhs) with
       | Some d => Some d
       | None => type_mismatch TypeOfReturn 0 (returns_ lhs) (returns_ rhs)
       end.

(** [DispatchKeyExtractor::isDispatchType]. *)
Definition isDispatchType (t : TypePtr) : bool :=
  isSubtypeOf t TensorType || isSubtypeOf t ListOfTensors ||
  isSubtypeOf t ListOfOptionalTensors || isSubtypeOf t OptionalOfTensor.

(** ** Differences of schemas. *)
Lemma type_mismatch_None mk : ∀ i l r, length l = length r →
  type_mismatch mk i l r = None ↔ map type_ l = map type_ r.
Proof.
  intros i l. revert i. induction l as [|a l IH]; intros i [|b r]; simpl; try done.
  intros [= Hl]. destruct (decide (type_ a = type_ b)) as [->|Hne].
  - rewrite (IH _ _ Hl). split; [by intros ->|by intros [= ->]].
  - split; [done|by intros [= ? ?]].
Qed.

Lemma findSchemaDifferences_None lhs rhs :
  findSchemaDifferences lhs rhs = None ↔
  map type_ (arguments_ lhs) = map type_ (arguments_ rhs) ∧
  map type_ (returns_ lhs) = map type_ (returns_ rhs).
Proof.
  unfold findSchemaDifferences.
  destruct (decide (length (arguments_ lhs) = length (arguments_ rhs))) as [Ha|Ha].
  2: { rewrite bool_decide_eq_false_2 by done. split; [done|]. intros [E _].
       apply (f_equal length) in E. rewrite !length_map in E. done. }
  rewrite bool_decide_eq_true_2 by done. simpl.
  destruct (decide (length (returns_ lhs) = length (returns_ rhs))) as [Hr|Hr].
  2: { rewrite bool_decide_eq_false_2 by done. split; [done|]. intros [_ E].
       apply (f_equal length) in E. rewrite !length_map in E. done. }
  rewrite bool_decide_eq_true_2 by done. simpl.
  rewrite <- (type_mismatch_None TypeOfArgument 0) by done.
  rewrite <- (type_mismatch_None TypeOfReturn 0) by done.
  destruct (type_mismatch TypeOfArgument 0 _ _); [split; [done|by intros [? _]]|].
  by split; [|intros [_ ?]].
Qed.
End Schema.

(** ** A concrete type system, for the examples. *)
Module DemoTypes.
Inductive demo_type : Type :=
  | Tensor | Tensors | OptionalTensors | OptionalTensor | SymInt | OptionalSymInt | SymInts
  | OptionalSymInts | Int | Generator.

#[export] Instance demo_type_eq_dec : EqDecision demo_type.
Proof. solve_decision. Defined.

Definition types : OperatorTypes := {|
  TypePtr := demo_type; TypePtr_eq_dec := demo_type_eq_dec; isSubtypeOf := λ a b, bool_decide (a = b);
  TensorType := Tensor; ListOfTensors := Tensors; ListOfOptionalTensors := OptionalTensors;
  OptionalOfTensor := OptionalTensor; SymIntType := SymInt; OptionalSymIntType := OptionalSymInt;
  SymIntArrayRefType := SymInts; OptionalSymIntArrayRefType := OptionalSymInts; Tag := unit |}.
End DemoTypes.
