(* ===== verification/DispatchKeyExtractor.v ===== *)
(** * From the arguments of a call to its dispatch keys.

    c10/util/Bitset.h, c10/core/impl/LocalDispatchKeySet.{h,cpp} and
    aten/src/ATen/core/dispatch/DispatchKeyExtractor.{h,cpp}: the positions of
    the tensor arguments on the stack, the keys a thread includes and excludes,
    and the keys an operator falls through. *)

From S2P Require Import Prelude SafeNum BitMath DispatchKey DispatchKeySet OperatorSchema.

(** ** [c10::utils::bitset]: the 64 bits of [bitset_], as a number. *)
Definition bitset : Type := Z.
Definition NUM_BITS : nat := 64.

Definition set_bit (index : Z) (b : bitset) : bitset := Z.lor b (Z.shiftl 1 index).
Definition unset (index : Z) (b : bitset) : bitset := Z.land b (not64 (Z.shiftl 1 index)).
Definition get_bit (index : Z) (b : bitset) : bool := negb (Z.land b (Z.shiftl 1 index) =? 0).
Definition is_entirely_unset (b : bitset) : bool := 0 =? b.

(** One-indexed; 0 when no bit is set. *)
Definition find_first_set (b : bitset) : Z := if b =? 0 then 0 else builtin_ctzll b + 1.

(** The indices [for_each_set_bit] calls its function with, in order; [fuel]
    bounds the bits. *)
Fixpoint set_bits (fuel : nat) (cur : bitset) : list Z :=
  match fuel with
  | O => []
  | S fuel' =>
      let index := find_first_set cur in
      if 0 =? index then []
      else let index := index - 1 in index :: set_bits fuel' (unset index cur)
  end.

Definition for_each_set_bit (b : bitset) : list Z := set_bits (S NUM_BITS) b.

(** ** The thread's key sets, stored with the defaults toggled so that the
    initial state is zero. *)
Record PODLocalDispatchKeySet : Type := mkPOD { included_ : Z; excluded_ : Z }.
Definition zero_tls : PODLocalDispatchKeySet := mkPOD 0 0.

Definition included (t : PODLocalDispatchKeySet) : DispatchKeySet :=
  ks_xor (included_ t) default_included_set.
Definition excluded (t : PODLocalDispatchKeySet) : DispatchKeySet :=
  ks_xor (excluded_ t) default_excluded_set.
Definition set_included (x : DispatchKeySet) (t : PODLocalDispatchKeySet) : PODLocalDispatchKeySet :=
  mkPOD (ks_xor x default_included_set) (excluded_ t).
Definition set_excluded (x : DispatchKeySet) (t : PODLocalDispatchKeySet) : PODLocalDispatchKeySet :=
  mkPOD (included_ t) (ks_xor x default_excluded_set).

(** [LocalDispatchKeySet]: the sets themselves. *)
Record LocalDispatchKeySet : Type := mkLocal { local_included : DispatchKeySet; local_excluded : DispatchKeySet }.
Definition tls_local_dispatch_key_set (t : PODLocalDispatchKeySet) : LocalDispatchKeySet :=
  mkLocal (included t) (excluded t).
Definition _force_tls_local_dispatch_key_set (key_set : LocalDispatchKeySet) (t : PODLocalDispatchKeySet)
    : PODLocalDispatchKeySet :=
  set_excluded (local_excluded key_set) (set_included (local_included key_set) t).

(** The guards: the constructor gives the saved state and the new one, the
    destructor puts the saved state back. *)
Inductive guard : Type :=
  | IncludeDispatchKeyGuard (saved_state_ : DispatchKeySet)
  | ExcludeDispatchKeyGuard (saved_state_ : DispatchKeySet)
  | ForceDispatchKeyGuard (saved_keyset_ : LocalDispatchKeySet).

(** What a guard is constructed from. *)
Inductive guard_request : Type :=
  | Include (include : DispatchKeySet)
  | Exclude (exclude : DispatchKeySet)
  | Force (key_set : LocalDispatchKeySet)
  | ForceSets (include exclude : DispatchKeySet)
  | SaveOnly.

Definition construct (r : guard_request) (t : PODLocalDispatchKeySet) : guard * PODLocalDispatchKeySet :=
  match r with
  | Include include =>
      let saved := included t in (IncludeDispatchKeyGuard saved, set_included (ks_or saved include) t)
  | Exclude exclude =>
      let saved := excluded t in (ExcludeDispatchKeyGuard saved, set_excluded (ks_or saved exclude) t)
  | Force key_set =>
      let saved := tls_local_dispatch_key_set t in
      (ForceDispatchKeyGuard saved, _force_tls_local_dispatch_key_set key_set t)
  | ForceSets include exclude =>
      let saved := tls_local_dispatch_key_set t in
      (ForceDispatchKeyGuard saved, _force_tls_local_dispatch_key_set (mkLocal include exclude) t)
  | SaveOnly => (ForceDispatchKeyGuard (tls_local_dispatch_key_set t), t)
  end.

Definition destruct_guard (g : guard) (t : PODLocalDispatchKeySet) : PODLocalDispatchKeySet :=
  match g with
  | IncludeDispatchKeyGuard saved => set_included saved t
  | ExcludeDispatchKeyGuard saved => set_excluded saved t
  | ForceDispatchKeyGuard saved => _force_tls_local_dispatch_key_set saved t
  end.

(** The functions without guards. *)
Definition tls_is_dispatch_key_excluded (x : DispatchKey) (t : PODLocalDispatchKeySet) : bool :=
  has (excluded t) x.
Definition tls_set_dispatch_key_excluded (x : DispatchKey) (desired_state : bool)
    (t : PODLocalDispatchKeySet) : PODLocalDispatchKeySet :=
  let current_state := has (excluded t) x in
  if Bool.eqb desired_state current_state then t
  else if desired_state then set_excluded (add (excluded t) x) t
  else set_excluded (remove (excluded t) x) t.
Definition tls_is_dispatch_key_included (x : DispatchKey) (t : PODLocalDispatchKeySet) : bool :=
  has (included t) x.
Definition tls_set_dispatch_key_included (x : DispatchKey) (desired_state : bool)
    (t : PODLocalDispatchKeySet) : PODLocalDispatchKeySet :=
  let current_state := has (included t) x in
  if Bool.eqb desired_state current_state then t
  else if desired_state then set_included (add (included t) x) t
  else set_included (remove (included t) x) t.
Definition tls_is_dispatch_keyset_excluded (ks : DispatchKeySet) (t : PODLocalDispatchKeySet) : bool :=
  isSupersetOf (excluded t) ks.
Definition tls_is_dispatch_keyset_included (ks : DispatchKeySet) (t : PODLocalDispatchKeySet) : bool :=
  isSupersetOf (included t) ks.

(** [impl::computeDispatchKeySet]. *)
Definition computeDispatchKeySet (t : PODLocalDispatchKeySet) (ks key_mask : DispatchKeySet)
    : DispatchKeySet :=
  let local := tls_local_dispatch_key_set t in
  ks_and (ks_minus (ks_or ks (local_included local)) (local_excluded local)) key_mask.

(** ** Arguments, by what the dispatcher sees of them: the key sets of their
    tensors. *)
Inductive unboxed_arg : Type :=
  | ATensor (key_set : DispatchKeySet)
  | AOptionalTensor (x : option DispatchKeySet)
  | ATensorList (xs : list DispatchKeySet)
  | AOptionalTensorList (xs : list (option DispatchKeySet))
  | AITensorListRef (xs : list DispatchKeySet)
  | AOptionalTensorArrayRef
  | AGenerator (gen : option DispatchKeySet)
  | AOptionalGenerator (gen : option (option DispatchKeySet))
  | AOther.

Definition union_all (ts : DispatchKeySet) (xs : list DispatchKeySet) : DispatchKeySet :=
  foldl ks_or ts xs.
Definition union_option (ts : DispatchKeySet) (x : option DispatchKeySet) : DispatchKeySet :=
  match x with Some ks => ks_or ts ks | None => ts end.

(** The overloads of [MultiDispatchKeySet::operator()]; a generator may be
    undefined. *)
Definition multi_dispatch_arg (ts : DispatchKeySet) (a : unboxed_arg) : result DispatchKeySet :=
  match a with
  | ATensor ks => Ok (ks_or ts ks)
  | AOptionalTensor x => Ok (union_option ts x)
  | ATensorList xs | AITensorListRef xs => Ok (union_all ts xs)
  | AOptionalTensorList xs => Ok (foldl union_option ts xs)
  | AOptionalTensorArrayRef => Throw (InternalAssert "")
  | AGenerator gen => Ok (union_option ts gen)
  | AOptionalGenerator gen => Ok (union_option ts (mjoin gen))
  | AOther => Ok ts
  end.

Fixpoint multi_dispatch (ts : DispatchKeySet) (args : list unboxed_arg) : result DispatchKeySet :=
  match args with
  | [] => Ok ts
  | a :: rest => ts' ← multi_dispatch_arg ts a; multi_dispatch ts' rest
  end.
Definition multi_dispatch_key_set (args : list unboxed_arg) : result DispatchKeySet :=
  multi_dispatch 0 args.

(** A value of the interpreter's stack. *)
Inductive IValue : Type :=
  | VTensor (key_set : DispatchKeySet)
  | VTensorList (xs : list DispatchKeySet)
  | VList (xs : list IValue)
  | VOther.

Definition union_tensor (ks : DispatchKeySet) (elt : IValue) : DispatchKeySet :=
  match elt with VTensor k => ks_or ks k | _ => ks end.

Definition union_ivalue (ks : DispatchKeySet) (v : IValue) : DispatchKeySet :=
  match v with
  | VTensor k => ks_or ks k
  | VTensorList xs => union_all ks xs
  | VList xs => foldl union_tensor ks xs
  | VOther => ks
  end.

(** [peek (stack, i, N)]: element [i] of the last [N] elements. *)
Definition peek (stack : list IValue) (i N : Z) : result IValue :=
  let at_ := Z.of_nat (length stack) - N + i in
  if at_ <? 0 then Throw (UndefinedBehaviour "")
  else match stack !! Z.to_nat at_ with
       | Some v => Ok v
       | None => Throw (UndefinedBehaviour "")
       end.

Section Extractor.
Context `{OperatorTypes}.

(** ** The extractor. *)
Record DispatchKeyExtractor : Type := mkExtractor {
  dispatch_arg_indices_reverse_ : bitset;
  nonFallthroughKeys_ : DispatchKeySet;
  nonFallthroughKeysPerBackend_ : list DispatchKeySet;
  requiresBitsetPerBackend_ : bool }.

(** The constructor from a bit set of argument positions. *)
Definition new_extractor (b : bitset) : DispatchKeyExtractor :=
  mkExtractor b ks_FULL (replicate (Z.to_nat num_backends) ks_FULL) false.

Fixpoint dispatch_args_loop (size index : nat) (args : list Argument) (b : bitset) : bitset :=
  match args with
  | [] => b
  | a :: rest =>
      let b := if isDispatchType (type_ a) then set_bit (Z.of_nat size - 1 - Z.of_nat index) b else b in
      dispatch_args_loop size (S index) rest b
  end.

Definition makeBitsetForDispatchArgs (schema : FunctionSchema) : result bitset :=
  let size := length (arguments_ schema) in
  _ ← TORCH_CHECK (bool_decide (size <= NUM_BITS)%nat) "The function schema has ";
  Ok (dispatch_args_loop size 0 (arguments_ schema) 0).

Definition make (schema : FunctionSchema) : result DispatchKeyExtractor :=
  b ← makeBitsetForDispatchArgs schema; Ok (new_extractor b).
Definition makeUninitialized : DispatchKeyExtractor := new_extractor 0.

Definition set_dispatch_args (b : bitset) (x : DispatchKeyExtractor) : DispatchKeyExtractor :=
  mkExtractor b (nonFallthroughKeys_ x) (nonFallthroughKeysPerBackend_ x) (requiresBitsetPerBackend_ x).

Definition extractor_registerSchema (schema : FunctionSchema) (x : DispatchKeyExtractor)
    : result DispatchKeyExtractor :=
  _ ← TORCH_INTERNAL_ASSERT (is_entirely_unset (dispatch_arg_indices_reverse_ x)) "";
  b ← makeBitsetForDispatchArgs schema;
  Ok (set_dispatch_args b x).
Definition extractor_deregisterSchema (x : DispatchKeyExtractor) : DispatchKeyExtractor :=
  set_dispatch_args 0 x.

(** Some neighbours of the array differ. *)
Fixpoint neighbours_differ (sets : list DispatchKeySet) : bool :=
  match sets with
  | a :: ((b :: _) as rest) => if negb (a =? b) then true else neighbours_differ rest
  | _ => false
  end.

Definition update_key (has_fallthrough : bool) (k : DispatchKey) (s : DispatchKeySet) : DispatchKeySet :=
  if has_fallthrough then remove s k else add s k.

Definition setOperatorHasFallthroughForKey (k : DispatchKey) (has_fallthrough : bool)
    (x : DispatchKeyExtractor) : result DispatchKeyExtractor :=
  let keys := update_key has_fallthrough k (nonFallthroughKeys_ x) in
  let sets := nonFallthroughKeysPerBackend_ x in
  if isPerBackendFunctionalityKey (toFunctionalityKey k) then
    let backend_idx := to_u8 (bc_val (toBackendComponent k)) - 1 in
    _ ← TORCH_INTERNAL_ASSERT
          ((backend_idx >=? 0) && (to_u8 backend_idx <? Z.of_nat (length sets))) "";
    let sets := alter (update_key has_fallthrough k) (Z.to_nat backend_idx) sets in
    Ok (mkExtractor (dispatch_arg_indices_reverse_ x) keys sets (neighbours_differ sets))
  else
    let sets := map (update_key has_fallthrough k) sets in
    Ok (mkExtractor (dispatch_arg_indices_reverse_ x) keys sets (requiresBitsetPerBackend_ x)).

(** The end of both functions: the keys that are fallthrough are skipped. *)
Definition skip_fallthrough (x : DispatchKeyExtractor) (t : PODLocalDispatchKeySet)
    (ks : DispatchKeySet) : result DispatchKeySet :=
  if requiresBitsetPerBackend_ x then
    let tls := tls_local_dispatch_key_set t in
    let backend_idx :=
      getBackendIndex (ks_minus (ks_or ks (local_included tls)) (local_excluded tls)) in
    match nonFallthroughKeysPerBackend_ x !! Z.to_nat backend_idx with
    | Some key_mask => Ok (computeDispatchKeySet t ks key_mask)
    | None => Throw (UndefinedBehaviour "")
    end
  else Ok (computeDispatchKeySet t ks (nonFallthroughKeys_ x)).

Fixpoint union_stack (stack : list IValue) (indices : list Z) (ks : DispatchKeySet)
    : result DispatchKeySet :=
  match indices with
  | [] => Ok ks
  | reverse_arg_index :: rest =>
      ivalue ← peek stack 0 (reverse_arg_index + 1);
      union_stack stack rest (union_ivalue ks ivalue)
  end.

Definition getDispatchKeySetBoxed (x : DispatchKeyExtractor) (t : PODLocalDispatchKeySet)
    (stack : list IValue) : result DispatchKeySet :=
  ks ← union_stack stack (for_each_set_bit (dispatch_arg_indices_reverse_ x)) 0;
  skip_fallthrough x t ks.

Definition getDispatchKeySetUnboxed (x : DispatchKeyExtractor) (t : PODLocalDispatchKeySet)
    (args : list unboxed_arg) : result DispatchKeySet :=
  ks ← multi_dispatch_key_set args;
  skip_fallthrough x t ks.

(** [checkInvariants]. *)
Definition extractor_checkInvariants (schema : FunctionSchema) (x : DispatchKeyExtractor) : result unit :=
  b ← makeBitsetForDispatchArgs schema;
  TORCH_INTERNAL_ASSERT (b =? dispatch_arg_indices_reverse_ x) "".
End Extractor.
