(* ===== verification/FallthroughKeys.v ===== *)
(** * Skipping the keys an operator falls through.

    Invariant of the extractor of DispatchKeyExtractor.v: what recording a
    flag does to its two representations, and what skipping does to the keys
    of a call. *)

From S2P Require Import Prelude SafeNum BitMath DispatchKey DispatchKeySet OperatorSchema DispatchKeyExtractor.

(** ** Sets that keep every backend: what the extractor stores. *)
Definition keeps_backends (s : DispatchKeySet) : Prop :=
  0 <= s < 2 ^ 63 ∧ ∀ i, 0 <= i < 16 → Z.testbit s i = true.

Lemma keeps_backends_FULL : keeps_backends ks_FULL.
Proof.
  split; [by vm_compute|]. intros i Hi. change ks_FULL with (Z.ones 63).
  rewrite Z.testbit_ones_nonneg by lia. apply Z.ltb_lt. lia.
Qed.

Lemma bits_below n s : 0 <= n → 0 <= s → (∀ i, n <= i → Z.testbit s i = false) → s < 2 ^ n.
Proof.
  intros Hn Hs Hb. destruct (Z.eq_dec s 0) as [->|]; [lia|].
  apply Z.log2_lt_pow2; [lia|]. destruct (Z.lt_ge_cases (Z.log2 s) n); [done|].
  pose proof (Z.bit_log2 s ltac:(lia)) as Hl. by rewrite Hb in Hl by lia.
Qed.

Lemma bits_above n s i : 0 <= s < 2 ^ n → 0 <= n <= i → Z.testbit s i = false.
Proof.
  intros Hs Hi. destruct (Z.eq_dec s 0) as [->|]; [apply Z.bits_0|].
  apply Z.bits_above_log2; [lia|]. apply Z.lt_le_trans with n; [|lia]. apply Z.log2_lt_pow2; lia.
Qed.

Lemma above_63 s i : 0 <= s < 2 ^ 63 → 63 <= i → Z.testbit s i = false.
Proof. intros Hs Hi. apply (bits_above 63); [done|lia]. Qed.

Lemma update_key_bits v k s i : isRuntimeKey k = true → k ≠ Undefined → keeps_backends s → 0 <= i →
  Z.testbit (update_key v k s) i = if i =? fbit k then negb v else Z.testbit s i.
Proof.
  intros Hk Hu [Hs Hb] Hi. destruct (ks_key_bits k Hk Hu) as (_ & Hf & Hbb).
  unfold update_key. destruct v; simpl.
  - destruct (Z.lt_ge_cases i 64).
    + rewrite remove_bits by done. destruct (i =? fbit k); [apply andb_false_r|apply andb_true_r].
    + rewrite (above_63 s) by lia. assert ((i =? fbit k) = false) as -> by (apply Z.eqb_neq; lia).
      unfold remove. rewrite Z.land_spec, (above_63 s) by lia. done.
  - unfold add, ks_or. rewrite Z.lor_spec, ks_key_testbit by done.
    destruct (i =? fbit k) eqn:E; [apply orb_true_r|]. simpl.
    destruct (per_backend k); simpl; [|apply orb_false_r]. specialize (Hbb eq_refl).
    destruct (Z.eqb_spec i (bbit k)); [|apply orb_false_r]. rewrite Hb by lia. done.
Qed.

Lemma update_key_keeps v k s : isRuntimeKey k = true → k ≠ Undefined → keeps_backends s →
  keeps_backends (update_key v k s).
Proof.
  intros Hk Hu Hs. destruct (ks_key_bits k Hk Hu) as (_ & Hf & _).
  assert (0 <= update_key v k s) as H0.
  { destruct Hs as [Hs _]. unfold update_key, add, remove, ks_or. destruct v.
    - apply Z.land_nonneg. lia.
    - apply Z.lor_nonneg. split; [lia|]. apply ks_key_u64. }
  split; [split; [done|]|].
  - apply bits_below; [done..|]. intros i Hi. rewrite update_key_bits by (done || lia).
    assert ((i =? fbit k) = false) as -> by (apply Z.eqb_neq; lia). destruct Hs as [Hs _].
    by apply above_63.
  - intros i Hi. rewrite update_key_bits by (done || lia).
    assert ((i =? fbit k) = false) as -> by (apply Z.eqb_neq; lia). by apply Hs.
Qed.

Lemma update_key_Undefined v s : keeps_backends s → update_key v Undefined s = s.
Proof.
  intros [Hs _]. unfold update_key, remove, add, ks_or. change (ks_key Undefined) with 0.
  destruct v; [|apply Z.lor_0_r]. rewrite Z.land_0_l. change (not64 0) with (Z.ones 64).
  rewrite Z.land_ones by lia. apply Z.mod_small. lia.
Qed.

(** The functionalities that are not per-backend. *)
Definition shared_bit (i : Z) : Prop := 
  16 <= i <= 62 ∧ isPerBackendFunctionalityKey (to_dk (i - 15)) = false.

Section ExtractorInvariant.
Context `{OperatorTypes}.

(** Bit [i] of the set of backend [j]. *)
Definition backend_bit (x : DispatchKeyExtractor) (j : nat) (i : Z) : bool :=
  match nonFallthroughKeysPerBackend_ x !! j with Some s => Z.testbit s i | None => false end.

(** All backends agree on the functionalities that are not per-backend, the set
    for all backends agrees on each functionality with that of some backend,
    and the flag tells whether two backends differ. *)
Record extractor_ok (x : DispatchKeyExtractor) : Prop := {
  ok_length : length (nonFallthroughKeysPerBackend_ x) = 16%nat;
  ok_keys : keeps_backends (nonFallthroughKeys_ x);
  ok_sets : Forall keeps_backends (nonFallthroughKeysPerBackend_ x);
  ok_shared : ∀ i j, shared_bit i → (j < 16)%nat →
    backend_bit x j i = Z.testbit (nonFallthroughKeys_ x) i;
  ok_some : ∀ i, 16 <= i <= 62 → ∃ j, (j < 16)%nat ∧
    backend_bit x j i = Z.testbit (nonFallthroughKeys_ x) i;
  ok_flag : requiresBitsetPerBackend_ x = neighbours_differ (nonFallthroughKeysPerBackend_ x) }.

(** The flag recorded for a key: its operator falls through it. *)
Definition backend_slot (k : DispatchKey) : nat := if per_backend k then Z.to_nat (bbit k) else 0.
Definition falls_through (x : DispatchKeyExtractor) (k : DispatchKey) : bool :=
  negb (backend_bit x (backend_slot k) (fbit k)).

Lemma backend_slot_lt k : isRuntimeKey k = true → k ≠ Undefined → (backend_slot k < 16)%nat.
Proof.
  intros Hk Hu. destruct (ks_key_bits k Hk Hu) as (_ & _ & Hb). unfold backend_slot.
  destruct (per_backend k); [specialize (Hb eq_refl)|]; lia.
Qed.

Lemma FULL_bit i : 0 <= i < 63 → Z.testbit ks_FULL i = true.
Proof.
  intros Hi. change ks_FULL with (Z.ones 63). rewrite Z.testbit_ones_nonneg by lia. apply Z.ltb_lt. lia.
Qed.

Lemma new_extractor_bit b j i : (j < 16)%nat → 0 <= i < 63 → backend_bit (new_extractor b) j i = true.
Proof.
  intros Hj Hi. unfold backend_bit, new_extractor. cbn [nonFallthroughKeysPerBackend_].
  rewrite lookup_replicate_2 by done. by apply FULL_bit.
Qed.

Lemma new_extractor_ok b : extractor_ok (new_extractor b).
Proof.
  pose proof keeps_backends_FULL.
  split; try done.
  - cbn [new_extractor nonFallthroughKeysPerBackend_]. by apply Forall_replicate.
  - intros i j [Hi _] Hj. rewrite new_extractor_bit by lia. symmetry. apply FULL_bit. lia.
  - intros i Hi. exists 0%nat. split; [lia|]. rewrite new_extractor_bit by lia. symmetry. apply FULL_bit. lia.
Qed.

Lemma new_extractor_falls b k : isRuntimeKey k = true → k ≠ Undefined → falls_through (new_extractor b) k = false.
Proof.
  intros Hk Hu. destruct (ks_key_bits k Hk Hu) as (_ & Hf & _). unfold falls_through.
  by rewrite new_extractor_bit by (solve [by apply backend_slot_lt | lia]).
Qed.

(** Neighbours are equal exactly when all sets are. *)
Lemma neighbours_equal l : neighbours_differ l = false ↔ ∀ a b, a ∈ l → b ∈ l → a = b.
Proof.
  assert (∀ a l, neighbours_differ (a :: l) = false ↔ ∀ b, b ∈ l → b = a) as Hc.
  { clear l. intros a l. revert a. induction l as [|b l IH]; intros a.
    - simpl. split; [|done]. intros _ b Hb. by apply elem_of_nil in Hb.
    - change (neighbours_differ (a :: b :: l)) with
        (if negb (a =? b) then true else neighbours_differ (b :: l)).
      destruct (Z.eqb_spec a b) as [->|Hne]; cbn [negb].
      + rewrite IH. split; intros Hl c.
        * rewrite elem_of_cons. intros [->|Hc]; auto.
        * intros Hc. apply Hl. by right.
      + split; [done|]. intros Hl. destruct Hne. symmetry. apply Hl. by left. }
  destruct l as [|a l].
  - split; [|done]. intros _ a b Ha. by apply elem_of_nil in Ha.
  - rewrite Hc. split.
    + intros Hl b c. rewrite !elem_of_cons. intros [->|Hb] [->|Hd]; try rewrite (Hl _ Hb); try rewrite (Hl _ Hd); done.
    + intros Hl b Hb. apply Hl; [by right|by left].
Qed.

Lemma neighbours_differ_map f l : (∀ a b, a ∈ l → b ∈ l → f a = f b → a = b) →
  neighbours_differ (map f l) = neighbours_differ l.
Proof.
  intros Hf. apply eq_true_iff_eq. rewrite <- !not_false_iff_true, !neighbours_equal.
  assert ((∀ a b, a ∈ map f l → b ∈ map f l → a = b) ↔ (∀ a b, a ∈ l → b ∈ l → a = b)) as ->; [|done].
  split.
  - intros Hm a b Ha Hb. apply Hf; [done..|]. apply Hm; by apply list_elem_of_fmap_2.
  - intros Hm a b (a' & -> & Ha)%list_elem_of_fmap (b' & -> & Hb)%list_elem_of_fmap.
    f_equal. by apply Hm.
Qed.


Lemma runtime_key_inj k k' : isRuntimeKey k = true → isRuntimeKey k' = true → k ≠ Undefined → k' ≠ Undefined →
  fbit k = fbit k' → (per_backend k = true → bbit k = bbit k') → k = k'.
Proof.
  intros Hk Hk' Hu Hu' Hf Hb.
  destruct (functionality_cases k) as (_ & _ & Hn & Hp), (functionality_cases k') as (_ & _ & Hn' & Hp').
  assert (toFunctionalityKey k = toFunctionalityKey k') as E.
  { unfold fbit in Hf. rewrite <- (to_dk_val (toFunctionalityKey k)), <- (to_dk_val (toFunctionalityKey k')).
    f_equal. lia. }
  assert (per_backend k = per_backend k') as Epb by (unfold per_backend; by rewrite E).
  symmetry in Epb. destruct (per_backend k) eqn:Ek.
  - specialize (Hb eq_refl). assert (toBackendComponent k = toBackendComponent k') as Eb.
    { unfold bbit in Hb. rewrite <- (to_bc_val (toBackendComponent k)), <- (to_bc_val (toBackendComponent k')).
      f_equal. lia. }
    destruct (runtime_key_split k Hk (Hp Hk eq_refl)) as (_ & _ & <-).
    destruct (runtime_key_split k' Hk' (Hp' Hk' Epb)) as (_ & _ & <-). by rewrite E, Eb.
  - destruct (Hn Hk eq_refl) as [<- _], (Hn' Hk' Epb) as [<- _]. done.
Qed.

Lemma backend_index_ok k : isRuntimeKey k = true → per_backend k = true →
  to_u8 (bc_val (toBackendComponent k)) - 1 = bbit k ∧ to_u8 (bbit k) = bbit k ∧ 0 <= bbit k <= 15.
Proof.
  intros Hk Hp. destruct (functionality_cases k) as (_ & _ & _ & Hl).
  destruct (runtime_key_split k Hk (Hl Hk Hp)) as (_ & Hi & _). unfold bbit.
  destruct (toBackendComponent k); try done; vm_compute; repeat split; discriminate.
Qed.


(** What recording a flag does to the bits: those of the functionality of the
    key, for its backend or, when it is not per-backend, for all of them. *)
Definition touches (k : DispatchKey) (j : nat) (i : Z) : bool :=
  (i =? fbit k) && (negb (per_backend k) || bool_decide (j = backend_slot k)).

Lemma fbit_functionality k : to_dk (fbit k - 15) = toFunctionalityKey k.
Proof. unfold fbit. replace (15 + _ - 15) with (dk_val (toFunctionalityKey k)) by lia. apply to_dk_val. Qed.

Lemma touched_ok x x' k v : extractor_ok x → isRuntimeKey k = true → k ≠ Undefined →
  length (nonFallthroughKeysPerBackend_ x') = 16%nat →
  Forall keeps_backends (nonFallthroughKeysPerBackend_ x') →
  nonFallthroughKeys_ x' = update_key v k (nonFallthroughKeys_ x) →
  requiresBitsetPerBackend_ x' = neighbours_differ (nonFallthroughKeysPerBackend_ x') →
  (∀ j i, (j < 16)%nat → 0 <= i →
     backend_bit x' j i = if touches k j i then negb v else backend_bit x j i) →
  extractor_ok x' ∧ ∀ k', isRuntimeKey k' = true → k' ≠ Undefined →
    falls_through x' k' = if decide (k' = k) then v else falls_through x k'.
Proof.
  intros Hx Hk Hu Hlen Hkeep Hkeys Hflag Hbits. destruct (ks_key_bits k Hk Hu) as (_ & Hf & _).
  pose proof (backend_slot_lt k Hk Hu) as Hslot. split; [split; try done|].
  - rewrite Hkeys. apply update_key_keeps; [done..|apply Hx].
  - intros i j Hi Hj. rewrite Hbits, Hkeys, update_key_bits by (done || apply Hx || (destruct Hi; lia)).
    unfold touches. destruct (Z.eqb_spec i (fbit k)) as [->|]; [|by apply Hx].
    destruct Hi as [_ Hi]. rewrite fbit_functionality in Hi. unfold per_backend. by rewrite Hi.
  - intros i Hi. rewrite Hkeys, update_key_bits by (done || apply Hx || lia).
    destruct (Z.eqb_spec i (fbit k)) as [->|Hne].
    + exists (backend_slot k). split; [done|]. rewrite Hbits by (done || lia). unfold touches.
      by rewrite Z.eqb_refl, bool_decide_eq_true_2, orb_true_r by done.
    + destruct (ok_some x Hx i Hi) as (j & Hj & E). exists j. split; [done|].
      rewrite Hbits by (done || lia). unfold touches. by rewrite (proj2 (Z.eqb_neq _ _)) by done.
  - intros k' Hk' Hu'. destruct (ks_key_bits k' Hk' Hu') as (_ & Hf' & Hb').
    unfold falls_through. rewrite Hbits by (solve [by apply backend_slot_lt | lia]).
    assert (touches k (backend_slot k') (fbit k') = bool_decide (k' = k)) as ->.
    { unfold touches. apply eq_true_iff_eq.
      rewrite andb_true_iff, orb_true_iff, negb_true_iff, Z.eqb_eq, !bool_decide_eq_true.
      split; [|intros ->; auto]. intros [E Hpb]. apply runtime_key_inj; [done..|]. intros Hp'.
      destruct (ks_key_bits k Hk Hu) as (_ & _ & Hb).
      assert (per_backend k = true) as Hp.
      { unfold per_backend in *. by rewrite <- fbit_functionality, <- E, fbit_functionality. }
      destruct Hpb as [Hpb|Hpb]; [congruence|]. unfold backend_slot in Hpb. rewrite Hp, Hp' in Hpb.
      specialize (Hb Hp). specialize (Hb' Hp'). lia. }
    destruct (decide (k' = k)); [rewrite bool_decide_eq_true_2 by done; apply negb_involutive|].
    by rewrite bool_decide_eq_false_2.
Qed.

Lemma lookup_keeps x j s : extractor_ok x → nonFallthroughKeysPerBackend_ x !! j = Some s → keeps_backends s.
Proof. intros Hx Hs. exact (proj1 (Forall_lookup _ _) (ok_sets x Hx) j s Hs). Qed.

(** Recording a flag changes the flag of that key and of no other. *)
Lemma set_fallthrough_spec x k v : extractor_ok x → isRuntimeKey k = true → k ≠ Undefined →
  ∃ x', setOperatorHasFallthroughForKey k v x = Ok x' ∧
    dispatch_arg_indices_reverse_ x' = dispatch_arg_indices_reverse_ x ∧
    extractor_ok x' ∧ ∀ k', isRuntimeKey k' = true → k' ≠ Undefined →
      falls_through x' k' = if decide (k' = k) then v else falls_through x k'.
Proof.
  intros Hx Hk Hu. pose proof (ok_length x Hx) as Hlen. destruct (ks_key_bits k Hk Hu) as (_ & Hf & _).
  unfold setOperatorHasFallthroughForKey. fold (per_backend k). destruct (per_backend k) eqn:Hp.
  - destruct (backend_index_ok k Hk Hp) as (E1 & E2 & Hb). rewrite E1, E2, Hlen.
    change (Z.of_nat 16) with 16.
    assert ((bbit k >=? 0) && (bbit k <? 16) = true) as -> by (apply andb_true_iff; split; lia).
    eexists. split; [done|]. split; [done|]. apply (touched_ok x _ k v); cbn; try done.
    + by rewrite length_alter.
    + apply Forall_alter; [apply Hx|]. intros. apply update_key_keeps; [done..|]. by eapply lookup_keeps.
    + intros j i Hj Hi. unfold backend_bit, touches, backend_slot. cbn. rewrite Hp. cbn.
      destruct (decide (j = Z.to_nat (bbit k))) as [->|Hne].
      * rewrite list_lookup_alter_eq. destruct (lookup_lt_is_Some_2 (nonFallthroughKeysPerBackend_ x) (Z.to_nat (bbit k))) as [s Hs]; [lia|].
        rewrite bool_decide_eq_true_2, andb_true_r by done. unfold DispatchKeySet in *. rewrite Hs. cbn.
        apply update_key_bits; [done..| |done]. by eapply lookup_keeps.
      * rewrite list_lookup_alter_ne by done. by rewrite bool_decide_eq_false_2, andb_false_r by done.
  - eexists. split; [done|]. split; [done|]. apply (touched_ok x _ k v); cbn; try done.
    + by rewrite length_map.
    + apply Forall_fmap. eapply Forall_impl; [apply Hx|]. intros. by apply update_key_keeps.
    + rewrite (ok_flag x Hx). symmetry. apply neighbours_differ_map. intros a b Ha Hb E.
      apply Z.bits_inj'. intros i Hi.
      apply list_elem_of_lookup in Ha as [ja Ha], Hb as [jb Hb].
      pose proof (lookup_keeps _ _ _ Hx Ha) as Hka. pose proof (lookup_keeps _ _ _ Hx Hb) as Hkb.
      destruct (Z.eqb_spec i (fbit k)) as [->|Hne].
      * assert (shared_bit (fbit k)) as Hs by (split; [done|]; by rewrite fbit_functionality).
        pose proof (ok_shared x Hx _ ja Hs) as Ea. pose proof (ok_shared x Hx _ jb Hs) as Eb.
        unfold backend_bit, DispatchKeySet in *. rewrite Ha in Ea. rewrite Hb in Eb.
        apply lookup_lt_Some in Ha, Hb. rewrite Ea, Eb by lia. done.
      * assert (Z.testbit (update_key v k a) i = Z.testbit (update_key v k b) i) as Ei by by rewrite E.
        rewrite !update_key_bits in Ei by done. by rewrite (proj2 (Z.eqb_neq _ _)) in Ei.
    + intros j i Hj Hi. unfold backend_bit, touches. cbn. rewrite Hp. cbn. rewrite andb_true_r.
      rewrite list_lookup_fmap. destruct (lookup_lt_is_Some_2 (nonFallthroughKeysPerBackend_ x) j) as [s Hs]; [lia|].
      unfold DispatchKeySet in *. rewrite Hs. cbn. apply update_key_bits; [done..| |done]. by eapply lookup_keeps.
Qed.
End ExtractorInvariant.

Section Skipping.
Context `{OperatorTypes}.

(** When no two backends differ, the set for all backends is that of each. *)
Lemma fast_path_bit x j i : extractor_ok x → requiresBitsetPerBackend_ x = false →
  (j < 16)%nat → 0 <= i → Z.testbit (nonFallthroughKeys_ x) i = backend_bit x j i.
Proof.
  intros Hx Hr Hj Hi. rewrite (ok_flag x Hx), neighbours_equal in Hr.
  assert (∀ j', (j' < 16)%nat → backend_bit x j' i = backend_bit x j i) as Heq.
  { intros j' Hj'. unfold backend_bit. rewrite <- (ok_length x Hx) in Hj, Hj'.
    destruct (lookup_lt_is_Some_2 _ _ Hj) as [s Hs], (lookup_lt_is_Some_2 _ _ Hj') as [s' Hs'].
    unfold DispatchKeySet in *. rewrite Hs, Hs'. f_equal. apply Hr; by eapply list_elem_of_lookup_2. }
  destruct (Z.lt_ge_cases i 16).
  - rewrite (proj2 (ok_keys x Hx)) by lia. unfold backend_bit.
    rewrite <- (ok_length x Hx) in Hj. destruct (lookup_lt_is_Some_2 _ _ Hj) as [s Hs]. unfold DispatchKeySet in *. rewrite Hs.
    symmetry. by apply (lookup_keeps x j s Hx Hs).
  - destruct (Z.le_gt_cases i 62).
    + destruct (ok_some x Hx i ltac:(lia)) as (j' & Hj' & <-). by apply Heq.
    + rewrite (above_63 (nonFallthroughKeys_ x)) by (apply Hx || lia). unfold backend_bit.
      rewrite <- (ok_length x Hx) in Hj. destruct (lookup_lt_is_Some_2 _ _ Hj) as [s Hs]. unfold DispatchKeySet in *. rewrite Hs.
      symmetry. apply above_63; [|lia]. by apply (lookup_keeps x j s).
Qed.

Lemma getBackendIndex_bounds s : 0 <= getBackendIndex s <= 15.
Proof.
  unfold getBackendIndex. rewrite indexOfHighestBit_eq. split; [apply bitlen_nonneg|].
  apply bitlen_lt; [lia|]. pose proof (full_mask_bounds s).
  rewrite Z.shiftr_div_pow2 by lia. change (2 ^ 1) with 2.
  split; [apply Z.div_pos; lia|]. apply Z.div_lt_upper_bound; lia.
Qed.

(** The keys of a call before fallthrough keys are skipped. *)
Definition call_keys (t : PODLocalDispatchKeySet) (ks : DispatchKeySet) : DispatchKeySet :=
  ks_minus (ks_or ks (included t)) (excluded t).

Lemma land_keeps s m : keeps_backends m → 0 <= Z.land s m < 2 ^ 63.
Proof.
  intros [Hm _]. assert (0 <= Z.land s m) by (apply Z.land_nonneg; lia). split; [done|].
  apply bits_below; [lia|done|]. intros i Hi. rewrite Z.land_spec, (above_63 m) by lia. apply andb_false_r.
Qed.

Lemma skip_fallthrough_bits x t ks : extractor_ok x →
  ∃ r, skip_fallthrough x t ks = Ok r ∧ 0 <= r < 2 ^ 63 ∧ ∀ i, 0 <= i →
    Z.testbit r i = Z.testbit (call_keys t ks) i &&
                    backend_bit x (Z.to_nat (getBackendIndex (call_keys t ks))) i.
Proof.
  intros Hx. pose proof (getBackendIndex_bounds (call_keys t ks)) as Hj.
  unfold skip_fallthrough, computeDispatchKeySet, tls_local_dispatch_key_set. cbn.
  fold (call_keys t ks). set (j := Z.to_nat _). assert (j < 16)%nat as Hj' by lia.
  destruct (requiresBitsetPerBackend_ x) eqn:Hr.
  - pose proof Hj' as Hl. rewrite <- (ok_length x Hx) in Hl.
    destruct (lookup_lt_is_Some_2 _ _ Hl) as [s Hs]. unfold backend_bit, DispatchKeySet in *. rewrite Hs.
    eexists. split; [done|]. split; [by apply land_keeps; eapply lookup_keeps|]. intros i Hi. unfold ks_and. by rewrite Z.land_spec.
  - eexists. split; [done|]. split; [by apply land_keeps, Hx|]. intros i Hi.
    unfold ks_and. rewrite Z.land_spec. f_equal. by apply fast_path_bit.
Qed.

Lemma backend_bit_low x j i : extractor_ok x → (j < 16)%nat → 0 <= i < 16 → backend_bit x j i = true.
Proof.
  intros Hx Hj Hi. unfold backend_bit. rewrite <- (ok_length x Hx) in Hj.
  destruct (lookup_lt_is_Some_2 _ _ Hj) as [s Hs]. unfold DispatchKeySet in *. rewrite Hs. by apply (lookup_keeps x j s).
Qed.

(** Skipping, by key: a key of the backend of the call is kept when its
    operator does not fall through it, and no backend is lost. *)
Lemma skip_fallthrough_keys x t ks : extractor_ok x →
  ∃ r, skip_fallthrough x t ks = Ok r ∧
    (∀ k, isRuntimeKey k = true → k ≠ Undefined →
       (per_backend k = true → bbit k = getBackendIndex (call_keys t ks)) →
       has r k = has (call_keys t ks) k && negb (falls_through x k)) ∧
    (∀ i, 0 <= i < 16 → Z.testbit r i = Z.testbit (call_keys t ks) i).
Proof.
  intros Hx. destruct (skip_fallthrough_bits x t ks Hx) as (r & E & _ & Hr). exists r. split; [done|].
  pose proof (getBackendIndex_bounds (call_keys t ks)) as Hj.
  assert (∀ i, 0 <= i < 16 → Z.testbit r i = Z.testbit (call_keys t ks) i) as Hlow.
  { intros i Hi. rewrite Hr, backend_bit_low by (done || lia). apply andb_true_r. }
  split; [|done]. intros k Hk Hu Hb. destruct (ks_key_bits k Hk Hu) as (_ & Hf & Hbb).
  rewrite !has_runtime by done. rewrite Hr by lia. unfold falls_through. rewrite negb_involutive.
  assert (backend_bit x (backend_slot k) (fbit k) =
          backend_bit x (Z.to_nat (getBackendIndex (call_keys t ks))) (fbit k)) as ->.
  { unfold backend_slot. destruct (per_backend k) eqn:Hp; [by rewrite Hb|].
    assert (shared_bit (fbit k)) as Hs by (split; [done|]; by rewrite fbit_functionality).
    rewrite !(ok_shared x Hx) by (done || lia). done. }
  destruct (per_backend k) eqn:Hp; cbn.
  - specialize (Hbb eq_refl). rewrite Hlow by lia. rewrite <- !andb_assoc. f_equal. apply andb_comm.
  - by rewrite !andb_true_r.
Qed.

(** ** Histories of flags. *)
Fixpoint set_flags (hist : list (DispatchKey * bool)) (x : DispatchKeyExtractor)
    : result DispatchKeyExtractor :=
  match hist with
  | [] => Ok x
  | (k, v) :: rest => x' ← setOperatorHasFallthroughForKey k v x; set_flags rest x'
  end.

(** The last flag a history gives a key. *)
Definition last_flag (hist : list (DispatchKey * bool)) (k : DispatchKey) (v : bool) : bool :=
  foldl (λ v p, if decide (p.1 = k) then p.2 else v) v hist.

Lemma set_flags_spec hist : ∀ x, extractor_ok x →
  Forall (λ p, isRuntimeKey p.1 = true ∧ p.1 ≠ Undefined) hist →
  ∃ x', set_flags hist x = Ok x' ∧ extractor_ok x' ∧
    ∀ k, isRuntimeKey k = true → k ≠ Undefined →
      falls_through x' k = last_flag hist k (falls_through x k).
Proof.
  induction hist as [|[k v] hist IH]; intros x Hx Hh; [by exists x|].
  apply Forall_cons in Hh as [[Hk Hu] Hh].
  destruct (set_fallthrough_spec x k v Hx Hk Hu) as (x1 & E1 & _ & Hx1 & Hf1).
  destruct (IH x1 Hx1 Hh) as (x2 & E2 & Hx2 & Hf2). exists x2. cbn. rewrite E1. cbn.
  split; [done|]. split; [done|]. intros k' Hk' Hu'. rewrite Hf2, Hf1 by done. unfold last_flag. cbn.
  f_equal. destruct (decide (k' = k)) as [->|]; [by rewrite decide_True|by rewrite decide_False].
Qed.
End Skipping.

(**  Keys an operator falls through are skipped: after any sequence of
    flags recorded for runtime keys, the keys of a call are those of its
    arguments with the keys the thread includes and without those it excludes,
    less the keys of the backend of the call whose last flag was set, and no
    backend is lost, whichever of its two representations the extractor uses. *)
Theorem fallthrough_keys_skipped `{OperatorTypes} b hist t ks :
  Forall (λ p, isRuntimeKey p.1 = true ∧ p.1 ≠ Undefined) hist →
  ∃ x r, set_flags hist (new_extractor b) = Ok x ∧ skip_fallthrough x t ks = Ok r ∧
    (∀ k, isRuntimeKey k = true → k ≠ Undefined →
       (per_backend k = true → bbit k = getBackendIndex (call_keys t ks)) →
       has r k = has (call_keys t ks) k && negb (last_flag hist k false)) ∧
    (∀ i, 0 <= i < 16 → Z.testbit r i = Z.testbit (call_keys t ks) i).
Proof.
  intros Hh. destruct (set_flags_spec hist _ (new_extractor_ok b) Hh) as (x & E & Hx & Hf).
  destruct (skip_fallthrough_keys x t ks Hx) as (r & Er & Hk & Hlow). exists x, r.
  split; [done|]. split; [done|]. split; [|done]. intros k Hr Hu Hb.
  rewrite Hk, Hf, new_extractor_falls by done. done.
Qed.

Lemma fallthrough_keys_skipped_witness :
  let _ := DemoTypes.types in
  ∃ x r, set_flags [(CPU, true); (CUDA, true); (CPU, false); (Python, true)] (new_extractor 0) = Ok x ∧
    requiresBitsetPerBackend_ x = true ∧
    skip_fallthrough x zero_tls (ks_keys [CUDA; Python; AutogradCUDA]) = Ok r ∧
    has r CUDA = false ∧ has r Python = false ∧ has r AutogradCUDA = true ∧
    has (call_keys zero_tls (ks_keys [CUDA; Python; AutogradCUDA])) CUDA = true.
Proof.
  intros T. set (hist := [(CPU, true); (CUDA, true); (CPU, false); (Python, true)]).
  destruct (@fallthrough_keys_skipped T 0 hist zero_tls (ks_keys [CUDA; Python; AutogradCUDA]))
    as (x & r & E & Er & Hk & _).
  { repeat constructor; discriminate. }
  exists x, r. split; [exact E|]. split.
  { revert E. vm_compute. intros [= <-]. reflexivity. }
  split; [exact Er|]. split; [|split; [|split]].
  - rewrite (Hk CUDA eq_refl) by (discriminate || (intros _; vm_compute; reflexivity)). vm_compute. reflexivity.
  - rewrite (Hk Python eq_refl) by (discriminate || (intros Hp; discriminate Hp)). vm_compute. reflexivity.
  - rewrite (Hk AutogradCUDA eq_refl) by (discriminate || (intros _; vm_compute; reflexivity)). vm_compute. reflexivity.
  - vm_compute. reflexivity.
Defined.
