(* ===== verification/BoxedKeys.v ===== *)
(** * Key sets of boxed and unboxed calls.

    The bit set of argument positions, the scan of the stack and the overloads
    for the arguments of DispatchKeyExtractor.v, and the guards of the
    thread's key sets. *)

From S2P Require Import Prelude SafeNum BitMath DispatchKey DispatchKeySet OperatorSchema DispatchKeyExtractor.
From S2P Require Import FallthroughKeys.

(** ** The bit set of argument positions. *)
Lemma bits_from_ext R R' c : ∀ n, (∀ j, n <= j < n + Z.of_nat c → Z.testbit R j = Z.testbit R' j) →
  bits_from R n c = bits_from R' n c.
Proof.
  induction c as [|c IH]; intros n Hb; [done|]. cbn [bits_from].
  rewrite (Hb n), (IH (n + 1)) by (intros; try apply Hb; lia). done.
Qed.

Lemma lower_bits_zero x : is_u64 x → (∀ j, 0 <= j < 64 → Z.testbit x j = false) → x = 0.
Proof.
  intros Hx Hb. apply Z.bits_inj_0. intros j. destruct (Z.lt_ge_cases j 0); [by apply Z.testbit_neg_r|].
  destruct (Z.lt_ge_cases j 64); [by apply Hb|]. unfold is_u64, u64_max in Hx.
  apply (bits_above 64); lia.
Qed.

Lemma shl_bit_u64 i : 0 <= i < 64 → is_u64 (Z.shiftl 1 i).
Proof.
  intros Hi. rewrite Z.shiftl_1_l. unfold is_u64, u64_max.
  pose proof (Z.pow_lt_mono_r 2 i 64). pose proof (Z.pow_pos_nonneg 2 i). lia.
Qed.

Lemma unset_bits i j x : 0 <= i < 64 → 0 <= j < 64 →
  Z.testbit (unset i x) j = Z.testbit x j && negb (j =? i).
Proof.
  intros Hi Hj. unfold unset. rewrite Z.land_spec, not64_bits by (by apply shl_bit_u64 || lia).
  by rewrite Z.shiftl_1_l, Z.pow2_bits_eqb, (Z.eqb_sym i) by lia.
Qed.

Lemma set_bits_spec fuel : ∀ cur n c, is_u64 cur → 0 <= n → n + Z.of_nat c = 64 → (c < fuel)%nat →
  (∀ j, 0 <= j < n → Z.testbit cur j = false) → set_bits fuel cur = bits_from cur n c.
Proof.
  induction fuel as [|fuel IH]; intros cur n c Hu Hn Hc Hf Hlow; [lia|]. cbn [set_bits].
  assert (findFirstSet cur = match bits_from cur n c with [] => u64_max | i :: _ => i end) as Hff.
  { apply findFirstSet_bits; try done; try lia. intros i Hi.
    destruct (Z.leb_spec n i); [|by rewrite Hlow by lia]. rewrite (proj2 (Z.ltb_lt _ _)) by lia. done. }
  unfold findFirstSet, find_first_set in *.
  destruct (bits_from cur n c) as [|i rest] eqn:E.
  - assert (cur = 0) as ->; [|done]. apply lower_bits_zero; [done|]. intros j Hj.
    destruct (Z.lt_ge_cases j n); [apply Hlow; lia|]. apply (bits_from_nil _ _ _ E). lia.
  - destruct (bits_from_cons _ _ _ _ _ E) as (Hi & Hb & Hmid & ->).
    destruct (Z.eqb_spec cur 0) as [->|]; [by rewrite Z.bits_0 in Hb|]. rewrite Hff.
    rewrite (proj2 (Z.eqb_neq 0 (i + 1))) by lia. replace (i + 1 - 1) with i by lia. f_equal.
    rewrite (IH (unset i cur) (i + 1) (Z.to_nat (n + Z.of_nat c - (i + 1)))).
    + apply bits_from_ext. intros j Hj. rewrite unset_bits by lia.
      rewrite (proj2 (Z.eqb_neq _ _)) by lia. apply andb_true_r.
    + unfold unset. apply land_u64, to_u64_range.
    + lia.
    + lia.
    + lia.
    + intros j Hj. rewrite unset_bits by lia. destruct (Z.eqb_spec j i) as [->|]; [apply andb_false_r|].
      rewrite andb_true_r. destruct (Z.lt_ge_cases j n); [apply Hlow; lia|]. apply Hmid. lia.
Qed.

Lemma for_each_set_bit_spec b : is_u64 b → for_each_set_bit b = bits_from b 0 64.
Proof. intros Hb. apply set_bits_spec; unfold NUM_BITS; done || lia || (intros; lia). Qed.

(** ** Unions of key sets, by their bits. *)
Definition union (l : list DispatchKeySet) : DispatchKeySet := foldl ks_or 0 l.

Lemma foldl_or_bit l : ∀ ks i, 
  Z.testbit (foldl ks_or ks l) i = Z.testbit ks i || existsb (λ k, Z.testbit k i) l.
Proof.
  induction l as [|k l IH]; intros ks i; cbn; [by rewrite orb_false_r|].
  rewrite IH. unfold ks_or. by rewrite Z.lor_spec, orb_assoc.
Qed.

(** What one argument adds. *)
Definition ivalue_keys (v : IValue) : DispatchKeySet := union_ivalue 0 v.

Lemma union_option_or ts x : union_option ts x = ks_or ts (default 0 x).
Proof. destruct x; [done|]. symmetry. apply Z.lor_0_r. Qed.

Lemma foldl_map_or {A} (f : A → DispatchKeySet) (g : DispatchKeySet → A → DispatchKeySet) l :
  (∀ ks a, g ks a = ks_or ks (f a)) → ∀ ks, foldl g ks l = foldl ks_or ks (map f l).
Proof. intros Hg. induction l as [|a l IH]; intros ks; cbn; [done|]. by rewrite Hg, IH. Qed.

Lemma union_tensor_or ks v : union_tensor ks v = ks_or ks (match v with VTensor k => k | _ => 0 end).
Proof. destruct v; try done; symmetry; apply Z.lor_0_r. Qed.

Lemma foldl_or_start l ks : foldl ks_or ks l = ks_or ks (union l).
Proof.
  apply Z.bits_inj. intros i. unfold union, ks_or. rewrite Z.lor_spec, !foldl_or_bit.
  by rewrite Z.bits_0.
Qed.

Lemma union_ivalue_or ks v : union_ivalue ks v = ks_or ks (ivalue_keys v).
Proof.
  unfold ivalue_keys. destruct v as [k|xs|xs|]; cbn; [done|apply foldl_or_start| |symmetry; apply Z.lor_0_r].
  rewrite !(foldl_map_or _ union_tensor xs union_tensor_or). apply foldl_or_start.
Qed.

(** The value an argument is pushed on the stack as. *)
Definition box (a : unboxed_arg) : IValue :=
  match a with
  | ATensor ks => VTensor ks
  | AOptionalTensor (Some ks) => VTensor ks
  | ATensorList xs | AITensorListRef xs => VTensorList xs
  | AOptionalTensorList xs => VList (map (λ x, match x with Some ks => VTensor ks | None => VOther end) xs)
  | _ => VOther
  end.

(** The argument has a key set when boxed exactly when it has one unboxed: it
    is not a generator of its own keys, nor an array of optional tensors. *)
Definition boxes_keys (a : unboxed_arg) : Prop :=
  match a with
  | AGenerator gen => default 0 gen = 0
  | AOptionalGenerator gen => default 0 (mjoin gen) = 0
  | AOptionalTensorArrayRef => False
  | _ => True
  end.

Lemma multi_dispatch_box ts a : boxes_keys a → multi_dispatch_arg ts a = Ok (ks_or ts (ivalue_keys (box a))).
Proof.
  unfold ivalue_keys.
  destruct a as [ks|[ks|]|xs|xs|xs| |[ks|]|[[ks|]|]|]; cbn; intros Hb; try done; subst;
    try (unfold ks_or; by rewrite ?Z.lor_0_r, ?Z.lor_0_l); f_equal; try apply foldl_or_start.
  rewrite (foldl_map_or _ union_option xs union_option_or), foldl_or_start. f_equal.
  rewrite (foldl_map_or _ union_tensor _ union_tensor_or), map_map. unfold union. f_equal.
  apply map_ext. by intros [].
Qed.

Lemma multi_dispatch_spec args : ∀ ts, Forall boxes_keys args →
  multi_dispatch ts args = Ok (foldl ks_or ts (map (λ a, ivalue_keys (box a)) args)).
Proof.
  induction args as [|a args IH]; intros ts Ha; [done|]. apply Forall_cons in Ha as [Hb Ha].
  cbn. rewrite multi_dispatch_box by done. cbn. by apply IH.
Qed.

Section Boxed.
Context `{OperatorTypes}.

Lemma set_bit_u64 i b : 0 <= i < 64 → is_u64 b → is_u64 (set_bit i b).
Proof.
  intros Hi Hb. unfold set_bit. rewrite Z.shiftl_1_l. unfold is_u64, u64_max in *.
  assert (0 <= Z.lor b (2 ^ i)) by (apply Z.lor_nonneg; split; [lia|apply Z.pow_nonneg; lia]).
  assert (Z.lor b (2 ^ i) < 2 ^ 64); [|lia]. apply bits_below; [lia..|]. intros j Hj.
  rewrite Z.lor_spec, (bits_above 64), Z.pow2_bits_false by lia. done.
Qed.

Lemma dispatch_args_bits size : ∀ args index b, (size <= 64)%nat → size = (index + length args)%nat → is_u64 b →
  is_u64 (dispatch_args_loop size index args b) ∧
  ∀ r, 0 <= r → Z.testbit (dispatch_args_loop size index args b) r = true ↔
    Z.testbit b r = true ∨ ∃ i a, args !! i = Some a ∧ isDispatchType (type_ a) = true ∧
      r = Z.of_nat size - 1 - Z.of_nat (index + i).
Proof.
  induction args as [|a args IH]; intros index b H64 Hs Hb; cbn [dispatch_args_loop].
  - split; [done|]. intros r Hr. split; [by left|]. intros [?|(i & a & Ha & _)]; done.
  - cbn [length] in Hs. set (b' := if isDispatchType (type_ a) then set_bit (Z.of_nat size - 1 - Z.of_nat index) b else b).
    assert (is_u64 b') as Hb'.
    { unfold b'. destruct (isDispatchType (type_ a)); [|done]. apply set_bit_u64; [lia|done]. }
    destruct (IH (S index) b' H64 ltac:(lia) Hb') as [Hu Hbits]. split; [done|]. intros r Hr.
    rewrite Hbits by done. 
    assert (Z.testbit b' r = true ↔ Z.testbit b r = true ∨
      isDispatchType (type_ a) = true ∧ r = Z.of_nat size - 1 - Z.of_nat index) as ->.
    { unfold b'. destruct (isDispatchType (type_ a)); [|split; [by left|by intros [?|[? _]]]].
      unfold set_bit. rewrite Z.shiftl_1_l, Z.lor_spec, Z.pow2_bits_eqb, orb_true_iff, Z.eqb_eq by lia.
      split; (intros [?|?]; [by left|right]); [split; [done|lia]|lia]. }
    split.
    + intros [[Hr'|[Ht ->]]|(i & a' & Ha & Ht & ->)]; [by left|right|right].
      * exists 0%nat, a. split; [done|]. split; [done|lia].
      * exists (S i), a'. split; [done|]. split; [done|lia].
    + intros [Hr'|([|i] & a' & Ha & Ht & ->)]; [by left; left|left; right|right].
      * injection Ha as ->. split; [done|lia].
      * exists i, a'. split; [done|]. split; [done|lia].
Qed.

Lemma peek_top base vs r v : 0 <= r → vs !! Z.to_nat (Z.of_nat (length vs) - 1 - r) = Some v → r < Z.of_nat (length vs) →
  peek (base ++ vs) 0 (r + 1) = Ok v.
Proof.
  intros Hr Hv Hl. unfold peek. rewrite length_app.
  rewrite (proj2 (Z.ltb_ge _ _)) by lia.
  rewrite lookup_app_r by lia. replace (Z.to_nat _ - length base)%nat
    with (Z.to_nat (Z.of_nat (length vs) - 1 - r)) by lia. by rewrite Hv.
Qed.

(** The value of the argument at a reverse index. *)
Definition at_reverse (vs : list IValue) (r : Z) : IValue :=
  default VOther (vs !! Z.to_nat (Z.of_nat (length vs) - 1 - r)).

Lemma union_stack_spec base vs rs : ∀ ks, Forall (λ r, 0 <= r < Z.of_nat (length vs)) rs →
  union_stack (base ++ vs) rs ks = Ok (foldl ks_or ks (map (λ r, ivalue_keys (at_reverse vs r)) rs)).
Proof.
  induction rs as [|r rs IH]; intros ks Hr; [done|]. apply Forall_cons in Hr as [Hr0 Hr].
  cbn [union_stack map foldl].
  destruct (lookup_lt_is_Some_2 vs (Z.to_nat (Z.of_nat (length vs) - 1 - r))) as [v Hv]; [lia|].
  rewrite (peek_top base vs r v) by (done || lia). cbn [mbind result_bind].
  rewrite IH by done. unfold at_reverse. rewrite Hv. cbn [default from_option].
  by rewrite union_ivalue_or.
Qed.

(** The keys of the arguments at the positions of a schema are those of all
    arguments, when the others have none. *)
Lemma boxed_union schema b args i : makeBitsetForDispatchArgs schema = Ok b → 0 <= i →
  Forall2 (λ a v, isDispatchType (type_ a) = false → ivalue_keys v = 0) (arguments_ schema) args →
  Forall (λ r, 0 <= r < Z.of_nat (length args)) (for_each_set_bit b) ∧
  Z.testbit (union (map (λ r, ivalue_keys (at_reverse args r)) (for_each_set_bit b))) i =
  Z.testbit (union (map ivalue_keys args)) i.
Proof.
  intros Hb Hi H2. pose proof (Forall2_length _ _ _ H2) as Hlen.
  unfold makeBitsetForDispatchArgs in Hb. apply bind_Ok in Hb as (u & Hu%TORCH_CHECK_Ok & [= <-]).
  apply bool_decide_eq_true in Hu. unfold NUM_BITS in Hu.
  destruct (dispatch_args_bits (length (arguments_ schema)) (arguments_ schema) 0 0 Hu eq_refl) as [H64 Hbits].
  { unfold is_u64, u64_max. lia. }
  set (b := dispatch_args_loop _ _ _ _) in *. rewrite for_each_set_bit_spec by done.
  assert (∀ r, In r (bits_from b 0 64) ↔ ∃ j a, arguments_ schema !! j = Some a ∧
    isDispatchType (type_ a) = true ∧ r = Z.of_nat (length args) - 1 - Z.of_nat j) as Hin.
  { intros r. rewrite In_bits_from, <- Hlen. split.
    - intros [Hr Ht]. apply Hbits in Ht as [Ht|Ht]; [by rewrite Z.bits_0 in Ht|done|lia].
    - intros (j & a & Ha & Ht & ->). pose proof (lookup_lt_Some _ _ _ Ha).
      split; [lia|]. apply Hbits; [lia|]. right. by exists j, a. }
  split.
  - apply List.Forall_forall. intros r (j & a & Ha & _ & ->)%Hin. apply lookup_lt_Some in Ha. lia.
  - unfold union. rewrite !foldl_or_bit, Z.bits_0. cbn [orb]. apply eq_true_iff_eq.
    rewrite !existsb_exists. split.
    + intros (k & (r & <- & (j & a & Ha & Ht & ->)%Hin)%in_map_iff & Hk).
      pose proof (lookup_lt_Some _ _ _ Ha) as Hj. unfold at_reverse in Hk.
      replace (Z.to_nat _) with j in Hk by lia. rewrite Hlen in Hj.
      destruct (lookup_lt_is_Some_2 args j Hj) as [v Hv]. rewrite Hv in Hk. cbn in Hk.
      exists (ivalue_keys v). split; [|done]. apply in_map, list_elem_of_In. by eapply list_elem_of_lookup_2.
    + intros (k & (v & <- & Hv)%in_map_iff & Hk). apply list_elem_of_In, list_elem_of_lookup in Hv as [j Hv].
      destruct (Forall2_lookup_r _ _ _ _ _ H2 Hv) as (a & Ha & Hz).
      destruct (isDispatchType (type_ a)) eqn:Ht; [|rewrite Hz, Z.bits_0 in Hk by done; done].
      exists (ivalue_keys v). split; [|done]. apply in_map_iff.
      exists (Z.of_nat (length args) - 1 - Z.of_nat j). pose proof (lookup_lt_Some _ _ _ Hv).
      split; [|apply Hin; by exists j, a]. unfold at_reverse.
      replace (Z.to_nat _) with j by lia. by rewrite Hv.
Qed.
End Boxed.

(** C36.  Calls with boxed arguments are dispatched like calls with unboxed
    ones: with the arguments on top of the stack, whatever is below them, the
    scan of the positions of tensor types gives the key set the overloads for
    the arguments give, when an argument of another type has no keys. *)
Theorem boxed_unboxed_agree `{OperatorTypes} schema b x t base args :
  makeBitsetForDispatchArgs schema = Ok b → dispatch_arg_indices_reverse_ x = b →
  Forall boxes_keys args →
  Forall2 (λ a v, isDispatchType (type_ a) = false → ivalue_keys (box v) = 0) (arguments_ schema) args →
  getDispatchKeySetBoxed x t (base ++ map box args) = getDispatchKeySetUnboxed x t args.
Proof.
  intros Hb Hx Hk H2. unfold getDispatchKeySetBoxed, getDispatchKeySetUnboxed, multi_dispatch_key_set.
  assert (Forall2 (λ a v, isDispatchType (type_ a) = false → ivalue_keys v = 0) (arguments_ schema)
    (map box args)) as H2' by (by apply Forall2_fmap_r).
  rewrite Hx, union_stack_spec by (by apply (boxed_union schema b _ 0)).
  rewrite multi_dispatch_spec by done. cbn [mbind result_bind]. f_equal.
  apply Z.bits_inj'. intros i Hi.
  destruct (boxed_union schema b _ i Hb Hi H2') as [_ Hbit]. unfold union in Hbit.
  rewrite map_map in Hbit. exact Hbit.
Qed.

Lemma boxed_unboxed_agree_witness :
  let _ := DemoTypes.types in
  let arg n t := mkArgument n t t in
  let schema := mkFunctionSchema (mkOperatorName "ns::f" "")
    [arg "a" DemoTypes.Tensor; arg "n" DemoTypes.Int; arg "l" DemoTypes.OptionalTensors] [] false false in
  let x := new_extractor 5 in
  let args := [ATensor (ks_key CPU); AOther; AOptionalTensorList [None; Some (ks_key CUDA)]] in
  getDispatchKeySetBoxed x zero_tls ([VTensor (ks_key XLA)] ++ map box args)
  = getDispatchKeySetUnboxed x zero_tls args ∧
  getDispatchKeySetUnboxed x zero_tls args
  = Ok (ks_or (ks_keys [CPU; CUDA]) default_included_set).
Proof.
  intros T arg schema x args. split; [|vm_compute; reflexivity].
  apply (@boxed_unboxed_agree T schema 5 x zero_tls [VTensor (ks_key XLA)] args).
  - vm_compute. reflexivity.
  - reflexivity.
  - repeat constructor.
  - repeat constructor; intros Hd; discriminate Hd.
Defined.

(** A generator has keys of its own that only unboxed calls take into account. *)
Example generator_keys_not_boxed :
  let _ := DemoTypes.types in
  let schema := mkFunctionSchema (mkOperatorName "ns::rand" "")
    [mkArgument "g" DemoTypes.Generator DemoTypes.Generator] [] false false in
  ∃ b, makeBitsetForDispatchArgs schema = Ok b ∧
    getDispatchKeySetBoxed (new_extractor b) zero_tls (map box [AGenerator (Some (ks_key CUDA))])
    = Ok default_included_set ∧
    getDispatchKeySetUnboxed (new_extractor b) zero_tls [AGenerator (Some (ks_key CUDA))]
    = Ok (ks_or (ks_key CUDA) default_included_set).
Proof. eexists. split; [reflexivity|]. split; vm_compute; reflexivity. Qed.

(** ** Guards of the thread's key sets. *)
Lemma included_set_included x t : included (set_included x t) = x.
Proof. unfold included, set_included, ks_xor. cbn. by rewrite Z.lxor_assoc, Z.lxor_nilpotent, Z.lxor_0_r. Qed.
Lemma excluded_set_excluded x t : excluded (set_excluded x t) = x.
Proof. unfold excluded, set_excluded, ks_xor. cbn. by rewrite Z.lxor_assoc, Z.lxor_nilpotent, Z.lxor_0_r. Qed.
Lemma set_included_included t t' : excluded_ t = excluded_ t' → set_included (included t') t = t'.
Proof.
  destruct t' as [i e]. unfold included, set_included, ks_xor. cbn. intros ->.
  by rewrite Z.lxor_assoc, Z.lxor_nilpotent, Z.lxor_0_r.
Qed.
Lemma set_excluded_excluded t t' : included_ t = included_ t' → set_excluded (excluded t') t = t'.
Proof.
  destruct t' as [i e]. unfold excluded, set_excluded, ks_xor. cbn. intros ->.
  by rewrite Z.lxor_assoc, Z.lxor_nilpotent, Z.lxor_0_r.
Qed.
Lemma force_tls_same t t' : _force_tls_local_dispatch_key_set (tls_local_dispatch_key_set t') t = t'.
Proof.
  unfold _force_tls_local_dispatch_key_set, tls_local_dispatch_key_set. cbn.
  destruct t' as [i e]. unfold set_excluded, set_included, included, excluded, ks_xor. cbn.
  by rewrite !Z.lxor_assoc, !Z.lxor_nilpotent, !Z.lxor_0_r.
Qed.

(** Blocks of code: guards with the block they are declared in the middle of,
    and changes without guards. *)
Inductive block : Type :=
  | Done
  | Guarded (r : guard_request) (body rest : block)
  | SetExcluded (x : DispatchKey) (desired_state : bool) (rest : block)
  | SetIncluded (x : DispatchKey) (desired_state : bool) (rest : block).

Fixpoint run_block (p : block) (t : PODLocalDispatchKeySet) : PODLocalDispatchKeySet :=
  match p with
  | Done => t
  | Guarded r body rest =>
      let '(g, t1) := construct r t in run_block rest (destruct_guard g (run_block body t1))
  | SetExcluded x v rest => run_block rest (tls_set_dispatch_key_excluded x v t)
  | SetIncluded x v rest => run_block rest (tls_set_dispatch_key_included x v t)
  end.

Fixpoint only_guards (p : block) : bool :=
  match p with
  | Done => true
  | Guarded _ body rest => only_guards body && only_guards rest
  | SetExcluded _ _ _ | SetIncluded _ _ _ => false
  end.

(** Code that only uses guards leaves the thread's sets as they were, and a
    guard undoes what its block did to its set by any other means. *)
Lemma guards_restore p t : only_guards p = true → run_block p t = t.
Proof.
  revert t. induction p as [|r body IHb rest IHr|x v rest IH|x v rest IH]; intros t; cbn; try done.
  intros [Hb Hr]%andb_true_iff. destruct (construct r t) as [g t1] eqn:E.
  rewrite IHb by done. rewrite IHr by done. destruct r; injection E as <- <-; cbn.
  - by rewrite set_included_included.
  - by rewrite set_excluded_excluded.
  - apply force_tls_same.
  - apply force_tls_same.
  - apply force_tls_same.
Qed.

Lemma include_guard_restores include body t :
  included (run_block (Guarded (Include include) body Done) t) = included t.
Proof. cbn. apply included_set_included. Qed.
Lemma exclude_guard_restores exclude body t :
  excluded (run_block (Guarded (Exclude exclude) body Done) t) = excluded t.
Proof. cbn. apply excluded_set_excluded. Qed.
