(* ===== verification/OperatorEntry.v ===== *)
(** * Operators and their dispatch tables.

    aten/src/ATen/core/dispatch/OperatorEntry.{h,cpp}: the kernels registered
    for an operator, the table computed from them, and its updates; and of
    KernelFunction and BoxedKernel what the table looks at. *)

From stdpp Require Import gmap strings.
From S2P Require Import Prelude SafeNum BitMath DispatchKey DispatchKeySet OperatorSchema DispatchKeyExtractor.

#[export] Instance DispatchKey_countable : Countable DispatchKey.
Proof. apply (inj_countable' dk_val to_dk). apply to_dk_val. Defined.

(** ** Kernels. *)
(** The function of a boxed kernel: one of the three the dispatcher makes
    itself, or that of a caller. *)
Inductive boxed_function : Type :=
  | fallthrough_kernel
  | ambiguous_autogradother_kernel
  | named_not_supported_kernel
  | boxed_function_at (f : positive).

Record KernelFunction : Type := mkKernelFunction {
  functor_ : option positive;
  boxed_kernel_func_ : option boxed_function;
  unboxed_kernel_func_ : option positive;
  sym_unboxed_kernel_func_ : option positive }.

#[export] Instance boxed_function_eq_dec : EqDecision boxed_function.
Proof. solve_decision. Defined.
#[export] Instance KernelFunction_eq_dec : EqDecision KernelFunction.
Proof. solve_decision. Defined.

Definition no_kernel : KernelFunction := mkKernelFunction None None None None.
Definition isValidUnboxed (k : KernelFunction) : bool := bool_decide (unboxed_kernel_func_ k ≠ None).
Definition isValidSymUnboxed (k : KernelFunction) : bool := bool_decide (sym_unboxed_kernel_func_ k ≠ None).
Definition isValid (k : KernelFunction) : bool := bool_decide (boxed_kernel_func_ k ≠ None).
Definition isFallthrough (k : KernelFunction) : bool :=
  bool_decide (boxed_kernel_func_ k = Some fallthrough_kernel).
Definition makeFallthrough : KernelFunction := mkKernelFunction None (Some fallthrough_kernel) None None.
Definition makeAmbiguousAutogradOther : KernelFunction :=
  mkKernelFunction None (Some ambiguous_autogradother_kernel) None None.
Definition makeNamedNotSupported : KernelFunction :=
  mkKernelFunction None (Some named_not_supported_kernel) None None.
Definition makeFromBoxedFunction (func : positive) : KernelFunction :=
  mkKernelFunction None (Some (boxed_function_at func)) None None.
Definition _equalsBoxedAndUnboxed (k other : KernelFunction) : bool :=
  bool_decide (boxed_kernel_func_ k = boxed_kernel_func_ other) &&
  bool_decide (unboxed_kernel_func_ k = unboxed_kernel_func_ other).

(** The keys of the set FULL, and the key of each slot of the table. *)
Definition allDispatchKeysInFullSet : result (list DispatchKey) := iterate ks_FULL.

Section Entry.
Context `{OperatorTypes}.

Record AnnotatedKernel : Type := mkAnnotatedKernel {
  kernel : KernelFunction;
  inferred_function_schema : option FunctionSchema;
  kernel_debug : string }.
Record AnnotatedSchema : Type := mkAnnotatedSchema { schema : FunctionSchema; schema_debug : string }.
Record CppSignatureWithDebug : Type := mkSignatureWithDebug {
  signature : CppSignature; signature_debug : string; signature_key : option DispatchKey }.

Definition missingKernel : AnnotatedKernel := mkAnnotatedKernel no_kernel None "".
Definition ambiguousAutogradOtherKernel : AnnotatedKernel :=
  mkAnnotatedKernel makeAmbiguousAutogradOther None "ambiguous_autogradother".

(** The nodes of the lists of kernels have an identity, the iterators of
    [std::list]; [next_node] is the next one.  The Python handle and the error
    callback are left out. *)
Record OperatorEntry : Type := mkEntry {
  name_ : OperatorName;
  schema_ : option AnnotatedSchema;
  tags_ : list Tag;
  dispatchTable_ : list KernelFunction;
  dispatchKeyExtractor_ : DispatchKeyExtractor;
  kernels_ : gmap DispatchKey (list (positive * AnnotatedKernel));
  next_node : positive;
  cpp_signature_ : option CppSignatureWithDebug;
  sym_cpp_signature_ : option CppSignatureWithDebug;
  is_observed_ : bool }.

Definition set_schema s ts e := mkEntry (name_ e) s ts (dispatchTable_ e) (dispatchKeyExtractor_ e)
  (kernels_ e) (next_node e) (cpp_signature_ e) (sym_cpp_signature_ e) (is_observed_ e).
Definition set_table t e := mkEntry (name_ e) (schema_ e) (tags_ e) t (dispatchKeyExtractor_ e)
  (kernels_ e) (next_node e) (cpp_signature_ e) (sym_cpp_signature_ e) (is_observed_ e).
Definition set_extractor x e := mkEntry (name_ e) (schema_ e) (tags_ e) (dispatchTable_ e) x
  (kernels_ e) (next_node e) (cpp_signature_ e) (sym_cpp_signature_ e) (is_observed_ e).
Definition set_kernels k n e := mkEntry (name_ e) (schema_ e) (tags_ e) (dispatchTable_ e)
  (dispatchKeyExtractor_ e) k n (cpp_signature_ e) (sym_cpp_signature_ e) (is_observed_ e).
Definition set_signatures c s e := mkEntry (name_ e) (schema_ e) (tags_ e) (dispatchTable_ e)
  (dispatchKeyExtractor_ e) (kernels_ e) (next_node e) c s (is_observed_ e).

(** ** Looking kernels up. *)
Definition hasKernelForAnyDispatchKey (e : OperatorEntry) (ks : DispatchKeySet) : result bool :=
  _ ← TORCH_INTERNAL_ASSERT (bool_decide (kernels_ e !! Undefined = None)) "";
  Ok (existsb (λ kv, negb (isAliasDispatchKey kv.1) && has ks kv.1) (map_to_list (kernels_ e))).

Definition hasKernelForDispatchKey (e : OperatorEntry) (k : DispatchKey) : result bool :=
  _ ← TORCH_INTERNAL_ASSERT (bool_decide (kernels_ e !! Undefined = None)) "";
  Ok (match kernels_ e !! k with Some l => negb (bool_decide (l = [])) | None => false end).

Definition kernelForDispatchKey (e : OperatorEntry) (k : DispatchKey) : result KernelFunction :=
  match kernels_ e !! k with
  | Some ((_, j) :: _) => _ ← TORCH_INTERNAL_ASSERT (isValid (kernel j)) ""; Ok (kernel j)
  | _ => Throw (Error "no kernel for ")
  end.

Definition getKernelForDispatchKey (e : OperatorEntry) (dispatch_key : DispatchKey)
    : result (option AnnotatedKernel) :=
  match kernels_ e !! dispatch_key with
  | None => Ok None
  | Some [] => Throw (InternalAssert "")
  | Some ((_, front) :: _) => _ ← TORCH_INTERNAL_ASSERT (isValid (kernel front)) ""; Ok (Some front)
  end.

Definition hasComputedKernelForDispatchKey (e : OperatorEntry) (k : DispatchKey) : result bool :=
  _ ← TORCH_CHECK (negb (isAliasDispatchKey k)) "Alias keys do not have runtime kernel registrations.";
  let dispatch_ix := getDispatchTableIndexForDispatchKey k in
  _ ← TORCH_INTERNAL_ASSERT ((dispatch_ix >=? 0) && (dispatch_ix <? num_runtime_entries)) "";
  match dispatchTable_ e !! Z.to_nat dispatch_ix with
  | Some f => Ok (isValid f)
  | None => Throw (UndefinedBehaviour "")
  end.

(** ** The table entry of a key. *)
(** An [if] that returns from the function. *)
Definition return_or {A} (m : result (option A)) (rest : result A) : result A :=
  o ← m; match o with Some a => Ok a | None => rest end.

(** The kernel registered to [alias], when the key is included in it;
    [undefined_too] when the condition also has [dispatch_key == Undefined]. *)
Definition alias_kernel (e : OperatorEntry) (undefined_too : bool) (dispatch_key alias : DispatchKey)
    (provenance : string) : result (option (AnnotatedKernel * string)) :=
  included ← isIncludedInAlias dispatch_key alias;
  if (undefined_too && dk_eqb dispatch_key Undefined) || included
  then k ← getKernelForDispatchKey e alias; Ok (option_map (λ k, (k, provenance)) k)
  else Ok None.

(** Step 2.3: the kernel registered to CompositeImplicitAutograd. *)
Definition implicit_kernel (e : OperatorEntry) (dispatch_key : DispatchKey) (has_backend_kernel : bool)
    : result (option (AnnotatedKernel * string)) :=
  math_registration ← alias_kernel e true dispatch_key CompositeImplicitAutograd "math kernel";
  match math_registration with
  | None => Ok None
  | Some math =>
      ambiguous ← (if dk_eqb dispatch_key AutogradOther
                   then hasKernelForAnyDispatchKey e autogradother_backends else Ok false);
      Ok (if (ambiguous : bool) then Some (ambiguousAutogradOtherKernel, "ambiguous autogradother")
          else if negb has_backend_kernel then Some math else None)
  end.

(** Steps 3 and 4; [backendFallbackKernels_] is the table of the dispatcher. *)
Definition fallback_kernel (backendFallbackKernels_ : list AnnotatedKernel) (dispatch_key : DispatchKey)
    : result (AnnotatedKernel * string) :=
  let dispatch_ix := getDispatchTableIndexForDispatchKey dispatch_key in
  if dispatch_ix <? 0 then Ok (missingKernel, "backend fallback not registered on mobile")
  else match backendFallbackKernels_ !! Z.to_nat dispatch_ix with
       | None => Throw (UndefinedBehaviour "")
       | Some k => if isValid (kernel k) then Ok (k, "backend fallback") else Ok (missingKernel, "missing")
       end.

Definition computeDispatchTableEntryWithDebug (backendFallbackKernels_ : list AnnotatedKernel)
    (e : OperatorEntry) (dispatch_key : DispatchKey) : result (AnnotatedKernel * string) :=
  return_or (k ← getKernelForDispatchKey e dispatch_key; Ok (option_map (λ k, (k, "kernel")) k)) $
  return_or (alias_kernel e true dispatch_key CompositeExplicitAutogradNonFunctional
               "default backend kernel") $
  return_or (alias_kernel e true dispatch_key CompositeExplicitAutograd "default backend kernel") $
  any ← hasKernelForAnyDispatchKey e (getBackendKeySetFromAutograd dispatch_key);
  has_backend_kernel ← (if (any : bool) then Ok true else hasKernelForDispatchKey e CompositeExplicitAutograd);
  return_or (alias_kernel e false dispatch_key CompositeImplicitAutogradNestedTensor "nested kernel") $
  return_or (implicit_kernel e dispatch_key has_backend_kernel) $
  return_or (alias_kernel e false dispatch_key Autograd "autograd kernel") $
  return_or (alias_kernel e false dispatch_key FuncTorchBatchedDecomposition "batched kernel") $
  fallback_kernel backendFallbackKernels_ dispatch_key.

Definition computeDispatchTableEntry (backendFallbackKernels_ : list AnnotatedKernel)
    (e : OperatorEntry) (dispatch_key : DispatchKey) : result KernelFunction :=
  p ← computeDispatchTableEntryWithDebug backendFallbackKernels_ e dispatch_key; Ok (kernel p.1).

(** ** Updates of the table. *)
Definition updateDispatchTableEntry_ (fallbacks : list AnnotatedKernel) (dispatch_key : DispatchKey)
    : method OperatorEntry unit :=
  let dispatch_ix := getDispatchTableIndexForDispatchKey dispatch_key in
  if dispatch_ix =? -1 then mret tt
  else
    e ← reads id;
    k ← lift (computeDispatchTableEntry fallbacks e dispatch_key);
    modify (set_table (<[Z.to_nat dispatch_ix := k]> (dispatchTable_ e)));;
    x ← lift (setOperatorHasFallthroughForKey dispatch_key (isFallthrough k) (dispatchKeyExtractor_ e));
    modify (set_extractor x).

Fixpoint update_entries (fallbacks : list AnnotatedKernel) (ks : list DispatchKey)
    : method OperatorEntry unit :=
  match ks with
  | [] => mret tt
  | k :: rest => updateDispatchTableEntry_ fallbacks k;; update_entries fallbacks rest
  end.

Definition updateDispatchTable_ (fallbacks : list AnnotatedKernel) (dispatch_key : DispatchKey)
    : method OperatorEntry unit :=
  if dk_eqb dispatch_key Undefined then updateDispatchTableEntry_ fallbacks dispatch_key
  else
    s ← lift (getRuntimeDispatchKeySet dispatch_key);
    ks ← lift (iterate s);
    update_entries fallbacks ks;;
    (if dk_eqb dispatch_key CompositeImplicitAutograd || dk_eqb dispatch_key CompositeExplicitAutograd
        || dk_eqb dispatch_key CompositeExplicitAutogradNonFunctional
     then updateDispatchTableEntry_ fallbacks Undefined else mret tt);;
    if isBackendDispatchKey dispatch_key
    then updateDispatchTableEntry_ fallbacks (getAutogradKeyFromBackend (toBackendComponent dispatch_key))
    else mret tt.

Fixpoint update_tables (fallbacks : list AnnotatedKernel) (ks : list DispatchKey)
    : method OperatorEntry unit :=
  match ks with
  | [] => mret tt
  | k :: rest => updateDispatchTable_ fallbacks k;; update_tables fallbacks rest
  end.

Definition updateDispatchTableFull_ (fallbacks : list AnnotatedKernel) : method OperatorEntry unit :=
  updateDispatchTable_ fallbacks Undefined;;
  ks ← lift allDispatchKeysInFullSet;
  update_tables fallbacks ks.

Definition updateFallback (fallbacks : list AnnotatedKernel) (dispatch_key : DispatchKey)
    : method OperatorEntry unit := updateDispatchTable_ fallbacks dispatch_key.

(** ** Construction: the fallbacks registered so far. *)
Fixpoint fill_table (fallbacks : list AnnotatedKernel) (keys : list DispatchKey) (x : DispatchKeyExtractor)
    : result (list KernelFunction * DispatchKeyExtractor) :=
  match fallbacks, keys with
  | bfk :: rest, k :: keys' =>
      if isValid (kernel bfk) then
        x ← (if isFallthrough (kernel bfk) then setOperatorHasFallthroughForKey k true x else Ok x);
        r ← fill_table rest keys' x; Ok (kernel bfk :: r.1, r.2)
      else r ← fill_table rest keys' x; Ok (kernel missingKernel :: r.1, r.2)
  | _, _ => Ok ([], x)
  end.

(** [getDispatchTableIndexToKey]: the key of each slot. *)
Fixpoint fill_index (ks : list DispatchKey) (arr : list DispatchKey) : result (list DispatchKey) :=
  match ks with
  | [] => Ok arr
  | k :: rest =>
      let index := Z.to_nat (getDispatchTableIndexForDispatchKey k) in
      match arr !! index with
      | None => Throw (Error "array::at")
      | Some old => _ ← TORCH_INTERNAL_ASSERT (dk_eqb old Undefined) "";
                    fill_index rest (<[index := k]> arr)
      end
  end.

Definition getDispatchTableIndexToKey : result (list DispatchKey) :=
  ks ← allDispatchKeysInFullSet;
  arr ← fill_index ks (replicate (Z.to_nat num_runtime_entries) Undefined);
  _ ← TORCH_INTERNAL_ASSERT (getDispatchTableIndexForDispatchKey Undefined =? 0) "";
  _ ← TORCH_INTERNAL_ASSERT (bool_decide (arr !! 0%nat = Some Undefined)) "";
  _ ← TORCH_INTERNAL_ASSERT (forallb (λ k, negb (dk_eqb k Undefined)) (tail arr))
        "missing dispatch key at index ";
  Ok arr.

Definition new_OperatorEntry (fallbacks : list AnnotatedKernel) (name : OperatorName)
    : result OperatorEntry :=
  keys ← getDispatchTableIndexToKey;
  r ← fill_table fallbacks keys makeUninitialized;
  Ok (mkEntry name None [] r.1 r.2 ∅ 1%positive None None (isObserved name)).

(** ** Registration. *)
Definition checkSchema (from_def_ : FunctionSchema) (k : KernelFunction) (inferred_ : FunctionSchema)
    : result unit :=
  let from_def := cloneWithRealTypes (isValidSymUnboxed k) from_def_ in
  let inferred := cloneWithRealTypes true inferred_ in
  TORCH_CHECK (negb (bool_decide (is_Some (findSchemaDifferences from_def inferred))))
    "Inferred operator schema for a C++ kernel function doesn't match the expected function schema.".

Fixpoint check_kernels (s : FunctionSchema) (js : list AnnotatedKernel) : result unit :=
  match js with
  | [] => Ok tt
  | j :: rest =>
      _ ← match inferred_function_schema j with
          | Some i => checkSchema s (kernel j) i
          | None => Ok tt
          end;
      check_kernels s rest
  end.

(** The kernels of all lists, in the order of the map. *)
Definition all_kernels (e : OperatorEntry) : list AnnotatedKernel :=
  concat (map (λ kv, map snd kv.2) (map_to_list (kernels_ e))).

Definition registerSchema (s : FunctionSchema) (debug : string) (tags : list Tag)
    : method OperatorEntry unit :=
  e ← reads id;
  lift (TORCH_INTERNAL_ASSERT (negb (bool_decide (is_Some (schema_ e)))) "");;
  lift (check_kernels s (all_kernels e));;
  x ← lift (extractor_registerSchema s (dispatchKeyExtractor_ e));
  modify (set_extractor x);;
  modify (set_schema (Some (mkAnnotatedSchema s debug)) tags).

Definition deregisterSchema : method OperatorEntry unit :=
  e ← reads id;
  lift (TORCH_INTERNAL_ASSERT (bool_decide (is_Some (schema_ e))) "");;
  modify (set_schema None (tags_ e));;
  modify (set_extractor (extractor_deregisterSchema (dispatchKeyExtractor_ e))).

(** The signature of a kernel is compared with the one known, or becomes it. *)
Definition check_signature (dispatch_key : option DispatchKey) (k : KernelFunction)
    (cpp_signature : option CppSignature) (debug : string) : method OperatorEntry unit :=
  match cpp_signature with
  | None => mret tt
  | Some sig =>
      e ← reads id;
      let local := if isValidSymUnboxed k then sym_cpp_signature_ e else cpp_signature_ e in
      match local with
      | Some l => lift (TORCH_CHECK (bool_decide (sig = signature l)) "Mismatch in kernel C++ signatures")
      | None =>
          let l := Some (mkSignatureWithDebug sig debug dispatch_key) in
          modify (if isValidSymUnboxed k then set_signatures (cpp_signature_ e) l
                  else set_signatures l (sym_cpp_signature_ e))
      end
  end.

(** [k.emplace_front (...)] on the list of a key, and [k.begin ()]. *)
Definition emplace_front (dk : DispatchKey) (j : AnnotatedKernel) : method OperatorEntry positive :=
  e ← reads id;
  let node := next_node e in
  let l := default [] (kernels_ e !! dk) in
  modify (set_kernels (<[dk := (node, j) :: l]> (kernels_ e)) (Pos.succ node));;
  mret node.

Definition registerKernel (fallbacks : list AnnotatedKernel) (dispatch_key : option DispatchKey)
    (k : KernelFunction) (cpp_signature : option CppSignature)
    (inferred : option FunctionSchema) (debug : string) : method OperatorEntry positive :=
  check_signature dispatch_key k cpp_signature debug;;
  s ← reads schema_;
  lift (match s, inferred with
        | Some s, Some i => checkSchema (schema s) k i
        | _, _ => Ok tt
        end);;
  inserted ← emplace_front (default CompositeImplicitAutograd dispatch_key)
               (mkAnnotatedKernel k inferred debug);
  (match dispatch_key with
   | Some dk => updateDispatchTable_ fallbacks dk
   | None => updateDispatchTableFull_ fallbacks
   end);;
  mret inserted.

(** [k.erase (kernel)]; an iterator of another list is undefined behaviour. *)
Definition erase_node (node : positive) (l : list (positive * AnnotatedKernel))
    : result (list (positive * AnnotatedKernel)) :=
  if decide (node ∈ map fst l) then Ok (filter (λ p, p.1 ≠ node) l) else Throw (UndefinedBehaviour "").

Definition deregisterKernel_ (fallbacks : list AnnotatedKernel) (dispatch_key : option DispatchKey)
    (node : positive) : method OperatorEntry unit :=
  let dk := default CompositeImplicitAutograd dispatch_key in
  e ← reads id;
  match kernels_ e !! dk with
  | None => lift (Throw (InternalAssert "Tried to deregister a kernel for dispatch key "))
  | Some k =>
      k ← lift (erase_node node k);
      modify (set_kernels (if decide (k = []) then delete dk (kernels_ e) else <[dk := k]> (kernels_ e))
                (next_node e));;
      updateDispatchTable_ fallbacks dk
  end.

Definition assertSignatureIsCorrect (call_signature : CppSignature) (has_symint : bool)
    (e : OperatorEntry) : result unit :=
  match (if has_symint then sym_cpp_signature_ e else cpp_signature_ e) with
  | Some l => TORCH_CHECK (bool_decide (call_signature = signature l))
                "Tried to access or call an operator with a wrong signature."
  | None => Ok tt
  end.

(** ** Calls. *)
Fixpoint check_table (fallbacks : list AnnotatedKernel) (e : OperatorEntry) (ks : list DispatchKey)
    : result unit :=
  match ks with
  | [] => Ok tt
  | k :: rest =>
      expected_k ← computeDispatchTableEntry fallbacks e k;
      let idx := getDispatchTableIndexForDispatchKey k in
      if idx =? -1 then check_table fallbacks e rest
      else match dispatchTable_ e !! Z.to_nat idx with
           | None => Throw (UndefinedBehaviour "")
           | Some f =>
               _ ← TORCH_INTERNAL_ASSERT (_equalsBoxedAndUnboxed expected_k f) "Canonical state";
               check_table fallbacks e rest
           end
  end.

Definition entry_checkInvariants (fallbacks : list AnnotatedKernel) (e : OperatorEntry) : result unit :=
  _ ← match schema_ e with
      | Some s =>
          _ ← TORCH_INTERNAL_ASSERT (bool_decide (schema_name (schema s) = name_ e)) "";
          extractor_checkInvariants (schema s) (dispatchKeyExtractor_ e)
      | None => Ok tt
      end;
  _ ← TORCH_INTERNAL_ASSERT (bool_decide (kernels_ e !! Undefined = None)) "";
  _ ← TORCH_INTERNAL_ASSERT
        (forallb (λ kv, negb (bool_decide (kv.2 = []))) (map_to_list (kernels_ e))) "";
  ks ← allDispatchKeysInFullSet;
  check_table fallbacks e ks.

Definition reportError {A} (fallbacks : list AnnotatedKernel) (e : OperatorEntry) (dispatchKey : DispatchKey)
    : result A :=
  _ ← entry_checkInvariants fallbacks e;
  if dk_eqb dispatchKey Undefined
  then Throw (NotImplementedError "There were no tensor arguments to this function (e.g., you passed an ")
  else Throw (NotImplementedError "Could not run '").

Definition lookup_kernel (fallbacks : list AnnotatedKernel) (e : OperatorEntry) (ks : DispatchKeySet)
    : result KernelFunction :=
  let idx := getDispatchTableIndexForDispatchKeySet ks in
  if idx =? -1 then reportError fallbacks e (highestPriorityTypeId ks)
  else match dispatchTable_ e !! Z.to_nat idx with
       | None => Throw (UndefinedBehaviour "")
       | Some k =>
           if negb (isValidUnboxed k) && negb (isValid k)
           then reportError fallbacks e (highestPriorityTypeId ks) else Ok k
       end.

Fixpoint keys_with_kernel (e : OperatorEntry) (ks : list DispatchKey) : result (list DispatchKey) :=
  match ks with
  | [] => Ok []
  | k :: rest =>
      let iter := getDispatchTableIndexForDispatchKey k in
      r ← keys_with_kernel e rest;
      if iter =? -1 then Ok r
      else match dispatchTable_ e !! Z.to_nat iter with
           | None => Throw (UndefinedBehaviour "")
           | Some f => Ok (if isValid f then k :: r else r)
           end
  end.
(** The keys the string lists. *)
Definition listAllDispatchKeys (e : OperatorEntry) : result (list DispatchKey) :=
  ks ← allDispatchKeysInFullSet; keys_with_kernel e ks.
End Entry.
