(* ===== verification/OperatorTable.v ===== *)
(** * The entry of a key in the table of an operator.

    What [computeDispatchTableEntry] of OperatorEntry.v chooses, as a function
    of the newest kernel of each key, well-formed entries, and the keys the
    choice depends on. *)

From stdpp Require Import gmap strings.
From S2P Require Import Prelude SafeNum BitMath DispatchKey DispatchKeySet OperatorSchema DispatchKeyExtractor.
From S2P Require Import FallthroughKeys OperatorEntry.

(** Keys kernels are registered to: runtime keys and aliases. *)
Definition registrable (d : DispatchKey) : bool :=
  (isRuntimeKey d && negb (dk_eqb d Undefined)) || isAliasDispatchKey d.

Lemma registrable_runtime k : isRuntimeKey k = true → k ≠ Undefined → registrable k = true.
Proof.
  intros Hk Hu. unfold registrable. rewrite Hk. destruct (dk_eqb k Undefined) eqn:Eu; [|done].
  by apply dk_eqb_eq in Eu.
Qed.

(** [isIncludedInAlias], which does not throw for an alias. *)
Definition in_alias (k alias : DispatchKey) : bool :=
  match isIncludedInAlias k alias with Ok b => b | Throw _ => false end.

Lemma isIncludedInAlias_Ok k alias : isAliasDispatchKey alias = true →
  isIncludedInAlias k alias = Ok (in_alias k alias).
Proof.
  intros Ha. unfold in_alias, isIncludedInAlias. destruct (dk_eqb k Undefined); [done|].
  unfold runtimeDispatchKeySetHas. destruct alias; try done; discriminate Ha.
Qed.

Section Table.
Context `{OperatorTypes}.

(** ** What the entry of a key is, as a function of the newest kernel of each
    key and of the fallbacks. *)
Definition newest (e : OperatorEntry) (d : DispatchKey) : option AnnotatedKernel :=
  match kernels_ e !! d with Some ((_, j) :: _) => Some j | _ => None end.

Definition registered_any (F : DispatchKey → option AnnotatedKernel) (ks : DispatchKeySet) : bool :=
  existsb (λ d, negb (isAliasDispatchKey d) && has ks d && bool_decide (is_Some (F d))) all_dispatch_keys.

Definition from_alias (F : DispatchKey → option AnnotatedKernel) (undefined_too : bool)
    (k alias : DispatchKey) : option AnnotatedKernel :=
  if (undefined_too && dk_eqb k Undefined) || in_alias k alias then F alias else None.

(** The kernel registered to CompositeImplicitAutograd is ambiguous for
    AutogradOther when one of its backends has a kernel, and is not used for
    an autograd key whose backend, or CompositeExplicitAutograd, has one. *)
Definition from_implicit (F : DispatchKey → option AnnotatedKernel) (k : DispatchKey)
    : option AnnotatedKernel :=
  match from_alias F true k CompositeImplicitAutograd with
  | None => None
  | Some math =>
      if dk_eqb k AutogradOther && registered_any F autogradother_backends
      then Some ambiguousAutogradOtherKernel
      else if registered_any F (getBackendKeySetFromAutograd k) ||
              bool_decide (is_Some (F CompositeExplicitAutograd))
      then None else Some math
  end.

Definition from_fallback (fallbacks : list AnnotatedKernel) (k : DispatchKey) : AnnotatedKernel :=
  match fallbacks !! Z.to_nat (getDispatchTableIndexForDispatchKey k) with
  | Some b => if isValid (kernel b) then b else missingKernel
  | None => missingKernel
  end.

(** The first of them that there is. *)
Definition chosen (fallbacks : list AnnotatedKernel) (F : DispatchKey → option AnnotatedKernel)
    (k : DispatchKey) : AnnotatedKernel :=
  default (from_fallback fallbacks k)
    (head (omap id [F k;
                    from_alias F true k CompositeExplicitAutogradNonFunctional;
                    from_alias F true k CompositeExplicitAutograd;
                    from_alias F false k CompositeImplicitAutogradNestedTensor;
                    from_implicit F k;
                    from_alias F false k Autograd;
                    from_alias F false k FuncTorchBatchedDecomposition])).

(** ** Well-formed entries.  The kernels of a key are there, valid and in the
    order of their registration, the newest first; the flags are those of the
    table. *)
Record entry_ok (e : OperatorEntry) : Prop := {
  ok_kernels : ∀ d l, kernels_ e !! d = Some l → registrable d = true ∧ l ≠ [] ∧
    Forall (λ p, isValid (kernel p.2) = true ∧ (p.1 < next_node e)%positive) l ∧
    StronglySorted (λ a b, (b < a)%positive) (map fst l);
  ok_table : length (dispatchTable_ e) = Z.to_nat num_runtime_entries;
  ok_extractor : extractor_ok (dispatchKeyExtractor_ e);
  ok_flags : ∀ k f, isRuntimeKey k = true → k ≠ Undefined →
    dispatchTable_ e !! Z.to_nat (getDispatchTableIndexForDispatchKey k) = Some f →
    falls_through (dispatchKeyExtractor_ e) k = isFallthrough f }.

Lemma registrable_Undefined d : registrable d = true → d ≠ Undefined.
Proof. by intros Hd ->. Qed.

Lemma no_Undefined e : entry_ok e → kernels_ e !! Undefined = None.
Proof.
  intros He. destruct (kernels_ e !! Undefined) as [l|] eqn:E; [|done].
  destruct (ok_kernels e He _ _ E) as [Hr _]. done.
Qed.

Lemma getKernel_newest e d : entry_ok e → getKernelForDispatchKey e d = Ok (newest e d).
Proof.
  intros He. unfold getKernelForDispatchKey, newest. destruct (kernels_ e !! d) as [l|] eqn:E; [|done].
  destruct (ok_kernels e He _ _ E) as (_ & Hne & Hv & _). destruct l as [|[n j] l]; [done|].
  apply Forall_cons in Hv as [[Hv _] _]. cbn in Hv. by rewrite Hv.
Qed.

Lemma newest_Some e d : entry_ok e → is_Some (newest e d) ↔ is_Some (kernels_ e !! d).
Proof.
  intros He. unfold newest. destruct (kernels_ e !! d) as [l|] eqn:E; [|done].
  destruct (ok_kernels e He _ _ E) as (_ & Hne & _). destruct l as [|[n j] l]; [done|]. split; eauto.
Qed.

Lemma hasKernelForDispatchKey_newest e d : entry_ok e →
  hasKernelForDispatchKey e d = Ok (bool_decide (is_Some (newest e d))).
Proof.
  intros He. unfold hasKernelForDispatchKey. rewrite bool_decide_eq_true_2 by (by apply no_Undefined).
  cbn. f_equal. unfold newest. destruct (kernels_ e !! d) as [l|] eqn:E; [|done].
  destruct (ok_kernels e He _ _ E) as (_ & Hne & _). by destruct l as [|[n j] l].
Qed.

Lemma hasKernelForAny_newest e ks : entry_ok e →
  hasKernelForAnyDispatchKey e ks = Ok (registered_any (newest e) ks).
Proof.
  intros He. unfold hasKernelForAnyDispatchKey. rewrite bool_decide_eq_true_2 by (by apply no_Undefined).
  cbn [mbind result_bind TORCH_INTERNAL_ASSERT]. f_equal. unfold registered_any. apply eq_true_iff_eq. rewrite !existsb_exists. split.
  - intros ([d l] & Hin & Hp).
    exists d. split; [apply In_all_dispatch_keys|]. cbn in Hp.
    rewrite Hp. cbn. apply bool_decide_eq_true. apply newest_Some; [done|].
    apply list_elem_of_In, elem_of_map_to_list in Hin. by exists l.
  - intros (d & _ & Hp). apply andb_true_iff in Hp as [Hp Hs].
    apply bool_decide_eq_true in Hs. apply newest_Some in Hs as [l Hl]; [|done].
    exists (d, l). split; [|done]. by apply list_elem_of_In, elem_of_map_to_list.
Qed.

Lemma alias_kernel_newest e u k a prov : entry_ok e → isAliasDispatchKey a = true →
  alias_kernel e u k a prov = Ok (option_map (λ j, (j, prov)) (from_alias (newest e) u k a)).
Proof.
  intros He Ha. unfold alias_kernel, from_alias. rewrite isIncludedInAlias_Ok by done. cbn.
  case_match; [|done]. by rewrite getKernel_newest by done.
Qed.

Lemma fallback_kernel_Ok fallbacks k : isRuntimeKey k = true →
  length fallbacks = Z.to_nat num_runtime_entries →
  ∃ prov, fallback_kernel fallbacks k = Ok (from_fallback fallbacks k, prov).
Proof.
  intros Hk Hl. pose proof (slot_range k Hk) as Hr. unfold fallback_kernel, from_fallback.
  rewrite (proj2 (Z.ltb_ge _ _)) by lia.
  destruct (lookup_lt_is_Some_2 fallbacks (Z.to_nat (getDispatchTableIndexForDispatchKey k))) as [b Hb]; [lia|].
  rewrite Hb. case_match; eauto.
Qed.

(** The computation is the choice. *)
Lemma compute_chosen fallbacks e k : entry_ok e → isRuntimeKey k = true →
  length fallbacks = Z.to_nat num_runtime_entries →
  computeDispatchTableEntry fallbacks e k = Ok (kernel (chosen fallbacks (newest e) k)).
Proof.
  intros He Hk Hl. destruct (fallback_kernel_Ok fallbacks k Hk Hl) as [prov Hf].
  unfold computeDispatchTableEntry, computeDispatchTableEntryWithDebug, implicit_kernel, return_or, chosen.
  rewrite getKernel_newest, !alias_kernel_newest, !hasKernelForAny_newest by done.
  rewrite hasKernelForDispatchKey_newest, Hf by done.
  cbn [mbind result_bind].
  destruct (newest e k); [done|]. cbn [option_map omap list_omap id].
  destruct (from_alias (newest e) true k CompositeExplicitAutogradNonFunctional); [done|]. cbn [option_map].
  destruct (from_alias (newest e) true k CompositeExplicitAutograd); [done|]. cbn [option_map].
  assert (∀ X Y : bool, (if X then Ok true else Ok Y) = Ok (X || Y)) as -> by (by intros [] []).
  cbn [mbind result_bind].
  destruct (from_alias (newest e) false k CompositeImplicitAutogradNestedTensor); [done|]. cbn [option_map].
  unfold from_implicit.
  destruct (from_alias (newest e) true k CompositeImplicitAutograd) as [math|]; cbn [option_map mbind result_bind].
  - assert (∀ X Y : bool, (if X then Ok Y else Ok false) = Ok (X && Y)) as -> by (by intros [] []).
    cbn [mbind result_bind].
    destruct (dk_eqb k AutogradOther && _); [done|].
    destruct (registered_any _ _ || _); cbn [negb]; [|done].
    destruct (from_alias (newest e) false k Autograd); [done|]. cbn [option_map].
    by destruct (from_alias (newest e) false k FuncTorchBatchedDecomposition).
  - destruct (from_alias (newest e) false k Autograd); [done|]. cbn [option_map].
    by destruct (from_alias (newest e) false k FuncTorchBatchedDecomposition).
Qed.

(** ** Which kernels the entry of a key depends on.  [implicit] tells whether a
    kernel is registered to CompositeImplicitAutograd. *)
Definition consults (implicit : bool) (d k : DispatchKey) : bool :=
  dk_eqb k d ||
  match d with
  | CompositeExplicitAutogradNonFunctional | CompositeExplicitAutograd | CompositeImplicitAutograd =>
      dk_eqb k Undefined || in_alias k d
  | CompositeImplicitAutogradNestedTensor | Autograd | FuncTorchBatchedDecomposition => in_alias k d
  | _ => false
  end ||
  (implicit && (dk_eqb k Undefined || in_alias k CompositeImplicitAutograd) &&
   (dk_eqb d CompositeExplicitAutograd ||
    (negb (isAliasDispatchKey d) && has (getBackendKeySetFromAutograd k) d) ||
    (dk_eqb k AutogradOther && negb (isAliasDispatchKey d) && has autogradother_backends d))).

Lemma registered_any_ext F F' ks :
  (∀ d, negb (isAliasDispatchKey d) && has ks d = true → F d = F' d) →
  registered_any F ks = registered_any F' ks.
Proof.
  intros Hd. unfold registered_any. apply eq_true_iff_eq. rewrite !existsb_exists.
  split; intros (d & Hin & Hp); exists d; (split; [done|]); apply andb_true_iff in Hp as [Hp Hs];
    rewrite Hp; [rewrite <- (Hd d Hp)|rewrite (Hd d Hp)]; done.
Qed.

Lemma from_alias_ext F F' u k a :
  ((u && dk_eqb k Undefined) || in_alias k a = true → F a = F' a) →
  from_alias F u k a = from_alias F' u k a.
Proof. unfold from_alias. case_match; auto. Qed.

(** The entry of a key does not change when only a kernel it does not consult
    changes. *)
Lemma chosen_ext fallbacks F F' d k implicit :
  (∀ d', d' ≠ d → F d' = F' d') → consults implicit d k = false →
  (is_Some (F CompositeImplicitAutograd) → implicit = true) →
  chosen fallbacks F k = chosen fallbacks F' k.
Proof.
  intros Hd Hc Hi. unfold consults in Hc. rewrite !orb_false_iff in Hc. destruct Hc as [[Hk Ha] Hb].
  assert (∀ x y, dk_eqb x y = false → x ≠ y) as Hne.
  { intros x y Exy ->. assert (dk_eqb y y = true) by (by apply dk_eqb_eq). congruence. }
  assert (F k = F' k) as Ek by (apply Hd; by apply Hne).
  assert (∀ u a, (d = a → (u && dk_eqb k Undefined) || in_alias k a = false) →
    from_alias F u k a = from_alias F' u k a) as Hal.
  { intros u a Hx. apply from_alias_ext. intros Hy. apply Hd. intros <-. rewrite Hx in Hy by done. done. }
  unfold chosen. rewrite Ek.
  rewrite (Hal true CompositeExplicitAutogradNonFunctional) by (intros ->; exact Ha).
  rewrite (Hal true CompositeExplicitAutograd) by (intros ->; exact Ha).
  rewrite (Hal false CompositeImplicitAutogradNestedTensor) by (intros ->; exact Ha).
  rewrite (Hal false Autograd) by (intros ->; exact Ha).
  rewrite (Hal false FuncTorchBatchedDecomposition) by (intros ->; exact Ha).
  assert (from_implicit F k = from_implicit F' k) as ->; [|done].
  unfold from_implicit.
  assert (from_alias F true k CompositeImplicitAutograd = from_alias F' true k CompositeImplicitAutograd) as E
    by (apply Hal; intros ->; exact Ha).
  destruct (from_alias F true k CompositeImplicitAutograd) as [m|] eqn:Em; rewrite <- E; [|done].
  unfold from_alias in Em. rewrite andb_true_l in Em.
  destruct (dk_eqb k Undefined || in_alias k CompositeImplicitAutograd) eqn:Ein; [|done].
  rewrite Hi in Hb by (by exists m). cbn in Hb. rewrite !orb_false_iff in Hb. destruct Hb as [[Hb1 Hb2] Hb3].
  rewrite (Hd CompositeExplicitAutograd) by (intros <-; done).
  rewrite (registered_any_ext F F' (getBackendKeySetFromAutograd k)).
  2: { intros d' Hd'. apply Hd. intros ->. congruence. }
  destruct (dk_eqb k AutogradOther) eqn:Eo; [|done]. rewrite ?andb_true_l in *.
  rewrite (registered_any_ext F F' autogradother_backends); [done|].
  intros d' Hd'. apply Hd. intros ->. congruence.
Qed.
End Table.
