(* ===== verification/OperatorUpdate.v ===== *)
(** * Updates of the table of an operator.

    The keys [updateDispatchTable_] and [updateDispatchTableFull_] of
    OperatorEntry.v recompute. *)

From stdpp Require Import gmap strings.
From S2P Require Import Prelude SafeNum BitMath DispatchKey DispatchKeySet OperatorSchema DispatchKeyExtractor.
From S2P Require Import FallthroughKeys OperatorEntry OperatorTable.

(** ** The keys an update refreshes. *)
Definition runtime_keys_of (d : DispatchKey) : list DispatchKey :=
  match (s ← getRuntimeDispatchKeySet d; iterate s) with Ok ks => ks | Throw _ => [] end.

Definition refreshed (d : DispatchKey) : list DispatchKey :=
  if dk_eqb d Undefined then [Undefined]
  else runtime_keys_of d ++
       (if dk_eqb d CompositeImplicitAutograd || dk_eqb d CompositeExplicitAutograd
           || dk_eqb d CompositeExplicitAutogradNonFunctional then [Undefined] else []) ++
       (if isBackendDispatchKey d then [getAutogradKeyFromBackend (toBackendComponent d)] else []).

Definition full_keys : list DispatchKey :=
  match allDispatchKeysInFullSet with Ok ks => ks | Throw _ => [] end.

Lemma refreshed_check d : registrable d = true →
  (s ← getRuntimeDispatchKeySet d; iterate s) = Ok (runtime_keys_of d) ∧
  Forall (λ k, isRuntimeKey k = true) (refreshed d).
Proof.
  intros Hd.
  assert (forallb (λ d, negb (registrable d) ||
    (match (s ← getRuntimeDispatchKeySet d; iterate s) with Ok _ => true | Throw _ => false end &&
     forallb isRuntimeKey (refreshed d))) all_dispatch_keys = true) as Hc by (vm_compute; reflexivity).
  apply all_keys_check with (k := d) in Hc. rewrite Hd in Hc. cbn [negb orb] in Hc.
  apply andb_true_iff in Hc as [Hc1 Hc2]. split.
  - unfold runtime_keys_of. destruct (s ← getRuntimeDispatchKeySet d; iterate s); done.
  - rewrite forallb_forall in Hc2. by apply List.Forall_forall.
Qed.

Lemma full_keys_check :
  allDispatchKeysInFullSet = Ok full_keys ∧
  (∀ k, k ∈ full_keys ↔ isRuntimeKey k = true ∧ k ≠ Undefined) ∧
  (∀ k, isRuntimeKey k = true → k ≠ Undefined → k ∈ refreshed k).
Proof.
  split; [by vm_compute|]. split.
  - intros k. assert (forallb (λ k, Bool.eqb (bool_decide (k ∈ full_keys))
      (isRuntimeKey k && negb (bool_decide (k = Undefined)))) all_dispatch_keys = true) as Hc
      by (vm_compute; reflexivity).
    apply all_keys_check with (k := k) in Hc. apply Bool.eqb_prop in Hc.
    split.
    + intros Hin. rewrite bool_decide_eq_true_2 in Hc by done. symmetry in Hc.
      by rewrite andb_true_iff, negb_true_iff, bool_decide_eq_false in Hc.
    + intros [Hr Hu]. rewrite Hr, (bool_decide_eq_false_2 _ Hu) in Hc. by apply bool_decide_eq_true in Hc.
  - intros k Hk Hu. assert (forallb (λ k, negb (isRuntimeKey k) || bool_decide (k = Undefined) ||
      bool_decide (k ∈ refreshed k)) all_dispatch_keys = true) as Hc by (vm_compute; reflexivity).
    apply all_keys_check with (k := k) in Hc. rewrite Hk, (bool_decide_eq_false_2 _ Hu) in Hc.
    by apply bool_decide_eq_true in Hc.
Qed.

#[global] Opaque full_keys allDispatchKeysInFullSet.

Lemma set_fallthrough_Undefined `{OperatorTypes} x v : extractor_ok x →
  setOperatorHasFallthroughForKey Undefined v x = Ok x.
Proof.
  intros Hx. unfold setOperatorHasFallthroughForKey. cbn [toFunctionalityKey].
  change (isPerBackendFunctionalityKey (toFunctionalityKey Undefined)) with false. cbn iota.
  rewrite update_key_Undefined by apply Hx.
  assert (map (update_key v Undefined) (nonFallthroughKeysPerBackend_ x) = nonFallthroughKeysPerBackend_ x) as ->.
  { pose proof (ok_sets x Hx) as Hs. induction Hs as [|s l Hs Hl IH]; [done|].
    cbn [map]. by rewrite update_key_Undefined, IH. }
  by destruct x.
Qed.

Section Updates.
Context `{OperatorTypes}.

(** The entry of a key in the table. *)
Definition slot (e : OperatorEntry) (k : DispatchKey) : KernelFunction :=
  default no_kernel (dispatchTable_ e !! Z.to_nat (getDispatchTableIndexForDispatchKey k)).

(** Everything but the table and the flags. *)
Definition same_kernels (e e' : OperatorEntry) : Prop :=
  name_ e' = name_ e ∧ schema_ e' = schema_ e ∧ tags_ e' = tags_ e ∧ kernels_ e' = kernels_ e ∧
  next_node e' = next_node e ∧ cpp_signature_ e' = cpp_signature_ e ∧
  sym_cpp_signature_ e' = sym_cpp_signature_ e ∧ is_observed_ e' = is_observed_ e ∧
  dispatch_arg_indices_reverse_ (dispatchKeyExtractor_ e')
  = dispatch_arg_indices_reverse_ (dispatchKeyExtractor_ e).

Lemma same_kernels_refl e : same_kernels e e.
Proof. by repeat split. Qed.
Lemma same_kernels_trans e1 e2 e3 : same_kernels e1 e2 → same_kernels e2 e3 → same_kernels e1 e3.
Proof. unfold same_kernels. intuition congruence. Qed.

Lemma same_kernels_newest e e' : same_kernels e e' → newest e' = newest e.
Proof. intros (_ & _ & _ & E & _). unfold newest. by rewrite E. Qed.

(** The slots of [ks] are recomputed and the others kept. *)
Definition recomputed (fallbacks : list AnnotatedKernel) (ks : list DispatchKey) (e e' : OperatorEntry) : Prop :=
  entry_ok e' ∧ same_kernels e e' ∧
  ∀ k, isRuntimeKey k = true →
    slot e' k = if decide (k ∈ ks) then kernel (chosen fallbacks (newest e) k) else slot e k.

Lemma recomputed_nil fallbacks e : entry_ok e → recomputed fallbacks [] e e.
Proof.
  intros He. split; [done|]. split; [apply same_kernels_refl|]. intros k Hk.
  by rewrite decide_False by apply not_elem_of_nil.
Qed.

Lemma recomputed_app fallbacks ks1 ks2 e e1 e2 :
  recomputed fallbacks ks1 e e1 → recomputed fallbacks ks2 e1 e2 → recomputed fallbacks (ks1 ++ ks2) e e2.
Proof.
  intros (Hok1 & Hs1 & Hslot1) (Hok2 & Hs2 & Hslot2). split; [done|]. split; [by eapply same_kernels_trans|].
  intros k Hk. rewrite Hslot2, Hslot1 by done. rewrite (same_kernels_newest e e1) by done.
  destruct (decide (k ∈ ks2)) as [H2|H2].
  - rewrite decide_True; [done|]. apply elem_of_app. by right.
  - destruct (decide (k ∈ ks1)) as [H1|H1].
    + rewrite decide_True; [done|]. apply elem_of_app. by left.
    + rewrite decide_False; [done|]. rewrite elem_of_app. tauto.
Qed.

Context (fallbacks : list AnnotatedKernel) (Hfb : length fallbacks = Z.to_nat num_runtime_entries).

Lemma updateEntry_spec k e : entry_ok e → isRuntimeKey k = true →
  wp (updateDispatchTableEntry_ fallbacks k) (λ _, recomputed fallbacks [k] e) e.
Proof.
  intros He Hk. pose proof (slot_range k Hk) as Hr. pose proof (ok_table e He) as Hlen.
  unfold updateDispatchTableEntry_. rewrite (proj2 (Z.eqb_neq _ _)) by lia.
  apply wp_bind, wp_reads, wp_bind, wp_lift. cbn [id]. rewrite compute_chosen by done. eexists. split; [done|].
  set (f := kernel (chosen fallbacks (newest e) k)). set (ix := Z.to_nat (getDispatchTableIndexForDispatchKey k)).
  apply wp_bind, wp_modify, wp_bind, wp_lift.
  assert (∃ x', setOperatorHasFallthroughForKey k (isFallthrough f) (dispatchKeyExtractor_ e) = Ok x' ∧
    dispatch_arg_indices_reverse_ x' = dispatch_arg_indices_reverse_ (dispatchKeyExtractor_ e) ∧
    extractor_ok x' ∧ ∀ k', isRuntimeKey k' = true → k' ≠ Undefined →
      falls_through x' k' = if decide (k' = k) then isFallthrough f else falls_through (dispatchKeyExtractor_ e) k')
    as (x' & E & Ha & Hx' & Hfl).
  { destruct (decide (k = Undefined)) as [->|Hu].
    - exists (dispatchKeyExtractor_ e). rewrite set_fallthrough_Undefined by apply He.
      split; [done|]. split; [done|]. split; [apply He|]. intros k' _ Hu'. by rewrite decide_False.
    - by apply set_fallthrough_spec; [apply He|..]. }
  exists x'. split; [exact E|]. apply wp_modify.
  assert (∀ k', isRuntimeKey k' = true →
    <[ix := f]> (dispatchTable_ e) !! Z.to_nat (getDispatchTableIndexForDispatchKey k')
    = if decide (k' = k) then Some f
      else dispatchTable_ e !! Z.to_nat (getDispatchTableIndexForDispatchKey k')) as Hlk.
  { intros k' Hk'. destruct (decide (k' = k)) as [->|Hne].
    - apply list_lookup_insert_eq. unfold ix. lia.
    - apply list_lookup_insert_ne. intros Ei. apply Hne, slot_inj; [done..|].
      pose proof (slot_range k' Hk'). unfold ix in Ei. lia. }
  split; [split; cbn|split].
  - apply He.
  - by rewrite length_insert.
  - done.
  - intros k' f' Hk' Hu' Hf'. rewrite Hfl by done. rewrite Hlk in Hf' by done.
    destruct (decide (k' = k)); [congruence|]. by apply (ok_flags e He).
  - by repeat split.
  - intros k' Hk'. unfold slot at 1. cbn. rewrite Hlk by done. unfold slot.
    destruct (decide (k' = k)) as [->|Hne].
    + rewrite decide_True by (by left). done.
    + by rewrite decide_False by (by rewrite list_elem_of_singleton).
Qed.

Lemma update_entries_spec ks : ∀ e, entry_ok e → Forall (λ k, isRuntimeKey k = true) ks →
  wp (update_entries fallbacks ks) (λ _, recomputed fallbacks ks e) e.
Proof.
  induction ks as [|k ks IH]; intros e He Hks; cbn [update_entries].
  - apply wp_ret. by apply recomputed_nil.
  - apply Forall_cons in Hks as [Hk Hks]. apply wp_bind. eapply wp_mono; [by apply updateEntry_spec|].
    intros [] e1 _ H1. eapply wp_mono; [apply IH; [apply H1|done]|].
    intros [] e2 _ H2. change (k :: ks) with ([k] ++ ks). by eapply recomputed_app.
Qed.

Lemma update_if_spec (b : bool) k e : entry_ok e → (b = true → isRuntimeKey k = true) →
  wp (if b then updateDispatchTableEntry_ fallbacks k else mret tt)
     (λ _, recomputed fallbacks (if b then [k] else []) e) e.
Proof.
  intros He Hk. destruct b; [by apply updateEntry_spec; auto|]. by apply wp_ret, recomputed_nil.
Qed.

Lemma updateDispatchTable_spec d e : entry_ok e → registrable d = true ∨ d = Undefined →
  wp (updateDispatchTable_ fallbacks d) (λ _, recomputed fallbacks (refreshed d) e) e.
Proof.
  intros He [Hd| ->]; [|by apply updateEntry_spec].
  destruct (refreshed_check d Hd) as [E Hr]. unfold updateDispatchTable_, refreshed in *.
  assert (dk_eqb d Undefined = false) as Hu.
  { destruct (dk_eqb d Undefined) eqn:Eu; [|done]. apply dk_eqb_eq in Eu. subst. done. }
  rewrite Hu in *. apply bind_Ok in E as (s & Es & Ei). rewrite !Forall_app in Hr. destruct Hr as (Hr1 & Hr2 & Hr3).
  apply wp_bind, wp_lift. exists s. split; [done|]. apply wp_bind, wp_lift. eexists. split; [exact Ei|].
  apply wp_bind. eapply wp_mono; [by apply update_entries_spec|]. intros [] e1 _ H1.
  apply wp_bind. eapply wp_mono; [apply update_if_spec; [apply H1|done]|]. intros [] e2 _ H2.
  eapply wp_mono; [apply update_if_spec; [apply H2|]|].
  { intros Hb. rewrite Hb in Hr3. by apply Forall_cons in Hr3 as [? _]. }
  intros [] e3 _ H3. eapply recomputed_app; [done|]. by eapply recomputed_app.
Qed.

Lemma update_tables_spec ks : ∀ e, entry_ok e → Forall (λ k, registrable k = true) ks →
  wp (update_tables fallbacks ks) (λ _, recomputed fallbacks (concat (map refreshed ks)) e) e.
Proof.
  induction ks as [|k ks IH]; intros e He Hks; cbn [update_tables map concat].
  - apply wp_ret. by apply recomputed_nil.
  - apply Forall_cons in Hks as [Hk Hks]. apply wp_bind.
    eapply wp_mono; [by apply updateDispatchTable_spec; [|left]|].
    intros [] e1 _ H1. eapply wp_mono; [apply IH; [apply H1|done]|].
    intros [] e2 _ H2. by eapply recomputed_app.
Qed.

(** The full update recomputes every slot. *)
Lemma updateDispatchTableFull_spec e : entry_ok e →
  wp (updateDispatchTableFull_ fallbacks) (λ _ e', entry_ok e' ∧ same_kernels e e' ∧
    ∀ k, isRuntimeKey k = true → slot e' k = kernel (chosen fallbacks (newest e) k)) e.
Proof.
  intros He. destruct full_keys_check as (E & Hin & Hself). unfold updateDispatchTableFull_.
  apply wp_bind. eapply wp_mono; [by apply updateDispatchTable_spec; [|right]|]. intros [] e1 _ H1.
  rewrite wp_bind, wp_lift. exists full_keys. split; [exact E|clear E].
  eapply wp_mono; [apply update_tables_spec; [apply H1|]|].
  { apply Forall_forall. intros k [Hk Hu]%Hin. by apply registrable_runtime. }
  intros [] e2 _ H2. destruct (recomputed_app _ _ _ _ _ _ H1 H2) as (Hok & Hs & Hslot).
  split; [done|]. split; [done|]. intros k Hk. rewrite Hslot by done. rewrite decide_True; [done|].
  apply elem_of_app. destruct (decide (k = Undefined)) as [->|Hu]; [left|right].
  - by left.
  - apply elem_of_concat. exists (refreshed k). split; [by apply Hself|].
    apply list_elem_of_fmap_2. by apply Hin.
Qed.
End Updates.
