(* ===== verification/OperatorConstruction.v ===== *)
(** * New operators.

    The constructor of OperatorEntry.v: its table holds the fallbacks
    registered so far. *)

From stdpp Require Import gmap strings.
From S2P Require Import Prelude SafeNum BitMath DispatchKey DispatchKeySet OperatorSchema DispatchKeyExtractor.
From S2P Require Import FallthroughKeys OperatorEntry OperatorTable OperatorUpdate.

(** ** The keys of the slots. *)
Definition index_to_key : list DispatchKey :=
  match getDispatchTableIndexToKey with Ok arr => arr | Throw _ => [] end.

Lemma index_to_key_Ok : getDispatchTableIndexToKey = Ok index_to_key.
Proof. by vm_compute. Qed.

Lemma index_to_key_check :
  length index_to_key = Z.to_nat num_runtime_entries ∧
  (∀ k, isRuntimeKey k = true → index_to_key !! Z.to_nat (getDispatchTableIndexForDispatchKey k) = Some k) ∧
  Forall (λ k, isRuntimeKey k = true) index_to_key ∧ NoDup index_to_key.
Proof.
  split; [by vm_compute|]. split_and!.
  - intros k Hk. assert (forallb (λ k, negb (isRuntimeKey k) ||
      match index_to_key !! Z.to_nat (getDispatchTableIndexForDispatchKey k) with
      | Some k' => dk_eqb k' k | None => false end) all_dispatch_keys = true) as Hc by (vm_compute; reflexivity).
    apply all_keys_check with (k := k) in Hc. rewrite Hk in Hc. cbn [negb orb] in Hc.
    destruct (index_to_key !! _) as [k'|]; [|done]. f_equal. by apply dk_eqb_eq.
  - apply List.Forall_forall. rewrite <- forallb_forall. by vm_compute.
  - apply (bool_decide_unpack _). by vm_compute.
Qed.
#[global] Opaque index_to_key getDispatchTableIndexToKey.

Section Operations.
Context `{OperatorTypes}.

Definition coherent_at (fallbacks : list AnnotatedKernel) (e : OperatorEntry) (k : DispatchKey) : Prop :=
  slot e k = kernel (chosen fallbacks (newest e) k).

Lemma chosen_None fallbacks F k : (∀ d, F d = None) → chosen fallbacks F k = from_fallback fallbacks k.
Proof.
  intros HF. assert (∀ u a, from_alias F u k a = None) as Ha by (intros; unfold from_alias; by case_match).
  unfold chosen, from_implicit. by rewrite HF, !Ha.
Qed.

(** ** A new operator. *)
Definition valid_or_none (b : AnnotatedKernel) : KernelFunction :=
  if isValid (kernel b) then kernel b else no_kernel.

Lemma fill_table_spec fallbacks : ∀ keys x,
  length fallbacks = length keys → Forall (λ k, isRuntimeKey k = true) keys → NoDup keys → extractor_ok x →
  (∀ k, k ∈ keys → k ≠ Undefined → falls_through x k = false) →
  ∃ x', fill_table fallbacks keys x = Ok (map valid_or_none fallbacks, x') ∧ extractor_ok x' ∧
    dispatch_arg_indices_reverse_ x' = dispatch_arg_indices_reverse_ x ∧
    (∀ k, isRuntimeKey k = true → k ≠ Undefined → k ∉ keys → falls_through x' k = falls_through x k) ∧
    (∀ i b k, fallbacks !! i = Some b → keys !! i = Some k → k ≠ Undefined →
       falls_through x' k = isFallthrough (valid_or_none b)).
Proof.
  induction fallbacks as [|b fallbacks IH]; intros [|k keys] x Hl Hr Hn Hx Hf; try done.
  { exists x. split_and!; try done. }
  apply Forall_cons in Hr as [Hk Hr]. apply NoDup_cons in Hn as [Hnk Hn]. injection Hl as Hl.
  assert (∃ x1, (if isValid (kernel b) && isFallthrough (kernel b)
                 then setOperatorHasFallthroughForKey k true x else Ok x) = Ok x1 ∧ extractor_ok x1 ∧
    dispatch_arg_indices_reverse_ x1 = dispatch_arg_indices_reverse_ x ∧
    (k ≠ Undefined → falls_through x1 k = isFallthrough (valid_or_none b)) ∧
    (∀ k', isRuntimeKey k' = true → k' ≠ Undefined → k' ≠ k → falls_through x1 k' = falls_through x k'))
    as (x1 & E1 & Hx1 & Ha1 & Hfk & Hfo).
  { unfold valid_or_none. destruct (isValid (kernel b)) eqn:Ev; cbn [andb].
    - destruct (isFallthrough (kernel b)) eqn:Ef.
      + destruct (decide (k = Undefined)) as [->|Hu].
        * exists x. rewrite set_fallthrough_Undefined by done. split_and!; done.
        * destruct (set_fallthrough_spec x k true Hx Hk Hu) as (x1 & E1 & Ha & Hx1 & Hf1).
          exists x1. split_and!; try done.
          -- intros _. rewrite Hf1 by done. by rewrite decide_True.
          -- intros k' Hk' Hu' Hne. rewrite Hf1 by done. by rewrite decide_False.
      + exists x. split_and!; try done. intros Hu. apply Hf; [by left|done].
    - exists x. split_and!; try done. intros Hu. rewrite Hf; [done|by left|done]. }
  destruct (IH keys x1 Hl Hr Hn Hx1) as (x2 & E2 & Hx2 & Ha2 & Ho2 & Hi2).
  { intros k' Hin Hu. rewrite Hfo; [apply Hf; [by right|done]| |done|by intros ->].
    by eapply (proj1 (Forall_forall _ _)) in Hr. }
  exists x2. split_and!; try done.
  - cbn [fill_table map]. unfold valid_or_none at 1.
    destruct (isValid (kernel b)); cbn [andb] in E1.
    + rewrite E1. cbn [mbind result_bind]. by rewrite E2.
    + injection E1 as ->. by rewrite E2.
  - congruence.
  - intros k' Hk' Hu' Hnin. rewrite elem_of_cons in Hnin.
    rewrite Ho2 by (try done; intros ?; apply Hnin; by right).
    by apply Hfo; try done; intros ->; apply Hnin; left.
  - intros [|i] b' k' Hb' Hkk' Hu'; cbn in Hb', Hkk'.
    + injection Hb' as ->. injection Hkk' as ->. rewrite Ho2 by done. by apply Hfk.
    + by eapply Hi2.
Qed.

Lemma new_OperatorEntry_spec fallbacks name : length fallbacks = Z.to_nat num_runtime_entries →
  ∃ e, new_OperatorEntry fallbacks name = Ok e ∧ entry_ok e ∧ name_ e = name ∧ kernels_ e = ∅ ∧
    schema_ e = None ∧ dispatch_arg_indices_reverse_ (dispatchKeyExtractor_ e) = 0 ∧
    ∀ k, isRuntimeKey k = true → coherent_at fallbacks e k.
Proof.
  intros Hl. destruct index_to_key_check as (Hlen & Hix & Hr & Hn).
  destruct (fill_table_spec fallbacks index_to_key makeUninitialized) as (x & Ex & Hx & Ha & _ & Hi).
  - rewrite Hlen. exact Hl.
  - exact Hr.
  - exact Hn.
  - apply new_extractor_ok.
  - intros k Hk Hu. apply new_extractor_falls; [|exact Hu]. exact (proj1 (Forall_forall _ _) Hr k Hk).
  - assert (∀ k, isRuntimeKey k = true → ∃ b,
      fallbacks !! Z.to_nat (getDispatchTableIndexForDispatchKey k) = Some b) as Hfb.
    { intros k Hk. pose proof (slot_range k Hk). apply lookup_lt_is_Some_2. lia. }
    eexists. unfold new_OperatorEntry. rewrite index_to_key_Ok. cbn [mbind result_bind]. rewrite Ex.
    cbn [mbind result_bind fst snd]. split; [reflexivity|]. clear Ex. split_and!; try reflexivity.
    + split; cbn.
      * intros d l Hd. by rewrite lookup_empty in Hd.
      * by rewrite length_map.
      * done.
      * intros k f Hk Hu Hf. rewrite list_lookup_fmap in Hf. destruct (Hfb k Hk) as [b Hb].
        rewrite Hb in Hf. injection Hf as <-. eapply Hi; [exact Hb|by apply Hix|done].
    + exact Ha.
    + intros k Hk. unfold coherent_at, slot. cbn. rewrite list_lookup_fmap.
      destruct (Hfb k Hk) as [b Hb]. rewrite Hb. cbn.
      assert (chosen fallbacks (newest (mkEntry name None [] (map valid_or_none fallbacks) x ∅ 1%positive None None
        (isObserved name))) k = from_fallback fallbacks k) as ->.
      { apply chosen_None. intros d. unfold newest. cbn [kernels_]. by rewrite lookup_empty. }
      unfold from_fallback. rewrite Hb. unfold valid_or_none. by destruct (isValid (kernel b)).
Qed.
End Operations.
