(* ===== verification/OperatorRegistration.v ===== *)
(** * Registration with an operator.

    Kernels, fallbacks and schemas that come and go: what each operation of
    OperatorEntry.v does to the kernels, the table and the flags, and which
    slots of the table it keeps coherent. *)

From stdpp Require Import gmap strings.
From S2P Require Import Prelude SafeNum BitMath DispatchKey DispatchKeySet OperatorSchema DispatchKeyExtractor.
From S2P Require Import FallthroughKeys OperatorEntry OperatorTable OperatorUpdate OperatorConstruction.

Section Registration.
Context `{OperatorTypes}.
Context (fallbacks : list AnnotatedKernel) (Hfb : length fallbacks = Z.to_nat num_runtime_entries).

(** ** Kernels of one key change. *)
(** [e'] is [e] with other kernels for [d], and the slots of [ks] recomputed. *)
Definition changed_kernels (d : DispatchKey) (ks : list DispatchKey) (e e' : OperatorEntry) : Prop :=
  entry_ok e' ∧ name_ e' = name_ e ∧ schema_ e' = schema_ e ∧
  dispatch_arg_indices_reverse_ (dispatchKeyExtractor_ e')
  = dispatch_arg_indices_reverse_ (dispatchKeyExtractor_ e) ∧
  (∀ d', d' ≠ d → kernels_ e' !! d' = kernels_ e !! d') ∧
  ∀ k, isRuntimeKey k = true →
    slot e' k = if decide (k ∈ ks) then kernel (chosen fallbacks (newest e') k) else slot e k.

Lemma changed_newest d ks e e' d' : changed_kernels d ks e e' → d' ≠ d → newest e' d' = newest e d'.
Proof. intros (_ & _ & _ & _ & Hd & _) Hne. unfold newest. by rewrite Hd. Qed.

(** An update keeps a slot coherent when it refreshes it or the slot does not
    consult the key. *)
Definition settles (e : OperatorEntry) (d k : DispatchKey) : bool :=
  negb (consults (bool_decide (is_Some (newest e CompositeImplicitAutograd))) d k) ||
  bool_decide (k ∈ refreshed d).

Lemma changed_coherent d e e' k : changed_kernels d (refreshed d) e e' → isRuntimeKey k = true →
  settles e d k = true → coherent_at fallbacks e k → coherent_at fallbacks e' k.
Proof.
  intros (_ & _ & _ & _ & Hd & Hslot) Hk Hs Hco. unfold coherent_at. rewrite Hslot by done.
  destruct (decide (k ∈ refreshed d)) as [|Hnr]; [done|].
  unfold settles in Hs. rewrite (bool_decide_eq_false_2 _ Hnr), orb_false_r, negb_true_iff in Hs.
  rewrite Hco. f_equal. eapply chosen_ext; [|exact Hs|].
  - intros d' Hd'. unfold newest. by rewrite Hd.
  - intros Hi. by apply bool_decide_eq_true.
Qed.

(** ** Registering and deregistering a kernel. *)
Lemma entry_ok_kernels e ks n :
  entry_ok e →
  (∀ d l, ks !! d = Some l → registrable d = true ∧ l ≠ [] ∧
     Forall (λ p, isValid (kernel p.2) = true ∧ (p.1 < n)%positive) l ∧
     StronglySorted (λ a b, (b < a)%positive) (map fst l)) →
  entry_ok (set_kernels ks n e).
Proof. intros [] Hk. split; done. Qed.

Lemma slot_set_kernels ks n e k : slot (set_kernels ks n e) k = slot e k.
Proof. done. Qed.

Definition only_signatures (e e' : OperatorEntry) : Prop := ∃ c s, e' = set_signatures c s e.

Lemma check_signature_spec dk k sig debug e :
  wpx (check_signature dk k sig debug) (λ _, only_signatures e) (λ _ e', e' = e) e.
Proof.
  unfold check_signature. assert (only_signatures e e) as Hself
    by (exists (cpp_signature_ e), (sym_cpp_signature_ e); by destruct e).
  destruct sig as [sig|]; [|done]. apply wpx_bind. unfold wpx at 1. cbn [reads].
  cbn [id]. destruct (if isValidSymUnboxed k then _ else _) as [l|].
  - unfold wpx, lift, TORCH_CHECK. by case_match.
  - unfold wpx, modify. case_match; by eexists _, _.
Qed.

Lemma registerKernel_spec dk k sig inf debug e :
  entry_ok e → isValid k = true → (∀ d, dk = Some d → registrable d = true) →
  let d := default CompositeImplicitAutograd dk in
  wpx (registerKernel fallbacks dk k sig inf debug)
    (λ node e', changed_kernels d (match dk with Some d => refreshed d | None => Undefined :: full_keys end) e e' ∧
       node = next_node e ∧ next_node e' = Pos.succ node ∧
       kernels_ e' !! d = Some ((node, mkAnnotatedKernel k inf debug) :: default [] (kernels_ e !! d)))
    (λ _, only_signatures e) e.
Proof.
  intros He Hv Hdk d. unfold registerKernel. apply wpx_bind.
  eapply wpx_mono; [apply check_signature_spec| |].
  2: { intros ? ? ->. exists (cpp_signature_ e), (sym_cpp_signature_ e). by destruct e. }
  intros [] e1 (c & s & ->). set (e1 := set_signatures c s e).
  apply wpx_bind. unfold wpx at 1. cbn [reads]. apply wpx_bind. unfold wpx at 1. cbn [lift].
  destruct (match schema_ e1 with Some s => _ | None => _ end) as [[]|]; [|by exists c, s].
  apply wpx_bind, wpx_wp. apply wp_bind, wp_reads, wp_bind, wp_modify, wp_ret. cbn [id].
  set (l := (next_node e1, mkAnnotatedKernel k inf debug) :: default [] (kernels_ e1 !! d)).
  set (e2 := set_kernels (<[d := l]> (kernels_ e1)) (Pos.succ (next_node e1)) e1).
  assert (registrable d = true) as Hd by (unfold d; destruct dk; cbn; [by apply Hdk|done]).
  assert (entry_ok e2) as He2.
  { assert (entry_ok e1) as He1 by (destruct He; by split). apply entry_ok_kernels; [done|].
    intros d' l' Hl'. rewrite lookup_insert in Hl'. destruct (decide (d = d')) as [<-|].
    - injection Hl' as <-. split; [done|]. split; [done|].
      assert (Forall (λ p, isValid (kernel p.2) = true ∧ (p.1 < next_node e1)%positive)
        (default [] (kernels_ e1 !! d)) ∧
        StronglySorted (λ a b, (b < a)%positive) (map fst (default [] (kernels_ e1 !! d)))) as [Hf Hn].
      { destruct (kernels_ e1 !! d) as [l0|] eqn:E; cbn.
        - by destruct (ok_kernels e1 He1 _ _ E) as (_ & _ & ? & ?).
        - split; constructor. }
      split.
      + constructor; [cbn; split; [done|lia]|]. eapply Forall_impl; [exact Hf|].
        intros p [? ?]. split; [done|lia].
      + cbn. constructor; [done|]. apply Forall_fmap. eapply Forall_impl; [exact Hf|].
        intros p [_ Hlt]. exact Hlt.
    - destruct (ok_kernels e1 He1 _ _ Hl') as (? & ? & Hf & ?). split_and!; try done.
      eapply Forall_impl; [exact Hf|]. intros p [? ?]. split; [done|lia]. }
  assert (∀ e3, same_kernels e2 e3 → entry_ok e3 →
    (∀ ks, (∀ k', isRuntimeKey k' = true → slot e3 k' = if decide (k' ∈ ks)
       then kernel (chosen fallbacks (newest e2) k') else slot e2 k') → changed_kernels d ks e e3) ∧
    next_node e3 = Pos.succ (next_node e) ∧ kernels_ e3 !! d = Some l) as Hfin.
  { intros e3 Hs Hok. pose proof (same_kernels_newest _ _ Hs) as En.
    destruct Hs as (E1 & E2 & E3 & E4 & E5 & E6 & E7 & E8 & E9). split; [|split].
    - intros ks Hslot. split_and!; try done.
      + intros d' Hne. rewrite E4. cbn. by rewrite lookup_insert_ne.
      + intros k' Hk'. rewrite Hslot, En by done. done.
    - by rewrite E5.
    - rewrite E4. cbn. by rewrite lookup_insert_eq. }
  apply wpx_bind_wp. destruct dk as [d'|].
  - eapply wp_mono; [by apply updateDispatchTable_spec; [| |left]|]. intros [] e3 _ (Hok & Hs & Hslot).
    destruct (Hfin e3 Hs Hok) as (Hc & Hn & Hl). unfold wpx. cbn. by split_and!; [apply Hc|..].
  - eapply wp_mono; [by apply updateDispatchTableFull_spec|]. intros [] e3 _ (Hok & Hs & Hslot).
    destruct (Hfin e3 Hs Hok) as (Hc & Hn & Hl). unfold wpx. cbn [mret method_ret]. split; [|done].
    apply Hc. intros k' Hk'. rewrite Hslot by done. rewrite decide_True; [done|].
    destruct full_keys_check as (_ & Hin & _). apply elem_of_cons.
    destruct (decide (k' = Undefined)) as [->|]; [by left|right]. by apply Hin.
Qed.

Lemma erase_node_spec node l : node ∈ map fst l → erase_node node l = Ok (filter (λ p, p.1 ≠ node) l).
Proof. intros Hn. unfold erase_node. by rewrite decide_True. Qed.

Lemma sorted_fst_filter {A} (node : positive) (l : list (positive * A)) :
  StronglySorted (λ a b, (b < a)%positive) (map fst l) →
  StronglySorted (λ a b, (b < a)%positive) (map fst (filter (λ p, p.1 ≠ node) l)).
Proof.
  induction l as [|p l IH]; [done|]. cbn [map]. intros [Hs Hf]%StronglySorted_inv.
  destruct (decide (p.1 ≠ node)) as [Hp|Hp].
  - rewrite filter_cons_True by done. cbn [map]. constructor; [by apply IH|].
    apply Forall_fmap. apply (proj1 (Forall_fmap _ _ _)) in Hf. apply Forall_forall.
    intros q [_ Hq]%list_elem_of_filter. by rewrite Forall_forall in Hf; apply Hf.
  - rewrite filter_cons_False by done. by apply IH.
Qed.

Lemma deregisterKernel_spec dk node l e :
  let d := default CompositeImplicitAutograd dk in
  entry_ok e → kernels_ e !! d = Some l → node ∈ map fst l →
  wp (deregisterKernel_ fallbacks dk node)
    (λ _ e', changed_kernels d (refreshed d) e e' ∧ next_node e' = next_node e ∧
       kernels_ e' !! d = (let l' := filter (λ p, p.1 ≠ node) l in if decide (l' = []) then None else Some l')) e.
Proof.
  intros d He Hl Hnode. unfold deregisterKernel_. fold d. apply wp_bind, wp_reads. cbn [id]. rewrite Hl.
  apply wp_bind, wp_lift. rewrite erase_node_spec by done. eexists. split; [done|].
  set (l' := filter (λ p, p.1 ≠ node) l). apply wp_bind, wp_modify.
  set (ks := if decide (l' = []) then delete d (kernels_ e) else <[d := l']> (kernels_ e)).
  assert (∀ d', ks !! d' = if decide (d' = d) then (if decide (l' = []) then None else Some l')
                           else kernels_ e !! d') as Hks.
  { intros d'. unfold ks. destruct (decide (d' = d)) as [->|Hne]; destruct (decide (l' = [])).
    - by rewrite lookup_delete_eq.
    - by rewrite lookup_insert_eq.
    - by rewrite lookup_delete_ne.
    - by rewrite lookup_insert_ne. }
  destruct (ok_kernels e He _ _ Hl) as (Hd & _ & Hf & Hn).
  assert (entry_ok (set_kernels ks (next_node e) e)) as He2.
  { apply entry_ok_kernels; [done|]. intros d' l0. rewrite Hks.
    destruct (decide (d' = d)) as [->|]; [|by apply (ok_kernels e He)].
    destruct (decide (l' = [])) as [|Hne]; [done|]. intros [= <-]. split_and!; [done|done| |].
    - apply Forall_forall. intros p [_ Hp]%list_elem_of_filter. by rewrite Forall_forall in Hf; apply Hf.
    - by apply sorted_fst_filter. }
  eapply wp_mono; [by apply updateDispatchTable_spec; [| |left]|].
  intros [] e3 _ (Hok & Hs & Hslot). pose proof (same_kernels_newest _ _ Hs) as En.
  destruct Hs as (E1 & E2 & E3 & E4 & E5 & E6 & E7 & E8 & E9). cbn in E4, E5. split; [|split].
  - split_and!; try done.
    + intros d' Hne. rewrite E4, Hks. by rewrite decide_False.
    + intros k' Hk'. by rewrite Hslot, En.
  - done.
  - rewrite E4, Hks. by rewrite decide_True.
Qed.

(** ** A fallback changes. *)
Lemma refreshed_self k : isRuntimeKey k = true → k ∈ refreshed k.
Proof.
  intros Hk. destruct (decide (k = Undefined)) as [->|Hu]; [by left|].
  destruct full_keys_check as (_ & _ & Hself). by apply Hself.
Qed.

Lemma chosen_fallback fallbacks1 fallbacks2 F k : 
  from_fallback fallbacks1 k = from_fallback fallbacks2 k → chosen fallbacks1 F k = chosen fallbacks2 F k.
Proof. unfold chosen. by intros ->. Qed.

Lemma updateFallback_spec k b e :
  let fallbacks' := <[Z.to_nat (getDispatchTableIndexForDispatchKey k) := b]> fallbacks in
  entry_ok e → isRuntimeKey k = true →
  wp (updateFallback fallbacks' k)
    (λ _ e', entry_ok e' ∧ same_kernels e e' ∧
       ∀ k', isRuntimeKey k' = true → coherent_at fallbacks e k' → coherent_at fallbacks' e' k') e.
Proof.
  intros fallbacks' He Hk. unfold updateFallback.
  assert (registrable k = true ∨ k = Undefined) as Hr.
  { destruct (decide (k = Undefined)); [by right|left; by apply registrable_runtime]. }
  eapply wp_mono; [apply (updateDispatchTable_spec fallbacks'); [by unfold fallbacks'; rewrite length_insert|done|done]|].
  intros [] e' _ (Hok & Hs & Hslot). split; [done|]. split; [done|]. intros k' Hk' Hco.
  unfold coherent_at. rewrite Hslot by done. rewrite (same_kernels_newest _ _ Hs).
  destruct (decide (k' ∈ refreshed k)) as [|Hnin]; [done|]. rewrite Hco. f_equal.
  apply chosen_fallback. unfold from_fallback, fallbacks'. rewrite list_lookup_insert_ne; [done|].
  intros Ei. pose proof (slot_range k Hk). pose proof (slot_range k' Hk').
  assert (k = k') as -> by (apply slot_inj; [done..|lia]). by apply Hnin, refreshed_self.
Qed.

(** ** Schemas. *)
Definition same_dispatch (e e' : OperatorEntry) : Prop :=
  name_ e' = name_ e ∧ kernels_ e' = kernels_ e ∧ next_node e' = next_node e ∧
  dispatchTable_ e' = dispatchTable_ e.

Lemma same_dispatch_coherent e e' k : same_dispatch e e' → coherent_at fallbacks e k → coherent_at fallbacks e' k.
Proof. intros (_ & E1 & _ & E2). unfold coherent_at, slot, newest. by rewrite E1, E2. Qed.

Lemma extractor_ok_args b x : extractor_ok x → extractor_ok (set_dispatch_args b x).
Proof. intros []. by split. Qed.

Lemma entry_ok_extractor b s ts e : entry_ok e →
  entry_ok (set_schema s ts (set_extractor (set_dispatch_args b (dispatchKeyExtractor_ e)) e)).
Proof. intros [? ? Hx Hf]. split; try done; cbn. by apply extractor_ok_args. Qed.

Lemma registerSchema_spec s debug tags e : entry_ok e →
  wpx (registerSchema s debug tags)
    (λ _ e', entry_ok e' ∧ same_dispatch e e' ∧ schema_ e = None ∧
       schema_ e' = Some (mkAnnotatedSchema s debug))
    (λ _ e', e' = e) e.
Proof.
  intros He. unfold registerSchema, wpx, mbind, method_bind, reads, lift, modify, TORCH_INTERNAL_ASSERT. cbn [id].
  destruct (schema_ e) as [s0|] eqn:Es; cbn; [done|].
  destruct (check_kernels s (all_kernels e)) as [[]|]; [|done].
  destruct (extractor_registerSchema s (dispatchKeyExtractor_ e)) as [x|] eqn:Ex; [|done].
  unfold extractor_registerSchema in Ex. apply bind_Ok in Ex as (u & _ & Ex).
  apply bind_Ok in Ex as (b & _ & [= <-]). split; [by apply entry_ok_extractor|]. by repeat split.
Qed.

Lemma deregisterSchema_spec e : entry_ok e →
  wpx deregisterSchema
    (λ _ e', entry_ok e' ∧ same_dispatch e e' ∧ is_Some (schema_ e) ∧ schema_ e' = None)
    (λ _ e', e' = e) e.
Proof.
  intros He. unfold deregisterSchema, wpx, mbind, method_bind, reads, lift, modify, TORCH_INTERNAL_ASSERT. cbn [id].
  destruct (schema_ e) as [s0|] eqn:Es; cbn; [|done].
  split; [|by repeat split].
  pose proof (entry_ok_extractor 0 None (tags_ e) e He) as Hok. destruct Hok. by split.
Qed.
End Registration.
