(* ===== verification/Dispatcher.v ===== *)
(** * The dispatcher.

    aten/src/ATen/core/dispatch/Dispatcher.{h,cpp}: the registry of operators,
    the registrations of definitions, implementations, names, fallbacks,
    libraries and listeners with the handles that undo them, and the choice of
    the kernel of a call.  Every operation holds the dispatcher's mutex, so
    they are methods run one after the other. *)

From stdpp Require Import gmap strings.
From S2P Require Import Prelude SafeNum BitMath DispatchKey DispatchKeySet OperatorSchema DispatchKeyExtractor.
From S2P Require Import OperatorEntry.

(** What a listener is told about an operator. *)
Inductive listener_event : Type :=
  | onOperatorRegistered (h : positive)
  | onOperatorDeregistered (h : positive).

Section Dispatcher.
Context `{OperatorTypes}.

Record OperatorDef : Type := mkOperatorDef {
  op : OperatorEntry;
  def_count : Z;
  def_and_impl_count : Z }.

(** An [OperatorHandle] is the identity of a node of the list [operators_];
    [nodes] has what the nodes hold.  [calls_] are the calls of listeners, the
    newest last, and [alive] the flag of the guard. *)
Record Dispatcher : Type := mkDispatcher {
  operators_ : list positive;
  nodes : gmap positive OperatorDef;
  next_handle : positive;
  operatorLookupTable_ : gmap OperatorName positive;
  libraries_ : gmap string string;
  backendFallbackKernels_ : list AnnotatedKernel;
  listeners_ : list positive;
  next_listener : positive;
  calls_ : list (positive * listener_event);
  alive : bool }.

Definition new_Dispatcher : Dispatcher :=
  mkDispatcher [] ∅ 1 ∅ ∅ (replicate (Z.to_nat num_runtime_entries) missingKernel) [] 1 [] true.

Definition set_operators o n h t d := mkDispatcher o n h t (libraries_ d) (backendFallbackKernels_ d)
  (listeners_ d) (next_listener d) (calls_ d) (alive d).
Definition set_nodes n d := set_operators (operators_ d) n (next_handle d) (operatorLookupTable_ d) d.
Definition set_libraries l d := mkDispatcher (operators_ d) (nodes d) (next_handle d) (operatorLookupTable_ d)
  l (backendFallbackKernels_ d) (listeners_ d) (next_listener d) (calls_ d) (alive d).
Definition set_fallbacks f d := mkDispatcher (operators_ d) (nodes d) (next_handle d) (operatorLookupTable_ d)
  (libraries_ d) f (listeners_ d) (next_listener d) (calls_ d) (alive d).
Definition set_listeners l n c d := mkDispatcher (operators_ d) (nodes d) (next_handle d)
  (operatorLookupTable_ d) (libraries_ d) (backendFallbackKernels_ d) l n c (alive d).
Definition set_alive a d := mkDispatcher (operators_ d) (nodes d) (next_handle d) (operatorLookupTable_ d)
  (libraries_ d) (backendFallbackKernels_ d) (listeners_ d) (next_listener d) (calls_ d) a.

(** The use of a handle. *)
Definition node_of (h : positive) : method Dispatcher OperatorDef :=
  d ← reads id;
  lift (match nodes d !! h with Some o => Ok o | None => Throw (UndefinedBehaviour "") end).

(** A method of the entry of an operator. *)
Definition on_op {A} (h : positive) (m : method OperatorEntry A) : method Dispatcher A :=
  o ← node_of h;
  let '(e, r) := m (op o) in
  modify (λ d, set_nodes (<[h := mkOperatorDef e (def_count o) (def_and_impl_count o)]> (nodes d)) d);;
  lift r.

Definition add_counts (h : positive) (def impl : Z) : method Dispatcher unit :=
  o ← node_of h;
  modify (λ d, set_nodes (<[h := mkOperatorDef (op o) (def_count o + def) (def_and_impl_count o + impl)]>
                            (nodes d)) d).

(** ** Finding operators. *)
Definition findOp (name : OperatorName) (d : Dispatcher) : option positive :=
  operatorLookupTable_ d !! name.

Definition hasSchema (h : positive) (d : Dispatcher) : bool :=
  match nodes d !! h with Some o => bool_decide (is_Some (schema_ (op o))) | None => false end.

Definition findSchema (name : OperatorName) (d : Dispatcher) : option positive :=
  match findOp name d with
  | Some h => if hasSchema h d then Some h else None
  | None => None
  end.

Definition findSchemaOrThrow (name : OperatorName) (d : Dispatcher) : result positive :=
  match findSchema name d with
  | Some h => Ok h
  | None =>
      match findOp name d with
      | None => Throw (Error "Could not find schema for ")
      | Some _ => Throw (Error "Could not find schema for ")
      end
  end.

Definition findOrRegisterName_ (name : OperatorName) : method Dispatcher positive :=
  d ← reads id;
  match findOp name d with
  | Some h => mret h
  | None =>
      e ← lift (new_OperatorEntry (backendFallbackKernels_ d) name);
      let h := next_handle d in
      modify (set_operators (operators_ d ++ [h]) (<[h := mkOperatorDef e 0 0]> (nodes d)) (Pos.succ h)
                (<[name := h]> (operatorLookupTable_ d)));;
      mret h
  end.

(** The operators whose list of kernels has the key, or all of them. *)
Fixpoint names_with_kernel (d : Dispatcher) (k : option DispatchKey) (l : list (OperatorName * positive))
    : result (list OperatorName) :=
  match l with
  | [] => Ok []
  | (name, h) :: rest =>
      has ← match k, nodes d !! h with
            | None, _ => Ok true
            | Some k, Some o => hasKernelForDispatchKey (op o) k
            | Some _, None => Throw (UndefinedBehaviour "")
            end;
      names ← names_with_kernel d k rest;
      Ok (if (has : bool) then name :: names else names)
  end.
Definition getRegistrationsForDispatchKey (k : option DispatchKey) (d : Dispatcher)
    : result (list OperatorName) := names_with_kernel d k (map_to_list (operatorLookupTable_ d)).

Definition findDanglingImpls (d : Dispatcher) : list positive :=
  map snd (filter (λ p, hasSchema p.2 d = false) (map_to_list (operatorLookupTable_ d))).

(** Test if the operator entry is completely dead, and if so remove it. *)
Definition cleanup (h : positive) (op_name : OperatorName) : method Dispatcher unit :=
  o ← node_of h;
  if 0 =? def_and_impl_count o
  then modify (λ d, set_operators (filter (λ h', h' ≠ h) (operators_ d)) (delete h (nodes d)) (next_handle d)
                      (delete op_name (operatorLookupTable_ d)) d)
  else mret tt.

(** The calls of the listeners are recorded.  A listener is code of the user and is
    taken not to throw: the source calls it in the destructor of a handle too,
    where an exception would terminate the program. *)
Definition call_listeners (ev : listener_event) : method Dispatcher unit :=
  modify (λ d, set_listeners (listeners_ d) (next_listener d)
                 (calls_ d ++ map (λ l, (l, ev)) (listeners_ d)) d).

(** ** Registrations: what the handle returned undoes. *)
Inductive registration : Type :=
  | RegLibrary (ns : string)
  | RegDef (h : positive) (op_name : OperatorName)
  | RegImpl (h : positive) (op_name : OperatorName) (dispatch_key : option DispatchKey) (node : positive)
  | RegName (h : positive) (op_name : OperatorName)
  | RegFallback (dispatchKey : DispatchKey)
  | RegListener (l : positive).

Definition registerLibrary (ns debug : string) : method Dispatcher registration :=
  d ← reads id;
  lift (TORCH_CHECK (bool_decide (libraries_ d !! ns = None))
          "Only a single TORCH_LIBRARY can be used to register the namespace ");;
  modify (set_libraries (<[ns := debug]> (libraries_ d)));;
  mret (RegLibrary ns).
Definition deregisterLibrary_ (ns : string) : method Dispatcher unit :=
  modify (λ d, set_libraries (delete ns (libraries_ d)) d).

Definition registerDef (s : FunctionSchema) (debug : string) (tags : list Tag)
    : method Dispatcher registration :=
  let op_name := schema_name s in
  h ← findOrRegisterName_ op_name;
  o ← node_of h;
  lift (TORCH_CHECK (def_count o =? 0) "Tried to register an operator (");;
  on_op h (registerSchema s debug tags);;
  call_listeners (onOperatorRegistered h);;
  add_counts h 1 1;;
  mret (RegDef h op_name).

Definition deregisterDef_ (h : positive) (op_name : OperatorName) : method Dispatcher unit :=
  o ← node_of h;
  lift (match schema_ (op o) with
        | Some s => TORCH_INTERNAL_ASSERT (bool_decide (schema_name (schema s) = op_name)) ""
        | None => Throw (InternalAssert "Tried to access the schema for ")
        end);;
  lift (TORCH_INTERNAL_ASSERT (def_count o >? 0) "");;
  lift (TORCH_INTERNAL_ASSERT (def_and_impl_count o >? 0) "");;
  add_counts h (-1) (-1);;
  (if 0 =? def_count o - 1
   then call_listeners (onOperatorDeregistered h);; on_op h deregisterSchema
   else mret tt);;
  cleanup h op_name.

Definition registerImpl (op_name : OperatorName) (dispatch_key : option DispatchKey) (k : KernelFunction)
    (cpp_signature : option CppSignature) (inferred : option FunctionSchema) (debug : string)
    : method Dispatcher registration :=
  h ← findOrRegisterName_ op_name;
  d ← reads id;
  node ← on_op h (registerKernel (backendFallbackKernels_ d) dispatch_key k cpp_signature inferred debug);
  add_counts h 0 1;;
  mret (RegImpl h op_name dispatch_key node).

Definition deregisterImpl_ (h : positive) (op_name : OperatorName) (dispatch_key : option DispatchKey)
    (node : positive) : method Dispatcher unit :=
  d ← reads id;
  on_op h (deregisterKernel_ (backendFallbackKernels_ d) dispatch_key node);;
  o ← node_of h;
  lift (TORCH_INTERNAL_ASSERT (bool_decide (name_ (op o) = op_name)) "");;
  lift (TORCH_INTERNAL_ASSERT (def_and_impl_count o >? 0) "");;
  add_counts h 0 (-1);;
  cleanup h op_name.

Definition registerName (op_name : OperatorName) : method Dispatcher registration :=
  h ← findOrRegisterName_ op_name;
  add_counts h 0 1;;
  mret (RegName h op_name).

Definition deregisterName_ (h : positive) (op_name : OperatorName) : method Dispatcher unit :=
  o ← node_of h;
  lift (TORCH_INTERNAL_ASSERT (bool_decide (name_ (op o) = op_name)) "");;
  lift (TORCH_INTERNAL_ASSERT (def_and_impl_count o >? 0) "");;
  add_counts h 0 (-1);;
  cleanup h op_name.

(** [for (auto& op : operators_) op.op.updateFallback (...)]. *)
Fixpoint update_fallbacks (fallbacks : list AnnotatedKernel) (k : DispatchKey) (hs : list positive)
    : method Dispatcher unit :=
  match hs with
  | [] => mret tt
  | h :: rest => on_op h (updateFallback fallbacks k);; update_fallbacks fallbacks k rest
  end.

Definition set_fallback (dispatchKey : DispatchKey) (b : AnnotatedKernel) : method Dispatcher unit :=
  d ← reads id;
  let idx := getDispatchTableIndexForDispatchKey dispatchKey in
  let fallbacks := <[Z.to_nat idx := b]> (backendFallbackKernels_ d) in
  modify (set_fallbacks fallbacks);;
  update_fallbacks fallbacks dispatchKey (operators_ d).

Definition registerFallback (dispatchKey : DispatchKey) (k : KernelFunction) (debug : string)
    : method Dispatcher registration :=
  d ← reads id;
  let idx := getDispatchTableIndexForDispatchKey dispatchKey in
  lift (TORCH_CHECK ((idx >=? 0) && (idx <? Z.of_nat (length (backendFallbackKernels_ d)))) "idx=");;
  b ← lift (match backendFallbackKernels_ d !! Z.to_nat idx with
            | Some b => Ok b | None => Throw (UndefinedBehaviour "") end);
  lift (TORCH_CHECK (dk_eqb dispatchKey AutogradPrivateUse1 || negb (isValid (kernel b)))
          "Tried to register multiple backend fallbacks for the same dispatch key ");;
  set_fallback dispatchKey (mkAnnotatedKernel k None debug);;
  mret (RegFallback dispatchKey).

Definition deregisterFallback_ (dispatchKey : DispatchKey) : method Dispatcher unit :=
  set_fallback dispatchKey missingKernel.

Definition addRegistrationListener : method Dispatcher registration :=
  d ← reads id;
  let l := next_listener d in
  let known := filter (λ h, match nodes d !! h with Some o => def_count o >? 0 | None => false end = true)
                 (operators_ d) in
  modify (set_listeners (listeners_ d ++ [l]) (Pos.succ l)
            (calls_ d ++ map (λ h, (l, onOperatorRegistered h)) known));;
  mret (RegListener l).
Definition removeListener (l : positive) : method Dispatcher unit :=
  modify (λ d, set_listeners (filter (λ l', l' ≠ l) (listeners_ d)) (next_listener d) (calls_ d) d).

(** The destructor of a handle: nothing when the dispatcher is gone. *)
Definition release (r : registration) : method Dispatcher unit :=
  is_alive ← reads alive;
  if negb is_alive then mret tt
  else match r with
       | RegLibrary ns => deregisterLibrary_ ns
       | RegDef h n => deregisterDef_ h n
       | RegImpl h n dk node => deregisterImpl_ h n dk node
       | RegName h n => deregisterName_ h n
       | RegFallback k => deregisterFallback_ k
       | RegListener l => removeListener l
       end.

(** ** Calls: the kernel that is called, and the key set it is given. *)
Definition entry_of (h : positive) (d : Dispatcher) : result OperatorEntry :=
  match nodes d !! h with Some o => Ok (op o) | None => Throw (UndefinedBehaviour "") end.

Definition callBoxed (h : positive) (t : PODLocalDispatchKeySet) (stack : list IValue) (d : Dispatcher)
    : result (KernelFunction * DispatchKeySet) :=
  entry ← entry_of h d;
  dispatchKeySet ← getDispatchKeySetBoxed (dispatchKeyExtractor_ entry) t stack;
  k ← lookup_kernel (backendFallbackKernels_ d) entry dispatchKeySet;
  Ok (k, dispatchKeySet).

Definition call (h : positive) (t : PODLocalDispatchKeySet) (args : list unboxed_arg) (d : Dispatcher)
    : result (KernelFunction * DispatchKeySet) :=
  entry ← entry_of h d;
  dispatchKeySet ← getDispatchKeySetUnboxed (dispatchKeyExtractor_ entry) t args;
  k ← lookup_kernel (backendFallbackKernels_ d) entry dispatchKeySet;
  Ok (k, dispatchKeySet).

Definition redispatchBoxed (h : positive) (dispatchKeySet : DispatchKeySet) (d : Dispatcher)
    : result (KernelFunction * DispatchKeySet) :=
  entry ← entry_of h d;
  k ← lookup_kernel (backendFallbackKernels_ d) entry dispatchKeySet;
  Ok (k, dispatchKeySet).

Definition callBoxedForDispatchKey (h : positive) (t : PODLocalDispatchKeySet) (dk : DispatchKey)
    (stack : list IValue) (d : Dispatcher) : result (KernelFunction * DispatchKeySet) :=
  entry ← entry_of h d;
  dispatchKeySet ← getDispatchKeySetBoxed (dispatchKeyExtractor_ entry) t stack;
  registered ← hasKernelForDispatchKey entry dk;
  if (registered : bool) then k ← kernelForDispatchKey entry dk; Ok (k, dispatchKeySet)
  else
    let idx := getDispatchTableIndexForDispatchKey dk in
    _ ← TORCH_INTERNAL_ASSERT (idx >=? 0) "";
    match backendFallbackKernels_ d !! Z.to_nat idx with
    | Some b => Ok (kernel b, dispatchKeySet)
    | None => Throw (UndefinedBehaviour "")
    end.

Fixpoint check_operators (d : Dispatcher) (hs : list positive) : result unit :=
  match hs with
  | [] => Ok tt
  | h :: rest =>
      e ← entry_of h d;
      _ ← entry_checkInvariants (backendFallbackKernels_ d) e;
      check_operators d rest
  end.
Definition checkInvariants (d : Dispatcher) : result unit := check_operators d (operators_ d).
End Dispatcher.
