(* ===== verification/DispatcherInvariant.v ===== *)
(** * The invariant of the dispatcher.

    Operators, their names and the registrations that are outstanding, and
    finding or creating an operator. *)

From stdpp Require Import gmap strings.
From S2P Require Import Prelude SafeNum BitMath DispatchKey DispatchKeySet OperatorSchema DispatchKeyExtractor.
From S2P Require Import FallthroughKeys OperatorEntry OperatorTable OperatorUpdate OperatorConstruction.
From S2P Require Import OperatorRegistration Dispatcher.

Section Invariant.
Context `{OperatorTypes}.

(** ** Outstanding registrations. *)
(** The operator a registration is about. *)
Definition about (r : registration) : option positive :=
  match r with
  | RegDef h _ | RegImpl h _ _ _ | RegName h _ => Some h
  | _ => None
  end.
Definition refers (h : positive) (r : registration) : bool := bool_decide (about r = Some h).
Definition is_def (h : positive) (r : registration) : bool :=
  match r with RegDef h' _ => bool_decide (h = h') | _ => false end.
Definition is_impl (h : positive) (d : DispatchKey) (node : positive) (r : registration) : bool :=
  match r with
  | RegImpl h' _ dk node' =>
      bool_decide (h = h' ∧ d = default CompositeImplicitAutograd dk ∧ node = node')
  | _ => false
  end.

Definition cnt (P : registration → bool) (R : list registration) : nat :=
  length (filter (λ r, P r = true) R).

Lemma count_cons P r R : cnt P (r :: R) = ((if P r then 1 else 0) + cnt P R)%nat.
Proof.
  unfold cnt. destruct (P r) eqn:E; [rewrite filter_cons_True by done|rewrite filter_cons_False by congruence]; done.
Qed.
Lemma count_perm P R R' : R ≡ₚ R' → cnt P R = cnt P R'.
Proof. unfold cnt. by intros ->. Qed.
Lemma count_pos P R r : r ∈ R → P r = true → (0 < cnt P R)%nat.
Proof.
  intros Hr Hp. unfold cnt. assert (r ∈ filter (λ r, P r = true) R) as Hin by by apply list_elem_of_filter.
  destruct (filter _ R); [by apply elem_of_nil in Hin|cbn; lia].
Qed.

(** ** The invariant.  [C] are the keys whose slots are to be coherent, [R]
    the outstanding registrations. *)
Context (C : DispatchKey → Prop).

Record node_ok (fallbacks : list AnnotatedKernel) (R : list registration) (h : positive) (o : OperatorDef)
    : Prop := {
  node_entry : entry_ok (op o);
  node_coherent : ∀ k, C k → isRuntimeKey k = true → coherent_at fallbacks (op o) k;
  node_defs : def_count o = Z.of_nat (cnt (is_def h) R);
  node_refs : def_and_impl_count o = Z.of_nat (cnt (refers h) R);
  node_schema : def_count o = if schema_ (op o) then 1 else 0;
  node_schema_name : ∀ s, schema_ (op o) = Some s → schema_name (schema s) = name_ (op o);
  node_kernels : ∀ d node, cnt (is_impl h d node) R =
    if decide (node ∈ map fst (default [] (kernels_ (op o) !! d))) then 1%nat else 0%nat }.

Record registry_ok (d : Dispatcher) : Prop := {
  reg_fallbacks : length (backendFallbackKernels_ d) = Z.to_nat num_runtime_entries;
  reg_NoDup : NoDup (operators_ d);
  reg_operators : ∀ h, h ∈ operators_ d ↔ is_Some (nodes d !! h);
  reg_fresh : ∀ h, is_Some (nodes d !! h) → (h < next_handle d)%positive;
  reg_names : ∀ n h, operatorLookupTable_ d !! n = Some h ↔
    ∃ o, nodes d !! h = Some o ∧ name_ (op o) = n;
  reg_alive : alive d = true }.

(** A registration refers to an operator that there is, by its name, and to a
    key kernels can be registered to. *)
Definition named (d : Dispatcher) (h : positive) (n : OperatorName) : Prop :=
  ∃ o, nodes d !! h = Some o ∧ name_ (op o) = n.
Definition registration_ok (d : Dispatcher) (r : registration) : Prop :=
  match r with
  | RegDef h n | RegName h n => named d h n
  | RegImpl h n dk _ => named d h n ∧ registrable (default CompositeImplicitAutograd dk) = true
  | RegFallback k => isRuntimeKey k = true
  | RegLibrary _ | RegListener _ => True
  end.

Record dispatcher_ok (R : list registration) (d : Dispatcher) : Prop := {
  ok_registry : registry_ok d;
  ok_nodes : ∀ h o, nodes d !! h = Some o → node_ok (backendFallbackKernels_ d) R h o;
  ok_registrations : Forall (registration_ok d) R }.

Lemma registration_named d h r : registration_ok d r → about r = Some h → ∃ n, named d h n.
Proof. destruct r; cbn; try done; intros Hr [= <-]; [eauto|destruct Hr as [? _]; eauto|eauto]. Qed.

Lemma dispatcher_ok_perm R R' d : R ≡ₚ R' → dispatcher_ok R d → dispatcher_ok R' d.
Proof.
  intros HR [Hr Hn Hreg]. split; [done| |by rewrite <- HR].
  intros h o Ho. destruct (Hn h o Ho) as [? ? Hd Hi ? ? Hk]. split; try done.
  - by rewrite <- (count_perm _ _ _ HR).
  - by rewrite <- (count_perm _ _ _ HR).
  - intros. by rewrite <- (count_perm _ _ _ HR).
Qed.

(** A registration about another operator, or about none, does not count. *)
Lemma refers_false h r : about r ≠ Some h → refers h r = false ∧ is_def h r = false ∧
  ∀ d node, is_impl h d node r = false.
Proof.
  intros Ha. unfold refers. rewrite bool_decide_eq_false_2 by done. destruct r; cbn in *; try done.
  - rewrite bool_decide_eq_false_2 by congruence. done.
  - split_and!; try done. intros. apply bool_decide_eq_false_2. intros (-> & _). done.
Qed.

Lemma node_ok_other fallbacks r R h o : about r ≠ Some h →
  node_ok fallbacks (r :: R) h o ↔ node_ok fallbacks R h o.
Proof.
  intros Ha. destruct (refers_false h r Ha) as (E1 & E2 & E3).
  split; intros [He Hc Hd Hi Hs Hn Hk]; split; try done.
  - by rewrite count_cons, E2 in Hd.
  - by rewrite count_cons, E1 in Hi.
  - intros d node. specialize (Hk d node). by rewrite count_cons, E3 in Hk.
  - by rewrite count_cons, E2.
  - by rewrite count_cons, E1.
  - intros d node. by rewrite count_cons, E3, Hk.
Qed.

(** ** Putting a node. *)
Definition put (h : positive) (o : OperatorDef) (d : Dispatcher) : Dispatcher :=
  set_nodes (<[h := o]> (nodes d)) d.

Lemma put_lookup h o d h' : nodes (put h o d) !! h' = if decide (h = h') then Some o else nodes d !! h'.
Proof. cbn. by rewrite lookup_insert. Qed.

Lemma put_put h o o' d : put h o (put h o' d) = put h o d.
Proof. unfold put, set_nodes, set_operators. cbn. f_equal. apply insert_insert_eq. Qed.

Lemma named_put h o o' d h' n : nodes d !! h = Some o → name_ (op o') = name_ (op o) →
  named d h' n → named (put h o' d) h' n.
Proof.
  intros Ho Hn (o0 & Ho0 & <-). unfold named. rewrite put_lookup.
  destruct (decide (h = h')) as [<-|]; [|by exists o0]. exists o'. split; [done|]. congruence.
Qed.

Lemma registration_ok_put h o o' d r : nodes d !! h = Some o → name_ (op o') = name_ (op o) →
  registration_ok d r → registration_ok (put h o' d) r.
Proof.
  intros Ho Hn. destruct r; cbn; try done; [by apply named_put with o| |by apply named_put with o].
  intros [? ?]. split; [by apply named_put with o|done].
Qed.

Lemma registry_ok_put h o o' d : nodes d !! h = Some o → name_ (op o') = name_ (op o) →
  registry_ok d → registry_ok (put h o' d).
Proof.
  intros Ho Hn [Hf Hnd Hops Hfr Hnm Hal].
  assert (∀ h', is_Some (nodes (put h o' d) !! h') ↔ is_Some (nodes d !! h')) as Hd.
  { intros h'. rewrite put_lookup. destruct (decide (h = h')) as [<-|]; [|done].
    rewrite Ho. split; intros _; eauto. }
  split; try done.
  - intros h'. rewrite Hd. apply Hops.
  - intros h'. rewrite Hd. apply Hfr.
  - intros n h'. cbn [put set_nodes set_operators operatorLookupTable_]. rewrite Hnm. rewrite put_lookup.
    destruct (decide (h = h')) as [<-|]; [|done]. split.
    + intros (o0 & Ho0 & <-). exists o'. split; [done|]. congruence.
    + intros (o0 & [= <-] & <-). exists o. by split.
Qed.

Lemma dispatcher_ok_put R R' h o o' d :
  dispatcher_ok R d → nodes d !! h = Some o → name_ (op o') = name_ (op o) →
  node_ok (backendFallbackKernels_ d) R' h o' →
  (∀ h' o0, h' ≠ h → node_ok (backendFallbackKernels_ d) R h' o0 → node_ok (backendFallbackKernels_ d) R' h' o0) →
  Forall (registration_ok d) R' → dispatcher_ok R' (put h o' d).
Proof.
  intros [Hr Hn Hreg] Ho Hname Hnode Hother HR'. split.
  - by eapply registry_ok_put.
  - intros h' o0. rewrite put_lookup. destruct (decide (h = h')) as [<-|Hne].
    + by intros [= <-].
    + intros Ho0. apply Hother; [done|]. by apply Hn.
  - eapply Forall_impl; [exact HR'|]. intros r. by apply registration_ok_put with o.
Qed.

(** ** Methods of an operator. *)
Definition with_entry (e : OperatorEntry) (o : OperatorDef) : OperatorDef :=
  mkOperatorDef e (def_count o) (def_and_impl_count o).

Lemma wpx_node_of h Q E o d : nodes d !! h = Some o → Q o d → wpx (node_of h) Q E d.
Proof. intros Ho HQ. unfold wpx, node_of, mbind, method_bind, reads, lift. cbn. by rewrite Ho. Qed.

Lemma wpx_on_op {A} h (m : method OperatorEntry A) Q E o d :
  nodes d !! h = Some o →
  wpx m (λ a e', Q a (put h (with_entry e' o) d)) (λ x e', E x (put h (with_entry e' o) d)) (op o) →
  wpx (on_op h m) Q E d.
Proof.
  intros Ho Hm. unfold on_op. apply wpx_bind. apply wpx_node_of with o; [done|].
  unfold wpx in Hm. destruct (m (op o)) as [e' [a|x]]; exact Hm.
Qed.

Lemma wpx_add_counts h x y Q E o d : nodes d !! h = Some o →
  Q tt (put h (mkOperatorDef (op o) (def_count o + x) (def_and_impl_count o + y)) d) →
  wpx (add_counts h x y) Q E d.
Proof.
  intros Ho HQ. unfold add_counts. apply wpx_bind. apply wpx_node_of with o; [done|]. exact HQ.
Qed.

(** ** Finding or creating an operator. *)
Lemma settles_fresh e d k : kernels_ e = ∅ → registrable d = true → isRuntimeKey k = true →
  settles e d k = true.
Proof.
  intros He Hd Hk. unfold settles, newest. rewrite He, lookup_empty.
  rewrite bool_decide_eq_false_2 by (by intros [? ?]).
  assert (forallb (λ d, negb (registrable d) || let ks := refreshed d in forallb (λ k, negb (isRuntimeKey k) ||
    (negb (consults false d k) || bool_decide (k ∈ ks))) all_dispatch_keys) all_dispatch_keys = true) as Hc
    by (vm_compute; reflexivity).
  apply all_keys_check with (k := d) in Hc. rewrite Hd in Hc. cbn [negb orb] in Hc. cbv zeta in Hc.
  apply all_keys_check with (k := k) in Hc. rewrite Hk in Hc. exact Hc.
Qed.

(** What the key of a kernel must not do to the operator of a name. *)
Definition settled (name : OperatorName) (d : DispatchKey) (s : Dispatcher) : Prop :=
  ∀ h o, operatorLookupTable_ s !! name = Some h → nodes s !! h = Some o →
    ∀ k, C k → isRuntimeKey k = true → settles (op o) d k = true.

Lemma findOrRegisterName_spec R name s : dispatcher_ok R s →
  wp (findOrRegisterName_ name) (λ h s', dispatcher_ok R s' ∧
    backendFallbackKernels_ s' = backendFallbackKernels_ s ∧
    ∃ o, nodes s' !! h = Some o ∧ name_ (op o) = name ∧
      ∀ d, registrable d = true → settled name d s →
        ∀ k, C k → isRuntimeKey k = true → settles (op o) d k = true) s.
Proof.
  intros [Hr Hn Hreg]. unfold findOrRegisterName_. apply wp_bind, wp_reads. cbn [id]. unfold findOp.
  destruct (operatorLookupTable_ s !! name) as [h|] eqn:El.
  - apply wp_ret. split; [done|]. split; [done|]. destruct (proj1 (reg_names s Hr name h) El) as (o & Ho & Hname).
    exists o. split; [done|]. split; [done|]. intros d _ Hs. by apply (Hs h o).
  - destruct (new_OperatorEntry_spec (backendFallbackKernels_ s) name (reg_fallbacks s Hr))
      as (e & E & He & Hname & Hks & Hsch & _ & Hco).
    rewrite wp_bind, wp_lift. exists e. split; [exact E|]. clear E. apply wp_bind, wp_modify, wp_ret.
    assert (nodes s !! next_handle s = None) as Hfresh.
    { destruct (nodes s !! next_handle s) eqn:Eh; [|done].
      pose proof (reg_fresh s Hr (next_handle s) ltac:(by eexists)). lia. }
    set (h := next_handle s) in *. set (o := mkOperatorDef e 0 0).
    assert (∀ h', is_Some (<[h := o]> (nodes s) !! h') ↔ h' = h ∨ is_Some (nodes s !! h')) as Hd.
    { intros h'. rewrite lookup_insert. destruct (decide (h = h')) as [<-|].
      - split; [by left|by eexists].
      - split; [by right|]. by intros [->|]. }
    assert (∀ r, r ∈ R → about r ≠ Some h) as Hab.
    { intros r Hin Ha. rewrite Forall_forall in Hreg. specialize (Hreg r Hin).
      destruct (registration_named s h r Hreg Ha) as (n & o' & Ho' & _). congruence. }
    assert (∀ P, (∀ r, about r ≠ Some h → P r = false) → cnt P R = 0%nat) as H0.
    { intros P HP. unfold cnt. destruct (filter _ R) as [|r l] eqn:Ef; [done|].
      assert (r ∈ filter (λ r, P r = true) R) as Hin by (rewrite Ef; by left).
      apply list_elem_of_filter in Hin as [Hp Hin]. rewrite (HP r) in Hp by by apply Hab. done. }
    split; [|split; [done|]].
    + split; cbn.
      * split; cbn; try apply Hr.
        -- rewrite NoDup_app. split; [apply Hr|]. split; [|apply NoDup_singleton].
           intros h' Hh' ->%list_elem_of_singleton. apply (reg_operators s Hr) in Hh' as [? ?]. congruence.
        -- intros h'. rewrite Hd, elem_of_app, list_elem_of_singleton, (reg_operators s Hr). tauto.
        -- intros h'. rewrite Hd. intros [->|Hs]; [lia|]. pose proof (reg_fresh s Hr h' Hs). lia.
        -- intros n h'. rewrite !lookup_insert. destruct (decide (name = n)) as [<-|Hne].
           ++ split.
              ** intros [= <-]. rewrite decide_True by done. by exists o.
              ** destruct (decide (h = h')) as [<-|]; [done|]. intros Ho'.
                 apply (reg_names s Hr) in Ho'. congruence.
           ++ rewrite (reg_names s Hr). destruct (decide (h = h')) as [<-|]; [|done]. split.
              ** intros (o' & Ho' & _). congruence.
              ** intros (o' & [= <-] & Hn'). cbn in Hn'. congruence.
      * intros h' o'. rewrite lookup_insert. destruct (decide (h = h')) as [<-|]; [|by apply Hn].
        intros [= <-]. split; cbn; try done.
        -- intros k _ Hk. by apply Hco.
        -- rewrite H0; [done|]. intros r Hab'. by apply refers_false.
        -- rewrite H0; [done|]. intros r Hab'. by apply refers_false.
        -- by rewrite Hsch.
        -- by rewrite Hsch.
        -- intros d node. rewrite Hks, lookup_empty. cbn.
           rewrite decide_False by (by intros ?%elem_of_nil). apply H0. intros r Hab'. by apply refers_false.
      * eapply Forall_impl; [exact Hreg|]. intros r. 
        assert (∀ h' n, named s h' n → named (set_operators (operators_ s ++ [h]) (<[h := o]> (nodes s))
          (Pos.succ h) (<[name := h]> (operatorLookupTable_ s)) s) h' n) as Hnm.
        { intros h' n (o' & Ho' & Hn'). exists o'. cbn. rewrite lookup_insert_ne; [done|]. intros <-. congruence. }
        destruct r; cbn [registration_ok]; try done; auto. intros [? ?]. auto.
    + exists o. cbn. rewrite lookup_insert_eq. split; [done|]. split; [done|].
      intros d Hd' _ k _ Hk. by apply settles_fresh.
Qed.
End Invariant.
