(* ===== verification/DispatcherRegister.v ===== *)
(** * Registering with the dispatcher.

    Each registration of Dispatcher.v keeps the invariant, with one more
    outstanding registration when it returns and as many when it throws. *)

From stdpp Require Import gmap strings.
From S2P Require Import Prelude SafeNum BitMath DispatchKey DispatchKeySet OperatorSchema DispatchKeyExtractor.
From S2P Require Import FallthroughKeys OperatorEntry OperatorTable OperatorUpdate OperatorConstruction.
From S2P Require Import OperatorRegistration Dispatcher DispatcherInvariant.

Section Operations.
Context `{OperatorTypes}.
Context (C : DispatchKey → Prop).
Notation dispatcher_ok := (dispatcher_ok C).
Notation node_ok := (node_ok C).

(** ** Parts of the state that the invariant does not see. *)
Lemma dispatcher_ok_libraries R s l : dispatcher_ok R s → dispatcher_ok R (set_libraries l s).
Proof. intros [[] Hn Hreg]. split; [by split|exact Hn|exact Hreg]. Qed.
Lemma dispatcher_ok_listeners R s l n c : dispatcher_ok R s → dispatcher_ok R (set_listeners l n c s).
Proof. intros [[] Hn Hreg]. split; [by split|exact Hn|exact Hreg]. Qed.
Lemma put_listeners h o s l n c : set_listeners l n c (put h o s) = put h o (set_listeners l n c s).
Proof. done. Qed.

(** A registration about no operator. *)
Lemma dispatcher_ok_other R s r : about r = None → registration_ok s r →
  dispatcher_ok (r :: R) s ↔ dispatcher_ok R s.
Proof.
  intros Ha Hr. split; intros [Hreg Hn HR]; split; try done.
  - intros h o Ho. apply (node_ok_other C _ r); [congruence|auto].
  - by apply Forall_cons in HR as [_ HR].
  - intros h o Ho. apply node_ok_other; [congruence|auto].
  - by constructor.
Qed.

(** Adding and removing a registration about an operator whose node changes. *)
Lemma dispatcher_ok_add R s h o o' r :
  dispatcher_ok R s → nodes s !! h = Some o → name_ (op o') = name_ (op o) → about r = Some h →
  registration_ok s r → node_ok (backendFallbackKernels_ s) (r :: R) h o' →
  dispatcher_ok (r :: R) (put h o' s).
Proof.
  intros Hok Ho Hn Ha Hr Hnode. eapply dispatcher_ok_put; [exact Hok|exact Ho|done|done| |].
  - intros h' o0 Hne. apply node_ok_other. congruence.
  - constructor; [done|apply Hok].
Qed.

Lemma dispatcher_ok_remove R s h o o' r :
  dispatcher_ok (r :: R) s → nodes s !! h = Some o → name_ (op o') = name_ (op o) → about r = Some h →
  node_ok (backendFallbackKernels_ s) R h o' → dispatcher_ok R (put h o' s).
Proof.
  intros Hok Ho Hn Ha Hnode. eapply dispatcher_ok_put; [exact Hok|exact Ho|done|done| |].
  - intros h' o0 Hne. apply node_ok_other. congruence.
  - pose proof (ok_registrations C _ _ Hok) as HR. by apply Forall_cons in HR as [_ HR].
Qed.

Lemma dispatcher_ok_same R s h o o' :
  dispatcher_ok R s → nodes s !! h = Some o → name_ (op o') = name_ (op o) →
  node_ok (backendFallbackKernels_ s) R h o' → dispatcher_ok R (put h o' s).
Proof. intros Hok Ho Hn Hnode. by eapply dispatcher_ok_put; [exact Hok|exact Ho| | |auto|apply Hok]. Qed.

Lemma bool_decide_self {A} `{EqDecision A} (x : A) : bool_decide (x = x) = true.
Proof. by apply bool_decide_eq_true_2. Qed.

Lemma refers_self h r : about r = Some h → refers h r = true.
Proof. intros Ha. unfold refers. by apply bool_decide_eq_true_2. Qed.

(** Entries that differ in what their kernels and table do not depend on. *)
Lemma node_ok_entry fallbacks R h o e' :
  node_ok fallbacks R h o → entry_ok e' → same_dispatch (op o) e' → schema_ e' = schema_ (op o) →
  node_ok fallbacks R h (with_entry e' o).
Proof.
  intros [He Hc Hd Hi Hs Hn Hk] He' Hsd Es. split; cbn; try done.
  - intros k HCk Hkr. eapply same_dispatch_coherent; [exact Hsd|by apply Hc].
  - by rewrite Es.
  - destruct Hsd as (-> & _). by rewrite Es.
  - destruct Hsd as (_ & -> & _). done.
Qed.

(** ** Registering. *)
Definition keeps (R : list registration) (m : method Dispatcher registration) (s : Dispatcher) : Prop :=
  wpx m (λ r s', dispatcher_ok (r :: R) s') (λ _ s', dispatcher_ok R s') s.

Lemma registerLibrary_spec R ns debug s : dispatcher_ok R s → keeps R (registerLibrary ns debug) s.
Proof.
  intros Hok. unfold keeps, registerLibrary, wpx, mbind, method_bind, reads, lift, modify, TORCH_CHECK. cbn [id].
  destruct (bool_decide (libraries_ s !! ns = None)); [|done]. cbn. apply dispatcher_ok_other; [done..|].
  by apply dispatcher_ok_libraries.
Qed.

Lemma addRegistrationListener_spec R s : dispatcher_ok R s → keeps R addRegistrationListener s.
Proof.
  intros Hok. unfold keeps, addRegistrationListener, wpx, mbind, method_bind, reads, modify. cbn [id]. cbn.
  apply dispatcher_ok_other; [done..|]. by apply dispatcher_ok_listeners.
Qed.

Lemma registerName_spec R name s : dispatcher_ok R s → keeps R (registerName name) s.
Proof.
  intros Hok. unfold keeps, registerName. apply wpx_bind_wp.
  eapply wp_mono; [by apply findOrRegisterName_spec|]. intros h s1 _ (Hok1 & _ & o & Ho & Hname & _).
  apply wpx_bind. eapply wpx_add_counts; [exact Ho|]. unfold wpx. cbn.
  destruct (ok_nodes C _ _ Hok1 h o Ho) as [He Hc Hd Hi Hs Hn Hk].
  eapply dispatcher_ok_add; [exact Hok1|exact Ho|done|done|by exists o|].
  split; cbn [op def_count def_and_impl_count]; try done.
  - rewrite count_cons. cbn. lia.
  - rewrite count_cons, refers_self by done. lia.
  - lia.
Qed.

Lemma registerDef_spec R sch debug tags s : dispatcher_ok R s → keeps R (registerDef sch debug tags) s.
Proof.
  intros Hok. unfold keeps, registerDef. apply wpx_bind_wp.
  eapply wp_mono; [by apply findOrRegisterName_spec|]. intros h s1 _ (Hok1 & _ & o & Ho & Hname & _).
  pose proof (ok_nodes C _ _ Hok1 h o Ho) as Hnode. destruct (Hnode) as [He Hc Hd Hi Hs Hn Hk].
  apply wpx_bind, wpx_node_of with o; [done|]. apply wpx_bind. unfold wpx at 1, lift, TORCH_CHECK.
  destruct (Z.eqb_spec (def_count o) 0) as [E0|]; [|done].
  apply wpx_bind, wpx_on_op with o; [done|].
  eapply wpx_mono; [by apply registerSchema_spec| |].
  2: { intros x e' ->. eapply dispatcher_ok_same; [exact Hok1|exact Ho|done|]. by destruct o. }
  intros [] e' (He' & Hsd & _ & Hsch). apply wpx_bind. unfold wpx at 1, call_listeners, modify. cbn [id].
  rewrite put_listeners. apply wpx_bind. eapply wpx_add_counts; [by rewrite put_lookup, decide_True|].
  unfold wpx. cbn [mret method_ret]. rewrite put_put.
  eapply dispatcher_ok_add; [by apply dispatcher_ok_listeners|exact Ho|apply Hsd|done|by exists o|].
  cbn [backendFallbackKernels_ set_listeners]. destruct Hsd as (En & Ek & Enx & Et).
  split; cbn [op with_entry def_count def_and_impl_count]; try done.
  - intros k HCk Hkr. eapply same_dispatch_coherent; [|by apply Hc]. done.
  - rewrite count_cons. cbn [is_def]. rewrite bool_decide_self. lia.
  - rewrite count_cons, refers_self by done. lia.
  - rewrite Hsch. lia.
  - rewrite Hsch. intros s0 [= <-]. cbn. congruence.
  - intros d node. rewrite count_cons, Ek. cbn. apply Hk.
Qed.

Lemma node_ok_signatures fallbacks R h o e' : node_ok fallbacks R h o → only_signatures (op o) e' →
  node_ok fallbacks R h (with_entry e' o).
Proof.
  intros Hn (c & sg & ->). apply node_ok_entry; [done| |by repeat split|done].
  destruct (node_entry C _ _ _ _ Hn). by split.
Qed.

Lemma registerImpl_spec R name dk k sig inf debug s :
  dispatcher_ok R s → isValid k = true → (∀ d, dk = Some d → registrable d = true) →
  settled C name (default CompositeImplicitAutograd dk) s →
  keeps R (registerImpl name dk k sig inf debug) s.
Proof.
  intros Hok Hv Hdk Hset. unfold keeps, registerImpl. apply wpx_bind_wp.
  eapply wp_mono; [by apply findOrRegisterName_spec|]. intros h s1 _ (Hok1 & _ & o & Ho & Hname & Hst).
  pose proof (ok_nodes C _ _ Hok1 h o Ho) as Hnode. destruct (Hnode) as [He Hc Hd Hi Hs Hn Hk].
  pose proof (reg_fallbacks _ (ok_registry C _ _ Hok1)) as Hfb.
  assert (registrable (default CompositeImplicitAutograd dk) = true) as Hreg
    by (destruct dk; cbn; [by apply Hdk|done]).
  apply wpx_bind. unfold wpx at 1, reads. cbn [id]. apply wpx_bind, wpx_on_op with o; [done|].
  eapply wpx_mono; [by apply registerKernel_spec| |].
  2: { intros x e' Hsig. eapply dispatcher_ok_same; [exact Hok1|exact Ho| |by apply node_ok_signatures].
       by destruct Hsig as (? & ? & ->). }
  set (d := default CompositeImplicitAutograd dk) in *.
  intros node e' (Hch & -> & Hnx & Hks). apply wpx_bind.
  eapply wpx_add_counts; [by rewrite put_lookup, decide_True|].
  unfold wpx. cbn [mret method_ret]. rewrite put_put.
  destruct Hch as (He' & En & Es & Ea & Ed & Hslot) eqn:Ech. clear Ech.
  eapply dispatcher_ok_add; [exact Hok1|exact Ho|done|done|by split; [exists o|]|].
  split; cbn [op with_entry def_count def_and_impl_count]; try done.
  - intros k0 HCk Hkr. destruct dk as [d0|].
    + eapply changed_coherent; [by split_and!|done|by apply Hst|by apply Hc].
    + unfold coherent_at. rewrite Hslot by done. rewrite decide_True; [done|].
      destruct full_keys_check as (_ & Hin & _). apply elem_of_cons.
      destruct (decide (k0 = Undefined)) as [->|]; [by left|right]. by apply Hin.
  - rewrite count_cons. cbn. lia.
  - rewrite count_cons, refers_self by done. lia.
  - rewrite Es. lia.
  - rewrite Es, En. done.
  - intros d' node'. rewrite count_cons, Hk. cbn [is_impl]. fold d.
    destruct (decide (d' = d)) as [->|Hne].
    + rewrite Hks. cbn [default map fst].
      assert (next_node (op o) ∉ map fst (default [] (kernels_ (op o) !! d))) as Hfresh.
      { destruct (kernels_ (op o) !! d) as [l|] eqn:El; cbn; [|by intros ?%elem_of_nil].
        destruct (ok_kernels (op o) He d l El) as (_ & _ & Hf & _).
        intros (p & Ep & Hp)%list_elem_of_fmap. rewrite Forall_forall in Hf.
        destruct (Hf p Hp) as [_ Hlt]. lia. }
      destruct (decide (node' = next_node (op o))) as [->|Hnn].
      * rewrite bool_decide_eq_true_2 by done. rewrite (decide_False _ _ Hfresh), decide_True by (by left). done.
      * rewrite bool_decide_eq_false_2 by tauto. destruct (decide (node' ∈ _)) as [Hin|Hin].
        -- rewrite decide_True by (by right). done.
        -- rewrite decide_False; [done|]. by intros [?|?]%elem_of_cons.
    + rewrite bool_decide_eq_false_2 by tauto. by rewrite Ed.
Qed.
End Operations.
