(* ===== verification/DispatcherRelease.v ===== *)
(** * Fallbacks and the release of registrations.

    Setting a fallback for all operators, removing dead operators, and the
    destructors of the handles of Dispatcher.v. *)

From stdpp Require Import gmap strings.
From S2P Require Import Prelude SafeNum BitMath DispatchKey DispatchKeySet OperatorSchema DispatchKeyExtractor.
From S2P Require Import FallthroughKeys OperatorEntry OperatorTable OperatorUpdate OperatorConstruction.
From S2P Require Import OperatorRegistration Dispatcher DispatcherInvariant DispatcherRegister.

Section Fallbacks.
Context `{OperatorTypes}.
Context (C : DispatchKey → Prop).
Notation dispatcher_ok := (dispatcher_ok C).
Notation node_ok := (node_ok C).

(** ** Fallbacks. *)
Lemma update_fallbacks_spec fallbacks k b R hs : 
  let fallbacks' := <[Z.to_nat (getDispatchTableIndexForDispatchKey k) := b]> fallbacks in
  length fallbacks = Z.to_nat num_runtime_entries → isRuntimeKey k = true → NoDup hs →
  ∀ s, (∀ h, h ∈ hs → ∃ o, nodes s !! h = Some o ∧ node_ok fallbacks R h o) →
  wp (update_fallbacks fallbacks' k hs) (λ _ s', ∃ n, s' = set_nodes n s ∧
    (∀ h, h ∉ hs → n !! h = nodes s !! h) ∧
    (∀ h o, h ∈ hs → nodes s !! h = Some o → ∃ o', n !! h = Some o' ∧ name_ (op o') = name_ (op o) ∧
       node_ok fallbacks' R h o')) s.
Proof.
  intros fallbacks' Hfb Hk Hnd. induction Hnd as [|h hs Hnin Hnd IH]; intros s Hs; cbn [update_fallbacks].
  - apply wp_ret. exists (nodes s). split; [by destruct s|]. split; [done|]. by intros h o ?%elem_of_nil.
  - destruct (Hs h ltac:(by left)) as (o & Ho & Hnode). destruct (Hnode) as [He Hc Hd Hi Hsc Hn Hkn].
    apply wp_bind. change (wpx (on_op h (updateFallback fallbacks' k))
      (λ a, wp (update_fallbacks fallbacks' k hs) (λ _ s', ∃ n, s' = set_nodes n s ∧
        (∀ h', h' ∉ h :: hs → n !! h' = nodes s !! h') ∧
        (∀ h' o, h' ∈ h :: hs → nodes s !! h' = Some o → ∃ o', n !! h' = Some o' ∧
           name_ (op o') = name_ (op o) ∧ node_ok fallbacks' R h' o'))) (λ _ _, False) s).
    apply wpx_on_op with o; [done|]. eapply wp_mono; [by apply (updateFallback_spec fallbacks)|].
    intros [] e' _ (He' & Hsk & Hco).
    eapply wp_mono; [apply IH|].
    + intros h' Hh'. destruct (Hs h' ltac:(by right)) as (o' & Ho' & Hnode'). exists o'.
      split; [|done]. rewrite put_lookup. destruct (decide (h = h')) as [<-|]; done.
    + intros [] s2 _ (n & -> & Hout & Hin). exists n. split; [done|]. split.
      * intros h' Hh'. rewrite not_elem_of_cons in Hh'. destruct Hh' as [Hne Hh'].
        rewrite Hout by done. rewrite put_lookup. by rewrite decide_False.
      * intros h' o0. rewrite elem_of_cons. intros [->|Hh'] Ho0.
        -- simplify_eq. rewrite Hout by done. rewrite put_lookup, decide_True by done.
           eexists. split; [done|]. destruct Hsk as (E1 & E2 & E3 & E4 & _). split; [done|].
           split; cbn; try done.
           ++ intros k0 HCk Hkr. apply Hco; [done|]. by apply Hc.
           ++ by rewrite E2.
           ++ rewrite E1, E2. done.
           ++ by rewrite E4.
        -- apply Hin; [done|]. rewrite put_lookup. destruct (decide (h = h')) as [<-|]; done.
Qed.

Lemma set_fallback_spec R k b s : dispatcher_ok R s → isRuntimeKey k = true →
  wp (set_fallback k b) (λ _ s', dispatcher_ok R s' ∧
    backendFallbackKernels_ s'
    = <[Z.to_nat (getDispatchTableIndexForDispatchKey k) := b]> (backendFallbackKernels_ s)) s.
Proof.
  intros [Hr Hn HR] Hk. unfold set_fallback. apply wp_bind, wp_reads. cbn [id].
  set (fb' := <[_ := b]> (backendFallbackKernels_ s)). apply wp_bind, wp_modify.
  eapply wp_mono; [apply (update_fallbacks_spec (backendFallbackKernels_ s) k b R); try apply Hr; [done|]|].
  - intros h Hh. apply (reg_operators s Hr) in Hh as [o Ho]. exists o. split; [done|]. by apply Hn.
  - intros [] s' _ (n & -> & Hout & Hin). fold fb' in Hin. cbn in Hout, Hin. split; [|done].
    assert (∀ h, is_Some (n !! h) ↔ is_Some (nodes s !! h)) as Hdom.
    { intros h. destruct (decide (h ∈ operators_ s)) as [Hh|Hh].
      - pose proof (proj1 (reg_operators s Hr h) Hh) as [o Ho]. destruct (Hin h o Hh Ho) as (o' & Ho' & _).
        rewrite Ho, Ho'. by split.
      - by rewrite Hout. }
    assert (∀ h o', n !! h = Some o' → ∃ o, nodes s !! h = Some o ∧ name_ (op o') = name_ (op o) ∧
      node_ok fb' R h o') as Hnew.
    { intros h o' Ho'. destruct (proj1 (Hdom h) ltac:(by eexists)) as [o Ho].
      destruct (Hin h o) as (o2 & Ho2 & Hname & Hnode); [by apply (reg_operators s Hr); eexists|done|].
      rewrite Ho2 in Ho'. injection Ho' as ->. by exists o. }
    assert (∀ h nm, named s h nm ↔ named (set_nodes n (set_fallbacks fb' s)) h nm) as Hnamed.
    { intros h nm. unfold named. cbn. split.
      - intros (o & Ho & <-). destruct (proj2 (Hdom h) ltac:(by eexists)) as [o' Ho']. exists o'.
        split; [done|]. destruct (Hnew h o' Ho') as (o2 & Ho2 & E & _). congruence.
      - intros (o' & Ho' & <-). destruct (Hnew h o' Ho') as (o2 & Ho2 & E & _). by exists o2. }
    split.
    + split; cbn; try apply Hr.
      * unfold fb'. rewrite length_insert. apply Hr.
      * intros h. rewrite Hdom. apply Hr.
      * intros h. rewrite Hdom. apply Hr.
      * intros nm h. rewrite (reg_names s Hr). apply Hnamed.
    + intros h o' Ho'. cbn in Ho'. destruct (Hnew h o' Ho') as (o & _ & _ & Hnode). done.
    + eapply Forall_impl; [exact HR|]. intros [] Hreg; cbn in *; try done.
      * by apply Hnamed.
      * destruct Hreg. split; [by apply Hnamed|done].
      * by apply Hnamed.
Qed.

Lemma registerFallback_spec R k f debug s : dispatcher_ok R s → isRuntimeKey k = true →
  keeps C R (registerFallback k f debug) s.
Proof.
  intros Hok Hk. unfold keeps, registerFallback. apply wpx_bind. unfold wpx at 1, reads. cbn [id].
  pose proof (slot_range k Hk) as Hix. pose proof (reg_fallbacks _ (ok_registry C _ _ Hok)) as Hl.
  apply wpx_bind. unfold wpx at 1, lift, TORCH_CHECK. case_match; [|done].
  apply wpx_bind. unfold wpx at 1. 
  destruct (lookup_lt_is_Some_2 (backendFallbackKernels_ s) (Z.to_nat (getDispatchTableIndexForDispatchKey k)))
    as [b Hb]; [lia|]. rewrite Hb.
  apply wpx_bind. unfold wpx at 1. destruct (dk_eqb k AutogradPrivateUse1 || _); [|done].
  apply wpx_bind_wp. eapply wp_mono; [by apply set_fallback_spec|]. intros [] s' _ [Hok' _].
  unfold wpx. cbn. by apply dispatcher_ok_other.
Qed.

(** ** Removing dead operators. *)
Lemma cleanup_spec R h nm s : dispatcher_ok R s → named s h nm →
  wp (cleanup h nm) (λ _ s', dispatcher_ok R s') s.
Proof.
  intros Hok (o & Ho & Hname). destruct (ok_nodes C _ _ Hok h o Ho) as [He Hc Hd Hi Hs Hn Hk].
  unfold cleanup. apply wp_bind. change (wpx (node_of h) (λ o, wp (if 0 =? def_and_impl_count o
      then modify (λ d, set_operators (filter (λ h', h' ≠ h) (operators_ d)) (delete h (nodes d)) (next_handle d)
             (delete nm (operatorLookupTable_ d)) d) else mret tt) (λ _ s', dispatcher_ok R s'))
      (λ _ _, False) s). apply wpx_node_of with o; [done|].
  destruct (Z.eqb_spec 0 (def_and_impl_count o)) as [E0|]; [|by apply wp_ret].
  apply wp_modify. destruct Hok as [Hr Hns HR].
  assert (∀ r, r ∈ R → about r ≠ Some h) as Hab.
  { intros r Hin Ha. pose proof (count_pos (refers h) R r Hin (refers_self h r Ha)). lia. }
  assert (∀ h' n', h' ≠ h → named s h' n' → ∃ o', delete h (nodes s) !! h' = Some o' ∧ name_ (op o') = n') as Hnm.
  { intros h' n' Hne (o' & Ho' & En). exists o'. by rewrite lookup_delete_ne. }
  split; cbn.
  - split; cbn; try apply Hr.
    + apply NoDup_filter, Hr.
    + intros h'. rewrite list_elem_of_filter, (reg_operators s Hr). destruct (decide (h' = h)) as [->|].
      * rewrite lookup_delete_eq. split; [by intros []|by intros []].
      * rewrite lookup_delete_ne by done. tauto.
    + intros h'. destruct (decide (h' = h)) as [->|].
      * rewrite lookup_delete_eq. by intros [].
      * rewrite lookup_delete_ne by done. apply Hr.
    + intros n' h'. destruct (decide (n' = nm)) as [->|Hne].
      * rewrite lookup_delete_eq. split; [done|]. intros (o' & Ho' & En).
        destruct (decide (h' = h)) as [->|]; [by rewrite lookup_delete_eq in Ho'|].
        rewrite lookup_delete_ne in Ho' by done.
        assert (operatorLookupTable_ s !! nm = Some h') as E1 by (apply Hr; by exists o').
        assert (operatorLookupTable_ s !! nm = Some h) as E2 by (apply Hr; by exists o). congruence.
      * rewrite lookup_delete_ne, (reg_names s Hr) by done. destruct (decide (h' = h)) as [->|].
        -- rewrite lookup_delete_eq. split; intros (o' & Ho' & En); [congruence|done].
        -- by rewrite lookup_delete_ne.
  - intros h' o' Ho'. apply Hns. destruct (decide (h' = h)) as [->|]; [by rewrite lookup_delete_eq in Ho'|].
    by rewrite lookup_delete_ne in Ho'.
  - apply Forall_forall. intros r Hin. rewrite Forall_forall in HR. pose proof (HR r Hin) as Hreg.
    pose proof (Hab r Hin) as Hne. destruct r; cbn in *; try done.
    + apply Hnm; [congruence|done].
    + split; [|apply Hreg]. apply Hnm; [congruence|apply Hreg].
    + apply Hnm; [congruence|done].
Qed.

(** ** Releasing. *)
Lemma named_node R s h nm : dispatcher_ok R s → named s h nm →
  ∃ o, nodes s !! h = Some o ∧ name_ (op o) = nm ∧ node_ok (backendFallbackKernels_ s) R h o.
Proof. intros Hok (o & Ho & Hn). exists o. split; [done|]. split; [done|]. by apply (ok_nodes C _ _ Hok). Qed.

Lemma head_ok R s r : dispatcher_ok (r :: R) s → registration_ok s r.
Proof. intros Hok. pose proof (ok_registrations C _ _ Hok) as HR. by apply Forall_cons in HR as [? _]. Qed.

(** [wp] is [wpx] with no exception allowed. *)
Lemma wp_wpx {S A} (m : method S A) Q s : wpx m Q (λ _ _, False) s → wp m Q s.
Proof. done. Qed.

Lemma deregisterSchema_wp e : entry_ok e → is_Some (schema_ e) →
  wp deregisterSchema (λ _ e', entry_ok e' ∧ same_dispatch e e' ∧ schema_ e' = None) e.
Proof.
  intros He Hs. pose proof (deregisterSchema_spec e He) as Hw. unfold wpx in Hw. unfold wp.
  destruct (deregisterSchema e) as [e' [[]|x]] eqn:E; [tauto|].
  unfold deregisterSchema, mbind, method_bind, reads, lift, modify, TORCH_INTERNAL_ASSERT in E. cbn [id] in E.
  rewrite bool_decide_eq_true_2 in E by done. discriminate.
Qed.

Lemma deregisterDef_spec R h nm s : dispatcher_ok (RegDef h nm :: R) s →
  wp (deregisterDef_ h nm) (λ _ s', dispatcher_ok R s') s.
Proof.
  intros Hok. destruct (named_node _ s h nm Hok (head_ok _ _ _ Hok)) as (o & Ho & Hname & Hnode).
  destruct (Hnode) as [He Hc Hd Hi Hs Hn Hk]. rewrite count_cons in Hd, Hi. cbn [is_def] in Hd.
  rewrite bool_decide_self in Hd. rewrite refers_self in Hi by done.
  destruct (schema_ (op o)) as [sch|] eqn:Es; [|lia].
  apply wp_wpx. unfold deregisterDef_. apply wpx_bind, wpx_node_of with o; [done|].
  apply wpx_bind. unfold wpx at 1, lift. rewrite Es. unfold TORCH_INTERNAL_ASSERT at 1.
  rewrite (Hn sch eq_refl), Hname, bool_decide_self.
  apply wpx_bind. unfold wpx at 1. unfold TORCH_INTERNAL_ASSERT at 1.
  assert (def_count o >? 0 = true) as -> by lia.
  apply wpx_bind. unfold wpx at 1. unfold TORCH_INTERNAL_ASSERT at 1.
  assert (def_and_impl_count o >? 0 = true) as -> by lia.
  apply wpx_bind. apply wpx_add_counts with o; [done|].
  rewrite Hs. change (0 =? 1 - 1) with true. cbn iota. apply wpx_bind, wpx_bind.
  unfold wpx at 1, call_listeners, modify. rewrite put_listeners.
  eapply wpx_on_op; [by rewrite put_lookup, decide_True|]. cbn [op with_entry].
  eapply wp_mono; [apply deregisterSchema_wp; [done|by rewrite Es]|].
  intros [] e' _ (He' & (En & Ek & Enx & Et) & Es'). rewrite put_put.
  set (s1 := set_listeners _ _ _ s).
  assert (dispatcher_ok R (put h (with_entry e'
    (mkOperatorDef (op o) (1 + -1) (def_and_impl_count o + -1))) s1)) as Hok'.
  { eapply dispatcher_ok_remove; [by apply dispatcher_ok_listeners|exact Ho|done|done|].
    cbn [backendFallbackKernels_ s1 set_listeners].
    split; cbn [op with_entry def_count def_and_impl_count]; try done.
    - intros k HCk Hkr. eapply same_dispatch_coherent; [|by apply Hc]. done.
    - lia.
    - lia.
    - by rewrite Es'.
    - by rewrite Es'.
    - intros d node. specialize (Hk d node). rewrite count_cons in Hk. cbn in Hk. by rewrite Ek. }
  apply cleanup_spec; [exact Hok'|].
  eexists. split; [by rewrite put_lookup, decide_True|]. cbn. congruence.
Qed.

Lemma deregisterName_spec R h nm s : dispatcher_ok (RegName h nm :: R) s →
  wp (deregisterName_ h nm) (λ _ s', dispatcher_ok R s') s.
Proof.
  intros Hok. destruct (named_node _ s h nm Hok (head_ok _ _ _ Hok)) as (o & Ho & Hname & Hnode).
  destruct (Hnode) as [He Hc Hd Hi Hs Hn Hk]. rewrite count_cons in Hd, Hi. cbn [is_def] in Hd.
  rewrite refers_self in Hi by done.
  apply wp_wpx. unfold deregisterName_. apply wpx_bind, wpx_node_of with o; [done|].
  apply wpx_bind. unfold wpx at 1, lift. unfold TORCH_INTERNAL_ASSERT at 1. rewrite Hname, bool_decide_self.
  apply wpx_bind. unfold wpx at 1. unfold TORCH_INTERNAL_ASSERT at 1.
  assert (def_and_impl_count o >? 0 = true) as -> by lia.
  apply wpx_bind. apply wpx_add_counts with o; [done|].
  apply cleanup_spec; [|eexists; split; [by rewrite put_lookup, decide_True|done]].
  eapply dispatcher_ok_remove; [exact Hok|exact Ho|done|done|].
  split; cbn [op def_count def_and_impl_count]; try done; lia.
Qed.

Lemma deregisterImpl_spec R h nm dk node s :
  dispatcher_ok (RegImpl h nm dk node :: R) s →
  settled C nm (default CompositeImplicitAutograd dk) s →
  wp (deregisterImpl_ h nm dk node) (λ _ s', dispatcher_ok R s') s.
Proof.
  intros Hok Hset. destruct (head_ok _ _ _ Hok) as [Hnamed Hreg].
  destruct (named_node _ s h nm Hok Hnamed) as (o & Ho & Hname & Hnode).
  destruct (Hnode) as [He Hc Hd Hi Hs Hn Hk]. rewrite count_cons in Hd, Hi. cbn [is_def] in Hd.
  rewrite refers_self in Hi by done.
  pose proof (reg_fallbacks _ (ok_registry C _ _ Hok)) as Hfb.
  set (d := default CompositeImplicitAutograd dk) in *.
  assert (∃ l, kernels_ (op o) !! d = Some l ∧ node ∈ map fst l) as (l & Hl & Hin).
  { pose proof (Hk d node) as Hkd. rewrite count_cons in Hkd. cbn [is_impl] in Hkd. fold d in Hkd.
    rewrite bool_decide_eq_true_2 in Hkd by done.
    destruct (decide (node ∈ map fst (default [] (kernels_ (op o) !! d)))) as [Hin|]; [|lia].
    destruct (kernels_ (op o) !! d) as [l|]; [by exists l|by apply elem_of_nil in Hin]. }
  apply wp_wpx. unfold deregisterImpl_. apply wpx_bind. unfold wpx at 1, reads. cbn [id].
  apply wpx_bind, wpx_on_op with o; [done|].
  eapply wp_mono; [by eapply deregisterKernel_spec|]. fold d.
  intros [] e' _ (Hch & Enx & Hks). pose proof Hch as (He' & En & Es & _ & Ed & _).
  apply wpx_bind. eapply wpx_node_of; [by rewrite put_lookup, decide_True|]. cbn [op with_entry def_and_impl_count].
  apply wpx_bind. unfold wpx at 1, lift. unfold TORCH_INTERNAL_ASSERT at 1. rewrite En, Hname, bool_decide_self.
  apply wpx_bind. unfold wpx at 1. unfold TORCH_INTERNAL_ASSERT at 1.
  assert (def_and_impl_count o >? 0 = true) as -> by lia.
  apply wpx_bind. eapply wpx_add_counts; [by rewrite put_lookup, decide_True|]. rewrite put_put.
  apply cleanup_spec; [|eexists; split; [by rewrite put_lookup, decide_True|cbn; congruence]].
  eapply dispatcher_ok_remove; [exact Hok|exact Ho|done|done|].
  split; cbn [op with_entry def_count def_and_impl_count]; try done.
  - intros k HCk Hkr. eapply changed_coherent; [exact Hch|done| |by apply Hc].
    apply (Hset h o); try done. apply (reg_names _ (ok_registry C _ _ Hok)). by exists o.
  - lia.
  - lia.
  - rewrite Es. lia.
  - rewrite Es, En. done.
  - intros d' node'. pose proof (Hk d' node') as Hkd. rewrite count_cons in Hkd. cbn [is_impl] in Hkd. fold d in Hkd.
    destruct (decide (d' = d)) as [->|Hne].
    + rewrite Hks. cbn zeta. set (l' := filter (λ p, p.1 ≠ node) l).
      assert (default [] (if decide (l' = []) then None else Some l') = l') as ->
        by (destruct (decide (l' = [])) as [->|]; done).
      rewrite Hl in Hkd. cbn [default from_option id] in Hkd.
      assert (node' ∈ map fst l' ↔ node' ≠ node ∧ node' ∈ map fst l) as Hiff.
      { unfold l'. split.
        - intros (p & -> & [Hp1 Hp2]%list_elem_of_filter)%list_elem_of_fmap.
          split; [done|]. by apply list_elem_of_fmap_2.
        - intros [Hne (p & -> & Hp)%list_elem_of_fmap]. apply list_elem_of_fmap_2.
          by apply list_elem_of_filter. }
      destruct (decide (node' = node)) as [->|Hnn].
      * rewrite bool_decide_eq_true_2 in Hkd by done. rewrite decide_False by tauto.
        rewrite decide_True in Hkd by done. lia.
      * rewrite bool_decide_eq_false_2 in Hkd by tauto. cbn [Nat.add] in Hkd. rewrite Hkd.
        destruct (decide (node' ∈ map fst l)); [rewrite decide_True by tauto|rewrite decide_False by tauto]; done.
    + rewrite bool_decide_eq_false_2 in Hkd by tauto. cbn [Nat.add] in Hkd. by rewrite Hkd, Ed.
Qed.

(** What the release of a registration must not do to the slots of [C]. *)
Definition release_settled (r : registration) (s : Dispatcher) : Prop :=
  match r with
  | RegImpl _ nm dk _ => settled C nm (default CompositeImplicitAutograd dk) s
  | _ => True
  end.

(** The destructor of a handle does not throw. *)
Lemma release_spec R r s : dispatcher_ok (r :: R) s → release_settled r s →
  wp (release r) (λ _ s', dispatcher_ok R s') s.
Proof.
  intros Hok Hset. unfold release. apply wp_bind, wp_reads.
  rewrite (reg_alive _ (ok_registry C _ _ Hok)). cbn [negb]. destruct r.
  - unfold deregisterLibrary_. apply wp_modify. apply dispatcher_ok_libraries. by apply dispatcher_ok_other in Hok.
  - by apply deregisterDef_spec.
  - by apply deregisterImpl_spec.
  - by apply deregisterName_spec.
  - pose proof (head_ok _ _ _ Hok) as Hk. apply dispatcher_ok_other in Hok; [|done..].
    unfold deregisterFallback_. eapply wp_mono; [by apply set_fallback_spec|]. by intros [] s' _ [? _].
  - unfold removeListener. apply wp_modify. apply dispatcher_ok_listeners. by apply dispatcher_ok_other in Hok.
Qed.
End Fallbacks.
