(* ===== verification/DispatcherRuns.v ===== *)
(** * Runs of the dispatcher.

    Registrations of Dispatcher.v made, refused and released in any order: the
    states they reach, the invariant of these, and the slot a call looks at. *)

From stdpp Require Import gmap strings.
From S2P Require Import Prelude SafeNum BitMath DispatchKey DispatchKeySet OperatorSchema DispatchKeyExtractor.
From S2P Require Import FallthroughKeys OperatorEntry OperatorTable OperatorUpdate OperatorConstruction.
From S2P Require Import OperatorRegistration Dispatcher DispatcherInvariant DispatcherRegister DispatcherRelease.

Section Runs.
Context `{OperatorTypes}.

Inductive request : Type :=
  | RegisterLibrary (ns debug : string)
  | RegisterDef (s : FunctionSchema) (debug : string) (tags : list Tag)
  | RegisterImpl (name : OperatorName) (dispatch_key : option DispatchKey) (k : KernelFunction)
      (cpp_signature : option CppSignature) (inferred : option FunctionSchema) (debug : string)
  | RegisterName (name : OperatorName)
  | RegisterFallback (dispatchKey : DispatchKey) (k : KernelFunction) (debug : string)
  | AddListener.

Definition run_request (q : request) : method Dispatcher registration :=
  match q with
  | RegisterLibrary ns debug => registerLibrary ns debug
  | RegisterDef s debug tags => registerDef s debug tags
  | RegisterImpl name dk k sig inf debug => registerImpl name dk k sig inf debug
  | RegisterName name => registerName name
  | RegisterFallback k f debug => registerFallback k f debug
  | AddListener => addRegistrationListener
  end.

(** Kernels are valid and registered to runtime keys or aliases, fallbacks to
    runtime keys. *)
Definition request_ok (q : request) : bool :=
  match q with
  | RegisterImpl _ dk k _ _ _ => isValid k && match dk with Some d => registrable d | None => true end
  | RegisterFallback k _ _ => isRuntimeKey k
  | _ => true
  end.

Definition request_settled (C : DispatchKey → Prop) (q : request) (s : Dispatcher) : Prop :=
  match q with
  | RegisterImpl name dk _ _ _ _ => settled C name (default CompositeImplicitAutograd dk) s
  | _ => True
  end.

(** The states reached, with the outstanding registrations.  Kernels come and
    go so that the slots of the keys of [C] are kept coherent; every run is one
    when [C] is empty. *)
Inductive reachable (C : DispatchKey → Prop) : list registration → Dispatcher → Prop :=
  | reach_new : reachable C [] new_Dispatcher
  | reach_registered R s q s' r :
      reachable C R s → request_ok q = true → request_settled C q s →
      run_request q s = (s', Ok r) → reachable C (r :: R) s'
  | reach_refused R s q s' x :
      reachable C R s → request_ok q = true → request_settled C q s →
      run_request q s = (s', Throw x) → reachable C R s'
  | reach_released R R' s r s' u :
      reachable C R s → R ≡ₚ r :: R' → release_settled C r s →
      release r s = (s', u) → reachable C R' s'.

Definition no_key : DispatchKey → Prop := λ _, False.

Lemma new_Dispatcher_ok C : dispatcher_ok C [] new_Dispatcher.
Proof.
  split; [split|..]; cbn -[replicate]; try done.
  - constructor.
  - intros h. rewrite lookup_empty. split; [by intros ?%elem_of_nil|by intros []].
  - intros h []. by rewrite lookup_empty in *.
  - intros n h. rewrite lookup_empty. split; [done|]. intros (o & Ho & _). by rewrite lookup_empty in Ho.
Qed.

Lemma run_request_spec C R q s : dispatcher_ok C R s → request_ok q = true → request_settled C q s →
  keeps C R (run_request q) s.
Proof.
  intros Hok Hq Hs. destruct q; cbn in *.
  - by apply registerLibrary_spec.
  - by apply registerDef_spec.
  - apply andb_true_iff in Hq as [Hv Hd]. apply registerImpl_spec; [done|done| |done].
    intros d ->. exact Hd.
  - by apply registerName_spec.
  - by apply registerFallback_spec.
  - by apply addRegistrationListener_spec.
Qed.

Lemma reachable_ok C R s : reachable C R s → dispatcher_ok C R s.
Proof.
  induction 1 as [|R s q s' r _ IH Hq Hs E|R s q s' x _ IH Hq Hs E|R R' s r s' u _ IH HR Hs E].
  - apply new_Dispatcher_ok.
  - pose proof (run_request_spec C R q s IH Hq Hs) as Hk. unfold keeps, wpx in Hk. by rewrite E in Hk.
  - pose proof (run_request_spec C R q s IH Hq Hs) as Hk. unfold keeps, wpx in Hk. by rewrite E in Hk.
  - pose proof (release_spec C R' r s (dispatcher_ok_perm C _ _ _ HR IH) Hs) as Hw. unfold wp in Hw.
    rewrite E in Hw. by destruct u.
Qed.

Lemma no_key_settled name d s : settled no_key name d s.
Proof. intros h o _ _ k []. Qed.
Lemma no_key_request q s : request_settled no_key q s.
Proof. destruct q; cbn; try done. apply no_key_settled. Qed.
Lemma no_key_release r s : release_settled no_key r s.
Proof. destruct r; cbn; try done. apply no_key_settled. Qed.

Lemma reachable_no_key C R s : reachable C R s → reachable no_key R s.
Proof.
  induction 1 as [|R s q s' r Hr IH Hq _ E|R s q s' x Hr IH Hq _ E|R R' s r s' u Hr IH HR _ E].
  - constructor.
  - eapply reach_registered; [exact IH|exact Hq|apply no_key_request|exact E].
  - eapply reach_refused; [exact IH|exact Hq|apply no_key_request|exact E].
  - eapply reach_released; [exact IH|exact HR|apply no_key_release|exact E].
Qed.

(** The slot of [k] is refreshed with [d], or does not consult it. *)
Definition always_refreshed_from (d k : DispatchKey) : bool :=
  negb (consults true d k) || bool_decide (k ∈ refreshed d).

Lemma implicit_refreshes k : isRuntimeKey k = true →
  always_refreshed_from CompositeImplicitAutograd k = true.
Proof.
  intros Hk. assert (forallb (λ k, negb (isRuntimeKey k) || always_refreshed_from CompositeImplicitAutograd k)
    all_dispatch_keys = true) as Hc by (vm_compute; reflexivity).
  apply all_keys_check with (k := k) in Hc. by rewrite Hk in Hc.
Qed.

(** ** Keys whose slot every run keeps coherent. *)
Definition always_refreshed (k : DispatchKey) : bool :=
  isRuntimeKey k &&
  forallb (λ d, negb (registrable d) || negb (consults true d k) || bool_decide (k ∈ refreshed d))
    all_dispatch_keys.

Lemma always_refreshed_settles e d k : registrable d = true → always_refreshed k = true → settles e d k = true.
Proof.
  intros Hd [_ Hk]%andb_true_iff. apply all_keys_check with (k := d) in Hk. rewrite Hd in Hk. cbn [negb orb] in Hk.
  unfold settles. destruct (bool_decide (is_Some (newest e CompositeImplicitAutograd))); [done|].
  apply orb_true_iff in Hk as [Hk|Hk]; [|by rewrite Hk, orb_true_r].
  assert (consults false d k = false) as ->; [|done].
  apply negb_true_iff in Hk. unfold consults in *. rewrite !orb_false_iff in *. tauto.
Qed.

Lemma always_refreshed_reachable R s : reachable no_key R s →
  reachable (λ k, always_refreshed k = true) R s.
Proof.
  assert (∀ name d s, registrable d = true → settled (λ k, always_refreshed k = true) name d s) as Hs.
  { intros name d s0 Hd h o _ _ k Hk _. by apply always_refreshed_settles. }
  induction 1 as [|R s q s' r Hr IH Hq _ E|R s q s' x Hr IH Hq _ E|R R' s r s' u Hr IH HR _ E].
  - constructor.
  - apply reach_registered with s q; try done. destruct q; cbn in *; try done. apply Hs.
    apply andb_true_iff in Hq as [_ Hq]. by destruct dispatch_key.
  - apply reach_refused with s q x; try done. destruct q; cbn in *; try done. apply Hs.
    apply andb_true_iff in Hq as [_ Hq]. by destruct dispatch_key.
  - apply reach_released with R s r u; try done. destruct r; cbn in *; try done. apply Hs.
    pose proof (ok_registrations _ _ _ (reachable_ok _ _ _ Hr)) as Hreg. rewrite HR in Hreg.
    by apply Forall_cons in Hreg as [[_ ?] _].
Qed.

(** The keys of autograd and of nested tensors. *)
Definition special_key (k : DispatchKey) : bool :=
  dk_eqb k AutogradOther || dk_eqb k AutogradNestedTensor ||
  dk_eqb (toFunctionalityKey k) AutogradFunctionality || dk_eqb (toFunctionalityKey k) NestedTensor.

Lemma special_key_cases k : special_key k = true → k = AutogradOther ∨ k = AutogradNestedTensor ∨
  toFunctionalityKey k = AutogradFunctionality ∨ toFunctionalityKey k = NestedTensor.
Proof. unfold special_key. rewrite !orb_true_iff, !dk_eqb_eq. tauto. Qed.

Lemma always_refreshed_most k : isRuntimeKey k = true → special_key k = false → always_refreshed k = true.
Proof.
  intros Hk Hs. unfold always_refreshed. rewrite Hk. cbn [andb]. apply forallb_forall. intros d _.
  assert (forallb (λ d, negb (registrable d) || let ks := refreshed d in forallb (λ k, negb (isRuntimeKey k) ||
    special_key k || (negb (consults true d k) || bool_decide (k ∈ ks))) all_dispatch_keys) all_dispatch_keys
    = true) as Hc by (vm_compute; reflexivity).
  apply all_keys_check with (k := d) in Hc. destruct (registrable d); [|reflexivity]. cbn [negb orb] in *.
  cbv zeta in Hc. apply all_keys_check with (k := k) in Hc. rewrite Hk, Hs in Hc. exact Hc.
Qed.

(** ** Calls. *)
(** The runtime key of the slot of a functionality and a backend number. *)
Definition slot_key (f b : Z) : DispatchKey := priority_of f (Z.max 1 b).

Lemma slot_key_check f b : 0 <= f <= 47 → 0 <= b <= 16 →
  isRuntimeKey (slot_key f b) = true ∧
  getDispatchTableIndexForDispatchKey (slot_key f b) = index_of f b ∧
  (f ≠ 0 → slot_key f b ≠ Undefined ∧ fbit (slot_key f b) = 15 + f) ∧
  (f = 0 → slot_key f b = Undefined) ∧
  (per_backend (slot_key f b) = true → bbit (slot_key f b) = Z.max 1 b - 1) ∧
  (b ≠ 0 → slot_key f b = priority_of f b).
Proof.
  intros Hf Hb.
  assert (forallb (λ f, forallb (λ b, let k := slot_key f b in
    isRuntimeKey k && (getDispatchTableIndexForDispatchKey k =? index_of f b) &&
    ((f =? 0) || (negb (dk_eqb k Undefined) && (fbit k =? 15 + f))) &&
    (negb (f =? 0) || dk_eqb k Undefined) &&
    (negb (per_backend k) || (bbit k =? Z.max 1 b - 1)) &&
    ((b =? 0) || dk_eqb k (priority_of f b))) (numbers 17)) (numbers 48) = true) as Hc by (vm_compute; reflexivity).
  rewrite forallb_forall in Hc. specialize (Hc f (In_numbers 48 f ltac:(lia))).
  rewrite forallb_forall in Hc. specialize (Hc b (In_numbers 17 b ltac:(lia))). cbv zeta in Hc.
  rewrite !andb_true_iff, !orb_true_iff, !andb_true_iff, !negb_true_iff, !Z.eqb_eq in Hc.
  destruct Hc as (((((H1 & H2) & H3) & H4) & H5) & H6).
  assert (∀ x y, dk_eqb x y = false → x ≠ y) as Hne.
  { intros x y Exy ->. assert (dk_eqb y y = true) by (by apply dk_eqb_eq). congruence. }
  split; [exact H1|]. split; [exact H2|]. split; [|split; [|split]].
  - intros Hf0. destruct H3 as [H3|[H3 H3']]; [congruence|]. split; [exact (Hne _ _ H3)|exact H3'].
  - intros Hf0. destruct H4 as [H4|H4]; [|exact (proj1 (dk_eqb_eq _ _) H4)].
    apply Z.eqb_neq in H4. congruence.
  - intros Hp. destruct H5 as [H5|H5]; [congruence|exact H5].
  - intros Hb0. destruct H6 as [H6|H6]; [congruence|exact (proj1 (dk_eqb_eq _ _) H6)].
Qed.

Lemma top_bit_set s : 0 < s → Z.testbit s (bitlen s - 1) = true.
Proof.
  intros Hs. unfold bitlen. rewrite (proj2 (Z.eqb_neq _ _)) by lia.
  replace (Z.log2 s + 1 - 1) with (Z.log2 s) by lia. by apply Z.bit_log2.
Qed.

Lemma backend_numbers r all :
  (∀ i, 0 <= i < 16 → Z.testbit r i = Z.testbit all i) →
  getBackendIndex all = Z.max 1 (backend_number r) - 1.
Proof.
  intros Hlow. unfold getBackendIndex, backend_number. rewrite indexOfHighestBit_eq.
  assert (Z.land all full_backend_mask = Z.land r full_backend_mask) as ->.
  { apply Z.bits_inj'. intros i Hi. rewrite !Z.land_spec, full_mask_bits by done.
    destruct (Z.ltb_spec i 16); [|by rewrite !andb_false_r]. by rewrite Hlow. }
  rewrite bitlen_shiftr by (pose proof (full_mask_bounds r); lia). lia.
Qed.

(** The slot a call looks at is that of the highest key, of the call's backend,
    that its operator does not fall through. *)
Lemma skipped_slot x t ks0 ks : extractor_ok x → skip_fallthrough x t ks0 = Ok ks →
  let all := call_keys t ks0 in
  ∃ k, isRuntimeKey k = true ∧
    getDispatchTableIndexForDispatchKeySet ks = getDispatchTableIndexForDispatchKey k ∧
    (per_backend k = true → bbit k = getBackendIndex all) ∧
    (k ≠ Undefined → Z.testbit all (fbit k) = true ∧ falls_through x k = false) ∧
    (backend_number ks ≠ 0 → k = highestPriorityTypeId ks) ∧
    ∀ k', isRuntimeKey k' = true → k' ≠ Undefined →
      (per_backend k' = true → bbit k' = getBackendIndex all) →
      has all k' = true → fbit k < fbit k' → falls_through x k' = true.
Proof.
  intros Hx E all. destruct (skip_fallthrough_bits x t ks0 Hx) as (r & Er & Hb & Hbits).
  rewrite E in Er. injection Er as <-.
  destruct (skip_fallthrough_keys x t ks0 Hx) as (r & Er & Hkeys & Hlow).
  rewrite E in Er. injection Er as <-. fold all in Hbits, Hkeys, Hlow.
  destruct (numbers_bounds ks Hb) as [Hf Hbn]. set (f := functionality_number ks) in *.
  set (b := backend_number ks) in *.
  destruct (slot_key_check f b Hf Hbn) as (H1 & H2 & H3 & H4 & H5 & H6). set (k := slot_key f b) in *.
  pose proof (backend_numbers ks all Hlow) as Hbi. fold b in Hbi.
  assert (per_backend k = true → bbit k = getBackendIndex all) as Hpk
    by (intros Hp; rewrite Hbi; exact (H5 Hp)).
  assert (fbit k = 15 + f) as Hfk.
  { destruct (Z.eq_dec f 0) as [Ef|Ef]; [|exact (proj2 (H3 Ef))]. rewrite (H4 Ef), Ef. reflexivity. }
  exists k. split; [exact H1|]. split; [by rewrite table_index_eq by lia|]. split; [exact Hpk|].
  split; [|split].
  - intros Hu. assert (f ≠ 0) as Hf0 by (intros E0; exact (Hu (H4 E0))).
    assert (16 < bitlen ks) as Hbl by (unfold f, functionality_number in *; lia).
    assert (Z.testbit ks (fbit k) = true) as Htop.
    { rewrite Hfk. unfold f, functionality_number. rewrite Z.max_r by lia.
      replace (15 + (bitlen ks - 16)) with (bitlen ks - 1) by lia. apply top_bit_set.
      destruct (Z.eq_dec ks 0) as [E0|]; [|lia]. rewrite E0 in Hbl. by vm_compute in Hbl. }
    rewrite Hbits in Htop by lia. apply andb_true_iff in Htop as [Ht1 Ht2]. split; [exact Ht1|].
    unfold falls_through. apply negb_false_iff. pose proof (getBackendIndex_bounds all).
    destruct (per_backend k) eqn:Hp.
    + unfold backend_slot. by rewrite Hp, Hpk.
    + destruct (ks_key_bits k H1 Hu) as (_ & Hfr & _).
      assert (shared_bit (fbit k)) as Hs.
      { split; [exact Hfr|]. rewrite fbit_functionality. exact Hp. }
      rewrite (ok_shared x Hx) in Ht2 |- * by (exact Hs || lia || by apply backend_slot_lt). exact Ht2.
  - intros Hb0. rewrite (H6 Hb0). symmetry. apply priority_eq. lia.
  - intros k' Hk' Hu' Hp' Hhas Hlt. destruct (falls_through x k') eqn:Ef; [done|].
    pose proof (Hkeys k' Hk' Hu' Hp') as Hh. rewrite Hhas, Ef, has_runtime in Hh by done.
    cbn [andb negb] in Hh. apply andb_true_iff in Hh as [Hh _].
    rewrite (bits_above (15 + f + 1)) in Hh; [done| |lia].
    assert (bitlen ks <= 16 + f) as Hbl by (unfold f, functionality_number; lia).
    unfold bitlen in Hbl. destruct (Z.eqb_spec ks 0) as [E0|]; [rewrite E0; split; [lia|apply Z.pow_pos_nonneg; lia]|].
    split; [lia|]. apply Z.log2_lt_pow2; lia.
Qed.

Lemma slot_lookup e k : entry_ok e → isRuntimeKey k = true →
  dispatchTable_ e !! Z.to_nat (getDispatchTableIndexForDispatchKey k) = Some (slot e k).
Proof.
  intros He Hk. pose proof (slot_range k Hk). unfold slot.
  destruct (lookup_lt_is_Some_2 (dispatchTable_ e) (Z.to_nat (getDispatchTableIndexForDispatchKey k))) as [f Hf].
  - rewrite (ok_table e He). lia.
  - by rewrite Hf.
Qed.

Lemma slot_flag e k : entry_ok e → isRuntimeKey k = true → k ≠ Undefined →
  falls_through (dispatchKeyExtractor_ e) k = isFallthrough (slot e k).
Proof. intros He Hk Hu. apply (ok_flags e He); [done..|by apply slot_lookup]. Qed.

(** A list of requests, all granted. *)
Fixpoint run_requests (qs : list request) (R : list registration) : method Dispatcher (list registration) :=
  match qs with
  | [] => mret R
  | q :: rest => r ← run_request q; run_requests rest (r :: R)
  end.

Lemma run_requests_reachable qs : ∀ R s s' R', reachable no_key R s → forallb request_ok qs = true →
  run_requests qs R s = (s', Ok R') → reachable no_key R' s'.
Proof.
  induction qs as [|q qs IH]; intros R s s' R' Hr Hq; cbn.
  - by intros [= <- <-].
  - apply andb_true_iff in Hq as [Hq Hqs]. intros E. apply method_bind_Ok in E as (s1 & r & E1 & E).
    eapply IH; [|exact Hqs|exact E]. eapply reach_registered; [exact Hr|exact Hq|apply no_key_request|exact E1].
Qed.

(** A run with empty [C] is one for any keys, when none of them is a runtime
    key; the kernels of an entry are the outstanding implementations. *)
Lemma outstanding_kernel C R s h o d node :
  reachable C R s → nodes s !! h = Some o →
  node ∈ map fst (default [] (kernels_ (op o) !! d)) ↔
  ∃ n dk, RegImpl h n dk node ∈ R ∧ default CompositeImplicitAutograd dk = d.
Proof.
  intros Hr Ho. pose proof (reachable_ok _ _ _ Hr) as Hok.
  pose proof (node_kernels _ _ _ _ _ (ok_nodes _ _ _ Hok h o Ho) d node) as Hk. split.
  - intros Hin. rewrite decide_True in Hk by done. unfold cnt in Hk.
    destruct (filter (λ r, is_impl h d node r = true) R) as [|r l] eqn:Ef; [done|].
    assert (r ∈ filter (λ r, is_impl h d node r = true) R) as [Hp Hr']%list_elem_of_filter
      by (rewrite Ef; by left).
    destruct r; try done. cbn in Hp. apply bool_decide_eq_true in Hp as (-> & -> & ->). eauto.
  - intros (n & dk & Hin & <-). destruct (decide (node ∈ _)) as [|]; [done|].
    assert (0 < cnt (is_impl h (default CompositeImplicitAutograd dk) node) R)%nat; [|lia].
    eapply count_pos; [exact Hin|]. cbn. by apply bool_decide_eq_true.
Qed.
End Runs.

(** ** Runs of an operator. *)
Module Demo.
#[local] Existing Instance DemoTypes.types.

Definition f : OperatorName := mkOperatorName "demo::f" "".
Definition K (n : positive) : KernelFunction := mkKernelFunction None (Some (boxed_function_at n)) (Some n) None.
Definition impl (d : DispatchKey) (n : positive) : request := RegisterImpl f (Some d) (K n) None None "".

Definition run (qs : list request) : Dispatcher * result (list registration) :=
  run_requests qs [] new_Dispatcher.
Definition state (qs : list request) : Dispatcher := fst (run qs).

Lemma reached qs R : forallb request_ok qs = true → snd (run qs) = Ok R → reachable no_key R (state qs).
Proof.
  intros Hq E. eapply run_requests_reachable; [constructor|exact Hq|].
  unfold state, run in *. destruct (run_requests qs [] new_Dispatcher). cbn in E. by rewrite E.
Qed.

(** Kernels of the CPU below keys that fall through. *)
Definition cpu_requests : list request :=
  [RegisterFallback BackendSelect makeFallthrough ""; RegisterFallback ADInplaceOrView makeFallthrough "";
   RegisterFallback AutogradCPU makeFallthrough ""; impl CPU 1].

(** The node of the only operator. *)
Definition node_at (s : Dispatcher) : OperatorDef :=
  match nodes s !! 1%positive with
  | Some o => o
  | None => mkOperatorDef (mkEntry f None [] [] makeUninitialized ∅ 1%positive None None true) 0 0
  end.

Definition entry_slot (s : Dispatcher) (k : DispatchKey) : KernelFunction := slot (op (node_at s)) k.
Definition entry_choice (s : Dispatcher) (k : DispatchKey) : KernelFunction :=
  kernel (chosen (backendFallbackKernels_ s) (newest (op (node_at s))) k).

Lemma node_at_eq s : is_Some (nodes s !! 1%positive) → nodes s !! 1%positive = Some (node_at s).
Proof. unfold node_at. by intros [o ->]. Qed.
End Demo.
