(* ===== verification/DispatcherContract.v ===== *)
(** * What the dispatcher promises.

    The properties of every state the runs of DispatcherRuns.v reach. *)

From stdpp Require Import gmap strings.
From S2P Require Import Prelude SafeNum BitMath DispatchKey DispatchKeySet OperatorSchema DispatchKeyExtractor.
From S2P Require Import FallthroughKeys OperatorEntry OperatorTable OperatorUpdate OperatorConstruction.
From S2P Require Import OperatorRegistration Dispatcher DispatcherInvariant DispatcherRegister DispatcherRelease.
From S2P Require Import DispatcherRuns.

Section Contract.
Context `{OperatorTypes}.

(** C6.  A call runs the kernel of the highest key that is not fallthrough: of
    the keys of its arguments, with those its thread includes and without those
    it excludes, it takes the slot of one with a kernel that is there and is
    not a fallthrough, and all higher keys of the backend of the call have
    fallthrough kernels; when no key is left it takes the slot of Undefined.  In
    every state the dispatcher reaches. *)
Theorem call_runs_highest_key C R s h o t args ks0 f ks :
  reachable C R s → nodes s !! h = Some o →
  multi_dispatch_key_set args = Ok ks0 → call h t args s = Ok (f, ks) →
  let all := call_keys t ks0 in
  ∃ k, isRuntimeKey k = true ∧ f = slot (op o) k ∧ isValidUnboxed f || isValid f = true ∧
    (per_backend k = true → bbit k = getBackendIndex all) ∧
    (k ≠ Undefined → Z.testbit all (fbit k) = true ∧ isFallthrough f = false) ∧
    ∀ k', isRuntimeKey k' = true → k' ≠ Undefined →
      (per_backend k' = true → bbit k' = getBackendIndex all) →
      has all k' = true → fbit k < fbit k' → isFallthrough (slot (op o) k') = true.
Proof.
  intros Hr Ho Eks Ec all. pose proof (reachable_ok _ _ _ Hr) as Hok.
  pose proof (node_entry _ _ _ _ _ (ok_nodes _ _ _ Hok h o Ho)) as He.
  unfold call, entry_of in Ec. rewrite Ho in Ec. cbn [mbind result_bind] in Ec.
  apply bind_Ok in Ec as (ks' & Ek & Ec). apply bind_Ok in Ec as (f' & El & [= -> ->]).
  unfold getDispatchKeySetUnboxed in Ek. rewrite Eks in Ek. cbn [mbind result_bind] in Ek.
  destruct (skipped_slot _ t ks0 ks (ok_extractor _ He) Ek) as (k & Hk & Hix & Hp & Hsel & _ & Hmax).
  exists k. unfold lookup_kernel in El. pose proof (slot_range k Hk) as Hrng. rewrite Hix in El.
  rewrite (proj2 (Z.eqb_neq _ _)) in El by lia. rewrite slot_lookup in El by assumption. clear Hix Hrng.
  destruct (negb (isValidUnboxed (slot (op o) k)) && negb (isValid (slot (op o) k))) eqn:Ev.
  { unfold reportError in El. apply bind_Ok in El as (u & _ & El). destruct (dk_eqb _ _); discriminate El. }
  injection El as <-. split; [exact Hk|]. split; [reflexivity|]. split.
  { rewrite <- negb_orb in Ev. by apply negb_false_iff in Ev. }
  split; [exact Hp|]. split.
  - intros Hu. destruct (Hsel Hu) as [Ht Hf]. split; [exact Ht|]. rewrite <- slot_flag by assumption. exact Hf.
  - intros k' Hk' Hu' Hp' Hh Hlt. rewrite <- slot_flag by assumption.
    exact (Hmax k' Hk' Hu' Hp' Hh Hlt).
Qed.

(** C7.  The table holds what the registrations choose: in every state the
    dispatcher reaches, the computation of an entry gives the choice by
    precedence of the newest kernels, and the slot of a key is that kernel when
    every run keeps it coherent, or when this run did; the other keys are those
    of autograd and of nested tensors. *)
Theorem dispatch_tables_coherent C R s h o k :
  reachable C R s → nodes s !! h = Some o → isRuntimeKey k = true →
  computeDispatchTableEntry (backendFallbackKernels_ s) (op o) k
  = Ok (kernel (chosen (backendFallbackKernels_ s) (newest (op o)) k)) ∧
  (C k ∨ always_refreshed k = true →
     slot (op o) k = kernel (chosen (backendFallbackKernels_ s) (newest (op o)) k)) ∧
  (always_refreshed k = false → k = AutogradOther ∨ k = AutogradNestedTensor ∨
     toFunctionalityKey k = AutogradFunctionality ∨ toFunctionalityKey k = NestedTensor).
Proof.
  intros Hr Ho Hk. pose proof (reachable_ok _ _ _ Hr) as Hok.
  pose proof (ok_nodes _ _ _ Hok h o Ho) as Hn. split; [|split].
  - apply compute_chosen; [apply Hn|exact Hk|apply Hok].
  - intros [HC|Ha]; [by apply (node_coherent _ _ _ _ _ Hn)|].
    pose proof (always_refreshed_reachable R s (reachable_no_key C R s Hr)) as Hr'.
    pose proof (ok_nodes _ _ _ (reachable_ok _ _ _ Hr') h o Ho) as Hn'.
    exact (node_coherent _ _ _ _ _ Hn' k Ha Hk).
  - intros Ha.
    destruct (special_key k) eqn:Es; [by apply special_key_cases|].
    by rewrite always_refreshed_most in Ha.
Qed.

(** C8.  Undoing a registration never throws, so that the destructors of the
    handles do not terminate the program: whatever was registered, refused and
    released before, in any order, the handle of any outstanding registration
    is released, and the state is one the dispatcher reaches without it.  Listeners,
    which are code of the user, are taken not to throw. *)
Theorem releases_never_throw R s r :
  reachable no_key R s → r ∈ R →
  ∃ s' R', release r s = (s', Ok tt) ∧ R ≡ₚ r :: R' ∧ reachable no_key R' s'.
Proof.
  intros Hr Hin. apply list_elem_of_split in Hin as (R1 & R2 & ->).
  assert (R1 ++ r :: R2 ≡ₚ r :: (R1 ++ R2)) as HR by (symmetry; apply Permutation_middle).
  pose proof (release_spec no_key (R1 ++ R2) r s (dispatcher_ok_perm _ _ _ _ HR (reachable_ok _ _ _ Hr))
    (no_key_release r s)) as Hw. unfold wp in Hw.
  destruct (release r s) as [s' [[]|x]] eqn:E; [|done]. exists s', (R1 ++ R2).
  split; [done|]. split; [done|]. by eapply reach_released; [exact Hr|exact HR|apply no_key_release|exact E].
Qed.


Lemma filter_all {A} (P : A → Prop) `{∀ x, Decision (P x)} (l : list A) : (∀ x, x ∈ l → P x) → filter P l = l.
Proof.
  induction l as [|x l IH]; [done|]. intros Hl. rewrite filter_cons_True by (apply Hl; by left).
  f_equal. apply IH. intros y Hy. apply Hl. by right.
Qed.

(** C31.  A kernel that is registered and deregistered leaves no trace among the
    kernels and in the table: the kernels of the operator and every slot of its
    table are what they were (the signature recorded for the operator stays),
    when the table was coherent, whether or not the keys of the kernel refresh
    all the slots that consult it. *)
Theorem register_deregister fallbacks dk k sig inf debug e e1 node :
  length fallbacks = Z.to_nat num_runtime_entries → entry_ok e → isValid k = true →
  (∀ d, dk = Some d → registrable d = true) →
  (∀ k', isRuntimeKey k' = true → coherent_at fallbacks e k') →
  registerKernel fallbacks dk k sig inf debug e = (e1, Ok node) →
  ∃ e2, deregisterKernel_ fallbacks dk node e1 = (e2, Ok tt) ∧ kernels_ e2 = kernels_ e ∧
    ∀ k', isRuntimeKey k' = true → slot e2 k' = slot e k'.
Proof.
  intros Hfb He Hv Hdk Hco E1.
  pose proof (registerKernel_spec fallbacks Hfb dk k sig inf debug e He Hv Hdk) as Hw1.
  unfold wpx in Hw1. rewrite E1 in Hw1. set (d := default CompositeImplicitAutograd dk) in *.
  destruct Hw1 as ((He1 & _ & _ & _ & Ed & Hslot1) & -> & Hnx & Hks).
  set (l := default [] (kernels_ e !! d)) in *. set (j := mkAnnotatedKernel k inf debug) in *.
  assert (filter (λ p, p.1 ≠ next_node e) ((next_node e, j) :: l) = l) as Hfil.
  { rewrite filter_cons_False by (cbn; tauto). apply filter_all. intros p Hp Eq.
    unfold l in Hp. destruct (kernels_ e !! d) as [l0|] eqn:El; cbn in Hp; [|by apply elem_of_nil in Hp].
    destruct (ok_kernels e He d l0 El) as (_ & _ & Hf & _). rewrite Forall_forall in Hf.
    destruct (Hf p Hp) as [_ Hlt]. lia. }
  pose proof (deregisterKernel_spec fallbacks Hfb dk (next_node e) ((next_node e, j) :: l) e1 He1 Hks
    ltac:(by left)) as Hw2.
  apply wp_run in Hw2 as (e2 & [] & E2 & (He2 & _ & _ & _ & Ed2 & Hslot2) & _ & Hks2). fold d in Hks2, Ed2, Hslot2.
  exists e2. split; [done|].
  assert (kernels_ e2 = kernels_ e) as Ek.
  { apply map_eq. intros d'. destruct (decide (d' = d)) as [->|Hne]; [|by rewrite Ed2, Ed].
    rewrite Hks2. cbn zeta. rewrite Hfil. unfold l. destruct (kernels_ e !! d) as [l0|] eqn:El; cbn; [|done].
    destruct (ok_kernels e He d l0 El) as (_ & Hne & _). by rewrite decide_False. }
  split; [done|]. intros k' Hk'. rewrite Hslot2, Hslot1 by done.
  assert (newest e2 = newest e) as En by (unfold newest; by rewrite Ek). rewrite En.
  pose proof (Hco k' Hk') as Hc. unfold coherent_at in Hc.
  destruct (decide (k' ∈ refreshed d)) as [|Hnr]; [done|].
  destruct dk as [d0|]; [by rewrite decide_False|].
  rewrite Hc. case_match; [|done]. f_equal. apply (chosen_ext _ _ _ d k' true).
  - intros d' Hne. unfold newest. by rewrite Ed.
  - assert (always_refreshed_from d k' = true) as Ha by (by apply implicit_refreshes).
    unfold always_refreshed_from in Ha. by rewrite (bool_decide_eq_false_2 _ Hnr), orb_false_r, negb_true_iff in Ha.
  - done.
Qed.
End Contract.

(** ** Witnesses. *)
Module Witnesses.
Import Demo.
#[export] Existing Instance DemoTypes.types.

(** The registrations of [cpu_requests], the newest first. *)
Definition cpu_registrations : list registration :=
  [RegImpl 1%positive f (Some CPU) 1%positive; RegFallback AutogradCPU; RegFallback ADInplaceOrView;
   RegFallback BackendSelect].

Lemma cpu_reached : reachable no_key cpu_registrations (state cpu_requests).
Proof. apply reached; vm_compute; reflexivity. Qed.
Lemma cpu_node : nodes (state cpu_requests) !! 1%positive = Some (node_at (state cpu_requests)).
Proof. vm_compute. reflexivity. Qed.

(** A tensor of the CPU that requires gradients. *)
Definition cpu_keys : DispatchKeySet := ks_keys [CPU; AutogradCPU; ADInplaceOrView].
Definition called : KernelFunction * DispatchKeySet := (K 1, ks_keys [CPU]).

(** An operator just created, and a kernel of it. *)
Definition empty_table : list AnnotatedKernel := replicate (Z.to_nat num_runtime_entries) missingKernel.
Definition fresh_entry : OperatorEntry :=
  match new_OperatorEntry empty_table f with
  | Ok e => e
  | Throw _ => mkEntry f None [] [] makeUninitialized ∅ 1%positive None None true
  end.
Definition with_kernel : OperatorEntry :=
  fst (registerKernel empty_table (Some CPU) (K 1) None None "" fresh_entry).

Lemma fresh_entry_ok : entry_ok fresh_entry ∧
  ∀ k, isRuntimeKey k = true → coherent_at empty_table fresh_entry k.
Proof.
  destruct (new_OperatorEntry_spec empty_table f ltac:(by vm_compute)) as (e & E & He & _ & _ & _ & _ & Hco).
  unfold fresh_entry. rewrite E. by split.
Qed.
End Witnesses.
Import Demo Witnesses.

Lemma call_runs_highest_key_witness :
  ∃ k, isRuntimeKey k = true ∧ K 1 = slot (op (node_at (state cpu_requests))) k ∧ isValid (K 1) = true ∧
    (k ≠ Undefined → isFallthrough (K 1) = false) ∧
    ∀ k', isRuntimeKey k' = true → k' ≠ Undefined →
      (per_backend k' = true → bbit k' = getBackendIndex (call_keys zero_tls cpu_keys)) →
      has (call_keys zero_tls cpu_keys) k' = true → fbit k < fbit k' →
      isFallthrough (slot (op (node_at (state cpu_requests))) k') = true.
Proof.
  destruct (call_runs_highest_key no_key _ _ _ _ zero_tls [ATensor cpu_keys] cpu_keys (K 1)
    (ks_keys [CPU]) cpu_reached cpu_node ltac:(vm_compute; reflexivity) ltac:(vm_compute; reflexivity))
    as (k & Hk & Hf & _ & _ & Hu & Hmax).
  exists k. split; [exact Hk|]. split; [exact Hf|]. split; [reflexivity|]. split; [|exact Hmax].
  intros Hne. exact (proj2 (Hu Hne)).
Defined.

Lemma dispatch_tables_coherent_witness :
  computeDispatchTableEntry (backendFallbackKernels_ (state cpu_requests)) (op (node_at (state cpu_requests)))
    BackendSelect = Ok makeFallthrough ∧
  entry_slot (state cpu_requests) BackendSelect = makeFallthrough.
Proof.
  destruct (dispatch_tables_coherent no_key _ _ _ _ BackendSelect cpu_reached cpu_node
    ltac:(vm_compute; reflexivity)) as (H1 & H2 & _).
  rewrite H1. unfold entry_slot. rewrite H2 by (right; vm_compute; reflexivity).
  split; vm_compute; reflexivity.
Defined.

Lemma releases_never_throw_witness :
  ∃ s' R', release (RegFallback AutogradCPU) (state cpu_requests) = (s', Ok tt) ∧
    cpu_registrations ≡ₚ RegFallback AutogradCPU :: R' ∧ reachable no_key R' s'.
Proof. apply (releases_never_throw cpu_registrations); [exact cpu_reached|right; left]. Defined.


Lemma register_deregister_witness :
  ∃ e2, deregisterKernel_ empty_table (Some CPU) 1%positive with_kernel = (e2, Ok tt) ∧
    kernels_ e2 = kernels_ fresh_entry ∧ ∀ k', isRuntimeKey k' = true → slot e2 k' = slot fresh_entry k'.
Proof.
  apply (register_deregister empty_table (Some CPU) (K 1) None None "" fresh_entry with_kernel 1%positive).
  - vm_compute; reflexivity.
  - exact (proj1 fresh_entry_ok).
  - reflexivity.
  - intros d [= <-]. vm_compute; reflexivity.
  - exact (proj2 fresh_entry_ok).
  - vm_compute; reflexivity.
Defined.
