(* ===== verification/DispatcherErrors.v ===== *)
(** * What goes wrong in the dispatcher.

    Registrations that are refused, slots that are not refreshed and fallbacks
    that are overridden, in the states the runs of DispatcherRuns.v reach. *)

From stdpp Require Import gmap strings.
From S2P Require Import Prelude SafeNum BitMath DispatchKey DispatchKeySet OperatorSchema DispatchKeyExtractor.
From S2P Require Import FallthroughKeys OperatorEntry OperatorTable OperatorUpdate OperatorConstruction.
From S2P Require Import OperatorRegistration Dispatcher DispatcherInvariant DispatcherRegister DispatcherRelease.
From S2P Require Import DispatcherRuns.

(** ** Refused registrations. *)
Section Errors.
Context `{OperatorTypes}.

Definition keeps_names {A} (m : method Dispatcher A) : Prop :=
  ∀ s, operatorLookupTable_ (fst (m s)) = operatorLookupTable_ s.

Lemma names_bind {A B} (m : method Dispatcher A) (f : A → method Dispatcher B) :
  keeps_names m → (∀ a, keeps_names (f a)) → keeps_names (a ← m; f a).
Proof.
  intros Hm Hf s. specialize (Hm s). unfold mbind, method_bind. destruct (m s) as [s1 [a|x]]; [|done].
  cbn in Hm. by rewrite Hf.
Qed.
Lemma names_lift {A} (r : result A) : keeps_names (lift r).
Proof. by intros s. Qed.
Lemma names_node_of h : keeps_names (node_of h).
Proof. intros s. unfold node_of, mbind, method_bind, reads, lift. cbn. by destruct (nodes s !! h). Qed.
Lemma names_on_op {A} h (m : method OperatorEntry A) : keeps_names (on_op h m).
Proof.
  apply names_bind; [apply names_node_of|]. intros o s. destruct (m (op o)) as [? []]; done.
Qed.
Lemma names_add_counts h x y : keeps_names (add_counts h x y).
Proof. apply names_bind; [apply names_node_of|]. done. Qed.
#[local] Hint Resolve names_bind names_lift names_node_of names_on_op names_add_counts : core.

(** A method that keeps the names, after an operator was found or created. *)
Lemma finds_then {A} R n (m : positive → method Dispatcher A) s s' r : dispatcher_ok no_key R s →
  (∀ h, keeps_names (m h)) → (h ← findOrRegisterName_ n; m h) s = (s', r) → is_Some (findOp n s').
Proof.
  intros Hok Hm. unfold mbind, method_bind.
  pose proof (findOrRegisterName_spec no_key R n s Hok) as Hw. unfold wp in Hw.
  destruct (findOrRegisterName_ n s) as [s1 [h|x]] eqn:E; [|done].
  destruct Hw as (Hok' & _ & o & Ho & Hn & _). intros Em. specialize (Hm h s1).
  rewrite Em in Hm. cbn in Hm. unfold findOp. rewrite Hm.
  exists h. apply (reg_names _ (ok_registry _ _ _ Hok')). eauto.
Qed.

(** The operator a request is about. *)
Definition requested (q : request) : option OperatorName :=
  match q with
  | RegisterDef s _ _ => Some (schema_name s)
  | RegisterImpl n _ _ _ _ _ | RegisterName n => Some n
  | _ => None
  end.

Lemma request_finds R q n s s' r : dispatcher_ok no_key R s → requested q = Some n →
  run_request q s = (s', r) → is_Some (findOp n s').
Proof.
  intros Hok. destruct q; cbn; intros [= <-] E; (eapply finds_then; [exact Hok| |exact E]); intros h.
  - apply names_bind; [auto|]. intros o. repeat (apply names_bind; [first [solve [auto]|done]|intros _]). done.
  - apply names_bind; [done|]. intros d. apply names_bind; [auto|]. intros node.
    apply names_bind; [auto|done].
  - apply names_bind; [auto|]. done.
Qed.

(** C37.  A registration that is refused leaves its operator behind: a
    definition or an implementation that throws, of an operator that was not
    there, leaves an operator of its name with no registration, its counts
    zero, which no handle can remove. *)
Theorem refused_leaves_operator R s q n s' x :
  reachable no_key R s → request_ok q = true → requested q = Some n → findOp n s = None →
  run_request q s = (s', Throw x) →
  ∃ h o, findOp n s' = Some h ∧ nodes s' !! h = Some o ∧ def_count o = 0 ∧ def_and_impl_count o = 0 ∧
    ∀ r, r ∈ R → about r ≠ Some h.
Proof.
  intros Hr Hq Hn Hnone E. pose proof (reachable_ok _ _ _ Hr) as Hok.
  assert (reachable no_key R s') as Hr' by (eapply reach_refused; [exact Hr|done|apply no_key_request|exact E]).
  pose proof (reachable_ok _ _ _ Hr') as Hok'.
  destruct (request_finds R q n s s' (Throw x) Hok Hn E) as [h Hh].
  destruct (proj1 (reg_names _ (ok_registry _ _ _ Hok') n h) Hh) as (o & Ho & Hname).
  assert (∀ r, r ∈ R → about r ≠ Some h) as Hab.
  { intros r Hin Ha.
    pose proof (ok_registrations _ _ _ Hok) as H1. pose proof (ok_registrations _ _ _ Hok') as H2.
    rewrite Forall_forall in H1, H2. specialize (H1 r Hin). specialize (H2 r Hin).
    assert (∀ n', named s h n' → named s' h n' → False) as Hno.
    { intros n' Hn1 (o' & Ho' & Hn'). apply (reg_names _ (ok_registry _ _ _ Hok)) in Hn1.
      unfold findOp in Hnone. congruence. }
    destruct r; cbn in *; try done; injection Ha as ->; [by eapply Hno|..].
    - destruct H1, H2. by eapply Hno.
    - by eapply Hno. }
  assert (∀ P : registration → bool, (∀ r, about r ≠ Some h → P r = false) → cnt P R = 0%nat) as Hc.
  { intros P HP. unfold cnt. destruct (filter _ R) as [|r l] eqn:Ef; [done|].
    assert (r ∈ filter (λ r, P r = true) R) as [Hp Hin]%list_elem_of_filter by (rewrite Ef; by left).
    rewrite (HP r (Hab r Hin)) in Hp. discriminate Hp. }
  pose proof (ok_nodes _ _ _ Hok' h o Ho) as Hnode. exists h, o. split; [done|]. split; [done|].
  rewrite (node_defs _ _ _ _ _ Hnode), (node_refs _ _ _ _ _ Hnode).
  split; [|split; [|done]]; rewrite Hc; try reflexivity; intros r Ha; by apply refers_false.
Qed.
End Errors.

Definition granted (qs : list request) : bool := match snd (Demo.run qs) with Ok _ => true | _ => false end.
Lemma granted_run qs : granted qs = true → ∃ R, snd (Demo.run qs) = Ok R.
Proof. unfold granted. destruct (snd (Demo.run qs)) as [R|]; [by exists R|done]. Qed.

(** C32.  Some slots are not refreshed: with kernels of
    CompositeImplicitAutograd and, later, of CompositeExplicitAutograd (or of a
    backend of AutogradOther), the slots of the autograd keys keep a kernel the
    registrations do not choose, and [checkInvariants] fails; registered in the
    other order, the same kernels give a table that passes it. *)
Theorem dispatch_table_stale :
  let explicit := [Demo.impl CompositeImplicitAutograd 1; Demo.impl CompositeExplicitAutograd 2] in
  let other := [Demo.impl CompositeImplicitAutograd 1; Demo.impl SparseCPU 2] in
  let stale qs k := Demo.entry_slot (Demo.state qs) k = Demo.K 1 ∧
    Demo.entry_choice (Demo.state qs) k ≠ Demo.K 1 ∧ Demo.entry_slot (Demo.state (rev qs)) k ≠ Demo.K 1 in
  (∀ k, isRuntimeKey k = true → toFunctionalityKey k = AutogradFunctionality → stale explicit k) ∧
  stale other AutogradOther ∧
  Forall (λ qs, (∃ R, snd (Demo.run qs) = Ok R) ∧
    checkInvariants (H := DemoTypes.types) (Demo.state qs) = Throw (InternalAssert "Canonical state") ∧
    checkInvariants (H := DemoTypes.types) (Demo.state (rev qs)) = Ok ()) [explicit; other].
Proof.
  cbv zeta.
  set (check := λ s s' k, bool_decide (Demo.entry_slot s k = Demo.K 1 ∧
    Demo.entry_choice s k ≠ Demo.K 1 ∧ Demo.entry_slot s' k ≠ Demo.K 1)).
  split; [|split].
  - intros k Hk Hf.
    set (explicit := [Demo.impl CompositeImplicitAutograd 1; Demo.impl CompositeExplicitAutograd 2]).
    assert (let s := Demo.state explicit in let s' := Demo.state (rev explicit) in
      forallb (λ k, negb (isRuntimeKey k && dk_eqb (toFunctionalityKey k) AutogradFunctionality) ||
        check s s' k) all_dispatch_keys = true) as Hc by (vm_compute; reflexivity).
    cbv zeta in Hc. apply all_keys_check with (k := k) in Hc. rewrite Hk in Hc.
    rewrite (proj2 (dk_eqb_eq _ _) Hf) in Hc. cbn [andb negb orb] in Hc.
    exact (bool_decide_eq_true_1 _ Hc).
  - set (other := [Demo.impl CompositeImplicitAutograd 1; Demo.impl SparseCPU 2]).
    assert (check (Demo.state other) (Demo.state (rev other)) AutogradOther = true) as Hc
      by (vm_compute; reflexivity).
    exact (bool_decide_eq_true_1 _ Hc).
  - apply Forall_cons. split; [|apply Forall_cons; split; [|by apply Forall_nil]].
    + split; [|split]; [apply granted_run; vm_compute; reflexivity|vm_compute; reflexivity..].
    + split; [|split]; [apply granted_run; vm_compute; reflexivity|vm_compute; reflexivity..].
Qed.

(** ** Fallbacks that are overridden. *)
Section Overrides.
Context `{OperatorTypes}.
Notation PU := AutogradPrivateUse1.
Notation ix := (Z.to_nat (getDispatchTableIndexForDispatchKey PU)).

Lemma override_registered R s f debug : dispatcher_ok no_key R s →
  wp (registerFallback PU f debug) (λ r s', r = RegFallback PU ∧
    backendFallbackKernels_ s' = <[ix := mkAnnotatedKernel f None debug]> (backendFallbackKernels_ s)) s.
Proof.
  intros Hok. assert (isRuntimeKey PU = true) as Hk by reflexivity.
  pose proof (slot_range _ Hk) as Hix. pose proof (reg_fallbacks _ (ok_registry _ _ _ Hok)) as Hl.
  unfold registerFallback. apply wp_bind, wp_reads. cbn [id]. cbv zeta.
  destruct (lookup_lt_is_Some_2 (backendFallbackKernels_ s) ix) as [b Hb]; [lia|]. rewrite Hb.
  rewrite (proj2 (andb_true_iff _ _)) by lia. cbn [TORCH_CHECK].
  rewrite wp_bind, wp_lift. exists tt. split; [reflexivity|].
  rewrite wp_bind, wp_lift. exists b. split; [reflexivity|].
  rewrite wp_bind, wp_lift. exists tt. split; [reflexivity|].
  apply wp_bind. eapply wp_mono; [by apply (set_fallback_spec no_key R)|].
  intros [] s' _ [_ Hf]. by apply wp_ret.
Qed.

(**  The fallback of AutogradPrivateUse1, the only one that may be
    registered again, is removed by the handle of the one it replaced: when it
    is registered twice and the first handle is released, the second
    registration is outstanding and there is no fallback. *)
Theorem overridden_fallback_lost R s k1 k2 debug1 debug2 :
  reachable no_key R s → 
  ∃ r s1 s2 s3, run_request (RegisterFallback PU k1 debug1) s = (s1, Ok r) ∧
    run_request (RegisterFallback PU k2 debug2) s1 = (s2, Ok r) ∧
    backendFallbackKernels_ s2 !! ix = Some (mkAnnotatedKernel k2 None debug2) ∧
    release r s2 = (s3, Ok tt) ∧ reachable no_key (r :: R) s3 ∧
    backendFallbackKernels_ s3 !! ix = Some missingKernel.
Proof.
  intros Hr.
  assert (∀ R s, reachable no_key R s → (ix < length (backendFallbackKernels_ s))%nat) as Hix.
  { intros R0 s0 Hr0. rewrite (reg_fallbacks _ (ok_registry _ _ _ (reachable_ok _ _ _ Hr0))).
    pose proof (slot_range PU eq_refl). lia. }
  assert (∀ R s k debug, reachable no_key R s → ∃ s', 
    run_request (RegisterFallback PU k debug) s = (s', Ok (RegFallback PU)) ∧
    reachable no_key (RegFallback PU :: R) s' ∧
    backendFallbackKernels_ s' !! ix = Some (mkAnnotatedKernel k None debug)) as Hreg.
  { intros R0 s0 k debug Hr0.
    destruct (proj1 (wp_run _ _ _) (override_registered R0 s0 k debug (reachable_ok _ _ _ Hr0)))
      as (s' & r & E & -> & Hf). exists s'. split; [exact E|]. split.
    - by apply (reach_registered no_key R0 s0 (RegisterFallback PU k debug)).
    - rewrite Hf. apply list_lookup_insert_eq. by apply (Hix R0). }
  destruct (Hreg R s k1 debug1 Hr) as (s1 & E1 & Hr1 & _).
  destruct (Hreg _ s1 k2 debug2 Hr1) as (s2 & E2 & Hr2 & Hf2).
  assert (wp (release (RegFallback PU)) (λ _ s3, 
    backendFallbackKernels_ s3 = <[ix := missingKernel]> (backendFallbackKernels_ s2)) s2) as Hw.
  { unfold release. apply wp_bind, wp_reads.
    rewrite (reg_alive _ (ok_registry _ _ _ (reachable_ok _ _ _ Hr2))). cbn [negb].
    eapply wp_mono; [by apply (set_fallback_spec no_key _ _ _ _ (reachable_ok _ _ _ Hr2))|].
    by intros [] s3 _ [_ Hf]. }
  destruct (proj1 (wp_run _ _ _) Hw) as (s3 & [] & E3 & Hf3).
  exists (RegFallback PU), s1, s2, s3. split_and!; try assumption.
  - by eapply reach_released; [exact Hr2|reflexivity|apply no_key_release|exact E3].
  - rewrite Hf3. apply list_lookup_insert_eq. by apply (Hix _ s2 Hr2).
Qed.
End Overrides.

(** ** Witnesses. *)
Import Demo.
#[local] Existing Instance DemoTypes.types.

(** A schema with one argument too many. *)
Definition many_arguments : FunctionSchema :=
  mkFunctionSchema f (repeat (mkArgument "a" DemoTypes.Int DemoTypes.Int) 65) [] false false.

Lemma refused_leaves_operator_witness :
  ∃ h o, findOp f (fst (registerDef many_arguments "" [] new_Dispatcher)) = Some h ∧
    nodes (fst (registerDef many_arguments "" [] new_Dispatcher)) !! h = Some o ∧
    def_count o = 0 ∧ def_and_impl_count o = 0 ∧ ∀ r : registration, r ∈ [] → about r ≠ Some h.
Proof.
  apply (refused_leaves_operator [] new_Dispatcher (RegisterDef many_arguments "" []) f _
    (Error "The function schema has ")).
  - apply reach_new.
  - reflexivity.
  - reflexivity.
  - vm_compute; reflexivity.
  - vm_compute; reflexivity.
Defined.

Lemma overridden_fallback_lost_witness :
  ∃ r s1 s2 s3,
    run_request (RegisterFallback AutogradPrivateUse1 (K 1) "a") new_Dispatcher = (s1, Ok r) ∧
    run_request (RegisterFallback AutogradPrivateUse1 (K 2) "b") s1 = (s2, Ok r) ∧
    backendFallbackKernels_ s2 !! Z.to_nat (getDispatchTableIndexForDispatchKey AutogradPrivateUse1)
      = Some (mkAnnotatedKernel (K 2) None "b") ∧
    release r s2 = (s3, Ok tt) ∧ reachable no_key [r] s3 ∧
    backendFallbackKernels_ s3 !! Z.to_nat (getDispatchTableIndexForDispatchKey AutogradPrivateUse1)
      = Some missingKernel.
Proof. apply (overridden_fallback_lost [] new_Dispatcher). apply reach_new. Defined.
