(* ===== verification/TensorIterator.v ===== *)
(** * The tensor iterator: operands, dimensions and splitting.

    aten/src/ATen/TensorIterator.{h,cpp}: the state of [TensorIteratorBase] and
    the operations on its dimensions: reordering, coalescing, narrowing,
    splitting, and the queries on them.  The loops over the elements are in
    TensorIteratorLoops.v.

    Dimensions are numbered from the innermost, sizes and strides in bytes are
    integers: the extents of operands are assumed to fit in 64 bits. *)

From S2P Require Import Prelude ScalarType.

(** c10/core/DeviceType.h and Device.h. *)
Inductive DeviceType : Type :=
  | CPU | CUDA | MKLDNN | OPENGL | OPENCL | IDEEP | HIP | FPGA | MAIA | XLA | Vulkan | Metal | XPU | MPS
  | Meta | HPU | VE | Lazy | IPU | MTIA | PrivateUse1.
Record Device : Type := mkDevice { device_type : DeviceType; device_index : Z }.
#[export] Instance DeviceType_eq_dec : EqDecision DeviceType.
Proof. solve_decision. Defined.
#[export] Instance Device_eq_dec : EqDecision Device.
Proof. solve_decision. Defined.
Definition kCPU : Device := mkDevice CPU (-1).
Definition is_cpu (d : Device) : bool := bool_decide (device_type d = CPU).

(** A tensor is the identity of its [TensorImpl]; an undefined tensor is
    [None].  [op_data] is the address of its first element. *)
Record OperandInfo : Type := mkOperand {
  op_data : Z;
  stride_bytes : list Z;
  op_device : option Device;
  target_dtype : ScalarType;
  current_dtype : ScalarType;
  is_output : bool;
  will_resize : bool;
  is_read_write : bool;
  is_const : bool;
  tensor_base : option positive;
  original_tensor_base : option positive }.

Definition set_op_data (x : Z) (op : OperandInfo) : OperandInfo :=
  mkOperand x (stride_bytes op) (op_device op) (target_dtype op) (current_dtype op) (is_output op)
    (will_resize op) (is_read_write op) (is_const op) (tensor_base op) (original_tensor_base op).
Definition set_stride_bytes (st : list Z) (op : OperandInfo) : OperandInfo :=
  mkOperand (op_data op) st (op_device op) (target_dtype op) (current_dtype op) (is_output op)
    (will_resize op) (is_read_write op) (is_const op) (tensor_base op) (original_tensor_base op).

Record TensorIteratorBase : Type := mkIterator {
  shape_ : list Z;
  perm_ : list nat;
  has_coalesced_dimensions_ : bool;
  enforce_linear_iteration_ : bool;
  view_offsets_ : list Z;
  operands_ : list OperandInfo;
  num_outputs_ : nat;
  all_ops_same_shape_ : bool;
  all_ops_are_scalars_ : bool;
  common_dtype_ : ScalarType;
  common_device_ : Device;
  accumulate_ : bool;
  final_output_ : bool;
  is_reduction_ : bool;
  is_meta_ : bool }.

(** The assignments to the fields. *)
Definition set_dims (sh : list Z) (ops : list OperandInfo) (it : TensorIteratorBase) : TensorIteratorBase :=
  mkIterator sh (perm_ it) (has_coalesced_dimensions_ it) (enforce_linear_iteration_ it) (view_offsets_ it)
    ops (num_outputs_ it) (all_ops_same_shape_ it) (all_ops_are_scalars_ it) (common_dtype_ it)
    (common_device_ it) (accumulate_ it) (final_output_ it) (is_reduction_ it) (is_meta_ it).
Definition set_shape (sh : list Z) (it : TensorIteratorBase) : TensorIteratorBase :=
  set_dims sh (operands_ it) it.
Definition set_operands (ops : list OperandInfo) (it : TensorIteratorBase) : TensorIteratorBase :=
  set_dims (shape_ it) ops it.
Definition set_perm (p : list nat) (it : TensorIteratorBase) : TensorIteratorBase :=
  mkIterator (shape_ it) p (has_coalesced_dimensions_ it) (enforce_linear_iteration_ it) (view_offsets_ it)
    (operands_ it) (num_outputs_ it) (all_ops_same_shape_ it) (all_ops_are_scalars_ it) (common_dtype_ it)
    (common_device_ it) (accumulate_ it) (final_output_ it) (is_reduction_ it) (is_meta_ it).
Definition set_has_coalesced (b : bool) (it : TensorIteratorBase) : TensorIteratorBase :=
  mkIterator (shape_ it) (perm_ it) b (enforce_linear_iteration_ it) (view_offsets_ it)
    (operands_ it) (num_outputs_ it) (all_ops_same_shape_ it) (all_ops_are_scalars_ it) (common_dtype_ it)
    (common_device_ it) (accumulate_ it) (final_output_ it) (is_reduction_ it) (is_meta_ it).
Definition set_view_offsets (v : list Z) (it : TensorIteratorBase) : TensorIteratorBase :=
  mkIterator (shape_ it) (perm_ it) (has_coalesced_dimensions_ it) (enforce_linear_iteration_ it) v
    (operands_ it) (num_outputs_ it) (all_ops_same_shape_ it) (all_ops_are_scalars_ it) (common_dtype_ it)
    (common_device_ it) (accumulate_ it) (final_output_ it) (is_reduction_ it) (is_meta_ it).
Definition set_split_flags (accumulate final_output : bool) (it : TensorIteratorBase) : TensorIteratorBase :=
  mkIterator (shape_ it) (perm_ it) (has_coalesced_dimensions_ it) (enforce_linear_iteration_ it)
    (view_offsets_ it) (operands_ it) (num_outputs_ it) (all_ops_same_shape_ it) (all_ops_are_scalars_ it)
    (common_dtype_ it) (common_device_ it) accumulate final_output (is_reduction_ it) (is_meta_ it).

Definition ndim (it : TensorIteratorBase) : nat := length (shape_ it).
Definition ntensors (it : TensorIteratorBase) : nat := length (operands_ it).
Definition noutputs (it : TensorIteratorBase) : nat := num_outputs_ it.
Definition ninputs (it : TensorIteratorBase) : nat := (ntensors it - noutputs it)%nat.

(** [l[i]] for an index in range. *)
Definition at_ (l : list Z) (i : nat) : Z := nth i l 0.

(** ** Reordering. *)
(** The lambda [should_swap]: 1 if [dim0] should come after [dim1], -1 if it
    should come before, 0 if the comparison is ambiguous. *)
Fixpoint should_swap (shape : list Z) (is_reduction : bool) (ops : list OperandInfo) (dim0 dim1 : nat) : Z :=
  match ops with
  | [] => 0
  | op :: rest =>
      if bool_decide (stride_bytes op = []) || will_resize op
      then should_swap shape is_reduction rest dim0 dim1
      else
        let stride0 := at_ (stride_bytes op) dim0 in
        let stride1 := at_ (stride_bytes op) dim1 in
        if is_reduction && is_output op && negb (Bool.eqb (stride0 =? 0) (stride1 =? 0))
        then if stride1 =? 0 then 1 else -1
        else if (stride0 =? 0) || (stride1 =? 0) then should_swap shape is_reduction rest dim0 dim1
        else if stride0 <? stride1 then -1
        else if stride0 >? stride1 then 1
        else if at_ shape dim0 >? at_ shape dim1 then 1
        else should_swap shape is_reduction rest dim0 dim1
  end.

(** [std::swap (perm_[a], perm_[b])]. *)
Definition swap_at (a b : nat) (l : list nat) : list nat :=
  <[a := nth b l 0%nat]> (<[b := nth a l 0%nat]> l).

(** The inner loop of the insertion sort, [dim0] from [n - 1] down to 0. *)
Fixpoint insert_down (compare : nat → nat → Z) (n dim1 : nat) (perm : list nat) : list nat :=
  match n with
  | O => perm
  | S dim0 =>
      let comparison := compare (nth dim0 perm 0%nat) (nth dim1 perm 0%nat) in
      if comparison >? 0 then insert_down compare dim0 dim0 (swap_at dim0 dim1 perm)
      else if comparison <? 0 then perm
      else insert_down compare dim0 dim1 perm
  end.

Definition insertion_sort (compare : nat → nat → Z) (n : nat) (perm : list nat) : list nat :=
  foldl (λ perm i, insert_down compare i i perm) perm (seq 1 (n - 1)).

(** The lambda [reorder] of [permute_dimensions]. *)
Definition reorder (perm : list nat) (data : list Z) : list Z :=
  map (at_ data) perm ++ replicate (length data - length perm) 0.

Definition permute_dimensions (perm : list nat) (it : TensorIteratorBase) : result TensorIteratorBase :=
  _ ← TORCH_INTERNAL_ASSERT (length perm =? ndim it)%nat "";
  Ok (set_dims (reorder perm (shape_ it))
        (map (λ op, if bool_decide (stride_bytes op = []) then op
                    else set_stride_bytes (reorder perm (stride_bytes op)) op) (operands_ it)) it).

Definition reorder_dimensions (it : TensorIteratorBase) : result TensorIteratorBase :=
  if (ndim it =? 1)%nat then Ok (set_perm [0%nat] it)
  else
    let perm := rev (seq 0 (ndim it)) in
    if enforce_linear_iteration_ it then permute_dimensions perm (set_perm perm it)
    else
      let compare := should_swap (shape_ it) (is_reduction_ it) (operands_ it) in
      let perm := insertion_sort compare (ndim it) perm in
      permute_dimensions perm (set_perm perm it).

(** The strides in bytes of an output that is allocated. *)
Fixpoint compatible_stride_loop (next_stride : Z) (shape : list Z) : list Z :=
  match shape with
  | [] => []
  | size :: rest => next_stride :: compatible_stride_loop (next_stride * size) rest
  end.
Definition compatible_stride (element_size : Z) (it : TensorIteratorBase) : list Z :=
  compatible_stride_loop element_size (shape_ it).

(** [res[perm_[dim]] = input[dim]] for all [dim]. *)
Fixpoint write_perm (perm : list nat) (input res : list Z) : list Z :=
  match perm, input with
  | p :: perm', x :: input' => write_perm perm' input' (<[p := x]> res)
  | _, _ => res
  end.
Definition invert_perm (input : list Z) (it : TensorIteratorBase) : result (list Z) :=
  _ ← TORCH_INTERNAL_ASSERT (negb (has_coalesced_dimensions_ it)) "";
  _ ← TORCH_INTERNAL_ASSERT (length input =? length (perm_ it))%nat "";
  Ok (write_perm (perm_ it) input (replicate (length input) 0)).

(** ** Coalescing. *)
Definition can_coalesce (dim0 dim1 : nat) (it : TensorIteratorBase) : bool :=
  let shape0 := at_ (shape_ it) dim0 in
  let shape1 := at_ (shape_ it) dim1 in
  if (shape0 =? 1) || (shape1 =? 1) then true
  else forallb (λ op, shape0 * at_ (stride_bytes op) dim0 =? at_ (stride_bytes op) dim1) (operands_ it).

Definition replace_stride (dim0 dim1 : nat) (it : TensorIteratorBase) : TensorIteratorBase :=
  set_operands (map (λ op, set_stride_bytes (<[dim0 := at_ (stride_bytes op) dim1]> (stride_bytes op)) op)
                  (operands_ it)) it.

(** One turn of the loop. *)
Definition coalesce_step (prev_dim dim : nat) (it : TensorIteratorBase) : nat * TensorIteratorBase :=
  if can_coalesce prev_dim dim it then
    let it := if at_ (shape_ it) prev_dim =? 1 then replace_stride prev_dim dim it else it in
    (prev_dim,
     set_shape (<[prev_dim := at_ (shape_ it) prev_dim * at_ (shape_ it) dim]> (shape_ it)) it)
  else
    let prev_dim := S prev_dim in
    (prev_dim,
     if (prev_dim =? dim)%nat then it
     else let it := replace_stride prev_dim dim it in
          set_shape (<[prev_dim := at_ (shape_ it) dim]> (shape_ it)) it).

Fixpoint coalesce_loop (prev_dim : nat) (dims : list nat) (it : TensorIteratorBase)
    : nat * TensorIteratorBase :=
  match dims with
  | [] => (prev_dim, it)
  | dim :: rest => let '(prev_dim, it) := coalesce_step prev_dim dim it in coalesce_loop prev_dim rest it
  end.

Definition coalesce_dimensions (it : TensorIteratorBase) : TensorIteratorBase :=
  if (ndim it <=? 1)%nat then it
  else
    let '(prev_dim, it) := coalesce_loop 0 (seq 1 (ndim it - 1)) it in
    let it := set_shape (resize (prev_dim + 1) 0 (shape_ it)) it in
    set_has_coalesced true
      (set_operands (map (λ op, set_stride_bytes (resize (ndim it) 0 (stride_bytes op)) op) (operands_ it)) it).

(** ** Queries. *)
Definition numel (it : TensorIteratorBase) : Z := foldl Z.mul 1 (shape_ it).

Definition get_dim_strides (dim : nat) (it : TensorIteratorBase) : list Z :=
  map (λ op, if (ndim it =? 0)%nat then 0 else at_ (stride_bytes op) dim) (operands_ it).
Definition get_inner_strides : TensorIteratorBase → list Z := get_dim_strides 0.
Definition get_base_ptrs (it : TensorIteratorBase) : list Z := map op_data (operands_ it).

(** All strides, those of each dimension together, at least two dimensions. *)
Definition get_strides (it : TensorIteratorBase) : list Z :=
  concat (map (λ dim, map (λ op, at_ (stride_bytes op) dim) (operands_ it)) (seq 0 (ndim it)))
  ++ (if (ndim it <? 2)%nat then replicate ((2 - ndim it) * ntensors it) 0 else []).

Definition is_dim_reduced (dim : nat) (it : TensorIteratorBase) : bool :=
  existsb (λ op, is_output op && (at_ (stride_bytes op) dim =? 0) && (at_ (shape_ it) dim >? 1))
    (operands_ it).

(** Those of the first operand. *)
Definition first_strides (it : TensorIteratorBase) : list Z :=
  match operands_ it with op :: _ => stride_bytes op | [] => [] end.
Definition num_output_elements (it : TensorIteratorBase) : Z :=
  foldl (λ elem dim,
    if negb (at_ (first_strides it) dim =? 0) || (at_ (shape_ it) dim =? 0)
    then elem * at_ (shape_ it) dim else elem) 1 (seq 0 (ndim it)).
Definition num_reduce_dims (it : TensorIteratorBase) : nat :=
  foldl (λ count dim, if at_ (first_strides it) dim =? 0 then S count else count) 0%nat (seq 0 (ndim it)).

Definition is_trivial_1d (it : TensorIteratorBase) : bool := (ndim it =? 1)%nat.

Fixpoint contiguous_first_dim (ops : list OperandInfo) : result bool :=
  match ops with
  | [] => Ok true
  | op :: rest =>
      size ← elementSize (current_dtype op);
      if negb (at_ (stride_bytes op) 0 =? size) then Ok false else contiguous_first_dim rest
  end.
Definition has_contiguous_first_dim (it : TensorIteratorBase) : result bool :=
  if (ndim it =? 0)%nat then Ok true else contiguous_first_dim (operands_ it).
Definition is_contiguous (it : TensorIteratorBase) : result bool :=
  if numel it =? 1 then Ok true
  else if negb (ndim it =? 1)%nat then Ok false
  else has_contiguous_first_dim it.

Definition is_scalar (op : OperandInfo) (it : TensorIteratorBase) : bool :=
  forallb (λ i, (at_ (stride_bytes op) i =? 0) || (at_ (shape_ it) i =? 1)) (seq 0 (ndim it)).
Definition is_cpu_scalar (op : OperandInfo) (it : TensorIteratorBase) : bool :=
  is_scalar op it && match op_device op with Some d => is_cpu d | None => false end.

Definition remove_operand (arg : nat) (it : TensorIteratorBase) : TensorIteratorBase :=
  set_operands (take arg (operands_ it) ++ drop (S arg) (operands_ it)) it.
Definition unsafe_replace_operand (arg : nat) (x : Z) (it : TensorIteratorBase) : TensorIteratorBase :=
  set_operands (alter (set_op_data x) arg (operands_ it)) it.

(** ** Parts of the iteration space. *)
(** [op.data + op.stride_bytes[dim] * start]. *)
Definition shift_operands (dim : nat) (start : Z) (ops : list OperandInfo) : list OperandInfo :=
  map (λ op, set_op_data (op_data op + at_ (stride_bytes op) dim * start) op) ops.

Definition narrow (dim : nat) (start size : Z) (it : TensorIteratorBase) : result TensorIteratorBase :=
  _ ← TORCH_INTERNAL_ASSERT ((dim <? ndim it)%nat && (size >=? 1)) "";
  let it := set_dims (<[dim := size]> (shape_ it)) (shift_operands dim start (operands_ it))
              (set_view_offsets (alter (Z.add start) dim (view_offsets_ it)) it) in
  Ok (if (size =? 1) && negb (is_reduction_ it) then coalesce_dimensions it else it).

Fixpoint select_loop (i : nat) (indices : list Z) (it : TensorIteratorBase) : TensorIteratorBase :=
  match indices with
  | [] => it
  | index :: rest =>
      select_loop (S i) rest (set_dims (<[i := 1]> (shape_ it)) (shift_operands i index (operands_ it)) it)
  end.
(** There is an index for each dimension from [start_dim] on. *)
Definition select_all_keeping_dim (start_dim : nat) (indices : list Z) (it : TensorIteratorBase)
    : result TensorIteratorBase :=
  _ ← TORCH_INTERNAL_ASSERT (start_dim <=? ndim it)%nat "";
  Ok (select_loop start_dim (take (ndim it - start_dim) indices) it).

Definition int32_max : Z := 2 ^ 31 - 1.
Definition max_offset (op : OperandInfo) (it : TensorIteratorBase) : Z :=
  foldl (λ m dim, m + (at_ (shape_ it) dim - 1) * at_ (stride_bytes op) dim) 1 (seq 0 (ndim it)).
Definition can_use_32bit_indexing (it : TensorIteratorBase) : bool :=
  if numel it >? int32_max then false
  else forallb (λ op, max_offset op it <=? int32_max) (operands_ it).

(** [split]: the part that is returned, and what is left of the iterator. *)
Definition split (dim : nat) (it : TensorIteratorBase)
    : result (TensorIteratorBase * TensorIteratorBase) :=
  _ ← TORCH_INTERNAL_ASSERT ((dim <? ndim it)%nat && (at_ (shape_ it) dim >=? 2)) "";
  let overlaps := is_dim_reduced dim it in
  let copy_size := at_ (shape_ it) dim / 2 in
  let this_size := at_ (shape_ it) dim - copy_size in
  copy ← narrow dim 0 copy_size it;
  let copy := set_split_flags (accumulate_ copy) (final_output_ copy && negb overlaps) copy in
  this ← narrow dim copy_size this_size it;
  let this := set_split_flags (accumulate_ this || overlaps) (final_output_ this) this in
  Ok (copy, this).

(** The loops of [get_dim_to_split]: the dimensions from the outermost. *)
Definition extent_step (dim : nat) (size : Z) (best : Z * Z) (op : OperandInfo) : Z * Z :=
  let extent := (size - 1) * Z.abs (at_ (stride_bytes op) dim) in
  if extent >? best.1 then (extent, Z.of_nat dim) else best.
Fixpoint split_dim_loop (it : TensorIteratorBase) (n : nat) (best : Z * Z) : Z * Z :=
  match n with
  | O => best
  | S dim =>
      let size := at_ (shape_ it) dim in
      split_dim_loop it dim (if size =? 0 then best else foldl (extent_step dim size) best (operands_ it))
  end.
Definition get_dim_to_split (it : TensorIteratorBase) : result Z :=
  _ ← TORCH_INTERNAL_ASSERT (1 <=? ndim it)%nat "";
  let '(max_extent, dim_to_split) := split_dim_loop it (ndim it) (-1, -1) in
  _ ← TORCH_INTERNAL_ASSERT (max_extent >=? 0) "";
  Ok dim_to_split.

(** [SplitUntil32Bit::iterator]: [vec], its last element first.  The loop of
    [operator++] after the last element was removed. *)
Fixpoint split_until (fuel : nat) (vec : list TensorIteratorBase) : option (result (list TensorIteratorBase)) :=
  match vec with
  | [] => Some (Ok [])
  | iter :: rest =>
      if can_use_32bit_indexing iter then Some (Ok vec)
      else match fuel with
           | O => None
           | S fuel =>
               match (split_dim ← get_dim_to_split iter; split (Z.to_nat split_dim) iter) with
               | Ok (copy, this) => split_until fuel (copy :: this :: rest)
               | Throw e => Some (Throw e)
               end
           end
  end.

(** A loop over [with_32bit_indexing ()]: the iterators it yields. *)
Fixpoint sub_iterators (fuel : nat) (vec : list TensorIteratorBase)
    : option (result (list TensorIteratorBase)) :=
  match fuel with
  | O => None
  | S fuel' =>
      match split_until fuel vec with
      | Some (Ok []) => Some (Ok [])
      | Some (Ok (iter :: rest)) =>
          match sub_iterators fuel' rest with
          | Some (Ok iters) => Some (Ok (iter :: iters))
          | other => other
          end
      | Some (Throw e) => Some (Throw e)
      | None => None
      end
  end.
Definition with_32bit_indexing (fuel : nat) (it : TensorIteratorBase)
    : option (result (list TensorIteratorBase)) := sub_iterators fuel [it].
