(* ===== verification/TensorIteratorLoops.v ===== *)
(** * The loops of the tensor iterator.

    [DimCounter] of aten/src/ATen/TensorIterator.cpp, [serial_for_each] of
    TensorIteratorInternal.h, [for_each], the division of work among threads of
    Parallel-inl.h, ParallelOpenMP.h and ParallelNative.cpp, and the parallel
    reductions of native/TensorIteratorReduce.cpp.

    The function that is passed to the loops is seen through its calls: a loop
    gives the list of calls it makes, a parallel one the list of the calls of
    each thread. *)

From S2P Require Import Prelude ScalarType TensorIterator.

(** aten/src/ATen/core/Range.h. *)
Record Range : Type := mkRange { begin : Z; end_ : Z }.
Definition range_size (r : Range) : Z := end_ r - begin r.

(** ** [DimCounter]. *)
Record DimCounter : Type := mkCounter {
  dc_shape : list Z;
  dc_range : Range;
  values : list Z;
  dc_offset : Z }.

(** The loop of the constructor: the values and what is left of the offset. *)
Fixpoint counter_loop (shape : list Z) (linear_offset : Z) : list Z * Z :=
  match shape with
  | [] => ([], linear_offset)
  | size :: rest =>
      if size >? 0 then
        let '(vs, o) := counter_loop rest (linear_offset / size) in (linear_offset mod size :: vs, o)
      else let '(vs, o) := counter_loop rest linear_offset in (0 :: vs, o)
  end.

Definition new_DimCounter (shape : list Z) (range : Range) : result DimCounter :=
  if begin range =? 0 then Ok (mkCounter shape range (map (λ _, 0) shape) 0)
  else
    let '(vs, linear_offset) := counter_loop shape (begin range) in
    _ ← TORCH_INTERNAL_ASSERT (linear_offset =? 0) "";
    Ok (mkCounter shape range vs (begin range)).

Definition is_done (c : DimCounter) : bool := dc_offset c >=? end_ (dc_range c).

(** The loop of [increment], over the dimensions from [i] on. *)
Fixpoint increment_loop (shape values : list Z) (overflow : Z) : result (list Z * Z) :=
  match shape, values with
  | size :: shape', prev :: values' =>
      if overflow >? 0 then
        let value := prev + overflow in
        if value >=? size then
          _ ← TORCH_INTERNAL_ASSERT (value - size <? size) "";
          p ← increment_loop shape' values' 1;
          Ok (value - size :: p.1, p.2)
        else
          p ← increment_loop shape' values' 0;
          Ok (value :: p.1, p.2)
      else Ok (values, overflow)
  | _, _ => Ok (values, overflow)
  end.

Definition increment (step : Z * Z) (c : DimCounter) : result DimCounter :=
  let offset := dc_offset c + step.1 * step.2 in
  p ← (if negb (step.2 =? 1) then
         _ ← TORCH_INTERNAL_ASSERT ((step.1 =? at_ (dc_shape c) 0) && (at_ (values c) 0 =? 0)) "";
         match dc_shape c, values c with
         | _ :: shape', v :: values' => p ← increment_loop shape' values' step.2; Ok (v :: p.1, p.2)
         | _, _ => Ok (values c, step.2)
         end
       else increment_loop (dc_shape c) (values c) step.1);
  _ ← TORCH_INTERNAL_ASSERT ((p.2 =? 0) || (p.2 =? 1)) "";
  Ok (mkCounter (dc_shape c) (dc_range c) p.1 offset).

Definition max_2d_step (c : DimCounter) : Z * Z :=
  let shape := dc_shape c in
  let step0 := Z.min (at_ shape 0 - at_ (values c) 0) (end_ (dc_range c) - dc_offset c) in
  let step1 :=
    if negb (bool_decide (shape = [])) && (step0 =? at_ shape 0)
    then Z.min (at_ shape 1 - at_ (values c) 1) ((end_ (dc_range c) - dc_offset c) / at_ shape 0)
    else 1 in
  (step0, step1).

(** ** Serial loops. *)
(** A call [loop (ptrs, strides, size0, size1)]. *)
Record loop_call : Type := mkCall { ptrs : list Z; call_strides : list Z; size0 : Z; size1 : Z }.

Definition add_strides (ps st : list Z) (value : Z) : list Z :=
  map (λ p, p.1 + value * p.2) (zip ps st).

(** [strides] are those of the dimensions of [counter], [ntensors] for each. *)
Fixpoint get_data_ptrs (base strides counter : list Z) : list Z :=
  match counter with
  | [] => base
  | value :: rest =>
      let ntensors := length base in
      get_data_ptrs (add_strides base (take ntensors strides) value) (drop ntensors strides) rest
  end.

Fixpoint counter_calls (fuel : nat) (base strides : list Z) (c : DimCounter)
    : option (result (list loop_call)) :=
  if is_done c then Some (Ok [])
  else match fuel with
       | O => None
       | S fuel =>
           let step := max_2d_step c in
           let call := mkCall (get_data_ptrs base strides (values c)) strides step.1 step.2 in
           match increment step c with
           | Ok c =>
               match counter_calls fuel base strides c with
               | Some (Ok calls) => Some (Ok (call :: calls))
               | other => other
               end
           | Throw e => Some (Throw e)
           end
       end.

(** [internal::serial_for_each]. *)
Definition internal_serial_for_each (fuel : nat) (shape strides base_ptrs : list Z) (range : Range)
    : option (result (list loop_call)) :=
  if (length shape <=? 1)%nat then
    Some (Ok [mkCall (if begin range =? 0 then base_ptrs else get_data_ptrs base_ptrs strides [begin range])
                strides (range_size range) 1])
  else match new_DimCounter shape range with
       | Ok c => counter_calls fuel base_ptrs strides c
       | Throw e => Some (Throw e)
       end.

(** Each turn of the loop handles an element at least. *)
Definition loop_fuel (range : Range) : nat := Z.to_nat (range_size range).

Definition serial_for_each (range : Range) (it : TensorIteratorBase) : option (result (list loop_call)) :=
  if range_size range =? 0 then Some (Ok [])
  else internal_serial_for_each (loop_fuel range) (shape_ it) (get_strides it) (get_base_ptrs it) range.

(** [loop_2d_from_1d]: the calls [loop (data, strides, size0)] of a call. *)
Fixpoint outer_loop (data outer_strides strides : list Z) (n : nat) : list (list Z) :=
  match n with
  | O => []
  | S n => data :: outer_loop (add_strides data outer_strides 1) outer_strides strides n
  end.
Definition loop_2d_from_1d (c : loop_call) : list (list Z * list Z * Z) :=
  let ntensor := length (ptrs c) in
  map (λ data, (data, call_strides c, size0 c))
    (outer_loop (ptrs c) (take ntensor (drop ntensor (call_strides c))) (call_strides c) (Z.to_nat (size1 c))).

(** ** Threads. *)
(** What the division of work depends on.  [team] is the number of threads of
    the parallel region of OpenMP. *)
Record threads : Type := mkThreads {
  get_num_threads : Z;
  in_parallel_region : bool;
  team : nat }.

Definition divup (x y : Z) : Z := (x + y - 1) / y.

(** ParallelOpenMP.h: the range of each thread that has one. *)
Definition thread_range (b e chunk_size : Z) (tid : nat) : option Range :=
  let begin_tid := b + Z.of_nat tid * chunk_size in
  if begin_tid <? e then Some (mkRange begin_tid (Z.min e (chunk_size + begin_tid))) else None.
Definition invoke_parallel_openmp (t : threads) (b e grain_size : Z) : list Range :=
  let num_threads := Z.of_nat (team t) in
  let num_threads := if grain_size >? 0 then Z.min num_threads (divup (e - b) grain_size) else num_threads in
  omap (thread_range b e (divup (e - b) num_threads)) (seq 0 (team t)).

(** ParallelNative.cpp. *)
Definition calc_num_tasks_and_chunk_size (t : threads) (b e grain_size : Z) : nat * Z :=
  if e - b <? grain_size then (1%nat, Z.max 0 (e - b))
  else
    let chunk_size := divup (e - b) (get_num_threads t) in
    let chunk_size := Z.max grain_size chunk_size in
    (Z.to_nat (divup (e - b) chunk_size), chunk_size).
Definition invoke_parallel_native (t : threads) (b e grain_size : Z) : list Range :=
  let '(num_tasks, chunk_size) := calc_num_tasks_and_chunk_size t b e grain_size in
  omap (thread_range b e chunk_size) (seq 0 num_tasks).

(** The two back ends of a build, and a build without threads, in which
    [parallel_for] calls the function itself. *)
Inductive parallel_backend : Type := OpenMP | Native | Sequential.
Definition invoke_parallel (backend : parallel_backend) (t : threads) (b e grain_size : Z) : list Range :=
  match backend with
  | OpenMP => invoke_parallel_openmp t b e grain_size
  | Native => invoke_parallel_native t b e grain_size
  | Sequential => [mkRange b e]
  end.

(** The ranges the function is called with. *)
Definition parallel_for (backend : parallel_backend) (t : threads) (b e grain_size : Z) : list Range :=
  if b >=? e then []
  else
    let numiter := e - b in
    let use_parallel := (numiter >? grain_size) && (numiter >? 1) && negb (in_parallel_region t) &&
                        (get_num_threads t >? 1) in
    if negb use_parallel then [mkRange b e] else invoke_parallel backend t b e grain_size.

(** Calls of several loops, one for each range. *)
Fixpoint each_range {A} (f : Range → option (result A)) (rs : list Range) : option (result (list A)) :=
  match rs with
  | [] => Some (Ok [])
  | r :: rest =>
      match f r, each_range f rest with
      | Some (Ok a), Some (Ok l) => Some (Ok (a :: l))
      | Some (Throw e), _ => Some (Throw e)
      | Some (Ok _), other => other
      | None, _ => None
      end
  end.

(** The calls of each thread. *)
Definition for_each (backend : parallel_backend) (t : threads) (grain_size : Z) (it : TensorIteratorBase)
    : option (result (list (list loop_call))) :=
  let numel := numel it in
  if numel =? 0 then Some (Ok [])
  else if (numel <? grain_size) || (get_num_threads t =? 1)
  then each_range (λ r, serial_for_each r it) [mkRange 0 numel]
  else each_range (λ r, serial_for_each r it) (parallel_for backend t 0 numel grain_size).

(** ** Reductions in parallel. *)
Definition GRAIN_SIZE : Z := 32768.

(** The loop of [find_split_dim], [dim] from [n - 1] down to 0: an early
    return, or the best dimension. *)
Fixpoint find_split_loop (num_threads : Z) (it : TensorIteratorBase) (n best_dim : nat) : nat + nat :=
  match n with
  | O => inr best_dim
  | S dim =>
      if is_dim_reduced dim it then inr best_dim
      else if at_ (shape_ it) dim >=? num_threads then inl dim
      else find_split_loop num_threads it dim
             (if at_ (shape_ it) dim >? at_ (shape_ it) best_dim then dim else best_dim)
  end.
Definition find_split_dim (t : threads) (it : TensorIteratorBase) : result nat :=
  match find_split_loop (get_num_threads t) it (ndim it) (ndim it - 1) with
  | inl dim => Ok dim
  | inr best_dim => _ ← TORCH_INTERNAL_ASSERT (negb (is_dim_reduced best_dim it)) ""; Ok best_dim
  end.

Definition round_columns (it : TensorIteratorBase) (dim : nat) (multiple : Z) (r : Range) : Range :=
  mkRange (begin r - begin r mod multiple)
    (if negb (end_ r =? at_ (shape_ it) dim) then end_ r - end_ r mod multiple else end_ r).

(** The calls of a thread of [parallel_dim_reduction] that has the columns of
    a range; [inner] are the threads its own loop sees. *)
Definition reduce_columns (backend : parallel_backend) (inner : threads) (it : TensorIteratorBase) (dim : nat)
    (element_size : Z) (should_round_columns : bool) (r : Range) : option (result (list (list loop_call))) :=
  let r := if should_round_columns then round_columns it dim (128 / element_size) r else r in
  if begin r =? end_ r then Some (Ok [])
  else match narrow dim (begin r) (range_size r) it with
       | Ok sub_iter => for_each backend inner GRAIN_SIZE sub_iter
       | Throw e => Some (Throw e)
       end.

Definition parallel_dim_reduction (backend : parallel_backend) (t inner : threads) (it : TensorIteratorBase)
    : option (result (list (list (list loop_call)))) :=
  match (_ ← TORCH_INTERNAL_ASSERT (1 <=? ndim it)%nat "";
         dim ← find_split_dim t it;
         op ← match operands_ it !! 1%nat with Some op => Ok op | None => Throw (UndefinedBehaviour "") end;
         element_size ← elementSize (current_dtype op);
         Ok (dim, element_size, at_ (stride_bytes op) dim =? element_size)) with
  | Throw e => Some (Throw e)
  | Ok (dim, element_size, should_round_columns) =>
      let cols := at_ (shape_ it) dim in
      each_range (reduce_columns backend inner it dim element_size should_round_columns)
        (parallel_for backend t 0 cols 1)
  end.

(** [foreach_reduced_elt] when it does not use threads: the iterators it calls
    [loop] with, one for each element of the output. *)
Fixpoint reduced_loop (fuel : nat) (reduce_dims : nat) (it : TensorIteratorBase) (dims : DimCounter)
    : option (result (list TensorIteratorBase)) :=
  if is_done dims then Some (Ok [])
  else match fuel with
       | O => None
       | S fuel =>
           match (reduced ← select_all_keeping_dim reduce_dims (values dims) it;
                  dims ← increment (1, 1) dims; Ok (reduced, dims)) with
           | Throw e => Some (Throw e)
           | Ok (reduced, dims) =>
               match reduced_loop fuel reduce_dims it dims with
               | Some (Ok iters) => Some (Ok (reduced :: iters))
               | other => other
               end
           end
       end.
Definition serial_foreach_reduced_elt (it : TensorIteratorBase) : option (result (list TensorIteratorBase)) :=
  let reduce_dims := num_reduce_dims it in
  let non_reduced_shape := drop reduce_dims (shape_ it) in
  let non_reduced_numel := foldl Z.mul 1 non_reduced_shape in
  match new_DimCounter non_reduced_shape (mkRange 0 non_reduced_numel) with
  | Ok dims => reduced_loop (Z.to_nat non_reduced_numel) reduce_dims it dims
  | Throw e => Some (Throw e)
  end.

(** [output_numel] is the number of elements of the first output.  The call for
    a part does not use threads again. *)
Definition foreach_reduced_elt (backend : parallel_backend) (t : threads) (output_numel : Z)
    (parallelize : bool) (it : TensorIteratorBase) : option (result (list (list TensorIteratorBase))) :=
  match (_ ← TORCH_INTERNAL_ASSERT (ninputs it =? 1)%nat "";
         TORCH_INTERNAL_ASSERT (1 <=? noutputs it)%nat "") with
  | Throw e => Some (Throw e)
  | Ok _ =>
      if output_numel =? 0 then Some (Ok [])
      else if output_numel =? 1 then Some (Ok [[it]])
      else if (numel it <? GRAIN_SIZE) || (get_num_threads t =? 1) || in_parallel_region t || negb parallelize
      then match serial_foreach_reduced_elt it with
           | Some (Ok iters) => Some (Ok [iters]) | Some (Throw e) => Some (Throw e) | None => None end
      else match find_split_dim t it with
           | Throw e => Some (Throw e)
           | Ok dim =>
               each_range (λ r,
                 if begin r =? end_ r then Some (Ok [])
                 else match narrow dim (begin r) (range_size r) it with
                      | Ok sub_iter => serial_foreach_reduced_elt sub_iter
                      | Throw e => Some (Throw e)
                      end) (parallel_for backend t 0 (at_ (shape_ it) dim) 1)
           end
  end.
