(* ===== verification/IterSpace.v ===== *)
(** * The iteration space.

    The multi-indices of a shape, the elements an iterator visits, and the
    operations of TensorIterator.v that keep them: coalescing and reordering. *)

From S2P Require Import Prelude Layout ScalarType TensorIterator.

(** ** Multi-indices, the innermost dimension first. *)
Fixpoint digits (shape : list Z) (k : Z) : list Z :=
  match shape with
  | [] => []
  | s :: rest => k mod s :: digits rest (k / s)
  end.

Definition indices (shape : list Z) : list (list Z) :=
  map (digits shape) (seqZ 0 (multiply_integers shape)).

Lemma digits_length shape : ∀ k, length (digits shape k) = length shape.
Proof. induction shape as [|s rest IH]; intros k; simpl; [done|]. by rewrite IH. Qed.

Lemma digits_in_bounds shape : positive shape → ∀ k, in_bounds shape (digits shape k).
Proof.
  induction 1 as [|s rest Hs _ IH]; intros k; simpl; constructor; [|apply IH].
  apply Z.mod_pos_bound. lia.
Qed.

Lemma digits_inj shape : positive shape → ∀ k k', 0 <= k < multiply_integers shape →
  0 <= k' < multiply_integers shape → digits shape k = digits shape k' → k = k'.
Proof.
  induction 1 as [|s rest Hs Hr IH]; intros k k' Hk Hk'; simpl in *; [lia|].
  intros [= Hm Hd]. apply IH in Hd; [| split; [apply Z.div_pos; lia|apply Z.div_lt_upper_bound; lia]..].
  rewrite (Z.div_mod k s), (Z.div_mod k' s) by lia. congruence.
Qed.

Lemma digits_surj shape idx : in_bounds shape idx →
  ∃ k, 0 <= k < multiply_integers shape ∧ digits shape k = idx.
Proof.
  induction 1 as [|s i rest idx Hi _ (k & Hk & <-)]; simpl; [exists 0; split; [lia|done]|].
  exists (i + s * k). split; [nia|].
  rewrite (Z.mul_comm s k), Z.mod_add, Z.div_add, Z.mod_small, Z.div_small by lia. by rewrite Z.add_0_l.
Qed.

Lemma in_indices shape idx : positive shape → idx ∈ indices shape ↔ in_bounds shape idx.
Proof.
  intros Hp. unfold indices. rewrite list_elem_of_fmap. split.
  - intros (k & -> & _). by apply digits_in_bounds.
  - intros Hb. destruct (digits_surj shape idx Hb) as (k & Hk & <-). exists k. split; [done|].
    apply elem_of_seqZ. lia.
Qed.

Lemma NoDup_indices shape : positive shape → NoDup (indices shape).
Proof.
  intros Hp. unfold indices. apply NoDup_fmap_2_strong; [|apply NoDup_seqZ].
  intros k k' Hk Hk' E. apply elem_of_seqZ in Hk, Hk'. apply (digits_inj shape); [done|lia..|done].
Qed.

Lemma offset_digits shape : ∀ st k, length st = length shape →
  offset (digits shape k) st = laddr (zip shape st) k.
Proof.
  induction shape as [|s rest IH]; intros [|t st] k; simpl; try done. intros [= Hl]. by rewrite IH.
Qed.

#[local] Arguments at_ : simpl never.

(** ** The elements an iterator visits. *)
(** The address of each operand at a multi-index. *)
Definition addresses (it : TensorIteratorBase) (idx : list Z) : list Z :=
  map (λ op, op_data op + offset idx (stride_bytes op)) (operands_ it).

Definition elements (it : TensorIteratorBase) : list (list Z) := map (addresses it) (indices (shape_ it)).

Definition nonneg_shape (it : TensorIteratorBase) : Prop := Forall (λ s, 0 <= s) (shape_ it).

(** Each operand has a stride for each dimension. *)
Record iter_ok (it : TensorIteratorBase) : Prop := {
  iter_shape : nonneg_shape it;
  iter_strides : Forall (λ op, length (stride_bytes op) = ndim it) (operands_ it) }.

Lemma foldl_mul l : ∀ a, foldl Z.mul a l = a * multiply_integers l.
Proof. induction l as [|x l IH]; intros a; simpl; [lia|]. rewrite IH. lia. Qed.
Lemma numel_eq it : numel it = multiply_integers (shape_ it).
Proof. unfold numel. rewrite foldl_mul. lia. Qed.

Lemma numel_positive it : iter_ok it → 0 < numel it → positive (shape_ it).
Proof. rewrite numel_eq. intros [Hs _] Hn. apply multiply_nonzero_pos; [done|lia]. Qed.

(** ** Coalescing. *)
(** The dimensions in the middle of the loop: those up to [prev_dim] are done,
    those from [dim] on are still to come. *)
Definition view {A} (prev dim : nat) (l : list A) : list A := take (S prev) l ++ drop dim l.
#[local] Arguments view : simpl never.

Lemma at_lookup l i : (i < length l)%nat → l !! i = Some (at_ l i).
Proof. intros [x Hx]%lookup_lt_is_Some_2. unfold at_. by rewrite nth_lookup, Hx. Qed.

Lemma take_S_at l i : (i < length l)%nat → take (S i) l = take i l ++ [at_ l i].
Proof. intros Hi. apply take_S_r. by apply at_lookup. Qed.
Lemma drop_at l i : (i < length l)%nat → drop i l = at_ l i :: drop (S i) l.
Proof. intros Hi. apply drop_S. by apply at_lookup. Qed.

Lemma view_split prev dim l : (prev < length l)%nat → (dim < length l)%nat →
  view prev dim l = take prev l ++ at_ l prev :: at_ l dim :: drop (S dim) l.
Proof. intros. unfold view. rewrite take_S_at, drop_at by done. by rewrite <- app_assoc. Qed.

Lemma view_merge prev dim (l : list Z) x : (prev < dim)%nat → (dim < length l)%nat →
  view prev (S dim) (<[prev := x]> l) = take prev l ++ x :: drop (S dim) l.
Proof.
  intros. unfold view. rewrite take_S_at by (rewrite length_insert; lia).
  rewrite take_insert_ge, drop_insert_lt by lia.
  assert (at_ (<[prev := x]> l) prev = x) as ->.
  { unfold at_. rewrite nth_lookup, list_lookup_insert_eq by lia. done. }
  by rewrite <- app_assoc.
Qed.

Lemma view_advance prev dim (l : list Z) : (prev < dim)%nat → (dim < length l)%nat →
  view (S prev) (S dim) (if (S prev =? dim)%nat then l else <[S prev := at_ l dim]> l) = view prev dim l.
Proof.
  intros. destruct (Nat.eqb_spec (S prev) dim) as [<-|Hne].
  - unfold view. by rewrite !take_drop.
  - rewrite view_merge by lia. unfold view. by rewrite (drop_at l dim).
Qed.

Lemma zip_split {A B} (l1 l2 : list A) (k1 k2 : list B) (a b : A) (a' b' : B) : length l1 = length k1 →
  zip (l1 ++ a :: b :: l2) (k1 ++ a' :: b' :: k2) = zip l1 k1 ++ (a, a') :: (b, b') :: zip l2 k2.
Proof. intros Hl. by rewrite zip_with_app by done. Qed.
Lemma zip_split1 {A B} (l1 l2 : list A) (k1 k2 : list B) (a : A) (a' : B) : length l1 = length k1 →
  zip (l1 ++ a :: l2) (k1 ++ a' :: k2) = zip l1 k1 ++ (a, a') :: zip l2 k2.
Proof. intros Hl. by rewrite zip_with_app by done. Qed.

(** Two dimensions that may be coalesced number the same addresses as one. *)
Lemma laddr_merge s0 t0 s1 t1 rest k : 0 < s0 → 0 < s1 → s0 = 1 ∨ s1 = 1 ∨ s0 * t0 = t1 →
  laddr ((s0 * s1, if s0 =? 1 then t1 else t0) :: rest) k = laddr ((s0, t0) :: (s1, t1) :: rest) k.
Proof.
  intros H0 H1 Hc. cbn [laddr]. rewrite Z.div_div by lia. rewrite Z.add_assoc. f_equal.
  destruct (Z.eqb_spec s0 1) as [->|Hne].
  - rewrite Z.mod_1_r, Z.div_1_r, Z.mul_1_l. lia.
  - rewrite Z.rem_mul_r by lia. destruct Hc as [?|[->|<-]]; [lia|rewrite Z.mod_1_r; lia|lia].
Qed.

(** What the operations on dimensions change of an operand. *)
Definition restrided (op0 op : OperandInfo) : Prop := op = set_stride_bytes (stride_bytes op) op0.

Lemma restrided_refl op : restrided op op.
Proof. by destruct op. Qed.
Lemma restrided_set op0 op st : restrided op0 op → restrided op0 (set_stride_bytes st op).
Proof. unfold restrided. intros ->. done. Qed.
Lemma restrided_data op0 op : restrided op0 op → op_data op = op_data op0.
Proof. by intros ->. Qed.

Record merged (it0 : TensorIteratorBase) (prev dim : nat) (it : TensorIteratorBase) : Prop := {
  merged_fields : it = set_dims (shape_ it) (operands_ it) it0;
  merged_length : ndim it = ndim it0;
  merged_shape : Forall (λ s, 0 <= s) (view prev dim (shape_ it));
  merged_numel : multiply_integers (view prev dim (shape_ it)) = multiply_integers (shape_ it0);
  merged_ops : Forall2 (λ op0 op, restrided op0 op ∧ length (stride_bytes op) = ndim it0 ∧
    ∀ k, 0 <= k < multiply_integers (shape_ it0) →
      laddr (zip (view prev dim (shape_ it)) (view prev dim (stride_bytes op))) k
      = laddr (zip (shape_ it0) (stride_bytes op0)) k) (operands_ it0) (operands_ it) }.

Lemma multiply_merge l1 a b l2 :
  multiply_integers (l1 ++ a * b :: l2) = multiply_integers (l1 ++ a :: b :: l2).
Proof. rewrite !multiply_app. simpl. lia. Qed.

Lemma laddr_view_merge l1 l2 k1 k2 s0 t0 s1 t1 k : length l1 = length k1 →
  positive (l1 ++ s0 :: s1 :: l2) → 0 <= k → s0 = 1 ∨ s1 = 1 ∨ s0 * t0 = t1 →
  laddr (zip (l1 ++ s0 * s1 :: l2) (k1 ++ (if s0 =? 1 then t1 else t0) :: k2)) k
  = laddr (zip (l1 ++ s0 :: s1 :: l2) (k1 ++ t0 :: t1 :: k2)) k.
Proof.
  intros Hl Hp Hk Hc. apply positive_app in Hp as [H1 [H0 [Hs H2]%positive_cons]%positive_cons].
  rewrite zip_split, zip_split1 by done.
  assert (positive (dims_sizes (zip l1 k1))) as H1' by (by rewrite dims_sizes_zip).
  rewrite !laddr_app by done. f_equal. by apply laddr_merge.
Qed.

Lemma can_coalesce_cases prev dim it : can_coalesce prev dim it = true →
  ∀ op, op ∈ operands_ it → at_ (shape_ it) prev = 1 ∨ at_ (shape_ it) dim = 1 ∨
    at_ (shape_ it) prev * at_ (stride_bytes op) prev = at_ (stride_bytes op) dim.
Proof.
  unfold can_coalesce. destruct (_ || _) eqn:E.
  - intros _ op _. apply orb_true_iff in E as [E|E]; bool_simpl; auto.
  - intros Hc op Hin. rewrite forallb_forall in Hc. specialize (Hc op). rewrite <- list_elem_of_In in Hc.
    specialize (Hc Hin). bool_simpl. auto.
Qed.

Lemma merged_coalesce it0 prev dim it : merged it0 prev dim it → (prev < dim)%nat → (dim < ndim it0)%nat →
  can_coalesce prev dim it = true →
  let it1 := if at_ (shape_ it) prev =? 1 then replace_stride prev dim it else it in
  merged it0 prev (S dim)
    (set_shape (<[prev := at_ (shape_ it1) prev * at_ (shape_ it1) dim]> (shape_ it1)) it1).
Proof.
  intros [Hf Hl Hs Hn Hops] Hpd Hd Hc it1. unfold ndim in *.
  pose proof (can_coalesce_cases prev dim it Hc) as Hcc.
  assert (shape_ it1 = shape_ it) as Esh by (unfold it1; by destruct (_ =? _)).
  rewrite Esh. rewrite view_split in Hs, Hn by lia.
  assert (view prev (S dim) (<[prev:=at_ (shape_ it) prev * at_ (shape_ it) dim]> (shape_ it))
    = take prev (shape_ it) ++ at_ (shape_ it) prev * at_ (shape_ it) dim :: drop (S dim) (shape_ it)) as Ev
    by (apply view_merge; lia).
  split; cbn.
  - unfold it1. rewrite Hf. by destruct (_ =? _).
  - unfold ndim. cbn. by rewrite length_insert.
  - rewrite Ev. apply Forall_app in Hs as [H1 [H2 [H3 H4]%Forall_cons]%Forall_cons].
    apply Forall_app. split; [done|]. apply Forall_cons. split; [lia|done].
  - rewrite Ev, multiply_merge. done.
  - rewrite Ev. assert (operands_ it1 = map (λ op, if at_ (shape_ it) prev =? 1
      then set_stride_bytes (<[prev:=at_ (stride_bytes op) dim]> (stride_bytes op)) op else op) (operands_ it)) as ->.
    { unfold it1. destruct (_ =? _); [done|]. by rewrite map_id. }
    apply Forall2_fmap_r. apply Forall2_same_length_lookup_2; [by eapply Forall2_length|].
    intros i op0 op H0 H1. pose proof (Forall2_lookup_lr _ _ _ _ _ _ Hops H0 H1) as (Hr & Hlen & Hk).
    set (b := at_ (shape_ it) prev =? 1) in *. split; [|split].
    + destruct b; [by apply restrided_set|done].
    + destruct b; cbn; [by rewrite length_insert|done].
    + intros k Hkr. rewrite <- Hk by done.
      rewrite (view_split prev dim (shape_ it)), (view_split prev dim (stride_bytes op)) by lia.
      assert (view prev (S dim) (stride_bytes (if b then set_stride_bytes
          (<[prev:=at_ (stride_bytes op) dim]> (stride_bytes op)) op else op))
        = take prev (stride_bytes op) ++
          (if b then at_ (stride_bytes op) dim else at_ (stride_bytes op) prev) :: drop (S dim) (stride_bytes op))
        as ->.
      { destruct b; cbn; [apply view_merge; lia|]. unfold view. rewrite take_S_at by lia. by rewrite <- app_assoc. }
      unfold b. apply laddr_view_merge; [rewrite !length_take; lia| |lia|].
      * apply Forall_forall. intros s Hin. rewrite Forall_forall in Hs.
        assert (0 <= s) by (by apply Hs). destruct (decide (s = 0)) as [->|]; [|lia].
        assert (multiply_integers (take prev (shape_ it) ++ at_ (shape_ it) prev :: at_ (shape_ it) dim
          :: drop (S dim) (shape_ it)) ≠ 0) as Hnz by lia.
        apply multiply_nonzero_pos in Hnz; [|by apply Forall_forall].
        rewrite Forall_forall in Hnz. by specialize (Hnz 0 Hin).
      * apply Hcc. by eapply list_elem_of_lookup_2.
Qed.

Lemma merged_advance it0 prev dim it : merged it0 prev dim it → (prev < dim)%nat → (dim < ndim it0)%nat →
  merged it0 (S prev) (S dim)
    (if (S prev =? dim)%nat then it
     else let it := replace_stride (S prev) dim it in
          set_shape (<[S prev := at_ (shape_ it) dim]> (shape_ it)) it).
Proof.
  intros [Hf Hl Hs Hn Hops] Hpd Hd. unfold ndim in *.
  pose proof (view_advance prev dim (shape_ it)) as Ev.
  destruct (Nat.eqb_spec (S prev) dim) as [E|Hne]; cbn zeta.
  - split; try done; [by rewrite Ev by lia..|]. eapply Forall2_impl; [exact Hops|].
    intros op0 op (Hr & Hlen & Hk). split; [done|]. split; [done|]. intros k Hkr. rewrite Ev by lia.
    pose proof (view_advance prev dim (stride_bytes op)) as Ev'.
    rewrite (proj2 (Nat.eqb_eq _ _) E) in Ev'. rewrite Ev' by lia. by apply Hk.
  - split; cbn.
    + by rewrite Hf.
    + unfold ndim. cbn. by rewrite length_insert.
    + by rewrite Ev by lia.
    + by rewrite Ev by lia.
    + apply Forall2_fmap_r. eapply Forall2_impl; [exact Hops|]. intros op0 op (Hr & Hlen & Hk).
      split; [by apply restrided_set|]. split; [cbn; by rewrite length_insert|]. intros k Hkr.
      rewrite Ev by lia. cbn. pose proof (view_advance prev dim (stride_bytes op)) as Ev'.
      rewrite (proj2 (Nat.eqb_neq _ _) Hne) in Ev'. rewrite Ev' by lia. by apply Hk.
Qed.

Lemma merged_loop it0 n : ∀ prev dim it, merged it0 prev dim it → (prev < dim)%nat → (dim + n = ndim it0)%nat →
  let '(prev', it') := coalesce_loop prev (seq dim n) it in
  merged it0 prev' (ndim it0) it' ∧ (prev' < ndim it0)%nat.
Proof.
  induction n as [|n IH]; intros prev dim it Hm Hpd Hd; cbn [seq coalesce_loop].
  - replace (ndim it0) with dim by lia. by split.
  - unfold coalesce_step. destruct (can_coalesce prev dim it) eqn:Hc.
    + apply IH; [apply merged_coalesce; done || lia|lia|lia].
    + apply IH; [apply merged_advance; done || lia|lia|lia].
Qed.

(** The operands keep everything but their strides. *)
Definition restrided_ops (it it' : TensorIteratorBase) : Prop :=
  Forall2 restrided (operands_ it) (operands_ it').

Lemma merged_start it : iter_ok it → (1 < ndim it)%nat → merged it 0 1 it.
Proof.
  intros [Hs Hst] Hn. unfold ndim, nonneg_shape in *.
  assert (∀ l : list Z, view 0 1 l = l) as Ev by (intros [|x l]; done).
  split; rewrite ?Ev; try done; [by destruct it|].
  apply Forall_Forall2_diag. eapply Forall_impl; [exact Hst|]. intros op Hlen.
  split; [apply restrided_refl|]. split; [done|]. intros k _. by rewrite !Ev.
Qed.

Lemma resize_take {A} n (d : A) l : (n <= length l)%nat → resize n d l = take n l.
Proof. intros Hn. rewrite resize_spec. replace (n - length l)%nat with 0%nat by lia. by rewrite app_nil_r. Qed.

Lemma addresses_ext it it' idx idx' :
  Forall2 (λ op op', op_data op + offset idx (stride_bytes op) = op_data op' + offset idx' (stride_bytes op'))
    (operands_ it) (operands_ it') → addresses it idx = addresses it' idx'.
Proof. unfold addresses. induction 1 as [|? ? ? ? H _ IH]; simpl; congruence. Qed.

(** Coalescing keeps the elements and their order. *)
Lemma coalesce_dimensions_spec it : iter_ok it →
  let it' := coalesce_dimensions it in
  iter_ok it' ∧ restrided_ops it it' ∧ numel it' = numel it ∧ elements it' = elements it ∧
  it' = set_has_coalesced (has_coalesced_dimensions_ it') (set_dims (shape_ it') (operands_ it') it).
Proof.
  intros Hok it'. unfold it', coalesce_dimensions. destruct (Nat.leb_spec (ndim it) 1) as [Hle|Hlt].
  { split_and!; try done; [|by destruct it]. apply Forall_Forall2_diag, Forall_forall. intros. apply restrided_refl. }
  pose proof (merged_loop it (ndim it - 1) 0 1 it (merged_start it Hok Hlt) ltac:(lia) ltac:(lia)) as Hm.
  destruct (coalesce_loop 0 (seq 1 (ndim it - 1)) it) as [prev it1]. destruct Hm as [[Hf Hl Hs Hn Hops] Hp].
  unfold ndim in Hl. unfold ndim in Hp at 1. unfold ndim at 1 in Hs. unfold ndim at 1 in Hn.
  assert (∀ l : list Z, length l = length (shape_ it) →
    view prev (length (shape_ it)) l = resize (prev + 1) 0 l) as Ev.
  { intros l Hll. unfold view. rewrite <- Hll at 1. rewrite drop_all, app_nil_r, Nat.add_1_r.
    rewrite resize_take by (unfold ndim in *; lia). done. }
  cbv zeta. rewrite Ev in Hs, Hn by done. set (it2 := set_shape (resize (prev + 1) 0 (shape_ it1)) it1).
  assert (ndim it2 = (prev + 1)%nat) as End by (unfold ndim; cbn; by rewrite length_resize).
  rewrite End.
  assert (Forall2 restrided (operands_ it)
    (map (λ op, set_stride_bytes (resize (prev + 1) 0 (stride_bytes op)) op) (operands_ it2))) as Hre.
  { apply Forall2_fmap_r. eapply Forall2_impl; [exact Hops|]. intros op0 op (Hr & _). by apply restrided_set. }
  assert (numel it2 = numel it) as Enum
    by (rewrite !numel_eq; done).
  split; [|split; [exact Hre|split; [exact Enum|split]]].
  - split; cbn; [exact Hs|]. apply Forall_fmap, Forall_forall. intros op _. cbn. by rewrite !length_resize.
  - set (it3 := set_has_coalesced true _).
    assert (shape_ it3 = resize (prev + 1) 0 (shape_ it1)) as Esh by done.
    unfold elements, indices. rewrite Esh, Hn. rewrite <- !list_fmap_compose.
    apply list_fmap_ext. intros i k Hi. apply lookup_seqZ in Hi as [-> Hi].
    symmetry. apply addresses_ext. apply Forall2_fmap_r.
    apply Forall2_same_length_lookup_2; [by eapply Forall2_length|].
    intros j op0 op H0 H1. pose proof (Forall2_lookup_lr _ _ _ _ _ _ Hops H0 H1) as (Hr & Hlen & Hk). cbn.
    cbn. rewrite (restrided_data _ _ Hr). f_equal.
    pose proof (iter_strides it Hok) as Hst. rewrite Forall_forall in Hst.
    specialize (Hst op0 ltac:(by eapply list_elem_of_lookup_2)).
    rewrite !offset_digits by (unfold ndim in *; rewrite ?length_resize; lia).
    rewrite <- Hk by lia. unfold ndim. by rewrite !Ev by (unfold ndim in *; lia).
  - unfold it2. clear -Hf. rewrite Hf. reflexivity.
Qed.

(** ** An iterator to try the operations on: a copy of a transposed tensor of
    32-bit floats, and a sum over its first dimension. *)
Definition float_operand (data : Z) (strides : list Z) (output : bool) : OperandInfo :=
  mkOperand data strides (Some kCPU) Float Float output false false (negb output) None None.
Definition example_iterator (shape : list Z) (ops : list OperandInfo) (reduction : bool) : TensorIteratorBase :=
  mkIterator shape [] false false (map (λ _, 0) shape) ops 1 true false Float kCPU false true reduction false.
Definition copy_iterator : TensorIteratorBase :=
  example_iterator [4; 3; 2] [float_operand 1000 [4; 16; 48] true; float_operand 2000 [12; 4; 48] false] false.
Definition sum_iterator : TensorIteratorBase :=
  example_iterator [4; 3; 2] [float_operand 1000 [8; 0; 4] true; float_operand 2000 [24; 8; 4] false] true.

Lemma copy_iterator_ok : iter_ok copy_iterator.
Proof. split; repeat constructor; lia. Qed.
Lemma sum_iterator_ok : iter_ok sum_iterator.
Proof. split; repeat constructor; lia. Qed.
