(* ===== verification/IterDims.v ===== *)
(** * Reordering and coalescing.

    Coalescing keeps the elements in order and leaves no two dimensions that
    could still be coalesced; reordering permutes the dimensions, so that it
    visits the same elements, and sorts them by the strides of the first
    operand that will not be resized, unless linear iteration is enforced. *)

From S2P Require Import Prelude Layout ScalarType TensorIterator IterSpace.

#[local] Arguments at_ : simpl never.

(** ** What coalescing leaves. *)
(** The dimensions before [prev] are not coalesced with the next one. *)
Definition separate (prev : nat) (it : TensorIteratorBase) : Prop :=
  ∀ d, (d < prev)%nat → can_coalesce d (S d) it = false.

Lemma can_coalesce_ext d d' it it' : at_ (shape_ it) d = at_ (shape_ it') d →
  (at_ (shape_ it) d' = 1 ↔ at_ (shape_ it') d' = 1) →
  Forall2 (λ op op', at_ (stride_bytes op) d = at_ (stride_bytes op') d ∧
    at_ (stride_bytes op) d' = at_ (stride_bytes op') d') (operands_ it) (operands_ it') →
  can_coalesce d d' it = can_coalesce d d' it'.
Proof.
  intros E1 E2 Hops. unfold can_coalesce. rewrite <- E1.
  assert ((at_ (shape_ it) d' =? 1) = (at_ (shape_ it') d' =? 1)) as <- by (apply Z.eqb_eq in E1; lia).
  destruct (_ || _); [done|]. induction Hops as [|op op' ops ops' [Ha Hb] _ IH]; simpl; [done|].
  by rewrite IH, Ha, Hb.
Qed.

Lemma can_coalesce_false d d' it : can_coalesce d d' it = false →
  at_ (shape_ it) d ≠ 1 ∧ at_ (shape_ it) d' ≠ 1.
Proof. unfold can_coalesce. destruct (_ || _) eqn:E; [done|]. intros _. bool_simpl. lia. Qed.

Lemma at_insert_ne (l : list Z) i j x : i ≠ j → at_ (<[i := x]> l) j = at_ l j.
Proof. intros. unfold at_. by rewrite !nth_lookup, list_lookup_insert_ne. Qed.
Lemma at_insert_eq (l : list Z) i x : (i < length l)%nat → at_ (<[i := x]> l) i = x.
Proof. intros. unfold at_. by rewrite nth_lookup, list_lookup_insert_eq. Qed.
Lemma at_take (l : list Z) n i : (i < n)%nat → at_ (take n l) i = at_ l i.
Proof. intros. unfold at_. by rewrite !nth_lookup, lookup_take_lt. Qed.

Lemma forallb_map_ext {A B} (f : A → B) (p : B → bool) (q : A → bool) l :
  (∀ x, x ∈ l → p (f x) = q x) → forallb p (map f l) = forallb q l.
Proof.
  induction l as [|x l IH]; simpl; intros H; [done|]. rewrite (H x) by constructor.
  rewrite IH; [done|]. intros y Hy. apply H. by constructor.
Qed.

Section separate_step.
Context (prev dim : nat) (it : TensorIteratorBase).
Context (Hpd : (prev < dim)%nat) (Hd : (dim < ndim it)%nat).
Context (Hlen : Forall (λ op, length (stride_bytes op) = ndim it) (operands_ it)).
Context (Hpos : 0 <= at_ (shape_ it) prev ∧ 0 <= at_ (shape_ it) dim).

Lemma separate_coalesce : separate prev it → can_coalesce prev dim it = true →
  let it1 := if at_ (shape_ it) prev =? 1 then replace_stride prev dim it else it in
  separate prev (set_shape (<[prev := at_ (shape_ it1) prev * at_ (shape_ it1) dim]> (shape_ it1)) it1).
Proof.
  intros Hs Hc it1 d Hdp. pose proof (can_coalesce_false _ _ _ (Hs d Hdp)) as [H1 H2].
  assert (shape_ it1 = shape_ it) as Esh by (unfold it1; by destruct (_ =? _)). rewrite Esh.
  rewrite <- (Hs d Hdp). unfold ndim in *. apply can_coalesce_ext; cbn.
  - by rewrite at_insert_ne by lia.
  - destruct (decide (S d = prev)) as [E|Hne]; [|by rewrite at_insert_ne by lia].
    rewrite E in *. rewrite at_insert_eq by lia.
    split; [intros Hm; by apply Z.eq_mul_1_nonneg in Hm as [? _]; [|tauto]|done].
  - unfold it1. destruct (Z.eqb_spec (at_ (shape_ it) prev) 1) as [E|E].
    + cbn. apply Forall2_fmap_l, Forall_Forall2_diag, Forall_forall. intros op _. cbn.
      assert (S d ≠ prev) by (intros Hx; rewrite Hx in H2; lia). by rewrite !at_insert_ne by lia.
    + by apply Forall_Forall2_diag, Forall_forall.
Qed.

Lemma separate_advance : separate prev it → can_coalesce prev dim it = false →
  separate (S prev)
    (if (S prev =? dim)%nat then it
     else let it := replace_stride (S prev) dim it in
          set_shape (<[S prev := at_ (shape_ it) dim]> (shape_ it)) it).
Proof.
  intros Hs Hc d Hdp. unfold ndim in *. destruct (Nat.eqb_spec (S prev) dim) as [<-|Hne].
  { destruct (decide (d = prev)) as [->|]; [done|]. apply Hs. lia. }
  destruct (decide (d = prev)) as [->|Hdne].
  - rewrite <- Hc. unfold can_coalesce. cbn. rewrite at_insert_ne, at_insert_eq by lia.
    destruct (_ || _); [done|]. apply forallb_map_ext.
    intros op Hin. cbn. rewrite Forall_forall in Hlen.
    rewrite at_insert_ne, at_insert_eq by (try lia; rewrite (Hlen op Hin); lia). done.
  - rewrite <- (Hs d) by lia. apply can_coalesce_ext; cbn.
    + by rewrite at_insert_ne by lia.
    + by rewrite at_insert_ne by lia.
    + apply Forall2_fmap_l, Forall_Forall2_diag, Forall_forall. intros op _. cbn.
      by rewrite !at_insert_ne by lia.
Qed.
End separate_step.

(** No two adjacent dimensions can be coalesced. *)
Definition coalesced (it : TensorIteratorBase) : Prop := separate (ndim it - 1) it.

Lemma separate_loop it0 n : ∀ prev dim it, merged it0 prev dim it → separate prev it →
  (prev < dim)%nat → (dim + n = ndim it0)%nat →
  let '(prev', it') := coalesce_loop prev (seq dim n) it in separate prev' it'.
Proof.
  induction n as [|n IH]; intros prev dim it Hm Hs Hpd Hd; cbn [seq coalesce_loop]; [done|].
  pose proof Hm as [_ Hl Hsh _ Hops]. 
  assert ((dim < ndim it)%nat) as Hdn by lia.
  assert (Forall (λ op, length (stride_bytes op) = ndim it) (operands_ it)) as Hlen.
  { rewrite Hl. clear -Hops. induction Hops as [|? ? ? ? (_ & ? & _) _ IH]; by constructor. }
  assert (0 <= at_ (shape_ it) prev ∧ 0 <= at_ (shape_ it) dim) as Hpos.
  { unfold ndim in Hdn. rewrite view_split in Hsh by lia.
    apply Forall_app in Hsh as [_ [? [? _]%Forall_cons]%Forall_cons]. done. }
  unfold coalesce_step. destruct (can_coalesce prev dim it) eqn:Hc.
  - apply IH; [apply merged_coalesce; done || lia|by apply separate_coalesce|lia|lia].
  - apply IH; [apply merged_advance; done || lia|by apply separate_advance|lia|lia].
Qed.

Lemma coalesce_dimensions_coalesced it : iter_ok it → coalesced (coalesce_dimensions it).
Proof.
  intros Hok. unfold coalesce_dimensions. destruct (Nat.leb_spec (ndim it) 1) as [Hle|Hlt].
  { intros d Hd. lia. }
  pose proof (separate_loop it (ndim it - 1) 0 1 it (merged_start it Hok Hlt)) as Hs.
  pose proof (merged_loop it (ndim it - 1) 0 1 it (merged_start it Hok Hlt) ltac:(lia) ltac:(lia)) as Hm.
  destruct (coalesce_loop 0 (seq 1 (ndim it - 1)) it) as [prev it1]. destruct Hm as [[_ Hl _ _ _] Hp].
  specialize (Hs ltac:(intros d Hd; lia) ltac:(lia) ltac:(lia)). cbv zeta.
  intros d Hd. unfold ndim in *. cbn in Hd. rewrite length_resize in Hd.
  rewrite <- (Hs d) by lia. cbn -[resize]. rewrite !length_resize. apply can_coalesce_ext; cbn -[resize].
  1,2: by rewrite resize_take, at_take by lia.
  apply Forall2_fmap_l, Forall_Forall2_diag, Forall_forall. intros op _. cbn -[resize].
  rewrite !resize_spec. unfold at_. rewrite !nth_lookup.
  assert (∀ l i, (i < prev + 1)%nat → default 0 ((take (prev + 1) l ++ replicate (prev + 1 - length l) 0) !! i)
    = default 0 (l !! i)) as E; [|split; apply E; lia].
  intros l i Hi. rewrite lookup_app. rewrite lookup_take_lt by lia.
  destruct (l !! i) eqn:El; [done|]. apply lookup_ge_None in El. 
  rewrite lookup_replicate_2 by (rewrite length_take; lia). done.
Qed.

(** ** Permuting dimensions. *)
Lemma reorder_full perm data : length perm = length data → reorder perm data = map (at_ data) perm.
Proof. intros Hl. unfold reorder. rewrite Hl, Nat.sub_diag. apply app_nil_r. Qed.

Lemma map_at_seq data : map (at_ data) (seq 0 (length data)) = data.
Proof.
  apply list_eq. intros i. rewrite list_lookup_fmap. destruct (decide (i < length data)%nat) as [Hi|Hi].
  - rewrite lookup_seq_lt by done. cbn. symmetry. by apply at_lookup.
  - rewrite lookup_seq_ge by lia. symmetry. apply lookup_ge_None_2. lia.
Qed.

(** The sum over the dimensions, in any order. *)
Definition sum_list (l : list Z) : Z := foldr Z.add 0 l.
Lemma sum_list_perm l1 l2 : l1 ≡ₚ l2 → sum_list l1 = sum_list l2.
Proof. unfold sum_list. induction 1; simpl; lia. Qed.

Lemma offset_sum idx st : length idx = length st →
  offset idx st = sum_list (map (λ d, at_ idx d * at_ st d) (seq 0 (length st))).
Proof.
  revert st. induction idx as [|i idx IH]; intros [|t st]; simpl; try done. intros [= Hl].
  rewrite (IH st Hl), <- seq_shift, map_map. done.
Qed.

Lemma at_map_perm data perm d : (d < length perm)%nat → at_ (map (at_ data) perm) d = at_ data (nth d perm 0%nat).
Proof.
  intros Hd. destruct (lookup_lt_is_Some_2 perm d Hd) as [p Hp]. unfold at_ at 1.
  rewrite nth_lookup, list_lookup_fmap, nth_lookup, Hp. done.
Qed.

Lemma map_nth_seq (perm : list nat) : map (λ d, nth d perm 0%nat) (seq 0 (length perm)) = perm.
Proof.
  apply list_eq. intros i. rewrite list_lookup_fmap. destruct (decide (i < length perm)%nat) as [Hi|Hi].
  - rewrite lookup_seq_lt by done. cbn. rewrite nth_lookup.
    by destruct (lookup_lt_is_Some_2 perm i Hi) as [? ->].
  - rewrite lookup_seq_ge by lia. symmetry. apply lookup_ge_None_2. lia.
Qed.

Section permutation.
Context (n : nat) (perm : list nat) (Hperm : perm ≡ₚ seq 0 n).

Lemma perm_length : length perm = n.
Proof. by rewrite Hperm, length_seq. Qed.

Lemma offset_reorder idx st : length idx = n → length st = n →
  offset (reorder perm idx) (reorder perm st) = offset idx st.
Proof.
  pose proof perm_length as Hl. intros Hi Hs. rewrite !reorder_full by congruence.
  rewrite !offset_sum by (rewrite ?length_map; congruence). rewrite length_map, Hl, Hs.
  rewrite (sum_list_perm (map _ (seq 0 n)) (map (λ d, at_ idx d * at_ st d) perm)
    (Permutation_map _ (Permutation_sym Hperm))) at 1.
  apply (f_equal sum_list). pose proof (map_nth_seq perm) as Hn. rewrite Hl in Hn.
  transitivity (map (λ d, at_ idx d * at_ st d) (map (λ d, nth d perm 0%nat) (seq 0 n))); [|by rewrite Hn].
  rewrite map_map. apply map_ext_in. intros d Hd. apply in_seq in Hd. by rewrite !at_map_perm by lia.
Qed.

Lemma multiply_reorder shape : length shape = n →
  multiply_integers (reorder perm shape) = multiply_integers shape.
Proof.
  intros Hs. pose proof perm_length as Hl. rewrite reorder_full by congruence.
  assert (∀ l1 l2, l1 ≡ₚ l2 → multiply_integers l1 = multiply_integers l2) as Hm
    by (induction 1; simpl; lia).
  apply Hm. rewrite <- (map_at_seq shape) at 2. by rewrite Hs, Hperm.
Qed.

Lemma nth_perm_lt d : (d < n)%nat → (nth d perm 0 < n)%nat.
Proof.
  intros Hd. assert (∀ p, p ∈ perm → (p < n)%nat) as Hp by (intros p; rewrite Hperm, elem_of_seq; lia).
  apply Hp, list_elem_of_In, nth_In. by rewrite perm_length.
Qed.

Lemma reorder_length data : length data = n → length (reorder perm data) = n.
Proof. intros. rewrite reorder_full, length_map; by rewrite perm_length. Qed.

Lemma reorder_Forall (P : Z → Prop) data : length data = n → Forall P data → Forall P (reorder perm data).
Proof.
  intros Hs HP. rewrite reorder_full by (by rewrite perm_length). rewrite Hperm, <- Hs.
  by rewrite map_at_seq.
Qed.

Lemma in_bounds_at shape idx : in_bounds shape idx ↔
  length idx = length shape ∧ ∀ d, (d < length shape)%nat → 0 <= at_ idx d < at_ shape d.
Proof.
  unfold in_bounds. rewrite Forall2_same_length_lookup. split.
  - intros [Hl H]. split; [done|]. intros d Hd. apply (H d); apply at_lookup; lia.
  - intros [Hl H]. split; [done|]. intros d s i Hs Hi. pose proof (lookup_lt_Some _ _ _ Hs) as Hd.
    rewrite at_lookup in Hs, Hi by lia. injection Hs as <-. injection Hi as <-. by apply H.
Qed.

Lemma in_bounds_reorder shape idx : length shape = n → in_bounds shape idx →
  in_bounds (reorder perm shape) (reorder perm idx).
Proof.
  intros Hs [Hl Hb]%in_bounds_at. pose proof perm_length as Hpl. apply in_bounds_at.
  rewrite !reorder_length by congruence. split; [done|]. intros d Hd.
  rewrite !reorder_full by congruence. rewrite !at_map_perm by lia. apply Hb. rewrite Hs. by apply nth_perm_lt.
Qed.

Lemma reorder_inj idx idx' : length idx = n → length idx' = n → reorder perm idx = reorder perm idx' → idx = idx'.
Proof.
  pose proof perm_length as Hl. intros H1 H2. rewrite !reorder_full by congruence. intros E.
  assert (∀ p, (p < n)%nat → at_ idx p = at_ idx' p) as Hp.
  { intros p Hp. assert (p ∈ perm) as Hin by (rewrite Hperm; apply elem_of_seq; lia).
    apply list_elem_of_In in Hin. clear Hp. revert p Hin. by apply map_ext_in_iff. }
  apply list_eq_same_length with n; [done..|]. intros i x y Hi Hx Hy.
  rewrite at_lookup in Hx, Hy by lia. rewrite Hp in Hx by done. congruence.
Qed.

Lemma indices_reorder shape : length shape = n → Forall (λ s, 0 <= s) shape →
  map (reorder perm) (indices shape) ≡ₚ indices (reorder perm shape).
Proof.
  intros Hs Hnn. destruct (decide (multiply_integers shape = 0)) as [E|Hnz].
  { unfold indices. by rewrite multiply_reorder, E by done. }
  assert (positive shape) as Hp by (by apply multiply_nonzero_pos).
  assert (positive (reorder perm shape)) as Hp' by (by apply reorder_Forall).
  apply submseteq_length_Permutation; [apply NoDup_submseteq|].
  - apply NoDup_fmap_2_strong; [|by apply NoDup_indices]. intros idx idx' H1 H2.
    apply in_indices, in_bounds_length in H1, H2; [|done..]. apply reorder_inj; congruence.
  - intros idx (idx0 & -> & H0)%list_elem_of_fmap. apply in_indices; [done|].
    apply in_indices in H0; [|done]. by apply in_bounds_reorder.
  - unfold indices. rewrite !length_map, !length_seqZ, multiply_reorder by done. lia.
Qed.
End permutation.

Lemma permute_dimensions_spec perm it : iter_ok it → perm ≡ₚ seq 0 (ndim it) →
  ∃ it', permute_dimensions perm it = Ok it' ∧ iter_ok it' ∧ restrided_ops it it' ∧
    elements it' ≡ₚ elements it ∧ shape_ it' = map (at_ (shape_ it)) perm ∧
    map stride_bytes (operands_ it') = map (λ op, map (at_ (stride_bytes op)) perm) (operands_ it) ∧
    it' = set_dims (shape_ it') (operands_ it') it.
Proof.
  intros [Hs Hst] Hp. unfold permute_dimensions. pose proof (perm_length _ _ Hp) as Hl.
  rewrite (proj2 (Nat.eqb_eq _ _) Hl). cbn [TORCH_INTERNAL_ASSERT mbind result_bind]. eexists. split; [reflexivity|].
  assert (Forall (λ op, (if bool_decide (stride_bytes op = []) then op
    else set_stride_bytes (reorder perm (stride_bytes op)) op)
    = set_stride_bytes (map (at_ (stride_bytes op)) perm) op) (operands_ it)) as Hop.
  { eapply Forall_impl; [exact Hst|]. intros op Ho. case_bool_decide as E.
    - cbn beta in Ho. rewrite E in Ho |- *. destruct perm; [destruct op; cbn in *; by subst|]. by rewrite <- Ho in Hl.
    - by rewrite reorder_full by congruence. }
  assert (map (λ op, if bool_decide (stride_bytes op = []) then op
    else set_stride_bytes (reorder perm (stride_bytes op)) op) (operands_ it)
    = map (λ op, set_stride_bytes (map (at_ (stride_bytes op)) perm) op) (operands_ it)) as ->.
  { apply map_ext_in. intros op Hin. rewrite Forall_forall in Hop. apply Hop. by apply list_elem_of_In. }
  clear Hop. assert (Forall2 restrided (operands_ it)
    (map (λ op, set_stride_bytes (map (at_ (stride_bytes op)) perm) op) (operands_ it))) as Hre.
  { apply Forall2_fmap_r, Forall_Forall2_diag, Forall_forall. intros op _. apply restrided_set, restrided_refl. }
  split; [|split; [exact Hre|split; [|split; [|split; [|by destruct it]]]]].
  - split; cbn.
    + by apply (reorder_Forall _ _ Hp).
    + unfold ndim. cbn. rewrite (reorder_length _ _ Hp) by done. apply Forall_fmap, Forall_forall.
      intros op _. cbn. by rewrite length_map.
  - unfold elements. cbn. rewrite <- (indices_reorder _ _ Hp) by done. rewrite map_map.
    apply reflexive_eq, map_ext_in. intros idx Hidx. apply addresses_ext. cbn. apply Forall2_fmap_l.
    apply Forall_Forall2_diag. eapply Forall_impl; [exact Hst|]. intros op Ho. cbn. f_equal.
    rewrite <- reorder_full by congruence. apply (offset_reorder _ _ Hp); [|done].
    unfold indices in Hidx. apply in_map_iff in Hidx as (k & <- & _). apply digits_length.
  - cbn. by rewrite reorder_full.
  - cbn. by rewrite map_map.
Qed.

(** ** The insertion sort. *)
Lemma dimension_swap_perm a b l : (a < length l)%nat → (b < length l)%nat → swap_at a b l ≡ₚ l.
Proof.
  intros Ha Hb. unfold swap_at. destruct (lookup_lt_is_Some_2 l a Ha) as [x Hx].
  destruct (lookup_lt_is_Some_2 l b Hb) as [y Hy]. rewrite !nth_lookup, Hx, Hy. cbn.
  destruct (decide (a = b)) as [<-|Hne].
  { assert (x = y) as -> by congruence. by rewrite list_insert_insert_eq, list_insert_id. }
  by apply Permutation_insert_swap.
Qed.

Section insertion_sort.
Context (compare : nat → nat → Z) (key : nat → Z) (N : nat).
Context (Hneg : ∀ a b, (a < N)%nat → (b < N)%nat → compare a b <= 0 → key a <= key b).
Context (Hpos : ∀ a b, (a < N)%nat → (b < N)%nat → 0 <= compare a b → key b <= key a).

(** The keys in the middle of the inner loop: sorted up to [i] without the
    dimension at [dim1], which is not above those after it and equal to those
    it was compared with. *)
Record inserting (i n dim1 : nat) (perm : list nat) : Prop := {
  ins_perm : perm ≡ₚ seq 0 N;
  ins_le : (n <= dim1 <= i)%nat;
  ins_lt : (i < N)%nat;
  ins_sorted : ∀ a b, (a < b <= i)%nat → a ≠ dim1 → b ≠ dim1 → key (nth a perm 0%nat) <= key (nth b perm 0%nat);
  ins_after : ∀ b, (dim1 < b <= i)%nat → key (nth dim1 perm 0%nat) <= key (nth b perm 0%nat);
  ins_equal : ∀ a, (n <= a < dim1)%nat → key (nth a perm 0%nat) = key (nth dim1 perm 0%nat) }.

Definition sorted_to (i : nat) (perm : list nat) : Prop :=
  perm ≡ₚ seq 0 N ∧ ∀ a b, (a < b <= i)%nat → key (nth a perm 0%nat) <= key (nth b perm 0%nat).

Lemma inserting_done i n dim1 perm : inserting i n dim1 perm →
  (∀ a, (a < n)%nat → key (nth a perm 0%nat) <= key (nth dim1 perm 0%nat)) → sorted_to i perm.
Proof.
  intros [Hp Hle _ Hs Ha He] Hn. split; [done|]. intros a b Hab.
  destruct (decide (b = dim1)) as [->|]; [destruct (decide (a < n)%nat); [by apply Hn|rewrite (He a) by lia; lia]|].
  destruct (decide (a = dim1)) as [->|]; [by apply Ha; lia|by apply Hs].
Qed.

Lemma nth_swap_at a b (l : list nat) c : (a < length l)%nat → (b < length l)%nat → a ≠ b →
  nth c (swap_at a b l) 0%nat = nth (if decide (c = a) then b else if decide (c = b) then a else c) l 0%nat.
Proof.
  intros Ha Hb Hne. unfold swap_at. rewrite nth_lookup. destruct (decide (c = a)) as [->|Hca].
  - rewrite list_lookup_insert_eq by (by rewrite length_insert). done.
  - rewrite list_lookup_insert_ne by done. destruct (decide (c = b)) as [->|].
    + by rewrite list_lookup_insert_eq.
    + by rewrite list_lookup_insert_ne, nth_lookup by done.
Qed.

Lemma insert_down_sorted i n : ∀ dim1 perm, inserting i n dim1 perm →
  sorted_to i (insert_down compare n dim1 perm).
Proof.
  induction n as [|dim0 IH]; intros dim1 perm Hins; cbn [insert_down].
  { apply (inserting_done i 0 dim1); [done|lia]. }
  pose proof Hins as [Hp Hle Hi Hs Ha He]. pose proof (perm_length _ _ Hp) as Hl.
  pose proof (nth_perm_lt _ _ Hp dim0 ltac:(lia)) as H0. pose proof (nth_perm_lt _ _ Hp dim1 ltac:(lia)) as H1.
  set (c := compare _ _). destruct (Z.gtb_spec c 0) as [Hc|Hc].
  - apply IH. pose proof (Hpos _ _ H0 H1 ltac:(lia)) as Hk.
    assert (∀ a, (dim0 < a < dim1)%nat → key (nth a perm 0%nat) = key (nth dim1 perm 0%nat)) as He'
      by (intros; apply He; lia).
    split; [by rewrite dimension_swap_perm by lia|lia|lia|..].
    + intros a b Hab Hna Hnb. rewrite !nth_swap_at by lia. rewrite !decide_False by done.
      repeat case_decide; subst; try (apply Hs; lia); try lia.
      destruct (decide (a < dim0)%nat); [apply Hs; lia|rewrite (He' a) by lia; done].
    + intros b Hb. rewrite !nth_swap_at by lia. rewrite decide_True, decide_False by lia.
      case_decide; [done|]. destruct (decide (b < dim1)%nat); [rewrite (He' b) by lia; lia|apply Ha; lia].
    + intros a Ha'. lia.
  - assert (key (nth dim0 perm 0%nat) <= key (nth dim1 perm 0%nat)) as Hk1 by (apply Hneg; done).
    destruct (Z.ltb_spec c 0) as [Hc'|Hc'].
    + apply (inserting_done i (S dim0) dim1); [done|]. intros a Han.
      destruct (decide (a = dim0)) as [->|]; [done|].
      transitivity (key (nth dim0 perm 0%nat)); [apply Hs; lia|done].
    + apply IH. pose proof (Hpos _ _ H0 H1 ltac:(lia)) as Hk2. split; [done|lia|lia|done|done|].
      intros a Han. destruct (decide (a = dim0)) as [->|]; [lia|apply He; lia].
Qed.

Lemma insertion_sort_sorted perm : perm ≡ₚ seq 0 N → sorted_to (N - 1) (insertion_sort compare N perm).
Proof.
  intros Hp. unfold insertion_sort.
  assert (∀ m i perm, sorted_to i perm → (i + m < N)%nat →
    sorted_to (i + m) (foldl (λ perm i, insert_down compare i i perm) perm (seq (S i) m))) as H.
  { clear perm Hp. induction m as [|m IH]; intros i perm Hs Hi; cbn [seq foldl]; [by rewrite Nat.add_0_r|].
    rewrite Nat.add_succ_r, <- Nat.add_succ_l. apply IH; [|lia]. destruct Hs as [Hp Hs].
    apply insert_down_sorted. split; [done|lia|lia|..]; intros; try lia. apply Hs. lia. }
  destruct (decide (N = 0%nat)) as [E|Hne].
  - rewrite E. split; [exact Hp|lia].
  - apply (H (N - 1)%nat 0%nat); [split; [done|lia]|lia].
Qed.
End insertion_sort.

Lemma dimension_sort_perm compare n perm : perm ≡ₚ seq 0 n → insertion_sort compare n perm ≡ₚ seq 0 n.
Proof. intros Hp. by apply (insertion_sort_sorted compare (λ _, 0) n). Qed.

(** What [should_swap] decides by the first operand. *)
Definition sort_key (is_reduction : bool) (op : OperandInfo) (d : nat) : Z :=
  if is_reduction && is_output op then (if at_ (stride_bytes op) d =? 0 then 0 else 1)
  else at_ (stride_bytes op) d.

Lemma should_swap_key shape is_red op rest a b : stride_bytes op ≠ [] → will_resize op = false →
  (is_red && is_output op = false → at_ (stride_bytes op) a ≠ 0 ∧ at_ (stride_bytes op) b ≠ 0) →
  let c := should_swap shape is_red (op :: rest) a b in
  let key := sort_key is_red op in
  (c <= 0 → key a <= key b) ∧ (0 <= c → key b <= key a).
Proof.
  intros Hne Hw Hz c key. unfold c, key, sort_key. cbn [should_swap].
  rewrite bool_decide_false, Hw by done. cbn [orb]. destruct (is_red && is_output op) eqn:E; cbn [andb].
  - destruct (Z.eqb_spec (at_ (stride_bytes op) a) 0), (Z.eqb_spec (at_ (stride_bytes op) b) 0);
      cbn; split; lia.
  - destruct (Hz eq_refl) as [Ha Hb]. rewrite (proj2 (Z.eqb_neq _ _) Ha), (proj2 (Z.eqb_neq _ _) Hb). cbn [orb].
    destruct (Z.ltb_spec (at_ (stride_bytes op) a) (at_ (stride_bytes op) b)); [split; lia|].
    destruct (Z.gtb_spec (at_ (stride_bytes op) a) (at_ (stride_bytes op) b)); split; lia.
Qed.

(** Operands that will be resized have no say. *)
Lemma should_swap_skips shape is_red skipped ops a b : Forall (λ op, will_resize op = true) skipped →
  should_swap shape is_red (skipped ++ ops) a b = should_swap shape is_red ops a b.
Proof. induction 1 as [|op skipped Hw _ IH]; [done|]. cbn [app should_swap]. by rewrite Hw, orb_true_r. Qed.

(** The order of the strides of an operand: reduced dimensions of an
    output first, else by their size. *)
Definition ordered (is_reduction : bool) (op : OperandInfo) (n : nat) : Prop :=
  ∀ a b, (a < b < n)%nat → sort_key is_reduction op a <= sort_key is_reduction op b.

Lemma reorder_perm_sorted it skipped op rest : operands_ it = skipped ++ op :: rest →
  Forall (λ op, will_resize op = true) skipped → length (stride_bytes op) = ndim it → will_resize op = false →
  (is_reduction_ it && is_output op = false → Forall (λ s, s ≠ 0) (stride_bytes op)) →
  let perm := insertion_sort (should_swap (shape_ it) (is_reduction_ it) (operands_ it)) (ndim it)
                (rev (seq 0 (ndim it))) in
  ordered (is_reduction_ it) (set_stride_bytes (map (at_ (stride_bytes op)) perm) op) (ndim it).
Proof.
  intros Hops Hskip Hl Hw Hnz perm.
  assert (rev (seq 0 (ndim it)) ≡ₚ seq 0 (ndim it)) as Hr by (symmetry; apply Permutation_rev).
  assert (∀ a b, (a < ndim it)%nat → (b < ndim it)%nat →
    let c := should_swap (shape_ it) (is_reduction_ it) (operands_ it) a b in
    let key := sort_key (is_reduction_ it) op in
    (c <= 0 → key a <= key b) ∧ (0 <= c → key b <= key a)) as Hc.
  { intros a b Ha Hb. rewrite Hops, should_swap_skips by done.
    apply should_swap_key; [intros E; rewrite E in Hl; simpl in Hl; lia|done|].
    intros E. specialize (Hnz E). rewrite Forall_forall in Hnz.
    split; apply Hnz; eapply list_elem_of_lookup_2, at_lookup; lia. }
  destruct (insertion_sort_sorted (should_swap (shape_ it) (is_reduction_ it) (operands_ it))
    (sort_key (is_reduction_ it) op) (ndim it)) with (perm := rev (seq 0 (ndim it))) as [Hp Hs];
    [intros a b Ha Hb; by apply Hc..|done|].
  fold perm in Hp, Hs. pose proof (perm_length _ _ Hp) as Hpl.
  intros a b Hab. specialize (Hs a b ltac:(lia)). unfold sort_key in *. cbn.
  by rewrite !at_map_perm by lia.
Qed.

Lemma reorder_dimensions_unfold it : iter_ok it → ∃ perm, perm ≡ₚ seq 0 (ndim it) ∧
  reorder_dimensions it = permute_dimensions perm (set_perm perm it) ∧
  (enforce_linear_iteration_ it = true → perm = rev (seq 0 (ndim it))) ∧
  (enforce_linear_iteration_ it = false → (ndim it ≠ 1)%nat →
    perm = insertion_sort (should_swap (shape_ it) (is_reduction_ it) (operands_ it)) (ndim it)
      (rev (seq 0 (ndim it)))).
Proof.
  intros [Hs Hst]. unfold reorder_dimensions. destruct (Nat.eqb_spec (ndim it) 1) as [E|Hne].
  - exists [0%nat]. rewrite E. split_and!; try done.
    unfold permute_dimensions. change (ndim (set_perm [0%nat] it)) with (ndim it). rewrite E. cbn.
    unfold ndim in *. destruct it as [[|s [|]] ? ? ? ? ops]; try done. cbn in *. unfold set_perm, set_dims. cbn.
    do 2 f_equal. clear -Hst. induction Hst as [|op ops Ho _ IH]; cbn; [done|].
    rewrite <- IH. f_equal. case_bool_decide; [done|]. destruct op as [? st]. cbn in *. 
    unfold set_stride_bytes. cbn. destruct st as [|t [|]]; try done.
  - assert (rev (seq 0 (ndim it)) ≡ₚ seq 0 (ndim it)) as Hr by (symmetry; apply Permutation_rev).
    destruct (enforce_linear_iteration_ it) eqn:E.
    + exists (rev (seq 0 (ndim it))). split_and!; try done.
    + eexists. split; [by apply dimension_sort_perm, Hr|]. split_and!; try done.
Qed.

(** An operand after the dimensions were permuted, and before. *)
Lemma permuted_operand it it' perm skipped' op' rest' : restrided_ops it it' →
  map stride_bytes (operands_ it') = map (λ op, map (at_ (stride_bytes op)) perm) (operands_ it) →
  operands_ it' = skipped' ++ op' :: rest' → Forall (λ op, will_resize op = true) skipped' →
  ∃ skipped op rest, operands_ it = skipped ++ op :: rest ∧ Forall (λ op, will_resize op = true) skipped ∧
    op' = set_stride_bytes (map (at_ (stride_bytes op)) perm) op.
Proof.
  unfold restrided_ops. intros Hre Hst E Hw. rewrite E in Hre, Hst.
  apply Forall2_app_inv_r in Hre as (skipped & tail & Hs & Ht & Eops). rewrite Eops in Hst |- *.
  apply Forall2_cons_inv_r in Ht as (op & rest & Hop & _ & ->).
  rewrite !map_app in Hst. apply app_inj_1 in Hst as [_ Hst]; [|by rewrite !length_map, (Forall2_length _ _ _ Hs)].
  cbn in Hst. injection Hst as Est _. exists skipped, op, rest. split; [done|]. split; [|by rewrite Hop, Est].
  clear -Hs Hw. induction Hs as [|a b ? ? Hab _ IH]; [done|]. apply Forall_cons in Hw as [Ha Hw].
  constructor; [|by apply IH]. by rewrite Hab in Ha.
Qed.

(** ** The properties. *)
(** C17.  Coalescing the dimensions of an iterator keeps the addresses it visits
    and their order, and leaves no two adjacent dimensions that could still be
    coalesced. *)
Theorem coalesce_keeps_elements it : iter_ok it →
  let it' := coalesce_dimensions it in
  elements it' = elements it ∧ numel it' = numel it ∧ iter_ok it' ∧ restrided_ops it it' ∧
  ∀ d, (S d < ndim it')%nat → can_coalesce d (S d) it' = false.
Proof.
  intros Hok it'. destruct (coalesce_dimensions_spec it Hok) as (? & ? & ? & ? & _). split_and!; try done.
  intros d Hd. apply (coalesce_dimensions_coalesced it Hok). fold it'. lia.
Qed.


Lemma coalesce_keeps_elements_witness :
  shape_ (coalesce_dimensions copy_iterator) = [4; 3; 2] ∧
  elements (coalesce_dimensions (example_iterator [4; 3] [float_operand 1000 [4; 16] true] false))
  = elements (example_iterator [4; 3] [float_operand 1000 [4; 16] true] false) ∧
  shape_ (coalesce_dimensions (example_iterator [4; 3] [float_operand 1000 [4; 16] true] false)) = [12].
Proof.
  split; [vm_compute; reflexivity|]. split; [|vm_compute; reflexivity].
  apply (coalesce_keeps_elements (example_iterator [4; 3] [float_operand 1000 [4; 16] true] false)).
  split; repeat constructor; lia.
Defined.

