(* ===== verification/IterLoops.v ===== *)
(** * What the loops of the tensor iterator visit.

    The calls of [serial_for_each] touch the elements of their range in order,
    and those of all threads of [for_each] touch every element once. *)

From S2P Require Import Prelude Layout ScalarType TensorIterator IterSpace TensorIteratorLoops.

#[local] Arguments at_ : simpl never.

(** The addresses a call touches: those of the inner loop, for each turn of the
    outer one. *)
Definition inner_elements (c : list Z * list Z * Z) : list (list Z) :=
  let '(data, strides, size) := c in
  map (add_strides data (take (length data) strides)) (seqZ 0 size).
Definition call_elements (c : loop_call) : list (list Z) := concat (map inner_elements (loop_2d_from_1d c)).
Definition calls_elements (cs : list loop_call) : list (list Z) := concat (map call_elements cs).

(** ** Pointers. *)
Lemma add_strides_length ps st v : (length ps <= length st)%nat → length (add_strides ps st v) = length ps.
Proof. intros. unfold add_strides. rewrite length_map, length_zip_with. lia. Qed.

Lemma add_strides_0 ps : ∀ st, (length ps <= length st)%nat → add_strides ps st 0 = ps.
Proof.
  unfold add_strides. induction ps as [|p ps IH]; intros [|t st]; simpl; try done; try lia.
  intros. rewrite Z.add_0_r. f_equal. apply IH. lia.
Qed.

Lemma add_strides_add ps : ∀ st a b, add_strides (add_strides ps st a) st b = add_strides ps st (a + b).
Proof.
  unfold add_strides. induction ps as [|p ps IH]; intros [|t st] a b; simpl; try done.
  f_equal; [lia|]. apply IH.
Qed.

Lemma outer_loop_spec os st n : ∀ data, (length data <= length os)%nat →
  outer_loop data os st n = map (λ j, add_strides data os (Z.of_nat j)) (seq 0 n).
Proof.
  induction n as [|n IH]; intros data Hl; cbn [outer_loop seq map]; [done|].
  rewrite IH by (by rewrite add_strides_length). f_equal; [by rewrite add_strides_0|].
  rewrite <- seq_shift, map_map. apply map_ext. intros j. rewrite add_strides_add. f_equal. lia.
Qed.

(** The strides of a dimension. *)
Definition row (it : TensorIteratorBase) (d : nat) : list Z :=
  map (λ op, at_ (stride_bytes op) d) (operands_ it).
Lemma row_length it d : length (row it d) = ntensors it.
Proof. apply length_map. Qed.

Lemma at_overflow l i : (length l <= i)%nat → at_ l i = 0.
Proof. intros. unfold at_. by apply nth_overflow. Qed.

Lemma get_strides_rows it : iter_ok it →
  get_strides it = concat (map (row it) (seq 0 (Nat.max 2 (ndim it)))).
Proof.
  intros [_ Hst]. unfold get_strides. fold (row it). destruct (Nat.ltb_spec (ndim it) 2) as [Hlt|Hge].
  - replace (Nat.max 2 (ndim it)) with (ndim it + (2 - ndim it))%nat by lia.
    rewrite seq_app, map_app, concat_app. f_equal.
    assert (∀ m k, (ndim it <= k)%nat → concat (map (row it) (seq k m)) = replicate (m * ntensors it) 0) as H.
    { induction m as [|m IH]; intros k Hk; [done|]. cbn [seq map concat Nat.mul]. rewrite IH by lia.
      rewrite replicate_add. f_equal. unfold row, ntensors. clear -Hst Hk. 
      induction Hst as [|op ops Ho _ IH]; [done|]. cbn. rewrite at_overflow by lia. f_equal. apply IH. }
    symmetry. apply H. lia.
  - rewrite app_nil_r. by replace (Nat.max 2 (ndim it)) with (ndim it) by lia.
Qed.

Lemma addresses_length it idx : length (addresses it idx) = ntensors it.
Proof. apply length_map. Qed.

Lemma zip_with_map {A B C D} (f : C → D → B) (g : A → C) (h : A → D) l :
  zip_with f (map g l) (map h l) = map (λ x, f (g x) (h x)) l.
Proof. induction l; simpl; congruence. Qed.

(** Moving an index moves the addresses by multiples of the strides. *)
Lemma addresses_move0 it x xs i : addresses it (x + i :: xs) = add_strides (addresses it (x :: xs)) (row it 0) i.
Proof.
  unfold addresses, add_strides, row. rewrite zip_with_map, map_map. apply map_ext. intros op. cbn.
  destruct (stride_bytes op) as [|t st]; unfold at_; cbn; lia.
Qed.
Lemma addresses_move1 it x y xs j :
  addresses it (x :: y + j :: xs) = add_strides (addresses it (x :: y :: xs)) (row it 1) j.
Proof.
  unfold addresses, add_strides, row. rewrite zip_with_map, map_map. apply map_ext. intros op. cbn.
  destruct (stride_bytes op) as [|t [|t1 st]]; unfold at_; cbn; lia.
Qed.

Lemma get_data_ptrs_spec it idx : ∀ k m (base : OperandInfo → Z), (length idx <= m)%nat →
  get_data_ptrs (map base (operands_ it)) (concat (map (row it) (seq k m))) idx
  = map (λ op, base op + offset idx (drop k (stride_bytes op))) (operands_ it).
Proof.
  induction idx as [|x idx IH]; intros k m base Hm; cbn [get_data_ptrs].
  - apply map_ext. intros op. cbn. lia.
  - destruct m as [|m]; [simpl in Hm; lia|]. cbn [seq map concat].
    rewrite length_map. change (length (operands_ it)) with (ntensors it).
    rewrite take_app_length', drop_app_length' by (by rewrite row_length).
    assert (add_strides (map base (operands_ it)) (row it k) x
      = map (λ op, base op + x * at_ (stride_bytes op) k) (operands_ it)) as ->.
    { unfold add_strides, row. rewrite zip_with_map, map_map. done. }
    rewrite IH by (simpl in Hm; lia). apply map_ext. intros op.
    destruct (decide (k < length (stride_bytes op))%nat) as [Hk|Hk].
    + rewrite (drop_at _ k Hk). cbn. lia.
    + rewrite at_overflow, !drop_ge by lia. destruct idx; cbn; lia.
Qed.

Lemma get_data_ptrs_addresses it idx : iter_ok it → length idx = ndim it →
  get_data_ptrs (get_base_ptrs it) (get_strides it) idx = addresses it idx.
Proof.
  intros Hok Hl. rewrite get_strides_rows by done. unfold get_base_ptrs. rewrite get_data_ptrs_spec by lia.
  apply map_ext. intros op. by rewrite drop_0.
Qed.

(** ** Blocks of consecutive elements. *)
Lemma seqZ_blocks n0 n1 k : 0 <= n0 →
  seqZ k (n0 * Z.of_nat n1) = concat (map (λ j, seqZ (k + n0 * Z.of_nat j) n0) (seq 0 n1)).
Proof.
  intros Hn. revert k. induction n1 as [|n1 IH]; intros k; [by rewrite Z.mul_0_r|].
  cbn [seq map concat]. replace (n0 * Z.of_nat (S n1)) with (n0 + n0 * Z.of_nat n1) by lia.
  rewrite seqZ_app by lia. f_equal; [f_equal; lia|]. rewrite IH, <- seq_shift, map_map.
  f_equal. apply map_ext. intros j. f_equal. lia.
Qed.
Lemma digits_inner s0 rest k i : 0 < s0 → 0 <= i → k mod s0 + i < s0 →
  digits (s0 :: rest) (k + i) = k mod s0 + i :: digits rest (k / s0).
Proof.
  intros H0 Hi Hlt. cbn. pose proof (Z.mod_pos_bound k s0 H0). pose proof (Z.div_mod k s0).
  assert (k + i = k / s0 * s0 + (k mod s0 + i)) as -> by lia.
  rewrite Z.add_comm, Z.mod_add, Z.div_add, Z.mod_small, Z.div_small by lia. done.
Qed.
Lemma digits_outer s0 s1 rest k i j : 0 < s0 → 0 < s1 → k mod s0 = 0 → 0 <= i < s0 → 0 <= j →
  (k / s0) mod s1 + j < s1 →
  digits (s0 :: s1 :: rest) (k + s0 * j + i) = i :: (k / s0) mod s1 + j :: digits rest (k / s0 / s1).
Proof.
  intros H0 H1 Hk Hi Hj Hlt. rewrite digits_inner by (try rewrite (Z.mul_comm s0 j), Z.mod_add; lia).
  rewrite (Z.mul_comm s0 j), Z.mod_add, Z.div_add, Hk by lia. rewrite Z.add_0_l.
  by rewrite digits_inner by lia.
Qed.

Lemma get_strides_split it : iter_ok it → ∃ more, get_strides it = row it 0 ++ row it 1 ++ more.
Proof.
  intros Hok. rewrite get_strides_rows by done. destruct (Nat.max 2 (ndim it)) as [|[|m]] eqn:E; [lia..|].
  cbn [seq map concat]. by eexists.
Qed.

Lemma call_elements_eq it p n0 n1 : iter_ok it → length p = ntensors it →
  call_elements (mkCall p (get_strides it) n0 n1)
  = concat (map (λ j, map (add_strides (add_strides p (row it 1) (Z.of_nat j)) (row it 0)) (seqZ 0 n0))
              (seq 0 (Z.to_nat n1))).
Proof.
  intros Hok Hp. destruct (get_strides_split it Hok) as [more E].
  unfold call_elements, loop_2d_from_1d. cbn [ptrs call_strides size0 size1].
  assert (take (length p) (drop (length p) (get_strides it)) = row it 1) as ->.
  { rewrite E, Hp, drop_app_length', take_app_length' by (by rewrite row_length). done. }
  rewrite outer_loop_spec, !map_map by (by rewrite row_length, Hp). f_equal. apply map_ext. intros j.
  unfold inner_elements. rewrite add_strides_length by (by rewrite row_length, Hp).
  rewrite E, Hp, take_app_length' by (by rewrite row_length). done.
Qed.

(** The addresses of the element with a number. *)
Definition visit (it : TensorIteratorBase) (k : Z) : list Z := addresses it (digits (shape_ it) k).
Lemma elements_visit it : elements it = map (visit it) (seqZ 0 (numel it)).
Proof. unfold elements, indices, visit. by rewrite map_map, numel_eq. Qed.

(** What a step of the counter may skip. *)
Definition step_ok (shape : list Z) (k n0 n1 : Z) : Prop :=
  match shape with
  | s0 :: s1 :: _ =>
      0 <= n0 ∧ 0 <= n1 ∧ ((n1 = 1 ∧ k mod s0 + n0 <= s0) ∨ (n0 = s0 ∧ k mod s0 = 0 ∧ (k / s0) mod s1 + n1 <= s1))
  | _ => False
  end.

Lemma call_visits it k n0 n1 : iter_ok it → positive (shape_ it) → step_ok (shape_ it) k n0 n1 →
  call_elements (mkCall (visit it k) (get_strides it) n0 n1) = map (visit it) (seqZ k (n0 * n1)).
Proof.
  intros Hok Hp Hs. rewrite call_elements_eq by (done || apply addresses_length). unfold visit.
  destruct (shape_ it) as [|s0 [|s1 rest]]; [done..|]. destruct Hs as (Hn0 & Hn1 & Hs).
  apply positive_cons in Hp as [H0 [H1 _]%positive_cons].
  rewrite <- (Z2Nat.id n1) at 2 by done. rewrite seqZ_blocks, concat_map, map_map by done. f_equal.
  apply map_ext_in. intros j Hj. apply in_seq in Hj.
  rewrite <- (Z.add_0_r (k + _)), <- fmap_add_seqZ. rewrite map_map. apply map_ext_in. intros i Hi.
  rewrite <- list_elem_of_In, elem_of_seqZ in Hi. destruct Hs as [[-> Hle]|(-> & Hk & Hle)].
  - assert (j = 0%nat) as -> by lia. rewrite Z.mul_0_r, Z.add_0_r.
    rewrite add_strides_0 by (rewrite addresses_length, row_length; done).
    rewrite digits_inner by lia. rewrite addresses_move0. done.
  - rewrite digits_outer by lia. rewrite <- (Z.add_0_l i) at 2. rewrite addresses_move0, addresses_move1.
    cbn [digits]. rewrite Hk. done.
Qed.

(** ** The counter. *)
Lemma counter_loop_digits shape : positive shape → ∀ k, 0 <= k →
  counter_loop shape k = (digits shape k, k / multiply_integers shape).
Proof.
  induction 1 as [|s rest Hs Hr IH]; intros k Hk; cbn [counter_loop digits multiply_integers].
  - by rewrite Z.div_1_r.
  - rewrite (proj2 (Z.gtb_lt _ _)) by lia. rewrite IH by (apply Z.div_pos; lia).
    rewrite Z.div_div; [done|lia|]. by apply multiply_pos.
Qed.

Lemma digits_0 shape : digits shape 0 = map (λ _, 0) shape.
Proof. induction shape as [|s rest IH]; [done|]. cbn. rewrite Zmod_0_l, Zdiv_0_l, IH. done. Qed.

Lemma increment_loop_digits shape : positive shape → ∀ k o, 0 <= k → 0 <= o →
  match shape with s :: _ => k mod s + o <= s | [] => o <= 1 end →
  ∃ c, increment_loop shape (digits shape k) o = Ok (digits shape (k + o), c) ∧ (c = 0 ∨ c = 1).
Proof.
  induction 1 as [|s rest Hs Hr IH]; intros k o Hk Ho Hle; cbn [increment_loop digits].
  - exists o. split; [done|lia].
  - destruct (Z.gtb_spec o 0) as [Hgt|Hz].
    + pose proof (Z.mod_pos_bound k s Hs). pose proof (Z.div_mod k s ltac:(lia)) as Hdm.
      assert (Hnext : ∀ c, 0 <= c <= 1 → match rest with s1 :: _ => (k / s) mod s1 + c <= s1 | [] => c <= 1 end).
      { intros c Hc. destruct rest as [|s' rest']; [lia|]. apply positive_cons in Hr as [Hs' _].
        pose proof (Z.mod_pos_bound (k / s) s' Hs'). lia. }
      assert (0 <= k / s) by (apply Z.div_pos; lia).
      destruct (Z.geb_spec (k mod s + o) s) as [Hge|Hlt].
      * assert (k mod s + o = s) as E by lia. rewrite E, Z.sub_diag.
        rewrite (proj2 (Z.ltb_lt 0 s)) by done. cbn.
        destruct (IH (k / s) 1) as (c & -> & Hc); [done|lia|apply Hnext; lia|]. exists c. cbn. split; [|done].
        assert (k + o = (k / s + 1) * s) as -> by (rewrite Z.mul_add_distr_r, (Z.mul_comm _ s); lia). by rewrite Z.mod_mul, Z.div_mul by lia.
      * destruct (IH (k / s) 0) as (c & -> & Hc); [done|lia|apply Hnext; lia|]. exists c. cbn. split; [|done].
        rewrite Z.add_0_r. assert (k + o = k mod s + o + k / s * s) as -> by (rewrite (Z.mul_comm _ s); lia).
        rewrite Z.mod_add, Z.div_add by lia.
        by rewrite (Z.mod_small (k mod s + o)), (Z.div_small (k mod s + o)) by lia.
    + assert (o = 0) as -> by lia. exists 0. rewrite Z.add_0_r. auto.
Qed.

(** A counter stands at an element of its range. *)
Record counter_at (shape : list Z) (r : Range) (k : Z) (c : DimCounter) : Prop := {
  counter_shape : dc_shape c = shape;
  counter_range : dc_range c = r;
  counter_values : values c = digits shape k;
  counter_offset : dc_offset c = k }.

Lemma new_DimCounter_at shape r : positive shape → 0 <= begin r → begin r < multiply_integers shape →
  ∃ c, new_DimCounter shape r = Ok c ∧ counter_at shape r (begin r) c.
Proof.
  intros Hp Hb Hlt. unfold new_DimCounter. destruct (Z.eqb_spec (begin r) 0) as [E|Hne].
  - eexists. split; [done|]. rewrite E. split; try done. cbn. by rewrite digits_0.
  - rewrite counter_loop_digits by done. rewrite Z.div_small by lia. cbn. eexists. by split.
Qed.

Lemma increment_at shape r k n0 n1 c : positive shape → counter_at shape r k c → 0 <= k →
  step_ok shape k n0 n1 → ∃ c', increment (n0, n1) c = Ok c' ∧ counter_at shape r (k + n0 * n1) c'.
Proof.
  intros Hp [E1 E2 E3 E4] Hk Hs. unfold increment. cbn [fst snd]. rewrite E1, E2, E3, E4.
  destruct shape as [|s0 [|s1 rest]]; [done..|]. destruct Hs as (Hn0 & Hn1 & Hs).
  pose proof Hp as [H0 Hp1]%positive_cons. pose proof Hp1 as [H1 _]%positive_cons.
  destruct (Z.eqb_spec n1 1) as [->|Hne]; cbn [negb].
  - destruct (increment_loop_digits (s0 :: s1 :: rest) Hp k n0) as (c' & -> & Hc); [done..| |].
    { destruct Hs as [[_ ?]|(-> & -> & _)]; lia. }
    cbn [mbind result_bind fst snd]. rewrite Z.mul_1_r.
    assert ((c' =? 0) || (c' =? 1) = true) as -> by (destruct Hc as [-> | ->]; done).
    cbn. eexists. by split.
  - destruct Hs as [[-> _]|(-> & Hm & Hle)]; [done|]. cbn [digits].
    rewrite Hm. unfold at_. cbn [nth]. rewrite !Z.eqb_refl. cbn -[increment_loop].
    destruct (increment_loop_digits (s1 :: rest) Hp1 (k / s0) n1) as (c' & E & Hc);
      [apply Z.div_pos; lia|done..|]. cbn [digits] in E. rewrite E. cbn [mbind result_bind fst snd].
    assert ((c' =? 0) || (c' =? 1) = true) as -> by (destruct Hc as [-> | ->]; done).
    cbn. eexists. split; [done|]. split; try done. cbn.
    rewrite (Z.mul_comm s0 n1), Z.mod_add, Z.div_add, Hm by lia. done.
Qed.

Lemma max_2d_step_ok shape r k c : positive shape → (2 <= length shape)%nat → counter_at shape r k c →
  0 <= k < end_ r → end_ r <= multiply_integers shape →
  let '(n0, n1) := max_2d_step c in
  step_ok shape k n0 n1 ∧ 1 <= n0 * n1 ∧ k + n0 * n1 <= end_ r.
Proof.
  intros Hp Hl [E1 E2 E3 E4] Hk He. unfold max_2d_step. rewrite E1, E2, E3, E4.
  destruct shape as [|s0 [|s1 rest]]; [simpl in Hl; lia..|].
  apply positive_cons in Hp as [H0 [H1 _]%positive_cons]. unfold at_. cbn [nth digits].
  pose proof (Z.mod_pos_bound k s0 H0). pose proof (Z.mod_pos_bound (k / s0) s1 H1).
  rewrite bool_decide_false by done. cbn [negb andb].
  destruct (Z.eqb_spec (Z.min (s0 - k mod s0) (end_ r - k)) s0) as [E|Hne].
  - assert (1 <= (end_ r - k) / s0) by (apply Z.div_le_lower_bound; lia).
    pose proof (Z.mul_div_le (end_ r - k) s0 H0). rewrite E. cbn [step_ok].
    split; [|nia]. split; [lia|]. split; [lia|]. right. split_and!; [done|lia|lia].
  - cbn [step_ok]. split; [|lia]. split; [lia|]. split; [lia|]. left. lia.
Qed.

Lemma map_seqZ_split {A} (f : Z → A) a b n : 0 <= n → a + n <= b →
  map f (seqZ a (b - a)) = map f (seqZ a n) ++ map f (seqZ (a + n) (b - (a + n))).
Proof. intros. rewrite <- map_app, <- seqZ_app by lia. do 2 f_equal. lia. Qed.

Lemma calls_elements_cons c cs : calls_elements (c :: cs) = call_elements c ++ calls_elements cs.
Proof. done. Qed.
Lemma calls_elements_app cs cs' : calls_elements (cs ++ cs') = calls_elements cs ++ calls_elements cs'.
Proof. unfold calls_elements. by rewrite map_app, concat_app. Qed.

Lemma counter_calls_visit it r : iter_ok it → positive (shape_ it) → (2 <= ndim it)%nat →
  end_ r <= numel it → ∀ fuel k c, counter_at (shape_ it) r k c → 0 <= k <= end_ r → end_ r - k <= Z.of_nat fuel →
  ∃ calls, counter_calls fuel (get_base_ptrs it) (get_strides it) c = Some (Ok calls) ∧
    calls_elements calls = map (visit it) (seqZ k (end_ r - k)).
Proof.
  intros Hok Hp Hn He. rewrite numel_eq in He.
  assert (∀ k c, counter_at (shape_ it) r k c → is_done c = (k >=? end_ r)) as Hdone
    by (intros k c [E1 E2 E3 E4]; unfold is_done; by rewrite E2, E4).
  induction fuel as [|fuel IH]; intros k c Hc Hk Hf; cbn [counter_calls];
    rewrite (Hdone k c Hc); destruct (Z.geb_spec k (end_ r)) as [Hge|Hlt]; try lia.
  1,2: exists []; split; [done|]; assert (end_ r - k = 0) as -> by lia; done.
  pose proof (max_2d_step_ok (shape_ it) r k c Hp Hn Hc ltac:(lia) He) as Hs.
  destruct (max_2d_step c) as [n0 n1]. destruct Hs as (Hs & H1 & H2). cbn [fst snd].
  destruct (increment_at _ _ _ _ _ _ Hp Hc ltac:(lia) Hs) as (c' & -> & Hc').
  destruct (IH _ _ Hc') as (calls & -> & Hcalls); [lia..|].
  eexists. split; [done|]. rewrite calls_elements_cons, Hcalls.
  rewrite (map_seqZ_split _ k (end_ r) (n0 * n1)) by lia. f_equal.
  rewrite (counter_values _ _ _ _ Hc), get_data_ptrs_addresses by (done || apply digits_length).
  by apply call_visits.
Qed.

(** ** Serial loops. *)
Lemma offset_zeros {A} (l : list A) st : offset (map (λ _, 0) l) st = 0.
Proof. revert st. induction l as [|x l IH]; intros [|t st]; cbn; try done. rewrite IH. lia. Qed.
Lemma addresses_zeros {A} it (l : list A) : addresses it (map (λ _, 0) l) = get_base_ptrs it.
Proof. apply map_ext. intros op. rewrite offset_zeros. lia. Qed.

Lemma visit_0 it : visit it 0 = get_base_ptrs it.
Proof. unfold visit. rewrite digits_0. apply addresses_zeros. Qed.

(** At most one dimension. *)
Lemma flat_visits it r : iter_ok it → positive (shape_ it) → (ndim it <= 1)%nat →
  0 <= begin r < end_ r → end_ r <= numel it →
  call_elements (mkCall (if begin r =? 0 then get_base_ptrs it
      else get_data_ptrs (get_base_ptrs it) (get_strides it) [begin r]) (get_strides it) (range_size r) 1)
  = map (visit it) (seqZ (begin r) (range_size r)).
Proof.
  intros Hok Hp Hn Hb He. rewrite numel_eq in He. unfold range_size.
  assert ((if begin r =? 0 then get_base_ptrs it
      else get_data_ptrs (get_base_ptrs it) (get_strides it) [begin r]) = visit it (begin r)) as ->.
  { destruct (Z.eqb_spec (begin r) 0) as [->|Hne]; [by rewrite visit_0|]. unfold visit, ndim in *.
    destruct (shape_ it) as [|s [|]] eqn:E; simpl in Hn, He; try lia.
    rewrite get_data_ptrs_addresses by (unfold ndim; rewrite ?E; done). cbn [digits]. rewrite Z.mod_small by lia. done. }
  rewrite call_elements_eq by (done || apply addresses_length).
  change (seq 0 (Z.to_nat 1)) with [0%nat]. cbn [map concat]. rewrite app_nil_r.
  rewrite <- (Z.add_0_r (begin r)) at 3. rewrite <- fmap_add_seqZ, map_map. apply map_ext_in. intros i Hi.
  rewrite <- list_elem_of_In, elem_of_seqZ in Hi. unfold visit.
  rewrite add_strides_0 by (rewrite addresses_length, row_length; done).
  unfold ndim in Hn. destruct (shape_ it) as [|s [|]] eqn:E; simpl in Hn, He; [|clear Hn|lia].
  - assert (i = 0) as -> by lia. cbn. rewrite add_strides_0; [done|]. rewrite addresses_length, row_length. done.
  - apply positive_cons in Hp as [Hs _]. rewrite digits_inner by (rewrite ?Z.mod_small; lia).
    rewrite addresses_move0. done.
Qed.

Lemma serial_for_each_spec r it : iter_ok it → 0 <= begin r <= end_ r → end_ r <= numel it →
  ∃ calls, serial_for_each r it = Some (Ok calls) ∧
    calls_elements calls = map (visit it) (seqZ (begin r) (range_size r)).
Proof.
  intros Hok Hb He. unfold serial_for_each. destruct (Z.eqb_spec (range_size r) 0) as [->|Hne].
  { by exists []. }
  unfold range_size in Hne. pose proof (numel_positive it Hok ltac:(lia)) as Hp.
  unfold internal_serial_for_each. destruct (Nat.leb_spec (length (shape_ it)) 1) as [Hle|Hgt].
  - eexists. split; [done|]. unfold calls_elements. cbn [map concat]. rewrite app_nil_r.
    apply flat_visits; done || lia.
  - destruct (new_DimCounter_at (shape_ it) r) as (c & -> & Hc); [done|lia|rewrite <- numel_eq; lia|].
    apply (counter_calls_visit it r); try done. unfold loop_fuel, range_size. lia.
Qed.

(** ** Threads. *)
Definition range_elements (r : Range) : list Z := seqZ (begin r) (range_size r).
(** Ranges that follow one another. *)
Fixpoint partition (b e : Z) (rs : list Range) : Prop :=
  match rs with
  | [] => e <= b
  | r :: rest => begin r = b ∧ b < end_ r <= e ∧ partition (end_ r) e rest
  end.

Lemma partition_elements rs : ∀ b e, partition b e rs → concat (map range_elements rs) = seqZ b (e - b).
Proof.
  induction rs as [|r rs IH]; intros b e; cbn.
  - intros He. by rewrite seqZ_nil by lia.
  - intros (<- & Hr & Hp). rewrite (IH _ _ Hp). unfold range_elements, range_size.
    replace (e - begin r) with ((end_ r - begin r) + (e - end_ r)) by lia.
    rewrite seqZ_app by lia. do 2 f_equal. lia.
Qed.
Lemma partition_bounds rs : ∀ b e, partition b e rs → Forall (λ r, b <= begin r ∧ begin r < end_ r ∧ end_ r <= e) rs.
Proof.
  induction rs as [|r rs IH]; intros b e; cbn; [constructor|]. intros (<- & Hr & Hp).
  constructor; [lia|]. eapply Forall_impl; [exact (IH _ _ Hp)|]. cbn. intros r'. lia.
Qed.

Lemma divup_bounds x y : 0 < y → x <= y * divup x y < x + y.
Proof.
  intros Hy. unfold divup. pose proof (Z.div_mod (x + y - 1) y ltac:(lia)).
  pose proof (Z.mod_pos_bound (x + y - 1) y Hy). lia.
Qed.

Lemma chunks_partition b e chunk : 0 < chunk → ∀ n k, e <= b + Z.of_nat (k + n) * chunk →
  partition (Z.min e (b + Z.of_nat k * chunk)) e (omap (thread_range b e chunk) (seq k n)).
Proof.
  intros Hc. induction n as [|n IH]; intros k He; cbn [seq].
  - rewrite Nat.add_0_r in He. rewrite Z.min_l by lia. cbn. lia.
  - specialize (IH (S k) ltac:(rewrite Nat.add_succ_comm; done)). cbn [omap list_omap].
    unfold thread_range at 1. destruct (Z.ltb_spec (b + Z.of_nat k * chunk) e) as [Hlt|Hge].
    + assert (b + Z.of_nat (S k) * chunk = chunk + (b + Z.of_nat k * chunk)) as E by lia.
      rewrite E in IH. cbn. split; [lia|]. split; [lia|done].
    + rewrite Z.min_l in IH |- * by lia. done.
Qed.

Lemma invoke_parallel_partition backend t b e grain_size : b < e → 0 <= grain_size → (1 <= team t)%nat →
  1 <= get_num_threads t → partition b e (invoke_parallel backend t b e grain_size).
Proof.
  intros Hbe Hg Ht Hn. destruct backend; cbn.
  - unfold invoke_parallel_openmp.
    set (m := if grain_size >? 0 then _ else _).
    assert (1 <= m <= Z.of_nat (team t)) as Hm.
    { unfold m. destruct (Z.gtb_spec grain_size 0); [|lia].
      pose proof (divup_bounds (e - b) grain_size ltac:(lia)). nia. }
    pose proof (divup_bounds (e - b) m ltac:(lia)) as Hd.
    pose proof (chunks_partition b e (divup (e - b) m) ltac:(nia) (team t) 0) as Hp.
    rewrite Z.mul_0_l, Z.add_0_r, Z.min_r in Hp by lia. apply Hp. cbn. nia.
  - unfold invoke_parallel_native, calc_num_tasks_and_chunk_size.
    destruct (Z.ltb_spec (e - b) grain_size) as [Hlt|Hge].
    + pose proof (chunks_partition b e (Z.max 0 (e - b)) ltac:(lia) 1 0) as Hp.
      rewrite Z.mul_0_l, Z.add_0_r, Z.min_r in Hp by lia. apply Hp. lia.
    + set (c := Z.max grain_size _). pose proof (divup_bounds (e - b) (get_num_threads t) ltac:(lia)) as Hd.
      assert (0 < c) as Hc by (unfold c; nia).
      pose proof (divup_bounds (e - b) c Hc) as Hd'.
      pose proof (chunks_partition b e c Hc (Z.to_nat (divup (e - b) c)) 0) as Hp.
      rewrite Z.mul_0_l, Z.add_0_r, Z.min_r in Hp by lia. apply Hp. cbn. rewrite Z2Nat.id by nia. lia.
  - cbn. lia.
Qed.

Lemma parallel_for_spec backend t b e grain_size : 0 <= grain_size → (1 <= team t)%nat →
  1 <= get_num_threads t → partition b e (parallel_for backend t b e grain_size).
Proof.
  intros Hg Ht Hn. unfold parallel_for. destruct (Z.geb_spec b e) as [Hge|Hlt].
  - cbn. lia.
  - destruct (negb _).
    + cbn. lia.
    + by apply invoke_parallel_partition.
Qed.

Lemma each_range_Forall {A} (f : Range → option (result A)) (P : Range → A → Prop) rs :
  Forall (λ r, ∃ a, f r = Some (Ok a) ∧ P r a) rs → ∃ l, each_range f rs = Some (Ok l) ∧ Forall2 P rs l.
Proof.
  induction 1 as [|r rs (a & Ha & HP) _ (l & Hl & Hc)]; cbn; [by exists []|].
  rewrite Ha, Hl. eexists. split; [done|]. by constructor.
Qed.

Lemma for_each_spec backend t grain_size it : iter_ok it → 0 <= grain_size → (1 <= team t)%nat →
  1 <= get_num_threads t →
  ∃ calls, for_each backend t grain_size it = Some (Ok calls) ∧ concat (map calls_elements calls) = elements it.
Proof.
  intros Hok Hg Ht Hn. unfold for_each. pose proof (numel_eq it) as En.
  pose proof (multiply_nonneg (shape_ it) (iter_shape it Hok)) as Hnn.
  destruct (Z.eqb_spec (numel it) 0) as [E|Hne].
  { exists []. split; [done|]. by rewrite elements_visit, E. }
  assert (∀ rs, partition 0 (numel it) rs → ∃ calls, each_range (λ r, serial_for_each r it) rs = Some (Ok calls) ∧
    concat (map calls_elements calls) = elements it) as H.
  { intros rs Hp. pose proof (partition_bounds _ _ _ Hp) as Hf.
    destruct (each_range_Forall (λ r, serial_for_each r it)
      (λ r calls, calls_elements calls = map (visit it) (range_elements r)) rs) as (calls & E & Hc).
    - eapply Forall_impl; [exact Hf|]. intros r (? & ? & ?). apply serial_for_each_spec; [done|lia..].
    - exists calls. split; [done|].
      rewrite elements_visit, <- (Z.sub_0_r (numel it)), <- (partition_elements _ _ _ Hp).
      clear -Hc. induction Hc as [|r cs rs css E _ IH]; [done|]. cbn. by rewrite map_app, E, IH. }
  destruct (_ || _); apply H.
  - cbn [partition begin end_]. lia.
  - by apply parallel_for_spec.
Qed.

Lemma calls_elements_concat css : calls_elements (concat css) = concat (map calls_elements css).
Proof. induction css as [|cs css IH]; [done|]. cbn [map concat]. by rewrite calls_elements_app, IH. Qed.

Lemma omap_length {A B} (f : A → option B) l : (length (omap f l) <= length l)%nat.
Proof. induction l as [|x l IH]; cbn; [lia|]. destruct (f x); cbn; lia. Qed.

Lemma invoke_parallel_length backend t b e grain_size : b < e → 1 <= get_num_threads t →
  (length (invoke_parallel backend t b e grain_size)
   <= match backend with OpenMP => team t | Native => Z.to_nat (get_num_threads t) | Sequential => 1 end)%nat.
Proof.
  intros Hbe Hn. destruct backend; cbn.
  - unfold invoke_parallel_openmp. etransitivity; [apply omap_length|]. by rewrite length_seq.
  - unfold invoke_parallel_native, calc_num_tasks_and_chunk_size.
    destruct (Z.ltb_spec (e - b) grain_size); (etransitivity; [apply omap_length|]); rewrite length_seq; [lia|].
    pose proof (divup_bounds (e - b) (get_num_threads t) ltac:(lia)) as Hd.
    pose proof (Z.le_max_r grain_size (divup (e - b) (get_num_threads t))) as Hc.
    set (c := Z.max grain_size _) in *. assert (0 < c) by nia. unfold divup at 1.
    apply Z2Nat.inj_le; [apply Z.div_pos; lia|lia|]. apply Z.lt_succ_r, Z.div_lt_upper_bound; [lia|nia].
  - done.
Qed.

(** ** The properties. *)
(**  A parallel loop over [b, e) gives the function ranges that follow one
    another and make up [b, e), for each back end and any number of threads,
    and no more of them than there are threads. *)
Theorem parallel_for_partitions backend t b e grain_size : 0 <= grain_size → (1 <= team t)%nat →
  1 <= get_num_threads t →
  let rs := parallel_for backend t b e grain_size in
  concat (map range_elements rs) = seqZ b (e - b) ∧
  Forall (λ r, b <= begin r ∧ begin r < end_ r ∧ end_ r <= e) rs ∧
  (length rs <= match backend with OpenMP => team t | Native => Z.to_nat (get_num_threads t) | Sequential => 1 end)%nat.
Proof.
  intros Hg Ht Hn rs. pose proof (parallel_for_spec backend t b e grain_size Hg Ht Hn) as Hp.
  split_and!; [by apply partition_elements|by apply partition_bounds|]. unfold rs, parallel_for. destruct (Z.geb_spec b e) as [Hge|Hlt]; [cbn; lia|].
  destruct (negb _); [|by apply invoke_parallel_length]. cbn. destruct backend; lia.
Qed.

(**  The serial loop over a range of an iterator ends without an error, and
    its calls touch the addresses of the elements of the range, each once and
    in order. *)
Theorem serial_for_each_visits_in_order r it : iter_ok it → 0 <= begin r <= end_ r → end_ r <= numel it →
  ∃ calls, serial_for_each r it = Some (Ok calls) ∧
    calls_elements calls = map (λ k, addresses it (digits (shape_ it) k)) (seqZ (begin r) (end_ r - begin r)).
Proof. apply serial_for_each_spec. Qed.

(** C16.  The calls that all threads make for [for_each] touch, taken together
    and in order, the elements of the iterator, each of them once: with any
    number of threads and any back end. *)
Theorem for_each_visits_every_element backend t grain_size it : iter_ok it → 0 <= grain_size →
  (1 <= team t)%nat → 1 <= get_num_threads t →
  ∃ calls, for_each backend t grain_size it = Some (Ok calls) ∧ calls_elements (concat calls) = elements it.
Proof.
  intros Hok Hg Ht Hn. destruct (for_each_spec backend t grain_size it Hok Hg Ht Hn) as (calls & -> & Hc).
  exists calls. split; [done|]. rewrite <- Hc. apply calls_elements_concat.
Qed.

Lemma parallel_for_partitions_witness :
  parallel_for OpenMP (mkThreads 4 false 3) 5 105 10 = [mkRange 5 39; mkRange 39 73; mkRange 73 105] ∧
  concat (map range_elements (parallel_for Native (mkThreads 4 false 3) 5 105 10)) = seqZ 5 100.
Proof. split; [reflexivity|]. apply (parallel_for_partitions Native (mkThreads 4 false 3) 5 105 10); cbn; lia. Defined.

Lemma serial_for_each_visits_in_order_witness :
  ∃ calls, serial_for_each (mkRange 2 20) copy_iterator = Some (Ok calls) ∧ length calls = 3%nat ∧
    calls_elements calls
    = map (λ k, addresses copy_iterator (digits (shape_ copy_iterator) k)) (seqZ 2 18).
Proof.
  destruct (serial_for_each_visits_in_order (mkRange 2 20) copy_iterator copy_iterator_ok) as (calls & H & He);
    [cbn; lia|vm_compute; done|].
  exists calls. split; [exact H|]. split; [|exact He]. revert H. vm_compute. intros [= <-]. reflexivity.
Defined.

Lemma for_each_visits_every_element_witness :
  ∃ calls, for_each OpenMP (mkThreads 4 false 4) 5 copy_iterator = Some (Ok calls) ∧ length calls = 4%nat ∧
    calls_elements (concat calls) = elements copy_iterator.
Proof.
  destruct (for_each_visits_every_element OpenMP (mkThreads 4 false 4) 5 copy_iterator copy_iterator_ok)
    as (calls & H & He); [cbn; lia..|].
  exists calls. split; [exact H|]. split; [|exact He]. revert H. vm_compute. intros [= <-]. reflexivity.
Defined.
