(* ===== verification/IterSplit.v ===== *)
(** * Parts of an iterator.

    Narrowing an iterator to a range of a dimension visits the elements of the
    range, and splitting it visits all of them.  Splitting until 32 bits are
    enough for the offsets ends, for an iterator that is not a reduction. *)

From S2P Require Import Prelude Layout ScalarType TensorIterator IterSpace IterDims.

#[local] Arguments at_ : simpl never.
#[local] Arguments numel : simpl never.

(** The elements with an index of [dim] between [a] and [b]. *)
Definition between (it : TensorIteratorBase) (dim : nat) (a b : Z) : list (list Z) :=
  map (addresses it) (filter (λ idx, a <= at_ idx dim < b) (indices (shape_ it))).

Lemma filter_true_all {A} (P : A → Prop) `{!∀ x, Decision (P x)} l : Forall P l → filter P l = l.
Proof. induction 1 as [|x l Hx _ IH]; [done|]. rewrite filter_cons_True by done. by rewrite IH. Qed.

Lemma filter_split {A} (P Q R : A → Prop) `{!∀ x, Decision (P x), !∀ x, Decision (Q x), !∀ x, Decision (R x)} l :
  (∀ x, P x ↔ Q x ∨ R x) → (∀ x, ¬ (Q x ∧ R x)) → filter P l ≡ₚ filter Q l ++ filter R l.
Proof.
  intros HP HQR. induction l as [|x l IH]; [done|]. rewrite !filter_cons.
  specialize (HP x). specialize (HQR x). repeat case_decide; try tauto; cbn.
  - by rewrite IH.
  - rewrite IH. apply Permutation_middle.
Qed.

Lemma between_split it dim a b c : a <= b <= c → between it dim a c ≡ₚ between it dim a b ++ between it dim b c.
Proof.
  intros H. unfold between. rewrite <- map_app. apply Permutation_map, filter_split; intros idx; lia.
Qed.

Lemma between_empty it dim a : between it dim a a = [].
Proof.
  unfold between. induction (indices (shape_ it)) as [|idx l IH]; [done|]. rewrite filter_cons_False by lia. done.
Qed.

Lemma between_all it dim : nonneg_shape it → (dim < ndim it)%nat → between it dim 0 (at_ (shape_ it) dim) = elements it.
Proof.
  intros Hs Hd. unfold between. rewrite filter_true_all; [done|]. apply Forall_forall. intros idx Hidx.
  destruct (decide (multiply_integers (shape_ it) = 0)) as [E|Hnz].
  - unfold indices in Hidx. rewrite E in Hidx. by inversion Hidx.
  - apply in_indices in Hidx; [|by apply multiply_nonzero_pos]. by apply in_bounds_at in Hidx as [_ H]; auto.
Qed.

Lemma multiply_insert l d x : (d < length l)%nat →
  at_ l d * multiply_integers (<[d := x]> l) = x * multiply_integers l.
Proof.
  revert d. induction l as [|y l IH]; intros [|d] Hd; simpl in *; try lia; unfold at_ in *; cbn; [lia|].
  rewrite !(Z.mul_comm y), !Z.mul_assoc, IH by lia. done.
Qed.

Lemma offset_alter st : ∀ idx d x, length idx = length st →
  offset (alter (Z.add x) d idx) st = (if decide (d < length st)%nat then x * at_ st d else 0) + offset idx st.
Proof.
  induction st as [|t st IH]; intros [|i idx] d x; try done. intros [= Hl]. destruct d as [|d].
  - rewrite decide_True by (simpl; lia). cbn. unfold at_. cbn. lia.
  - change (alter (Z.add x) (S d) (i :: idx)) with (i :: alter (Z.add x) d idx). cbn [offset].
    rewrite IH by done. change (at_ (t :: st) (S d)) with (at_ st d). cbn [length].
    repeat case_decide; lia.
Qed.

Lemma at_alter l d e x : (e < length l)%nat → at_ (alter (Z.add x) d l) e = (if decide (d = e) then x else 0) + at_ l e.
Proof.
  intros He. unfold at_. rewrite !nth_lookup. destruct (lookup_lt_is_Some_2 l e He) as [y Hy]. rewrite list_lookup_alter, Hy.
  case_decide; [subst; by rewrite Hy|cbn; lia].
Qed.

Lemma alter_cancel a b d (l : list Z) : a + b = 0 → alter (Z.add a) d (alter (Z.add b) d l) = l.
Proof.
  intros H. apply list_eq. intros i. rewrite !list_lookup_alter. case_decide as E; [|done].
  subst. rewrite decide_True by done. destruct (l !! i); cbn; [f_equal; lia|done].
Qed.

(** The indices of the narrowed shape, shifted by [start], are those of the
    range. *)
Lemma narrow_indices shape dim start size : positive shape → (dim < length shape)%nat → 0 <= start → 1 <= size →
  start + size <= at_ shape dim →
  map (alter (Z.add start) dim) (indices (<[dim := size]> shape))
  ≡ₚ filter (λ idx, start <= at_ idx dim < start + size) (indices shape).
Proof.
  intros Hp Hd Hs Hz Hle.
  assert (positive (<[dim := size]> shape)) as Hp' by (apply Forall_insert; [done|lia]).
  assert (∀ idx, in_bounds (<[dim := size]> shape) idx ↔
    in_bounds shape (alter (Z.add start) dim idx) ∧ start <= at_ (alter (Z.add start) dim idx) dim < start + size)
    as Hb.
  { intros idx. rewrite !in_bounds_at, length_insert, length_alter. split.
    - intros [Hl H]. split; [split; [done|]|].
      + intros d Hdd. specialize (H d Hdd). rewrite at_alter by lia. case_decide as E.
        * subst. rewrite at_insert_eq in H by done. lia.
        * rewrite at_insert_ne in H by done. lia.
      + specialize (H dim Hd). rewrite at_insert_eq in H by done. rewrite at_alter, decide_True by (done || lia). lia.
    - intros [[Hl H] Hr]. split; [done|]. intros d Hdd. specialize (H d Hdd).
      destruct (decide (dim = d)) as [<-|Hne].
      + rewrite at_insert_eq by done. rewrite at_alter, decide_True in Hr by (done || lia). lia.
      + rewrite at_insert_ne by done. rewrite at_alter, decide_False in H by (done || lia). lia. }
  assert (∀ idx : list Z, alter (Z.add (- start)) dim (alter (Z.add start) dim idx) = idx) as Hinv1.
  { intros idx. apply alter_cancel. lia. }
  assert (∀ idx : list Z, alter (Z.add start) dim (alter (Z.add (- start)) dim idx) = idx) as Hinv2.
  { intros idx. apply alter_cancel. lia. }
  apply NoDup_Permutation.
  - apply NoDup_fmap_2_strong; [|by apply NoDup_indices]. intros x y _ _ E.
    by rewrite <- (Hinv1 x), E, Hinv1.
  - apply NoDup_filter. by apply NoDup_indices.
  - intros idx. rewrite list_elem_of_fmap, list_elem_of_filter, in_indices by done. split.
    + intros (idx0 & -> & H0). apply in_indices in H0; [|done]. apply Hb in H0. tauto.
    + intros [H1 H2]. exists (alter (Z.add (- start)) dim idx). rewrite Hinv2. split; [done|].
      apply in_indices; [done|]. apply Hb. by rewrite Hinv2.
Qed.

(** ** Narrowing. *)
Definition narrowed (dim : nat) (start size : Z) (it : TensorIteratorBase) : TensorIteratorBase :=
  set_dims (<[dim := size]> (shape_ it)) (shift_operands dim start (operands_ it))
    (set_view_offsets (alter (Z.add start) dim (view_offsets_ it)) it).

Lemma narrow_eq dim start size it : (dim < ndim it)%nat → 1 <= size →
  narrow dim start size it
  = Ok (if (size =? 1) && negb (is_reduction_ it) then coalesce_dimensions (narrowed dim start size it)
        else narrowed dim start size it).
Proof.
  intros Hd Hs. unfold narrow. rewrite (proj2 (Nat.ltb_lt _ _) Hd).
  assert ((size >=? 1) = true) as -> by lia. done.
Qed.

(** The fields an operation on the dimensions may not change. *)
Definition same_kind (it it' : TensorIteratorBase) : Prop :=
  is_reduction_ it' = is_reduction_ it ∧ accumulate_ it' = accumulate_ it ∧
  final_output_ it' = final_output_ it ∧ num_outputs_ it' = num_outputs_ it ∧ ntensors it' = ntensors it.

Lemma same_kind_trans it1 it2 it3 : same_kind it1 it2 → same_kind it2 it3 → same_kind it1 it3.
Proof. unfold same_kind. intuition congruence. Qed.

Lemma coalesce_same_kind it : iter_ok it → same_kind it (coalesce_dimensions it).
Proof.
  intros Hok. destruct (coalesce_dimensions_spec it Hok) as (_ & Hre & _ & _ & ->).
  split_and!; try done. symmetry. eapply Forall2_length. exact Hre.
Qed.

Section narrowed.
Context (dim : nat) (start size : Z) (it : TensorIteratorBase).
Context (Hok : iter_ok it) (Hd : (dim < ndim it)%nat) (Hstart : 0 <= start) (Hsize : 1 <= size).
Context (Hle : start + size <= at_ (shape_ it) dim).

Lemma narrowed_ok : iter_ok (narrowed dim start size it).
Proof.
  destruct Hok as [Hs Hst]. split; cbn.
  - apply Forall_insert; [done|lia].
  - apply Forall_fmap. unfold ndim. cbn. by rewrite length_insert.
Qed.

Lemma narrowed_numel : at_ (shape_ it) dim * numel (narrowed dim start size it) = size * numel it.
Proof. rewrite !numel_eq. cbn. by apply multiply_insert. Qed.

Lemma narrowed_address idx : length idx = ndim it →
  addresses (narrowed dim start size it) idx = addresses it (alter (Z.add start) dim idx).
Proof.
  intros Hl. destruct Hok as [_ Hst]. apply addresses_ext. cbn. apply Forall2_fmap_l, Forall_Forall2_diag.
  eapply Forall_impl; [exact Hst|]. intros op Ho. cbn. cbn beta in Ho. rewrite offset_alter by congruence.
  rewrite decide_True by lia. lia.
Qed.

Lemma narrowed_elements : elements (narrowed dim start size it) ≡ₚ between it dim start (start + size).
Proof.
  destruct (decide (numel it = 0)) as [E|Hnz].
  - pose proof narrowed_numel as Hn. rewrite E, Z.mul_0_r in Hn.
    apply Z.eq_mul_0 in Hn as [Hn|Hn]; [lia|]. rewrite numel_eq in E, Hn.
    unfold elements, between, indices. by rewrite E, Hn.
  - rewrite numel_eq in Hnz. assert (positive (shape_ it)) as Hp by (apply multiply_nonzero_pos; [apply Hok|done]).
    unfold between. rewrite <- narrow_indices by done. rewrite map_map. unfold elements. cbn.
    apply reflexive_eq, map_ext_in. intros idx Hidx. apply narrowed_address.
    unfold indices in Hidx. apply in_map_iff in Hidx as (k & <- & _). by rewrite digits_length, length_insert.
Qed.

Lemma narrow_spec : ∃ it', narrow dim start size it = Ok it' ∧ iter_ok it' ∧
  elements it' ≡ₚ between it dim start (start + size) ∧
  at_ (shape_ it) dim * numel it' = size * numel it ∧ same_kind it it'.
Proof.
  pose proof narrowed_ok as Hnok. pose proof narrowed_numel as Hn. pose proof narrowed_elements as He.
  assert (same_kind it (narrowed dim start size it)) as Hk by (split_and!; try done; apply length_map).
  rewrite narrow_eq by done. destruct (_ && _); eexists; split; try done.
  destruct (coalesce_dimensions_spec _ Hnok) as (H1 & _ & H2 & H3 & _).
  rewrite H2, H3. split_and!; try done; by eapply same_kind_trans, coalesce_same_kind.
Qed.
End narrowed.

(** ** Splitting. *)
Lemma div2_bounds n : 2 <= n → 1 <= n / 2 ∧ 1 <= n - n / 2 ∧ n / 2 < n.
Proof. intros. pose proof (Z.div_mod n 2 ltac:(lia)). pose proof (Z.mod_pos_bound n 2 ltac:(lia)). lia. Qed.

Lemma set_split_flags_elements a f it : elements (set_split_flags a f it) = elements it.
Proof. done. Qed.

Lemma split_spec dim it : iter_ok it → (dim < ndim it)%nat → 2 <= at_ (shape_ it) dim →
  ∃ copy0 this0,
    let overlaps := is_dim_reduced dim it in
    let copy := set_split_flags (accumulate_ it) (final_output_ it && negb overlaps) copy0 in
    let this := set_split_flags (accumulate_ it || overlaps) (final_output_ it) this0 in
    split dim it = Ok (copy, this) ∧
    narrow dim 0 (at_ (shape_ it) dim / 2) it = Ok copy0 ∧
    narrow dim (at_ (shape_ it) dim / 2) (at_ (shape_ it) dim - at_ (shape_ it) dim / 2) it = Ok this0 ∧
    iter_ok copy ∧ iter_ok this ∧ elements copy ++ elements this ≡ₚ elements it ∧
    numel copy + numel this = numel it ∧
    (0 < numel it → 0 < numel copy ∧ 0 < numel this).
Proof.
  intros Hok Hd Hs. set (n := at_ (shape_ it) dim) in *. pose proof (div2_bounds n Hs) as (H1 & H2 & H3).
  destruct (narrow_spec dim 0 (n / 2) it Hok Hd) as (copy0 & Ec & Hc & Hec & Hnc & Hkc); [lia..|].
  destruct (narrow_spec dim (n / 2) (n - n / 2) it Hok Hd) as (this0 & Et & Ht & Het & Hnt & Hkt); [lia..|].
  fold n in Hnc, Hnt. exists copy0, this0. cbv zeta. split_and!; try done.
  - unfold split. fold n. rewrite (proj2 (Nat.ltb_lt _ _) Hd).
    assert ((n >=? 2) = true) as -> by lia. cbn [andb]. cbn [TORCH_INTERNAL_ASSERT mbind result_bind].
    rewrite Ec. cbn [mbind result_bind]. rewrite Et. cbn [mbind result_bind].
    destruct Hkc as (_ & -> & -> & _), Hkt as (_ & -> & -> & _). done.
  - by destruct Hc.
  - by destruct Ht.
  - rewrite !set_split_flags_elements, Hec, Het. replace (n / 2 + (n - n / 2)) with n by lia.
    rewrite Z.add_0_l, <- between_split by lia. by rewrite between_all by (done || apply Hok).
  - change (numel copy0 + numel this0 = numel it). nia.
  - intros Hpos. change (0 < numel copy0 ∧ 0 < numel this0). split; nia.
Qed.

(** ** Splitting until 32 bits are enough. *)
(** No dimension of size 1 beside another, and no two adjacent dimensions that
    all operands expand: what coalescing leaves and narrowing keeps. *)
Definition spread (it : TensorIteratorBase) : Prop :=
  ∀ d, (S d < ndim it)%nat → at_ (shape_ it) d ≠ 1 ∧ at_ (shape_ it) (S d) ≠ 1 ∧
    Exists (λ op, at_ (stride_bytes op) d ≠ 0 ∨ at_ (stride_bytes op) (S d) ≠ 0) (operands_ it).

Lemma coalesced_spread it : coalesced it → spread it.
Proof.
  intros Hc d Hd. specialize (Hc d ltac:(lia)). pose proof (can_coalesce_false _ _ _ Hc) as [H1 H2].
  split_and!; try done. unfold can_coalesce in Hc.
  rewrite (proj2 (Z.eqb_neq _ _) H1), (proj2 (Z.eqb_neq _ _) H2) in Hc. cbn [orb] in Hc.
  destruct (decide (Exists (λ op, at_ (stride_bytes op) d ≠ 0 ∨ at_ (stride_bytes op) (S d) ≠ 0) (operands_ it)))
    as [He|Hne]; [done|exfalso].
  assert (forallb (λ op, at_ (shape_ it) d * at_ (stride_bytes op) d =? at_ (stride_bytes op) (S d))
    (operands_ it) = true) as Ht; [|congruence].
  apply forallb_forall. intros op Hin. apply Z.eqb_eq. apply not_Exists_Forall in Hne; [|apply _].
  rewrite Forall_forall in Hne. specialize (Hne op ltac:(by apply list_elem_of_In)). unfold compose in Hne.
  assert (at_ (stride_bytes op) d = 0 ∧ at_ (stride_bytes op) (S d) = 0) as [-> ->] by lia. lia.
Qed.

Lemma narrowed_spread dim start size it : (dim < ndim it)%nat → size ≠ 1 → spread it →
  spread (narrowed dim start size it).
Proof.
  intros Hd Hsz Hsp d. unfold ndim. cbn. rewrite length_insert. intros Hdd.
  destruct (Hsp d Hdd) as (H1 & H2 & He). unfold ndim in Hd. split_and!.
  - destruct (decide (dim = d)) as [->|]; [by rewrite at_insert_eq by lia|by rewrite at_insert_ne by done].
  - destruct (decide (dim = S d)) as [->|]; [by rewrite at_insert_eq by lia|by rewrite at_insert_ne by done].
  - apply Exists_fmap. exact He.
Qed.

Lemma narrow_spread dim start size it it' : iter_ok it → (dim < ndim it)%nat → 0 <= start → 1 <= size →
  start + size <= at_ (shape_ it) dim → is_reduction_ it = false → spread it → narrow dim start size it = Ok it' →
  spread it'.
Proof.
  intros Hok Hd Hs Hsz Hle Hr Hsp. rewrite narrow_eq, Hr by done. destruct (Z.eqb_spec size 1) as [E|Hne]; cbn.
  - intros [= <-]. apply coalesced_spread, coalesce_dimensions_coalesced. by apply narrowed_ok.
  - intros [= <-]. by apply narrowed_spread.
Qed.

(** What [get_dim_to_split] finds. *)
Definition extent (it : TensorIteratorBase) (d : nat) (op : OperandInfo) : Z :=
  (at_ (shape_ it) d - 1) * Z.abs (at_ (stride_bytes op) d).

(** The best so far: an extent of a dimension from [n] on, and none is larger. *)
Record best_extent (it : TensorIteratorBase) (n : nat) (best : Z * Z) : Prop := {
  best_max : ∀ d op, (n <= d < ndim it)%nat → op ∈ operands_ it → extent it d op <= best.1;
  best_at : best = (-1, -1) ∨ ∃ d op, (n <= d < ndim it)%nat ∧ op ∈ operands_ it ∧ best = (extent it d op, Z.of_nat d) }.

Lemma extent_step_best it d ops : ∀ best, (d < ndim it)%nat → (∀ op, op ∈ ops → op ∈ operands_ it) →
  best = (-1, -1) ∨ (∃ d' op, (d <= d' < ndim it)%nat ∧ op ∈ operands_ it ∧ best = (extent it d' op, Z.of_nat d')) →
  let best' := foldl (extent_step d (at_ (shape_ it) d)) best ops in
  best.1 <= best'.1 ∧ (∀ op, op ∈ ops → extent it d op <= best'.1) ∧
  (best' = (-1, -1) ∨ ∃ d' op, (d <= d' < ndim it)%nat ∧ op ∈ operands_ it ∧ best' = (extent it d' op, Z.of_nat d')).
Proof.
  induction ops as [|op ops IH]; intros best Hd Hin Hb; cbn [foldl].
  { split_and!; [lia|intros op Hop; by inversion Hop|done]. }
  set (best1 := extent_step d (at_ (shape_ it) d) best op).
  assert (best.1 <= best1.1 ∧ extent it d op <= best1.1 ∧
    (best1 = best ∨ best1 = (extent it d op, Z.of_nat d))) as (H1 & H2 & H3).
  { unfold best1, extent_step. fold (extent it d op).
    destruct (Z.gtb_spec (extent it d op) best.1); cbn; split_and!; auto; lia. }
  destruct (IH best1 Hd) as (I1 & I2 & I3).
  - intros op' Hop'. apply Hin. by constructor.
  - destruct H3 as [-> | ->]; [done|]. right. exists d, op. split_and!; [lia|lia|apply Hin; constructor|done].
  - split_and!; [lia| |exact I3]. intros op' [->|Hop']%elem_of_cons; [lia|by apply I2].
Qed.

Lemma split_dim_loop_best it n : positive (shape_ it) → (n <= ndim it)%nat → ∀ best, best_extent it n best →
  best_extent it 0 (split_dim_loop it n best).
Proof.
  intros Hp. induction n as [|d IH]; intros Hn best [Hm Ha]; cbn [split_dim_loop]; [done|].
  apply IH; [lia|].
  assert (at_ (shape_ it) d =? 0 = false) as ->.
  { unfold positive in Hp. rewrite Forall_forall in Hp. unfold ndim in Hn.
    assert (0 < at_ (shape_ it) d); [|lia]. apply Hp. eapply list_elem_of_lookup_2, at_lookup. lia. }
  destruct (extent_step_best it d (operands_ it) best) as (H1 & H2 & H3); [lia|done| |].
  { destruct Ha as [->|(d' & op & ? & ? & ->)]; [by left|]. right. exists d', op. split_and!; done || lia. }
  split; [|exact H3]. intros d' op Hd' Hop. destruct (decide (d' = d)) as [->|]; [by apply H2|].
  etransitivity; [apply Hm; [lia|done]|done].
Qed.

Definition splittable (it : TensorIteratorBase) : Prop :=
  iter_ok it ∧ 0 < numel it ∧ is_reduction_ it = false ∧ (1 <= ntensors it)%nat ∧ spread it.

Lemma size_positive it d : positive (shape_ it) → (d < ndim it)%nat → 0 < at_ (shape_ it) d.
Proof.
  intros Hp Hd. unfold positive in Hp. rewrite Forall_forall in Hp. apply Hp.
  eapply list_elem_of_lookup_2, at_lookup, Hd.
Qed.

Lemma get_dim_to_split_spec it : splittable it → 1 < numel it →
  ∃ d, get_dim_to_split it = Ok (Z.of_nat d) ∧ (d < ndim it)%nat ∧ 2 <= at_ (shape_ it) d.
Proof.
  intros (Hok & _ & _ & Ht & Hsp) Hn. rewrite numel_eq in Hn.
  assert (positive (shape_ it)) as Hp by (apply multiply_nonzero_pos; [apply Hok|lia]).
  assert (1 <= ndim it)%nat as Hnd by (unfold ndim; destruct (shape_ it); simpl in *; lia).
  pose proof (split_dim_loop_best it (ndim it) Hp ltac:(lia) (-1, -1)) as Hb.
  destruct Hb as [Hm Ha]; [split; [intros; lia|by left]|].
  unfold get_dim_to_split. rewrite (proj2 (Nat.leb_le _ _) Hnd). cbn [TORCH_INTERNAL_ASSERT mbind result_bind].
  unfold ntensors in Ht. destruct (operands_ it) as [|op0 ops] eqn:Eops; [simpl in Ht; lia|].
  assert (0 <= extent it 0 op0) as H0.
  { pose proof (size_positive it 0 Hp Hnd). unfold extent. apply Z.mul_nonneg_nonneg; lia. }
  pose proof (Hm 0%nat op0 ltac:(lia) ltac:(constructor)) as Hm0.
  destruct Ha as [Ha|(d & op & Hd & Hop & Ha)]; [rewrite Ha in Hm0; cbn in Hm0; lia|].
  rewrite Ha in Hm, Hm0 |- *. cbn [fst snd] in *. assert ((extent it d op >=? 0) = true) as -> by lia.
  exists d. split; [done|]. split; [lia|]. pose proof (size_positive it d Hp ltac:(lia)) as Hsd.
  destruct (decide (at_ (shape_ it) d = 1)) as [E|]; [exfalso|lia].
  destruct (decide (ndim it = 1%nat)) as [E1|Hne1].
  - assert (d = 0%nat) as -> by lia. unfold ndim in E1. destruct (shape_ it) as [|s [|]]; try done.
    unfold at_ in E. simpl in *. lia.
  - destruct (Hsp 0%nat ltac:(lia)) as (Hs0 & Hs1 & He). rewrite Eops in He.
    apply Exists_exists in He as (op' & Hop' & He).
    pose proof (size_positive it 0 Hp ltac:(lia)). pose proof (size_positive it 1 Hp ltac:(lia)).
    pose proof (Hm 0%nat op' ltac:(lia) Hop') as Hm1. pose proof (Hm 1%nat op' ltac:(lia) Hop') as Hm2.
    unfold extent in Hm1, Hm2. rewrite E in Hm1, Hm2. destruct He as [He|He]; nia.
Qed.

Lemma fits_one it : positive (shape_ it) → numel it = 1 → can_use_32bit_indexing it = true.
Proof.
  intros Hp Hn. unfold can_use_32bit_indexing. rewrite Hn. cbn.
  assert (∀ d, (d < ndim it)%nat → at_ (shape_ it) d = 1) as H1.
  { rewrite numel_eq in Hn. unfold ndim. revert Hn. induction Hp as [|s l Hs Hp IH]; intros Hn d Hd; simpl in *; [lia|].
    apply Z.eq_mul_1_nonneg in Hn as [-> Hn]; [|lia]. destruct d as [|d]; [done|]. apply (IH Hn). lia. }
  apply forallb_forall. intros op _. apply Z.leb_le. unfold max_offset.
  assert (∀ l m, (∀ d, d ∈ l → (d < ndim it)%nat) →
    foldl (λ m dim, m + (at_ (shape_ it) dim - 1) * at_ (stride_bytes op) dim) m l = m) as ->; [|done|].
  - induction l as [|d l IH]; intros m Hl; [done|]. cbn [foldl]. rewrite IH by (intros; apply Hl; by constructor).
    rewrite H1 by (apply Hl; constructor). lia.
  - intros d Hd. apply elem_of_seq in Hd. lia.
Qed.

Fixpoint total_numel (its : list TensorIteratorBase) : Z :=
  match its with [] => 0 | it :: rest => numel it + total_numel rest end.
Definition all_elements (its : list TensorIteratorBase) : list (list Z) := concat (map elements its).

Lemma total_numel_nonneg its : Forall splittable its → 0 <= total_numel its.
Proof. induction 1 as [|it its (_ & H & _) _ IH]; cbn; lia. Qed.

Lemma split_splittable it d : splittable it → (d < ndim it)%nat → 2 <= at_ (shape_ it) d →
  ∃ copy this, split d it = Ok (copy, this) ∧ splittable copy ∧ splittable this ∧
    elements copy ++ elements this ≡ₚ elements it ∧ numel copy + numel this = numel it.
Proof.
  intros (Hok & Hn & Hr & Ht & Hsp) Hd Hs. pose proof (div2_bounds _ Hs) as (H1 & H2 & H3).
  destruct (split_spec d it Hok Hd Hs) as (copy0 & this0 & E & Ec & Et & Hc1 & Ht1 & He & Hne & Hpos).
  destruct (Hpos Hn) as [Hp1 Hp2]. eexists _, _. split; [exact E|].
  destruct (narrow_spec d 0 (at_ (shape_ it) d / 2) it Hok Hd) as (? & Ec' & _ & _ & _ & (Hk1 & _ & _ & _ & Hk1')); [lia..|].
  rewrite Ec in Ec'. injection Ec' as <-.
  destruct (narrow_spec d (at_ (shape_ it) d / 2) (at_ (shape_ it) d - at_ (shape_ it) d / 2) it Hok Hd)
    as (? & Et' & _ & _ & _ & (Hk2 & _ & _ & _ & Hk2')); [lia..|].
  rewrite Et in Et'. injection Et' as <-.
  pose proof (narrow_spread d 0 (at_ (shape_ it) d / 2) it _ Hok Hd ltac:(lia) H1 ltac:(lia) Hr Hsp Ec).
  pose proof (narrow_spread d (at_ (shape_ it) d / 2) _ it _ Hok Hd ltac:(lia) H2 ltac:(lia) Hr Hsp Et).
  split; [|split; [|done]]; (split_and!; [done|done|cbn; congruence| |done]);
    unfold ntensors in *; cbn; lia.
Qed.

Lemma split_until_spec fuel : ∀ it rest, splittable it → numel it <= Z.of_nat fuel + 1 →
  ∃ it' more, split_until fuel (it :: rest) = Some (Ok (it' :: more ++ rest)) ∧
    can_use_32bit_indexing it' = true ∧ Forall splittable (it' :: more) ∧
    elements it' ++ all_elements more ≡ₚ elements it ∧ numel it' + total_numel more = numel it.
Proof.
  induction fuel as [|fuel IH]; intros it rest Hs Hf; cbn [split_until];
    destruct (can_use_32bit_indexing it) eqn:E.
  1,3: exists it, []; split; [done|]; split; [done|]; split; [by constructor; [|constructor]|]; cbn; rewrite app_nil_r; split; [done|lia].
  { pose proof Hs as (Hok & Hn & _). rewrite fits_one in E; [done|by apply numel_positive|lia]. }
  destruct (decide (numel it = 1)) as [E1|Hne].
  { pose proof Hs as (Hok & Hn & _). rewrite fits_one in E; [done|by apply numel_positive|lia]. }
  pose proof Hs as (_ & Hn & _).
  destruct (get_dim_to_split_spec it Hs ltac:(lia)) as (d & Ed & Hd & Hsz). rewrite Ed. cbn [mbind result_bind].
  rewrite Nat2Z.id. destruct (split_splittable it d Hs Hd Hsz) as (copy & this & -> & Hc & Ht & He & Hnum).
  pose proof Ht as (_ & Htn & _).
  destruct (IH copy (this :: rest) Hc ltac:(lia)) as (it' & more & -> & Hu & Hall & Hel & Htot).
  exists it', (more ++ [this]). split; [by rewrite <- app_assoc|]. split; [done|].
  apply Forall_cons in Hall as [Hi Hm]. split; [constructor; [done|]; apply Forall_app; auto|]. split.
  - unfold all_elements in *. rewrite map_app, concat_app. cbn. rewrite app_nil_r, app_assoc, Hel. done.
  - assert (total_numel (more ++ [this]) = total_numel more + numel this) as ->; [|lia].
    clear. induction more as [|x more IH]; cbn in *; lia.
Qed.

Lemma sub_iterators_spec fuel : ∀ vec, Forall splittable vec → total_numel vec < Z.of_nat fuel →
  ∃ parts, sub_iterators fuel vec = Some (Ok parts) ∧
    Forall (λ it, can_use_32bit_indexing it = true) parts ∧ Forall splittable parts ∧
    all_elements parts ≡ₚ all_elements vec.
Proof.
  induction fuel as [|fuel IH]; intros vec Hv Hf; [pose proof (total_numel_nonneg vec Hv); lia|].
  cbn [sub_iterators]. destruct Hv as [|it rest Hi Hr].
  - exists []. cbn [split_until]. destruct fuel; cbn; auto.
  - cbn in Hf. pose proof (total_numel_nonneg rest Hr).
    destruct (split_until_spec (S fuel) it rest Hi ltac:(lia)) as (it' & more & -> & Hu & Hall & Hel & Htot).
    apply Forall_cons in Hall as [Hi' Hm]. pose proof Hi' as (_ & Hn' & _).
    destruct (IH (more ++ rest)) as (parts & -> & Hp & Hs & Hpe).
    + by apply Forall_app.
    + assert (total_numel (more ++ rest) = total_numel more + total_numel rest) as ->; [|lia].
      clear. induction more as [|x more IH]; cbn in *; lia.
    + exists (it' :: parts). split; [done|]. split; [by constructor|]. split; [by constructor|].
      unfold all_elements in *. cbn. rewrite Hpe, <- Hel, map_app, concat_app. by rewrite app_assoc.
Qed.

(** ** The strides of the parts. *)
(** The [k]th operand has no negative stride. *)
Definition nonneg_operand (k : nat) (it : TensorIteratorBase) : Prop :=
  ∀ op, operands_ it !! k = Some op → Forall (λ s, 0 <= s) (stride_bytes op).

Lemma nonneg_map k it (f : OperandInfo → OperandInfo) : nonneg_operand k it →
  (∀ op, Forall (λ s, 0 <= s) (stride_bytes op) → Forall (λ s, 0 <= s) (stride_bytes (f op))) →
  nonneg_operand k (set_operands (map f (operands_ it)) it).
Proof.
  intros Hit Hf op. cbn. rewrite list_lookup_fmap. intros (op0 & Hop & ->)%fmap_Some. apply Hf, (Hit _ Hop).
Qed.

Lemma at_nonneg l d : Forall (λ s, 0 <= s) l → 0 <= at_ l d.
Proof. intros H. unfold at_. rewrite nth_lookup. destruct (l !! d) eqn:E; cbn; [|lia]. rewrite Forall_lookup in H. by eapply H. Qed.

Lemma nonneg_replace k it d e : nonneg_operand k it → nonneg_operand k (replace_stride d e it).
Proof.
  intros H. apply nonneg_map; [done|]. intros op Hop. cbn. apply Forall_insert; [done|by apply at_nonneg].
Qed.

Lemma nonneg_coalesce_loop k dims : ∀ prev it, nonneg_operand k it →
  nonneg_operand k (coalesce_loop prev dims it).2.
Proof.
  induction dims as [|dim dims IH]; intros prev it Hit; cbn [coalesce_loop]; [done|].
  unfold coalesce_step. destruct (can_coalesce _ _ _); apply IH.
  - destruct (_ =? 1); [by apply nonneg_replace|done].
  - destruct (_ =? _)%nat; [done|by apply nonneg_replace].
Qed.

Lemma nonneg_coalesce k it : nonneg_operand k it → nonneg_operand k (coalesce_dimensions it).
Proof.
  intros Hit. unfold coalesce_dimensions. destruct (_ <=? _)%nat; [done|].
  pose proof (nonneg_coalesce_loop k (seq 1 (ndim it - 1)) 0 it Hit) as H. destruct (coalesce_loop _ _ _) as [prev it1].
  change (nonneg_operand k (set_shape (resize (prev + 1) 0 (shape_ it1)) it1)) in H.
  cbv zeta. apply (nonneg_map _ _ _ H). intros op Hop. cbn -[resize]. rewrite resize_spec. apply Forall_app. split.
  - by apply Forall_take.
  - apply Forall_replicate. lia.
Qed.

Lemma nonneg_narrow k dim start size it it' : nonneg_operand k it → narrow dim start size it = Ok it' →
  nonneg_operand k it'.
Proof.
  intros Hit. unfold narrow. intros (_ & _ & [= <-])%bind_Ok.
  assert (nonneg_operand k (narrowed dim start size it)) as Hn by (by apply (nonneg_map k it)).
  destruct (_ && _); [by apply nonneg_coalesce|done].
Qed.

Lemma nonneg_split k dim it copy this : nonneg_operand k it → split dim it = Ok (copy, this) →
  nonneg_operand k copy ∧ nonneg_operand k this.
Proof.
  intros Hit. unfold split. intros (_ & _ & (c & Hc & (t & Ht & [= <- <-])%bind_Ok)%bind_Ok)%bind_Ok.
  split; [exact (nonneg_narrow _ _ _ _ _ _ Hit Hc)|exact (nonneg_narrow _ _ _ _ _ _ Hit Ht)].
Qed.

Lemma nonneg_split_until k fuel : ∀ vec vec', Forall (nonneg_operand k) vec → split_until fuel vec = Some (Ok vec') →
  Forall (nonneg_operand k) vec'.
Proof.
  induction fuel as [|fuel IH]; intros [|it rest] vec' Hv; cbn [split_until]; try (by intros [= <-]);
    (destruct (can_use_32bit_indexing it); [by intros [= <-]|]); [done|].
  apply Forall_cons in Hv as [Hi Hr]. destruct (_ ≫= _) as [[copy this]|e] eqn:E; [|done].
  apply bind_Ok in E as (d & _ & E). destruct (nonneg_split k _ _ _ _ Hi E). apply IH. by repeat constructor.
Qed.

Lemma nonneg_sub_iterators k fuel : ∀ vec parts, Forall (nonneg_operand k) vec →
  sub_iterators fuel vec = Some (Ok parts) → Forall (nonneg_operand k) parts.
Proof.
  induction fuel as [|fuel IH]; intros vec parts Hv; cbn [sub_iterators]; [done|].
  destruct (split_until (S fuel) vec) as [[[|it rest]|e]|] eqn:E; try done; [by intros [= <-]|].
  apply (nonneg_split_until k) in E as [Hi Hr]%Forall_cons; [|done].
  destruct (sub_iterators fuel rest) as [[iters|]|] eqn:E1; try done. intros [= <-].
  constructor; [done|by apply (IH rest)].
Qed.

(** What [can_use_32bit_indexing] guarantees: the number of elements and, for an
    operand without negative strides, the offset of every element are below
    2^31.  For an operand with a negative stride it only bounds the offset of the
    last element, and other offsets may lie outside: [negative_stride_passes]. *)
Lemma foldl_sum (f : nat → Z) l : ∀ a, foldl (λ m d, m + f d) a l = a + sum_list (map f l).
Proof. unfold sum_list. induction l as [|d l IH]; intros a; cbn; [lia|]. rewrite IH. lia. Qed.

Lemma sum_list_mono (f g : nat → Z) l : (∀ d, d ∈ l → 0 <= f d <= g d) →
  0 <= sum_list (map f l) <= sum_list (map g l).
Proof.
  unfold sum_list. induction l as [|d l IH]; intros H; cbn; [lia|].
  pose proof (H d ltac:(constructor)). specialize (IH ltac:(intros; apply H; by constructor)). lia.
Qed.

Lemma can_use_32bit_fits it : iter_ok it → 0 < numel it → can_use_32bit_indexing it = true →
  numel it < 2 ^ 31 ∧ ∀ k op idx, nonneg_operand k it → operands_ it !! k = Some op → idx ∈ indices (shape_ it) →
    0 <= offset idx (stride_bytes op) < 2 ^ 31.
Proof.
  intros Hok Hn. pose proof (numel_positive it Hok Hn) as Hp. unfold can_use_32bit_indexing, int32_max.
  destruct (Z.gtb_spec (numel it) (2 ^ 31 - 1)) as [|Hle]; [done|]. intros Hops. split; [lia|].
  intros k op idx Hst Hop Hidx. specialize (Hst op Hop). apply list_elem_of_lookup_2 in Hop.
  rewrite forallb_forall in Hops. specialize (Hops op ltac:(by apply list_elem_of_In)).
  apply Z.leb_le in Hops. unfold max_offset in Hops. rewrite foldl_sum in Hops.
  apply in_indices, in_bounds_at in Hidx as [Hl Hb]; [|done].
  pose proof (iter_strides it Hok) as Hlen. rewrite Forall_forall in Hlen. specialize (Hlen op Hop).
  rewrite offset_sum, Hlen by (unfold ndim in Hlen; congruence).
  match type of Hops with 1 + sum_list (map ?g _) <= _ =>
    pose proof (sum_list_mono (λ d, at_ idx d * at_ (stride_bytes op) d) g (seq 0 (ndim it))) as Hm end.
  cbn beta in Hm. apply Z.lt_succ_r in Hops. 
  enough (0 <= sum_list (map (λ d, at_ idx d * at_ (stride_bytes op) d) (seq 0 (ndim it)))
    <= sum_list (map (λ dim, (at_ (shape_ it) dim - 1) * at_ (stride_bytes op) dim) (seq 0 (ndim it)))) by lia.
  apply Hm. intros d Hd. apply elem_of_seq in Hd. specialize (Hb d ltac:(unfold ndim in Hd; lia)).
  assert (0 <= at_ (stride_bytes op) d); [|nia]. rewrite Forall_forall in Hst. apply Hst.
  eapply list_elem_of_lookup_2, at_lookup. lia.
Qed.

(** ** The properties. *)
(**  Narrowing an iterator to a range of a dimension does not fail and
    visits the elements whose index is in the range. *)
Theorem narrow_visits_range dim start size it : iter_ok it → (dim < ndim it)%nat → 0 <= start → 1 <= size →
  start + size <= at_ (shape_ it) dim →
  ∃ it', narrow dim start size it = Ok it' ∧ iter_ok it' ∧
    elements it' ≡ₚ map (addresses it) (filter (λ idx, start <= at_ idx dim < start + size) (indices (shape_ it))).
Proof.
  intros Hok Hd Hs Hz Hle. destruct (narrow_spec dim start size it Hok Hd Hs Hz Hle) as (it' & H1 & H2 & H3 & _).
  by exists it'.
Qed.

(**  Splitting an iterator at a dimension of at least two elements gives two
    iterators that visit, together, its elements, each once and with no part
    empty.  If the dimension is reduced, the part that comes first is not the
    final one for its outputs, and the part that comes second accumulates. *)
Theorem split_divides_elements dim it : iter_ok it → (dim < ndim it)%nat → 2 <= at_ (shape_ it) dim →
  ∃ copy this, split dim it = Ok (copy, this) ∧ iter_ok copy ∧ iter_ok this ∧
    elements copy ++ elements this ≡ₚ elements it ∧ numel copy + numel this = numel it ∧
    (0 < numel it → 0 < numel copy < numel it ∧ 0 < numel this < numel it) ∧
    accumulate_ copy = accumulate_ it ∧ final_output_ this = final_output_ it ∧
    (is_dim_reduced dim it = true → final_output_ copy = false ∧ accumulate_ this = true) ∧
    (is_dim_reduced dim it = false →
       final_output_ copy = final_output_ it ∧ accumulate_ this = accumulate_ it).
Proof.
  intros Hok Hd Hs. destruct (split_spec dim it Hok Hd Hs) as (c0 & t0 & E & _ & _ & Hc & Ht & He & Hn & Hp).
  eexists _, _. split; [exact E|]. split_and!; try done.
  - intros Hpos. specialize (Hp Hpos). lia.
  - intros ->. cbn. by rewrite andb_false_r, orb_true_r.
  - intros ->. cbn. by rewrite andb_true_r, orb_false_r.
Qed.

(** C19.  Splitting an iterator until 32 bits are enough for its offsets ends and
    does not fail, for an iterator that has an element, is not a reduction and
    has been coalesced: every part passes [can_use_32bit_indexing] and has fewer
    than 2^31 elements, and the parts visit, together, the elements of the
    iterator, each once.  For every operand of the iterator that has no negative
    stride, the offsets of all elements of every part are between 0 and 2^31; for
    an operand with a negative stride the test of the code does not bound them. *)
Theorem with_32bit_indexing_covers fuel it : iter_ok it → 0 < numel it → is_reduction_ it = false →
  (1 <= ntensors it)%nat → (∀ d, (S d < ndim it)%nat → can_coalesce d (S d) it = false) →
  numel it < Z.of_nat fuel →
  ∃ parts, with_32bit_indexing fuel it = Some (Ok parts) ∧
    Forall (λ part, iter_ok part ∧ can_use_32bit_indexing part = true ∧ numel part < 2 ^ 31) parts ∧
    concat (map elements parts) ≡ₚ elements it ∧
    (∀ k op0, operands_ it !! k = Some op0 → Forall (λ s, 0 <= s) (stride_bytes op0) →
      ∀ part op idx, part ∈ parts → operands_ part !! k = Some op → idx ∈ indices (shape_ part) →
      0 <= offset idx (stride_bytes op) < 2 ^ 31).
Proof.
  intros Hok Hn Hr Ht Hc Hf.
  assert (splittable it) as Hs.
  { split_and!; try done. apply coalesced_spread. intros d Hd. apply Hc. lia. }
  destruct (sub_iterators_spec fuel [it]) as (parts & E & Hu & Hall & He); [by constructor; [|constructor]|cbn; lia|].
  assert (∀ part, part ∈ parts → iter_ok part ∧ can_use_32bit_indexing part = true ∧ 0 < numel part) as Hparts.
  { intros part Hin. rewrite Forall_forall in Hall, Hu. destruct (Hall part Hin) as (Hpok & Hpn & _). auto. }
  exists parts. split; [exact E|]. split_and!.
  - apply Forall_forall. intros part (? & ? & ?)%Hparts. split_and!; [done..|]. by apply can_use_32bit_fits.
  - rewrite He. cbn. by rewrite app_nil_r.
  - intros k op0 Hk Hop0 part op idx Hin. pose proof (Hparts part Hin) as (? & ? & ?).
    apply can_use_32bit_fits; [done..|].
    assert (Forall (nonneg_operand k) parts) as Hnn.
    { eapply nonneg_sub_iterators; [|exact E]. repeat constructor. intros op' Hop'. congruence. }
    rewrite Forall_forall in Hnn. by apply Hnn.
Qed.

(** A sum over the expanded first dimension of a tensor: [inner] is reduced and
    the input repeats its elements there. *)
Definition expanded_sum (inner : Z) : TensorIteratorBase :=
  example_iterator [inner; 2] [float_operand 1000 [0; 4] true; float_operand 2000 [0; 4] false] true.

(** C22.  The hypothesis that the iterator is no reduction is needed: the sum of
    an expanded tensor of shape (2^32, 2) over its first dimension cannot be
    split.  After a split of the second dimension its size is 1, it is not
    coalesced, and [get_dim_to_split] chooses it again, since the extents of
    both dimensions are 0: the assertion of [split] fails. *)
Theorem expanded_reduction_is_not_split fuel :
  let it := expanded_sum (2 ^ 32) in
  iter_ok it ∧ (∀ d, (S d < ndim it)%nat → can_coalesce d (S d) it = false) ∧
  with_32bit_indexing (S (S fuel)) it = Some (Throw (InternalAssert "")).
Proof.
  split_and!.
  - split; repeat constructor; done.
  - intros d Hd. cbn in Hd. assert (d = 0%nat) as -> by lia. reflexivity.
  - vm_compute. reflexivity.
Qed.

Lemma narrow_visits_range_witness :
  ∃ it', narrow 1 1 1 copy_iterator = Ok it' ∧ shape_ it' = [4; 2] ∧
    elements it' ≡ₚ map (addresses copy_iterator)
      (filter (λ idx, 1 <= at_ idx 1 < 1 + 1) (indices (shape_ copy_iterator))).
Proof.
  destruct (narrow_visits_range 1 1 1 copy_iterator copy_iterator_ok) as (it' & H & _ & He);
    [cbn; lia|lia|lia|vm_compute; discriminate|].
  exists it'. split; [exact H|]. split; [|exact He]. revert H. vm_compute. intros [= <-]. reflexivity.
Defined.

Lemma split_divides_elements_witness :
  ∃ copy this, split 1 sum_iterator = Ok (copy, this) ∧ elements copy ++ elements this ≡ₚ elements sum_iterator ∧
    final_output_ copy = false ∧ accumulate_ this = true ∧ shape_ copy = [4; 1; 2] ∧ shape_ this = [4; 2; 2].
Proof.
  destruct (split_divides_elements 1 sum_iterator sum_iterator_ok)
    as (copy & this & H & _ & _ & He & _ & _ & _ & _ & Hr & _); [cbn; lia|vm_compute; discriminate|].
  exists copy, this. destruct (Hr eq_refl) as [? ?]. split; [exact H|]. split; [exact He|].
  revert H. vm_compute. intros [= <- <-]. auto.
Defined.

(** A copy of three elements that are far apart. *)
Definition sparse_iterator : TensorIteratorBase :=
  example_iterator [3] [float_operand 1000 [2 ^ 30] true; float_operand 2000 [4] false] false.

Lemma with_32bit_indexing_covers_witness :
  ∃ parts, with_32bit_indexing 4 sparse_iterator = Some (Ok parts) ∧ map shape_ parts = [[1]; [2]] ∧
    concat (map elements parts) ≡ₚ elements sparse_iterator ∧
    ∀ k part op idx, (k < 2)%nat → part ∈ parts → operands_ part !! k = Some op → idx ∈ indices (shape_ part) →
      0 <= offset idx (stride_bytes op) < 2 ^ 31.
Proof.
  destruct (with_32bit_indexing_covers 4 sparse_iterator) as (parts & H & _ & He & Hb);
    [split; repeat constructor; lia|done|done|cbn; lia|intros d Hd; cbn in Hd; lia|done|].
  exists parts. split; [exact H|]. split; [revert H; vm_compute; by intros [= <-]|]. split; [exact He|].
  intros [|[|k]] part op idx Hk; [| |lia]; (eapply Hb; [reflexivity|repeat constructor; lia]).
Defined.
