(* ===== verification/IterReduce.v ===== *)
(** * Reductions in parallel.

    A reduction is divided among threads by the columns of a dimension that is
    not reduced, or into one iterator for each element of the output: the parts
    visit, together, the elements of the iterator. *)

From S2P Require Import Prelude Layout ScalarType TensorIterator IterSpace IterDims IterLoops TensorIteratorLoops.
From S2P Require Import IterSplit.

#[local] Arguments at_ : simpl never.
#[local] Arguments numel : simpl never.

(** ** The dimension to divide. *)
Lemma find_split_loop_spec nt it n : ∀ best, (n <= ndim it)%nat → (best < ndim it)%nat →
  is_dim_reduced best it = false →
  match find_split_loop nt it n best with
  | inl d | inr d => (d < ndim it)%nat ∧ is_dim_reduced d it = false
  end.
Proof.
  induction n as [|d IH]; intros best Hn Hb Hr; cbn [find_split_loop]; [done|].
  destruct (is_dim_reduced d it) eqn:E; [done|]. destruct (_ >=? _); [split; [lia|done]|].
  apply IH; [lia|destruct (_ >? _); lia|by destruct (_ >? _)].
Qed.

Lemma find_split_dim_spec t it : (1 <= ndim it)%nat → is_dim_reduced (ndim it - 1) it = false →
  ∃ d, find_split_dim t it = Ok d ∧ (d < ndim it)%nat ∧ is_dim_reduced d it = false.
Proof.
  intros Hn Hr. unfold find_split_dim.
  pose proof (find_split_loop_spec (get_num_threads t) it (ndim it) (ndim it - 1) ltac:(lia) ltac:(lia) Hr) as H.
  destruct (find_split_loop _ _ _ _) as [d|d]; [by exists d|]. destruct H as [Hd E]. rewrite E. by exists d.
Qed.

(** ** Columns. *)
(** Cutting a range into ranges whose bounds are moved by [f]. *)
Lemma between_ranges it dim (f : Z → Z) (cols : Z) rs : (∀ x y, 0 <= x → x <= y → y <= cols → f x <= f y) →
  ∀ b, 0 <= b <= cols → partition b cols rs →
  concat (map (λ r, between it dim (f (begin r)) (f (end_ r))) rs) ≡ₚ between it dim (f b) (f cols).
Proof.
  intros Hf. induction rs as [|r rs IH]; intros b Hb; cbn [partition map concat].
  - intros He. assert (b = cols) as -> by lia. by rewrite between_empty.
  - intros (<- & Hr & Hp). rewrite (IH (end_ r)) by (done || lia).
    symmetry. apply between_split. split; apply Hf; lia.
Qed.

(** The calls or iterators of the parts, for parts that visit what [between]
    says. *)
Lemma each_range_between {A} (g : A → list (list Z)) (f : Range → option (result A)) it dim (h : Z → Z) rs :
  iter_ok it → (dim < ndim it)%nat →
  let cols := at_ (shape_ it) dim in
  (∀ x y, 0 <= x → x <= y → y <= cols → h x <= h y) → h 0 = 0 → h cols = cols → partition 0 cols rs →
  (∀ r, 0 <= begin r → begin r < end_ r → end_ r <= cols →
     ∃ a, f r = Some (Ok a) ∧ g a ≡ₚ between it dim (h (begin r)) (h (end_ r))) →
  ∃ l, each_range f rs = Some (Ok l) ∧ concat (map g l) ≡ₚ elements it ∧ length l = length rs.
Proof.
  intros Hok Hd cols Hm H0 Hc Hp Hf.
  assert (0 <= cols) as Hcols.
  { destruct Hok as [Hs _]. unfold nonneg_shape in Hs. rewrite Forall_forall in Hs. apply Hs.
    eapply list_elem_of_lookup_2, at_lookup, Hd. }
  destruct (each_range_Forall f (λ r a, g a ≡ₚ between it dim (h (begin r)) (h (end_ r))) rs) as (l & El & HF).
  { eapply Forall_impl; [apply (partition_bounds _ _ _ Hp)|]. intros r (? & ? & ?). by apply Hf. }
  exists l. split; [done|]. split; [|symmetry; by eapply Forall2_length].
  rewrite <- (between_all it dim) by (done || apply Hok). fold cols.
  rewrite <- Hc, <- H0 at 1. rewrite <- (between_ranges it dim h cols rs Hm 0) by (done || lia).
  clear -HF. induction HF as [|r a rs l E _ IH]; [done|]. cbn. by rewrite E, IH.
Qed.

(** ** Reduction along a dimension. *)
Definition column_bound (round : bool) (multiple cols x : Z) : Z :=
  if round && negb (x =? cols) then x - x mod multiple else x.

Lemma column_bound_mono round m cols x y : 0 < m → 0 <= x → x <= y → y <= cols →
  column_bound round m cols x <= column_bound round m cols y.
Proof.
  intros Hm Hx Hxy Hy. unfold column_bound. destruct round; cbn [andb]; [|lia].
  pose proof (Z.mod_pos_bound x m Hm). pose proof (Z.mod_pos_bound y m Hm).
  assert (∀ z, z - z mod m = m * (z / m)) as E by (intros z; pose proof (Z.div_mod z m ltac:(lia)); lia).
  destruct (Z.eqb_spec x cols), (Z.eqb_spec y cols); cbn [negb]; try lia.
  rewrite !E. pose proof (Z.div_le_mono x y m Hm Hxy). nia.
Qed.

Lemma reduce_columns_spec backend inner it dim es round r : iter_ok it → (dim < ndim it)%nat →
  (1 <= team inner)%nat → 1 <= get_num_threads inner → 0 < 128 / es →
  let cols := at_ (shape_ it) dim in
  0 <= begin r → begin r < end_ r → end_ r <= cols →
  ∃ calls, reduce_columns backend inner it dim es round r = Some (Ok calls) ∧
    calls_elements (concat calls)
    ≡ₚ between it dim (column_bound round (128 / es) cols (begin r)) (column_bound round (128 / es) cols (end_ r)).
Proof.
  intros Hok Hd Ht Hn Hes cols Hb Hbe He. unfold reduce_columns.
  set (r' := if round then round_columns it dim (128 / es) r else r).
  pose proof (column_bound_mono round (128 / es) cols 0 (begin r) Hes ltac:(lia) Hb ltac:(lia)) as M0.
  pose proof (column_bound_mono round (128 / es) cols (begin r) (end_ r) Hes Hb ltac:(lia) He) as M1.
  pose proof (column_bound_mono round (128 / es) cols (end_ r) cols Hes ltac:(lia) He ltac:(lia)) as M2.
  assert (column_bound round (128 / es) cols cols = cols) as Ecols
    by (unfold column_bound; by rewrite Z.eqb_refl, andb_false_r).
  assert (column_bound round (128 / es) cols 0 = 0) as E0
    by (unfold column_bound; rewrite Zmod_0_l; by destruct (_ && _)).
  assert (begin r' = column_bound round (128 / es) cols (begin r)) as Eb.
  { unfold r', column_bound. destruct round; [|done]. cbn. by rewrite (proj2 (Z.eqb_neq _ _)) by lia. }
  assert (end_ r' = column_bound round (128 / es) cols (end_ r)) as Ee by (unfold r', column_bound; by destruct round).
  rewrite <- Eb, <- Ee in *. rewrite E0 in M0. rewrite Ecols in M2.
  destruct (Z.eqb_spec (begin r') (end_ r')) as [E|Hne].
  - exists []. split; [done|]. by rewrite E, between_empty.
  - destruct (narrow_spec dim (begin r') (range_size r') it Hok Hd) as (it' & -> & Hok' & Hel & _);
      [lia|unfold range_size; lia..|].
    destruct (for_each_spec backend inner GRAIN_SIZE it' Hok' ltac:(done) Ht Hn) as (calls & -> & Hc).
    exists calls. split; [done|]. rewrite calls_elements_concat, Hc, Hel.
    unfold range_size. by replace (begin r' + (end_ r' - begin r')) with (end_ r') by lia.
Qed.

Lemma elementSize_divides dt es : elementSize dt = Ok es → 0 < 128 / es.
Proof. destruct dt; cbn; intros [= <-]; done. Qed.

Lemma parallel_dim_reduction_spec backend t inner it op0 op1 rest es : iter_ok it → (1 <= ndim it)%nat →
  is_dim_reduced (ndim it - 1) it = false → operands_ it = op0 :: op1 :: rest →
  elementSize (current_dtype op1) = Ok es → (1 <= team t)%nat → 1 <= get_num_threads t →
  (1 <= team inner)%nat → 1 <= get_num_threads inner →
  ∃ calls, parallel_dim_reduction backend t inner it = Some (Ok calls) ∧
    concat (map (λ cs, calls_elements (concat cs)) calls) ≡ₚ elements it.
Proof.
  intros Hok Hn Hr Hops Hes Ht Hnt Hti Hni. unfold parallel_dim_reduction.
  destruct (find_split_dim_spec t it Hn Hr) as (dim & E & Hd & _).
  rewrite (proj2 (Nat.leb_le _ _) Hn), E, Hops. cbn [TORCH_INTERNAL_ASSERT mbind result_bind].
  change ((op0 :: op1 :: rest) !! 1%nat) with (Some op1). cbn [mbind result_bind]. rewrite Hes.
  cbn [mbind result_bind]. pose proof (elementSize_divides _ _ Hes) as He.
  set (round := at_ (stride_bytes op1) dim =? es). set (cols := at_ (shape_ it) dim).
  destruct (each_range_between (λ cs, calls_elements (concat cs))
    (reduce_columns backend inner it dim es round) it dim (column_bound round (128 / es) cols)
    (parallel_for backend t 0 cols 1)) as (calls & -> & Hc & _); try done.
  - intros. by apply column_bound_mono.
  - unfold column_bound. rewrite Zmod_0_l. by destruct (_ && _).
  - unfold column_bound. by rewrite Z.eqb_refl, andb_false_r.
  - by apply parallel_for_spec.
  - intros r Hb Hbe Hec. by apply reduce_columns_spec.
  - by exists calls.
Qed.

(** ** One iterator for each element of the output. *)
Lemma digits_app s1 : ∀ s2 k, positive s1 →
  digits (s1 ++ s2) k = digits s1 k ++ digits s2 (k / multiply_integers s1).
Proof.
  induction s1 as [|s s1 IH]; intros s2 k Hp; cbn [app digits multiply_integers]; [by rewrite Z.div_1_r|].
  apply positive_cons in Hp as [Hs Hp]. rewrite IH by done. rewrite Z.div_div; [done|lia|by apply multiply_pos].
Qed.

(** The iterator with the indices of the outer dimensions fixed. *)
Definition selected (start_dim : nat) (idx : list Z) (it : TensorIteratorBase) : TensorIteratorBase :=
  select_loop start_dim idx it.

Lemma select_loop_spec idx : ∀ i it, iter_ok it → (i + length idx = ndim it)%nat →
  let it' := select_loop i idx it in
  shape_ it' = take i (shape_ it) ++ map (λ _, 1) idx ∧
  operands_ it' = map (λ op, set_op_data (op_data op + offset idx (drop i (stride_bytes op))) op) (operands_ it) ∧
  same_kind it it'.
Proof.
  induction idx as [|x idx IH]; intros i it Hok Hl; cbn [select_loop].
  - split_and!; try done.
    + cbn in Hl. rewrite Nat.add_0_r in Hl. unfold ndim in Hl. by rewrite app_nil_r, take_ge by lia.
    + symmetry. rewrite <- (map_id (operands_ it)) at 2. apply map_ext. intros op. cbn. destruct op; cbn.
      unfold set_op_data; cbn. f_equal. lia.
  - cbn [length] in Hl. set (it1 := set_dims _ _ it).
    assert (iter_ok it1) as Hok1.
    { destruct Hok as [Hs Hst]. split; cbn.
      - apply Forall_insert; [done|lia].
      - apply Forall_fmap. unfold ndim. cbn. by rewrite length_insert. }
    assert (ndim it1 = ndim it) as En by (unfold ndim; cbn; apply length_insert).
    destruct (IH (S i) it1 Hok1 ltac:(rewrite En; lia)) as (Hsh & Hops & Hk). split_and!.
    + rewrite Hsh. cbn [shape_ it1 set_dims map]. unfold ndim in Hl.
      rewrite (take_S_r _ _ 1) by (rewrite list_lookup_insert_eq by lia; done).
      rewrite take_insert_ge by lia. by rewrite <- app_assoc.
    + rewrite Hops. cbn [operands_ it1 set_dims]. unfold shift_operands. rewrite map_map. apply map_ext_in.
      intros op Hin. destruct Hok as [_ Hst]. rewrite Forall_forall in Hst.
      specialize (Hst op ltac:(by apply list_elem_of_In)). unfold set_op_data. cbn. f_equal.
      rewrite (drop_at (stride_bytes op) i) by lia. cbn. lia.
    + eapply same_kind_trans; [|exact Hk]. split_and!; try done. apply length_map.
Qed.

Lemma offset_app a : ∀ b st, offset (a ++ b) st = offset a st + offset b (drop (length a) st).
Proof.
  induction a as [|x a IH]; intros b [|t st]; cbn; try done; [by destruct b|]. rewrite IH. lia.
Qed.

Lemma digits_ones {A} (l : list A) k : digits (map (λ _, 1) l) k = map (λ _, 0) l.
Proof. revert k. induction l as [|x l IH]; intros k; cbn; [done|]. by rewrite Z.mod_1_r, Z.div_1_r, IH. Qed.
Lemma multiply_ones {A} (l : list A) : multiply_integers (map (λ _, 1) l) = 1.
Proof. induction l as [|x l IH]; cbn; [done|]. lia. Qed.

Lemma digits_periodic sh : positive sh → ∀ k j, digits sh (k + multiply_integers sh * j) = digits sh k.
Proof.
  induction 1 as [|s sh Hs Hr IH]; intros k j; cbn [digits multiply_integers]; [done|].
  replace (k + s * multiply_integers sh * j) with (k + multiply_integers sh * j * s) by lia.
  rewrite Z.mod_add, Z.div_add by lia. by rewrite IH.
Qed.

Lemma seqZ_of_nat n : 0 <= n → seqZ 0 n = map Z.of_nat (seq 0 (Z.to_nat n)).
Proof. intros Hn. unfold seqZ. apply map_ext. intros i. lia. Qed.

Section selected.
Context (it : TensorIteratorBase) (Hok : iter_ok it) (Hp : positive (shape_ it)).
Context (rd : nat) (Hrd : (rd <= ndim it)%nat).

Lemma positive_take : positive (take rd (shape_ it)) ∧ positive (drop rd (shape_ it)).
Proof. apply positive_app. by rewrite take_drop. Qed.

Lemma selected_elements idx : length idx = (ndim it - rd)%nat →
  elements (select_loop rd idx it)
  = map (λ k, addresses it (digits (take rd (shape_ it)) k ++ idx))
      (seqZ 0 (multiply_integers (take rd (shape_ it)))).
Proof.
  intros Hl. destruct (select_loop_spec idx rd it Hok ltac:(lia)) as (Hsh & Hops & _).
  unfold elements, indices. rewrite map_map, Hsh, multiply_app, multiply_ones, Z.mul_1_r.
  apply map_ext. intros k. unfold addresses at 1. rewrite Hops, map_map. unfold addresses. apply map_ext. intros op.
  cbn [op_data set_op_data stride_bytes]. rewrite digits_app by apply positive_take.
  rewrite digits_ones, !offset_app, offset_zeros, digits_length.
  unfold ndim in Hrd. rewrite length_take_le by done. lia.
Qed.

(** The parts, in the order of the outer indices, are the iterator. *)
Lemma selected_all :
  concat (map (λ k, elements (select_loop rd (digits (drop rd (shape_ it)) k) it))
    (seqZ 0 (multiply_integers (drop rd (shape_ it))))) = elements it.
Proof.
  destruct positive_take as [H1 H2]. pose proof (multiply_pos _ H1) as M1. pose proof (multiply_pos _ H2) as M2.
  set (m := multiply_integers (take rd (shape_ it))) in *. set (n := multiply_integers (drop rd (shape_ it))) in *.
  assert (numel it = m * Z.of_nat (Z.to_nat n)) as En.
  { rewrite numel_eq, Z2Nat.id by lia. unfold m, n. by rewrite <- multiply_app, take_drop. }
  rewrite elements_visit, En, seqZ_blocks, concat_map, map_map, seqZ_of_nat, map_map by lia. f_equal.
  apply map_ext. intros j. rewrite selected_elements by (rewrite digits_length; unfold ndim; apply length_drop).
  fold m. rewrite <- (Z.add_0_r (0 + _)), <- fmap_add_seqZ, map_map. apply map_ext_in. intros k Hk.
  rewrite <- list_elem_of_In, elem_of_seqZ in Hk. unfold visit. f_equal.
  rewrite <- (take_drop rd (shape_ it)) at 3. rewrite digits_app by done. fold m.
  replace (0 + m * Z.of_nat j + k) with (k + m * Z.of_nat j) by lia. unfold m at 1. rewrite digits_periodic by done.
  by rewrite (Z.mul_comm m), Z.div_add, Z.div_small by lia.
Qed.
End selected.

Lemma increment_one shape r k c : positive shape → counter_at shape r k c → 0 <= k →
  ∃ c', increment (1, 1) c = Ok c' ∧ counter_at shape r (k + 1) c'.
Proof.
  intros Hp [E1 E2 E3 E4] Hk. unfold increment. cbn [fst snd Z.eqb Pos.eqb negb]. rewrite E1, E2, E3, E4.
  destruct (increment_loop_digits shape Hp k 1) as (c' & -> & Hc); [done|lia| |].
  { destruct Hp as [|s rest Hs _]; [lia|]. pose proof (Z.mod_pos_bound k s Hs). lia. }
  cbn [mbind result_bind fst snd].
  assert ((c' =? 0) || (c' =? 1) = true) as -> by (destruct Hc as [-> | ->]; done).
  cbn. eexists. by split.
Qed.

Lemma select_all_spec rd it idx : (rd <= ndim it)%nat → length idx = (ndim it - rd)%nat →
  select_all_keeping_dim rd idx it = Ok (select_loop rd idx it).
Proof.
  intros Hrd Hl. unfold select_all_keeping_dim. rewrite (proj2 (Nat.leb_le _ _) Hrd). cbn.
  by rewrite take_ge by lia.
Qed.

Lemma reduced_loop_spec it rd : positive (shape_ it) → (rd <= ndim it)%nat →
  let outer := drop rd (shape_ it) in
  let n := multiply_integers outer in
  ∀ fuel k c, counter_at outer (mkRange 0 n) k c → 0 <= k <= n → n - k <= Z.of_nat fuel →
  reduced_loop fuel rd it c = Some (Ok (map (λ k, select_loop rd (digits outer k) it) (seqZ k (n - k)))).
Proof.
  intros Hp Hrd outer n. destruct (positive_take it Hp rd) as [_ Ho]. fold outer in Ho.
  assert (∀ k c, counter_at outer (mkRange 0 n) k c → is_done c = (k >=? n)) as Hdone
    by (intros k c [E1 E2 E3 E4]; unfold is_done; by rewrite E2, E4).
  induction fuel as [|fuel IH]; intros k c Hc Hk Hf; cbn [reduced_loop];
    rewrite (Hdone k c Hc); destruct (Z.geb_spec k n) as [Hge|Hlt]; try lia.
  1,2: assert (n - k = 0) as -> by lia; done.
  rewrite (counter_values _ _ _ _ Hc), select_all_spec
    by (rewrite ?digits_length; unfold outer, ndim in *; rewrite ?length_drop; done || lia).
  cbn [mbind result_bind]. destruct (increment_one _ _ _ _ Ho Hc ltac:(lia)) as (c' & -> & Hc').
  cbn [mbind result_bind]. rewrite (IH (k + 1) c' Hc') by lia.
  rewrite (seqZ_cons k) by lia. cbn [map]. do 5 f_equal; lia.
Qed.

(** The count of [num_reduce_dims]. *)
Definition count_zeros (st : list Z) (count : nat) (l : list nat) : nat :=
  foldl (λ count dim, if (at_ st dim =? 0)%Z then S count else count) count l.
Lemma count_zeros_le st l : ∀ a, (count_zeros st a l <= a + length l)%nat.
Proof.
  unfold count_zeros. induction l as [|d l IH]; intros a; cbn [foldl length]; [lia|]. etransitivity; [apply IH|].
  destruct (_ =? 0); lia.
Qed.
Lemma num_reduce_dims_le it : (num_reduce_dims it <= ndim it)%nat.
Proof.
  pose proof (count_zeros_le (first_strides it) (seq 0 (ndim it)) 0) as H. by rewrite length_seq in H.
Qed.

Lemma serial_foreach_spec it : iter_ok it → 0 < numel it →
  let rd := num_reduce_dims it in
  let outer := drop rd (shape_ it) in
  serial_foreach_reduced_elt it
  = Some (Ok (map (λ k, select_loop rd (digits outer k) it) (seqZ 0 (multiply_integers outer)))) ∧
  concat (map (λ k, elements (select_loop rd (digits outer k) it)) (seqZ 0 (multiply_integers outer)))
  = elements it.
Proof.
  intros Hok Hn rd outer. pose proof (numel_positive it Hok Hn) as Hp.
  pose proof (num_reduce_dims_le it) as Hrd. destruct (positive_take it Hp rd) as [_ Ho]. fold outer in Ho.
  pose proof (multiply_pos _ Ho) as Hm. split; [|by apply selected_all].
  unfold serial_foreach_reduced_elt. fold rd outer. rewrite foldl_mul, Z.mul_1_l.
  destruct (new_DimCounter_at outer (mkRange 0 (multiply_integers outer))) as (c & -> & Hc); [done|cbn; lia..|].
  rewrite (reduced_loop_spec it rd Hp Hrd (Z.to_nat (multiply_integers outer)) 0 c Hc)
    by (fold outer; lia).
  by rewrite Z.sub_0_r.
Qed.

(** The zero strides of the first operand come first. *)
Definition zero_strides_first (it : TensorIteratorBase) : Prop :=
  ∀ a b, (a < b < ndim it)%nat → at_ (first_strides it) b = 0 → at_ (first_strides it) a = 0.

(** Those of the dimensions counted by [num_reduce_dims] are zero. *)
Lemma zeros_counted it : zero_strides_first it → ∀ d, (d < num_reduce_dims it)%nat → at_ (first_strides it) d = 0.
Proof.
  intros Hz.
  assert (∀ n, (n <= ndim it)%nat → ∀ d, (d < count_zeros (first_strides it) 0 (seq 0 n))%nat →
    at_ (first_strides it) d = 0) as H; [|by apply H].
  induction n as [|n IH]; intros Hn d; [intros Hd; cbn in Hd; lia|].
  pose proof (count_zeros_le (first_strides it) (seq 0 n) 0) as Hc. rewrite length_seq in Hc.
  unfold count_zeros. rewrite seq_S, foldl_app. cbn [foldl Nat.add]. fold (count_zeros (first_strides it) 0 (seq 0 n)).
  destruct (Z.eqb_spec (at_ (first_strides it) n) 0) as [E|Hne]; [|apply IH; lia].
  intros Hd. destruct (decide (d = n)) as [->|]; [done|]. apply (Hz d n); [lia|done].
Qed.

(** All elements of an iterator share the element of the first operand. *)
Definition one_output (it : TensorIteratorBase) : Prop :=
  ∃ address, Forall (λ el, head el = Some address) (elements it).

Lemma offset_no_strides a : ∀ st, (∀ d, (d < length a)%nat → at_ st d = 0) → offset a st = 0.
Proof.
  induction a as [|x a IH]; intros [|t st] H; cbn; try done.
  pose proof (H 0%nat ltac:(cbn; lia)) as H0. unfold at_ in H0. cbn in H0. rewrite H0.
  rewrite IH; [lia|]. intros d Hd. apply (H (S d)). cbn. lia.
Qed.

Lemma selected_one_output it idx : iter_ok it → positive (shape_ it) → zero_strides_first it →
  let rd := num_reduce_dims it in
  (1 <= ntensors it)%nat → length idx = (ndim it - rd)%nat → one_output (select_loop rd idx it).
Proof.
  intros Hok Hp Hz rd Hnt Hl. pose proof (num_reduce_dims_le it) as Hrd.
  unfold one_output. rewrite selected_elements by done. unfold addresses.
  pose proof (zeros_counted it Hz) as Hzero. fold rd in Hzero. unfold ntensors in Hnt. unfold first_strides in Hzero.
  destruct (operands_ it) as [|op ops]; [cbn in Hnt; lia|].
  exists (op_data op + offset idx (drop rd (stride_bytes op))).
  apply Forall_fmap, Forall_forall. intros k _. unfold compose. cbn [map hd_error]. rewrite offset_app, digits_length.
  rewrite (offset_no_strides (digits _ k)).
  - unfold ndim in Hrd. rewrite length_take_le by done. done.
  - intros d Hd. rewrite digits_length, length_take in Hd. apply Hzero. lia.
Qed.

Lemma serial_foreach_covers it : iter_ok it → 0 < numel it → (1 <= ntensors it)%nat →
  ∃ iters, serial_foreach_reduced_elt it = Some (Ok iters) ∧ concat (map elements iters) = elements it ∧
    (zero_strides_first it → Forall one_output iters).
Proof.
  intros Hok Hn Hnt. destruct (serial_foreach_spec it Hok Hn) as [E He]. eexists. split; [exact E|].
  split; [by rewrite map_map|]. intros Hz. apply Forall_fmap, Forall_forall. intros k _. 
  apply selected_one_output; try done; [by apply numel_positive|].
  rewrite digits_length. unfold ndim. by rewrite length_drop.
Qed.

(** ** The properties. *)
(** C20.  A parallel reduction along a dimension that is not reduced ends without
    an error, and the calls of all its threads touch, together, the elements of
    the iterator, each once: rounding the columns of a thread to 128 bytes
    neither loses a column nor gives it to two threads. *)
Theorem parallel_dim_reduction_covers backend t inner it op0 op1 rest es : iter_ok it → (1 <= ndim it)%nat →
  is_dim_reduced (ndim it - 1) it = false → operands_ it = op0 :: op1 :: rest →
  elementSize (current_dtype op1) = Ok es → (1 <= team t)%nat → 1 <= get_num_threads t →
  (1 <= team inner)%nat → 1 <= get_num_threads inner →
  ∃ calls, parallel_dim_reduction backend t inner it = Some (Ok calls) ∧
    concat (map (λ cs, calls_elements (concat cs)) calls) ≡ₚ elements it.
Proof. apply parallel_dim_reduction_spec. Qed.

(** C21.  [foreach_reduced_elt] calls its function with iterators that visit,
    together, the elements of the reduction, each once; each of them has one
    element of the first output, when the reduced dimensions come first, as
    [reorder_dimensions] leaves them. *)
Theorem foreach_reduced_elt_covers backend t output_numel parallelize it : iter_ok it → 0 < numel it →
  (1 <= ndim it)%nat → is_dim_reduced (ndim it - 1) it = false → is_reduction_ it = true →
  ninputs it = 1%nat → (1 <= noutputs it)%nat → output_numel ≠ 0 → (1 <= team t)%nat → 1 <= get_num_threads t →
  ∃ iters, foreach_reduced_elt backend t output_numel parallelize it = Some (Ok iters) ∧
    concat (map elements (concat iters)) ≡ₚ elements it ∧
    (output_numel ≠ 1 → zero_strides_first it → Forall one_output (concat iters)).
Proof.
  intros Hok Hn Hnd Hlast Hred Hin Hout Hne Ht Hnt. unfold foreach_reduced_elt.
  rewrite Hin, (proj2 (Nat.leb_le _ _) Hout), (proj2 (Z.eqb_neq _ _) Hne). cbn [TORCH_INTERNAL_ASSERT mbind result_bind Nat.eqb].
  assert (1 <= ntensors it)%nat as Hnts by (unfold ninputs in Hin; lia).
  destruct (Z.eqb_spec output_numel 1) as [E1|Hne1].
  { exists [[it]]. split; [done|]. cbn. rewrite app_nil_r. done. }
  destruct (_ || _).
  { destruct (serial_foreach_covers it Hok Hn Hnts) as (iters & -> & He & Ho). exists [iters]. split; [done|].
    cbn [concat]. rewrite app_nil_r, He. split; [done|]. intros _. exact Ho. }
  destruct (find_split_dim_spec t it Hnd Hlast) as (dim & -> & Hd & _).
  set (f := λ r, if begin r =? end_ r then _ else _).
  assert (∀ r, 0 <= begin r → begin r < end_ r → end_ r <= at_ (shape_ it) dim → ∃ iters, f r = Some (Ok iters) ∧
    concat (map elements iters) ≡ₚ between it dim (begin r) (end_ r) ∧
    (zero_strides_first it → Forall one_output iters)) as Hf.
  { intros r Hb Hbe He. unfold f. rewrite (proj2 (Z.eqb_neq _ _)) by lia.
    destruct (narrow_spec dim (begin r) (range_size r) it Hok Hd) as (it' & E & Hok' & Hel & Hnum & Hk);
      [lia|unfold range_size; lia..|]. rewrite E.
    pose proof Hk as (_ & _ & _ & _ & Hk').
    destruct (serial_foreach_covers it' Hok') as (iters & -> & Hc & Ho); [unfold range_size in Hnum; nia|lia|].
    exists iters. split; [done|]. unfold range_size in Hel.
    replace (begin r + (end_ r - begin r)) with (end_ r) in Hel by lia. rewrite Hc. split; [done|].
    intros Hz. apply Ho. rewrite narrow_eq, Hred, andb_false_r in E by (done || unfold range_size; lia).
    injection E as <-. intros a b. unfold ndim, first_strides. cbn. rewrite length_insert.
    specialize (Hz a b). unfold ndim, first_strides in Hz. by destruct (operands_ it). }
  destruct (each_range_between (λ iters, concat (map elements iters)) f it dim id
    (parallel_for backend t 0 (at_ (shape_ it) dim) 1)) as (iters & E & Hc & _); try done.
  { by apply parallel_for_spec. }
  { intros r Hb Hbe He. destruct (Hf r Hb Hbe He) as (iters & E & Hel & _). by exists iters. }
  exists iters. split; [done|]. split.
  - rewrite <- Hc. clear. induction iters as [|i l IH]; [done|]. cbn. by rewrite map_app, concat_app, IH.
  - intros _ Hz. destruct (each_range_Forall f (λ _, Forall one_output) (parallel_for backend t 0 (at_ (shape_ it) dim) 1))
      as (iters' & E' & Hall).
    + eapply Forall_impl; [apply (partition_bounds _ 0 (at_ (shape_ it) dim)); by apply parallel_for_spec|].
      intros r (Hb & Hbe & He). destruct (Hf r Hb Hbe He) as (l & El & _ & Ho). exists l. auto.
    + rewrite E in E'. injection E' as <-. clear -Hall. induction Hall; [constructor|]. cbn. apply Forall_app. auto.
Qed.

(** The column sums of a matrix of three rows. *)
Definition column_sums : TensorIteratorBase :=
  example_iterator [3; 8] [float_operand 1000 [0; 4] true; float_operand 2000 [32; 4] false] true.
Lemma column_sums_ok : iter_ok column_sums.
Proof. split; repeat constructor; lia. Qed.

(** The first thread has the columns 0 to 4, which are rounded to none. *)
Lemma parallel_dim_reduction_covers_witness :
  ∃ calls, parallel_dim_reduction OpenMP (mkThreads 2 false 2) (mkThreads 2 true 1) column_sums = Some (Ok calls) ∧
    map length calls = [0; 1]%nat ∧
    concat (map (λ cs, calls_elements (concat cs)) calls) ≡ₚ elements column_sums.
Proof.
  destruct (parallel_dim_reduction_covers OpenMP (mkThreads 2 false 2) (mkThreads 2 true 1) column_sums
    (float_operand 1000 [0; 4] true) (float_operand 2000 [32; 4] false) [] 4 column_sums_ok) as (calls & E & He);
    [cbn; lia|reflexivity|reflexivity|reflexivity|cbn; lia..|].
  exists calls. split; [exact E|]. split; [|exact He]. revert E. vm_compute. intros [= <-]. reflexivity.
Defined.

Lemma foreach_reduced_elt_covers_witness :
  ∃ iters, foreach_reduced_elt Native (mkThreads 2 false 2) 8 true column_sums = Some (Ok iters) ∧
    length (concat iters) = 8%nat ∧ concat (map elements (concat iters)) ≡ₚ elements column_sums ∧
    Forall one_output (concat iters).
Proof.
  destruct (foreach_reduced_elt_covers Native (mkThreads 2 false 2) 8 true column_sums column_sums_ok)
    as (iters & E & He & Ho); [vm_compute; reflexivity|cbn; lia|reflexivity|reflexivity|reflexivity|cbn; lia|lia|cbn; lia..|].
  exists iters. split; [exact E|]. split; [|split; [exact He|apply Ho; [lia|]]].
  - revert E. vm_compute. intros [= <-]. reflexivity.
  - intros a b Hab _. cbn in Hab. assert (a = 0%nat) as -> by lia. reflexivity.
Defined.
