(* ===== verification/TensorStore.v ===== *)
(** * Tensors in memory.

    The tensors and storages of a program, the composite operators that the
    construction of an iterator calls ([empty_like], [to], [resize_output]), and
    the interface of the operators that each back end implements, with the laws
    the construction relies on.  TensorCPU.v implements it for the CPU.

    The tensors are plain [TensorImpl] objects: neither quantized nor nested,
    without names, with storages that are not copy-on-write.  The contents of
    memory are not modelled. *)

From S2P Require Import Prelude.
From S2P Require Import Layout.
From S2P Require Import Contiguity.
From S2P Require Import Overlap.
From S2P Require Import SafeNum.
From S2P Require Import TensorMeta.
From S2P Require Import MemoryOverlap.
From S2P Require Import ScalarType.
From S2P Require Import TensorIterator.

(** torch/headeronly/core/Layout.h. *)
Inductive Layout : Type :=
  | Strided | Sparse | SparseCsr | Mkldnn | SparseCsc | SparseBsr | SparseBsc | Jagged.
#[export] Instance Layout_eq_dec : EqDecision Layout.
Proof. solve_decision. Defined.
#[export] Instance MemoryFormat_eq_dec : EqDecision MemoryFormat.
Proof. solve_decision. Defined.

(** The identity of a [TensorImpl] or of a [StorageImpl]. *)
Notation tensor_ref := BinNums.positive.

(** ** State. *)
(** A tensor: its metadata, and what the fields of [TensorImpl] beside them
    tell; [info_storage] names a storage. *)
Record TensorInfo : Type := mkInfo {
  info_impl : TensorImpl;
  info_dtype : ScalarType;
  info_device : Device;
  info_layout : Layout;
  info_wrapped_number : bool;
  info_storage : option tensor_ref }.

Definition set_info_impl (t : TensorImpl) (i : TensorInfo) : TensorInfo :=
  mkInfo t (info_dtype i) (info_device i) (info_layout i) (info_wrapped_number i) (info_storage i).
Definition set_info_storage (st : option tensor_ref) (i : TensorInfo) : TensorInfo :=
  mkInfo (info_impl i) (info_dtype i) (info_device i) (info_layout i) (info_wrapped_number i) st.

(** [DataPtr] and [StorageImpl]. *)
Record DataPtr : Type := mkDataPtr { ptr_data : Z; ptr_context : Z; ptr_deleter : Z }.
Record StorageImpl : Type := mkStorageImpl { data_ptr : DataPtr; nbytes : Z; resizable : bool }.

Record Store : Type := mkStore { tensors : gmap tensor_ref TensorInfo; storages : gmap tensor_ref StorageImpl }.

Definition put_tensor (id : tensor_ref) (i : TensorInfo) (s : Store) : Store :=
  mkStore (<[id := i]> (tensors s)) (storages s).
Definition put_storage (id : tensor_ref) (st : StorageImpl) (s : Store) : Store :=
  mkStore (tensors s) (<[id := st]> (storages s)).

(** Code that reads the store and may throw. *)
Definition inspect {A} (f : Store → result A) : method Store A := λ s, (s, f s).

Definition tensor_info (id : tensor_ref) (s : Store) : result TensorInfo :=
  match tensors s !! id with
  | Some i => Ok i
  | None => Throw (UndefinedBehaviour "a tensor that does not exist")
  end.
Definition storage_impl (id : tensor_ref) (s : Store) : result StorageImpl :=
  match storages s !! id with
  | Some st => Ok st
  | None => Throw (UndefinedBehaviour "a storage that does not exist")
  end.

(** [dtype().itemsize()]; 0 for a tensor without a dtype. *)
Definition dtype_itemsize (t : ScalarType) : Z := default 0 (sizeof_ctype t).
Definition info_itemsize (i : TensorInfo) : Z := dtype_itemsize (info_dtype i).
Definition info_sizes (i : TensorInfo) : list Z := sizes_ (info_impl i).
Definition info_strides (i : TensorInfo) : list Z := strides_ (info_impl i).

(** The tensor as MemoryOverlap.v has it. *)
Definition memory_tensor (s : Store) (id : tensor_ref) (i : TensorInfo) : Tensor :=
  mkTensor (Z.pos id) (info_impl i) (info_itemsize i)
    (sid ← info_storage i; st ← storages s !! sid;
     Some (mkStorage (Z.pos sid) (ptr_deleter (data_ptr st)) (ptr_context (data_ptr st)) (ptr_data (data_ptr st)))).

(** [TensorImpl::data]. *)
Definition tensor_data (id : tensor_ref) (s : Store) : result Z :=
  i ← tensor_info id s;
  match storage_ (memory_tensor s id i) with
  | None => Throw (Error "Cannot access data pointer of Tensor that doesn't have storage")
  | Some st =>
      _ ← TORCH_CHECK (negb (bool_decide (info_dtype i = Undefined)))
            "Cannot access data pointer of Tensor that doesn't have initialized dtype ";
      Ok (data (memory_tensor s id i) st)
  end.

(** A method of [TensorImpl] called on a tensor. *)
Definition on_impl (id : tensor_ref) (m : method TensorImpl unit) : method Store unit :=
  i ← inspect (tensor_info id);
  let '(t, r) := m (info_impl i) in
  _ ← modify (put_tensor id (set_info_impl t i));
  lift r.

(** ** [TensorOptions]: a dtype, a device and perhaps a memory format; the
    layout is strided. *)
Record TensorOptions : Type := mkOptions {
  opt_dtype : ScalarType;
  opt_device : option Device;
  opt_memory_format : option MemoryFormat }.
Definition with_memory_format (mf : option MemoryFormat) (o : TensorOptions) : TensorOptions :=
  mkOptions (opt_dtype o) (opt_device o) mf.
(** [Tensor::options]. *)
Definition info_options (i : TensorInfo) : TensorOptions :=
  mkOptions (info_dtype i) (Some (info_device i)) None.

(** ** The operators of a back end. *)
Class TensorOperators : Type := {
  at_empty : list Z → TensorOptions → method Store tensor_ref;
  at_empty_strided : list Z → list Z → TensorOptions → method Store tensor_ref;
  at_resize_ : tensor_ref → list Z → method Store unit;
  at_as_strided_ : tensor_ref → list Z → list Z → method Store unit;
  at_copy_ : tensor_ref → tensor_ref → method Store unit }.

(** [Device::supports_as_strided] and [TensorImpl::support_as_strided]. *)
Definition supports_as_strided (d : Device) : bool :=
  negb (bool_decide (device_type d = IPU)) && negb (bool_decide (device_type d = XLA))
  && negb (bool_decide (device_type d = Lazy)).

(** [TensorBase::suggest_memory_format ()]. *)
Definition suggest_memory_format (i : TensorInfo) : MemoryFormat :=
  if bool_decide (info_layout i = Strided) then
    if is_strides_like_default ChannelsLast (info_impl i) then ChannelsLast
    else if is_strides_like_default ChannelsLast3d (info_impl i) then ChannelsLast3d
    else Contiguous
  else Contiguous.

Section Composite.
Context `{TensorOperators}.

(** [empty_like self dtype (memory_format)] of native/TensorFactories.cpp. *)
Definition empty_like (self : tensor_ref) (dtype : ScalarType) (optional_memory_format : option MemoryFormat)
    : method Store tensor_ref :=
  i ← inspect (tensor_info self);
  let options := mkOptions dtype (Some (info_device i)) optional_memory_format in
  _ ← lift (TORCH_CHECK (negb (negb (bool_decide (info_layout i = Strided))
                              && bool_decide (optional_memory_format ≠ None)))
              "memory format option is only supported by strided tensors");
  match default Preserve (opt_memory_format options) with
  | Preserve =>
      if is_non_overlapping_and_dense_ (info_impl i)
      then at_empty_strided (info_sizes i) (info_strides i) (with_memory_format None options)
      else if supports_as_strided (info_device i) && bool_decide (info_layout i = Strided) then
        strides ← lift (infer_dense_strides (info_sizes i) (info_strides i));
        at_empty_strided (info_sizes i) strides (with_memory_format None options)
      else at_empty (info_sizes i) (with_memory_format (Some (suggest_memory_format i)) options)
  | mf => at_empty (info_sizes i) (with_memory_format (Some mf) options)
  end.

(** [_to_copy self dtype] of native/TensorConversions.cpp, on a strided tensor. *)
Definition _to_copy (self : tensor_ref) (dtype : ScalarType) : method Store tensor_ref :=
  i ← inspect (tensor_info self);
  let options := mkOptions dtype (Some (info_device i)) None in
  r ← if supports_as_strided (info_device i) then
        if is_non_overlapping_and_dense_ (info_impl i)
        then at_empty_strided (info_sizes i) (info_strides i) options
        else
          strides ← lift (infer_dense_strides (info_sizes i) (info_strides i));
          at_empty_strided (info_sizes i) strides options
      else at_empty (info_sizes i) (with_memory_format (Some (suggest_memory_format i)) options);
  _ ← at_copy_ r self;
  mret r.

(** [to_will_alias] and [to self dtype]. *)
Definition to_will_alias (i : TensorInfo) (dtype : ScalarType) : bool := bool_decide (dtype = info_dtype i).
Definition tensor_to (self : tensor_ref) (dtype : ScalarType) : method Store tensor_ref :=
  i ← inspect (tensor_info self);
  if to_will_alias i dtype then mret self else _to_copy self dtype.

(** [resize_output] of native/Resize.cpp. *)
Definition resize_output_check (i : TensorInfo) (shape : list Z) : bool :=
  negb (bool_decide (info_sizes i = shape)).
Definition resize_output (output : tensor_ref) (shape : list Z) : method Store bool :=
  i ← inspect (tensor_info output);
  if resize_output_check i shape then _ ← at_resize_ output shape; mret true else mret false.
End Composite.

(** ** Well-formed stores. *)
(** The bytes of an element at [idx] lie in the storage of the tensor. *)
Definition element_address (i : TensorInfo) (st : StorageImpl) (idx : list Z) : Z :=
  ptr_data (data_ptr st) + info_itemsize i * (storage_offset_ (info_impl i) + offset idx (info_strides i)).
Definition element_stored (s : Store) (i : TensorInfo) (idx : list Z) : Prop :=
  ∃ sid st, info_storage i = Some sid ∧ storages s !! sid = Some st ∧
    ptr_data (data_ptr st) <= element_address i st idx ∧
    element_address i st idx + info_itemsize i <= ptr_data (data_ptr st) + nbytes st.

(** The extent of a tensor, with a zero size taken for one, fits in 64 bits for
    every dtype. *)
Definition extent_fits (sizes : list Z) : Prop :=
  Forall (λ s, 0 <= s) sizes ∧ 16 * multiply_integers (map (Z.max 1) sizes) <= int64_max.

(** A dtype with a size, whose tensors are not quantized. *)
Definition plain_dtype (t : ScalarType) : Prop := 0 < dtype_itemsize t ∧ isQIntType t = false.

Record tensor_ok (s : Store) (i : TensorInfo) : Prop := mkTensorOk {
  ok_consistent : consistent (info_impl i);
  ok_not_sparse : is_sparse_ (info_impl i) = false;
  ok_extent : extent_fits (info_sizes i);
  ok_strides : Forall nonneg_i64 (info_strides i);
  ok_offset : 0 <= storage_offset_ (info_impl i) < int64_max;
  ok_dtype : plain_dtype (info_dtype i);
  ok_stored : ∀ idx, in_bounds (info_sizes i) idx → element_stored s i idx }.

Definition store_ok (s : Store) : Prop := map_Forall (λ _ i, tensor_ok s i) (tensors s).

(** Storages keep what they hold: they may move and grow, not shrink. *)
Definition storages_grow (s s' : Store) : Prop := ∀ sid st, storages s !! sid = Some st →
  ∃ st', storages s' !! sid = Some st' ∧ nbytes st <= nbytes st'.

(** ** What the construction relies on. *)
(** If the method returns, the postcondition holds. *)
Definition wlp {S A} (m : method S A) (Q : A → S → Prop) (s : S) : Prop := wpx m Q (λ _ _, True) s.

(** A tensor is made, and the others are kept. *)
Definition makes (P : TensorInfo → Prop) (m : method Store tensor_ref) (s : Store) : Prop :=
  wlp m (λ id s', tensors s !! id = None ∧ storages_grow s s' ∧
    ∃ i, tensors s' = <[id := i]> (tensors s) ∧ tensor_ok s' i ∧ P i) s.

(** The metadata of a tensor are changed, and the others are kept. *)
Definition reshapes (id : tensor_ref) (P : TensorInfo → TensorInfo → Prop) (m : method Store unit) (s : Store)
    : Prop :=
  wlp m (λ _ s', storages_grow s s' ∧
    ∃ i i', tensors s !! id = Some i ∧ tensors s' = <[id := i']> (tensors s) ∧ tensor_ok s' i' ∧
      info_dtype i' = info_dtype i ∧ info_device i' = info_device i ∧ info_layout i' = info_layout i ∧ P i i') s.

Definition fresh_info (sizes : list Z) (options : TensorOptions) (i : TensorInfo) : Prop :=
  info_sizes i = sizes ∧ info_dtype i = opt_dtype options ∧
  (∀ d, opt_device options = Some d → device_type (info_device i) = device_type d) ∧ info_layout i = Strided.

Class LawfulOperators `{TensorOperators} : Prop := {
  at_empty_law sizes options s : store_ok s → plain_dtype (opt_dtype options) → extent_fits sizes →
    makes (λ i, fresh_info sizes options i ∧
      is_contiguous_default_impl (default Contiguous (opt_memory_format options)) (info_impl i) = true)
      (at_empty sizes options) s;
  at_empty_strided_law sizes strides options s : store_ok s → plain_dtype (opt_dtype options) →
    extent_fits sizes → Forall nonneg_i64 strides →
    makes (λ i, fresh_info sizes options i ∧ info_strides i = strides) (at_empty_strided sizes strides options) s;
  at_resize_law id sizes s : store_ok s → extent_fits sizes →
    reshapes id (λ i i', info_sizes i' = sizes ∧
      (info_sizes i ≠ sizes → is_contiguous_default_impl Contiguous (info_impl i') = true)) (at_resize_ id sizes) s;
  at_as_strided_law id sizes strides s : store_ok s → extent_fits sizes → Forall nonneg_i64 strides →
    reshapes id (λ i i', info_sizes i' = sizes ∧ info_strides i' = strides) (at_as_strided_ id sizes strides) s;
  at_copy_law self src s : store_ok s →
    wlp (at_copy_ self src) (λ _ s', tensors s' = tensors s ∧ storages_grow s s') s }.
