(* ===== verification/StoreFacts.v ===== *)
(** * Facts about stores.

    Partial correctness of methods, what is kept when storages grow, and the
    behaviour of the composite operators of TensorStore.v, proved from the laws
    of the operators they call. *)

From S2P Require Import Prelude.
From S2P Require Import Layout.
From S2P Require Import Contiguity.
From S2P Require Import Overlap.
From S2P Require Import SafeNum.
From S2P Require Import TensorMeta.
From S2P Require Import MemoryOverlap.
From S2P Require Import ScalarType.
From S2P Require Import TensorIterator.
From S2P Require Import TensorStore.

(** ** Partial correctness. *)
Section Wlp.
Context {S : Type}.

Lemma wlp_run {A} (m : method S A) Q s : wlp m Q s ↔ ∀ a s', m s = (s', Ok a) → Q a s'.
Proof. unfold wlp, wpx. destruct (m s) as [s' [a|e]]; naive_solver. Qed.

Lemma wlp_use {A} (m : method S A) Q s a s' : wlp m Q s → m s = (s', Ok a) → Q a s'.
Proof. rewrite wlp_run. eauto. Qed.

Lemma wlp_ret {A} (a : A) Q (s : S) : wlp (mret a) Q s ↔ Q a s.
Proof. done. Qed.

Lemma wlp_bind {A B} (m : method S A) (k : A → method S B) Q s :
  wlp m (λ a, wlp (k a) Q) s → wlp (m ≫= k) Q s.
Proof. apply wpx_bind. Qed.

Lemma wlp_mono {A} (m : method S A) (Q R : A → S → Prop) s :
  wlp m Q s → (∀ a s', Q a s' → R a s') → wlp m R s.
Proof. intros H HQ. by eapply wpx_mono. Qed.

Lemma wlp_lift {A} (r : result A) Q (s : S) : wlp (lift r) Q s ↔ ∀ a, r = Ok a → Q a s.
Proof. unfold wlp, wpx, lift. destruct r; naive_solver. Qed.

Lemma wlp_reads {A} (f : S → A) Q s : wlp (reads f) Q s ↔ Q (f s) s.
Proof. done. Qed.

Lemma wlp_modify (f : S → S) Q s : wlp (modify f) Q s ↔ Q tt (f s).
Proof. done. Qed.
End Wlp.

Lemma wlp_inspect {A} (f : Store → result A) Q s : wlp (inspect f) Q s ↔ ∀ a, f s = Ok a → Q a s.
Proof. unfold wlp, wpx, inspect. destruct (f s); naive_solver. Qed.

(** Runs a statement of the method; leaves the facts about its result. *)
Ltac wlp_step :=
  lazymatch goal with
  | |- wlp (mbind _ _) _ _ => apply wlp_bind
  | |- wlp (lift _) _ _ => apply wlp_lift; let a := fresh "a" in let E := fresh "E" in intros a E
  | |- wlp (inspect _) _ _ => apply wlp_inspect; let a := fresh "a" in let E := fresh "E" in intros a E
  | |- wlp (reads _) _ _ => apply wlp_reads
  | |- wlp (modify _) _ _ => apply wlp_modify
  | |- wlp (mret _) _ _ => apply wlp_ret
  end.

Lemma TORCH_INTERNAL_ASSERT_Ok b msg u : TORCH_INTERNAL_ASSERT b msg = Ok u ↔ b = true.
Proof. destruct b, u; simpl; naive_solver. Qed.

Lemma tensor_info_Ok id s i : tensor_info id s = Ok i ↔ tensors s !! id = Some i.
Proof. unfold tensor_info. destruct (tensors s !! id); naive_solver. Qed.
Lemma storage_impl_Ok id s st : storage_impl id s = Ok st ↔ storages s !! id = Some st.
Proof. unfold storage_impl. destruct (storages s !! id); naive_solver. Qed.

Lemma on_impl_run id m i s : tensors s !! id = Some i →
  wlp (on_impl id m) (λ _ s', ∃ t, m (info_impl i) = (t, Ok tt) ∧ s' = put_tensor id (set_info_impl t i) s) s.
Proof.
  intros Hi. unfold on_impl. repeat wlp_step. apply tensor_info_Ok in E. simplify_eq.
  destruct (m (info_impl i)) as [t r] eqn:Em. repeat wlp_step. subst r. destruct a. by exists t.
Qed.

(** ** Growth. *)
#[export] Instance storages_grow_refl : Reflexive storages_grow.
Proof. intros s sid st Hst. exists st. split; [done|lia]. Qed.
#[export] Instance storages_grow_trans : Transitive storages_grow.
Proof.
  intros s1 s2 s3 H12 H23 sid st Hst. destruct (H12 sid st Hst) as (st2 & H2 & ?).
  destruct (H23 sid st2 H2) as (st3 & H3 & ?). exists st3. split; [done|lia].
Qed.

Lemma element_stored_grow s s' i idx : storages_grow s s' → element_stored s i idx → element_stored s' i idx.
Proof.
  intros Hg (sid & st & Hi & Hst & H1 & H2). destruct (Hg sid st Hst) as (st' & Hst' & Hn).
  exists sid, st'. unfold element_address in *. split_and!; try done; lia.
Qed.

Lemma tensor_ok_grow s s' i : storages_grow s s' → tensor_ok s i → tensor_ok s' i.
Proof. intros Hg []. split; try done. intros idx Hidx. by eapply element_stored_grow; eauto. Qed.

Lemma store_ok_lookup s id i : store_ok s → tensors s !! id = Some i → tensor_ok s i.
Proof. intros Hs. apply Hs. Qed.

Lemma store_ok_insert s s' id i : store_ok s → storages_grow s s' → tensors s' = <[id := i]> (tensors s) →
  tensor_ok s' i → store_ok s'.
Proof.
  intros Hs Hg E Hi. unfold store_ok. rewrite E. apply map_Forall_insert_2; [done|].
  intros j i' Hj. apply (tensor_ok_grow s); [done|by apply (Hs j)].
Qed.

Lemma store_ok_same s s' : store_ok s → storages_grow s s' → tensors s' = tensors s → store_ok s'.
Proof. intros Hs Hg E j i. rewrite E. intros Hj. apply (tensor_ok_grow s); [done|by apply (Hs j)]. Qed.

Lemma put_tensor_grow id i s : storages_grow s (put_tensor id i s).
Proof. intros sid st Hst. exists st. split; [done|lia]. Qed.

(** ** Extents. *)
Lemma prod_max1_pos sizes : 1 <= multiply_integers (map (Z.max 1) sizes).
Proof.
  induction sizes as [|s l IH]; simpl; [lia|]. pose proof (Z.le_max_l 1 s). generalize dependent (Z.max 1 s).
  intros. nia.
Qed.

(** A product is at least each of its factors. *)
Lemma prod_max1_ge sizes s : s ∈ sizes → s <= multiply_integers (map (Z.max 1) sizes).
Proof.
  induction 1 as [s l|s x l Hin IH]; simpl; pose proof (prod_max1_pos l).
  - pose proof (Z.le_max_r 1 s). pose proof (Z.le_max_l 1 s). nia.
  - pose proof (Z.le_max_l 1 x). nia.
Qed.

Lemma extent_sizes sizes : extent_fits sizes → Forall nonneg_i64 sizes.
Proof.
  intros [Hn Hm]. apply Forall_forall. intros s Hin. rewrite Forall_forall in Hn.
  pose proof (prod_max1_ge sizes s Hin). pose proof (prod_max1_pos sizes). split; [by apply Hn|lia].
Qed.

Lemma extent_numel sizes : extent_fits sizes → 0 <= multiply_integers sizes <= int64_max.
Proof.
  intros [Hn Hm]. split; [by apply multiply_nonneg|].
  assert (multiply_integers sizes <= multiply_integers (map (Z.max 1) sizes)); [|pose proof (prod_max1_pos sizes); lia].
  clear Hm. induction Hn as [|s l Hs Hn IH]; simpl; [lia|]. pose proof (multiply_nonneg l Hn).
  pose proof (Z.le_max_r 1 s). apply Z.mul_le_mono_nonneg; lia.
Qed.

Lemma multiply_perm l1 l2 : l1 ≡ₚ l2 → multiply_integers l1 = multiply_integers l2.
Proof. induction 1; simpl; lia. Qed.

Lemma dense_loop_fit sizes perm : ∀ curr out, 1 <= curr → Forall nonneg_i64 out →
  curr * multiply_integers (map (λ p, Z.max 1 (sizes !!! p)) perm) <= int64_max →
  Forall nonneg_i64 (dense_loop sizes curr perm out).
Proof.
  induction perm as [|p perm IH]; intros curr out Hc Ho Hm; simpl in *; [done|].
  set (P := multiply_integers _) in *.
  assert (1 <= P) as HP.
  { unfold P. rewrite <- (map_map (λ p, sizes !!! p) (Z.max 1)). apply prod_max1_pos. }
  pose proof (Z.le_max_l 1 (sizes !!! p)).
  apply IH; [by case_bool; nia| |].
  - apply Forall_insert; [done|]. unfold nonneg_i64.
    assert (1 <= (Z.max 1 (sizes !!! p)) * P) by nia. clearbody P. nia.
  - fold P. case_bool; [|replace (Z.max 1 (sizes !!! p)) with 1 in Hm by lia; lia].
    replace (Z.max 1 (sizes !!! p)) with (sizes !!! p) in Hm by lia. lia.
Qed.

Lemma dense_strides_fit sizes strides out : infer_dense_strides sizes strides = Ok out → extent_fits sizes →
  Forall nonneg_i64 out.
Proof.
  unfold infer_dense_strides. intros (u & _ & H)%bind_Ok [_ Hm]. pose proof (prod_max1_pos sizes) as Hp.
  assert (nonneg_i64 1) by done. assert (nonneg_i64 0) by done.
  destruct (length sizes) as [|[|n]] eqn:El; [by injection H as <-|injection H as <-; by repeat constructor|].
  injection H as <-. apply dense_loop_fit; [lia|repeat constructor; try done; by apply Forall_replicate|].
  set (perm := Overlap.insertion_sort _ _ _).
  assert (perm ≡ₚ seq 0 (length sizes)) as Hperm.
  { rewrite El. transitivity (rev (seq 0 (S (S n)))); [|symmetry; apply Permutation_rev].
    apply Overlap.insertion_sort_perm. by rewrite length_rev, length_seq. }
  rewrite (multiply_perm _ _ (Permutation_map _ Hperm)).
  assert (map (λ p, Z.max 1 (sizes !!! p)) (seq 0 (length sizes)) = map (Z.max 1) sizes) as ->; [|lia].
  apply list_eq. intros k. rewrite !list_lookup_fmap.
  destruct (decide (k < length sizes)%nat) as [Hk|Hk].
  - rewrite lookup_seq_lt by done. cbn. destruct (lookup_lt_is_Some_2 sizes k Hk) as [x Hx].
    by rewrite Hx, (list_lookup_total_correct _ _ _ Hx).
  - rewrite lookup_seq_ge, (lookup_ge_None_2 sizes k) by lia. done.
Qed.

(** ** The strides of a memory format. *)
Lemma row_major_fit sizes : multiply_integers (map (Z.max 1) sizes) <= int64_max →
  Forall nonneg_i64 (row_major_strides (map (Z.max 1) sizes)).
Proof.
  induction sizes as [|s l IH]; simpl; intros Hm; [constructor|]. pose proof (prod_max1_pos l).
  pose proof (Z.le_max_l 1 s). constructor; [split; nia|]. apply IH. nia.
Qed.

Lemma contiguous_strides_fit sizes : extent_fits sizes → Forall nonneg_i64 (contiguous_strides sizes).
Proof.
  intros [_ Hm]. rewrite contiguous_strides_row_major. apply row_major_fit. pose proof (prod_max1_pos sizes). lia.
Qed.

Lemma contiguous_flag t : consistent t → is_sparse_ t = false → Forall (λ s, 0 <= s) (sizes_ t) →
  strides_ t = contiguous_strides (sizes_ t) → is_contiguous_ t = true.
Proof.
  intros Hc Hsp Hn Est. destruct (consistent_flags _ Hc) as [-> _]. unfold compute_contiguous.
  rewrite Hsp, Est, (consistent_numel _ Hc). by apply fresh_strides_accepted.
Qed.

Lemma mul_ge_1 a b : 1 <= a → 1 <= b → 1 <= a * b.
Proof. nia. Qed.
Lemma mul_ge_l a b : 1 <= a → 1 <= b → a <= a * b.
Proof. nia. Qed.
Lemma mul_bound a b a' b' : 0 <= a <= a' → 0 <= b <= b' → 0 <= a * b <= a' * b'.
Proof. nia. Qed.

(** The strides of the channels-last formats. *)
Lemma channels_last_2d_strides sizes strides : extent_fits sizes → length sizes = 4%nat →
  get_channels_last_strides_2d sizes = Ok strides →
  Forall nonneg_i64 strides ∧ _compute_channels_last_contiguous_2d sizes strides = true.
Proof.
  intros [Hn Hm] Hl. destruct sizes as [|n [|c [|h [|w [|]]]]]; try done. intros [= <-].
  apply Forall_cons in Hn as [H0 Hn]. apply Forall_cons in Hn as [H1 Hn].
  apply Forall_cons in Hn as [H2 Hn]. apply Forall_cons in Hn as [H3 _]. split.
  - assert (∀ x, 0 <= x → x <= Z.max 1 x ∧ 1 <= Z.max 1 x) as Hx by lia. simpl in Hm.
    destruct (Hx n H0), (Hx c H1), (Hx h H2), (Hx w H3).
    set (n' := Z.max 1 n) in *. set (c' := Z.max 1 c) in *. set (h' := Z.max 1 h) in *. set (w' := Z.max 1 w) in *.
    assert (0 <= c * w <= c' * w') as B1 by (apply mul_bound; lia).
    assert (0 <= c * w * h <= c' * w' * h') as B2 by (apply mul_bound; lia).
    pose proof (mul_ge_1 c' w' ltac:(lia) ltac:(lia)). pose proof (mul_ge_1 (c' * w') h' ltac:(lia) ltac:(lia)).
    pose proof (mul_ge_l (c' * w' * h') n' ltac:(lia) ltac:(lia)).
    pose proof (mul_ge_l (c' * w') h' ltac:(lia) ltac:(lia)). pose proof (mul_ge_l c' w' ltac:(lia) ltac:(lia)).
    replace (n' * (c' * (h' * (w' * 1)))) with (c' * w' * h' * n') in Hm by ring.
    clearbody n' c' h' w'. unfold nonneg_i64. assert (1 <= int64_max) by done.
    repeat constructor; lia.
  - rewrite channels_last_loop_2d. simpl. repeat (case_bool; try lia; try nia).
Qed.

Lemma channels_last_3d_strides sizes strides : extent_fits sizes → length sizes = 5%nat →
  get_channels_last_strides_3d sizes = Ok strides →
  Forall nonneg_i64 strides ∧ _compute_channels_last_contiguous_3d sizes strides = true.
Proof.
  intros [Hn Hm] Hl. destruct sizes as [|n [|c [|d [|h [|w [|]]]]]]; try done. intros [= <-].
  apply Forall_cons in Hn as [H0 Hn]. apply Forall_cons in Hn as [H1 Hn].
  apply Forall_cons in Hn as [H2 Hn]. apply Forall_cons in Hn as [H3 Hn]. apply Forall_cons in Hn as [H4 _]. split.
  - assert (∀ x, 0 <= x → x <= Z.max 1 x ∧ 1 <= Z.max 1 x) as Hx by lia. simpl in Hm.
    destruct (Hx n H0), (Hx c H1), (Hx d H2), (Hx h H3), (Hx w H4).
    set (n' := Z.max 1 n) in *. set (c' := Z.max 1 c) in *. set (d' := Z.max 1 d) in *.
    set (h' := Z.max 1 h) in *. set (w' := Z.max 1 w) in *.
    assert (0 <= c * w <= c' * w') as B1 by (apply mul_bound; lia).
    assert (0 <= c * w * h <= c' * w' * h') as B2 by (apply mul_bound; lia).
    assert (0 <= c * w * h * d <= c' * w' * h' * d') as B3 by (apply mul_bound; lia).
    pose proof (mul_ge_1 c' w' ltac:(lia) ltac:(lia)). pose proof (mul_ge_1 (c' * w') h' ltac:(lia) ltac:(lia)).
    pose proof (mul_ge_1 (c' * w' * h') d' ltac:(lia) ltac:(lia)).
    pose proof (mul_ge_l (c' * w' * h' * d') n' ltac:(lia) ltac:(lia)).
    pose proof (mul_ge_l (c' * w' * h') d' ltac:(lia) ltac:(lia)).
    pose proof (mul_ge_l (c' * w') h' ltac:(lia) ltac:(lia)). pose proof (mul_ge_l c' w' ltac:(lia) ltac:(lia)).
    replace (n' * (c' * (d' * (h' * (w' * 1))))) with (c' * w' * h' * d' * n') in Hm by ring.
    clearbody n' c' d' h' w'. unfold nonneg_i64. assert (1 <= int64_max) by done.
    repeat constructor; lia.
  - unfold _compute_channels_last_contiguous_3d. cbn. repeat (case_bool; try lia; try nia).
Qed.

(** [empty_tensor_restride] of a strided tensor gives it the memory format. *)
Lemma restride_format mf t t' u : consistent t → is_sparse_ t = false → extent_fits (sizes_ t) →
  empty_tensor_restride mf t = (t', Ok u) →
  consistent t' ∧ sizes_ t' = sizes_ t ∧ storage_offset_ t' = storage_offset_ t ∧ is_sparse_ t' = false ∧
  Forall nonneg_i64 (strides_ t') ∧ is_contiguous_default_impl mf t' = true.
Proof.
  intros Hc Hsp He H. pose proof (empty_tensor_restride_Ok _ _ _ _ Hc H) as Hc'.
  pose proof He as [Hn _]. destruct mf; [|done| | |done].
  { pose proof Hc as [Hi _ Hnum _]. apply restride_Ok in H as (_ & Es & Est & Eo & Esp); [|done..].
    rewrite Est, Esp. split_and!; try done; [by apply contiguous_strides_fit|]. apply contiguous_flag; try done.
    - by rewrite Esp.
    - by rewrite Es.
    - by rewrite Est, Es. }
  all: unfold empty_tensor_restride in H; method_step H; injection E as <- <-; method_step H;
    method_step E; method_step E; unfold lift in *; simplify_eq; injection H as <- <-.
  all: pose proof (set_sizes_and_strides_run t2 (sizes_ t2) a1 None ltac:(by destruct Hc)) as Hr;
    rewrite E in Hr; destruct Hr as (Hl & Es & Hf & Eo & Esp & _).
  all: destruct (refresh_contiguous_shape t0) as (Es' & Est' & _ & Eo' & Esp' & _).
  all: match goal with
       | X : TORCH_CHECK (length _ =? ?n)%nat _ = Ok _ |- _ => apply TORCH_CHECK_Ok, Nat.eqb_eq in X
       end.
  all: match goal with
       | X : get_channels_last_strides_2d _ = Ok _ |- _ => apply channels_last_2d_strides in X as [Hst Hflag]; [|done..]
       | X : get_channels_last_strides_3d _ = Ok _ |- _ => apply channels_last_3d_strides in X as [Hst Hflag]; [|done..]
       end.
  all: assert (strides_ t0 = a1) as Est by
    (eapply filled_nonneg; [|exact Hf]; eapply Forall_impl; [exact Hst|]; by intros ? []).
  all: rewrite Es', Est', Eo', Esp', Es, Est, Eo, Esp; split_and!; try done.
  all: destruct (consistent_flags _ Hc') as (_ & F2 & F3 & _); cbn [is_contiguous_default_impl]; rewrite ?F2, ?F3.
  all: unfold compute_channels_last_contiguous_2d, compute_channels_last_contiguous_3d.
  all: by rewrite Esp', Es', Est', Es, Est, Esp, Hsp.
Qed.

(** Each of the flags says that the elements are dense. *)
Lemma format_dense mf t : consistent t → is_contiguous_default_impl mf t = true →
  is_non_overlapping_and_dense_ t = true.
Proof.
  intros Hc. destruct (consistent_flags _ Hc) as (_ & _ & _ & _ & _ & ->).
  destruct mf; cbn [is_contiguous_default_impl]; intros ->; rewrite ?orb_true_r; done.
Qed.

Lemma dense_offset t idx : consistent t → is_sparse_ t = false → nonneg_sizes t →
  is_non_overlapping_and_dense_ t = true → in_bounds (sizes_ t) idx → 0 <= offset idx (strides_ t) < numel_ t.
Proof.
  intros Hc Hsp Hn Hd Hib. apply flag_dense in Hd; [|done..].
  pose proof (in_bounds_positive _ _ Hib) as Hp%multiply_pos. pose proof (consistent_length _ Hc) as Hl.
  pose proof (consistent_numel _ Hc) as Hm. destruct Hd as [?|[Hd _]]; [lia|].
  specialize (Hd idx). change (map fst) with dims_sizes in Hd. rewrite dims_sizes_zip in Hd by done.
  change (map snd ?l) with (snd <$> l) in Hd. rewrite snd_zip in Hd by lia. rewrite Hm. by apply Hd.
Qed.

(** The elements of a tensor lie in a storage that is large enough. *)
Lemma element_stored_intro s i sid st idx : info_storage i = Some sid → storages s !! sid = Some st →
  0 < info_itemsize i → 0 <= storage_offset_ (info_impl i) → 0 <= offset idx (info_strides i) →
  (storage_offset_ (info_impl i) + offset idx (info_strides i) + 1) * info_itemsize i <= nbytes st →
  element_stored s i idx.
Proof. intros Hi Hst H1 H2 H3 H4. exists sid, st. unfold element_address. split_and!; try done; nia. Qed.

Lemma storage_bytes_cover sizes strides itemsize off n idx : length strides = length sizes →
  Forall nonneg_i64 sizes → Forall nonneg_i64 strides → 1 <= itemsize <= u64_max → 0 <= off < u64_max →
  computeStorageNbytes sizes strides itemsize off = Ok n → in_bounds sizes idx →
  0 <= offset idx strides ∧ (off + offset idx strides + 1) * itemsize <= n.
Proof.
  intros Hl Hsz Hst Hit Hoff H Hib. pose proof (dims_ok_zip _ _ Hsz Hst) as Hd.
  pose proof (offset_le_max _ _ _ Hl Hd Hib) as Ho. split; [lia|]. revert H. unfold computeStorageNbytes.
  rewrite Hl, Nat.eqb_refl. cbn. rewrite to_u64_small by (unfold is_u64; lia).
  destruct (storage_nbytes_loop _ _ _) as [[o s]|] eqn:Hloop.
  2: { apply storage_nbytes_loop_none in Hloop; [|done]. rewrite dims_sizes_zip in Hloop by done.
       by apply in_bounds_positive in Hib. }
  apply storage_nbytes_loop_some in Hloop as [_ Hs]; [|done|unfold is_u64; lia].
  destruct o; [done|]. specialize (Hs eq_refl). subst s. unfold mul_overflows. rewrite overflow_flag by nia.
  destruct (_ >? u64_max) eqn:E1; [done|]. bool_simpl. rewrite to_u64_small by (unfold is_u64; nia).
  destruct (_ >? storage_max) eqn:E2; [done|]. intros [= <-]. nia.
Qed.

Lemma storage_bytes_contiguous sizes itemsize off n : Forall nonneg_i64 sizes → 0 <= itemsize → 0 <= off →
  computeStorageNbytesContiguous sizes itemsize off = Ok n → n = (multiply_integers sizes + off) * itemsize.
Proof.
  intros Hs Hi Hoff. unfold computeStorageNbytesContiguous, safe_multiplies_u64.
  pose proof (safe_multiplies_loop_spec sizes 1 Hs ltac:(done)) as Hl.
  destruct (safe_multiplies_loop 1 false sizes) as [o p]. destruct Hl as [_ Hp].
  assert (0 <= multiply_integers sizes) as H0
    by (apply multiply_nonneg; eapply Forall_impl; [exact Hs|]; by intros ? []).
  unfold add_overflows, mul_overflows. destruct o; [done|]. rewrite Hp, Z.mul_1_l by done.
  rewrite overflow_flag by lia. destruct (_ >? u64_max) eqn:E1; [done|]. bool_simpl.
  rewrite (to_u64_small (multiply_integers sizes + off)) by (split; lia).
  rewrite overflow_flag by nia. destruct (_ >? u64_max) eqn:E2; [done|]. bool_simpl.
  rewrite to_u64_small by (split; [apply Z.mul_nonneg_nonneg; lia|lia]). cbn. by destruct (_ >? storage_max); intros [= <-].
Qed.

(** ** The composite operators. *)
Section Composite.
Context `{LawfulOperators}.

(** [makes] implies that the store remains well-formed. *)
Lemma makes_use P m s : store_ok s → makes P m s →
  wlp m (λ id s', ∃ i, tensors s !! id = None ∧ tensors s' = <[id := i]> (tensors s) ∧ storages_grow s s' ∧
    store_ok s' ∧ P i) s.
Proof.
  intros Hs Hm. eapply wlp_mono; [exact Hm|]. intros id s' (Hn & Hg & i & E & Hi & HP).
  exists i. split_and!; try done. by eapply store_ok_insert.
Qed.

Lemma reshapes_use id P m s : store_ok s → reshapes id P m s →
  wlp m (λ _ s', ∃ i i', tensors s !! id = Some i ∧ tensors s' = <[id := i']> (tensors s) ∧ storages_grow s s' ∧
    store_ok s' ∧ info_dtype i' = info_dtype i ∧ P i i') s.
Proof.
  intros Hs Hm. eapply wlp_mono; [exact Hm|]. intros _ s' (Hg & i & i' & Hi & E & Hok & Hd & _ & _ & HP).
  exists i, i'. split_and!; try done. by eapply store_ok_insert.
Qed.

Lemma makes_mono (P Q : TensorInfo → Prop) m s : makes P m s → (∀ i, P i → Q i) → makes Q m s.
Proof.
  intros Hm HPQ. eapply wlp_mono; [exact Hm|]. intros id s' (Hn & Hg & i & E & Hi & HP).
  split_and!; try done. exists i. split_and!; auto.
Qed.

(** The copy keeps the sizes, in the dtype that is asked for. *)
Definition copy_of (i0 : TensorInfo) (dtype : ScalarType) (i : TensorInfo) : Prop :=
  info_sizes i = info_sizes i0 ∧ info_dtype i = dtype.

Lemma empty_like_copies self dtype mf s i0 : store_ok s → plain_dtype dtype → tensors s !! self = Some i0 →
  makes (copy_of i0 dtype) (empty_like self dtype mf) s.
Proof.
  intros Hs Hd Hi0. pose proof (store_ok_lookup _ _ _ Hs Hi0) as [Hc _ He Hst _ _ _].
  unfold empty_like. unfold makes. repeat wlp_step. apply tensor_info_Ok in E. simplify_eq. clear E0.
  assert (∀ strides (o : TensorOptions), Forall nonneg_i64 strides → opt_dtype o = dtype →
    makes (copy_of i0 dtype) (at_empty_strided (info_sizes i0) strides o) s) as Hstr.
  { intros strides o Hn Eo. eapply makes_mono; [apply at_empty_strided_law; by rewrite ?Eo|].
    intros i [(? & ? & _) _]. split; congruence. }
  assert (∀ o : TensorOptions, opt_dtype o = dtype → makes (copy_of i0 dtype) (at_empty (info_sizes i0) o) s) as Hemp.
  { intros o Eo. eapply makes_mono; [apply at_empty_law; by rewrite ?Eo|].
    intros i [(? & ? & _) _]. split; congruence. }
  destruct (default Preserve _); try (by apply Hemp).
  destruct (is_non_overlapping_and_dense_ _); [by apply Hstr|].
  destruct (_ && _); [|by apply Hemp]. repeat wlp_step.
  apply Hstr; [by eapply dense_strides_fit|done].
Qed.

Lemma to_copy_copies self dtype s i0 : store_ok s → plain_dtype dtype → tensors s !! self = Some i0 →
  makes (copy_of i0 dtype) (_to_copy self dtype) s.
Proof.
  intros Hs Hd Hi0. pose proof (store_ok_lookup _ _ _ Hs Hi0) as [Hc _ He Hst _ _ _].
  unfold _to_copy, makes. repeat wlp_step. apply tensor_info_Ok in E. simplify_eq.
  assert (∀ m, makes (copy_of i0 dtype) m s → wlp m (λ r, wlp (_ ← at_copy_ r self; mret r) (λ id s',
    tensors s !! id = None ∧ storages_grow s s' ∧ ∃ i, tensors s' = <[id:=i]> (tensors s) ∧ tensor_ok s' i ∧
      copy_of i0 dtype i)) s) as Hcopy.
  { intros m Hm. eapply wlp_mono; [apply Hm|]. intros id s1 (Hn & Hg & i & E & Hi & HP).
    assert (store_ok s1) as Hs1 by (by eapply store_ok_insert).
    apply wlp_bind. eapply wlp_mono; [by apply at_copy_law|]. intros _ s2 [E2 Hg2]. apply wlp_ret.
    split; [done|]. split; [by etransitivity|]. exists i. rewrite E2. split_and!; [done| |done].
    by eapply tensor_ok_grow. }
  assert (∀ strides, Forall nonneg_i64 strides → makes (copy_of i0 dtype)
    (at_empty_strided (info_sizes i0) strides (mkOptions dtype (Some (info_device i0)) None)) s) as Hstr.
  { intros strides Hn. eapply makes_mono; [by apply at_empty_strided_law|].
    intros i [(? & ? & _) _]. by split. }
  destruct (supports_as_strided _); [destruct (is_non_overlapping_and_dense_ _)|].
  - by apply Hcopy, Hstr.
  - repeat wlp_step. apply Hcopy, Hstr. by eapply dense_strides_fit.
  - apply Hcopy. eapply makes_mono; [by apply at_empty_law|]. intros i [(? & ? & _) _]. by split.
Qed.

(** A conversion to another dtype is a copy. *)
Lemma tensor_to_copies self dtype s i0 : store_ok s → plain_dtype dtype → tensors s !! self = Some i0 →
  dtype ≠ info_dtype i0 → makes (copy_of i0 dtype) (tensor_to self dtype) s.
Proof.
  intros Hs Hd Hi0 Hne. unfold tensor_to, makes. repeat wlp_step. apply tensor_info_Ok in E. simplify_eq.
  unfold to_will_alias. rewrite bool_decide_false by done. by apply to_copy_copies.
Qed.

(** A resized output has the shape; one that had another shape is contiguous. *)
Lemma resize_output_reshapes id shape s i : store_ok s → extent_fits shape → tensors s !! id = Some i →
  wlp (resize_output id shape) (λ _ s', ∃ i', tensors s' = <[id := i']> (tensors s) ∧ storages_grow s s' ∧
    store_ok s' ∧ info_dtype i' = info_dtype i ∧ info_sizes i' = shape ∧
    (info_sizes i ≠ shape → is_contiguous_ (info_impl i') = true)) s.
Proof.
  intros Hs Hsh Hi. unfold resize_output. repeat wlp_step. apply tensor_info_Ok in E. simplify_eq.
  unfold resize_output_check. case_bool_decide as Hsz; cbn [negb]; repeat wlp_step.
  - exists i. split_and!; try done. by rewrite insert_id.
  - eapply wlp_mono; [apply reshapes_use; [done|by apply at_resize_law]|].
    intros _ s' (i0 & i' & Hi0 & E' & Hg & Hs' & Ed & Esz & Hc). apply wlp_ret. simplify_eq.
    exists i'. split_and!; auto.
Qed.
End Composite.
