(* ===== verification/TensorCPU.v ===== *)
(** * The operators on tensors of the CPU.

    [empty], [empty_strided], [resize_] and [as_strided_] as aten/src/ATen/EmptyTensor.cpp,
    native/Resize.{h,cpp} and native/TensorShape.cpp implement them for the CPU:
    an instance of the operators of TensorStore.v, with the proof of its laws. *)

From S2P Require Import Prelude.
From S2P Require Import Layout.
From S2P Require Import Contiguity.
From S2P Require Import Overlap.
From S2P Require Import SafeNum.
From S2P Require Import TensorMeta.
From S2P Require Import MemoryOverlap.
From S2P Require Import ScalarType.
From S2P Require Import TensorIterator.
From S2P Require Import TensorStore.
From S2P Require Import StoreFacts.

(** A method of a tensor that is under construction. *)
Definition run_impl (m : method TensorImpl unit) (t : TensorImpl) : result TensorImpl :=
  match m t with
  | (t, Ok _) => Ok t
  | (_, Throw e) => Throw e
  end.

(** [check_size_nonnegative]. *)
Definition check_size_nonnegative (size : list Z) : result unit :=
  TORCH_CHECK (forallb (λ x, x >=? 0) size) "Trying to create tensor with negative dimension ".

(** [subByteElementPerByte]. *)
Definition subByteElementPerByte (dtype : ScalarType) : Z :=
  match dtype with
  | QUInt4x2 => 2
  | QUInt2x4 => 4
  | _ => 1
  end.

(** [checkInBoundsForStorage] with strides. *)
Definition checkInBoundsForStorage (size stride : list Z) (storage_offset : Z) (data_type : ScalarType)
    (new_storage : StorageImpl) : result unit :=
  storage_size_bytes ← computeStorageNbytes size stride (dtype_itemsize data_type) 0;
  storage_size_plus_offset_bytes ← computeStorageNbytes size stride (dtype_itemsize data_type) storage_offset;
  let element_per_byte := subByteElementPerByte data_type in
  let packed x := if element_per_byte >? 1 then (x + element_per_byte - 1) / element_per_byte else x in
  if packed storage_size_bytes =? 0 then Ok tt
  else TORCH_CHECK ((packed storage_size_bytes =? 0)
                    || (packed storage_size_plus_offset_bytes <=? nbytes new_storage)) "setStorage: sizes ".

Definition checkAsStridedArgs (size stride : list Z) (storage_offset : Z) : result unit :=
  _ ← TORCH_CHECK (length size =? length stride)%nat "mismatch in length of strides and shape";
  _ ← TORCH_CHECK (forallb (λ val, val >=? 0) stride)
        "as_strided: Negative strides are not supported at the moment, ";
  TORCH_CHECK (storage_offset >=? 0) "Tensor: invalid storage offset ".

Section CPU.
(** [GetCPUAllocator ()->allocate], and the copy of the elements of a tensor to
    another, which changes the contents of memory only. *)
Context (allocate : Z → Store → result DataPtr) (copy_contents : tensor_ref → tensor_ref → Store → result unit).

(** A tensor with a storage of its own. *)
Definition new_tensor (impl : TensorImpl) (dtype : ScalarType) (st : StorageImpl) : method Store tensor_ref :=
  sid ← reads (λ s, fresh (dom (storages s)));
  _ ← modify (put_storage sid st);
  id ← reads (λ s, fresh (dom (tensors s)));
  _ ← modify (put_tensor id (mkInfo impl dtype kCPU Strided false (Some sid)));
  mret id.

Definition empty_generic (size : list Z) (scalar_type : ScalarType) (memory_format_opt : option MemoryFormat)
    : method Store tensor_ref :=
  _ ← lift (check_size_nonnegative size);
  size_bytes ← lift (computeStorageNbytesContiguous size (dtype_itemsize scalar_type) 0);
  ptr ← inspect (allocate size_bytes);
  impl ← lift (if bool_decide (size = [0]) then Ok (fresh_tensor false)
               else run_impl (set_sizes_contiguous size) (fresh_tensor false));
  impl ← lift (match memory_format_opt with
               | None | Some Contiguous => Ok impl
               | Some memory_format => run_impl (empty_tensor_restride memory_format) impl
               end);
  new_tensor impl scalar_type (mkStorageImpl ptr size_bytes true).

Definition empty_strided_generic (size stride : list Z) (scalar_type : ScalarType) : method Store tensor_ref :=
  _ ← lift (check_size_nonnegative size);
  size_bytes ← lift (computeStorageNbytes size stride (dtype_itemsize scalar_type) 0);
  ptr ← inspect (allocate size_bytes);
  impl ← lift (run_impl (set_sizes_and_strides size stride None) (fresh_tensor false));
  new_tensor impl scalar_type (mkStorageImpl ptr size_bytes true).

(** The back end the options select: the CPU, which is the default. *)
Definition on_cpu (d : option Device) : result unit :=
  if default true (is_cpu <$> d) then Ok tt else Throw (NotImplementedError "Could not run '").

Definition empty_cpu (size : list Z) (options : TensorOptions) : method Store tensor_ref :=
  _ ← lift (on_cpu (opt_device options));
  empty_generic size (opt_dtype options) (opt_memory_format options).
Definition empty_strided_cpu (size stride : list Z) (options : TensorOptions) : method Store tensor_ref :=
  _ ← lift (on_cpu (opt_device options));
  empty_strided_generic size stride (opt_dtype options).

(** [resize_bytes_cpu]. *)
Definition resize_bytes_cpu (storage : tensor_ref) (size_bytes : Z) : method Store unit :=
  st ← inspect (storage_impl storage);
  _ ← lift (TORCH_CHECK (resizable st) "Trying to resize storage that is not resizable");
  new_data ← if negb (size_bytes =? 0) then inspect (allocate size_bytes) else mret (mkDataPtr 0 0 0);
  modify (put_storage storage (mkStorageImpl new_data size_bytes (resizable st))).

Definition maybe_resize_storage_cpu (self : tensor_ref) (new_size_bytes : Z) : method Store unit :=
  i ← inspect (tensor_info self);
  if numel_ (info_impl i) =? 0 then mret tt
  else
    match info_storage i with
    | None =>
        ptr ← inspect (allocate new_size_bytes);
        sid ← reads (λ s, fresh (dom (storages s)));
        _ ← modify (put_storage sid (mkStorageImpl ptr new_size_bytes true));
        modify (put_tensor self (set_info_storage (Some sid) i))
    | Some sid =>
        st ← inspect (storage_impl sid);
        if new_size_bytes >? nbytes st then resize_bytes_cpu sid new_size_bytes else mret tt
    end.

(** [_resize_impl_]. *)
Definition resize_impl_cpu_ (self : tensor_ref) (size : list Z) (stride : option (list Z)) (resize_storage : bool)
    : method Store unit :=
  i ← inspect (tensor_info self);
  if bool_decide (info_sizes i = size) && bool_decide (default (info_strides i) stride = info_strides i)
  then mret tt
  else
    let itemsize := info_itemsize i in
    let storage_offset := storage_offset_ (info_impl i) in
    storage_size ←
      match stride with
      | Some stride =>
          _ ← on_impl self (set_sizes_and_strides size stride None);
          lift (computeStorageNbytes size stride itemsize storage_offset)
      | None =>
          _ ← on_impl self (set_sizes_contiguous size);
          lift (computeStorageNbytesContiguous size itemsize storage_offset)
      end;
    if resize_storage then maybe_resize_storage_cpu self storage_size else mret tt.

Definition resize_ (self : tensor_ref) (size : list Z) (optional_memory_format : option MemoryFormat)
    : method Store unit :=
  _ ← resize_impl_cpu_ self size None true;
  match optional_memory_format with
  | Some memory_format =>
      _ ← lift (TORCH_CHECK (negb (bool_decide (memory_format = Preserve))) "Unsupported memory format");
      on_impl self (empty_tensor_restride memory_format)
  | None => mret tt
  end.

(** [setStrided]. *)
Definition setStrided (self : tensor_ref) (size stride : list Z) (storage_offset : Z) : method Store unit :=
  _ ← lift (checkAsStridedArgs size stride storage_offset);
  i ← inspect (tensor_info self);
  st ← inspect (λ s, match info_storage i with
                     | Some sid => storage_impl sid s
                     | None => Throw (UndefinedBehaviour "a null storage")
                     end);
  _ ← lift (checkInBoundsForStorage size stride storage_offset (info_dtype i) st);
  on_impl self (set_sizes_and_strides size stride (Some storage_offset)).

Definition as_strided_ (self : tensor_ref) (size stride : list Z) (storage_offset_ : option Z)
    : method Store unit :=
  i ← inspect (tensor_info self);
  setStrided self size stride (default (TensorMeta.storage_offset_ (info_impl i)) storage_offset_).

#[export] Instance cpu_operators : TensorOperators := {|
  at_empty := empty_cpu;
  at_empty_strided := empty_strided_cpu;
  at_resize_ self size := resize_ self size None;
  at_as_strided_ self size stride := as_strided_ self size stride None;
  at_copy_ self src := inspect (copy_contents self src) |}.

(** ** The laws. *)
Lemma new_tensor_makes impl dtype st s : consistent impl → is_sparse_ impl = false → extent_fits (sizes_ impl) →
  Forall nonneg_i64 (strides_ impl) → storage_offset_ impl = 0 → plain_dtype dtype →
  (∀ idx, in_bounds (sizes_ impl) idx →
    0 <= offset idx (strides_ impl) ∧ (offset idx (strides_ impl) + 1) * dtype_itemsize dtype <= nbytes st) →
  makes (λ i, info_impl i = impl ∧ info_dtype i = dtype ∧ info_device i = kCPU ∧ info_layout i = Strided)
    (new_tensor impl dtype st) s.
Proof.
  intros Hc Hsp He Hst Ho Hd Hb. unfold new_tensor, makes. repeat wlp_step. cbn.
  assert (storages s !! fresh (dom (storages s)) = None) as Hsid by (apply not_elem_of_dom, is_fresh).
  split; [apply not_elem_of_dom, is_fresh|]. split.
  { intros sid st' Hst'. exists st'. cbn. split; [|lia]. rewrite lookup_insert_ne by congruence. done. }
  eexists. split; [done|]. split; [|done]. split; cbn; try done; [by rewrite Ho|].
  intros idx Hidx. destruct (Hb idx Hidx). eapply element_stored_intro; cbn;
    [done|by rewrite lookup_insert_eq|by apply Hd|by rewrite Ho|done|by rewrite Ho].
Qed.

Lemma run_impl_Ok m t t' : run_impl m t = Ok t' ↔ m t = (t', Ok tt).
Proof. unfold run_impl. destruct (m t) as [t1 [[]|e]]; naive_solver. Qed.

Lemma on_cpu_type d u : on_cpu d = Ok u → ∀ d', d = Some d' → device_type kCPU = device_type d'.
Proof. unfold on_cpu, is_cpu. intros H d' ->. cbn in H. by case_bool_decide. Qed.

(** The metadata of a tensor that was just made. *)
Definition fresh_impl (size : list Z) (t : TensorImpl) : Prop :=
  consistent t ∧ is_sparse_ t = false ∧ sizes_ t = size ∧ storage_offset_ t = 0.

Lemma fresh_contiguous size t : extent_fits size →
  (if bool_decide (size = [0]) then Ok (fresh_tensor false)
   else run_impl (set_sizes_contiguous size) (fresh_tensor false)) = Ok t →
  fresh_impl size t ∧ is_contiguous_ t = true ∧ Forall nonneg_i64 (strides_ t).
Proof.
  intros He. case_bool_decide as E.
  { intros [= <-]. subst. split; [|split; [done|by repeat constructor]].
    split_and!; try done. apply fresh_tensor_consistent. }
  intros H%run_impl_Ok. pose proof (extent_sizes _ He) as Hs.
  apply set_sizes_contiguous_Ok in H as (Hc & Es & Est & Eo & Esp).
  2: { eapply Forall_impl; [exact Hs|]. unfold nonneg_i64, is_i64, int64_min, int64_max. lia. }
  split; [by split_and!|]. split; [|rewrite Est; by apply contiguous_strides_fit].
  destruct He as [Hn _]. apply contiguous_flag; rewrite ?Es; done.
Qed.

Lemma fresh_format size mf t t' : extent_fits size → fresh_impl size t → is_contiguous_ t = true →
  Forall nonneg_i64 (strides_ t) →
  (match mf with
   | None | Some Contiguous => Ok t
   | Some memory_format => run_impl (empty_tensor_restride memory_format) t
   end) = Ok t' →
  fresh_impl size t' ∧ is_contiguous_default_impl (default Contiguous mf) t' = true ∧
  Forall nonneg_i64 (strides_ t').
Proof.
  intros He (Hc & Hsp & Es & Eo) Hcont Hst H.
  assert (∀ f, run_impl (empty_tensor_restride f) t = Ok t' →
    fresh_impl size t' ∧ is_contiguous_default_impl f t' = true ∧ Forall nonneg_i64 (strides_ t')) as Hf.
  { intros f Hr%run_impl_Ok. apply restride_format in Hr as (H1 & H2 & H3 & H4 & H5 & H6); [|done..|by rewrite Es].
    split; [|done]. split_and!; try done; congruence. }
  destruct mf as [[]|]; try (by apply Hf); injection H as <-; by split.
Qed.

Lemma empty_generic_makes size t mf s : plain_dtype t → extent_fits size →
  makes (λ i, info_sizes i = size ∧ info_dtype i = t ∧ info_device i = kCPU ∧ info_layout i = Strided ∧
    is_contiguous_default_impl (default Contiguous mf) (info_impl i) = true) (empty_generic size t mf) s.
Proof.
  intros Hd He. unfold empty_generic, makes. repeat wlp_step.
  destruct (fresh_contiguous size a2) as (Hf & Hcont & Hst); [done..|].
  destruct (fresh_format size mf a2 a3) as ((Hc & Hsp & Es & Eo) & Hflag & Hst'); [done..|].
  destruct Hd as [Hd Hq]. apply storage_bytes_contiguous in E0; [|by apply extent_sizes|lia|done].
  eapply makes_mono; [apply new_tensor_makes; try done; [by rewrite Es|]|].
  - cbn. intros idx Hib. pose proof (format_dense _ _ Hc Hflag) as Hdense.
    assert (nonneg_sizes a3) as Hn by (unfold nonneg_sizes; rewrite Es; by destruct He).
    pose proof (dense_offset a3 idx Hc Hsp Hn Hdense Hib) as Ho. rewrite (consistent_numel _ Hc), Es in Ho.
    split; [lia|]. rewrite E0. apply Z.mul_le_mono_nonneg_r; lia.
  - intros i (E4 & ? & ? & ?). unfold info_sizes. rewrite E4. by split_and!.
Qed.

Lemma itemsize_small t : dtype_itemsize t <= u64_max.
Proof. unfold u64_max. by destruct t. Qed.

Lemma empty_strided_makes size stride t s : plain_dtype t → extent_fits size → Forall nonneg_i64 stride →
  makes (λ i, info_sizes i = size ∧ info_strides i = stride ∧ info_dtype i = t ∧ info_device i = kCPU ∧
    info_layout i = Strided) (empty_strided_generic size stride t) s.
Proof.
  intros Hd He Hst. unfold empty_strided_generic, makes. repeat wlp_step. apply run_impl_Ok in E2.
  pose proof (extent_sizes _ He) as Hs. pose proof (itemsize_small t).
  pose proof (set_sizes_and_strides_run (fresh_tensor false) size stride None) as Hr. rewrite E2 in Hr.
  destruct Hr as (Hl & Es & Hf & Eo & Esp & Hc).
  { eapply Forall_impl; [exact Hs|]. unfold nonneg_i64, is_i64, int64_min, int64_max. lia. }
  assert (strides_ a2 = stride) as Est.
  { eapply filled_nonneg; [|exact Hf]. eapply Forall_impl; [exact Hst|]. by intros ? []. }
  eapply makes_mono; [apply new_tensor_makes; try done; [by rewrite Es|by rewrite Est|]|].
  - rewrite Es, Est. intros idx Hib. destruct Hd as [Hd _].
    destruct (storage_bytes_cover size stride (dtype_itemsize t) 0 a0 idx); done || lia.
  - intros i (E4 & ? & ? & ?). unfold info_sizes, info_strides. rewrite E4. by split_and!.
Qed.

Lemma put_storage_grow sid st s : (∀ st0, storages s !! sid = Some st0 → nbytes st0 <= nbytes st) →
  storages_grow s (put_storage sid st s).
Proof.
  intros Hst sid' st' Hst'. cbn. destruct (decide (sid = sid')) as [<-|Hne].
  - exists st. rewrite lookup_insert_eq. auto.
  - exists st'. rewrite lookup_insert_ne by done. split; [done|lia].
Qed.

(** The storage of a tensor is large enough afterwards. *)
Lemma maybe_resize_storage_spec self i bytes s : tensors s !! self = Some i → numel_ (info_impl i) ≠ 0 →
  wlp (maybe_resize_storage_cpu self bytes) (λ _ s', storages_grow s s' ∧
    ∃ sid st, tensors s' = <[self := set_info_storage (Some sid) i]> (tensors s) ∧
      storages s' !! sid = Some st ∧ bytes <= nbytes st) s.
Proof.
  intros Hi Hn. unfold maybe_resize_storage_cpu. repeat wlp_step. apply tensor_info_Ok in E. simplify_eq.
  apply Z.eqb_neq in Hn. rewrite Hn. destruct (info_storage i) as [sid|] eqn:Esid.
  - repeat wlp_step. apply storage_impl_Ok in E.
    assert (set_info_storage (Some sid) i = i) as Ea by (rewrite <- Esid; by destruct i).
    destruct (bytes >? nbytes a) eqn:Eb; bool_simpl.
    + unfold resize_bytes_cpu. repeat wlp_step. apply storage_impl_Ok in E0. simplify_eq.
      assert (∀ dp, storages_grow s (put_storage sid (mkStorageImpl dp bytes (resizable a)) s) ∧
        ∃ sid0 st, tensors s = <[self:=set_info_storage (Some sid0) i]> (tensors s) ∧
          <[sid:=mkStorageImpl dp bytes (resizable a)]> (storages s) !! sid0 = Some st ∧ bytes <= nbytes st) as Hput.
      { intros dp. split.
        - apply put_storage_grow. cbn. intros st0 Hst0. simplify_eq. lia.
        - exists sid, (mkStorageImpl dp bytes (resizable a)). rewrite Ea, lookup_insert_eq, insert_id by done. done. }
      destruct (negb _); repeat wlp_step; apply Hput.
    + repeat wlp_step. split; [done|]. exists sid, a. rewrite Ea, insert_id by done. done.
  - repeat wlp_step. split.
    + intros sid' st' Hst'. exists st'. cbn. split; [|lia]. rewrite lookup_insert_ne; [done|].
      intros <-. assert (storages s !! fresh (dom (storages s)) = None) as Hf by (apply not_elem_of_dom, is_fresh).
      congruence.
    + eexists _, _. split_and!; [done|cbn; by rewrite lookup_insert_eq|done].
Qed.

Lemma resize_reshapes self size s : store_ok s → extent_fits size →
  reshapes self (λ i i', info_sizes i' = size ∧
    (info_sizes i ≠ size → is_contiguous_default_impl Contiguous (info_impl i') = true)) (resize_ self size None) s.
Proof.
  intros Hs He. unfold reshapes, resize_, resize_impl_cpu_. do 3 wlp_step. apply tensor_info_Ok in E.
  pose proof (store_ok_lookup _ _ _ Hs E) as Hok. pose proof Hok as [Hc Hsp _ _ Hoff Hd _].
  case_bool_decide as Esz; cbn [default].
  { rewrite bool_decide_true by done. cbn. split; [done|]. exists a, a. rewrite insert_id by done. by split_and!. }
  cbn [andb]. do 2 wlp_step. eapply wlp_mono; [by apply on_impl_run|]. intros _ s1 (t & Ht & ->). repeat wlp_step.
  pose proof (extent_sizes _ He) as Hnn. destruct Hd as [Hd Hq].
  apply storage_bytes_contiguous in E0; [|done|unfold info_itemsize; lia|lia].
  apply set_sizes_contiguous_Ok in Ht as (Hct & Es & Est & Eo & Esp).
  2: { eapply Forall_impl; [exact Hnn|]. unfold nonneg_i64, is_i64, int64_min, int64_max. lia. }
  assert (is_contiguous_ t = true) as Hcont
    by (destruct He as [Hn _]; apply contiguous_flag; rewrite ?Es, ?Esp; done).
  assert (Forall nonneg_i64 (strides_ t)) as Hst by (rewrite Est; by apply contiguous_strides_fit).
  set (i1 := set_info_impl t a) in *.
  destruct (decide (numel_ t = 0)) as [E1|E1].
  - unfold maybe_resize_storage_cpu. repeat wlp_step. apply tensor_info_Ok in E2. cbn in E2.
    rewrite lookup_insert_eq in E2. injection E2 as <-.
    rewrite (proj2 (Z.eqb_eq (numel_ (info_impl i1)) 0) E1). repeat wlp_step. split; [apply put_tensor_grow|].
    exists a, i1. split_and!; try done.
    apply mkTensorOk; unfold info_sizes, info_strides; cbn; rewrite ?Es, ?Esp, ?Eo; try done.
    intros idx Hib. apply in_bounds_positive, multiply_pos in Hib.
    rewrite (consistent_numel _ Hct), Es in E1. lia.
  - eapply wlp_mono; [apply (maybe_resize_storage_spec self i1); [by cbn; rewrite lookup_insert_eq|done]|].
    intros _ s' (Hg & sid & st & Et & Hsid & Hb). repeat wlp_step.
    split; [etransitivity; [|exact Hg]; apply put_tensor_grow|].
    exists a, (set_info_storage (Some sid) i1). split_and!; try done; [by rewrite Et; cbn; rewrite insert_insert_eq|].
    apply mkTensorOk; unfold info_sizes, info_strides; cbn; rewrite ?Es, ?Esp, ?Eo; try done.
    intros idx Hib. pose proof (dense_offset t idx Hct) as Ho. rewrite Es in Ho.
    specialize (Ho ltac:(by rewrite Esp) ltac:(unfold nonneg_sizes; rewrite Es; by destruct He)
      (format_dense Contiguous _ Hct Hcont) Hib). rewrite (consistent_numel _ Hct), Es in Ho.
    eapply element_stored_intro; unfold info_strides, info_itemsize in *; cbn; rewrite ?Eo; [done|done|done|lia|lia|].
    etransitivity; [|exact Hb]. rewrite E0. apply Z.mul_le_mono_nonneg_r; lia.
Qed.
Lemma plain_packing t : plain_dtype t → subByteElementPerByte t = 1.
Proof. intros [_ Hq]. by destruct t. Qed.

Lemma as_strided_reshapes self size stride s : store_ok s → extent_fits size → Forall nonneg_i64 stride →
  reshapes self (λ i i', info_sizes i' = size ∧ info_strides i' = stride) (as_strided_ self size stride None) s.
Proof.
  intros Hs He Hst. unfold reshapes, as_strided_, setStrided. repeat wlp_step. cbn [default] in *.
  eapply wlp_mono; [apply (on_impl_run _ _ a1); by apply tensor_info_Ok|]. apply tensor_info_Ok in E, E1.
  rewrite E in E1. injection E1 as <-. intros _ s1 (t & Ht & ->).
  pose proof (store_ok_lookup _ _ _ Hs E) as [Hc Hsp _ _ Hoff Hd _].
  pose proof (extent_sizes _ He) as Hnn. pose proof (set_sizes_and_strides_run (info_impl a) size stride
    (Some (storage_offset_ (info_impl a)))) as Hr. rewrite Ht in Hr.
  destruct Hr as (Hl & Es & Hf & Eo & Esp & Hct).
  { eapply Forall_impl; [exact Hnn|]. unfold nonneg_i64, is_i64, int64_min, int64_max. lia. }
  assert (strides_ t = stride) as Est.
  { eapply filled_nonneg; [|exact Hf]. eapply Forall_impl; [exact Hst|]. by intros ? []. }
  cbn in Eo. destruct (info_storage a) as [sid|] eqn:Esid; [|done]. apply storage_impl_Ok in E2.
  split; [apply put_tensor_grow|]. exists a, (set_info_impl t a). split_and!; try done.
  apply mkTensorOk; unfold info_sizes, info_strides; cbn; rewrite ?Es, ?Est, ?Esp, ?Eo; try done.
  intros idx Hib. pose proof (itemsize_small (info_dtype a)). pose proof Hd as [Hd0 _].
  unfold checkInBoundsForStorage in E3. rewrite (plain_packing _ Hd) in E3. cbn in E3.
  apply bind_Ok in E3 as (n0 & En0 & E3). apply bind_Ok in E3 as (n1 & En1 & E3).
  assert (int64_max < u64_max) by done.
  destruct (storage_bytes_cover size stride (dtype_itemsize (info_dtype a)) 0 n0 idx) as [H1 H2]; try done; [lia|].
  destruct (storage_bytes_cover size stride (dtype_itemsize (info_dtype a)) (storage_offset_ (info_impl a)) n1 idx)
    as [_ H3]; try done; [lia..|].
  destruct (n0 =? 0) eqn:En; bool_simpl; [subst n0; nia|]. apply TORCH_CHECK_Ok in E3. cbn in E3. bool_simpl.
  apply (element_stored_intro _ _ sid a2); unfold info_strides, info_itemsize in *; cbn; rewrite ?Est, ?Eo;
    [done|done|done|lia|done|lia].
Qed.

#[export] Instance cpu_lawful : LawfulOperators.
Proof.
  split; cbn [at_empty at_empty_strided at_resize_ at_as_strided_ at_copy_ cpu_operators].
  - intros size options s Hs Hd He. unfold makes, empty_cpu. repeat wlp_step.
    eapply makes_mono; [by apply empty_generic_makes|]. intros i (? & ? & Edev & ? & ?).
    split; [|done]. split_and!; try done. intros d Hopt. rewrite Edev. by eapply on_cpu_type.
  - intros size stride options s Hs Hd He Hst. unfold makes, empty_strided_cpu. repeat wlp_step.
    eapply makes_mono; [by apply empty_strided_makes|]. intros i (? & ? & ? & Edev & ?).
    split; [|done]. split_and!; try done. intros d Hopt. rewrite Edev. by eapply on_cpu_type.
  - intros. by apply resize_reshapes.
  - intros. by apply as_strided_reshapes.
  - intros. repeat wlp_step. done.
Qed.

End CPU.

