(* ===== verification/TensorIteratorConfig.v ===== *)
(** * The configuration of a tensor iterator.

    [TensorIteratorConfig] of aten/src/ATen/TensorIterator.{h,cpp}, with the
    methods that set its fields, and the configurations of the common kinds of
    operators ([build_binary_op] and the like).  Whether a tensor is owned or
    borrowed makes no difference here. *)

From S2P Require Import Prelude.
From S2P Require Import ScalarType.
From S2P Require Import TensorIterator.
From S2P Require Import TensorStore.

(** [tensors_] holds an undefined tensor as [None]. *)
Record TensorIteratorConfig : Type := mkConfig {
  tensors_ : list (option tensor_ref);
  config_outputs_ : nat;
  num_inputs_ : nat;
  static_shape_ : option (list Z);
  static_dtype_ : option ScalarType;
  static_device_ : option Device;
  check_mem_overlap_ : bool;
  allow_cpu_scalars_ : bool;
  reduction_ : bool;
  resize_outputs_ : bool;
  check_all_same_dtype_ : bool;
  check_all_same_device_ : bool;
  enforce_safe_casting_to_output_ : bool;
  linear_iteration_ : bool;
  promote_inputs_to_common_dtype_ : bool;
  promote_integer_inputs_to_float_ : bool;
  cast_common_dtype_to_outputs_ : bool;
  const_tensor_indices_ : list nat }.

Definition default_config : TensorIteratorConfig :=
  mkConfig [] 0 0 None None None true false false true true true false false false false false [].

(** The assignments to the fields. *)
Definition put_tensors (ts : list (option tensor_ref)) (outputs inputs : nat) (consts : list nat)
    (c : TensorIteratorConfig) : TensorIteratorConfig :=
  mkConfig ts outputs inputs (static_shape_ c) (static_dtype_ c) (static_device_ c) (check_mem_overlap_ c)
    (allow_cpu_scalars_ c) (reduction_ c) (resize_outputs_ c) (check_all_same_dtype_ c)
    (check_all_same_device_ c) (enforce_safe_casting_to_output_ c) (linear_iteration_ c)
    (promote_inputs_to_common_dtype_ c) (promote_integer_inputs_to_float_ c)
    (cast_common_dtype_to_outputs_ c) consts.
Definition put_static (shape : option (list Z)) (dtype : option ScalarType) (device : option Device)
    (c : TensorIteratorConfig) : TensorIteratorConfig :=
  mkConfig (tensors_ c) (config_outputs_ c) (num_inputs_ c) shape dtype device (check_mem_overlap_ c)
    (allow_cpu_scalars_ c) (reduction_ c) (resize_outputs_ c) (check_all_same_dtype_ c)
    (check_all_same_device_ c) (enforce_safe_casting_to_output_ c) (linear_iteration_ c)
    (promote_inputs_to_common_dtype_ c) (promote_integer_inputs_to_float_ c)
    (cast_common_dtype_to_outputs_ c) (const_tensor_indices_ c).
(** The flags about memory, devices and iteration. *)
Definition put_flags (overlap scalars reduction resize same_device linear : bool) (c : TensorIteratorConfig)
    : TensorIteratorConfig :=
  mkConfig (tensors_ c) (config_outputs_ c) (num_inputs_ c) (static_shape_ c) (static_dtype_ c)
    (static_device_ c) overlap scalars reduction resize (check_all_same_dtype_ c)
    same_device (enforce_safe_casting_to_output_ c) linear
    (promote_inputs_to_common_dtype_ c) (promote_integer_inputs_to_float_ c)
    (cast_common_dtype_to_outputs_ c) (const_tensor_indices_ c).
(** The flags about dtypes. *)
Definition put_dtype_flags (same safe promote to_float cast : bool) (c : TensorIteratorConfig)
    : TensorIteratorConfig :=
  mkConfig (tensors_ c) (config_outputs_ c) (num_inputs_ c) (static_shape_ c) (static_dtype_ c)
    (static_device_ c) (check_mem_overlap_ c) (allow_cpu_scalars_ c) (reduction_ c) (resize_outputs_ c) same
    (check_all_same_device_ c) safe (linear_iteration_ c) promote to_float cast (const_tensor_indices_ c).

Notation config_method := (method TensorIteratorConfig unit).

(** ** Operands: [add_owned_...] and [add_borrowed_...]. *)
Definition add_output (output : option tensor_ref) : config_method :=
  c ← reads id;
  _ ← lift (TORCH_INTERNAL_ASSERT (num_inputs_ c =? 0)%nat
              "Keep in mind that you have to add all outputs first before adding any input. ");
  modify (put_tensors (tensors_ c ++ [output]) (S (config_outputs_ c)) (num_inputs_ c) (const_tensor_indices_ c)).
Definition add_input (input : option tensor_ref) : config_method :=
  modify (λ c, put_tensors (tensors_ c ++ [input]) (config_outputs_ c) (S (num_inputs_ c))
                 (const_tensor_indices_ c) c).
Definition add_const_input (input : option tensor_ref) : config_method :=
  modify (λ c, put_tensors (tensors_ c ++ [input]) (config_outputs_ c) (S (num_inputs_ c))
                 (const_tensor_indices_ c ++ [length (tensors_ c)]) c).
Definition is_tensor_const (idx : nat) (c : TensorIteratorConfig) : bool :=
  bool_decide (idx ∈ const_tensor_indices_ c).

(** ** Flags. *)
Definition set_check_mem_overlap (b : bool) : config_method :=
  modify (λ c, put_flags b (allow_cpu_scalars_ c) (reduction_ c) (resize_outputs_ c)
                 (check_all_same_device_ c) (linear_iteration_ c) c).
Definition allow_cpu_scalars (b : bool) : config_method :=
  modify (λ c, put_flags (check_mem_overlap_ c) b (reduction_ c) (resize_outputs_ c)
                 (check_all_same_device_ c) (linear_iteration_ c) c).
Definition is_reduction (b : bool) : config_method :=
  modify (λ c, put_flags (check_mem_overlap_ c) (allow_cpu_scalars_ c) b (resize_outputs_ c)
                 (check_all_same_device_ c) (linear_iteration_ c) c).
Definition resize_outputs (b : bool) : config_method :=
  modify (λ c, put_flags (check_mem_overlap_ c) (allow_cpu_scalars_ c) (reduction_ c) b
                 (check_all_same_device_ c) (linear_iteration_ c) c).
Definition check_all_same_device (b : bool) : config_method :=
  modify (λ c, put_flags (check_mem_overlap_ c) (allow_cpu_scalars_ c) (reduction_ c) (resize_outputs_ c)
                 b (linear_iteration_ c) c).
Definition enforce_linear_iteration (b : bool) : config_method :=
  modify (λ c, put_flags (check_mem_overlap_ c) (allow_cpu_scalars_ c) (reduction_ c) (resize_outputs_ c)
                 (check_all_same_device_ c) b c).

Definition check_all_same_dtype (b : bool) : config_method :=
  modify (λ c, put_dtype_flags b (enforce_safe_casting_to_output_ c) (promote_inputs_to_common_dtype_ c)
                 (promote_integer_inputs_to_float_ c) (cast_common_dtype_to_outputs_ c) c).
Definition enforce_safe_casting_to_output (b : bool) : config_method :=
  modify (λ c, put_dtype_flags (check_all_same_dtype_ c) b (promote_inputs_to_common_dtype_ c)
                 (promote_integer_inputs_to_float_ c) (cast_common_dtype_to_outputs_ c) c).
Definition promote_inputs_to_common_dtype (b : bool) : config_method :=
  modify (λ c, put_dtype_flags (if b then false else check_all_same_dtype_ c)
                 (enforce_safe_casting_to_output_ c) b
                 (promote_integer_inputs_to_float_ c) (cast_common_dtype_to_outputs_ c) c).
Definition promote_integer_inputs_to_float (b : bool) : config_method :=
  _ ← modify (λ c, put_dtype_flags (check_all_same_dtype_ c) (enforce_safe_casting_to_output_ c)
                     (promote_inputs_to_common_dtype_ c) b (cast_common_dtype_to_outputs_ c) c);
  c ← reads id;
  lift (TORCH_INTERNAL_ASSERT (negb (promote_integer_inputs_to_float_ c) || promote_inputs_to_common_dtype_ c) "").
Definition cast_common_dtype_to_outputs (b : bool) : config_method :=
  modify (λ c, put_dtype_flags (if b then false else check_all_same_dtype_ c)
                 (enforce_safe_casting_to_output_ c) (promote_inputs_to_common_dtype_ c)
                 (promote_integer_inputs_to_float_ c) b c).

(** ** Static properties. *)
Definition declare_static_dtype_and_device (dtype : ScalarType) (device : Device) : config_method :=
  c ← reads id;
  _ ← lift (TORCH_CHECK (negb (check_all_same_dtype_ c))
              "check_all_same_dtype(false) must be called before declare_static_dtype(...)");
  modify (put_static (static_shape_ c) (Some dtype) (Some device)).
Definition declare_static_dtype (dtype : ScalarType) : config_method :=
  c ← reads id;
  _ ← lift (TORCH_CHECK (negb (check_all_same_dtype_ c))
              "check_all_same_dtype(false) must be called before declare_static_dtype(...)");
  modify (put_static (static_shape_ c) (Some dtype) (static_device_ c)).
Definition declare_static_device (device : Device) : config_method :=
  modify (λ c, put_static (static_shape_ c) (static_dtype_ c) (Some device) c).
Definition declare_static_shape (shape : list Z) : config_method :=
  c ← reads id;
  _ ← lift (TORCH_CHECK (negb (resize_outputs_ c))
              "resize_outputs() must be called before declare_static_shape(...)");
  modify (put_static (Some shape) (static_dtype_ c) (static_device_ c)).

Fixpoint squash_loop (squash_dims shape : list Z) : result (list Z) :=
  match squash_dims with
  | [] => Ok shape
  | squash_dim :: rest =>
      _ ← TORCH_CHECK ((squash_dim >=? 0) && (squash_dim <? Z.of_nat (length shape))) "squash_dim ";
      squash_loop rest (<[Z.to_nat squash_dim := 1]> shape)
  end.
Definition declare_static_shape_squash (shape squash_dims : list Z) : config_method :=
  _ ← declare_static_shape shape;
  if bool_decide (shape = []) then mret tt
  else
    squashed ← lift (squash_loop squash_dims shape);
    modify (λ c, put_static (Some squashed) (static_dtype_ c) (static_device_ c) c).

(** ** Common operators.  The macros [..._CONFIG] and the [build_...] methods
    that use them, which differ in the ownership of the tensors. *)
Definition binary_op_flags : config_method :=
  _ ← set_check_mem_overlap true;
  _ ← allow_cpu_scalars true;
  _ ← promote_inputs_to_common_dtype true;
  _ ← cast_common_dtype_to_outputs true;
  enforce_safe_casting_to_output true.
Definition binary_op_config (out a b : option tensor_ref) : config_method :=
  _ ← binary_op_flags;
  _ ← add_output out;
  _ ← add_const_input a;
  add_const_input b.
Definition binary_float_op_config (out a b : option tensor_ref) : config_method :=
  _ ← binary_op_flags;
  _ ← promote_integer_inputs_to_float true;
  _ ← add_output out;
  _ ← add_const_input a;
  add_const_input b.

(** [out_dtype] is the dtype of [out], if it is defined. *)
Definition set_up_comparison_op_config (out_dtype : option ScalarType) : config_method :=
  _ ← set_check_mem_overlap true;
  _ ← allow_cpu_scalars true;
  _ ← promote_inputs_to_common_dtype true;
  match out_dtype with
  | None => declare_static_dtype Bool
  | Some t => if negb (bool_decide (t = Bool)) then cast_common_dtype_to_outputs true else mret tt
  end.
Definition comparison_op_config (out_dtype : option ScalarType) (out a b : option tensor_ref) : config_method :=
  _ ← set_up_comparison_op_config out_dtype;
  _ ← add_output out;
  _ ← add_const_input a;
  add_const_input b.
Definition ternary_op_config (out a b c : option tensor_ref) : config_method :=
  _ ← promote_inputs_to_common_dtype true;
  _ ← cast_common_dtype_to_outputs true;
  _ ← enforce_safe_casting_to_output true;
  _ ← add_output out;
  _ ← add_const_input a;
  _ ← add_const_input b;
  add_const_input c.
Definition unary_float_op_config (out a : option tensor_ref) : config_method :=
  _ ← set_check_mem_overlap true;
  _ ← promote_inputs_to_common_dtype true;
  _ ← cast_common_dtype_to_outputs true;
  _ ← enforce_safe_casting_to_output true;
  _ ← promote_integer_inputs_to_float true;
  _ ← add_output out;
  add_const_input a.
Definition unary_op_config (out a : option tensor_ref) : config_method :=
  _ ← set_check_mem_overlap true;
  _ ← cast_common_dtype_to_outputs false;
  _ ← enforce_safe_casting_to_output false;
  _ ← check_all_same_dtype true;
  _ ← add_output out;
  add_const_input a.
(** [build_output_borrowing_argument_owning_unary_op]. *)
Definition casting_unary_op_config (out a : option tensor_ref) : config_method :=
  _ ← set_check_mem_overlap true;
  _ ← cast_common_dtype_to_outputs true;
  _ ← enforce_safe_casting_to_output true;
  _ ← add_output out;
  add_const_input a.
(** [build_borrowing_unary_force_boolean_op]; [a_device] is the device of [a]. *)
Definition force_boolean_op_config (a_device : Device) (out a : option tensor_ref) : config_method :=
  _ ← set_check_mem_overlap true;
  _ ← check_all_same_dtype false;
  _ ← declare_static_dtype Bool;
  _ ← declare_static_device a_device;
  _ ← add_output out;
  add_const_input a.
Definition nullary_op_config (out : option tensor_ref) : config_method :=
  _ ← set_check_mem_overlap true;
  _ ← check_all_same_dtype false;
  _ ← resize_outputs false;
  add_output out.
Definition reduce_op_config (out a : option tensor_ref) : config_method :=
  _ ← lift (TORCH_INTERNAL_ASSERT (bool_decide (out ≠ None)) "");
  _ ← set_check_mem_overlap false;
  _ ← add_output out;
  _ ← add_const_input a;
  _ ← resize_outputs false;
  _ ← is_reduction true;
  promote_inputs_to_common_dtype true.

(** The configuration a sequence of calls makes. *)
Definition configured (m : config_method) : result TensorIteratorConfig :=
  let '(c, r) := m default_config in _ ← r; Ok c.
