(* ===== verification/TensorIteratorBuild.v ===== *)
(** * The construction of a tensor iterator.

    [TensorIteratorBase::build] of aten/src/ATen/TensorIterator.cpp, for a
    [TensorIterator]: from a configuration to the operands, the broadcast shape,
    the common dtype and device, temporaries, outputs that are allocated or
    resized, strides and data pointers.  The operands have no names. *)

From S2P Require Import Prelude.
From S2P Require Import Layout.
From S2P Require Import SafeNum.
From S2P Require Import TensorMeta.
From S2P Require Import Broadcast.
From S2P Require Import MemoryOverlap.
From S2P Require Import ScalarType.
From S2P Require Import TensorIterator.
From S2P Require Import TensorStore.
From S2P Require Import TensorIteratorConfig.

(** ** Operands. *)
Definition set_tensor (t original : option tensor_ref) (op : OperandInfo) : OperandInfo :=
  mkOperand (op_data op) (stride_bytes op) (op_device op) (target_dtype op) (current_dtype op) (is_output op)
    (will_resize op) (is_read_write op) (is_const op) t original.
Definition set_dtypes (target current : ScalarType) (op : OperandInfo) : OperandInfo :=
  mkOperand (op_data op) (stride_bytes op) (op_device op) target current (is_output op)
    (will_resize op) (is_read_write op) (is_const op) (tensor_base op) (original_tensor_base op).
Definition set_device (d : option Device) (op : OperandInfo) : OperandInfo :=
  mkOperand (op_data op) (stride_bytes op) d (target_dtype op) (current_dtype op) (is_output op)
    (will_resize op) (is_read_write op) (is_const op) (tensor_base op) (original_tensor_base op).
Definition set_operand_flags (output resize read_write const : bool) (op : OperandInfo) : OperandInfo :=
  mkOperand (op_data op) (stride_bytes op) (op_device op) (target_dtype op) (current_dtype op) output
    resize read_write const (tensor_base op) (original_tensor_base op).

Definition is_type_defined (op : OperandInfo) : bool := negb (bool_decide (target_dtype op = Undefined)).
Definition is_device_defined (op : OperandInfo) : bool := bool_decide (op_device op ≠ None).
Definition defined_tensor (op : OperandInfo) : bool := bool_decide (tensor_base op ≠ None).

(** [exchange_tensor] and [restore_original_tensor]. *)
Definition exchange_tensor (new_tensor : tensor_ref) (op : OperandInfo) : OperandInfo :=
  set_tensor (Some new_tensor) (tensor_base op) op.
Definition restore_original_tensor (op : OperandInfo) : OperandInfo :=
  set_tensor (original_tensor_base op) None op.

(** The constructor, with [validate]. *)
Definition make_operand (t : option tensor_ref) (s : Store) : result OperandInfo :=
  match t with
  | None => Ok (mkOperand 0 [] None Undefined Undefined false false false false None None)
  | Some id =>
      i ← tensor_info id s;
      _ ← TORCH_CHECK (bool_decide (info_layout i = Strided)) "unsupported tensor layout: ";
      Ok (mkOperand 0 [] (Some (info_device i)) (info_dtype i) (info_dtype i) false false false false (Some id) None)
  end.

(** [OperandInfo::options] and [original_options]. *)
Definition operand_options (op : OperandInfo) : TensorOptions := mkOptions (target_dtype op) (op_device op) None.
Definition original_options (op : OperandInfo) (s : Store) : result TensorOptions :=
  match original_tensor_base op with
  | Some t => i ← tensor_info t s; Ok (info_options i)
  | None => Ok (operand_options op)
  end.

(** The loops over operands that may throw. *)
Section Loops.
Context {S A : Type}.

(** The state is threaded from left to right. *)
Fixpoint each_operand (f : OperandInfo → A → method S (OperandInfo * A)) (ops : list OperandInfo) (a : A)
    : method S (list OperandInfo * A) :=
  match ops with
  | [] => mret ([], a)
  | op :: rest =>
      r ← f op a;
      rs ← each_operand f rest r.2;
      mret (r.1 :: rs.1, rs.2)
  end.
End Loops.

Fixpoint map_operands {S} (f : OperandInfo → method S OperandInfo) (ops : list OperandInfo)
    : method S (list OperandInfo) :=
  match ops with
  | [] => mret []
  | op :: rest => op' ← f op; rest' ← map_operands f rest; mret (op' :: rest')
  end.

(** The outputs are the first [num_outputs_] operands. *)
Definition on_outputs {S} (f : OperandInfo → method S OperandInfo) (it : TensorIteratorBase)
    : method S TensorIteratorBase :=
  outputs ← map_operands f (take (num_outputs_ it) (operands_ it));
  mret (set_operands (outputs ++ drop (num_outputs_ it) (operands_ it)) it).

Fixpoint check_operands (f : OperandInfo → result unit) (ops : list OperandInfo) : result unit :=
  match ops with
  | [] => Ok tt
  | op :: rest => _ ← f op; check_operands f rest
  end.

(** ** Fields of the iterator. *)
Definition initial_iterator (config : TensorIteratorConfig) : TensorIteratorBase :=
  mkIterator [] [] false (linear_iteration_ config) [] [] 0 false false Undefined kCPU false true
    (reduction_ config) false.
Definition set_populated (ops : list OperandInfo) (outputs : nat) (meta : bool) (it : TensorIteratorBase)
    : TensorIteratorBase :=
  mkIterator (shape_ it) (perm_ it) (has_coalesced_dimensions_ it) (enforce_linear_iteration_ it)
    (view_offsets_ it) ops outputs (all_ops_same_shape_ it) (all_ops_are_scalars_ it) (common_dtype_ it)
    (common_device_ it) (accumulate_ it) (final_output_ it) (is_reduction_ it) meta.
Definition set_shape_flags (sh : list Z) (same scalars : bool) (it : TensorIteratorBase) : TensorIteratorBase :=
  mkIterator sh (perm_ it) (has_coalesced_dimensions_ it) (enforce_linear_iteration_ it)
    (view_offsets_ it) (operands_ it) (num_outputs_ it) same scalars (common_dtype_ it)
    (common_device_ it) (accumulate_ it) (final_output_ it) (is_reduction_ it) (is_meta_ it).
Definition set_common (dtype : ScalarType) (device : Device) (it : TensorIteratorBase) : TensorIteratorBase :=
  mkIterator (shape_ it) (perm_ it) (has_coalesced_dimensions_ it) (enforce_linear_iteration_ it)
    (view_offsets_ it) (operands_ it) (num_outputs_ it) (all_ops_same_shape_ it) (all_ops_are_scalars_ it) dtype
    device (accumulate_ it) (final_output_ it) (is_reduction_ it) (is_meta_ it).

(** ** [populate_operands] and the marks. *)
Definition tensor_is_meta (t : option tensor_ref) (s : Store) : bool :=
  match t ≫= (λ id, tensors s !! id) with
  | Some i => bool_decide (device_type (info_device i) = Meta)
  | None => false
  end.

Fixpoint populate_loop (config : TensorIteratorConfig) (s : Store) (idx : nat) (ts : list (option tensor_ref))
    : result (list OperandInfo) :=
  match ts with
  | [] => Ok []
  | t :: rest =>
      op ← make_operand t s;
      ops ← populate_loop config s (Datatypes.S idx) rest;
      Ok (set_operand_flags (is_output op) (will_resize op) (is_read_write op) (is_tensor_const idx config) op :: ops)
  end.

Definition populate_operands (config : TensorIteratorConfig) (it : TensorIteratorBase) (s : Store)
    : result TensorIteratorBase :=
  ops ← populate_loop config s 0 (tensors_ config);
  Ok (set_populated ops (config_outputs_ config)
        (existsb (λ t, tensor_is_meta t s) (tensors_ config)) it).

Definition mark_output (inputs : list OperandInfo) (op : OperandInfo) : OperandInfo :=
  set_operand_flags true (will_resize op)
    (is_read_write op || (defined_tensor op && existsb (λ input, bool_decide (tensor_base op = tensor_base input)) inputs))
    (is_const op) op.
Definition mark_outputs (it : TensorIteratorBase) : TensorIteratorBase :=
  let inputs := drop (num_outputs_ it) (operands_ it) in
  set_operands (map (mark_output inputs) (take (num_outputs_ it) (operands_ it)) ++ inputs) it.

Definition mark_resize_output (config : TensorIteratorConfig) (it : TensorIteratorBase) (s : Store)
    (op : OperandInfo) : result OperandInfo :=
  let resized := set_operand_flags (is_output op) true (is_read_write op) (is_const op) op in
  match tensor_base op with
  | None => Ok resized
  | Some output =>
      i ← tensor_info output s;
      if negb (bool_decide (info_sizes i = shape_ it)) then
        if resize_outputs_ config && negb (is_read_write op) then Ok resized
        else _ ← TORCH_CHECK (is_reduction_ it) "output with shape "; Ok op
      else Ok op
  end.
Definition mark_resize_outputs (config : TensorIteratorConfig) (it : TensorIteratorBase)
    : method Store TensorIteratorBase :=
  match static_shape_ config with
  | Some _ => mret it
  | None => on_outputs (λ op, inspect (λ s, mark_resize_output config it s op)) it
  end.

(** ** [compute_mem_overlaps]. *)
Definition check_input_overlap (s : Store) (output : tensor_ref) (o : TensorInfo) (input : OperandInfo)
    : result unit :=
  match tensor_base input with
  | None => Ok tt
  | Some id =>
      if bool_decide (id = output) then Ok tt
      else i ← tensor_info id s; assert_no_partial_overlap (memory_tensor s output o) (memory_tensor s id i)
  end.
Definition check_output_overlap (s : Store) (inputs : list OperandInfo) (op : OperandInfo) : result unit :=
  match tensor_base op with
  | None => Ok tt
  | Some output =>
      o ← tensor_info output s;
      _ ← assert_no_internal_overlap (info_impl o);
      check_operands (check_input_overlap s output o) inputs
  end.
Definition compute_mem_overlaps (config : TensorIteratorConfig) (it : TensorIteratorBase) (s : Store)
    : result unit :=
  if negb (check_mem_overlap_ config) then Ok tt
  else check_operands (check_output_overlap s (drop (num_outputs_ it) (operands_ it)))
         (take (num_outputs_ it) (operands_ it)).

(** ** [compute_shape]. *)
Record ShapeState : Type := mkShapeState {
  sh_shape : list Z; sh_same : bool; sh_scalars : bool; sh_tensors : bool }.

Definition shape_step (shape : list Z) (st : ShapeState) : result ShapeState :=
  let has_scalars := sh_scalars st || bool_decide (shape = []) in
  let has_tensors := sh_tensors st || bool_decide (shape ≠ []) in
  let same := if has_scalars && has_tensors then false else sh_same st in
  if bool_decide (sh_shape st = []) then Ok (mkShapeState shape same has_scalars has_tensors)
  else if negb (bool_decide (shape = sh_shape st)) then
    inferred ← infer_size (sh_shape st) shape;
    Ok (mkShapeState inferred false has_scalars has_tensors)
  else Ok (mkShapeState (sh_shape st) same has_scalars has_tensors).

Fixpoint shape_loop (config : TensorIteratorConfig) (s : Store) (ops : list OperandInfo) (st : ShapeState)
    : result ShapeState :=
  match ops with
  | [] => Ok st
  | op :: rest =>
      match tensor_base op with
      | None => shape_loop config s rest st
      | Some id =>
          if resize_outputs_ config && is_output op then shape_loop config s rest st
          else i ← tensor_info id s; st ← shape_step (info_sizes i) st; shape_loop config s rest st
      end
  end.

Definition compute_shape (config : TensorIteratorConfig) (it : TensorIteratorBase) (s : Store)
    : result TensorIteratorBase :=
  match static_shape_ config with
  | Some shape => Ok (set_shape shape it)
  | None =>
      st ← shape_loop config s (operands_ it) (mkShapeState (shape_ it) true false false);
      Ok (set_shape_flags (sh_shape st) (sh_same st) (negb (sh_tensors st)) it)
  end.

(** ** [compute_strides]. *)
Fixpoint broadcast_strides (original_shape shape original_stride : list Z) (element_size : Z) : list Z :=
  match original_shape, shape, original_stride with
  | s :: ss, t :: ts, st :: sts =>
      (if (s =? 1) && negb (t =? 1) then 0 else st * element_size) :: broadcast_strides ss ts sts element_size
  | _, _, _ => []
  end.
Definition operand_strides (config : TensorIteratorConfig) (shape : list Z) (i : TensorInfo) : list Z :=
  let original_shape := if static_shape_ config then shape else info_sizes i in
  let offset := (length shape - length original_shape)%nat in
  replicate offset 0 ++ broadcast_strides original_shape (drop offset shape) (info_strides i) (info_itemsize i).
Definition compute_strides (config : TensorIteratorConfig) (it : TensorIteratorBase)
    : method Store TensorIteratorBase :=
  ops ← map_operands (λ op,
    match tensor_base op with
    | Some id =>
        if will_resize op then mret op
        else i ← inspect (tensor_info id); mret (set_stride_bytes (operand_strides config (shape_ it) i) op)
    | None => mret op
    end) (operands_ it);
  mret (set_operands ops it).

(** ** [compute_types], first pass. *)
Record TypeReview : Type := mkReview {
  rv_device : Device;
  rv_common : ScalarType;
  rv_output : ScalarType;
  rv_different_inputs : bool;
  rv_different_outputs : bool;
  rv_undefined_outputs : bool }.

Definition initial_review : TypeReview := mkReview kCPU Undefined Undefined false false false.
Definition set_undefined_outputs (r : TypeReview) : TypeReview :=
  mkReview (rv_device r) (rv_common r) (rv_output r) (rv_different_inputs r) (rv_different_outputs r) true.

(** An operand without a dtype: what the configuration says about it. *)
Definition review_untyped (config : TensorIteratorConfig) (op : OperandInfo) (r : TypeReview)
    : result (OperandInfo * TypeReview) :=
  _ ← TORCH_INTERNAL_ASSERT (is_output op) "Found type undefined input tensor!";
  let '(op, r) := match static_dtype_ config with
                  | Some t => (set_dtypes t (current_dtype op) op, r)
                  | None => (op, set_undefined_outputs r)
                  end in
  match static_device_ config with
  | Some d => Ok (set_device (Some d) op, r)
  | None => _ ← TORCH_INTERNAL_ASSERT (check_all_same_device_ config) ""; Ok (op, r)
  end.

(** The dtype and device of a defined tensor. *)
Definition review_defined (op : OperandInfo) (i : TensorInfo) (r : TypeReview) : TypeReview :=
  let device := if bool_decide (rv_device r = kCPU) && negb (is_cpu (info_device i)) then info_device i
                else rv_device r in
  let t := target_dtype op in
  if negb (is_output op) then
    if bool_decide (t = rv_common r)
    then mkReview device (rv_common r) (rv_output r) (rv_different_inputs r) (rv_different_outputs r)
           (rv_undefined_outputs r)
    else if bool_decide (rv_common r = Undefined)
    then mkReview device t (rv_output r) (rv_different_inputs r) (rv_different_outputs r) (rv_undefined_outputs r)
    else mkReview device (rv_common r) (rv_output r) true (rv_different_outputs r) (rv_undefined_outputs r)
  else
    if bool_decide (t = rv_output r)
    then mkReview device (rv_common r) (rv_output r) (rv_different_inputs r) (rv_different_outputs r)
           (rv_undefined_outputs r)
    else if bool_decide (rv_output r = Undefined)
    then mkReview device (rv_common r) t (rv_different_inputs r) (rv_different_outputs r) (rv_undefined_outputs r)
    else mkReview device (rv_common r) (rv_output r) (rv_different_inputs r) true (rv_undefined_outputs r).

Definition review_tensor (s : Store) (op : OperandInfo) (r : TypeReview) : result (OperandInfo * TypeReview) :=
  match tensor_base op with
  | None => _ ← TORCH_INTERNAL_ASSERT (is_output op) "Found undefined input tensor!"; Ok (op, r)
  | Some id =>
      _ ← TORCH_INTERNAL_ASSERT (bool_decide (target_dtype op = current_dtype op)) "";
      i ← tensor_info id s;
      Ok (op, review_defined op i r)
  end.

Definition review_operand (config : TensorIteratorConfig) (s : Store) (op : OperandInfo) (r : TypeReview)
    : result (OperandInfo * TypeReview) :=
  if is_type_defined op then review_tensor s op r
  else
    '(op, r) ← review_untyped config op r;
    if rv_undefined_outputs r || negb (is_device_defined op) then Ok (op, r) else review_tensor s op r.

(** The checks between the passes. *)
Definition check_computable (config : TensorIteratorConfig) (r : TypeReview) : result unit :=
  TORCH_INTERNAL_ASSERT
    (negb (rv_different_inputs r && negb (promote_inputs_to_common_dtype_ config)
           && (rv_undefined_outputs r || enforce_safe_casting_to_output_ config
               || cast_common_dtype_to_outputs_ config))) "".
Definition check_same_dtype (config : TensorIteratorConfig) (ops : list OperandInfo) (r : TypeReview)
    : result unit :=
  if check_all_same_dtype_ config
     && (rv_different_inputs r || rv_different_outputs r
         || (negb (bool_decide (rv_common r = rv_output r)) && negb (bool_decide (rv_output r = Undefined))))
  then check_operands (λ op,
         if defined_tensor op then TORCH_CHECK (bool_decide (target_dtype op = rv_common r)) "Found dtype "
         else Ok tt) ops
  else Ok tt.
Definition types_done (config : TensorIteratorConfig) (r : TypeReview) : bool :=
  negb (rv_undefined_outputs r) && negb (check_all_same_device_ config)
  && negb (promote_inputs_to_common_dtype_ config) && negb (cast_common_dtype_to_outputs_ config)
  && negb (enforce_safe_casting_to_output_ config).

(** What [update_result_type_state] reads of an operand. *)
Definition tensor_operand (s : Store) (op : OperandInfo) : operand :=
  match tensor_base op ≫= (λ id, tensors s !! id) with
  | Some i => {| defined := true; dim := Z.of_nat (length (info_sizes i));
                 is_wrapped_number := info_wrapped_number i; scalar_type := info_dtype i |}
  | None => {| defined := false; dim := 0; is_wrapped_number := false; scalar_type := Undefined |}
  end.

Section Build.
Context `{TensorOperators} (dflt : default_dtypes).

Definition compute_common_dtype (ops : list OperandInfo) (s : Store) : result ScalarType :=
  t ← result_type dflt (map (tensor_operand s) (List.filter (λ op, negb (is_output op)) ops));
  _ ← TORCH_INTERNAL_ASSERT (negb (bool_decide (t = Undefined))) "";
  Ok t.

(** The common dtype the second pass starts with. *)
Definition choose_common_dtype (config : TensorIteratorConfig) (it : TensorIteratorBase) (r : TypeReview)
    (s : Store) : result ScalarType :=
  t ← if (rv_different_inputs r || all_ops_are_scalars_ it) && promote_inputs_to_common_dtype_ config
      then compute_common_dtype (operands_ it) s else Ok (rv_common r);
  Ok (if promote_integer_inputs_to_float_ config && isIntegralType t true then default_dtype dflt else t).

(** ** [compute_types], second pass. *)
Definition check_operand_device (config : TensorIteratorConfig) (common_device : Device) (op : OperandInfo)
    (i : TensorInfo) (current_cpu_scalars_on_non_cpu : Z) : result Z :=
  let max_cpu_scalars_on_non_cpu := if allow_cpu_scalars_ config then 1 else 0 in
  if negb (check_all_same_device_ config) then Ok current_cpu_scalars_on_non_cpu
  else if negb (is_cpu common_device) && allow_cpu_scalars_ config && negb (is_output op)
          && bool_decide (info_sizes i = []) && is_cpu (info_device i) then
    _ ← TORCH_CHECK (current_cpu_scalars_on_non_cpu <? max_cpu_scalars_on_non_cpu)
          "Trying to pass too many CPU scalars to non-CPU kernel!";
    Ok (current_cpu_scalars_on_non_cpu + 1)
  else
    _ ← TORCH_CHECK (bool_decide (op_device op = Some common_device))
          "Expected all tensors to be on the same device, but ";
    Ok current_cpu_scalars_on_non_cpu.

Definition check_safe_cast (config : TensorIteratorConfig) (common_dtype : ScalarType) (op : OperandInfo)
    : result unit :=
  if enforce_safe_casting_to_output_ config && is_output op && negb (bool_decide (current_dtype op = common_dtype))
  then TORCH_CHECK (canCast common_dtype (current_dtype op)) "result type "
  else Ok tt.

(** The temporaries, on the CPU. *)
Definition make_temporary (config : TensorIteratorConfig) (is_meta : bool) (common_dtype : ScalarType)
    (t : tensor_ref) (op : OperandInfo) : method Store OperandInfo :=
  let differs := negb (bool_decide (current_dtype op = common_dtype)) in
  if cast_common_dtype_to_outputs_ config && is_output op && differs && negb is_meta then
    tmp ← empty_like t common_dtype (Some Contiguous);
    mret (set_dtypes common_dtype common_dtype (exchange_tensor tmp op))
  else if promote_inputs_to_common_dtype_ config && negb (is_output op) && differs then
    tmp ← tensor_to t common_dtype;
    mret (set_dtypes common_dtype common_dtype (exchange_tensor tmp op))
  else mret op.

Definition convert_operand (config : TensorIteratorConfig) (is_meta : bool) (common_device : Device)
    (common_dtype : ScalarType) (op : OperandInfo) (current_cpu_scalars_on_non_cpu : Z)
    : method Store (OperandInfo * Z) :=
  let type_defined := is_type_defined op in
  let device_defined := is_device_defined op in
  let op := if type_defined then op else set_dtypes common_dtype (current_dtype op) op in
  let op := if device_defined then op else set_device (Some common_device) op in
  if negb type_defined && negb device_defined then mret (op, current_cpu_scalars_on_non_cpu)
  else
    match tensor_base op with
    | None => mret (op, current_cpu_scalars_on_non_cpu)
    | Some t =>
        i ← inspect (tensor_info t);
        n ← lift (check_operand_device config common_device op i current_cpu_scalars_on_non_cpu);
        _ ← lift (check_safe_cast config common_dtype op);
        op ← if bool_decide (common_device = kCPU) then make_temporary config is_meta common_dtype t op else mret op;
        mret (op, n)
    end.

Definition compute_types (config : TensorIteratorConfig) (it : TensorIteratorBase)
    : method Store TensorIteratorBase :=
  '(ops, r) ← each_operand (λ op r, inspect (λ s, review_operand config s op r)) (operands_ it) initial_review;
  let it := set_operands ops it in
  _ ← lift (check_computable config r);
  _ ← lift (check_same_dtype config ops r);
  if types_done config r then
    mret (set_common (if rv_different_inputs r then Undefined else rv_common r) (common_device_ it) it)
  else
    common_dtype ← inspect (choose_common_dtype config it r);
    '(ops, _) ← each_operand (convert_operand config (is_meta_ it) (rv_device r) common_dtype) ops 0;
    mret (set_common common_dtype (rv_device r) (set_operands ops it)).

(** ** Outputs. *)
(** [TensorIterator::set_output_raw_strided]. *)
Definition set_output_raw_strided (sizes strides : list Z) (options : TensorOptions) (op : OperandInfo)
    : method Store OperandInfo :=
  match tensor_base op with
  | None =>
      t ← if bool_decide (strides = []) then at_empty sizes options else at_empty_strided sizes strides options;
      mret (set_dtypes (target_dtype op) (target_dtype op) (set_tensor (Some t) (original_tensor_base op) op))
  | Some t =>
      if will_resize op then
        _ ← resize_output t sizes;
        if negb (bool_decide (strides = [])) then
          _ ← lift (TORCH_INTERNAL_ASSERT (bool_decide (opt_memory_format options = None)) "");
          _ ← at_as_strided_ t sizes strides;
          mret op
        else
          match opt_memory_format options with
          | Some memory_format => _ ← on_impl t (empty_tensor_restride memory_format); mret op
          | None => mret op
          end
      else mret op
  end.

(** The strides in elements of an output that is allocated in the order of
    [perm_]. *)
Definition output_strides (it : TensorIteratorBase) (element_size : Z) : result (list Z) :=
  tensor_stride ← invert_perm (compatible_stride element_size it) it;
  Ok (map (λ st, st / element_size) tensor_stride).

Definition is_inverted (it : TensorIteratorBase) : bool :=
  forallb (λ j, nth j (perm_ it) 0%nat =? ndim it - j - 1)%nat (seq 0 (ndim it)).

Definition allocate_or_resize_output (it : TensorIteratorBase) (op : OperandInfo) : method Store OperandInfo :=
  if negb (defined_tensor op) || will_resize op then
    _ ← lift (TORCH_INTERNAL_ASSERT (is_type_defined op) "no type for operand");
    element_size ← lift (elementSize (target_dtype op));
    let op := set_stride_bytes (compatible_stride element_size it) op in
    tensor_shape ← lift (invert_perm (shape_ it) it);
    options ← inspect (original_options op);
    tensor_stride ← if is_inverted it then mret [] else lift (output_strides it element_size);
    op ← set_output_raw_strided tensor_shape tensor_stride options op;
    mret (set_dtypes (target_dtype op) (target_dtype op) op)
  else
    match tensor_base op with
    | Some t =>
        i ← inspect (tensor_info t);
        options ← inspect (original_options op);
        set_output_raw_strided (info_sizes i) [] options op
    | None => mret op
    end.
Definition allocate_or_resize_outputs (it : TensorIteratorBase) : method Store TensorIteratorBase :=
  on_outputs (allocate_or_resize_output it) it.

(** ** Fast set-up. *)
Inductive FastSetupType : Type := NONE | CONTIGUOUS | CHANNELS_LAST | NON_OVERLAPPING_DENSE.

(** The tensors of the operands that are defined and not resized. *)
Definition kept_tensors (s : Store) (ops : list OperandInfo) : list TensorInfo :=
  omap (λ op, if will_resize op then None else tensor_base op ≫= (λ id, tensors s !! id)) ops.
Definition all_contiguous (mf : MemoryFormat) (l : list TensorInfo) : bool :=
  forallb (λ i, is_contiguous_default_impl mf (info_impl i)) l.

(** The strides of each tensor are compared to those of the last one. *)
Definition all_same_strides (l : list TensorInfo) : bool :=
  match rev l with
  | [] => true
  | prev :: rest => forallb (λ i, bool_decide (info_strides prev = info_strides i)) rest
  end.

Definition compute_fast_setup_type (it : TensorIteratorBase) (s : Store) : FastSetupType :=
  let kept := kept_tensors s (operands_ it) in
  if is_reduction_ it || negb (all_ops_same_shape_ it) then NONE
  else if enforce_linear_iteration_ it then if all_contiguous Contiguous kept then CONTIGUOUS else NONE
  else if all_contiguous Contiguous kept then CONTIGUOUS
  else if all_contiguous ChannelsLast kept then CHANNELS_LAST
  else if forallb (λ i, is_non_overlapping_and_dense_ (info_impl i)) kept
  then if all_same_strides kept then NON_OVERLAPPING_DENSE else NONE
  else NONE.

(** The strides of the last operand that is defined. *)
Definition last_defined_strides (it : TensorIteratorBase) (s : Store) : result (list Z) :=
  match rev (omap tensor_base (operands_ it)) with
  | [] => Throw (Error "Can not find a defined tensor when fast allocating memory to outputs")
  | id :: _ => i ← tensor_info id s; Ok (info_strides i)
  end.

Definition fast_output (sizes strides : list Z) (memory_format : option MemoryFormat) (op : OperandInfo)
    : method Store OperandInfo :=
  _ ← lift (TORCH_INTERNAL_ASSERT (defined_tensor op || is_type_defined op) "no type for operand");
  options ← inspect (original_options op);
  set_output_raw_strided sizes strides
    (match memory_format with Some mf => with_memory_format (Some mf) options | None => options end) op.

Definition fast_stride_bytes (ndim : nat) (op : OperandInfo) : method Store OperandInfo :=
  match tensor_base op with
  | None => lift (Throw (UndefinedBehaviour "the element size of an undefined tensor"))
  | Some id =>
      i ← inspect (tensor_info id);
      let strides := resize ndim 0 (stride_bytes op) in
      mret (set_stride_bytes (if (0 <? ndim)%nat then <[0%nat := info_itemsize i]> strides else strides) op)
  end.

Definition fast_set_up (it : TensorIteratorBase) : method Store (bool * TensorIteratorBase) :=
  setup_type ← reads (compute_fast_setup_type it);
  if match setup_type with NONE => true | _ => false end then mret (false, it)
  else
    it ← match setup_type with
         | CONTIGUOUS => on_outputs (fast_output (shape_ it) [] (Some Contiguous)) it
         | CHANNELS_LAST => on_outputs (fast_output (shape_ it) [] (Some ChannelsLast)) it
         | NON_OVERLAPPING_DENSE =>
             strides ← inspect (last_defined_strides it);
             on_outputs (fast_output (shape_ it) strides None) it
         | NONE => lift (TORCH_INTERNAL_ASSERT false "Unsupported fast setup type") ≫= λ _, mret it
         end;
    let it := set_has_coalesced ((1 <? ndim it)%nat || has_coalesced_dimensions_ it) it in
    let it := if (1 <=? ndim it)%nat then set_shape (resize 1 0 (<[0%nat := numel it]> (shape_ it))) it else it in
    ops ← map_operands (fast_stride_bytes (ndim it)) (operands_ it);
    mret (true, set_operands ops it).

(** ** [build]. *)
(** Devices whose tensors have no data pointer. *)
Definition without_data (it : TensorIteratorBase) (s : Store) : bool :=
  let has_storage := forallb (λ op, match tensor_base op ≫= (λ id, tensors s !! id) with
                                    | Some i => bool_decide (info_storage i ≠ None)
                                    | None => false
                                    end) (operands_ it) in
  let type := device_type (common_device_ it) in
  (bool_decide (type = PrivateUse1) && negb has_storage)
  || bool_decide (type = XLA) || bool_decide (type = IPU) || bool_decide (type = Lazy)
  || bool_decide (type = MAIA) || bool_decide (type = HPU).

Definition set_data (op : OperandInfo) : method Store OperandInfo :=
  match tensor_base op with
  | None => lift (Throw (InternalAssert ""))
  | Some id => p ← inspect (tensor_data id); mret (set_op_data p op)
  end.

Definition build_normal (config : TensorIteratorConfig) (it : TensorIteratorBase)
    : method Store TensorIteratorBase :=
  it ← compute_strides config it;
  it ← lift (reorder_dimensions it);
  it ← allocate_or_resize_outputs it;
  mret (if is_meta_ it then it else coalesce_dimensions it).

(** Everything up to the set-up of the dimensions. *)
Definition prepare (config : TensorIteratorConfig) : method Store TensorIteratorBase :=
  it ← inspect (populate_operands config (initial_iterator config));
  let it := mark_outputs it in
  _ ← inspect (compute_mem_overlaps config it);
  it ← inspect (compute_shape config it);
  it ← mark_resize_outputs config it;
  compute_types config it.

Definition build (config : TensorIteratorConfig) : method Store TensorIteratorBase :=
  it ← prepare config;
  '(fast, it) ← fast_set_up it;
  it ← (if (fast : bool) then mret it else build_normal config it);
  if is_meta_ it then mret it
  else
    no_data ← reads (without_data it);
    if (no_data : bool) then mret it
    else
      ops ← map_operands set_data (operands_ it);
      mret (set_view_offsets (replicate (if (ndim it =? 0)%nat then 1 else ndim it) 0) (set_operands ops it)).

(** [cast_outputs]: the temporaries are copied to the outputs. *)
Definition cast_output (op : OperandInfo) : method Store OperandInfo :=
  match original_tensor_base op, tensor_base op with
  | Some original, Some t =>
      o ← inspect (tensor_info original);
      if is_output op && negb (bool_decide (info_dtype o = current_dtype op)) then
        i ← inspect (tensor_info t);
        _ ← (if negb (bool_decide (info_sizes o = info_sizes i)) then
               _ ← at_resize_ original (info_sizes i);
               at_as_strided_ original (info_sizes i) (info_strides i)
             else mret tt);
        _ ← at_copy_ original t;
        mret (restore_original_tensor op)
      else mret op
  | _, _ => mret op
  end.
Definition cast_outputs (it : TensorIteratorBase) : method Store TensorIteratorBase :=
  ops ← map_operands cast_output (operands_ it);
  mret (set_operands ops it).
End Build.
