(* ===== verification/IterOperands.v ===== *)
(** * The operands of an iterator that is built.

    What [prepare] of TensorIteratorBuild.v does to the operands: the broadcast
    shape, which outputs are resized, temporaries and dtypes. *)

From S2P Require Import Prelude.
From S2P Require Import Layout.
From S2P Require Import SafeNum.
From S2P Require Import TensorMeta.
From S2P Require Import Broadcast.
From S2P Require Import MemoryOverlap.
From S2P Require Import ScalarType.
From S2P Require Import TensorIterator.
From S2P Require Import TensorStore.
From S2P Require Import StoreFacts.
From S2P Require Import TensorIteratorConfig.
From S2P Require Import TensorIteratorBuild.

(** ** Loops over operands. *)
Section Loops.
Context {S A : Type}.

(** An invariant on the operands that are done, before and after. *)
Lemma each_operand_wlp (f : OperandInfo → A → method S (OperandInfo * A))
    (I : list OperandInfo → list OperandInfo → A → S → Prop) ops :
  (∀ pre op post out a s, ops = pre ++ op :: post → I pre out a s →
    wlp (f op a) (λ r s', I (pre ++ [op]) (out ++ [r.1]) r.2 s') s) →
  ∀ a s, I [] [] a s → wlp (each_operand f ops a) (λ r s', I ops r.1 r.2 s') s.
Proof.
  intros Hf. assert (∀ post pre out a s, ops = pre ++ post → I pre out a s →
    wlp (each_operand f post a) (λ r s', I ops (out ++ r.1) r.2 s') s) as H; [|intros; by apply (H ops [] [])].
  induction post as [|op post IH]; intros pre out a s E HI; cbn [each_operand].
  - apply wlp_ret. cbn. rewrite !app_nil_r in *. by subst.
  - apply wlp_bind. eapply wlp_mono; [by eapply Hf|]. intros [op' a'] s1 HI1. cbn in *.
    apply wlp_bind. eapply wlp_mono; [apply (IH (pre ++ [op]) (out ++ [op'])); [by rewrite <- app_assoc|done]|].
    intros [ops' a''] s2 H2. apply wlp_ret. cbn in *. by rewrite <- app_assoc in H2.
Qed.

Lemma map_operands_wlp (f : OperandInfo → method S OperandInfo) (I : list OperandInfo → list OperandInfo → S → Prop)
    ops :
  (∀ pre op post out s, ops = pre ++ op :: post → I pre out s →
    wlp (f op) (λ op' s', I (pre ++ [op]) (out ++ [op']) s') s) →
  ∀ s, I [] [] s → wlp (map_operands f ops) (λ ops' s', I ops ops' s') s.
Proof.
  intros Hf. assert (∀ post pre out s, ops = pre ++ post → I pre out s →
    wlp (map_operands f post) (λ ops' s', I ops (out ++ ops') s') s) as H; [|intros; by apply (H ops [] [])].
  induction post as [|op post IH]; intros pre out s E HI; cbn [map_operands].
  - apply wlp_ret. rewrite !app_nil_r in *. by subst.
  - apply wlp_bind. eapply wlp_mono; [by eapply Hf|]. intros op' s1 HI1.
    apply wlp_bind. eapply wlp_mono; [apply (IH (pre ++ [op]) (out ++ [op'])); [by rewrite <- app_assoc|done]|].
    intros ops' s2 H2. apply wlp_ret. cbn beta in *. by rewrite <- app_assoc in H2.
Qed.

(** Code that does not change the state. *)
Lemma map_operands_pure (f : OperandInfo → method S OperandInfo) (R : OperandInfo → OperandInfo → Prop) ops s :
  (∀ op, op ∈ ops → wlp (f op) (λ op' s', s' = s ∧ R op op') s) →
  wlp (map_operands f ops) (λ ops' s', s' = s ∧ Forall2 R ops ops') s.
Proof.
  intros Hf. apply (map_operands_wlp f (λ pre out s', s' = s ∧ Forall2 R pre out)); [|by split].
  intros pre op post out s1 -> [-> Ho]. eapply wlp_mono; [apply Hf; set_solver|].
  intros op' s2 [-> HR]. split; [done|]. apply Forall2_app; [done|by repeat constructor].
Qed.
End Loops.

(** ** The broadcast shape. *)
(** [shape] is the least shape that all of [shapes] can be expanded to. *)
Definition broadcast_of (shapes : list (list Z)) (shape : list Z) : Prop :=
  Forall (λ a, expandable a shape) shapes ∧ ∀ c, Forall (λ a, expandable a c) shapes → expandable shape c.

Lemma expandable_nil c : expandable [] c.
Proof. by unfold expandable. Qed.
Lemma expandable_refl a : expandable a a.
Proof. apply expandable_rev_refl. Qed.

Lemma expandable_trans a b c : expandable a b → expandable b c → expandable a c.
Proof. apply expandable_rev_trans. Qed.

Record shape_ok (shapes : list (list Z)) (st : ShapeState) : Prop := {
  shape_broadcast : broadcast_of shapes (sh_shape st);
  shape_scalars : [] ∈ shapes → sh_scalars st = true;
  shape_tensors : sh_shape st ≠ [] → sh_tensors st = true;
  shape_no_tensors : sh_tensors st = false → Forall (λ a, a = []) shapes;
  shape_same : sh_same st = true → Forall (λ a, a = sh_shape st) shapes }.

Lemma broadcast_of_snoc shapes shape a r : broadcast_of shapes shape → expandable shape r → expandable a r →
  (∀ c, expandable shape c → expandable a c → expandable r c) → broadcast_of (shapes ++ [a]) r.
Proof.
  intros [H1 H2] Hsr Har Hl. split.
  - apply Forall_app. split; [|by constructor]. eapply Forall_impl; [exact H1|]. cbn beta. intros b Hb. by apply (expandable_trans b shape).
  - intros c [Hc [Ha _]%Forall_cons]%Forall_app. by apply Hl; [apply H2|].
Qed.

Lemma shape_step_ok shapes st a st' : shape_ok shapes st → shape_step a st = Ok st' → shape_ok (shapes ++ [a]) st'.
Proof.
  intros [Hb Hsc Ht Hnt Hs]. unfold shape_step.
  assert (∀ b1 b2, (if (sh_scalars st || b1) && (sh_tensors st || b2) then false else sh_same st) = true →
    sh_same st = true ∧ ¬ ((sh_scalars st || b1) = true ∧ (sh_tensors st || b2) = true)) as Hsame.
  { intros b1 b2. destruct (sh_scalars st || b1), (sh_tensors st || b2); naive_solver. }
  assert (Forall (λ b, b = []) shapes → a = [] → Forall (λ b, b = []) (shapes ++ [a])) as Hnil
    by (intros; apply Forall_app; split; [done|by constructor]).
  case_bool_decide as E0; [|case_bool_decide as E1; cbn [negb]].
  - intros [= <-]. destruct Hb as [Hb1 Hb2]. split; cbn.
    + apply (broadcast_of_snoc shapes []);
        [rewrite <- E0; by split|apply expandable_nil|apply expandable_refl|done].
    + intros [Hin|Hin]%elem_of_app; [by rewrite Hsc|]. apply list_elem_of_singleton in Hin as <-.
      by rewrite bool_decide_true, orb_true_r.
    + intros Hne. by rewrite bool_decide_true, orb_true_r.
    + intros [? Ha%bool_decide_eq_false]%orb_false_iff. apply Hnil; [auto|]. destruct a; [done|]. by destruct Ha.
    + intros [Hsm Hno]%Hsame. specialize (Hs Hsm). rewrite E0 in Hs. apply Forall_app. split; [|by constructor].
      destruct shapes as [|b shapes]; [done|]. apply Forall_cons in Hs as [-> Hs'].
      assert (sh_scalars st = true) as E by (apply Hsc; by left). rewrite E in Hno. cbn in Hno.
      assert (a = []) as ->; [|by constructor]. destruct (decide (a = [])) as [|Ha]; [done|].
      destruct Hno. split; [done|]. by rewrite (bool_decide_true (a ≠ [])), orb_true_r.
  - subst a. intros [= <-]. split; cbn.
    + apply (broadcast_of_snoc shapes (sh_shape st)); [done|apply expandable_refl..|done].
    + intros [Hin|Hin]%elem_of_app; [by rewrite Hsc|]. apply list_elem_of_singleton in Hin. congruence.
    + intros _. by rewrite Ht.
    + rewrite Ht by done. done.
    + intros [Hsm _]%Hsame. apply Forall_app. split; [by apply Hs|by constructor].
  - intros (r & Hr & [= <-])%bind_Ok. pose proof (infer_size_lub (sh_shape st) a) as Hl. rewrite Hr in Hl.
    destruct Hl as (H1 & H2 & H3). split; cbn; try done.
    + by apply (broadcast_of_snoc shapes (sh_shape st)).
    + intros [Hin|Hin]%elem_of_app; [by rewrite Hsc|]. apply list_elem_of_singleton in Hin as <-.
      by rewrite bool_decide_true, orb_true_r.
    + intros _. by rewrite Ht.
    + rewrite Ht by done. done.
Qed.

(** The sizes of the operands that determine the shape. *)
Definition takes_part (config : TensorIteratorConfig) (op : OperandInfo) : bool :=
  negb (resize_outputs_ config && is_output op).
Definition part_sizes (config : TensorIteratorConfig) (s : Store) (ops : list OperandInfo) : list (list Z) :=
  omap (λ op, if takes_part config op then info_sizes <$> (tensor_base op ≫= λ id, tensors s !! id) else None) ops.

Lemma shape_loop_ok config s ops : ∀ shapes st st', shape_ok shapes st → shape_loop config s ops st = Ok st' →
  shape_ok (shapes ++ part_sizes config s ops) st'.
Proof.
  induction ops as [|op ops IH]; intros shapes st st' Hst; cbn [shape_loop part_sizes omap list_omap].
  { intros [= <-]. by rewrite app_nil_r. }
  unfold takes_part. destruct (tensor_base op) as [id|]; cbn.
  2: { destruct (negb _); apply IH; done. }
  destruct (_ && _); cbn [negb]; [by apply IH|].
  intros (i & Hi & H)%bind_Ok. apply tensor_info_Ok in Hi. rewrite Hi. cbn.
  apply bind_Ok in H as (st1 & H1 & H). apply shape_step_ok with (shapes := shapes) in H1; [|done].
  rewrite cons_middle, app_assoc. by apply (IH _ st1).
Qed.

Lemma compute_shape_ok config it s it' : static_shape_ config = None → shape_ it = [] →
  compute_shape config it s = Ok it' →
  it' = set_shape_flags (shape_ it') (all_ops_same_shape_ it') (all_ops_are_scalars_ it') it ∧
  broadcast_of (part_sizes config s (operands_ it)) (shape_ it') ∧
  (all_ops_same_shape_ it' = true → Forall (λ a, a = shape_ it') (part_sizes config s (operands_ it))) ∧
  (all_ops_are_scalars_ it' = true → Forall (λ a, a = []) (part_sizes config s (operands_ it))).
Proof.
  intros Hst Hsh. unfold compute_shape. rewrite Hst, Hsh. intros (st & Hl & [= <-])%bind_Ok. cbn.
  apply (shape_loop_ok config s (operands_ it) []) in Hl as [Hb _ _ Hn Hs].
  - split_and!; try done. intros E%negb_true_iff. by apply Hn.
  - split; cbn; try done. by intros ?%not_elem_of_nil.
Qed.

(** ** Dtypes. *)
(** Dtypes of tensors that are not quantized, or no dtype. *)
Definition plain_or_undefined (t : ScalarType) : bool :=
  st_eqb t Undefined || ((0 <? dtype_itemsize t) && negb (isQIntType t)).

Lemma plain_or_undefined_iff t : plain_or_undefined t = true ↔ t = Undefined ∨ plain_dtype t.
Proof.
  unfold plain_or_undefined, plain_dtype. rewrite orb_true_iff, st_eqb_eq, andb_true_iff, Z.ltb_lt, negb_true_iff. done.
Qed.

Lemma promote_plain a b c : plain_or_undefined a = true → plain_or_undefined b = true →
  promoteTypes a b = Ok c → plain_or_undefined c = true.
Proof.
  pose proof (all_types_check2 (λ a b, implb (plain_or_undefined a && plain_or_undefined b)
    match promoteTypes a b with Ok c => plain_or_undefined c | Throw _ => true end)) as H.
  specialize (H ltac:(vm_compute; reflexivity) a b). cbn beta in H. intros Ha Hb Hc. by rewrite Ha, Hb, Hc in H.
Qed.

Lemma promote_skip_plain a b c : plain_or_undefined a = true → plain_or_undefined b = true →
  promote_skip_undefined a b = Ok c → plain_or_undefined c = true.
Proof.
  unfold promote_skip_undefined. intros Ha Hb. destruct (st_eqb a Undefined); [by intros [= <-]|].
  destruct (st_eqb b Undefined); [by intros [= <-]|]. by apply promote_plain.
Qed.

Lemma toComplex_plain a c : toComplexType a = Ok c → plain_or_undefined c = true.
Proof.
  pose proof (all_types_check (λ a, match toComplexType a with Ok c => plain_or_undefined c | Throw _ => true end)) as H.
  specialize (H ltac:(vm_compute; reflexivity) a). cbn beta in H. intros Hc. by rewrite Hc in H.
Qed.

Lemma combine_plain a b c : plain_or_undefined a = true → plain_or_undefined b = true →
  combine_categories a b = Ok c → plain_or_undefined c = true.
Proof.
  intros Ha Hb. unfold combine_categories. repeat case_match; try (by intros [= <-]).
  - apply toComplex_plain.
  - by apply promote_skip_plain.
Qed.

Section Defaults.
Context (dflt : default_dtypes).

(** The default dtypes are those of plain tensors. *)
Definition plain_defaults : Prop :=
  plain_dtype (default_dtype dflt) ∧ plain_dtype (default_complex_dtype dflt).
Context (Hdflt : plain_defaults).

Lemma number_plain t : plain_or_undefined t = true → plain_or_undefined (number_dtype dflt t) = true.
Proof.
  destruct Hdflt. intros Ht. unfold number_dtype. repeat case_match; [..|done]; apply plain_or_undefined_iff; by right.
Qed.

Definition plain_state (st : ResultTypeState) : Prop :=
  plain_or_undefined (dimResult st) = true ∧ plain_or_undefined (wrappedResult st) = true ∧
  plain_or_undefined (zeroResult st) = true.

Lemma result_type_plain ts t : Forall (λ o, plain_or_undefined (scalar_type o) = true) ts →
  result_type dflt ts = Ok t → plain_or_undefined t = true.
Proof.
  intros Hts. unfold result_type. intros (st & Hl & H)%bind_Ok.
  assert (∀ st0 st, plain_state st0 → result_type_loop dflt ts st0 = Ok st → plain_state st) as Hloop.
  { clear st Hl H. induction Hts as [|o ts Ho _ IH]; intros st0 st Hst0; cbn; [by intros [= <-]|].
    intros (st1 & H1 & H)%bind_Ok. apply (IH st1 st); [|done]. clear IH H. revert H1. unfold update_result_type_state.
    destruct Hst0 as (Hd & Hw & Hz). destruct (negb (defined o)); [by intros [= <-]|].
    set (cur := if is_wrapped_number o then _ else _). assert (plain_or_undefined cur = true) as Hcur
      by (unfold cur; destruct (is_wrapped_number o); [by apply number_plain|done]).
    destruct (dim o >? 0); [|destruct (is_wrapped_number o)]; intros (x & Hx & [= <-])%bind_Ok;
      (split_and!; try done; cbn; eapply promote_skip_plain; [| |exact Hx]; done). }
  apply Hloop in Hl as (Hd & Hw & Hz); [|done]. unfold result_type_state in H. apply bind_Ok in H as (lower & H1 & H2).
  apply (combine_plain _ _ _ Hd) in H2; [done|]. by apply (combine_plain _ _ _ Hz) in H1.
Qed.
End Defaults.

(** ** Populating and marking. *)
(** What the construction of an operand records of its tensor. *)
Definition typed (s : Store) (op : OperandInfo) : Prop :=
  match tensor_base op with
  | None => target_dtype op = Undefined ∧ op_device op = None
  | Some id => ∃ i, tensors s !! id = Some i ∧ info_layout i = Strided ∧ target_dtype op = info_dtype i ∧
      current_dtype op = info_dtype i ∧ op_device op = Some (info_device i)
  end.

Record opened (s : Store) (t : option tensor_ref) (op : OperandInfo) : Prop := {
  op_tensor : tensor_base op = t;
  op_original : original_tensor_base op = None;
  op_no_strides : stride_bytes op = [];
  op_typed : typed s op }.

Lemma make_operand_opened t s op : make_operand t s = Ok op → opened s t op ∧ is_output op = false ∧
  will_resize op = false ∧ is_read_write op = false.
Proof.
  unfold make_operand. destruct t as [id|]; [|by intros [= <-]].
  intros (i & Hi & (u & Hu & [= <-])%bind_Ok)%bind_Ok. apply tensor_info_Ok in Hi.
  apply TORCH_CHECK_Ok, bool_decide_eq_true in Hu. split; [|done]. split; try done. exists i. by split_and!.
Qed.

Definition fresh_operand (s : Store) (t : option tensor_ref) (op : OperandInfo) : Prop :=
  opened s t op ∧ is_output op = false ∧ will_resize op = false ∧ is_read_write op = false.

Lemma populate_opened config s ts : ∀ idx ops, populate_loop config s idx ts = Ok ops →
  Forall2 (fresh_operand s) ts ops.
Proof.
  induction ts as [|t ts IH]; intros idx ops; cbn [populate_loop]; [intros [= <-]; constructor|].
  intros (op & Hop & (rest & Hr & [= <-])%bind_Ok)%bind_Ok. constructor; [|by eapply IH].
  apply make_operand_opened in Hop as ([] & ? & ? & ?). by split.
Qed.

(** An output and an input, after the marks; [ins] are the input tensors. *)
Record marked_output (s : Store) (config : TensorIteratorConfig) (ins : list (option tensor_ref)) (shape : list Z)
    (t : option tensor_ref) (op : OperandInfo) : Prop := {
  out_opened : opened s t op;
  out_output : is_output op = true;
  out_resized : will_resize op = true → ∀ id i, t = Some id → tensors s !! id = Some i →
    t ∉ ins ∧ info_sizes i ≠ shape;
  out_kept : will_resize op = false → ∃ id i, t = Some id ∧ tensors s !! id = Some i ∧
    (info_sizes i = shape ∨
     reduction_ config = true ∧ (resize_outputs_ config = true → t ∈ ins)) }.
Definition marked_input (s : Store) (t : option tensor_ref) (op : OperandInfo) : Prop :=
  opened s t op ∧ is_output op = false ∧ will_resize op = false.

Definition mentions_input (inputs : list OperandInfo) (op : OperandInfo) : Prop :=
  is_read_write op = true ↔ tensor_base op ≠ None ∧ tensor_base op ∈ map tensor_base inputs.

Lemma mark_output_spec inputs op s t : fresh_operand s t op →
  opened s t (mark_output inputs op) ∧ is_output (mark_output inputs op) = true ∧
  will_resize (mark_output inputs op) = false ∧ mentions_input inputs (mark_output inputs op).
Proof.
  intros ([H1 H2 H3 H4] & _ & Hw & Hrw). split; [by split|]. split; [done|]. split; [done|].
  unfold mentions_input, mark_output. cbn. rewrite Hrw. cbn.
  rewrite andb_true_iff, existsb_exists. unfold defined_tensor. rewrite bool_decide_eq_true.
  split; intros [Hd Hin]; (split; [done|]).
  - destruct Hin as (x & Hx & Ex%bool_decide_eq_true). rewrite list_elem_of_fmap. exists x.
    split; [done|]. by apply list_elem_of_In.
  - apply list_elem_of_fmap in Hin as (x & Ex & Hx). exists x. split; [by apply list_elem_of_In|].
    by apply bool_decide_eq_true.
Qed.

Lemma mark_resize_output_spec config it s t op op' ins inputs : opened s t op → is_output op = true →
  will_resize op = false → mentions_input inputs op → map tensor_base inputs = ins → is_reduction_ it = reduction_ config →
  mark_resize_output config it s op = Ok op' → marked_output s config ins (shape_ it) t op'.
Proof.
  intros Hop Ho Hw Hm Hins Hred. pose proof Hop as [Ht H2 H3 H4]. unfold mark_resize_output. rewrite Ht.
  destruct t as [id|].
  2: { intros [= <-]. split; try done. }
  intros (i & Hi & H)%bind_Ok. apply tensor_info_Ok in Hi. revert H. case_bool_decide as Hsz; cbn [negb].
  { intros [= <-]. split; try done; [by rewrite Hw|]. intros _. exists id, i. split_and!; auto. }
  unfold mentions_input in Hm. rewrite Ht, Hins in Hm.
  destruct (resize_outputs_ config && negb (is_read_write op)) eqn:E.
  - intros [= <-]. split; try done. cbn. intros _ id' i' [= <-] Hi'. simplify_eq.
    apply andb_true_iff in E as [_ E%negb_true_iff]. split; [|done]. intros Hin.
    rewrite (proj2 Hm) in E; [done|]. by split.
  - intros (u & Hu & [= <-])%bind_Ok. apply TORCH_CHECK_Ok in Hu. split; try done; [by rewrite Hw|].
    intros _. exists id, i. split_and!; try done. right. split; [congruence|]. intros Hr. rewrite Hr in E.
    cbn in E. apply negb_false_iff in E. by apply Hm.
Qed.

(** The fields that only the steps after [compute_types] set. *)
Record unset (s : Store) (config : TensorIteratorConfig) (it : TensorIteratorBase) : Prop := {
  unset_perm : perm_ it = [];
  unset_coalesced : has_coalesced_dimensions_ it = false;
  unset_outputs : num_outputs_ it = config_outputs_ config;
  unset_reduction : is_reduction_ it = reduction_ config;
  unset_device : common_device_ it = kCPU;
  unset_meta : is_meta_ it = existsb (λ t, tensor_is_meta t s) (tensors_ config) }.

Definition output_tensors (config : TensorIteratorConfig) : list (option tensor_ref) :=
  take (config_outputs_ config) (tensors_ config).
Definition input_tensors (config : TensorIteratorConfig) : list (option tensor_ref) :=
  drop (config_outputs_ config) (tensors_ config).

Record marked (s : Store) (config : TensorIteratorConfig) (it : TensorIteratorBase) : Prop := {
  marked_unset : unset s config it;
  marked_outputs : Forall2 (marked_output s config (input_tensors config) (shape_ it)) (output_tensors config)
    (take (num_outputs_ it) (operands_ it));
  marked_inputs : Forall2 (marked_input s) (input_tensors config) (drop (num_outputs_ it) (operands_ it));
  marked_shape : broadcast_of (part_sizes config s (operands_ it)) (shape_ it);
  marked_same : all_ops_same_shape_ it = true →
    Forall (λ a, a = shape_ it) (part_sizes config s (operands_ it));
  marked_scalars : all_ops_are_scalars_ it = true → Forall (λ a, a = []) (part_sizes config s (operands_ it)) }.

Lemma part_sizes_ext config s ops ops' :
  Forall2 (λ op op', is_output op' = is_output op ∧ tensor_base op' = tensor_base op) ops ops' →
  part_sizes config s ops' = part_sizes config s ops.
Proof.
  intros H. symmetry. apply list_omap_ext. eapply Forall2_impl; [exact H|]. intros op op' [E1 E2].
  unfold takes_part. by rewrite E1, E2.
Qed.

Lemma take_drop_set {A} n (l l' : list A) : length l' = n → take n (l' ++ l) = l' ∧ drop n (l' ++ l) = l.
Proof. intros <-. by rewrite take_app_length, drop_app_length. Qed.

(** The operands of a configuration, with the outputs first. *)
Definition outputs_exist (config : TensorIteratorConfig) : Prop :=
  (config_outputs_ config <= length (tensors_ config))%nat.

Lemma mark_outputs_spec config s it0 it : outputs_exist config →
  populate_operands config it0 s = Ok it → it0 = initial_iterator config →
  let it1 := mark_outputs it in
  unset s config it1 ∧ shape_ it1 = [] ∧
  Forall2 (λ t op, opened s t op ∧ is_output op = true ∧ will_resize op = false ∧
    mentions_input (drop (num_outputs_ it1) (operands_ it1)) op) (output_tensors config)
    (take (num_outputs_ it1) (operands_ it1)) ∧
  Forall2 (marked_input s) (input_tensors config) (drop (num_outputs_ it1) (operands_ it1)) ∧
  map tensor_base (drop (num_outputs_ it1) (operands_ it1)) = input_tensors config.
Proof.
  intros Hlen. unfold populate_operands. intros (ops & Hops & [= <-])%bind_Ok ->. cbn.
  apply populate_opened in Hops. set (n := config_outputs_ config).
  assert (length (map (mark_output (drop n ops)) (take n ops)) = n) as Hl.
  { rewrite length_map, length_take. apply Forall2_length in Hops. unfold outputs_exist in Hlen. unfold n. lia. }
  destruct (take_drop_set n (drop n ops) _ Hl) as [-> ->].
  pose proof (Forall2_drop _ _ _ n Hops) as Hd. pose proof (Forall2_take _ _ _ n Hops) as Ht.
  split; [by split|]. split; [done|]. split.
  { apply Forall2_fmap_r. eapply Forall2_impl; [exact Ht|]. intros t op Hf. by apply mark_output_spec. }
  split.
  { eapply Forall2_impl; [exact Hd|]. by intros t op (? & ? & ? & _). }
  unfold input_tensors. fold n. clear -Hd. induction Hd as [|t op ts ops' (Ho & _) _ IH]; [done|].
  cbn. f_equal; [by apply Ho|done].
Qed.

(** The steps of [prepare] before [compute_types]. *)
Lemma marks_spec config s it it1 : static_shape_ config = None → outputs_exist config →
  populate_operands config (initial_iterator config) s = Ok it →
  compute_shape config (mark_outputs it) s = Ok it1 →
  wlp (mark_resize_outputs config it1) (λ it2 s', s' = s ∧ marked s config it2) s.
Proof.
  intros Hst Hlen Hp Hs.
  destruct (mark_outputs_spec config s _ _ Hlen Hp eq_refl) as ([U1 U2 U3 U4 U5 U6] & Hsh & Ho & Hi & Hins).
  apply compute_shape_ok in Hs as (E & Hb & Hsame & Hscal); [|done..]. unfold mark_resize_outputs, on_outputs. rewrite Hst.
  set (it0 := mark_outputs it) in *.
  assert (unset s config it1) as Hun by (split; rewrite E; done). pose proof Hun as [_ _ _ Hred _ _].
  assert (operands_ it1 = operands_ it0) as Eo by (rewrite E; done).
  assert (num_outputs_ it1 = num_outputs_ it0) as En by (rewrite E; done). rewrite <- Eo, <- En in *.
  apply wlp_bind. eapply wlp_mono.
  { apply (map_operands_pure _ (λ op op', ∀ t, opened s t op ∧ is_output op = true ∧ will_resize op = false ∧
      mentions_input (drop (num_outputs_ it1) (operands_ it1)) op →
      marked_output s config (input_tensors config) (shape_ it1) t op' ∧ tensor_base op' = tensor_base op ∧
      is_output op' = is_output op)).
    intros op _. repeat wlp_step. split; [done|]. intros t (H1 & H2 & H3 & H4).
    assert (marked_output s config (input_tensors config) (shape_ it1) t a) as Hm by (by eapply mark_resize_output_spec).
    split; [done|]. destruct Hm as [[Ht _ _ _] Hout _ _]. destruct H1 as [Ht' _ _ _]. split; congruence. }
  intros oops s' [-> HR]. repeat wlp_step. split; [done|].
  assert (Forall2 (λ t op', marked_output s config (input_tensors config) (shape_ it1) t op') (output_tensors config) oops ∧
    Forall2 (λ op op', is_output op' = is_output op ∧ tensor_base op' = tensor_base op)
      (take (num_outputs_ it1) (operands_ it1)) oops) as [Hm He].
  { clear -HR Ho. revert oops HR. induction Ho as [|t op ts ops Hop _ IH]; intros oops HR; inversion HR as [|? op' ? rest H1 H2]; subst.
    - split; constructor.
    - destruct (H1 t Hop) as (? & ? & ?). destruct (IH _ H2). split; by constructor. }
  assert (length oops = num_outputs_ it1) as Hl.
  { rewrite <- (Forall2_length _ _ _ He), length_take. unfold outputs_exist in Hlen.
    pose proof (Forall2_length _ _ _ Ho) as Hl1. rewrite length_take in Hl1. unfold output_tensors in Hl1.
    rewrite length_take in Hl1. cbn in *. lia. }
  destruct (take_drop_set (num_outputs_ it1) (drop (num_outputs_ it1) (operands_ it1)) _ Hl) as [Et Ed].
  assert (part_sizes config s (oops ++ drop (num_outputs_ it1) (operands_ it1)) = part_sizes config s (operands_ it1)) as Ep.
  { rewrite <- (take_drop (num_outputs_ it1) (operands_ it1)) at 2. apply part_sizes_ext.
    apply Forall2_app; [done|]. apply Forall_Forall2_diag, Forall_forall. done. }
  destruct Hun. split; cbn -[part_sizes]; [by split|by rewrite Et|by rewrite Ed|rewrite Ep; unfold part_sizes..].
  - by rewrite E in Hb |- *.
  - rewrite E in Hsame |- *. done.
  - rewrite E in Hscal |- *. done.
Qed.
