(* ===== verification/IterTypes.v ===== *)
(** * Dtypes of the operands of an iterator that is built.

    The two passes of [compute_types] of TensorIteratorBuild.v: which operands
    get a dtype, and which are replaced by temporaries. *)

From S2P Require Import Prelude.
From S2P Require Import Layout.
From S2P Require Import TensorMeta.
From S2P Require Import ScalarType.
From S2P Require Import TensorIterator.
From S2P Require Import TensorStore.
From S2P Require Import StoreFacts.
From S2P Require Import TensorIteratorConfig.
From S2P Require Import TensorIteratorBuild.
From S2P Require Import IterOperands.

(** What every step keeps of an operand. *)
Definition same_role (op op' : OperandInfo) : Prop :=
  is_output op' = is_output op ∧ will_resize op' = will_resize op ∧ is_read_write op' = is_read_write op ∧
  stride_bytes op' = stride_bytes op.

(** An operand before [compute_types]. *)
Definition unchecked (s : Store) (op : OperandInfo) : Prop :=
  original_tensor_base op = None ∧ stride_bytes op = [] ∧ typed s op.

(** ** The first pass. *)
Definition reviewed (static : option ScalarType) (op op' : OperandInfo) : Prop :=
  same_role op op' ∧ original_tensor_base op' = None ∧ tensor_base op' = tensor_base op ∧
  (is_Some (tensor_base op) → op' = op) ∧
  (tensor_base op = None → is_output op = true ∧ target_dtype op' = default Undefined static).

(** The operands are on the CPU. *)
Definition on_cpu_operand (s : Store) (op : OperandInfo) : Prop :=
  ∀ id i, tensor_base op = Some id → tensors s !! id = Some i → is_cpu (info_device i) = true.

(** What is known after the operands [ops]. *)
Record review_ok (ops : list OperandInfo) (r : TypeReview) : Prop := {
  review_cpu : rv_device r = kCPU;
  review_plain : plain_or_undefined (rv_common r) = true;
  review_typed : (∃ op, op ∈ ops ∧ is_output op = false) → rv_common r ≠ Undefined;
  review_same : rv_different_inputs r = false → ∀ op, op ∈ ops → is_output op = false →
    target_dtype op = rv_common r }.

Lemma review_ok_snoc ops op r r' : review_ok ops r → rv_device r' = kCPU →
  plain_or_undefined (rv_common r') = true →
  (rv_common r ≠ Undefined → rv_common r' = rv_common r) →
  (is_output op = true → rv_common r' = rv_common r) →
  (is_output op = false → rv_common r' ≠ Undefined ∧
    (rv_different_inputs r' = false → target_dtype op = rv_common r')) →
  (rv_different_inputs r' = false → rv_different_inputs r = false) →
  review_ok (ops ++ [op]) r'.
Proof.
  intros [H1 H2 H3 H4] Hd Hp Hk Ho Hn Hdiff. split; [done|done| |].
  - intros (o & [Hin|Hin]%elem_of_app & Hout).
    + rewrite Hk; apply H3; by exists o.
    + apply list_elem_of_singleton in Hin as ->. by apply Hn.
  - intros Hf o [Hin|Hin]%elem_of_app Hout.
    + rewrite Hk by (apply H3; by exists o). by apply H4; [apply Hdiff| |].
    + apply list_elem_of_singleton in Hin as ->. by apply Hn.
Qed.

Lemma plain_info s id i : store_ok s → tensors s !! id = Some i → plain_dtype (info_dtype i).
Proof. intros Hs Hi. by destruct (Hs id i Hi). Qed.

Lemma plain_defined t : plain_dtype t → t ≠ Undefined.
Proof. by intros [H _] ->. Qed.
Lemma plain_okt t : plain_dtype t → plain_or_undefined t = true.
Proof. intros. apply plain_or_undefined_iff. by right. Qed.
Lemma okt_plain t : plain_or_undefined t = true → t ≠ Undefined → plain_dtype t.
Proof. intros [?|?]%plain_or_undefined_iff; done. Qed.

Lemma review_operand_ok config s ops op r op' r' : store_ok s → unchecked s op → on_cpu_operand s op →
  (∀ t, static_dtype_ config = Some t → plain_dtype t) → review_ok ops r →
  review_operand config s op r = Ok (op', r') → reviewed (static_dtype_ config) op op' ∧ review_ok (ops ++ [op]) r'.
Proof.
  intros Hs (Ho & _ & Ht) Hcpu Hst Hr. pose proof Hr as [Hr1 Hr2 Hr3 Hr4].
  unfold review_operand, is_type_defined, typed, review_tensor in *.
  destruct (tensor_base op) as [id|] eqn:Et.
  - destruct Ht as (i & Hi & _ & Et1 & Et2 & _). pose proof (plain_info _ _ _ Hs Hi) as Hp.
    rewrite bool_decide_false by (rewrite Et1; by apply plain_defined). cbn [negb].
    intros (_ & _ & (i' & Hi' & [= <- <-])%bind_Ok)%bind_Ok. apply tensor_info_Ok in Hi'. simplify_eq.
    split. { unfold reviewed, same_role. rewrite Et. by split_and!. }
    pose proof (Hcpu id i Et Hi) as Hc.
    pose proof (plain_okt _ Hp) as Hok. pose proof (plain_defined _ Hp).
    unfold review_defined. rewrite Et1, Hc, andb_false_r. cbv zeta.
    destruct (is_output op) eqn:Eo; cbn [negb];
      repeat case_bool_decide; apply (review_ok_snoc _ _ r); cbn; rewrite ?Et1; try done; try congruence;
      intros; split; congruence.
  - destruct Ht as [Ht Hdev]. rewrite bool_decide_true by done. cbn [negb]. unfold review_untyped.
    intros ([o1 r1] & (u & Hu%TORCH_INTERNAL_ASSERT_Ok & H1)%bind_Ok & H2)%bind_Ok.
    assert (same_role op o1 ∧ original_tensor_base o1 = None ∧ tensor_base o1 = None ∧
      target_dtype o1 = default Undefined (static_dtype_ config) ∧ rv_device r1 = rv_device r ∧
      rv_common r1 = rv_common r ∧ rv_different_inputs r1 = rv_different_inputs r)
      as (Hrole & Horig & Hnone & Hpl & Hd & Hc & Hdf).
    { destruct (static_dtype_ config) as [t|] eqn:Est, (static_device_ config);
        try (apply bind_Ok in H1 as (? & _ & H1)); injection H1 as <- <-; cbn; split_and!; done. }
    assert (o1 = op' ∧ r1 = r') as [<- <-].
    { destruct (_ || _); [by injection H2 as <- <-|]. rewrite Hnone in H2.
      by apply bind_Ok in H2 as (? & _ & [= <- <-]). }
    split; [|apply (review_ok_snoc _ _ r); congruence]. unfold reviewed. rewrite Et.
    split_and!; try done; by intros [? [=]].
Qed.

Section Types.
Context `{LawfulOperators} (dflt : default_dtypes) (Hdflt : plain_defaults dflt).
Context (config : TensorIteratorConfig) (Hstatic : ∀ t, static_dtype_ config = Some t → plain_dtype t).

Lemma review_loop_ok s ops : store_ok s → Forall (unchecked s) ops → Forall (on_cpu_operand s) ops →
  wlp (each_operand (λ op r, inspect (λ s, review_operand config s op r)) ops initial_review)
    (λ res s', s' = s ∧ Forall2 (reviewed (static_dtype_ config)) ops res.1 ∧ review_ok ops res.2) s.
Proof.
  intros Hs Hops Hcpu. apply (each_operand_wlp _ (λ pre out r s', s' = s ∧ Forall2 (reviewed (static_dtype_ config)) pre out ∧ review_ok pre r)).
  2: { split_and!; [done|constructor|]. split; [done|done| |by intros _ op ?%not_elem_of_nil].
       by intros (op & ?%not_elem_of_nil & _). }
  intros pre op post out r s' E (-> & Hr & Hok). wlp_step. destruct a as [op' r'].
  apply (review_operand_ok config s pre op r) in E0 as [H1 H2]; try done.
  - split_and!; [done|apply Forall2_app; [done|by apply Forall2_cons]|done].
  - rewrite E in Hops. apply Forall_app in Hops as [_ [? _]%Forall_cons]. done.
  - rewrite E in Hcpu. apply Forall_app in Hcpu as [_ [? _]%Forall_cons]. done.
Qed.

(** ** The common dtype. *)
(** The dtype of the inputs, or the result type of inputs that differ, with the
    default dtype in the place of an integral one where that is asked for. *)
Definition common_of (s : Store) (ops : list OperandInfo) (t : ScalarType) : Prop :=
  ∃ t0, (result_type dflt (map (tensor_operand s) (List.filter (λ op, negb (is_output op)) ops)) = Ok t0 ∨
      ∀ op, op ∈ ops → is_output op = false → target_dtype op = t0) ∧
    t = if promote_integer_inputs_to_float_ config && isIntegralType t0 true then default_dtype dflt else t0.

Lemma choose_common_of s it r t : review_ok (operands_ it) r → promote_inputs_to_common_dtype_ config = true →
  choose_common_dtype dflt config it r s = Ok t → common_of s (operands_ it) t.
Proof.
  intros [_ _ _ Hsame] Hp. unfold choose_common_dtype. rewrite Hp, andb_true_r. intros (t0 & Ht0 & [= <-])%bind_Ok.
  exists t0. split; [|done]. destruct (rv_different_inputs r); cbn [orb] in Ht0; [|destruct (all_ops_are_scalars_ it)].
  1,2: left; unfold compute_common_dtype in Ht0; apply bind_Ok in Ht0 as (t1 & H1 & Ht0);
    apply bind_Ok in Ht0 as (u & _ & [= <-]); done.
  right. injection Ht0 as <-. by apply Hsame.
Qed.

Lemma choose_common_plain s it r t : store_ok s → review_ok (operands_ it) r →
  choose_common_dtype dflt config it r s = Ok t →
  plain_or_undefined t = true ∧ ((∃ op, op ∈ operands_ it ∧ is_output op = false) → plain_dtype t).
Proof.
  intros Hs [_ Hp Ht _]. unfold choose_common_dtype. intros (t0 & Ht0 & [= <-])%bind_Ok.
  assert (plain_or_undefined t0 = true ∧
    ((∃ op, op ∈ operands_ it ∧ is_output op = false) → plain_dtype t0)) as Hp0.
  { destruct (_ && _).
    - unfold compute_common_dtype in Ht0. apply bind_Ok in Ht0 as (t1 & H1 & Ht0).
      apply bind_Ok in Ht0 as (u & Hu%TORCH_INTERNAL_ASSERT_Ok & [= <-]).
      assert (plain_or_undefined t1 = true) as Ho.
      { eapply result_type_plain; [done| |exact H1]. apply Forall_fmap, Forall_forall. intros op _. cbn.
        unfold tensor_operand. destruct (tensor_base op ≫= _) as [i|] eqn:E; [|done]. cbn.
        apply bind_Some in E as (id & _ & Hi). by eapply plain_okt, plain_info. }
      split; [done|]. intros _. apply okt_plain; [done|]. by apply negb_true_iff, bool_decide_eq_false in Hu.
    - injection Ht0 as <-. split; [done|]. intros Hin. apply okt_plain; auto. }
  clear Ht0. destruct (_ && _); [|done]. destruct Hdflt as [Hd _]. split; [by apply plain_okt|done].
Qed.

(** ** The second pass. *)
(** The operand's tensor, or a temporary for it. *)
Definition retyped (s0 s : Store) (id0 : tensor_ref) (op : OperandInfo) : Prop :=
  ∃ i0 id i, tensors s0 !! id0 = Some i0 ∧ tensor_base op = Some id ∧ tensors s !! id = Some i ∧
    info_sizes i = info_sizes i0 ∧ target_dtype op = info_dtype i ∧ current_dtype op = info_dtype i ∧
    (id = id0 ∧ i = i0 ∧ original_tensor_base op = None ∨
     tensors s0 !! id = None ∧ original_tensor_base op = Some id0).
Definition converted (s0 s : Store) (op0 op : OperandInfo) : Prop :=
  same_role op0 op ∧
  match tensor_base op0 with
  | None => tensor_base op = None ∧ is_output op = true ∧ original_tensor_base op = None ∧
      plain_or_undefined (target_dtype op) = true
  | Some id0 => retyped s0 s id0 op
  end.

Lemma converted_mono s0 s s' op0 op : tensors s ⊆ tensors s' → converted s0 s op0 op → converted s0 s' op0 op.
Proof.
  intros Hss [Hr Hop]. split; [done|]. destruct (tensor_base op0) as [id0|]; [|done].
  destruct Hop as (i0 & id & i & H1 & H2 & H3 & Hx). exists i0, id, i. do 2 (split; [done|]).
  split; [by eapply lookup_weaken|done].
Qed.

(** The temporary of an operand. *)
Definition temporary (s0 : Store) (op : OperandInfo) : option tensor_ref :=
  id ← tensor_base op; match tensors s0 !! id with Some _ => None | None => Some id end.

Record converting (s0 : Store) (ops0 ops : list OperandInfo) (s : Store) : Prop := {
  conv_tensors : tensors s0 ⊆ tensors s;
  conv_grow : storages_grow s0 s;
  conv_ok : store_ok s;
  conv_ops : Forall2 (converted s0 s) ops0 ops;
  conv_temporaries : NoDup (omap (temporary s0) ops) }.

Lemma converting_same s0 s ops0 ops op0 op : converting s0 ops0 ops s → converted s0 s op0 op →
  temporary s0 op = None → converting s0 (ops0 ++ [op0]) (ops ++ [op]) s.
Proof.
  intros [H1 H2 H3 H4 H5] Hop Ht. split; try done.
  - apply Forall2_app; [done|by apply Forall2_cons].
  - rewrite omap_app. cbn. by rewrite Ht, app_nil_r.
Qed.

Lemma converting_new s0 s s' ops0 ops op0 op id i : converting s0 ops0 ops s → tensors s !! id = None →
  tensors s' = <[id := i]> (tensors s) → storages_grow s s' → store_ok s' → tensor_base op = Some id →
  converted s0 s' op0 op → converting s0 (ops0 ++ [op0]) (ops ++ [op]) s'.
Proof.
  intros [H1 H2 H3 H4 H5] Hn E Hg Hok Ht Hop. assert (tensors s ⊆ tensors s') as Hsub
    by (rewrite E; by apply insert_subseteq). split.
  - by etransitivity.
  - by etransitivity.
  - done.
  - apply Forall2_app; [|by apply Forall2_cons]. eapply Forall2_impl; [exact H4|].
    intros ? ?. by apply converted_mono.
  - rewrite omap_app. assert (tensors s0 !! id = None) as Hn0 by (eapply lookup_weaken_None; [exact Hn|done]).
    cbn. unfold temporary at 2. rewrite Ht. cbn. rewrite Hn0. apply NoDup_app.
    split; [done|]. split; [|apply NoDup_singleton]. intros x Hx ->%list_elem_of_singleton.
    apply list_elem_of_omap in Hx as (o & Ho & Hx). unfold temporary in Hx.
    apply bind_Some in Hx as (id' & Hid' & Hx). destruct (tensors s0 !! id') eqn:E0; [done|]. injection Hx as ->.
    apply list_elem_of_lookup_1 in Ho as [k Hk]. destruct (Forall2_lookup_r _ _ _ _ _ H4 Hk) as (o0 & _ & _ & Hc).
    destruct (tensor_base o0) as [id0|]; [|naive_solver].
    destruct Hc as (? & ? & ? & ? & E1 & E2 & _). simplify_eq.
Qed.

(** What the second pass starts from. *)
Definition convertible (s0 : Store) (op0 op : OperandInfo) : Prop :=
  reviewed (static_dtype_ config) op0 op ∧ unchecked s0 op0.

(** The inputs are promoted and the outputs cast. *)
Definition unifies (is_meta : bool) : Prop :=
  promote_inputs_to_common_dtype_ config = true ∧ cast_common_dtype_to_outputs_ config = true ∧
  static_dtype_ config = None ∧ is_meta = false.

Lemma static_okt : plain_or_undefined (default Undefined (static_dtype_ config)) = true.
Proof. destruct (static_dtype_ config) as [t|]; [by apply plain_okt, Hstatic|done]. Qed.

Section Convert.
Context (common_dtype : ScalarType) (Hokt : plain_or_undefined common_dtype = true).

Lemma make_temporary_ok s0 ops0 ops s op0 op is_meta id0 : converting s0 ops0 ops s → convertible s0 op0 op →
  tensor_base op0 = Some id0 →
  (cast_common_dtype_to_outputs_ config = true ∨ is_output op = false → plain_dtype common_dtype) →
  wlp (make_temporary config is_meta common_dtype id0 op)
    (λ op' s', converting s0 (ops0 ++ [op0]) (ops ++ [op']) s' ∧ (unifies is_meta → target_dtype op' = common_dtype)) s.
Proof.
  intros Hc [(_ & _ & _ & Hsame & _) (Ho & Hst & Ht)] Et Hp. pose proof Hc as [Hsub Hg Hok _ _].
  rewrite Hsame in * by (by rewrite Et). unfold typed in Ht. rewrite Et in Ht.
  destruct Ht as (i0 & Hi0 & _ & E1 & E2 & _). pose proof (lookup_weaken _ _ _ _ Hi0 Hsub) as Hi.
  assert ((unifies is_meta → info_dtype i0 = common_dtype) → wlp (mret op0) (λ op' s',
    converting s0 (ops0 ++ [op0]) (ops ++ [op']) s' ∧ (unifies is_meta → target_dtype op' = common_dtype)) s) as Hkeep.
  { intros Hu. apply wlp_ret. rewrite E1. split; [|done]. apply converting_same; [done| |by unfold temporary; rewrite Et; cbn; rewrite Hi0].
    split; [done|]. rewrite Et. exists i0, id0, i0. split_and!; try done. by left. }
  assert (∀ m, plain_dtype common_dtype → makes (copy_of i0 common_dtype) m s →
    wlp (tmp ← m; mret (set_dtypes common_dtype common_dtype (exchange_tensor tmp op0)))
      (λ op' s', converting s0 (ops0 ++ [op0]) (ops ++ [op']) s' ∧
        (unifies is_meta → target_dtype op' = common_dtype)) s) as Hnew.
  { intros m Hpl Hm. apply wlp_bind. eapply wlp_mono; [by apply makes_use|].
    intros id s' (i & Hn & E & Hg' & Hok' & Esz & Edt). apply wlp_ret. split; [|done].
    eapply converting_new; try done. split; [done|]. rewrite Et. exists i0, id, i.
    rewrite E, lookup_insert_eq. split_and!; try done; [by rewrite Edt..|]. right. cbn.
    split; [by eapply lookup_weaken_None|done]. }
  unfold make_temporary. case_bool_decide as Ed; rewrite ?andb_false_r; cbn [negb andb]; rewrite ?andb_true_r.
  - apply Hkeep. intros _. congruence.
  - destruct (cast_common_dtype_to_outputs_ config && is_output op0 && negb is_meta) eqn:Ea.
    + apply andb_true_iff in Ea as [[Ea _]%andb_true_iff _]. apply Hnew; [by apply Hp; left|].
      apply empty_like_copies; auto.
    + destruct (promote_inputs_to_common_dtype_ config && negb (is_output op0)) eqn:Eb.
      2: { apply Hkeep. intros (E3 & E4 & _ & ->). rewrite E3, E4 in *. by destruct (is_output op0). }
      apply andb_true_iff in Eb as [_ Eb%negb_true_iff]. apply Hnew; [by apply Hp; right|].
      apply tensor_to_copies; auto. congruence.
Qed.

Lemma convert_operand_ok s0 ops0 ops s op0 op is_meta n : converting s0 ops0 ops s → convertible s0 op0 op →
  (cast_common_dtype_to_outputs_ config = true ∨ is_output op = false → plain_dtype common_dtype) →
  wlp (convert_operand config is_meta kCPU common_dtype op n)
    (λ r s', converting s0 (ops0 ++ [op0]) (ops ++ [r.1]) s' ∧ (unifies is_meta → target_dtype r.1 = common_dtype)) s.
Proof.
  intros Hc Hop Hp. pose proof Hop as [(Hrole & Horig & Etb & Hsame & Hnone) (Ho & Hst & Ht)].
  unfold convert_operand. destruct (tensor_base op0) as [id0|] eqn:Et.
  - rewrite Hsame in * by done. unfold typed in Ht. rewrite Et in Ht.
    destruct Ht as (i0 & Hi0 & _ & E1 & E2 & E3). pose proof Hc as [Hsub Hg Hok _ _].
    pose proof (plain_info _ _ _ Hok (lookup_weaken _ _ _ _ Hi0 Hsub)) as Hpl.
    assert (is_type_defined op0 = true) as ->
      by (unfold is_type_defined; rewrite bool_decide_false; [done|rewrite E1; by apply plain_defined]).
    assert (is_device_defined op0 = true) as -> by (unfold is_device_defined; rewrite E3; by apply bool_decide_eq_true).
    cbn [negb andb]. rewrite Et. do 6 wlp_step. rewrite bool_decide_true by done.
    apply wlp_bind. eapply wlp_mono; [by apply make_temporary_ok|]. intros op' s' Hc'. by apply wlp_ret.
  - destruct (Hnone eq_refl) as [Hout Hpl]. pose proof static_okt as Hsok. rewrite <- Hpl in Hsok.
    assert (∀ op1, same_role op0 op1 → tensor_base op1 = None → original_tensor_base op1 = None →
      plain_or_undefined (target_dtype op1) = true → (unifies is_meta → target_dtype op1 = common_dtype) →
      converting s0 (ops0 ++ [op0]) (ops ++ [op1]) s ∧ (unifies is_meta → target_dtype op1 = common_dtype)) as Hkeep.
    { intros op1 H1 H2 H3 H4 H5. split; [|done]. apply converting_same; [done| |by unfold temporary; rewrite H2].
      split; [done|]. rewrite Et. split_and!; try done. by destruct H1 as [-> _]. }
    assert (is_type_defined op = true → ¬ unifies is_meta) as Hdef.
    { unfold is_type_defined. rewrite Hpl. intros Hd (_ & _ & E & _). by rewrite E in Hd. }
    destruct (is_type_defined op), (is_device_defined op); cbn [negb andb]; cbn; rewrite ?Etb;
      apply wlp_ret; apply Hkeep; try done; intros Hu; by destruct (Hdef eq_refl Hu).
Qed.
End Convert.

Lemma review_ok_reviewed s ops ops1 r : Forall2 (convertible s) ops ops1 → review_ok ops r → review_ok ops1 r.
Proof.
  intros Hr [H1 H2 H3 H4].
  assert (∀ op1, op1 ∈ ops1 → is_output op1 = false → ∃ op, op ∈ ops ∧ is_output op = false ∧
    target_dtype op1 = target_dtype op) as Hin.
  { intros op1 [k Hk]%list_elem_of_lookup_1 Ho. destruct (Forall2_lookup_r _ _ _ _ _ Hr Hk) as (op & Hop & Hc).
    exists op. destruct Hc as [((E & _) & _ & _ & Hsame & Hnone) _]. split; [by eapply list_elem_of_lookup_2|].
    split; [congruence|]. destruct (tensor_base op); [by rewrite Hsame|]. destruct (Hnone eq_refl). congruence. }
  split; [done|done| |].
  - intros (op1 & Hop & Ho). destruct (Hin op1 Hop Ho) as (op & ? & ? & _). apply H3. by exists op.
  - intros Hd op1 Hop Ho. destruct (Hin op1 Hop Ho) as (op & ? & ? & ->). by apply H4.
Qed.

Lemma reviewed_converted s op op1 : convertible s op op1 → converted s s op op1 ∧ temporary s op1 = None.
Proof.
  intros [(Hrole & Horig & Etb & Hsame & Hnone) (Ho & Hst & Ht)]. unfold converted, temporary. rewrite Etb.
  destruct (tensor_base op) as [id0|] eqn:Et.
  - rewrite Hsame in * by done. unfold typed in Ht. rewrite Et in Ht.
    destruct Ht as (i0 & Hi0 & _ & E1 & E2 & E3). cbn. rewrite Hi0. split; [|done]. split; [done|].
    exists i0, id0, i0. split_and!; try done. by left.
  - destruct (Hnone eq_refl) as [Hout ->]. split; [|done]. split; [done|]. pose proof static_okt.
    split_and!; try done. by destruct Hrole as [-> _].
Qed.

Lemma converting_reviewed s ops ops1 : store_ok s → Forall2 (convertible s) ops ops1 → converting s ops ops1 s.
Proof.
  intros Hs Hc. split; try done.
  - eapply Forall2_impl; [exact Hc|]. intros op op1 Hop. by apply reviewed_converted.
  - assert (omap (temporary s) ops1 = []) as ->; [|constructor].
    induction Hc as [|op op1 ops ops1 Hop _ IH]; [done|]. cbn. destruct (reviewed_converted _ _ _ Hop) as [_ ->]. done.
Qed.

Lemma common_of_reviewed s ops ops1 t0 : Forall2 (convertible s) ops ops1 →
  (result_type dflt (map (tensor_operand s) (List.filter (λ op, negb (is_output op)) ops1)) = Ok t0 ∨
    ∀ op, op ∈ ops1 → is_output op = false → target_dtype op = t0) →
  result_type dflt (map (tensor_operand s) (List.filter (λ op, negb (is_output op)) ops)) = Ok t0 ∨
    ∀ op, op ∈ ops → is_output op = false → target_dtype op = t0.
Proof.
  intros Hc [Hr|Hsame]; [left|right].
  - rewrite <- Hr. apply (f_equal (result_type dflt)). clear Hr. induction Hc as [|op op1 ops ops1 Hop _ IH]; [done|].
    destruct Hop as [((E & _) & _ & Et & _) _]. cbn. rewrite E.
    destruct (is_output op); cbn; [done|].
    assert (tensor_operand s op1 = tensor_operand s op) as -> by (unfold tensor_operand; by rewrite Et). by rewrite IH.
  - intros op [k Hk]%list_elem_of_lookup_1 Ho. destruct (Forall2_lookup_l _ _ _ _ _ Hc Hk) as (op1 & Hk1 & Hop).
    destruct Hop as [((E & _) & _ & _ & Hs & Hnone) _].
    rewrite <- (Hsame op1); [|by eapply list_elem_of_lookup_2|congruence].
    destruct (tensor_base op); [by rewrite Hs|]. destruct (Hnone eq_refl). congruence.
Qed.

(** The operands that are left have tensors of a known dtype: their own, or a
    temporary of the same sizes. *)
Lemma compute_types_ok it s : store_ok s → Forall (unchecked s) (operands_ it) →
  Forall (on_cpu_operand s) (operands_ it) → common_device_ it = kCPU →
  (cast_common_dtype_to_outputs_ config = true → ∃ op, op ∈ operands_ it ∧ is_output op = false) →
  wlp (compute_types dflt config it) (λ it' s', ∃ ops, it' = set_common (common_dtype_ it') kCPU (set_operands ops it) ∧
    converting s (operands_ it) ops s' ∧ (unifies (is_meta_ it) →
      Forall (λ op, target_dtype op = common_dtype_ it') ops ∧ common_of s (operands_ it) (common_dtype_ it'))) s.
Proof.
  intros Hs Hops Hcpu Hdev Hcast. unfold compute_types. apply wlp_bind.
  eapply wlp_mono; [by apply review_loop_ok|]. intros [ops1 r] s1 (-> & Hr & Hok). cbn [fst snd] in *.
  assert (Forall2 (convertible s) (operands_ it) ops1) as Hconv.
  { clear -Hr Hops. induction Hr as [|op op1 ops ops1 Hop _ IH]; [constructor|].
    apply Forall_cons in Hops as [? ?]. constructor; [by split|auto]. }
  do 4 wlp_step. destruct (types_done config r) eqn:Hdone.
  { apply wlp_ret. exists ops1. cbn. rewrite Hdev. split; [done|]. split; [by apply converting_reviewed|].
    intros (Hp & _). unfold types_done in Hdone. by rewrite Hp, !andb_false_r in Hdone. }
  pose proof (review_ok_reviewed _ _ _ _ Hconv Hok) as Hok1. do 2 wlp_step.
  assert (promote_inputs_to_common_dtype_ config = true → common_of s (operands_ it) a1) as Hcom.
  { intros Hp. pose proof (choose_common_of s (set_operands ops1 it) r a1 Hok1 Hp E1) as (t0 & Ht0 & Ha). exists t0. split; [|done].
    cbn in Ht0. by apply (common_of_reviewed s (operands_ it) ops1). }
  apply (choose_common_plain s (set_operands ops1 it) r) in E1 as [Hokt Hpl]; [|done..].
  destruct Hok1 as [-> _ _ _]. cbn [operands_ set_operands set_dims] in *.
  apply wlp_bind. eapply wlp_mono.
  { apply (each_operand_wlp _ (λ pre out (_ : Z) s', ∃ pre0 post0, operands_ it = pre0 ++ post0 ∧
      Forall2 (convertible s) pre0 pre ∧ converting s pre0 out s' ∧
      (unifies (is_meta_ it) → Forall (λ op, target_dtype op = a1) out))).
    2: { exists [], (operands_ it). split_and!; [done|constructor| |by constructor]. split; try done; constructor. }
    intros pre op post out n s1 Eo1 (pre0 & post0 & Eo0 & Hpre & Hc & Hun).
    rewrite Eo0, Eo1 in Hconv. apply Forall2_app_inv in Hconv as [_ Hrest]; [|by eapply Forall2_length].
    inversion Hrest as [|op0 ? post1 ? Hop Hpost]; subst.
    eapply wlp_mono; [apply (convert_operand_ok _ Hokt s pre0 out s1 op0 op)|]; [done..| |].
    - intros [Hc1|Hin].
      + apply Hpl. destruct (Hcast Hc1) as (o & [k Hk]%list_elem_of_lookup_1 & Ho).
        destruct (Forall2_lookup_l _ _ _ _ _ Hr Hk) as (o1 & Ho1 & ((Eo & _) & _)).
        exists o1. split; [by eapply list_elem_of_lookup_2|congruence].
      + apply Hpl. exists op. split; [|done]. apply elem_of_app. right. left.
    - intros [op' n'] s2 [Hc2 Hun2]. exists (pre0 ++ [op0]), post1. rewrite Eo0, <- app_assoc.
      split_and!; [done|apply Forall2_app; [done|by apply Forall2_cons]|done|].
      intros Hu. apply Forall_app. split; [by apply Hun|]. constructor; [by apply Hun2|constructor]. }
  intros [ops n] s' (pre0 & post0 & Eo0 & Hpre & Hc & Hun). apply wlp_ret. exists ops. split; [done|]. cbn.
  split; [|intros Hu; split; [by apply Hun|by apply Hcom; destruct Hu]].
  assert (post0 = []) as ->.
  { apply Forall2_length in Hpre. apply Forall2_length in Hconv. rewrite Eo0, length_app in Hconv.
    destruct post0; [done|cbn in Hconv; lia]. }
  by rewrite Eo0, app_nil_r.
Qed.
End Types.
