(* ===== verification/IterPrepare.v ===== *)
(** * The operands before the dimensions of an iterator are set up.

    [prepare] of TensorIteratorBuild.v: the broadcast shape, and operands whose
    tensors have one dtype each, outputs that are still to be allocated or
    resized apart. *)

From S2P Require Import Prelude.
From S2P Require Import Layout.
From S2P Require Import TensorMeta.
From S2P Require Import Broadcast.
From S2P Require Import ScalarType.
From S2P Require Import TensorIterator.
From S2P Require Import TensorStore.
From S2P Require Import StoreFacts.
From S2P Require Import TensorIteratorConfig.
From S2P Require Import TensorIteratorBuild.
From S2P Require Import IterOperands.
From S2P Require Import IterTypes.

(** ** Configurations. *)
(** A configuration of tensors on the CPU whose shape is inferred, with an
    input, or with a single output that is not cast. *)
Record config_ok (s : Store) (config : TensorIteratorConfig) : Prop := {
  cfg_outputs : outputs_exist config;
  cfg_shape : static_shape_ config = None;
  cfg_dtype : ∀ t, static_dtype_ config = Some t → plain_dtype t;
  cfg_distinct : NoDup (omap id (output_tensors config));
  cfg_inputs : input_tensors config ≠ [] ∨
    cast_common_dtype_to_outputs_ config = false ∧ (length (tensors_ config) <= 1)%nat;
  cfg_cpu : ∀ id i, Some id ∈ tensors_ config → tensors s !! id = Some i → is_cpu (info_device i) = true }.

(** The sizes that are broadcast. *)
Definition participants (s : Store) (config : TensorIteratorConfig) : list (list Z) :=
  omap (λ t, info_sizes <$> (t ≫= λ id, tensors s !! id))
    (if resize_outputs_ config then input_tensors config else tensors_ config).

Lemma part_sizes_of s config it :
  Forall2 (λ t op, tensor_base op = t ∧ is_output op = true) (output_tensors config)
    (take (num_outputs_ it) (operands_ it)) →
  Forall2 (λ t op, tensor_base op = t ∧ is_output op = false) (input_tensors config)
    (drop (num_outputs_ it) (operands_ it)) →
  part_sizes config s (operands_ it) = participants s config.
Proof.
  intros Ho Hi. unfold part_sizes, participants.
  rewrite <- (take_drop (num_outputs_ it) (operands_ it)). rewrite omap_app.
  assert (omap (λ op, if takes_part config op then info_sizes <$> (tensor_base op ≫= λ id, tensors s !! id) else None)
    (drop (num_outputs_ it) (operands_ it)) = omap (λ t, info_sizes <$> (t ≫= λ id, tensors s !! id))
    (input_tensors config)) as ->.
  { symmetry. apply list_omap_ext. eapply Forall2_impl; [exact Hi|]. intros t op [<- Hout].
    unfold takes_part. by rewrite Hout, andb_false_r. }
  assert (omap (λ op, if takes_part config op then info_sizes <$> (tensor_base op ≫= λ id, tensors s !! id) else None)
    (take (num_outputs_ it) (operands_ it)) = omap (λ t, if resize_outputs_ config then None
    else info_sizes <$> (t ≫= λ id, tensors s !! id)) (output_tensors config)) as ->.
  { symmetry. apply list_omap_ext. eapply Forall2_impl; [exact Ho|]. intros t op [<- Hout].
    unfold takes_part. rewrite Hout, andb_true_r. by destruct (resize_outputs_ config). }
  destruct (resize_outputs_ config).
  - assert (omap (λ _ : option tensor_ref, None) (output_tensors config) = @nil (list Z)) as ->; [|done].
    clear. induction (output_tensors config) as [|t l IH]; [done|exact IH].
  - rewrite <- omap_app. unfold output_tensors, input_tensors. by rewrite take_drop.
Qed.

Lemma part_sizes_participants s config it : marked s config it →
  part_sizes config s (operands_ it) = participants s config.
Proof.
  intros [_ Ho Hi _ _ _]. apply part_sizes_of.
  - eapply Forall2_impl; [exact Ho|]. by intros t op [[] ? _ _].
  - eapply Forall2_impl; [exact Hi|]. by intros t op ([] & ? & _).
Qed.

Lemma participants_lookup s config t id i : t ∈ (if resize_outputs_ config then input_tensors config else tensors_ config) →
  t = Some id → tensors s !! id = Some i → info_sizes i ∈ participants s config.
Proof. intros Hin -> Hi. apply list_elem_of_omap. exists (Some id). split; [done|]. cbn. by rewrite Hi. Qed.

(** ** Operands that are ready. *)
(** What is known of the sizes of an operand, those of [t] before. *)
Definition shaped (config : TensorIteratorConfig) (shape : list Z) (op : OperandInfo) (i0 : TensorInfo) : Prop :=
  if will_resize op then is_output op = true ∧ info_sizes i0 ≠ shape
  else expandable (info_sizes i0) shape ∧
    (is_output op = true → info_sizes i0 = shape ∨ reduction_ config = true).

Definition ready (s0 s : Store) (config : TensorIteratorConfig) (shape : list Z) (t : option tensor_ref)
    (op : OperandInfo) : Prop :=
  stride_bytes op = [] ∧
  match t with
  | None => is_output op = true ∧ will_resize op = true ∧ tensor_base op = None ∧
      original_tensor_base op = None ∧ plain_or_undefined (target_dtype op) = true
  | Some id0 => retyped s0 s id0 op ∧ ∃ i0, tensors s0 !! id0 = Some i0 ∧ shaped config shape op i0
  end.

Lemma subset_participants config t : t ∈ input_tensors config →
  t ∈ (if resize_outputs_ config then input_tensors config else tensors_ config).
Proof.
  intros Hin. destruct (resize_outputs_ config); [done|]. unfold input_tensors in Hin.
  by eapply (subseteq_drop _).
Qed.

Section ready.
Context (s0 s : Store) (config : TensorIteratorConfig) (shape : list Z).
Context (Hsh : broadcast_of (participants s0 config) shape).

Lemma participant_expandable t id i :
  t ∈ (if resize_outputs_ config then input_tensors config else tensors_ config) →
  t = Some id → tensors s0 !! id = Some i → expandable (info_sizes i) shape.
Proof.
  intros Hin Ht Hi. destruct Hsh as [H _]. rewrite Forall_forall in H.
  by eapply H, participants_lookup.
Qed.

Lemma output_ready t op op' : t ∈ output_tensors config → marked_output s0 config (input_tensors config) shape t op →
  converted s0 s op op' → ready s0 s config shape t op'.
Proof.
  intros Hin [[Ht Ho Hst Hty] Hout Hres Hkept] [(E1 & E2 & E3 & E4) Hc]. rewrite Ht in Hc.
  split; [congruence|]. destruct t as [id0|].
  2: { destruct Hc as (H1 & H2 & H3 & H4). split_and!; try done. rewrite E2.
       destruct (will_resize op); [done|]. by destruct (Hkept eq_refl) as (? & ? & [=] & _). }
  split; [done|]. destruct Hc as (i0 & _ & _ & Hi0 & _). exists i0. split; [done|].
  unfold shaped. rewrite E1, E2. destruct (will_resize op); [by destruct (Hres eq_refl id0 i0)|].
  destruct (Hkept eq_refl) as (? & ? & [= <-] & Hi0' & Hor). simplify_eq. split.
  - destruct Hor as [->|[_ Hr]]; [apply expandable_refl|]. apply (participant_expandable (Some id0) id0); try done.
    destruct (resize_outputs_ config) eqn:Er; [by apply Hr|]. unfold output_tensors in Hin. by eapply (subseteq_take _).
  - intros _. destruct Hor as [?|[? _]]; auto.
Qed.

Lemma input_ready t op op' : t ∈ input_tensors config → marked_input s0 t op →
  converted s0 s op op' → ready s0 s config shape t op'.
Proof.
  intros Hin ([Ht Ho Hst Hty] & Hout & Hres) [(E1 & E2 & E3 & E4) Hc]. rewrite Ht in Hc.
  split; [congruence|]. destruct t as [id0|].
  2: { destruct Hc as (H1 & H2 & H3 & H4). congruence. }
  split; [done|]. destruct Hc as (i0 & _ & _ & Hi0 & _). exists i0. split; [done|].
  unfold shaped. rewrite E1, E2, Hres, Hout. split; [|done].
  apply (participant_expandable (Some id0) id0); [by apply subset_participants|done..].
Qed.
End ready.

(** ** The operands that [prepare] leaves. *)
Record prepared (s0 : Store) (config : TensorIteratorConfig) (it : TensorIteratorBase) (s : Store) : Prop := {
  prep_sub : tensors s0 ⊆ tensors s;
  prep_grow : storages_grow s0 s;
  prep_store : store_ok s;
  prep_outputs : num_outputs_ it = config_outputs_ config;
  prep_reduction : is_reduction_ it = reduction_ config;
  prep_device : common_device_ it = kCPU;
  prep_meta : is_meta_ it = false;
  prep_shape : broadcast_of (participants s0 config) (shape_ it);
  prep_operands : Forall2 (ready s0 s config (shape_ it)) (tensors_ config) (operands_ it);
  prep_roles : Forall (λ op, is_output op = true) (take (config_outputs_ config) (operands_ it)) ∧
    Forall (λ op, is_output op = false) (drop (config_outputs_ config) (operands_ it));
  prep_same : all_ops_same_shape_ it = true → reduction_ config = false →
    Forall (λ op, will_resize op = false → ∀ id i, tensor_base op = Some id → tensors s !! id = Some i →
      info_sizes i = shape_ it) (operands_ it);
  prep_distinct : ∀ j k opj opk id, j ≠ k → operands_ it !! j = Some opj → operands_ it !! k = Some opk →
    will_resize opj = true → tensor_base opj = Some id → tensor_base opk ≠ Some id;
  prep_last : (∃ pre op, operands_ it = pre ++ [op] ∧ will_resize op = false ∧ is_Some (tensor_base op)) ∨
    (length (operands_ it) <= 1)%nat }.

(** The positions of what occurs once. *)
Lemma NoDup_omap_position {A B} (f : A → option B) (l : list A) : NoDup (omap f l) →
  ∀ j k x y b, l !! j = Some x → l !! k = Some y → f x = Some b → f y = Some b → j = k.
Proof.
  induction l as [|z l IH]; cbn; intros Hn j k x y b Hj Hk Hx Hy; [done|].
  assert (NoDup (omap f l)) as Hn' by (destruct (f z); [by apply NoDup_cons in Hn as [_ ?]|done]).
  assert (∀ i w, l !! i = Some w → f w = Some b → f z ≠ Some b) as Hz.
  { intros i w Hw Hb Ez. rewrite Ez in Hn. apply NoDup_cons in Hn as [Hn _]. apply Hn, list_elem_of_omap.
    exists w. split; [by eapply list_elem_of_lookup_2|done]. }
  destruct j as [|j], k as [|k]; cbn in *; simplify_eq; try done.
  - by destruct (Hz k y Hk Hy).
  - by destruct (Hz j x Hj Hx).
  - f_equal. by eapply IH.
Qed.

(** An operand by its position. *)
Definition marked_operand (s : Store) (config : TensorIteratorConfig) (shape : list Z) (j : nat)
    (t : option tensor_ref) (op : OperandInfo) : Prop :=
  if decide (j < config_outputs_ config)%nat
  then t ∈ output_tensors config ∧ output_tensors config !! j = Some t ∧
    marked_output s config (input_tensors config) shape t op
  else t ∈ input_tensors config ∧ marked_input s t op.

Lemma marked_lookup s config it j op : outputs_exist config → marked s config it → operands_ it !! j = Some op →
  ∃ t, tensors_ config !! j = Some t ∧ marked_operand s config (shape_ it) j t op.
Proof.
  intros He [[_ _ Hn _ _ _] Ho Hi _ _ _] Hj. rewrite Hn in *. unfold marked_operand.
  unfold output_tensors, input_tensors in *. set (n := config_outputs_ config) in *.
  destruct (decide (j < n)%nat) as [Hlt|Hge].
  - rewrite <- (lookup_take_lt _ n) in Hj by done. destruct (Forall2_lookup_r _ _ _ _ _ Ho Hj) as (t & Ht & Hm).
    pose proof Ht as Ht'. rewrite lookup_take_lt in Ht' by done. exists t. split; [done|]. split; [|done].
    by eapply list_elem_of_lookup_2.
  - replace j with (n + (j - n))%nat in Hj |- * by lia. rewrite <- lookup_drop in Hj.
    destruct (Forall2_lookup_r _ _ _ _ _ Hi Hj) as (t & Ht & Hm). exists t. rewrite <- lookup_drop. split; [done|].
    split; [by eapply list_elem_of_lookup_2|done].
Qed.

Lemma marked_length s config it : marked s config it → length (operands_ it) = length (tensors_ config).
Proof.
  intros [_ Ho%Forall2_length Hi%Forall2_length _ _ _]. unfold output_tensors, input_tensors in *.
  pose proof (f_equal length (take_drop (num_outputs_ it) (operands_ it))) as E1.
  pose proof (f_equal length (take_drop (config_outputs_ config) (tensors_ config))) as E2.
  rewrite length_app in E1, E2. lia.
Qed.

Section prepared.
Context (s0 s : Store) (config : TensorIteratorConfig) (it0 : TensorIteratorBase) (ops : list OperandInfo).
Context (Hcfg : config_ok s0 config) (Hm : marked s0 config it0) (Hc : converting s0 (operands_ it0) ops s).

Lemma prepared_lookup j op : ops !! j = Some op → ∃ t op0, tensors_ config !! j = Some t ∧
  operands_ it0 !! j = Some op0 ∧ marked_operand s0 config (shape_ it0) j t op0 ∧ converted s0 s op0 op.
Proof.
  intros Hj. destruct Hc as [_ _ _ Hcops _]. destruct (Forall2_lookup_r _ _ _ _ _ Hcops Hj) as (op0 & Hj0 & Hop).
  destruct (marked_lookup _ _ _ _ _ (cfg_outputs _ _ Hcfg) Hm Hj0) as (t & Ht & Hmo). by exists t, op0.
Qed.

Lemma prepared_ready : broadcast_of (participants s0 config) (shape_ it0) →
  Forall2 (ready s0 s config (shape_ it0)) (tensors_ config) ops.
Proof.
  intros Hb. apply Forall2_same_length_lookup_2.
  { rewrite <- (marked_length _ _ _ Hm). by destruct Hc as [_ _ _ ?%Forall2_length _]. }
  intros j t op Ht Hj. destruct (prepared_lookup j op Hj) as (t' & op0 & Ht' & _ & Hmo & Hcop). simplify_eq.
  unfold marked_operand in Hmo. destruct (decide _).
  - destruct Hmo as (? & _ & ?). by eapply output_ready.
  - destruct Hmo. by eapply input_ready.
Qed.

Lemma converted_info op0 op id i : converted s0 s op0 op → tensor_base op = Some id → tensors s !! id = Some i →
  ∃ id0 i0, tensor_base op0 = Some id0 ∧ tensors s0 !! id0 = Some i0 ∧ info_sizes i = info_sizes i0 ∧
    (id = id0 ∨ temporary s0 op = Some id).
Proof.
  intros [_ H] Et Hi. destruct (tensor_base op0) as [id0|]; [|destruct H as [H _]; congruence].
  destruct H as (i0 & id' & i' & H1 & H2 & H3 & H4 & _ & _ & H5).
  rewrite Et in H2. injection H2 as <-. rewrite Hi in H3. injection H3 as <-. exists id0, i0. split_and!; try done.
  destruct H5 as [(-> & _)|[H5 _]]; [by left|right]. unfold temporary. rewrite Et. cbn. by rewrite H5.
Qed.

Lemma marked_tensor j t op : marked_operand s0 config (shape_ it0) j t op → tensor_base op = t.
Proof. unfold marked_operand. destruct (decide _); [by intros (_ & _ & [[] _ _ _])|by intros (_ & [] & _)]. Qed.

Lemma temporaries_distinct j k opj opk id : j ≠ k → ops !! j = Some opj → ops !! k = Some opk →
  will_resize opj = true → tensor_base opj = Some id → tensor_base opk ≠ Some id.
Proof.
  intros Hjk Hj Hk Hw Ej Ek. destruct (prepared_lookup j opj Hj) as (tj & oj & Htj & Hoj & Hmj & Hcj).
  destruct (prepared_lookup k opk Hk) as (tk & ok & Htk & Hok & Hmk & Hck).
  pose proof (marked_tensor _ _ _ Hmj) as <-. pose proof (marked_tensor _ _ _ Hmk) as <-.
  assert (∃ i, tensors s !! id = Some i) as [i Hi].
  { destruct Hcj as [_ H]. destruct (tensor_base oj); [|destruct H; congruence].
    destruct H as (? & ? & i & _ & ? & ? & _). exists i. congruence. }
  destruct (converted_info _ _ _ _ Hcj Ej Hi) as (j0 & ij & Hj0 & Hij & _ & Hj').
  destruct (converted_info _ _ _ _ Hck Ek Hi) as (k0 & ik & Hk0 & Hik & _ & Hk').
  assert (∀ op, tensor_base op = Some id → temporary s0 op = Some id → tensors s0 !! id = None) as Hfresh.
  { intros op E. unfold temporary. rewrite E. cbn. by destruct (tensors s0 !! id). }
  destruct Hj' as [<-|Hj'].
  2: { pose proof (Hfresh _ Ej Hj') as Hnone. destruct Hk' as [<-|Hk']; [congruence|]. apply Hjk.
       eapply (NoDup_omap_position (temporary s0) ops); try done. by destruct Hc. }
  destruct Hk' as [<-|Hk']; [|pose proof (Hfresh _ Ek Hk'); congruence].
  unfold marked_operand in Hmj, Hmk. destruct Hcj as [(_ & Ew & _) _].
  destruct (decide (j < _)%nat) as [Hjn|Hjn].
  2: { destruct Hmj as (_ & _ & _ & Hw0). congruence. }
  destruct Hmj as (_ & Hlj & [_ _ Hres _]). rewrite Hw in Ew. symmetry in Ew.
  destruct (Hres Ew id ij Hj0 Hij) as [Hnin _]. destruct (decide (k < _)%nat) as [Hkn|Hkn].
  - destruct Hmk as (_ & Hlk & _). apply Hjk. rewrite Hj0 in Hlj. rewrite Hk0 in Hlk.
    eapply (NoDup_omap_position Datatypes.id (output_tensors config)); try done. by destruct Hcfg.
  - destruct Hmk as [Hin _]. by rewrite Hk0, <- Hj0 in Hin.
Qed.
End prepared.

Section prepare.
Context `{LawfulOperators} (dflt : default_dtypes) (Hdflt : plain_defaults dflt).
Context (s0 : Store) (config : TensorIteratorConfig) (Hs0 : store_ok s0) (Hcfg : config_ok s0 config).

Lemma marked_unchecked it : marked s0 config it →
  Forall (unchecked s0) (operands_ it) ∧ Forall (on_cpu_operand s0) (operands_ it).
Proof.
  intros Hm. pose proof Hcfg as [Hout _ _ _ _ Hcpu]. split; apply Forall_lookup; intros j op Hj.
  all: destruct (marked_lookup _ _ _ _ _ Hout Hm Hj) as (t & Ht & Hmo).
  - unfold marked_operand in Hmo. destruct (decide _);
      [destruct Hmo as (_ & _ & [[] _ _ _])|destruct Hmo as (_ & [] & _)]; by split.
  - pose proof (marked_tensor _ _ _ _ _ _ Hmo) as <-. intros id i E Hi. apply (Hcpu id); [|done].
    rewrite <- E. by eapply list_elem_of_lookup_2.
Qed.

Lemma marked_inputs_exist it : marked s0 config it → input_tensors config ≠ [] →
  ∃ pre op, operands_ it = pre ++ [op] ∧ marked_input s0 (tensor_base op) op.
Proof.
  intros [_ _ Hi _ _ _] Hne. rewrite <- (take_drop (num_outputs_ it) (operands_ it)).
  set (l := drop _ _) in *. set (pre := take _ _).
  destruct (exists_last Hne) as (ts & t & E). rewrite E in Hi. apply Forall2_app_inv_l in Hi as (l1 & l2 & _ & H2 & El).
  inversion H2 as [|? op ? ? Hop Hnil]; subst. inversion Hnil; subst. exists (pre ++ l1), op.
  rewrite El, app_assoc. split; [done|]. pose proof Hop as ([-> _ _ _] & _). done.
Qed.

Lemma marked_meta it : marked s0 config it → is_meta_ it = false.
Proof.
  intros [[_ _ _ _ _ ->] _ _ _ _ _]. destruct Hcfg as [_ _ _ _ _ Hcpu]. apply not_true_iff_false. intros (t & Hin & Ht)%existsb_exists.
  apply list_elem_of_In in Hin. unfold tensor_is_meta in Ht. destruct t as [id|]; [|done]. cbn in Ht.
  destruct (tensors s0 !! id) as [i|] eqn:Hi; [|done]. specialize (Hcpu id i Hin Hi). unfold is_cpu in Hcpu.
  apply bool_decide_eq_true in Ht. rewrite Ht in Hcpu. done.
Qed.

(** The roles of the operands are those of the configuration. *)
Lemma converted_roles it ops s : marked s0 config it → converting s0 (operands_ it) ops s →
  Forall (λ op, is_output op = true) (take (config_outputs_ config) ops) ∧
  Forall (λ op, is_output op = false) (drop (config_outputs_ config) ops).
Proof.
  intros Hm Hc. assert (∀ j op, ops !! j = Some op → is_output op = bool_decide (j < config_outputs_ config)%nat) as Hj.
  { intros j op Hj. destruct (prepared_lookup s0 s config it ops Hcfg Hm Hc j op Hj) as (t & op0 & _ & _ & Hmo & [[-> _] _]).
    unfold marked_operand in Hmo. destruct (decide _).
    - destruct Hmo as (_ & _ & [_ -> _ _]). by rewrite bool_decide_true.
    - destruct Hmo as (_ & _ & -> & _). by rewrite bool_decide_false. }
  split; apply Forall_lookup; intros j op Hl.
  - apply lookup_take_Some in Hl as [Hl Hlt]. by rewrite (Hj j op Hl), bool_decide_true.
  - rewrite lookup_drop in Hl. rewrite (Hj _ op Hl), bool_decide_false by lia. done.
Qed.

Lemma converted_same it ops s : marked s0 config it → converting s0 (operands_ it) ops s →
  all_ops_same_shape_ it = true → reduction_ config = false →
  Forall (λ op, will_resize op = false → ∀ id i, tensor_base op = Some id → tensors s !! id = Some i →
    info_sizes i = shape_ it) ops.
Proof.
  intros Hm Hc Hsame Hred. apply Forall_lookup. intros j op Hj Hw id i Et Hi.
  destruct (prepared_lookup s0 s config it ops Hcfg Hm Hc j op Hj) as (t & op0 & Ht & _ & Hmo & Hcop).
  destruct (converted_info _ _ _ _ _ _ Hcop Et Hi) as (id0 & i0 & E0 & Hi0 & -> & _).
  pose proof Hm as [_ _ _ _ Hs _]. specialize (Hs Hsame). rewrite (part_sizes_participants _ _ _ Hm) in Hs.
  rewrite Forall_forall in Hs. pose proof (marked_tensor _ _ _ _ _ _ Hmo) as <-.
  destruct Hcop as [(_ & Ew & _) _]. unfold marked_operand in Hmo. destruct (decide _).
  - destruct Hmo as (_ & _ & [_ _ _ Hk]). destruct (Hk ltac:(congruence)) as (id1 & i1 & E1 & Hi1 & [Hsz|[Hr _]]); [|congruence].
    rewrite E0 in E1. injection E1 as <-. rewrite Hi0 in Hi1. by injection Hi1 as <-.
  - destruct Hmo as (Hin & _). apply Hs. eapply participants_lookup; [|exact E0|exact Hi0].
    by apply subset_participants.
Qed.

(** What [result_type] reads of an input. *)
Definition input_operand (s : Store) (t : option tensor_ref) : operand :=
  match t ≫= (λ id, tensors s !! id) with
  | Some i => {| defined := true; dim := Z.of_nat (length (info_sizes i));
                 is_wrapped_number := info_wrapped_number i; scalar_type := info_dtype i |}
  | None => {| defined := false; dim := 0; is_wrapped_number := false; scalar_type := Undefined |}
  end.

(** The common dtype: that of the inputs, or the result type of inputs that
    differ, with the default dtype in the place of an integral one where that is
    asked for. *)
Definition common_dtype_of (t : ScalarType) : Prop :=
  ∃ t0, (result_type dflt (map (input_operand s0) (input_tensors config)) = Ok t0 ∨
      ∀ id i, Some id ∈ input_tensors config → tensors s0 !! id = Some i → info_dtype i = t0) ∧
    t = if promote_integer_inputs_to_float_ config && isIntegralType t0 true then default_dtype dflt else t0.

Lemma common_of_inputs it t : marked s0 config it → common_of dflt config s0 (operands_ it) t → common_dtype_of t.
Proof.
  intros [_ Ho Hi _ _ _] (t0 & Ht0 & ->). exists t0. split; [|done].
  pose proof (take_drop (num_outputs_ it) (operands_ it)) as E. destruct Ht0 as [Hr|Hs]; [left|right].
  - rewrite <- Hr. apply (f_equal (result_type dflt)). rewrite <- E. rewrite List.filter_app, map_app.
    assert (∀ ts ops, Forall2 (marked_output s0 config (input_tensors config) (shape_ it)) ts ops →
      List.filter (λ op, negb (is_output op)) ops = []) as Hnil.
    { clear. intros ts ops H. induction H as [|t op ts ops [_ Hout _ _] _ IH]; [done|]. cbn. by rewrite Hout. }
    rewrite (Hnil _ _ Ho). cbn. clear -Hi. induction Hi as [|t op ts ops ([<- _ _ _] & Hout & _) _ IH]; [done|].
    cbn. rewrite Hout. cbn. by rewrite IH.
  - intros id i [j Hj]%list_elem_of_lookup_1 Hid. destruct (Forall2_lookup_l _ _ _ _ _ Hi Hj) as (op & Hop & [Et _ _ Hty] & Hout & _).
    unfold typed in Hty. rewrite Et in Hty. destruct Hty as (i' & Hi' & _ & Ed & _). rewrite Hid in Hi'. injection Hi' as <-.
    rewrite <- Ed. apply Hs; [|done]. rewrite <- E. apply elem_of_app. right. by eapply list_elem_of_lookup_2.
Qed.

Lemma prepare_ok : wlp (prepare dflt config) (λ it s, prepared s0 config it s ∧ (unifies config false →
    Forall (λ op, target_dtype op = common_dtype_ it) (operands_ it) ∧ common_dtype_of (common_dtype_ it))) s0.
Proof.
  unfold prepare. pose proof Hcfg as [Hout Hst Hdt _ Hin _]. wlp_step. wlp_step. cbv zeta. do 4 wlp_step.
  apply wlp_bind. eapply wlp_mono; [by eapply marks_spec|]. intros it s1 [-> Hm]. cbv beta in Hm.
  destruct (marked_unchecked it Hm) as [Hun Hcpu]. eapply wlp_mono; [apply compute_types_ok; try done|].
  - by destruct Hm as [[] _ _ _ _ _].
  - intros Hcast. destruct Hin as [Hne|[Hf _]]; [|congruence].
    destruct (marked_inputs_exist it Hm Hne) as (pre & op & E2 & _ & Ho & _). exists op. split; [|done].
    rewrite E2. apply elem_of_app. right. by left.
  - intros it' s (ops & E2 & Hc & Hty). rewrite (marked_meta it Hm) in Hty. pose proof Hm as [[_ _ Hn Hr Hd _] _ _ Hb _ _].
    rewrite (part_sizes_participants _ _ _ Hm) in Hb. pose proof Hc as [H1 H2 H3 H4 _].
    destruct (converted_roles it ops s Hm Hc). split.
    2: { intros Hu. destruct (Hty Hu) as [Hall Hcom]. split; [|by apply (common_of_inputs it)].
         rewrite E2. cbn. by rewrite E2 in Hall. }
    rewrite E2. split; cbn; try done.
    + by apply marked_meta.
    + by eapply prepared_ready.
    + by eapply converted_same.
    + intros j k opj opk id Hjk Hj Hk. by eapply (temporaries_distinct s0 s config it ops).
    + destruct Hin as [Hne|[_ Hl]].
      2: { right. rewrite <- (Forall2_length _ _ _ H4), (marked_length _ _ _ Hm). done. }
      left. destruct (marked_inputs_exist it Hm Hne) as (pre & op & Eo & _ & Ho & Hw). rewrite Eo in H4.
      apply Forall2_app_inv_l in H4 as (l1 & l2 & _ & Hl & El). inversion Hl as [|? op' ? ? Hop Hnil]; subst.
      inversion Hnil; subst. exists l1, op'. split; [done|]. destruct Hop as [(E1' & E2' & _) Hop].
      split; [congruence|]. destruct (tensor_base op); [|destruct Hop as (_ & ? & _); congruence].
      destruct Hop as (? & id & ? & _ & -> & _). by exists id.
Qed.
End prepare.
