(* ===== verification/IterOutputs.v ===== *)
(** * The outputs of an iterator that is built.

    What [set_output_raw_strided] of TensorIteratorBuild.v does to an output
    that is not defined or has the wrong sizes, and the loop over the outputs:
    the tensors of the other operands are kept. *)

From S2P Require Import Prelude.
From S2P Require Import Layout.
From S2P Require Import Contiguity.
From S2P Require Import SafeNum.
From S2P Require Import TensorMeta.
From S2P Require Import ScalarType.
From S2P Require Import TensorIterator.
From S2P Require Import TensorStore.
From S2P Require Import StoreFacts.
From S2P Require Import TensorIteratorConfig.
From S2P Require Import TensorIteratorBuild.
From S2P Require Import IterOperands.

(** ** Contiguous tensors. *)
Lemma contiguous_offset t idx : consistent t → is_sparse_ t = false → nonneg_sizes t → is_contiguous_ t = true →
  in_bounds (sizes_ t) idx → offset idx (strides_ t) = ravel (sizes_ t) idx.
Proof.
  intros Hc Hsp Hn Hf Hib. pose proof (in_bounds_positive _ _ Hib) as Hp.
  apply (flag_contiguous t) with (k := ravel (sizes_ t) idx) in Hf; try done.
  - unfold element_offset in Hf. by rewrite unravel_ravel in Hf.
  - rewrite (consistent_numel _ Hc). by apply ravel_bounds.
Qed.

(** The storage of a contiguous tensor holds it in every dense format. *)
Lemma restride_ok s i mf t u : tensor_ok s i → is_contiguous_ (info_impl i) = true →
  empty_tensor_restride mf (info_impl i) = (t, Ok u) →
  tensor_ok s (set_info_impl t i) ∧ sizes_ t = info_sizes i ∧ is_contiguous_default_impl mf t = true.
Proof.
  intros [Hc Hsp He Hst Ho Hd Hs] Hf H.
  apply restride_format in H as (Hc' & Es & Eo & Esp & Hst' & Hf'); [|done..].
  split; [|done]. apply mkTensorOk; unfold info_sizes, info_strides in *; cbn; rewrite ?Es, ?Eo; try done.
  intros idx Hib. assert (nonneg_sizes t) as Hn by (unfold nonneg_sizes; rewrite Es; by destruct He).
  pose proof (dense_offset t idx Hc' Esp Hn (format_dense _ _ Hc' Hf') ltac:(by rewrite Es)) as Hoff.
  rewrite (consistent_numel _ Hc'), Es in Hoff. pose proof (in_bounds_positive _ _ Hib) as Hp.
  destruct (Hs (unravel (sizes_ (info_impl i)) (offset idx (strides_ t)))) as (sid & st & H1 & H2 & H3 & H4).
  { by apply unravel_in_bounds. }
  exists sid, st. split; [done|]. split; [done|]. unfold element_address, info_strides, info_itemsize in *. cbn.
  assert (offset (unravel (sizes_ (info_impl i)) (offset idx (strides_ t))) (strides_ (info_impl i))
    = offset idx (strides_ t)) as E.
  { rewrite contiguous_offset; try done; [by apply ravel_unravel|by destruct He|by apply unravel_in_bounds]. }
  rewrite E in H3, H4. by rewrite Eo.
Qed.

(** ** One output. *)
Section Output.
Context `{LawfulOperators}.

(** The strides that are asked for, or the memory format of the options. *)
Definition strided_as (strides : list Z) (options : TensorOptions) (i : TensorInfo) : Prop :=
  if bool_decide (strides = [])
  then is_contiguous_default_impl (default Contiguous (opt_memory_format options)) (info_impl i) = true
  else info_strides i = strides.

(** The output is made, or its tensor is resized. *)
Definition made_output (options : TensorOptions) (s : Store) (op op' : OperandInfo) (id : tensor_ref) (i : TensorInfo)
    : Prop :=
  match tensor_base op with
  | None => tensors s !! id = None ∧ info_dtype i = opt_dtype options ∧
      op' = set_dtypes (target_dtype op) (target_dtype op) (set_tensor (Some id) (original_tensor_base op) op)
  | Some id0 => id = id0 ∧ op' = op ∧ ∃ i0, tensors s !! id = Some i0 ∧ info_dtype i = info_dtype i0
  end.

Lemma set_output_ok sizes strides options op s : store_ok s → extent_fits sizes → Forall nonneg_i64 strides →
  will_resize op = true →
  match tensor_base op with
  | None => plain_dtype (opt_dtype options)
  | Some id => ∃ i, tensors s !! id = Some i ∧ info_sizes i ≠ sizes
  end →
  wlp (set_output_raw_strided sizes strides options op) (λ op' s', storages_grow s s' ∧ store_ok s' ∧
    ∃ id i, tensors s' = <[id := i]> (tensors s) ∧ info_sizes i = sizes ∧ strided_as strides options i ∧
      made_output options s op op' id i) s.
Proof.
  intros Hs He Hst Hw Hop. unfold set_output_raw_strided, made_output, strided_as. rewrite Hw.
  destruct (tensor_base op) as [id|] eqn:Et.
  - destruct Hop as (i0 & Hi0 & Hne). apply wlp_bind. eapply wlp_mono; [by apply resize_output_reshapes|].
    intros _ s1 (i1 & E1 & Hg1 & Hok1 & Ed1 & Es1 & Hf1). specialize (Hf1 Hne).
    assert (tensors s1 !! id = Some i1) as Hi1 by (by rewrite E1, lookup_insert_eq).
    case_bool_decide as Est; cbn [negb].
    + destruct (opt_memory_format options) as [mf|]; cbn [default].
      * apply wlp_bind. eapply wlp_mono; [by apply on_impl_run|]. intros _ s2 (t & Ht & ->).
        destruct (restride_ok s1 i1 mf t tt) as (Hok & Ez & Hf); [by eapply store_ok_lookup|done|done|].
        apply wlp_ret. split; [etransitivity; [exact Hg1|apply put_tensor_grow]|]. split.
        { apply (store_ok_insert s1 _ id (set_info_impl t i1)); try done; [apply put_tensor_grow|].
          by apply (tensor_ok_grow s1); [apply put_tensor_grow|]. }
        exists id, (set_info_impl t i1). split_and!; try done.
        -- cbn. by rewrite E1, insert_insert_eq.
        -- unfold info_sizes. cbn. congruence.
        -- by exists i0.
      * apply wlp_ret. split_and!; try done. exists id, i1. split_and!; try done. by exists i0.
    + do 2 wlp_step. apply wlp_bind. eapply wlp_mono; [apply (reshapes_use id); [done|by apply at_as_strided_law]|].
      intros _ s2 (i & i' & Hi & E2 & Hg2 & Hok2 & Ed & Ez & Ess). apply wlp_ret. rewrite Hi1 in Hi. injection Hi as <-.
      split; [by etransitivity|]. split; [done|]. exists id, i'. split_and!; try done.
      * by rewrite E2, E1, insert_insert_eq.
      * exists i0. split; [done|congruence].
  - apply wlp_bind. case_bool_decide as Est.
    + eapply wlp_mono; [apply makes_use, at_empty_law; done|].
      intros id s1 (i & Hn & E1 & Hg & Hok & (E2 & E3 & _) & Hf). apply wlp_ret. split_and!; try done.
      exists id, i. by split_and!.
    + eapply wlp_mono; [apply makes_use, at_empty_strided_law; done|].
      intros id s1 (i & Hn & E1 & Hg & Hok & (E2 & E3 & _) & Hf). apply wlp_ret. split_and!; try done.
      exists id, i. by split_and!.
Qed.

Lemma original_options_Ok op s o : original_options op s = Ok o →
  opt_memory_format o = None ∧ (original_tensor_base op = None → opt_dtype o = target_dtype op).
Proof.
  unfold original_options. destruct (original_tensor_base op) as [t|].
  - by intros (i & _ & [= <-])%bind_Ok.
  - by intros [= <-].
Qed.
End Output.

(** ** All outputs. *)
(** An operand after the loop; [P] says what an output that is made or resized
    becomes. *)
Definition set_up (P : OperandInfo → OperandInfo → TensorInfo → Prop) (s s' : Store) (op op' : OperandInfo) : Prop :=
  if will_resize op then ∃ id i, tensor_base op' = Some id ∧ tensors s' !! id = Some i ∧
    (tensors s !! id = None ∨ tensor_base op = Some id) ∧ P op op' i
  else op' = op ∧ ∀ id i, tensor_base op = Some id → tensors s !! id = Some i → tensors s' !! id = Some i.

(** What the body of the loop does. *)
Definition sets_up (P : OperandInfo → OperandInfo → TensorInfo → Prop) (s s' : Store) (op op' : OperandInfo) : Prop :=
  storages_grow s s' ∧ store_ok s' ∧
  if will_resize op then ∃ id i, tensors s' = <[id := i]> (tensors s) ∧ tensor_base op' = Some id ∧ P op op' i ∧
    (tensor_base op = Some id ∨ tensors s !! id = None)
  else op' = op ∧ tensors s' = tensors s.

Section Outputs.
Context (s1 : Store) (ops : list OperandInfo).
Context (Hdefined : ∀ op id, op ∈ ops → tensor_base op = Some id → is_Some (tensors s1 !! id)).
Context (Hdistinct : ∀ j k opj opk id, j ≠ k → ops !! j = Some opj → ops !! k = Some opk →
  will_resize opj = true → tensor_base opj = Some id → tensor_base opk ≠ Some id).
Context (P : OperandInfo → OperandInfo → TensorInfo → Prop) (f : OperandInfo → method Store OperandInfo).
Context (Hf : ∀ op s, op ∈ ops → is_output op = true → storages_grow s1 s → store_ok s →
  (∀ id, tensor_base op = Some id → tensors s !! id = tensors s1 !! id) →
  wlp (f op) (λ op' s', sets_up P s s' op op') s).

(** The tensors that the outputs up to [pre] leave alone. *)
Definition untouched (pre : list OperandInfo) (id : tensor_ref) : Prop :=
  Forall (λ op, will_resize op = true → tensor_base op ≠ Some id) pre.

Record outputs_loop (pre out : list OperandInfo) (s : Store) : Prop := {
  loop_grow : storages_grow s1 s;
  loop_store : store_ok s;
  loop_dom : ∀ id, is_Some (tensors s1 !! id) → is_Some (tensors s !! id);
  loop_kept : ∀ id i, untouched pre id → tensors s1 !! id = Some i → tensors s !! id = Some i;
  loop_ops : Forall2 (set_up P s1 s) pre out }.

Lemma pre_untouched pre op post id : ops = pre ++ op :: post → tensor_base op = Some id → untouched pre id.
Proof.
  intros E Et. apply Forall_lookup. intros j opj Hj Hw Ej.
  assert (j < length pre)%nat by (by eapply lookup_lt_Some).
  apply (Hdistinct j (length pre) opj op id); try done; [lia|by rewrite E, lookup_app_l|by rewrite E, list_lookup_middle].
Qed.

Lemma outputs_step pre op post out s s' op' : ops = pre ++ op :: post → outputs_loop pre out s →
  sets_up P s s' op op' → outputs_loop (pre ++ [op]) (out ++ [op']) s'.
Proof.
  intros E [Hg Hok Hdom Hk Hops] (Hg' & Hok' & Hop).
  assert (op ∈ ops) as Hin by (rewrite E; apply elem_of_app; right; by left).
  assert (∀ x i, tensors s !! x = Some i → (will_resize op = true → tensor_base op ≠ Some x) →
    tensors s' !! x = Some i) as Hkeep.
  { intros x i Hx Hne. destruct (will_resize op).
    - destruct Hop as (id & i' & -> & _ & _ & Hid). destruct (decide (id = x)) as [->|].
      + destruct Hid as [Hid|Hid]; [by destruct (Hne eq_refl)|congruence].
      + by rewrite lookup_insert_ne.
    - by destruct Hop as [_ ->]. }
  split; [by etransitivity|done| | |].
  - intros x [i Hi]%Hdom. destruct (will_resize op); [|by destruct Hop as [_ ->]; exists i].
    destruct Hop as (id & i' & -> & _). destruct (decide (id = x)) as [->|].
    + rewrite lookup_insert_eq. by eexists.
    + rewrite lookup_insert_ne by done. by eexists.
  - intros id i [Hpre [Ho _]%Forall_cons]%Forall_app Hi. apply Hkeep; [by apply Hk|done].
  - apply Forall2_app.
    + apply Forall2_same_length_lookup_2; [by eapply Forall2_length|]. intros j oj oj' Hj Hj'.
      pose proof (Forall2_lookup_lr _ _ _ _ _ _ Hops Hj Hj') as Hset. unfold set_up in *.
      assert (j < length pre)%nat as Hlt by (by eapply lookup_lt_Some).
      assert (∀ id, tensor_base oj = Some id → will_resize oj = true → tensor_base op ≠ Some id) as Hd.
      { intros id Ej Hw. apply (Hdistinct j (length pre) oj op); try done;
          [lia|by rewrite E, lookup_app_l|by rewrite E, list_lookup_middle]. }
      assert (∀ id, tensor_base oj = Some id → will_resize op = true → tensor_base op ≠ Some id) as Hd'.
      { intros id Ej Hw Eop. apply (Hdistinct (length pre) j op oj id); try done;
          [lia|by rewrite E, list_lookup_middle|by rewrite E, lookup_app_l]. }
      destruct (will_resize oj) eqn:Hw.
      * destruct Hset as (id & i & H1 & H2 & H3 & H4). exists id, i. split_and!; try done. apply Hkeep; [done|].
        intros Hwo Eop. destruct H3 as [H3|H3]; [|by apply (Hd' id H3 Hwo)].
        destruct (Hdefined op id Hin Eop) as [? ?]. congruence.
      * destruct Hset as [-> H2]. split; [done|]. intros id i Ej Hi. apply Hkeep; [by apply H2|].
        intros Hwo Eop. by apply (Hd' id Ej Hwo).
    + apply Forall2_cons. split; [|constructor]. unfold set_up. destruct (will_resize op) eqn:Hw.
      * destruct Hop as (id & i & E1 & E2 & HP & Hid). exists id, i. rewrite E1, lookup_insert_eq.
        split_and!; try done. destruct Hid as [?|Hn]; [by right|]. left.
        apply eq_None_not_Some. intros [i1 Hi1]%Hdom. congruence.
      * destruct Hop as [-> ->]. split; [done|]. intros id i Et Hi. apply Hk; [|done]. by eapply pre_untouched.
Qed.

Lemma on_outputs_ok it : operands_ it = ops →
  Forall (λ op, is_output op = true) (take (num_outputs_ it) ops) →
  Forall (λ op, will_resize op = false) (drop (num_outputs_ it) ops) → store_ok s1 →
  wlp (on_outputs f it) (λ it' s', storages_grow s1 s' ∧ store_ok s' ∧
    ∃ ops', it' = set_operands ops' it ∧ Forall2 (set_up P s1 s') ops ops') s1.
Proof.
  intros Eops Hout Hin Hok. unfold on_outputs. rewrite Eops. set (n := num_outputs_ it) in *. apply wlp_bind.
  eapply wlp_mono; [apply (map_operands_wlp _ outputs_loop)|].
  - intros pre op post out s E Hl. assert (ops = pre ++ op :: (post ++ drop n ops)) as E'
      by (rewrite <- (take_drop n ops) at 1; rewrite E, <- app_assoc; done).
    assert (op ∈ take n ops) as Hop by (rewrite E; apply elem_of_app; right; by left).
    assert (op ∈ ops) as Hop' by (by eapply (subseteq_take n)).
    rewrite Forall_forall in Hout. pose proof Hl as [Hg Hs Hd Hk _].
    eapply wlp_mono; [apply Hf; auto|].
    + intros id Et. destruct (Hdefined op id Hop' Et) as [i Hi]. rewrite Hi. apply Hk; [by eapply pre_untouched|done].
    + intros op' s' Hs'. by eapply outputs_step.
  - split; try done; auto.
  - intros out s' [Hg Hs Hd Hk Hops]. apply wlp_ret. split; [done|]. split; [done|]. exists (out ++ drop n ops).
    split; [done|]. rewrite <- (take_drop n ops) at 1. apply Forall2_app; [done|].
    apply Forall_Forall2_diag, Forall_lookup. intros j op Hj. unfold set_up. rewrite Forall_lookup in Hin.
    rewrite (Hin j op Hj). split; [done|]. intros id i Et Hi. apply Hk; [|done].
    apply Forall_lookup. intros k opk Hk' Hw Ek. rewrite lookup_drop in Hj.
    pose proof Hk' as [Hk'' Hlt]%lookup_take_Some. 
    apply (Hdistinct k (n + j) opk op id); try done; lia.
Qed.
End Outputs.
