(* ===== verification/IterLayout.v ===== *)
(** * The addresses of operands.

    How the strides of an operand of an iterator relate to those of its
    tensor: broadcasting, the strides of a dense tensor, and the strides in the
    order of the dimensions. *)

From S2P Require Import Prelude.
From S2P Require Import Layout.
From S2P Require Import Contiguity.
From S2P Require Import Overlap.
From S2P Require Import SafeNum.
From S2P Require Import TensorMeta.
From S2P Require Import Broadcast.
From S2P Require Import MemoryOverlap.
From S2P Require Import ScalarType.
From S2P Require Import TensorIterator.
From S2P Require Import IterSpace.
From S2P Require Import IterDims.
From S2P Require Import TensorStore.
From S2P Require Import StoreFacts.
From S2P Require Import TensorIteratorConfig.
From S2P Require Import TensorIteratorBuild.
From S2P Require Import IterOutputs.

#[local] Arguments at_ : simpl never.

(** ** Broadcasting. *)
Lemma expandable_rev_split ra : ∀ rc, expandable_rev ra rc →
  ∃ r1 r2, rc = r1 ++ r2 ∧ Forall2 (λ s t, s = 1 ∨ s = t) ra r1.
Proof.
  induction ra as [|s ra IH]; intros [|t rc]; cbn; try done.
  - intros _. by exists [], [].
  - intros _. exists [], (t :: rc). by split.
  - intros [Hs (r1 & r2 & -> & Hr)%IH]. exists (t :: r1), r2. split; [done|by constructor].
Qed.

Lemma expandable_split a c : expandable a c → ∃ c1 c2, c = c1 ++ c2 ∧ Forall2 (λ s t, s = 1 ∨ s = t) a c2.
Proof.
  intros (r1 & r2 & E & H)%expandable_rev_split. exists (rev r2), (rev r1). split.
  - by rewrite <- rev_app_distr, <- E, rev_involutive.
  - rewrite <- (rev_involutive a). revert H. generalize (rev a). clear. intros ra H.
    induction H as [|s t ra r1 Hs _ IH]; cbn; [constructor|]. by apply Forall2_app; [|apply Forall2_cons].
Qed.

(** Where the operand is at an index of the iteration, from the first element
    of its tensor. *)
Definition operand_offset (i : TensorInfo) (idx : list Z) : Z :=
  info_itemsize i * offset (project (info_sizes i) idx) (info_strides i).

Lemma broadcast_aligned k ss : ∀ ts st idx, Forall2 (λ s t, s = 1 ∨ s = t) ss ts → length st = length ss →
  in_bounds ts idx → in_bounds ss (project_aligned ss idx) ∧
  length (broadcast_strides ss ts st k) = length ts ∧
  offset idx (broadcast_strides ss ts st k) = k * offset (project_aligned ss idx) st.
Proof.
  induction ss as [|s ss IH]; intros ts st idx Ha Hl Hib; inversion Ha as [|? t ? ts' Hs Ha']; subst;
    inversion Hib as [|? x ? idx' Hx Hib']; subst; destruct st as [|y st]; try done; cbn.
  - split_and!; [constructor|done|lia].
  - destruct (IH ts' st idx' Ha' ltac:(cbn in Hl; lia) Hib') as (H1 & H2 & H3). split_and!.
    + constructor; [|done]. case_bool; [lia|]. destruct Hs as [->| ->]; lia.
    + by f_equal.
    + unfold project_aligned in H3. rewrite H3.
      destruct (Z.eqb_spec s 1) as [->|Hne], (Z.eqb_spec t 1) as [->|Hne']; cbn [negb andb];
        try (assert (x = 0) as -> by lia); lia.
Qed.

Lemma offset_lead a : ∀ b st, offset (a ++ b) (replicate (length a) 0 ++ st) = offset b st.
Proof. induction a as [|x a IH]; intros b st; cbn; [done|]. rewrite IH. lia. Qed.

Lemma operand_strides_offset config shape i idx : static_shape_ config = None → expandable (info_sizes i) shape →
  length (info_strides i) = length (info_sizes i) → in_bounds shape idx →
  in_bounds (info_sizes i) (project (info_sizes i) idx) ∧
  offset idx (operand_strides config shape i) = operand_offset i idx.
Proof.
  intros Hst (c1 & c2 & -> & Ha)%expandable_split Hl Hib. unfold operand_strides, operand_offset, project. rewrite Hst.
  pose proof (Forall2_length _ _ _ Ha) as Hlen. apply Forall2_app_inv_l in Hib as (i1 & i2 & H1 & H2 & ->).
  pose proof (Forall2_length _ _ _ H1) as Hl1. pose proof (Forall2_length _ _ _ H2) as Hl2.
  rewrite !length_app. replace (length c1 + length c2 - _)%nat with (length i1) by lia.
  replace (length i1 + length i2 - _)%nat with (length i1) by lia.
  rewrite (drop_app_length' i1), (drop_app_length' c1) by done.
  destruct (broadcast_aligned (info_itemsize i) (info_sizes i) c2 (info_strides i) i2) as (Hb & _ & Hoff); try done.
  by rewrite offset_lead.
Qed.

Lemma operand_strides_length config shape i : static_shape_ config = None → expandable (info_sizes i) shape →
  length (info_strides i) = length (info_sizes i) → length (operand_strides config shape i) = length shape.
Proof.
  intros Hst (c1 & c2 & -> & Ha)%expandable_split Hl. unfold operand_strides. rewrite Hst.
  rewrite !length_app, length_replicate. rewrite (Forall2_length _ _ _ Ha).
  replace (length c1 + length c2 - length c2)%nat with (length c1) by lia. f_equal.
  rewrite (drop_app_length' c1) by done. revert Hl Ha. generalize (info_sizes i), (info_strides i), (info_itemsize i).
  clear. intros ss st k Hl Ha. revert st Hl. induction Ha as [|s t ss ts Hs _ IH]; intros [|y st] Hl; cbn in *; try done.
  f_equal. apply IH. lia.
Qed.

Lemma project_same shape idx : in_bounds shape idx → project shape idx = idx.
Proof.
  intros Hib. unfold project. rewrite (in_bounds_length _ _ Hib), Nat.sub_diag, drop_0.
  induction Hib as [|s x shape idx Hx _ IH]; cbn; [done|]. unfold project_aligned in IH. rewrite IH.
  f_equal. case_bool; [lia|done].
Qed.

(** ** Dense tensors. *)
(** Numbers the elements of a shape. *)
Definition numbering (shape : list Z) (g : list Z → Z) : Prop :=
  (∀ idx, in_bounds shape idx → 0 <= g idx < multiply_integers shape) ∧
  (∀ idx1 idx2, in_bounds shape idx1 → in_bounds shape idx2 → g idx1 = g idx2 → idx1 = idx2).

Lemma numbering_perm shape g : Forall (λ s, 0 <= s) shape → numbering shape g →
  map g (indices shape) ≡ₚ seqZ 0 (multiply_integers shape).
Proof.
  intros Hn [Hr Hi]. destruct (positive_or_empty shape Hn) as [Hp|E]; [|by unfold indices; rewrite E].
  apply submseteq_length_Permutation; [apply NoDup_submseteq|].
  - apply NoDup_fmap_2_strong; [|by apply NoDup_indices]. intros a b Ha Hb. apply in_indices in Ha, Hb; auto.
  - intros x (idx & -> & Hidx)%list_elem_of_fmap. apply in_indices in Hidx; [|done].
    apply elem_of_seqZ. specialize (Hr idx Hidx). lia.
  - unfold indices. rewrite !length_map, !length_seqZ. lia.
Qed.

Lemma ravel_numbering shape : numbering shape (ravel shape).
Proof.
  split; [intros idx Hib; apply ravel_bounds; [by eapply in_bounds_positive|done]|].
  intros a b Ha Hb E. pose proof (in_bounds_positive _ _ Ha). rewrite <- (unravel_ravel shape a), E by done.
  by apply unravel_ravel.
Qed.

Lemma dense_numbering t : consistent t → is_sparse_ t = false → nonneg_sizes t →
  is_non_overlapping_and_dense_ t = true → numbering (sizes_ t) (λ idx, offset idx (strides_ t)).
Proof.
  intros Hc Hsp Hn Hd. split.
  - intros idx Hib. rewrite <- (consistent_numel _ Hc). by apply dense_offset.
  - intros a b Ha Hb E. apply flag_dense in Hd; [|done..].
    pose proof (consistent_length _ Hc) as Hl. pose proof (consistent_numel _ Hc) as Hm.
    pose proof (in_bounds_positive _ _ Ha) as Hp%multiply_pos. destruct Hd as [?|(_ & Hinj & _)]; [lia|].
    change (map fst) with dims_sizes in Hinj. rewrite dims_sizes_zip in Hinj by done.
    change (map snd ?l) with (snd <$> l) in Hinj. rewrite snd_zip in Hinj by lia. by apply Hinj.
Qed.

(** The channels-last format determines where each element is. *)
Lemma channels_last_offsets t t' idx : consistent t → consistent t' → is_sparse_ t = false → is_sparse_ t' = false →
  sizes_ t' = sizes_ t → is_channels_last_contiguous_ t = true → is_channels_last_contiguous_ t' = true →
  in_bounds (sizes_ t) idx → offset idx (strides_ t') = offset idx (strides_ t).
Proof.
  intros Hc Hc' Hsp Hsp' Es Hf Hf' Hib. pose proof (in_bounds_positive _ _ Hib) as Hp.
  destruct (consistent_flags _ Hc) as (_ & F & _). destruct (consistent_flags _ Hc') as (_ & F' & _).
  rewrite F in Hf. rewrite F' in Hf'. unfold compute_channels_last_contiguous_2d in *. rewrite Hsp in Hf. rewrite Hsp', Es in Hf'.
  pose proof (consistent_length _ Hc) as Hl. pose proof (consistent_length _ Hc') as Hl'. rewrite Es in Hl'.
  assert (length (sizes_ t) = 4%nat) as H4.
  { unfold _compute_channels_last_contiguous_2d in Hf. by destruct (length (sizes_ t)) as [|[|[|[|[|]]]]]. }
  destruct (sizes_ t) as [|N [|C [|H [|W [|]]]]]; try done.
  destruct (strides_ t) as [|a0 [|a1 [|a2 [|a3 [|]]]]]; try done.
  destruct (strides_ t') as [|b0 [|b1 [|b2 [|b3 [|]]]]]; try done.
  pose proof (in_bounds_length _ _ Hib) as Hli. destruct idx as [|n [|c [|h [|w [|]]]]]; try done.
  pose proof (proj1 (channels_last_contiguous_2d_iff N C H W a0 a1 a2 a3 Hp) Hf n c h w Hib).
  pose proof (proj1 (channels_last_contiguous_2d_iff N C H W b0 b1 b2 b3 Hp) Hf' n c h w Hib). congruence.
Qed.

(** ** Strides in the order of the dimensions. *)
Lemma write_perm_length perm : ∀ x r, length (write_perm perm x r) = length r.
Proof. induction perm as [|p perm IH]; intros [|y x] r; cbn; try done. by rewrite IH, length_insert. Qed.

Lemma write_perm_other perm : ∀ x r q, q ∉ perm → at_ (write_perm perm x r) q = at_ r q.
Proof.
  induction perm as [|p perm IH]; intros [|y x] r q Hq; cbn; try done.
  apply not_elem_of_cons in Hq as [Hne Hq]. rewrite IH by done. by apply at_insert_ne.
Qed.

Lemma write_perm_at perm : ∀ x r, NoDup perm → length perm = length x → Forall (λ p, (p < length r)%nat) perm →
  map (at_ (write_perm perm x r)) perm = x.
Proof.
  induction perm as [|p perm IH]; intros [|y x] r Hn Hl Hp; cbn; try done.
  apply NoDup_cons in Hn as [Hpn Hn]. apply Forall_cons in Hp as [Hp Hp'].
  rewrite write_perm_other by done. rewrite at_insert_eq by done. f_equal.
  apply IH; [done|by injection Hl|]. rewrite length_insert. done.
Qed.

Lemma write_perm_map f perm : ∀ x r, write_perm perm (map f x) (map f r) = map f (write_perm perm x r).
Proof.
  induction perm as [|p perm IH]; intros [|y x] r; cbn; try done.
  change (map f r) with (f <$> r). rewrite <- list_fmap_insert. apply IH.
Qed.

Section order.
Context (n : nat) (perm : list nat) (Hperm : perm ≡ₚ seq 0 n).

Lemma reorder_perm l : length l = n → reorder perm l ≡ₚ l.
Proof.
  intros Hl. rewrite reorder_full by (by rewrite (perm_length _ _ Hperm)). rewrite Hperm, <- Hl. by rewrite map_at_seq.
Qed.

(** [invert_perm] undoes the reordering. *)
Definition inverted (x : list Z) : list Z := write_perm perm x (replicate (length x) 0).

Lemma inverted_length x : length (inverted x) = length x.
Proof. unfold inverted. by rewrite write_perm_length, length_replicate. Qed.

Lemma reorder_inverted x : length x = n → reorder perm (inverted x) = x.
Proof.
  intros Hl. rewrite reorder_full by (by rewrite (perm_length _ _ Hperm), inverted_length).
  apply write_perm_at; [|by rewrite (perm_length _ _ Hperm)|].
  - rewrite Hperm. apply NoDup_seq.
  - rewrite length_replicate, Hl. apply Forall_forall. intros p. rewrite Hperm, elem_of_seq. lia.
Qed.

Lemma inverted_reorder l : length l = n → inverted (reorder perm l) = l.
Proof.
  intros Hl. assert (length (reorder perm l) = n) as Hr by (by apply reorder_length).
  apply (reorder_inj n perm Hperm); [by rewrite inverted_length|done|]. by apply reorder_inverted.
Qed.

Lemma inverted_Forall (P : Z → Prop) x : length x = n → Forall P x → Forall P (inverted x).
Proof.
  intros Hl. rewrite <- (reorder_perm (inverted x)) by (by rewrite inverted_length). by rewrite reorder_inverted.
Qed.

Lemma inverted_mul k x : inverted (map (Z.mul k) x) = map (Z.mul k) (inverted x).
Proof.
  unfold inverted. rewrite <- write_perm_map, length_map. f_equal.
  rewrite <- (Z.mul_0_r k) at 1. change (map ?f ?l) with (f <$> l). by rewrite fmap_replicate.
Qed.
End order.

Lemma compatible_mul k sh : ∀ a, compatible_stride_loop (k * a) sh = map (Z.mul k) (compatible_stride_loop a sh).
Proof. induction sh as [|s sh IH]; intros a; cbn; [done|]. by rewrite <- Z.mul_assoc, IH. Qed.

Lemma compatible_snoc l s : ∀ a, compatible_stride_loop a (l ++ [s])
  = compatible_stride_loop a l ++ [a * multiply_integers l].
Proof.
  induction l as [|x l IH]; intros a; cbn; [f_equal; lia|]. rewrite IH. by rewrite Z.mul_assoc.
Qed.

Lemma compatible_length sh : ∀ a, length (compatible_stride_loop a sh) = length sh.
Proof. induction sh as [|s sh IH]; intros a; cbn; [done|]. by rewrite IH. Qed.

(** The order of the dimensions of a contiguous tensor. *)
Lemma compatible_rev_offset k shape : ∀ idx, length idx = length shape →
  offset idx (rev (compatible_stride_loop k (rev shape))) = k * ravel shape idx.
Proof.
  induction shape as [|s shape IH]; intros [|x idx] Hl; try done; [cbn; lia|]. cbn [rev].
  rewrite compatible_snoc, rev_app_distr. cbn [rev app offset ravel]. rewrite IH by (cbn in Hl; lia).
  rewrite multiply_rev. lia.
Qed.

Lemma reorder_rev l : reorder (rev (seq 0 (length l))) l = rev l.
Proof.
  rewrite reorder_full by (by rewrite length_rev, length_seq). rewrite map_rev. by rewrite map_at_seq.
Qed.

Lemma offset_mul k st : ∀ idx, offset idx (map (Z.mul k) st) = k * offset idx st.
Proof. induction st as [|y st IH]; intros [|x idx]; cbn; try lia. rewrite IH. lia. Qed.

Lemma compatible_fit sh : ∀ a, 0 <= a → Forall (λ s, 0 <= s) sh →
  a * multiply_integers (map (Z.max 1) sh) <= int64_max → Forall nonneg_i64 (compatible_stride_loop a sh).
Proof.
  induction sh as [|s sh IH]; intros a Ha Hs Hm; cbn in *; [constructor|].
  apply Forall_cons in Hs as [Hs Hsh]. pose proof (prod_max1_pos sh) as Hp.
  set (p := multiply_integers _) in *. pose proof (mul_bound a (Z.max 1 s * p) a (Z.max 1 s * p)).
  assert (1 <= Z.max 1 s * p) as Hq by (apply mul_ge_1; lia).
  constructor.
  - split; [done|]. etransitivity; [|exact Hm]. rewrite <- (Z.mul_1_r a) at 1. apply Z.mul_le_mono_nonneg_l; lia.
  - apply IH; [by apply Z.mul_nonneg_nonneg|done|]. fold p. etransitivity; [|exact Hm].
    rewrite <- Z.mul_assoc. apply Z.mul_le_mono_nonneg_l; [done|]. apply Z.mul_le_mono_nonneg_r; lia.
Qed.

Lemma extent_reorder n perm shape : perm ≡ₚ seq 0 n → length shape = n → extent_fits shape →
  extent_fits (reorder perm shape).
Proof.
  intros Hp Hl [Hn Hm]. pose proof (reorder_perm n perm Hp shape Hl) as Hr. split.
  - by rewrite Hr.
  - by rewrite (multiply_perm _ _ (Permutation_map (Z.max 1) Hr)).
Qed.

(** The strides of an output that is allocated in the order of [perm]. *)
Lemma ordered_strides n perm shape k : perm ≡ₚ seq 0 n → length shape = n → extent_fits shape →
  let st := inverted perm (compatible_stride_loop 1 (reorder perm shape)) in
  length st = n ∧ Forall nonneg_i64 st ∧
  inverted perm (compatible_stride_loop k (reorder perm shape)) = map (Z.mul k) st ∧
  reorder perm (map (Z.mul k) st) = compatible_stride_loop k (reorder perm shape).
Proof.
  intros Hp Hl He st. pose proof (extent_reorder n perm shape Hp Hl He) as [Hn Hm].
  assert (length (reorder perm shape) = n) as Hr by (by apply reorder_length).
  pose proof (prod_max1_pos (reorder perm shape)).
  assert (inverted perm (compatible_stride_loop k (reorder perm shape)) = map (Z.mul k) st) as E.
  { unfold st. rewrite <- inverted_mul, <- compatible_mul, Z.mul_1_r. done. }
  split_and!; [unfold st; by rewrite inverted_length, compatible_length| |done|].
  - apply (inverted_Forall n); [done|by rewrite compatible_length|]. apply compatible_fit; [lia|done|lia].
  - rewrite <- E. apply (reorder_inverted n); [done|by rewrite compatible_length].
Qed.

(** Those of the usual order are the strides of a contiguous tensor. *)
Lemma inverted_contiguous shape k idx : length idx = length shape →
  let perm := rev (seq 0 (length shape)) in
  offset idx (inverted perm (compatible_stride_loop k (reorder perm shape))) = k * ravel shape idx.
Proof.
  intros Hl perm. assert (perm ≡ₚ seq 0 (length shape)) as Hp by (symmetry; apply Permutation_rev).
  assert (inverted perm (compatible_stride_loop k (reorder perm shape))
    = rev (compatible_stride_loop k (rev shape))) as ->; [|by apply compatible_rev_offset].
  set (x := compatible_stride_loop k (reorder perm shape)).
  assert (length x = length shape) as Hx
    by (unfold x; rewrite compatible_length; by apply reorder_length).
  pose proof (reorder_inverted _ _ Hp x Hx) as E. unfold perm in E at 1.
  rewrite <- (inverted_length perm x) in Hx. rewrite <- Hx in E at 1. rewrite reorder_rev in E.
  rewrite <- (rev_involutive (inverted perm x)), E. unfold x, perm. by rewrite reorder_rev.
Qed.

(** ** The elements by their offsets. *)
Definition offsets (it : TensorIteratorBase) (idx : list Z) : list Z :=
  map (λ op, offset idx (stride_bytes op)) (operands_ it).
Definition offset_elements (it : TensorIteratorBase) : list (list Z) := map (offsets it) (indices (shape_ it)).

Lemma elements_offsets it : elements it = map (zip_with Z.add (map op_data (operands_ it))) (offset_elements it).
Proof.
  unfold elements, offset_elements. rewrite map_map. apply map_ext. intros idx. unfold addresses, offsets.
  induction (operands_ it) as [|op ops IH]; cbn; [done|]. by rewrite IH.
Qed.

Lemma zip_add_inj (d : list Z) : ∀ a b, length a = length d → length b = length d →
  zip_with Z.add d a = zip_with Z.add d b → a = b.
Proof.
  induction d as [|x d IH]; intros [|y a] [|z b]; cbn; try done. intros [= Ha] [= Hb] [= H1 H2].
  f_equal; [lia|by apply IH].
Qed.

(** Iterators that visit the same elements from the same addresses. *)
Lemma same_offsets it it' : restrided_ops it it' → elements it' = elements it →
  offset_elements it' = offset_elements it.
Proof.
  intros Hre. rewrite !elements_offsets.
  assert (map op_data (operands_ it') = map op_data (operands_ it)) as ->.
  { unfold restrided_ops in Hre. induction Hre as [|op op' ops ops' Hop _ IH]; cbn; [done|].
    by rewrite IH, (restrided_data _ _ Hop). }
  assert (∀ it0, length (operands_ it0) = length (operands_ it) →
    Forall (λ l, length l = length (map op_data (operands_ it))) (offset_elements it0)) as Hl.
  { intros it0 E. apply Forall_fmap, Forall_forall. intros idx _. unfold compose, offsets. rewrite !length_map. done. }
  pose proof (Hl it' (eq_sym (Forall2_length _ _ _ Hre))) as H1. pose proof (Hl it eq_refl) as H2.
  revert H1 H2. generalize (offset_elements it'), (offset_elements it), (map op_data (operands_ it)).
  clear. intros l1 l2 d H1. revert l2. induction H1 as [|a l1 Ha _ IH]; intros [|b l2] H2 E; try done.
  apply Forall_cons in H2 as [Hb H2]. cbn in E. injection E as E1 E2. f_equal; [by eapply zip_add_inj|by apply IH].
Qed.

(** Where an operand is, from the first element of its tensor in [s]. *)
Definition operand_at (s : Store) (op : OperandInfo) (idx : list Z) : Z :=
  match tensor_base op ≫= (λ id, tensors s !! id) with Some i => operand_offset i idx | None => 0 end.

(** The iterator visits the elements of the tensors that broadcasting to
    [shape] pairs with each other. *)
Definition visits (s : Store) (shape : list Z) (it : TensorIteratorBase) : Prop :=
  offset_elements it ≡ₚ map (λ idx, map (λ op, operand_at s op idx) (operands_ it)) (indices shape).

(** The strides of an operand in the order of [perm]. *)
Definition ordered (s : Store) (shape : list Z) (perm : list nat) (op : OperandInfo) : Prop :=
  ∃ st, stride_bytes op = reorder perm st ∧ length st = length shape ∧
    ∀ idx, in_bounds shape idx → offset idx st = operand_at s op idx.

Lemma ordered_visits s shape perm it : Forall (λ s, 0 <= s) shape → perm ≡ₚ seq 0 (length shape) →
  shape_ it = reorder perm shape → Forall (ordered s shape perm) (operands_ it) →
  iter_ok it ∧ visits s shape it.
Proof.
  intros Hn Hp Es Hops. assert (ndim it = length shape) as Hd
    by (unfold ndim; rewrite Es; by apply reorder_length). split.
  - split.
    + unfold nonneg_shape. rewrite Es. by apply (reorder_Forall (length shape)).
    + eapply Forall_impl; [exact Hops|]. intros op (st & -> & Hl & _). rewrite Hd. by apply reorder_length.
  - unfold visits, offset_elements. rewrite Es, <- (indices_reorder (length shape)), map_map by done.
    destruct (positive_or_empty shape Hn) as [Hpos|E]; [|by unfold indices; rewrite E].
    apply reflexive_eq, map_ext_in. intros idx Hidx. apply list_elem_of_In, in_indices in Hidx; [|done].
    unfold offsets. apply map_ext_in. intros op Hop. apply list_elem_of_In in Hop. rewrite Forall_forall in Hops.
    destruct (Hops op Hop) as (st & -> & Hl & Hoff). rewrite <- Hoff by done.
    apply (offset_reorder (length shape)); [done|by apply in_bounds_length|done].
Qed.

(** All the elements in one dimension. *)
Lemma linear_visits s shape g it : Forall (λ s, 0 <= s) shape → numbering shape g →
  (shape_ it = [multiply_integers shape] ∨ shape = [] ∧ shape_ it = []) →
  Forall (λ op, ∃ k, (∀ idx, in_bounds shape idx → operand_at s op idx = k * g idx) ∧
    (shape_ it ≠ [] → stride_bytes op = [k])) (operands_ it) →
  visits s shape it.
Proof.
  intros Hn Hg Es Hops. pose proof (numbering_perm shape g Hn Hg) as Hperm. unfold visits, offset_elements.
  destruct (positive_or_empty shape Hn) as [Hpos|E].
  2: { destruct Es as [->|[-> _]]; [|done]. unfold indices. cbn. by rewrite E. }
  assert (map (offsets it) (indices (shape_ it)) = map (λ x, map (λ op, offset [x] (stride_bytes op)) (operands_ it))
    (seqZ 0 (multiply_integers shape))) as ->.
  { destruct Es as [->|[-> ->]].
    - unfold indices. rewrite map_map. cbn. rewrite Z.mul_1_r. apply map_ext_in. intros x Hx.
      apply list_elem_of_In, elem_of_seqZ in Hx. by rewrite Z.mod_small by lia.
    - change (indices []) with [@nil Z]. change (seqZ 0 (multiply_integers [])) with [0]. cbn [map].
      unfold offsets. f_equal. apply map_ext. intros op. by destruct (stride_bytes op). }
  rewrite <- Hperm, map_map. apply reflexive_eq, map_ext_in. intros idx Hidx.
  apply list_elem_of_In, in_indices in Hidx; [|done]. apply map_ext_in. intros op Hop.
  apply list_elem_of_In in Hop. rewrite Forall_forall in Hops. destruct (Hops op Hop) as (k & -> & Hst); [|done].
  destruct Es as [Es|[-> Es]].
  - rewrite Hst by (by rewrite Es). cbn. lia.
  - destruct Hg as [Hr _]. specialize (Hr idx Hidx). cbn in Hr. assert (g idx = 0) as -> by lia.
    rewrite Z.mul_0_r. by destruct (stride_bytes op).
Qed.
