(* ===== verification/IterBuild.v ===== *)
(** * What the construction of an iterator promises.

    [build] of TensorIteratorBuild.v: the iterator visits, for each index of the
    broadcast shape, the elements of the tensors that broadcasting pairs with
    each other, whichever way its dimensions are set up. *)

From S2P Require Import Prelude.
From S2P Require Import Layout.
From S2P Require Import Contiguity.
From S2P Require Import SafeNum.
From S2P Require Import TensorMeta.
From S2P Require Import Broadcast.
From S2P Require Import MemoryOverlap.
From S2P Require Import ScalarType.
From S2P Require Import TensorIterator.
From S2P Require Import IterSpace.
From S2P Require Import IterDims.
From S2P Require Import TensorStore.
From S2P Require Import StoreFacts.
From S2P Require Import TensorCPU.
From S2P Require Import TensorIteratorConfig.
From S2P Require Import TensorIteratorBuild.
From S2P Require Import IterOperands.
From S2P Require Import IterTypes.
From S2P Require Import IterPrepare.
From S2P Require Import IterOutputs.
From S2P Require Import IterLayout.

#[local] Arguments at_ : simpl never.

(** ** The operands. *)
(** The tensor of an operand: the one of the configuration, a temporary for it,
    or one that was allocated. *)
Definition source_tensor (s0 : Store) (t : option tensor_ref) (op : OperandInfo) (id : tensor_ref) : Prop :=
  match t with
  | Some id0 => id = id0 ∧ original_tensor_base op = None ∨
      tensors s0 !! id = None ∧ original_tensor_base op = Some id0
  | None => tensors s0 !! id = None ∧ original_tensor_base op = None
  end.

Definition operand_built (s0 s : Store) (config : TensorIteratorConfig) (shape : list Z) (t : option tensor_ref)
    (op : OperandInfo) : Prop :=
  ∃ id i, tensor_base op = Some id ∧ tensors s !! id = Some i ∧ source_tensor s0 t op id ∧
    current_dtype op = info_dtype i ∧ target_dtype op = info_dtype i ∧ expandable (info_sizes i) shape ∧
    (is_output op = true → info_sizes i = shape ∨ reduction_ config = true).

(** An output that is allocated or resized. *)
Definition finished (shape : list Z) (op op' : OperandInfo) (i : TensorInfo) : Prop :=
  info_sizes i = shape ∧ current_dtype op' = info_dtype i ∧ target_dtype op' = info_dtype i ∧
  target_dtype op = info_dtype i ∧ is_output op' = is_output op ∧
  original_tensor_base op' = original_tensor_base op ∧
  (∀ id, tensor_base op = Some id → tensor_base op' = Some id).

Definition ready_tensor (s0 s : Store) (config : TensorIteratorConfig) (shape : list Z) (t : option tensor_ref)
    (op : OperandInfo) : Prop :=
  ∃ op0, ready s0 s config shape t op0 ∧ restrided op0 op.

Lemma operand_built_set_up s0 s s' config shape t op op' P : tensors s0 ⊆ tensors s →
  ready_tensor s0 s config shape t op → set_up P s s' op op' →
  (∀ i, P op op' i → finished shape op op' i) → operand_built s0 s' config shape t op'.
Proof.
  intros Hsub (op0 & [_ Hr] & Hre) Hset HP. unfold set_up in Hset.
  assert (will_resize op = will_resize op0 ∧ tensor_base op = tensor_base op0 ∧ is_output op = is_output op0 ∧
    original_tensor_base op = original_tensor_base op0 ∧ current_dtype op = current_dtype op0 ∧
    target_dtype op = target_dtype op0) as (Ew & Et & Eo & Eor & Ec & Ect) by (split_and!; by rewrite Hre).
  rewrite Ew, Et in Hset. clear Hre. unfold operand_built, source_tensor. destruct t as [id0|].
  - destruct Hr as [(i0 & id & i & H1 & H2 & H3 & H4 & H5 & H6 & H7) (i0' & Hi0 & Hsh)].
    rewrite H1 in Hi0. injection Hi0 as <-. rewrite <- Eor in H7. rewrite <- Et in H2.
    assert (id = id0 ∧ original_tensor_base op = None ∨ tensors s0 !! id = None ∧ original_tensor_base op = Some id0)
      as Hsrc by (destruct H7 as [(? & _ & ?)|?]; auto).
    unfold shaped in Hsh. rewrite <- Et, H2 in Hset. destruct (will_resize op0).
    + destruct Hset as (id' & i' & E1 & E2 & _ & (Hz & Hc & Hct & _ & Ho & Hor & Hsame)%HP).
      rewrite (Hsame id H2) in E1. injection E1 as <-. exists id, i'. rewrite Hor.
      split_and!; try done; [by apply Hsame|rewrite Hz; apply expandable_refl|by left].
    + destruct Hset as [-> Hk]. exists id, i. rewrite Ec, Ect, Eo, H4. destruct Hsh. split_and!; try done. by apply Hk.
  - destruct Hr as (_ & Hw & Ht & Hor & _). rewrite Hw in Hset.
    destruct Hset as (id & i & E1 & E2 & Hn & (Hz & Hc & Hct & _ & Ho & Hor' & _)%HP). exists id, i. rewrite Hor', Eor.
    split_and!; try done; [|rewrite Hz; apply expandable_refl|by left].
    destruct Hn as [Hn|Hn]; [by eapply lookup_weaken_None|congruence].
Qed.

Lemma operand_built_restrided s0 s config shape t op op' : restrided op op' →
  operand_built s0 s config shape t op → operand_built s0 s config shape t op'.
Proof. intros ->. done. Qed.

(** An output that is not as it should be. *)
Definition wanting (s : Store) (shape : list Z) (op : OperandInfo) : Prop :=
  match tensor_base op with
  | None => original_tensor_base op = None ∧ plain_or_undefined (target_dtype op) = true
  | Some id => ∃ i, tensors s !! id = Some i ∧ info_sizes i ≠ shape ∧ target_dtype op = info_dtype i ∧
      current_dtype op = info_dtype i
  end.

Lemma ready_wanting s0 s config shape t op : ready s0 s config shape t op → will_resize op = true → wanting s shape op.
Proof.
  intros [_ Hr] Hw. unfold wanting. destruct t as [id0|].
  - destruct Hr as [(i0 & id & i & H1 & -> & H3 & H4 & H5 & H6 & _) (i0' & Hi0 & Hsh)]. unfold shaped in Hsh.
    rewrite Hw in Hsh. destruct Hsh as [_ Hne]. exists i. rewrite H1 in Hi0. injection Hi0 as <-.
    split_and!; try done. by rewrite H4.
  - destruct Hr as (_ & _ & -> & Hor & Hp). done.
Qed.

Lemma ready_defined s0 s config shape t op id : ready s0 s config shape t op → tensor_base op = Some id →
  is_Some (tensors s !! id).
Proof.
  intros [_ Hr] Ht. destruct t as [id0|].
  - destruct Hr as [(i0 & id' & i & _ & E & Hi & _) _]. exists i. congruence.
  - destruct Hr as (_ & _ & ? & _). congruence.
Qed.

Section Outputs.
Context `{LawfulOperators} (shape : list Z) (He : extent_fits shape).

(** The options of an output that is allocated. *)
Lemma wanting_options s1 s op o strides : wanting s1 shape op → original_options op s = Ok o →
  (∀ id, tensor_base op = Some id → tensors s !! id = tensors s1 !! id) →
  defined_tensor op || is_type_defined op = true → opt_dtype strides = opt_dtype o →
  match tensor_base op with
  | None => plain_dtype (opt_dtype strides)
  | Some id => ∃ i, tensors s !! id = Some i ∧ info_sizes i ≠ shape
  end.
Proof.
  intros Hw Ho Hs Hd Eo. apply original_options_Ok in Ho as [_ Ho]. unfold wanting, defined_tensor in *.
  destruct (tensor_base op) as [id|].
  - destruct Hw as (i & Hi & Hne & _). exists i. by rewrite Hs.
  - destruct Hw as [Hor Hp]. rewrite Eo, Ho by done. apply okt_plain; [done|].
    unfold is_type_defined in Hd. rewrite bool_decide_false in Hd by naive_solver. cbn in Hd.
    by apply negb_true_iff, bool_decide_eq_false in Hd.
Qed.

(** What is common to the outputs that are made and those that are resized. *)
Lemma made_finished s1 s op op1 op' o id i : wanting s1 shape op →
  (∀ id, tensor_base op = Some id → tensors s !! id = tensors s1 !! id) →
  op1 = set_stride_bytes (stride_bytes op1) op → made_output o s op1 op' id i → info_sizes i = shape →
  (original_tensor_base op = None → opt_dtype o = target_dtype op) →
  tensor_base op' = Some id ∧ (tensor_base op = Some id ∨ tensors s !! id = None) ∧ (target_dtype op' = info_dtype i ∧ target_dtype op = info_dtype i) ∧
  stride_bytes op' = stride_bytes op1 ∧ finished shape op op' i.
Proof.
  intros Hw Hs E Hm Hz Ho. unfold made_output, wanting in *. rewrite E in Hm. cbn in Hm.
  destruct (tensor_base op) as [id0|] eqn:Et.
  - destruct Hw as (i1 & Hi1 & _ & H1 & H2). destruct Hm as (-> & -> & i0 & Hi0 & Ed).
    rewrite (Hs id0 eq_refl) in Hi0. rewrite Hi1 in Hi0. injection Hi0 as <-. cbn. unfold finished. cbn.
    rewrite Et, H1, H2, Ed. split_and!; auto.
  - destruct Hw as [Hor _]. destruct Hm as (Hn & Ed & ->). cbn. unfold finished. cbn. rewrite Et, Hor, Ed, (Ho Hor).
    split_and!; auto. done.
Qed.

(** An output that has its sizes is left alone. *)
Lemma keep_output sizes strides options op s : is_Some (tensor_base op) → will_resize op = false →
  set_output_raw_strided sizes strides options op s = (s, Ok op).
Proof. intros [id E] Hw. unfold set_output_raw_strided. by rewrite E, Hw. Qed.

Lemma wlp_keep {A} (m : method Store A) a s Q : m s = (s, Ok a) → Q a s → wlp m Q s.
Proof. intros Hm HQ. rewrite wlp_run. intros a' s'. rewrite Hm. by intros [= <- <-]. Qed.

(** What the loop relies on at an output. *)
Definition at_output (s1 s : Store) (op : OperandInfo) : Prop :=
  store_ok s ∧ (∀ id, tensor_base op = Some id → tensors s !! id = tensors s1 !! id) ∧
  if will_resize op then wanting s1 shape op else is_Some (tensor_base op).

(** ** The outputs of the fast set-up. *)
Definition fast_made (strides : list Z) (mf : option MemoryFormat) (op op' : OperandInfo) (i : TensorInfo) : Prop :=
  finished shape op op' i ∧
  if bool_decide (strides = []) then is_contiguous_default_impl (default Contiguous mf) (info_impl i) = true
  else info_strides i = strides.

Lemma fast_output_ok strides mf s1 s op : Forall nonneg_i64 strides → at_output s1 s op →
  wlp (fast_output shape strides mf op) (λ op' s', sets_up (fast_made strides mf) s s' op op') s.
Proof.
  intros Hst (Hs & Hk & Hop). unfold fast_output. do 4 wlp_step. apply TORCH_INTERNAL_ASSERT_Ok in E.
  pose proof (original_options_Ok _ _ _ E0) as [Hmf Hdt].
  set (options := match mf with Some f => _ | None => a0 end).
  assert (opt_dtype options = opt_dtype a0 ∧ opt_memory_format options = mf) as [Ed Em]
    by (unfold options; destruct mf; [done|by rewrite Hmf]).
  unfold sets_up. destruct (will_resize op) eqn:Hw.
  2: { eapply wlp_keep; [by apply keep_output|]. done. }
  eapply wlp_mono; [apply set_output_ok; try done; by eapply wanting_options|].
  intros op' s' (Hg & Hok & id & i & E2 & Hz & Hstr & Hm). split; [done|]. split; [done|].
  destruct (made_finished s1 s op op op' options id i) as (H1 & H2 & _ & _ & H4); try done; [by destruct op|by rewrite Ed|].
  exists id, i. split_and!; try done. unfold strided_as in Hstr. by rewrite Em in Hstr.
Qed.

(** ** The outputs of the normal set-up. *)
Definition normal_made (perm : list nat) (op op' : OperandInfo) (i : TensorInfo) : Prop :=
  finished shape op op' i ∧ ∃ st, stride_bytes op' = reorder perm st ∧ length st = length shape ∧
    ∀ idx, in_bounds shape idx → offset idx st = info_itemsize i * offset idx (info_strides i).

Lemma is_inverted_rev it : length (perm_ it) = ndim it → is_inverted it = true → perm_ it = rev (seq 0 (ndim it)).
Proof.
  intros Hl Hi. unfold is_inverted in Hi. rewrite forallb_forall in Hi.
  apply (nth_ext _ _ 0%nat 0%nat); [by rewrite length_rev, length_seq|]. intros j Hj. rewrite Hl in Hj.
  specialize (Hi j ltac:(apply in_seq; lia)). apply Nat.eqb_eq in Hi. rewrite Hi.
  rewrite rev_nth by (by rewrite length_seq). rewrite length_seq, seq_nth by lia. lia.
Qed.

Lemma invert_perm_eq it x y : invert_perm x it = Ok y → y = inverted (perm_ it) x.
Proof. unfold invert_perm. intros (? & _ & (? & _ & [= <-])%bind_Ok)%bind_Ok. done. Qed.

Lemma elementSize_itemsize t n : elementSize t = Ok n → n = dtype_itemsize t.
Proof. unfold elementSize, dtype_itemsize. destruct (sizeof_ctype t); [by intros [= <-]|done]. Qed.

Section Normal.
Context (it : TensorIteratorBase) (perm : list nat) (Hperm : perm ≡ₚ seq 0 (length shape)).
Context (Hpi : perm_ it = perm) (Hsh : shape_ it = reorder perm shape).

Lemma normal_ndim : ndim it = length shape.
Proof. unfold ndim. rewrite Hsh. by apply reorder_length. Qed.

(** The strides that are asked for suit the strides of the operand. *)
Lemma normal_strides es strides options i s : tensor_ok s i → info_sizes i = shape → info_itemsize i = es → 0 < es →
  opt_memory_format options = None →
  (if is_inverted it then Ok [] else output_strides it es) = Ok strides → strided_as strides options i →
  ∃ st, compatible_stride es it = reorder perm st ∧ length st = length shape ∧
    ∀ idx, in_bounds shape idx → offset idx st = info_itemsize i * offset idx (info_strides i).
Proof.
  intros [Hc Hsp Hext _ _ _ _] Hz Hes Hpos Hmf Hstr Has. unfold compatible_stride. rewrite Hsh.
  destruct (ordered_strides _ perm shape es Hperm eq_refl He) as (Hl & _ & E1 & E2).
  set (st := inverted perm _) in *. exists (map (Z.mul es) st). split; [done|].
  split; [by rewrite length_map|]. intros idx Hib. rewrite offset_mul, Hes. f_equal.
  unfold info_sizes, info_strides in *.
  assert (is_contiguous_ (info_impl i) = true → offset idx (strides_ (info_impl i)) = ravel shape idx) as Hcont.
  { intros Hf. rewrite <- Hz. apply contiguous_offset; try done; [by destruct Hext|by rewrite Hz]. }
  destruct (is_inverted it) eqn:Einv.
  - injection Hstr as <-. unfold strided_as in Has. rewrite Hmf in Has. cbn in Has. rewrite Hcont by done.
    apply is_inverted_rev in Einv; [|by rewrite Hpi, normal_ndim, (perm_length _ _ Hperm)].
    rewrite Hpi, normal_ndim in Einv. unfold st. rewrite Einv.
    rewrite (inverted_contiguous shape 1) by (by apply in_bounds_length). lia.
  - unfold output_strides in Hstr. apply bind_Ok in Hstr as (ts & Hts%invert_perm_eq & [= <-]).
    unfold compatible_stride in Hts. rewrite Hsh, Hpi, E1 in Hts. subst ts. rewrite map_map in Has.
    assert (map (λ x, es * x / es) st = st) as Edv.
    { rewrite <- (map_id st) at 2. apply map_ext. intros x. rewrite Z.mul_comm. by apply Z.div_mul; lia. }
    rewrite Edv in Has. unfold strided_as in Has. case_bool_decide as Enil; [|by rewrite <- Has].
    rewrite Enil in Hl |- *. cbn in Hl. rewrite <- (in_bounds_length _ _ Hib) in Hl. by destruct idx.
Qed.

Lemma allocate_output_ok s1 s op : at_output s1 s op →
  wlp (allocate_or_resize_output it op) (λ op' s', sets_up (normal_made perm) s s' op op') s.
Proof.
  intros (Hs & Hk & Hop). unfold allocate_or_resize_output, sets_up. destruct (will_resize op) eqn:Hw.
  2: { destruct Hop as [id Et]. unfold defined_tensor. rewrite Et. cbn.
       do 4 wlp_step. eapply wlp_keep; [apply keep_output; [by exists id|done]|]. done. }
  rewrite orb_true_r. do 8 wlp_step. apply TORCH_INTERNAL_ASSERT_Ok in E. apply elementSize_itemsize in E0.
  apply invert_perm_eq in E1. rewrite Hpi, Hsh, (inverted_reorder (length shape)) in E1 by done. subst a1.
  set (op1 := set_stride_bytes _ op) in *. pose proof (original_options_Ok _ _ _ E2) as [Hmf Hdt].
  apply wlp_bind.
  assert (∀ strides, (if is_inverted it then Ok [] else output_strides it a0) = Ok strides →
    wlp (set_output_raw_strided shape strides a2 op1) (λ op', wlp (mret (set_dtypes (target_dtype op') (target_dtype op') op'))
      (λ op' s', storages_grow s s' ∧ store_ok s' ∧ ∃ id i, tensors s' = <[id := i]> (tensors s) ∧
        tensor_base op' = Some id ∧ normal_made perm op op' i ∧
        (tensor_base op = Some id ∨ tensors s !! id = None))) s) as Hset.
  2: { destruct (is_inverted it); repeat wlp_step; by apply Hset. }
  intros strides Hstr. eapply wlp_mono; [apply set_output_ok; try done|].
  - destruct (is_inverted it); [injection Hstr as <-; constructor|]. unfold output_strides in Hstr.
    apply bind_Ok in Hstr as (ts & Hts%invert_perm_eq & [= <-]). unfold compatible_stride in Hts.
    destruct (ordered_strides _ perm shape a0 Hperm eq_refl He) as (_ & Hfit & E3 & _).
    rewrite Hsh, Hpi, E3 in Hts. subst ts. rewrite map_map. apply Forall_fmap.
    eapply Forall_impl; [exact Hfit|]. intros x Hx. unfold compose.
    destruct (decide (a0 = 0)) as [->|Hne]; [by rewrite Z.mul_0_l|]. by rewrite Z.mul_comm, Z.div_mul.
  - change (tensor_base op1) with (tensor_base op). eapply wanting_options; try done. by rewrite E, orb_true_r.
  - intros op' s' (Hg & Hok & id & i & E3 & Hz & Has & Hm).
    destruct (made_finished s1 s op op1 op' a2 id i) as (H1 & H2 & H3 & H4 & (F1 & F2 & F2' & F2'' & F3 & F4 & F5)); try done.
    assert (tensor_ok s' i) as Hiok by (apply (store_ok_lookup s' id); [done|by rewrite E3, lookup_insert_eq]).
    assert (info_itemsize i = a0) as Hes.
    { rewrite E0. unfold info_itemsize. f_equal. by destruct H3. }
    destruct (normal_strides a0 strides a2 i s') as (st & Hst & Hl & Hoff); try done.
    { rewrite <- Hes. by destruct Hiok as [_ _ _ _ _ [? _] _]. }
    apply wlp_ret. split_and!; try done. exists id, i. split_and!; try done.
    destruct H3 as [H3 _]. split; [unfold finished; cbn; by rewrite H3|]. exists st. rewrite <- Hst. cbn. by rewrite H4.
Qed.
End Normal.
End Outputs.

(** ** The iterator that is built, before the data pointers are set; [it0] is
    the one that [prepare] leaves. *)
Record laid_out (s0 : Store) (config : TensorIteratorConfig) (it0 it : TensorIteratorBase) (s : Store)
    : Prop := {
  laid_store : store_ok s;
  laid_device : common_device_ it = kCPU;
  laid_meta : is_meta_ it = false;
  laid_iter : iter_ok it;
  laid_common : common_dtype_ it = common_dtype_ it0;
  laid_targets : map target_dtype (operands_ it) = map target_dtype (operands_ it0);
  laid_operands : Forall2 (operand_built s0 s config (shape_ it0)) (tensors_ config) (operands_ it);
  laid_visits : visits s (shape_ it0) it }.

Lemma set_up_targets P shape s s' ops ops' : Forall2 (set_up P s s') ops ops' →
  (∀ op op' i, P op op' i → finished shape op op' i) → map target_dtype ops' = map target_dtype ops.
Proof.
  intros Hops HP. induction Hops as [|op op' ops ops' Hop _ IH]; [done|]. cbn. rewrite IH. f_equal.
  unfold set_up in Hop. destruct (will_resize op); [|by destruct Hop as [-> _]].
  destruct Hop as (id & i & _ & _ & _ & (_ & _ & -> & -> & _)%HP). done.
Qed.

Lemma restrided_targets ops ops' : Forall2 restrided ops ops' → map target_dtype ops' = map target_dtype ops.
Proof. induction 1 as [|op op' ops ops' Hop _ IH]; [done|]. cbn. by rewrite IH, Hop. Qed.

Section SetUp.
Context `{LawfulOperators} (s0 s1 : Store) (config : TensorIteratorConfig) (it : TensorIteratorBase).
Context (Hcfg : config_ok s0 config) (Hprep : prepared s0 config it s1).
#[local] Notation shape := (shape_ it).
Context (He : extent_fits shape).

(** ** Normal set-up: strides and dimensions. *)
Definition arranged (perm : list nat) (op op' : OperandInfo) : Prop :=
  restrided op op' ∧ (will_resize op = false → ∀ id i, tensor_base op = Some id → tensors s1 !! id = Some i →
    stride_bytes op' = reorder perm (operand_strides config shape i)).

(** The tensor of an operand that is kept. *)
Lemma kept_info t op : ready s0 s1 config shape t op → will_resize op = false →
  ∃ id i, tensor_base op = Some id ∧ tensors s1 !! id = Some i ∧ tensor_ok s1 i ∧ expandable (info_sizes i) shape ∧
    length (info_strides i) = length (info_sizes i).
Proof.
  intros [_ Hr] Hw. destruct t as [id0|]; [|destruct Hr as (_ & ? & _); congruence].
  destruct Hr as [(i0 & id & i & H1 & H2 & H3 & H4 & _) (i0' & Hi0 & Hsh)]. rewrite H1 in Hi0. injection Hi0 as <-.
  unfold shaped in Hsh. rewrite Hw in Hsh. exists id, i.
  assert (tensor_ok s1 i) as Hok by (eapply store_ok_lookup; [by destruct Hprep|done]).
  split_and!; try done; [rewrite H4; by destruct Hsh|]. by apply consistent_length; destruct Hok.
Qed.

Lemma compute_strides_ok : wlp (compute_strides config it) (λ it' s, s = s1 ∧ ∃ ops,
  it' = set_operands ops it ∧ Forall2 (λ op op', restrided op op' ∧
    (if will_resize op then stride_bytes op' = [] else length (stride_bytes op') = length shape) ∧
    (will_resize op = false → ∀ id i, tensor_base op = Some id → tensors s1 !! id = Some i →
      stride_bytes op' = operand_strides config shape i)) (operands_ it) ops) s1.
Proof.
  unfold compute_strides. apply wlp_bind. eapply wlp_mono; [apply map_operands_pure|].
  2: { intros ops s [-> Hops]. apply wlp_ret. split; [done|]. exists ops. split; [done|exact Hops]. }
  intros op Hop. cbv beta. apply list_elem_of_lookup_1 in Hop as [j Hj].
  destruct (Forall2_lookup_r _ _ _ _ _ (prep_operands _ _ _ _ Hprep) Hj) as (t & _ & Hr). pose proof Hr as [Hst _].
  destruct (tensor_base op) as [id|] eqn:Et.
  - destruct (will_resize op) eqn:Hw.
    + apply wlp_ret. split_and!; try done. apply restrided_refl.
    + do 2 wlp_step. apply tensor_info_Ok in E. apply wlp_ret. split; [done|].
      destruct (kept_info t op Hr Hw) as (id' & i & Et' & Hi & _ & Hx & Hl). rewrite Et in Et'. injection Et' as <-.
      rewrite E in Hi. injection Hi as ->. split_and!.
      * apply restrided_set, restrided_refl.
      * cbn. apply operand_strides_length; try done. by destruct Hcfg.
      * intros _ ? ? [= <-] Hi. rewrite E in Hi. by injection Hi as <-.
  - apply wlp_ret. split; [done|]. split; [apply restrided_refl|]. split; [|done].
    destruct (will_resize op) eqn:Hw; [done|].
    destruct (kept_info t op Hr Hw) as (? & ? & ? & _). congruence.
Qed.

(** Operands without strides, those to be allocated, are reordered as well. *)
Lemma reorder_dimensions_any it1 it2 :
  Forall (λ op, stride_bytes op = [] ∨ length (stride_bytes op) = ndim it1) (operands_ it1) →
  reorder_dimensions it1 = Ok it2 → ∃ perm ops, perm ≡ₚ seq 0 (ndim it1) ∧
    it2 = set_perm perm (set_dims (reorder perm (shape_ it1)) ops it1) ∧
    Forall2 (λ op op', restrided op op' ∧
      (length (stride_bytes op) = ndim it1 → stride_bytes op' = reorder perm (stride_bytes op))) (operands_ it1) ops.
Proof.
  intros Hops Hr.
  assert (∀ perm, perm ≡ₚ seq 0 (ndim it1) → permute_dimensions perm (set_perm perm it1) = Ok it2 →
    ∃ perm ops, perm ≡ₚ seq 0 (ndim it1) ∧ it2 = set_perm perm (set_dims (reorder perm (shape_ it1)) ops it1) ∧
    Forall2 (λ op op', restrided op op' ∧
      (length (stride_bytes op) = ndim it1 → stride_bytes op' = reorder perm (stride_bytes op))) (operands_ it1) ops)
    as Hperm.
  { intros perm Hp Hpd. unfold permute_dimensions in Hpd. apply bind_Ok in Hpd as (? & _ & [= <-]).
    exists perm. eexists. split; [done|]. split; [cbn; unfold set_dims, set_perm; cbn; reflexivity|].
    apply Forall2_fmap_r, Forall_Forall2_diag. eapply Forall_impl; [exact Hops|]. intros op Ho. unfold compose.
    case_bool_decide as E; [|split; [apply restrided_set, restrided_refl|done]].
    split; [apply restrided_refl|]. intros Hl. rewrite E in Hl |- *. cbn in Hl. rewrite <- Hl in Hp. cbn in Hp.
    symmetry in Hp. apply Permutation_nil in Hp as ->. done. }
  unfold reorder_dimensions in Hr. destruct (Nat.eqb_spec (ndim it1) 1) as [E1|_].
  - injection Hr as <-. exists [0%nat], (operands_ it1). rewrite E1. split; [done|]. split.
    + unfold ndim in E1. destruct it1 as [[|s [|]]]; try done.
    + apply Forall_Forall2_diag, Forall_forall. intros op _. split; [apply restrided_refl|].
      destruct (stride_bytes op) as [|x [|]]; done.
  - assert (rev (seq 0 (ndim it1)) ≡ₚ seq 0 (ndim it1)) as Hrev by (symmetry; apply Permutation_rev).
    destruct (enforce_linear_iteration_ it1); eapply Hperm; try exact Hr; [done|by apply dimension_sort_perm].
Qed.

(** The operands of the loop over the outputs, when only their strides have
    changed. *)
Section Loop.
Context (ops : list OperandInfo) (Hre : Forall2 restrided (operands_ it) ops).

Lemma loop_lookup j op : ops !! j = Some op → ∃ t op0, tensors_ config !! j = Some t ∧ operands_ it !! j = Some op0 ∧
  ready s0 s1 config shape t op0 ∧ restrided op0 op.
Proof.
  intros Hj. destruct (Forall2_lookup_r _ _ _ _ _ Hre Hj) as (op0 & Hj0 & Hop).
  destruct (Forall2_lookup_r _ _ _ _ _ (prep_operands _ _ _ _ Hprep) Hj0) as (t & Ht & Hr). by exists t, op0.
Qed.

Lemma loop_defined op id : op ∈ ops → tensor_base op = Some id → is_Some (tensors s1 !! id).
Proof.
  intros [j Hj]%list_elem_of_lookup_1 Ht. destruct (loop_lookup j op Hj) as (t & op0 & _ & _ & Hr & E).
  rewrite E in Ht. by eapply ready_defined.
Qed.

Lemma loop_distinct j k opj opk id : j ≠ k → ops !! j = Some opj → ops !! k = Some opk →
  will_resize opj = true → tensor_base opj = Some id → tensor_base opk ≠ Some id.
Proof.
  intros Hjk Hj Hk. destruct (loop_lookup j opj Hj) as (_ & oj & _ & Hj0 & _ & ->).
  destruct (loop_lookup k opk Hk) as (_ & ok & _ & Hk0 & _ & ->). 
  exact (prep_distinct _ _ _ _ Hprep j k oj ok id Hjk Hj0 Hk0).
Qed.

Lemma loop_roles : Forall (λ op, is_output op = true) (take (num_outputs_ it) ops) ∧
  Forall (λ op, will_resize op = false) (drop (num_outputs_ it) ops).
Proof.
  destruct (prep_roles _ _ _ _ Hprep) as [H1 H2]. rewrite (prep_outputs _ _ _ _ Hprep).
  split; apply Forall_lookup; intros j op Hj.
  - apply lookup_take_Some in Hj as [Hj Hlt]. destruct (loop_lookup j op Hj) as (_ & op0 & _ & Hj0 & _ & ->).
    rewrite Forall_lookup in H1. apply (H1 j op0). by rewrite lookup_take_lt.
  - rewrite lookup_drop in Hj. destruct (loop_lookup _ op Hj) as (t & op0 & _ & Hj0 & [_ Hr] & ->). cbn.
    rewrite Forall_lookup in H2. rewrite <- lookup_drop in Hj0. specialize (H2 j op0 Hj0).
    destruct t; [|destruct Hr; congruence]. destruct Hr as (_ & i0 & _ & Hsh). unfold shaped in Hsh.
    destruct (will_resize op0); [destruct Hsh; congruence|done].
Qed.

Lemma loop_at_output op s : op ∈ ops → store_ok s →
  (∀ id, tensor_base op = Some id → tensors s !! id = tensors s1 !! id) → at_output shape s1 s op.
Proof.
  intros [j Hj]%list_elem_of_lookup_1 Hs Hk. split; [done|]. split; [done|].
  destruct (loop_lookup j op Hj) as (t & op0 & _ & _ & Hr & E).
  assert (will_resize op = will_resize op0 ∧ tensor_base op = tensor_base op0) as [-> ->] by (split; by rewrite E).
  destruct (will_resize op0) eqn:Hw.
  - rewrite E. exact (ready_wanting _ _ _ _ _ _ Hr Hw).
  - destruct (kept_info t op0 Hr Hw) as (id & i & -> & _). by exists id.
Qed.

(** The operands after the loop. *)
Lemma loop_built P s ops' : Forall2 (set_up P s1 s) ops ops' → (∀ op op' i, P op op' i → finished shape op op' i) →
  Forall2 (operand_built s0 s config shape) (tensors_ config) ops'.
Proof.
  intros Hops HP. pose proof (Forall2_length _ _ _ (prep_operands _ _ _ _ Hprep)) as Hl.
  pose proof (Forall2_length _ _ _ Hre) as Hl1. pose proof (Forall2_length _ _ _ Hops) as Hl2.
  apply Forall2_same_length_lookup_2; [congruence|]. intros j t op' Ht Hj'.
  destruct (Forall2_lookup_r _ _ _ _ _ Hops Hj') as (op & Hj & Hset).
  destruct (loop_lookup j op Hj) as (t' & op0 & Ht' & _ & Hr & E). rewrite Ht in Ht'. injection Ht' as <-.
  eapply operand_built_set_up; [by destruct Hprep| |exact Hset|by apply HP]. by exists op0.
Qed.
End Loop.

Lemma operand_at_made s op id i idx : tensor_base op = Some id → tensors s !! id = Some i → info_sizes i = shape →
  in_bounds shape idx → operand_at s op idx = info_itemsize i * offset idx (info_strides i).
Proof.
  intros Ht Hi Hz Hib. unfold operand_at, operand_offset. rewrite Ht. cbn. by rewrite Hi, Hz, project_same.
Qed.

Lemma build_normal_ok : wlp (build_normal config it) (λ it' s, laid_out s0 config it it' s) s1.
Proof.
  unfold build_normal. apply wlp_bind. eapply wlp_mono; [apply compute_strides_ok|].
  intros it1 s (-> & ops1 & E1 & Hops1). do 2 wlp_step.
  apply reorder_dimensions_any in E as (perm & ops2 & Hp & E2 & Hops2).
  2: { rewrite E1. cbn. clear -Hops1. induction Hops1 as [|op op' ? ? (_ & Hl & _) _ IH]; constructor; [|done].
       unfold ndim. cbn. destruct (will_resize op); auto. }
  rewrite E1 in Hp, E2, Hops2. unfold ndim in Hp, Hops2. cbn in Hp, Hops2.
  assert (Forall2 (arranged perm) (operands_ it) ops2) as Harr.
  { clear -Hops1 Hops2. revert ops2 Hops2. induction Hops1 as [|op op1 ops ops1 (Hre1 & Hl & Hst) _ IH];
      intros ops2 Hops2; inversion Hops2 as [|? op2 ? ops2' [Hre2 Hr] Hrest]; subst; constructor; [|by apply IH].
    split; [rewrite Hre2; by apply restrided_set|]. intros Hw id i Ht Hi. rewrite Hw in Hl.
    rewrite Hr by done. by rewrite (Hst Hw id i). }
  assert (Forall2 restrided (operands_ it) ops2) as Hre by (eapply Forall2_impl; [exact Harr|by intros ? ? [? _]]).
  destruct (loop_roles ops2 Hre) as [Hout Hin]. apply wlp_bind. subst a.
  eapply wlp_mono; [apply (on_outputs_ok s1 ops2 (loop_defined ops2 Hre) (loop_distinct ops2 Hre)
    (normal_made shape perm)); try done|].
  - intros op s Hop Ho Hg Hs Hk. refine (allocate_output_ok shape He _ perm Hp _ _ s1 s op _); [done..|]. by apply (loop_at_output ops2 Hre).
  - by destruct Hprep.
  - intros it3 s (Hg & Hs & ops3 & E3 & Hops3). apply wlp_ret.
    assert (Forall (λ s, 0 <= s) shape) as Hnn by (by destruct He).
    pose proof (loop_built ops2 Hre (normal_made shape perm) s ops3 Hops3 ltac:(by intros ? ? ? [? _])) as Hbuilt.
    assert (Forall (ordered s shape perm) (operands_ it3)) as Hord.
    { rewrite E3. cbn. apply Forall_lookup. intros j op3 Hj3.
      destruct (Forall2_lookup_r _ _ _ _ _ Hops3 Hj3) as (op2 & Hj2 & Hset).
      destruct (Forall2_lookup_r _ _ _ _ _ Harr Hj2) as (op & Hj & Hre2 & Hst).
      destruct (Forall2_lookup_r _ _ _ _ _ (prep_operands _ _ _ _ Hprep) Hj) as (t & _ & Hr).
      unfold set_up in Hset. assert (will_resize op2 = will_resize op ∧ tensor_base op2 = tensor_base op) as [Ew Et]
        by (split; by rewrite Hre2). rewrite Ew, Et in Hset. destruct (will_resize op) eqn:Hw.
      - destruct Hset as (id & i & Ht & Hi & _ & (Hz & _) & st & H1 & H2 & H3). exists st. split_and!; try done.
        intros idx Hib. rewrite (operand_at_made s op3 id i) by done. by apply H3.
      - destruct Hset as [-> Hk]. destruct (kept_info t op Hr Hw) as (id & i & Ht & Hi & _ & Hx & Hl).
        exists (operand_strides config shape i). split; [by eapply Hst|]. pose proof (cfg_shape _ _ Hcfg) as Hcs.
        split; [by apply operand_strides_length|]. intros idx Hib.
        rewrite (proj2 (operand_strides_offset config shape i idx Hcs Hx Hl Hib)).
        unfold operand_at. rewrite Et, Ht. cbn. by rewrite (Hk id i Ht Hi). }
    assert (shape_ it3 = reorder perm shape) as Esh by (by rewrite E3).
    destruct (ordered_visits s shape perm it3 Hnn Hp Esh Hord) as [Hiok Hvis].
    assert (is_meta_ it3 = false) as Emeta by (rewrite E3; cbn; apply (prep_meta _ _ _ _ Hprep)).
    rewrite Emeta. destruct (coalesce_dimensions_spec it3 Hiok) as (Hok' & Hres & _ & Hel & Eit).
    assert (Forall2 restrided ops3 (operands_ (coalesce_dimensions it3))) as Hres'
      by (rewrite E3 in Hres at 1; exact Hres).
    split; try done.
    + rewrite Eit, E3. cbn. apply (prep_device _ _ _ _ Hprep).
    + by rewrite Eit.
    + by rewrite Eit, E3.
    + rewrite (restrided_targets _ _ Hres'), (set_up_targets _ shape _ _ _ _ Hops3 ltac:(by intros ? ? ? [? _])).
      by apply restrided_targets.
    + clear -Hbuilt Hres'. revert Hres'. generalize (operands_ (coalesce_dimensions it3)). induction Hbuilt as
        [|t op ts ops Hop _ IH]; intros ops' Hr; inversion Hr as [|? op' ? ops'' H1 H2]; subst; constructor; [|by apply IH].
      by eapply operand_built_restrided.
    + unfold visits. rewrite (same_offsets it3) by done. rewrite Hvis. apply reflexive_eq, map_ext. intros idx.
      replace (operands_ it3) with ops3 by (by rewrite E3). revert Hres'. clear.
      generalize (operands_ (coalesce_dimensions it3)). intros ops4 Hres'.
      induction Hres' as [|op op' ? ? Hop _ IH]; cbn; [done|]. f_equal; [by rewrite Hop|exact IH].
Qed.

(** ** Fast set-up: one dimension. *)
Lemma kept_tensors_iff i : i ∈ kept_tensors s1 (operands_ it) ↔ ∃ op id, op ∈ operands_ it ∧ will_resize op = false ∧
  tensor_base op = Some id ∧ tensors s1 !! id = Some i.
Proof.
  unfold kept_tensors. rewrite list_elem_of_omap. split.
  - intros (op & Hin & Hb). destruct (will_resize op) eqn:Hw; [done|]. apply bind_Some in Hb as (id & Ht & Hi).
    by exists op, id.
  - intros (op & id & Hin & Hw & Ht & Hi). exists op. split; [done|]. by rewrite Hw, Ht.
Qed.

Section Fast.
Context (Hred : reduction_ config = false) (Hsame : all_ops_same_shape_ it = true).

Lemma kept_tensors_ok i : i ∈ kept_tensors s1 (operands_ it) → tensor_ok s1 i ∧ info_sizes i = shape.
Proof.
  intros (op & id & Hin & Hw & Ht & Hi)%kept_tensors_iff. split; [eapply store_ok_lookup; [by destruct Hprep|done]|].
  pose proof (prep_same _ _ _ _ Hprep Hsame Hred) as Hall. rewrite Forall_forall in Hall. by eapply (Hall op).
Qed.

(** Outputs that are set up to [strides] or to the memory format number their
    elements as the tensors that are kept do. *)
Context (strides : list Z) (mf : option MemoryFormat) (g : list Z → Z).
Context (Hstrides : Forall nonneg_i64 strides) (Hg : numbering shape g).
Context (Hkept : ∀ i idx, i ∈ kept_tensors s1 (operands_ it) → in_bounds shape idx → offset idx (info_strides i) = g idx).
Context (Hmade : ∀ i idx s, tensor_ok s i → info_sizes i = shape → in_bounds shape idx →
  (if bool_decide (strides = []) then is_contiguous_default_impl (default Contiguous mf) (info_impl i) = true
   else info_strides i = strides) → offset idx (info_strides i) = g idx).

(** One dimension for all the elements. *)
Definition flattened (it1 : TensorIteratorBase) : TensorIteratorBase :=
  let it := set_has_coalesced ((1 <? ndim it1)%nat || has_coalesced_dimensions_ it1) it1 in
  if (1 <=? ndim it)%nat then set_shape (resize 1 0 (<[0%nat := numel it]> (shape_ it))) it else it.

Lemma flattened_fields it1 : shape_ it1 = shape →
  (shape_ (flattened it1) = [multiply_integers shape] ∨ shape = [] ∧ shape_ (flattened it1) = []) ∧
  operands_ (flattened it1) = operands_ it1 ∧ common_device_ (flattened it1) = common_device_ it1 ∧
  is_meta_ (flattened it1) = is_meta_ it1 ∧ common_dtype_ (flattened it1) = common_dtype_ it1.
Proof.
  intros E. unfold flattened. cbv zeta. set (it2 := set_has_coalesced _ it1).
  assert (shape_ it2 = shape) as E2 by done. unfold ndim. rewrite E2.
  destruct (Nat.leb_spec 1 (length shape)) as [Hl|Hl].
  - split; [left|done]. cbn [shape_ set_shape set_dims]. rewrite numel_eq, E2.
    rewrite resize_take by (rewrite length_insert; lia). destruct shape; [cbn in Hl; lia|done].
  - split; [right|done]. rewrite E2. destruct shape; [done|cbn in Hl; lia].
Qed.

(** The numbering of each operand's tensor. *)
Lemma fast_operand s op op3 : op ∈ operands_ it → store_ok s → set_up (fast_made shape strides mf) s1 s op op3 →
  ∀ id i idx, tensor_base op3 = Some id → tensors s !! id = Some i → in_bounds shape idx →
  operand_at s op3 idx = info_itemsize i * g idx.
Proof.
  intros Hin Hs Hset id i idx Ht Hi Hib. unfold set_up in Hset. destruct (will_resize op) eqn:Hw.
  - destruct Hset as (id' & i' & Ht' & Hi' & _ & (Hz & _) & Hm). rewrite Ht in Ht'. injection Ht' as <-.
    rewrite Hi in Hi'. injection Hi' as <-. rewrite (operand_at_made s op3 id i) by done. f_equal.
    eapply Hmade; try done. by eapply store_ok_lookup.
  - destruct Hset as [-> Hk]. apply list_elem_of_lookup_1 in Hin as [j Hj].
    destruct (Forall2_lookup_r _ _ _ _ _ (prep_operands _ _ _ _ Hprep) Hj) as (t & _ & Hr).
    destruct (kept_info t op Hr Hw) as (id' & i' & Ht' & Hi' & _). rewrite Ht in Ht'. injection Ht' as <-.
    rewrite (Hk id i' Ht Hi') in Hi. injection Hi as ->.
    assert (i ∈ kept_tensors s1 (operands_ it)) as Hik.
    { apply kept_tensors_iff. exists op, id. split_and!; try done. by eapply list_elem_of_lookup_2. }
    destruct (kept_tensors_ok i Hik) as [_ Hz]. rewrite (operand_at_made s op id i) by (try done; by apply Hk).
    f_equal. by apply Hkept.
Qed.

Lemma fast_common_ok : wlp (on_outputs (fast_output shape strides mf) it)
  (λ it1, wlp (ops ← map_operands (fast_stride_bytes (ndim (flattened it1))) (operands_ (flattened it1));
    mret (true, set_operands ops (flattened it1)))
  (λ r s, r.1 = true ∧ laid_out s0 config it r.2 s)) s1.
Proof.
  assert (Forall2 restrided (operands_ it) (operands_ it)) as Hre
    by (apply Forall_Forall2_diag, Forall_forall; intros; apply restrided_refl).
  destruct (loop_roles _ Hre) as [Hout Hin].
  eapply wlp_mono; [apply (on_outputs_ok s1 (operands_ it) (loop_defined _ Hre) (loop_distinct _ Hre)
    (fast_made shape strides mf)); try done|].
  { intros op s Hop Ho Hgr Hs Hk. apply (fast_output_ok shape He strides mf s1 s op); [done|].
    by apply (loop_at_output _ Hre). }
  { by destruct Hprep. }
  intros it1 s (Hgr & Hs & ops3 & E3 & Hops3). assert (shape_ it1 = shape) as Esh by (by rewrite E3).
  destruct (flattened_fields it1 Esh) as (Hshape & Eops & Edev & Emeta & Ecom).
  pose proof (loop_built _ Hre _ s ops3 Hops3 ltac:(by intros ? ? ? [? _])) as Hbuilt.
  assert (operands_ it1 = ops3) as Eo by (by rewrite E3). rewrite Eops, Eo.
  apply wlp_bind. eapply wlp_mono.
  { apply (map_operands_pure _ (λ op op', ∃ id i, tensor_base op = Some id ∧ tensors s !! id = Some i ∧
      restrided op op' ∧ length (stride_bytes op') = ndim (flattened it1) ∧
      (shape_ (flattened it1) ≠ [] → stride_bytes op' = [info_itemsize i]))).
    intros op _. unfold fast_stride_bytes. destruct (tensor_base op) as [id|]; [|by apply wlp_lift].
    do 2 wlp_step. apply tensor_info_Ok in E. apply wlp_ret. split; [done|]. exists id, a. split_and!; try done.
    - unfold ndim. destruct Hshape as [->|[_ ->]]; cbn; destruct (stride_bytes op) as [|x [|]]; done.
    - unfold ndim. destruct Hshape as [->|[_ ->]]; [|done]. intros _. cbn. destruct (stride_bytes op) as [|x [|]]; done. }
  intros ops4 s' [-> Hops4]. apply wlp_ret. split; [done|].
  assert (Forall (λ s, 0 <= s) shape) as Hnn by (by destruct He).
  split; cbn [snd].
  - done.
  - cbn. rewrite Edev, E3. cbn. apply (prep_device _ _ _ _ Hprep).
  - cbn. rewrite Emeta, E3. cbn. apply (prep_meta _ _ _ _ Hprep).
  - split.
    + unfold nonneg_shape. cbn. destruct Hshape as [->|[_ ->]]; [|constructor].
      constructor; [|constructor]. by apply multiply_nonneg.
    + unfold ndim. cbn. clear -Hops4. induction Hops4 as [|op op' ? ? (? & ? & _ & _ & _ & Hl & _) _ IH]; by constructor.
  - cbn. by rewrite Ecom, E3.
  - cbn. rewrite <- (set_up_targets _ shape _ _ _ _ Hops3 ltac:(by intros ? ? ? [? _])). apply restrided_targets.
    eapply Forall2_impl; [exact Hops4|]. by intros ? ? (? & ? & _ & _ & ? & _).
  - cbn. clear -Hbuilt Hops4. revert ops4 Hops4. induction Hbuilt as [|t op ts ops Hop _ IH]; intros ops4 Hr;
      inversion Hr as [|? op' ? ops'' (? & ? & _ & _ & E & _) H2]; subst; constructor; [|by apply IH].
    rewrite E. exact Hop.
  - eapply (linear_visits s shape g); try done. cbn. apply Forall_lookup. intros j op4 Hj4.
    destruct (Forall2_lookup_r _ _ _ _ _ Hops4 Hj4) as (op3 & Hj3 & id & i & Ht & Hi & E4 & _ & Hst).
    destruct (Forall2_lookup_r _ _ _ _ _ Hops3 Hj3) as (op & Hj & Hset). exists (info_itemsize i).
    split; [|exact Hst]. intros idx Hib. rewrite E4. change (operand_at s _ idx) with (operand_at s op3 idx).
    eapply (fast_operand s op op3); try done. by eapply list_elem_of_lookup_2.
Qed.
End Fast.

(** The kinds of fast set-up. *)
Lemma all_same_strides_eq l : all_same_strides l = true → ∀ i i', i ∈ l → i' ∈ l → info_strides i = info_strides i'.
Proof.
  unfold all_same_strides. intros Hall. assert (∃ st, ∀ i, i ∈ l → info_strides i = st) as [st Hst].
  2: { intros i i' Hi Hi'. by rewrite (Hst i Hi), (Hst i' Hi'). }
  destruct (rev l) as [|prev rest] eqn:E.
  - exists []. intros i Hi. apply list_elem_of_In, in_rev in Hi. by rewrite E in Hi.
  - exists (info_strides prev). intros i Hi. apply list_elem_of_In, in_rev in Hi. rewrite E in Hi.
    destruct Hi as [->|Hi]; [done|]. rewrite forallb_forall in Hall. specialize (Hall i Hi).
    by apply bool_decide_eq_true in Hall.
Qed.

Lemma last_defined_kept st : kept_tensors s1 (operands_ it) ≠ [] → last_defined_strides it s1 = Ok st →
  ∃ i, i ∈ kept_tensors s1 (operands_ it) ∧ info_strides i = st.
Proof.
  intros Hne Hst. assert (∃ pre op, operands_ it = pre ++ [op] ∧ will_resize op = false ∧ is_Some (tensor_base op))
    as (pre & op & E & Hw & id & Ht).
  { destruct (prep_last _ _ _ _ Hprep) as [Hl|Hl]; [done|].
    destruct (kept_tensors s1 (operands_ it)) as [|i l] eqn:Ek; [done|].
    assert (i ∈ kept_tensors s1 (operands_ it)) as Hi by (rewrite Ek; by left).
    apply kept_tensors_iff in Hi as (op & id & Hin & Hw & Ht & _). exists [], op.
    destruct (operands_ it) as [|op0 [|]]; [by apply not_elem_of_nil in Hin| |cbn in Hl; lia].
    apply list_elem_of_singleton in Hin as ->. split_and!; [done|done|by exists id]. }
  unfold last_defined_strides in Hst. rewrite E, omap_app in Hst. cbn in Hst. rewrite Ht in Hst.
  rewrite rev_app_distr in Hst. cbn in Hst. apply bind_Ok in Hst as (i & Hi%tensor_info_Ok & [= <-]).
  exists i. split; [|done]. apply kept_tensors_iff. exists op, id. split_and!; try done.
  rewrite E. apply elem_of_app. right. by left.
Qed.

Lemma all_contiguous_elem f l i : all_contiguous f l = true → i ∈ l → is_contiguous_default_impl f (info_impl i) = true.
Proof. unfold all_contiguous. rewrite forallb_forall. intros Hall Hi%list_elem_of_In. by apply Hall. Qed.

Lemma info_contiguous s i idx : tensor_ok s i → info_sizes i = shape → is_contiguous_ (info_impl i) = true →
  in_bounds shape idx → offset idx (info_strides i) = ravel shape idx.
Proof.
  intros [Hc Hsp Hx _ _ _ _] Hz Hf Hib. unfold info_strides. rewrite <- Hz.
  apply contiguous_offset; try done; [by destruct Hx|by rewrite <- Hz in Hib].
Qed.

Lemma info_numbering s i : tensor_ok s i → info_sizes i = shape → is_non_overlapping_and_dense_ (info_impl i) = true →
  numbering shape (λ idx, offset idx (info_strides i)).
Proof. intros [Hc Hsp [Hn _] _ _ _ _] Hz Hf. rewrite <- Hz. by apply dense_numbering. Qed.

Lemma fast_set_up_ok : wlp (fast_set_up it)
  (λ r s, if r.1 : bool then laid_out s0 config it r.2 s else r.2 = it ∧ s = s1) s1.
Proof.
  unfold fast_set_up. do 2 wlp_step. destruct (compute_fast_setup_type it s1) eqn:Et; [by apply wlp_ret|..].
  all: unfold compute_fast_setup_type in Et; rewrite (prep_reduction _ _ _ _ Hprep) in Et;
    destruct (reduction_ config) eqn:Hred; [done|]; destruct (all_ops_same_shape_ it) eqn:Hsame; [|done];
    cbn [negb orb] in Et; cbv zeta; apply wlp_bind; set (kept := kept_tensors s1 (operands_ it)) in *.
  all: assert (kept = [] → all_contiguous Contiguous kept = true) as Hnil by (by intros ->).
  - assert (all_contiguous Contiguous kept = true) as Hall by (by repeat case_match).
    eapply wlp_mono; [apply (fast_common_ok Hred Hsame [] (Some Contiguous) (ravel shape)); try done|].
    + apply ravel_numbering.
    + intros i idx Hi Hib. destruct (kept_tensors_ok Hred Hsame i Hi).
      eapply info_contiguous; try done. by apply (all_contiguous_elem Contiguous kept).
    + intros i idx s Hok Hz Hib Hf. by eapply info_contiguous.
    + intros it1 s Hr. eapply wlp_mono; [exact Hr|]. by intros [b it'] s' [-> ?].
  - assert (all_contiguous ChannelsLast kept = true ∧ kept ≠ []) as [Hall Hne]
      by (repeat case_match; try done; split; [done|]; intros E; specialize (Hnil E); congruence).
    destruct kept as [|i0 l] eqn:Ek; [done|]. assert (i0 ∈ kept_tensors s1 (operands_ it)) as Hi0 by (unfold kept in Ek; rewrite Ek; by left).
    destruct (kept_tensors_ok Hred Hsame i0 Hi0) as [Hok0 Hz0]. rewrite <- Ek in Hall.
    assert (∀ i s idx, tensor_ok s i → info_sizes i = shape → is_contiguous_default_impl ChannelsLast (info_impl i) = true →
      in_bounds shape idx → offset idx (info_strides i) = offset idx (info_strides i0)) as Hcl.
    { intros i s idx [Hc Hsp _ _ _ _ _] Hz Hf Hib. destruct Hok0 as [Hc0 Hsp0 _ _ _ _ _].
      unfold info_sizes in *. apply channels_last_offsets; try done; [congruence| |congruence].
      by apply (all_contiguous_elem ChannelsLast kept). }
    eapply wlp_mono; [apply (fast_common_ok Hred Hsame [] (Some ChannelsLast) (λ idx, offset idx (info_strides i0))); try done|].
    + apply (info_numbering s1); try done. apply (format_dense ChannelsLast); [by destruct Hok0|].
      by apply (all_contiguous_elem ChannelsLast kept).
    + intros i idx Hi Hib. destruct (kept_tensors_ok Hred Hsame i Hi). eapply Hcl; try done.
      by apply (all_contiguous_elem ChannelsLast kept).
    + intros i idx s Hok Hz Hib Hf. by eapply Hcl.
    + intros it1 s Hr. eapply wlp_mono; [exact Hr|]. by intros [b it'] s' [-> ?].
  - assert (forallb (λ i, is_non_overlapping_and_dense_ (info_impl i)) kept = true ∧ all_same_strides kept = true ∧ kept ≠ [])
      as (Hall & Hst & Hne)
      by (repeat case_match; try done; split_and!; try done; intros E; specialize (Hnil E); congruence).
    do 2 wlp_step. destruct (last_defined_kept a Hne E) as (i0 & Hi0 & <-).
    destruct (kept_tensors_ok Hred Hsame i0 Hi0) as [Hok0 Hz0].
    eapply wlp_mono; [apply (fast_common_ok Hred Hsame (info_strides i0) None (λ idx, offset idx (info_strides i0))); try done|].
    + by destruct Hok0.
    + apply (info_numbering s1); try done. rewrite forallb_forall in Hall. by apply Hall, list_elem_of_In.
    + intros i idx Hi Hib. by rewrite (all_same_strides_eq kept Hst i i0).
    + intros i idx s Hok Hz Hib Hf. case_bool_decide as En; [|by rewrite Hf].
      rewrite En. pose proof (consistent_length _ (ok_consistent _ _ Hok0)) as Hl. unfold info_strides, info_sizes in *.
      rewrite En, Hz0 in Hl. cbn in Hl. rewrite <- (in_bounds_length _ _ Hib) in Hl. by destruct idx.
    + intros it1 s Hr. eapply wlp_mono; [exact Hr|]. by intros [b it'] s' [-> ?].
Qed.
End SetUp.
