(* ===== verification/IterContract.v ===== *)
(** * What the construction of an iterator promises.

    [build] of TensorIteratorBuild.v, with the parts of the other files put
    together: the iterator visits, for each index of the broadcast shape, the
    elements of the tensors that broadcasting pairs with each other; these lie in
    the storages of the tensors; what cannot be iterated is refused. *)

From S2P Require Import Prelude.
From S2P Require Import Layout.
From S2P Require Import Contiguity.
From S2P Require Import Overlap.
From S2P Require Import SafeNum.
From S2P Require Import TensorMeta.
From S2P Require Import Broadcast.
From S2P Require Import MemoryOverlap.
From S2P Require Import ScalarType.
From S2P Require Import TensorIterator.
From S2P Require Import TensorIteratorLoops.
From S2P Require Import IterSpace.
From S2P Require Import IterDims.
From S2P Require Import IterLoops.
From S2P Require Import TensorStore.
From S2P Require Import StoreFacts.
From S2P Require Import TensorCPU.
From S2P Require Import TensorIteratorConfig.
From S2P Require Import TensorIteratorBuild.
From S2P Require Import IterOperands.
From S2P Require Import IterTypes.
From S2P Require Import IterPrepare.
From S2P Require Import IterOutputs.
From S2P Require Import IterLayout.
From S2P Require Import IterBuild.

(** ** The result. *)
(** The address of the element of an operand that broadcasting pairs with an
    index. *)
Definition operand_address (s : Store) (op : OperandInfo) (idx : list Z) : Z :=
  match tensor_base op ≫= (λ id, tensors s !! id) with
  | Some i =>
      match info_storage i ≫= (λ sid, storages s !! sid) with
      | Some st => element_address i st (project (info_sizes i) idx)
      | None => 0
      end
  | None => 0
  end.

Record built (s0 : Store) (config : TensorIteratorConfig) (shape : list Z) (it : TensorIteratorBase) (s : Store)
    : Prop := {
  built_store : store_ok s;
  built_iter : iter_ok it;
  built_operands : Forall2 (operand_built s0 s config shape) (tensors_ config) (operands_ it);
  built_elements : elements it ≡ₚ map (λ idx, map (λ op, operand_address s op idx) (operands_ it)) (indices shape) }.

Lemma expandable_positive a c : expandable a c → positive c → positive a.
Proof.
  intros (c1 & c2 & -> & Ha)%expandable_split [_ Hp]%positive_app.
  induction Ha as [|x y a c2 Hxy _ IH]; [constructor|]. apply positive_cons in Hp as [Hy Hp].
  apply positive_cons. split; [destruct Hxy; lia|by apply IH].
Qed.

(** The data pointer is the address of the first element. *)
Lemma data_address s op id i p idx shape : store_ok s → tensor_base op = Some id → tensors s !! id = Some i →
  expandable (info_sizes i) shape → positive shape → tensor_data id s = Ok p →
  p + operand_at s op idx = operand_address s op idx.
Proof.
  intros Hs Ht Hi Hx Hp Hd. unfold operand_address, operand_at, operand_offset, element_address. rewrite Ht. cbn. rewrite Hi.
  unfold tensor_data, tensor_info in Hd. rewrite Hi in Hd. cbn [mbind result_bind memory_tensor] in Hd.
  unfold memory_tensor in Hd. cbn [storage_] in Hd.
  destruct (info_storage i) as [sid|]; [|done]. cbn in *. destruct (storages s !! sid) as [st|]; [|done]. cbn in *.
  apply bind_Ok in Hd as (? & _ & [= <-]). unfold data. cbn.
  pose proof (store_ok_lookup _ _ _ Hs Hi) as [Hc _ _ _ _ _ _]. rewrite (consistent_numel _ Hc).
  pose proof (multiply_pos _ (expandable_positive _ _ Hx Hp)) as Hm. unfold info_sizes in Hm.
  destruct (Z.eqb_spec (multiply_integers (sizes_ (info_impl i))) 0); [lia|]. unfold storage_data. cbn. lia.
Qed.

Lemma without_data_cpu it s : common_device_ it = kCPU → without_data it s = false.
Proof. unfold without_data. by intros ->. Qed.

(** Setting the data pointers. *)
Lemma set_data_ok s0 config it0 it s : laid_out s0 config it0 it s → Forall (λ n, 0 <= n) (shape_ it0) →
  wlp (map_operands set_data (operands_ it)) (λ ops s', s' = s ∧ map target_dtype ops = map target_dtype (operands_ it) ∧
    ∀ offs, built s0 config (shape_ it0) (set_view_offsets offs (set_operands ops it)) s) s.
Proof.
  intros [Hs _ _ Hok _ _ Hops Hvis] Hn. set (shape := shape_ it0) in *. eapply wlp_mono.
  { apply (map_operands_pure _ (λ op op', ∃ id p, tensor_base op = Some id ∧ tensor_data id s = Ok p ∧
      op' = set_op_data p op)).
    intros op _. unfold set_data. destruct (tensor_base op) as [id|]; [|by apply wlp_lift].
    do 2 wlp_step. apply wlp_ret. split; [done|]. by exists id, a. }
  intros ops s' [-> Hset]. split; [done|]. split.
  { clear -Hset. induction Hset as [|op op' ? ? (? & ? & _ & _ & ->) _ IH]; [done|]. cbn. by rewrite IH. }
  intros offs. set (it' := set_view_offsets offs (set_operands ops it)).
  assert (Forall2 (λ op op', stride_bytes op' = stride_bytes op ∧ tensor_base op' = tensor_base op) (operands_ it) ops) as Hsame
    by (eapply Forall2_impl; [exact Hset|]; by intros op op' (? & ? & _ & _ & ->)).
  split; [done| | |].
  - destruct Hok as [H1 H2]. split; [done|]. change (operands_ it') with ops. change (ndim it') with (ndim it).
    clear -H2 Hsame. induction Hsame as [|op op' ? ? [E _] _ IH]; [constructor|].
    apply Forall_cons in H2 as [? ?]. constructor; [by rewrite E|by apply IH].
  - change (operands_ it') with ops. clear -Hops Hset. revert ops Hset.
    induction Hops as [|t op ts ops0 Hop _ IH]; intros ops Hset; inversion Hset as [|? op' ? ? (? & ? & _ & _ & E) H2];
      subst; constructor; [exact Hop|by apply IH].
  - rewrite elements_offsets.
    assert (offset_elements it' = offset_elements it) as ->.
    { unfold offset_elements, offsets. change (shape_ it') with (shape_ it). change (operands_ it') with ops.
      apply map_ext. intros idx. clear -Hsame. induction Hsame as [|op op' ? ? [E _] _ IH]; cbn; [done|]. by rewrite E, IH. }
    unfold visits in Hvis. rewrite Hvis, map_map. change (operands_ it') with ops.
    destruct (positive_or_empty shape Hn) as [Hp|E]; [|by unfold indices; rewrite E].
    apply reflexive_eq, map_ext. intros idx. clear -Hs Hset Hops Hp. revert ops Hset.
    induction Hops as [|t op ts ops0 Hop _ IH]; intros ops Hset;
      inversion Hset as [|? op' ? ops' (id & p & Ht & Hd & E) H2]; subst; cbn; [done|].
    f_equal; [|by apply IH]. destruct Hop as (id' & i & Ht' & Hi & _ & _ & _ & Hx & _).
    rewrite Ht in Ht'. injection Ht' as <-. rewrite (data_address s op id i p idx shape) by done. done.
Qed.

#[export] Instance extent_fits_dec sizes : Decision (extent_fits sizes).
Proof. unfold extent_fits. apply _. Defined.

Lemma wlp_true {S A} (m : method S A) s : wlp m (λ _ _, True) s.
Proof. unfold wlp, wpx. by destruct (m s) as [? []]. Qed.

(** The operands have the common dtype. *)
Definition one_dtype (dflt : default_dtypes) (s0 : Store) (config : TensorIteratorConfig) (it : TensorIteratorBase)
    : Prop :=
  Forall (λ op, current_dtype op = common_dtype_ it) (operands_ it) ∧
  common_dtype_of dflt s0 config (common_dtype_ it).

Lemma built_one_dtype dflt s0 s config shape it it0 : Forall2 (operand_built s0 s config shape) (tensors_ config) (operands_ it) →
  map target_dtype (operands_ it) = map target_dtype (operands_ it0) → common_dtype_ it = common_dtype_ it0 →
  Forall (λ op, target_dtype op = common_dtype_ it0) (operands_ it0) → common_dtype_of dflt s0 config (common_dtype_ it0) →
  one_dtype dflt s0 config it.
Proof.
  intros Hops Ht Hc Hall Hcom. split; [|by rewrite Hc]. rewrite Hc. assert (Forall (λ t, t = common_dtype_ it0) (map target_dtype (operands_ it0))) as Hts by (by apply Forall_fmap).
  rewrite <- Ht in Hts. clear Hall.
  revert Hts. clear -Hops. induction Hops as [|t op ts ops (id & i & _ & _ & _ & Ec & Et & _) _ IH]; [constructor|].
  cbn. intros [H1 H2]%Forall_cons. constructor; [congruence|by apply IH].
Qed.

Section Build.
Context `{LawfulOperators} (dflt : default_dtypes) (Hdflt : plain_defaults dflt).

Lemma build_ok config s0 : store_ok s0 → config_ok s0 config →
  wlp (build dflt config) (λ it s, ∃ shape, broadcast_of (participants s0 config) shape ∧
    (extent_fits shape → built s0 config shape it s ∧ (unifies config false → one_dtype dflt s0 config it))) s0.
Proof.
  intros Hs0 Hcfg. unfold build. apply wlp_bind. eapply wlp_mono; [by apply prepare_ok|]. intros it s1 [Hprep Hty].
  destruct (decide (extent_fits (shape_ it))) as [He|He].
  2: { eapply wlp_mono; [apply wlp_true|]. intros it' s' _. exists (shape_ it). split; [|done].
       apply (prep_shape _ _ _ _ Hprep). }
  assert (∀ it' s', laid_out s0 config it it' s' →
    wlp (if is_meta_ it' then mret it'
         else no_data ← reads (without_data it');
              if no_data : bool then mret it'
              else ops ← map_operands set_data (operands_ it');
                   mret (set_view_offsets (replicate (if (ndim it' =? 0)%nat then 1 else ndim it') 0) (set_operands ops it')))
      (λ it s, ∃ shape, broadcast_of (participants s0 config) shape ∧
        (extent_fits shape → built s0 config shape it s ∧ (unifies config false → one_dtype dflt s0 config it))) s')
    as Hdata.
  { intros it' s' Hl. rewrite (laid_meta _ _ _ _ _ Hl). do 2 wlp_step.
    rewrite without_data_cpu by (by destruct Hl). apply wlp_bind.
    eapply wlp_mono; [apply (set_data_ok _ _ _ _ _ Hl); by destruct He|]. intros ops s2 (-> & Ht & Hb). apply wlp_ret.
    exists (shape_ it). split; [apply (prep_shape _ _ _ _ Hprep)|]. intros _. split; [apply Hb|].
    intros [Hall Hcom]%Hty. eapply (built_one_dtype dflt s0 s' config (shape_ it) _ it); try done.
    - eapply built_operands, Hb.
    - cbn. rewrite Ht. by destruct Hl.
    - cbn. by destruct Hl. }
  apply wlp_bind. eapply wlp_mono; [by eapply (fast_set_up_ok s0 s1 config it)|]. intros [fast it1] s2 Hr. cbn [fst snd] in Hr.
  apply wlp_bind. destruct fast.
  - apply wlp_ret. by apply Hdata.
  - destruct Hr as [-> ->]. eapply wlp_mono; [by apply (build_normal_ok s0 s1 config it)|]. intros it2 s3 Hl. by apply Hdata.
Qed.
End Build.

(** ** What is refused. *)
(** A method that throws and leaves the state as it was. *)
Definition throws {S A} (m : method S A) (s : S) : Prop := ∃ e, m s = (s, Throw e).

Lemma throws_bind {S A B} (m : method S A) (k : A → method S B) s : throws m s → throws (m ≫= k) s.
Proof. intros [e E]. exists e. unfold mbind, method_bind. by rewrite E. Qed.

Lemma throws_inspect {A B} (f : Store → result A) (k : A → method Store B) s :
  (∀ a, f s = Ok a → throws (k a) s) → throws (inspect f ≫= k) s.
Proof.
  intros Hk. unfold throws, mbind, method_bind, inspect. destruct (f s) as [a|e]; [|by exists e]. by apply Hk.
Qed.

Lemma check_operands_Ok f ops : check_operands f ops = Ok tt ↔ Forall (λ op, f op = Ok tt) ops.
Proof.
  induction ops as [|op ops IH]; cbn; [split; [constructor|done]|]. rewrite Forall_cons, <- IH.
  destruct (f op) as [[]|]; cbn; naive_solver.
Qed.

(** The bytes of the elements of a tensor. *)
Definition occupies (s : Store) (i : TensorInfo) (x : Z) : Prop :=
  ∃ sid st idx, info_storage i = Some sid ∧ storages s !! sid = Some st ∧ in_bounds (info_sizes i) idx ∧
    0 <= x - element_address i st idx < info_itemsize i.

(** Two tensors of one storage, or of two storages over one allocation that is
    counted. *)
Definition same_allocation (s : Store) (a b : TensorInfo) : Prop :=
  ∃ sa sb sta stb, info_storage a = Some sa ∧ info_storage b = Some sb ∧ storages s !! sa = Some sta ∧
    storages s !! sb = Some stb ∧
    (sa = sb ∨ ptr_deleter (data_ptr sta) = refcounted_deleter ∧ ptr_deleter (data_ptr stb) = refcounted_deleter ∧
       ptr_context (data_ptr sta) = ptr_context (data_ptr stb)).

(** Two tensors, each of which occupies a range of memory with no gaps and no
    element twice, that share a byte, but not all their bytes, or with other
    strides. *)
Definition overlaps_partly (s : Store) (a b : TensorInfo) : Prop :=
  same_allocation s a b ∧
  non_overlapping_and_dense (info_sizes a) (info_strides a) ∧
  non_overlapping_and_dense (info_sizes b) (info_strides b) ∧
  (∃ x, occupies s a x ∧ occupies s b x) ∧
  (info_strides a ≠ info_strides b ∨ ∃ x, ¬ (occupies s a x ↔ occupies s b x)).

(** An output that repeats elements along a dimension, or overlaps an input in
    part. *)
Definition overlapping (s : Store) (config : TensorIteratorConfig) : Prop :=
  ∃ out o, Some out ∈ output_tensors config ∧ tensors s !! out = Some o ∧
    (repeats (info_sizes o) (info_strides o) ∨
     ∃ input i, Some input ∈ input_tensors config ∧ input ≠ out ∧ tensors s !! input = Some i ∧
       overlaps_partly s o i).

(** What cannot be iterated: these overlaps, and tensors without a shape to
    broadcast them to. *)
Definition refused (s : Store) (config : TensorIteratorConfig) : Prop :=
  check_mem_overlap_ config = true ∧ overlapping s config ∨
  ∀ shape, ¬ Forall (λ a, expandable a shape) (participants s config).

Section Overlap.
Context (s : Store) (Hs : store_ok s).

Lemma internal_overlap_repeats id i : tensors s !! id = Some i →
  has_internal_overlap (info_impl i) = MO_Yes ↔ repeats (info_sizes i) (info_strides i).
Proof. intros Hi. destruct (Hs id i Hi) as [? ? [? _] _ _ _ _]. by apply has_internal_overlap_repeats. Qed.

Lemma memory_strided id i : tensors s !! id = Some i → strided (memory_tensor s id i).
Proof. intros Hi. destruct (Hs id i Hi) as [? ? [? _] _ _ [? _] _]. by split. Qed.

Lemma memory_storage id i sa : storage_ (memory_tensor s id i) = Some sa →
  ∃ sid st, info_storage i = Some sid ∧ storages s !! sid = Some st ∧
    sa = mkStorage (Z.pos sid) (ptr_deleter (data_ptr st)) (ptr_context (data_ptr st)) (ptr_data (data_ptr st)) ∧
    ∀ x, covers (memory_tensor s id i) sa x ↔ occupies s i x.
Proof.
  cbn. destruct (info_storage i) as [sid|] eqn:Ei; [|done]. cbn. destruct (storages s !! sid) as [st|] eqn:Es; [|done].
  cbn. intros [= <-]. exists sid, st. split_and!; try done. intros x. unfold covers, occupies, element_address. cbn. split.
  - intros (idx & Hib & Hx). by exists sid, st, idx.
  - intros (sid' & st' & idx & E1 & E2 & Hib & Hx). simplify_eq. by exists idx.
Qed.

Lemma memory_storage_Some id i sid st : info_storage i = Some sid → storages s !! sid = Some st →
  ∃ sa, storage_ (memory_tensor s id i) = Some sa.
Proof. intros E1 E2. cbn. rewrite E1. cbn. rewrite E2. by eexists. Qed.

Lemma partial_overlap_overlaps out o input i : tensors s !! out = Some o → tensors s !! input = Some i → input ≠ out →
  get_overlap_status (memory_tensor s out o) (memory_tensor s input i) = Partial ↔ overlaps_partly s o i.
Proof.
  intros Ho Hi Hne. pose proof (memory_strided _ _ Ho) as Sa. pose proof (memory_strided _ _ Hi) as Sb.
  assert (impl (memory_tensor s out o) ≠ impl (memory_tensor s input i)) as Him by (cbn; congruence).
  destruct (storage_ (memory_tensor s out o)) as [sa|] eqn:Ea, (storage_ (memory_tensor s input i)) as [sb|] eqn:Eb.
  { rewrite (get_overlap_status_Partial _ _ sa sb) by done. unfold partly_overlapping, overlaps_partly, same_allocation.
    apply memory_storage in Ea as (ida & sta & E1 & E2 & -> & Ha), Eb as (idb & stb & E3 & E4 & -> & Hb).
    setoid_rewrite Ha. setoid_rewrite Hb. rewrite E1, E3. unfold is_alias_of, isSharedStorageAlias. cbn [storage_impl_ deleter context].
    split; (intros [H1 H2]; split; [|exact H2]).
    - exists ida, idb, sta, stb. split_and!; try done. apply orb_true_iff in H1 as [H1|H1]; [left; bool_simpl; congruence|].
      right. revert H1. case_bool; [done|]. intros H1. bool_simpl. lia.
    - destruct H1 as (sa & sb & sta' & stb' & ? & ? & ? & ? & H1). simplify_eq. apply orb_true_iff.
      destruct H1 as [->|(Ed & Ed' & Ec)]; [left; apply Z.eqb_refl|right]. rewrite Ed, Ed', Ec. cbn. apply Z.eqb_refl. }
  all: split; [unfold get_overlap_status; rewrite ?Ea, ?Eb; by repeat case_match|].
  all: intros [(ida & idb & sta & stb & E1 & E2 & E3 & E4 & _) _].
  all: destruct (memory_storage_Some out o ida sta E1 E3); destruct (memory_storage_Some input i idb stb E2 E4); congruence.
Qed.

(** A check of all operands is one of all tensors there are. *)
Lemma opened_checks (f : OperandInfo → result unit) (P : tensor_ref → TensorInfo → Prop) ts ops :
  Forall2 (opened s) ts ops → (∀ op, tensor_base op = None → f op = Ok tt) →
  (∀ op id i, tensor_base op = Some id → tensors s !! id = Some i → f op = Ok tt ↔ P id i) →
  check_operands f ops = Ok tt ↔ ∀ id i, Some id ∈ ts → tensors s !! id = Some i → P id i.
Proof.
  intros Hops Hnone Hsome. rewrite check_operands_Ok. induction Hops as [|t op ts ops [Ht _ _ Hty] _ IH].
  { split; [|constructor]. intros _ id i []%not_elem_of_nil. }
  rewrite Forall_cons, IH. unfold typed in Hty. rewrite Ht in Hty. destruct t as [id0|].
  - destruct Hty as (i0 & Hi0 & _). rewrite (Hsome op id0 i0 Ht Hi0). setoid_rewrite elem_of_cons. split.
    + intros [H0 H] id i [[= ->]|Hin] Hi; [by simplify_eq|by apply H].
    + intros H. split; [apply H; auto|]. intros id i Hin. apply H. by right.
  - rewrite (Hnone op Ht). setoid_rewrite elem_of_cons. split.
    + intros [_ H] id i [?|Hin]; [done|by apply H].
    + intros H. split; [done|]. intros id i Hin. apply H. by right.
Qed.

Lemma input_check out o op id i : tensors s !! out = Some o → tensor_base op = Some id → tensors s !! id = Some i →
  check_input_overlap s out o op = Ok tt ↔ (id ≠ out → ¬ overlaps_partly s o i).
Proof.
  intros Ho Ht Hi. unfold check_input_overlap, tensor_info. rewrite Ht, Hi. cbn [mbind result_bind].
  case_bool_decide as Eid; [naive_solver|]. rewrite <- (partial_overlap_overlaps out o id i) by done.
  unfold assert_no_partial_overlap. rewrite TORCH_CHECK_Ok, bool_decide_eq_true. naive_solver.
Qed.

(** The code's test fails for these overlaps and for no others. *)
Lemma overlaps_tested config it : check_mem_overlap_ config = true →
  Forall2 (opened s) (output_tensors config) (take (num_outputs_ it) (operands_ it)) →
  Forall2 (opened s) (input_tensors config) (drop (num_outputs_ it) (operands_ it)) →
  compute_mem_overlaps config it s = Ok tt ↔ ¬ overlapping s config.
Proof.
  intros Hc Houts Hins. unfold compute_mem_overlaps. rewrite Hc. cbn [negb].
  rewrite (opened_checks _ (λ out o, ¬ repeats (info_sizes o) (info_strides o) ∧ ∀ input i,
    Some input ∈ input_tensors config → tensors s !! input = Some i → input ≠ out → ¬ overlaps_partly s o i) _ _ Houts).
  - unfold overlapping. split.
    + intros H (out & o & Hin & Ho & [Hr|(input & i & Hi & Hne & Hii & Hp)]); destruct (H out o Hin Ho) as [H1 H2]; [done|].
      by apply (H2 input i).
    + intros H out o Hin Ho. split; [intros Hr; apply H; exists out, o; auto|].
      intros input i Hi Hii Hne Hp. apply H. exists out, o. split; [done|]. split; [done|]. right. by exists input, i.
  - intros op Ht. unfold check_output_overlap. by rewrite Ht.
  - intros op out o Ht Ho. unfold check_output_overlap, tensor_info. rewrite Ht, Ho. cbn [mbind result_bind].
    rewrite <- (internal_overlap_repeats _ _ Ho), <- (opened_checks (check_input_overlap s out o) _ _ _ Hins);
      [|intros op' Ht'; unfold check_input_overlap; by rewrite Ht'|intros op' id i Ht' Hi; by apply input_check].
    unfold assert_no_internal_overlap. case_bool_decide as E; cbn; naive_solver.
Qed.
End Overlap.

Lemma marks_opened config s it : outputs_exist config → populate_operands config (initial_iterator config) s = Ok it →
  Forall2 (opened s) (output_tensors config) (take (num_outputs_ (mark_outputs it)) (operands_ (mark_outputs it))) ∧
  Forall2 (opened s) (input_tensors config) (drop (num_outputs_ (mark_outputs it)) (operands_ (mark_outputs it))).
Proof.
  intros Hout Hit. destruct (mark_outputs_spec config s _ it Hout Hit eq_refl) as (_ & _ & Ho & Hi & _).
  split; eapply Forall2_impl; try exact Ho; try exact Hi; by intros t op (? & _).
Qed.

Section Refused.
Context `{TensorOperators} (dflt : default_dtypes).

Lemma prepare_refuses config s : store_ok s → static_shape_ config = None → outputs_exist config → refused s config →
  throws (prepare dflt config) s.
Proof.
  intros Hs Hst Hout Href. unfold prepare. apply throws_inspect. intros it Hit. cbv zeta. apply throws_inspect. intros [] Hu.
  apply throws_inspect. intros it1 Hit1. exfalso.
  destruct (marks_opened config s it Hout Hit) as [Ho Hi].
  destruct Href as [[Hc Hov]|Hno]; [by eapply (overlaps_tested s Hs config)|].
  destruct (mark_outputs_spec config s _ it Hout Hit eq_refl) as ([_ _ _ _ _ _] & Hsh & Ho' & Hi' & _).
  apply compute_shape_ok in Hit1 as (_ & [Hb _] & _); [|done..]. apply (Hno (shape_ it1)).
  rewrite (part_sizes_of s config (mark_outputs it)) in Hb; [done|..]; eapply Forall2_impl; try exact Ho'; try exact Hi'.
  - by intros t op ([] & ? & _).
  - by intros t op ([] & ? & _).
Qed.
End Refused.

(** ** The properties. *)
Lemma broadcast_of_unique shapes c c' : broadcast_of shapes c → broadcast_of shapes c' → c = c'.
Proof.
  intros [H1 H2] [H1' H2']. rewrite <- (rev_involutive c), <- (rev_involutive c'). f_equal.
  apply expandable_rev_antisym; [by apply H2|by apply H2'].
Qed.

Section Properties.
Context `{LawfulOperators} (dflt : default_dtypes) (Hdflt : plain_defaults dflt).
Context (config : TensorIteratorConfig) (s0 s : Store) (it : TensorIteratorBase).
Context (Hs0 : store_ok s0) (Hcfg : config_ok s0 config) (Hrun : build dflt config s0 = (s, Ok it)).

Lemma build_built shape : broadcast_of (participants s0 config) shape → extent_fits shape →
  built s0 config shape it s ∧ (unifies config false → one_dtype dflt s0 config it).
Proof.
  intros Hb He. destruct (wlp_use _ _ _ _ _ (build_ok dflt Hdflt config s0 Hs0 Hcfg) Hrun) as (shape' & Hb' & H1).
  rewrite (broadcast_of_unique _ _ _ Hb Hb') in *. by apply H1.
Qed.

Lemma build_has_shape : ∃ shape, broadcast_of (participants s0 config) shape.
Proof.
  destruct (wlp_use _ _ _ _ _ (build_ok dflt Hdflt config s0 Hs0 Hcfg) Hrun) as (shape & Hb & _). by exists shape.
Qed.
End Properties.

(** The storage of an operand's tensor has the bytes of an element at [a]. *)
Definition in_storage (s : Store) (op : OperandInfo) (a : Z) : Prop :=
  ∃ id i sid st, tensor_base op = Some id ∧ tensors s !! id = Some i ∧ info_storage i = Some sid ∧
    storages s !! sid = Some st ∧ ptr_data (data_ptr st) <= a ∧
    a + dtype_itemsize (current_dtype op) <= ptr_data (data_ptr st) + nbytes st.

Lemma project_in_bounds a c idx : expandable a c → in_bounds c idx → in_bounds a (project a idx).
Proof.
  intros (c1 & c2 & -> & Ha)%expandable_split Hib. unfold project.
  apply Forall2_app_inv_l in Hib as (i1 & i2 & H1 & H2 & ->).
  pose proof (Forall2_length _ _ _ H1) as Hl1. pose proof (Forall2_length _ _ _ H2) as Hl2.
  pose proof (Forall2_length _ _ _ Ha) as Hl. rewrite length_app. rewrite drop_app_length' by lia.
  revert i2 H2 Hl2. clear -Ha. induction Ha as [|x y a c2 Hxy _ IH]; intros i2 H2 _;
    inversion H2 as [|? z ? i2' Hz H2']; subst; cbn; [constructor|]. constructor.
  - case_bool; destruct Hxy; lia.
  - apply IH; [done|]. by eapply Forall2_length.
Qed.

Lemma operand_in_storage s0 s config shape t op idx : store_ok s → operand_built s0 s config shape t op →
  in_bounds shape idx → in_storage s op (operand_address s op idx).
Proof.
  intros Hs (id & i & Ht & Hi & _ & Hc & _ & Hx & _) Hib. pose proof (store_ok_lookup _ _ _ Hs Hi) as [_ _ _ _ _ _ Hst].
  destruct (Hst (project (info_sizes i) idx)) as (sid & st & H1 & H2 & H3 & H4).
  { by eapply project_in_bounds. }
  exists id, i, sid, st. unfold operand_address. rewrite Ht. cbn. rewrite Hi, H1. cbn. rewrite H2, Hc. by split_and!.
Qed.

(** C11.  The iterator that is built visits, for each index of the broadcast
    shape, the elements of the operands' tensors that broadcasting pairs with
    each other there, each pairing once: whether its dimensions are set up fast or
    reordered and coalesced, whatever the strides of the tensors and wherever the
    outputs were allocated or resized.  The tensors are those of the
    configuration, temporaries for them or new, and outputs have the broadcast
    shape. *)
Theorem build_pairs_elements `{LawfulOperators} dflt config s0 s it :
  plain_defaults dflt → store_ok s0 → config_ok s0 config → build dflt config s0 = (s, Ok it) →
  ∃ shape, broadcast_of (participants s0 config) shape ∧ (extent_fits shape →
    Forall2 (operand_built s0 s config shape) (tensors_ config) (operands_ it) ∧
    elements it ≡ₚ map (λ idx, map (λ op, operand_address s op idx) (operands_ it)) (indices shape)).
Proof.
  intros Hd Hs Hc Hrun. destruct (build_has_shape dflt Hd config s0 s it Hs Hc Hrun) as [shape Hb].
  exists shape. split; [done|]. intros He.
  destruct (build_built dflt Hd config s0 s it Hs Hc Hrun shape Hb He) as [[_ _ H1 H2] _]. done.
Qed.

(** C12.  The addresses that an iterator visits after it was built lie in the
    storages of the operands' tensors, with all the bytes of an element. *)
Theorem build_in_bounds `{LawfulOperators} dflt config s0 s it shape :
  plain_defaults dflt → store_ok s0 → config_ok s0 config → broadcast_of (participants s0 config) shape →
  extent_fits shape → build dflt config s0 = (s, Ok it) →
  Forall (λ el, Forall2 (in_storage s) (operands_ it) el) (elements it).
Proof.
  intros Hd Hs Hc Hb He Hrun.
  destruct (build_built dflt Hd config s0 s it Hs Hc Hrun shape Hb He) as [[Hok _ Hops Hel] _].
  rewrite Hel. apply Forall_fmap, Forall_forall. intros idx Hidx. unfold compose. apply Forall2_fmap_r, Forall_Forall2_diag.
  destruct He as [Hn _]. destruct (positive_or_empty shape Hn) as [Hp|E].
  2: { unfold indices in Hidx. rewrite E in Hidx. by apply not_elem_of_nil in Hidx. }
  apply in_indices in Hidx; [|done]. apply Forall_lookup. intros j op Hj.
  destruct (Forall2_lookup_r _ _ _ _ _ Hops Hj) as (t & _ & Hop). by eapply operand_in_storage.
Qed.


(** C10.  [for_each] on the iterator that is built calls its loop, over all
    threads and for every back end, on each pairing of elements that broadcasting
    makes, once. *)
Theorem build_for_each `{LawfulOperators} dflt config s0 s it shape backend t grain_size :
  plain_defaults dflt → store_ok s0 → config_ok s0 config → broadcast_of (participants s0 config) shape →
  extent_fits shape → build dflt config s0 = (s, Ok it) →
  0 <= grain_size → (1 <= team t)%nat → 1 <= get_num_threads t →
  ∃ calls, for_each backend t grain_size it = Some (Ok calls) ∧
    calls_elements (concat calls) ≡ₚ map (λ idx, map (λ op, operand_address s op idx) (operands_ it)) (indices shape).
Proof.
  intros Hd Hs Hc Hb He Hrun Hg Ht Hn.
  destruct (build_built dflt Hd config s0 s it Hs Hc Hrun shape Hb He) as [[_ Hok _ Hel] _].
  destruct (for_each_spec backend t grain_size it Hok Hg Ht Hn) as (calls & -> & Hcalls). exists calls.
  split; [done|]. by rewrite <- Hel, <- Hcalls, calls_elements_concat.
Qed.

(** C14.  [build] throws, and leaves all tensors as they were, when no shape
    exists that the tensors can be broadcast to, and, where overlap is checked,
    when an output repeats elements along a dimension (two elements whose indices
    differ in one dimension only have one address), or when an output and an
    input, each dense in memory, share bytes of one allocation, but not all their
    bytes or with other strides.  These are the only overlaps that are refused:
    when there is none of them, the test of the operands passes, also where other
    elements of an output overlap, or tensors with gaps. *)
Theorem build_refuses `{TensorOperators} dflt config s : store_ok s → static_shape_ config = None → outputs_exist config →
  (refused s config → ∃ e, build dflt config s = (s, Throw e)) ∧
  (¬ overlapping s config → ∀ it, populate_operands config (initial_iterator config) s = Ok it →
     compute_mem_overlaps config (mark_outputs it) s = Ok tt).
Proof.
  intros Hs Hst Hout. split; [intros Href; by apply throws_bind, prepare_refuses|]. intros Hno it Hit.
  destruct (marks_opened config s it Hout Hit) as [Ho Hi]. destruct (check_mem_overlap_ config) eqn:Hc.
  - by apply overlaps_tested.
  - unfold compute_mem_overlaps. by rewrite Hc.
Qed.

(** ** A sum of tensors of different shapes and dtypes. *)
#[local] Instance example_operators : TensorOperators :=
  cpu_operators (λ n s, Ok (mkDataPtr (4096 * Z.of_nat (1 + size (storages s))) 0 0)) (λ _ _ _, Ok tt).
#[local] Instance example_lawful : LawfulOperators := cpu_lawful _ _.

Definition example_tensors : method Store (tensor_ref * tensor_ref) :=
  a ← at_empty [2; 1] (mkOptions Float None None);
  b ← at_empty [2; 3] (mkOptions Long None None);
  mret (a, b).
Definition example_store : Store := (example_tensors (mkStore ∅ ∅)).1.
Definition example_inputs : tensor_ref * tensor_ref :=
  match (example_tensors (mkStore ∅ ∅)).2 with Ok p => p | Throw _ => (1%positive, 1%positive) end.
Definition example_config : TensorIteratorConfig :=
  match configured (binary_op_config None (Some example_inputs.1) (Some example_inputs.2)) with
  | Ok c => c
  | Throw _ => default_config
  end.
Definition example_run : Store * result TensorIteratorBase := build initial_defaults example_config example_store.
Definition example_built : TensorIteratorBase :=
  match example_run.2 with Ok it => it | Throw _ => initial_iterator example_config end.

Lemma example_store_ok : store_ok example_store.
Proof.
  assert (wlp example_tensors (λ _ s, store_ok s) (mkStore ∅ ∅)) as Hw.
  { unfold example_tensors. assert (store_ok (mkStore ∅ ∅)) as H0 by (intros ? ?; cbn; by rewrite lookup_empty).
    assert (plain_dtype Float ∧ plain_dtype Long) as [H1 H2] by done.
    assert (extent_fits [2; 1] ∧ extent_fits [2; 3]) as [H3 H4] by (split; split; [forall_lia|done|forall_lia|done]).
    apply wlp_bind. eapply wlp_mono; [apply makes_use, at_empty_law; done|].
    intros a s1 (_ & _ & _ & _ & Hs1 & _). apply wlp_bind.
    eapply wlp_mono; [apply makes_use, at_empty_law; done|].
    intros b s2 (_ & _ & _ & _ & Hs2 & _). by apply wlp_ret. }
  assert (example_tensors (mkStore ∅ ∅) = (example_store, Ok example_inputs)) as E by (vm_compute; reflexivity).
  exact (wlp_use _ _ _ _ _ Hw E).
Qed.

Lemma example_config_ok : config_ok example_store example_config.
Proof.
  split.
  - vm_compute. lia.
  - reflexivity.
  - intros t Ht. done.
  - vm_compute. constructor.
  - left. done.
  - intros id i Hin Hi. assert (map_Forall (λ _ i, is_cpu (info_device i) = true) (tensors example_store)) as Hall.
    { apply (bool_decide_unpack _). vm_compute. exact I. }
    by apply (Hall id).
Qed.

Lemma example_runs : build initial_defaults example_config example_store = (example_run.1, Ok example_built).
Proof. vm_compute. reflexivity. Qed.

Lemma example_defaults : plain_defaults initial_defaults.
Proof. done. Qed.

Lemma example_broadcast : broadcast_of (participants example_store example_config) [2; 3].
Proof.
  change (broadcast_of [[2; 1]; [2; 3]] [2; 3]). split.
  - repeat (apply Forall_cons; split); [unfold expandable; cbn; auto..|constructor].
  - by intros c [_ [H _]%Forall_cons]%Forall_cons.
Qed.

Lemma example_extent : extent_fits [2; 3].
Proof. split; [forall_lia|done]. Qed.

Lemma build_pairs_elements_witness : length (elements example_built) = 6%nat ∧
  ∃ shape, broadcast_of (participants example_store example_config) shape ∧ (extent_fits shape →
    Forall2 (operand_built example_store example_run.1 example_config shape) (tensors_ example_config)
      (operands_ example_built) ∧
    elements example_built ≡ₚ map (λ idx, map (λ op, operand_address example_run.1 op idx) (operands_ example_built))
      (indices shape)).
Proof.
  split; [vm_compute; reflexivity|].
  exact (build_pairs_elements _ _ _ _ _ example_defaults example_store_ok example_config_ok example_runs).
Defined.

Lemma build_in_bounds_witness : elements example_built ≠ [] ∧
  Forall (λ el, Forall2 (in_storage example_run.1) (operands_ example_built) el) (elements example_built).
Proof.
  split; [by vm_compute|].
  exact (build_in_bounds _ _ _ _ _ _ example_defaults example_store_ok example_config_ok example_broadcast
    example_extent example_runs).
Defined.


Lemma build_for_each_witness : ∃ calls, for_each OpenMP (mkThreads 4 false 3) 2 example_built = Some (Ok calls) ∧
  calls_elements (concat calls) ≡ₚ map (λ idx, map (λ op, operand_address example_run.1 op idx)
    (operands_ example_built)) (indices [2; 3]).
Proof.
  apply (build_for_each _ _ _ _ _ _ OpenMP (mkThreads 4 false 3) 2 example_defaults example_store_ok example_config_ok
    example_broadcast example_extent example_runs); cbn; lia.
Defined.

(** Tensors that cannot be broadcast to one shape, and an output of which all
    rows are one. *)
Definition mismatched_store : Store :=
  ((a ← at_empty [2] (mkOptions Float None None); at_empty [3] (mkOptions Float None None)) (mkStore ∅ ∅)).1.
Definition expanded_store : Store := (at_empty_strided [2; 3] [0; 1] (mkOptions Float None None) (mkStore ∅ ∅)).1.
Definition expanded_config : TensorIteratorConfig :=
  match configured (nullary_op_config (Some 1%positive)) with Ok c => c | Throw _ => default_config end.

Lemma empty_store_ok : store_ok (mkStore ∅ ∅).
Proof. intros ? ?. cbn. by rewrite lookup_empty. Qed.

Lemma small_extent l : Forall (λ n, 0 <= n) l → 16 * multiply_integers (map (Z.max 1) l) <= 1024 → extent_fits l.
Proof. intros H1 H2. split; [done|]. unfold int64_max. lia. Qed.

Lemma mismatched_store_ok : store_ok mismatched_store.
Proof.
  pose (m := a ← at_empty [2] (mkOptions Float None None); at_empty [3] (mkOptions Float None None) : method Store tensor_ref).
  assert (wlp m (λ _ s, store_ok s) (mkStore ∅ ∅)) as Hw.
  { unfold m. pose proof empty_store_ok as H0. apply wlp_bind. eapply wlp_mono.
    - apply makes_use, at_empty_law; try done. apply small_extent; [forall_lia|done].
    - intros a s1 (_ & _ & _ & _ & Hs1 & _). eapply wlp_mono.
      + apply makes_use, at_empty_law; try done. apply small_extent; [forall_lia|done].
      + by intros b s2 (_ & _ & _ & _ & Hs2 & _). }
  eapply (wlp_use m _ _ 2%positive mismatched_store Hw). vm_compute. reflexivity.
Qed.

Lemma expanded_store_ok : store_ok expanded_store.
Proof.
  assert (wlp (at_empty_strided [2; 3] [0; 1] (mkOptions Float None None)) (λ _ s, store_ok s) (mkStore ∅ ∅)) as Hw.
  { eapply wlp_mono; [apply makes_use, at_empty_strided_law; try done|by intros a s1 (_ & _ & _ & _ & Hs1 & _)].
    - apply small_extent; [forall_lia|done].
    - repeat constructor; done. }
  eapply (wlp_use _ _ _ 1%positive expanded_store Hw). vm_compute. reflexivity.
Qed.

(** An overlap that is not refused: elements whose indices differ in two
    dimensions have one address. *)
Lemma undetected_overlap : offset [0; 1] [1; 1] = offset [1; 0] [1; 1] ∧ ¬ repeats [2; 2] [1; 1].
Proof.
  split; [reflexivity|]. rewrite zero_strides_repeat; [|repeat constructor; lia|done].
  by intros ([|[|d]] & size & Hd & _).
Qed.

Lemma build_refuses_witness :
  (∃ e, build initial_defaults example_config mismatched_store = (mismatched_store, Throw e)) ∧
  (∃ e, build initial_defaults expanded_config expanded_store = (expanded_store, Throw e)).
Proof.
  split.
  - apply build_refuses; [exact mismatched_store_ok|reflexivity|vm_compute; lia|]. right. intros shape Hall.
    assert (participants mismatched_store example_config = [[2]; [3]]) as E by (vm_compute; reflexivity).
    rewrite E in Hall. apply Forall_cons in Hall as [H2 [H3 _]%Forall_cons]. unfold expandable in *.
    destruct (rev shape) as [|t l]; [done|]. cbn in *. lia.
  - apply build_refuses; [exact expanded_store_ok|reflexivity|vm_compute; lia|]. left. split; [reflexivity|].
    assert (∃ o, tensors expanded_store !! 1%positive = Some o ∧ info_sizes o = [2; 3] ∧ info_strides o = [0; 1])
      as (o & Ho & Hsz & Hst) by (eexists; split; [vm_compute; reflexivity|done]).
    exists 1%positive, o. split; [by left|]. split; [exact Ho|]. left. rewrite Hsz, Hst.
    exists [0; 0], 0%nat, 1. split_and!; [repeat constructor; lia|repeat constructor; lia|done|done].
Defined.
